(* ===== verification/_CoqProject ===== *)
-Q . S2P
Prelude.v
Bitmap.v
Tid.v
SegmentPool.v
PoolLifecycle.v
FileNames.v
SegmentFiles.v
BitmapVersions.v
Tombstones.v
Adoption.v
TopK.v
Memtable.v
MemtableSearch.v
VacuumRedo.v
SegmentRewrite.v
BulkDelete.v
MemtableVacuum.v
MergeSchedule.v
MemtableCycle.v
SegmentFetch.v
FetchQueue.v
StatusPage.v
RecoverSegments.v
Recovery.v
IndexSlots.v
StandbyMemtable.v
FetcherAdopt.v
Replay.v
TaskQueue.v
SegmentSearch.v
Maintenance.v
AccessMethod.v
Half.v
DenseVector.v
SparseVector.v
BitVector.v
