(* ===== verification/Prelude.v ===== *)
(** * A verification library for PostgreSQL-V (root file)

    PostgreSQL-V is a PostgreSQL extension, derived from pgvector, that keeps an
    approximate nearest-neighbour index as a log-structured merge tree.  Paths
    below are relative to src/postgresqlv/src/.

    ** The program

    An index is one slot of a table in shared memory.  New rows go into a
    {i memtable}: a fixed array of vectors in shared memory that many backends
    fill at once, sealed when full and then turned by the flush worker into a
    {i segment}: files on disk (serialised index, tuple ids, row offsets,
    deletion bitmap, metadata) that the vector index worker loads into a
    {i pool} of slots linked in id order.  The worker's maintenance threads
    rebuild segments with many deletions and merge small neighbours.  A search
    takes a snapshot of the memtables, sends the query over a ring in shared
    memory to the worker, which searches the segments on a thread pool, and
    merges the ranked results.  A vacuum marks dead rows in memtables, bitmap
    files and pool.  {i Status pages} in the index relation record which rows
    are in memtables, so that a restart can rebuild them.  A standby rebuilds
    memtables from log records, fetches segment files from the primary through
    a durable queue, and has its worker adopt them.

    ** Files and sources

    Shared vocabulary
    - this file: notations, record update, outcomes of C code, machine integers,
      arrays with C indices, ranges, monadic loops;
    - Bitmap (lsmindex.h): deletion bitmaps;
    - Tid (utils.c): heap tuple ids packed into 64 bits.

    Segments
    - SegmentPool, PoolLifecycle (lsm_segment.c): the pool as an array of slots
      and a linked list, and its life under readers and maintenance threads;
    - FileNames, SegmentFiles, BitmapVersions (lsmindex_io.c, the loaders of
      lsm_segment.c): names and directory scans, byte formats, chunked files,
      the write-then-rename flush, loading, new bitmap subversions;
    - Tombstones (the walks shared by segment_adoption.c and
      segment_vacuum_redo.c), Adoption (segment_adoption.c);
    - SegmentRewrite, MergeSchedule (vector_index_worker.c): rebuilds and merges,
      and which segments are taken next;
    - Maintenance (vector_index_worker.c): the maintenance threads' other tasks;
    - SegmentSearch (vector_index_worker.c, vectorindeximpl.cpp): the threads of
      a search.

    Memtables and searches
    - Memtable (lsmindex.h, lsmindex.c): inserts, one atomic access per step;
    - MemtableCycle (lsmindex.c, lsmbackground.c): rotation, flush, release;
    - TopK, MemtableSearch (lsmindex.c): merging, and [search_lsm_index];
    - AccessMethod (hnswbuild.c, hnswinsert.c, hnswscan.c, ivfbuild.c,
      ivfinsert.c, ivfscan.c, the vector arrays of utils.c): index builds,
      inserts and scans as PostgreSQL calls them;
    - TaskQueue (ringbuffer.c, tasksend.c, vector_index_worker.c): the ring, its
      requests and answers, the data of a task;
    - IndexSlots (lsmindex.c, index_recovery_worker.c): the table of indexes.

    Vacuum, recovery, replication
    - BulkDelete, MemtableVacuum ([bulk_delete_lsm_index] and the worker's
      answer), VacuumRedo (segment_vacuum_redo.c);
    - StatusPage (statuspage.c), RecoverSegments and Recovery
      ([recover_lsm_index_internal] of lsmindex.c);
    - SegmentFetch (segment_fetcher.c, replication_server.c), FetchQueue
      (pending_fetch_queue.c), FetcherAdopt ([segment_fetcher_main]);
    - StandbyMemtable (standby_memtable.c), Replay (replication_rmgr.c).

    Data types
    - Half (halfutils.h): half-precision numbers;
    - DenseVector (vector.c), SparseVector (sparsevec.c, the cast of vector.c),
      BitVector (bitvec.c, bitutils.c, [binary_quantize] of vector.c): the types
      a column of the index can have, their text, distances and order.

    A C struct is a record with the struct's field names, an enum an inductive
    type, a function a definition of the same name; where two files have the
    same name the Module of the component disambiguates it.  A function that
    can raise, run off an array, dereference NULL or not end returns [res]
    below.  Code that other processes can interleave with is cut at its locks
    and atomic accesses: the pieces are the rules of a step relation, or the
    function takes what the others do as an argument, one function per window.

    ** What the theorems show

    - Segment store.  The pointer code of the pool refines insertion into and
      splicing of a list; a pinned slot is neither freed nor reused; a flushed
      segment loads back as it was, and one whose flush was interrupted is
      invisible; a scan picks the newest files that do not overlap.
    - Rewrites.  A rebuild keeps exactly the undeleted rows, a merge every row,
      with their deletion bits; two maintenance threads never claim the same
      segment; upgrading a mapped segment ends in the pool a full load gives.
    - Memtables.  Concurrent inserts get distinct rows inside the array and a
      row marked ready is the inserted one; no memtable is lost between
      rotation and flush; a search's snapshot sees every published row.
    - Search.  With an exact vector library, [search_lsm_index] returns the [k]
      nearest live rows of memtables and segments; the ring is a bounded queue,
      answers match requests, the last search thread publishes.
    - Access methods.  A build keeps vectors and tuple ids in step over its
      batches and fails exactly beyond the allocation limit; a scan returns the
      search's tuples once each; an ivfflat sample is drawn from the table.
    - Vacuum.  Every dead row is marked on disk and in memory, the retry ends,
      and replaying the logged records reaches the same bitmap.
    - Status pages and recovery.  The pages refine a map from memtable ids to
      tuple lists, every call is atomic under crashes, and recovery rebuilds
      memtables with the rows that are in no segment.
    - Replication.  A pulled segment loads on the standby as on the primary; no
      entry of the fetch queue is lost; adoption refines splicing; the standby's
      memtables follow the log; replay builds the primary's index.
    - Data types.  Conversion to half precision rounds to nearest; vectors
      survive printing and reading and are totally ordered; sparse distances
      and comparisons are the dense ones; both Hamming loops count the bits
      that differ.

    Some theorems pin down behaviour that looks unintended: the definition
    follows the code and the theorem states what the code then does (rows
    counted twice after a standby's recovery, a request that waits for ever
    when its task was dropped, vectors of fewer than ten dimensions copied past
    their end, and others; the file headers and theorem comments name them).

    ** Bounds and fuel

    Sizes are the code's: 1024 pool slots, 8 memtable slots, 4 sealed memtables,
    50000 rows in a memtable and so on are constants or, where a
    theorem does not depend on them, parameters.  Loops that are not structural
    take fuel, and running out of it is the outcome [OutOfFuel], which the
    theorems exclude: [list_fuel] and [reserve_fuel] are 1025, one more than a
    list without repetition of 1024 slots; [walk_fuel] is one more than the
    number of blocks of the relation; loops over an array take its length plus
    one; [wait_fuel] is the code's own limit of attempts.  The retry of a vacuum
    and the fetch barrier have termination theorems of their own.

    ** Assumptions

    What the sources call but do not contain is an argument: the vector library
    (knowhere, faiss), PostgreSQL's block ids, pages, heap and table scans,
    [qsort], the heap's answer to a fetch, the network.  The laws assumed of
    them are the classes [BlockIdLaws], [PageLaws], [KnowhereLaws] and the
    named hypotheses [knowhere_ok] and [qsort_ok]; each has a concrete instance
    in the file that uses it.  Distances are elements of a total preorder.
    Shared-memory accesses are taken to be sequentially consistent.  In the data
    types a float is the Standard Library's IEEE binary32, sums are in source
    order (the build's -fassociative-math lets the compiler reorder them), and
    the readers and printers of numbers are arguments.

    ** Not modelled

    - process start-up, signals, latches, thread-pool creation and settings
      (parts of vector_index_worker.c and lsmbackground.c, replication_gucs.c):
      operating-system interaction without state of their own;
    - of pgvector's data types, the operations with square roots (norms, cosine
      distances), aggregates, the binary formats and the type halfvec (halfvec.c,
      halfutils.c), whose operations repeat those of vector;
    - pgvector's own graph and list pages (ivfkmeans.c, most of hnswutils.c and
      ivfutils.c), which the LSM index never reads;
    - the handler tables and cost estimates of hnsw.c and ivfflat.c, and
      hnswvacuum.c and ivfvacuum.c, which only forward;
    - the serialisation of an index object (vectorindeximpl.cpp), an opaque
      byte string here, and the DiskANN build, which is compiled out;
    - libpq and file-transfer calls below the messages of SegmentFetch;
    - [test_consistency], which only logs. *)

From stdpp Require Export base list gmap numbers strings sorting.
From Stdlib Require Export ZArith Lia.


(** ** Scope, hint database *)

Declare Scope dpv_scope.
Delimit Scope dpv_scope with dpv.
Open Scope Z_scope.
Create HintDb dpv.
Create Rewrite HintDb dpv.

(** ** Functional record update

    [r <| proj := v |>] is the C assignment [r.proj = v] on a model record.  A
    record type becomes updatable with one [Settable] instance, its eta
    expansion; the setter of a projection is derived from it. *)

Class Settable (R : Type) := eta_of : R -> R.
Class Update {R A : Type} (proj : R -> A) := update : (A -> A) -> R -> R.

Ltac derive_update R A proj :=
  let e := eval hnf in (eta_of (R := R)) in
  let p := eval pattern proj in e in
  lazymatch p with
  | ?g proj =>
      let t := eval cbv beta in
        (fun (f : A -> A) (r : R) => g (fun r' : R => f (proj r')) r) in
      exact t
  end.

#[global] Hint Extern 0 (@Update ?R ?A ?proj) => derive_update R A proj : typeclass_instances.

Notation "r <| proj := v |>" := (update (proj := proj) (fun _ => v) r)
  (at level 1, left associativity, proj at level 9, v at level 99).
Notation "r <| proj ::= f |>" := (update (proj := proj) f r)
  (at level 1, left associativity, proj at level 9, f at level 99).

(** ** Outcomes of C code

    A modelled function either returns, raises [elog(ERROR)], reads or writes
    outside an array, dereferences NULL, or exhausts the fuel of one of its
    loops.  The last three are never the documented behaviour of the program:
    the theorems show when they cannot happen. *)

Inductive err := ElogError | OutOfBounds | NullDeref | OutOfFuel.

Inductive res (A : Type) := Ok (a : A) | Error (e : err).
Arguments Ok {A} a.
Arguments Error {A} e.

#[global] Instance err_eq_dec : EqDecision err.
Proof. solve_decision. Defined.
#[global] Instance res_ret : MRet res := @Ok.
#[global] Instance res_bind : MBind res :=
  fun A B f m => match m with Ok a => f a | Error e => Error e end.

Definition of_option {A} (e : err) (o : option A) : res A :=
  match o with Some a => Ok a | None => Error e end.

(** A monadic left fold: the [for] loops over an array. *)
Fixpoint foldl_res {A B : Type} (f : B -> A -> res B) (b : B) (l : list A) : res B :=
  match l with
  | [] => Ok b
  | a :: l => b' ← f b a; foldl_res f b' l
  end.

Lemma foldl_res_app {A B} (f : B -> A -> res B) l1 l2 b :
  foldl_res f b (l1 ++ l2) = (b' ← foldl_res f b l1; foldl_res f b' l2).
Proof.
  revert b; induction l1 as [|a l1 IH]; intros b; cbn; [done|].
  destruct (f b a); cbn; [apply IH|done].
Qed.

(** An invariant of the loop that every iteration re-establishes. *)
Lemma foldl_res_ind {A B} (P : list A -> B -> Prop) (f : B -> A -> res B) l b :
  P [] b ->
  (forall done a b, P done b -> done ++ [a] `prefix_of` l -> exists b', f b a = Ok b' /\ P (done ++ [a]) b') ->
  exists b', foldl_res f b l = Ok b' /\ P l b'.
Proof.
  intros H0 Hstep.
  enough (forall l2 l1 b, l = l1 ++ l2 -> P l1 b ->
            exists b', foldl_res f b l2 = Ok b' /\ P l b') as He.
  { apply (He l []); done. }
  induction l2 as [|a l2 IH]; intros l1 b1 Hl HP; cbn.
  - rewrite app_nil_r in Hl; subst. eauto.
  - destruct (Hstep l1 a b1 HP) as (b' & -> & HP').
    { exists l2. by rewrite <-app_assoc. }
    cbn. apply (IH (l1 ++ [a])); [by rewrite <-app_assoc|done].
Qed.

(** ** Machine integers *)

Definition UINT32_MAX : Z := 4294967295.
(** [(uint32_t) -1], the end-of-list sentinel of the segment pool. *)
Definition NIL : Z := UINT32_MAX.
Definition u32 (z : Z) : Z := z mod 2 ^ 32.
Definition u64 (z : Z) : Z := z mod 2 ^ 64.
Definition i32 (z : Z) : Z := (z + 2 ^ 31) mod 2 ^ 32 - 2 ^ 31.
Definition i64 (z : Z) : Z := (z + 2 ^ 63) mod 2 ^ 64 - 2 ^ 63.

Lemma u32_small z : 0 <= z < 2 ^ 32 -> u32 z = z.
Proof. intros. unfold u32. by apply Z.mod_small. Qed.
Lemma u32_range z : 0 <= u32 z < 2 ^ 32.
Proof. apply Z.mod_pos_bound. lia. Qed.
Lemma u32_u32 z : u32 (u32 z) = u32 z.
Proof. apply u32_small, u32_range. Qed.
Lemma u32_add_l a b : u32 (u32 a + b) = u32 (a + b).
Proof. unfold u32. by rewrite Zplus_mod_idemp_l. Qed.
Lemma u32_add_r a b : u32 (a + u32 b) = u32 (a + b).
Proof. unfold u32. by rewrite Zplus_mod_idemp_r. Qed.
Lemma i32_small z : - 2 ^ 31 <= z < 2 ^ 31 -> i32 z = z.
Proof. intros. unfold i32. rewrite Z.mod_small; lia. Qed.
Lemma i64_small z : - 2 ^ 63 <= z < 2 ^ 63 -> i64 z = z.
Proof. intros. unfold i64. rewrite Z.mod_small; lia. Qed.

(** PostgreSQL's [MAXALIGN] on an 8-byte platform. *)
Definition MAXALIGN (z : Z) : Z := Z.land (z + 7) (Z.lnot 7).

Lemma MAXALIGN_eq z : MAXALIGN z = 8 * ((z + 7) / 8).
Proof.
  unfold MAXALIGN. rewrite <-Z.ldiff_land.
  change 7 with (Z.ones 3) at 2. rewrite Z.ldiff_ones_r by lia.
  rewrite Z.shiftl_mul_pow2, Z.shiftr_div_pow2 by lia. change (2 ^ 3) with 8. lia.
Qed.

Lemma MAXALIGN_le z : z <= MAXALIGN z < z + 8.
Proof. rewrite MAXALIGN_eq. pose proof (Z.div_mod (z + 7) 8). pose proof (Z.mod_pos_bound (z+7) 8). lia. Qed.

(** ** C arrays

    An array is a list; an access with a [Z] index is [None] outside
    [0 .. length - 1], and a write there changes nothing. *)

#[global] Instance zlist_lookup {A} : Lookup Z A (list A) :=
  fun i l => if decide (0 <= i) then l !! Z.to_nat i else None.
#[global] Instance zlist_insert {A} : Insert Z A (list A) :=
  fun i x l => if decide (0 <= i) then <[Z.to_nat i := x]> l else l.

Definition zlen {A} (l : list A) : Z := Z.of_nat (length l).

(** Reading [a[i]] and writing [a[i] = x], outside the array an error. *)
Definition arr_get {A} (l : list A) (i : Z) : res A := of_option OutOfBounds (l !! i).
Definition arr_set {A} (l : list A) (i : Z) (x : A) : res (list A) :=
  _ ← arr_get l i; Ok (<[i := x]> l).
Definition arr_upd {A} (l : list A) (i : Z) (f : A -> A) : res (list A) :=
  x ← arr_get l i; Ok (<[i := f x]> l).

Section zarray.
Context {A : Type}.
Implicit Types (l : list A) (i j : Z) (x y : A).

Lemma zlookup_nat l (n : nat) : l !! (Z.of_nat n) = l !! n.
Proof. unfold lookup at 1, zlist_lookup. rewrite decide_True by lia. by rewrite Nat2Z.id. Qed.

Lemma zlookup_lt_Some l i x : l !! i = Some x -> 0 <= i < zlen l.
Proof.
  unfold lookup, zlist_lookup, zlen. case_decide; [|done].
  intros ?%lookup_lt_Some. lia.
Qed.

Lemma zlookup_lt_is_Some l i : 0 <= i < zlen l -> exists x, l !! i = Some x.
Proof.
  unfold lookup, zlist_lookup, zlen. intros ?. rewrite decide_True by lia.
  apply lookup_lt_is_Some_2. lia.
Qed.

Lemma zlookup_neg l i : i < 0 -> l !! i = None.
Proof. intros. unfold lookup, zlist_lookup. by rewrite decide_False by lia. Qed.

Lemma zlookup_ge l i : zlen l <= i -> l !! i = None.
Proof.
  unfold lookup, zlist_lookup, zlen. intros. case_decide; [|done].
  apply lookup_ge_None. lia.
Qed.

Lemma zlen_insert l i x : zlen (<[i := x]> l) = zlen l.
Proof.
  unfold zlen, insert, zlist_insert. case_decide; [|done]. by rewrite length_insert.
Qed.

Lemma length_zinsert l i x : length (<[i := x]> l) = length l.
Proof. unfold insert, zlist_insert. case_decide; [|done]. apply length_insert. Qed.

Lemma zlookup_insert_eq l i x y : l !! i = Some y -> <[i := x]> l !! i = Some x.
Proof.
  intros Hl. pose proof (zlookup_lt_Some _ _ _ Hl) as Hr. unfold zlen in Hr.
  unfold lookup, zlist_lookup, insert, zlist_insert. case_decide; [|lia].
  apply list_lookup_insert_eq. lia.
Qed.

Lemma zlookup_insert_ne l i j x : i <> j -> <[i := x]> l !! j = l !! j.
Proof.
  intros. unfold lookup, zlist_lookup, insert, zlist_insert.
  repeat case_decide; try done. apply list_lookup_insert_ne. lia.
Qed.

Lemma zlookup_insert l i j x :
  <[i := x]> l !! j = if decide (i = j) then (fun _ => x) <$> l !! j else l !! j.
Proof.
  case_decide; [subst|by apply zlookup_insert_ne].
  destruct (l !! j) as [y|] eqn:E; cbn.
  - by eapply zlookup_insert_eq.
  - unfold lookup, zlist_lookup, insert, zlist_insert in *.
    case_decide; [|done]. apply lookup_ge_None. rewrite length_insert. by apply lookup_ge_None.
Qed.

Lemma arr_get_Ok l i x : arr_get l i = Ok x <-> l !! i = Some x.
Proof. unfold arr_get. destruct (l !! i); cbn; naive_solver. Qed.

Lemma arr_set_Some l i x y : l !! i = Some y -> arr_set l i x = Ok (<[i := x]> l).
Proof. intros H. unfold arr_set, arr_get. by rewrite H. Qed.

Lemma arr_upd_Some l i f y : l !! i = Some y -> arr_upd l i f = Ok (<[i := f y]> l).
Proof. intros H. unfold arr_upd, arr_get. by rewrite H. Qed.

Lemma zlookup_app_l l l' i : i < zlen l -> (l ++ l') !! i = l !! i.
Proof.
  unfold lookup, zlist_lookup, zlen. intros. case_decide; [|done].
  apply lookup_app_l. lia.
Qed.

Lemma zlookup_app_r l l' i : zlen l <= i -> (l ++ l') !! i = l' !! (i - zlen l).
Proof.
  unfold lookup, zlist_lookup, zlen. intros. rewrite !decide_True by lia.
  rewrite lookup_app_r by lia. f_equal. lia.
Qed.
End zarray.

Lemma zlen_app {A} (l l' : list A) : zlen (l ++ l') = zlen l + zlen l'.
Proof. unfold zlen. rewrite length_app. lia. Qed.
Lemma zlen_nil {A} : zlen (@nil A) = 0.
Proof. done. Qed.
Lemma zlen_cons {A} (x : A) l : zlen (x :: l) = 1 + zlen l.
Proof. unfold zlen. cbn [length]. lia. Qed.
Lemma zlen_nonneg {A} (l : list A) : 0 <= zlen l.
Proof. unfold zlen. lia. Qed.

Lemma elem_of_zlookup {A} (l : list A) x : x ∈ l <-> exists i, l !! i = Some x.
Proof.
  rewrite list_elem_of_lookup. split.
  - intros (i & Hi). exists (Z.of_nat i). by rewrite zlookup_nat.
  - intros (i & Hi). unfold lookup, zlist_lookup in Hi. case_decide; [|done]. eauto.
Qed.

#[export] Hint Rewrite @zlen_app @zlen_nil @zlen_cons @zlen_insert @length_zinsert : dpv.
#[export] Hint Resolve zlen_nonneg u32_range : dpv.

(** Distinct indices below [n] are at most [n] many (loop fuel). *)
Lemma NoDup_zrange_length (l : list Z) (n : nat) :
  NoDup l -> Forall (fun i => 0 <= i < Z.of_nat n) l -> (length l <= n)%nat.
Proof.
  intros Hnd Hf.
  assert (l ⊆+ seqZ 0 (Z.of_nat n)) as Hs%submseteq_length.
  { apply NoDup_submseteq; [done|]. intros i Hi. apply elem_of_seqZ.
    rewrite Forall_forall in Hf. specialize (Hf i Hi). lia. }
  rewrite length_seqZ in Hs. lia.
Qed.

(** ** Ranges of an array *)

Definition slice {A} (l : list A) (lo hi : Z) : list A :=
  take (Z.to_nat (hi - lo)) (drop (Z.to_nat lo) l).

Section slice.
Context {A : Type}.
Implicit Types (l : list A) (lo hi i : Z).

Lemma slice_nil l lo hi : hi <= lo -> slice l lo hi = [].
Proof. intros. unfold slice. by replace (Z.to_nat (hi - lo)) with 0%nat by lia. Qed.

Lemma slice_cons l lo hi x : l !! lo = Some x -> lo < hi -> slice l lo hi = x :: slice l (lo + 1) hi.
Proof.
  intros Hx Hlt. pose proof (zlookup_lt_Some _ _ _ Hx) as Hr. unfold slice.
  unfold lookup, zlist_lookup in Hx. rewrite decide_True in Hx by lia.
  rewrite (drop_S l x (Z.to_nat lo)) by done.
  replace (Z.to_nat (hi - lo)) with (S (Z.to_nat (hi - (lo + 1)))) by lia. cbn.
  by replace (S (Z.to_nat lo)) with (Z.to_nat (lo + 1)) by lia.
Qed.

Lemma slice_lookup l lo hi (i : nat) x :
  0 <= lo -> slice l lo hi !! i = Some x <-> l !! (lo + Z.of_nat i) = Some x /\ lo + Z.of_nat i < hi.
Proof.
  intros Hlo. unfold slice. rewrite lookup_take_Some, lookup_drop.
  unfold lookup at 2, zlist_lookup. rewrite decide_True by lia.
  replace (Z.to_nat (lo + Z.of_nat i)) with (Z.to_nat lo + i)%nat by lia. intuition lia.
Qed.

Lemma elem_of_slice l lo hi x :
  0 <= lo -> x ∈ slice l lo hi <-> exists i, lo <= i < hi /\ l !! i = Some x.
Proof.
  intros Hlo. rewrite list_elem_of_lookup. split.
  - intros (i & Hi). apply slice_lookup in Hi as [Hi Hlt]; [|done]. exists (lo + Z.of_nat i). split; [lia|done].
  - intros (i & Hi & Hx). exists (Z.to_nat (i - lo)). apply slice_lookup; [done|].
    replace (lo + Z.of_nat (Z.to_nat (i - lo))) with i by lia. split; [done|lia].
Qed.
End slice.

Lemma slice_snoc {A} (l : list A) lo hi x :
  0 <= lo <= hi -> l !! hi = Some x -> slice l lo (hi + 1) = slice l lo hi ++ [x].
Proof.
  intros Hlo Hx. pose proof (zlookup_lt_Some _ _ _ Hx) as Hr. unfold slice.
  replace (Z.to_nat (hi + 1 - lo)) with (S (Z.to_nat (hi - lo))) by lia.
  apply take_S_r. rewrite lookup_drop.
  replace (Z.to_nat lo + Z.to_nat (hi - lo))%nat with (Z.to_nat hi) by lia.
  unfold lookup, zlist_lookup in Hx. by rewrite decide_True in Hx by lia.
Qed.

Lemma slice_full {A} (l : list A) : slice l 0 (zlen l) = l.
Proof. unfold slice, zlen. rewrite drop_0, Z.sub_0_r, Nat2Z.id. by apply firstn_all. Qed.

Lemma slice_slice {A} (l : list A) a b lo hi : 0 <= a -> a <= lo -> lo <= hi -> hi <= b -> slice (slice l a b) (lo - a) (hi - a) = slice l lo hi.
Proof.
  intros Ha Hlo Hh Hb. unfold slice. rewrite skipn_firstn_comm, take_take, drop_drop.
  f_equal; [lia|f_equal; lia].
Qed.

Lemma slice_app_l {A} (l k : list A) lo hi : 0 <= lo -> hi <= zlen l -> slice (l ++ k) lo hi = slice l lo hi.
Proof.
  intros Hlo Hhi. unfold slice, zlen in *. destruct (decide (lo <= hi)).
  - rewrite drop_app_le by lia. apply take_app_le. rewrite length_drop. lia.
  - by replace (Z.to_nat (hi - lo)) with 0%nat by lia.
Qed.

Lemma slice_app_r {A} (l k : list A) lo hi :
  0 <= lo -> slice (l ++ k) (lo + zlen l) (hi + zlen l) = slice k lo hi.
Proof.
  intros Hlo. unfold slice, zlen. replace (hi + Z.of_nat (length l) - (lo + Z.of_nat (length l))) with (hi - lo) by lia.
  rewrite drop_app_ge by lia. do 2 f_equal. lia.
Qed.

Lemma zlen_fmap {A B} (f : A -> B) (l : list A) : zlen (f <$> l) = zlen l.
Proof. unfold zlen. by rewrite length_fmap. Qed.

Lemma zlookup_fmap {A B} (f : A -> B) (l : list A) (i : Z) : (f <$> l) !! i = f <$> (l !! i).
Proof. unfold lookup, zlist_lookup. case_decide; [apply list_lookup_fmap|done]. Qed.

(** ** Counting loops *)

Lemma seqZ_snoc lo n : 0 <= n -> seqZ lo (n + 1) = seqZ lo n ++ [lo + n].
Proof. intros. by rewrite seqZ_app by lia. Qed.

(** [for (i = 0; i < n; i++) b = f(b, i);] with an invariant. *)
Lemma for_loop {B : Type} (P : Z -> B -> Prop) (f : B -> Z -> res B) b n :
  0 <= n -> P 0 b -> (forall i b, 0 <= i < n -> P i b -> exists b', f b i = Ok b' /\ P (i + 1) b') ->
  exists b', foldl_res f b (seqZ 0 n) = Ok b' /\ P n b'.
Proof.
  intros Hn H0 Hs. enough (forall k, 0 <= k -> k <= n -> exists b', foldl_res f b (seqZ 0 k) = Ok b' /\ P k b') as H
    by (apply H; lia).
  apply (natlike_ind (fun k => k <= n -> _)); [eauto|].
  intros k Hk IH Hkn. destruct IH as (b1 & Hb1 & HP); [lia|].
  destruct (Hs k b1) as (b2 & Hb2 & HP2); [lia|done|]. exists b2.
  rewrite <-Z.add_1_r, seqZ_snoc, foldl_res_app, Hb1 by done. cbn [mbind res_bind foldl_res].
  rewrite Z.add_0_l, Hb2. done.
Qed.

Lemma zlist_eq {A} (l k : list A) : zlen l = zlen k -> (forall i, 0 <= i < zlen l -> l !! i = k !! i) -> l = k.
Proof.
  intros Hl Hi. apply list_eq_same_length with (length l); [unfold zlen in Hl; lia|done|].
  intros i x y Hlt Hx Hy. specialize (Hi (Z.of_nat i)). rewrite !zlookup_nat, Hx, Hy in Hi.
  unfold zlen in Hi. by assert (Some x = Some y) as [= ->] by (apply Hi; lia).
Qed.

(** Indexing into a cell and its rest. *)
Lemma zlookup_cons {A} (x : A) (l : list A) (i : Z) : (x :: l) !! i = if i =? 0 then Some x else l !! (i - 1).
Proof.
  destruct (Z.eqb_spec i 0) as [->|]; [done|]. destruct (decide (0 < i)); [|by rewrite !zlookup_neg by lia].
  change (x :: l) with ([x] ++ l). rewrite zlookup_app_r by (rewrite zlen_cons, zlen_nil; lia). by rewrite zlen_cons, zlen_nil.
Qed.

Lemma zinsert_cons {A} (x y : A) (l : list A) (i : Z) : 0 <= i -> <[i := y]> (x :: l) = if i =? 0 then y :: l else x :: <[i - 1 := y]> l.
Proof.
  intros Hi. apply zlist_eq; [rewrite zlen_insert; destruct (Z.eqb_spec i 0); by rewrite !zlen_cons, ?zlen_insert|]. intros j _.
  destruct (Z.eqb_spec i 0) as [->|Hn]; rewrite zlookup_insert, !zlookup_cons, ?zlookup_insert;
    repeat case_decide; destruct (Z.eqb_spec j 0); (done || lia).
Qed.

Lemma zinsert_insert {A} (l : list A) (i : Z) (x y : A) : <[i := x]> (<[i := y]> l) = <[i := x]> l.
Proof. unfold insert, zlist_insert. case_decide; [apply list_insert_insert_eq|done]. Qed.

(** One more element. *)
Lemma take_zsnoc {A} (l : list A) (k : Z) (x : A) : l !! k = Some x -> take (Z.to_nat (k + 1)) l = take (Z.to_nat k) l ++ [x].
Proof.
  intros Hx. pose proof (zlookup_lt_Some _ _ _ Hx). replace (Z.to_nat (k + 1)) with (S (Z.to_nat k)) by lia. apply take_S_r.
  unfold lookup, zlist_lookup in Hx. by rewrite decide_True in Hx by lia.
Qed.

(** [for (i = 0; i < n; i++) dst[base + i] = g(src[i]);] *)
Definition copy_loop {A B} (g : A -> B) (src : list A) (base n : Z) (dst : list B) : res (list B) :=
  foldl_res (fun dst i => x ← arr_get src i; arr_set dst (base + i) (g x)) dst (seqZ 0 n).

Definition copied {A B} (g : A -> B) (src : list A) (dst : list B) (base n : Z) (d : list B) : Prop :=
  zlen d = zlen dst /\ forall k, d !! k = if decide (base <= k < base + n) then g <$> src !! (k - base) else dst !! k.

Lemma copy_loop_spec {A B} (g : A -> B) (src : list A) base n (dst : list B) :
  0 <= n <= zlen src -> 0 <= base -> base + n <= zlen dst ->
  exists d, copy_loop g src base n dst = Ok d /\ copied g src dst base n d.
Proof.
  intros Hn Hb Hd. apply (for_loop (copied g src dst base)); [lia| |].
  - split; [done|]. intros k. by rewrite decide_False by lia.
  - intros i d Hi [Hl Hk]. destruct (zlookup_lt_is_Some src i) as [x Hx]; [lia|].
    destruct (zlookup_lt_is_Some d (base + i)) as [y Hy]; [lia|].
    rewrite (proj2 (arr_get_Ok src i x) Hx). cbn [mbind res_bind]. rewrite (arr_set_Some _ _ _ _ Hy).
    eexists; split; [done|]. split; [by rewrite zlen_insert|]. intros k. rewrite zlookup_insert, Hk.
    destruct (decide (base + i = k)) as [<-|Hne].
    + rewrite <-Hk, Hy. rewrite decide_True by lia. replace (base + i - base) with i by lia. by rewrite Hx.
    + repeat case_decide; (done || lia).
Qed.

(** ** Tactics of the development *)

(** Step through a monadic definition whose reads are known to succeed. *)
Ltac run1 :=
  match goal with
  | H : ?l !! ?i = Some _ |- context [arr_get ?l ?i] =>
      rewrite (proj2 (arr_get_Ok l i _) H)
  | H : ?l !! ?i = Some _ |- context [arr_upd ?l ?i ?f] =>
      rewrite (arr_upd_Some l i f _ H)
  | H : ?l !! ?i = Some _ |- context [arr_set ?l ?i ?x] =>
      rewrite (arr_set_Some l i x _ H)
  end; cbn [mbind res_bind].
Ltac run := repeat run1.

(** Decide the outermost [if] on a linear test. *)
Ltac zcase :=
  match goal with
  | |- context [if (?a =? ?b)%Z then _ else _] => destruct (Z.eqb_spec a b)
  | |- context [if (?a <? ?b)%Z then _ else _] => destruct (Z.ltb_spec a b)
  | |- context [if (?a <=? ?b)%Z then _ else _] => destruct (Z.leb_spec a b)
  end.
