(* ===== verification/Bitmap.v ===== *)
(** Deletion bitmaps ([IS_SLOT_SET], [SET_SLOT], [CLEAR_SLOT],
    [GET_BITMAP_SIZE] of lsmindex.h) over arrays of bytes, their bit-level
    view, the deleted-row counts taken from them and the byte-wise union the
    index worker applies after a vacuum.  A bit outside the array reads as 0;
    the lemmas that need it ask for a bitmap of at least [GET_BITMAP_SIZE]
    bytes. *)

From S2P Require Import Prelude.

Definition GET_BITMAP_SIZE (size : Z) : Z := (size + 7) / 8.

Definition slot_mask (i : Z) : Z := Z.shiftl 1 (Z.land i 7).

Definition IS_SLOT_SET (bitmap : list Z) (i : Z) : bool :=
  match bitmap !! Z.shiftr i 3 with
  | Some byte => negb (Z.land byte (slot_mask i) =? 0)
  | None => false
  end.

Definition SET_SLOT (bitmap : list Z) (i : Z) : list Z :=
  match bitmap !! Z.shiftr i 3 with
  | Some byte => <[Z.shiftr i 3 := Z.lor byte (slot_mask i)]> bitmap
  | None => bitmap
  end.

Definition CLEAR_SLOT (bitmap : list Z) (i : Z) : list Z :=
  match bitmap !! Z.shiftr i 3 with
  | Some byte => <[Z.shiftr i 3 := Z.land byte (Z.lnot (slot_mask i))]> bitmap
  | None => bitmap
  end.

(** A zero-filled bitmap for [n] rows ([calloc(1, GET_BITMAP_SIZE(n))]). *)
Definition zero_bitmap (n : Z) : list Z := replicate (Z.to_nat (GET_BITMAP_SIZE n)) 0.

(** [for (i = 0; i < n; i++) if (IS_SLOT_SET(bitmap, i)) count++]. *)
Definition count_set (bitmap : list Z) (n : Z) : Z :=
  zlen (filter (fun i => IS_SLOT_SET bitmap i = true) (seqZ 0 n)).

(** [for (bi = 0; bi < size; bi++) dst[bi] |= src[bi]]. *)
Definition or_bytes (size : Z) (dst src : list Z) : res (list Z) :=
  foldl_res (fun d bi => s ← arr_get src bi; arr_upd d bi (fun b => Z.lor b s))
    dst (seqZ 0 size).

(** The bitmap is large enough for rows [0 .. n - 1]. *)
Definition covers (bitmap : list Z) (n : Z) : Prop := GET_BITMAP_SIZE n <= zlen bitmap.
Definition bytes_ok (bitmap : list Z) : Prop := Forall (fun b => 0 <= b < 256) bitmap.

Section bits.
Implicit Types (bm : list Z) (i j n : Z).

Lemma slot_mask_bit i : 0 <= i -> slot_mask i = 2 ^ (i mod 8).
Proof.
  intros. unfold slot_mask. change 7 with (Z.ones 3).
  rewrite Z.land_ones, Z.shiftl_1_l by lia. done.
Qed.

Lemma land_pow2_nonzero b k : 0 <= k -> negb (Z.land b (2 ^ k) =? 0) = Z.testbit b k.
Proof.
  intros. destruct (Z.testbit b k) eqn:E.
  - apply negb_true_iff, Z.eqb_neq. intros Hz.
    assert (Z.testbit (Z.land b (2 ^ k)) k = true) as Ht.
    { by rewrite Z.land_spec, E, Z.pow2_bits_true. }
    by rewrite Hz, Z.bits_0 in Ht.
  - apply negb_false_iff, Z.eqb_eq, Z.bits_inj'. intros m Hm.
    rewrite Z.land_spec, Z.bits_0, Z.pow2_bits_eqb by done.
    destruct (Z.eqb_spec k m); [subst; by rewrite E|apply andb_false_r].
Qed.

Lemma shiftr3 i : Z.shiftr i 3 = i / 8.
Proof. by rewrite Z.shiftr_div_pow2 by lia. Qed.

(** The bit view: row [i] is bit [i mod 8] of byte [i / 8]. *)
Lemma IS_SLOT_SET_spec bm i :
  0 <= i ->
  IS_SLOT_SET bm i = match bm !! (i / 8) with Some b => Z.testbit b (i mod 8) | None => false end.
Proof.
  intros. unfold IS_SLOT_SET. rewrite shiftr3. destruct (bm !! (i / 8)); [|done].
  rewrite slot_mask_bit by done. apply land_pow2_nonzero. apply Z.mod_pos_bound. lia.
Qed.

Lemma covers_lookup bm n i : covers bm n -> 0 <= i < n -> exists b, bm !! (i / 8) = Some b.
Proof.
  unfold covers, GET_BITMAP_SIZE. intros. apply zlookup_lt_is_Some.
  pose proof (Z.div_mod i 8). pose proof (Z.mod_pos_bound i 8).
  pose proof (Z.div_mod (n + 7) 8). pose proof (Z.mod_pos_bound (n + 7) 8). lia.
Qed.

(** The first bytes hold the first rows. *)
Lemma IS_SLOT_SET_take bm n i : 0 <= i < n -> IS_SLOT_SET (take (Z.to_nat (GET_BITMAP_SIZE n)) bm) i = IS_SLOT_SET bm i.
Proof.
  intros Hi. rewrite !IS_SLOT_SET_spec by lia.
  assert (Hb : 0 <= i / 8 < GET_BITMAP_SIZE n).
  { unfold GET_BITMAP_SIZE. pose proof (Z.div_mod i 8). pose proof (Z.mod_pos_bound i 8).
    pose proof (Z.div_mod (n + 7) 8). pose proof (Z.mod_pos_bound (n + 7) 8). lia. }
  unfold lookup, zlist_lookup. rewrite !decide_True by lia. rewrite lookup_take_lt by lia. done.
Qed.

Lemma IS_SLOT_SET_SET bm n i j :
  covers bm n -> 0 <= i < n -> 0 <= j ->
  IS_SLOT_SET (SET_SLOT bm i) j = (i =? j) || IS_SLOT_SET bm j.
Proof.
  intros Hc Hi Hj. destruct (covers_lookup bm n i Hc Hi) as [b Hb].
  rewrite !IS_SLOT_SET_spec by done. unfold SET_SLOT. rewrite shiftr3, Hb.
  rewrite slot_mask_bit by lia. rewrite zlookup_insert.
  assert (0 <= i mod 8 < 8 /\ 0 <= j mod 8 < 8) by (split; apply Z.mod_pos_bound; lia).
  case_decide as Hd.
  - rewrite <-Hd, Hb. cbn. rewrite Z.lor_spec, Z.pow2_bits_eqb by lia.
    rewrite orb_comm. f_equal.
    apply eq_bool_prop_intro. rewrite !Is_true_true, !Z.eqb_eq.
    split; [|by intros ->]. intros. rewrite (Z.div_mod i 8), (Z.div_mod j 8); lia.
  - destruct (Z.eqb_spec i j); [subst; done|]. done.
Qed.

Lemma IS_SLOT_SET_CLEAR bm n i j :
  covers bm n -> 0 <= i < n -> 0 <= j ->
  IS_SLOT_SET (CLEAR_SLOT bm i) j = negb (i =? j) && IS_SLOT_SET bm j.
Proof.
  intros Hc Hi Hj. destruct (covers_lookup bm n i Hc Hi) as [b Hb].
  rewrite !IS_SLOT_SET_spec by done. unfold CLEAR_SLOT. rewrite shiftr3, Hb.
  rewrite slot_mask_bit by lia. rewrite zlookup_insert.
  assert (0 <= i mod 8 < 8 /\ 0 <= j mod 8 < 8) by (split; apply Z.mod_pos_bound; lia).
  case_decide as Hd.
  - rewrite <-Hd, Hb. cbn. rewrite Z.land_spec, Z.lnot_spec, Z.pow2_bits_eqb by lia.
    rewrite andb_comm. f_equal. f_equal.
    apply eq_bool_prop_intro. rewrite !Is_true_true, !Z.eqb_eq.
    split; [|by intros ->]. intros. rewrite (Z.div_mod i 8), (Z.div_mod j 8); lia.
  - destruct (Z.eqb_spec i j); [subst; done|]. done.
Qed.

Lemma zlen_SET_SLOT bm i : zlen (SET_SLOT bm i) = zlen bm.
Proof. unfold SET_SLOT. destruct (bm !! Z.shiftr i 3); [apply zlen_insert|done]. Qed.

Lemma covers_SET_SLOT bm i n : covers bm n -> covers (SET_SLOT bm i) n.
Proof. unfold covers. by rewrite zlen_SET_SLOT. Qed.

Lemma zlen_zero_bitmap n : 0 <= n -> zlen (zero_bitmap n) = GET_BITMAP_SIZE n.
Proof.
  intros. unfold zero_bitmap, zlen, GET_BITMAP_SIZE. rewrite length_replicate.
  pose proof (Z.div_pos (n + 7) 8). lia.
Qed.

Lemma covers_zero n : 0 <= n -> covers (zero_bitmap n) n.
Proof. intros. unfold covers. by rewrite zlen_zero_bitmap. Qed.

Lemma IS_SLOT_SET_zero n i : 0 <= i -> IS_SLOT_SET (zero_bitmap n) i = false.
Proof.
  intros. rewrite IS_SLOT_SET_spec by done. unfold zero_bitmap.
  destruct (_ !! (i / 8)) as [b|] eqn:E; [|done].
  unfold lookup, zlist_lookup in E. case_decide; [|done].
  apply lookup_replicate in E as [-> _]. apply Z.bits_0.
Qed.

Lemma count_set_bounds bm n : 0 <= count_set bm n <= Z.max 0 n.
Proof.
  unfold count_set, zlen.
  pose proof (length_filter (fun i => IS_SLOT_SET bm i = true) (seqZ 0 n)) as H.
  rewrite length_seqZ in H. lia.
Qed.

Lemma count_set_succ bm n :
  0 <= n -> count_set bm (n + 1) = count_set bm n + (if IS_SLOT_SET bm n then 1 else 0).
Proof.
  intros. unfold count_set. rewrite seqZ_app, filter_app, zlen_app by lia. f_equal.
  change (seqZ (0 + n) 1) with [0 + n]. rewrite Z.add_0_l. rewrite filter_cons, filter_nil.
  destruct (IS_SLOT_SET bm n); by case_decide.
Qed.

Lemma count_set_0 bm : count_set bm 0 = 0.
Proof. done. Qed.

Lemma count_set_ind (P : Z -> Prop) n : 0 <= n -> P 0 -> (forall k, 0 <= k < n -> P k -> P (k + 1)) -> P n.
Proof.
  intros Hn H0 Hs. enough (forall k, 0 <= k -> k <= n -> P k) as H by (apply H; lia).
  apply (natlike_ind (fun k => k <= n -> P k)); [done|].
  intros k Hk IH Hkn. rewrite <-Z.add_1_r. apply Hs; [lia|]. apply IH. lia.
Qed.

Lemma count_set_neg bm n : n < 0 -> count_set bm n = 0.
Proof. intros. unfold count_set, seqZ. by replace (Z.to_nat n) with 0%nat by lia. Qed.

Lemma count_set_ext bm bm' n :
  (forall i, 0 <= i < n -> IS_SLOT_SET bm i = IS_SLOT_SET bm' i) -> count_set bm n = count_set bm' n.
Proof.
  intros He. destruct (decide (n < 0)); [by rewrite !count_set_neg|].
  apply (count_set_ind (fun k => count_set bm k = count_set bm' k) n); [lia|by rewrite !count_set_0|].
  intros k Hk IH. by rewrite !count_set_succ, IH, He by lia.
Qed.

(** Marking a row that was live adds exactly one to the deleted count. *)
Lemma count_set_SET bm n i :
  covers bm n -> 0 <= i < n -> IS_SLOT_SET bm i = false ->
  count_set (SET_SLOT bm i) n = count_set bm n + 1.
Proof.
  intros Hc Hi Hf.
  enough (forall k, 0 <= k <= n ->
    count_set (SET_SLOT bm i) k = count_set bm k + (if i <? k then 1 else 0)) as H.
  { rewrite H by lia. destruct (Z.ltb_spec i n); lia. }
  intros k [Hk0 Hk]. revert k Hk0 Hk. apply (natlike_ind (fun k => k <= n -> _)).
  - intros _. rewrite !count_set_0. destruct (Z.ltb_spec i 0); lia.
  - intros k Hk0 IH Hk. rewrite <-Z.add_1_r, !count_set_succ, IH by lia.
    rewrite (IS_SLOT_SET_SET bm n) by (done || lia).
    destruct (Z.eqb_spec i k) as [->|]; cbn.
    + rewrite Hf. destruct (Z.ltb_spec k k), (Z.ltb_spec k (k + 1)); lia.
    + destruct (IS_SLOT_SET bm k), (Z.ltb_spec i k), (Z.ltb_spec i (k + 1)); lia.
Qed.

Lemma SET_SLOT_idem_count bm n i :
  covers bm n -> 0 <= i < n -> IS_SLOT_SET bm i = true ->
  count_set (SET_SLOT bm i) n = count_set bm n.
Proof.
  intros Hc Hi Ht. apply count_set_ext. intros j Hj. rewrite (IS_SLOT_SET_SET bm n) by (done || lia).
  destruct (Z.eqb_spec i j); [subst; by rewrite Ht|done].
Qed.

(** Deleting more rows never lowers the count. *)
Lemma count_set_mono bm bm' n :
  0 <= n -> (forall i, 0 <= i < n -> IS_SLOT_SET bm i = true -> IS_SLOT_SET bm' i = true) ->
  count_set bm n <= count_set bm' n.
Proof.
  intros Hn Hi.
  apply (count_set_ind (fun k => count_set bm k <= count_set bm' k) n); [done|by rewrite !count_set_0|].
  intros k Hk IH. rewrite !count_set_succ by lia. specialize (Hi k Hk).
  destruct (IS_SLOT_SET bm k); [rewrite Hi by done; lia|]. destruct (IS_SLOT_SET bm' k); lia.
Qed.
End bits.

(** ** The byte-wise union *)
Section union.
Implicit Types (dst src : list Z).

(** The loop stays inside both arrays, and turns byte [k] into [dst[k] | src[k]]. *)
Lemma or_bytes_spec size dst src :
  0 <= size <= zlen dst -> size <= zlen src ->
  exists d, or_bytes size dst src = Ok d /\ zlen d = zlen dst /\
    forall k, d !! k = if decide (0 <= k < size)
                      then (x ← dst !! k; y ← src !! k; Some (Z.lor x y)) else dst !! k.
Proof.
  intros Hd Hs. unfold or_bytes.
  destruct (foldl_res_ind
    (fun done d => zlen d = zlen dst /\ forall k, d !! k = if decide (k ∈ done)
        then (x ← dst !! k; y ← src !! k; Some (Z.lor x y)) else dst !! k)
    (fun d bi => s ← arr_get src bi; arr_upd d bi (fun b => Z.lor b s))
    (seqZ 0 size) dst) as (d & Hd' & Hlen & Hk).
  - split; [done|]. intros k. by rewrite decide_False by set_solver.
  - intros l a d [Hl Hk] Hpre.
    assert (0 <= a < size /\ a ∉ l) as [Ha Hnl].
    { destruct Hpre as [t Ht]. assert (NoDup (seqZ 0 size)) as Hnd by apply NoDup_seqZ.
      assert (a ∈ seqZ 0 size) as Hin by (rewrite Ht; set_solver).
      apply elem_of_seqZ in Hin. split; [lia|].
      rewrite Ht in Hnd. rewrite <-app_assoc in Hnd. apply NoDup_app in Hnd. set_solver. }
    destruct (zlookup_lt_is_Some src a) as [s Hs']; [lia|].
    destruct (zlookup_lt_is_Some d a) as [x Hx]; [lia|].
    run. eexists; split; [done|]. split; [by rewrite zlen_insert|].
    intros k. rewrite zlookup_insert, !Hk. case_decide as Hak.
    + subst. rewrite (decide_True _ _ (P := k ∈ l ++ [k])) by set_solver.
      rewrite Hk, decide_False in Hx by done. rewrite decide_False by done.
      by rewrite Hx, Hs'.
    + destruct (decide (k ∈ l)).
      * by rewrite decide_True by set_solver.
      * by rewrite decide_False by set_solver.
  - exists d. split; [done|]. split; [done|]. intros k. rewrite Hk.
    destruct (decide (k ∈ seqZ 0 size)) as [Hi|Hi]; rewrite elem_of_seqZ in Hi.
    + by rewrite decide_True by lia.
    + by rewrite decide_False by lia.
Qed.

(** Row view of the union: a row is deleted in the result iff it was
    deleted on either side. *)
Lemma or_bytes_bits n dst src :
  0 <= n -> covers dst n -> covers src n ->
  exists d, or_bytes (GET_BITMAP_SIZE n) dst src = Ok d /\ zlen d = zlen dst /\
    forall i, 0 <= i < n -> IS_SLOT_SET d i = IS_SLOT_SET dst i || IS_SLOT_SET src i.
Proof.
  intros Hn Hd Hs. unfold covers in *.
  assert (0 <= GET_BITMAP_SIZE n) by (apply Z.div_pos; lia).
  destruct (or_bytes_spec (GET_BITMAP_SIZE n) dst src) as (d & Ho & Hl & Hk); [lia..|].
  exists d. repeat split; [done..|]. intros i Hi.
  destruct (covers_lookup dst n i) as [x Hx]; [done..|].
  destruct (covers_lookup src n i) as [y Hy]; [done..|].
  rewrite !IS_SLOT_SET_spec by lia. rewrite Hk, Hx, Hy.
  rewrite decide_True.
  - cbn. apply Z.lor_spec.
  - apply zlookup_lt_Some in Hx as ?. unfold GET_BITMAP_SIZE.
    pose proof (Z.div_mod i 8). pose proof (Z.mod_pos_bound i 8).
    pose proof (Z.div_mod (n + 7) 8). pose proof (Z.mod_pos_bound (n + 7) 8). lia.
Qed.
End union.
