(* ===== verification/Tid.v ===== *)
(** Heap tuple identifiers as 64-bit integers (utils.c): the packing the
    memtables, the mapping files and the status pages store, its inverse and its
    order.  PostgreSQL's block-id accessors
    are the class [BlockId] with their documented laws. *)

From S2P Require Import Prelude.

(** [BlockIdGetBlockNumber] and [BlockIdSet] of PostgreSQL's storage/block.h:
    a block id stores any 32-bit block number and gives it back. *)
Class BlockId (B : Type) := {
  BlockIdGetBlockNumber : B -> Z;
  BlockIdSet : Z -> B }.

Class BlockIdLaws (B : Type) `{BlockId B} : Prop := {
  blkno_range (b : B) : 0 <= BlockIdGetBlockNumber b < 2 ^ 32;
  get_set (n : Z) : 0 <= n < 2 ^ 32 -> BlockIdGetBlockNumber (BlockIdSet n) = n;
  set_get (b : B) : BlockIdSet (BlockIdGetBlockNumber b) = b }.

Record ItemPointerData (B : Type) := mkItemPointer { ip_blkid : B; ip_posid : Z }.
Arguments mkItemPointer {B} _ _.
Arguments ip_blkid {B} _.
Arguments ip_posid {B} _.

Section encoding.
Context {B : Type} `{BlockId B}.

Definition ItemPointerToInt64 (tid : ItemPointerData B) : Z :=
  let blkno := BlockIdGetBlockNumber (ip_blkid tid) in
  let posid := ip_posid tid in
  Z.lor (i64 (Z.shiftl (i64 blkno) 16)) (posid mod 2 ^ 16).

Definition Int64ToItemPointer (encoded : Z) : ItemPointerData B :=
  let blkno := u32 (Z.land (Z.shiftr encoded 16) 0xFFFFFFFF) in
  let posid := Z.land encoded 0xFFFF mod 2 ^ 16 in
  mkItemPointer (BlockIdSet blkno) posid.

(** An [OffsetNumber] is a [uint16]. *)
Definition tid_ok (tid : ItemPointerData B) : Prop := 0 <= ip_posid tid < 2 ^ 16.

(** Block number first, then offset: [ItemPointerCompare]. *)
Definition tid_lt (s t : ItemPointerData B) : Prop :=
  BlockIdGetBlockNumber (ip_blkid s) < BlockIdGetBlockNumber (ip_blkid t) \/
  BlockIdGetBlockNumber (ip_blkid s) = BlockIdGetBlockNumber (ip_blkid t) /\ ip_posid s < ip_posid t.
End encoding.

Section laws.
Context {B : Type} `{BlockIdLaws B}.
Implicit Types s t : ItemPointerData B.

(** The two halves do not overlap: the encoding is [blkno * 2^16 + posid]. *)
Lemma encode_eq t :
  tid_ok t -> ItemPointerToInt64 t = BlockIdGetBlockNumber (ip_blkid t) * 2 ^ 16 + ip_posid t.
Proof.
  unfold tid_ok, ItemPointerToInt64. intros Hp. pose proof (blkno_range (ip_blkid t)) as Hb.
  rewrite Z.mod_small by lia. rewrite (i64_small (BlockIdGetBlockNumber _)) by lia.
  rewrite Z.shiftl_mul_pow2 by lia. rewrite i64_small by lia.
  rewrite <-Z.add_lor_land.
  enough (Z.land (BlockIdGetBlockNumber (ip_blkid t) * 2 ^ 16) (ip_posid t) = 0) as -> by lia.
  apply Z.bits_inj'. intros k Hk. rewrite Z.land_spec, Z.bits_0.
  destruct (Z.ltb_spec k 16) as [Hlt|Hge].
  - by rewrite Z.mul_pow2_bits_low.
  - assert (Z.testbit (ip_posid t) k = false) as ->; [|apply andb_false_r].
    apply Z.bits_above_log2; [lia|]. destruct (decide (ip_posid t = 0)) as [->|]; [cbn; lia|].
    apply Z.log2_lt_pow2; [lia|]. pose proof (Z.pow_le_mono_r 2 16 k). lia.
Qed.

Lemma encode_range t : tid_ok t -> 0 <= ItemPointerToInt64 t < 2 ^ 48.
Proof.
  intros Hp. rewrite encode_eq by done. pose proof (blkno_range (ip_blkid t)).
  unfold tid_ok in Hp. lia.
Qed.

Lemma decode_eq (e : Z) :
  0 <= e < 2 ^ 48 ->
  Int64ToItemPointer (B := B) e = mkItemPointer (BlockIdSet (e / 2 ^ 16)) (e mod 2 ^ 16).
Proof.
  intros He. unfold Int64ToItemPointer. change 0xFFFFFFFF with (Z.ones 32).
  change 0xFFFF with (Z.ones 16). rewrite !Z.land_ones, Z.shiftr_div_pow2 by lia.
  unfold u32. rewrite !Z.mod_mod by lia. f_equal. f_equal.
  apply Z.mod_small. split; [apply Z.div_pos; lia|]. apply Z.div_lt_upper_bound; lia.
Qed.

(** A heap tuple id survives the trip through the 64-bit form stored in
    memtables, mapping files and status pages, and the encoded ids are
    ordered (block, then offset) exactly as the tuple ids are. *)
Theorem tid_roundtrip_and_order s t :
  tid_ok s -> tid_ok t ->
  Int64ToItemPointer (ItemPointerToInt64 t) = t /\
  (ItemPointerToInt64 s < ItemPointerToInt64 t <-> tid_lt s t).
Proof.
  intros Hs Ht. split.
  - pose proof (encode_range t Ht). rewrite decode_eq by done. rewrite encode_eq by done.
    unfold tid_ok in Ht. pose proof (blkno_range (ip_blkid t)).
    rewrite Z.div_add_l, Z.div_small, Z.add_0_r, set_get by lia.
    rewrite Z.add_comm, Z_mod_plus_full, Z.mod_small by lia. by destruct t.
  - rewrite !encode_eq by done. unfold tid_lt, tid_ok in *. lia.
Qed.
End laws.

(** The laws are those of a block id kept as two 16-bit halves, high half first. *)
Definition half_pair_ok (p : Z * Z) : bool :=
  (0 <=? p.1) && (p.1 <? 2 ^ 16) && (0 <=? p.2) && (p.2 <? 2 ^ 16).
Definition BlockIdData : Type := { p : Z * Z | half_pair_ok p = true }.

Lemma half_pair_split n : half_pair_ok (u32 n / 2 ^ 16, u32 n mod 2 ^ 16) = true.
Proof.
  pose proof (u32_range n). pose proof (Z.mod_pos_bound (u32 n) (2 ^ 16)).
  assert (0 <= u32 n / 2 ^ 16 < 2 ^ 16).
  { split; [apply Z.div_pos; lia|apply Z.div_lt_upper_bound; lia]. }
  unfold half_pair_ok. cbn [fst snd].
  repeat (apply andb_true_intro; split); (apply Z.leb_le || apply Z.ltb_lt); lia.
Qed.

#[export] Instance BlockIdData_ops : BlockId BlockIdData := {
  BlockIdGetBlockNumber b := (`b).1 * 2 ^ 16 + (`b).2;
  BlockIdSet n := exist _ (u32 n / 2 ^ 16, u32 n mod 2 ^ 16) (half_pair_split n) }.

#[export] Instance BlockIdData_laws : BlockIdLaws BlockIdData.
Proof.
  assert (forall b : BlockIdData, 0 <= (`b).1 < 2 ^ 16 /\ 0 <= (`b).2 < 2 ^ 16) as Hr.
  { intros [p Hp]. cbn. unfold half_pair_ok in Hp.
    rewrite !andb_true_iff, !Z.leb_le, !Z.ltb_lt in Hp. lia. }
  split.
  - intros b. cbn. specialize (Hr b). lia.
  - intros n Hn. cbn. rewrite u32_small by done. pose proof (Z.div_mod n (2 ^ 16)). lia.
  - intros b. specialize (Hr b). destruct b as [[h l] Hp]. cbn in *. apply eq_sig_hprop.
    { intros x p q. apply (Eqdep_dec.UIP_dec bool_dec). }
    cbn. rewrite u32_small by lia.
    rewrite Z.div_add_l, Z.div_small, Z.add_0_r by lia.
    by rewrite Z.add_comm, Z_mod_plus_full, Z.mod_small by lia.
Qed.

Definition tid_example (blk off : Z) : ItemPointerData BlockIdData := mkItemPointer (BlockIdSet blk) off.

Lemma tid_roundtrip_and_order_witness :
  Int64ToItemPointer (ItemPointerToInt64 (tid_example 70000 7)) = tid_example 70000 7 /\
  (ItemPointerToInt64 (tid_example 4 65535) < ItemPointerToInt64 (tid_example 70000 7) <->
   tid_lt (tid_example 4 65535) (tid_example 70000 7)).
Proof. apply (tid_roundtrip_and_order (tid_example 4 65535) (tid_example 70000 7)); vm_compute; split; congruence. Defined.
