(* ===== verification/SegmentPool.v ===== *)
(** The pool of flushed segments of one index (lsm_segment.c, lsm_segment.h):
    a fixed array of slots, the doubly linked list of the published ones in
    ascending segment-id order, reference counts, and the aggregate counters
    of the merge scheduler's fast path.

    [Module Pool] has the data and one definition per C function; the sections
    after it prove that the pointer operations implement insertion in, search
    of and splicing of a mathematical list ([pool_wf pool l]). *)

From S2P Require Import Prelude.

Inductive IndexType := FLAT | IVFFLAT | HNSW | DISKANN.
Inductive SegmentLoadState := SEG_NOT_LOADED | SEG_MMAP_LOADED | SEG_FULLY_LOADED.
#[global] Instance IndexType_eq_dec : EqDecision IndexType.
Proof. solve_decision. Defined.
#[global] Instance SegmentLoadState_eq_dec : EqDecision SegmentLoadState.
Proof. solve_decision. Defined.

Definition MAX_SEGMENTS_COUNT : Z := 1024.
Definition THRESHOLD_SMALL_SEGMENT_SIZE : Z := 1000000.

(** lsmindex.h: [sid] owns rows [start_offset .. end_offset - 1] of its segment. *)
Record SegmentOffsetRange := mkOffsetRange {
  off_sid : Z; start_offset : Z; end_offset : Z }.
#[global] Instance SegmentOffsetRange_eq_dec : EqDecision SegmentOffsetRange.
Proof. solve_decision. Defined.

(** A pointer to an index object is its opaque address. *)
Record FlushedSegmentData := mkSegment {
  in_used : bool;
  segment_id_start : Z;
  segment_id_end : Z;
  vec_count : Z;
  map_ptr : option (list Z);
  index_type : IndexType;
  index_ptr : option Z;
  bitmap_ptr : option (list Z);
  next_idx : Z;
  prev_idx : Z;
  ref_count : Z;
  load_state : SegmentLoadState;
  delete_count : Z;
  is_compacting : bool;
  version : Z;
  offsets : option (list SegmentOffsetRange);
  offsets_count : Z }.

#[global] Instance eta_FlushedSegmentData : Settable FlushedSegmentData := fun s =>
  mkSegment (in_used s) (segment_id_start s) (segment_id_end s) (vec_count s) (map_ptr s)
    (index_type s) (index_ptr s) (bitmap_ptr s) (next_idx s) (prev_idx s) (ref_count s)
    (load_state s) (delete_count s) (is_compacting s) (version s) (offsets s) (offsets_count s).

(** State of the pool's [pthread_rwlock_t]. *)
Inductive rwlock := Unlocked | ReadHeld (readers : Z) | WriteHeld.

Record FlushedSegmentPool := mkPool {
  seg_lock : rwlock;
  flushed_segments : list FlushedSegmentData;
  flushed_segment_count : Z;
  head_idx : Z;
  tail_idx : Z;
  insert_idx : Z;
  flat_count : Z;
  memtable_capacity_le_count : Z;
  small_segment_le_count : Z }.

#[global] Instance eta_FlushedSegmentPool : Settable FlushedSegmentPool := fun p =>
  mkPool (seg_lock p) (flushed_segments p) (flushed_segment_count p) (head_idx p) (tail_idx p)
    (insert_idx p) (flat_count p) (memtable_capacity_le_count p) (small_segment_le_count p).

(** ** The operations of lsm_segment.c

    [capacity] is the GUC [postgresqlv_memtable_capacity]. *)
Module Pool.

(** The fields [initialize_segment_pool] resets in one slot; the others keep
    what the slot held. *)
Definition initialize_slot (s : FlushedSegmentData) : FlushedSegmentData :=
  s <| in_used := false |> <| next_idx := NIL |> <| prev_idx := NIL |>
    <| ref_count := 0 |> <| load_state := SEG_NOT_LOADED |>
    <| delete_count := 0 |> <| is_compacting := false |> <| version := 0 |>
    <| offsets := None |> <| offsets_count := 0 |>.

Definition initialize_segment_pool (pool : FlushedSegmentPool) : FlushedSegmentPool :=
  pool <| seg_lock := Unlocked |> <| flushed_segment_count := 0 |>
       <| head_idx := NIL |> <| tail_idx := NIL |> <| insert_idx := 0 |>
       <| flat_count := 0 |> <| memtable_capacity_le_count := 0 |>
       <| small_segment_le_count := 0 |>
       <| flushed_segments ::= fmap initialize_slot |>.

Definition atomic_fetch_add_if (c : bool) (counter d : Z) : Z :=
  if c then u32 (counter + d) else counter.

Definition update_pool_stats (capacity : Z) (pool : FlushedSegmentPool)
    (ty : IndexType) (n : Z) (delta : Z) : FlushedSegmentPool :=
  let d := u32 delta in
  pool <| flat_count ::= fun c => atomic_fetch_add_if (bool_decide (ty = FLAT)) c d |>
       <| memtable_capacity_le_count ::= fun c => atomic_fetch_add_if (n <=? u32 capacity) c d |>
       <| small_segment_le_count ::= fun c =>
            atomic_fetch_add_if (n <=? THRESHOLD_SMALL_SEGMENT_SIZE) c d |>.

(** The [for] loop of [reserve_flushed_segment]. *)
Fixpoint reserve_loop (fuel : nat) (segs : list FlushedSegmentData) (idx : Z) : res (option Z) :=
  match fuel with
  | O => Error OutOfFuel
  | S fuel =>
      if idx <? MAX_SEGMENTS_COUNT then
        s ← arr_get segs idx;
        if in_used s then reserve_loop fuel segs (idx + 1) else Ok (Some idx)
      else Ok None
  end.

Definition reserve_fuel : nat := 1025.

Definition reserve_flushed_segment (pool : FlushedSegmentPool) : res (Z * FlushedSegmentPool) :=
  r ← reserve_loop reserve_fuel (flushed_segments pool) (insert_idx pool);
  match r with
  | Some idx =>
      segs ← arr_upd (flushed_segments pool) idx (fun s => s <| in_used := true |>);
      Ok (idx, pool <| insert_idx := idx + 1 |> <| flushed_segments := segs |>)
  | None => Ok (NIL, pool)
  end.

(** The walk from the tail in [register_flushed_segment]. *)
Fixpoint walk_from_tail (fuel : nat) (segs : list FlushedSegmentData) (cur new_start : Z) : res Z :=
  match fuel with
  | O => Error OutOfFuel
  | S fuel =>
      if cur =? NIL then Ok cur
      else
        s ← arr_get segs cur;
        if new_start <? segment_id_start s
        then walk_from_tail fuel segs (prev_idx s) new_start
        else Ok cur
  end.

Definition list_fuel : nat := 1025.

Definition register_flushed_segment (capacity : Z) (pool : FlushedSegmentPool) (idx : Z)
    : res FlushedSegmentPool :=
  new_seg ← arr_get (flushed_segments pool) idx;
  let new_start := segment_id_start new_seg in
  segs ← arr_upd (flushed_segments pool) idx (fun s => s <| ref_count := 1 |>);
  pool ←
    (if head_idx pool =? NIL then
       segs ← arr_upd segs idx (fun s => s <| prev_idx := NIL |> <| next_idx := NIL |>);
       Ok (pool <| flushed_segments := segs |> <| head_idx := idx |> <| tail_idx := idx |>)
     else
       cur ← walk_from_tail list_fuel segs (tail_idx pool) new_start;
       if cur =? NIL then
         let old_head := head_idx pool in
         segs ← arr_upd segs idx (fun s => s <| prev_idx := NIL |> <| next_idx := old_head |>);
         segs ← arr_upd segs old_head (fun s => s <| prev_idx := idx |>);
         Ok (pool <| flushed_segments := segs |> <| head_idx := idx |>)
       else
         c ← arr_get segs cur;
         let after := next_idx c in
         segs ← arr_upd segs idx (fun s => s <| prev_idx := cur |> <| next_idx := after |>);
         segs ← arr_upd segs cur (fun s => s <| next_idx := idx |>);
         if after =? NIL then
           Ok (pool <| flushed_segments := segs |> <| tail_idx := idx |>)
         else
           segs ← arr_upd segs after (fun s => s <| prev_idx := idx |>);
           Ok (pool <| flushed_segments := segs |>));
  let pool := pool <| flushed_segment_count ::= fun c => u32 (c + 1) |> in
  Ok (update_pool_stats capacity pool (index_type new_seg) (u32 (vec_count new_seg)) 1).

(** Releasing the buffers of a slot: each pointer is freed if it is set and
    cleared. *)
Definition free_buffers (s : FlushedSegmentData) : FlushedSegmentData :=
  s <| index_ptr := None |> <| bitmap_ptr := None |> <| map_ptr := None |>
    <| offsets := None |> <| offsets_count := 0 |>.

Definition retire_slot (s : FlushedSegmentData) : FlushedSegmentData :=
  free_buffers s <| in_used := false |> <| next_idx := NIL |> <| prev_idx := NIL |>
    <| ref_count := 0 |>.

Definition rewind_insert_idx (pool : FlushedSegmentPool) (idx : Z) : FlushedSegmentPool :=
  if idx <? insert_idx pool then pool <| insert_idx := idx |> else pool.

(** [trywrlock] succeeds only on a lock nobody holds; otherwise [insert_idx]
    is left alone. *)
Definition cleanup_flushed_segment (pool : FlushedSegmentPool) (idx : Z) : res FlushedSegmentPool :=
  segs ← arr_upd (flushed_segments pool) idx retire_slot;
  let pool := pool <| flushed_segments := segs |>
                   <| flushed_segment_count ::= fun c => u32 (c - 1) |> in
  Ok (match seg_lock pool with
      | Unlocked => rewind_insert_idx pool idx
      | _ => pool
      end).

(** The two atomic accesses of [decrement_flushed_segment_ref_count]. *)
Definition ref_count_fetch_sub (pool : FlushedSegmentPool) (idx : Z) : res FlushedSegmentPool :=
  segs ← arr_upd (flushed_segments pool) idx (fun s => s <| ref_count ::= fun c => i32 (c - 1) |>);
  Ok (pool <| flushed_segments := segs |>).

Definition ref_count_check (pool : FlushedSegmentPool) (idx : Z) : res FlushedSegmentPool :=
  s ← arr_get (flushed_segments pool) idx;
  if ref_count s =? 0 then cleanup_flushed_segment pool idx else Ok pool.

Definition decrement_flushed_segment_ref_count (pool : FlushedSegmentPool) (idx : Z)
    : res FlushedSegmentPool :=
  pool ← ref_count_fetch_sub pool idx; ref_count_check pool idx.

(** A reader pins a published segment ([atomic_fetch_add] on [ref_count]). *)
Definition pin_segment (pool : FlushedSegmentPool) (idx : Z) : res FlushedSegmentPool :=
  segs ← arr_upd (flushed_segments pool) idx (fun s => s <| ref_count ::= fun c => i32 (c + 1) |>);
  Ok (pool <| flushed_segments := segs |>).

Definition discard_reserved_segment (pool : FlushedSegmentPool) (idx : Z) : res FlushedSegmentPool :=
  segs ← arr_upd (flushed_segments pool) idx retire_slot;
  Ok (rewind_insert_idx (pool <| flushed_segments := segs |>) idx).

(** The list walk shared by the search functions: [visit] stops it with an
    answer; the walk ends after [tail_idx] or at the end sentinel. *)
Fixpoint find_by_sids_loop (fuel : nat) (pool : FlushedSegmentPool) (idx start_sid end_sid : Z) : res Z :=
  match fuel with
  | O => Error OutOfFuel
  | S fuel =>
      if idx =? NIL then Ok NIL
      else
        seg ← arr_get (flushed_segments pool) idx;
        if in_used seg && (segment_id_start seg =? start_sid) && (segment_id_end seg =? end_sid)
        then Ok idx
        else if idx =? tail_idx pool then Ok NIL
        else find_by_sids_loop fuel pool (next_idx seg) start_sid end_sid
  end.

Definition find_segment_by_sids (pool : FlushedSegmentPool) (start_sid end_sid : Z) : res Z :=
  find_by_sids_loop list_fuel pool (head_idx pool) start_sid end_sid.

(** The decision taken at the first segment that starts at the target. *)
Definition two_adjacent_at (pool : FlushedSegmentPool) (idx : Z) (seg : FlushedSegmentData)
    (target_end_sid : Z) : res (Z * Z) :=
  if target_end_sid <=? segment_id_end seg then Ok (NIL, NIL)
  else if next_idx seg =? NIL then Ok (NIL, NIL)
  else
    next_seg ← arr_get (flushed_segments pool) (next_idx seg);
    if segment_id_end next_seg =? target_end_sid then Ok (idx, next_idx seg) else Ok (NIL, NIL).

Fixpoint find_two_loop (fuel : nat) (pool : FlushedSegmentPool)
    (idx target_start_sid target_end_sid : Z) : res (Z * Z) :=
  match fuel with
  | O => Error OutOfFuel
  | S fuel =>
      if idx =? NIL then Ok (NIL, NIL)
      else
        seg ← arr_get (flushed_segments pool) idx;
        if in_used seg && (segment_id_start seg =? target_start_sid)
        then two_adjacent_at pool idx seg target_end_sid
        else if idx =? tail_idx pool then Ok (NIL, NIL)
        else find_two_loop fuel pool (next_idx seg) target_start_sid target_end_sid
  end.

Definition find_two_adjacent_segments (pool : FlushedSegmentPool)
    (target_start_sid target_end_sid : Z) : res (Z * Z) :=
  find_two_loop list_fuel pool (head_idx pool) target_start_sid target_end_sid.

(** Statistics of the old segments leave before any of them can be freed. *)
Definition drop_stats (capacity : Z) (pool : FlushedSegmentPool) (old_seg_idxs : list Z)
    : res FlushedSegmentPool :=
  foldl_res (fun pool i =>
      old ← arr_get (flushed_segments pool) i;
      Ok (update_pool_stats capacity pool (index_type old) (u32 (vec_count old)) (-1)))
    pool old_seg_idxs.

Definition set_head_tail (pool : FlushedSegmentPool) (first last new : Z) : FlushedSegmentPool :=
  let pool := if head_idx pool =? first then pool <| head_idx := new |> else pool in
  if tail_idx pool =? last then pool <| tail_idx := new |> else pool.

(** Wiring a slot between two neighbours, either of which may be absent. *)
Definition wire_segment (segs : list FlushedSegmentData) (prev next new : Z)
    : res (list FlushedSegmentData) :=
  segs ← arr_upd segs new (fun s => s <| prev_idx := prev |> <| next_idx := next |>);
  segs ← (if prev =? NIL then Ok segs else arr_upd segs prev (fun s => s <| next_idx := new |>));
  if next =? NIL then Ok segs else arr_upd segs next (fun s => s <| prev_idx := new |>).

Definition replace_flushed_segments_n (capacity : Z) (pool : FlushedSegmentPool)
    (old_seg_idxs : list Z) (new_seg_idx : Z) : res FlushedSegmentPool :=
  match old_seg_idxs with
  | [] => Ok pool
  | first :: _ =>
      let last_idx := List.last old_seg_idxs first in
      first_old ← arr_get (flushed_segments pool) first;
      last_old ← arr_get (flushed_segments pool) last_idx;
      pool ← drop_stats capacity pool old_seg_idxs;
      pool ← foldl_res decrement_flushed_segment_ref_count pool old_seg_idxs;
      let pool := set_head_tail pool first last_idx new_seg_idx in
      segs ← wire_segment (flushed_segments pool) (prev_idx first_old) (next_idx last_old) new_seg_idx;
      segs ← arr_upd segs new_seg_idx (fun s => s <| ref_count := 1 |>);
      new_seg ← arr_get segs new_seg_idx;
      let pool := update_pool_stats capacity (pool <| flushed_segments := segs |>)
                    (index_type new_seg) (u32 (vec_count new_seg)) 1 in
      Ok (pool <| flushed_segment_count ::= fun c => u32 (c - (zlen old_seg_idxs - 1)) |>)
  end.

End Pool.

(** ** Doubly linked lists in the slot array *)

Definition hd_or (d : Z) (l : list Z) : Z := match l with [] => d | i :: _ => i end.
Definition last_or (d : Z) (l : list Z) : Z := List.last l d.

Definition link_of (segs : list FlushedSegmentData) (i : Z) : option (Z * Z) :=
  (fun s => (prev_idx s, next_idx s)) <$> segs !! i.

(** [l] is linked in order, from [p] before its first to [n] after its last slot. *)
Fixpoint chain (segs : list FlushedSegmentData) (p : Z) (l : list Z) (n : Z) : Prop :=
  match l with
  | [] => True
  | i :: l' => link_of segs i = Some (p, hd_or n l') /\ chain segs i l' n
  end.

(** A slot without its two links. *)
Definition payload (s : FlushedSegmentData) : FlushedSegmentData :=
  s <| next_idx := NIL |> <| prev_idx := NIL |>.
Definition payload_at (segs : list FlushedSegmentData) (i : Z) : option FlushedSegmentData :=
  payload <$> segs !! i.

Section chain.
Implicit Types (segs : list FlushedSegmentData) (l : list Z) (i p n : Z).

Lemma last_or_cons d i l : last_or d (i :: l) = last_or i l.
Proof.
  revert d i; induction l as [|j l IH]; intros d i; [done|].
  trans (last_or d (j :: l)); [done|]. by rewrite !IH.
Qed.

Lemma last_or_app d l1 l2 : last_or d (l1 ++ l2) = last_or (last_or d l1) l2.
Proof.
  revert d; induction l1 as [|i l1 IH]; intros d; [done|].
  cbn [app]. by rewrite !last_or_cons, IH.
Qed.

Lemma hd_or_app d l1 l2 : hd_or d (l1 ++ l2) = hd_or (hd_or d l2) l1.
Proof. by destruct l1. Qed.

Lemma hd_or_in d l : l <> [] -> hd_or d l ∈ l.
Proof. destruct l; [done|]. intros _. left. Qed.

Lemma last_or_in d l : l <> [] -> last_or d l ∈ l.
Proof.
  destruct l as [|i l] using rev_ind; [done|]. intros _.
  rewrite last_or_app. cbn. set_solver.
Qed.

Lemma chain_app segs p l1 l2 n :
  chain segs p (l1 ++ l2) n <-> chain segs p l1 (hd_or n l2) /\ chain segs (last_or p l1) l2 n.
Proof.
  revert p; induction l1 as [|i l1 IH]; intros p; cbn [app chain]; [cbn; tauto|].
  rewrite IH, last_or_cons, hd_or_app. tauto.
Qed.

Lemma chain_frame segs segs' p l n :
  (forall i, i ∈ l -> link_of segs' i = link_of segs i) -> chain segs p l n -> chain segs' p l n.
Proof.
  revert p; induction l as [|i l IH]; intros p Hf; cbn; [done|]. intros [Hl Hc]. split.
  - rewrite Hf by set_solver. done.
  - apply IH; [|done]. intros j Hj. apply Hf. set_solver.
Qed.

Lemma chain_lookup segs p l n i :
  chain segs p l n -> i ∈ l -> exists s, segs !! i = Some s.
Proof.
  intros Hc Hi. revert p Hc; induction Hi; intros p [Hl Hc]; [|eauto].
  unfold link_of in Hl. destruct (segs !! x); [eauto|done].
Qed.

Lemma chain_middle segs p l1 i l2 n :
  chain segs p (l1 ++ i :: l2) n ->
  exists s, segs !! i = Some s /\ prev_idx s = last_or p l1 /\ next_idx s = hd_or n l2.
Proof.
  rewrite chain_app. cbn [chain]. intros (_ & Hl & _). unfold link_of in Hl.
  destruct (segs !! i) as [s|]; [|done]. exists s. cbn in Hl. by simplify_eq.
Qed.

Lemma link_of_upd segs i j (f : FlushedSegmentData -> FlushedSegmentData) s :
  segs !! i = Some s ->
  link_of (<[i := f s]> segs) j = if decide (i = j) then Some (prev_idx (f s), next_idx (f s)) else link_of segs j.
Proof.
  intros Hs. unfold link_of. rewrite zlookup_insert. case_decide; [|done]. subst. by rewrite Hs.
Qed.

Lemma payload_at_upd segs i j (f : FlushedSegmentData -> FlushedSegmentData) s :
  segs !! i = Some s -> payload (f s) = payload s ->
  payload_at (<[i := f s]> segs) j = payload_at segs j.
Proof.
  intros Hs Hp. unfold payload_at. rewrite zlookup_insert. case_decide; [|done]. subst.
  rewrite Hs. cbn. by rewrite Hp.
Qed.

Definition slot_or_nil segs i : Prop := i = NIL \/ exists s, segs !! i = Some s.

Lemma payload_at_some segs segs' i :
  (forall j, payload_at segs' j = payload_at segs j) -> slot_or_nil segs i -> slot_or_nil segs' i.
Proof.
  intros Hp [->|[s Hs]]; [by left|right]. specialize (Hp i). unfold payload_at in Hp.
  rewrite Hs in Hp. destruct (segs' !! i); [eauto|done].
Qed.

Lemma set_next_opt segs i v :
  slot_or_nil segs i ->
  exists segs', (if i =? NIL then Ok segs else arr_upd segs i (fun s => s <| next_idx := v |>)) = Ok segs' /\
    zlen segs' = zlen segs /\ (forall j, payload_at segs' j = payload_at segs j) /\
    forall j, link_of segs' j =
      (fun pn => (pn.1, if decide (j = i /\ i <> NIL) then v else pn.2)) <$> link_of segs j.
Proof.
  intros Hi. destruct (Z.eqb_spec i NIL) as [->|Hnil].
  - exists segs. repeat split; [done..|]. intros j. destruct (link_of segs j) as [[]|]; [|done].
    cbn. by rewrite decide_False by naive_solver.
  - destruct Hi as [?|[s Hs]]; [done|]. rewrite (arr_upd_Some _ _ _ _ Hs).
    eexists; split; [done|]. split; [apply zlen_insert|]. split.
    + intros j. by apply (payload_at_upd segs i j (fun s => s <| next_idx := v |>)).
    + intros j. rewrite (link_of_upd segs i j (fun s => s <| next_idx := v |>) s Hs).
      case_decide as Hj; [subst j; unfold link_of; rewrite Hs; cbn; by rewrite decide_True|].
      destruct (link_of segs j) as [[]|]; [|done]. cbn. by rewrite decide_False by naive_solver.
Qed.

Lemma set_prev_opt segs i v :
  slot_or_nil segs i ->
  exists segs', (if i =? NIL then Ok segs else arr_upd segs i (fun s => s <| prev_idx := v |>)) = Ok segs' /\
    zlen segs' = zlen segs /\ (forall j, payload_at segs' j = payload_at segs j) /\
    forall j, link_of segs' j =
      (fun pn => (if decide (j = i /\ i <> NIL) then v else pn.1, pn.2)) <$> link_of segs j.
Proof.
  intros Hi. destruct (Z.eqb_spec i NIL) as [->|Hnil].
  - exists segs. repeat split; [done..|]. intros j. destruct (link_of segs j) as [[]|]; [|done].
    cbn. by rewrite decide_False by naive_solver.
  - destruct Hi as [?|[s Hs]]; [done|]. rewrite (arr_upd_Some _ _ _ _ Hs).
    eexists; split; [done|]. split; [apply zlen_insert|]. split.
    + intros j. by apply (payload_at_upd segs i j (fun s => s <| prev_idx := v |>)).
    + intros j. rewrite (link_of_upd segs i j (fun s => s <| prev_idx := v |>) s Hs).
      case_decide as Hj; [subst j; unfold link_of; rewrite Hs; cbn; by rewrite decide_True|].
      destruct (link_of segs j) as [[]|]; [|done]. cbn. by rewrite decide_False by naive_solver.
Qed.

(** What [wire_segment] leaves behind: the new slot between its neighbours,
    their links to it, every other link and all contents unchanged. *)
Lemma wire_segment_spec segs prev next new :
  slot_or_nil segs prev -> slot_or_nil segs next -> (exists s, segs !! new = Some s) ->
  prev <> new -> next <> new ->
  exists segs', Pool.wire_segment segs prev next new = Ok segs' /\
    zlen segs' = zlen segs /\
    (forall j, payload_at segs' j = payload_at segs j) /\
    link_of segs' new = Some (prev, next) /\
    forall j, j <> new ->
      link_of segs' j = (fun pn => (if decide (j = next /\ next <> NIL) then new else pn.1,
                                   if decide (j = prev /\ prev <> NIL) then new else pn.2))
                       <$> link_of segs j.
Proof.
  intros Hp Hn [s Hs] Hpn Hnn. unfold Pool.wire_segment. run.
  set (f := fun s => s <| prev_idx := prev |> <| next_idx := next |>).
  change (s <| prev_idx := prev |> <| next_idx := next |>) with (f s).
  pose proof (fun j => payload_at_upd segs new j f s Hs eq_refl) as Hp1.
  pose proof (fun j => link_of_upd segs new j f s Hs) as Hl1.
  destruct (set_next_opt (<[new := f s]> segs) prev new) as (s2 & -> & Hz2 & Hp2 & Hl2);
    [by eapply payload_at_some|].
  destruct (set_prev_opt s2 next new) as (s3 & Hs3 & Hz3 & Hp3 & Hl3);
    [do 2 (eapply payload_at_some; [done|]); done|].
  exists s3. cbn [mbind res_bind]. split; [exact Hs3|].
  split; [by rewrite Hz3, Hz2, zlen_insert|]. split; [intros j; by rewrite Hp3, Hp2, Hp1|].
  split; [|intros j Hj]; rewrite Hl3, Hl2, Hl1.
  - rewrite decide_True by done. cbn. by rewrite !decide_False by naive_solver.
  - rewrite (decide_False (P := new = j)) by done. by destruct (link_of segs j) as [[]|].
Qed.

Lemma fmap_links_same (a b j new : Z) (o : option (Z * Z)) :
  a <> j -> b <> j ->
  (fun pn => (if decide (a = j) then new else pn.1, if decide (b = j) then new else pn.2)) <$> o = o.
Proof. intros. destruct o as [[]|]; [|done]. cbn. by rewrite !decide_False by done. Qed.

(** The list-level meaning of that wiring: a span [old] is replaced by one slot. *)
Lemma chain_splice segs segs' p l1 old l3 n new :
  NoDup (l1 ++ l3) -> new ∉ l1 ++ l3 -> NIL ∉ l1 ++ l3 ->
  chain segs p (l1 ++ old ++ l3) n ->
  link_of segs' new = Some (last_or p l1, hd_or n l3) ->
  (forall j, j ∈ l1 ++ l3 ->
    link_of segs' j = (fun pn => (if decide (hd_or NIL l3 = j) then new else pn.1,
                                 if decide (last_or NIL l1 = j) then new else pn.2)) <$> link_of segs j) ->
  chain segs' p (l1 ++ new :: l3) n.
Proof.
  intros Hnd Hnew Hnil Hc Hln Hl. rewrite chain_app in Hc. destruct Hc as [Hc1 Hc].
  rewrite chain_app in Hc. destruct Hc as [_ Hc3].
  apply NoDup_app in Hnd as (Hnd1 & Hdis & Hnd3).
  rewrite chain_app. cbn [chain hd_or]. split; [|split; [done|]].
  - destruct l1 as [|i l1 _] using rev_ind; [done|].
    rewrite chain_app in Hc1 |- *. destruct Hc1 as [Ha Hb]. cbn [hd_or chain] in *.
    destruct Hb as [Hb _].
    assert (Hlast : last_or NIL (l1 ++ [i]) = i) by (by rewrite last_or_app).
    assert (Hh : forall j, j ∈ l1 ++ [i] -> hd_or NIL l3 <> j).
    { intros j Hj Hx. destruct l3 as [|k l3]; cbn in Hx; [set_solver|]. subst. by apply (Hdis j), list_elem_of_here. }
    split; [|split; [|done]].
    + eapply chain_frame; [|exact Ha]. intros j Hj. rewrite Hl by set_solver.
      apply fmap_links_same; [apply Hh; set_solver|]. rewrite Hlast.
      intros ->. apply NoDup_app in Hnd1 as (_ & Hx & _). by apply (Hx j Hj), list_elem_of_singleton.
    + rewrite Hl, Hlast by set_solver. rewrite Hb. cbn.
      rewrite decide_False by (apply Hh; set_solver). by rewrite decide_True.
  - destruct l3 as [|i l3]; [done|]. cbn [chain] in *. destruct Hc3 as [Ha Hb]. cbn [hd_or] in Hl.
    assert (Hh : forall j, j ∈ i :: l3 -> last_or NIL l1 <> j).
    { intros j Hj <-. destruct l1 as [|k l1]; [set_solver|].
      apply (Hdis (last_or NIL (k :: l1))); [by apply last_or_in|done]. }
    split.
    + rewrite Hl by set_solver. rewrite Ha. cbn. rewrite decide_True by done.
      by rewrite decide_False by (apply Hh; set_solver).
    + eapply chain_frame; [|exact Hb]. intros j Hj. rewrite Hl by set_solver.
      apply fmap_links_same; [|apply Hh; set_solver].
      intros ->. by apply NoDup_cons in Hnd3 as [? _].
Qed.
End chain.

(** ** The published list *)

Ltac pool_lia :=
  unfold MAX_SEGMENTS_COUNT, NIL, UINT32_MAX, Pool.list_fuel, Pool.reserve_fuel in *; lia.

Definition start_of (segs : list FlushedSegmentData) (i : Z) : Z :=
  match segs !! i with Some s => segment_id_start s | None => 0 end.

(** The slots of [l] are distinct, in use, linked in order and sorted by their
    first segment id: the order every consumer of the list relies on. *)
Record list_wf (segs : list FlushedSegmentData) (l : list Z) : Prop := {
  lw_len : zlen segs = MAX_SEGMENTS_COUNT;
  lw_nodup : NoDup l;
  lw_chain : chain segs NIL l NIL;
  lw_used : forall i s, i ∈ l -> segs !! i = Some s -> in_used s = true;
  lw_sorted : StronglySorted (fun i j => start_of segs i <= start_of segs j) l }.

(** [l] is the published list of [pool]; every published slot is referenced. *)
Record pool_wf (pool : FlushedSegmentPool) (l : list Z) : Prop := {
  pw_list : list_wf (flushed_segments pool) l;
  pw_refs : forall i s, i ∈ l -> flushed_segments pool !! i = Some s -> 1 <= ref_count s < 2 ^ 31;
  pw_head : head_idx pool = hd_or NIL l;
  pw_tail : tail_idx pool = last_or NIL l;
  pw_insert : 0 <= insert_idx pool <= MAX_SEGMENTS_COUNT }.

Section published.
Implicit Types (segs : list FlushedSegmentData) (l olds : list Z) (pool : FlushedSegmentPool).

Lemma payload_proj {A} (f : FlushedSegmentData -> A) segs segs' i :
  (forall s, f (payload s) = f s) -> payload_at segs' i = payload_at segs i ->
  f <$> segs' !! i = f <$> segs !! i.
Proof.
  intros Hf Hp. unfold payload_at in Hp.
  destruct (segs' !! i) as [s'|], (segs !! i) as [s|]; cbn in Hp |- *; try done.
  f_equal. rewrite <-(Hf s'), <-(Hf s). assert (payload s' = payload s) as -> by congruence. done.
Qed.

Lemma start_of_eq segs segs' i :
  payload_at segs' i = payload_at segs i -> start_of segs' i = start_of segs i.
Proof.
  intros Hp. pose proof (payload_proj segment_id_start segs segs' i (fun _ => eq_refl) Hp) as H.
  unfold start_of. destruct (segs' !! i), (segs !! i); cbn in H; by simplify_eq.
Qed.

Lemma list_wf_slot segs l i : list_wf segs l -> i ∈ l -> exists s, segs !! i = Some s.
Proof. intros [_ _ Hc _ _] Hi. by eapply chain_lookup. Qed.

Lemma list_wf_range segs l i : list_wf segs l -> i ∈ l -> 0 <= i < MAX_SEGMENTS_COUNT.
Proof.
  intros Hw Hi. destruct (list_wf_slot _ _ _ Hw Hi) as [s Hs].
  apply zlookup_lt_Some in Hs. by rewrite (lw_len _ _ Hw) in Hs.
Qed.

Lemma list_wf_not_nil segs l : list_wf segs l -> NIL ∉ l.
Proof. intros Hw Hi%(list_wf_range _ _ _ Hw). pool_lia. Qed.

(** The list fuel covers every list: it has at most [MAX_SEGMENTS_COUNT] slots. *)
Lemma list_wf_fuel segs l : list_wf segs l -> (length l < Pool.list_fuel)%nat.
Proof.
  intros Hw. unfold Pool.list_fuel.
  enough (length l <= 1024)%nat by lia. apply NoDup_zrange_length; [apply Hw|].
  apply Forall_forall. intros i Hi. apply (list_wf_range _ _ _ Hw Hi).
Qed.

Lemma StronglySorted_app_inv {A} (R : A -> A -> Prop) (l1 l2 : list A) :
  StronglySorted R (l1 ++ l2) <->
  StronglySorted R l1 /\ StronglySorted R l2 /\ forall x y, x ∈ l1 -> y ∈ l2 -> R x y.
Proof.
  induction l1 as [|a l1 IH]; cbn.
  - split; [|tauto]. intros. split; [constructor|]. split; [done|]. by intros x y Hx%elem_of_nil.
  - split.
    + intros [Hs Hf]%StronglySorted_inv. apply IH in Hs as (H1 & H2 & H3).
      rewrite Forall_forall in Hf. split; [constructor; [done|]|split; [done|]].
      * apply Forall_forall. intros. apply Hf. set_solver.
      * intros x y [->|Hx]%elem_of_cons Hy; [apply Hf; set_solver|by apply H3].
    + intros ([Hs Hf]%StronglySorted_inv & H2 & H3). rewrite Forall_forall in Hf. constructor.
      * apply IH. split; [done|]. split; [done|]. intros. apply H3; set_solver.
      * apply Forall_forall. intros x [Hx|Hx]%elem_of_app; [by apply Hf|apply H3; set_solver].
Qed.

Lemma StronglySorted_ext {A} (R R' : A -> A -> Prop) (l : list A) :
  (forall x y, x ∈ l -> y ∈ l -> R x y -> R' x y) -> StronglySorted R l -> StronglySorted R' l.
Proof.
  induction l as [|a l IH]; intros He; [constructor|].
  intros [Hs Hf]%StronglySorted_inv. rewrite Forall_forall in Hf. constructor.
  - apply IH; [|done]. intros. apply He; set_solver.
  - apply Forall_forall. intros x Hx. apply He; [set_solver..|by apply Hf].
Qed.

Lemma NoDup_drop_middle {A} (l1 l2 l3 : list A) : NoDup (l1 ++ l2 ++ l3) -> NoDup (l1 ++ l3).
Proof.
  rewrite !NoDup_app. intros (H1 & H2 & _ & _ & H3). split; [done|]. split; [|done].
  intros x Hx Hy. apply (H2 x Hx), elem_of_app. by right.
Qed.

Lemma NoDup_insert_middle {A} (l1 l2 : list A) x : NoDup (l1 ++ l2) -> x ∉ l1 ++ l2 -> NoDup (l1 ++ x :: l2).
Proof.
  rewrite !NoDup_app, NoDup_cons, not_elem_of_app. intros (H1 & H2 & H3) [Hx1 Hx2].
  split; [done|]. split; [|done]. intros y Hy [->|Hy']%elem_of_cons; [done|]. by apply (H2 y).
Qed.

(** Wiring slot [new] in place of the span [old] of a well-formed list, in an
    array [segs0] that may already differ outside the rest of the list. *)
Lemma wire_wf segs segs0 l1 old l3 new s :
  list_wf segs (l1 ++ old ++ l3) -> zlen segs0 = zlen segs ->
  (forall j, j ∈ l1 ++ l3 -> segs0 !! j = segs !! j) ->
  new ∉ l1 ++ l3 -> segs0 !! new = Some s -> in_used s = true ->
  (forall i, i ∈ l1 -> start_of segs i <= segment_id_start s) ->
  (forall i, i ∈ l3 -> segment_id_start s <= start_of segs i) ->
  exists segs', Pool.wire_segment segs0 (last_or NIL l1) (hd_or NIL l3) new = Ok segs' /\
    list_wf segs' (l1 ++ new :: l3) /\ (forall j, payload_at segs' j = payload_at segs0 j).
Proof.
  intros Hw Hz Hsame Hnew Hs Hu Hs1 Hs3.
  pose proof (list_wf_not_nil _ _ Hw) as Hnil.
  assert (Hslot : forall j, j ∈ l1 ++ l3 -> exists sj, segs0 !! j = Some sj).
  { intros j Hj. rewrite Hsame by done. apply (list_wf_slot _ _ _ Hw). set_solver. }
  assert (Hnn : new <> NIL).
  { intros ->. apply zlookup_lt_Some in Hs. rewrite Hz, (lw_len _ _ Hw) in Hs. pool_lia. }
  assert (Hnd : NoDup (l1 ++ l3)).
  { by eapply NoDup_drop_middle, (lw_nodup _ _ Hw). }
  destruct (wire_segment_spec segs0 (last_or NIL l1) (hd_or NIL l3) new) as (segs' & Hwire & Hz' & Hp & Hln & Hl).
  { destruct l1; [by left|right]. apply Hslot, elem_of_app. left. by apply last_or_in. }
  { destruct l3; [by left|right]. apply Hslot, elem_of_app. right. by apply hd_or_in. }
  { eauto. }
  { intros Heq. destruct l1 as [|a l1]; [by subst|].
    apply Hnew, elem_of_app. left. rewrite <-Heq. by apply last_or_in. }
  { intros Heq. destruct l3 as [|a l3]; [by subst|].
    apply Hnew, elem_of_app. right. rewrite <-Heq. by apply hd_or_in. }
  exists segs'. split; [exact Hwire|]. split; [|exact Hp].
  assert (Hst : forall j, j ∈ l1 ++ l3 -> start_of segs' j = start_of segs j).
  { intros j Hj. rewrite (start_of_eq segs0 segs') by done. unfold start_of. by rewrite Hsame. }
  assert (Hstn : start_of segs' new = segment_id_start s).
  { rewrite (start_of_eq segs0 segs') by done. unfold start_of. by rewrite Hs. }
  split.
  - by rewrite Hz', Hz, (lw_len _ _ Hw).
  - by apply NoDup_insert_middle.
  - apply (chain_splice segs segs' NIL l1 old l3); [done|done|set_solver|apply Hw|done|].
    intros j Hj. rewrite Hl by (intros ->; done).
    assert (link_of segs0 j = link_of segs j) as -> by (unfold link_of; by rewrite Hsame).
    assert (j <> NIL) by (intros ->; set_solver).
    destruct (link_of segs j) as [[a b]|]; [|done]. cbn.
    rewrite (decide_ext (j = hd_or NIL l3 /\ _) (hd_or NIL l3 = j)) by (split; [by intros [-> _]|intros <-; done]).
    by rewrite (decide_ext (j = last_or NIL l1 /\ _) (last_or NIL l1 = j)) by (split; [by intros [-> _]|intros <-; done]).
  - intros j sj Hj Hsj.
    assert (exists s0, segs0 !! j = Some s0 /\ in_used s0 = true) as (s0 & Hs0 & Hu0).
    { apply elem_of_app in Hj as [Hj|[->|Hj]%elem_of_cons]; [|by eauto|];
      (destruct (Hslot j ltac:(set_solver)) as [s0 Hs0]; exists s0; split; [done|];
       apply (lw_used _ _ Hw j); [set_solver|rewrite <-Hsame by set_solver; done]). }
    pose proof (payload_proj in_used segs0 segs' j (fun _ => eq_refl) (Hp j)) as Hx.
    rewrite Hsj, Hs0 in Hx. cbn in Hx. congruence.
  - pose proof (lw_sorted _ _ Hw) as Hso. rewrite !StronglySorted_app_inv in Hso.
    destruct Hso as (Ha & (_ & Hc & _) & Hac). rewrite StronglySorted_app_inv. split; [|split].
    + eapply StronglySorted_ext; [|exact Ha]. cbn. intros. by rewrite !Hst by set_solver.
    + constructor.
      * eapply StronglySorted_ext; [|exact Hc]. cbn. intros. by rewrite !Hst by set_solver.
      * apply Forall_forall. intros j Hj. rewrite Hstn, Hst by set_solver. by apply Hs3.
    + intros x y Hx [->|Hy]%elem_of_cons; rewrite ?Hstn, !Hst by set_solver; [by apply Hs1|].
      apply Hac; set_solver.
Qed.
(** The list does not depend on the slots outside it. *)
Lemma list_wf_frame segs segs' l :
  zlen segs' = zlen segs -> (forall j, j ∈ l -> segs' !! j = segs !! j) -> list_wf segs l -> list_wf segs' l.
Proof.
  intros Hz Hsame Hw. split.
  - rewrite Hz. apply Hw.
  - apply Hw.
  - eapply chain_frame; [|apply Hw]. intros i Hi. unfold link_of. by rewrite Hsame.
  - intros i s Hi Hs. rewrite Hsame in Hs by done. by apply (lw_used _ _ Hw i).
  - eapply StronglySorted_ext; [|apply (lw_sorted _ _ Hw)]. cbn. intros x y Hx Hy.
    unfold start_of. by rewrite !Hsame.
Qed.

(** The walk from the tail stops at the last slot that does not start after
    the new segment. *)
Lemma walk_spec segs l1 l2 n start fuel :
  (length l2 < fuel)%nat -> chain segs NIL (l1 ++ l2) n -> NIL ∉ l1 ++ l2 ->
  (forall i, i ∈ l2 -> start < start_of segs i) ->
  (forall i, i ∈ l1 -> start_of segs i <= start) ->
  Pool.walk_from_tail fuel segs (last_or NIL (l1 ++ l2)) start = Ok (last_or NIL l1).
Proof.
  revert n fuel; induction l2 as [|i l2 IH] using rev_ind; intros n fuel Hf Hc Hnil H2 H1.
  - rewrite app_nil_r in *. destruct fuel; [cbn in Hf; lia|]. cbn.
    destruct (Z.eqb_spec (last_or NIL l1) NIL) as [|Hn]; [done|].
    destruct l1 as [|a l1]; [done|]. pose proof (last_or_in NIL (a :: l1) ltac:(done)) as Hin.
    destruct (chain_lookup _ _ _ _ _ Hc Hin) as [s Hs]. run.
    specialize (H1 _ Hin). unfold start_of in H1. rewrite Hs in H1.
    destruct (Z.ltb_spec start (segment_id_start s)); [lia|done].
  - rewrite length_app in Hf. cbn in Hf. rewrite app_assoc in Hc |- *. rewrite last_or_app. cbn [last_or List.last].
    destruct (chain_middle _ _ _ _ [] _ Hc) as (s & Hs & Hp & _).
    destruct fuel as [|fuel]; [lia|]. cbn.
    destruct (Z.eqb_spec i NIL) as [->|]; [set_solver|]. run.
    specialize (H2 i ltac:(set_solver)) as Hi. unfold start_of in Hi. rewrite Hs in Hi.
    destruct (Z.ltb_spec start (segment_id_start s)); [|lia]. rewrite Hp.
    apply chain_app in Hc as [Hc _]. apply (IH (hd_or n [i]) fuel); [lia|exact Hc|set_solver| |done].
    intros j Hj. apply H2. set_solver.
Qed.

Lemma sorted_split segs l x :
  StronglySorted (fun i j => start_of segs i <= start_of segs j) l ->
  exists l1 l3, l = l1 ++ l3 /\ (forall i, i ∈ l1 -> start_of segs i <= x) /\
                (forall i, i ∈ l3 -> x < start_of segs i).
Proof.
  induction l as [|a l IH]; intros Hs.
  - exists [], []. split; [done|]. split; by intros i ?%elem_of_nil.
  - apply StronglySorted_inv in Hs as [Hs Hf]. rewrite Forall_forall in Hf.
    destruct (decide (start_of segs a <= x)).
    + destruct (IH Hs) as (l1 & l3 & -> & H1 & H3). exists (a :: l1), l3. split; [done|].
      split; [|done]. intros i [->|Hi]%elem_of_cons; [done|by apply H1].
    + exists [], (a :: l). split; [done|]. split; [by intros i ?%elem_of_nil|].
      intros i [->|Hi]%elem_of_cons; [lia|]. specialize (Hf i Hi). lia.
Qed.

Lemma pool_eta pool : pool <| flushed_segments := flushed_segments pool |> = pool.
Proof. by destruct pool. Qed.

Lemma arr_upd_inv {A} (a a' : list A) i f : arr_upd a i f = Ok a' -> exists x, a !! i = Some x /\ a' = <[i := f x]> a.
Proof. unfold arr_upd, arr_get. destruct (a !! i) eqn:E; cbn; [|done]. intros [= <-]. eauto. Qed.

(** Every branch of [register_flushed_segment] is the one wiring. *)
Lemma register_wires cap pool l1 l3 idx s :
  pool_wf pool (l1 ++ l3) -> flushed_segments pool !! idx = Some s -> idx ∉ l1 ++ l3 ->
  (forall i, i ∈ l1 -> start_of (flushed_segments pool) i <= segment_id_start s) ->
  (forall i, i ∈ l3 -> segment_id_start s < start_of (flushed_segments pool) i) ->
  let segs0 := <[idx := s <| ref_count := 1 |>]> (flushed_segments pool) in
  Pool.register_flushed_segment cap pool idx =
    (segs ← Pool.wire_segment segs0 (last_or NIL l1) (hd_or NIL l3) idx;
     Ok (Pool.update_pool_stats cap
           (pool <| flushed_segments := segs |> <| head_idx := hd_or idx l1 |>
                 <| tail_idx := last_or idx l3 |> <| flushed_segment_count ::= fun c => u32 (c + 1) |>)
           (index_type s) (u32 (vec_count s)) 1)).
Proof.
  intros Hw Hs Hidx H1 H3 segs0. unfold Pool.register_flushed_segment. run. fold segs0.
  pose proof (list_wf_not_nil _ _ (pw_list _ _ Hw)) as Hnil.
  assert (Hw0 : list_wf segs0 (l1 ++ l3)).
  { eapply list_wf_frame; [apply zlen_insert| |apply Hw]. intros j Hj.
    apply zlookup_insert_ne. by intros ->. }
  assert (Hidx0 : segs0 !! idx = Some (s <| ref_count := 1 |>)) by (by eapply zlookup_insert_eq).
  assert (Hst : forall i, i ∈ l1 ++ l3 -> start_of segs0 i = start_of (flushed_segments pool) i).
  { intros j Hj. unfold start_of, segs0. rewrite zlookup_insert_ne; [done|by intros ->]. }
  pose proof (pw_head _ _ Hw) as Hh. pose proof (pw_tail _ _ Hw) as Ht.
  assert (Hhd : head_idx pool = NIL <-> l1 ++ l3 = []).
  { rewrite Hh. split; [|by intros ->]. intros Hx. destruct (l1 ++ l3) as [|a r]; [done|].
    cbn in Hx. set_solver. }
  destruct (Z.eqb_spec (head_idx pool) NIL) as [Hn|Hn].
  - apply Hhd, app_eq_nil in Hn as [-> ->]. unfold Pool.wire_segment. run. cbn. done.
  - rewrite Ht. rewrite (walk_spec segs0 l1 l3 NIL); [|..].
    2: { pose proof (list_wf_fuel _ _ Hw0) as Hf. rewrite length_app in Hf. lia. }
    2: apply Hw0. 2: done.
    2: { intros i Hi. rewrite Hst by set_solver. by apply H3. }
    2: { intros i Hi. rewrite Hst by set_solver. by apply H1. }
    cbn [mbind res_bind]. destruct l1 as [|a l1].
    + cbn [app] in *. change (last_or NIL []) with NIL. rewrite Z.eqb_refl. rewrite Hh.
      destruct l3 as [|b l3]; [by exfalso; apply Hn, Hhd|]. unfold Pool.wire_segment. run.
      rewrite Z.eqb_refl. cbn [hd_or mbind res_bind]. destruct (Z.eqb_spec b NIL); [set_solver|].
      set (segs1 := <[idx := _]> segs0).
      destruct (arr_upd segs1 b _) as [segs2|]; [|done]. cbn [mbind res_bind].
      assert (last_or idx (b :: l3) = tail_idx pool) as -> by (by rewrite Ht, !last_or_cons).
      by destruct pool.
    + pose proof (last_or_in NIL (a :: l1) ltac:(done)) as Hin.
      destruct (Z.eqb_spec (last_or NIL (a :: l1)) NIL) as [Hx|Hx]; [rewrite Hx in Hin; set_solver|].
      assert (exists c, segs0 !! last_or NIL (a :: l1) = Some c /\ next_idx c = hd_or NIL l3) as (c & Hc & Hcn).
      { pose proof (lw_chain _ _ Hw0) as Hch. destruct (exists_last (l := a :: l1)) as (k & z & Hk); [done|].
        rewrite Hk in Hch |- *. rewrite <-app_assoc in Hch. apply chain_middle in Hch as (c & ? & _ & ?).
        exists c. by rewrite last_or_app. }
      run. rewrite Hcn. unfold Pool.wire_segment. run.
      set (segs1 := <[idx := _]> segs0). destruct (Z.eqb_spec (last_or NIL (a :: l1)) NIL); [done|].
      destruct (arr_upd segs1 _ _) as [segs2|]; [|done]. cbn [mbind res_bind].
      assert (hd_or idx (a :: l1) = head_idx pool) as -> by (by rewrite Hh).
      destruct l3 as [|b l3]; cbn [hd_or].
      * rewrite Z.eqb_refl. cbn [mbind res_bind]. by destruct pool.
      * destruct (Z.eqb_spec b NIL); [set_solver|].
        destruct (arr_upd segs2 b _); [|done]. cbn [mbind res_bind].
        assert (last_or idx (b :: l3) = tail_idx pool) as ->.
        { by rewrite Ht, last_or_app, !last_or_cons. }
        by destruct pool.
Qed.
End published.

(** ** Statistics

    The three aggregate counters count published segments (modulo 2^32, as
    the C atomics do). *)

Definition stat_sum (f : FlushedSegmentData -> bool) (segs : list FlushedSegmentData) (l : list Z) : Z :=
  foldr (fun i acc => (match segs !! i with Some s => if f s then 1 else 0 | None => 0 end) + acc) 0 l.

Definition is_flat (s : FlushedSegmentData) : bool := bool_decide (index_type s = FLAT).
Definition fits_memtable (cap : Z) (s : FlushedSegmentData) : bool := u32 (vec_count s) <=? u32 cap.
Definition is_small (s : FlushedSegmentData) : bool := u32 (vec_count s) <=? THRESHOLD_SMALL_SEGMENT_SIZE.

Definition stats_exact (cap : Z) (pool : FlushedSegmentPool) (l : list Z) : Prop :=
  flat_count pool = u32 (stat_sum is_flat (flushed_segments pool) l) /\
  memtable_capacity_le_count pool = u32 (stat_sum (fits_memtable cap) (flushed_segments pool) l) /\
  small_segment_le_count pool = u32 (stat_sum is_small (flushed_segments pool) l).

Section stats.
Implicit Types (segs : list FlushedSegmentData) (l : list Z) (pool : FlushedSegmentPool).

Lemma stat_sum_step f segs i l :
  stat_sum f segs (i :: l) =
  (match segs !! i with Some s => if f s then 1 else 0 | None => 0 end) + stat_sum f segs l.
Proof. done. Qed.

Lemma stat_sum_app f segs l1 l2 : stat_sum f segs (l1 ++ l2) = stat_sum f segs l1 + stat_sum f segs l2.
Proof. induction l1 as [|i l1 IH]; [done|]. cbn [app]. rewrite !stat_sum_step, IH. lia. Qed.

Lemma stat_sum_cons f segs i l s :
  segs !! i = Some s -> stat_sum f segs (i :: l) = (if f s then 1 else 0) + stat_sum f segs l.
Proof. intros Hs. by rewrite stat_sum_step, Hs. Qed.

#[local] Instance stat_sum_proper f segs : Proper (Permutation ==> eq) (stat_sum f segs).
Proof. intros l l' Hl. induction Hl; rewrite ?stat_sum_step; lia. Qed.

Lemma stat_sum_bounds f segs l : 0 <= stat_sum f segs l <= zlen l.
Proof.
  induction l as [|i l IH]; [done|]. rewrite zlen_cons, stat_sum_step.
  destruct (segs !! i) as [s|]; [destruct (f s)|]; lia.
Qed.

Lemma stat_sum_ext f segs segs' l :
  (forall s, f (payload s) = f s) -> (forall i, i ∈ l -> payload_at segs' i = payload_at segs i) ->
  stat_sum f segs' l = stat_sum f segs l.
Proof.
  intros Hf Hp. induction l as [|i l IH]; [done|].
  pose proof (payload_proj f segs segs' i Hf (Hp i ltac:(set_solver))) as Hx.
  rewrite !stat_sum_step, IH by set_solver.
  destruct (segs' !! i), (segs !! i); cbn in Hx; try done. by injection Hx as ->.
Qed.

Lemma atomic_add_stat (b : bool) c n d :
  c = u32 n -> Pool.atomic_fetch_add_if b c (u32 d) = u32 (n + (if b then d else 0)).
Proof. intros ->. unfold Pool.atomic_fetch_add_if. destruct b; [by rewrite u32_add_l, u32_add_r|f_equal; lia]. Qed.

(** One published segment more, or one less. *)
Lemma update_pool_stats_add cap pool l new segs s :
  stats_exact cap pool l -> flushed_segments pool = segs -> segs !! new = Some s ->
  stats_exact cap (Pool.update_pool_stats cap pool (index_type s) (u32 (vec_count s)) 1) (new :: l).
Proof.
  intros (Hf & Hm & Hs) <- Hn. unfold stats_exact. rewrite !(stat_sum_cons _ _ _ _ s) by done.
  cbn. rewrite (atomic_add_stat _ _ _ 1 Hf), (atomic_add_stat _ _ _ 1 Hm), (atomic_add_stat _ _ _ 1 Hs).
  unfold is_flat, fits_memtable, is_small. split; [f_equal; lia|]. split; f_equal; lia.
Qed.

Lemma update_pool_stats_drop cap pool l old s :
  stats_exact cap pool (old :: l) -> flushed_segments pool !! old = Some s ->
  stats_exact cap (Pool.update_pool_stats cap pool (index_type s) (u32 (vec_count s)) (-1)) l.
Proof.
  intros (Hf & Hm & Hs) Hn. unfold stats_exact. rewrite !(stat_sum_cons _ _ _ _ s) in * by done.
  cbn. rewrite (atomic_add_stat _ _ _ (-1) Hf), (atomic_add_stat _ _ _ (-1) Hm), (atomic_add_stat _ _ _ (-1) Hs).
  unfold is_flat, fits_memtable, is_small. split; [|split]; f_equal;
    match goal with |- context [if ?b then _ else _] => destruct b end; lia.
Qed.

Lemma stats_exact_ext cap pool pool' l l' :
  flat_count pool' = flat_count pool ->
  memtable_capacity_le_count pool' = memtable_capacity_le_count pool ->
  small_segment_le_count pool' = small_segment_le_count pool ->
  l ≡ₚ l' ->
  (forall i, i ∈ l -> payload_at (flushed_segments pool') i = payload_at (flushed_segments pool) i) ->
  stats_exact cap pool l -> stats_exact cap pool' l'.
Proof.
  intros H1 H2 H3 Hl Hp (Hf & Hm & Hs).
  assert (forall f, (forall s, f (payload s) = f s) ->
    stat_sum f (flushed_segments pool') l' = stat_sum f (flushed_segments pool) l) as Hx.
  { intros f Hfp. rewrite <-(stat_sum_ext f _ (flushed_segments pool') l) by done.
    by rewrite Hl. }
  unfold stats_exact. by rewrite !Hx, H1, H2, H3 by done.
Qed.
End stats.

(** ** Releasing references *)

(** A slot after one [decrement_flushed_segment_ref_count]. *)
Definition released (s : FlushedSegmentData) : FlushedSegmentData :=
  let s' := s <| ref_count := i32 (ref_count s - 1) |> in
  if ref_count s' =? 0 then Pool.retire_slot s' else s'.

Definition freed_by_release (s : FlushedSegmentData) : bool := i32 (ref_count s - 1) =? 0.

(** Everything of the pool but its slots, its count and [insert_idx]. *)
Definition same_frame (p q : FlushedSegmentPool) : Prop :=
  seg_lock q = seg_lock p /\ head_idx q = head_idx p /\ tail_idx q = tail_idx p /\
  flat_count q = flat_count p /\ memtable_capacity_le_count q = memtable_capacity_le_count p /\
  small_segment_le_count q = small_segment_le_count p.

Section release.
Implicit Types (pool : FlushedSegmentPool) (olds : list Z).

Lemma decrement_spec pool i s :
  flushed_segments pool !! i = Some s -> 0 <= insert_idx pool <= MAX_SEGMENTS_COUNT ->
  exists pool', Pool.decrement_flushed_segment_ref_count pool i = Ok pool' /\
    same_frame pool pool' /\ flushed_segments pool' = <[i := released s]> (flushed_segments pool) /\
    0 <= insert_idx pool' <= insert_idx pool /\
    (seg_lock pool = WriteHeld -> insert_idx pool' = insert_idx pool) /\
    flushed_segment_count pool' =
      (if freed_by_release s then u32 (flushed_segment_count pool - 1) else flushed_segment_count pool).
Proof.
  intros Hs Hi. unfold Pool.decrement_flushed_segment_ref_count, Pool.ref_count_fetch_sub. run. cbn.
  set (s' := s <| ref_count ::= _ |>).
  assert (Hs' : <[i := s']> (flushed_segments pool) !! i = Some s') by (by eapply zlookup_insert_eq).
  assert (Hii : forall x, <[i := x]> (<[i := s']> (flushed_segments pool)) = <[i := x]> (flushed_segments pool)).
  { intros x. unfold insert, zlist_insert. case_decide; [|done]. apply list_insert_insert_eq. }
  unfold Pool.ref_count_check. cbn [flushed_segments update]. cbn. run.
  unfold released, freed_by_release. cbn. fold s'. apply zlookup_lt_Some in Hs as Hr.
  destruct (i32 (ref_count s - 1) =? 0); [|eexists; split; [done|]; unfold same_frame; cbn; repeat split; done || lia].
  unfold Pool.cleanup_flushed_segment. cbn. run. cbn. rewrite Hii.
  unfold Pool.rewind_insert_idx. cbn.
  destruct (seg_lock pool) eqn:El; [destruct (Z.ltb_spec i (insert_idx pool))|..];
    eexists; (split; [done|]); cbn;
    unfold same_frame; cbn; rewrite ?El; repeat split; done || lia.
Qed.

(** Releasing a set of slots: each is released once, the others do not change. *)
Lemma decrement_all pool olds :
  NoDup olds -> (forall i, i ∈ olds -> exists s, flushed_segments pool !! i = Some s) ->
  0 <= insert_idx pool <= MAX_SEGMENTS_COUNT ->
  exists pool', foldl_res Pool.decrement_flushed_segment_ref_count pool olds = Ok pool' /\
    same_frame pool pool' /\ zlen (flushed_segments pool') = zlen (flushed_segments pool) /\
    (forall j, flushed_segments pool' !! j =
      if decide (j ∈ olds) then released <$> flushed_segments pool !! j else flushed_segments pool !! j) /\
    0 <= insert_idx pool' <= insert_idx pool /\
    (seg_lock pool = WriteHeld -> insert_idx pool' = insert_idx pool) /\
    u32 (flushed_segment_count pool') =
      u32 (flushed_segment_count pool - stat_sum freed_by_release (flushed_segments pool) olds).
Proof.
  revert pool; induction olds as [|i olds IH]; intros pool Hnd Hs Hi; cbn [foldl_res].
  { exists pool. repeat split; try done; try lia. cbn. f_equal. lia. }
  apply NoDup_cons in Hnd as [Hni Hnd].
  destruct (Hs i) as [s Hsi]; [set_solver|].
  destruct (decrement_spec pool i s) as (p1 & -> & Hf1 & Hseg1 & Hi1 & Hl1 & Hc1); [done..|].
  cbn [mbind res_bind].
  assert (Hother : forall j, j <> i -> flushed_segments p1 !! j = flushed_segments pool !! j).
  { intros j Hj. rewrite Hseg1. apply zlookup_insert_ne. done. }
  destruct (IH p1) as (p2 & -> & Hf2 & Hz2 & Hseg2 & Hi2 & Hl2 & Hc2); [done| |lia|].
  { intros j Hj. rewrite Hother by (by intros ->). apply Hs. set_solver. }
  exists p2. split; [done|]. split; [unfold same_frame in *; intuition congruence|].
  split; [by rewrite Hz2, Hseg1, zlen_insert|]. split; [|split; [lia|split]].
  - intros j. rewrite Hseg2. destruct (decide (j = i)) as [->|Hj].
    + rewrite decide_False, decide_True by set_solver. rewrite Hseg1, Hsi. by eapply zlookup_insert_eq.
    + rewrite Hother by done. destruct (decide (j ∈ olds)).
      * by rewrite decide_True by set_solver.
      * by rewrite decide_False by set_solver.
  - intros Hlk. rewrite Hl2, Hl1; [done..|]. destruct Hf1 as [-> _]. done.
  - rewrite Hc2, (stat_sum_cons _ _ _ _ s) by done.
    assert (stat_sum freed_by_release (flushed_segments p1) olds = stat_sum freed_by_release (flushed_segments pool) olds) as ->.
    { apply stat_sum_ext; [done|]. intros j Hj. unfold payload_at. rewrite Hother; [done|by intros ->]. }
    rewrite Hc1. destruct (freed_by_release s); [|f_equal; lia].
    unfold u32. rewrite Zminus_mod_idemp_l. f_equal. lia.
Qed.

Lemma drop_stats_spec cap pool olds :
  (forall i, i ∈ olds -> exists s, flushed_segments pool !! i = Some s) ->
  exists pool', Pool.drop_stats cap pool olds = Ok pool' /\
    (forall rest, stats_exact cap pool (olds ++ rest) -> stats_exact cap pool' rest) /\
    flushed_segments pool' = flushed_segments pool /\ seg_lock pool' = seg_lock pool /\
    head_idx pool' = head_idx pool /\ tail_idx pool' = tail_idx pool /\
    insert_idx pool' = insert_idx pool /\ flushed_segment_count pool' = flushed_segment_count pool.
Proof.
  revert pool; induction olds as [|i olds IH]; intros pool Hs; [by exists pool|].
  destruct (Hs i) as [s Hsi]; [set_solver|]. unfold Pool.drop_stats. cbn [foldl_res]. run.
  destruct (IH (Pool.update_pool_stats cap pool (index_type s) (u32 (vec_count s)) (-1))) as (p' & Hp & Hst & Hx);
    [intros j Hj; apply Hs; set_solver|].
  exists p'. split; [done|]. split; [|done]. intros rest Hr. apply Hst. by eapply update_pool_stats_drop.
Qed.
End release.

(** ** Correctness of registration and replacement *)

Section correctness.
Implicit Types (pool : FlushedSegmentPool) (l olds : list Z).

(** References of the slots of a list, through their payloads. *)
Definition refs_ok (segs : list FlushedSegmentData) (i : Z) : Prop :=
  forall s, segs !! i = Some s -> 1 <= ref_count s < 2 ^ 31.

Lemma refs_ok_payload segs segs' i :
  payload_at segs' i = payload_at segs i -> refs_ok segs i -> refs_ok segs' i.
Proof.
  intros Hp Hr s' Hs'. pose proof (payload_proj ref_count segs segs' i (fun _ => eq_refl) Hp) as Hx.
  rewrite Hs' in Hx. destruct (segs !! i) as [s|] eqn:E; [|done]. cbn in Hx.
  injection Hx as ->. by apply Hr.
Qed.

Lemma payload_at_ne segs i j (s : FlushedSegmentData) : i <> j -> payload_at (<[i := s]> segs) j = payload_at segs j.
Proof. intros. unfold payload_at. by rewrite zlookup_insert_ne. Qed.

(** Registration, slot by slot: the new slot lands after the segments that
    do not start later, with one reference; nothing else changes. *)
Lemma register_core cap pool l1 l3 idx s :
  pool_wf pool (l1 ++ l3) ->
  flushed_segments pool !! idx = Some s -> in_used s = true -> idx ∉ l1 ++ l3 ->
  (forall i, i ∈ l1 -> start_of (flushed_segments pool) i <= segment_id_start s) ->
  (forall i, i ∈ l3 -> segment_id_start s < start_of (flushed_segments pool) i) ->
  exists pool',
    Pool.register_flushed_segment cap pool idx = Ok pool' /\ pool_wf pool' (l1 ++ idx :: l3) /\
    payload_at (flushed_segments pool') idx = Some (payload (s <| ref_count := 1 |>)) /\
    (forall j, j <> idx -> payload_at (flushed_segments pool') j = payload_at (flushed_segments pool) j) /\
    flushed_segment_count pool' = u32 (flushed_segment_count pool + 1) /\
    (stats_exact cap pool (l1 ++ l3) -> stats_exact cap pool' (l1 ++ idx :: l3)).
Proof.
  intros Hw Hs Hu Hidx H1 H3.
  rewrite (register_wires cap pool l1 l3 idx s) by done.
  set (segs0 := <[idx := s <| ref_count := 1 |>]> (flushed_segments pool)).
  assert (Hs0 : segs0 !! idx = Some (s <| ref_count := 1 |>)) by (by eapply zlookup_insert_eq).
  destruct (wire_wf (flushed_segments pool) segs0 l1 [] l3 idx (s <| ref_count := 1 |>))
    as (segs' & -> & Hlw & Hp); [apply Hw|apply zlen_insert| |done..| |].
  { intros j Hj. apply zlookup_insert_ne. by intros ->. }
  { intros i Hi. apply Z.lt_le_incl. by apply H3. }
  cbn [mbind res_bind]. eexists. split; [done|].
  assert (Hother : forall j, j <> idx -> payload_at segs' j = payload_at (flushed_segments pool) j).
  { intros j Hj. rewrite Hp. by apply payload_at_ne. }
  assert (Hnew : payload_at segs' idx = Some (payload (s <| ref_count := 1 |>))).
  { rewrite Hp. unfold payload_at. by rewrite Hs0. }
  split; [|do 3 (split; [done|])].
  - split; cbn; [exact Hlw| |by rewrite hd_or_app|by rewrite last_or_app, last_or_cons|apply Hw].
    intros j sj Hj. destruct (decide (j = idx)) as [->|Hne].
    + intros Hsj. pose proof (payload_proj ref_count segs0 segs' idx (fun _ => eq_refl) (Hp idx)) as Hx.
      rewrite Hsj, Hs0 in Hx. injection Hx as ->. cbn. lia.
    + apply (refs_ok_payload (flushed_segments pool)); [by apply Hother|].
      intros sx. apply (pw_refs _ _ Hw). set_solver.
  - intros Hst. destruct (segs' !! idx) as [s'|] eqn:Hs'; [|unfold payload_at in Hnew; by rewrite Hs' in Hnew].
    assert (index_type s = index_type s' /\ vec_count s = vec_count s') as [-> ->].
    { unfold payload_at in Hnew. rewrite Hs' in Hnew. cbn in Hnew. split; by injection Hnew. }
    eapply (stats_exact_ext cap (Pool.update_pool_stats cap (pool <| flushed_segments := segs' |>) _ _ _));
      [done..| |done|].
    { apply Permutation_middle. }
    eapply update_pool_stats_add; [|done|exact Hs'].
    eapply stats_exact_ext; [..|exact Hst]; [done..|]. intros j Hj. apply Hother. by intros ->.
Qed.

Lemma register_spec cap pool l idx s :
  pool_wf pool l -> stats_exact cap pool l ->
  flushed_segments pool !! idx = Some s -> in_used s = true -> idx ∉ l ->
  exists pool' l1 l3,
    Pool.register_flushed_segment cap pool idx = Ok pool' /\ l = l1 ++ l3 /\
    (forall i, i ∈ l1 -> start_of (flushed_segments pool) i <= segment_id_start s) /\
    (forall i, i ∈ l3 -> segment_id_start s < start_of (flushed_segments pool) i) /\
    pool_wf pool' (l1 ++ idx :: l3) /\ stats_exact cap pool' (l1 ++ idx :: l3) /\
    payload_at (flushed_segments pool') idx = Some (payload (s <| ref_count := 1 |>)) /\
    (forall j, j <> idx -> payload_at (flushed_segments pool') j = payload_at (flushed_segments pool) j) /\
    flushed_segment_count pool' = u32 (flushed_segment_count pool + 1).
Proof.
  intros Hw Hst Hs Hu Hidx.
  destruct (sorted_split (flushed_segments pool) l (segment_id_start s)) as (l1 & l3 & -> & H1 & H3);
    [apply Hw|].
  destruct (register_core cap pool l1 l3 idx s) as (p & ? & ? & ? & ? & ? & ?); [done..|].
  exists p, l1, l3. do 5 (split; [done|]). split; [by auto|done].
Qed.

Lemma list_wf_set_ref segs l i s r :
  list_wf segs l -> segs !! i = Some s -> list_wf (<[i := s <| ref_count := r |>]> segs) l.
Proof.
  intros Hw Hs. set (segs' := <[i := _]> segs).
  assert (Hl : forall j, link_of segs' j = link_of segs j).
  { intros j. unfold segs'. rewrite (link_of_upd segs i j (fun s => s <| ref_count := r |>) s Hs).
    case_decide; [|done]. subst. unfold link_of. by rewrite Hs. }
  assert (Hst : forall j, start_of segs' j = start_of segs j).
  { intros j. unfold start_of, segs'. rewrite zlookup_insert. case_decide; [|done]. subst. by rewrite Hs. }
  split.
  - unfold segs'. rewrite zlen_insert. apply Hw.
  - apply Hw.
  - eapply chain_frame; [|apply Hw]. done.
  - intros j sj Hj. unfold segs'. rewrite zlookup_insert. case_decide; [|by apply (lw_used _ _ Hw)].
    subst. rewrite Hs. intros [= <-]. cbn. by apply (lw_used _ _ Hw j).
  - eapply StronglySorted_ext; [|apply Hw]. cbn. intros. by rewrite !Hst.
Qed.

Lemma Zminus_mod_u32 a b : u32 (u32 a - b) = u32 (a - b).
Proof. unfold u32. apply Zminus_mod_idemp_l. Qed.

Lemma span_ends segs l1 first rest l3 :
  chain segs NIL (l1 ++ (first :: rest) ++ l3) NIL ->
  exists fo lo, segs !! first = Some fo /\ prev_idx fo = last_or NIL l1 /\
    segs !! List.last (first :: rest) first = Some lo /\ next_idx lo = hd_or NIL l3.
Proof.
  intros Hc. pose proof (chain_middle _ _ _ _ _ _ Hc) as (fo & Hfo & Hp & _).
  destruct (exists_last (l := first :: rest)) as (k & z & Hk); [done|].
  rewrite Hk in Hc |- *. rewrite <-app_assoc, app_assoc in Hc.
  apply chain_middle in Hc as (lo & Hlo & _ & Hn). rewrite last_last. eauto 10.
Qed.

Lemma set_head_tail_spec pool l1 first rest l3 new :
  head_idx pool = hd_or NIL (l1 ++ (first :: rest) ++ l3) ->
  tail_idx pool = last_or NIL (l1 ++ (first :: rest) ++ l3) ->
  NoDup (l1 ++ (first :: rest) ++ l3) ->
  Pool.set_head_tail pool first (List.last (first :: rest) first) new =
  pool <| head_idx := hd_or NIL (l1 ++ new :: l3) |> <| tail_idx := last_or NIL (l1 ++ new :: l3) |>.
Proof.
  intros Hh Ht Hnd. unfold Pool.set_head_tail. rewrite hd_or_app. cbn [hd_or].
  assert (Hlast : List.last (first :: rest) first ∈ first :: rest).
  { by apply (last_or_in first (first :: rest)). }
  assert (Htl : last_or NIL (l1 ++ (first :: rest) ++ l3) = last_or (List.last (first :: rest) first) l3).
  { rewrite !last_or_app. rewrite last_or_cons, <-(last_or_cons first first rest). done. }
  assert ((if head_idx pool =? first then pool <| head_idx := new |> else pool)
          = pool <| head_idx := hd_or new l1 |>) as ->.
  { rewrite Hh. destruct l1 as [|a l1]; cbn [app hd_or].
    - by rewrite Z.eqb_refl.
    - destruct (Z.eqb_spec a first) as [->|]; [|destruct pool; cbn in *; by subst].
      cbn in Hnd. apply NoDup_cons in Hnd as [Hx _]. set_solver. }
  rewrite last_or_app, last_or_cons. cbn. rewrite Htl in Ht. destruct l3 as [|b l3 _] using rev_ind.
  - rewrite Ht. change (last_or _ []) with (List.last (first :: rest) first) at 1. by rewrite Z.eqb_refl.
  - rewrite last_or_app in Ht |- *. change (last_or _ [b]) with b in Ht |- *.
    destruct (Z.eqb_spec (tail_idx pool) (List.last (first :: rest) first)) as [Heq|Hn].
    + exfalso. rewrite !NoDup_app in Hnd. destruct Hnd as (_ & _ & _ & Hd & _).
      apply (Hd b); [by rewrite <-Ht, Heq|set_solver].
    + apply Z.eqb_neq in Hn. destruct pool; cbn in *. subst. by rewrite Hn.
Qed.

(** Replacement of a span, slot by slot. *)
Lemma replace_spec cap pool l1 olds l3 new s :
  pool_wf pool (l1 ++ olds ++ l3) -> olds <> [] ->
  flushed_segments pool !! new = Some s -> in_used s = true -> new ∉ l1 ++ olds ++ l3 ->
  (forall i, i ∈ l1 -> start_of (flushed_segments pool) i <= segment_id_start s) ->
  (forall i, i ∈ l3 -> segment_id_start s <= start_of (flushed_segments pool) i) ->
  exists pool',
    Pool.replace_flushed_segments_n cap pool olds new = Ok pool' /\
    pool_wf pool' (l1 ++ new :: l3) /\
    (stats_exact cap pool (l1 ++ olds ++ l3) -> stats_exact cap pool' (l1 ++ new :: l3)) /\
    payload_at (flushed_segments pool') new = Some (payload (s <| ref_count := 1 |>)) /\
    (forall j, j ∈ olds -> payload_at (flushed_segments pool') j
                         = payload <$> (released <$> flushed_segments pool !! j)) /\
    (forall j, j ∉ olds -> j <> new ->
       payload_at (flushed_segments pool') j = payload_at (flushed_segments pool) j) /\
    (seg_lock pool = WriteHeld -> insert_idx pool' = insert_idx pool) /\
    flushed_segment_count pool' =
      u32 (flushed_segment_count pool - stat_sum freed_by_release (flushed_segments pool) olds - (zlen olds - 1)).
Proof.
  intros Hw Hne Hs Hu Hnew Hs1 Hs3. destruct olds as [|first rest]; [done|].
  set (olds := first :: rest) in *. pose proof (pw_list _ _ Hw) as Hlw.
  destruct (span_ends _ _ _ _ _ (lw_chain _ _ Hlw)) as (fo & lo & Hfo & Hprev & Hlo & Hnext).
  fold olds in Hlo.
  assert (Hslots : forall i, i ∈ olds -> exists s, flushed_segments pool !! i = Some s).
  { intros i Hi. eapply list_wf_slot; [done|set_solver]. }
  assert (Hndo : NoDup olds /\ forall j, j ∈ l1 ++ l3 -> j ∉ olds).
  { pose proof (lw_nodup _ _ Hlw) as Hnd. rewrite !NoDup_app in Hnd. split; [apply Hnd|].
    destruct Hnd as (_ & Hd1 & _ & Hd2 & _). intros j [Hj|Hj]%elem_of_app Ho.
    - apply (Hd1 j Hj). set_solver. - by apply (Hd2 j). }
  destruct Hndo as [Hndo Hdis].
  unfold Pool.replace_flushed_segments_n, olds. fold olds. run.
  destruct (drop_stats_spec cap pool olds Hslots) as (p1 & -> & Hst1 & Hseg1 & Hlk1 & Hh1 & Ht1 & Hi1 & Hc1).
  cbn [mbind res_bind].
  destruct (decrement_all p1 olds Hndo) as (p2 & -> & (Hlk2 & Hh2 & Ht2 & Hf2 & Hm2 & Hsm2) & Hz2 & Hseg2 & Hi2 & Hlw2 & Hc2);
    [by rewrite Hseg1|rewrite Hi1; apply Hw|]. cbn [mbind res_bind].
  pose proof (set_head_tail_spec p2 l1 first rest l3 new) as Hht. fold olds in Hht. rewrite Hht by
    (rewrite ?Hh2, ?Ht2, ?Hh1, ?Ht1; first [apply Hw|apply Hlw]).
  cbn [flushed_segments update]. change (flushed_segments (p2 <| head_idx := _ |> <| tail_idx := _ |>)) with (flushed_segments p2).
  rewrite Hprev, Hnext. rewrite Hseg1 in *.
  assert (Hsame : forall j, j ∉ olds -> flushed_segments p2 !! j = flushed_segments pool !! j).
  { intros j Hj. rewrite Hseg2. by rewrite decide_False. }
  destruct (wire_wf (flushed_segments pool) (flushed_segments p2) l1 olds l3 new s) as (segs' & -> & Hlw' & Hp);
    [done|done| |set_solver|rewrite Hsame; [done|set_solver]|done..|].
  { intros j Hj. apply Hsame, Hdis, Hj. }
  cbn [mbind res_bind].
  assert (exists sn, segs' !! new = Some sn /\ payload sn = payload s) as (sn & Hsn & Hpn).
  { specialize (Hp new). unfold payload_at in Hp. rewrite Hsame, Hs in Hp by set_solver.
    destruct (segs' !! new) as [sn|]; [|done]. exists sn. split; [done|]. by apply (inj Some) in Hp. }
  run. set (segs2 := <[new := sn <| ref_count := 1 |>]> segs').
  assert (Hsn2 : segs2 !! new = Some (sn <| ref_count := 1 |>)) by (by eapply zlookup_insert_eq).
  run. cbn [index_type vec_count].
  assert (Hothers : forall j, j <> new -> payload_at segs2 j = payload_at (flushed_segments p2) j).
  { intros j Hj. rewrite <-Hp. by apply payload_at_ne. }
  eexists. split; [reflexivity|]. split; [|split; [|split; [|split; [|split; [|split]]]]].
  - split; cbn; [by apply list_wf_set_ref| |done|done|pose proof (pw_insert _ _ Hw); lia].
    intros j sj Hj. destruct (decide (j = new)) as [->|Hjn].
    + intros Hsj. fold segs2 in Hsj. rewrite Hsn2 in Hsj. injection Hsj as <-. cbn. lia.
    + assert (j ∈ l1 ++ l3) as Hj' by set_solver.
      apply (refs_ok_payload (flushed_segments pool)).
      * rewrite Hothers by done. unfold payload_at. rewrite Hsame; [done|by apply Hdis].
      * intros sx. apply (pw_refs _ _ Hw). set_solver.
  - intros Hst. eapply (stats_exact_ext cap (Pool.update_pool_stats cap (p2 <| flushed_segments := segs2 |>) (index_type (sn <| ref_count := 1 |>)) (u32 (vec_count (sn <| ref_count := 1 |>))) 1) _ (new :: l1 ++ l3));
      [done..|apply Permutation_middle|done|].
    eapply update_pool_stats_add; [|done|exact Hsn2].
    eapply (stats_exact_ext cap p1 _ (l1 ++ l3)); [done..| |apply Hst1].
    + intros j Hj. cbn. rewrite Hothers by set_solver. unfold payload_at. rewrite Hsame, Hseg1; [done|by apply Hdis].
    + eapply stats_exact_ext; [done..| |done|exact Hst].
      rewrite app_assoc, (Permutation_app_comm l1 olds), <-app_assoc. done.
  - cbn. unfold payload_at. fold segs2. rewrite Hsn2. cbn.
    change (Some ((payload sn) <| ref_count := 1 |>) = Some ((payload s) <| ref_count := 1 |>)). by rewrite Hpn.
  - intros j Hj. cbn. fold segs2. rewrite Hothers by set_solver. unfold payload_at.
    rewrite Hseg2, decide_True by done. done.
  - intros j Hj Hjn. cbn. fold segs2. rewrite Hothers by done. unfold payload_at. by rewrite Hsame.
  - intros Hlk. cbn. rewrite Hlw2 by congruence. done.
  - cbn. rewrite <-Zminus_mod_u32, Hc2, Hc1, Zminus_mod_u32. done.
Qed.
End correctness.

(** ** Searching the list *)

(** The first slot of [l] that satisfies [P], or the end sentinel. *)
Fixpoint first_slot (P : FlushedSegmentData -> bool) (segs : list FlushedSegmentData) (l : list Z) : Z :=
  match l with
  | [] => NIL
  | i :: l =>
      match segs !! i with
      | Some s => if P s then i else first_slot P segs l
      | None => first_slot P segs l
      end
  end.

Definition exact_range (start_sid end_sid : Z) (s : FlushedSegmentData) : bool :=
  (segment_id_start s =? start_sid) && (segment_id_end s =? end_sid).
Definition starts_at (start_sid : Z) (s : FlushedSegmentData) : bool := segment_id_start s =? start_sid.

(** The successor of [i] in [l]. *)
Fixpoint next_in (i : Z) (l : list Z) : Z :=
  match l with
  | [] => NIL
  | j :: l => if j =? i then hd_or NIL l else next_in i l
  end.

Section search.
Implicit Types (pool : FlushedSegmentPool) (l : list Z).

(** Facts about the slot a walk stands on: what it holds, where it leads. *)
Lemma walk_slot pool l1 i l2 :
  pool_wf pool (l1 ++ i :: l2) ->
  exists s, flushed_segments pool !! i = Some s /\ in_used s = true /\ i <> NIL /\
    next_idx s = hd_or NIL l2 /\ (i =? tail_idx pool) = bool_decide (l2 = []).
Proof.
  intros Hw. pose proof (pw_list _ _ Hw) as Hl.
  destruct (chain_middle _ _ _ _ _ _ (lw_chain _ _ Hl)) as (s & Hs & _ & Hn).
  exists s. split; [done|]. split; [apply (lw_used _ _ Hl i); [set_solver|done]|].
  split; [intros ->; apply (list_wf_not_nil _ _ Hl); set_solver|]. split; [done|].
  rewrite (pw_tail _ _ Hw), last_or_app, last_or_cons. destruct l2 as [|j l2].
  - rewrite bool_decide_true by done. apply Z.eqb_refl.
  - rewrite bool_decide_false by done. apply Z.eqb_neq. intros Heq.
    pose proof (lw_nodup _ _ Hl) as Hnd. apply NoDup_app in Hnd as (_ & _ & Hnd).
    apply NoDup_cons in Hnd as [Hnd _]. apply Hnd. rewrite Heq at 1. by apply last_or_in.
Qed.

Lemma find_by_sids_loop_spec pool l1 l2 a b fuel :
  pool_wf pool (l1 ++ l2) -> (length l2 < fuel)%nat ->
  Pool.find_by_sids_loop fuel pool (hd_or NIL l2) a b = Ok (first_slot (exact_range a b) (flushed_segments pool) l2).
Proof.
  revert l1 fuel; induction l2 as [|i l2 IH]; intros l1 fuel Hw Hf; (destruct fuel; [cbn in Hf; lia|]).
  { done. }
  destruct (walk_slot _ _ _ _ Hw) as (s & Hs & Hu & Hn & Hnx & Ht). cbn [Pool.find_by_sids_loop hd_or first_slot].
  destruct (Z.eqb_spec i NIL); [done|]. run. rewrite Hu, Hs. cbn [andb]. fold (exact_range a b s).
  destruct (exact_range a b s); [done|]. rewrite Ht. case_bool_decide as Hl2; [by subst|].
  rewrite Hnx. apply (IH (l1 ++ [i])); [by rewrite <-app_assoc|cbn in Hf; lia].
Qed.

(** [find_segment_by_sids] answers with the first published segment of
    exactly the asked range and with the end sentinel when no published
    segment has it: slots that are reserved but not linked, or retired, are
    never returned, and the walk always ends within its fuel. *)
Theorem find_segment_by_sids_spec pool l a b :
  pool_wf pool l ->
  Pool.find_segment_by_sids pool a b = Ok (first_slot (exact_range a b) (flushed_segments pool) l) /\
  (forall i, Pool.find_segment_by_sids pool a b = Ok i -> i <> NIL ->
     i ∈ l /\ exists s, flushed_segments pool !! i = Some s /\ segment_id_start s = a /\ segment_id_end s = b).
Proof.
  intros Hw. unfold Pool.find_segment_by_sids. rewrite (pw_head _ _ Hw).
  rewrite (find_by_sids_loop_spec pool [] l) by (done || apply (list_wf_fuel _ _ (pw_list _ _ Hw))).
  split; [done|]. intros i [= <-]. clear Hw. induction l as [|j l IH]; cbn; [done|].
  destruct (flushed_segments pool !! j) as [s|] eqn:Hs; [|set_solver].
  destruct (exact_range a b s) eqn:He; [|set_solver]. intros _. split; [left|].
  unfold exact_range in He. rewrite andb_true_iff, !Z.eqb_eq in He. eauto.
Qed.

Definition two_adjacent_answer (segs : list FlushedSegmentData) (l : list Z) (a b : Z) : Z * Z :=
  let i := first_slot (starts_at a) segs l in
  match segs !! i, segs !! (next_in i l) with
  | Some s, Some t =>
      if (segment_id_end s <? b) && (segment_id_end t =? b) then (i, next_in i l) else (NIL, NIL)
  | _, _ => (NIL, NIL)
  end.

Lemma next_in_skip i j l : j <> i -> next_in i (j :: l) = next_in i l.
Proof. intros H. cbn. by destruct (Z.eqb_spec j i). Qed.

Lemma first_slot_in P segs l : first_slot P segs l = NIL \/ first_slot P segs l ∈ l.
Proof.
  induction l as [|i l IH]; cbn; [by left|].
  destruct (segs !! i) as [s|]; [destruct (P s)|]; [right; left|..]; (destruct IH as [|]; [by left|right; by right]).
Qed.

Lemma slot_NIL segs l : list_wf segs l -> segs !! NIL = None.
Proof. intros Hw. apply zlookup_ge. rewrite (lw_len _ _ Hw). pool_lia. Qed.

Lemma find_two_loop_spec pool l1 l2 a b fuel :
  pool_wf pool (l1 ++ l2) -> (length l2 < fuel)%nat ->
  Pool.find_two_loop fuel pool (hd_or NIL l2) a b = Ok (two_adjacent_answer (flushed_segments pool) l2 a b).
Proof.
  revert l1 fuel; induction l2 as [|i l2 IH]; intros l1 fuel Hw Hf; (destruct fuel; [cbn in Hf; lia|]).
  { cbn. unfold two_adjacent_answer. cbn. by rewrite (slot_NIL _ _ (pw_list _ _ Hw)). }
  destruct (walk_slot _ _ _ _ Hw) as (s & Hs & Hu & Hn & Hnx & Ht).
  cbn [Pool.find_two_loop hd_or]. destruct (Z.eqb_spec i NIL); [done|]. run. rewrite Hu. cbn [andb].
  unfold two_adjacent_answer. cbn [first_slot]. rewrite Hs. fold (starts_at a s).
  destruct (starts_at a s) eqn:Ha.
  - cbn [next_in]. rewrite Z.eqb_refl, Hs. unfold Pool.two_adjacent_at. rewrite Hnx.
    destruct l2 as [|j l2]; cbn [hd_or].
    { rewrite Z.eqb_refl, (slot_NIL _ _ (pw_list _ _ Hw)). by destruct (b <=? segment_id_end s). }
    change (i :: j :: l2) with ([i] ++ j :: l2) in Hw. rewrite app_assoc in Hw. destruct (walk_slot _ _ _ _ Hw) as (t & Htt & _ & Hjn & _).
    destruct (Z.eqb_spec j NIL); [done|]. run. rewrite Htt.
    destruct (Z.leb_spec b (segment_id_end s)), (Z.ltb_spec (segment_id_end s) b); try lia; cbn [andb]; [done|].
    by destruct (segment_id_end t =? b).
  - rewrite Ht. set (k := first_slot (starts_at a) (flushed_segments pool) l2).
    assert (Hki : i <> k).
    { intros Heq. destruct (first_slot_in (starts_at a) (flushed_segments pool) l2) as [Hk|Hk]; fold k in Hk; [congruence|].
      pose proof (lw_nodup _ _ (pw_list _ _ Hw)) as Hnd. apply NoDup_app in Hnd as (_ & _ & Hnd).
      apply NoDup_cons in Hnd as [Hnd _]. congruence. }
    rewrite next_in_skip by done. case_bool_decide as Hl2.
    + subst l2. cbn in k. subst k. by rewrite (slot_NIL _ _ (pw_list _ _ Hw)).
    + rewrite Hnx. apply (IH (l1 ++ [i])); [by rewrite <-app_assoc|cbn in Hf; lia].
Qed.

(** [find_two_adjacent_segments] returns the first published segment
    starting at the target together with its successor exactly when the
    first ends before the target's end and the successor ends at it; in
    every other case (single covering segment, no successor, no segment)
    both answers are the sentinel. *)
Theorem find_two_adjacent_segments_spec pool l a b :
  pool_wf pool l ->
  Pool.find_two_adjacent_segments pool a b = Ok (two_adjacent_answer (flushed_segments pool) l a b).
Proof.
  intros Hw. unfold Pool.find_two_adjacent_segments. rewrite (pw_head _ _ Hw).
  apply (find_two_loop_spec pool []); [done|]. apply (list_wf_fuel _ _ (pw_list _ _ Hw)).
Qed.
End search.

(** ** Reserving slots *)
Section reserve.
Implicit Types (pool : FlushedSegmentPool) (l : list Z) (segs : list FlushedSegmentData).

Definition slot_used segs i : Prop := exists s, segs !! i = Some s /\ in_used s = true.

Lemma reserve_loop_spec segs idx fuel :
  zlen segs = MAX_SEGMENTS_COUNT -> 0 <= idx <= MAX_SEGMENTS_COUNT ->
  MAX_SEGMENTS_COUNT - idx < Z.of_nat fuel ->
  exists r, Pool.reserve_loop fuel segs idx = Ok r /\
    match r with
    | Some i => idx <= i < MAX_SEGMENTS_COUNT /\ (exists s, segs !! i = Some s /\ in_used s = false) /\
                forall j, idx <= j < i -> slot_used segs j
    | None => forall j, idx <= j < MAX_SEGMENTS_COUNT -> slot_used segs j
    end.
Proof.
  intros Hz. revert idx; induction fuel as [|fuel IH]; intros idx Hi Hf; [lia|]. cbn.
  destruct (Z.ltb_spec idx MAX_SEGMENTS_COUNT).
  - destruct (zlookup_lt_is_Some segs idx) as [s Hs]; [lia|]. run.
    destruct (in_used s) eqn:Hu.
    + destruct (IH (idx + 1)) as (r & -> & Hr); [lia..|]. exists r. split; [done|].
      assert (slot_used segs idx) by by exists s.
      destruct r as [i|].
      * destruct Hr as (Hi' & Hfree & Hlow). split; [lia|]. split; [done|].
        intros j Hj. destruct (decide (j = idx)) as [->|]; [done|]. apply Hlow. lia.
      * intros j Hj. destruct (decide (j = idx)) as [->|]; [done|]. apply Hr. lia.
    + exists (Some idx). split; [done|]. split; [lia|]. split; [eauto|]. intros. lia.
  - exists None. split; [done|]. intros. lia.
Qed.

(** Reservation, slot by slot. *)
Lemma reserve_spec pool l :
  pool_wf pool l ->
  exists i pool', Pool.reserve_flushed_segment pool = Ok (i, pool') /\ pool_wf pool' l /\
    ((i = NIL /\ pool' = pool /\
      forall j, insert_idx pool <= j < MAX_SEGMENTS_COUNT -> slot_used (flushed_segments pool) j) \/
     (insert_idx pool <= i < MAX_SEGMENTS_COUNT /\ (i ∉ l) /\ insert_idx pool' = i + 1 /\
      (exists s, flushed_segments pool !! i = Some s /\ in_used s = false /\
                 flushed_segments pool' !! i = Some (s <| in_used := true |>)) /\
      (forall j, insert_idx pool <= j < i -> slot_used (flushed_segments pool) j) /\
      (forall j, j <> i -> flushed_segments pool' !! j = flushed_segments pool !! j))).
Proof.
  intros Hw. pose proof (pw_insert _ _ Hw) as Hi. pose proof (pw_list _ _ Hw) as Hl.
  unfold Pool.reserve_flushed_segment.
  destruct (reserve_loop_spec (flushed_segments pool) (insert_idx pool) Pool.reserve_fuel)
    as (r & -> & Hr); [apply Hl|done|pool_lia|]. cbn [mbind res_bind].
  destruct r as [i|]; [|exists NIL, pool; by eauto 6].
  destruct Hr as (Hr & (s & Hs & Hu) & Hlow). run. eexists i, _. split; [reflexivity|].
  assert (Hil : i ∉ l).
  { intros Hin. pose proof (lw_used _ _ Hl i s Hin Hs). congruence. }
  assert (Hother : forall j, j <> i -> <[i := s <| in_used := true |>]> (flushed_segments pool) !! j
                                      = flushed_segments pool !! j).
  { intros j Hj. by apply zlookup_insert_ne. }
  split.
  - split; cbn; [|..|lia]; try apply Hw.
    + eapply list_wf_frame; [apply zlen_insert| |exact Hl]. intros j Hj. apply Hother. by intros ->.
    + intros j sj Hj. rewrite Hother by (by intros ->). by apply (pw_refs _ _ Hw).
  - right. split; [done|]. split; [done|]. split; [done|]. split; [|done].
    exists s. split; [done|]. split; [done|]. cbn. by eapply zlookup_insert_eq.
Qed.

(** [reserve_flushed_segment] always returns, hands out slot [i] exactly
    when [i] is the lowest slot at or after [insert_idx] that is not in use
    (so never a published, pinned or reserved one), and answers with the
    sentinel, changing nothing, exactly when there is no such slot. *)
Theorem reserve_takes_lowest_free pool l i :
  pool_wf pool l -> insert_idx pool <= i < MAX_SEGMENTS_COUNT ->
  ((exists pool', Pool.reserve_flushed_segment pool = Ok (i, pool') /\ pool_wf pool' l /\
                  slot_used (flushed_segments pool') i) <->
   ~ slot_used (flushed_segments pool) i /\
   forall j, insert_idx pool <= j < i -> slot_used (flushed_segments pool) j) /\
  (Pool.reserve_flushed_segment pool = Ok (NIL, pool) <->
   forall j, insert_idx pool <= j < MAX_SEGMENTS_COUNT -> slot_used (flushed_segments pool) j).
Proof.
  intros Hw Hi. pose proof (pw_insert _ _ Hw) as Hins.
  destruct (reserve_spec pool l Hw) as (k & pool' & -> & Hw' & [(-> & -> & Hall)|(Hk & _ & _ & (s & Hs & Hu & Hs') & Hlow & _)]).
  - split; [|done]. split.
    + intros (p & [= Hx] & _). pool_lia.
    + intros [Hn _]. by destruct (Hn (Hall i Hi)).
  - assert (Hnk : ~ slot_used (flushed_segments pool) k).
    { intros (s' & Hs2 & Hu2). congruence. }
    split; [split|split].
    + intros (p & [= <- <-] & _). done.
    + intros [Hn Hl]. assert (k = i) as ->.
      { destruct (Z.lt_trichotomy k i) as [Hki|[|Hki]]; [|done|].
        - destruct (Hnk (Hl k ltac:(lia))). - destruct (Hn (Hlow i ltac:(lia))). }
      exists pool'. split; [done|]. split; [done|]. by exists (s <| in_used := true |>).
    + intros [= ->]. pool_lia.
    + intros Hl. destruct (Hnk (Hl k ltac:(lia))).
Qed.
End reserve.

(** ** Refinement of a sorted list of segment-id ranges *)

Definition range_of (s : FlushedSegmentData) : Z * Z := (segment_id_start s, segment_id_end s).
Definition ranges (segs : list FlushedSegmentData) (l : list Z) : list (Z * Z) :=
  omap (fun i => range_of <$> segs !! i) l.

(** Insertion after every range that does not start later. *)
Fixpoint insert_range (x : Z * Z) (l : list (Z * Z)) : list (Z * Z) :=
  match l with
  | [] => [x]
  | y :: l' => if x.1 <? y.1 then x :: y :: l' else y :: insert_range x l'
  end.

Section refinement.
Implicit Types (segs : list FlushedSegmentData) (l : list Z).

Lemma ranges_app segs l1 l2 : ranges segs (l1 ++ l2) = ranges segs l1 ++ ranges segs l2.
Proof. apply omap_app. Qed.

Lemma ranges_ext segs segs' l :
  (forall i, i ∈ l -> payload_at segs' i = payload_at segs i) -> ranges segs' l = ranges segs l.
Proof.
  intros Hp. induction l as [|i l IH]; [done|]. unfold ranges in *. cbn.
  rewrite (payload_proj range_of segs segs' i (fun _ => eq_refl)) by (apply Hp; set_solver).
  rewrite IH by (intros; apply Hp; set_solver). done.
Qed.

Lemma ranges_single segs i p s :
  payload_at segs i = Some p -> range_of p = range_of s -> ranges segs [i] = [range_of s].
Proof.
  intros Hp Hr. unfold payload_at in Hp. unfold ranges. cbn. destruct (segs !! i) as [si|]; [|done].
  cbn in Hp |- *. injection Hp as <-. by rewrite <-Hr.
Qed.

Lemma insert_range_split x (l1 l2 : list (Z * Z)) :
  (forall y, y ∈ l1 -> y.1 <= x.1) -> (forall y, y ∈ l2 -> x.1 < y.1) ->
  insert_range x (l1 ++ l2) = l1 ++ x :: l2.
Proof.
  intros H1 H2. induction l1 as [|y l1 IH]; cbn.
  - destruct l2 as [|y l2]; [done|]. specialize (H2 y ltac:(left)). cbn.
    destruct (Z.ltb_spec x.1 y.1); [done|lia].
  - specialize (H1 y ltac:(left)) as Hy. destruct (Z.ltb_spec x.1 y.1); [lia|].
    rewrite IH; [done|]. intros z Hz. apply H1. by right.
Qed.

Lemma elem_of_ranges segs l r :
  r ∈ ranges segs l -> exists i, i ∈ l /\ r.1 = start_of segs i.
Proof.
  intros (i & Hi & Hr)%list_elem_of_omap. exists i. split; [done|]. unfold start_of.
  destruct (segs !! i); [|done]. cbn in Hr. by injection Hr as <-.
Qed.

(** Registering a reserved slot refines insertion into the sorted list of
    published ranges: the slot appears after every segment that does not
    start later, the doubly linked list stays well formed and sorted, the
    slot has one reference, and the three statistics still count exactly
    the published segments. *)
Theorem register_refines_insert cap pool l idx s :
  pool_wf pool l -> stats_exact cap pool l ->
  flushed_segments pool !! idx = Some s -> in_used s = true -> idx ∉ l ->
  exists pool' l',
    Pool.register_flushed_segment cap pool idx = Ok pool' /\ pool_wf pool' l' /\ l' ≡ₚ idx :: l /\
    ranges (flushed_segments pool') l' = insert_range (range_of s) (ranges (flushed_segments pool) l) /\
    stats_exact cap pool' l' /\
    flushed_segment_count pool' = u32 (flushed_segment_count pool + 1).
Proof.
  intros Hw Hst Hs Hu Hidx.
  destruct (register_spec cap pool l idx s) as (pool' & l1 & l3 & Hr & -> & H1 & H3 & Hw' & Hst' & Hn & Ho & Hc);
    [done..|].
  exists pool', (l1 ++ idx :: l3). do 2 (split; [done|]). split; [by rewrite Permutation_middle|]. split; [|done].
  change (idx :: l3) with ([idx] ++ l3). rewrite !ranges_app, (ranges_single _ _ _ s Hn eq_refl).
  rewrite insert_range_split.
  - f_equal; [|cbn; f_equal]; (apply ranges_ext; intros i Hi; apply Ho; set_solver).
  - intros y (i & Hi & ->)%elem_of_ranges. by apply H1.
  - intros y (i & Hi & ->)%elem_of_ranges. by apply H3.
Qed.

(** Replacing a contiguous span of the published list by one new segment
    refines the splice of the range list; list, order and statistics stay
    exact, the new segment is published with one reference, and every old
    slot loses exactly one: it is freed when nobody else holds it and keeps
    all its buffers otherwise. *)
Theorem replace_refines_splice cap pool l1 olds l3 new s :
  pool_wf pool (l1 ++ olds ++ l3) -> stats_exact cap pool (l1 ++ olds ++ l3) -> olds <> [] ->
  flushed_segments pool !! new = Some s -> in_used s = true -> new ∉ l1 ++ olds ++ l3 ->
  (forall i, i ∈ l1 -> start_of (flushed_segments pool) i <= segment_id_start s) ->
  (forall i, i ∈ l3 -> segment_id_start s <= start_of (flushed_segments pool) i) ->
  exists pool',
    Pool.replace_flushed_segments_n cap pool olds new = Ok pool' /\
    pool_wf pool' (l1 ++ new :: l3) /\
    ranges (flushed_segments pool') (l1 ++ new :: l3) =
      ranges (flushed_segments pool) l1 ++ range_of s :: ranges (flushed_segments pool) l3 /\
    stats_exact cap pool' (l1 ++ new :: l3) /\
    forall j sj, j ∈ olds -> flushed_segments pool !! j = Some sj ->
      exists sj', flushed_segments pool' !! j = Some sj' /\
        if ref_count sj =? 1 then in_used sj' = false /\ index_ptr sj' = None /\ map_ptr sj' = None
        else in_used sj' = true /\ ref_count sj' = ref_count sj - 1 /\
             (index_ptr sj', bitmap_ptr sj', map_ptr sj') = (index_ptr sj, bitmap_ptr sj, map_ptr sj).
Proof.
  intros Hw Hst Hne Hs Hu Hnew H1 H3.
  destruct (replace_spec cap pool l1 olds l3 new s) as (pool' & Hr & Hw' & Hst' & Hn & Hold & Ho & _); [done..|].
  exists pool'. do 2 (split; [done|]). specialize (Hst' Hst).
  pose proof (lw_nodup _ _ (pw_list _ _ Hw)) as Hnd. rewrite !NoDup_app in Hnd.
  destruct Hnd as (_ & Hd1 & _ & Hd3 & _). split; [|split; [done|]].
  - change (new :: l3) with ([new] ++ l3). rewrite !ranges_app, (ranges_single _ _ _ s Hn eq_refl). cbn [app].
    f_equal; [|f_equal]; apply ranges_ext; intros i Hi; apply Ho; [|set_solver| |set_solver].
    + intros Hx. apply (Hd1 i Hi). set_solver.
    + intros Hx. by apply (Hd3 i Hx).
  - intros j sj Hj Hsj. specialize (Hold j Hj). unfold payload_at in Hold. rewrite Hsj in Hold.
    destruct (flushed_segments pool' !! j) as [sj'|]; [|done]. exists sj'. split; [done|].
    cbn in Hold. apply (inj Some) in Hold.
    assert (Hj' : j ∈ l1 ++ olds ++ l3) by set_solver.
    pose proof (pw_refs _ _ Hw j sj Hj' Hsj) as Href. pose proof (lw_used _ _ (pw_list _ _ Hw) j sj Hj' Hsj) as Husj.
    assert (forall A (f : FlushedSegmentData -> A), (forall s, f (payload s) = f s) -> f sj' = f (released sj)) as Hf.
    { intros A f Hfp. by rewrite <-(Hfp sj'), <-(Hfp (released sj)), Hold. }
    rewrite (Hf _ in_used), (Hf _ index_ptr), (Hf _ map_ptr), (Hf _ ref_count), (Hf _ bitmap_ptr) by done.
    unfold released. cbn. rewrite i32_small by lia.
    destruct (Z.eqb_spec (ref_count sj) 1), (Z.eqb_spec (ref_count sj - 1) 0); try lia; done.
Qed.
End refinement.

(** Every replacement of [n] segments that no reader holds lowers
    [flushed_segment_count] by [2 n - 1] although it removes [n] segments and
    publishes one: the cleanup of each old slot and the final adjustment both
    count it. *)
Theorem replace_count_drift cap pool l1 olds l3 new s :
  pool_wf pool (l1 ++ olds ++ l3) -> olds <> [] ->
  flushed_segments pool !! new = Some s -> in_used s = true -> new ∉ l1 ++ olds ++ l3 ->
  (forall i, i ∈ l1 -> start_of (flushed_segments pool) i <= segment_id_start s) ->
  (forall i, i ∈ l3 -> segment_id_start s <= start_of (flushed_segments pool) i) ->
  (forall i si, i ∈ olds -> flushed_segments pool !! i = Some si -> ref_count si = 1) ->
  exists pool', Pool.replace_flushed_segments_n cap pool olds new = Ok pool' /\
    zlen (l1 ++ new :: l3) = zlen (l1 ++ olds ++ l3) - zlen olds + 1 /\
    flushed_segment_count pool' = u32 (flushed_segment_count pool - (2 * zlen olds - 1)).
Proof.
  intros Hw Hne Hs Hu Hn H1 H3 Href.
  destruct (replace_spec cap pool l1 olds l3 new s) as (pool' & Hr & _ & _ & _ & _ & _ & _ & Hc); [done..|].
  exists pool'. split; [done|]. split; [autorewrite with dpv; lia|]. rewrite Hc. f_equal.
  assert (Hall : forall l, (forall i, i ∈ l -> i ∈ olds) -> stat_sum freed_by_release (flushed_segments pool) l = zlen l).
  { induction l as [|i l IH]; intros Hsub; [done|]. rewrite zlen_cons.
    destruct (list_wf_slot _ _ i (pw_list _ _ Hw)) as [si Hsi]; [specialize (Hsub i); set_solver|].
    rewrite (stat_sum_cons _ _ _ _ si), IH by (done || set_solver). unfold freed_by_release.
    by rewrite (Href i si) by (done || apply Hsub; set_solver). }
  rewrite Hall by done. lia.
Qed.

(** ** Deciding the invariant on a concrete pool *)

Fixpoint chainb (segs : list FlushedSegmentData) (p : Z) (l : list Z) (n : Z) : bool :=
  match l with
  | [] => true
  | i :: l' => bool_decide (link_of segs i = Some (p, hd_or n l')) && chainb segs i l' n
  end.

Definition published_okb (segs : list FlushedSegmentData) (i : Z) : bool :=
  match segs !! i with
  | Some s => in_used s && (1 <=? ref_count s) && (ref_count s <? 2 ^ 31)
  | None => false
  end.

Fixpoint sortedb (segs : list FlushedSegmentData) (l : list Z) : bool :=
  match l with
  | [] => true
  | i :: l' => forallb (fun j => start_of segs i <=? start_of segs j) l' && sortedb segs l'
  end.

Definition pool_wfb (pool : FlushedSegmentPool) (l : list Z) : bool :=
  let segs := flushed_segments pool in
  (zlen segs =? MAX_SEGMENTS_COUNT) && bool_decide (NoDup l) && chainb segs NIL l NIL &&
  forallb (published_okb segs) l && sortedb segs l &&
  (head_idx pool =? hd_or NIL l) && (tail_idx pool =? last_or NIL l) &&
  (0 <=? insert_idx pool) && (insert_idx pool <=? MAX_SEGMENTS_COUNT).

Lemma chainb_sound segs p l n : chainb segs p l n = true -> chain segs p l n.
Proof.
  revert p; induction l as [|i l IH]; intros p; cbn; [done|]. rewrite andb_true_iff, bool_decide_eq_true.
  intros [? ?]. auto.
Qed.

Lemma sortedb_sound segs l :
  sortedb segs l = true -> StronglySorted (fun i j => start_of segs i <= start_of segs j) l.
Proof.
  induction l as [|i l IH]; cbn; [constructor|]. rewrite andb_true_iff, forallb_forall. intros [Hf Hs].
  constructor; [auto|]. apply List.Forall_forall. intros j Hj. by apply Z.leb_le, Hf.
Qed.

Lemma pool_wfb_sound pool l : pool_wfb pool l = true -> pool_wf pool l.
Proof.
  unfold pool_wfb. rewrite !andb_true_iff, !Z.eqb_eq, !Z.leb_le, bool_decide_eq_true.
  intros ((((((((Hz & Hnd) & Hc) & Hu) & Hs) & Hh) & Ht) & H0) & H1).
  rewrite forallb_forall in Hu.
  assert (Hpub : forall i s, i ∈ l -> flushed_segments pool !! i = Some s ->
            in_used s = true /\ 1 <= ref_count s < 2 ^ 31).
  { intros i s Hi Hsi. specialize (Hu i ltac:(by apply list_elem_of_In)). unfold published_okb in Hu.
    rewrite Hsi, !andb_true_iff, Z.leb_le, Z.ltb_lt in Hu. tauto. }
  split; [split| | | |]; try done.
  - by apply chainb_sound.
  - intros i s Hi Hsi. by apply (Hpub i s).
  - by apply sortedb_sound.
  - intros i s Hi Hsi. by apply (Hpub i s).
Qed.
