(* ===== verification/PoolLifecycle.v ===== *)
(** Life cycle of pool slots under concurrent readers and maintenance: the
    critical sections of the index worker's threads as a step relation over
    the pool, the published list, the reserved slots and the readers' pins.
    The invariant gives the memory safety of readers; two closed runs show the
    weaknesses of the counting scheme (the double cleanup of two racing
    releases, slots never reused after a replacement, the drifting count). *)

From S2P Require Import Prelude SegmentPool.

(** What a reader copies out of a pinned segment (SegmentSearchInfo). *)
Definition buffers : Type := option Z * option (list Z) * option (list Z).
Definition buffers_of (s : FlushedSegmentData) : buffers := (index_ptr s, bitmap_ptr s, map_ptr s).
#[global] Instance buffers_eq_dec : EqDecision buffers.
Proof. unfold buffers. solve_decision. Defined.

Record pool_state := mkPoolState {
  ps_pool : FlushedSegmentPool;
  ps_list : list Z;                 (** published, in list order *)
  ps_reserved : list Z;             (** reserved, not yet published *)
  ps_pins : list (Z * buffers) }.   (** one entry per reference a reader holds *)

Definition pins_of (st : pool_state) (i : Z) : Z := zlen (filter (fun p => p.1 = i) (ps_pins st)).
Definition owners (st : pool_state) (i : Z) : Z :=
  (if decide (i ∈ ps_list st) then 1 else 0) + pins_of st i.

Definition set_lock (pool : FlushedSegmentPool) (lk : rwlock) : FlushedSegmentPool := pool <| seg_lock := lk |>.

(** Loading a reserved slot writes its description and its buffers
    (load_and_set_segment and the adoption, rebuild and merge publishers). *)
Definition loaded (s s' : FlushedSegmentData) : Prop :=
  in_used s' = true /\ ref_count s' = ref_count s.

Inductive pool_step (cap : Z) : pool_state -> pool_state -> Prop :=
| step_reserve st lk i pool' :
    Pool.reserve_flushed_segment (set_lock (ps_pool st) lk) = Ok (i, pool') -> i <> NIL ->
    pool_step cap st (mkPoolState pool' (ps_list st) (i :: ps_reserved st) (ps_pins st))
| step_load st i s s' :
    i ∈ ps_reserved st -> flushed_segments (ps_pool st) !! i = Some s -> loaded s s' ->
    pool_step cap st
      (mkPoolState ((ps_pool st) <| flushed_segments ::= <[i := s']> |>) (ps_list st) (ps_reserved st) (ps_pins st))
| step_register st lk i l1 l3 r1 r2 pool' s :
    ps_reserved st = r1 ++ i :: r2 -> ps_list st = l1 ++ l3 ->
    flushed_segments (ps_pool st) !! i = Some s ->
    (forall j, j ∈ l1 -> start_of (flushed_segments (ps_pool st)) j <= segment_id_start s) ->
    (forall j, j ∈ l3 -> segment_id_start s < start_of (flushed_segments (ps_pool st)) j) ->
    Pool.register_flushed_segment cap (set_lock (ps_pool st) lk) i = Ok pool' ->
    pool_step cap st (mkPoolState pool' (l1 ++ i :: l3) (r1 ++ r2) (ps_pins st))
| step_replace st lk l1 olds l3 i r1 r2 pool' s :
    ps_reserved st = r1 ++ i :: r2 -> ps_list st = l1 ++ olds ++ l3 -> olds <> [] ->
    flushed_segments (ps_pool st) !! i = Some s ->
    (forall j, j ∈ l1 -> start_of (flushed_segments (ps_pool st)) j <= segment_id_start s) ->
    (forall j, j ∈ l3 -> segment_id_start s <= start_of (flushed_segments (ps_pool st)) j) ->
    Pool.replace_flushed_segments_n cap (set_lock (ps_pool st) lk) olds i = Ok pool' ->
    pool_step cap st (mkPoolState pool' (l1 ++ i :: l3) (r1 ++ r2) (ps_pins st))
| step_pin st i s pool' :
    i ∈ ps_list st -> flushed_segments (ps_pool st) !! i = Some s -> zlen (ps_pins st) < 2 ^ 31 - 2 ->
    Pool.pin_segment (ps_pool st) i = Ok pool' ->
    pool_step cap st (mkPoolState pool' (ps_list st) (ps_reserved st) ((i, buffers_of s) :: ps_pins st))
| step_unpin st lk i b p1 p2 pool' :
    ps_pins st = p1 ++ (i, b) :: p2 ->
    Pool.decrement_flushed_segment_ref_count (set_lock (ps_pool st) lk) i = Ok pool' ->
    pool_step cap st (mkPoolState pool' (ps_list st) (ps_reserved st) (p1 ++ p2))
| step_discard st lk i r1 r2 pool' :
    ps_reserved st = r1 ++ i :: r2 ->
    Pool.discard_reserved_segment (set_lock (ps_pool st) lk) i = Ok pool' ->
    pool_step cap st (mkPoolState pool' (ps_list st) (r1 ++ r2) (ps_pins st)).

(** The slot fields the invariant speaks of, all part of the payload. *)
Definition view (s : FlushedSegmentData) : bool * Z * buffers := (in_used s, ref_count s, buffers_of s).
Definition view_at (pool : FlushedSegmentPool) (i : Z) : option (bool * Z * buffers) :=
  view <$> flushed_segments pool !! i.

Definition live (st : pool_state) (i : Z) : Prop :=
  i ∈ ps_list st \/ i ∈ ps_reserved st \/ i ∈ (ps_pins st).*1.

(** The reference count of a slot is the number of its owners (the published
    list and every pin), it is in use exactly while it has one or is reserved,
    and its buffers are the ones every reader of it copied. *)
Definition slot_inv (st : pool_state) (i : Z) (v : bool * Z * buffers) : Prop :=
  let '(u, r, b) := v in
  r = owners st i /\ (u = true <-> live st i) /\ forall b0, (i, b0) ∈ ps_pins st -> b0 = b.

Record pool_inv (st : pool_state) : Prop := {
  pi_wf : pool_wf (ps_pool st) (ps_list st);
  pi_reserved : NoDup (ps_reserved st);
  pi_private : forall i, i ∈ ps_reserved st -> ~ (i ∈ ps_list st \/ i ∈ (ps_pins st).*1);
  pi_valid : forall i, live st i -> exists v, view_at (ps_pool st) i = Some v;
  pi_slots : forall i v, view_at (ps_pool st) i = Some v -> slot_inv st i v;
  pi_few : zlen (ps_pins st) < 2 ^ 31 - 1 }.

Section views.
Implicit Types (pool : FlushedSegmentPool) (st : pool_state) (i j : Z).

Lemma view_at_payload pool pool' i :
  payload_at (flushed_segments pool') i = payload_at (flushed_segments pool) i -> view_at pool' i = view_at pool i.
Proof. apply (payload_proj view). done. Qed.

Lemma view_at_Some pool i s : flushed_segments pool !! i = Some s -> view_at pool i = Some (view s).
Proof. intros Hs. unfold view_at. by rewrite Hs. Qed.

Lemma view_at_insert pool segs i j s' :
  flushed_segments pool = <[i := s']> segs -> (exists s, segs !! i = Some s) ->
  view_at pool j = if decide (i = j) then Some (view s') else view <$> segs !! j.
Proof.
  intros Hp [s Hs]. unfold view_at. rewrite Hp, zlookup_insert. case_decide; [subst; by rewrite Hs|done].
Qed.

(** What a release does to the fields of the invariant. *)
Definition release_view (v : bool * Z * buffers) : bool * Z * buffers :=
  let '(u, r, b) := v in if i32 (r - 1) =? 0 then (false, 0, (None, None, None)) else (u, i32 (r - 1), b).

Lemma view_released s : view (released s) = release_view (view s).
Proof. unfold released, view, release_view. cbn. by destruct (i32 (ref_count s - 1) =? 0). Qed.

Lemma pool_wf_set_lock pool l lk : pool_wf pool l -> pool_wf (set_lock pool lk) l.
Proof. intros [H1 H2 H3 H4 H5]. by split. Qed.

Lemma pins_of_bounds st i : 0 <= pins_of st i <= zlen (ps_pins st).
Proof.
  unfold pins_of, zlen. pose proof (length_filter (fun p : Z * buffers => p.1 = i) (ps_pins st)). lia.
Qed.

Lemma pins_of_pos st i b : (i, b) ∈ ps_pins st -> 1 <= pins_of st i.
Proof.
  intros Hin. unfold pins_of.
  assert ((i, b) ∈ filter (fun p => p.1 = i) (ps_pins st)) as Hf by by apply list_elem_of_filter.
  destruct (filter _ _) as [|x r]; [by apply elem_of_nil in Hf|]. rewrite zlen_cons. pose proof (zlen_nonneg r). lia.
Qed.

Lemma pins_of_zero st i : i ∉ (ps_pins st).*1 -> pins_of st i = 0.
Proof.
  intros Hn. unfold pins_of. destruct (filter _ _) as [|[k b] r] eqn:E; [done|].
  exfalso. assert ((k, b) ∈ filter (fun p => p.1 = i) (ps_pins st)) as Hf by (rewrite E; left).
  apply list_elem_of_filter in Hf as [Hk Hin]. cbn in Hk. subst. apply Hn.
  by apply (list_elem_of_fmap_2 fst) in Hin.
Qed.

Lemma pins_of_zero_inv st i : pins_of st i = 0 -> i ∉ (ps_pins st).*1.
Proof.
  intros H0 ([k b] & -> & Hin)%list_elem_of_fmap. apply pins_of_pos in Hin. cbn in H0. lia.
Qed.

(** Pins counted instead of listed. *)
Lemma live_pins st i : live st i <-> i ∈ ps_list st \/ i ∈ ps_reserved st \/ 1 <= pins_of st i.
Proof.
  unfold live. destruct (decide (i ∈ (ps_pins st).*1)) as [Hx|Hx].
  - apply list_elem_of_fmap in Hx as Hy. destruct Hy as ([k b] & -> & Hk). apply pins_of_pos in Hk. tauto.
  - rewrite (pins_of_zero _ _ Hx). split; [tauto|]. intros [|[|]]; [tauto..|lia].
Qed.

Lemma owners_pinned st i b : (i, b) ∈ ps_pins st -> 1 <= owners st i.
Proof. intros Hp%pins_of_pos. unfold owners. case_decide; lia. Qed.

Lemma inv_wf_len st : pool_inv st -> zlen (flushed_segments (ps_pool st)) = MAX_SEGMENTS_COUNT.
Proof. intros Hi. apply (pi_wf _ Hi). Qed.
End views.

(** ** Preservation, step by step *)
Section preservation.
Context (cap : Z).
Implicit Types (st : pool_state) (i j : Z).

Lemma filter_app_cons (p1 p2 : list (Z * buffers)) i b k :
  zlen (filter (fun p => p.1 = k) (p1 ++ (i, b) :: p2)) =
  zlen (filter (fun p => p.1 = k) (p1 ++ p2)) + (if decide (i = k) then 1 else 0).
Proof.
  rewrite !filter_app, filter_cons, !zlen_app. cbn. case_decide; rewrite ?zlen_cons; lia.
Qed.

(** A step that changes slot views pointwise by [F] keeps the invariant when
    [F] does so slot by slot. *)
Lemma inv_step st st' (F : Z -> bool * Z * buffers -> bool * Z * buffers) :
  pool_inv st -> pool_wf (ps_pool st') (ps_list st') -> NoDup (ps_reserved st') ->
  zlen (ps_pins st') < 2 ^ 31 - 1 ->
  (forall j, view_at (ps_pool st') j = F j <$> view_at (ps_pool st) j) ->
  (forall j, live st' j -> exists v, view_at (ps_pool st) j = Some v) ->
  (forall j v, view_at (ps_pool st) j = Some v -> slot_inv st j v -> slot_inv st' j (F j v)) ->
  (forall j, j ∈ ps_reserved st' -> ~ (j ∈ ps_list st' \/ j ∈ (ps_pins st').*1)) ->
  pool_inv st'.
Proof.
  intros Hi Hw Hnd Hf Hv Hl Hs Hp. split; [done..| | |done].
  - intros j [v Hj]%Hl. rewrite Hv, Hj. by eexists.
  - intros j v Hj. rewrite Hv in Hj. destruct (view_at (ps_pool st) j) as [v0|] eqn:E; [|done].
    injection Hj as <-. apply Hs; [done|]. by apply (pi_slots _ Hi).
Qed.

Lemma view_reserved st i v :
  pool_inv st -> i ∈ ps_reserved st -> view_at (ps_pool st) i = Some v -> exists b, v = (true, 0, b).
Proof.
  intros Hi Hr Hv. destruct v as [[u r] b]. destruct (pi_slots _ Hi _ _ Hv) as (-> & Hu & _).
  pose proof (pi_private _ Hi i Hr) as Hp. exists b.
  assert (u = true) as -> by (apply Hu; right; by left). unfold owners.
  rewrite decide_False, pins_of_zero by tauto. done.
Qed.

Lemma inv_reserve st lk i pool' :
  pool_inv st -> Pool.reserve_flushed_segment (set_lock (ps_pool st) lk) = Ok (i, pool') -> i <> NIL ->
  pool_inv (mkPoolState pool' (ps_list st) (i :: ps_reserved st) (ps_pins st)).
Proof.
  intros Hinv Hres Hi.
  destruct (reserve_spec _ _ (pool_wf_set_lock _ _ lk (pi_wf _ Hinv))) as (k & p & Heq & Hw' & Hc).
  rewrite Hres in Heq. injection Heq as <- <-.
  destruct Hc as [(-> & _)|(_ & Hil & _ & (s & Hsi & Hu & Hsi') & _ & Ho)]; [done|]. cbn in Hsi.
  pose proof (view_at_Some _ _ _ Hsi) as Hvi.
  assert (Hdead : ~ live st i).
  { destruct (pi_slots _ Hinv _ _ Hvi) as (_ & Hx & _). rewrite <-Hx. cbn. by rewrite Hu. }
  apply (inv_step st _ (fun j v => if decide (j = i) then (true, v.1.2, v.2) else v) Hinv); cbn.
  - done.
  - constructor; [|apply Hinv]. unfold live in Hdead. tauto.
  - apply Hinv.
  - intros j. case_decide as Hj; [subst; rewrite Hvi; unfold view_at; by rewrite Hsi'|].
    unfold view_at. rewrite Ho by done. cbn. by destruct (flushed_segments (ps_pool st) !! j).
  - intros j Hj. destruct (decide (j = i)) as [->|]; [eauto|]. apply (pi_valid _ Hinv).
    unfold live in *. cbn in Hj. set_solver.
  - intros j [[u r] b] Hv (-> & Hl & Hb). case_decide as Hj; cbn.
    + split; [done|]. split; [|done]. unfold live. cbn. set_solver.
    + split; [done|]. split; [|done]. rewrite Hl. unfold live. cbn. set_solver.
  - intros j [->|Hj]%elem_of_cons; [unfold live in Hdead; tauto|]. by apply (pi_private _ Hinv).
Qed.

Lemma inv_load st i s s' :
  pool_inv st -> i ∈ ps_reserved st -> flushed_segments (ps_pool st) !! i = Some s -> loaded s s' ->
  pool_inv (mkPoolState ((ps_pool st) <| flushed_segments ::= <[i := s']> |>) (ps_list st) (ps_reserved st) (ps_pins st)).
Proof.
  intros Hinv Hi Hs [Hu' Hr']. pose proof (pi_private _ Hinv i Hi) as Hpriv.
  pose proof (view_at_Some _ _ _ Hs) as Hvi. pose proof (pi_wf _ Hinv) as Hw.
  assert (Hother : forall j, j <> i -> <[i := s']> (flushed_segments (ps_pool st)) !! j = flushed_segments (ps_pool st) !! j).
  { intros j Hj. by apply zlookup_insert_ne. }
  apply (inv_step st _ (fun j v => if decide (i = j) then view s' else v) Hinv); cbn; try apply Hinv.
  - split; cbn; try apply Hw.
    + eapply list_wf_frame; [apply zlen_insert| |apply Hw]. intros j Hj. apply Hother. intros ->. tauto.
    + intros j sj Hj. rewrite Hother by (intros ->; tauto). by apply (pw_refs _ _ Hw).
  - intros j. rewrite (view_at_insert _ (flushed_segments (ps_pool st)) i j s') by (done || eauto).
    case_decide; [subst; by rewrite Hvi|]. fold (view_at (ps_pool st) j). by destruct (view_at (ps_pool st) j).
  - intros j [[u r] b] Hv (-> & Hl & Hb). case_decide as Hj; [|done]. subst j.
    rewrite Hv in Hvi. injection Hvi as Hu0 Ho _. split; [|split].
    + change (ref_count s' = owners st i). by rewrite Hr', Ho.
    + rewrite Hu'. unfold live. cbn. tauto.
    + intros b0 Hin. exfalso. apply Hpriv. right. by apply (list_elem_of_fmap_2 fst) in Hin.
Qed.

Lemma register_result st lk l1 l3 i s pool' :
  pool_wf (ps_pool st) (l1 ++ l3) ->
  flushed_segments (ps_pool st) !! i = Some s -> in_used s = true -> i ∉ l1 ++ l3 ->
  (forall j, j ∈ l1 -> start_of (flushed_segments (ps_pool st)) j <= segment_id_start s) ->
  (forall j, j ∈ l3 -> segment_id_start s < start_of (flushed_segments (ps_pool st)) j) ->
  Pool.register_flushed_segment cap (set_lock (ps_pool st) lk) i = Ok pool' ->
  pool_wf pool' (l1 ++ i :: l3) /\
  forall j, view_at pool' j = if decide (i = j) then Some (true, 1, buffers_of s) else view_at (ps_pool st) j.
Proof.
  intros Hw Hs Hu Hi H1 H3 Hreg. pose proof (register_core cap _ l1 l3 i s (pool_wf_set_lock _ _ lk Hw) Hs Hu Hi H1 H3)
    as (p & Hp & Hw' & Hn & Ho & _).
  rewrite Hreg in Hp. injection Hp as <-. split; [done|]. intros j. case_decide as Hj.
  - subst. unfold payload_at in Hn. unfold view_at. destruct (flushed_segments pool' !! j) as [s'|]; [|done].
    cbn in Hn |- *. apply (inj Some) in Hn. f_equal. rewrite <-(eq_refl : view (payload s') = view s'), Hn.
    unfold view. cbn. by rewrite Hu.
  - apply view_at_payload. by apply Ho.
Qed.

Lemma owners_eq st p l r i :
  owners (mkPoolState p l r (ps_pins st)) i = (if decide (i ∈ l) then 1 else 0) + pins_of st i.
Proof. done. Qed.

Lemma reserved_slot st r1 i r2 s :
  pool_inv st -> ps_reserved st = r1 ++ i :: r2 -> flushed_segments (ps_pool st) !! i = Some s ->
  in_used s = true /\ ref_count s = 0 /\ (i ∉ ps_list st) /\ (i ∉ (ps_pins st).*1) /\ (i ∉ r1 ++ r2) /\ NoDup (r1 ++ r2) /\
  view_at (ps_pool st) i = Some (true, 0, buffers_of s).
Proof.
  intros Hinv Hr Hs. pose proof (view_at_Some _ _ _ Hs) as Hv.
  assert (Hi : i ∈ ps_reserved st) by (rewrite Hr; set_solver).
  pose proof (pi_private _ Hinv i Hi) as Hp. destruct (view_reserved _ _ _ Hinv Hi Hv) as [b Hb].
  pose proof (pi_reserved _ Hinv) as Hnd. rewrite Hr in Hnd.
  injection Hb as Hu Hrc Hbb. rewrite Hv. unfold view. rewrite Hu, Hrc.
  split; [done|]. split; [done|]. split; [tauto|]. split; [tauto|]. split; [|split; [|done]].
  - rewrite <-Permutation_middle in Hnd. by apply NoDup_cons in Hnd as [? _].
  - by apply (NoDup_drop_middle r1 [i] r2).
Qed.

Lemma inv_register st lk i l1 l3 r1 r2 pool' s :
  pool_inv st -> ps_reserved st = r1 ++ i :: r2 -> ps_list st = l1 ++ l3 ->
  flushed_segments (ps_pool st) !! i = Some s ->
  (forall j, j ∈ l1 -> start_of (flushed_segments (ps_pool st)) j <= segment_id_start s) ->
  (forall j, j ∈ l3 -> segment_id_start s < start_of (flushed_segments (ps_pool st)) j) ->
  Pool.register_flushed_segment cap (set_lock (ps_pool st) lk) i = Ok pool' ->
  pool_inv (mkPoolState pool' (l1 ++ i :: l3) (r1 ++ r2) (ps_pins st)).
Proof.
  intros Hinv Hr Hl Hs H1 H3 Hreg.
  destruct (reserved_slot _ _ _ _ _ Hinv Hr Hs) as (Hu & Hz & Hil & Hip & Hir & Hnd & Hvi).
  pose proof (pi_wf _ Hinv) as Hw. rewrite Hl in Hw, Hil.
  destruct (register_result st lk l1 l3 i s pool' Hw Hs Hu Hil H1 H3 Hreg) as [Hw' Hv'].
  apply (inv_step st _ (fun j v => if decide (i = j) then (true, 1, buffers_of s) else v) Hinv); cbn; [done|done|apply Hinv|..].
  - intros j. rewrite Hv'. case_decide; [subst; by rewrite Hvi|]. by destruct (view_at (ps_pool st) j).
  - intros j Hj. destruct (decide (j = i)) as [->|]; [eauto|]. apply (pi_valid _ Hinv).
    unfold live in *. cbn in Hj. rewrite Hl, Hr. set_solver.
  - intros j [[u r] b] Hv (Ho & Hlv & Hb). unfold owners, live in Ho, Hlv. rewrite Hl in Ho, Hlv. rewrite Hr in Hlv.
    destruct (decide (i = j)) as [<-|Hj]; unfold slot_inv, live; rewrite owners_eq; cbn [ps_list ps_reserved ps_pins].
    + split; [|split].
      * rewrite decide_True by set_solver. by rewrite pins_of_zero.
      * split; [|done]. intros _. left. set_solver.
      * intros b0 Hin. exfalso. apply Hip. by apply (list_elem_of_fmap_2 fst) in Hin.
    + split; [|split; [|done]].
      * rewrite Ho. f_equal. rewrite (decide_ext (j ∈ l1 ++ i :: l3) (j ∈ l1 ++ l3)) by set_solver. done.
      * rewrite Hlv. set_solver.
  - intros j Hj [Hx|Hx].
    + apply elem_of_app in Hx as [Hx|[->|Hx]%elem_of_cons]; [|done|];
        apply (pi_private _ Hinv j); rewrite ?Hl, ?Hr; set_solver.
    + apply (pi_private _ Hinv j); rewrite ?Hl, ?Hr; set_solver.
Qed.

Lemma inv_replace st lk l1 olds l3 i r1 r2 pool' s :
  pool_inv st -> ps_reserved st = r1 ++ i :: r2 -> ps_list st = l1 ++ olds ++ l3 -> olds <> [] ->
  flushed_segments (ps_pool st) !! i = Some s ->
  (forall j, j ∈ l1 -> start_of (flushed_segments (ps_pool st)) j <= segment_id_start s) ->
  (forall j, j ∈ l3 -> segment_id_start s <= start_of (flushed_segments (ps_pool st)) j) ->
  Pool.replace_flushed_segments_n cap (set_lock (ps_pool st) lk) olds i = Ok pool' ->
  pool_inv (mkPoolState pool' (l1 ++ i :: l3) (r1 ++ r2) (ps_pins st)).
Proof.
  intros Hinv Hr Hl Hne Hs H1 H3 Hrep.
  destruct (reserved_slot _ _ _ _ _ Hinv Hr Hs) as (Hu & Hz & Hil & Hip & Hir & Hnd & Hvi).
  pose proof (pi_wf _ Hinv) as Hw. rewrite Hl in Hw, Hil.
  destruct (replace_spec cap (set_lock (ps_pool st) lk) l1 olds l3 i s)
    as (p & Hp & Hw' & _ & Hn & Hold & Ho & _); [by apply pool_wf_set_lock|done..|].
  rewrite Hrep in Hp. injection Hp as <-.
  assert (Hv' : forall j, view_at pool' j =
    (fun v => if decide (i = j) then (true, 1, buffers_of s) else if decide (j ∈ olds) then release_view v else v)
      <$> view_at (ps_pool st) j).
  { intros j. destruct (decide (i = j)) as [<-|Hj].
    - rewrite Hvi. unfold payload_at in Hn. unfold view_at. destruct (flushed_segments pool' !! i) as [s'|]; [|done].
      cbn in Hn |- *. apply (inj Some) in Hn. f_equal. rewrite <-(eq_refl : view (payload s') = view s'), Hn.
      unfold view. cbn. by rewrite Hu.
    - destruct (decide (j ∈ olds)) as [Hjo|Hjo].
      + specialize (Hold j Hjo). unfold payload_at in Hold. unfold view_at. cbn in Hold.
        destruct (flushed_segments pool' !! j) as [s'|], (flushed_segments (ps_pool st) !! j) as [sj|]; try done.
        cbn in Hold. apply (inj Some) in Hold. change (Some (view s') = Some (release_view (view sj))).
        f_equal. rewrite <-view_released.
        change (view (payload s') = view (payload (released sj))). by rewrite Hold.
      + rewrite (view_at_payload (set_lock (ps_pool st) lk)) by (apply Ho; [done|by intros ->]).
        change (view_at (set_lock (ps_pool st) lk) j) with (view_at (ps_pool st) j).
        by destruct (view_at (ps_pool st) j). }
  pose proof (lw_nodup _ _ (pw_list _ _ Hw)) as Hndl. rewrite !NoDup_app in Hndl.
  destruct Hndl as (_ & Hd1 & _ & Hd3 & _).
  assert (Hio : i ∉ olds) by set_solver.
  eapply (inv_step st _ _ Hinv); cbn; [done|done|apply Hinv|exact Hv'|..].
  - intros j Hj. destruct (decide (j = i)) as [->|]; [eauto|]. apply (pi_valid _ Hinv).
    unfold live in *. cbn in Hj. rewrite Hl, Hr. set_solver.
  - intros j [[u r] b] Hv (Ho' & Hlv & Hb). unfold owners, live in Ho', Hlv. rewrite Hl in Ho', Hlv. rewrite Hr in Hlv.
    pose proof (pins_of_bounds st j) as Hpb. pose proof (pi_few _ Hinv) as Hfew.
    destruct (decide (i = j)) as [<-|Hj]; [|destruct (decide (j ∈ olds)) as [Hjo|Hjo]];
      unfold slot_inv, release_view, live; rewrite owners_eq; cbn [ps_list ps_reserved ps_pins].
    + split; [|split].
      * rewrite decide_True by set_solver. by rewrite pins_of_zero.
      * split; [|done]. intros _. left. set_solver.
      * intros b0 Hin. exfalso. apply Hip. by apply (list_elem_of_fmap_2 fst) in Hin.
    + rewrite decide_True in Ho' by set_solver. rewrite i32_small by lia.
      assert (Hjl : j ∉ l1 ++ i :: l3).
      { intros [Hx|[->|Hx]%elem_of_cons]%elem_of_app; [by apply (Hd1 j Hx); set_solver|done|by apply (Hd3 j Hjo)]. }
      assert (Hjr : j ∉ r1 ++ r2).
      { intros Hx. apply (pi_private _ Hinv j); [rewrite Hr; set_solver|left; rewrite Hl; set_solver]. }
      assert (u = true) as -> by (apply Hlv; left; set_solver).
      destruct (Z.eqb_spec (r - 1) 0) as [Hz0|Hz0].
      * assert (pins_of st j = 0) as Hp0 by lia. split; [rewrite decide_False by done; lia|].
        pose proof (pins_of_zero_inv _ _ Hp0). split; [split; [done|tauto]|].
        intros b0 Hin. apply pins_of_pos in Hin. lia.
      * split; [rewrite decide_False by done; lia|]. split; [|done]. split; [|done]. intros _. right. right.
        destruct (decide (j ∈ (ps_pins st).*1)) as [|Hx]; [done|]. apply pins_of_zero in Hx. lia.
    + split; [|split; [|done]].
      * rewrite Ho'. f_equal. rewrite (decide_ext (j ∈ l1 ++ i :: l3) (j ∈ l1 ++ olds ++ l3)) by set_solver. done.
      * rewrite Hlv. set_solver.
  - intros j Hj [Hx|Hx].
    + apply elem_of_app in Hx as [Hx|[->|Hx]%elem_of_cons]; [|done|];
        apply (pi_private _ Hinv j); rewrite ?Hl, ?Hr; set_solver.
    + apply (pi_private _ Hinv j); rewrite ?Hl, ?Hr; set_solver.
Qed.

(** Steps that only rewrite one slot, leaving links and starts alone. *)
Lemma pool_wf_upd_unlisted pool pool' l i s' :
  pool_wf pool l -> i ∉ l -> flushed_segments pool' = <[i := s']> (flushed_segments pool) ->
  head_idx pool' = head_idx pool -> tail_idx pool' = tail_idx pool ->
  0 <= insert_idx pool' <= MAX_SEGMENTS_COUNT -> pool_wf pool' l.
Proof.
  intros Hw Hi Hs Hh Ht Hins.
  assert (Ho : forall j, j ∈ l -> flushed_segments pool' !! j = flushed_segments pool !! j).
  { intros j Hj. rewrite Hs. apply zlookup_insert_ne. by intros ->. }
  split; [| |by rewrite Hh; apply Hw|by rewrite Ht; apply Hw|done].
  - eapply list_wf_frame; [by rewrite Hs, zlen_insert|exact Ho|apply Hw].
  - intros j sj Hj. rewrite Ho by done. by apply (pw_refs _ _ Hw).
Qed.

Lemma pool_wf_upd_ref pool pool' l i s r :
  pool_wf pool l -> flushed_segments pool !! i = Some s -> 1 <= r < 2 ^ 31 ->
  flushed_segments pool' = <[i := s <| ref_count := r |>]> (flushed_segments pool) ->
  head_idx pool' = head_idx pool -> tail_idx pool' = tail_idx pool ->
  0 <= insert_idx pool' <= MAX_SEGMENTS_COUNT -> pool_wf pool' l.
Proof.
  intros Hw Hi Hr Hs Hh Ht Hins. split; [| |by rewrite Hh; apply Hw|by rewrite Ht; apply Hw|done].
  - rewrite Hs. apply list_wf_set_ref; [apply Hw|done].
  - intros j sj Hj. rewrite Hs, zlookup_insert. case_decide as Hij; [|by apply (pw_refs _ _ Hw)].
    subst j. rewrite Hi. intros [= <-]. done.
Qed.

Lemma inv_pin st i s pool' :
  pool_inv st -> i ∈ ps_list st -> flushed_segments (ps_pool st) !! i = Some s -> zlen (ps_pins st) < 2 ^ 31 - 2 ->
  Pool.pin_segment (ps_pool st) i = Ok pool' ->
  pool_inv (mkPoolState pool' (ps_list st) (ps_reserved st) ((i, buffers_of s) :: ps_pins st)).
Proof.
  intros Hinv Hi Hs Hfew. unfold Pool.pin_segment. run. intros [= <-].
  pose proof (pi_wf _ Hinv) as Hw. pose proof (view_at_Some _ _ _ Hs) as Hvi.
  destruct (pi_slots _ Hinv _ _ Hvi) as (Hr & _ & Hb).
  pose proof (pins_of_bounds st i) as Hpb. unfold owners in Hr. rewrite decide_True in Hr by done.
  assert (Hi32 : i32 (ref_count s + 1) = ref_count s + 1) by (apply i32_small; lia).
  assert (Hpins : forall p j, pins_of (mkPoolState p (ps_list st) (ps_reserved st) ((i, buffers_of s) :: ps_pins st)) j
                   = pins_of st j + (if decide (i = j) then 1 else 0)).
  { intros p j. exact (filter_app_cons [] (ps_pins st) i (buffers_of s) j). }
  apply (inv_step st _ (fun j v => if decide (i = j) then (v.1.1, v.1.2 + 1, v.2) else v) Hinv); cbn.
  - apply (pool_wf_upd_ref (ps_pool st) _ _ i s (ref_count s + 1) Hw Hs); [lia| |done|done|apply Hw].
    rewrite <-Hi32. done.
  - apply Hinv.
  - rewrite zlen_cons. lia.
  - intros j. rewrite (view_at_insert _ (flushed_segments (ps_pool st)) i j (s <| ref_count ::= fun c => i32 (c + 1) |>)) by (done || eauto).
    case_decide as Hj; [subst; rewrite Hvi; cbn; unfold view; cbn; by rewrite Hi32|].
    fold (view_at (ps_pool st) j). by destruct (view_at (ps_pool st) j).
  - intros j Hj. apply (pi_valid _ Hinv). unfold live in *. cbn in Hj. rewrite elem_of_cons in Hj.
    destruct Hj as [|[|[->|]]]; tauto.
  - intros j [[u r] b] Hv (Ho & Hlv & Hbj). unfold slot_inv, owners. rewrite Hpins.
    case_decide as Hj; [subst j|].
    + cbn. rewrite decide_True by done. unfold owners in Ho. rewrite decide_True in Ho by done. split; [lia|]. split.
      * rewrite Hlv. unfold live. cbn. tauto.
      * intros b0 [Hx|Hx]%elem_of_cons; [|by apply Hbj]. injection Hx as ->. rewrite Hv in Hvi. by injection Hvi.
    + cbn. split; [rewrite Ho; unfold owners; lia|]. split.
      * rewrite Hlv. unfold live. cbn. rewrite elem_of_cons. split; [tauto|]. intros [|[|[|]]]; [tauto..|congruence|tauto].
      * intros b0 [Hx|Hx]%elem_of_cons; [injection Hx; congruence|by apply Hbj].
  - intros j Hj [Hx|Hx]; [apply (pi_private _ Hinv j Hj); tauto|].
    apply elem_of_cons in Hx as [->|Hx]; apply (pi_private _ Hinv _ Hj); tauto.
Qed.

Lemma inv_unpin st lk i b p1 p2 pool' :
  pool_inv st -> ps_pins st = p1 ++ (i, b) :: p2 ->
  Pool.decrement_flushed_segment_ref_count (set_lock (ps_pool st) lk) i = Ok pool' ->
  pool_inv (mkPoolState pool' (ps_list st) (ps_reserved st) (p1 ++ p2)).
Proof.
  intros Hinv Hp Hdec. pose proof (pi_wf _ Hinv) as Hw.
  assert (Hin : (i, b) ∈ ps_pins st) by (rewrite Hp; set_solver).
  assert (Hif : i ∈ (ps_pins st).*1) by by apply (list_elem_of_fmap_2 fst) in Hin.
  assert (exists s, flushed_segments (ps_pool st) !! i = Some s) as [s Hs].
  { destruct (pi_valid _ Hinv i) as [v Hv]; [unfold live; tauto|]. unfold view_at in Hv.
    destruct (flushed_segments (ps_pool st) !! i); [eauto|done]. }
  pose proof (view_at_Some _ _ _ Hs) as Hvi. destruct (pi_slots _ Hinv _ _ Hvi) as (Hr & Hu & Hb).
  pose proof (pins_of_bounds st i) as Hpb. pose proof (pins_of_pos _ _ _ Hin) as Hpp. pose proof (pi_few _ Hinv) as Hfew.
  destruct (decrement_spec (set_lock (ps_pool st) lk) i s Hs) as (p & Hd & Hfr & Hseg & Hins & _); [apply Hw|].
  rewrite Hdec in Hd. injection Hd as <-. destruct Hfr as (_ & Hh & Ht & _).
  assert (Hi32 : i32 (ref_count s - 1) = ref_count s - 1).
  { apply i32_small. unfold owners in Hr. destruct (decide (i ∈ ps_list st)); lia. }
  assert (Hpins : forall q j, pins_of (mkPoolState q (ps_list st) (ps_reserved st) (p1 ++ p2)) j
                   = pins_of st j - (if decide (i = j) then 1 else 0)).
  { intros q j. unfold pins_of. cbn [ps_pins]. rewrite Hp, (filter_app_cons p1 p2 i b j). lia. }
  apply (inv_step st _ (fun j v => if decide (i = j) then release_view v else v) Hinv); cbn [ps_pool ps_list ps_reserved ps_pins].
  - assert (0 <= insert_idx pool' <= MAX_SEGMENTS_COUNT) by (pose proof (pw_insert _ _ Hw); cbn in Hins; lia).
    destruct (decide (i ∈ ps_list st)) as [Hl|Hl].
    + eapply (pool_wf_upd_ref _ _ _ i s (ref_count s - 1)); [exact Hw|exact Hs| | |done..].
      * unfold owners in Hr. rewrite decide_True in Hr by done. lia.
      * rewrite Hseg. unfold released. cbn. rewrite Hi32.
        destruct (Z.eqb_spec (ref_count s - 1) 0); [|done].
        unfold owners in Hr. rewrite decide_True in Hr by done. lia.
    + eapply pool_wf_upd_unlisted; [exact Hw|exact Hl|exact Hseg|done..].
  - apply Hinv.
  - rewrite Hp in Hfew. rewrite zlen_app, zlen_cons in *. lia.
  - intros j. rewrite (view_at_insert _ (flushed_segments (ps_pool st)) i j (released s)) by (done || eauto).
    case_decide as Hj; [subst; rewrite Hvi; by rewrite view_released|].
    fold (view_at (ps_pool st) j). by destruct (view_at (ps_pool st) j).
  - intros j Hj. apply (pi_valid _ Hinv). unfold live in *. cbn in Hj.
    rewrite Hp. rewrite fmap_app in *. rewrite fmap_cons, elem_of_app, elem_of_cons in *. tauto.
  - intros j [[u r] b'] Hv (Ho & Hlv & Hbj).
    assert (Hsub : forall b0, (j, b0) ∈ p1 ++ p2 -> b0 = b').
    { intros b0 Hx. apply Hbj. rewrite Hp. set_solver. }
    assert (Hpr : ~ (j ∈ ps_reserved st /\ j = i)).
    { intros [Hx ->]. apply (pi_private _ Hinv _ Hx). tauto. }
    set (st' := mkPoolState pool' (ps_list st) (ps_reserved st) (p1 ++ p2)).
    assert (Hps : pins_of st' j = pins_of st j - (if decide (i = j) then 1 else 0)) by apply Hpins.
    pose proof (live_pins st' j) as Hlive. pose proof (live_pins st j) as Hlive0.
    unfold slot_inv. rewrite Hlive0 in Hlv. rewrite Hps in Hlive.
    assert (Hown : owners st' j = owners st j - (if decide (i = j) then 1 else 0)).
    { unfold owners. rewrite Hps. cbn [ps_list st']. lia. }
    destruct (decide (i = j)) as [<-|Hj].
    + rewrite Hv in Hvi. injection Hvi as Hu1 Hr1 _. unfold release_view. rewrite Hr1, Hi32.
      unfold owners in Ho. destruct (Z.eqb_spec (ref_count s - 1) 0) as [Hz|Hz].
      * destruct (decide (i ∈ ps_list st)); [lia|]. fold st'. rewrite Hlive, Hown. split; [unfold owners; rewrite decide_False by done; lia|].
        split; [split; [done|intros [|[|]]; [done|tauto|lia]]|].
        intros b0 Hx. apply (pins_of_pos st') in Hx. rewrite Hps in Hx. lia.
      * fold st'. rewrite Hlive, Hown. split; [rewrite <-Hr1, Ho; unfold owners; done|]. split; [|exact Hsub].
        rewrite Hlv. destruct (decide (i ∈ ps_list st)); [tauto|]. split; [|tauto]. intros _. right. right. lia.
    + fold st'. rewrite Hlive, Hown. split; [lia|]. split; [|exact Hsub]. rewrite Hlv. by rewrite Z.sub_0_r.
  - intros j Hj Hx. apply (pi_private _ Hinv j Hj). destruct Hx as [|Hx]; [tauto|]. right.
    rewrite Hp. rewrite fmap_app in *. rewrite fmap_cons, elem_of_app, elem_of_cons in *. tauto.
Qed.

Lemma inv_discard st lk i r1 r2 pool' :
  pool_inv st -> ps_reserved st = r1 ++ i :: r2 ->
  Pool.discard_reserved_segment (set_lock (ps_pool st) lk) i = Ok pool' ->
  pool_inv (mkPoolState pool' (ps_list st) (r1 ++ r2) (ps_pins st)).
Proof.
  intros Hinv Hr Hdis. pose proof (pi_wf _ Hinv) as Hw.
  unfold Pool.discard_reserved_segment in Hdis.
  destruct (flushed_segments (ps_pool st) !! i) as [s|] eqn:Hs; [|unfold arr_upd, arr_get in Hdis; cbn in Hdis; by rewrite Hs in Hdis].
  destruct (reserved_slot _ _ _ _ _ Hinv Hr Hs) as (Hu & Hz & Hil & Hip & Hir & Hnd & Hvi).
  cbn [flushed_segments set_lock] in Hdis. 
  change (flushed_segments (set_lock (ps_pool st) lk)) with (flushed_segments (ps_pool st)) in Hdis.
  rewrite (arr_upd_Some _ _ _ _ Hs) in Hdis. cbn [mbind res_bind] in Hdis. injection Hdis as <-.
  set (pool' := Pool.rewind_insert_idx _ i).
  assert (Hp' : flushed_segments pool' = <[i := Pool.retire_slot s]> (flushed_segments (ps_pool st)) /\
                head_idx pool' = head_idx (ps_pool st) /\ tail_idx pool' = tail_idx (ps_pool st) /\
                0 <= insert_idx pool' <= MAX_SEGMENTS_COUNT).
  { apply zlookup_lt_Some in Hs. pose proof (pw_insert _ _ Hw). unfold pool', Pool.rewind_insert_idx. cbn.
    destruct (Z.ltb_spec i (insert_idx (ps_pool st))); cbn; repeat split; done || lia. }
  destruct Hp' as (Hseg & Hh & Ht & Hins).
  apply (inv_step st _ (fun j v => if decide (i = j) then (false, 0, (None, None, None)) else v) Hinv); cbn [ps_pool ps_list ps_reserved ps_pins].
  - eapply pool_wf_upd_unlisted; [exact Hw|exact Hil|exact Hseg|done..].
  - done.
  - apply Hinv.
  - intros j. rewrite (view_at_insert _ (flushed_segments (ps_pool st)) i j (Pool.retire_slot s)) by (done || eauto).
    case_decide as Hj; [subst; by rewrite Hvi|].
    fold (view_at (ps_pool st) j). by destruct (view_at (ps_pool st) j).
  - intros j Hj. apply (pi_valid _ Hinv). unfold live in *. cbn in Hj. rewrite Hr. set_solver.
  - intros j [[u r] b] Hv (Ho & Hlv & Hb). destruct (decide (i = j)) as [<-|Hj]; unfold slot_inv; rewrite owners_eq.
    + rewrite decide_False, pins_of_zero by done. split; [done|]. split.
      * split; [done|]. unfold live. cbn. tauto.
      * intros b0 Hin. exfalso. apply Hip. by apply (list_elem_of_fmap_2 fst) in Hin.
    + split; [done|]. split; [|done]. rewrite Hlv. unfold live. cbn. rewrite Hr. set_solver.
  - intros j Hj. apply (pi_private _ Hinv). rewrite Hr. set_solver.
Qed.

Lemma inv_step_all st st' : pool_inv st -> pool_step cap st st' -> pool_inv st'.
Proof.
  intros Hinv Hst. destruct Hst.
  - by eapply inv_reserve.
  - by eapply inv_load.
  - by eapply inv_register.
  - by eapply inv_replace.
  - by eapply inv_pin.
  - by eapply inv_unpin.
  - by eapply inv_discard.
Qed.
End preservation.

(** ** Reachable states *)

(** [initialize_segment_pool] on slots that hold anything. *)
Definition initial_state (pool : FlushedSegmentPool) : pool_state :=
  mkPoolState (Pool.initialize_segment_pool pool) [] [] [].

Lemma initial_inv pool : zlen (flushed_segments pool) = MAX_SEGMENTS_COUNT -> pool_inv (initial_state pool).
Proof.
  intros Hz.
  assert (Hl : forall i, flushed_segments (Pool.initialize_segment_pool pool) !! i
                 = Pool.initialize_slot <$> flushed_segments pool !! i).
  { intros i. cbn. unfold lookup, zlist_lookup. case_decide; [|done]. apply list_lookup_fmap. }
  split; cbn; [|by apply NoDup_nil|by intros i ?%elem_of_nil| | |done].
  - split; cbn; [|by intros i s ?%elem_of_nil|done|done|pool_lia].
    split; [|by apply NoDup_nil|done|by intros i s ?%elem_of_nil|constructor].
    unfold zlen. by rewrite length_fmap.
  - intros i [H|[H|H]]; by apply elem_of_nil in H.
  - intros i v Hv. unfold view_at in Hv. cbn [ps_pool initial_state] in Hv. rewrite Hl in Hv.
    destruct (flushed_segments pool !! i); [|done]. injection Hv as <-. cbn. split; [done|]. split.
    + split; [done|]. intros [H|[H|H]]; by apply elem_of_nil in H.
    + by intros b ?%elem_of_nil.
Qed.


(** ** Concrete runs *)

Definition blank_slot : FlushedSegmentData :=
  mkSegment false 0 0 0 None FLAT None None NIL NIL 0 SEG_NOT_LOADED 0 false 0 None 0.
Definition blank_pool : FlushedSegmentPool :=
  mkPool Unlocked (replicate 1024 blank_slot) 0 NIL NIL 0 0 0 0.

(** Loading a segment [start..end] of [n] rows into a reserved slot. *)
Definition load_segment (start_sid end_sid n : Z) (s : FlushedSegmentData) : FlushedSegmentData :=
  s <| segment_id_start := start_sid |> <| segment_id_end := end_sid |> <| vec_count := n |>
    <| index_type := HNSW |> <| index_ptr := Some start_sid |> <| bitmap_ptr := Some [0] |>
    <| map_ptr := Some [start_sid * 65536] |>.

Definition reserve_and_load (start_sid end_sid n : Z) (pool : FlushedSegmentPool)
    : res (Z * FlushedSegmentPool) :=
  r ← Pool.reserve_flushed_segment pool;
  segs ← arr_upd (flushed_segments r.2) r.1 (load_segment start_sid end_sid n);
  Ok (r.1, r.2 <| flushed_segments := segs |>).

(** A flushed segment arrives: reserve, load, register. *)
Definition add_segment (start_sid end_sid n : Z) (pool : FlushedSegmentPool) : res FlushedSegmentPool :=
  r ← reserve_and_load start_sid end_sid n pool;
  Pool.register_flushed_segment 50000 r.2 r.1.

(** A rebuild or in-memory upgrade: reserve, load, replace, all under the write lock. *)
Definition swap_segment (idx start_sid end_sid n : Z) (pool : FlushedSegmentPool) : res FlushedSegmentPool :=
  r ← reserve_and_load start_sid end_sid n (pool <| seg_lock := WriteHeld |>);
  pool ← Pool.replace_flushed_segments_n 50000 r.2 [idx] r.1;
  Ok (pool <| seg_lock := Unlocked |>).

Definition three_segments : res FlushedSegmentPool :=
  p ← add_segment 3 3 50000 (Pool.initialize_segment_pool blank_pool);
  p ← add_segment 5 5 50000 p;
  add_segment 4 4 50000 p.

(** Two readers that release their references of an already replaced slot
    at the same time both see the count at zero, because
    [decrement_flushed_segment_ref_count] subtracts and then re-reads it: the
    run reaches the cleanup twice, so the segment count is lowered by two for
    one slot; run one after the other, the same two releases clean it up once. *)
Theorem concurrent_release_cleans_twice :
  exists pool p12 p21,
    (* slot 1 left the list; two readers still hold it *)
    (p ← three_segments; p ← Pool.pin_segment p 1; p ← Pool.pin_segment p 1; swap_segment 1 5 5 40000 p) = Ok pool /\
    (* fetch_sub; fetch_sub; check; check *)
    (p ← Pool.ref_count_fetch_sub pool 1; p ← Pool.ref_count_fetch_sub p 1;
     p ← Pool.ref_count_check p 1; Pool.ref_count_check p 1) = Ok p12 /\
    flushed_segment_count p12 = flushed_segment_count pool - 2 /\
    (* one release after the other *)
    (p ← Pool.decrement_flushed_segment_ref_count pool 1;
     Pool.decrement_flushed_segment_ref_count p 1) = Ok p21 /\
    flushed_segment_count p21 = flushed_segment_count pool - 1.
Proof.
  eexists _, _, _. split; [vm_compute; reflexivity|]. split; [vm_compute; reflexivity|].
  split; [vm_compute; reflexivity|]. split; [vm_compute; reflexivity|]. vm_compute; reflexivity.
Qed.

(** Rebuilding the only segment of a fresh pool [n] times, each time in the
    slot just published. *)
Fixpoint rebuild_times (n : nat) (idx : Z) (pool : FlushedSegmentPool) : res FlushedSegmentPool :=
  match n with
  | O => Ok pool
  | S n => pool ← swap_segment idx 3 3 50000 pool; rebuild_times n (insert_idx pool - 1) pool
  end.

Definition slots_in_use (pool : FlushedSegmentPool) : Z :=
  zlen (filter (fun s => in_used s = true) (flushed_segments pool)).

(** The retired slots of replacements are lost: [cleanup_flushed_segment]
    cannot take the write lock its caller holds, so [insert_idx] is not
    rewound, and [reserve_flushed_segment] never looks below it. After 1023
    rebuilds of one segment a single slot is in use and no slot can be
    reserved any more. *)
Theorem replacements_exhaust_the_pool :
  (p ← add_segment 3 3 50000 (Pool.initialize_segment_pool blank_pool);
   p ← rebuild_times 1023 0 p;
   r ← Pool.reserve_flushed_segment p;
   Ok (r.1, slots_in_use p)) = Ok (NIL, 1).
Proof. vm_compute. reflexivity. Qed.

(** ** The theorems of the pool at work

    [sample] holds segments 3, 4 and 5 in slots 0, 2 and 1 and, in slot 3, a
    reserved and loaded segment. *)
Definition ok_or {A} (d : A) (r : res A) : A := match r with Ok a => a | Error _ => d end.
Definition sample_plus (start_sid end_sid : Z) : FlushedSegmentPool :=
  ok_or blank_pool (p ← three_segments; r ← reserve_and_load start_sid end_sid 70000 p; Ok r.2).
Definition reserved_slot_of (pool : FlushedSegmentPool) : FlushedSegmentData :=
  default blank_slot (flushed_segments pool !! 3).

Ltac pool_eval := first [apply pool_wfb_sound; vm_compute; reflexivity | vm_compute; repeat split; congruence].

Lemma register_refines_insert_witness :
  exists pool' l',
    Pool.register_flushed_segment 50000 (sample_plus 4 9) 3 = Ok pool' /\ pool_wf pool' l' /\ l' ≡ₚ 3 :: [0; 2; 1] /\
    ranges (flushed_segments pool') l' =
      insert_range (range_of (reserved_slot_of (sample_plus 4 9))) (ranges (flushed_segments (sample_plus 4 9)) [0; 2; 1]) /\
    stats_exact 50000 pool' l' /\
    flushed_segment_count pool' = u32 (flushed_segment_count (sample_plus 4 9) + 1).
Proof.
  apply (register_refines_insert 50000 (sample_plus 4 9) [0; 2; 1] 3 (reserved_slot_of (sample_plus 4 9)));
    [pool_eval|pool_eval|vm_compute; reflexivity|vm_compute; reflexivity|set_solver].
Defined.

Lemma replace_refines_splice_witness :
  exists pool',
    Pool.replace_flushed_segments_n 50000 (sample_plus 3 4) [0; 2] 3 = Ok pool' /\
    pool_wf pool' [3; 1] /\
    ranges (flushed_segments pool') [3; 1] = [(3, 4); (5, 5)] /\
    stats_exact 50000 pool' [3; 1].
Proof.
  destruct (replace_refines_splice 50000 (sample_plus 3 4) [] [0; 2] [1] 3 (reserved_slot_of (sample_plus 3 4)))
    as (p & H1 & H2 & H3 & H4 & _);
    [pool_eval|pool_eval|done|vm_compute; reflexivity|vm_compute; reflexivity|set_solver| | |].
  - by intros i ?%elem_of_nil.
  - intros i ->%list_elem_of_singleton. vm_compute. congruence.
  - exists p. split; [exact H1|]. split; [exact H2|]. split; [exact H3|exact H4].
Defined.

Lemma replace_count_drift_witness :
  exists pool', Pool.replace_flushed_segments_n 50000 (sample_plus 3 4) [0; 2] 3 = Ok pool' /\
    flushed_segment_count pool' = 0.
Proof.
  destruct (replace_count_drift 50000 (sample_plus 3 4) [] [0; 2] [1] 3 (reserved_slot_of (sample_plus 3 4)))
    as (p & H1 & _ & H2);
    [pool_eval|done|vm_compute; reflexivity|vm_compute; reflexivity|set_solver| | | |].
  - by intros i ?%elem_of_nil.
  - intros i ->%list_elem_of_singleton. vm_compute. congruence.
  - intros i si [->|[->|Hi%elem_of_nil]%elem_of_cons]%elem_of_cons; [intros Hsi..|done];
      vm_compute in Hsi; by injection Hsi as <-.
  - exists p. split; [exact H1|]. rewrite H2. vm_compute. reflexivity.
Defined.

Lemma find_segment_by_sids_spec_witness :
  Pool.find_segment_by_sids (sample_plus 8 8) 5 5 =
    Ok (first_slot (exact_range 5 5) (flushed_segments (sample_plus 8 8)) [0; 2; 1]) /\
  first_slot (exact_range 5 5) (flushed_segments (sample_plus 8 8)) [0; 2; 1] = 1 /\
  first_slot (exact_range 8 8) (flushed_segments (sample_plus 8 8)) [0; 2; 1] = NIL.
Proof.
  split; [apply (find_segment_by_sids_spec (sample_plus 8 8) [0; 2; 1] 5 5); pool_eval|].
  split; vm_compute; reflexivity.
Defined.

Lemma find_two_adjacent_segments_spec_witness :
  Pool.find_two_adjacent_segments (sample_plus 8 8) 4 5 =
    Ok (two_adjacent_answer (flushed_segments (sample_plus 8 8)) [0; 2; 1] 4 5) /\
  two_adjacent_answer (flushed_segments (sample_plus 8 8)) [0; 2; 1] 4 5 = (2, 1).
Proof.
  split; [apply (find_two_adjacent_segments_spec (sample_plus 8 8) [0; 2; 1]); pool_eval|].
  vm_compute; reflexivity.
Defined.

Lemma reserve_takes_lowest_free_witness :
  (exists pool', Pool.reserve_flushed_segment (sample_plus 8 8) = Ok (4, pool') /\ pool_wf pool' [0; 2; 1] /\
                 slot_used (flushed_segments pool') 4) <->
  ~ slot_used (flushed_segments (sample_plus 8 8)) 4 /\
  forall j, insert_idx (sample_plus 8 8) <= j < 4 -> slot_used (flushed_segments (sample_plus 8 8)) j.
Proof.
  apply (reserve_takes_lowest_free (sample_plus 8 8) [0; 2; 1] 4); [pool_eval|vm_compute; split; congruence].
Defined.

