(* ===== verification/FileNames.v ===== *)
(** Names of segment files (lsmindex_io.c): the [snprintf] formats, the
    [atoi]/[strchr]/[strstr] parsers of the directory scans, and the scans
    themselves: latest version, latest bitmap subversion, and the choice of the
    newest non-overlapping segments.

    A directory is the list of its entry names in the (unspecified) order
    [readdir] returns them; theorems do not depend on that order. *)

From S2P Require Import Prelude SegmentPool.
From Stdlib Require Import String Ascii.

#[local] Open Scope string_scope.
#[local] Open Scope Z_scope.

(** ** [%u] and [atoi] *)

Definition digit (d : Z) : ascii := ascii_of_N (Z.to_N (48 + d)).
Definition digit_value (c : ascii) : option Z :=
  let v := Z.of_N (N_of_ascii c) - 48 in
  if (0 <=? v) && (v <? 10) then Some v else None.

Fixpoint print_digits (fuel : nat) (n : Z) (acc : string) : string :=
  match fuel with
  | O => acc
  | S fuel => if n <? 10 then String (digit n) acc
              else print_digits fuel (n / 10) (String (digit (n mod 10)) acc)
  end.

(** Ten digits hold every 32-bit value. *)
Definition print_u32 (n : Z) : string := print_digits 10 n "".

(** Decimal digits up to the first other character. *)
Fixpoint parse_digits (s : string) (acc : Z) : Z :=
  match s with
  | EmptyString => acc
  | String c s' => match digit_value c with
                   | Some d => parse_digits s' (acc * 10 + d)
                   | None => acc
                   end
  end.

(** [(uint32_t) atoi(s)] on the unsigned decimals of file names. *)
Definition atoi_u32 (s : string) : Z := u32 (i32 (parse_digits s 0)).

(** ** C string functions *)

Fixpoint strip_prefix (p s : string) : option string :=
  match p, s with
  | EmptyString, _ => Some s
  | String a p', String b s' => if Ascii.eqb a b then strip_prefix p' s' else None
  | _, _ => None
  end.

(** [strstr]: what precedes the first occurrence of [p] and what follows it. *)
Fixpoint split_on (p s : string) : option (string * string) :=
  match strip_prefix p s with
  | Some rest => Some ("", rest)
  | None => match s with
            | EmptyString => None
            | String c s' => match split_on p s' with
                             | Some (a, b) => Some (String c a, b)
                             | None => None
                             end
            end
  end.

(** ** Paths, relative to the directory of the index *)
Module Path.
Definition file_name (type : string) (start_sid end_sid version : Z) : string :=
  type ++ "_" ++ print_u32 start_sid ++ "_" ++ print_u32 end_sid ++ "_v" ++ print_u32 version.

Definition GetLSMIndexFilePathWithVersion := file_name "index".
Definition GetLSMBitmapFilePathWithVersion := file_name "bitmap".
Definition GetLSMMappingFilePathWithVersion := file_name "mapping".
Definition GetLSMOffsetFilePathWithVersion := file_name "offset".
Definition GetLSMSegmentMetadataPathWithVersion := file_name "metadata".
Definition GetLSMSegmentMetadataTmpPathWithVersion := file_name "metadata.tmp".

Definition get_lsm_metadata_path : string := "metadata".
Definition get_lsm_metadata_tmp_path : string := "metadata.tmp".

(** [UINT32_MAX] stands for "no subversion". *)
Definition GetLSMBitmapFilePathWithSubversion (start_sid end_sid version subversion : Z) : string :=
  if subversion =? UINT32_MAX then GetLSMBitmapFilePathWithVersion start_sid end_sid version
  else "bitmap_" ++ print_u32 start_sid ++ "_" ++ print_u32 end_sid ++ "_v" ++ print_u32 version
       ++ "_s" ++ print_u32 subversion.

Definition GetLSMBitmapFilePathForMemtable (memtable_id : Z) : string :=
  "bitmap_memtable_" ++ print_u32 memtable_id.

Definition chunk_path (path : string) (i : Z) : string := path ++ "." ++ print_u32 i.
Definition tmp_path (path : string) (i : Z) : string := path ++ ".tmp." ++ print_u32 i.
End Path.

(** ** Directory scans *)
Module Scan.

Definition version_of (prefix entry : string) : option Z := atoi_u32 <$> strip_prefix prefix entry.

Definition version_prefix (start_sid end_sid : Z) : string :=
  "metadata_" ++ print_u32 start_sid ++ "_" ++ print_u32 end_sid ++ "_v".

Definition find_latest_segment_version (entries : list string) (start_sid end_sid : Z) : Z :=
  foldl (fun max_version entry =>
      match version_of (version_prefix start_sid end_sid) entry with
      | Some v => if max_version <? v then v else max_version
      | None => max_version
      end) 0 entries.

Definition subversion_prefix (start_sid end_sid version : Z) : string :=
  "bitmap_" ++ print_u32 start_sid ++ "_" ++ print_u32 end_sid ++ "_v" ++ print_u32 version ++ "_s".

Definition find_latest_bitmap_subversion (entries : list string) (start_sid end_sid version : Z) : Z :=
  foldl (fun max_subversion entry =>
      match version_of (subversion_prefix start_sid end_sid version) entry with
      | Some v => if (max_subversion =? UINT32_MAX) || (max_subversion <? v) then v else max_subversion
      | None => max_subversion
      end) UINT32_MAX entries.

Record SegmentFileInfo := mkFileInfo { fi_start_sid : Z; fi_end_sid : Z; fi_version : Z }.
#[global] Instance SegmentFileInfo_eq_dec : EqDecision SegmentFileInfo.
Proof. solve_decision. Defined.

(** [metadata_<start>_<end>_v<version>], any other name is skipped. *)
Definition parse_metadata_name (entry : string) : option SegmentFileInfo :=
  filename ← strip_prefix "metadata_" entry;
  '(start, rest) ← split_on "_" filename;
  '(end_, version) ← split_on "_v" rest;
  Some (mkFileInfo (atoi_u32 start) (atoi_u32 end_) (atoi_u32 version)).

(** One directory entry: a new segment, or a higher version of a known one. *)
Fixpoint record_version (segments : list SegmentFileInfo) (f : SegmentFileInfo) : list SegmentFileInfo :=
  match segments with
  | [] => [f]
  | g :: segments' =>
      if (fi_start_sid g =? fi_start_sid f) && (fi_end_sid g =? fi_end_sid f)
      then (if fi_version g <? fi_version f
            then mkFileInfo (fi_start_sid g) (fi_end_sid g) (fi_version f) else g) :: segments'
      else g :: record_version segments' f
  end.

Definition known (segments : list SegmentFileInfo) (f : SegmentFileInfo) : bool :=
  existsb (fun g => (fi_start_sid g =? fi_start_sid f) && (fi_end_sid g =? fi_end_sid f)) segments.

Definition collect_versions (entries : list string) : list SegmentFileInfo :=
  foldl (fun segments entry =>
      match parse_metadata_name entry with
      | Some f => if negb (known segments f) && (MAX_SEGMENTS_COUNT <=? zlen segments) then segments
                  else record_version segments f
      | None => segments
      end) [] entries.

(** The comparison function given to [qsort]: smaller start first, then the
    larger scope.  No two records compare equal, so every correct sort gives
    the same array. *)
Definition compare_segment_versions (a b : SegmentFileInfo) : Z :=
  if fi_start_sid a <? fi_start_sid b then -1
  else if fi_start_sid b <? fi_start_sid a then 1
  else if fi_end_sid b <? fi_end_sid a then -1
  else if fi_end_sid a <? fi_end_sid b then 1
  else 0.
Definition version_le (a b : SegmentFileInfo) : Prop := compare_segment_versions a b <= 0.
#[global] Instance version_le_dec : RelDecision version_le.
Proof. intros a b. unfold version_le. apply _. Defined.

(** The walk over the sorted array: skip what overlaps the last accepted one. *)
Fixpoint accept (sorted : list SegmentFileInfo) (largest_end_sid : Z) (max_files : nat) : list SegmentFileInfo :=
  match sorted, max_files with
  | [], _ | _, O => []
  | f :: sorted', S m =>
      if negb (largest_end_sid =? UINT32_MAX) && (fi_start_sid f <=? largest_end_sid)
      then accept sorted' largest_end_sid (S m)
      else f :: accept sorted' (fi_end_sid f) m
  end.

Definition scan_segment_metadata_files (entries : list string) (max_files : nat) : list SegmentFileInfo :=
  accept (merge_sort version_le (collect_versions entries)) UINT32_MAX max_files.

End Scan.

(** ** Printing and parsing are inverse *)

Lemma append_cons c (s t : string) : String c s ++ t = String c (s ++ t).
Proof. done. Qed.

Lemma append_empty (t : string) : "" ++ t = t.
Proof. done. Qed.

Lemma append_nil s : s ++ "" = s.
Proof. induction s as [|c s IH]; [done|]. by rewrite append_cons, IH. Qed.

Lemma append_assoc (a b c : string) : (a ++ b) ++ c = a ++ (b ++ c).
Proof. induction a as [|x a IH]; [done|]. by rewrite !append_cons, IH. Qed.

(** A name part that a number cannot run into. *)
Definition stops (s : string) : Prop :=
  match s with EmptyString => True | String c _ => digit_value c = None end.

Lemma digit_value_digit d : 0 <= d < 10 -> digit_value (digit d) = Some d.
Proof.
  intros H. assert (d = 0 \/ d = 1 \/ d = 2 \/ d = 3 \/ d = 4 \/ d = 5 \/ d = 6 \/ d = 7 \/ d = 8 \/ d = 9) as Hd by lia.
  repeat destruct Hd as [->|Hd]; try reflexivity. by subst.
Qed.

Lemma parse_print_digits fuel n acc :
  0 <= n < 10 ^ Z.of_nat fuel -> parse_digits (print_digits fuel n acc) 0 = parse_digits acc n.
Proof.
  revert n acc; induction fuel as [|fuel IH]; intros n acc Hn.
  { cbn in Hn. by replace n with 0 by lia. }
  cbn [print_digits]. destruct (Z.ltb_spec n 10).
  - cbn [parse_digits]. rewrite digit_value_digit by lia. f_equal.
  - rewrite IH.
    + cbn [parse_digits]. rewrite digit_value_digit by (apply Z.mod_pos_bound; lia).
      f_equal. pose proof (Z.div_mod n 10). lia.
    + rewrite Nat2Z.inj_succ, Z.pow_succ_r in Hn by lia.
      split; [apply Z.div_pos; lia|]. apply Z.div_lt_upper_bound; lia.
Qed.

Lemma print_digits_app fuel n acc s : print_digits fuel n acc ++ s = print_digits fuel n (acc ++ s).
Proof.
  revert n acc; induction fuel as [|fuel IH]; intros n acc; cbn; [done|].
  destruct (n <? 10); [by rewrite append_cons|]. by rewrite IH, append_cons.
Qed.

Lemma parse_digits_stop s n : stops s -> parse_digits s n = n.
Proof. destruct s as [|c s]; [done|]. cbn. by intros ->. Qed.

Lemma u32_i32 z : u32 (i32 z) = u32 z.
Proof.
  unfold u32, i32. rewrite Zminus_mod_idemp_l. f_equal. lia.
Qed.

(** A printed number is read back, whatever non-digit follows it. *)
Lemma atoi_print n s : 0 <= n < 2 ^ 32 -> stops s -> atoi_u32 (print_u32 n ++ s) = n.
Proof.
  intros Hn Hs. unfold atoi_u32, print_u32. rewrite print_digits_app, append_empty.
  rewrite parse_print_digits by (split; [lia|]; apply Z.lt_le_trans with (2 ^ 32); [lia|done]).
  rewrite parse_digits_stop by done. rewrite u32_i32. by apply u32_small.
Qed.

Lemma atoi_print_u32 n : 0 <= n < 2 ^ 32 -> atoi_u32 (print_u32 n) = n.
Proof. intros. rewrite <-(append_nil (print_u32 n)). by apply atoi_print. Qed.

Lemma strip_prefix_app p s : strip_prefix p (p ++ s) = Some s.
Proof. induction p as [|c p IH]; [done|]. rewrite append_cons. cbn. by rewrite Ascii.eqb_refl. Qed.

Lemma strip_prefix_Some p s r : strip_prefix p s = Some r -> s = p ++ r.
Proof.
  revert s; induction p as [|c p IH]; intros s; cbn; [by intros [= ->]|].
  destruct s as [|d s]; [done|]. destruct (Ascii.eqb_spec c d) as [->|]; [|done].
  intros ->%IH. by rewrite append_cons.
Qed.

(** Every character of a printed number is a digit. *)
Fixpoint all_digits (s : string) : Prop :=
  match s with EmptyString => True | String c s' => (exists d, digit_value c = Some d) /\ all_digits s' end.

Lemma print_digits_all fuel n acc :
  0 <= n -> all_digits acc -> all_digits (print_digits fuel n acc).
Proof.
  revert n acc; induction fuel as [|fuel IH]; intros n acc Hn Ha; cbn; [done|].
  destruct (Z.ltb_spec n 10).
  - cbn. split; [|done]. exists n. by apply digit_value_digit.
  - apply IH; [apply Z.div_pos; lia|]. cbn. split; [|done]. eexists. apply digit_value_digit.
    apply Z.mod_pos_bound. lia.
Qed.

(** [strstr] for a pattern that starts with a non-digit skips the number. *)
Lemma split_on_digits p c s r :
  digit_value c = None -> all_digits s -> split_on (String c p) (s ++ String c (p ++ r)) = Some (s, r).
Proof.
  intros Hc. induction s as [|d s IH]; intros Hs.
  - rewrite append_empty. cbn [split_on]. change (String c (p ++ r)) with (String c p ++ r). by rewrite strip_prefix_app.
  - destruct Hs as [[x Hd] Hs]. rewrite append_cons. cbn [split_on strip_prefix].
    destruct (Ascii.eqb_spec c d) as [->|]; [congruence|]. by rewrite IH.
Qed.

Definition u32_ok (n : Z) : Prop := 0 <= n < 2 ^ 32.

(** The name parser recovers what the format printed; anything may follow. *)
Lemma parse_version_prefix a b r :
  u32_ok a -> u32_ok b ->
  Scan.parse_metadata_name (Scan.version_prefix a b ++ r) = Some (Scan.mkFileInfo a b (atoi_u32 r)).
Proof.
  intros Ha Hb. unfold Scan.parse_metadata_name, Scan.version_prefix.
  rewrite !append_assoc, strip_prefix_app. cbn [mbind option_bind].
  change ("_" ++ print_u32 b ++ "_v" ++ r) with (String "_" ("" ++ print_u32 b ++ "_v" ++ r)).
  unfold print_u32 at 1. rewrite split_on_digits by (done || (apply print_digits_all; [apply Ha|done])).
  cbn [mbind option_bind]. rewrite ?append_empty.
  change ("_v" ++ r) with (String "_" ("v" ++ r)).
  unfold print_u32 at 1. rewrite split_on_digits by (done || (apply print_digits_all; [apply Hb|done])).
  cbn [mbind option_bind]. fold (print_u32 a) (print_u32 b).
  by rewrite !atoi_print_u32.
Qed.

Lemma metadata_path_split a b v :
  Path.GetLSMSegmentMetadataPathWithVersion a b v = Scan.version_prefix a b ++ print_u32 v.
Proof.
  unfold Path.GetLSMSegmentMetadataPathWithVersion, Path.file_name, Scan.version_prefix.
  rewrite !append_assoc. done.
Qed.

Lemma parse_metadata_path a b v :
  u32_ok a -> u32_ok b -> u32_ok v ->
  Scan.parse_metadata_name (Path.GetLSMSegmentMetadataPathWithVersion a b v) = Some (Scan.mkFileInfo a b v).
Proof.
  intros Ha Hb Hv. rewrite metadata_path_split, parse_version_prefix by done.
  by rewrite atoi_print_u32.
Qed.

(** The version scan sees a metadata file exactly when it is of the asked range. *)
Lemma version_of_metadata a b a' b' v :
  u32_ok a -> u32_ok b -> u32_ok a' -> u32_ok b' -> u32_ok v ->
  Scan.version_of (Scan.version_prefix a b) (Path.GetLSMSegmentMetadataPathWithVersion a' b' v) =
  if decide (a = a' /\ b = b') then Some v else None.
Proof.
  intros Ha Hb Ha' Hb' Hv. unfold Scan.version_of. case_decide as Hd.
  - destruct Hd as [<- <-]. rewrite metadata_path_split, strip_prefix_app.
    change (Some (atoi_u32 (print_u32 v)) = Some v). by rewrite atoi_print_u32.
  - destruct (strip_prefix _ _) as [r|] eqn:E; [|done]. exfalso. apply strip_prefix_Some in E.
    pose proof (parse_metadata_path a' b' v Ha' Hb' Hv) as Hp. rewrite E, parse_version_prefix in Hp by done.
    injection Hp as -> -> _. by apply Hd.
Qed.

(** ** The scans compute maxima *)

Lemma latest_foldl (f : string -> option Z) entries m0 :
  let r := foldl (fun m e => match f e with Some v => if m <? v then v else m | None => m end) m0 entries in
  m0 <= r /\ (forall e v, e ∈ entries -> f e = Some v -> v <= r) /\
  (r = m0 \/ exists e, e ∈ entries /\ f e = Some r).
Proof.
  revert m0; induction entries as [|e entries IH]; intros m0; cbn.
  { split; [lia|]. split; [by intros e v ?%elem_of_nil|by left]. }
  set (m1 := match f e with Some v => if m0 <? v then v else m0 | None => m0 end).
  assert (m0 <= m1 /\ (forall v, f e = Some v -> v <= m1) /\ (m1 = m0 \/ f e = Some m1)) as (H1 & H2 & H3).
  { subst m1. destruct (f e) as [v|]; [|split; [lia|]; split; [done|by left]].
    destruct (Z.ltb_spec m0 v); (split; [lia|]; split; [intros ? [= <-]; lia|naive_solver]). }
  destruct (IH m1) as (Ha & Hb & Hc). split; [lia|]. split.
  - intros e' v [->|He]%elem_of_cons Hv; [specialize (H2 v Hv); lia|by apply (Hb e')].
  - destruct Hc as [Hc|(e' & He & Hr)]; [|right; exists e'; split; [by right|done]].
    rewrite Hc. destruct H3 as [->|H3]; [by left|right; exists e; split; [left|done]].
Qed.

Lemma find_latest_segment_version_max entries a b :
  (forall e v, e ∈ entries -> Scan.version_of (Scan.version_prefix a b) e = Some v ->
     v <= Scan.find_latest_segment_version entries a b) /\
  0 <= Scan.find_latest_segment_version entries a b /\
  (Scan.find_latest_segment_version entries a b = 0 \/
   exists e, e ∈ entries /\ Scan.version_of (Scan.version_prefix a b) e
                          = Some (Scan.find_latest_segment_version entries a b)).
Proof.
  destruct (latest_foldl (Scan.version_of (Scan.version_prefix a b)) entries 0) as (H1 & H2 & H3). done.
Qed.

(** ** The directory scan *)

Definition sids (f : Scan.SegmentFileInfo) : Z * Z := (Scan.fi_start_sid f, Scan.fi_end_sid f).
Definition parsed (entries : list string) : list Scan.SegmentFileInfo := omap Scan.parse_metadata_name entries.

(** [segs] holds, for every range that occurs in [l], its highest version. *)
Definition newest (l segs : list Scan.SegmentFileInfo) : Prop :=
  NoDup (sids <$> segs) /\
  (forall f, f ∈ segs -> f ∈ l /\ forall g, g ∈ l -> sids g = sids f -> Scan.fi_version g <= Scan.fi_version f) /\
  (forall g, g ∈ l -> sids g ∈ sids <$> segs).

Lemma sids_eqb f g :
  ((Scan.fi_start_sid f =? Scan.fi_start_sid g) && (Scan.fi_end_sid f =? Scan.fi_end_sid g)) = bool_decide (sids f = sids g).
Proof.
  unfold sids. apply eq_bool_prop_intro. rewrite Is_true_true, andb_true_iff, !Z.eqb_eq, bool_decide_spec.
  split; [by intros [-> ->]|by intros [= -> ->]].
Qed.

Lemma known_spec segs f : Scan.known segs f = bool_decide (sids f ∈ sids <$> segs).
Proof.
  induction segs as [|g segs IH]; [done|]. unfold Scan.known in *. cbn. rewrite sids_eqb, IH.
  apply eq_bool_prop_intro. rewrite orb_True, !bool_decide_spec, elem_of_cons.
  split; (intros [Hx|Hx]; [left; by symmetry|by right]).
Qed.

Lemma record_version_sids segs f :
  sids <$> Scan.record_version segs f =
  if decide (sids f ∈ sids <$> segs) then sids <$> segs else ((sids <$> segs) ++ [sids f])%list.
Proof.
  induction segs as [|g segs IH]; cbn; [done|]. rewrite sids_eqb. case_bool_decide as Hg.
  - rewrite decide_True by (rewrite Hg; left). cbn. f_equal. by destruct (Scan.fi_version g <? Scan.fi_version f).
  - cbn. rewrite IH. destruct (decide (sids f ∈ sids <$> segs)).
    + by rewrite decide_True by (by right).
    + rewrite decide_False; [done|]. intros [Hx|Hx]%elem_of_cons; congruence.
Qed.

Lemma elem_of_record_version segs f h :
  NoDup (sids <$> segs) ->
  h ∈ Scan.record_version segs f <->
  (h ∈ segs /\ sids h <> sids f) \/
  (h = f /\ forall g, g ∈ segs -> sids g = sids f -> Scan.fi_version g < Scan.fi_version f) \/
  (h ∈ segs /\ sids h = sids f /\ Scan.fi_version f <= Scan.fi_version h).
Proof.
  induction segs as [|g segs IH]; intros Hnd; cbn.
  { rewrite list_elem_of_singleton. split; [intros ->; right; left; split; [done|by intros g ?%elem_of_nil]|].
    intros [[?%elem_of_nil _]|[[-> _]|[?%elem_of_nil _]]]; done. }
  cbn in Hnd. apply NoDup_cons in Hnd as [Hg Hnd]. rewrite sids_eqb. case_bool_decide as Hgf.
  - assert (Hother : forall x, x ∈ segs -> sids x <> sids f).
    { intros x Hx Hs. apply Hg. rewrite Hgf, <-Hs. by apply list_elem_of_fmap_2. }
    rewrite !elem_of_cons. destruct (Z.ltb_spec (Scan.fi_version g) (Scan.fi_version f)) as [Hlt|Hle].
    + assert (Scan.mkFileInfo (Scan.fi_start_sid g) (Scan.fi_end_sid g) (Scan.fi_version f) = f) as ->.
      { unfold sids in Hgf. injection Hgf as -> ->. by destruct f. }
      split.
      * intros [->|Hh]; [|left; auto]. right; left. split; [done|].
        intros x [->|Hx]%elem_of_cons Hs; [done|]. by destruct (Hother x Hx).
      * intros [[[->|Hh] Hs]|[[-> _]|[[->|Hh] [Hs Hv]]]]; auto; [done|lia].
    + split.
      * intros [->|Hh]; [right; right; auto|left; auto].
      * intros [[[->|Hh] Hs]|[[-> Hm]|[[->|Hh] [Hs Hv]]]]; auto.
        specialize (Hm g ltac:(left) Hgf). lia.
  - rewrite !elem_of_cons, IH by done. split.
    + intros [->|[[Hh Hs]|[[-> Hm]|[Hh Hs]]]]; [by left; auto|left; auto| |right; right; tauto].
      right; left. split; [done|]. intros x [->|Hx]%elem_of_cons Hs; [done|by apply Hm].
    + intros [[[->|Hh] Hs]|[[-> Hm]|[[->|Hh] [Hs Hv]]]]; [by left|right; left; auto| |done|tauto].
      right; right; left. split; [done|]. intros x Hx. apply Hm. by right.
Qed.

Lemma newest_snoc l segs f : newest l segs -> newest (l ++ [f])%list (Scan.record_version segs f).
Proof.
  intros (Hnd & Hin & Hall). split; [|split].
  - rewrite record_version_sids. case_decide; [done|]. apply NoDup_app. split; [done|].
    split; [|apply NoDup_singleton]. intros x Hx ->%list_elem_of_singleton. done.
  - intros h. rewrite elem_of_record_version by done.
    intros [[Hh Hs]|[[-> Hm]|(Hh & Hs & Hv)]].
    + destruct (Hin h Hh) as [Hl Hmax]. split; [set_solver|]. intros g [Hg| ->%list_elem_of_singleton]%elem_of_app ?; [by apply Hmax|done].
    + split; [set_solver|]. intros g [Hg| ->%list_elem_of_singleton]%elem_of_app Hgf; [|lia].
      specialize (Hall g Hg). rewrite Hgf in Hall. apply list_elem_of_fmap in Hall as (h & Hh & Hhs).
      destruct (Hin h Hhs) as [_ Hmax]. specialize (Hmax g Hg ltac:(congruence)).
      specialize (Hm h Hhs ltac:(congruence)). lia.
    + destruct (Hin h Hh) as [Hl Hmax]. split; [set_solver|].
      intros g [Hg| ->%list_elem_of_singleton]%elem_of_app ?; [by apply Hmax|lia].
  - intros g Hg. rewrite record_version_sids. apply elem_of_app in Hg as [Hg| ->%list_elem_of_singleton].
    + case_decide; [by apply Hall|]. apply elem_of_app. left. by apply Hall.
    + case_decide; [done|]. set_solver.
Qed.

Lemma parsed_app l1 l2 : parsed (l1 ++ l2)%list = (parsed l1 ++ parsed l2)%list.
Proof. apply omap_app. Qed.

Lemma parsed_cons e l :
  parsed (e :: l) = match Scan.parse_metadata_name e with Some f => f :: parsed l | None => parsed l end.
Proof. done. Qed.

(** Directories with at most [MAX_SEGMENTS_COUNT] different ranges. *)
Definition fits (entries : list string) : Prop :=
  zlen (remove_dups (sids <$> parsed entries)) <= MAX_SEGMENTS_COUNT.

Lemma collect_versions_newest entries : fits entries -> newest (parsed entries) (Scan.collect_versions entries).
Proof.
  intros Hfit. unfold Scan.collect_versions.
  enough (forall rest dn segs, entries = (dn ++ rest)%list -> newest (parsed dn) segs ->
    newest (parsed entries) (foldl (fun segments entry =>
      match Scan.parse_metadata_name entry with
      | Some f => if negb (Scan.known segments f) && (MAX_SEGMENTS_COUNT <=? zlen segments) then segments
                  else Scan.record_version segments f
      | None => segments end) segs rest)) as H.
  { apply (H entries []); [done|]. split; [constructor|]. split; by intros f ?%elem_of_nil. }
  induction rest as [|e rest IH]; intros dn segs He Hn; cbn [foldl].
  { rewrite app_nil_r in He. by subst. }
  apply (IH (dn ++ [e])%list); [by rewrite <-app_assoc|].
  rewrite parsed_app, parsed_cons. destruct (Scan.parse_metadata_name e) as [f|] eqn:Hp; [|by rewrite app_nil_r].
  assert ((negb (Scan.known segs f) && (MAX_SEGMENTS_COUNT <=? zlen segs)) = false) as ->; [|by apply newest_snoc].
  rewrite known_spec. case_bool_decide as Hk; [done|]. cbn. apply Z.leb_gt.
  assert (Hf : f ∈ parsed entries).
  { rewrite He, parsed_app, parsed_cons, Hp. set_solver. }
  assert (zlen (sids f :: (sids <$> segs)) <= MAX_SEGMENTS_COUNT) as Hle.
  { etrans; [|exact Hfit]. apply Nat2Z.inj_le, submseteq_length, NoDup_submseteq.
    - constructor; [done|apply Hn].
    - intros x Hx. apply elem_of_remove_dups. apply elem_of_cons in Hx as [->|Hx]; [by apply list_elem_of_fmap_2|].
      apply list_elem_of_fmap in Hx as (g & -> & Hg). apply list_elem_of_fmap_2.
      destruct Hn as (_ & Hin & _). destruct (Hin g Hg) as [Hgl _]. rewrite He, parsed_app. set_solver. }
  rewrite zlen_cons in Hle. unfold zlen in *. rewrite length_fmap in Hle. lia.
Qed.

#[global] Instance version_le_total : Total Scan.version_le.
Proof.
  intros a b. unfold Scan.version_le, Scan.compare_segment_versions.
  repeat zcase; lia.
Qed.

#[global] Instance version_le_trans : Transitive Scan.version_le.
Proof.
  intros a b c. unfold Scan.version_le, Scan.compare_segment_versions. repeat zcase; lia.
Qed.

Lemma version_le_starts a b : Scan.version_le a b -> Scan.fi_start_sid a <= Scan.fi_start_sid b.
Proof. unfold Scan.version_le, Scan.compare_segment_versions. repeat zcase; lia. Qed.

Lemma version_le_antisym a b : Scan.version_le a b -> Scan.version_le b a -> sids a = sids b.
Proof.
  unfold Scan.version_le, Scan.compare_segment_versions, sids. intros H1 H2. f_equal; revert H1 H2; repeat zcase; lia.
Qed.

(** The accepted segments: pairwise disjoint, in ascending order, taken from
    the input; every input either is accepted or starts inside an accepted one. *)
Lemma accept_spec l last m :
  StronglySorted Scan.version_le l -> (Datatypes.length l <= m)%nat ->
  (forall f, f ∈ l -> Scan.fi_start_sid f <= Scan.fi_end_sid f < UINT32_MAX) ->
  let out := Scan.accept l last m in
  (forall f, f ∈ out -> f ∈ l /\ (last = UINT32_MAX \/ last < Scan.fi_start_sid f)) /\
  StronglySorted (fun f g => Scan.fi_end_sid f < Scan.fi_start_sid g) out /\
  (forall g, g ∈ l -> g ∈ out \/ (last <> UINT32_MAX /\ Scan.fi_start_sid g <= last) \/
     exists f, f ∈ out /\ Scan.fi_start_sid f <= Scan.fi_start_sid g <= Scan.fi_end_sid f).
Proof.
  revert last m; induction l as [|f l IH]; intros last m Hs Hm Hok.
  { cbn. split; [by intros f ?%elem_of_nil|]. split; [by destruct m; constructor|by intros g ?%elem_of_nil]. }
  apply StronglySorted_inv in Hs as [Hs Hf]. rewrite Forall_forall in Hf.
  destruct m as [|m]; [cbn in Hm; lia|]. cbn [Scan.accept]. cbn in Hm.
  pose proof (Hok f ltac:(left)) as Hfok.
  destruct (negb (last =? UINT32_MAX) && (Scan.fi_start_sid f <=? last)) eqn:E.
  - rewrite andb_true_iff, negb_true_iff, Z.eqb_neq, Z.leb_le in E. destruct E as [Hl Hlf].
    destruct (IH last (S m)) as (H1 & H2 & H3); [done|lia|intros; apply Hok; by right|].
    split; [|split; [done|]].
    + intros g Hg. destruct (H1 g Hg). split; [by right|done].
    + intros g [->|Hg]%elem_of_cons; [right; left; done|by apply H3].
  - rewrite andb_false_iff, negb_false_iff, Z.eqb_eq, Z.leb_gt in E.
    destruct (IH (Scan.fi_end_sid f) m) as (H1 & H2 & H3); [done|lia|intros; apply Hok; by right|].
    assert (Hnext : forall g, g ∈ Scan.accept l (Scan.fi_end_sid f) m -> Scan.fi_end_sid f < Scan.fi_start_sid g).
    { intros g Hg. destruct (H1 g Hg) as [_ [Hx|Hx]]; lia. }
    split; [|split].
    + intros g [->|Hg]%elem_of_cons; [split; [left|done]|]. split; [right; by apply H1|].
      specialize (Hnext g Hg). destruct E; [by left|right; lia].
    + constructor; [done|]. apply Forall_forall. exact Hnext.
    + intros g [->|Hg]%elem_of_cons; [left; left|].
      destruct (H3 g Hg) as [Ho|[[_ Hx]|(h & Hh & Hr)]].
      * left. by right.
      * right. right. exists f. split; [left|]. specialize (Hf g Hg). apply version_le_starts in Hf. lia.
      * right. right. exists h. split; [by right|done].
Qed.

Definition ranges_valid (entries : list string) : Prop :=
  forall f, f ∈ parsed entries -> Scan.fi_start_sid f <= Scan.fi_end_sid f < UINT32_MAX.

Lemma newest_length l segs : newest l segs -> (Datatypes.length segs <= Datatypes.length (remove_dups (sids <$> l)))%nat.
Proof.
  intros (Hnd & Hin & _). rewrite <-(length_fmap sids). apply submseteq_length, NoDup_submseteq; [done|].
  intros x (f & -> & Hf)%list_elem_of_fmap. apply elem_of_remove_dups, list_elem_of_fmap_2. by apply Hin.
Qed.

(** Loading an index picks, from whatever directory listing [readdir]
    gives, segments that are pairwise disjoint and in ascending order, each at
    the highest version its range has on disk; a range that is not picked
    starts inside a picked one (it was merged into it), so no segment id with
    a file is lost unless a wider file covers it. *)
Theorem scan_picks_newest_disjoint entries :
  fits entries -> ranges_valid entries ->
  let out := Scan.scan_segment_metadata_files entries (Z.to_nat MAX_SEGMENTS_COUNT) in
  StronglySorted (fun f g => Scan.fi_end_sid f < Scan.fi_start_sid g) out /\
  (forall f, f ∈ out -> f ∈ parsed entries /\
     forall g, g ∈ parsed entries -> sids g = sids f -> Scan.fi_version g <= Scan.fi_version f) /\
  (forall g, g ∈ parsed entries ->
     exists f, f ∈ out /\ Scan.fi_start_sid f <= Scan.fi_start_sid g <= Scan.fi_end_sid f).
Proof.
  intros Hfit Hok. pose proof (collect_versions_newest entries Hfit) as Hn.
  pose proof Hn as (Hnd & Hin & Hall).
  assert (Hp : merge_sort Scan.version_le (Scan.collect_versions entries) ≡ₚ Scan.collect_versions entries)
    by apply merge_sort_Permutation.
  set (l := merge_sort Scan.version_le (Scan.collect_versions entries)) in *.
  destruct (accept_spec l UINT32_MAX (Z.to_nat MAX_SEGMENTS_COUNT)) as (H1 & H2 & H3).
  - apply (StronglySorted_merge_sort Scan.version_le).
  - rewrite Hp. pose proof (newest_length _ _ Hn). unfold fits, zlen in Hfit. lia.
  - intros f Hf. rewrite Hp in Hf. apply Hok. by apply Hin.
  - split; [exact H2|]. split.
    + intros f Hf. destruct (H1 f Hf) as [Hl _]. rewrite Hp in Hl. by apply Hin.
    + intros g Hg. specialize (Hall g Hg). apply list_elem_of_fmap in Hall as (h & Hgh & Hh).
      assert (Hst : Scan.fi_start_sid g = Scan.fi_start_sid h) by (unfold sids in Hgh; congruence).
      assert (Hhl : h ∈ l) by by rewrite Hp.
      destruct (H3 h Hhl) as [Ho|[[? _]|(f & Hf & Hr)]]; [|done|].
      * exists h. split; [done|]. destruct (Hin h Hh) as [Hhp _]. specialize (Hok h Hhp). lia.
      * exists f. split; [done|]. lia.
Qed.

(** ** The scan depends only on the set of metadata files *)

Lemma newest_unique l l' segs segs' :
  (forall f, f ∈ l <-> f ∈ l') -> newest l segs -> newest l' segs' -> segs ≡ₚ segs'.
Proof.
  intros Hl (Hnd & Hin & Hall) (Hnd' & Hin' & Hall').
  assert (Hsub : forall (s s' : list Scan.SegmentFileInfo) (m m' : list Scan.SegmentFileInfo),
    (forall f, f ∈ m <-> f ∈ m') ->
    (forall f, f ∈ s -> f ∈ m /\ forall g, g ∈ m -> sids g = sids f -> Scan.fi_version g <= Scan.fi_version f) ->
    (forall f, f ∈ s' -> f ∈ m' /\ forall g, g ∈ m' -> sids g = sids f -> Scan.fi_version g <= Scan.fi_version f) ->
    (forall g, g ∈ m' -> sids g ∈ sids <$> s') -> forall f, f ∈ s -> f ∈ s').
  { intros s s' m m' Hm H1 H2 H3 f Hf. destruct (H1 f Hf) as [Hfm Hfmax].
    pose proof (H3 f ltac:(by apply Hm)) as Hg. apply list_elem_of_fmap in Hg as (g & Hfg & Hg).
    destruct (H2 g Hg) as [Hgm Hgmax]. specialize (Hgmax f ltac:(by apply Hm) Hfg).
    specialize (Hfmax g ltac:(by apply Hm) ltac:(done)).
    assert (f = g) as -> by (destruct f, g; unfold sids in Hfg; cbn in *; f_equal; [congruence..|lia]). done. }
  apply NoDup_Permutation; [by apply NoDup_fmap_1 in Hnd|by apply NoDup_fmap_1 in Hnd'|].
  intros f. split; [by apply (Hsub segs segs' l l')|].
  apply (Hsub segs' segs l' l); [intros; by rewrite Hl|done..].
Qed.

Lemma scan_set entries entries' m :
  fits entries -> fits entries' -> (forall f, f ∈ parsed entries <-> f ∈ parsed entries') ->
  Scan.scan_segment_metadata_files entries m = Scan.scan_segment_metadata_files entries' m.
Proof.
  intros Hf Hf' Hs. unfold Scan.scan_segment_metadata_files. f_equal.
  pose proof (collect_versions_newest _ Hf) as Hn. pose proof (collect_versions_newest _ Hf') as Hn'.
  pose proof (newest_unique _ _ _ _ Hs Hn Hn') as Hp.
  pose proof (merge_sort_Permutation Scan.version_le (Scan.collect_versions entries)) as Hm.
  pose proof (merge_sort_Permutation Scan.version_le (Scan.collect_versions entries')) as Hm'.
  eapply (StronglySorted_unique_strong Scan.version_le);
    [|by apply (StronglySorted_merge_sort Scan.version_le)..|by rewrite Hm, Hm'].
  intros f g Hfs Hgs Hfg Hgf. rewrite Hm in Hfs. rewrite Hm', <-Hp in Hgs.
  pose proof (version_le_antisym f g Hfg Hgf) as He. destruct Hn as (Hnd & _).
  apply list_elem_of_lookup in Hfs as [i Hi]. apply list_elem_of_lookup in Hgs as [j Hj].
  assert (i = j) as ->; [|congruence].
  apply (NoDup_lookup _ _ _ (sids f) Hnd); rewrite list_lookup_fmap; [by rewrite Hi|by rewrite Hj, He].
Qed.

(** ** Distinct names *)

Lemma print_app_inj n n' r r' :
  u32_ok n -> u32_ok n' -> stops r -> stops r' -> print_u32 n ++ r = print_u32 n' ++ r' -> n = n' /\ r = r'.
Proof.
  intros Hn Hn' Hr Hr' He. assert (n = n') as <-.
  { rewrite <-(atoi_print n r Hn Hr), <-(atoi_print n' r' Hn' Hr'). by rewrite He. }
  split; [done|]. pose proof (strip_prefix_app (print_u32 n) r) as H1. rewrite He, strip_prefix_app in H1.
  by injection H1.
Qed.

(** A file type that [strchr(name, '_')] isolates. *)
Definition type_ok (t : string) : Prop := forall r, split_on "_" (t ++ "_" ++ r) = Some (t, r).

Lemma file_name_inj t t' a a' b b' v v' r r' :
  type_ok t -> type_ok t' -> u32_ok a -> u32_ok b -> u32_ok v -> u32_ok a' -> u32_ok b' -> u32_ok v' ->
  stops r -> stops r' -> Path.file_name t a b v ++ r = Path.file_name t' a' b' v' ++ r' ->
  t = t' /\ a = a' /\ b = b' /\ v = v' /\ r = r'.
Proof.
  intros Ht Ht' Ha Hb Hv Ha' Hb' Hv' Hr Hr'. unfold Path.file_name. rewrite !append_assoc. intros He.
  assert (Hsp : Some (t, print_u32 a ++ "_" ++ print_u32 b ++ "_v" ++ print_u32 v ++ r)
              = Some (t', print_u32 a' ++ "_" ++ print_u32 b' ++ "_v" ++ print_u32 v' ++ r')).
  { rewrite <-Ht, <-Ht'. by rewrite He. }
  injection Hsp as -> Hsp. split; [done|].
  apply print_app_inj in Hsp as [-> Hsp]; [|done..]. injection Hsp as Hsp.
  apply print_app_inj in Hsp as [-> Hsp]; [|done..]. injection Hsp as Hsp.
  apply print_app_inj in Hsp as [-> ->]; done.
Qed.

(** Two versions of segment 0, segment 1, and the merge of both at version 3. *)
Definition example_listing : list string :=
  [Path.GetLSMSegmentMetadataPathWithVersion 0 0 1; "junk"%string; Path.GetLSMSegmentMetadataPathWithVersion 2 2 1;
   Path.GetLSMSegmentMetadataPathWithVersion 0 1 3; Path.GetLSMSegmentMetadataPathWithVersion 0 0 2;
   Path.GetLSMSegmentMetadataPathWithVersion 1 1 1; Path.GetLSMSegmentMetadataTmpPathWithVersion 0 3 1].

Lemma scan_picks_newest_disjoint_witness :
  Scan.scan_segment_metadata_files example_listing (Z.to_nat MAX_SEGMENTS_COUNT) =
    [Scan.mkFileInfo 0 1 3; Scan.mkFileInfo 2 2 1] /\
  exists f, f ∈ Scan.scan_segment_metadata_files example_listing (Z.to_nat MAX_SEGMENTS_COUNT) /\
    Scan.fi_start_sid f <= 0 <= Scan.fi_end_sid f.
Proof.
  split; [vm_compute; reflexivity|].
  assert (Hp : parsed example_listing = [Scan.mkFileInfo 0 0 1; Scan.mkFileInfo 2 2 1; Scan.mkFileInfo 0 1 3;
            Scan.mkFileInfo 0 0 2; Scan.mkFileInfo 1 1 1]) by (vm_compute; reflexivity).
  destruct (scan_picks_newest_disjoint example_listing) as (_ & _ & H).
  - unfold fits. rewrite Hp. vm_compute. discriminate.
  - intros f. rewrite Hp. rewrite !elem_of_cons, elem_of_nil.
    intros Hf. repeat (destruct Hf as [->|Hf]; [split; vm_compute; congruence|]). destruct Hf.
  - destruct (H (Scan.mkFileInfo 0 0 1)) as (f & Hf & Hr).
    + rewrite Hp. left.
    + exists f. split; [exact Hf|exact Hr].
Defined.
