(* ===== verification/SegmentFiles.v ===== *)
(** Segment files (lsmindex_io.c, the loaders of lsm_segment.c): byte formats,
    chunked files, the write-then-rename protocol of a flush with the metadata
    file as commit record, and loading a segment into a pool slot.

    The directory of the index is a finite map from file names to contents.  A
    writer is the sequence of its file operations, so that a crash is a prefix
    of that sequence.  The serialised index is an opaque byte string
    (IndexBinarySetFlush writes it to its file); reading it back into an index
    object is a parameter of the loaders. *)

From S2P Require Import Prelude SegmentPool FileNames.

#[local] Open Scope string_scope.
#[local] Open Scope list_scope.
#[local] Open Scope Z_scope.

Abbreviation bytes := (list Z).
Abbreviation directory := (gmap string (list Z)).

Inductive file_op := OpWrite (path : string) (content : bytes) | OpRename (from to : string).
#[global] Instance file_op_eq_dec : EqDecision file_op.
Proof. solve_decision. Defined.

Definition run_op (d : directory) (o : file_op) : directory :=
  match o with
  | OpWrite p b => <[p := b]> d
  | OpRename a b => match d !! a with Some x => <[b := x]> (delete a d) | None => d end
  end.
Definition run_ops (d : directory) (ops : list file_op) : directory := foldl run_op d ops.

(** The entry names [readdir] returns, in the map's own order. *)
Definition readdir (d : directory) : list string := (map_to_list d).*1.

(** ** Little-endian integers and arrays of records *)

Fixpoint le_bytes (n : nat) (z : Z) : bytes :=
  match n with O => [] | S n => z mod 256 :: le_bytes n (z / 256) end.
Fixpoint le_value (b : bytes) : Z := match b with [] => 0 | x :: b => x + 256 * le_value b end.

(** [count] records of [width] bytes, decoded one by one. *)
Fixpoint decode_records {A} (dec : bytes -> A) (width : nat) (count : nat) (b : bytes) : list A :=
  match count with
  | O => []
  | S count => dec (take width b) :: decode_records dec width count (drop width b)
  end.

Definition encode_tid (t : Z) : bytes := le_bytes 8 t.
Definition decode_tid (b : bytes) : Z := i64 (le_value b).
Definition encode_mapping (m : list Z) : bytes := mjoin (encode_tid <$> m).
Definition decode_mapping (b : bytes) : list Z := decode_records decode_tid 8 (length b / 8) b.

(** [SegmentOffsetRange] in memory: a 4-byte sid, 4 bytes of padding, two
    8-byte sizes. *)
Definition encode_offset (o : SegmentOffsetRange) : bytes :=
  le_bytes 4 (off_sid o) ++ [0; 0; 0; 0] ++ le_bytes 8 (start_offset o) ++ le_bytes 8 (end_offset o).
Definition decode_offset (b : bytes) : SegmentOffsetRange :=
  mkOffsetRange (le_value (take 4 b)) (le_value (take 8 (drop 8 b))) (le_value (take 8 (drop 16 b))).
Definition encode_offsets (l : list SegmentOffsetRange) : bytes := mjoin (encode_offset <$> l).
Definition decode_offsets (b : bytes) : list SegmentOffsetRange :=
  decode_records decode_offset 24 (length b / 24) b.

Definition index_type_code (t : IndexType) : Z :=
  match t with FLAT => 0 | IVFFLAT => 1 | HNSW => 2 | DISKANN => 3 end.
Definition index_type_of_code (z : Z) : IndexType :=
  if z =? 0 then FLAT else if z =? 1 then IVFFLAT else if z =? 2 then HNSW else DISKANN.

(** ** Chunked files *)
Module Chunk.

Definition MAX_FILE_SIZE : Z := 2 ^ 30.

(** The writing loop of [write_segment_file]: one temporary file per chunk, the
    4-byte delete count (if any) at the start of the first one. *)
Fixpoint write_chunks (fuel : nat) (max_file : Z) (path : string) (data : bytes) (written_size : Z)
    (delete_count : option Z) (delete_count_written : bool) (chunk_index : Z) : res (list file_op * Z) :=
  match fuel with
  | O => Error OutOfFuel
  | S fuel =>
      let size := zlen data in
      let pending := match delete_count with Some _ => negb delete_count_written | None => false end in
      if (written_size <? size) || pending then
        let header := match delete_count with
                      | Some c => if pending && (chunk_index =? 0) then le_bytes 4 c else []
                      | None => []
                      end in
        let total_to_write := zlen header in
        let chunk_size := if max_file - total_to_write <? size - written_size
                          then max_file - total_to_write else size - written_size in
        let chunk := if written_size <? size
                     then take (Z.to_nat chunk_size) (drop (Z.to_nat written_size) data) else [] in
        let done' := delete_count_written || (pending && (chunk_index =? 0)) in
        r ← write_chunks fuel max_file path data (written_size + zlen chunk) delete_count done' (chunk_index + 1);
        Ok (OpWrite (Path.tmp_path path chunk_index) (header ++ chunk) :: r.1, r.2)
      else Ok ([], chunk_index)
  end.

Definition rename_chunks (path : string) (chunks : Z) : list file_op :=
  (fun i => OpRename (Path.tmp_path path i) (Path.chunk_path path i)) <$> seqZ 0 chunks.

Definition write_segment_file (max_file : Z) (path : string) (data : bytes) (delete_count : option Z)
    : res (list file_op) :=
  r ← write_chunks (S (S (length data))) max_file path data 0 delete_count false 0;
  Ok (r.1 ++ rename_chunks path r.2).

(** The first loop of [read_segment_file]: how many chunks there are. *)
Fixpoint count_chunks (fuel : nat) (d : directory) (path : string) (chunk_index : Z) : res Z :=
  match fuel with
  | O => Error OutOfFuel
  | S fuel => match d !! Path.chunk_path path chunk_index with
              | Some _ => count_chunks fuel d path (chunk_index + 1)
              | None => Ok chunk_index
              end
  end.

Definition chunk_at (d : directory) (path : string) (i : Z) : bytes :=
  default [] (d !! Path.chunk_path path i).

(** The second loop: [want] says that the caller passed [delete_count_out]. *)
Definition read_chunk (d : directory) (path : string) (want : bool) (data_size : Z)
    (st : bytes * option Z) (chunk_index : Z) : bytes * option Z :=
  let '(dest, delete_count) := st in
  let b := chunk_at d path chunk_index in
  let '(b, delete_count) :=
    if want && bool_decide (delete_count = None) && (chunk_index =? 0) && (4 <=? zlen b)
    then (drop 4 b, Some (le_value (take 4 b))) else (b, delete_count) in
  if (0 <? zlen b) && (zlen dest <? data_size) then
    let read_size := if data_size <? zlen dest + zlen b then data_size - zlen dest else zlen b in
    (dest ++ take (Z.to_nat read_size) b, delete_count)
  else (dest, delete_count).

Definition read_segment_file (d : directory) (path : string) (want : bool) : res (bytes * option Z) :=
  chunk_num ← count_chunks (S (size d)) d path 0;
  let total_size := foldr Z.add 0 ((fun i => zlen (chunk_at d path i)) <$> seqZ 0 chunk_num) in
  let data_size := if want && (4 <=? total_size) then total_size - 4 else total_size in
  Ok (foldl (read_chunk d path want data_size) ([], None) (seqZ 0 chunk_num)).

End Chunk.

(** ** Metadata, flush and load *)
Module SegFile.

Record PrepareFlushMetaData := mkPrep {
  start_sid : Z; end_sid : Z; valid_rows : Z;
  prep_map : list Z; prep_bitmap : bytes; prep_delete_count : Z;
  index_bin : option bytes; prep_index_type : IndexType;
  prep_offsets : option (list SegmentOffsetRange) }.

Definition metadata_bytes (prep : PrepareFlushMetaData) : bytes :=
  le_bytes 4 (start_sid prep) ++ le_bytes 4 (end_sid prep) ++ le_bytes 4 (valid_rows prep) ++
  le_bytes 4 (index_type_code (prep_index_type prep)).

Definition write_lsm_segment_metadata (prep : PrepareFlushMetaData) (version : Z) : list file_op :=
  let tmp_path := Path.GetLSMSegmentMetadataTmpPathWithVersion (start_sid prep) (end_sid prep) version in
  let final_path := Path.GetLSMSegmentMetadataPathWithVersion (start_sid prep) (end_sid prep) version in
  [OpWrite tmp_path (metadata_bytes prep); OpRename tmp_path final_path].

Definition resolve_version (d : directory) (start_sid end_sid version : Z) : Z :=
  if version =? UINT32_MAX then Scan.find_latest_segment_version (readdir d) start_sid end_sid else version.

(** [None] is the [false] of the C function (missing or short file). *)
Definition read_lsm_segment_metadata (d : directory) (start_sid end_sid version : Z)
    : option (Z * Z * Z * IndexType) :=
  let version := resolve_version d start_sid end_sid version in
  b ← d !! Path.GetLSMSegmentMetadataPathWithVersion start_sid end_sid version;
  if zlen b <? 16 then None
  else Some (le_value (take 4 b), le_value (take 4 (drop 4 b)), le_value (take 4 (drop 8 b)),
             index_type_of_code (le_value (take 4 (drop 12 b)))).

Definition write_offset_file (max_file start_sid end_sid version : Z) (offsets : list SegmentOffsetRange)
    : res (list file_op) :=
  if end_sid <? start_sid then Error ElogError
  else
    let segment_count := u32 (end_sid - start_sid + 1) in
    if zlen offsets <? segment_count then Error OutOfBounds
    else Chunk.write_segment_file max_file (Path.GetLSMOffsetFilePathWithVersion start_sid end_sid version)
      (encode_offsets (take (Z.to_nat segment_count) offsets)) None.

Definition write_bitmap_file_with_subversion (max_file start_sid end_sid version subversion : Z)
    (bitmap : bytes) (delete_count : Z) : res (list file_op) :=
  Chunk.write_segment_file max_file
    (Path.GetLSMBitmapFilePathWithSubversion start_sid end_sid version subversion) bitmap (Some delete_count).

Definition write_bitmap_for_memtable (max_file memtable_id : Z) (bitmap : bytes) (delete_count : Z)
    : res (list file_op) :=
  Chunk.write_segment_file max_file (Path.GetLSMBitmapFilePathForMemtable memtable_id) bitmap (Some delete_count).

Definition flush_segment_to_disk (max_file : Z) (d : directory) (prep : PrepareFlushMetaData) : res (list file_op) :=
  let latest_version := Scan.find_latest_segment_version (readdir d) (start_sid prep) (end_sid prep) in
  let new_version := u32 (latest_version + 1) in
  let index_ops :=
    match index_bin prep with
    | Some bin => [OpWrite (Path.GetLSMIndexFilePathWithVersion (start_sid prep) (end_sid prep) new_version) bin]
    | None => []
    end in
  bitmap_ops ← Chunk.write_segment_file max_file
    (Path.GetLSMBitmapFilePathWithVersion (start_sid prep) (end_sid prep) new_version)
    (prep_bitmap prep) (Some (prep_delete_count prep));
  map_ops ← Chunk.write_segment_file max_file
    (Path.GetLSMMappingFilePathWithVersion (start_sid prep) (end_sid prep) new_version)
    (encode_mapping (prep_map prep)) None;
  offset_ops ← match prep_offsets prep with
               | Some offsets => write_offset_file max_file (start_sid prep) (end_sid prep) new_version offsets
               | None => Ok []
               end;
  Ok (index_ops ++ bitmap_ops ++ map_ops ++ offset_ops ++ write_lsm_segment_metadata prep new_version).

Definition bitmap_path (d : directory) (start_sid end_sid version : Z) : string :=
  Path.GetLSMBitmapFilePathWithSubversion start_sid end_sid version
    (Scan.find_latest_bitmap_subversion (readdir d) start_sid end_sid version).

Definition load_bitmap_file (d : directory) (start_sid end_sid version : Z) : res (bytes * option Z) :=
  let version := resolve_version d start_sid end_sid version in
  Chunk.read_segment_file d (bitmap_path d start_sid end_sid version) true.

(** [None] is [false]. *)
Definition read_bitmap_delete_count (d : directory) (start_sid end_sid version : Z) : option Z :=
  let version := resolve_version d start_sid end_sid version in
  b ← d !! Path.chunk_path (bitmap_path d start_sid end_sid version) 0;
  if zlen b <? 4 then None else Some (le_value (take 4 b)).

Definition load_mapping_file (d : directory) (start_sid end_sid version : Z) : res (list Z) :=
  let version := resolve_version d start_sid end_sid version in
  r ← Chunk.read_segment_file d (Path.GetLSMMappingFilePathWithVersion start_sid end_sid version) false;
  Ok (decode_mapping r.1).

Definition load_offset_file (d : directory) (start_sid end_sid version : Z) : res (list SegmentOffsetRange) :=
  if end_sid <? start_sid then Error ElogError
  else
    let version := resolve_version d start_sid end_sid version in
    r ← Chunk.read_segment_file d (Path.GetLSMOffsetFilePathWithVersion start_sid end_sid version) false;
    Ok (decode_offsets r.1).

(** The index-level metadata file; the last two fields may be missing. *)
Record IndexMeta := mkIndexMeta {
  im_index_type : IndexType; im_dim : Z; im_elem_size : Z; im_hnsw_m : Z; im_hnsw_ef_construction : Z }.

Definition write_lsm_index_metadata (lsm : IndexMeta) : list file_op :=
  let content := le_bytes 4 (index_type_code (im_index_type lsm)) ++ le_bytes 4 (im_dim lsm) ++
    le_bytes 4 (im_elem_size lsm) ++ le_bytes 4 (im_hnsw_m lsm) ++ le_bytes 4 (im_hnsw_ef_construction lsm) in
  [OpWrite Path.get_lsm_metadata_tmp_path content;
   OpRename Path.get_lsm_metadata_tmp_path Path.get_lsm_metadata_path].

Definition read_lsm_index_metadata (d : directory) : option IndexMeta :=
  b ← d !! Path.get_lsm_metadata_path;
  if zlen b <? 12 then None
  else
    let '(m, ef) := if zlen b <? 20 then (32, 200)
                    else (le_value (take 4 (drop 12 b)), le_value (take 4 (drop 16 b))) in
    Some (mkIndexMeta (index_type_of_code (le_value (take 4 b))) (le_value (take 4 (drop 4 b)))
            (le_value (take 4 (drop 8 b))) m ef).

Section load.
(** Knowhere's [DeserializeFromFile]: the index object built from a file (or
    from a missing one), memory mapped or not. *)
Variable IndexLoadAndSave : option bytes -> IndexType -> bool -> option Z.

Definition load_index_file (d : directory) (start_sid end_sid version : Z) (index_type : IndexType)
    (use_mmap : bool) : option Z :=
  let version := resolve_version d start_sid end_sid version in
  IndexLoadAndSave (d !! Path.GetLSMIndexFilePathWithVersion start_sid end_sid version) index_type use_mmap.

(** [delete_count] stays uninitialised when the bitmap file is too short; the
    model then has no value for it. *)
Definition load_and_set_segment (d : directory) (segment : FlushedSegmentData)
    (start_sid end_sid version : Z) (use_mmap : bool) : res FlushedSegmentData :=
  let version := resolve_version d start_sid end_sid version in
  match read_lsm_segment_metadata d start_sid end_sid version with
  | None => Ok segment
  | Some (start_sid_disk, end_sid_disk, valid_rows, seg_index_type) =>
      bitmap ← load_bitmap_file d start_sid end_sid version;
      map ← load_mapping_file d start_sid end_sid version;
      offs ← load_offset_file d start_sid end_sid version;
      delete_count ← of_option NullDeref bitmap.2;
      Ok (segment <| segment_id_start := start_sid_disk |> <| segment_id_end := end_sid_disk |>
            <| vec_count := valid_rows |> <| SegmentPool.index_type := seg_index_type |>
            <| index_ptr := load_index_file d start_sid end_sid version seg_index_type use_mmap |>
            <| bitmap_ptr := Some bitmap.1 |> <| map_ptr := Some map |>
            <| offsets := Some offs |> <| offsets_count := u32 (end_sid - start_sid + 1) |>
            <| in_used := true |> <| SegmentPool.delete_count := delete_count |>
            <| SegmentPool.version := version |> <| is_compacting := false |>
            <| load_state := if use_mmap then SEG_MMAP_LOADED else SEG_FULLY_LOADED |>)
  end.

(** [load_all_segments_from_disk] and its mmap variant: one slot per picked file. *)
Definition load_one (capacity : Z) (d : directory) (use_mmap : bool) (pool : FlushedSegmentPool)
    (f : Scan.SegmentFileInfo) : res FlushedSegmentPool :=
  r ← Pool.reserve_flushed_segment pool;
  let '(seg_idx, pool) := r in
  if seg_idx =? NIL then Ok pool
  else
    s ← arr_get (flushed_segments pool) seg_idx;
    s' ← load_and_set_segment d s (Scan.fi_start_sid f) (Scan.fi_end_sid f) (Scan.fi_version f) use_mmap;
    Pool.register_flushed_segment capacity
      (pool <| flushed_segments ::= <[seg_idx := s']> |>) seg_idx.

Definition load_all_segments_from_disk (capacity : Z) (d : directory) (use_mmap : bool)
    (pool : FlushedSegmentPool) : res FlushedSegmentPool :=
  foldl_res (load_one capacity d use_mmap) pool
    (Scan.scan_segment_metadata_files (readdir d) (Z.to_nat MAX_SEGMENTS_COUNT)).
End load.

End SegFile.

(** ** Encodings *)

Lemma length_le_bytes n z : length (le_bytes n z) = n.
Proof. revert z; induction n as [|n IH]; intros z; cbn; [done|]. by rewrite IH. Qed.

Lemma le_value_bytes n z : le_value (le_bytes n z) = z mod 256 ^ Z.of_nat n.
Proof.
  revert z; induction n as [|n IH]; intros z; [by rewrite Z.mod_1_r|]. cbn [le_bytes le_value]. rewrite IH.
  rewrite Nat2Z.inj_succ, Z.pow_succ_r, Z.rem_mul_r by lia. lia.
Qed.

Lemma le_value_u32 z : 0 <= z < 2 ^ 32 -> le_value (le_bytes 4 z) = z.
Proof. intros. rewrite le_value_bytes. apply Z.mod_small. done. Qed.

Lemma le_value_u64 z : 0 <= z < 2 ^ 64 -> le_value (le_bytes 8 z) = z.
Proof. intros. rewrite le_value_bytes. apply Z.mod_small. done. Qed.

Lemma decode_encode_tid t : - 2 ^ 63 <= t < 2 ^ 63 -> decode_tid (encode_tid t) = t.
Proof.
  intros Ht. unfold decode_tid, encode_tid. rewrite le_value_bytes. unfold i64.
  change (256 ^ Z.of_nat 8) with (2 ^ 64). rewrite Zplus_mod_idemp_l, Z.mod_small; lia.
Qed.

Lemma mjoin_cons {A} (x : list A) l : mjoin (x :: l) = x ++ mjoin l.
Proof. done. Qed.

Lemma decode_records_spec {A} (enc : A -> bytes) (dec : bytes -> A) (w : nat) (l : list A) rest :
  (forall x, x ∈ l -> length (enc x) = w) -> (forall x, x ∈ l -> dec (enc x) = x) ->
  decode_records dec w (length l) (mjoin (enc <$> l) ++ rest) = l.
Proof.
  intros Hw Hd. induction l as [|x l IH]; [done|]. rewrite fmap_cons, mjoin_cons, <-app_assoc. cbn [length decode_records].
  rewrite take_app_length' by (symmetry; apply Hw; left). rewrite drop_app_length' by (symmetry; apply Hw; left).
  rewrite Hd by left. f_equal. apply IH; intros; [apply Hw|apply Hd]; by right.
Qed.

Lemma length_records {A} (enc : A -> bytes) (w : nat) (l : list A) :
  (forall x, x ∈ l -> length (enc x) = w) -> length (mjoin (enc <$> l)) = (w * length l)%nat.
Proof.
  intros Hw. induction l as [|x l IH]; [cbn; lia|]. rewrite fmap_cons, mjoin_cons, length_app, Hw by left.
  rewrite IH; [cbn; lia|]. intros; apply Hw; by right.
Qed.

Lemma decode_array {A} (enc : A -> bytes) (dec : bytes -> A) (w : nat) (l : list A) :
  (0 < w)%nat -> (forall x, x ∈ l -> length (enc x) = w) -> (forall x, x ∈ l -> dec (enc x) = x) ->
  decode_records dec w (length (mjoin (enc <$> l)) / w) (mjoin (enc <$> l)) = l.
Proof.
  intros Hp Hw Hd. rewrite (length_records enc w) by done.
  rewrite Nat.mul_comm, Nat.div_mul by lia. rewrite <-(app_nil_r (mjoin (enc <$> l))). by apply decode_records_spec.
Qed.

Definition tid_range (t : Z) : Prop := - 2 ^ 63 <= t < 2 ^ 63.
Definition offset_range (o : SegmentOffsetRange) : Prop :=
  u32_ok (off_sid o) /\ 0 <= start_offset o < 2 ^ 64 /\ 0 <= end_offset o < 2 ^ 64.

Lemma decode_encode_mapping m : Forall tid_range m -> decode_mapping (encode_mapping m) = m.
Proof.
  intros Hm. rewrite Forall_forall in Hm. apply decode_array; [lia|intros; apply length_le_bytes|].
  intros t Ht. by apply decode_encode_tid, Hm.
Qed.

Lemma length_encode_offset o : length (encode_offset o) = 24%nat.
Proof. unfold encode_offset. by rewrite !length_app, !length_le_bytes. Qed.

Lemma decode_encode_offset o : offset_range o -> decode_offset (encode_offset o) = o.
Proof.
  intros (H1 & H2 & H3). unfold decode_offset, encode_offset.
  rewrite take_app_length' by (symmetry; apply length_le_bytes).
  replace (drop 8 _) with (le_bytes 8 (start_offset o) ++ le_bytes 8 (end_offset o)).
  2: { rewrite app_assoc. by rewrite drop_app_length' by (by rewrite length_app, length_le_bytes). }
  rewrite take_app_length' by (symmetry; apply length_le_bytes).
  replace (drop 16 _) with (le_bytes 8 (end_offset o)).
  2: { rewrite !app_assoc. by rewrite drop_app_length' by (by rewrite !length_app, !length_le_bytes). }
  rewrite firstn_all2 by (by rewrite length_le_bytes).
  rewrite le_value_u32, !le_value_u64 by done. by destruct o.
Qed.

Lemma decode_encode_offsets l : Forall offset_range l -> decode_offsets (encode_offsets l) = l.
Proof.
  intros Hl. rewrite Forall_forall in Hl. apply decode_array; [lia|intros; apply length_encode_offset|].
  intros o Ho. by apply decode_encode_offset, Hl.
Qed.

Lemma index_type_roundtrip t : index_type_of_code (index_type_code t) = t.
Proof. by destruct t. Qed.

(** ** The chunk writer *)

(** Contents [cs] of consecutive chunks from index [k] on. *)
Definition chunk_writes (path : string) (k : Z) (cs : list bytes) : list file_op :=
  imap (fun j c => OpWrite (Path.tmp_path path (k + Z.of_nat j)) c) cs.

Lemma chunk_writes_cons path k c cs :
  chunk_writes path k (c :: cs) = OpWrite (Path.tmp_path path k) c :: chunk_writes path (k + 1) cs.
Proof.
  unfold chunk_writes. rewrite imap_cons. f_equal; [f_equal; f_equal; lia|].
  apply imap_ext. intros j x _. cbn. f_equal. f_equal. lia.
Qed.

Definition header_of (delete_count : option Z) : bytes :=
  match delete_count with Some c => le_bytes 4 c | None => [] end.

Lemma write_chunks_data max_file path data written dc k fuel :
  0 < max_file -> 0 <= written <= zlen data -> (Z.to_nat (zlen data - written) < fuel)%nat ->
  exists cs, Chunk.write_chunks fuel max_file path data written dc true k = Ok (chunk_writes path k cs, k + zlen cs) /\
    mjoin cs = drop (Z.to_nat written) data /\ Forall (fun c => c <> [] /\ zlen c <= max_file) cs.
Proof.
  intros Hmax. revert written k; induction fuel as [|fuel IH]; intros written k Hw Hf; [lia|].
  cbn [Chunk.write_chunks].
  assert ((match dc with Some _ => negb true | None => false end) = false) as -> by by destruct dc.
  rewrite orb_false_r. destruct (Z.ltb_spec written (zlen data)) as [Hlt|Hge].
  - assert ((match dc with Some c => if false && (k =? 0) then le_bytes 4 c else [] | None => [] end) = []) as -> by by destruct dc.
    cbn [zlen length app orb]. change (zlen (@nil Z)) with 0. rewrite !Z.sub_0_r.
    set (sz := if max_file <? zlen data - written then max_file else zlen data - written).
    assert (0 < sz <= max_file /\ sz <= zlen data - written) as [Hsz1 Hsz2].
    { subst sz. destruct (Z.ltb_spec max_file (zlen data - written)); lia. }
    set (c := take (Z.to_nat sz) (drop (Z.to_nat written) data)).
    assert (zlen c = sz) as Hc.
    { subst c. unfold zlen in *. rewrite length_take, length_drop. lia. }
    destruct (IH (written + zlen c) (k + 1)) as (cs & -> & Hj & Hall); [lia..|].
    cbn [mbind res_bind fst snd]. exists (c :: cs). rewrite chunk_writes_cons. split; [|split].
    + do 2 f_equal. rewrite zlen_cons. lia.
    + rewrite mjoin_cons, Hj, Hc. subst c. rewrite Z2Nat.inj_add, <-drop_drop by lia. apply take_drop.
    + constructor; [|done]. split; [|rewrite Hc; apply Hsz1]. intros Hx. rewrite Hx in Hc.
      change (zlen []) with 0 in Hc. lia.
  - exists []. split; [|split; [|constructor]].
    + by rewrite Z.add_0_r.
    + cbn. rewrite drop_ge; [done|]. unfold zlen in *. lia.
Qed.

(** The chunks of a file: the delete count (if any), then the data, cut into
    pieces of at most [max_file] bytes; a header is never split. *)
Lemma write_segment_file_spec max_file path data dc :
  4 < max_file ->
  exists cs, Chunk.write_segment_file max_file path data dc =
      Ok (chunk_writes path 0 cs ++ Chunk.rename_chunks path (zlen cs)) /\
    mjoin cs = header_of dc ++ data /\ Forall (fun c => c <> [] /\ zlen c <= max_file) cs /\
    (dc <> None -> exists c0 r, cs = (header_of dc ++ c0) :: r).
Proof.
  intros Hmax. unfold Chunk.write_segment_file. destruct dc as [c|].
  - set (fuel := S (length data)). cbn [Chunk.write_chunks]. rewrite orb_true_r. cbn [negb andb Z.eqb orb].
    assert (zlen (le_bytes 4 c) = 4) as H4 by (unfold zlen; by rewrite length_le_bytes). rewrite H4.
    set (sz := if max_file - 4 <? zlen data - 0 then max_file - 4 else zlen data - 0).
    set (ch := if 0 <? zlen data then take (Z.to_nat sz) (drop (Z.to_nat 0) data) else []).
    assert (zlen ch <= max_file - 4 /\ zlen ch <= zlen data /\ ch = take (Z.to_nat (zlen ch)) data) as (Hc1 & Hc2 & Hc3).
    { subst ch. destruct (Z.ltb_spec 0 (zlen data)) as [Hp|Hp].
      - subst sz. rewrite Z.sub_0_r in *. change (drop (Z.to_nat 0) data) with data.
        destruct (Z.ltb_spec (max_file - 4) (zlen data)); unfold zlen in *; rewrite length_take;
          (split; [lia|]; split; [lia|]; f_equal; lia).
      - change (zlen []) with 0. split; [lia|]. split; [apply zlen_nonneg|done]. }
    destruct (write_chunks_data max_file path data (0 + zlen ch) (Some c) (0 + 1) fuel) as (cs & -> & Hj & Hall);
      [lia|pose proof (zlen_nonneg ch); lia|unfold fuel, zlen; lia|].
    cbn [mbind res_bind fst snd]. exists ((le_bytes 4 c ++ ch) :: cs). split; [|split; [|split]].
    + rewrite chunk_writes_cons, zlen_cons. reflexivity.
    + rewrite mjoin_cons, Hj, <-app_assoc. f_equal.
      rewrite Hc3 at 1. rewrite Z.add_0_l. apply take_drop.
    + constructor; [|done]. split; [by destruct c|]. rewrite zlen_app, H4. lia.
    + intros _. eauto.
  - destruct (write_chunks_data max_file path data 0 None 0 (S (S (length data)))) as (cs & Hw & Hj & Hall);
      [lia|pose proof (zlen_nonneg data); lia|unfold zlen; lia|].
    assert (forall fuel w k, Chunk.write_chunks fuel max_file path data w None false k =
                             Chunk.write_chunks fuel max_file path data w None true k) as Hft.
    { induction fuel as [|fuel IH]; intros w k; [done|]. cbn [Chunk.write_chunks]. rewrite !orb_false_r.
      destruct (w <? zlen data); [|done]. cbn [orb andb]. by rewrite IH. }
    rewrite Hft, Hw. exists cs. split; [done|]. split; [by rewrite Hj|]. split; [done|]. done.
Qed.

(** ** The chunk reader *)

Definition holds_chunks (d : directory) (path : string) (k : Z) (cs : list bytes) : Prop :=
  forall j c, cs !! j = Some c -> d !! Path.chunk_path path (k + Z.of_nat j) = Some c.

Lemma holds_chunks_cons d path k c cs :
  holds_chunks d path k (c :: cs) -> d !! Path.chunk_path path k = Some c /\ holds_chunks d path (k + 1) cs.
Proof.
  intros H. split.
  - rewrite <-(H 0%nat c eq_refl). do 2 f_equal. lia.
  - intros j c' Hj. rewrite <-(H (S j) c' Hj). do 2 f_equal. lia.
Qed.

Lemma seqZ_next k n : 0 <= n -> seqZ k (1 + n) = k :: seqZ (k + 1) n.
Proof. intros. rewrite seqZ_cons by lia. f_equal. f_equal; lia. Qed.

Lemma count_chunks_spec d path k cs fuel :
  holds_chunks d path k cs -> d !! Path.chunk_path path (k + zlen cs) = None -> (length cs < fuel)%nat ->
  Chunk.count_chunks fuel d path k = Ok (k + zlen cs).
Proof.
  revert k fuel; induction cs as [|c cs IH]; intros k fuel Hh Hn Hf; (destruct fuel as [|fuel]; [lia|]); cbn [Chunk.count_chunks].
  - rewrite Z.add_0_r in *. by rewrite Hn.
  - apply holds_chunks_cons in Hh as [-> Hh]. rewrite zlen_cons in *. rewrite IH.
    + f_equal. lia.
    + done.
    + by replace (k + 1 + zlen cs) with (k + (1 + zlen cs)) by lia.
    + cbn in Hf. lia.
Qed.

Lemma chunk_sizes d path k cs :
  holds_chunks d path k cs ->
  foldr Z.add 0 ((fun i => zlen (Chunk.chunk_at d path i)) <$> seqZ k (zlen cs)) = zlen (mjoin cs).
Proof.
  revert k; induction cs as [|c cs IH]; intros k Hh; [done|].
  rewrite zlen_cons, seqZ_next by apply zlen_nonneg. rewrite fmap_cons, mjoin_cons, zlen_app.
  apply holds_chunks_cons in Hh as [Hc Hh]. cbn [foldr]. rewrite IH by done.
  unfold Chunk.chunk_at. by rewrite Hc.
Qed.

Lemma read_tail d path want ds k cs dest dc :
  holds_chunks d path k cs -> Forall (fun c => c <> []) cs -> (want = false \/ 0 < k) ->
  zlen dest + zlen (mjoin cs) = ds ->
  foldl (Chunk.read_chunk d path want ds) (dest, dc) (seqZ k (zlen cs)) = (dest ++ mjoin cs, dc).
Proof.
  revert k dest; induction cs as [|c cs IH]; intros k dest Hh Hne Hk Hds.
  { cbn. by rewrite app_nil_r. }
  rewrite zlen_cons, seqZ_next by apply zlen_nonneg. apply holds_chunks_cons in Hh as [Hc Hh].
  apply Forall_cons in Hne as [Hcne Hne]. rewrite mjoin_cons, zlen_app in Hds. cbn [foldl].
  assert (0 < zlen c) by (destruct c; [done|rewrite zlen_cons; pose proof (zlen_nonneg c); lia]).
  assert (Chunk.read_chunk d path want ds (dest, dc) k = (dest ++ c, dc)) as ->.
  { unfold Chunk.read_chunk, Chunk.chunk_at. rewrite Hc. cbn [default id].
    match goal with |- context [if ?b then (drop 4 c, _) else _] => assert (b = false) as -> end.
    { destruct Hk as [->|Hk]; [done|]. destruct (Z.eqb_spec k 0); [lia|]. by rewrite andb_false_r. }
    pose proof (zlen_nonneg (mjoin cs)).
    destruct (Z.ltb_spec 0 (zlen c)), (Z.ltb_spec (zlen dest) ds); try lia. cbn [andb].
    destruct (Z.ltb_spec ds (zlen dest + zlen c)); [lia|]. rewrite take_ge by (unfold zlen; lia). done. }
  rewrite IH; [by rewrite <-app_assoc|done|done|destruct Hk; [by left|right; lia]|rewrite zlen_app; lia].
Qed.

(** Reading back the chunks of a file gives its data and its delete count. *)
Lemma read_segment_file_spec d path cs dc data :
  holds_chunks d path 0 cs -> d !! Path.chunk_path path (zlen cs) = None -> (length cs <= size d)%nat ->
  Forall (fun c => c <> []) cs -> mjoin cs = header_of dc ++ data ->
  (forall c, dc = Some c -> u32_ok c /\ exists c0 r, cs = (le_bytes 4 c ++ c0) :: r) ->
  Chunk.read_segment_file d path (match dc with Some _ => true | None => false end) = Ok (data, dc).
Proof.
  intros Hh Hn Hsz Hne Hj Hdc. unfold Chunk.read_segment_file.
  rewrite (count_chunks_spec d path 0 cs) by (done || lia). cbn [mbind res_bind]. rewrite Z.add_0_l.
  rewrite chunk_sizes by done. rewrite Hj, zlen_app. destruct dc as [c|]; cbn [header_of].
  - destruct (Hdc c eq_refl) as (Hc & c0 & r & ->). 
    assert (zlen (le_bytes 4 c) = 4) as H4 by (unfold zlen; by rewrite length_le_bytes). rewrite H4.
    pose proof (zlen_nonneg data). destruct (Z.leb_spec 4 (4 + zlen data)); [|lia]. cbn [andb].
    replace (4 + zlen data - 4) with (zlen data) by lia.
    rewrite zlen_cons, seqZ_next by apply zlen_nonneg. apply holds_chunks_cons in Hh as [Hc0 Hh]. cbn [foldl].
    rewrite mjoin_cons, <-app_assoc in Hj. cbn [header_of] in Hj. apply app_inv_head in Hj.
    apply Forall_cons in Hne as [_ Hne].
    assert (Chunk.read_chunk d path true (zlen data) ([], None) 0 = (c0, Some c)) as ->.
    { unfold Chunk.read_chunk, Chunk.chunk_at. rewrite Hc0. cbn [default id]. rewrite zlen_app, H4.
      pose proof (zlen_nonneg c0). destruct (Z.leb_spec 4 (4 + zlen c0)); [|lia].
      rewrite bool_decide_true by done. cbn [andb Z.eqb].
      rewrite drop_app_length' by (symmetry; apply length_le_bytes).
      rewrite take_app_length' by (symmetry; apply length_le_bytes). rewrite le_value_u32 by done.
      change (zlen (@nil Z)) with 0. rewrite <-Hj, zlen_app. pose proof (zlen_nonneg (mjoin r)).
      destruct (Z.ltb_spec 0 (zlen c0)); cbn [andb].
      - destruct (Z.ltb_spec 0 (zlen c0 + zlen (mjoin r))); [|lia].
        destruct (Z.ltb_spec (zlen c0 + zlen (mjoin r)) (0 + zlen c0)); [lia|].
        rewrite take_ge by (unfold zlen; lia). done.
      - destruct c0; [done|]. rewrite zlen_cons in *. pose proof (zlen_nonneg c0). lia. }
    rewrite read_tail; [by rewrite Hj|done|done|right; lia|by rewrite <-Hj, zlen_app].
  - change (zlen []) with 0. rewrite Z.add_0_l. cbn [andb]. rewrite (read_tail d path false); [|done|done|by left|].
    + cbn [app]. rewrite Hj. done.
    + by rewrite Hj.
Qed.

(** ** Effects of operation sequences *)

Definition op_keys (o : file_op) : list string :=
  match o with OpWrite p _ => [p] | OpRename a b => [a; b] end.

Lemma run_op_other d o k : k ∉ op_keys o -> run_op d o !! k = d !! k.
Proof.
  destruct o as [p b|a b]; unfold op_keys, run_op; intros Hk.
  - apply lookup_insert_ne. set_solver.
  - destruct (d !! a); [|done]. rewrite lookup_insert_ne by set_solver. apply lookup_delete_ne. set_solver.
Qed.

Lemma run_ops_other d ops k : (forall o, o ∈ ops -> k ∉ op_keys o) -> run_ops d ops !! k = d !! k.
Proof.
  revert d; induction ops as [|o ops IH]; intros d Hk; [done|]. cbn.
  unfold run_ops in IH. rewrite IH by (intros; apply Hk; by right). apply run_op_other, Hk. left.
Qed.

Lemma run_ops_app d l1 l2 : run_ops d (l1 ++ l2) = run_ops (run_ops d l1) l2.
Proof. apply foldl_app. Qed.

Lemma run_ops_snoc d l o : run_ops d (l ++ [o]) = run_op (run_ops d l) o.
Proof. by rewrite run_ops_app. Qed.

(** ** What one chunked file leaves in the directory *)

(** The names the writer of [path] may create. *)
Definition file_keys (path : string) (s : string) : Prop :=
  exists i, u32_ok i /\ (s = Path.tmp_path path i \/ s = Path.chunk_path path i).

Lemma chunk_path_inj path i j : u32_ok i -> u32_ok j -> Path.chunk_path path i = Path.chunk_path path j -> i = j.
Proof.
  intros Hi Hj He. unfold Path.chunk_path in He.
  pose proof (strip_prefix_app path ("." ++ print_u32 i)%string) as H1. rewrite He, strip_prefix_app in H1.
  injection H1 as H1. change (print_u32 j = print_u32 i) in H1.
  rewrite <-(atoi_print_u32 i Hi), <-(atoi_print_u32 j Hj). by rewrite H1.
Qed.

Lemma tmp_path_inj path i j : u32_ok i -> u32_ok j -> Path.tmp_path path i = Path.tmp_path path j -> i = j.
Proof.
  intros Hi Hj He. unfold Path.tmp_path in He.
  pose proof (strip_prefix_app path (".tmp." ++ print_u32 i)%string) as H1. rewrite He, strip_prefix_app in H1.
  injection H1 as H1. change (print_u32 j = print_u32 i) in H1.
  rewrite <-(atoi_print_u32 i Hi), <-(atoi_print_u32 j Hj). by rewrite H1.
Qed.

Lemma tmp_chunk_ne path i j : u32_ok j -> Path.tmp_path path i <> Path.chunk_path path j.
Proof.
  intros Hj He. unfold Path.tmp_path, Path.chunk_path in He.
  pose proof (strip_prefix_app path (".tmp." ++ print_u32 i)%string) as H1. rewrite He, strip_prefix_app in H1.
  injection H1 as H1. change (print_u32 j = "tmp." +:+ print_u32 i) in H1.
  assert (all_digits (print_u32 j)) as Hd by (apply print_digits_all; [apply Hj|done]).
  rewrite H1 in Hd. cbn in Hd. by destruct Hd as [[d Hd] _].
Qed.

Definition renames (path : string) (k n : Z) : list file_op :=
  (fun i => OpRename (Path.tmp_path path i) (Path.chunk_path path i)) <$> seqZ k n.

Lemma in_chunk_writes path k cs o :
  o ∈ chunk_writes path k cs -> exists i c, k <= i < k + zlen cs /\ o = OpWrite (Path.tmp_path path i) c.
Proof.
  intros Ho. apply elem_of_lookup_imap in Ho as (j & c & -> & Hj). apply lookup_lt_Some in Hj.
  exists (k + Z.of_nat j), c. unfold zlen. split; [lia|done].
Qed.

Lemma in_renames path k n o :
  o ∈ renames path k n -> exists i, k <= i < k + n /\ o = OpRename (Path.tmp_path path i) (Path.chunk_path path i).
Proof. intros (i & -> & Hi%elem_of_seqZ)%list_elem_of_fmap. eauto. Qed.

Lemma run_writes d path k cs :
  0 <= k -> k + zlen cs < 2 ^ 32 ->
  forall j c, cs !! j = Some c -> run_ops d (chunk_writes path k cs) !! Path.tmp_path path (k + Z.of_nat j) = Some c.
Proof.
  revert d k; induction cs as [|c0 cs IH]; intros d k Hk Hn j c Hj; [done|].
  rewrite zlen_cons in Hn. rewrite chunk_writes_cons. unfold run_ops. cbn [foldl]. fold (run_ops (run_op d (OpWrite (Path.tmp_path path k) c0)) (chunk_writes path (k + 1) cs)).
  destruct j as [|j].
  - cbn in Hj. injection Hj as ->. rewrite Z.add_0_r. rewrite run_ops_other.
    + apply lookup_insert_eq.
    + intros o (i & x & Hi & ->)%in_chunk_writes. unfold op_keys. intros Hx%list_elem_of_singleton.
      pose proof (zlen_nonneg cs). apply tmp_path_inj in Hx; unfold u32_ok; lia.
  - replace (k + Z.of_nat (S j)) with (k + 1 + Z.of_nat j) by lia. apply IH; [lia|lia|done].
Qed.

Lemma run_renames d path k cs :
  0 <= k -> k + zlen cs < 2 ^ 32 ->
  (forall j c, cs !! j = Some c -> d !! Path.tmp_path path (k + Z.of_nat j) = Some c) ->
  holds_chunks (run_ops d (renames path k (zlen cs))) path k cs.
Proof.
  revert d k; induction cs as [|c0 cs IH]; intros d k Hk Hn Ht j c Hj; [done|].
  pose proof (zlen_nonneg cs) as Hz. rewrite zlen_cons in *.
  assert (Hseq : renames path k (1 + zlen cs) = OpRename (Path.tmp_path path k) (Path.chunk_path path k) :: renames path (k + 1) (zlen cs)).
  { unfold renames. rewrite seqZ_next by done. done. }
  rewrite Hseq. unfold run_ops. cbn [foldl]. fold (run_ops (run_op d (OpRename (Path.tmp_path path k) (Path.chunk_path path k))) (renames path (k + 1) (zlen cs))).
  pose proof (Ht 0%nat c0 eq_refl) as H0. rewrite Z.add_0_r in H0.
  destruct j as [|j].
  - cbn in Hj. injection Hj as ->. rewrite Z.add_0_r. rewrite run_ops_other.
    + unfold run_op. rewrite H0. apply lookup_insert_eq.
    + intros o (i & Hi & ->)%in_renames. unfold op_keys.
      intros [Hx|Hx%list_elem_of_singleton]%elem_of_cons.
      * symmetry in Hx. by apply tmp_chunk_ne in Hx; unfold u32_ok; lia.
      * apply chunk_path_inj in Hx; unfold u32_ok; lia.
  - replace (k + Z.of_nat (S j)) with (k + 1 + Z.of_nat j) by lia. apply IH; [lia|lia| |done].
    intros j' c' Hj'. rewrite run_op_other.
    + rewrite <-(Ht (S j') c' Hj'). do 2 f_equal. lia.
    + apply lookup_lt_Some in Hj' as Hlt. unfold zlen in *. unfold op_keys.
      intros [Hx|Hx%list_elem_of_singleton]%elem_of_cons.
      * apply tmp_path_inj in Hx; unfold u32_ok; lia.
      * by apply tmp_chunk_ne in Hx; unfold u32_ok; lia.
Qed.

Definition same_outside (keys : string -> Prop) (d d' : directory) : Prop := forall s, ~ keys s -> d' !! s = d !! s.

(** A chunked file, written into a directory with no stale chunk of that name,
    reads back as written; no other name is touched, at any point. *)
Lemma write_then_read max_file path data dc :
  4 < max_file -> zlen data < 2 ^ 31 -> (forall c, dc = Some c -> u32_ok c) ->
  exists ops, Chunk.write_segment_file max_file path data dc = Ok ops /\
    (forall d d', (forall i, u32_ok i -> d !! Path.chunk_path path i = None) ->
       (forall s, file_keys path s -> d' !! s = run_ops d ops !! s) ->
       Chunk.read_segment_file d' path (match dc with Some _ => true | None => false end) = Ok (data, dc)) /\
    (forall o, o ∈ ops -> forall s, s ∈ op_keys o -> file_keys path s).
Proof.
  intros Hmax Hlen Hdc.
  destruct (write_segment_file_spec max_file path data dc Hmax) as (cs & -> & Hj & Hall & Hhead).
  assert (Hcs : zlen cs <= zlen data + 4).
  { assert (zlen cs <= zlen (mjoin cs)) as Hle.
    { clear -Hall. induction Hall as [|c cs [Hc _] _ IH]; [done|]. rewrite zlen_cons, mjoin_cons, zlen_app.
      destruct c; [done|]. rewrite zlen_cons. pose proof (zlen_nonneg c). lia. }
    rewrite Hj, zlen_app in Hle. enough (zlen (header_of dc) <= 4) by lia.
    unfold zlen. destruct dc; cbn [header_of length]; [by rewrite length_le_bytes|lia]. }
  pose proof (zlen_nonneg cs) as Hz0.
  eexists; split; [done|]. split.
  - intros d d' Hfresh Hd'.
    assert (Hh : holds_chunks d' path 0 cs).
    { intros j c Hjc. rewrite Hd'.
      - rewrite run_ops_app. apply (run_renames _ path 0 cs); [lia|lia| |done].
        intros j' c' Hj'. apply run_writes; [lia|lia|done].
      - apply lookup_lt_Some in Hjc. unfold zlen in *. exists (0 + Z.of_nat j). unfold u32_ok. split; [lia|by right]. }
    apply read_segment_file_spec with cs; [done| | | |done|].
    + rewrite Hd' by (exists (zlen cs); unfold u32_ok; split; [lia|by right]). rewrite run_ops_other.
      * apply Hfresh. unfold u32_ok. lia.
      * intros o [Ho|Ho]%elem_of_app.
        -- apply in_chunk_writes in Ho as (i & c & Hi & ->). unfold op_keys.
           intros Hx%list_elem_of_singleton. symmetry in Hx. by apply tmp_chunk_ne in Hx; unfold u32_ok; lia.
        -- apply in_renames in Ho as (i & Hi & ->). unfold op_keys.
           intros [Hx|Hx%list_elem_of_singleton]%elem_of_cons.
           ++ symmetry in Hx. by apply tmp_chunk_ne in Hx; unfold u32_ok; lia.
           ++ apply chunk_path_inj in Hx; unfold u32_ok; lia.
    + rewrite <-(size_dom (D := gset string)).
      assert (length (Path.chunk_path path <$> seqZ 0 (zlen cs)) = length cs) as <-.
      { rewrite length_fmap, length_seqZ. unfold zlen. lia. }
      rewrite <-(size_list_to_set (C := gset string)).
      * apply subseteq_size. intros s Hs. apply elem_of_list_to_set, list_elem_of_fmap in Hs as (i & -> & Hi%elem_of_seqZ).
        destruct (lookup_lt_is_Some_2 cs (Z.to_nat i)) as [c Hc]; [unfold zlen in Hi; lia|].
        apply elem_of_dom. exists c. rewrite <-(Hh _ _ Hc). do 2 f_equal. lia.
      * apply NoDup_fmap_2_strong; [|apply NoDup_seqZ].
        intros i j Hi%elem_of_seqZ Hj'%elem_of_seqZ He. apply chunk_path_inj in He; unfold u32_ok; lia.
    + eapply Forall_impl; [exact Hall|]. by intros c [? _].
    + intros c ->. split; [by apply Hdc|]. by apply Hhead.
  - intros o Ho s Hs. apply elem_of_app in Ho as [Ho|Ho].
    + apply in_chunk_writes in Ho as (i & c & Hi & ->). unfold op_keys in Hs.
      apply list_elem_of_singleton in Hs as ->. exists i. unfold u32_ok. split; [lia|by left].
    + apply in_renames in Ho as (i & Hi & ->). unfold op_keys in Hs. exists i. unfold u32_ok. split; [lia|].
      apply elem_of_cons in Hs as [->| ->%list_elem_of_singleton]; [by left|by right].
Qed.

(** ** Names of one version of one segment *)

Definition suffix_ok (r : string) : Prop := r = "" \/ exists r', r = ("." +:+ r')%string.
Definition data_types : list string := ["index"; "bitmap"; "mapping"; "offset"; "metadata.tmp"].
(** Membership in literal lists of file types. *)
Ltac in_types :=
  first [ apply (bool_decide_unpack _); vm_compute; exact I
        | match goal with H : _ ∈ _ |- _ =>
            clear -H; unfold data_types in *; rewrite ?elem_of_cons, ?elem_of_nil in *;
            first [tauto | intuition discriminate] end ].

Definition owned (t : string) (a b v : Z) (s : string) : Prop :=
  exists r, suffix_ok r /\ s = (Path.file_name t a b v +:+ r)%string.
Definition data_key (a b v : Z) (s : string) : Prop := exists t, t ∈ data_types /\ owned t a b v s.

Lemma suffix_stops r : suffix_ok r -> stops r.
Proof. by intros [->|[r' ->]]. Qed.

Lemma data_type_ok t : t ∈ data_types \/ t = "metadata" -> type_ok t.
Proof.
  unfold data_types. rewrite !elem_of_cons, elem_of_nil.
  intros H r. repeat destruct H as [H|H]; subst; done.
Qed.

Lemma owned_inj t t' a a' b b' v v' s :
  t ∈ data_types \/ t = "metadata" -> t' ∈ data_types \/ t' = "metadata" ->
  u32_ok a -> u32_ok b -> u32_ok v -> u32_ok a' -> u32_ok b' -> u32_ok v' ->
  owned t a b v s -> owned t' a' b' v' s -> t = t' /\ a = a' /\ b = b' /\ v = v'.
Proof.
  intros Ht Ht' ?????? (r & Hr & ->) (r' & Hr' & He). apply data_type_ok in Ht, Ht'.
  apply file_name_inj in He; try done; [tauto|by apply suffix_stops..].
Qed.

Lemma file_keys_owned t a b v s : file_keys (Path.file_name t a b v) s -> owned t a b v s.
Proof. intros (i & _ & [->| ->]); eexists; (split; [right; by eexists|done]). Qed.

Lemma owned_exact t a b v : owned t a b v (Path.file_name t a b v).
Proof. exists "". split; [by left|]. by rewrite append_nil. Qed.

(** Files of a version other than its metadata are invisible to the version
    scan and to the directory scan. *)
Lemma data_key_unparsed a b v s : data_key a b v s -> Scan.parse_metadata_name s = None.
Proof.
  intros (t & Ht & r & Hr & ->). unfold data_types in Ht. rewrite !elem_of_cons, elem_of_nil in Ht.
  repeat destruct Ht as [Ht|Ht]; subst; done.
Qed.

Lemma data_key_no_version a b a' b' v s :
  u32_ok a -> u32_ok b -> data_key a' b' v s -> Scan.version_of (Scan.version_prefix a b) s = None.
Proof.
  intros Ha Hb Hk. unfold Scan.version_of. destruct (strip_prefix _ s) as [r|] eqn:E; [|done].
  apply strip_prefix_Some in E as ->. apply data_key_unparsed in Hk. by rewrite parse_version_prefix in Hk.
Qed.

Lemma version_of_parse a b s v :
  u32_ok a -> u32_ok b -> Scan.version_of (Scan.version_prefix a b) s = Some v ->
  Scan.parse_metadata_name s = Some (Scan.mkFileInfo a b v).
Proof.
  intros Ha Hb. unfold Scan.version_of. destruct (strip_prefix _ s) as [r|] eqn:E; [|done].
  apply strip_prefix_Some in E as ->. intros [= <-]. by apply parse_version_prefix.
Qed.

Lemma subversion_not_owned a b v t s :
  t ∈ data_types \/ t = "metadata" -> u32_ok a -> u32_ok b -> u32_ok v -> owned t a b v s ->
  strip_prefix (Scan.subversion_prefix a b v) s = None.
Proof.
  intros Ht Ha Hb Hv (r & Hr & ->). destruct (strip_prefix _ _) as [x|] eqn:E; [|done]. exfalso.
  apply strip_prefix_Some in E.
  assert (Scan.subversion_prefix a b v +:+ x = Path.file_name "bitmap" a b v +:+ ("_s" +:+ x))%string as Hs.
  { unfold Scan.subversion_prefix, Path.file_name. by rewrite !append_assoc. }
  rewrite Hs in E. apply file_name_inj in E; try done.
  - destruct E as (_ & _ & _ & _ & ->). destruct Hr as [Hr|[r' Hr]]; done.
  - by apply data_type_ok.
  - by apply suffix_stops.
Qed.

Lemma elem_of_readdir d s : s ∈ readdir d <-> is_Some (d !! s).
Proof.
  unfold readdir. rewrite list_elem_of_fmap. split.
  - intros ([k x] & -> & Hk%elem_of_map_to_list). by exists x.
  - intros [x Hx]. exists (s, x). split; [done|]. by apply elem_of_map_to_list.
Qed.

Lemma elem_of_parsed d f : f ∈ parsed (readdir d) <-> exists s, is_Some (d !! s) /\ Scan.parse_metadata_name s = Some f.
Proof.
  unfold parsed. rewrite list_elem_of_omap. split.
  - intros (s & Hs%elem_of_readdir & Hp). eauto.
  - intros (s & Hs & Hp). exists s. by rewrite elem_of_readdir.
Qed.

(** The latest version is determined by the metadata files alone. *)
Lemma latest_version_ext d d' a b :
  u32_ok a -> u32_ok b ->
  (forall s f, Scan.parse_metadata_name s = Some f -> is_Some (d !! s) <-> is_Some (d' !! s)) ->
  Scan.find_latest_segment_version (readdir d) a b = Scan.find_latest_segment_version (readdir d') a b.
Proof.
  intros Ha Hb He.
  assert (Hle : forall x y : directory,
    (forall s f, Scan.parse_metadata_name s = Some f -> is_Some (x !! s) -> is_Some (y !! s)) ->
    Scan.find_latest_segment_version (readdir x) a b <= Scan.find_latest_segment_version (readdir y) a b).
  { intros x y Hxy. destruct (find_latest_segment_version_max (readdir x) a b) as (_ & _ & Hx).
    destruct (find_latest_segment_version_max (readdir y) a b) as (Hy & Hy0 & _).
    destruct Hx as [->|(e & Hin & Hv)]; [done|]. apply (Hy e); [|done].
    apply elem_of_readdir. apply elem_of_readdir in Hin.
    exact (Hxy e _ (version_of_parse a b e _ Ha Hb Hv) Hin). }
  apply Z.le_antisymm; apply Hle; intros s f Hp; apply (He s f Hp).
Qed.

(** ** Well-formed flush requests *)

Record prep_ok (prep : SegFile.PrepareFlushMetaData) (offs : list SegmentOffsetRange) : Prop := {
  po_start : u32_ok (SegFile.start_sid prep);
  po_end : u32_ok (SegFile.end_sid prep);
  po_range : SegFile.start_sid prep <= SegFile.end_sid prep;
  po_rows : u32_ok (SegFile.valid_rows prep);
  po_deleted : u32_ok (SegFile.prep_delete_count prep);
  po_map : Forall tid_range (SegFile.prep_map prep);
  po_map_size : 8 * zlen (SegFile.prep_map prep) < 2 ^ 31;
  po_bitmap_size : zlen (SegFile.prep_bitmap prep) < 2 ^ 31;
  po_offsets : SegFile.prep_offsets prep = Some offs;
  po_offsets_len : zlen offs = SegFile.end_sid prep - SegFile.start_sid prep + 1;
  po_offsets_ok : Forall offset_range offs;
  po_offsets_size : 24 * zlen offs < 2 ^ 31 }.

Definition next_version (d : directory) (a b : Z) : Z :=
  Scan.find_latest_segment_version (readdir d) a b + 1.

(** No data file of version [v] is left from a flush that was interrupted. *)
Definition no_leftovers (d : directory) (a b v : Z) : Prop :=
  (forall t, t ∈ data_types -> forall i, u32_ok i -> d !! Path.chunk_path (Path.file_name t a b v) i = None) /\
  (forall s, is_Some (d !! s) -> strip_prefix (Scan.subversion_prefix a b v) s = None).

Lemma length_encode_mapping m : zlen (encode_mapping m) = 8 * zlen m.
Proof.
  unfold zlen, encode_mapping. rewrite (length_records _ 8); [lia|]. intros. apply length_le_bytes.
Qed.

Lemma length_encode_offsets l : zlen (encode_offsets l) = 24 * zlen l.
Proof.
  unfold zlen, encode_offsets. rewrite (length_records _ 24); [lia|]. intros. apply length_encode_offset.
Qed.

Definition keys_in (K : string -> Prop) (ops : list file_op) : Prop :=
  forall o, o ∈ ops -> forall s, s ∈ op_keys o -> K s.

Lemma run_ops_outside K d ops s : keys_in K ops -> ~ K s -> run_ops d ops !! s = d !! s.
Proof. intros Hk Hs. apply run_ops_other. intros o Ho Hin. by apply Hs, (Hk o Ho). Qed.

(** A file written in the middle of a longer sequence, none of the later
    operations touching its names. *)
Lemma read_in_sequence max_file path data dc ops d pre post d' :
  Chunk.write_segment_file max_file path data dc = Ok ops ->
  (forall d d', (forall i, u32_ok i -> d !! Path.chunk_path path i = None) ->
     (forall s, file_keys path s -> d' !! s = run_ops d ops !! s) ->
     Chunk.read_segment_file d' path (match dc with Some _ => true | None => false end) = Ok (data, dc)) ->
  (forall i, u32_ok i -> d !! Path.chunk_path path i = None) ->
  keys_in (fun s => ~ file_keys path s) pre -> keys_in (fun s => ~ file_keys path s) post ->
  (forall s, file_keys path s -> d' !! s = run_ops d (pre ++ ops ++ post) !! s) ->
  Chunk.read_segment_file d' path (match dc with Some _ => true | None => false end) = Ok (data, dc).
Proof.
  intros _ Hr Hf Hpre Hpost Hd'. apply (Hr (run_ops d pre)).
  - intros i Hi. rewrite (run_ops_outside _ _ _ _ Hpre); [by apply Hf|]. intros Hx. apply Hx. exists i. auto.
  - intros s Hs. rewrite Hd', !run_ops_app by done. rewrite (run_ops_outside _ _ _ _ Hpost); [done|]. intros Hx. by apply Hx.
Qed.

Lemma keys_in_app K l1 l2 : keys_in K l1 -> keys_in K l2 -> keys_in K (l1 ++ l2).
Proof. intros H1 H2 o [Ho|Ho]%elem_of_app; [by apply H1|by apply H2]. Qed.

Lemma keys_in_mono (K K' : string -> Prop) l : (forall s, K s -> K' s) -> keys_in K l -> keys_in K' l.
Proof. intros Hk H o Ho s Hs. by apply Hk, (H o Ho). Qed.

Lemma file_keys_disjoint t t' a b v s :
  t ∈ data_types -> t' ∈ data_types -> t <> t' -> u32_ok a -> u32_ok b -> u32_ok v ->
  owned t' a b v s -> ~ file_keys (Path.file_name t a b v) s.
Proof.
  intros Ht Ht' Hne Ha Hb Hv Ho Hf. apply Hne. apply file_keys_owned in Hf.
  eapply owned_inj; [by left|by left| | | | | | |exact Hf|exact Ho]; done.
Qed.

Definition flush_index_ops (prep : SegFile.PrepareFlushMetaData) (v : Z) : list file_op :=
  match SegFile.index_bin prep with
  | Some bin => [OpWrite (Path.GetLSMIndexFilePathWithVersion (SegFile.start_sid prep) (SegFile.end_sid prep) v) bin]
  | None => []
  end.

Lemma flush_index_keys prep v : keys_in (owned "index" (SegFile.start_sid prep) (SegFile.end_sid prep) v) (flush_index_ops prep v).
Proof.
  unfold flush_index_ops. destruct (SegFile.index_bin prep); [|by intros o ?%elem_of_nil].
  intros o ->%list_elem_of_singleton s ->%list_elem_of_singleton. apply owned_exact.
Qed.

Lemma next_version_ok d a b : next_version d a b < UINT32_MAX -> u32_ok (next_version d a b) /\ u32 (next_version d a b) = next_version d a b.
Proof.
  destruct (find_latest_segment_version_max (readdir d) a b) as (_ & H0 & _).
  unfold next_version, u32_ok, UINT32_MAX in *. intros. rewrite u32_small; lia.
Qed.

(** The operations of a flush: four files of data, then the metadata, whose
    final rename is the last operation. *)
Lemma flush_shape max_file d prep offs :
  4 < max_file -> prep_ok prep offs ->
  let a := SegFile.start_sid prep in let b := SegFile.end_sid prep in
  let v := next_version d a b in
  v < UINT32_MAX ->
  exists bops mops oops,
    SegFile.flush_segment_to_disk max_file d prep =
      Ok (flush_index_ops prep v ++ bops ++ mops ++ oops ++ SegFile.write_lsm_segment_metadata prep v) /\
    keys_in (file_keys (Path.file_name "bitmap" a b v)) bops /\
    keys_in (file_keys (Path.file_name "mapping" a b v)) mops /\
    keys_in (file_keys (Path.file_name "offset" a b v)) oops /\
    (no_leftovers d a b v -> forall post d', keys_in (owned "metadata.tmp" a b v) post ->
       (forall t s, t ∈ ["bitmap"; "mapping"; "offset"] -> file_keys (Path.file_name t a b v) s ->
          d' !! s = run_ops d (flush_index_ops prep v ++ bops ++ mops ++ oops ++ post) !! s) ->
       Chunk.read_segment_file d' (Path.GetLSMBitmapFilePathWithVersion a b v) true =
         Ok (SegFile.prep_bitmap prep, Some (SegFile.prep_delete_count prep)) /\
       Chunk.read_segment_file d' (Path.GetLSMMappingFilePathWithVersion a b v) false =
         Ok (encode_mapping (SegFile.prep_map prep), None) /\
       Chunk.read_segment_file d' (Path.GetLSMOffsetFilePathWithVersion a b v) false =
         Ok (encode_offsets offs, None)).
Proof.
  intros Hmax Hok a b v Hv. pose proof Hok as [Ha Hb Hab _ Hdel _ Hmsz Hbsz Hoffs Holen _ Hosz].
  fold a b in Ha, Hb, Hab, Holen. destruct (next_version_ok d a b Hv) as [Hv32 Hvu].
  destruct (write_then_read max_file (Path.file_name "bitmap" a b v) (SegFile.prep_bitmap prep)
              (Some (SegFile.prep_delete_count prep))) as (bops & Wb & Rb & Kb);
    [done|done|by intros c [= <-]|].
  destruct (write_then_read max_file (Path.file_name "mapping" a b v) (encode_mapping (SegFile.prep_map prep)) None)
    as (mops & Wm & Rm & Km); [done|by rewrite length_encode_mapping|done|].
  destruct (write_then_read max_file (Path.file_name "offset" a b v) (encode_offsets offs) None)
    as (oops & Wo & Ro & Ko); [done|by rewrite length_encode_offsets|done|].
  exists bops, mops, oops. split; [|do 3 (split; [done|])].
  { unfold SegFile.flush_segment_to_disk.
    assert (u32 (Scan.find_latest_segment_version (readdir d) (SegFile.start_sid prep) (SegFile.end_sid prep) + 1) = v)
      as -> by exact Hvu. fold a b.
    unfold Path.GetLSMBitmapFilePathWithVersion, Path.GetLSMMappingFilePathWithVersion. rewrite Wb. cbn [mbind res_bind].
    rewrite Wm. cbn [mbind res_bind]. rewrite Hoffs. unfold SegFile.write_offset_file.
    destruct (Z.ltb_spec b a); [lia|]. rewrite <-Holen. rewrite u32_small by lia.
    destruct (Z.ltb_spec (zlen offs) (zlen offs)); [lia|]. rewrite take_ge by (unfold zlen; lia).
    unfold Path.GetLSMOffsetFilePathWithVersion. rewrite Wo. done. }
  intros [Hleft _] post d' Kp Hd'. set (iops := flush_index_ops prep v) in *.
  assert (Ki : keys_in (owned "index" a b v) iops) by apply flush_index_keys.
  assert (Hk : forall t t' l, t ∈ data_types -> t' ∈ data_types -> t <> t' ->
            keys_in (owned t' a b v) l -> keys_in (fun s => ~ file_keys (Path.file_name t a b v) s) l).
  { intros t t' l Ht Ht' Hne. apply keys_in_mono. intros s. by apply file_keys_disjoint. }
  assert (Kb' : keys_in (owned "bitmap" a b v) bops) by (eapply keys_in_mono; [|exact Kb]; apply file_keys_owned).
  assert (Km' : keys_in (owned "mapping" a b v) mops) by (eapply keys_in_mono; [|exact Km]; apply file_keys_owned).
  assert (Ko' : keys_in (owned "offset" a b v) oops) by (eapply keys_in_mono; [|exact Ko]; apply file_keys_owned).
  assert (T : "index" ∈ data_types /\ "bitmap" ∈ data_types /\ "mapping" ∈ data_types /\ "offset" ∈ data_types
                /\ "metadata.tmp" ∈ data_types) by (in_types).
  destruct T as (Ti & Tb & Tm & To & Tt). split; [|split].
  - apply (read_in_sequence max_file _ _ (Some _) bops d iops (mops ++ oops ++ post)); [done|done|by apply Hleft| | |].
    + by apply (Hk "bitmap" "index").
    + repeat apply keys_in_app; [by apply (Hk "bitmap" "mapping")|by apply (Hk "bitmap" "offset")|by apply (Hk "bitmap" "metadata.tmp")].
    + intros s Hs. apply (Hd' "bitmap"); [in_types|done].
  - apply (read_in_sequence max_file _ _ None mops d (iops ++ bops) (oops ++ post)); [done|done|by apply Hleft| | |].
    + apply keys_in_app; [by apply (Hk "mapping" "index")|by apply (Hk "mapping" "bitmap")].
    + apply keys_in_app; [by apply (Hk "mapping" "offset")|by apply (Hk "mapping" "metadata.tmp")].
    + intros s Hs. rewrite <-app_assoc. apply (Hd' "mapping"); [in_types|done].
  - apply (read_in_sequence max_file _ _ None oops d (iops ++ bops ++ mops) post); [done|done|by apply Hleft| | |].
    + repeat apply keys_in_app; [by apply (Hk "offset" "index")|by apply (Hk "offset" "bitmap")|by apply (Hk "offset" "mapping")].
    + by apply (Hk "offset" "metadata.tmp").
    + intros s Hs. rewrite <-!app_assoc. apply (Hd' "offset"); [in_types|done].
Qed.

(** ** Flushing is atomic and loses nothing *)

Section flush.
Context (max_file : Z) (d : directory) (prep : SegFile.PrepareFlushMetaData) (offs : list SegmentOffsetRange).
Context (Hmax : 4 < max_file) (Hok : prep_ok prep offs).
Let a := SegFile.start_sid prep.
Let b := SegFile.end_sid prep.
Let v := next_version d a b.
Context (Hv : v < UINT32_MAX).

Lemma flush_uint : u32_ok a /\ u32_ok b /\ u32_ok v.
Proof. split; [apply Hok|]. split; [apply Hok|]. by apply next_version_ok. Qed.

(** Every operation before the last one touches only data files of the new version. *)
Lemma flush_prefix :
  exists pre, SegFile.flush_segment_to_disk max_file d prep =
      Ok (pre ++ [OpRename (Path.GetLSMSegmentMetadataTmpPathWithVersion a b v)
                           (Path.GetLSMSegmentMetadataPathWithVersion a b v)]) /\
    keys_in (data_key a b v) pre.
Proof.
  destruct (flush_shape max_file d prep offs Hmax Hok Hv) as (bops & mops & oops & -> & Kb & Km & Ko & _).
  fold a b v in Kb, Km, Ko |- *.
  exists (flush_index_ops prep v ++ bops ++ mops ++ oops ++
          [OpWrite (Path.GetLSMSegmentMetadataTmpPathWithVersion a b v) (SegFile.metadata_bytes prep)]).
  split; [by rewrite <-!app_assoc|].
  assert (Hd : forall t l, t ∈ data_types -> keys_in (owned t a b v) l -> keys_in (data_key a b v) l).
  { intros t l Ht. apply keys_in_mono. intros s Hs. by exists t. }
  assert (Hf : forall t l, t ∈ data_types -> keys_in (file_keys (Path.file_name t a b v)) l -> keys_in (data_key a b v) l).
  { intros t l Ht Hl. apply (Hd t l Ht). eapply keys_in_mono; [|exact Hl]. apply file_keys_owned. }
  repeat apply keys_in_app.
  - apply (Hd "index"); [in_types|]. apply flush_index_keys.
  - apply (Hf "bitmap"); [in_types|done].
  - apply (Hf "mapping"); [in_types|done].
  - apply (Hf "offset"); [in_types|done].
  - apply (Hd "metadata.tmp"); [in_types|].
    intros o ->%list_elem_of_singleton s ->%list_elem_of_singleton. apply owned_exact.
Qed.

End flush.

Lemma keys_in_take K n ops : keys_in K ops -> keys_in K (take n ops).
Proof.
  intros H o Ho. apply H. rewrite <-(take_drop n ops). apply elem_of_app. by left.
Qed.

(** Directories that agree on metadata names scan alike. *)
Section same_metadata.
Context (d d' : directory) (Hmeta : forall s f, Scan.parse_metadata_name s = Some f -> d' !! s = d !! s).

Lemma parsed_same f : f ∈ parsed (readdir d') <-> f ∈ parsed (readdir d).
Proof.
  rewrite !elem_of_parsed. split; intros (s & Hs & Hf); exists s; (split; [|done]);
    [by rewrite <-(Hmeta s f)|by rewrite (Hmeta s f)].
Qed.

Lemma fits_same : fits (readdir d) -> fits (readdir d').
Proof.
  unfold fits, zlen. intros Hfits. etrans; [|exact Hfits].
  apply inj_le, submseteq_length, NoDup_submseteq; [apply NoDup_remove_dups|].
  intros x Hx. rewrite elem_of_remove_dups in Hx |- *. apply list_elem_of_fmap in Hx as (f & -> & Hf).
  apply list_elem_of_fmap_2. by apply parsed_same.
Qed.

Lemma scan_same n :
  fits (readdir d) -> Scan.scan_segment_metadata_files (readdir d') n = Scan.scan_segment_metadata_files (readdir d) n.
Proof. intros Hfits. apply scan_set; [by apply fits_same|done|exact parsed_same]. Qed.
End same_metadata.

(** C16: a flush that stops anywhere before its last operation (a crash or an
    [elog(ERROR)] in between) has touched nothing but data files of the new,
    uncommitted version: the directory scan, the latest version of every range
    and the metadata of every version are exactly those from before the flush. *)
Theorem interrupted_flush_is_invisible max_file d prep offs ops k :
  4 < max_file -> prep_ok prep offs ->
  next_version d (SegFile.start_sid prep) (SegFile.end_sid prep) < UINT32_MAX ->
  fits (readdir d) ->
  SegFile.flush_segment_to_disk max_file d prep = Ok ops -> (k < length ops)%nat ->
  let d' := run_ops d (take k ops) in
  (forall s, ~ data_key (SegFile.start_sid prep) (SegFile.end_sid prep)
               (next_version d (SegFile.start_sid prep) (SegFile.end_sid prep)) s -> d' !! s = d !! s) /\
  (forall n, Scan.scan_segment_metadata_files (readdir d') n = Scan.scan_segment_metadata_files (readdir d) n) /\
  (forall x y w, u32_ok x -> u32_ok y -> u32_ok w ->
     Scan.find_latest_segment_version (readdir d') x y = Scan.find_latest_segment_version (readdir d) x y /\
     SegFile.read_lsm_segment_metadata d' x y w = SegFile.read_lsm_segment_metadata d x y w).
Proof.
  intros Hmax Hok Hv Hfits Hops Hk d'. destruct (flush_uint d prep offs Hok Hv) as (Ha & Hb & Hv32).
  set (a := SegFile.start_sid prep) in *. set (b := SegFile.end_sid prep) in *. set (v := next_version d a b) in *.
  destruct (flush_prefix max_file d prep offs Hmax Hok Hv) as (pre & Hp & Hpre). fold a b v in Hp, Hpre.
  rewrite Hops in Hp. injection Hp as ->. rewrite length_app in Hk. cbn in Hk.
  assert (Hsame : forall s, ~ data_key a b v s -> d' !! s = d !! s).
  { intros s Hs. subst d'. rewrite take_app_le by lia. by apply (run_ops_outside (data_key a b v)), Hs; apply keys_in_take. }
  assert (Hmeta : forall s f, Scan.parse_metadata_name s = Some f -> d' !! s = d !! s).
  { intros s f Hf. apply Hsame. intros Hx%data_key_unparsed. congruence. }
  assert (Hparsed : forall f, f ∈ parsed (readdir d') <-> f ∈ parsed (readdir d)).
  { intros f. rewrite !elem_of_parsed. split; intros (s & Hs & Hf); exists s; (split; [|done]);
      [by rewrite <-(Hmeta s f)|by rewrite (Hmeta s f)]. }
  assert (Hlat : forall x y, u32_ok x -> u32_ok y ->
    Scan.find_latest_segment_version (readdir d') x y = Scan.find_latest_segment_version (readdir d) x y).
  { intros x y Hx Hy. apply latest_version_ext; [done|done|]. intros s f Hf. by rewrite (Hmeta s f Hf). }
  split; [exact Hsame|]. split.
  - intros n. by apply scan_same.
  - intros x y w Hx Hy Hw. split; [by apply Hlat|]. unfold SegFile.read_lsm_segment_metadata.
    assert (Hrv : SegFile.resolve_version d' x y w = SegFile.resolve_version d x y w).
    { unfold SegFile.resolve_version. destruct (w =? UINT32_MAX); [|done]. by apply Hlat. }
    rewrite Hrv. set (w' := SegFile.resolve_version d x y w).
    rewrite Hsame; [done|]. intros Hdk. apply data_key_unparsed in Hdk.
    rewrite metadata_path_split, parse_version_prefix in Hdk by done. done.
Qed.

(** What [load_and_set_segment] must produce from a flush request. *)
Definition loaded_segment (prep : SegFile.PrepareFlushMetaData) (offs : list SegmentOffsetRange)
    (index : option Z) (v : Z) (use_mmap : bool) (segment : FlushedSegmentData) : FlushedSegmentData :=
  segment <| segment_id_start := SegFile.start_sid prep |> <| segment_id_end := SegFile.end_sid prep |>
    <| vec_count := SegFile.valid_rows prep |> <| SegmentPool.index_type := SegFile.prep_index_type prep |>
    <| index_ptr := index |> <| bitmap_ptr := Some (SegFile.prep_bitmap prep) |>
    <| map_ptr := Some (SegFile.prep_map prep) |> <| offsets := Some offs |> <| offsets_count := zlen offs |>
    <| in_used := true |> <| SegmentPool.delete_count := SegFile.prep_delete_count prep |>
    <| SegmentPool.version := v |> <| is_compacting := false |>
    <| load_state := if use_mmap then SEG_MMAP_LOADED else SEG_FULLY_LOADED |>.

Lemma no_subversion entries a b v :
  (forall e, e ∈ entries -> strip_prefix (Scan.subversion_prefix a b v) e = None) ->
  Scan.find_latest_bitmap_subversion entries a b v = UINT32_MAX.
Proof.
  unfold Scan.find_latest_bitmap_subversion. intros H.
  induction entries as [|e entries IH]; [done|]. cbn [foldl].
  unfold Scan.version_of. rewrite (H e ltac:(left)). cbn [fmap option_fmap option_map].
  apply IH. intros; apply H. by right.
Qed.

Lemma metadata_roundtrip prep offs :
  prep_ok prep offs ->
  let m := SegFile.metadata_bytes prep in
  zlen m = 16 /\ le_value (take 4 m) = SegFile.start_sid prep /\ le_value (take 4 (drop 4 m)) = SegFile.end_sid prep /\
  le_value (take 4 (drop 8 m)) = SegFile.valid_rows prep /\
  index_type_of_code (le_value (take 4 (drop 12 m))) = SegFile.prep_index_type prep.
Proof.
  intros [Ha Hb _ Hr _ _ _ _ _ _ _ _]. unfold SegFile.metadata_bytes. cbn zeta.
  assert (Hl : forall z, length (le_bytes 4 z) = 4%nat) by (intros; apply length_le_bytes).
  set (x := le_bytes 4 (SegFile.start_sid prep)). set (y := le_bytes 4 (SegFile.end_sid prep)).
  set (z := le_bytes 4 (SegFile.valid_rows prep)). set (t := le_bytes 4 (index_type_code _)).
  assert (length x = 4%nat /\ length y = 4%nat /\ length z = 4%nat /\ length t = 4%nat) as (Lx & Ly & Lz & Lt) by auto.
  split; [unfold zlen; rewrite !length_app; lia|].
  assert (D4 : drop 4 (x ++ y ++ z ++ t) = y ++ z ++ t) by (by rewrite drop_app_length').
  assert (D8 : drop 8 (x ++ y ++ z ++ t) = z ++ t) by (rewrite app_assoc; by rewrite drop_app_length' by (rewrite length_app; lia)).
  assert (D12 : drop 12 (x ++ y ++ z ++ t) = t).
  { rewrite !app_assoc. by rewrite drop_app_length' by (rewrite !length_app; lia). }
  rewrite D4, D8, D12. rewrite !take_app_length' by done. rewrite take_ge by lia.
  subst x y z t. rewrite !le_value_u32 by done.
  rewrite le_value_u32 by by destruct (SegFile.prep_index_type prep). by rewrite index_type_roundtrip.
Qed.

Lemma run_ops_key K d ops s : keys_in K ops -> is_Some (run_ops d ops !! s) -> is_Some (d !! s) \/ K s.
Proof.
  intros Hk. revert d; induction ops as [|o ops IH]; intros d Hs; [by left|].
  destruct (IH (fun o' Ho => Hk o' ltac:(by right)) (run_op d o)) as [Hd|]; [exact Hs| |by right].
  destruct (decide (s ∈ op_keys o)) as [Hin|Hout]; [right; by apply (Hk o ltac:(left))|].
  left. by rewrite run_op_other in Hd.
Qed.

Lemma latest_after_flush d d' a b v :
  u32_ok a -> u32_ok b -> u32_ok v -> v = next_version d a b ->
  is_Some (d' !! Path.GetLSMSegmentMetadataPathWithVersion a b v) ->
  (forall s, is_Some (d' !! s) ->
     is_Some (d !! s) \/ data_key a b v s \/ s = Path.GetLSMSegmentMetadataPathWithVersion a b v) ->
  Scan.find_latest_segment_version (readdir d') a b = v.
Proof.
  intros Ha Hb Hv Hvn Hm Hkeys.
  destruct (find_latest_segment_version_max (readdir d') a b) as (Hmax & _ & Hex).
  destruct (find_latest_segment_version_max (readdir d) a b) as (Hmax0 & H0 & _).
  assert (Hself : Scan.version_of (Scan.version_prefix a b) (Path.GetLSMSegmentMetadataPathWithVersion a b v) = Some v).
  { rewrite version_of_metadata by done. by rewrite decide_True. }
  apply Z.le_antisymm.
  - destruct Hex as [->|(e & He & Hver)]; [unfold u32_ok in Hv; lia|]. apply elem_of_readdir in He.
    destruct (Hkeys e He) as [Hd|[Hk| ->]].
    + specialize (Hmax0 e _ (proj2 (elem_of_readdir d e) Hd) Hver). unfold next_version in Hvn. lia.
    + by rewrite (data_key_no_version _ _ _ _ _ _ Ha Hb Hk) in Hver.
    + rewrite Hself in Hver. injection Hver as <-. lia.
  - apply (Hmax _ _ (proj2 (elem_of_readdir d' _) Hm) Hself).
Qed.

Lemma flush_rest_not_index a b v x y bops mops oops :
  u32_ok a -> u32_ok b -> u32_ok v ->
  keys_in (file_keys (Path.file_name "bitmap" a b v)) bops ->
  keys_in (file_keys (Path.file_name "mapping" a b v)) mops ->
  keys_in (file_keys (Path.file_name "offset" a b v)) oops ->
  x = Path.GetLSMSegmentMetadataTmpPathWithVersion a b v ->
  keys_in (fun s => ~ owned "index" a b v s) (bops ++ mops ++ oops ++ [OpWrite x y]).
Proof.
  intros Ha Hb Hv Kb Km Ko Hx.
  assert (Hf : forall t l, t ∈ ["bitmap"; "mapping"; "offset"] -> keys_in (file_keys (Path.file_name t a b v)) l ->
             keys_in (fun s => ~ owned "index" a b v s) l).
  { intros t l Ht. apply keys_in_mono. intros s Hs Ho.
    eapply (file_keys_disjoint t "index"); [| | | | | |exact Ho|exact Hs];
      [in_types|in_types|intros ->; in_types|done..]. }
  repeat apply keys_in_app.
  - apply (Hf "bitmap"); [in_types|done].
  - apply (Hf "mapping"); [in_types|done].
  - apply (Hf "offset"); [in_types|done].
  - intros o ->%list_elem_of_singleton s ->%list_elem_of_singleton Ho. subst x.
    assert ("index" = "metadata.tmp") as Hbad; [|done].
    eapply (owned_inj _ _ a a b b v v); [| | | | | | | |exact Ho|apply owned_exact];
      [left; in_types|left; in_types|done..].
Qed.

(** The directory after a completed flush, from the pieces [flush_shape] gives. *)
Section flushed.
Context (d : directory) (prep : SegFile.PrepareFlushMetaData) (offs : list SegmentOffsetRange) (Hok : prep_ok prep offs).
Let a := SegFile.start_sid prep.
Let b := SegFile.end_sid prep.
Let v := next_version d a b.
Context (Hv : v < UINT32_MAX) (bops mops oops : list file_op).
Context (Kb : keys_in (file_keys (Path.file_name "bitmap" a b v)) bops).
Context (Km : keys_in (file_keys (Path.file_name "mapping" a b v)) mops).
Context (Ko : keys_in (file_keys (Path.file_name "offset" a b v)) oops).
Let tmp := Path.GetLSMSegmentMetadataTmpPathWithVersion a b v.
Let meta := Path.GetLSMSegmentMetadataPathWithVersion a b v.

Definition data_ops : list file_op :=
  flush_index_ops prep v ++ bops ++ mops ++ oops ++ [OpWrite tmp (SegFile.metadata_bytes prep)].
Let d' := run_ops d (data_ops ++ [OpRename tmp meta]).

Lemma flushed_uint : u32_ok a /\ u32_ok b /\ u32_ok v.
Proof. apply (flush_uint d prep offs Hok Hv). Qed.

Lemma data_ops_keys : keys_in (data_key a b v) data_ops.
Proof.
  assert (Hd : forall t l, t ∈ data_types -> keys_in (owned t a b v) l -> keys_in (data_key a b v) l).
  { intros t l Ht. apply keys_in_mono. intros s Hs. by exists t. }
  assert (Hf : forall t l, t ∈ data_types -> keys_in (file_keys (Path.file_name t a b v)) l -> keys_in (data_key a b v) l).
  { intros t l Ht Hl. apply (Hd t l Ht). eapply keys_in_mono; [|exact Hl]. apply file_keys_owned. }
  repeat apply keys_in_app; [apply (Hd "index")|apply (Hf "bitmap")|apply (Hf "mapping")|apply (Hf "offset")|apply (Hd "metadata.tmp")];
    try done; try in_types; [apply flush_index_keys|].
  intros o ->%list_elem_of_singleton s ->%list_elem_of_singleton. apply owned_exact.
Qed.

Lemma flushed_run : d' = run_op (run_ops d data_ops) (OpRename tmp meta) /\
  run_ops d data_ops !! tmp = Some (SegFile.metadata_bytes prep).
Proof.
  split; [apply run_ops_snoc|]. unfold data_ops. rewrite !app_assoc, run_ops_snoc. apply lookup_insert_eq.
Qed.

Lemma flushed_meta : d' !! meta = Some (SegFile.metadata_bytes prep).
Proof. destruct flushed_run as [-> Ht]. unfold run_op. rewrite Ht. apply lookup_insert_eq. Qed.

Lemma flushed_other s : s <> tmp -> s <> meta -> d' !! s = run_ops d data_ops !! s.
Proof. intros H1 H2. destruct flushed_run as [-> _]. apply run_op_other. unfold op_keys. set_solver. Qed.

Lemma owned_not_meta t s : t ∈ data_types -> owned t a b v s -> s <> meta.
Proof.
  intros Ht Ho ->. destruct flushed_uint as (Ha & Hb & Hv32). assert (t = "metadata") as ->; [|in_types].
  eapply (owned_inj t "metadata" a a b b v v meta); try done; [by left|by right|apply owned_exact].
Qed.

Lemma owned_not_tmp t s : t ∈ ["index"; "bitmap"; "mapping"; "offset"] -> owned t a b v s -> s <> tmp.
Proof.
  intros Ht Ho ->. destruct flushed_uint as (Ha & Hb & Hv32). assert (t = "metadata.tmp") as ->; [|in_types].
  eapply (owned_inj t "metadata.tmp" a a b b v v tmp); try done; [left; in_types|left; in_types|apply owned_exact].
Qed.

Lemma flushed_keys s : is_Some (d' !! s) -> is_Some (d !! s) \/ data_key a b v s \/ s = meta.
Proof.
  intros Hs. destruct (decide (s = meta)) as [|Hsm]; [tauto|]. destruct (decide (s = tmp)) as [->|Hst].
  - right. left. exists "metadata.tmp". split; [in_types|apply owned_exact].
  - rewrite flushed_other in Hs by done. destruct (run_ops_key _ d data_ops s data_ops_keys Hs); tauto.
Qed.

Lemma flushed_latest : Scan.find_latest_segment_version (readdir d') a b = v.
Proof.
  destruct flushed_uint as (Ha & Hb & Hv32).
  apply (latest_after_flush d d' a b v); [done|done|done|done|eexists; exact flushed_meta|].
  intros s Hs. destruct (flushed_keys s Hs) as [Hd|[Hk|Hm]]; [by left|right; left; exact Hk|right; right; exact Hm].
Qed.

Lemma flushed_no_subversion : no_leftovers d a b v -> Scan.find_latest_bitmap_subversion (readdir d') a b v = UINT32_MAX.
Proof.
  intros Hleft. destruct flushed_uint as (Ha & Hb & Hv32).
  apply no_subversion. intros e He%elem_of_readdir. destruct (flushed_keys e He) as [Hd|[(t & Ht & Ho)| ->]].
  - by apply Hleft.
  - by eapply subversion_not_owned; [left|..|exact Ho].
  - eapply (subversion_not_owned _ _ _ "metadata"); [by right|..|apply owned_exact]; done.
Qed.

Lemma flushed_index bin : SegFile.index_bin prep = Some bin -> d' !! Path.GetLSMIndexFilePathWithVersion a b v = Some bin.
Proof.
  intros Hbin. destruct flushed_uint as (Ha & Hb & Hv32).
  assert (Ho : owned "index" a b v (Path.GetLSMIndexFilePathWithVersion a b v)) by apply owned_exact.
  rewrite flushed_other; [|apply (owned_not_tmp "index"); [in_types|done]|apply (owned_not_meta "index"); [in_types|done]].
  unfold data_ops. rewrite run_ops_app.
  rewrite (run_ops_outside (fun s => ~ owned "index" a b v s)); [|by apply flush_rest_not_index|by intros Hx; apply Hx].
  unfold flush_index_ops. rewrite Hbin. apply lookup_insert_eq.
Qed.
End flushed.

(** A completed flush in one statement: it commits version [v], and with no
    leftovers its files read back. *)
Lemma flush_completes max_file d prep offs :
  4 < max_file -> prep_ok prep offs ->
  let a := SegFile.start_sid prep in let b := SegFile.end_sid prep in let v := next_version d a b in
  v < UINT32_MAX ->
  exists ops, SegFile.flush_segment_to_disk max_file d prep = Ok ops /\ let d' := run_ops d ops in
    d' !! Path.GetLSMSegmentMetadataPathWithVersion a b v = Some (SegFile.metadata_bytes prep) /\
    Scan.find_latest_segment_version (readdir d') a b = v /\
    (forall bin, SegFile.index_bin prep = Some bin -> d' !! Path.GetLSMIndexFilePathWithVersion a b v = Some bin) /\
    (no_leftovers d a b v ->
       SegFile.bitmap_path d' a b v = Path.GetLSMBitmapFilePathWithVersion a b v /\
       Chunk.read_segment_file d' (Path.GetLSMBitmapFilePathWithVersion a b v) true =
         Ok (SegFile.prep_bitmap prep, Some (SegFile.prep_delete_count prep)) /\
       Chunk.read_segment_file d' (Path.GetLSMMappingFilePathWithVersion a b v) false =
         Ok (encode_mapping (SegFile.prep_map prep), None) /\
       Chunk.read_segment_file d' (Path.GetLSMOffsetFilePathWithVersion a b v) false = Ok (encode_offsets offs, None)).
Proof.
  intros Hmax Hok a b v Hv.
  destruct (flush_shape max_file d prep offs Hmax Hok Hv) as (bops & mops & oops & -> & Kb & Km & Ko & Hread).
  fold a b v in Kb, Km, Ko, Hread |- *. eexists; split; [done|]. cbn zeta.
  assert (Hops : flush_index_ops prep v ++ bops ++ mops ++ oops ++ SegFile.write_lsm_segment_metadata prep v =
    data_ops d prep bops mops oops ++ [OpRename (Path.GetLSMSegmentMetadataTmpPathWithVersion a b v)
                                                (Path.GetLSMSegmentMetadataPathWithVersion a b v)]).
  { unfold data_ops. by rewrite <-!app_assoc. }
  rewrite Hops. split; [apply flushed_meta|]. split; [by eapply flushed_latest|].
  split; [by eapply flushed_index|]. intros Hleft. split.
  { unfold SegFile.bitmap_path. erewrite flushed_no_subversion by done.
    unfold Path.GetLSMBitmapFilePathWithSubversion. by rewrite Z.eqb_refl. }
  apply (Hread Hleft [OpWrite (Path.GetLSMSegmentMetadataTmpPathWithVersion a b v) (SegFile.metadata_bytes prep)]).
  - intros o ->%list_elem_of_singleton s ->%list_elem_of_singleton. apply owned_exact.
  - intros t s Ht Hs%file_keys_owned. change (flush_index_ops prep v ++ _) with (data_ops d prep bops mops oops).
    eapply flushed_other; [done..| |].
    + eapply (owned_not_tmp d prep offs Hok Hv t); [in_types|done].
    + eapply (owned_not_meta d prep offs Hok Hv t); [in_types|done].
Qed.

(** C1: after a completed flush, loading the segment (by its new version or by
    "latest") gives back exactly the flushed rows: the same id range, row
    count, index type and serialised index, deletion bitmap and count, tuple-id
    mapping and per-id offsets, under a version one above every older one; the
    chunking of large files is invisible. *)
Theorem flush_then_load load max_file d prep offs segment use_mmap version :
  4 < max_file -> prep_ok prep offs ->
  let a := SegFile.start_sid prep in let b := SegFile.end_sid prep in let v := next_version d a b in
  v < UINT32_MAX -> no_leftovers d a b v -> version = v \/ version = UINT32_MAX ->
  exists ops, SegFile.flush_segment_to_disk max_file d prep = Ok ops /\
    let d' := run_ops d ops in
    exists index, (forall bin, SegFile.index_bin prep = Some bin -> index = load (Some bin) (SegFile.prep_index_type prep) use_mmap) /\
    SegFile.load_and_set_segment load d' segment a b version use_mmap =
      Ok (loaded_segment prep offs index v use_mmap segment).
Proof.
  intros Hmax Hok a b v Hv Hleft Hver. destruct (flush_completes max_file d prep offs Hmax Hok Hv) as (ops & -> & Hmeta & Hlat & Hidx & Hread).
  fold a b v in Hmeta, Hlat, Hidx, Hread. destruct (Hread Hleft) as (Hbp & Rb & Rm & Ro).
  eexists; split; [done|]. cbn zeta. set (d' := run_ops d ops) in *.
  exists (load (d' !! Path.GetLSMIndexFilePathWithVersion a b v) (SegFile.prep_index_type prep) use_mmap).
  split; [intros bin Hbin; by rewrite (Hidx bin Hbin)|].
  assert (Hrv : SegFile.resolve_version d' a b version = v /\ SegFile.resolve_version d' a b v = v).
  { unfold SegFile.resolve_version. destruct (Z.eqb_spec v UINT32_MAX); [lia|]. split; [|done].
    destruct Hver as [->| ->]; [by destruct (Z.eqb_spec v UINT32_MAX)|by rewrite Z.eqb_refl]. }
  destruct Hrv as [Hrv Hrvv]. destruct (metadata_roundtrip prep offs Hok) as (M0 & M1 & M2 & M3 & M4).
  unfold SegFile.load_and_set_segment. rewrite Hrv.
  unfold SegFile.read_lsm_segment_metadata. rewrite Hrvv, Hmeta. cbn [mbind option_bind].
  rewrite M0. cbn [Z.ltb Z.compare Pos.compare Pos.compare_cont]. rewrite M1, M2, M3, M4.
  unfold SegFile.load_bitmap_file, SegFile.load_mapping_file, SegFile.load_offset_file, SegFile.load_index_file.
  rewrite !Hrvv, Hbp, Rb. cbn [mbind res_bind]. rewrite Rm. cbn [mbind res_bind fst].
  destruct (Z.ltb_spec b a) as [Hlt|_]; [pose proof (po_range _ _ Hok); lia|]. rewrite Ro. cbn [mbind res_bind fst snd of_option].
  rewrite decode_encode_mapping by apply Hok. rewrite decode_encode_offsets by apply Hok.
  unfold loaded_segment. rewrite (po_offsets_len _ _ Hok). fold a b.
  rewrite u32_small; [done|]. assert (a <= b) by apply Hok. assert (zlen offs = b - a + 1) by apply Hok.
  assert (24 * zlen offs < 2 ^ 31) by apply Hok. lia.
Qed.

(** A flush of rows 11, 12 (segment 3) and 13 (segment 4) into a directory that
    already holds version 1 of the range; 8-byte files make the mapping span
    several of them. *)
Definition example_offsets : list SegmentOffsetRange := [mkOffsetRange 3 0 2; mkOffsetRange 4 2 3].
Definition example_prep : SegFile.PrepareFlushMetaData :=
  SegFile.mkPrep 3 4 3 [11; 12; 13] [2] 1 (Some [7; 8; 9]) HNSW (Some example_offsets).
Definition free_segment : FlushedSegmentData :=
  mkSegment false 0 0 0 None FLAT None None NIL NIL 0 SEG_NOT_LOADED 0 false 0 None 0.
Definition example_dir : directory :=
  {[ Path.GetLSMSegmentMetadataPathWithVersion 3 4 1 := SegFile.metadata_bytes example_prep ]}.
Lemma example_prep_ok : prep_ok example_prep example_offsets.
Proof.
  split; unfold u32_ok, zlen; cbn; try lia; try reflexivity.
  - repeat (constructor; [unfold tid_range; lia|]). constructor.
  - repeat (constructor; [unfold offset_range; unfold u32_ok; cbn; lia|]). constructor.
Qed.

Lemma interrupted_flush_is_invisible_witness :
  exists ops, SegFile.flush_segment_to_disk 8 example_dir example_prep = Ok ops /\ length ops = 23%nat /\
  forall n, Scan.scan_segment_metadata_files (readdir (run_ops example_dir (take 5 ops))) n =
            Scan.scan_segment_metadata_files (readdir example_dir) n.
Proof.
  destruct (SegFile.flush_segment_to_disk 8 example_dir example_prep) as [ops|e] eqn:E;
    [|vm_compute in E; discriminate].
  exists ops. split; [reflexivity|].
  assert (Hl : length ops = 23%nat) by (vm_compute in E; injection E as <-; reflexivity).
  split; [exact Hl|].
  destruct (interrupted_flush_is_invisible 8 example_dir example_prep example_offsets ops 5) as (_ & H & _).
  - reflexivity.
  - apply example_prep_ok.
  - vm_compute. reflexivity.
  - vm_compute. discriminate.
  - exact E.
  - rewrite Hl. lia.
  - exact H.
Defined.

Lemma example_no_leftovers : no_leftovers example_dir 3 4 2.
Proof.
  assert (Hin : forall s, is_Some (example_dir !! s) -> s = Path.GetLSMSegmentMetadataPathWithVersion 3 4 1).
  { intros s [x Hx]. unfold example_dir in Hx. by apply lookup_singleton_Some in Hx as [<- _]. }
  split.
  - intros t Ht i Hi. destruct (example_dir !! _) eqn:E; [|done]. exfalso.
    assert (Ho : owned t 3 4 2 (Path.chunk_path (Path.file_name t 3 4 2) i)) by (apply file_keys_owned; exists i; auto).
    rewrite (Hin _ ltac:(by eexists)) in Ho.
    eapply (owned_inj t "metadata") in Ho; [|by left|by right|..|apply owned_exact]; try done. lia.
  - intros s Hs. rewrite (Hin s Hs). vm_compute. reflexivity.
Qed.

Lemma flush_then_load_witness :
  exists ops d', SegFile.flush_segment_to_disk 8 example_dir example_prep = Ok ops /\ d' = run_ops example_dir ops /\
  SegFile.load_and_set_segment (fun f _ _ => zlen <$> f) d' free_segment 3 4 UINT32_MAX false =
    Ok (loaded_segment example_prep example_offsets (Some 3) 2 false free_segment).
Proof.
  destruct (flush_then_load (fun f _ _ => zlen <$> f) 8 example_dir example_prep example_offsets
              free_segment false UINT32_MAX) as (ops & Hops & index & Hix & Hl).
  - reflexivity.
  - apply example_prep_ok.
  - vm_compute. reflexivity.
  - exact example_no_leftovers.
  - right. reflexivity.
  - exists ops, (run_ops example_dir ops). split; [exact Hops|]. split; [reflexivity|].
    rewrite (Hix [7; 8; 9] eq_refl) in Hl. exact Hl.
Defined.

(** ** An interrupted bitmap update *)

(** The subversion scan returns the greatest number when no entry carries the
    sentinel. *)
Lemma latest_subversion entries a b v sv :
  sv < UINT32_MAX ->
  (forall e w, e ∈ entries -> Scan.version_of (Scan.subversion_prefix a b v) e = Some w -> w <= sv) ->
  (exists e, e ∈ entries /\ Scan.version_of (Scan.subversion_prefix a b v) e = Some sv) ->
  Scan.find_latest_bitmap_subversion entries a b v = sv.
Proof.
  intros Hsv Hle Hex. unfold Scan.find_latest_bitmap_subversion.
  set (f := fun m e => _).
  assert (Hacc : forall l m, (forall e w, e ∈ l -> Scan.version_of (Scan.subversion_prefix a b v) e = Some w -> w <= sv) ->
    m = sv \/ (m = UINT32_MAX \/ m <= sv) /\
      (exists e, e ∈ l /\ Scan.version_of (Scan.subversion_prefix a b v) e = Some sv) ->
    foldl f m l = sv).
  { intros l; induction l as [|e l IH]; intros m Hl Hm.
    - destruct Hm as [|(_ & e & He & _)]; [done|]. by apply elem_of_nil in He.
    - cbn. assert (Hl' : forall e' w, e' ∈ l -> Scan.version_of (Scan.subversion_prefix a b v) e' = Some w -> w <= sv)
        by (intros e' w He'; apply Hl; by right).
      pose proof (fun w => Hl e w ltac:(left)) as He. apply IH; [done|]. unfold f.
      destruct (Scan.version_of _ e) as [w|] eqn:Ew.
      + specialize (He w eq_refl).
        destruct Hm as [->|(Hm & e' & He' & Hv)].
        * left. destruct (Z.eqb_spec sv UINT32_MAX), (Z.ltb_spec sv w); cbn; lia.
        * destruct (Z.eq_dec w sv) as [->|Hw].
          { left. destruct (Z.eqb_spec m UINT32_MAX), (Z.ltb_spec m sv); cbn; lia. }
          right. split; [destruct (Z.eqb_spec m UINT32_MAX), (Z.ltb_spec m w); cbn; lia|].
          apply elem_of_cons in He' as [->|He']; [congruence|]. eauto.
      + destruct Hm as [->|(Hm & e' & He' & Hv)]; [by left|].
        right. split; [done|]. apply elem_of_cons in He' as [->|He']; [congruence|]. eauto. }
  apply Hacc; [done|]. right. split; [by left|done].
Qed.

Definition is_write (o : file_op) : Prop := match o with OpWrite _ _ => True | OpRename _ _ => False end.

Lemma write_prefix max_file path data dc ops k :
  4 < max_file -> Chunk.write_segment_file max_file path data (Some dc) = Ok ops ->
  (0 < k)%nat -> Forall is_write (take k ops) ->
  exists c, OpWrite (Path.tmp_path path 0) c ∈ take k ops /\
    forall o, o ∈ take k ops -> exists i b, 0 <= i /\ o = OpWrite (Path.tmp_path path i) b.
Proof.
  intros Hmax Hw Hk Hall. destruct (write_segment_file_spec max_file path data (Some dc) Hmax) as (cs & Hcs & _ & _ & Hh).
  rewrite Hcs in Hw. injection Hw as <-. destruct (Hh ltac:(done)) as (c0 & cs' & ->).
  eexists. split.
  - destruct k as [|k]; [lia|]. left.
  - intros o Ho. rewrite Forall_forall in Hall. specialize (Hall o Ho).
    pose proof (subseteq_take k _ o Ho) as [Ho'|Ho']%elem_of_app.
    + apply in_chunk_writes in Ho' as (i & b & Hi & ->). exists i, b. split; [lia|done].
    + apply in_renames in Ho' as (i & _ & ->). done.
Qed.

(** A vacuum that is interrupted after starting to write the next
    subversion of a bitmap and before renaming its first file loses the
    bitmap: the temporary file's name already matches the scan for the latest
    subversion, so a later load reads the file that does not exist yet and
    gets an empty bitmap and no delete count, whatever complete bitmap of the
    version is on disk. *)
Theorem interrupted_bitmap_update_loses_bitmap max_file d a b v sv bitmap dc ops k :
  4 < max_file -> u32_ok a -> u32_ok b -> u32_ok v -> v < UINT32_MAX -> u32_ok sv -> sv < UINT32_MAX ->
  (forall e w, is_Some (d !! e) -> Scan.version_of (Scan.subversion_prefix a b v) e = Some w -> w < sv) ->
  SegFile.write_bitmap_file_with_subversion max_file a b v sv bitmap dc = Ok ops ->
  (0 < k)%nat -> Forall is_write (take k ops) ->
  SegFile.load_bitmap_file (run_ops d (take k ops)) a b v = Ok ([], None).
Proof.
  intros Hmax Ha Hb Hv Hv' Hsv Hsv' Hold Hops Hk Hall. unfold SegFile.write_bitmap_file_with_subversion in Hops.
  set (path := Path.GetLSMBitmapFilePathWithSubversion a b v sv) in *.
  assert (Hpath : path = (Scan.subversion_prefix a b v +:+ print_u32 sv)%string).
  { subst path. unfold Path.GetLSMBitmapFilePathWithSubversion. destruct (Z.eqb_spec sv UINT32_MAX); [lia|].
    unfold Scan.subversion_prefix. by rewrite !append_assoc. }
  assert (Hver : forall r, stops r -> Scan.version_of (Scan.subversion_prefix a b v) (path +:+ r)%string = Some sv).
  { intros r Hr. unfold Scan.version_of. rewrite Hpath, append_assoc, strip_prefix_app.
    change (Some (atoi_u32 (print_u32 sv +:+ r)%string) = Some sv). by rewrite atoi_print. }
  destruct (write_prefix max_file path bitmap dc ops k Hmax Hops Hk Hall) as (c & Hc & Htmp).
  set (d' := run_ops d (take k ops)).
  assert (Hkeys : keys_in (fun s => exists i, 0 <= i /\ s = Path.tmp_path path i) (take k ops)).
  { intros o Ho s Hs. destruct (Htmp o Ho) as (i & x & Hi & ->). unfold op_keys in Hs.
    apply list_elem_of_singleton in Hs as ->. eauto. }
  assert (Hsub : Scan.find_latest_bitmap_subversion (readdir d') a b v = sv).
  { apply latest_subversion; [done| |].
    - intros e w He%elem_of_readdir Hw. destruct (run_ops_key _ d _ e Hkeys He) as [Hd|(i & _ & ->)].
      + specialize (Hold e w Hd Hw). lia.
      + unfold Path.tmp_path in Hw. rewrite Hver in Hw by done. injection Hw as <-. lia.
    - exists (Path.tmp_path path 0). split; [|by apply Hver]. apply elem_of_readdir.
      apply list_elem_of_split in Hc as (l1 & l2 & Hl). subst d'. rewrite Hl in Hkeys, Htmp |- *. clear Hl.
      assert (Hst : forall l d0, (forall o, o ∈ l -> exists i x, 0 <= i /\ o = OpWrite (Path.tmp_path path i) x) ->
                is_Some (d0 !! Path.tmp_path path 0) -> is_Some (run_ops d0 l !! Path.tmp_path path 0)).
      { intros l; induction l as [|o l IH]; intros d0 Hl Hd0; [done|]. apply IH; [intros; apply Hl; by right|].
        destruct (Hl o ltac:(left)) as (i & x & _ & ->). cbn. apply lookup_insert_is_Some'. by right. }
      rewrite run_ops_app. cbn. apply Hst; [intros o Ho; apply Htmp, elem_of_app; right; by right|].
      rewrite lookup_insert_eq. done. }
  unfold SegFile.load_bitmap_file, SegFile.resolve_version, SegFile.bitmap_path.
  destruct (Z.eqb_spec v UINT32_MAX); [lia|]. rewrite Hsub. fold path.
  assert (Hnone : d' !! Path.chunk_path path 0 = None).
  { apply eq_None_not_Some. intros Hs. destruct (run_ops_key _ d _ _ Hkeys Hs) as [Hd|(i & Hi & He)].
    - specialize (Hold _ sv Hd). unfold Path.chunk_path in Hold. rewrite Hver in Hold by done. specialize (Hold eq_refl). lia.
    - symmetry in He. revert He. apply tmp_chunk_ne. done. }
  unfold Chunk.read_segment_file. cbn [Chunk.count_chunks]. rewrite Hnone. reflexivity.
Qed.

(** The flushed directory, and the first operation of a bitmap update on it. *)
Definition flushed_dir : directory :=
  match SegFile.flush_segment_to_disk 8 example_dir example_prep with
  | Ok ops => run_ops example_dir ops
  | Error _ => ∅
  end.

Lemma interrupted_bitmap_update_loses_bitmap_witness :
  SegFile.load_bitmap_file flushed_dir 3 4 2 = Ok ([2], Some 1) /\
  exists ops, SegFile.write_bitmap_file_with_subversion 8 3 4 2 1 [3] 2 = Ok ops /\
  SegFile.load_bitmap_file (run_ops flushed_dir (take 1 ops)) 3 4 2 = Ok ([], None) /\
  SegFile.load_bitmap_file (run_ops flushed_dir ops) 3 4 2 = Ok ([3], Some 2).
Proof.
  split; [vm_compute; reflexivity|].
  destruct (SegFile.write_bitmap_file_with_subversion 8 3 4 2 1 [3] 2) as [ops|e] eqn:E;
    [|vm_compute in E; discriminate].
  exists ops. split; [reflexivity|]. split.
  - eapply (interrupted_bitmap_update_loses_bitmap 8 flushed_dir 3 4 2 1 [3] 2 ops 1);
      try exact E; try (unfold u32_ok, UINT32_MAX; lia).
    + intros e w Hs%elem_of_readdir Hw.
      assert (Hn : Forall (fun e => Scan.version_of (Scan.subversion_prefix 3 4 2) e = None) (readdir flushed_dir)).
      { apply (bool_decide_unpack _). vm_compute. exact I. }
      rewrite Forall_forall in Hn. rewrite (Hn e Hs) in Hw. discriminate.
    + vm_compute in E. injection E as <-. repeat constructor.
  - vm_compute in E. injection E as <-. vm_compute. reflexivity.
Defined.

(** ** The index-level metadata file *)

Definition index_meta_ok (m : SegFile.IndexMeta) : Prop :=
  u32_ok (SegFile.im_dim m) /\ u32_ok (SegFile.im_elem_size m) /\ u32_ok (SegFile.im_hnsw_m m) /\
  u32_ok (SegFile.im_hnsw_ef_construction m).

(** Fields of [n] bytes each, read back one by one. *)
Lemma le_fields zs : Forall u32_ok zs ->
  let b := mjoin (le_bytes 4 <$> zs) in
  zlen b = 4 * zlen zs /\
  forall i z, zs !! i = Some z -> le_value (take 4 (drop (4 * i) b)) = z.
Proof.
  intros Hok. cbn zeta. induction Hok as [|z zs Hz Hok [IHl IH]]; [split; [done|intros i z ?; done]|].
  rewrite fmap_cons, mjoin_cons. split.
  - rewrite zlen_app, IHl, zlen_cons. unfold zlen. rewrite length_le_bytes. lia.
  - intros [|i] z' Hi; cbn [lookup list_lookup] in Hi.
    + injection Hi as <-. replace (4 * 0)%nat with 0%nat by lia. rewrite drop_0, take_app_length' by (by rewrite length_le_bytes).
      by apply le_value_u32.
    + replace (4 * S i)%nat with (4 + 4 * i)%nat by lia. rewrite <-drop_drop, drop_app_length' by (by rewrite length_le_bytes).
      by apply IH.
Qed.

(** The index-level metadata (type, dimension, element size, HNSW
    parameters) is read back exactly as written, and a write interrupted before
    its rename leaves what was readable before. *)
Theorem index_metadata_roundtrip d m :
  index_meta_ok m ->
  SegFile.read_lsm_index_metadata (run_ops d (SegFile.write_lsm_index_metadata m)) = Some m /\
  SegFile.read_lsm_index_metadata (run_ops d (take 1 (SegFile.write_lsm_index_metadata m))) =
    SegFile.read_lsm_index_metadata d.
Proof.
  intros (H1 & H2 & H3 & H4). unfold SegFile.write_lsm_index_metadata.
  set (zs := [index_type_code (SegFile.im_index_type m); SegFile.im_dim m; SegFile.im_elem_size m;
              SegFile.im_hnsw_m m; SegFile.im_hnsw_ef_construction m]).
  set (content := _ ++ _).
  assert (Hzs : Forall u32_ok zs).
  { repeat constructor; try done; try apply H1; try apply H2; try apply H3; try apply H4;
      by destruct (SegFile.im_index_type m). }
  assert (Hc : content = mjoin (le_bytes 4 <$> zs)) by (subst content zs; unfold mjoin, list_join; cbn [fmap list_fmap mjoin list_join foldr]; reflexivity).
  destruct (le_fields zs Hzs) as [Hl Hf]. rewrite <-Hc in Hl, Hf.
  split.
  - unfold SegFile.read_lsm_index_metadata. cbn [run_ops foldl run_op]. rewrite lookup_insert_eq.
    rewrite delete_insert_eq. rewrite lookup_insert_eq. cbn [mbind option_bind].
    change (zlen zs) with 5 in Hl. rewrite Hl. cbn [Z.mul Z.ltb Z.compare Pos.mul Pos.compare Pos.compare_cont].
    clearbody content. pose proof (Hf 0%nat _ eq_refl) as F0. pose proof (Hf 1%nat _ eq_refl) as F1.
    pose proof (Hf 2%nat _ eq_refl) as F2. pose proof (Hf 3%nat _ eq_refl) as F3. pose proof (Hf 4%nat _ eq_refl) as F4.
    cbn [Nat.mul Nat.add drop] in F0, F1, F2, F3, F4.
    rewrite drop_0 in F0. rewrite F0, F1, F2, F3, F4, index_type_roundtrip. by destruct m.
  - unfold SegFile.read_lsm_index_metadata. cbn [take run_ops foldl run_op]. by rewrite lookup_insert_ne.
Qed.

Lemma index_metadata_roundtrip_witness :
  SegFile.read_lsm_index_metadata (run_ops ∅ (SegFile.write_lsm_index_metadata (SegFile.mkIndexMeta HNSW 768 4 16 100))) =
    Some (SegFile.mkIndexMeta HNSW 768 4 16 100).
Proof.
  apply (index_metadata_roundtrip ∅ (SegFile.mkIndexMeta HNSW 768 4 16 100)).
  unfold index_meta_ok, u32_ok. cbn. lia.
Defined.
