(* ===== verification/BitmapVersions.v ===== *)
(** A complete update of a segment's deletion bitmap: a new subversion of the
    bitmap file is written, and everything else of the segment stays. *)

From S2P Require Import Prelude Bitmap FileNames SegmentFiles.

(** The subversion the next update of the bitmap gets. *)
Definition next_subversion (d : directory) (a b v : Z) : Z :=
  let latest_sub := Scan.find_latest_bitmap_subversion (readdir d) a b v in
  if latest_sub =? UINT32_MAX then 0 else u32 (latest_sub + 1).

(** No name carries the largest subversion or the sentinel. *)
Definition subversions_small (d : directory) (a b v : Z) : Prop :=
  forall e w, is_Some (d !! e) -> Scan.version_of (Scan.subversion_prefix a b v) e = Some w -> w + 1 < UINT32_MAX.

Lemma version_of_range p e w : Scan.version_of p e = Some w -> 0 <= w < 2 ^ 32.
Proof.
  unfold Scan.version_of. destruct (strip_prefix p e); [|done]. intros [= <-]. apply u32_range.
Qed.

(** The scan finds the greatest subversion, or the sentinel if there is none. *)
Lemma latest_subversion_cases entries a b v :
  (forall e w, e ∈ entries -> Scan.version_of (Scan.subversion_prefix a b v) e = Some w -> w < UINT32_MAX) ->
  let l := Scan.find_latest_bitmap_subversion entries a b v in
  (l = UINT32_MAX /\ forall e, e ∈ entries -> Scan.version_of (Scan.subversion_prefix a b v) e = None) \/
  (0 <= l < UINT32_MAX /\ (exists e, e ∈ entries /\ Scan.version_of (Scan.subversion_prefix a b v) e = Some l) /\
   forall e w, e ∈ entries -> Scan.version_of (Scan.subversion_prefix a b v) e = Some w -> w <= l).
Proof.
  intros Hlt. cbn zeta. unfold Scan.find_latest_bitmap_subversion. induction entries as [|e entries IH] using rev_ind.
  - left. split; [done|]. by intros e ?%elem_of_nil.
  - rewrite foldl_app. cbn [foldl]. set (m := foldl _ _ entries) in *.
    destruct IH as [[-> Hn]|(Hm & Hex & Hmax)]; [intros e' w He'; apply Hlt, elem_of_app; by left|..].
    + destruct (Scan.version_of _ e) as [w|] eqn:Ew.
      * right. rewrite Z.eqb_refl. cbn [orb]. pose proof (version_of_range _ _ _ Ew). specialize (Hlt e w ltac:(set_solver) Ew).
        split; [lia|]. split; [exists e; split; [set_solver|done]|].
        intros e' w' [He'|He'%list_elem_of_singleton]%elem_of_app Hw'; [by rewrite Hn in Hw'|subst; rewrite Ew in Hw'; injection Hw' as ->; lia].
      * left. split; [done|]. intros e' [He'|He'%list_elem_of_singleton]%elem_of_app; [by apply Hn|by subst].
    + right. destruct (Z.eqb_spec m UINT32_MAX); [lia|]. cbn [orb]. destruct Hex as (e0 & He0 & Hv0).
      destruct (Scan.version_of _ e) as [w|] eqn:Ew.
      * pose proof (version_of_range _ _ _ Ew). specialize (Hlt e w ltac:(set_solver) Ew). destruct (Z.ltb_spec m w).
        -- split; [lia|]. split; [exists e; split; [set_solver|done]|].
           intros e' w' [He'|He'%list_elem_of_singleton]%elem_of_app Hw'; [specialize (Hmax _ _ He' Hw'); lia|subst; rewrite Ew in Hw'; injection Hw' as ->; lia].
        -- split; [lia|]. split; [exists e0; split; [set_solver|done]|].
           intros e' w' [He'|He'%list_elem_of_singleton]%elem_of_app Hw'; [by eapply Hmax|subst; rewrite Ew in Hw'; injection Hw' as ->; lia].
      * split; [lia|]. split; [exists e0; split; [set_solver|done]|].
        intros e' w' [He'|He'%list_elem_of_singleton]%elem_of_app Hw'; [by eapply Hmax|subst; by rewrite Ew in Hw'].
Qed.

Lemma next_subversion_fresh d a b v :
  subversions_small d a b v ->
  0 <= next_subversion d a b v < UINT32_MAX /\
  forall e w, is_Some (d !! e) -> Scan.version_of (Scan.subversion_prefix a b v) e = Some w -> w < next_subversion d a b v.
Proof.
  intros Hs. unfold next_subversion. destruct (latest_subversion_cases (readdir d) a b v) as [[-> Hn]|(Hl & (e0 & He0 & Hv0) & Hmax)].
  - intros e w He%elem_of_readdir Hw. specialize (Hs e w He Hw). lia.
  - split; [unfold UINT32_MAX; cbn; lia|]. intros e w He%elem_of_readdir Hw. by rewrite (Hn e He) in Hw.
  - apply elem_of_readdir in He0. specialize (Hs e0 _ He0 Hv0).
    destruct (Z.eqb_spec (Scan.find_latest_bitmap_subversion (readdir d) a b v) UINT32_MAX); [lia|].
    unfold UINT32_MAX in *. rewrite u32_small by lia. split; [lia|]. intros e w He%elem_of_readdir Hw. specialize (Hmax e w He Hw). lia.
Qed.

(** Reading a file depends on its chunks only, once there is fuel enough. *)
Lemma count_chunks_more fuel fuel' d d' path k r :
  (forall i, d' !! Path.chunk_path path i = d !! Path.chunk_path path i) -> (fuel <= fuel')%nat ->
  Chunk.count_chunks fuel d path k = Ok r -> Chunk.count_chunks fuel' d' path k = Ok r.
Proof.
  intros Hsame. revert fuel' k; induction fuel as [|fuel IH]; intros fuel' k Hf; [done|].
  destruct fuel' as [|fuel']; [lia|]. cbn [Chunk.count_chunks]. rewrite Hsame.
  destruct (d !! Path.chunk_path path k); [|done]. apply IH. lia.
Qed.

Lemma read_segment_file_ext d d' path want r :
  (forall s, is_Some (d !! s) -> d' !! s = d !! s) ->
  (forall i, d' !! Path.chunk_path path i = d !! Path.chunk_path path i) ->
  Chunk.read_segment_file d path want = Ok r -> Chunk.read_segment_file d' path want = Ok r.
Proof.
  intros Hkeep Hsame. unfold Chunk.read_segment_file.
  assert (Hsize : (size d <= size d')%nat).
  { rewrite <-!(size_dom (D := gset string)). apply subseteq_size. intros s Hs%elem_of_dom. apply elem_of_dom. by rewrite Hkeep. }
  destruct (Chunk.count_chunks (S (size d)) d path 0) as [n|] eqn:E; [|done].
  rewrite (count_chunks_more (S (size d)) (S (size d')) d d' path 0 n Hsame ltac:(lia) E). cbn [mbind res_bind].
  assert (Hc : forall i, Chunk.chunk_at d' path i = Chunk.chunk_at d path i) by (intros i; unfold Chunk.chunk_at; by rewrite Hsame).
  intros [= <-]. f_equal.
  assert (Hm : (fun i => zlen (Chunk.chunk_at d' path i)) <$> seqZ 0 n = (fun i => zlen (Chunk.chunk_at d path i)) <$> seqZ 0 n).
  { apply list_fmap_ext. intros _ i _. by rewrite Hc. }
  rewrite Hm.
  assert (Hfold : forall ds l st, foldl (Chunk.read_chunk d' path want ds) st l = foldl (Chunk.read_chunk d path want ds) st l).
  { intros ds l; induction l as [|i l IH]; intros st; [done|]. cbn [foldl]. rewrite IH. f_equal.
    unfold Chunk.read_chunk. by rewrite Hc. }
  apply Hfold.
Qed.

Section update.
Context (a b v : Z) (Ha : u32_ok a) (Hb : u32_ok b) (Hv : u32_ok v) (Hv' : v < UINT32_MAX).

Definition sub_path (sv : Z) : string := Path.GetLSMBitmapFilePathWithSubversion a b v sv.

Lemma sub_path_eq sv : sv < UINT32_MAX -> sub_path sv = (Scan.subversion_prefix a b v +:+ print_u32 sv)%string.
Proof.
  intros Hsv. unfold sub_path, Path.GetLSMBitmapFilePathWithSubversion. destruct (Z.eqb_spec sv UINT32_MAX); [lia|].
  unfold Scan.subversion_prefix. by rewrite !append_assoc.
Qed.

(** The names of one bitmap subversion: each carries its number. *)
Lemma sub_keys_version sv s : u32_ok sv -> sv < UINT32_MAX -> file_keys (sub_path sv) s ->
  Scan.version_of (Scan.subversion_prefix a b v) s = Some sv /\ exists r, strip_prefix (Scan.subversion_prefix a b v) s = Some r.
Proof.
  intros Hsv Hlt (i & _ & Hs).
  assert (H : forall r, stops r -> Scan.version_of (Scan.subversion_prefix a b v) (sub_path sv +:+ r)%string = Some sv /\
                exists x, strip_prefix (Scan.subversion_prefix a b v) (sub_path sv +:+ r)%string = Some x).
  { intros r Hr. unfold Scan.version_of. rewrite sub_path_eq by done. rewrite append_assoc, strip_prefix_app. split; [|by eexists].
    change (Some (atoi_u32 (print_u32 sv +:+ r)%string) = Some sv). by rewrite atoi_print. }
  destruct Hs as [->| ->]; by apply H.
Qed.

Lemma sub_keys_unparsed sv s : u32_ok sv -> sv < UINT32_MAX -> file_keys (sub_path sv) s -> Scan.parse_metadata_name s = None.
Proof.
  intros Hsv Hlt Hs. destruct (sub_keys_version sv s Hsv Hlt Hs) as [_ [r Hr]]. apply strip_prefix_Some in Hr as ->. done.
Qed.

Lemma sub_keys_not_owned sv t s : u32_ok sv -> sv < UINT32_MAX -> file_keys (sub_path sv) s ->
  t ∈ data_types \/ t = "metadata" -> ~ owned t a b v s.
Proof.
  intros Hsv Hlt Hs Ht Ho. destruct (sub_keys_version sv s Hsv Hlt Hs) as [_ [r Hr]].
  rewrite (subversion_not_owned a b v t s Ht Ha Hb Hv Ho) in Hr. done.
Qed.

(** The update, read back; everything that is not this subversion stays. *)
Lemma bitmap_update max_file d bitmap dc :
  4 < max_file -> zlen bitmap < 2 ^ 31 -> u32_ok dc -> subversions_small d a b v ->
  let sv := next_subversion d a b v in
  exists ops, SegFile.write_bitmap_file_with_subversion max_file a b v sv bitmap dc = Ok ops /\
    let d' := run_ops d ops in
    SegFile.load_bitmap_file d' a b v = Ok (bitmap, Some dc) /\
    (forall s, ~ file_keys (sub_path sv) s -> d' !! s = d !! s) /\
    (forall e w, is_Some (d' !! e) -> Scan.version_of (Scan.subversion_prefix a b v) e = Some w -> w <= sv).
Proof.
  intros Hmax Hlen Hdc Hsmall sv. destruct (next_subversion_fresh d a b v Hsmall) as [Hsv Hold]. fold sv in Hsv, Hold.
  assert (Hsvok : u32_ok sv) by (unfold u32_ok, UINT32_MAX in *; lia).
  destruct (write_then_read max_file (sub_path sv) bitmap (Some dc) Hmax Hlen) as (ops & Hops & Hread & Hkeys); [by intros c [= <-]|].
  exists ops. split; [exact Hops|]. cbn zeta. set (d' := run_ops d ops).
  assert (Hout : forall s, ~ file_keys (sub_path sv) s -> d' !! s = d !! s).
  { intros s Hs. subst d'. apply (run_ops_outside (file_keys (sub_path sv)) d ops); [exact Hkeys|exact Hs]. }
  assert (Hle : forall e w, is_Some (d' !! e) -> Scan.version_of (Scan.subversion_prefix a b v) e = Some w -> w <= sv).
  { intros e w He Hw. destruct (run_ops_key _ d ops e Hkeys He) as [Hd|Hk]; [specialize (Hold e w Hd Hw); lia|].
    destruct (sub_keys_version sv e Hsvok ltac:(lia) Hk) as [Hw' _]. rewrite Hw in Hw'. injection Hw' as ->. lia. }
  assert (Hrd : Chunk.read_segment_file d' (sub_path sv) true = Ok (bitmap, Some dc)).
  { apply (Hread d d'); [|done]. intros i Hi. apply eq_None_not_Some. intros Hs.
    destruct (sub_keys_version sv (Path.chunk_path (sub_path sv) i) Hsvok ltac:(lia)) as [Hw _]; [exists i; split; [done|by right]|].
    specialize (Hold _ _ Hs Hw). lia. }
  split; [|by split]. unfold SegFile.load_bitmap_file, SegFile.resolve_version, SegFile.bitmap_path.
  destruct (Z.eqb_spec v UINT32_MAX); [lia|].
  rewrite (latest_subversion (readdir d') a b v sv); [exact Hrd|lia| |].
  - intros e w He%elem_of_readdir. by apply Hle.
  - exists (Path.chunk_path (sub_path sv) 0). split.
    + apply elem_of_readdir. destruct (decide (d' !! Path.chunk_path (sub_path sv) 0 = None)) as [Hn|]; [|by apply not_eq_None_Some].
      unfold Chunk.read_segment_file in Hrd. cbn [Chunk.count_chunks] in Hrd. rewrite Hn in Hrd. cbn in Hrd. discriminate.
    + apply (sub_keys_version sv); [done|lia|]. exists 0. unfold u32_ok. split; [lia|by right].
Qed.
End update.

(** What a segment of the given version looks like on disk. *)
Record on_disk (d : directory) (a b v n : Z) (map bm : list Z) (offs : list SegmentPool.SegmentOffsetRange) : Prop := {
  od_ids : u32_ok a /\ u32_ok b /\ a <= b /\ u32_ok v /\ v < UINT32_MAX;
  od_meta : exists t, SegFile.read_lsm_segment_metadata d a b v = Some (a, b, n, t);
  od_map : SegFile.load_mapping_file d a b v = Ok map;
  od_offs : SegFile.load_offset_file d a b v = Ok offs;
  od_bitmap : SegFile.load_bitmap_file d a b v = Ok (bm, Some (count_set bm n));
  od_size : 0 <= n < 2 ^ 31 /\ zlen map = n /\ zlen bm = GET_BITMAP_SIZE n }.

(** Replacing the bitmap keeps the rest of the segment and every other name the
    directory scan looks at. *)
Lemma on_disk_update max_file d a b v n map bm offs bm' :
  4 < max_file -> on_disk d a b v n map bm offs -> subversions_small d a b v -> zlen bm' = zlen bm ->
  exists ops, SegFile.write_bitmap_file_with_subversion max_file a b v (next_subversion d a b v) bm' (count_set bm' n) = Ok ops /\
    on_disk (run_ops d ops) a b v n map bm' offs /\
    (forall e w, is_Some (run_ops d ops !! e) -> Scan.version_of (Scan.subversion_prefix a b v) e = Some w -> w <= next_subversion d a b v) /\
    (forall s f, Scan.parse_metadata_name s = Some f -> run_ops d ops !! s = d !! s) /\
    (forall s, ~ file_keys (sub_path a b v (next_subversion d a b v)) s -> run_ops d ops !! s = d !! s).
Proof.
  intros Hmax [(Ha & Hb & Hab & Hv & Hv') [t Hmeta] Hmap Hoffs Hbm (Hn & Hlm & Hlb)] Hsmall Hlen.
  destruct (next_subversion_fresh d a b v Hsmall) as [Hsv _]. set (sv := next_subversion d a b v) in *.
  assert (Hsvok : u32_ok sv) by (unfold u32_ok, UINT32_MAX in *; lia).
  assert (Hg : 0 <= GET_BITMAP_SIZE n <= n + 7) by (unfold GET_BITMAP_SIZE; pose proof (Z.div_mod (n + 7) 8); pose proof (Z.mod_pos_bound (n+7) 8); lia).
  assert (Hb31 : zlen bm' < 2 ^ 31) by (unfold GET_BITMAP_SIZE in *; pose proof (Z.div_mod (n + 7) 8 ltac:(lia)); pose proof (Z.mod_pos_bound (n+7) 8 ltac:(lia)); lia).
  pose proof (count_set_bounds bm' n) as Hcs.
  destruct (bitmap_update a b v Hv' max_file d bm' (count_set bm' n) Hmax Hb31) as (ops & Hops & Hload & Hout & Hle);
    [unfold u32_ok, UINT32_MAX; lia|done|].
  exists ops. split; [done|]. set (d' := run_ops d ops) in *.
  assert (Hrv : forall dd, SegFile.resolve_version dd a b v = v).
  { intros dd. unfold SegFile.resolve_version. destruct (Z.eqb_spec v UINT32_MAX); [lia|done]. }
  assert (Hno : forall t' s, t' ∈ data_types \/ t' = "metadata" -> owned t' a b v s -> d' !! s = d !! s).
  { intros t' s Ht' Ho. apply Hout. intros Hk. eapply (sub_keys_not_owned a b v Ha Hb Hv sv t' s); try done. lia. }
  assert (Hkeep : forall s, is_Some (d !! s) -> d' !! s = d !! s).
  { intros s Hs. apply Hout. intros Hk. destruct (sub_keys_version a b v sv s Hsvok ltac:(lia) Hk) as [Hw _].
    destruct (next_subversion_fresh d a b v Hsmall) as [_ Hold]. specialize (Hold s sv Hs Hw). unfold sv in Hold. lia. }
  assert (Hread : forall t' r, t' ∈ data_types -> Chunk.read_segment_file d (Path.file_name t' a b v) false = Ok r ->
            Chunk.read_segment_file d' (Path.file_name t' a b v) false = Ok r).
  { intros t' r Ht'. apply read_segment_file_ext; [exact Hkeep|]. intros i. apply (Hno t'); [by left|].
    exists ("." +:+ print_u32 i)%string. split; [right; eexists|]; done. }
  split; [|split; [exact Hle|split; [|exact Hout]]].
  - split; [done| | | |exact Hload|split; [done|split; [done|lia]]].
    + exists t. revert Hmeta. unfold SegFile.read_lsm_segment_metadata. rewrite !Hrv.
      rewrite (Hno "metadata"); [done|by right|apply owned_exact].
    + revert Hmap. unfold SegFile.load_mapping_file. rewrite !Hrv. unfold Path.GetLSMMappingFilePathWithVersion.
      destruct (Chunk.read_segment_file d _ _) as [r|] eqn:E; [|done]. by rewrite (Hread "mapping" r ltac:(in_types) E).
    + revert Hoffs. unfold SegFile.load_offset_file. rewrite !Hrv. unfold Path.GetLSMOffsetFilePathWithVersion.
      destruct (b <? a); [done|]. destruct (Chunk.read_segment_file d _ _) as [r|] eqn:E; [|done].
      by rewrite (Hread "offset" r ltac:(in_types) E).
  - intros s f Hf. apply Hout. intros Hk. eapply (sub_keys_unparsed a b v sv) in Hk; [congruence|done|lia].
Qed.

(** An update uses up one subversion. *)
Lemma next_subversion_update d a b v w :
  w + 1 < UINT32_MAX -> 0 <= w ->
  (forall e x, is_Some (d !! e) -> Scan.version_of (Scan.subversion_prefix a b v) e = Some x -> x <= w) ->
  next_subversion d a b v <= w + 1 /\ subversions_small d a b v.
Proof.
  intros Hw H0 Hle. split; [|intros e x He Hx; specialize (Hle e x He Hx); lia].
  unfold next_subversion. destruct (latest_subversion_cases (readdir d) a b v) as [[-> _]|(Hl & (e & He & Hv) & _)].
  - intros e x He%elem_of_readdir Hx. specialize (Hle e x He Hx). lia.
  - rewrite Z.eqb_refl. lia.
  - apply elem_of_readdir in He. specialize (Hle e _ He Hv).
    destruct (Z.eqb_spec (Scan.find_latest_bitmap_subversion (readdir d) a b v) UINT32_MAX); [lia|].
    unfold UINT32_MAX in *. rewrite u32_small; lia.
Qed.

(** A completed bitmap update replaces the bitmap and nothing else.  The
    next load of the segment returns the new bitmap and its count; the row
    count, the mapping and the offset table load as before, and the directory
    scan returns the same segments. *)
Theorem bitmap_update_roundtrip max_file d a b v n map bm offs bm' :
  4 < max_file -> on_disk d a b v n map bm offs -> subversions_small d a b v -> fits (readdir d) -> zlen bm' = zlen bm ->
  exists ops, SegFile.write_bitmap_file_with_subversion max_file a b v (next_subversion d a b v) bm' (count_set bm' n) = Ok ops /\
    on_disk (run_ops d ops) a b v n map bm' offs /\
    forall m, Scan.scan_segment_metadata_files (readdir (run_ops d ops)) m = Scan.scan_segment_metadata_files (readdir d) m.
Proof.
  intros Hmax Hd Hs Hfits Hz. destruct (on_disk_update max_file d a b v n map bm offs bm' Hmax Hd Hs Hz) as (ops & Hops & Hd' & _ & Hmeta & _).
  exists ops. split; [done|]. split; [done|]. intros m. by apply scan_same.
Qed.

Lemma flushed_on_disk : on_disk flushed_dir 3 4 2 3 [11; 12; 13] [2] example_offsets.
Proof.
  split; [unfold u32_ok, UINT32_MAX; lia|exists SegmentPool.HNSW; vm_compute; reflexivity|vm_compute; reflexivity..|].
  split; [lia|]. split; vm_compute; reflexivity.
Qed.

Lemma flushed_subversions : subversions_small flushed_dir 3 4 2.
Proof.
  intros e w He%elem_of_readdir Hw.
  assert (H : Forall (fun s => Scan.version_of (Scan.subversion_prefix 3 4 2) s = None) (readdir flushed_dir)).
  { apply (bool_decide_unpack _). vm_compute. exact I. }
  rewrite Forall_forall in H. by rewrite H in Hw.
Qed.

Lemma bitmap_update_roundtrip_witness :
  exists ops, SegFile.write_bitmap_file_with_subversion 8 3 4 2 0 [7] 3 = Ok ops /\
    on_disk (run_ops flushed_dir ops) 3 4 2 3 [11; 12; 13] [7] example_offsets.
Proof.
  destruct (bitmap_update_roundtrip 8 flushed_dir 3 4 2 3 [11; 12; 13] [2] example_offsets [7]) as (ops & Hops & Hd & _);
    [lia|exact flushed_on_disk|exact flushed_subversions|vm_compute; discriminate|reflexivity|].
  exists ops. split; [exact Hops|exact Hd].
Defined.
