(* ===== verification/Tombstones.v ===== *)
(** Carrying deletion bits from one copy of a segment id's rows to another.

    The rows of one segment id keep their relative order in every segment that
    holds them; a rebuild may only leave rows out.  segment_adoption.c and
    segment_vacuum_redo.c rely on that and translate deletion bits by walking
    two arrays of tuple ids in step.  Here are those loops, what they mark, and
    when they mark all they should. *)

From S2P Require Import Prelude Bitmap SegmentPool.

(** One group of the deletion payload: the deleted tuple ids of a segment id,
    in insertion order.  An array and its length are a list. *)
Record DpvVacuumGroup := mkGroup { gp_sid : Z; gp_tids : list Z }.

Module Merge.

(** [if (!IS_SLOT_SET(bitmap, m)) { SET_SLOT(bitmap, m); applied++; }] on the
    bitmap and the counter. *)
Definition mark_row (st : list Z * Z) (m : Z) : list Z * Z :=
  if IS_SLOT_SET st.1 m then st else (SET_SLOT st.1 m, st.2 + 1).

(** The linear scan for a segment id in an offset table; -1 when it is missing. *)
Fixpoint offset_linear (fuel : nat) (offs : list SegmentOffsetRange) (count k sid : Z) : res Z :=
  match fuel with
  | O => Error OutOfFuel
  | S fuel =>
      if k <? count then
        o ← arr_get offs k;
        if off_sid o =? sid then Ok k else offset_linear fuel offs count (k + 1) sid
      else Ok (-1)
  end.

(** The walk over an old and a new row range that share a segment id. *)
Fixpoint offset_merge (fuel : nat) (old_map old_bm new_map : list Z)
    (i_old old_hi i_new new_hi : Z) (st : list Z * Z) : res (list Z * Z) :=
  match fuel with
  | O => Error OutOfFuel
  | S fuel =>
      if (i_old <? old_hi) && (i_new <? new_hi) then
        a ← arr_get old_map i_old;
        b ← arr_get new_map i_new;
        if a =? b then
          offset_merge fuel old_map old_bm new_map (i_old + 1) old_hi (i_new + 1) new_hi
            (if IS_SLOT_SET old_bm i_old then mark_row st i_new else st)
        else offset_merge fuel old_map old_bm new_map (i_old + 1) old_hi i_new new_hi st
      else Ok st
  end.

(** The walk over a row range and a list of deleted tuple ids. *)
Fixpoint tid_walk (fuel : nat) (map tids : list Z) (m m_hi w : Z) (st : list Z * Z) : res (list Z * Z) :=
  match fuel with
  | O => Error OutOfFuel
  | S fuel =>
      if (m <? m_hi) && (w <? zlen tids) then
        x ← arr_get map m;
        t ← arr_get tids w;
        if x =? t then tid_walk fuel map tids (m + 1) m_hi (w + 1) (mark_row st m)
        else tid_walk fuel map tids (m + 1) m_hi w st
      else Ok st
  end.

Definition range_fuel (lo hi : Z) : nat := S (Z.to_nat (hi - lo)).
Definition table_fuel (count : Z) : nat := S (Z.to_nat count).

(** [if (applied > 0) seg->delete_count += applied;] with the new bitmap. *)
Definition store_marks (seg : FlushedSegmentData) (st : list Z * Z) : FlushedSegmentData :=
  let seg := seg <| bitmap_ptr := Some st.1 |> in
  if 0 <? st.2 then seg <| delete_count ::= fun c => u32 (c + st.2) |> else seg.

(** One entry of the new offset table. *)
Definition union_entry (old_map old_bm new_map : list Z) (old_offs new_offs : list SegmentOffsetRange)
    (old_count : Z) (st : list Z * Z) (ni : Z) : res (list Z * Z) :=
  o ← arr_get new_offs ni;
  oi ← offset_linear (table_fuel old_count) old_offs old_count 0 (off_sid o);
  if oi <? 0 then Ok st
  else
    o' ← arr_get old_offs oi;
    offset_merge (range_fuel (start_offset o') (end_offset o')) old_map old_bm new_map
      (start_offset o') (end_offset o') (start_offset o) (end_offset o) st.

Definition union_segment_bitmap_via_offset_merge (new_seg old_seg : FlushedSegmentData)
    : res FlushedSegmentData :=
  match bitmap_ptr old_seg, map_ptr old_seg, bitmap_ptr new_seg, map_ptr new_seg,
        offsets old_seg, offsets new_seg with
  | Some old_bm, Some old_map, Some new_bm, Some new_map, Some old_offs, Some new_offs =>
      st ← foldl_res (union_entry old_map old_bm new_map old_offs new_offs (offsets_count old_seg))
             (new_bm, 0) (seqZ 0 (offsets_count new_seg));
      Ok (store_marks new_seg st)
  | _, _, _, _, _, _ => Ok new_seg
  end.

Definition union_group (map : list Z) (offs : list SegmentOffsetRange) (count : Z)
    (st : list Z * Z) (gp : DpvVacuumGroup) : res (list Z * Z) :=
  if zlen (gp_tids gp) =? 0 then Ok st
  else
    oi ← offset_linear (table_fuel count) offs count 0 (gp_sid gp);
    if oi <? 0 then Ok st
    else
      o ← arr_get offs oi;
      tid_walk (range_fuel (start_offset o) (end_offset o)) map (gp_tids gp)
        (start_offset o) (end_offset o) 0 st.

Definition union_deletion_entries_into_new_seg (new_seg : FlushedSegmentData)
    (groups : list DpvVacuumGroup) : res FlushedSegmentData :=
  match bitmap_ptr new_seg, map_ptr new_seg, offsets new_seg with
  | Some bm, Some map, Some offs =>
      if zlen groups <=? 0 then Ok new_seg
      else
        st ← foldl_res (union_group map offs (offsets_count new_seg)) (bm, 0) groups;
        Ok (store_marks new_seg st)
  | _, _, _ => Ok new_seg
  end.

End Merge.

(** ** What the walks mark *)

Definition mark_rows (st : list Z * Z) (rows : list Z) : list Z * Z := foldl Merge.mark_row st rows.

(** Positions of [l] (counted from [p]) that a greedy walk matches with [ws]. *)
Fixpoint match_positions (p : Z) (l ws : list Z) : list Z :=
  match l, ws with
  | x :: l', w :: ws' =>
      if x =? w then p :: match_positions (p + 1) l' ws' else match_positions (p + 1) l' ws
  | _, _ => []
  end.

(** Positions of [new] (counted from [p]) matched with a deleted row of [old]. *)
Fixpoint merge_positions (p : Z) (old : list (Z * bool)) (new : list Z) : list Z :=
  match old, new with
  | (t, deleted) :: old', x :: new' =>
      if t =? x then (if deleted : bool then [p] else []) ++ merge_positions (p + 1) old' new'
      else merge_positions p old' new
  | _, _ => []
  end.

Lemma sublist_in {A} (l k : list A) x : sublist l k -> x ∈ l -> x ∈ k.
Proof. intros Hs Hx. eapply elem_of_submseteq; [exact Hx|by apply sublist_submseteq]. Qed.

Section marks.
Implicit Types (bm map tids rows : list Z) (n p : Z).

Lemma mark_rows_app st r1 r2 : mark_rows st (r1 ++ r2) = mark_rows (mark_rows st r1) r2.
Proof. apply foldl_app. Qed.

(** Marking a list of rows sets exactly their bits, and counts the flips. *)
Lemma mark_rows_spec n st rows :
  covers st.1 n -> (forall p, p ∈ rows -> 0 <= p < n) ->
  let r := mark_rows st rows in
  zlen r.1 = zlen st.1 /\
  (forall j, 0 <= j -> IS_SLOT_SET r.1 j = IS_SLOT_SET st.1 j || bool_decide (j ∈ rows)) /\
  r.2 - st.2 = count_set r.1 n - count_set st.1 n.
Proof.
  revert st; induction rows as [|p rows IH]; intros st Hc Hr; cbn zeta.
  { cbn. split; [done|]. split; [|lia]. intros j _. by rewrite orb_false_r. }
  assert (Hp : 0 <= p < n) by (apply Hr; left).
  assert (Hm : let s := Merge.mark_row st p in zlen s.1 = zlen st.1 /\
            (forall j, 0 <= j -> IS_SLOT_SET s.1 j = IS_SLOT_SET st.1 j || (p =? j)) /\
            s.2 - st.2 = count_set s.1 n - count_set st.1 n).
  { cbn zeta. unfold Merge.mark_row. destruct (IS_SLOT_SET st.1 p) eqn:E.
    - split; [done|]. split; [|lia]. intros j Hj. destruct (Z.eqb_spec p j) as [<-|]; [by rewrite E|by rewrite orb_false_r].
    - split; [apply zlen_SET_SLOT|]. split; [|cbn [fst snd]; rewrite (count_set_SET st.1 n p) by done; lia].
      intros j Hj. cbn. rewrite (IS_SLOT_SET_SET _ n) by done. apply orb_comm. }
  destruct Hm as (Hz & Hb & Hn). cbn [mark_rows foldl]. fold (mark_rows (Merge.mark_row st p) rows).
  destruct (IH (Merge.mark_row st p)) as (Hz' & Hb' & Hn'); [unfold covers in *; lia|intros; apply Hr; by right|].
  split; [lia|]. split; [|lia]. intros j Hj. rewrite Hb', Hb by done. rewrite <-orb_assoc. f_equal.
  apply eq_bool_prop_intro. rewrite !Is_true_true, orb_true_iff, !bool_decide_eq_true, Z.eqb_eq, elem_of_cons.
  intuition congruence.
Qed.

Lemma tid_walk_spec fuel map tids m hi w st :
  0 <= m -> hi <= zlen map -> 0 <= w -> (Z.to_nat (hi - m) < fuel)%nat ->
  Merge.tid_walk fuel map tids m hi w st =
    Ok (mark_rows st (match_positions m (slice map m hi) (drop (Z.to_nat w) tids))).
Proof.
  intros Hm Hhi. revert m w st Hm; induction fuel as [|fuel IH]; intros m w st Hm Hw Hf; [lia|].
  cbn [Merge.tid_walk]. destruct (Z.ltb_spec m hi) as [Hlt|Hge]; cbn [andb].
  - destruct (zlookup_lt_is_Some map m) as [x Hx]; [lia|]. rewrite (slice_cons _ _ _ x) by done.
    destruct (Z.ltb_spec w (zlen tids)) as [Hwl|Hwg].
    + destruct (zlookup_lt_is_Some tids w) as [t Ht]; [lia|]. run.
      unfold lookup, zlist_lookup in Ht. rewrite decide_True in Ht by lia.
      rewrite (drop_S tids t (Z.to_nat w)) by done. cbn [match_positions].
      replace (S (Z.to_nat w)) with (Z.to_nat (w + 1)) by lia.
      destruct (x =? t); rewrite IH by lia; [done|].
      replace (Z.to_nat (w + 1)) with (S (Z.to_nat w)) by lia. by rewrite <-(drop_S tids t (Z.to_nat w)).
    + rewrite drop_ge by (unfold zlen in Hwg; lia). done.
  - rewrite slice_nil by lia. done.
Qed.

(** The rows of an old range with their deletion bits. *)
Definition old_rows (map bm : list Z) (lo hi : Z) : list (Z * bool) :=
  imap (fun i x => (x, IS_SLOT_SET bm (lo + Z.of_nat i))) (slice map lo hi).

Lemma old_rows_cons map bm lo hi x :
  map !! lo = Some x -> lo < hi -> old_rows map bm lo hi = (x, IS_SLOT_SET bm lo) :: old_rows map bm (lo + 1) hi.
Proof.
  intros Hx Hlt. unfold old_rows. rewrite (slice_cons _ _ _ x) by done. cbn. rewrite Z.add_0_r. f_equal.
  apply imap_ext. intros i y _. cbn. do 2 f_equal. lia.
Qed.

Lemma offset_merge_spec fuel old_map old_bm new_map i_old old_hi i_new new_hi st :
  0 <= i_old -> old_hi <= zlen old_map -> 0 <= i_new -> new_hi <= zlen new_map ->
  (Z.to_nat (old_hi - i_old) < fuel)%nat ->
  Merge.offset_merge fuel old_map old_bm new_map i_old old_hi i_new new_hi st =
    Ok (mark_rows st (merge_positions i_new (old_rows old_map old_bm i_old old_hi) (slice new_map i_new new_hi))).
Proof.
  revert i_old i_new st; induction fuel as [|fuel IH]; intros i_old i_new st Ho Hoh Hn Hnh Hf; [lia|].
  cbn [Merge.offset_merge]. destruct (Z.ltb_spec i_old old_hi) as [Hlt|Hge]; cbn [andb].
  - destruct (zlookup_lt_is_Some old_map i_old) as [a Ha]; [lia|]. rewrite (old_rows_cons _ _ _ _ a) by done.
    destruct (Z.ltb_spec i_new new_hi) as [Hltn|Hgen].
    + destruct (zlookup_lt_is_Some new_map i_new) as [b Hb]; [lia|]. rewrite (slice_cons _ _ _ b) by done. run.
      cbn [merge_positions]. destruct (a =? b); rewrite IH by lia.
      * rewrite mark_rows_app. by destruct (IS_SLOT_SET old_bm i_old).
      * by rewrite <-(slice_cons _ _ _ b).
    + rewrite slice_nil by lia. done.
  - unfold old_rows. rewrite slice_nil by lia. done.
Qed.

(** *** When nothing is missed

    If the walked tuple ids occur in the row range in the same order, the
    greedy walk finds each of them. *)
Lemma match_positions_range p l ws q : q ∈ match_positions p l ws -> p <= q < p + zlen l.
Proof.
  revert p ws; induction l as [|x l IH]; intros p ws; [by intros ?%elem_of_nil|].
  rewrite zlen_cons. pose proof (zlen_nonneg l). destruct ws as [|w ws]; [by intros ?%elem_of_nil|]. cbn.
  destruct (x =? w); [intros [->|Hq%IH]%elem_of_cons; lia|intros Hq%IH; lia].
Qed.

Lemma match_positions_sound p l ws (i : nat) x :
  NoDup l -> l !! i = Some x -> p + Z.of_nat i ∈ match_positions p l ws -> x ∈ ws.
Proof.
  intros Hnd. revert p ws i; induction Hnd as [|y l Hy Hnd IH]; intros p ws i Hi; [done|].
  destruct ws as [|w ws]; [by intros ?%elem_of_nil|]. cbn. destruct i as [|i]; cbn in Hi.
  - injection Hi as ->. destruct (Z.eqb_spec x w) as [->|]; [intros _; left|].
    intros Hq%match_positions_range. lia.
  - replace (p + Z.of_nat (S i)) with ((p + 1) + Z.of_nat i) by lia.
    destruct (y =? w); [intros [Hq|Hq]%elem_of_cons; [lia|]; right; by eapply IH|by apply IH].
Qed.

Lemma match_positions_complete p l ws (i : nat) x :
  NoDup l -> sublist ws l -> l !! i = Some x -> x ∈ ws -> p + Z.of_nat i ∈ match_positions p l ws.
Proof.
  intros Hnd. revert p ws i; induction Hnd as [|y l Hy Hnd IH]; intros p ws i Hs Hi Hx; [done|].
  assert (Hsub : forall z, z ∈ ws -> z ∈ y :: l) by (intros z; by apply sublist_in).
  destruct ws as [|w ws]; [by apply elem_of_nil in Hx|]. cbn. destruct (Z.eqb_spec y w) as [<-|Hne].
  - assert (Hs' : sublist ws l).
    { apply sublist_cons_l in Hs as (k1 & k2 & Hk & Hs). destruct k1 as [|z k1].
      - by injection Hk as ->.
      - injection Hk as -> ->. exfalso. apply Hy. set_solver. }
    destruct i as [|i]; cbn in Hi; [rewrite Z.add_0_r; left|]. right.
    replace (p + Z.of_nat (S i)) with ((p + 1) + Z.of_nat i) by lia. apply IH; [done|done|].
    apply elem_of_cons in Hx as [->|Hx]; [|done]. exfalso. apply Hy. by apply list_elem_of_lookup_2 in Hi.
  - assert (Hs' : sublist (w :: ws) l).
    { apply sublist_cons_r in Hs as [Hs|(k & Hk & _)]; [done|congruence]. }
    destruct i as [|i]; cbn in Hi.
    + injection Hi as ->. exfalso. apply Hy. by eapply sublist_in.
    + replace (p + Z.of_nat (S i)) with ((p + 1) + Z.of_nat i) by lia. by apply IH.
Qed.

(** A walked tuple id that the range does not hold stops the walk for good. *)
Lemma match_positions_blocked p l ws1 x ws2 :
  x ∉ l -> match_positions p l (ws1 ++ x :: ws2) = match_positions p l ws1.
Proof.
  revert p ws1; induction l as [|y l IH]; intros p ws1 Hx; [by destruct ws1|].
  apply not_elem_of_cons in Hx as [Hyx Hx]. destruct ws1 as [|w ws1]; cbn.
  - destruct (Z.eqb_spec y x) as [->|]; [done|]. pose proof (IH (p + 1) [] Hx) as E. cbn in E. rewrite E. by destruct l.
  - destruct (y =? w); [by rewrite IH|]. exact (IH (p + 1) (w :: ws1) Hx).
Qed.

Lemma merge_positions_sound p old new q :
  q ∈ merge_positions p old new -> exists (i : nat) x, q = p + Z.of_nat i /\ new !! i = Some x /\ (x, true) ∈ old.
Proof.
  revert p new; induction old as [|[t del] old IH]; intros p new; [by intros ?%elem_of_nil|].
  destruct new as [|x new]; [by intros ?%elem_of_nil|]. cbn. destruct (Z.eqb_spec t x) as [->|].
  - intros [Hq|Hq]%elem_of_app.
    + destruct del; [|by apply elem_of_nil in Hq]. apply list_elem_of_singleton in Hq as ->.
      exists 0%nat, x. split; [lia|]. split; [done|left].
    + apply IH in Hq as (i & y & -> & Hi & Hy). exists (S i), y. split; [lia|]. split; [done|by right].
  - intros (i & y & -> & Hi & Hy)%IH. exists i, y. split; [done|]. split; [done|by right].
Qed.

Lemma merge_positions_complete p old new (i : nat) x :
  NoDup old.*1 -> sublist new old.*1 -> new !! i = Some x -> (x, true) ∈ old ->
  p + Z.of_nat i ∈ merge_positions p old new.
Proof.
  revert p new i; induction old as [|[t del] old IH]; intros p new i Hnd Hs Hi Hx; [by apply elem_of_nil in Hx|].
  destruct new as [|y new]; [done|]. cbn in Hnd, Hs |- *. apply NoDup_cons in Hnd as [Ht Hnd].
  assert (Hin : (x, true) ∈ old -> x ∈ old.*1) by (intros; apply list_elem_of_fmap; by exists (x, true)).
  destruct (Z.eqb_spec t y) as [<-|Hne].
  - assert (Hs' : sublist new old.*1).
    { apply sublist_cons_l in Hs as (k1 & k2 & Hk & Hs). destruct k1 as [|z k1].
      - by injection Hk as ->.
      - injection Hk as -> Hk. exfalso. apply Ht. rewrite Hk. set_solver. }
    apply elem_of_app. destruct i as [|i]; cbn in Hi.
    + injection Hi as ->. apply elem_of_cons in Hx as [[= <-]|Hx]; [|by destruct Ht; apply Hin].
      left. rewrite Z.add_0_r. left.
    + right. replace (p + Z.of_nat (S i)) with ((p + 1) + Z.of_nat i) by lia. apply IH; [done|done|done|].
      apply elem_of_cons in Hx as [[= -> _]|Hx]; [|done]. exfalso. apply Ht.
      eapply sublist_in; [exact Hs'|]. by apply list_elem_of_lookup_2 in Hi.
  - apply sublist_cons_r in Hs as [Hs|(k & Hk & _)]; [|congruence].
    apply IH; [done|done|done|]. apply elem_of_cons in Hx as [[= -> _]|Hx]; [|done].
    exfalso. apply Ht. eapply sublist_in; [exact Hs|]. by apply list_elem_of_lookup_2 in Hi.
Qed.

Lemma old_rows_fst map bm lo hi : (old_rows map bm lo hi).*1 = slice map lo hi.
Proof.
  unfold old_rows. apply list_eq. intros i. rewrite list_lookup_fmap, list_lookup_imap.
  by destruct (slice map lo hi !! i).
Qed.

Lemma elem_of_old_rows map bm lo hi x d :
  0 <= lo -> (x, d) ∈ old_rows map bm lo hi <->
  exists i, lo <= i < hi /\ map !! i = Some x /\ IS_SLOT_SET bm i = d.
Proof.
  intros Hlo. unfold old_rows. rewrite elem_of_lookup_imap. split.
  - intros (i & y & [= -> ->] & Hi). apply slice_lookup in Hi as [Hi Hlt]; [|done].
    exists (lo + Z.of_nat i). split; [lia|done].
  - intros (i & Hi & Hx & <-). exists (Z.to_nat (i - lo)), x.
    replace (lo + Z.of_nat (Z.to_nat (i - lo))) with i by lia. split; [done|]. apply slice_lookup; [done|].
    replace (lo + Z.of_nat (Z.to_nat (i - lo))) with i by lia. split; [done|lia].
Qed.
End marks.

(** ** Segments whose rows are grouped by segment id *)

(** Buffers of a loaded segment with [n] rows. *)
Record rows_ok (s : FlushedSegmentData) (n : Z) (map bm : list Z) (offs : list SegmentOffsetRange) : Prop := {
  ro_map : map_ptr s = Some map;
  ro_len : zlen map = n;
  ro_bitmap : bitmap_ptr s = Some bm;
  ro_covers : covers bm n;
  ro_offs : offsets s = Some offs;
  ro_count : offsets_count s = zlen offs;
  ro_ranges : Forall (fun o => 0 <= start_offset o /\ end_offset o <= n) offs;
  ro_sids : NoDup (off_sid <$> offs) }.

(** Row [q] belongs to segment id [sid] and holds tuple id [x]. *)
Definition row_of (map : list Z) (offs : list SegmentOffsetRange) (sid q x : Z) : Prop :=
  exists o, o ∈ offs /\ off_sid o = sid /\ start_offset o <= q < end_offset o /\ map !! q = Some x.

(** Some row of [sid] with tuple id [x] is deleted. *)
Definition deleted_in (map bm : list Z) (offs : list SegmentOffsetRange) (sid x : Z) : Prop :=
  exists i, row_of map offs sid i x /\ IS_SLOT_SET bm i = true.

Definition sid_rows (map : list Z) (o : SegmentOffsetRange) : list Z := slice map (start_offset o) (end_offset o).

(** The new segment holds, for every id both have, some of the old rows in the
    old order. *)
Definition compacted (old_map new_map : list Z) (old_offs new_offs : list SegmentOffsetRange) : Prop :=
  forall o o', o ∈ new_offs -> o' ∈ old_offs -> off_sid o = off_sid o' ->
    sublist (sid_rows new_map o) (sid_rows old_map o') /\ NoDup (sid_rows old_map o').

Section segments.
Implicit Types (s : FlushedSegmentData) (bm map : list Z) (offs : list SegmentOffsetRange).

Lemma offset_linear_spec offs sid k fuel :
  0 <= k <= zlen offs -> (Z.to_nat (zlen offs - k) < fuel)%nat ->
  exists r, Merge.offset_linear fuel offs (zlen offs) k sid = Ok r /\
    ((r = -1 /\ (forall i o, k <= i -> offs !! i = Some o -> off_sid o <> sid)) \/
     (exists o, k <= r /\ offs !! r = Some o /\ off_sid o = sid)).
Proof.
  revert k; induction fuel as [|fuel IH]; intros k Hk Hf; [lia|]. cbn.
  destruct (Z.ltb_spec k (zlen offs)) as [Hlt|Hge].
  - destruct (zlookup_lt_is_Some offs k) as [o Ho]; [lia|]. run.
    destruct (Z.eqb_spec (off_sid o) sid) as [He|Hne].
    + exists k. split; [done|]. right. exists o. split; [lia|done].
    + destruct (IH (k + 1)) as (r & -> & [[-> Hn]|(o' & Hr & Ho' & Hs)]); [lia|lia|..].
      * exists (-1). split; [done|]. left. split; [done|]. intros i o' Hi Hio.
        destruct (decide (i = k)) as [->|]; [congruence|]. apply (Hn i); [lia|done].
      * exists r. split; [done|]. right. exists o'. split; [lia|done].
  - exists (-1). split; [done|]. left. split; [done|]. intros i o Hi Ho%zlookup_lt_Some. lia.
Qed.

(** In a table without duplicates the scan decides membership. *)
Lemma offset_linear_find offs sid :
  exists r, Merge.offset_linear (Merge.table_fuel (zlen offs)) offs (zlen offs) 0 sid = Ok r /\
    (((r <? 0) = true /\ (forall o, o ∈ offs -> off_sid o <> sid)) \/
     ((r <? 0) = false /\ exists o, offs !! r = Some o /\ off_sid o = sid)).
Proof.
  pose proof (zlen_nonneg offs).
  destruct (offset_linear_spec offs sid 0 (Merge.table_fuel (zlen offs)))
    as (r & -> & Hr); [lia|unfold Merge.table_fuel; lia|].
  exists r. split; [done|]. destruct Hr as [[-> Hn]|(o & H0 & Ho & Hs)].
  - left. split; [done|]. intros o (i & Hi)%elem_of_zlookup. apply (Hn i); [|done].
    apply zlookup_lt_Some in Hi. lia.
  - right. split; [by apply Z.ltb_ge|eauto].
Qed.

Lemma same_sid offs o o' : NoDup (off_sid <$> offs) -> o ∈ offs -> o' ∈ offs -> off_sid o = off_sid o' -> o = o'.
Proof.
  intros Hnd (i & Hi)%list_elem_of_lookup (j & Hj)%list_elem_of_lookup He.
  assert (i = j) as ->; [|congruence]. eapply (NoDup_lookup (off_sid <$> offs)); [done|..].
  - rewrite list_lookup_fmap, Hi. done.
  - rewrite list_lookup_fmap, Hj. cbn. congruence.
Qed.

(** One entry of the new table: the rows it marks. *)
Lemma union_entry_spec old_s n_old old_map old_bm old_offs new_s n new_map new_bm new_offs ni o st :
  rows_ok old_s n_old old_map old_bm old_offs -> rows_ok new_s n new_map new_bm new_offs ->
  compacted old_map new_map old_offs new_offs -> new_offs !! ni = Some o ->
  exists rows, Merge.union_entry old_map old_bm new_map old_offs new_offs (offsets_count old_s) st ni =
      Ok (mark_rows st rows) /\
    forall q, q ∈ rows <-> exists x, start_offset o <= q < end_offset o /\ new_map !! q = Some x /\
                              deleted_in old_map old_bm old_offs (off_sid o) x.
Proof.
  intros Ho Hn Hc Hni. unfold Merge.union_entry. rewrite (ro_count _ _ _ _ _ Ho). run.
  destruct (offset_linear_find old_offs (off_sid o)) as (r & -> & [[Hr Hnone]|[Hr (o' & Ho' & Hs)]]); cbn [mbind res_bind]; rewrite Hr.
  { exists []. split; [done|]. intros q. split; [by intros ?%elem_of_nil|].
    intros (x & _ & _ & (i & (o' & Hin & Hs & _) & _)). by destruct (Hnone o' Hin). }
  run. assert (Hin : o ∈ new_offs) by (apply elem_of_zlookup; eauto).
  assert (Hin' : o' ∈ old_offs) by (apply elem_of_zlookup; eauto).
  pose proof (ro_ranges _ _ _ _ _ Hn) as Hrn. rewrite Forall_forall in Hrn. specialize (Hrn o Hin).
  pose proof (ro_ranges _ _ _ _ _ Ho) as Hro. rewrite Forall_forall in Hro. specialize (Hro o' Hin').
  pose proof (ro_len _ _ _ _ _ Hn). pose proof (ro_len _ _ _ _ _ Ho).
  destruct (Hc o o' Hin Hin') as [Hsub Hnd]; [done|].
  rewrite offset_merge_spec by (unfold Merge.range_fuel; lia).
  eexists. split; [done|]. intros q. split.
  - intros (i & x & -> & Hi & Hx)%merge_positions_sound. apply slice_lookup in Hi as [Hi Hlt]; [|lia].
    exists x. split; [lia|]. split; [done|].
    apply elem_of_old_rows in Hx as (j & Hj & Hmj & Hbj); [|lia]. exists j. split; [by exists o'|done].
  - intros (x & Hq & Hx & (j & (o2 & Ho2 & Hs2 & Hj & Hmj) & Hbj)).
    assert (o2 = o') as -> by (eapply same_sid; [apply Ho|done|done|congruence]).
    replace q with (start_offset o + Z.of_nat (Z.to_nat (q - start_offset o))) by lia.
    eapply merge_positions_complete with x.
    + by rewrite old_rows_fst.
    + by rewrite old_rows_fst.
    + apply slice_lookup; [lia|]. replace (start_offset o + _) with q by lia. split; [done|lia].
    + apply elem_of_old_rows; [lia|]. eauto.
Qed.

(** What a call leaves in the new segment. *)
Definition marked (s : FlushedSegmentData) (bm : list Z) (dc : Z) : FlushedSegmentData :=
  s <| bitmap_ptr := Some bm |> <| delete_count := dc |>.

Lemma store_marks_spec s n map bm offs rows (P : Z -> Prop) :
  rows_ok s n map bm offs -> 0 <= n < 2 ^ 32 -> 0 <= delete_count s < 2 ^ 32 ->
  (forall q, q ∈ rows <-> P q) -> (forall q, P q -> 0 <= q < n) ->
  exists bm' dc, Merge.store_marks s (mark_rows (bm, 0) rows) = marked s bm' dc /\ zlen bm' = zlen bm /\
    (forall q, 0 <= q -> IS_SLOT_SET bm' q = true <-> IS_SLOT_SET bm q = true \/ P q) /\
    (delete_count s = count_set bm n -> dc = count_set bm' n).
Proof.
  intros Hok Hn Hd Hrows HP.
  destruct (mark_rows_spec n (bm, 0) rows) as (Hz & Hb & Hc); [apply Hok|by intros q Hq%Hrows; apply HP|].
  cbn [fst snd] in Hz, Hb, Hc. set (r := mark_rows (bm, 0) rows) in *.
  exists r.1, (if 0 <? r.2 then u32 (delete_count s + r.2) else delete_count s).
  split; [|split; [done|split]].
  - unfold Merge.store_marks. destruct (0 <? r.2); [done|]. unfold marked. by destruct s.
  - intros q Hq. rewrite Hb by done. rewrite orb_true_iff, bool_decide_eq_true, Hrows. done.
  - intros Hdc. assert (Hmono : count_set bm n <= count_set r.1 n).
    { apply count_set_mono; [lia|]. intros i Hi Hi'. rewrite Hb, Hi' by lia. done. }
    pose proof (count_set_bounds r.1 n). destruct (Z.ltb_spec 0 r.2); [|lia]. rewrite u32_small; lia.
Qed.

(** [union_segment_bitmap_via_offset_merge], for every new row. *)
Lemma union_segment_spec old_s n_old old_map old_bm old_offs new_s n new_map new_bm new_offs :
  rows_ok old_s n_old old_map old_bm old_offs -> rows_ok new_s n new_map new_bm new_offs ->
  compacted old_map new_map old_offs new_offs -> 0 <= n < 2 ^ 32 -> 0 <= delete_count new_s < 2 ^ 32 ->
  exists bm' dc,
    Merge.union_segment_bitmap_via_offset_merge new_s old_s = Ok (marked new_s bm' dc) /\ zlen bm' = zlen new_bm /\
    (forall q, 0 <= q -> IS_SLOT_SET bm' q = true <-> IS_SLOT_SET new_bm q = true \/
       exists sid x, row_of new_map new_offs sid q x /\ deleted_in old_map old_bm old_offs sid x) /\
    (delete_count new_s = count_set new_bm n -> dc = count_set bm' n).
Proof.
  intros Ho Hn Hc Hn0 Hd. unfold Merge.union_segment_bitmap_via_offset_merge.
  rewrite (ro_bitmap _ _ _ _ _ Ho), (ro_map _ _ _ _ _ Ho), (ro_offs _ _ _ _ _ Ho).
  rewrite (ro_bitmap _ _ _ _ _ Hn), (ro_map _ _ _ _ _ Hn), (ro_offs _ _ _ _ _ Hn).
  destruct (foldl_res_ind
    (fun done st => exists rows, st = mark_rows (new_bm, 0) rows /\
       forall q, q ∈ rows <-> exists ni o x, ni ∈ done /\ new_offs !! ni = Some o /\ start_offset o <= q < end_offset o /\
                 new_map !! q = Some x /\ deleted_in old_map old_bm old_offs (off_sid o) x)
    (Merge.union_entry old_map old_bm new_map old_offs new_offs (offsets_count old_s))
    (seqZ 0 (offsets_count new_s)) (new_bm, 0)) as (st & -> & rows & -> & Hrows).
  - exists []. split; [done|]. intros q. split; [by intros ?%elem_of_nil|]. intros (ni & o & x & Hni & _). by apply elem_of_nil in Hni.
  - intros dn ni st (rows & -> & Hrows) [t Ht].
    assert (Hni : ni ∈ seqZ 0 (offsets_count new_s)) by (rewrite Ht; set_solver).
    apply elem_of_seqZ in Hni. rewrite (ro_count _ _ _ _ _ Hn) in Hni.
    destruct (zlookup_lt_is_Some new_offs ni) as [o Hoo]; [lia|].
    destruct (union_entry_spec old_s n_old old_map old_bm old_offs new_s n new_map new_bm new_offs ni o
                (mark_rows (new_bm, 0) rows)) as (rows' & -> & Hrows'); [done..|].
    eexists. split; [done|]. exists (rows ++ rows'). split; [by rewrite mark_rows_app|].
    intros q. rewrite elem_of_app, Hrows, Hrows'. split.
    + intros [(k & o1 & x & Hk & ?)|(x & ?)]; [exists k, o1, x|exists ni, o, x]; set_solver.
    + intros (k & o1 & x & [Hk|Hk%list_elem_of_singleton]%elem_of_app & Ho1 & ?); [left; eauto 6|].
      right. subst. assert (o1 = o) as -> by congruence. eauto.
  - cbn [mbind res_bind].
    edestruct (store_marks_spec new_s n new_map new_bm new_offs rows) as (bm' & dc & -> & Hz & Hb & Hdc);
      [done|done|done| | |exists bm', dc; split; [done|]; split; [done|]; split; [exact Hb|done]].
    + intros q. rewrite Hrows. split.
      * intros (ni & o & x & _ & Hoo & Hq & Hx & Hdl). exists (off_sid o), x. split; [|done]. exists o.
        split; [apply elem_of_zlookup; eauto|done].
      * intros (sid & x & (o & Hin & <- & Hq & Hx) & Hdl). apply elem_of_zlookup in Hin as (ni & Hni).
        exists ni, o, x. split; [|done]. apply elem_of_seqZ. rewrite (ro_count _ _ _ _ _ Hn).
        apply zlookup_lt_Some in Hni. lia.
    + intros q (sid & x & (o & Hin & _ & Hq & Hx) & _). apply zlookup_lt_Some in Hx.
      rewrite (ro_len _ _ _ _ _ Hn) in Hx. done.
Qed.

(** Tuple id [x] of segment id [sid] is in the deletion payload. *)
Definition in_groups (groups : list DpvVacuumGroup) (sid x : Z) : Prop :=
  exists g, g ∈ groups /\ gp_sid g = sid /\ x ∈ gp_tids g.

(** Every group lists rows the segment still has, in the segment's order. *)
Definition groups_present (groups : list DpvVacuumGroup) (map : list Z) (offs : list SegmentOffsetRange) : Prop :=
  forall g o, g ∈ groups -> o ∈ offs -> gp_sid g = off_sid o ->
    sublist (gp_tids g) (sid_rows map o) /\ NoDup (sid_rows map o).

Lemma union_group_spec s n map bm offs g st :
  rows_ok s n map bm offs -> groups_present [g] map offs ->
  exists rows, Merge.union_group map offs (offsets_count s) st g = Ok (mark_rows st rows) /\
    forall q, q ∈ rows <-> exists x, row_of map offs (gp_sid g) q x /\ x ∈ gp_tids g.
Proof.
  intros Hn Hg. unfold Merge.union_group. rewrite (ro_count _ _ _ _ _ Hn).
  destruct (Z.eqb_spec (zlen (gp_tids g)) 0) as [Hz|Hz].
  { exists []. split; [done|]. intros q. split; [by intros ?%elem_of_nil|]. intros (x & _ & Hx).
    destruct (gp_tids g); [by apply elem_of_nil in Hx|]. rewrite zlen_cons in Hz. pose proof (zlen_nonneg l). lia. }
  destruct (offset_linear_find offs (gp_sid g)) as (r & -> & [[Hr Hnone]|[Hr (o & Ho & Hs)]]); cbn [mbind res_bind]; rewrite Hr.
  { exists []. split; [done|]. intros q. split; [by intros ?%elem_of_nil|].
    intros (x & (o & Hin & Hs & _) & _). by destruct (Hnone o Hin). }
  run. assert (Hin : o ∈ offs) by (apply elem_of_zlookup; eauto).
  pose proof (ro_ranges _ _ _ _ _ Hn) as Hrn. rewrite Forall_forall in Hrn. specialize (Hrn o Hin).
  pose proof (ro_len _ _ _ _ _ Hn). destruct (Hg g o) as [Hsub Hnd]; [left|done|done|].
  rewrite tid_walk_spec by (unfold Merge.range_fuel; lia). rewrite drop_0.
  eexists. split; [done|]. intros q. split.
  - intros Hq. pose proof (match_positions_range _ _ _ _ Hq) as Hr'.
    destruct (lookup_lt_is_Some_2 (sid_rows map o) (Z.to_nat (q - start_offset o))) as [x Hx].
    { unfold zlen, sid_rows in *. lia. }
    exists x. split.
    + apply slice_lookup in Hx as [Hx Hlt]; [|lia]. exists o. split; [done|]. split; [done|].
      replace (start_offset o + _) with q in * by lia. split; [lia|done].
    + eapply (match_positions_sound (start_offset o) _ _ _ _ Hnd Hx).
      by replace (start_offset o + _) with q by lia.
  - intros (x & (o2 & Ho2 & Hs2 & Hq & Hx) & Hin').
    assert (o2 = o) as -> by (eapply same_sid; [apply Hn|done|done|congruence]).
    replace q with (start_offset o + Z.of_nat (Z.to_nat (q - start_offset o))) by lia.
    apply match_positions_complete with x; [done|done| |done].
    apply slice_lookup; [lia|]. replace (start_offset o + _) with q by lia. split; [done|lia].
Qed.

(** [union_deletion_entries_into_new_seg], for every row of the segment. *)
Lemma union_deletion_entries_spec s n map bm offs groups :
  rows_ok s n map bm offs -> groups_present groups map offs -> 0 <= n < 2 ^ 32 -> 0 <= delete_count s < 2 ^ 32 ->
  exists bm' dc,
    Merge.union_deletion_entries_into_new_seg s groups = Ok (marked s bm' dc) /\ zlen bm' = zlen bm /\
    (forall q, 0 <= q -> IS_SLOT_SET bm' q = true <-> IS_SLOT_SET bm q = true \/
       exists sid x, row_of map offs sid q x /\ in_groups groups sid x) /\
    (delete_count s = count_set bm n -> dc = count_set bm' n).
Proof.
  intros Hn Hg Hn0 Hd. unfold Merge.union_deletion_entries_into_new_seg.
  rewrite (ro_bitmap _ _ _ _ _ Hn), (ro_map _ _ _ _ _ Hn), (ro_offs _ _ _ _ _ Hn).
  destruct (Z.leb_spec (zlen groups) 0) as [Hz|_].
  { destruct groups; [|rewrite zlen_cons in Hz; pose proof (zlen_nonneg groups); lia].
    exists bm, (delete_count s). split; [|split; [done|split; [|done]]].
    - unfold marked. pose proof (ro_bitmap _ _ _ _ _ Hn). destruct s; cbn in *; by subst.
    - intros q _. split; [by left|]. intros [|(sid & x & _ & (g & Hg' & _))]; [done|by apply elem_of_nil in Hg']. }
  destruct (foldl_res_ind
    (fun done st => exists rows, st = mark_rows (bm, 0) rows /\
       forall q, q ∈ rows <-> exists sid x, row_of map offs sid q x /\ in_groups done sid x)
    (Merge.union_group map offs (offsets_count s)) groups (bm, 0)) as (st & -> & rows & -> & Hrows).
  - exists []. split; [done|]. intros q. split; [by intros ?%elem_of_nil|].
    intros (sid & x & _ & (g & Hg' & _)). by apply elem_of_nil in Hg'.
  - intros dn g st (rows & -> & Hrows) [t Ht].
    destruct (union_group_spec s n map bm offs g (mark_rows (bm, 0) rows)) as (rows' & -> & Hrows'); [done| |].
    { intros g' o ->%list_elem_of_singleton. apply Hg. rewrite Ht. set_solver. }
    eexists. split; [done|]. exists (rows ++ rows'). split; [by rewrite mark_rows_app|].
    intros q. rewrite elem_of_app, Hrows, Hrows'. split.
    + intros [(sid & x & Hx & (g' & Hg' & ?))|(x & Hx & ?)].
      * exists sid, x. split; [done|]. exists g'. set_solver.
      * exists (gp_sid g), x. split; [done|]. exists g. set_solver.
    + intros (sid & x & Hx & (g' & [Hg'|Hg'%list_elem_of_singleton]%elem_of_app & Hs & ?)).
      * left. exists sid, x. split; [done|]. exists g'. done.
      * right. subst. eauto.
  - cbn [mbind res_bind].
    edestruct (store_marks_spec s n map bm offs rows) as (bm' & dc & -> & Hz & Hb & Hdc);
      [done|done|done|exact Hrows| |exists bm', dc; split; [done|]; split; [done|]; split; [exact Hb|done]].
    intros q (sid & x & (o & Hin & _ & Hq & Hx) & _). apply zlookup_lt_Some in Hx.
    rewrite (ro_len _ _ _ _ _ Hn) in Hx. done.
Qed.

(** Taking over the deletion bits of an old segment marks exactly the rows
    of the new one whose tuple is deleted in the old one under the same
    segment id, keeps every bit already set, and keeps the delete count equal
    to the number of deleted rows; a rebuild may have left rows out. *)
Theorem union_carries_tombstones old_s n_old old_map old_bm old_offs new_s n new_map new_bm new_offs :
  rows_ok old_s n_old old_map old_bm old_offs -> rows_ok new_s n new_map new_bm new_offs ->
  compacted old_map new_map old_offs new_offs -> 0 <= n < 2 ^ 32 -> delete_count new_s = count_set new_bm n ->
  exists bm',
    Merge.union_segment_bitmap_via_offset_merge new_s old_s = Ok (marked new_s bm' (count_set bm' n)) /\
    zlen bm' = zlen new_bm /\
    (forall q, 0 <= q -> IS_SLOT_SET bm' q = true <-> IS_SLOT_SET new_bm q = true \/
       exists sid x, row_of new_map new_offs sid q x /\ deleted_in old_map old_bm old_offs sid x).
Proof.
  intros Ho Hn Hc Hn0 Hd.
  destruct (union_segment_spec old_s n_old old_map old_bm old_offs new_s n new_map new_bm new_offs)
    as (bm' & dc & -> & Hz & Hb & Hdc); [done..| |].
  { rewrite Hd. pose proof (count_set_bounds new_bm n). lia. }
  exists bm'. by rewrite (Hdc Hd).
Qed.

(** The deletions captured from memtables mark exactly their rows in the
    new segment, with the count in step, as long as every captured tuple is
    still in the segment. *)
Theorem memtable_tombstones_carried s n map bm offs groups :
  rows_ok s n map bm offs -> groups_present groups map offs -> 0 <= n < 2 ^ 32 -> delete_count s = count_set bm n ->
  exists bm',
    Merge.union_deletion_entries_into_new_seg s groups = Ok (marked s bm' (count_set bm' n)) /\ zlen bm' = zlen bm /\
    (forall q, 0 <= q -> IS_SLOT_SET bm' q = true <-> IS_SLOT_SET bm q = true \/
       exists sid x, row_of map offs sid q x /\ in_groups groups sid x).
Proof.
  intros Hn Hg Hn0 Hd.
  destruct (union_deletion_entries_spec s n map bm offs groups) as (bm' & dc & -> & Hz & Hb & Hdc); [done..| |].
  { rewrite Hd. pose proof (count_set_bounds bm n). lia. }
  exists bm'. by rewrite (Hdc Hd).
Qed.

(** One captured tuple that a rebuild left out of the new segment makes
    the walk skip every later tuple of its group: the result is the same as if
    the rest of the group had never been deleted. *)
Theorem compacted_tuple_hides_later_tombstones s n map bm offs sid pre x post o :
  rows_ok s n map bm offs -> o ∈ offs -> off_sid o = sid -> x ∉ sid_rows map o -> pre <> [] ->
  Merge.union_deletion_entries_into_new_seg s [mkGroup sid (pre ++ x :: post)] =
  Merge.union_deletion_entries_into_new_seg s [mkGroup sid pre].
Proof.
  intros Hn Hin Hs Hx Hpre. unfold Merge.union_deletion_entries_into_new_seg.
  rewrite (ro_bitmap _ _ _ _ _ Hn), (ro_map _ _ _ _ _ Hn), (ro_offs _ _ _ _ _ Hn).
  assert (H1 : forall g : DpvVacuumGroup, (zlen [g] <=? 0) = false) by done. rewrite !H1.
  cbn [foldl_res]. unfold Merge.union_group. cbn [gp_tids gp_sid].
  rewrite zlen_app, zlen_cons. pose proof (zlen_nonneg post).
  assert (1 <= zlen pre) by (destruct pre; [done|rewrite zlen_cons; pose proof (zlen_nonneg pre); lia]).
  destruct (Z.eqb_spec (zlen pre + (1 + zlen post)) 0); [lia|]. destruct (Z.eqb_spec (zlen pre) 0); [lia|].
  rewrite (ro_count _ _ _ _ _ Hn).
  destruct (offset_linear_find offs sid) as (r & -> & [[Hr Hnone]|[Hr (o' & Ho' & Hs')]]); cbn [mbind res_bind]; rewrite Hr; [by destruct (Hnone o Hin)|].
  run. assert (o' = o) as -> by (eapply same_sid; [apply Hn|apply elem_of_zlookup; eauto|done|congruence]).
  pose proof (ro_ranges _ _ _ _ _ Hn) as Hrn. rewrite Forall_forall in Hrn. specialize (Hrn o Hin).
  pose proof (ro_len _ _ _ _ _ Hn). rewrite !tid_walk_spec by (unfold Merge.range_fuel; lia).
  by rewrite !drop_0, match_positions_blocked.
Qed.
End segments.

(** ** Concrete segments

    The old one holds rows 11, 12, 13 of id 3 and 14 of id 4, with 12 and 14
    deleted; the rebuilt one left 11 out. *)
Definition segment_with (map bm : list Z) (offs : list SegmentOffsetRange) : FlushedSegmentData :=
  mkSegment true 3 4 (zlen map) (Some map) FLAT None (Some bm) NIL NIL 1 SEG_FULLY_LOADED
    (count_set bm (zlen map)) false 1 (Some offs) (zlen offs).
Definition old_offs : list SegmentOffsetRange := [mkOffsetRange 3 0 3; mkOffsetRange 4 3 4].
Definition new_offs : list SegmentOffsetRange := [mkOffsetRange 3 0 2; mkOffsetRange 4 2 3].
Definition old_example : FlushedSegmentData := segment_with [11; 12; 13; 14] [10] old_offs.
Definition new_example : FlushedSegmentData := segment_with [12; 13; 14] [0] new_offs.

Lemma segment_with_ok map bm offs :
  covers bm (zlen map) -> Forall (fun o => 0 <= start_offset o /\ end_offset o <= zlen map) offs ->
  NoDup (off_sid <$> offs) -> rows_ok (segment_with map bm offs) (zlen map) map bm offs.
Proof. by split. Qed.

Lemma old_example_ok : rows_ok old_example 4 [11; 12; 13; 14] [10] old_offs.
Proof.
  apply (segment_with_ok [11; 12; 13; 14]); [by vm_compute| |apply (bool_decide_unpack _); by vm_compute].
  repeat constructor; by vm_compute.
Qed.

Lemma new_example_ok : rows_ok new_example 3 [12; 13; 14] [0] new_offs.
Proof.
  apply (segment_with_ok [12; 13; 14]); [by vm_compute| |apply (bool_decide_unpack _); by vm_compute].
  repeat constructor; by vm_compute.
Qed.

Lemma union_carries_tombstones_witness :
  Merge.union_segment_bitmap_via_offset_merge new_example old_example = Ok (marked new_example [5] 2) /\
  exists bm', Merge.union_segment_bitmap_via_offset_merge new_example old_example = Ok (marked new_example bm' (count_set bm' 3)).
Proof.
  split; [vm_compute; reflexivity|].
  destruct (union_carries_tombstones old_example 4 [11; 12; 13; 14] [10] old_offs
              new_example 3 [12; 13; 14] [0] new_offs) as (bm' & He & _).
  - apply old_example_ok.
  - apply new_example_ok.
  - intros o o' Ho Ho' Hs. unfold new_offs, old_offs in *. rewrite !elem_of_cons, elem_of_nil in Ho, Ho'.
    destruct Ho as [->|[->|[]]], Ho' as [->|[->|[]]]; try (vm_compute in Hs; discriminate);
      split; vm_compute; repeat constructor; set_solver.
  - lia.
  - vm_compute. reflexivity.
  - exists bm'. exact He.
Defined.

Lemma memtable_tombstones_carried_witness :
  Merge.union_deletion_entries_into_new_seg new_example [mkGroup 3 [13]] = Ok (marked new_example [2] 1) /\
  exists bm', Merge.union_deletion_entries_into_new_seg new_example [mkGroup 3 [13]] =
    Ok (marked new_example bm' (count_set bm' 3)).
Proof.
  split; [vm_compute; reflexivity|].
  destruct (memtable_tombstones_carried new_example 3 [12; 13; 14] [0] new_offs [mkGroup 3 [13]]) as (bm' & He & _).
  - apply new_example_ok.
  - intros g o ->%list_elem_of_singleton Ho Hs. unfold new_offs in Ho. rewrite !elem_of_cons, elem_of_nil in Ho.
    destruct Ho as [->|[->|[]]]; try (vm_compute in Hs; discriminate).
    split; vm_compute; repeat constructor; set_solver.
  - lia.
  - vm_compute. reflexivity.
  - exists bm'. exact He.
Defined.

(** Tuple 11 was compacted away: the deletion of 13 behind it is lost. *)
Lemma compacted_tuple_hides_later_tombstones_witness :
  Merge.union_deletion_entries_into_new_seg new_example [mkGroup 3 [12; 11; 13]] =
    Merge.union_deletion_entries_into_new_seg new_example [mkGroup 3 [12]] /\
  Merge.union_deletion_entries_into_new_seg new_example [mkGroup 3 [12]] = Ok (marked new_example [1] 1).
Proof.
  split; [|vm_compute; reflexivity].
  apply (compacted_tuple_hides_later_tombstones new_example 3 [12; 13; 14] [0] new_offs 3 [12] 11 [13]
           (mkOffsetRange 3 0 2)).
  - apply new_example_ok.
  - left.
  - reflexivity.
  - vm_compute. set_solver.
  - discriminate.
Defined.
