(* ===== verification/Adoption.v ===== *)
(** Adoption of a shipped segment on a standby (segment_adoption.c).

    [dpv_pool_adopt] reserves a slot, loads the new segment into it without any
    lock, decides under the shared lock what the segment displaces, re-checks
    that decision under the displaced segments' mutexes, carries their deletion
    bits over and publishes.  What other threads do to the pool while the
    function holds no lock is a parameter of the model, one function per
    window. *)

From S2P Require Import Prelude Bitmap SegmentPool Tombstones.

(** ** Index slots *)

Definition LSM_SLOT_FREE : Z := 0.
Definition LSM_SLOT_RECOVERING : Z := 1.
Definition LSM_SLOT_WRITABLE : Z := 2.
Definition LSM_SLOT_LOADING_INDEX : Z := 3.
Definition LSM_SLOT_QUERYABLE : Z := 4.

Definition is_writable (v : Z) : bool :=
  (v =? LSM_SLOT_WRITABLE) || (v =? LSM_SLOT_LOADING_INDEX) || (v =? LSM_SLOT_QUERYABLE).
Definition is_queryable (v : Z) : bool := v =? LSM_SLOT_QUERYABLE.

Definition INDEX_BUF_SIZE : Z := 8.

(** The fields of [LSMIndexBufferSlot] adoption looks at. *)
Record SlotView := mkSlotView { sv_valid : Z; sv_indexRelId : Z }.

(** ** The code *)
Module Adopt.

Inductive DpvAdoptionOutcome := DPV_ADOPT_ADOPTED | DPV_ADOPT_STALE_DISCARD | DPV_ADOPT_INDEX_UNLOADED.

Fixpoint strictly_containing_loop (fuel : nat) (pool : FlushedSegmentPool) (idx a b : Z) : res Z :=
  match fuel with
  | O => Error OutOfFuel
  | S fuel =>
      if idx =? NIL then Ok NIL
      else
        seg ← arr_get (flushed_segments pool) idx;
        if in_used seg && (segment_id_start seg <=? a) && (b <=? segment_id_end seg) &&
           negb ((segment_id_start seg =? a) && (segment_id_end seg =? b))
        then Ok idx
        else if idx =? tail_idx pool then Ok NIL
        else strictly_containing_loop fuel pool (next_idx seg) a b
  end.

Definition find_strictly_containing (pool : FlushedSegmentPool) (a b : Z) : res Z :=
  strictly_containing_loop Pool.list_fuel pool (head_idx pool) a b.

Record PredSnap := mkSnap { snap_idx : Z; snap_start : Z; snap_end : Z; snap_version : Z }.

Definition snap_of (idx : Z) (seg : FlushedSegmentData) : PredSnap :=
  mkSnap idx (segment_id_start seg) (segment_id_end seg) (version seg).

(** [case_kind] 1, 2, 3, 4. *)
Inductive decision := CaseA (s : PredSnap) | Stale | CaseD | CaseE (snaps : list PredSnap).
#[global] Instance PredSnap_eq_dec : EqDecision PredSnap.
Proof. solve_decision. Defined.
#[global] Instance decision_eq_dec : EqDecision decision.
Proof. solve_decision. Defined.

(** [for (s = lo; s < hi; s++)] every id is in [memtable_cover].  Segment ids
    stay below the sentinel, so the counter does not wrap. *)
Definition all_in_cover (cover : list Z) (lo hi : Z) : bool :=
  forallb (fun s => bool_decide (s ∈ cover)) (seqZ lo (hi - lo)).

(** Case A: an exact match ([None]: no match). *)
Definition decide_exact (pool : FlushedSegmentPool) (start_sid end_sid version : Z) : res (option decision) :=
  found ← Pool.find_segment_by_sids pool start_sid end_sid;
  if found =? NIL then Ok None
  else
    existing ← arr_get (flushed_segments pool) found;
    if in_used existing && (SegmentPool.version existing <? version)
    then Ok (Some (CaseA (snap_of found existing))) else Ok (Some Stale).

(** The tiling walk: [None] is [tile_ok = false]; otherwise the displaced
    segments and the first id after the last of them. *)
Fixpoint tile_walk (fuel : nat) (pool : FlushedSegmentPool) (cover : list Z) (start_sid end_sid : Z)
    (cur tile_lo : Z) (snaps : list PredSnap) : res (option (list PredSnap * Z)) :=
  match fuel with
  | O => Error OutOfFuel
  | S fuel =>
      if cur =? NIL then Ok (Some (snaps, tile_lo))
      else
        seg ← arr_get (flushed_segments pool) cur;
        if segment_id_end seg <? start_sid then
          if next_idx seg =? head_idx pool then Ok (Some (snaps, tile_lo))
          else tile_walk fuel pool cover start_sid end_sid (next_idx seg) tile_lo snaps
        else if end_sid <? segment_id_start seg then Ok (Some (snaps, tile_lo))
        else if end_sid <? segment_id_end seg then Ok None
        else if negb (all_in_cover cover tile_lo (segment_id_start seg)) then Ok None
        else if MAX_SEGMENTS_COUNT <=? zlen snaps then Ok None
        else tile_walk fuel pool cover start_sid end_sid (next_idx seg)
               (u32 (segment_id_end seg + 1)) (snaps ++ [snap_of cur seg])
  end.

Definition decide_tiling (pool : FlushedSegmentPool) (cover : list Z) (start_sid end_sid : Z) : res decision :=
  r ← tile_walk Pool.list_fuel pool cover start_sid end_sid (head_idx pool) start_sid [];
  match r with
  | None => Ok Stale
  | Some (snaps, tile_lo) =>
      if negb (all_in_cover cover tile_lo (end_sid + 1)) then Ok Stale
      else match snaps with [] => Ok CaseD | _ => Ok (CaseE snaps) end
  end.

(** 3.1 and 3.2. *)
Definition decide_case (pool : FlushedSegmentPool) (cover : list Z) (start_sid end_sid version : Z)
    : res decision :=
  a ← decide_exact pool start_sid end_sid version;
  match a with
  | Some d => Ok d
  | None =>
      c ← find_strictly_containing pool start_sid end_sid;
      if negb (c =? NIL) then Ok Stale else decide_tiling pool cover start_sid end_sid
  end.

Definition decision_snaps (d : decision) : list PredSnap :=
  match d with CaseA s => [s] | CaseE snaps => snaps | Stale | CaseD => [] end.

(** 3.5: [true] when some snapshot is stale. *)
Fixpoint snapshots_stale (pool : FlushedSegmentPool) (snaps : list PredSnap) : res bool :=
  match snaps with
  | [] => Ok false
  | s :: snaps =>
      p ← arr_get (flushed_segments pool) (snap_idx s);
      if negb (in_used p) || negb (segment_id_start p =? snap_start s) ||
         negb (segment_id_end p =? snap_end s) || negb (version p =? snap_version s)
      then Ok true else snapshots_stale pool snaps
  end.

(** 3.6 *)
Definition union_old (new_slot : Z) (pool : FlushedSegmentPool) (s : PredSnap) : res FlushedSegmentPool :=
  old_seg ← arr_get (flushed_segments pool) (snap_idx s);
  new_seg ← arr_get (flushed_segments pool) new_slot;
  new_seg ← Merge.union_segment_bitmap_via_offset_merge new_seg old_seg;
  Ok (pool <| flushed_segments ::= <[new_slot := new_seg]> |>).

Definition union_groups (groups : list DpvVacuumGroup) (new_slot : Z) (pool : FlushedSegmentPool)
    : res FlushedSegmentPool :=
  new_seg ← arr_get (flushed_segments pool) new_slot;
  new_seg ← Merge.union_deletion_entries_into_new_seg new_seg groups;
  Ok (pool <| flushed_segments ::= <[new_slot := new_seg]> |>).

Definition carry_tombstones (groups : list DpvVacuumGroup) (new_slot : Z) (pool : FlushedSegmentPool)
    (d : decision) : res FlushedSegmentPool :=
  match d with
  | CaseA s => union_old new_slot pool s
  | CaseD => union_groups groups new_slot pool
  | CaseE snaps => pool ← foldl_res (union_old new_slot) pool snaps; union_groups groups new_slot pool
  | Stale => Ok pool
  end.

(** 3.7, under the write lock. *)
Definition publish (capacity new_slot : Z) (pool : FlushedSegmentPool) (d : decision) : res FlushedSegmentPool :=
  let pool := pool <| seg_lock := WriteHeld |> in
  pool ← match d with
         | CaseD => Pool.register_flushed_segment capacity pool new_slot
         | _ => Pool.replace_flushed_segments_n capacity pool (snap_idx <$> decision_snaps d) new_slot
         end;
  Ok (pool <| seg_lock := Unlocked |>).

Section adopt.
Context (capacity : Z).
(** [load_and_set_segment] of the new segment's files, on the reserved slot. *)
Context (load : FlushedSegmentData -> res FlushedSegmentData).
(** What other threads do to the pool in the [k]-th window without the lock. *)
Context (others : nat -> FlushedSegmentPool -> FlushedSegmentPool).
Context (start_sid end_sid version : Z) (cover : list Z) (groups : list DpvVacuumGroup).

Definition MAX_ADOPT_RETRIES : nat := 4.

(** One round of the loop: [None] asks for a retry. *)
Definition adopt_round (new_slot : Z) (k : nat) (pool : FlushedSegmentPool)
    : res (option DpvAdoptionOutcome * FlushedSegmentPool) :=
  d ← decide_case pool cover start_sid end_sid version;
  let pool := others (2 * k + 1) pool in
  match d with
  | Stale => Ok (Some DPV_ADOPT_STALE_DISCARD, pool)
  | _ =>
      stale ← snapshots_stale pool (decision_snaps d);
      if stale : bool then Ok (None, pool)
      else
        pool ← carry_tombstones groups new_slot pool d;
        pool ← publish capacity new_slot (others (2 * k + 2) pool) d;
        Ok (Some DPV_ADOPT_ADOPTED, pool)
  end.

(** The loop; [outcome] starts as [DPV_ADOPT_STALE_DISCARD] and keeps that
    value when the retries run out. *)
Fixpoint adopt_loop (retries : nat) (new_slot : Z) (k : nat) (pool : FlushedSegmentPool)
    : res (DpvAdoptionOutcome * FlushedSegmentPool) :=
  match retries with
  | O => Ok (DPV_ADOPT_STALE_DISCARD, pool)
  | S retries =>
      r ← adopt_round new_slot k pool;
      match r.1 with
      | Some outcome => Ok (outcome, r.2)
      | None => adopt_loop retries new_slot (S k) r.2
      end
  end.

Definition finalize (new_slot : Z) (r : DpvAdoptionOutcome * FlushedSegmentPool)
    : res (DpvAdoptionOutcome * FlushedSegmentPool) :=
  match r.1 with
  | DPV_ADOPT_ADOPTED => Ok r
  | outcome => pool ← Pool.discard_reserved_segment r.2 new_slot; Ok (outcome, pool)
  end.

Definition adopt_body (pool : FlushedSegmentPool) : res (DpvAdoptionOutcome * FlushedSegmentPool) :=
  r ← Pool.reserve_flushed_segment pool;
  let '(new_slot, pool) := r in
  if new_slot =? NIL then Ok (DPV_ADOPT_STALE_DISCARD, pool)
  else
    s ← arr_get (flushed_segments pool) new_slot;
    s ← load s;
    let pool := pool <| flushed_segments ::= <[new_slot := s <| SegmentPool.version := version |>]> |> in
    r ← adopt_loop MAX_ADOPT_RETRIES new_slot 0 (others 0 pool);
    finalize new_slot r.

Definition dpv_pool_adopt (lsm_idx indexRelId : Z) (slots : list SlotView) (pool : FlushedSegmentPool)
    : res (DpvAdoptionOutcome * FlushedSegmentPool) :=
  if (lsm_idx <? 0) || (INDEX_BUF_SIZE <=? lsm_idx) then Ok (DPV_ADOPT_INDEX_UNLOADED, pool)
  else
    slot ← arr_get slots lsm_idx;
    if negb (is_queryable (sv_valid slot)) then Ok (DPV_ADOPT_INDEX_UNLOADED, pool)
    else if negb (sv_indexRelId slot =? indexRelId) then Ok (DPV_ADOPT_INDEX_UNLOADED, pool)
    else adopt_body pool.
End adopt.

End Adopt.

(** ** What the decision means *)

Definition end_of (segs : list FlushedSegmentData) (i : Z) : Z :=
  match segs !! i with Some s => segment_id_end s | None => 0 end.

(** Published ranges are valid, and each ends before the next one starts. *)
Record ids_ok (segs : list FlushedSegmentData) (l : list Z) : Prop := {
  io_range : forall i, i ∈ l -> 0 <= start_of segs i <= end_of segs i /\ end_of segs i < UINT32_MAX;
  io_sorted : StronglySorted (fun i j => end_of segs i < start_of segs j) l }.

Definition holds_sid (segs : list FlushedSegmentData) (i s : Z) : Prop := start_of segs i <= s <= end_of segs i.

Section tiling.
Implicit Types (segs : list FlushedSegmentData) (l : list Z) (pool : FlushedSegmentPool).

Lemma slot_ends segs i s : segs !! i = Some s -> start_of segs i = segment_id_start s /\ end_of segs i = segment_id_end s.
Proof. intros Hs. unfold start_of, end_of. by rewrite Hs. Qed.

Lemma ids_ok_app segs l1 l2 : ids_ok segs (l1 ++ l2) -> ids_ok segs l2.
Proof.
  intros [Hr Hs]. split; [intros i Hi; apply Hr; set_solver|]. by apply StronglySorted_app_1_r in Hs.
Qed.

Lemma ids_ok_order segs l1 i l2 :
  ids_ok segs (l1 ++ i :: l2) ->
  (forall j, j ∈ l1 -> end_of segs j < start_of segs i) /\ (forall j, j ∈ l2 -> end_of segs i < start_of segs j).
Proof.
  intros [_ Hs]. split.
  - intros j Hj. apply StronglySorted_app in Hs as (Hs & _). apply Hs; [done|left].
  - apply StronglySorted_app_1_r in Hs. apply StronglySorted_inv in Hs as [_ Hf].
    rewrite Forall_forall in Hf. exact Hf.
Qed.

Lemma all_in_cover_true cover lo hi :
  Adopt.all_in_cover cover lo hi = true <-> forall s, lo <= s < hi -> s ∈ cover.
Proof.
  unfold Adopt.all_in_cover. rewrite forallb_forall. split.
  - intros H s Hs. specialize (H s). rewrite bool_decide_eq_true in H. apply H.
    apply list_elem_of_In, elem_of_seqZ. lia.
  - intros H s Hs%list_elem_of_In%elem_of_seqZ. rewrite bool_decide_eq_true. apply H. lia.
Qed.

Lemma all_in_cover_false cover lo hi :
  Adopt.all_in_cover cover lo hi = false -> exists s, lo <= s < hi /\ s ∉ cover.
Proof.
  unfold Adopt.all_in_cover. intros H.
  destruct (decide (Exists (fun s => s ∉ cover) (seqZ lo (hi - lo)))) as [He|Hn].
  - apply Exists_exists in He as (s & Hs%elem_of_seqZ & Hc). exists s. split; [lia|done].
  - exfalso. apply not_Exists_Forall in Hn; [|apply _]. rewrite Forall_forall in Hn.
    assert (forallb (fun s => bool_decide (s ∈ cover)) (seqZ lo (hi - lo)) = true); [|congruence].
    apply forallb_forall. intros s Hs%list_elem_of_In. rewrite bool_decide_eq_true. apply dec_stable. by apply Hn.
Qed.

Definition snap_at segs (i : Z) : Adopt.PredSnap :=
  match segs !! i with Some s => Adopt.snap_of i s | None => Adopt.mkSnap i 0 0 0 end.

Lemma snap_idx_at segs l : Adopt.snap_idx <$> (snap_at segs <$> l) = l.
Proof.
  induction l as [|i l IH]; [done|]. cbn. rewrite IH. f_equal. unfold snap_at. by destruct (segs !! i).
Qed.

(** The walk never comes back to the head. *)
Lemma next_not_head pool l1 i l2 s :
  pool_wf pool (l1 ++ i :: l2) -> flushed_segments pool !! i = Some s -> next_idx s <> head_idx pool.
Proof.
  intros Hw Hs. destruct (walk_slot _ _ _ _ Hw) as (s' & Hs' & _ & _ & Hn & _).
  assert (s' = s) as -> by congruence. rewrite Hn, (pw_head _ _ Hw), hd_or_app. cbn [hd_or].
  pose proof (lw_nodup _ _ (pw_list _ _ Hw)) as Hnd.
  assert (Hh : hd_or i l1 ∈ l1 ++ [i]) by (destruct l1 as [|j l1]; cbn; left).
  destruct l2 as [|j l2]; cbn [hd_or].
  - intros Heq. apply (list_wf_not_nil _ _ (pw_list _ _ Hw)). rewrite Heq. set_solver.
  - intros ->. change (i :: hd_or i l1 :: l2) with ([i] ++ (hd_or i l1 :: l2)) in Hnd.
    rewrite app_assoc in Hnd. apply NoDup_app in Hnd as (_ & Hnd & _). apply (Hnd _ Hh). left.
Qed.

(** Either the tiling fails for a reason, or it splits the list. *)
Definition tile_result segs (cover : list Z) (a b lo : Z) (snaps : list Adopt.PredSnap) (l : list Z)
    (r : option (list Adopt.PredSnap * Z)) : Prop :=
  match r with
  | None =>
      (exists i, i ∈ l /\ a <= end_of segs i /\ start_of segs i <= b < end_of segs i) \/
      (exists s, lo <= s <= b /\ (s ∉ cover) /\ forall i, i ∈ l -> ~ holds_sid segs i s)
  | Some (snaps', lo') =>
      exists before mid after, l = before ++ mid ++ after /\ snaps' = snaps ++ (snap_at segs <$> mid) /\
        (forall i, i ∈ before -> end_of segs i < a) /\ (forall i, i ∈ after -> b < start_of segs i) /\
        (forall i, i ∈ mid -> a <= end_of segs i <= b /\ end_of segs i < lo') /\
        (forall s, lo <= s < lo' -> s ∈ cover \/ exists i, i ∈ mid /\ holds_sid segs i s) /\
        a <= lo' /\ (mid = [] -> lo' = lo)
  end.

Lemma tile_result_stop segs cover a b lo snaps l :
  (forall i, i ∈ l -> b < start_of segs i) -> a <= lo -> tile_result segs cover a b lo snaps l (Some (snaps, lo)).
Proof.
  intros Ha Hlo. exists [], [], l. rewrite app_nil_r. do 2 (split; [done|]).
  split; [by intros ? ?%elem_of_nil|]. split; [exact Ha|]. split; [by intros ? ?%elem_of_nil|].
  split; [intros; lia|]. done.
Qed.

Lemma tile_walk_spec pool cover a b l1 l2 lo snaps fuel :
  pool_wf pool (l1 ++ l2) -> ids_ok (flushed_segments pool) (l1 ++ l2) -> (length l2 < fuel)%nat ->
  zlen snaps + zlen l2 <= MAX_SEGMENTS_COUNT -> a <= lo ->
  (forall i, i ∈ l2 -> a <= end_of (flushed_segments pool) i -> lo <= end_of (flushed_segments pool) i) ->
  exists r, Adopt.tile_walk fuel pool cover a b (hd_or NIL l2) lo snaps = Ok r /\
    tile_result (flushed_segments pool) cover a b lo snaps l2 r.
Proof.
  revert l1 lo snaps fuel; induction l2 as [|i l2 IH]; intros l1 lo snaps fuel Hw Hi Hf Hc Hlo Hle; (destruct fuel; [cbn in Hf; lia|]).
  { exists (Some (snaps, lo)). split; [done|]. apply tile_result_stop; [by intros ? ?%elem_of_nil|done]. }
  destruct (walk_slot _ _ _ _ Hw) as (s & Hs & _ & Hnil & Hnx & _).
  destruct (slot_ends _ _ _ Hs) as [Est Een]. destruct (ids_ok_order _ _ _ _ Hi) as [_ Hafter].
  pose proof (io_range _ _ Hi i ltac:(set_solver)) as Hrange.
  assert (IH' : forall lo' snaps', zlen snaps' + zlen l2 <= MAX_SEGMENTS_COUNT -> a <= lo' ->
    (forall j, j ∈ l2 -> a <= end_of (flushed_segments pool) j -> lo' <= end_of (flushed_segments pool) j) ->
    exists r, Adopt.tile_walk fuel pool cover a b (next_idx s) lo' snaps' = Ok r /\
      tile_result (flushed_segments pool) cover a b lo' snaps' l2 r).
  { intros. rewrite Hnx. apply (IH (l1 ++ [i])); [by rewrite <-app_assoc|by rewrite <-app_assoc|cbn in Hf; lia|done|done|done]. }
  rewrite zlen_cons in Hc. cbn [Adopt.tile_walk hd_or]. destruct (Z.eqb_spec i NIL); [done|]. run.
  rewrite <-Est, <-Een.
  destruct (Z.ltb_spec (end_of (flushed_segments pool) i) a) as [Hskip|Hskip].
  { destruct (Z.eqb_spec (next_idx s) (head_idx pool)) as [Hh|_]; [by destruct (next_not_head _ _ _ _ _ Hw Hs)|].
    destruct (IH' lo snaps) as (r & -> & Hr); [lia|done|by intros j Hj; apply Hle; right|]. exists r. split; [done|]. destruct r as [[snaps' lo']|].
    - destruct Hr as (bf & mid & af & -> & -> & Hb & Ha & Hm & Hcov & Hl & Hl').
      exists (i :: bf), mid, af. do 2 (split; [done|]). split; [|done].
      intros j [->|Hj]%elem_of_cons; [done|by apply Hb].
    - destruct Hr as [(j & Hj & ?)|(x & Hx & Hxc & Hn)].
      + left. exists j. split; [by right|done].
      + right. exists x. split; [done|]. split; [done|]. intros j [->|Hj]%elem_of_cons; [|by apply Hn].
        unfold holds_sid. lia. }
  destruct (Z.ltb_spec b (start_of (flushed_segments pool) i)) as [Hpast|Hpast].
  { exists (Some (snaps, lo)). split; [done|]. apply tile_result_stop; [|done].
    intros j [->|Hj]%elem_of_cons; [done|]. specialize (Hafter j Hj). lia. }
  destruct (Z.ltb_spec b (end_of (flushed_segments pool) i)) as [Hover|Hover].
  { exists None. split; [done|]. left. exists i. split; [left|]. lia. }
  destruct (Adopt.all_in_cover cover lo _) eqn:Hcov; cbn [negb].
  2:{ exists None. split; [done|]. right. apply all_in_cover_false in Hcov as (x & Hx & Hxc). exists x.
      split; [lia|]. split; [done|]. intros j [->|Hj]%elem_of_cons; unfold holds_sid; [lia|].
      specialize (Hafter j Hj). lia. }
  rewrite all_in_cover_true in Hcov.
  destruct (Z.leb_spec MAX_SEGMENTS_COUNT (zlen snaps)) as [Hfull|_]; [pose proof (zlen_nonneg l2); lia|].
  unfold UINT32_MAX in Hrange. rewrite u32_small by lia.
  destruct (IH' (end_of (flushed_segments pool) i + 1) (snaps ++ [Adopt.snap_of i s])) as (r & -> & Hr);
    [rewrite zlen_app; change (zlen [_]) with 1; lia|lia| |].
  { intros j Hj _. specialize (Hafter j Hj). pose proof (io_range _ _ Hi j ltac:(set_solver)). lia. }
  specialize (Hle i ltac:(left) Hskip).
  exists r. split; [done|]. destruct r as [[snaps' lo']|].
  - destruct Hr as (bf & mid & af & -> & -> & Hb & Ha & Hm & Hcov' & Hl & Hl').
    assert (bf = []) as ->.
    { destruct bf as [|j bf]; [done|]. exfalso. specialize (Hb j ltac:(left)). specialize (Hafter j ltac:(left)).
      pose proof (io_range _ _ Hi j ltac:(set_solver)). lia. }
    assert (Hend : end_of (flushed_segments pool) i < lo').
    { destruct mid as [|j mid]; [rewrite Hl' by done; lia|]. specialize (Hafter j ltac:(set_solver)).
      specialize (Hm j ltac:(left)). pose proof (io_range _ _ Hi j ltac:(set_solver)). lia. }
    exists [], (i :: mid), af. split; [done|]. split.
    { rewrite <-app_assoc. do 2 f_equal. cbn. unfold snap_at. by rewrite Hs. }
    split; [by intros ? ?%elem_of_nil|]. split; [done|]. split; [|split; [|split; [lia|done]]].
    + intros j [->|Hj]%elem_of_cons; [lia|by apply Hm].
    + intros x Hx. destruct (decide (x < start_of (flushed_segments pool) i)); [left; apply Hcov; lia|].
      destruct (decide (x <= end_of (flushed_segments pool) i)).
      * right. exists i. split; [left|]. unfold holds_sid. lia.
      * destruct (Hcov' x) as [|(j & Hj & Hh)]; [lia|by left|]. right. exists j. split; [by right|done].
  - destruct Hr as [(j & Hj & ?)|(x & Hx & Hxc & Hn)].
    + left. exists j. split; [by right|done].
    + right. exists x. split; [lia|]. split; [done|]. intros j [->|Hj]%elem_of_cons; [|by apply Hn].
      unfold holds_sid. lia.
Qed.
End tiling.

Definition strictly_contains (a b : Z) (s : FlushedSegmentData) : bool :=
  (segment_id_start s <=? a) && (b <=? segment_id_end s) && negb ((segment_id_start s =? a) && (segment_id_end s =? b)).

Section decision.
Implicit Types (segs : list FlushedSegmentData) (l : list Z) (pool : FlushedSegmentPool).

Lemma strictly_containing_spec pool l1 l2 a b fuel :
  pool_wf pool (l1 ++ l2) -> (length l2 < fuel)%nat ->
  Adopt.strictly_containing_loop fuel pool (hd_or NIL l2) a b =
    Ok (first_slot (strictly_contains a b) (flushed_segments pool) l2).
Proof.
  revert l1 fuel; induction l2 as [|i l2 IH]; intros l1 fuel Hw Hf; (destruct fuel; [cbn in Hf; lia|]).
  { done. }
  destruct (walk_slot _ _ _ _ Hw) as (s & Hs & Hu & Hn & Hnx & Ht).
  cbn [Adopt.strictly_containing_loop hd_or first_slot].
  destruct (Z.eqb_spec i NIL); [done|]. run. rewrite Hu, Hs. cbn [andb]. fold (strictly_contains a b s).
  destruct (strictly_contains a b s); [done|]. rewrite Ht. case_bool_decide as Hl2; [by subst|].
  rewrite Hnx. apply (IH (l1 ++ [i])); [by rewrite <-app_assoc|cbn in Hf; lia].
Qed.

(** A first slot that is not the sentinel satisfies the test; the sentinel
    means that none does. *)
Lemma first_slot_spec P pool l :
  pool_wf pool l ->
  let i := first_slot P (flushed_segments pool) l in
  (i <> NIL -> i ∈ l /\ exists s, flushed_segments pool !! i = Some s /\ P s = true) /\
  (i = NIL -> forall j s, j ∈ l -> flushed_segments pool !! j = Some s -> P s = false).
Proof.
  intros Hw. pose proof (list_wf_not_nil _ _ (pw_list _ _ Hw)) as Hnn. clear Hw. cbn zeta.
  induction l as [|j l IH]; cbn.
  { split; [done|]. by intros _ ? ? ?%elem_of_nil. }
  destruct IH as [IH1 IH2]; [set_solver|]. destruct (flushed_segments pool !! j) as [s|] eqn:Hs.
  - destruct (P s) eqn:HP.
    + split; [intros _; split; [left|eauto]|]. intros ->. exfalso. apply Hnn. left.
    + split; [intros Hn; destruct (IH1 Hn); split; [by right|done]|].
      intros Hn k sk [->|Hk]%elem_of_cons Hsk; [congruence|by eapply IH2].
  - split; [intros Hn; destruct (IH1 Hn); split; [by right|done]|].
    intros Hn k sk [->|Hk]%elem_of_cons Hsk; [congruence|by eapply IH2].
Qed.

(** What each decision stands for, on the published list. *)
Definition decision_means segs l (cover : list Z) (a b v : Z) (d : Adopt.decision) : Prop :=
  match d with
  | Adopt.CaseA s =>
      exists i si, i ∈ l /\ segs !! i = Some si /\ s = Adopt.snap_of i si /\ range_of si = (a, b) /\ version si < v
  | Adopt.CaseD => (forall i, i ∈ l -> end_of segs i < a \/ b < start_of segs i) /\ forall s, a <= s <= b -> s ∈ cover
  | Adopt.CaseE snaps =>
      exists before mid after, l = before ++ mid ++ after /\ mid <> [] /\ snaps = snap_at segs <$> mid /\
        (forall i, i ∈ before -> end_of segs i < a) /\ (forall i, i ∈ after -> b < start_of segs i) /\
        (forall i, i ∈ mid -> a <= end_of segs i <= b) /\
        forall s, a <= s <= b -> s ∈ cover \/ exists i, i ∈ mid /\ holds_sid segs i s
  | Adopt.Stale =>
      (exists i si, i ∈ l /\ segs !! i = Some si /\ range_of si = (a, b) /\ v <= version si) \/
      (exists i si, i ∈ l /\ segs !! i = Some si /\ strictly_contains a b si = true) \/
      (exists i, i ∈ l /\ a <= end_of segs i /\ start_of segs i <= b < end_of segs i) \/
      (exists s, a <= s <= b /\ (s ∉ cover) /\ forall i, i ∈ l -> ~ holds_sid segs i s)
  end.

Definition no_exact_match segs l (a b : Z) : Prop :=
  forall i si, i ∈ l -> segs !! i = Some si -> range_of si <> (a, b).

Lemma decide_exact_spec pool l a b v :
  pool_wf pool l ->
  exists o, Adopt.decide_exact pool a b v = Ok o /\
    match o with
    | Some (Adopt.CaseA s) => decision_means (flushed_segments pool) l [] a b v (Adopt.CaseA s)
    | Some Adopt.Stale =>
        exists i si, i ∈ l /\ flushed_segments pool !! i = Some si /\ range_of si = (a, b) /\ v <= version si
    | Some _ => False
    | None => no_exact_match (flushed_segments pool) l a b
    end.
Proof.
  intros Hw. unfold Adopt.decide_exact, Pool.find_segment_by_sids. rewrite (pw_head _ _ Hw).
  rewrite (find_by_sids_loop_spec pool [] l) by (done || apply (list_wf_fuel _ _ (pw_list _ _ Hw))).
  cbn [mbind res_bind]. destruct (first_slot_spec (exact_range a b) pool l Hw) as [Hsome Hnone].
  set (i := first_slot _ _ l) in *. destruct (Z.eqb_spec i NIL) as [He|Hne].
  - exists None. split; [done|]. intros j s Hj Hs Hr. specialize (Hnone He j s Hj Hs).
    unfold exact_range in Hnone. unfold range_of in Hr. injection Hr as E1 E2. by rewrite E1, E2, !Z.eqb_refl in Hnone.
  - destruct (Hsome Hne) as (Hi & s & Hs & Hr). unfold exact_range in Hr. rewrite andb_true_iff, !Z.eqb_eq in Hr.
    assert (Hrange : range_of s = (a, b)) by (unfold range_of; destruct Hr; congruence).
    run. rewrite (lw_used _ _ (pw_list _ _ Hw) i s Hi Hs). cbn [andb].
    destruct (Z.ltb_spec (version s) v); eexists; (split; [reflexivity|]); by exists i, s.
Qed.

Lemma decide_tiling_spec pool l cover a b :
  pool_wf pool l -> ids_ok (flushed_segments pool) l ->
  exists d, Adopt.decide_tiling pool cover a b = Ok d /\
    (forall v, decision_means (flushed_segments pool) l cover a b v d) /\ (forall s, d <> Adopt.CaseA s).
Proof.
  intros Hw Hi. unfold Adopt.decide_tiling. rewrite (pw_head _ _ Hw).
  pose proof (list_wf_fuel _ _ (pw_list _ _ Hw)) as Hfuel.
  destruct (tile_walk_spec pool cover a b [] l a [] Pool.list_fuel) as (r & -> & Hr);
    [done|done|done|unfold Pool.list_fuel in Hfuel; unfold zlen, MAX_SEGMENTS_COUNT; cbn [length]; lia|lia|done|].
  cbn [mbind res_bind]. destruct r as [[snaps lo]|].
  - destruct Hr as (bf & mid & af & -> & -> & Hb & Ha & Hm & Hcov & Hlo & Hlo').
    destruct (Adopt.all_in_cover cover lo (b + 1)) eqn:Hc; cbn [negb app].
    + rewrite all_in_cover_true in Hc.
      assert (Hall : forall s, a <= s <= b -> s ∈ cover \/ exists i, i ∈ mid /\ holds_sid (flushed_segments pool) i s).
      { intros s Hs. destruct (decide (s < lo)); [apply Hcov; lia|]. left. apply Hc. lia. }
      destruct mid as [|i mid].
      * exists Adopt.CaseD. split; [done|]. split; [|done]. intros v. split.
        -- intros i [Hin|Hin]%elem_of_app; [left; by apply Hb|right; by apply Ha].
        -- intros s Hs. destruct (Hall s Hs) as [|(i & Hin & _)]; [done|by apply elem_of_nil in Hin].
      * eexists. split; [reflexivity|]. split; [|done]. intros v. exists bf, (i :: mid), af.
        do 5 (split; [done|]). split; [|done]. intros j Hj. by apply Hm.
    + exists Adopt.Stale. split; [done|]. split; [|done]. intros v. right; right; right.
      apply all_in_cover_false in Hc as (s & Hs & Hsc). exists s. split; [lia|]. split; [done|].
      unfold holds_sid. intros i [Hin|[Hin|Hin]%elem_of_app]%elem_of_app.
      * specialize (Hb i Hin). lia. * specialize (Hm i Hin). lia. * specialize (Ha i Hin). lia.
  - exists Adopt.Stale. split; [done|]. split; [|done]. intros v. right; right. exact Hr.
Qed.

(** The decision, for every published list with disjoint ranges. *)
Lemma decide_case_spec pool l cover a b v :
  pool_wf pool l -> ids_ok (flushed_segments pool) l ->
  exists d, Adopt.decide_case pool cover a b v = Ok d /\ decision_means (flushed_segments pool) l cover a b v d /\
    match d with Adopt.CaseD | Adopt.CaseE _ => no_exact_match (flushed_segments pool) l a b | _ => True end.
Proof.
  intros Hw Hi. unfold Adopt.decide_case.
  destruct (decide_exact_spec pool l a b v Hw) as (o & -> & Ho). cbn [mbind res_bind]. destruct o as [d|].
  { exists d. split; [done|]. destruct d; try done. split; [by left|done]. }
  unfold Adopt.find_strictly_containing. rewrite (pw_head _ _ Hw).
  rewrite (strictly_containing_spec pool [] l) by (done || apply (list_wf_fuel _ _ (pw_list _ _ Hw))).
  cbn [mbind res_bind]. destruct (first_slot_spec (strictly_contains a b) pool l Hw) as [Hsome _].
  destruct (Z.eqb_spec (first_slot (strictly_contains a b) (flushed_segments pool) l) NIL) as [|Hne]; cbn [negb].
  - destruct (decide_tiling_spec pool l cover a b Hw Hi) as (d & -> & Hd & HA). exists d. split; [done|]. split; [done|].
    by destruct d.
  - exists Adopt.Stale. split; [done|]. split; [|done]. right; left.
    destruct (Hsome Hne) as (Hin & s & Hs & HP). eauto.
Qed.
End decision.

(** ** Unpublished slots *)

Definition set_slot (pool : FlushedSegmentPool) (i : Z) (s : FlushedSegmentData) : FlushedSegmentPool :=
  pool <| flushed_segments ::= <[i := s]> |>.

Section slots.
Implicit Types (l olds : list Z) (pool : FlushedSegmentPool).

Lemma set_slot_other pool i s j : j <> i -> flushed_segments (set_slot pool i s) !! j = flushed_segments pool !! j.
Proof. intros Hj. cbn. apply zlookup_insert_ne. by intros ->. Qed.

Lemma set_slot_same pool i s x :
  flushed_segments pool !! i = Some x -> flushed_segments (set_slot pool i s) !! i = Some s.
Proof. intros Hx. cbn. by eapply zlookup_insert_eq. Qed.

Lemma set_slot_twice pool i s s' : set_slot (set_slot pool i s) i s' = set_slot pool i s'.
Proof.
  transitivity (pool <| flushed_segments := <[i := s']> (<[i := s]> (flushed_segments pool)) |>); [by destruct pool|].
  assert (<[i := s']> (<[i := s]> (flushed_segments pool)) = <[i := s']> (flushed_segments pool)) as ->; [|by destruct pool].
  apply zinsert_insert.
Qed.

Lemma set_slot_id pool i s : flushed_segments pool !! i = Some s -> set_slot pool i s = pool.
Proof.
  intros Hs. transitivity (pool <| flushed_segments := <[i := s]> (flushed_segments pool) |>); [by destruct pool|].
  assert (<[i := s]> (flushed_segments pool) = flushed_segments pool) as ->; [|by destruct pool].
  unfold lookup, zlist_lookup in Hs. unfold insert, zlist_insert. case_decide; [|done]. by apply list_insert_id.
Qed.

Lemma set_slot_wf pool l i s : pool_wf pool l -> i ∉ l -> pool_wf (set_slot pool i s) l.
Proof.
  intros Hw Hi. split; cbn; try apply Hw.
  - eapply list_wf_frame; [apply zlen_insert| |apply Hw]. intros j Hj. apply zlookup_insert_ne. by intros ->.
  - intros j sj Hj. rewrite zlookup_insert_ne by (by intros ->). by apply (pw_refs _ _ Hw).
Qed.

Lemma set_slot_stats cap pool l i s : stats_exact cap pool l -> i ∉ l -> stats_exact cap (set_slot pool i s) l.
Proof.
  intros Hs Hi. eapply stats_exact_ext; [..|exact Hs]; [done..|]. intros j Hj. cbn. apply payload_at_ne. by intros ->.
Qed.

Lemma lock_wf pool l k : pool_wf pool l -> pool_wf (pool <| seg_lock := k |>) l.
Proof. intros [H1 H2 H3 H4 H5]. by split. Qed.

Lemma same_slots_ids segs segs' l :
  (forall i, i ∈ l -> segs' !! i = segs !! i) ->
  (forall i, i ∈ l -> start_of segs' i = start_of segs i /\ end_of segs' i = end_of segs i) /\
  (ids_ok segs l -> ids_ok segs' l).
Proof.
  intros He. assert (Hse : forall i, i ∈ l -> start_of segs' i = start_of segs i /\ end_of segs' i = end_of segs i).
  { intros i Hi. unfold start_of, end_of. by rewrite He. }
  split; [done|]. intros [Hr Hs]. split.
  - intros i Hi. destruct (Hse i Hi) as [-> ->]. by apply Hr.
  - clear Hr. induction Hs as [|i l Hs IH Hf]; [constructor|]. constructor.
    + apply IH; intros j Hj; [apply He|apply Hse]; by right.
    + rewrite Forall_forall in Hf |- *. intros j Hj. destruct (Hse i ltac:(left)) as [_ ->].
      destruct (Hse j ltac:(by right)) as [-> _]. by apply Hf.
Qed.

(** *** The slot the loader filled *)

Lemma rows_ok_marked s n map bm offs bm' dc :
  rows_ok s n map bm offs -> zlen bm' = zlen bm -> rows_ok (marked s bm' dc) n map bm' offs.
Proof. intros [H1 H2 H3 H4 H5 H6 H7 H8] Hz. split; try done. unfold covers in *. by rewrite Hz. Qed.

Lemma marked_marked s bm dc bm' dc' : marked (marked s bm dc) bm' dc' = marked s bm' dc'.
Proof. by destruct s. Qed.

(** The buffers of segment [i] suit the new segment's. *)
Definition suits (segs : list FlushedSegmentData) (map : list Z) (offs : list SegmentOffsetRange) (i : Z) : Prop :=
  exists si n' m' b' o', segs !! i = Some si /\ rows_ok si n' m' b' o' /\ compacted m' map o' offs.

(** Tuple [x] of [sid] is deleted in segment [i]. *)
Definition deleted_by (segs : list FlushedSegmentData) (i sid x : Z) : Prop :=
  exists si m' b' o', segs !! i = Some si /\ map_ptr si = Some m' /\ bitmap_ptr si = Some b' /\
    offsets si = Some o' /\ deleted_in m' b' o' sid x.

Lemma union_olds pool new s n map bm offs olds :
  flushed_segments pool !! new = Some s -> rows_ok s n map bm offs -> 0 <= n < 2 ^ 32 ->
  delete_count s = count_set bm n -> new ∉ olds ->
  (forall i, i ∈ olds -> suits (flushed_segments pool) map offs i) ->
  exists bm', foldl_res (Adopt.union_old new) pool (snap_at (flushed_segments pool) <$> olds) =
      Ok (set_slot pool new (marked s bm' (count_set bm' n))) /\ zlen bm' = zlen bm /\
    forall q, 0 <= q -> IS_SLOT_SET bm' q = true <-> IS_SLOT_SET bm q = true \/
      exists sid x, row_of map offs sid q x /\ exists i, i ∈ olds /\ deleted_by (flushed_segments pool) i sid x.
Proof.
  intros Hs Hr Hn Hd Hnew Hsuit.
  enough (forall rest dn bm1, olds = dn ++ rest -> zlen bm1 = zlen bm ->
    (forall q, 0 <= q -> IS_SLOT_SET bm1 q = true <-> IS_SLOT_SET bm q = true \/
      exists sid x, row_of map offs sid q x /\ exists i, i ∈ dn /\ deleted_by (flushed_segments pool) i sid x) ->
    exists bm', foldl_res (Adopt.union_old new) (set_slot pool new (marked s bm1 (count_set bm1 n)))
        (snap_at (flushed_segments pool) <$> rest) = Ok (set_slot pool new (marked s bm' (count_set bm' n))) /\
      zlen bm' = zlen bm /\
      forall q, 0 <= q -> IS_SLOT_SET bm' q = true <-> IS_SLOT_SET bm q = true \/
        exists sid x, row_of map offs sid q x /\ exists i, i ∈ olds /\ deleted_by (flushed_segments pool) i sid x) as H.
  { destruct (H olds [] bm) as (bm' & H' & ?); [done|done| |].
    { intros q _. split; [by left|]. intros [|(sid & x & _ & i & Hi & _)]; [done|by apply elem_of_nil in Hi]. }
    exists bm'. split; [|done]. rewrite <-H'. f_equal. symmetry. apply set_slot_id. rewrite Hs, <-Hd. f_equal.
    unfold marked. pose proof (ro_bitmap _ _ _ _ _ Hr). destruct s; cbn in *; by subst. }
  intros rest; induction rest as [|i rest IH]; intros dn bm1 Ho Hz Hb.
  { exists bm1. rewrite app_nil_r in Ho. subst dn. done. }
  destruct (Hsuit i) as (si & n' & m' & b' & o' & Hsi & Hri & Hc); [rewrite Ho; set_solver|].
  assert (Hne : i <> new) by (intros ->; apply Hnew; rewrite Ho; set_solver).
  assert (Hidx : Adopt.snap_idx (snap_at (flushed_segments pool) i) = i) by (unfold snap_at; by rewrite Hsi).
  set (p1 := set_slot pool new (marked s bm1 (count_set bm1 n))).
  destruct (union_segment_spec si n' m' b' o' (marked s bm1 (count_set bm1 n)) n map bm1 offs)
    as (bm2 & dc & Hu & Hz2 & Hb2 & Hdc); [done|by eapply rows_ok_marked|done|done| |].
  { cbn. pose proof (count_set_bounds bm1 n). lia. }
  assert (Hstep : Adopt.union_old new p1 (snap_at (flushed_segments pool) i) =
                  Ok (set_slot pool new (marked s bm2 (count_set bm2 n)))).
  { unfold Adopt.union_old. rewrite Hidx.
    pose proof (set_slot_same pool new (marked s bm1 (count_set bm1 n)) s Hs) as Hnewslot.
    rewrite <-(set_slot_other pool new (marked s bm1 (count_set bm1 n)) i) in Hsi by done.
    fold p1 in Hsi, Hnewslot. run. rewrite Hu. cbn [mbind res_bind].
    fold (set_slot p1 new (marked (marked s bm1 (count_set bm1 n)) bm2 dc)). subst p1.
    by rewrite set_slot_twice, marked_marked, (Hdc eq_refl). }
  change (snap_at (flushed_segments pool) <$> i :: rest) with
    (snap_at (flushed_segments pool) i :: (snap_at (flushed_segments pool) <$> rest)).
  cbn [foldl_res]. rewrite Hstep. cbn [mbind res_bind].
  apply (IH (dn ++ [i])); [by rewrite <-app_assoc|congruence|].
  intros q Hq. rewrite Hb2, Hb by done. split.
  - intros [[?|(sid & x & Hx & j & Hj & ?)]|(sid & x & Hx & Hdel)]; [by left|right..]; exists sid, x; (split; [done|]).
    + exists j. set_solver.
    + exists i. split; [set_solver|]. exists si, m', b', o'. by destruct Hri.
  - intros [?|(sid & x & Hx & j & [Hj|Hj%list_elem_of_singleton]%elem_of_app & Hdel)]; [by left; left|left; right; eauto 6|right].
    subst j. exists sid, x. split; [done|]. destruct Hdel as (sj & m2 & b2 & o2 & Hsj & Hm & Hbp & Hop & Hdel).
    assert (sj = si) as -> by congruence. destruct Hri as [R1 _ R3 _ R5 _ _ _]. congruence.
Qed.
End slots.

(** ** The whole function, with nobody interfering *)

Section adoption.
Context (capacity : Z) (load : FlushedSegmentData -> res FlushedSegmentData).
Context (a b v : Z) (cover : list Z) (groups : list DpvVacuumGroup).
(** The rows on disk. *)
Context (n : Z) (map bm : list Z) (offs : list SegmentOffsetRange).

Definition loads_segment : Prop :=
  0 <= n < 2 ^ 32 /\ forall s, in_used s = true ->
    exists s', load s = Ok s' /\ in_used s' = true /\ range_of s' = (a, b) /\ rows_ok s' n map bm offs /\
      delete_count s' = count_set bm n.

Definition quiet (k : nat) (pool : FlushedSegmentPool) : FlushedSegmentPool := pool.

(** The pool after a successful adoption of the segment into slot [new]. *)
Definition adopted (pool pool' : FlushedSegmentPool) (l : list Z) : Prop :=
  exists new l1 olds l3 s' bm',
    l = l1 ++ olds ++ l3 /\ (new ∉ l) /\ pool_wf pool' (l1 ++ new :: l3) /\ stats_exact capacity pool' (l1 ++ new :: l3) /\
    flushed_segments pool' !! new = Some s' /\ range_of s' = (a, b) /\ version s' = v /\ ref_count s' = 1 /\
    rows_ok s' n map bm' offs /\ delete_count s' = count_set bm' n /\
    (* ids below, displaced and above *)
    (forall i, i ∈ l1 -> end_of (flushed_segments pool) i < a) /\
    (forall i, i ∈ olds -> a <= end_of (flushed_segments pool) i <= b) /\
    (forall i, i ∈ l3 -> b < start_of (flushed_segments pool) i) /\
    (* every adopted id was in a displaced segment or in a memtable of the cover *)
    (forall s, a <= s <= b -> s ∈ cover \/ exists i, i ∈ olds /\ holds_sid (flushed_segments pool) i s) /\
    (* and no deletion of either is lost *)
    (forall q, 0 <= q -> IS_SLOT_SET bm' q = true <-> IS_SLOT_SET bm q = true \/
       exists sid x, row_of map offs sid q x /\
         ((exists i, i ∈ olds /\ deleted_by (flushed_segments pool) i sid x) \/
          (no_exact_match (flushed_segments pool) l a b /\ in_groups groups sid x))).

Lemma replace_under_lock pool l1 olds l3 new s :
  pool_wf pool (l1 ++ olds ++ l3) -> stats_exact capacity pool (l1 ++ olds ++ l3) -> olds <> [] ->
  flushed_segments pool !! new = Some s -> in_used s = true -> new ∉ l1 ++ olds ++ l3 ->
  (forall i, i ∈ l1 -> start_of (flushed_segments pool) i <= segment_id_start s) ->
  (forall i, i ∈ l3 -> segment_id_start s <= start_of (flushed_segments pool) i) ->
  exists pool', (p ← Pool.replace_flushed_segments_n capacity (pool <| seg_lock := WriteHeld |>) olds new;
                 Ok (p <| seg_lock := Unlocked |>)) = Ok pool' /\
    pool_wf pool' (l1 ++ new :: l3) /\ stats_exact capacity pool' (l1 ++ new :: l3) /\
    payload_at (flushed_segments pool') new = Some (payload (s <| ref_count := 1 |>)).
Proof.
  intros Hw Hst Hne Hs Hu Hnew H1 H3.
  destruct (replace_spec capacity (pool <| seg_lock := WriteHeld |>) l1 olds l3 new s) as (p & -> & Hw' & Hst' & Hn & _);
    [by apply lock_wf|done..|].
  eexists. split; [reflexivity|]. split; [by apply lock_wf|]. split; [|done].
  assert (Hs' : stats_exact capacity p (l1 ++ new :: l3)) by by apply Hst'. exact Hs'.
Qed.

Lemma register_under_lock pool l1 l3 new s :
  pool_wf pool (l1 ++ l3) -> stats_exact capacity pool (l1 ++ l3) ->
  flushed_segments pool !! new = Some s -> in_used s = true -> new ∉ l1 ++ l3 ->
  (forall i, i ∈ l1 -> start_of (flushed_segments pool) i <= segment_id_start s) ->
  (forall i, i ∈ l3 -> segment_id_start s < start_of (flushed_segments pool) i) ->
  exists pool', (p ← Pool.register_flushed_segment capacity (pool <| seg_lock := WriteHeld |>) new;
                 Ok (p <| seg_lock := Unlocked |>)) = Ok pool' /\
    pool_wf pool' (l1 ++ new :: l3) /\ stats_exact capacity pool' (l1 ++ new :: l3) /\
    payload_at (flushed_segments pool') new = Some (payload (s <| ref_count := 1 |>)).
Proof.
  intros Hw Hst Hs Hu Hnew H1 H3.
  destruct (register_core capacity (pool <| seg_lock := WriteHeld |>) l1 l3 new s) as (p & -> & Hw' & Hn & _ & _ & Hst');
    [by apply lock_wf|done..|].
  eexists. split; [reflexivity|]. split; [by apply lock_wf|]. split; [|done].
  assert (Hs' : stats_exact capacity p (l1 ++ new :: l3)) by by apply Hst'. exact Hs'.
Qed.

(** A published slot, from its payload. *)
Lemma published_slot pool' new s :
  payload_at (flushed_segments pool') new = Some (payload (s <| ref_count := 1 |>)) ->
  exists s', flushed_segments pool' !! new = Some s' /\ range_of s' = range_of s /\ version s' = version s /\
    ref_count s' = 1 /\ delete_count s' = delete_count s /\
    (forall bm', rows_ok s n map bm' offs -> rows_ok s' n map bm' offs).
Proof.
  intros Hp. unfold payload_at in Hp. destruct (flushed_segments pool' !! new) as [s'|]; [|done].
  exists s'. split; [done|]. cbn in Hp. apply (inj Some) in Hp.
  assert (Hf : forall A (f : FlushedSegmentData -> A), (forall x, f (payload x) = f x) -> f s' = f (s <| ref_count := 1 |>)).
  { intros A f Hfp. by rewrite <-(Hfp s'), <-(Hfp (s <| ref_count := 1 |>)), Hp. }
  rewrite (Hf _ range_of), (Hf _ version), (Hf _ ref_count), (Hf _ delete_count) by done.
  do 4 (split; [done|]). intros bm' [H1 H2 H3 H4 H5 H6 H7 H8].
  split; try done; first [rewrite (Hf _ map_ptr) by done|rewrite (Hf _ bitmap_ptr) by done
    |rewrite (Hf _ offsets) by done|rewrite (Hf _ offsets_count) by done]; done.
Qed.

Lemma snapshots_fresh pool l olds :
  pool_wf pool l -> (forall i, i ∈ olds -> i ∈ l) ->
  Adopt.snapshots_stale pool (snap_at (flushed_segments pool) <$> olds) = Ok false.
Proof.
  intros Hw Hin. induction olds as [|i olds IH]; [done|].
  destruct (list_wf_slot _ _ _ (pw_list _ _ Hw) (Hin i ltac:(left))) as [s Hs].
  assert (Hsn : snap_at (flushed_segments pool) i = Adopt.snap_of i s) by (unfold snap_at; by rewrite Hs).
  change (snap_at (flushed_segments pool) <$> i :: olds) with
    (snap_at (flushed_segments pool) i :: (snap_at (flushed_segments pool) <$> olds)).
  rewrite Hsn. cbn [Adopt.snapshots_stale Adopt.snap_idx Adopt.snap_of]. run.
  rewrite (lw_used _ _ (pw_list _ _ Hw) i s (Hin i ltac:(left)) Hs). cbn. rewrite !Z.eqb_refl. cbn.
  apply IH. intros; apply Hin. by right.
Qed.
End adoption.

Section quiet_run.
Context (capacity : Z) (a b v : Z) (cover : list Z) (groups : list DpvVacuumGroup).
Context (n : Z) (map bm : list Z) (offs : list SegmentOffsetRange).
Context (pool : FlushedSegmentPool) (l : list Z) (new : Z) (s : FlushedSegmentData).
Context (Hw : pool_wf pool l) (Hst : stats_exact capacity pool l) (Hids : ids_ok (flushed_segments pool) l).
Context (Hnew : new ∉ l) (Hs : flushed_segments pool !! new = Some s) (Hu : in_used s = true).
Context (Hrange : range_of s = (a, b)) (Hver : version s = v) (Hab : a <= b).
Context (Hrows : rows_ok s n map bm offs) (Hn : 0 <= n < 2 ^ 32) (Hdc : delete_count s = count_set bm n).
Context (Hgr : groups_present groups map offs).
Context (Hsuit : forall i, i ∈ l -> a <= end_of (flushed_segments pool) i -> start_of (flushed_segments pool) i <= b ->
                 suits (flushed_segments pool) map offs i).

Let adoptedP := adopted capacity a b v cover groups n map bm offs pool.

(** After the displaced segments' deletions are in, the groups follow. *)
Lemma groups_after bm1 (P : Z -> Prop) :
  zlen bm1 = zlen bm ->
  (forall q, 0 <= q -> IS_SLOT_SET bm1 q = true <-> IS_SLOT_SET bm q = true \/ P q) ->
  exists bm2, Adopt.union_groups groups new (set_slot pool new (marked s bm1 (count_set bm1 n))) =
      Ok (set_slot pool new (marked s bm2 (count_set bm2 n))) /\ zlen bm2 = zlen bm /\
    forall q, 0 <= q -> IS_SLOT_SET bm2 q = true <-> IS_SLOT_SET bm q = true \/ P q \/
      exists sid x, row_of map offs sid q x /\ in_groups groups sid x.
Proof.
  intros Hz Hb. unfold Adopt.union_groups.
  pose proof (set_slot_same pool new (marked s bm1 (count_set bm1 n)) s Hs) as Hslot. run.
  destruct (union_deletion_entries_spec (marked s bm1 (count_set bm1 n)) n map bm1 offs groups)
    as (bm2 & dc & -> & Hz2 & Hb2 & Hd2); [by eapply rows_ok_marked|done|done| |].
  { cbn. pose proof (count_set_bounds bm1 n). lia. }
  cbn [mbind res_bind]. fold (set_slot (set_slot pool new (marked s bm1 (count_set bm1 n))) new
    (marked (marked s bm1 (count_set bm1 n)) bm2 dc)). rewrite set_slot_twice, marked_marked, (Hd2 eq_refl).
  exists bm2. split; [done|]. split; [congruence|]. intros q Hq. rewrite Hb2, Hb by done. tauto.
Qed.

(** Publication of the slot with its final bitmap, displacing [olds]. *)
Lemma publish_final d l1 olds l3 bm2 :
  l = l1 ++ olds ++ l3 -> zlen bm2 = zlen bm -> d <> Adopt.Stale ->
  match d with Adopt.CaseD => olds = [] | _ => olds <> [] /\ Adopt.snap_idx <$> Adopt.decision_snaps d = olds end ->
  (forall i, i ∈ l1 -> end_of (flushed_segments pool) i < a) ->
  (forall i, i ∈ olds -> a <= end_of (flushed_segments pool) i <= b) ->
  (forall i, i ∈ l3 -> b < start_of (flushed_segments pool) i) ->
  (forall x, a <= x <= b -> x ∈ cover \/ exists i, i ∈ olds /\ holds_sid (flushed_segments pool) i x) ->
  (forall q, 0 <= q -> IS_SLOT_SET bm2 q = true <-> IS_SLOT_SET bm q = true \/
     exists sid x, row_of map offs sid q x /\
       ((exists i, i ∈ olds /\ deleted_by (flushed_segments pool) i sid x) \/
        (no_exact_match (flushed_segments pool) l a b /\ in_groups groups sid x))) ->
  exists pool', Adopt.publish capacity new (set_slot pool new (marked s bm2 (count_set bm2 n))) d = Ok pool' /\
    adoptedP pool' l.
Proof.
  intros Hl Hz Hd Hkind H1 H2 H3 Hcov Hbits. set (p := set_slot pool new (marked s bm2 (count_set bm2 n))).
  assert (Hwp : pool_wf p l) by (by apply set_slot_wf). assert (Hsp : stats_exact capacity p l) by (by apply set_slot_stats).
  assert (Hnp : flushed_segments p !! new = Some (marked s bm2 (count_set bm2 n))) by (by eapply set_slot_same).
  injection Hrange as Hra Hrb.
  destruct (same_slots_ids (flushed_segments pool) (flushed_segments p) l) as [Hse _].
  { intros i Hi. apply set_slot_other. by intros ->. }
  assert (Hpub : exists pool', Adopt.publish capacity new p d = Ok pool' /\ pool_wf pool' (l1 ++ new :: l3) /\
            stats_exact capacity pool' (l1 ++ new :: l3) /\
            payload_at (flushed_segments pool') new = Some (payload ((marked s bm2 (count_set bm2 n)) <| ref_count := 1 |>))).
  { assert (B1 : forall i, i ∈ l1 -> start_of (flushed_segments p) i <= a).
    { intros i Hi. destruct (Hse i) as [-> _]; [set_solver|]. specialize (H1 i Hi).
      pose proof (io_range _ _ Hids i ltac:(set_solver)). lia. }
    assert (B3 : forall i, i ∈ l3 -> a < start_of (flushed_segments p) i).
    { intros i Hi. destruct (Hse i) as [-> _]; [set_solver|]. specialize (H3 i Hi). lia. }
    unfold Adopt.publish. destruct d; [..|subst olds; cbn [app] in Hl|]; try done.
    - destruct Hkind as [Hne Hk]. rewrite Hk. apply replace_under_lock; try (by rewrite <-Hl); try done; cbn; rewrite Hra; [done|].
      intros i Hi. by apply Z.lt_le_incl, B3.
    - apply register_under_lock; try (by rewrite <-Hl); try done; cbn; by rewrite Hra.
    - destruct Hkind as [Hne Hk]. rewrite Hk. apply replace_under_lock; try (by rewrite <-Hl); try done; cbn; rewrite Hra; [done|].
      intros i Hi. by apply Z.lt_le_incl, B3. }
  destruct Hpub as (pool' & Hp & Hw' & Hst' & Hpay). exists pool'. split; [done|].
  destruct (published_slot n map offs _ _ _ Hpay) as (s' & Hs' & E1 & E2 & E3 & E4 & E5).
  exists new, l1, olds, l3, s', bm2. split; [done|]. split; [done|]. do 3 (split; [done|]).
  split; [rewrite E1; unfold range_of; cbn; congruence|]. split; [by rewrite E2|]. split; [done|].
  split; [by apply E5; eapply rows_ok_marked|]. split; [by rewrite E4|]. done.
Qed.

(** The deletions each decision carries over. *)
Lemma carry_spec d olds :
  match d with
  | Adopt.CaseA _ => olds <> [] /\ ~ no_exact_match (flushed_segments pool) l a b
  | Adopt.CaseD => olds = [] /\ no_exact_match (flushed_segments pool) l a b
  | Adopt.CaseE _ => no_exact_match (flushed_segments pool) l a b
  | Adopt.Stale => False
  end ->
  match d with Adopt.CaseA _ => exists i, olds = [i] | _ => True end ->
  Adopt.decision_snaps d = snap_at (flushed_segments pool) <$> olds -> (forall i, i ∈ olds -> i ∈ l) ->
  (forall i, i ∈ olds -> a <= end_of (flushed_segments pool) i /\ start_of (flushed_segments pool) i <= b) ->
  exists bm2, Adopt.carry_tombstones groups new pool d = Ok (set_slot pool new (marked s bm2 (count_set bm2 n))) /\
    zlen bm2 = zlen bm /\
    (forall q, 0 <= q -> IS_SLOT_SET bm2 q = true <-> IS_SLOT_SET bm q = true \/
      exists sid x, row_of map offs sid q x /\
       ((exists i, i ∈ olds /\ deleted_by (flushed_segments pool) i sid x) \/
        (no_exact_match (flushed_segments pool) l a b /\ in_groups groups sid x))).
Proof.
  intros Hd HA Hsn Hin Hov.
  destruct (union_olds pool new s n map bm offs olds) as (bm1 & Hf & Hz & Hb); [done..| | |].
  { intros Hx. by apply Hnew, Hin. }
  { intros i Hi. destruct (Hov i Hi). by apply Hsuit; [apply Hin|..]. }
  destruct d as [sn| | |snaps]; cbn [Adopt.carry_tombstones Adopt.decision_snaps] in *.
  - destruct HA as [i ->]. exists bm1. split; [|split; [done|]].
    + change (snap_at (flushed_segments pool) <$> [i]) with [snap_at (flushed_segments pool) i] in *.
      injection Hsn as ->. cbn [foldl_res] in Hf. destruct (Adopt.union_old new pool _); [done|done].
    + intros q Hq. rewrite Hb by done. destruct Hd as [_ Hd]. split.
      * intros [|(sid & x & Hx & Ho)]; [by left|right; eauto 6].
      * intros [|(sid & x & Hx & [Ho|[Hno _]])]; [by left|right; eauto 6|done].
  - done.
  - destruct Hd as [-> Hno]. cbn in Hf. injection Hf as Hf.
    destruct (groups_after bm1 (fun _ => False)) as (bm2 & Hg & Hz2 & Hb2); [done| |].
    { intros q Hq. rewrite Hb by done. split; [|by intros [|[]]; left].
      intros [|(sid & x & _ & i & Hi & _)]; [by left|by apply elem_of_nil in Hi]. }
    rewrite <-Hf in Hg. exists bm2. split; [done|]. split; [done|]. intros q Hq. rewrite Hb2 by done. split.
    + intros [|[[]|(sid & x & Hx & Hgr')]]; [by left|right; eauto 6].
    + intros [|(sid & x & Hx & [(i & Hi & _)|[_ Hgr']])]; [by left|by apply elem_of_nil in Hi|right; right; eauto].
  - subst snaps. rewrite Hf. cbn [mbind res_bind].
    destruct (groups_after bm1 (fun q => exists sid x, row_of map offs sid q x /\
      exists i, i ∈ olds /\ deleted_by (flushed_segments pool) i sid x)) as (bm2 & Hg & Hz2 & Hb2); [done|done|].
    exists bm2. split; [done|]. split; [done|]. intros q Hq. rewrite Hb2 by done. split.
    + intros [|[(sid & x & Hx & Ho)|(sid & x & Hx & Hgr')]]; [by left|right; eauto 6..].
    + intros [|(sid & x & Hx & [Ho|[_ Hgr']])]; [by left|right; left; eauto|right; right; eauto].
Qed.

Lemma round_quiet k :
  exists d, decision_means (flushed_segments pool) l cover a b v d /\
    match d with
    | Adopt.Stale =>
        Adopt.adopt_round capacity quiet a b v cover groups new k pool = Ok (Some Adopt.DPV_ADOPT_STALE_DISCARD, pool)
    | _ => exists pool', Adopt.adopt_round capacity quiet a b v cover groups new k pool =
             Ok (Some Adopt.DPV_ADOPT_ADOPTED, pool') /\ adoptedP pool' l
    end.
Proof.
  destruct (decide_case_spec pool l cover a b v Hw Hids) as (d & Hdec & Hd & Hno). exists d. split; [done|].
  unfold Adopt.adopt_round. rewrite Hdec. cbn [mbind res_bind]. unfold quiet.
  assert (Hround : forall l1 olds l3, l = l1 ++ olds ++ l3 -> d <> Adopt.Stale ->
    Adopt.decision_snaps d = snap_at (flushed_segments pool) <$> olds ->
    match d with
    | Adopt.CaseA _ => olds <> [] /\ ~ no_exact_match (flushed_segments pool) l a b
    | Adopt.CaseD => olds = [] /\ no_exact_match (flushed_segments pool) l a b
    | Adopt.CaseE _ => no_exact_match (flushed_segments pool) l a b
    | Adopt.Stale => False
    end ->
    match d with Adopt.CaseA _ => exists i, olds = [i] | Adopt.CaseE _ => olds <> [] | _ => True end ->
    (forall i, i ∈ l1 -> end_of (flushed_segments pool) i < a) ->
    (forall i, i ∈ olds -> a <= end_of (flushed_segments pool) i <= b) ->
    (forall i, i ∈ l3 -> b < start_of (flushed_segments pool) i) ->
    (forall x, a <= x <= b -> x ∈ cover \/ exists i, i ∈ olds /\ holds_sid (flushed_segments pool) i x) ->
    exists pool', (stale ← Adopt.snapshots_stale pool (Adopt.decision_snaps d);
      if stale : bool then Ok (None, pool)
      else p ← Adopt.carry_tombstones groups new pool d; p ← Adopt.publish capacity new p d;
           Ok (Some Adopt.DPV_ADOPT_ADOPTED, p)) = Ok (Some Adopt.DPV_ADOPT_ADOPTED, pool') /\ adoptedP pool' l).
  { intros l1 olds l3 Hl Hns Hsn Hk1 Hk2 H1 H2 H3 Hcov.
    assert (Hin : forall i, i ∈ olds -> i ∈ l) by (intros; rewrite Hl; set_solver).
    rewrite Hsn, (snapshots_fresh pool l olds Hw Hin). cbn [mbind res_bind].
    destruct (carry_spec d olds) as (bm2 & -> & Hz & Hb); [done|by destruct d|done|done| |].
    { intros i Hi. pose proof (io_range _ _ Hids i (Hin i Hi)). specialize (H2 i Hi). lia. }
    cbn [mbind res_bind].
    destruct (publish_final d l1 olds l3 bm2) as (pool' & -> & Ha); [done|done|done| |done..|].
    { destruct d; [|done|by destruct Hk1|].
      - split; [by destruct Hk1|]. by rewrite Hsn, snap_idx_at. - split; [done|]. by rewrite Hsn, snap_idx_at. }
    exists pool'. done. }
  destruct d as [sn| | |snaps]; [..|done| |].
  - destruct Hd as (i & si & Hi & Hsi & -> & Hr & Hlt). apply list_elem_of_split in Hi as (l1 & l3 & Hl).
    rewrite Hl in Hids. destruct (ids_ok_order _ _ _ _ Hids) as [Hb1 Hb3]. rewrite <-Hl in Hids.
    destruct (slot_ends _ _ _ Hsi) as [E1 E2]. injection Hr as R1 R2.
    assert (Hsn : snap_at (flushed_segments pool) i = Adopt.snap_of i si) by (unfold snap_at; by rewrite Hsi).
    apply (Hround l1 [i] l3); try done.
    + cbn. by rewrite Hsn.
    + split; [done|]. intros H. apply (H i si); [rewrite Hl; set_solver|done|]. unfold range_of. congruence.
    + by exists i.
    + intros j Hj. specialize (Hb1 j Hj). lia.
    + intros j ->%list_elem_of_singleton. lia.
    + intros j Hj. specialize (Hb3 j Hj). lia.
    + intros x Hx. right. exists i. split; [left|]. unfold holds_sid. lia.
  - destruct Hd as [Hd1 Hd2]. destruct (sorted_split (flushed_segments pool) l b) as (l1 & l3 & Hl & H1 & H3); [apply Hw|].
    assert (He : forall i, i ∈ l1 -> end_of (flushed_segments pool) i < a).
    { intros i Hi. specialize (H1 i Hi). destruct (Hd1 i); [rewrite Hl; set_solver|done|]. lia. }
    apply (Hround l1 [] l3); try done; [by intros ? ?%elem_of_nil|]. intros x Hx. left. by apply Hd2.
  - destruct Hd as (l1 & mid & l3 & Hl & Hne & -> & H1 & H3 & H2 & Hcov). by apply (Hround l1 mid l3).
Qed.
End quiet_run.

(** *** From before the reservation *)
Section transfer.
Context (segs segs' : list FlushedSegmentData) (l : list Z) (Hsame : forall i, i ∈ l -> segs' !! i = segs !! i).

Lemma deleted_by_same i sid x : i ∈ l -> deleted_by segs' i sid x <-> deleted_by segs i sid x.
Proof. intros Hi. unfold deleted_by. by rewrite Hsame. Qed.

Lemma no_exact_same a b : no_exact_match segs' l a b <-> no_exact_match segs l a b.
Proof. split; intros H i si Hi Hsi; apply (H i si Hi); [by rewrite Hsame|by rewrite <-Hsame]. Qed.

Lemma ends_same i : i ∈ l -> start_of segs' i = start_of segs i /\ end_of segs' i = end_of segs i.
Proof. intros Hi. unfold start_of, end_of. by rewrite Hsame. Qed.

Lemma stale_same cover a b v :
  decision_means segs' l cover a b v Adopt.Stale -> decision_means segs l cover a b v Adopt.Stale.
Proof.
  intros [(i & si & Hi & Hsi & ?)|[(i & si & Hi & Hsi & ?)|[(i & Hi & ?)|(x & ? & ? & Hn)]]].
  - left. exists i, si. by rewrite <-Hsame.
  - right; left. exists i, si. by rewrite <-Hsame.
  - right; right; left. exists i. destruct (ends_same i Hi) as [<- <-]. done.
  - right; right; right. exists x. split; [done|]. split; [done|]. intros i Hi. specialize (Hn i Hi).
    unfold holds_sid in *. by destruct (ends_same i Hi) as [<- <-].
Qed.
End transfer.

Lemma adopted_same capacity a b v cover groups n map bm offs pool pool2 pool' l :
  (forall i, i ∈ l -> flushed_segments pool2 !! i = flushed_segments pool !! i) ->
  adopted capacity a b v cover groups n map bm offs pool2 pool' l ->
  adopted capacity a b v cover groups n map bm offs pool pool' l.
Proof.
  intros Hsame (new & l1 & olds & l3 & s' & bm' & Hl & Hnew & Hw & Hst & Hs & Hr & Hv & Href & Hrows & Hdc & H1 & H2 & H3 & Hcov & Hb).
  exists new, l1, olds, l3, s', bm'. do 10 (split; [done|]).
  assert (E : forall i, i ∈ l -> start_of (flushed_segments pool2) i = start_of (flushed_segments pool) i /\
                end_of (flushed_segments pool2) i = end_of (flushed_segments pool) i) by (by apply ends_same).
  assert (L1 : forall i, i ∈ l1 -> i ∈ l) by (intros; rewrite Hl; set_solver).
  assert (L2 : forall i, i ∈ olds -> i ∈ l) by (intros; rewrite Hl; set_solver).
  assert (L3 : forall i, i ∈ l3 -> i ∈ l) by (intros; rewrite Hl; set_solver).
  split; [intros i Hi; destruct (E i (L1 i Hi)) as [_ <-]; by apply H1|].
  split; [intros i Hi; destruct (E i (L2 i Hi)) as [_ <-]; by apply H2|].
  split; [intros i Hi; destruct (E i (L3 i Hi)) as [<- _]; by apply H3|]. split.
  - intros x Hx. destruct (Hcov x Hx) as [|(i & Hi & Hh)]; [by left|right]. exists i. split; [done|].
    unfold holds_sid in *. by destruct (E i (L2 i Hi)) as [<- <-].
  - intros q Hq. rewrite Hb by done. pose proof (no_exact_same _ _ l Hsame a b) as Hne.
    split; (intros [|(sid & x & Hx & [(i & Hi & Hd)|[Hg1 Hg2]])]; [by left|right..]; exists sid, x; (split; [done|]);
      [left|right; split; [by apply Hne|done]]);
      exists i; (split; [done|]); by apply (deleted_by_same _ _ l Hsame i sid x (L2 i Hi)).
Qed.

Lemma slot_used_set pool i s x j :
  flushed_segments pool !! i = Some x -> in_used s = in_used x ->
  slot_used (flushed_segments (set_slot pool i s)) j <-> slot_used (flushed_segments pool) j.
Proof.
  intros Hx Hu. unfold slot_used. destruct (decide (j = i)) as [->|Hj].
  - rewrite (set_slot_same pool i s x Hx), Hx. split; intros (y & [= <-] & Hy); eexists; (split; [done|]); congruence.
  - by rewrite set_slot_other.
Qed.

Lemma reserve_stats cap pool pool' i l :
  Pool.reserve_flushed_segment pool = Ok (i, pool') -> stats_exact cap pool l -> i ∉ l -> stats_exact cap pool' l.
Proof.
  unfold Pool.reserve_flushed_segment. destruct (Pool.reserve_loop _ _ _) as [[k|]|]; [..|done]; cbn [mbind res_bind]; [|by intros [= _ <-]].
  destruct (arr_upd _ _ _) as [segs|] eqn:E; [|done]. cbn. intros [= <- <-] Hst Hi.
  destruct (arr_upd_inv _ _ _ _ E) as (x & _ & ->). eapply stats_exact_ext; [..|exact Hst]; [done..|].
  intros j Hj. cbn. apply payload_at_ne. by intros ->.
Qed.

(** Giving the reserved slot back. *)
Lemma discard_spec pool l i x :
  pool_wf pool l -> i ∉ l -> flushed_segments pool !! i = Some x ->
  exists pool', Pool.discard_reserved_segment pool i = Ok pool' /\ pool_wf pool' l /\
    (forall cap, stats_exact cap pool l -> stats_exact cap pool' l) /\
    flushed_segments pool' = <[i := Pool.retire_slot x]> (flushed_segments pool).
Proof.
  intros Hw Hi Hx. pose proof (zlookup_lt_Some _ _ _ Hx) as Hr. unfold Pool.discard_reserved_segment. run.
  eexists. split; [reflexivity|]. unfold Pool.rewind_insert_idx. pose proof (set_slot_wf pool l i (Pool.retire_slot x) Hw Hi) as Hw'.
  pose proof (fun cap H => set_slot_stats cap pool l i (Pool.retire_slot x) H Hi) as Hst'.
  destruct Hw' as [W1 W2 W3 W4 W5]. cbn in *. destruct (Z.ltb_spec i (insert_idx pool)); (split; [split; cbn; try done; lia|]); by split.
Qed.

Lemma loop_round capacity others a b v cover groups retries new k pool o pool' :
  Adopt.adopt_round capacity others a b v cover groups new k pool = Ok (Some o, pool') ->
  Adopt.adopt_loop capacity others a b v cover groups (S retries) new k pool = Ok (o, pool').
Proof. intros Hr. cbn [Adopt.adopt_loop]. by rewrite Hr. Qed.

Lemma adopt_body_ok capacity load a b v cover groups n map bm offs pool l :
  pool_wf pool l -> stats_exact capacity pool l -> ids_ok (flushed_segments pool) l -> a <= b ->
  loads_segment load a b n map bm offs -> groups_present groups map offs ->
  (forall i, i ∈ l -> a <= end_of (flushed_segments pool) i -> start_of (flushed_segments pool) i <= b ->
     suits (flushed_segments pool) map offs i) ->
  exists outcome pool',
    Adopt.adopt_body capacity load quiet a b v cover groups pool = Ok (outcome, pool') /\
    match outcome with
    | Adopt.DPV_ADOPT_ADOPTED => adopted capacity a b v cover groups n map bm offs pool pool' l
    | Adopt.DPV_ADOPT_STALE_DISCARD =>
        pool_wf pool' l /\ stats_exact capacity pool' l /\
        (forall i, i ∈ l -> flushed_segments pool' !! i = flushed_segments pool !! i) /\
        (forall i, slot_used (flushed_segments pool') i <-> slot_used (flushed_segments pool) i) /\
        (decision_means (flushed_segments pool) l cover a b v Adopt.Stale \/
         forall j, insert_idx pool <= j < MAX_SEGMENTS_COUNT -> slot_used (flushed_segments pool) j)
    | Adopt.DPV_ADOPT_INDEX_UNLOADED => False
    end.
Proof.
  intros Hw Hst Hids Hab [Hn Hload] Hgr Hsuit. unfold Adopt.adopt_body.
  destruct (reserve_spec pool l Hw) as (new & pool1 & Hres & Hw1 & [(-> & -> & Hfull)|(Hi & Hnew & _ & (s & Hs & Hu & Hs1) & _ & Ho1)]);
    rewrite Hres; cbn [mbind res_bind].
  { exists Adopt.DPV_ADOPT_STALE_DISCARD, pool. split; [done|]. split; [done|]. split; [done|].
    split; [done|]. split; [done|]. by right. }
  destruct (Z.eqb_spec new NIL); [pool_lia|]. run.
  destruct (Hload (s <| in_used := true |>)) as (s' & -> & Hu' & Hr' & Hrows & Hdc); [done|]. cbn [mbind res_bind].
  fold (set_slot pool1 new (s' <| SegmentPool.version := v |>)).
  set (s2 := s' <| SegmentPool.version := v |>). set (pool2 := set_slot pool1 new s2).
  assert (Hsame : forall i, i ∈ l -> flushed_segments pool2 !! i = flushed_segments pool !! i).
  { intros i Hil. subst pool2. rewrite set_slot_other by (by intros ->). apply Ho1. by intros ->. }
  assert (Hw2 : pool_wf pool2 l) by (by apply set_slot_wf).
  assert (Hst2 : stats_exact capacity pool2 l) by (apply set_slot_stats; [by eapply reserve_stats|done]).
  destruct (same_slots_ids (flushed_segments pool) (flushed_segments pool2) l Hsame) as [Hse Hids2].
  assert (Hs2 : flushed_segments pool2 !! new = Some s2) by (by eapply set_slot_same).
  destruct (round_quiet capacity a b v cover groups n map bm offs pool2 l new s2) with (k := 0%nat) as (d & Hd & Hround);
    [done|done|by apply Hids2|done..|by destruct Hrows|done|done|done| |].
  { intros i Hil He Hsi. destruct (Hse i Hil) as [E1 E2]. rewrite E1 in Hsi. rewrite E2 in He.
    destruct (Hsuit i Hil He Hsi) as (si & n' & m' & b' & o' & Hsi' & ?). exists si, n', m', b', o'. by rewrite Hsame. }
  change (quiet 0 pool2) with pool2. change Adopt.MAX_ADOPT_RETRIES with 4%nat.
  assert (Hadopted : (exists pool', Adopt.adopt_round capacity quiet a b v cover groups new 0 pool2 =
                        Ok (Some Adopt.DPV_ADOPT_ADOPTED, pool') /\
                        adopted capacity a b v cover groups n map bm offs pool2 pool' l) \/ d = Adopt.Stale)
    by (destruct d; [left; exact Hround|by right|left; exact Hround|left; exact Hround]).
  destruct Hadopted as [(pool' & Hr & Ha)| ->].
  { rewrite (loop_round _ _ _ _ _ _ _ 3 _ _ _ _ _ Hr). cbn [mbind res_bind Adopt.finalize fst snd].
     exists Adopt.DPV_ADOPT_ADOPTED, pool'. split; [done|]. by eapply adopted_same. }
  rewrite (loop_round _ _ _ _ _ _ _ 3 _ _ _ _ _ Hround). cbn [mbind res_bind]. unfold Adopt.finalize. cbn [fst snd].
  destruct (discard_spec pool2 l new s2) as (pool3 & -> & Hw3 & Hst3 & Hseg3); [done..|]. cbn [mbind res_bind].
  eexists _, pool3. split; [reflexivity|]. split; [done|]. split; [by apply Hst3|]. split; [|split].
  - intros i Hil. rewrite Hseg3, zlookup_insert_ne by (by intros ->). by apply Hsame.
  - intros i. unfold slot_used. rewrite Hseg3. destruct (decide (new = i)) as [<-|Hne].
    + rewrite (zlookup_insert_eq _ _ _ s2) by done. rewrite Hs. split; intros (y & [= <-] & Hy); [done|congruence].
    + rewrite zlookup_insert_ne by done. subst pool2. by rewrite set_slot_other, Ho1 by done.
  - left. by eapply stale_same.
Qed.

(** C19: undisturbed by other threads, adopting a shipped segment ends in one
    of two ways.  Adopted: the sorted list of published segments has the
    contiguous span that overlaps the new range (if any) replaced by the new
    segment, every adopted id was held by a displaced segment or by a memtable
    of the cover, list, order and statistics stay exact, and the new bitmap
    marks a row exactly when the files, a displaced segment or (unless it
    replaces an older version of itself) the memtables had deleted it.
    Discarded: the published list is untouched, the reserved slot is free
    again, and there was a reason: no free slot, a version at least as new, a
    wider segment, a segment reaching past the end, or an id nobody holds. *)
Theorem adoption_refines_splice capacity load a b v cover groups n map bm offs pool l :
  pool_wf pool l -> stats_exact capacity pool l -> ids_ok (flushed_segments pool) l -> a <= b ->
  loads_segment load a b n map bm offs -> groups_present groups map offs ->
  (forall i, i ∈ l -> a <= end_of (flushed_segments pool) i -> start_of (flushed_segments pool) i <= b ->
     suits (flushed_segments pool) map offs i) ->
  exists outcome pool',
    Adopt.adopt_body capacity load quiet a b v cover groups pool = Ok (outcome, pool') /\
    match outcome with
    | Adopt.DPV_ADOPT_ADOPTED => adopted capacity a b v cover groups n map bm offs pool pool' l
    | Adopt.DPV_ADOPT_STALE_DISCARD =>
        pool_wf pool' l /\ stats_exact capacity pool' l /\
        (forall i, i ∈ l -> flushed_segments pool' !! i = flushed_segments pool !! i) /\
        (forall i, slot_used (flushed_segments pool') i <-> slot_used (flushed_segments pool) i) /\
        (decision_means (flushed_segments pool) l cover a b v Adopt.Stale \/
         forall j, insert_idx pool <= j < MAX_SEGMENTS_COUNT -> slot_used (flushed_segments pool) j)
    | Adopt.DPV_ADOPT_INDEX_UNLOADED => False
    end.
Proof. apply adopt_body_ok. Qed.

(** What the re-check compares, slot by slot. *)
Lemma snapshots_stale_spec pool snaps stale :
  Adopt.snapshots_stale pool snaps = Ok stale ->
  if stale : bool then exists s, s ∈ snaps /\ forall seg, flushed_segments pool !! Adopt.snap_idx s = Some seg ->
      in_used seg = true -> Adopt.snap_of (Adopt.snap_idx s) seg <> s
  else forall s, s ∈ snaps -> exists seg, flushed_segments pool !! Adopt.snap_idx s = Some seg /\
      in_used seg = true /\ Adopt.snap_of (Adopt.snap_idx s) seg = s.
Proof.
  induction snaps as [|s snaps IH]; cbn [Adopt.snapshots_stale]; [intros [= <-]; by intros s ?%elem_of_nil|].
  unfold arr_get. destruct (flushed_segments pool !! Adopt.snap_idx s) as [seg|] eqn:Es; [|done]. cbn [of_option mbind res_bind].
  destruct (negb (in_used seg) || _ || _ || _) eqn:Et.
  - intros [= <-]. exists s. split; [left|]. intros seg' Hs Hu Heq. assert (seg' = seg) as -> by congruence.
    rewrite Hu in Et. destruct s as [i x y w]. unfold Adopt.snap_of in Heq. injection Heq as <- <- <-.
    cbn in Et. by rewrite !Z.eqb_refl in Et.
  - intros Hb. specialize (IH Hb). destruct stale; [destruct IH as (t & Ht & ?); exists t; split; [by right|done]|].
    intros t [->|Ht]%elem_of_cons; [|by apply IH]. exists seg. split; [done|].
    rewrite !orb_false_iff, !negb_false_iff, !Z.eqb_eq in Et. destruct Et as [[[Hu E1] E2] E3]. split; [done|].
    destruct s; cbn in *. unfold Adopt.snap_of. congruence.
Qed.

(** Whatever other threads do between the decision and the re-check, a
    round that publishes has found every displaced slot still in use with the
    range and the version the decision saw; a round that finds one changed
    alters nothing itself. *)
Theorem adoption_rechecks_predecessors capacity others a b v cover groups new k pool o pool' :
  Adopt.adopt_round capacity others a b v cover groups new k pool = Ok (o, pool') ->
  exists d, Adopt.decide_case pool cover a b v = Ok d /\
    let seen := others (2 * k + 1)%nat pool in
    match o with
    | Some Adopt.DPV_ADOPT_ADOPTED =>
        d <> Adopt.Stale /\
        forall s, s ∈ Adopt.decision_snaps d -> exists seg, flushed_segments seen !! Adopt.snap_idx s = Some seg /\
          in_used seg = true /\ Adopt.snap_of (Adopt.snap_idx s) seg = s
    | Some _ => d = Adopt.Stale /\ pool' = seen
    | None => pool' = seen /\ exists s, s ∈ Adopt.decision_snaps d /\
        forall seg, flushed_segments seen !! Adopt.snap_idx s = Some seg -> in_used seg = true ->
          Adopt.snap_of (Adopt.snap_idx s) seg <> s
    end.
Proof.
  unfold Adopt.adopt_round. destruct (Adopt.decide_case pool cover a b v) as [d|] eqn:Ed; [|done].
  cbn [mbind res_bind]. intros Hr. exists d. split; [done|]. cbn zeta. set (seen := others _ pool) in *.
  destruct (decide (d = Adopt.Stale)) as [->|Hns]; [by injection Hr as <- <-|].
  destruct (Adopt.snapshots_stale seen (Adopt.decision_snaps d)) as [bl|] eqn:Es; [|by destruct d].
  pose proof (snapshots_stale_spec _ _ _ Es) as Hst. destruct d; try done; cbn [mbind res_bind] in Hr; (destruct bl; [by injection Hr as <- <-|]);
    destruct (Adopt.carry_tombstones _ _ _ _); try done; cbn [mbind res_bind] in Hr;
    destruct (Adopt.publish _ _ _ _); try done; by injection Hr as <- <-.
Qed.

(** ** Concrete adoptions *)

Definition segment_at (a b v : Z) (map bm : list Z) (offs : list SegmentOffsetRange) : FlushedSegmentData :=
  (segment_with map bm offs) <| segment_id_start := a |> <| segment_id_end := b |> <| SegmentPool.version := v |>.
Definition empty_slot : FlushedSegmentData :=
  mkSegment false 0 0 0 None FLAT None None NIL NIL 0 SEG_NOT_LOADED 0 false 0 None 0.
Definition one_segment_pool (s : FlushedSegmentData) : FlushedSegmentPool :=
  mkPool Unlocked (s :: replicate 1023 empty_slot) 1 0 0 1 1 1 1.

(** Segment 3 with row 12 deleted; row 14 of memtable 4 is deleted too. *)
Definition before_adoption : FlushedSegmentPool :=
  one_segment_pool (segment_at 3 3 1 [11; 12; 13] [2] [mkOffsetRange 3 0 3]).
Definition shipped : FlushedSegmentData := segment_at 3 4 1 [12; 13; 14] [0] new_offs.

Lemma ids_example : ids_ok (flushed_segments before_adoption) [0].
Proof. split; [|repeat constructor]. intros i ->%list_elem_of_singleton. vm_compute. repeat split; congruence. Qed.

Lemma loads_example : loads_segment (fun _ => Ok shipped) 3 4 3 [12; 13; 14] [0] new_offs.
Proof.
  split; [lia|]. intros s Hs. exists shipped. split; [reflexivity|]. split; [reflexivity|]. split; [reflexivity|].
  split; [|vm_compute; reflexivity]. destruct new_example_ok. split; assumption.
Qed.

Lemma suits_example i : i ∈ [0] -> 3 <= end_of (flushed_segments before_adoption) i -> start_of (flushed_segments before_adoption) i <= 4 ->
  suits (flushed_segments before_adoption) [12; 13; 14] new_offs i.
Proof.
  intros ->%list_elem_of_singleton _ _. eexists _, 3, [11; 12; 13], [2], [mkOffsetRange 3 0 3].
  split; [reflexivity|]. split.
  + split; [reflexivity|reflexivity|reflexivity|vm_compute; congruence|reflexivity|reflexivity| |].
    * repeat constructor; vm_compute; congruence.
    * apply (bool_decide_unpack _). vm_compute. exact I.
  + intros o o' Ho ->%list_elem_of_singleton Hs. unfold new_offs in Ho. rewrite !elem_of_cons, elem_of_nil in Ho.
    destruct Ho as [->|[->|[]]]; try (vm_compute in Hs; discriminate).
    split; vm_compute; repeat constructor; set_solver.
Qed.

Lemma adoption_refines_splice_witness :
  exists pool', Adopt.adopt_body 50000 (fun _ => Ok shipped) quiet 3 4 1 [4] [mkGroup 4 [14]] before_adoption =
      Ok (Adopt.DPV_ADOPT_ADOPTED, pool') /\
    bitmap_ptr <$> flushed_segments pool' !! 1 = Some (Some [5]) /\
    adopted 50000 3 4 1 [4] [mkGroup 4 [14]] 3 [12; 13; 14] [0] new_offs before_adoption pool' [0].
Proof.
  destruct (adoption_refines_splice 50000 (fun _ => Ok shipped) 3 4 1 [4] [mkGroup 4 [14]] 3 [12; 13; 14] [0] new_offs
              before_adoption [0]) as (o & pool' & Hrun & Ho).
  - apply pool_wfb_sound. vm_compute. reflexivity.
  - split; [|split]; vm_compute; reflexivity.
  - exact ids_example.
  - lia.
  - apply loads_example.
  - intros g o ->%list_elem_of_singleton Ho Hs. unfold new_offs in Ho. rewrite !elem_of_cons, elem_of_nil in Ho.
    destruct Ho as [->|[->|[]]]; try (vm_compute in Hs; discriminate).
    split; vm_compute; repeat constructor; set_solver.
  - exact suits_example.
  - exists pool'. assert (Hv : exists p, Adopt.adopt_body 50000 (fun _ => Ok shipped) quiet 3 4 1 [4] [mkGroup 4 [14]] before_adoption =
      Ok (Adopt.DPV_ADOPT_ADOPTED, p) /\ bitmap_ptr <$> flushed_segments p !! 1 = Some (Some [5])).
    { eexists. split; [vm_compute; reflexivity|vm_compute; reflexivity]. }
    destruct Hv as (p & Hp & Hb). rewrite Hrun in Hp. injection Hp as -> ->.
    split; [exact Hrun|]. split; [exact Hb|exact Ho].
Defined.

Lemma adoption_rechecks_predecessors_witness :
  exists pool' d, Adopt.adopt_round 50000 quiet 3 4 1 [4] [] 1 0
      (set_slot before_adoption 1 shipped) = Ok (Some Adopt.DPV_ADOPT_ADOPTED, pool') /\ d <> Adopt.Stale /\
    Adopt.decide_case (set_slot before_adoption 1 shipped) [4] 3 4 1 = Ok d.
Proof.
  destruct (Adopt.adopt_round 50000 quiet 3 4 1 [4] [] 1 0 (set_slot before_adoption 1 shipped)) as [[o pool']|e] eqn:E;
    [|vm_compute in E; discriminate].
  assert (Ho : o = Some Adopt.DPV_ADOPT_ADOPTED) by (vm_compute in E; injection E as <- _; reflexivity).
  subst o. destruct (adoption_rechecks_predecessors _ _ _ _ _ _ _ _ _ _ _ _ E) as (d & Hd & Hns & _).
  exists pool', d. split; [reflexivity|]. split; [exact Hns|exact Hd].
Defined.

(** The tiling walk does not ask that a displaced segment starts inside the
    new range, although its comment says so: a segment holding ids 3 to 5 is
    displaced by the adoption of ids 4 to 6, and no published segment and no
    memtable of the cover holds id 3 afterwards. *)
Theorem adoption_displaces_left_overlap :
  exists before pool',
    pool_wf before [0] /\ ranges (flushed_segments before) [0] = [(3, 5)] /\
    Adopt.adopt_body 50000 (fun _ => Ok (segment_at 4 6 1 [12] [0] [mkOffsetRange 4 0 1])) quiet 4 6 1 [6] [] before =
      Ok (Adopt.DPV_ADOPT_ADOPTED, pool') /\
    pool_wf pool' [1] /\ ranges (flushed_segments pool') [1] = [(4, 6)].
Proof.
  exists (one_segment_pool (segment_at 3 5 1 [11] [0] [mkOffsetRange 3 0 1])). eexists.
  split; [apply pool_wfb_sound; vm_compute; reflexivity|]. split; [vm_compute; reflexivity|].
  split; [vm_compute; reflexivity|]. split; [apply pool_wfb_sound; vm_compute; reflexivity|]. vm_compute. reflexivity.
Qed.
