(* ===== verification/TopK.v ===== *)
(** Merging ranked results ([compare_distance], [merge_top_k],
    [merge_top_k_dedup] of lsmindex.c).

    Distances are compared only; they are the elements of any type with a total
    preorder.  (A NaN, which would break totality, does not come out of a
    squared L2 distance of finite vectors.) *)

From S2P Require Import Prelude.

Section topk.
Context {D : Type} (le : D -> D -> Prop) `{!RelDecision le} `{!Total le} `{!Transitive le}.

Record DistancePair := mkPair { distance : D; id : Z }.

(** [pair_a->distance < pair_b->distance] and the reverse. *)
Definition compare_distance (a b : DistancePair) : Z :=
  if bool_decide (le (distance b) (distance a)) then
    (if bool_decide (le (distance a) (distance b)) then 0 else 1) else -1.

(** The two input arrays are consumed from the front; [n] is [top_k - k]. *)
Fixpoint merge_top_k (n : nat) (pairs_1 pairs_2 : list DistancePair) : list DistancePair :=
  match n with
  | O => []
  | S n =>
      match pairs_1, pairs_2 with
      | [], [] => []
      | p :: pairs_1', [] => p :: merge_top_k n pairs_1' []
      | [], q :: pairs_2' => q :: merge_top_k n [] pairs_2'
      | p :: pairs_1', q :: pairs_2' =>
          if bool_decide (le (distance p) (distance q)) then p :: merge_top_k n pairs_1' pairs_2
          else q :: merge_top_k n pairs_1 pairs_2'
      end
  end.

(** The next candidate of the merge and what is left of both arrays. *)
Definition next_candidate (pairs_1 pairs_2 : list DistancePair)
    : option (DistancePair * list DistancePair * list DistancePair) :=
  match pairs_1, pairs_2 with
  | [], [] => None
  | p :: pairs_1', [] => Some (p, pairs_1', [])
  | [], q :: pairs_2' => Some (q, [], pairs_2')
  | p :: pairs_1', q :: pairs_2' =>
      if bool_decide (le (distance p) (distance q)) then Some (p, pairs_1', pairs_2) else Some (q, pairs_1, pairs_2')
  end.

Definition already_emitted (merge_pair : list DistancePair) (candidate : DistancePair) : bool :=
  existsb (fun p => id p =? id candidate) merge_pair.

(** [merge_pair] is the output so far; every iteration consumes a candidate. *)
Fixpoint merge_top_k_dedup_loop (fuel : nat) (top_k : Z) (pairs_1 pairs_2 merge_pair : list DistancePair)
    : res (list DistancePair) :=
  match fuel with
  | O => Error OutOfFuel
  | S fuel =>
      if zlen merge_pair <? top_k then
        match next_candidate pairs_1 pairs_2 with
        | None => Ok merge_pair
        | Some (candidate, pairs_1', pairs_2') =>
            merge_top_k_dedup_loop fuel top_k pairs_1' pairs_2'
              (if already_emitted merge_pair candidate then merge_pair else merge_pair ++ [candidate])
        end
      else Ok merge_pair
  end.

Definition merge_top_k_dedup (top_k : Z) (pairs_1 pairs_2 : list DistancePair) : res (list DistancePair) :=
  merge_top_k_dedup_loop (S (length pairs_1 + length pairs_2)) top_k pairs_1 pairs_2 [].

(** ** What a ranking is *)

Definition nearer (p q : DistancePair) : Prop := le (distance p) (distance q).

#[global] Instance nearer_dec : RelDecision nearer.
Proof. intros p q. unfold nearer. apply _. Defined.
#[global] Instance nearer_total : Total nearer.
Proof. intros p q. unfold nearer. apply total. done. Qed.
#[global] Instance nearer_trans : Transitive nearer.
Proof. intros p q r. unfold nearer. apply transitivity. Qed.

(** [out] is a ranking of the [k] nearest of [cands]: sorted, as long as it can
    be, and nothing left out is nearer than anything kept. *)
Definition ranks (k : nat) (cands out : list DistancePair) : Prop :=
  StronglySorted nearer out /\ length out = (k `min` length cands)%nat /\
  exists rest, out ++ rest ≡ₚ cands /\ forall p q, p ∈ out -> q ∈ rest -> nearer p q.

Lemma ranks_perm k cands cands' out : cands ≡ₚ cands' -> ranks k cands out -> ranks k cands' out.
Proof.
  intros Hp (Hs & Hl & rest & Hr & Hn). split; [done|]. split; [by rewrite <-Hp|]. exists rest. by rewrite Hr.
Qed.

(** The first [k] of any sorted arrangement are a ranking. *)
Lemma ranks_take k l : StronglySorted nearer l -> ranks k l (take k l).
Proof.
  intros Hs. rewrite <-(take_drop k l) in Hs. apply StronglySorted_app in Hs as (Hx & H1 & _).
  split; [done|]. split; [by rewrite length_take|]. exists (drop k l). rewrite take_drop. split; [done|].
  intros p q Hp Hq. by apply Hx.
Qed.

Lemma ranks_sorted_perm k l cands : StronglySorted nearer l -> l ≡ₚ cands -> ranks k cands (take k l).
Proof. intros Hs Hp. eapply ranks_perm; [exact Hp|]. by apply ranks_take. Qed.

(** ** merge_top_k *)

(** The loop computes a prefix of the stable merge. *)
Lemma merge_top_k_eq n l1 l2 : merge_top_k n l1 l2 = take n (list_merge nearer l1 l2).
Proof.
  revert l1 l2; induction n as [|n IH]; intros l1 l2; [done|].
  destruct l1 as [|p l1], l2 as [|q l2]; cbn [merge_top_k].
  - done.
  - rewrite list_merge_nil_l. cbn. by rewrite IH, list_merge_nil_l.
  - rewrite list_merge_nil_r. cbn. by rewrite IH, list_merge_nil_r.
  - rewrite list_merge_cons. unfold nearer at 1 2. case_bool_decide; case_decide; try done; cbn; by rewrite IH.
Qed.

Lemma sorted_merge l1 l2 :
  StronglySorted nearer l1 -> StronglySorted nearer l2 -> StronglySorted nearer (list_merge nearer l1 l2).
Proof.
  intros H1 H2. apply Sorted_StronglySorted; [apply _|]. apply Sorted_list_merge; [exact nearer_total|by apply StronglySorted_Sorted..].
Qed.

(** A ranking inside a sorted list: what it left out is no nearer than the
    first [k] of that list. *)
Lemma ranking_bounds k l lx rx :
  StronglySorted nearer l -> lx ⊆+ l -> (rx <> [] -> length lx = k) ->
  (forall p q, p ∈ lx -> q ∈ rx -> nearer p q) -> forall p q, p ∈ take k l -> q ∈ rx -> nearer p q.
Proof.
  intros Hs Hsub Hk Hn p q Hp Hq. destruct (decide (Exists (fun y => nearer p y) lx)) as [He|He].
  { apply Exists_exists in He as (y & Hy & Hpy). transitivity y; [done|by apply Hn]. }
  exfalso. apply not_Exists_Forall in He; [|apply _]. rewrite Forall_forall in He.
  rewrite <-(take_drop k l) in Hs, Hsub. apply StronglySorted_app in Hs as (Hx & _).
  apply submseteq_app_r in Hsub as (k1 & k2 & Hlx & Hk1 & Hk2). destruct k2 as [|y k2].
  - rewrite app_nil_r in Hlx. assert (Hlen : length lx = k) by (apply Hk; by destruct rx; [apply elem_of_nil in Hq|]).
    assert (take k l ≡ₚ lx) as Heq.
    { rewrite Hlx. symmetry. apply submseteq_length_Permutation; [done|]. rewrite <-Hlx, Hlen, length_take. lia. }
    rewrite Heq in Hp. apply (He p Hp). unfold nearer. by destruct (total le (distance p) (distance p)).
  - apply (He y); [rewrite Hlx; set_solver|]. apply Hx; [done|]. apply (elem_of_submseteq (y :: k2)); [left|done].
Qed.

(** Merging two rankings ranks the union of what they ranked. *)
Lemma merge_ranks k A B l1 l2 : ranks k A l1 -> ranks k B l2 -> ranks k (A ++ B) (merge_top_k k l1 l2).
Proof.
  intros (S1 & L1 & r1 & P1 & N1) (S2 & L2 & r2 & P2 & N2). rewrite merge_top_k_eq.
  pose proof (sorted_merge _ _ S1 S2) as Hs. set (l := list_merge nearer l1 l2) in *.
  assert (Hp : l ≡ₚ l1 ++ l2) by apply merge_Permutation.
  assert (La : length A = (length l1 + length r1)%nat) by (by rewrite <-P1, length_app).
  assert (Lb : length B = (length l2 + length r2)%nat) by (by rewrite <-P2, length_app).
  assert (Ll : length l = (length l1 + length l2)%nat) by (by rewrite Hp, length_app).
  assert (R1 : r1 <> [] -> length l1 = k) by (destruct r1; [done|]; cbn in La; lia).
  assert (R2 : r2 <> [] -> length l2 = k) by (destruct r2; [done|]; cbn in Lb; lia).
  split; [by destruct (ranks_take k l Hs)|]. split.
  { rewrite length_take, Ll, length_app. destruct r1; [|rewrite R1 in * by done; lia]. destruct r2; [|rewrite R2 in * by done; lia].
    cbn in La, Lb. lia. }
  exists (drop k l ++ r1 ++ r2). split.
  { rewrite app_assoc, take_drop, Hp, <-P1, <-P2. solve_Permutation. }
  intros p q Hp' [Hq|[Hq|Hq]%elem_of_app]%elem_of_app.
  - rewrite <-(take_drop k l) in Hs. apply StronglySorted_app in Hs as (Hx & _). by apply Hx.
  - eapply (ranking_bounds k l l1 r1); try done. rewrite Hp. by apply submseteq_inserts_r.
  - eapply (ranking_bounds k l l2 r2); try done. rewrite Hp. by apply submseteq_inserts_l.
Qed.

(** ** merge_top_k_dedup *)

(** The candidates come in the order of the stable merge. *)
Lemma next_candidate_merge l1 l2 :
  match next_candidate l1 l2 with
  | None => list_merge nearer l1 l2 = [] /\ l1 = [] /\ l2 = []
  | Some (c, l1', l2') => list_merge nearer l1 l2 = c :: list_merge nearer l1' l2' /\
      (length l1' + length l2' < length l1 + length l2)%nat
  end.
Proof.
  destruct l1 as [|p l1], l2 as [|q l2]; cbn [next_candidate].
  - done.
  - rewrite !list_merge_nil_l. split; [done|]. cbn. lia.
  - rewrite !list_merge_nil_r. split; [done|]. cbn. lia.
  - rewrite list_merge_cons. unfold nearer at 1. case_bool_decide; case_decide; try done; cbn; (split; [done|lia]).
Qed.

Lemma already_emitted_spec out c : already_emitted out c = true <-> id c ∈ id <$> out.
Proof.
  unfold already_emitted. rewrite existsb_exists, list_elem_of_fmap. split.
  - intros (p & Hp%list_elem_of_In & He%Z.eqb_eq). eauto.
  - intros (p & He & Hp). exists p. rewrite <-list_elem_of_In, Z.eqb_eq. done.
Qed.

(** [out] is what the loop has kept of the candidates [seen] so far. *)
Record kept (seen out : list DistancePair) : Prop := {
  kp_ids : NoDup (id <$> out);
  kp_sorted : StronglySorted nearer out;
  kp_from : forall p, p ∈ out -> p ∈ seen;
  kp_best : forall p q, p ∈ out -> q ∈ seen -> id q = id p -> nearer p q;
  kp_all : forall q, q ∈ seen -> id q ∈ id <$> out }.

Lemma kept_step seen out c :
  kept seen out -> (forall p, p ∈ seen -> nearer p c) ->
  kept (seen ++ [c]) (if already_emitted out c then out else out ++ [c]).
Proof.
  intros [K1 K2 K3 K4 K5] Hc. assert (Hrefl : nearer c c) by (unfold nearer; by destruct (total le (distance c) (distance c))).
  destruct (already_emitted out c) eqn:E.
  - rewrite already_emitted_spec in E. split; try done.
    + intros p Hp. apply elem_of_app. left. by apply K3.
    + intros p q Hp [Hq|Hq%list_elem_of_singleton]%elem_of_app Hid; [by apply K4|]. subst q. apply Hc. by apply K3.
    + intros q [Hq|Hq%list_elem_of_singleton]%elem_of_app; [by apply K5|by subst].
  - assert (Hn : id c ∉ id <$> out) by (rewrite <-already_emitted_spec; by rewrite E). split.
    + rewrite fmap_app. apply NoDup_app. split; [done|]. split; [|apply NoDup_singleton].
      intros x Hx Hx'%list_elem_of_singleton. subst x. done.
    + apply StronglySorted_app. split; [|split; [done|repeat constructor]].
      intros x y Hx Hy%list_elem_of_singleton. subst y. apply Hc. by apply K3.
    + intros p [Hp|Hp]%elem_of_app; apply elem_of_app; [left; by apply K3|by right].
    + intros p q [Hp|Hp%list_elem_of_singleton]%elem_of_app [Hq|Hq%list_elem_of_singleton]%elem_of_app Hid.
      * by apply K4.
      * subst q. apply Hc. by apply K3.
      * subst p. exfalso. apply Hn. rewrite <-Hid. by apply K5.
      * by subst.
    + intros q Hq. rewrite fmap_app. apply elem_of_app.
      apply elem_of_app in Hq as [Hq|Hq%list_elem_of_singleton]; [left; by apply K5|right; subst q; left].
Qed.

Lemma dedup_loop_spec fuel k l1 l2 seen out :
  (length l1 + length l2 < fuel)%nat -> StronglySorted nearer (seen ++ list_merge nearer l1 l2) ->
  kept seen out -> zlen out <= k ->
  exists out' seen' rest, merge_top_k_dedup_loop fuel k l1 l2 out = Ok out' /\
    seen ++ list_merge nearer l1 l2 = seen' ++ rest /\ kept seen' out' /\ zlen out' <= k /\ (rest = [] \/ zlen out' = k).
Proof.
  revert l1 l2 seen out; induction fuel as [|fuel IH]; intros l1 l2 seen out Hf Hs Hk Hle; [lia|].
  cbn [merge_top_k_dedup_loop]. destruct (Z.ltb_spec (zlen out) k) as [Hlt|Hge].
  - pose proof (next_candidate_merge l1 l2) as Hn. destruct (next_candidate l1 l2) as [[[c l1'] l2']|].
    + destruct Hn as [Hm Hl]. rewrite Hm in Hs |- *.
      replace (seen ++ c :: list_merge nearer l1' l2') with ((seen ++ [c]) ++ list_merge nearer l1' l2') in * by by rewrite <-app_assoc.
      apply IH; [lia|done| |].
      * apply kept_step; [done|]. intros p Hp. apply StronglySorted_app in Hs as (_ & Hs & _).
        apply StronglySorted_app in Hs as (Hs & _). apply Hs; [done|left].
      * destruct (already_emitted out c); [done|]. rewrite zlen_app. change (zlen [c]) with 1. lia.
    + destruct Hn as [Hm _]. exists out, seen, []. rewrite Hm. by eauto 6.
  - exists out, seen, (list_merge nearer l1 l2). split; [done|]. split; [done|]. split; [done|]. split; [done|]. right. lia.
Qed.

(** [out] is a ranking of distinct ids chosen from [l], at most [k] of them. *)
Record dedup_ranks (k : Z) (l out : list DistancePair) : Prop := {
  dr_len : zlen out <= k;
  dr_ids : NoDup (id <$> out);
  dr_sorted : StronglySorted nearer out;
  dr_from : forall p, p ∈ out -> p ∈ l /\ forall q, q ∈ l -> id q = id p -> nearer p q;
  dr_all : forall q, q ∈ l -> id q ∈ id <$> out \/ (zlen out = k /\ forall p, p ∈ out -> nearer p q) }.

Lemma merge_top_k_dedup_ranks k l1 l2 :
  0 <= k -> StronglySorted nearer l1 -> StronglySorted nearer l2 ->
  exists out, merge_top_k_dedup k l1 l2 = Ok out /\ dedup_ranks k (l1 ++ l2) out.
Proof.
  intros Hk H1 H2. pose proof (sorted_merge _ _ H1 H2) as Hs.
  destruct (dedup_loop_spec (S (length l1 + length l2)) k l1 l2 [] []) as (out & seen & rest & Hr & Hm & [K1 K2 K3 K4 K5] & Hle & Hfull);
    [lia|done| |done|].
  { split; try (by intros ? ?%elem_of_nil); [constructor|constructor|by intros ? ? ?%elem_of_nil]. }
  exists out. split; [done|].
  assert (Hin : forall q, q ∈ l1 ++ l2 <-> q ∈ seen ++ rest) by (intros q; by rewrite <-Hm, merge_Permutation).
  cbn in Hm. rewrite Hm in Hs. apply StronglySorted_app in Hs as (Hx & _).
  split; try done.
  - intros p Hp. split; [apply Hin, elem_of_app; left; by apply K3|].
    intros q [Hq|Hq]%Hin%elem_of_app Hid; [by apply K4|]. apply Hx; [by apply K3|done].
  - intros q [Hq|Hq]%Hin%elem_of_app; [left; by apply K5|].
    destruct Hfull as [->|Hfull]; [by apply elem_of_nil in Hq|]. right. split; [done|].
    intros p Hp. apply Hx; [by apply K3|done].
Qed.

(** Cutting one side to its [k] nearest before the merge loses nothing, when
    its ids are distinct. *)
Lemma dedup_ranks_cut k A l1 l2 out :
  0 <= k -> ranks (Z.to_nat k) A l1 -> NoDup (id <$> A) -> dedup_ranks k (l1 ++ l2) out -> dedup_ranks k (A ++ l2) out.
Proof.
  intros Hk (S1 & L1 & rest & P1 & N1) Hnd [R1 R2 R3 R4 R5].
  assert (Hrefl : forall c, nearer c c) by (intros c; unfold nearer; by destruct (total le (distance c) (distance c))).
  assert (Hnd1 : NoDup (id <$> l1)).
  { rewrite <-P1, fmap_app in Hnd. by apply NoDup_app in Hnd as [? _]. }
  assert (Hcut : forall q, q ∈ rest -> length l1 = Z.to_nat k).
  { intros q Hq. rewrite L1, <-P1, length_app. assert (0 < length rest)%nat by (destruct rest; [by apply elem_of_nil in Hq|cbn; lia]).
    rewrite <-P1, length_app in L1. lia. }
  (* what was cut is no nearer than any output, and the output is full *)
  assert (Hrest : forall q, q ∈ rest -> zlen out = k /\ forall p, p ∈ out -> nearer p q).
  { intros q Hq. specialize (Hcut q Hq).
    destruct (decide (Forall (fun m => id m ∈ id <$> out) l1)) as [Hall|Hex].
    - assert (Hsub : (id <$> l1) ⊆+ (id <$> out)).
      { apply NoDup_submseteq; [done|]. intros x (m & -> & Hm)%list_elem_of_fmap. rewrite Forall_forall in Hall. by apply Hall. }
      pose proof (submseteq_length _ _ Hsub) as Hlen. rewrite !length_fmap in Hlen.
      assert (Hz : zlen out = k) by (unfold zlen in *; lia). split; [done|]. intros p Hp.
      assert (Heq : id <$> l1 ≡ₚ id <$> out) by (apply submseteq_length_Permutation; [done|rewrite !length_fmap; unfold zlen in *; lia]).
      assert (id p ∈ id <$> l1) as (m & Hid & Hm)%list_elem_of_fmap by (rewrite Heq; by apply list_elem_of_fmap_2).
      transitivity m; [|by apply N1]. apply R4; [done|by apply elem_of_app; left|done].
    - apply not_Forall_Exists in Hex; [|apply _]. apply Exists_exists in Hex as (m & Hm & Hnm). cbn in Hnm.
      destruct (R5 m) as [|[Hz Hp]]; [by apply elem_of_app; left|done|]. split; [done|]. intros p Hpo.
      transitivity m; [by apply Hp|by apply N1]. }
  split; try done.
  - intros p Hp. destruct (R4 p Hp) as [Hin Hbest]. split.
    + apply elem_of_app in Hin as [Hin|Hin]; apply elem_of_app; [left|by right]. rewrite <-P1. by apply elem_of_app; left.
    + intros q [Hq|Hq]%elem_of_app Hid; [|by apply Hbest; [apply elem_of_app; right|]].
      rewrite <-P1 in Hq. apply elem_of_app in Hq as [Hq|Hq]; [by apply Hbest; [apply elem_of_app; left|]|].
      by apply (Hrest q Hq).
  - intros q [Hq|Hq]%elem_of_app; [|by apply R5, elem_of_app; right].
    rewrite <-P1 in Hq. apply elem_of_app in Hq as [Hq|Hq]; [by apply R5, elem_of_app; left|]. right. by apply Hrest.
Qed.

(** Renaming ids keeps a ranking. *)
Definition relabel (f : Z -> Z) (p : DistancePair) : DistancePair := mkPair (distance p) (f (id p)).

Lemma ranks_relabel f k cands out : ranks k cands out -> ranks k (relabel f <$> cands) (relabel f <$> out).
Proof.
  intros (Hs & Hl & rest & Hp & Hn). split; [|split].
  - clear -Hs. induction Hs as [|p l Hs IH Hf]; [constructor|]. rewrite fmap_cons. constructor; [done|].
    rewrite Forall_fmap. eapply Forall_impl; [exact Hf|]. done.
  - by rewrite !length_fmap.
  - exists (relabel f <$> rest). rewrite <-fmap_app, Hp. split; [done|].
    intros p q (p' & -> & Hp')%list_elem_of_fmap (q' & -> & Hq')%list_elem_of_fmap. by apply (Hn p' q').
Qed.

Lemma ranks_elem k cands out p : ranks k cands out -> p ∈ out -> p ∈ cands.
Proof. intros (_ & _ & rest & <- & _) Hp. apply elem_of_app. by left. Qed.

(** Merging two ranked lists with duplicates dropped always ends, returns
    at most [top_k] distinct tuple ids in ranked order, each taken from an
    input at the smallest distance it has there; an id that is left out has at
    no input a distance smaller than anything returned, and nothing is left
    out while there is room. *)
Theorem merge_top_k_dedup_spec k l1 l2 :
  0 <= k -> StronglySorted nearer l1 -> StronglySorted nearer l2 ->
  exists out, merge_top_k_dedup k l1 l2 = Ok out /\ zlen out <= k /\ NoDup (id <$> out) /\ StronglySorted nearer out /\
    (forall p, p ∈ out -> p ∈ l1 ++ l2 /\ forall q, q ∈ l1 ++ l2 -> id q = id p -> nearer p q) /\
    (forall q, q ∈ l1 ++ l2 -> id q ∈ id <$> out \/ (zlen out = k /\ forall p, p ∈ out -> nearer p q)).
Proof.
  intros Hk H1 H2. destruct (merge_top_k_dedup_ranks k l1 l2 Hk H1 H2) as (out & Hr & [? ? ? ? ?]). by exists out.
Qed.
End topk.

#[global] Arguments DistancePair : clear implicits.
#[global] Arguments mkPair {D} _ _.
#[global] Arguments distance {D} _.
#[global] Arguments id {D} _.

(** ** Concrete rankings, with integer distances *)

Definition pair_z (d i : Z) : DistancePair Z := mkPair d i.

Lemma merge_top_k_dedup_spec_witness :
  merge_top_k_dedup Z.le 3 [pair_z 1 10; pair_z 4 11; pair_z 9 12] [pair_z 1 10; pair_z 2 13; pair_z 5 11] =
    Ok [pair_z 1 10; pair_z 2 13; pair_z 4 11] /\
  exists out, merge_top_k_dedup Z.le 3 [pair_z 1 10; pair_z 4 11; pair_z 9 12] [pair_z 1 10; pair_z 2 13; pair_z 5 11] = Ok out /\
    NoDup (id <$> out).
Proof.
  split; [vm_compute; reflexivity|].
  destruct (merge_top_k_dedup_spec Z.le 3 [pair_z 1 10; pair_z 4 11; pair_z 9 12] [pair_z 1 10; pair_z 2 13; pair_z 5 11])
    as (out & Hr & _ & Hn & _).
  - lia.
  - repeat constructor; vm_compute; discriminate.
  - repeat constructor; vm_compute; discriminate.
  - exists out. split; [exact Hr|exact Hn].
Defined.
