(* ===== verification/Memtable.v ===== *)
(** Concurrent memtables (lsmindex.h, lsmindex.c): the shared buffer of
    memtables, the slot protocol of an insert (reserve, write, publish) with its
    interleavings, and the rotation of the growing memtable.

    A memtable's vectors are a byte array; row [i] starts at [i] times the
    aligned row size.  The size of that array is a field of the model, 128 MB in
    the code. *)

From S2P Require Import Prelude Bitmap.

Definition MEMTABLE_MAX_CAPACITY : Z := 50000.
Definition MEMTABLE_BITMAP_SIZE : Z := GET_BITMAP_SIZE MEMTABLE_MAX_CAPACITY.
Definition MEMTABLE_VECTOR_ARRAY_SIZE_BYTES : Z := 128 * 1024 * 1024.
Definition MEMTABLE_BUF_SIZE : Z := 8.
Definition MEMTABLE_NUM : Z := 4.
Definition MT_IDX_INVALID : Z := -1.
Definition MT_IDX_ROTATING : Z := -2.

Record ConcurrentMemTableData := mkMemTable {
  mt_rel : Z;
  memtable_id : Z;
  capacity : Z;
  current_size : Z;
  ready_cnt : Z;
  sealed : bool;
  flush_claimed : bool;
  max_ready_id : Z;
  dim : Z;
  elem_size : Z;
  tids : list Z;
  mt_bitmap : list Z;
  ready : list Z;
  vector_blob : list Z }.

#[global] Instance eta_ConcurrentMemTableData : Settable ConcurrentMemTableData := fun m =>
  mkMemTable (mt_rel m) (memtable_id m) (capacity m) (current_size m) (ready_cnt m) (sealed m)
    (flush_claimed m) (max_ready_id m) (dim m) (elem_size m) (tids m) (mt_bitmap m) (ready m) (vector_blob m).

(** ** Rows *)

Definition VEC_BYTES_PER_ROW (mt : ConcurrentMemTableData) : Z := u64 (dim mt * elem_size mt).
Definition vec_offset (mt : ConcurrentMemTableData) (i : Z) : Z := i * MAXALIGN (VEC_BYTES_PER_ROW mt).

(** The bytes of a row at [VEC_PTR_AT(mt, i)]. *)
Definition row_at (mt : ConcurrentMemTableData) (i : Z) : list Z :=
  slice (vector_blob mt) (vec_offset mt i) (vec_offset mt i + VEC_BYTES_PER_ROW mt).

(** [memcpy(base + off, src, n)]; beyond the array is undefined behaviour. *)
Definition mem_write (blob : list Z) (off : Z) (src : list Z) : res (list Z) :=
  if (off <? 0) || (zlen blob <? off + zlen src) then Error OutOfBounds
  else Ok (take (Z.to_nat off) blob ++ src ++ drop (Z.to_nat (off + zlen src)) blob).

(** ** A fresh memtable *)

(** [alloc_segment_id]: the id and the new counter. *)
Definition alloc_segment_id (next_segment_id : Z) : Z * Z := (next_segment_id, u32 (next_segment_id + 1)).

(** [cap] in [register_and_set_memtable]; a zero row size would divide by zero. *)
Definition memtable_cap (array_size memtable_capacity vecbytes : Z) : res Z :=
  if vecbytes =? 0 then Error OutOfBounds
  else Ok (Z.min (u32 (array_size / vecbytes)) (u32 memtable_capacity)).

(** [MemSet(a, 0, n)] on the first [n] elements. *)
Definition mem_clear (a : list Z) (n : Z) : list Z := replicate (Z.to_nat n) 0 ++ drop (Z.to_nat n) a.

Definition set_memtable (array_size memtable_capacity : Z) (mt : ConcurrentMemTableData)
    (rel id d e : Z) : res ConcurrentMemTableData :=
  let mt := mt <| mt_rel := rel |> <| memtable_id := id |> <| dim := d |> <| elem_size := e |> in
  cap ← memtable_cap array_size memtable_capacity (VEC_BYTES_PER_ROW mt);
  Ok (mt <| capacity := cap |> <| current_size := 0 |> <| ready_cnt := 0 |> <| sealed := false |>
         <| flush_claimed := false |> <| max_ready_id := UINT32_MAX |>
         <| ready ::= fun r => mem_clear r cap |> <| mt_bitmap ::= fun b => mem_clear b MEMTABLE_BITMAP_SIZE |>).

(** ** The buffer of memtables *)

Record MemtableBufferSlot := mkBufferSlot { mt_ref_count : Z; slot_mt : ConcurrentMemTableData }.

#[global] Instance eta_MemtableBufferSlot : Settable MemtableBufferSlot := fun s =>
  mkBufferSlot (mt_ref_count s) (slot_mt s).

(** The fields of [LSMIndexData] the memtables use. *)
Record LSMIndexData := mkLSM {
  indexRelId : Z;
  lsm_dim : Z;
  lsm_elem_size : Z;
  next_segment_id : Z;
  growing_memtable_idx : Z;
  growing_memtable_id : Z;
  memtable_idxs : list Z;
  memtable_count : Z }.

#[global] Instance eta_LSMIndexData : Settable LSMIndexData := fun l =>
  mkLSM (indexRelId l) (lsm_dim l) (lsm_elem_size l) (next_segment_id l) (growing_memtable_idx l)
    (growing_memtable_id l) (memtable_idxs l) (memtable_count l).

Module Buffer.

(** The first slot whose [ref_count] can be moved from 0 to 1. *)
Fixpoint claim_slot (slots : list MemtableBufferSlot) (i : Z) : option (Z * list MemtableBufferSlot) :=
  match slots with
  | [] => None
  | s :: slots' =>
      if mt_ref_count s =? 0 then Some (i, (s <| mt_ref_count := 1 |>) :: slots')
      else r ← claim_slot slots' (i + 1); Some (r.1, s :: r.2)
  end.

(** The slot number is -1 when the buffer is full. *)
Definition register_and_set_memtable (array_size memtable_cap : Z) (lsm : LSMIndexData)
    (slots : list MemtableBufferSlot) (is_recovery : bool) (assigned_sid : Z)
    : res (Z * LSMIndexData * list MemtableBufferSlot) :=
  match claim_slot slots 0 with
  | None => Ok (-1, lsm, slots)
  | Some (slot_num, slots) =>
      let '(id, lsm) := if is_recovery then (assigned_sid, lsm)
                        else let r := alloc_segment_id (next_segment_id lsm) in (r.1, lsm <| next_segment_id := r.2 |>) in
      s ← arr_get slots slot_num;
      mt ← set_memtable array_size memtable_cap (slot_mt s) (indexRelId lsm) id (lsm_dim lsm) (lsm_elem_size lsm);
      Ok (slot_num, lsm, <[slot_num := s <| slot_mt := mt |>]> slots)
  end.

(** [enqueue_sealed_memtable] once there is room; it waits otherwise. *)
Definition enqueue_sealed_memtable (lsm : LSMIndexData) (mt_idx : Z) : res (option LSMIndexData) :=
  if memtable_count lsm <? MEMTABLE_NUM then
    idxs ← arr_set (memtable_idxs lsm) (memtable_count lsm) mt_idx;
    Ok (Some (lsm <| memtable_idxs := idxs |> <| memtable_count ::= fun c => c + 1 |>))
  else Ok None.

(** The first critical section of [rotate_growing_memtable]: leave, raise, or
    claim the rotation. *)
Inductive rotation := Leave | Claimed (cur_idx : Z) (lsm : LSMIndexData).

Definition begin_rotation (lsm : LSMIndexData) (slots : list MemtableBufferSlot) (need_enqueue : bool) : res rotation :=
  let cur_idx := growing_memtable_idx lsm in
  if cur_idx =? MT_IDX_ROTATING then Ok Leave
  else if MEMTABLE_BUF_SIZE <=? cur_idx then Error ElogError
  else if need_enqueue then
    cur ← arr_get slots cur_idx;
    if negb (sealed (slot_mt cur)) then Ok Leave
    else Ok (Claimed cur_idx (lsm <| growing_memtable_id := memtable_id (slot_mt cur) |>
                                  <| growing_memtable_idx := MT_IDX_ROTATING |>))
  else Ok (Claimed cur_idx (lsm <| growing_memtable_idx := MT_IDX_ROTATING |>)).

(** The last critical section. *)
Definition finish_rotation (lsm : LSMIndexData) (slots : list MemtableBufferSlot) (new_idx : Z) : res LSMIndexData :=
  s ← arr_get slots new_idx;
  Ok (lsm <| growing_memtable_idx := new_idx |> <| growing_memtable_id := memtable_id (slot_mt s) |>).

End Buffer.

(** ** The insert protocol, one atomic access per step *)
Module Insert.

(** What a backend does next; [tid] and [row] are what it inserts. *)
Inductive pc :=
  | Idle
  | Reserve (tid : Z) (row : list Z)                 (* read sealed = 0 *)
  | Overflow                                         (* got a slot past the capacity *)
  | Write (i tid : Z) (row : list Z)                 (* owns slot i *)
  | Publish (i : Z)                                  (* row written and logged *)
  | Count (i : Z)                                    (* ready[i] = 1 *)
  | ReadMax (i : Z)                                  (* ready_cnt incremented *)
  | SwapFirst                                        (* about to move max_ready_id from none to 0 *)
  | Scan (cur new : Z)                               (* extending the ready prefix *)
  | Swap (cur new : Z).                              (* about to store the new prefix end *)

(** [reserve_slot], first access. *)
Definition read_sealed (mt : ConcurrentMemTableData) (tid : Z) (row : list Z) : pc :=
  if sealed mt then Idle else Reserve tid row.

(** [reserve_slot], second access: the fetch-and-add. *)
Definition fetch_slot (mt : ConcurrentMemTableData) (tid : Z) (row : list Z) : ConcurrentMemTableData * pc :=
  let i := current_size mt in
  (mt <| current_size := u32 (i + 1) |>, if capacity mt <=? i then Overflow else Write i tid row).

(** The two writes of [insert_lsm_index] to a slot only its owner touches. *)
Definition write_row (mt : ConcurrentMemTableData) (i tid : Z) (row : list Z) : res ConcurrentMemTableData :=
  tids' ← arr_set (tids mt) i tid;
  blob ← mem_write (vector_blob mt) (vec_offset mt i) row;
  Ok (mt <| tids := tids' |> <| vector_blob := blob |>).

(** [publish_slot_release]. *)
Definition set_ready (mt : ConcurrentMemTableData) (i : Z) : res ConcurrentMemTableData :=
  r ← arr_set (ready mt) i 1; Ok (mt <| ready := r |>).

(** [update_max_ready_id]: the first read. *)
Definition read_max (mt : ConcurrentMemTableData) (slot_id : Z) : pc :=
  let current_max := max_ready_id mt in
  if current_max =? UINT32_MAX then (if slot_id =? 0 then SwapFirst else Idle)
  else if slot_id =? u32 (current_max + 1) then Scan current_max (u32 (current_max + 1)) else Idle.

(** One test of the scanning loop. *)
Definition scan_step (mt : ConcurrentMemTableData) (cur new : Z) : res pc :=
  if new <? capacity mt then
    r ← arr_get (ready mt) new;
    if r =? 1 then Ok (Scan cur (u32 (new + 1)))
    else Ok (if cur <? new - 1 then Swap cur (new - 1) else Idle)
  else Ok (if cur <? new - 1 then Swap cur (new - 1) else Idle).

(** One compare-and-swap of the storing loop; a failure re-reads the maximum. *)
Definition swap_max (mt : ConcurrentMemTableData) (cur new : Z) : ConcurrentMemTableData * pc :=
  if max_ready_id mt =? cur then (mt <| max_ready_id := new |>, Idle)
  else let cur := max_ready_id mt in
       (mt, if new <=? cur then Idle else Swap cur new).

Definition swap_first (mt : ConcurrentMemTableData) : ConcurrentMemTableData :=
  if max_ready_id mt =? UINT32_MAX then mt <| max_ready_id := 0 |> else mt.

(** A memtable, its backends, and (ghost) what each slot was reserved for. *)
Record state := mkState { st_mt : ConcurrentMemTableData; st_pcs : list pc; st_log : gmap Z (Z * list Z) }.

#[global] Instance eta_state : Settable state := fun s => mkState (st_mt s) (st_pcs s) (st_log s).

(** The step of backend [t] from its current position. *)
Definition at_pc (s : state) (t : nat) (p : pc) : Prop := st_pcs s !! t = Some p.
Definition goto (s : state) (t : nat) (mt : ConcurrentMemTableData) (p : pc) : state :=
  s <| st_mt := mt |> <| st_pcs ::= <[t := p]> |>.

Inductive step : state -> state -> Prop :=
  | step_start s t tid row :
      at_pc s t Idle -> zlen row = VEC_BYTES_PER_ROW (st_mt s) ->
      step s (goto s t (st_mt s) (read_sealed (st_mt s) tid row))
  | step_fetch s t tid row mt p :
      at_pc s t (Reserve tid row) -> fetch_slot (st_mt s) tid row = (mt, p) ->
      step s ((goto s t mt p) <| st_log ::= fun l =>
                match p with Write i _ _ => <[i := (tid, row)]> l | _ => l end |>)
  | step_overflow s t :
      at_pc s t Overflow -> step s (goto s t ((st_mt s) <| sealed := true |>) Idle)
  | step_write s t i tid row mt :
      at_pc s t (Write i tid row) -> write_row (st_mt s) i tid row = Ok mt -> step s (goto s t mt (Publish i))
  | step_publish s t i mt :
      at_pc s t (Publish i) -> set_ready (st_mt s) i = Ok mt -> step s (goto s t mt (Count i))
  | step_count s t i :
      at_pc s t (Count i) ->
      step s (goto s t ((st_mt s) <| ready_cnt ::= fun c => u32 (c + 1) |>) (ReadMax i))
  | step_read_max s t i :
      at_pc s t (ReadMax i) -> step s (goto s t (st_mt s) (read_max (st_mt s) i))
  | step_swap_first s t :
      at_pc s t SwapFirst -> step s (goto s t (swap_first (st_mt s)) Idle)
  | step_scan s t cur new p :
      at_pc s t (Scan cur new) -> scan_step (st_mt s) cur new = Ok p -> step s (goto s t (st_mt s) p)
  | step_swap s t cur new mt p :
      at_pc s t (Swap cur new) -> swap_max (st_mt s) cur new = (mt, p) -> step s (goto s t mt p).

(** [wait_for_publish] of lsmbackground.c, one round: has every reserved row
    of a sealed memtable been published? *)
Definition wait_for_publish (mt : ConcurrentMemTableData) : res bool :=
  if sealed mt then
    let valid_size := Z.min (current_size mt) (capacity mt) in
    if valid_size <? ready_cnt mt then Error ElogError else Ok (ready_cnt mt =? valid_size)
  else Error ElogError.

(** The step of backend [t], as a function; an idle backend takes [new]. *)
Definition exec (s : state) (t : nat) (new : option (Z * list Z)) : option state :=
  let mt := st_mt s in
  p ← st_pcs s !! t;
  match p with
  | Idle =>
      '(tid, row) ← new;
      if zlen row =? VEC_BYTES_PER_ROW mt then Some (goto s t mt (read_sealed mt tid row)) else None
  | Reserve tid row =>
      let '(mt, p) := fetch_slot mt tid row in
      Some ((goto s t mt p) <| st_log ::= fun l => match p with Write i _ _ => <[i := (tid, row)]> l | _ => l end |>)
  | Overflow => Some (goto s t (mt <| sealed := true |>) Idle)
  | Write i tid row => match write_row mt i tid row with Ok mt => Some (goto s t mt (Publish i)) | Error _ => None end
  | Publish i => match set_ready mt i with Ok mt => Some (goto s t mt (Count i)) | Error _ => None end
  | Count i => Some (goto s t (mt <| ready_cnt ::= fun c => u32 (c + 1) |>) (ReadMax i))
  | ReadMax i => Some (goto s t mt (read_max mt i))
  | SwapFirst => Some (goto s t (swap_first mt) Idle)
  | Scan cur new => match scan_step mt cur new with Ok p => Some (goto s t mt p) | Error _ => None end
  | Swap cur new => let '(mt, p) := swap_max mt cur new in Some (goto s t mt p)
  end.

(** A whole schedule. *)
Fixpoint execs (s : state) (sched : list (nat * option (Z * list Z))) : option state :=
  match sched with
  | [] => Some s
  | (t, new) :: sched => s ← exec s t new; execs s sched
  end.

(** [n] backends and a memtable nobody has inserted into. *)
Definition init (mt : ConcurrentMemTableData) (n : nat) : state := mkState mt (replicate n Idle) ∅.

End Insert.

(** ** Byte memory *)

Section memory.
Implicit Types (blob src : list Z) (off lo hi : Z).

Lemma mem_write_spec blob off src blob' :
  mem_write blob off src = Ok blob' ->
  0 <= off /\ off + zlen src <= zlen blob /\ zlen blob' = zlen blob /\ slice blob' off (off + zlen src) = src /\
  forall lo hi, 0 <= lo -> hi <= off \/ off + zlen src <= lo -> slice blob' lo hi = slice blob lo hi.
Proof.
  unfold mem_write. destruct (Z.ltb_spec off 0) as [|Ho]; [done|]. destruct (Z.ltb_spec (zlen blob) (off + zlen src)) as [|Hs]; [done|].
  cbn [orb]. intros [= <-]. pose proof (zlen_nonneg src) as Hz. split; [done|]. split; [done|].
  assert (Hl1 : length (take (Z.to_nat off) blob) = Z.to_nat off) by (rewrite length_take; unfold zlen in *; lia).
  split; [|split].
  - unfold zlen in *. rewrite !length_app, length_drop, Hl1. lia.
  - unfold slice. rewrite drop_app_length' by done. rewrite take_app_length'; [done|]. unfold zlen. lia.
  - intros lo hi Hlo [Hh|Hl].
    + unfold slice. destruct (decide (hi <= lo)); [by replace (Z.to_nat (hi - lo)) with 0%nat by lia|].
      rewrite !take_drop_commute. replace (Z.to_nat lo + Z.to_nat (hi - lo))%nat with (Z.to_nat hi) by lia.
      f_equal. rewrite take_app_le by lia. rewrite take_take. f_equal. lia.
    + unfold slice. f_equal. rewrite app_assoc. rewrite drop_app_ge by (rewrite length_app, Hl1; unfold zlen in *; lia).
      rewrite drop_drop. f_equal. rewrite length_app, Hl1. unfold zlen in *. lia.
Qed.

Lemma mem_write_ok blob off src : 0 <= off -> off + zlen src <= zlen blob -> exists blob', mem_write blob off src = Ok blob'.
Proof.
  intros Ho Hs. unfold mem_write. destruct (Z.ltb_spec off 0); [lia|]. destruct (Z.ltb_spec (zlen blob) (off + zlen src)); [lia|].
  cbn. eauto.
Qed.
End memory.

(** Rows of a memtable lie in the array and do not overlap. *)
Definition rows_fit (mt : ConcurrentMemTableData) : Prop :=
  0 <= VEC_BYTES_PER_ROW mt /\ forall i, 0 <= i < capacity mt -> vec_offset mt i + VEC_BYTES_PER_ROW mt <= zlen (vector_blob mt).

Lemma row_separate mt i j : 0 <= VEC_BYTES_PER_ROW mt -> 0 <= i -> 0 <= j -> i <> j ->
  vec_offset mt j + VEC_BYTES_PER_ROW mt <= vec_offset mt i \/ vec_offset mt i + VEC_BYTES_PER_ROW mt <= vec_offset mt j.
Proof.
  intros Hv Hi Hj Hne. unfold vec_offset. pose proof (MAXALIGN_le (VEC_BYTES_PER_ROW mt)) as Ha.
  set (w := MAXALIGN _) in *. set (v := VEC_BYTES_PER_ROW mt) in *.
  destruct (Z.lt_total i j) as [H|[H|H]]; [right|done|left].
  - assert (i * w + w <= j * w) by (assert ((i + 1) * w <= j * w) by (apply Z.mul_le_mono_nonneg_r; lia); lia). lia.
  - assert (j * w + w <= i * w) by (assert ((j + 1) * w <= i * w) by (apply Z.mul_le_mono_nonneg_r; lia); lia). lia.
Qed.

Lemma vec_offset_nonneg mt i : 0 <= VEC_BYTES_PER_ROW mt -> 0 <= i -> 0 <= vec_offset mt i.
Proof. intros Hv Hi. unfold vec_offset. pose proof (MAXALIGN_le (VEC_BYTES_PER_ROW mt)). nia. Qed.

(** ** The invariant of the insert protocol *)

Section protocol.
Import Insert.
Implicit Types (s : state) (mt : ConcurrentMemTableData) (p : pc) (t : nat) (i : Z).

Definition owns p i : Prop := match p with Write j _ _ => j = i | Publish j => j = i | _ => False end.
Definition is_reserving p : bool := match p with Reserve _ _ => true | _ => false end.
Definition is_overflow p : bool := match p with Overflow => true | _ => false end.
Definition count_pc (f : pc -> bool) (l : list pc) : Z := zlen (filter (fun p => f p = true) l).

Definition is_ready mt i : Prop := ready mt !! i = Some 1.

(** What each position knows. *)
Definition pc_ok mt p : Prop :=
  match p with
  | Reserve _ row => zlen row = VEC_BYTES_PER_ROW mt
  | Count i | ReadMax i => 0 <= i < capacity mt /\ is_ready mt i
  | SwapFirst => 0 < capacity mt /\ is_ready mt 0
  | Scan cur new => 0 <= cur < new /\ new <= capacity mt /\ forall j, 0 <= j < new -> is_ready mt j
  | Swap cur new => 0 <= cur < new /\ new < capacity mt /\ forall j, 0 <= j <= new -> is_ready mt j
  | _ => True
  end.

Definition size_bound mt (pcs : list pc) : Prop :=
  if sealed mt then current_size mt + count_pc is_reserving pcs <= capacity mt + zlen pcs
  else current_size mt <= capacity mt + count_pc is_overflow pcs.

Definition max_ok mt : Prop :=
  max_ready_id mt = UINT32_MAX \/ 0 <= max_ready_id mt < capacity mt /\ forall j, 0 <= j <= max_ready_id mt -> is_ready mt j.

Record inv (s : state) : Prop := {
  iv_arrays : 0 <= capacity (st_mt s) /\ capacity (st_mt s) <= zlen (ready (st_mt s)) /\
              capacity (st_mt s) <= zlen (tids (st_mt s)) /\ capacity (st_mt s) + zlen (st_pcs s) < UINT32_MAX;
  iv_fit : rows_fit (st_mt s);
  iv_size : 0 <= current_size (st_mt s) /\ size_bound (st_mt s) (st_pcs s);
  iv_pc : forall t p, at_pc s t p -> pc_ok (st_mt s) p;
  iv_own : forall t p i, at_pc s t p -> owns p i ->
             0 <= i < capacity (st_mt s) /\ i < current_size (st_mt s) /\ ~ is_ready (st_mt s) i;
  iv_unique : forall t t' p p' i, at_pc s t p -> at_pc s t' p' -> owns p i -> owns p' i -> t = t';
  iv_log : forall i, 0 <= i < capacity (st_mt s) -> i < current_size (st_mt s) ->
             exists tid row, st_log s !! i = Some (tid, row) /\ zlen row = VEC_BYTES_PER_ROW (st_mt s) /\
               ((exists t, at_pc s t (Write i tid row)) \/
                (tids (st_mt s) !! i = Some tid /\ row_at (st_mt s) i = row /\
                 (is_ready (st_mt s) i \/ exists t, at_pc s t (Publish i))));
  iv_write : forall t i tid row, at_pc s t (Write i tid row) -> st_log s !! i = Some (tid, row);
  iv_ready : forall i, is_ready (st_mt s) i -> 0 <= i < capacity (st_mt s) -> i < current_size (st_mt s);
  iv_max : max_ok (st_mt s) }.

(** *** Bookkeeping *)

Lemma at_goto s t mt p t' p' :
  at_pc (goto s t mt p) t' p' <-> if decide (t = t') then (t < length (st_pcs s))%nat /\ p' = p else at_pc s t' p'.
Proof.
  unfold at_pc, goto. cbn. case_decide as Ht.
  - subst t'. rewrite list_lookup_insert_Some. split.
    + intros [(_ & -> & Hl)|[[] _]]; done.
    + intros [Hl ->]. left. done.
  - by rewrite list_lookup_insert_ne.
Qed.

Lemma at_lt s t p : at_pc s t p -> (t < length (st_pcs s))%nat.
Proof. apply lookup_lt_Some. Qed.

Lemma count_pc_insert f l t p p' :
  l !! t = Some p ->
  count_pc f (<[t := p']> l) = count_pc f l - (if f p then 1 else 0) + (if f p' then 1 else 0).
Proof.
  revert t; induction l as [|q l IH]; intros t Ht; [done|]. destruct t as [|t]; cbn in Ht.
  - change (<[0%nat := p']> (q :: l)) with (p' :: l). injection Ht as ->. unfold count_pc. rewrite !filter_cons. destruct (f p), (f p'); repeat case_decide; try done; rewrite ?zlen_cons; lia.
  - change (<[S t := p']> (q :: l)) with (q :: <[t := p']> l).
    specialize (IH t Ht). unfold count_pc in *. rewrite !filter_cons. case_decide; rewrite ?zlen_cons; lia.
Qed.

Lemma count_pc_bounds f l : 0 <= count_pc f l <= zlen l.
Proof. unfold count_pc, zlen. pose proof (length_filter (fun p => f p = true) l). lia. Qed.

(** Two kinds of positions are disjoint, so their counts add up. *)
Lemma count_pc_disjoint l : count_pc is_reserving l + count_pc is_overflow l <= zlen l.
Proof.
  induction l as [|p l IH]; [done|]. unfold count_pc in *. rewrite !filter_cons, zlen_cons.
  destruct p; cbn; repeat case_decide; try done; rewrite ?zlen_cons; lia.
Qed.

(** A step that neither takes, fills nor publishes a slot. *)
Lemma inv_quiet s t p p' mt :
  inv s -> at_pc s t p -> (forall i, ~ owns p i) -> (forall i, ~ owns p' i) ->
  (capacity mt, current_size mt, tids mt, ready mt, vector_blob mt, dim mt, elem_size mt) =
  (capacity (st_mt s), current_size (st_mt s), tids (st_mt s), ready (st_mt s), vector_blob (st_mt s), dim (st_mt s), elem_size (st_mt s)) ->
  max_ok mt -> pc_ok mt p' -> size_bound mt (<[t := p']> (st_pcs s)) -> inv (goto s t mt p').
Proof.
  intros [V1 V2 [V3 _] V4 V5 V6 V7 V8 V9 _] Hp Hno Hno' Hsame Hmax Hpc Hb.
  injection Hsame as E1 E2 E3 E4 E5 E6 E7.
  assert (Ev : VEC_BYTES_PER_ROW mt = VEC_BYTES_PER_ROW (st_mt s)) by (unfold VEC_BYTES_PER_ROW; congruence).
  assert (Eo : forall i, vec_offset mt i = vec_offset (st_mt s) i) by (intros; unfold vec_offset; by rewrite Ev).
  assert (Er : forall i, row_at mt i = row_at (st_mt s) i) by (intros; unfold row_at; by rewrite Eo, Ev, E5).
  assert (Ey : forall i, is_ready mt i <-> is_ready (st_mt s) i) by (intros; unfold is_ready; by rewrite E4).
  assert (Hz : zlen (<[t := p']> (st_pcs s)) = zlen (st_pcs s)) by (unfold zlen; by rewrite length_insert).
  assert (Hkeep : forall t' q, at_pc s t' q -> t' <> t -> at_pc (goto s t mt p') t' q).
  { intros t' q Hq Hne. apply at_goto. by rewrite decide_False by done. }
  assert (Hown : forall t' q i, at_pc (goto s t mt p') t' q -> owns q i -> at_pc s t' q).
  { intros t' q i Hq Ho. apply at_goto in Hq. case_decide; [|done]. destruct Hq as [_ ->]. by apply Hno' in Ho. }
  assert (Hback : forall t' q i, at_pc s t' q -> owns q i -> at_pc (goto s t mt p') t' q).
  { intros t' q i Hq Ho. apply Hkeep; [done|]. intros ->. assert (q = p) as -> by (unfold at_pc in *; congruence). by apply Hno in Ho. }
  split; cbn [st_mt st_pcs st_log goto update] in *.
  - rewrite E1, E3, E4, Hz. done.
  - unfold rows_fit in *. rewrite Ev, E1, E5. destruct V2 as [? V2]. split; [done|]. intros i Hi. rewrite Eo. by apply V2.
  - rewrite E2. split; [done|exact Hb].
  - intros t' q Hq. apply at_goto in Hq. case_decide; [by destruct Hq as [_ ->]|]. specialize (V4 t' q Hq).
    destruct q; cbn [pc_ok] in *; rewrite ?E1, ?Ev; try done; try (setoid_rewrite Ey); done.
  - intros t' q i Hq Ho. rewrite E1, E2, Ey. eapply V5; [by eapply Hown|done].
  - intros t1 t2 q1 q2 i Hq1 Hq2 Ho1 Ho2. eapply V6; [by eapply Hown|by eapply Hown|done|done].
  - rewrite E1, E2, E3, Ev. intros i Hi Hi'. destruct (V7 i Hi Hi') as (tid & row & Hl & Hz' & Hc).
    exists tid, row. split; [done|]. split; [done|]. destruct Hc as [(t' & Ht')|(H1 & H2 & H3)].
    + left. exists t'. by apply (Hback t' _ i).
    + right. rewrite Er, Ey. split; [done|]. split; [done|]. destruct H3 as [|(t' & Ht')]; [by left|right].
      exists t'. by apply (Hback t' _ i).
  - intros t' i tid row Hq. eapply V8. by eapply Hown.
  - intros i Hi. rewrite E1, E2. rewrite Ey in Hi. by apply V9.
  - exact Hmax.
Qed.

(** A backend about to reserve leaves room for the counter to grow. *)
Lemma inv_reserving s t tid row :
  inv s -> at_pc s t (Reserve tid row) -> current_size (st_mt s) + 1 <= capacity (st_mt s) + zlen (st_pcs s).
Proof.
  intros [_ _ [_ Hb] _ _ _ _ _ _ _] Hp. pose proof (count_pc_insert is_reserving (st_pcs s) t _ Idle Hp) as Hc. cbn in Hc.
  pose proof (count_pc_bounds is_reserving (<[t:=Idle]> (st_pcs s))). unfold size_bound in Hb.
  destruct (sealed (st_mt s)); [lia|]. pose proof (count_pc_disjoint (st_pcs s)). lia.
Qed.

(** The backend that reserves a slot becomes its only owner. *)
Lemma inv_fetch s t tid row mt p :
  inv s -> at_pc s t (Reserve tid row) -> fetch_slot (st_mt s) tid row = (mt, p) ->
  inv ((goto s t mt p) <| st_log ::= fun l => match p with Write i _ _ => <[i := (tid, row)]> l | _ => l end |>).
Proof.
  intros Hinv Hp Hf. pose proof Hinv as [V1 V2 [V3 V3b] V4 V5 V6 V7 V8 V9 V10].
  unfold fetch_slot in Hf. injection Hf as <- <-. set (i := current_size (st_mt s)) in *.
  pose proof (V4 _ _ Hp) as Hrow. cbn in Hrow. pose proof (at_lt _ _ _ Hp) as Hlt.
  pose proof (inv_reserving _ _ _ _ Hinv Hp) as Hi. fold i in Hi. pose proof (count_pc_bounds is_overflow (st_pcs s)).
  unfold UINT32_MAX in *. rewrite u32_small by lia.
  set (mt := (st_mt s) <| current_size := i + 1 |>).
  set (p := if capacity (st_mt s) <=? i then Overflow else Write i tid row).
  assert (Hb : size_bound mt (<[t := p]> (st_pcs s))).
  { unfold size_bound in *. fold i in V3b. change (sealed mt) with (sealed (st_mt s)). change (current_size mt) with (i + 1).
    change (capacity mt) with (capacity (st_mt s)). rewrite !(count_pc_insert _ _ _ _ _ Hp).
    unfold zlen. rewrite length_insert. fold (zlen (st_pcs s)). subst p.
    destruct (sealed (st_mt s)), (Z.leb_spec (capacity (st_mt s)) i); cbn [is_reserving is_overflow]; lia. }
  assert (Hz : zlen (<[t := p]> (st_pcs s)) = zlen (st_pcs s)) by (unfold zlen; by rewrite length_insert).
  assert (Hat : forall t' q, at_pc (goto s t mt p) t' q <-> (t = t' /\ q = p) \/ (t <> t' /\ at_pc s t' q)).
  { intros t' q. rewrite at_goto. case_decide; [subst; tauto|tauto]. }
  assert (Hpown : forall j, owns p j -> j = i /\ i < capacity (st_mt s)).
  { intros j. subst p. destruct (Z.leb_spec (capacity (st_mt s)) i); cbn; [done|]. intros ->. done. }
  split; cbn [st_mt st_pcs st_log goto update] in *.
  - by rewrite Hz.
  - exact V2.
  - split; [change (current_size mt) with (i + 1); lia|exact Hb].
  - intros t' q [[-> ->]|[_ Hq]]%Hat; [|exact (V4 _ _ Hq)].
    subst p. by destruct (capacity (st_mt s) <=? i).
  - intros t' q j [[-> ->]|[_ Hq]]%Hat Ho.
    + destruct (Hpown j Ho) as [-> Hc]. split; [split; [exact V3|exact Hc]|]. split; [change (current_size mt) with (i + 1); lia|].
      intros Hr. assert (i < i); [|lia]. apply (V9 i Hr). split; [exact V3|exact Hc].
    + destruct (V5 _ _ _ Hq Ho) as (? & ? & ?). split; [done|]. split; [|done]. change (current_size mt) with (i + 1). lia.
  - intros t1 t2 q1 q2 j [[-> ->]|[Hn1 Hq1]]%Hat [[-> ->]|[Hn2 Hq2]]%Hat Ho1 Ho2; [done|..].
    + destruct (Hpown j Ho1) as [-> _]. destruct (V5 _ _ _ Hq2 Ho2) as (_ & ? & _). lia.
    + destruct (Hpown j Ho2) as [-> _]. destruct (V5 _ _ _ Hq1 Ho1) as (_ & ? & _). lia.
    + by eapply V6.
  - intros j Hj Hj'. change (capacity mt) with (capacity (st_mt s)) in Hj. change (current_size mt) with (i + 1) in Hj'.
    destruct (decide (j = i)) as [->|Hne].
    + exists tid, row. assert (Hpw : p = Write i tid row) by (subst p; destruct (Z.leb_spec (capacity (st_mt s)) i); [lia|done]).
      rewrite Hpw. split; [apply lookup_insert_eq|]. split; [done|]. left. exists t.
      change (at_pc (goto s t mt (Write i tid row)) t (Write i tid row)). rewrite <-Hpw. apply Hat. by left.
    + destruct (V7 j Hj ltac:(lia)) as (tid' & row' & Hl & Hz' & Hc). exists tid', row'. split.
      { subst p. destruct (capacity (st_mt s) <=? i); [done|]. by rewrite lookup_insert_ne. }
      split; [done|]. assert (Hback : forall t' q, at_pc s t' q -> owns q j -> at_pc (goto s t mt p) t' q).
      { intros t' q Hq Ho. apply Hat. right. split; [|done]. intros <-. unfold at_pc in *. rewrite Hp in Hq. injection Hq as <-. done. }
      destruct Hc as [(t' & Ht')|(H1 & H2 & H3)]; [left; exists t'; by apply Hback|right].
      split; [done|]. split; [done|]. destruct H3 as [|(t' & Ht')]; [by left|right; exists t'; by apply Hback].
  - intros t' j tid' row' [[-> Hq]|[_ Hq]]%Hat.
    + rewrite <-Hq. assert (p = Write i tid row) as Hpw by (subst p; destruct (capacity (st_mt s) <=? i); [done|done]).
      rewrite Hpw in Hq. injection Hq as -> -> ->. apply lookup_insert_eq.
    + subst p. destruct (capacity (st_mt s) <=? i); [by eapply V8|]. rewrite lookup_insert_ne; [by eapply V8|].
      intros <-. destruct (V5 _ _ i Hq eq_refl) as (_ & ? & _). lia.
  - intros j Hr Hj. specialize (V9 j Hr Hj). change (current_size mt) with (i + 1). lia.
  - exact V10.
Qed.

(** Writing a row the backend owns: no other row changes. *)
Lemma inv_write s t i tid row mt :
  inv s -> at_pc s t (Write i tid row) -> write_row (st_mt s) i tid row = Ok mt -> inv (goto s t mt (Publish i)).
Proof.
  intros Hinv Hp Hw. pose proof Hinv as [V1 V2 [V3 V3b] V4 V5 V6 V7 V8 V9 V10].
  destruct (V5 _ _ i Hp eq_refl) as (Hi & Hi' & Hnr). pose proof (V8 _ _ _ _ Hp) as Hlog.
  destruct (V7 i Hi Hi') as (tid0 & row0 & Hlog0 & Hrow & _). rewrite Hlog in Hlog0. injection Hlog0 as <- <-.
  unfold write_row in Hw. destruct (arr_set (tids (st_mt s)) i tid) as [tids'|] eqn:Et; [|done]. cbn in Hw.
  destruct (mem_write (vector_blob (st_mt s)) (vec_offset (st_mt s) i) row) as [blob|] eqn:Em; [|done]. cbn in Hw.
  injection Hw as <-. destruct (mem_write_spec _ _ _ _ Em) as (_ & _ & Hzb & Hself & Hothers).
  set (mt := (st_mt s) <| tids := tids' |> <| vector_blob := blob |>).
  assert (Ht' : exists y, tids (st_mt s) !! i = Some y /\ tids' = <[i := tid]> (tids (st_mt s))).
  { unfold arr_set, arr_get in Et. destruct (tids (st_mt s) !! i) as [y|]; [|done]. injection Et as <-. eauto. }
  destruct Ht' as (y & Hy & ->).
  assert (Hz : zlen (<[t := Publish i]> (st_pcs s)) = zlen (st_pcs s)) by (unfold zlen; by rewrite length_insert).
  assert (Hat : forall t' q, at_pc (goto s t mt (Publish i)) t' q <-> (t = t' /\ q = Publish i) \/ (t <> t' /\ at_pc s t' q)).
  { intros t' q. rewrite at_goto. pose proof (at_lt _ _ _ Hp). case_decide; [subst; tauto|tauto]. }
  split; cbn [st_mt st_pcs st_log goto update] in *.
  - rewrite Hz. cbn. by rewrite zlen_insert.
  - unfold rows_fit in *. change (VEC_BYTES_PER_ROW mt) with (VEC_BYTES_PER_ROW (st_mt s)). cbn. by rewrite Hzb.
  - split; [exact V3|]. unfold size_bound in *. cbn. rewrite !(count_pc_insert _ _ _ _ _ Hp), Hz. cbn.
    destruct (sealed (st_mt s)); lia.
  - intros t' q [[-> ->]|[_ Hq]]%Hat; [done|exact (V4 _ _ Hq)].
  - intros t' q j [[-> ->]|[_ Hq]]%Hat Ho; [cbn in Ho; subst j; done|by eapply V5].
  - intros t1 t2 q1 q2 j [[-> ->]|[Hn1 Hq1]]%Hat [[-> ->]|[Hn2 Hq2]]%Hat Ho1 Ho2; [done|..].
    + cbn in Ho1. subst j. by destruct Hn2; eapply V6.
    + cbn in Ho2. subst j. destruct Hn1. by eapply V6.
    + by eapply V6.
  - intros j Hj Hj'. change (capacity mt) with (capacity (st_mt s)) in Hj. change (current_size mt) with (current_size (st_mt s)) in Hj'.
    change (VEC_BYTES_PER_ROW mt) with (VEC_BYTES_PER_ROW (st_mt s)).
    destruct (decide (j = i)) as [->|Hne].
    + exists tid, row. split; [done|]. split; [done|]. right. split; [by eapply zlookup_insert_eq|]. split.
      * unfold row_at. change (vec_offset mt i) with (vec_offset (st_mt s) i).
        change (VEC_BYTES_PER_ROW mt) with (VEC_BYTES_PER_ROW (st_mt s)). rewrite <-Hrow. exact Hself.
      * right. exists t. apply Hat. by left.
    + destruct (V7 j Hj Hj') as (tid' & row' & Hl & Hz' & Hc). exists tid', row'. split; [done|]. split; [done|].
      assert (Hback : forall t' q, at_pc s t' q -> owns q j -> at_pc (goto s t mt (Publish i)) t' q).
      { intros t' q Hq Ho. apply Hat. right. split; [|done]. intros <-. unfold at_pc in *. rewrite Hp in Hq. injection Hq as <-. by cbn in Ho. }
      destruct Hc as [(t' & Ht')|(H1 & H2 & H3)]; [left; exists t'; by apply Hback|right].
      split; [cbn; by rewrite zlookup_insert_ne|]. split.
      { rewrite <-H2. unfold row_at. cbn. destruct V2 as [Hv _]. apply Hothers; [by apply vec_offset_nonneg; [|lia]|].
        rewrite Hrow. apply row_separate; [done|lia|lia|done]. }
      destruct H3 as [|(t' & Ht')]; [by left|right; exists t'; by apply Hback].
  - intros t' j tid' row' [[_ Hq]|[_ Hq]]%Hat; [done|by eapply V8].
  - exact V9.
  - exact V10.
Qed.

(** Publishing an owned row. *)
Lemma inv_publish s t i mt :
  inv s -> at_pc s t (Publish i) -> set_ready (st_mt s) i = Ok mt -> inv (goto s t mt (Count i)).
Proof.
  intros Hinv Hp Hw. pose proof Hinv as [V1 V2 [V3 V3b] V4 V5 V6 V7 V8 V9 V10].
  destruct (V5 _ _ i Hp eq_refl) as (Hi & Hi' & Hnr).
  unfold set_ready, arr_set, arr_get in Hw. destruct (ready (st_mt s) !! i) as [y|] eqn:Ey; [|done]. cbn in Hw. injection Hw as <-.
  set (mt := (st_mt s) <| ready := <[i := 1]> (ready (st_mt s)) |>).
  assert (Hr : forall j, is_ready mt j <-> j = i \/ is_ready (st_mt s) j).
  { intros j. unfold is_ready. cbn. rewrite zlookup_insert. case_decide as Hd; [|intuition congruence].
    subst. rewrite Ey. cbn. intuition congruence. }
  assert (Hz : zlen (<[t := Count i]> (st_pcs s)) = zlen (st_pcs s)) by (unfold zlen; by rewrite length_insert).
  assert (Hat : forall t' q, at_pc (goto s t mt (Count i)) t' q <-> (t = t' /\ q = Count i) \/ (t <> t' /\ at_pc s t' q)).
  { intros t' q. rewrite at_goto. pose proof (at_lt _ _ _ Hp). case_decide; [subst; tauto|tauto]. }
  split; cbn [st_mt st_pcs st_log goto update] in *.
  - rewrite Hz. cbn. by rewrite zlen_insert.
  - exact V2.
  - split; [exact V3|]. unfold size_bound in *. cbn. rewrite !(count_pc_insert _ _ _ _ _ Hp), Hz. cbn.
    destruct (sealed (st_mt s)); lia.
  - intros t' q [[-> ->]|[_ Hq]]%Hat.
    + split; [done|]. apply Hr. by left.
    + specialize (V4 _ _ Hq). destruct q; cbn [pc_ok] in *; try done.
      * destruct V4 as [? ?]. split; [done|]. apply Hr. by right.
      * destruct V4 as [? ?]. split; [done|]. apply Hr. by right.
      * destruct V4 as [? ?]. split; [done|]. apply Hr. by right.
      * destruct V4 as (? & ? & V4). split; [done|]. split; [done|]. intros j Hj. apply Hr. right. by apply V4.
      * destruct V4 as (? & ? & V4). split; [done|]. split; [done|]. intros j Hj. apply Hr. right. by apply V4.
  - intros t' q j [[-> ->]|[Hne Hq]]%Hat Ho; [done|]. destruct (V5 _ _ _ Hq Ho) as (? & ? & ?). split; [done|]. split; [done|].
    rewrite Hr. intros [->|]; [|done]. apply Hne. by eapply V6.
  - intros t1 t2 q1 q2 j [[_ ->]|[Hn1 Hq1]]%Hat [[_ ->]|[Hn2 Hq2]]%Hat Ho1 Ho2; [done|done|done|by eapply V6].
  - intros j Hj Hj'. destruct (V7 j Hj Hj') as (tid' & row' & Hl & Hz' & Hc). exists tid', row'. split; [done|]. split; [done|].
    destruct Hc as [(t' & Ht')|(H1 & H2 & H3)].
    + left. exists t'. apply Hat. right. split; [|done]. intros <-. unfold at_pc in *. congruence.
    + right. split; [done|]. split; [done|]. rewrite Hr. destruct H3 as [|(t' & Ht')]; [by left; right|].
      destruct (decide (t' = t)) as [->|Hne].
      * left; left. unfold at_pc in *. congruence.
      * right. exists t'. apply Hat. by right.
  - intros t' j tid' row' [[_ Hq]|[_ Hq]]%Hat; [done|by eapply V8].
  - intros j [->|Hj]%Hr Hc; [done|by apply V9].
  - destruct V10 as [Hm|[Hm V10]]; [by left|right]. split; [done|]. intros j Hj. apply Hr. right. by apply V10.
Qed.

(** Closes the side conditions of [inv_quiet] that need no thought. *)
Ltac quiet := try solve [done | intros ? [] | cbn; split; [lia|done] |
  match goal with H : forall t p p', at_pc _ t p -> _ |- size_bound _ _ => eapply H; [eassumption|done..] end].

Lemma insert_inv_step s s' : inv s -> step s s' -> inv s'.
Proof.
  intros Hinv Hstep. pose proof Hinv as [V1 V2 [V3 V3b] V4 V5 V6 V7 V8 V9 V10].
  assert (Hbound : forall t p p', at_pc s t p -> is_reserving p' = false -> is_overflow p = false -> is_overflow p' = false ->
            size_bound (st_mt s) (<[t := p']> (st_pcs s))).
  { intros t p p' Hp Hr Ho Ho'. unfold size_bound in *. rewrite !(count_pc_insert _ _ _ _ _ Hp), Hr, Ho, Ho'.
    unfold zlen. rewrite length_insert. fold (zlen (st_pcs s)). destruct (sealed (st_mt s)), (is_reserving p); lia. }
  destruct Hstep as [s t tid row Hp Hrow|s t tid row mt p Hp Hf|s t Hp|s t i tid row mt Hp Hw|s t i mt Hp Hw|s t i Hp|s t i Hp|s t Hp|s t cur new p Hp Hsc|s t cur new mt p Hp Hsw].
  - unfold read_sealed. destruct (sealed (st_mt s)) eqn:Es.
    + apply (inv_quiet s t Idle); quiet.
    + apply (inv_quiet s t Idle); quiet. unfold size_bound in *. rewrite Es in *.
      rewrite !(count_pc_insert _ _ _ _ _ Hp). cbn. lia.
  - by apply inv_fetch.
  - apply (inv_quiet s t Overflow); quiet. unfold size_bound in *. cbn. rewrite (count_pc_insert _ _ _ _ _ Hp). cbn.
    unfold zlen. rewrite length_insert. fold (zlen (st_pcs s)). pose proof (count_pc_disjoint (st_pcs s)).
    destruct (sealed (st_mt s)); lia.
  - by eapply inv_write.
  - by apply inv_publish.
  - apply (inv_quiet s t (Count i)); quiet. exact (V4 _ _ Hp).
  - destruct (V4 _ _ Hp) as [Hi Hr]. unfold read_max. unfold UINT32_MAX in *.
    destruct (Z.eqb_spec (max_ready_id (st_mt s)) 4294967295) as [Hm|Hm].
    + destruct (Z.eqb_spec i 0) as [->|].
      * apply (inv_quiet s t (ReadMax 0)); quiet.
      * apply (inv_quiet s t (ReadMax i)); quiet.
    + destruct V10 as [|[Hmax V10]]; [done|]. pose proof (zlen_nonneg (st_pcs s)). rewrite u32_small by lia.
      destruct (Z.eqb_spec i (max_ready_id (st_mt s) + 1)) as [->|].
      * apply (inv_quiet s t (ReadMax (max_ready_id (st_mt s) + 1))); quiet; [by right|].
        cbn. split; [lia|]. split; [lia|]. intros j Hj. apply V10. lia.
      * apply (inv_quiet s t (ReadMax i)); quiet; by right.
  - destruct (V4 _ _ Hp) as [Hc Hr]. unfold swap_first.
    destruct (Z.eqb_spec (max_ready_id (st_mt s)) UINT32_MAX) as [Hm|Hm].
    + apply (inv_quiet s t SwapFirst); quiet.
      right. cbn. split; [lia|]. intros j Hj. by replace j with 0 by lia.
    + apply (inv_quiet s t SwapFirst); quiet.
  - destruct (V4 _ _ Hp) as (Hcn & Hcap & Hall). unfold scan_step in Hsc.
    assert (Hend : inv (goto s t (st_mt s) (if cur <? new - 1 then Swap cur (new - 1) else Idle))).
    { destruct (Z.ltb_spec cur (new - 1)).
      - apply (inv_quiet s t (Scan cur new)); quiet. cbn. split; [lia|]. split; [lia|].
        intros j Hj. apply Hall. lia.
      - apply (inv_quiet s t (Scan cur new)); quiet. }
    destruct (Z.ltb_spec new (capacity (st_mt s))); [|by injection Hsc as <-].
    destruct (arr_get (ready (st_mt s)) new) as [r|] eqn:Er; [|done]. apply arr_get_Ok in Er. cbn in Hsc.
    destruct (Z.eqb_spec r 1) as [->|]; [|by injection Hsc as <-]. injection Hsc as <-.
    pose proof (zlen_nonneg (st_pcs s)). unfold UINT32_MAX in *. rewrite u32_small by lia.
    apply (inv_quiet s t (Scan cur new)); quiet. cbn. split; [lia|]. split; [lia|].
    intros j Hj. destruct (decide (j = new)) as [->|]; [done|]. apply Hall. lia.
  - destruct (V4 _ _ Hp) as (Hcn & Hcap & Hall). unfold swap_max in Hsw.
    destruct (Z.eqb_spec (max_ready_id (st_mt s)) cur) as [Hm|Hm].
    + injection Hsw as <- <-. apply (inv_quiet s t (Swap cur new)); quiet.
      right. cbn. split; [lia|]. exact Hall.
    + injection Hsw as <- <-. destruct (Z.leb_spec new (max_ready_id (st_mt s))).
      * apply (inv_quiet s t (Swap cur new)); quiet.
      * apply (inv_quiet s t (Swap cur new)); quiet. cbn. split; [|done].
        destruct V10 as [V10|[V10 _]]; [|lia]. unfold UINT32_MAX in *. pose proof (zlen_nonneg (st_pcs s)). lia.
Qed.
End protocol.

(** ** Counting published rows *)

Section counting.
Import Insert.
Implicit Types (s : state) (mt : ConcurrentMemTableData) (p : pc) (t : nat) (i : Z).

Definition is_counting p : bool := match p with Count _ => true | _ => false end.
Definition count_ready (rdy : list Z) (n : Z) : Z := zlen (filter (fun r => r = 1) (take (Z.to_nat n) rdy)).

Lemma count_ready_set rdy n i y :
  0 <= i < n -> rdy !! i = Some y -> y <> 1 -> count_ready (<[i := 1]> rdy) n = count_ready rdy n + 1.
Proof.
  intros Hi Hy Hne. unfold count_ready. replace i with (Z.of_nat (Z.to_nat i)) in Hy by lia. rewrite zlookup_nat in Hy.
  unfold insert, zlist_insert. rewrite decide_True by lia. assert (Z.to_nat i < Z.to_nat n)%nat as Hm by lia.
  revert Hm Hy. generalize (Z.to_nat i) (Z.to_nat n). clear -Hne.
  induction rdy as [|z rdy IH]; intros k m Hm Hk; [done|]. destruct m as [|m]; [lia|]. destruct k as [|k].
  - injection Hk as ->. cbn [take insert list_insert]. rewrite !filter_cons. rewrite decide_True by done.
    rewrite decide_False by done. rewrite zlen_cons. lia.
  - change (<[S k := 1]> (z :: rdy)) with (z :: <[k := 1]> rdy). cbn [take]. rewrite !filter_cons.
    specialize (IH k m ltac:(lia) Hk). case_decide; rewrite ?zlen_cons; lia.
Qed.

Lemma filter_full {A} (P : A -> Prop) `{forall x, Decision (P x)} (l : list A) :
  (length l <= length (filter P l))%nat -> Forall P l.
Proof.
  induction l as [|x l IH]; intros Hl; [constructor|]. rewrite filter_cons in Hl. pose proof (length_filter P l).
  case_decide; cbn in Hl; [|lia]. constructor; [done|]. apply IH. lia.
Qed.

Lemma count_ready_full rdy n :
  n <= zlen rdy -> count_ready rdy n = n -> forall i, 0 <= i < n -> rdy !! i = Some 1.
Proof.
  unfold count_ready. intros Hn Hc i Hi. destruct (zlookup_lt_is_Some rdy i) as [x Hx]; [lia|]. rewrite Hx. f_equal.
  assert (Hall : Forall (fun r => r = 1) (take (Z.to_nat n) rdy)).
  { apply (filter_full (fun r => r = 1)). rewrite length_take. unfold zlen in *. lia. }
  rewrite Forall_forall in Hall. apply Hall. apply list_elem_of_lookup. exists (Z.to_nat i). rewrite lookup_take_lt by lia.
  rewrite <-zlookup_nat. by replace (Z.of_nat (Z.to_nat i)) with i by lia.
Qed.

Lemma count_ready_bounds rdy n : 0 <= n -> 0 <= count_ready rdy n <= n.
Proof.
  intros Hn. unfold count_ready, zlen. pose proof (length_filter (fun r => r = 1) (take (Z.to_nat n) rdy)).
  rewrite length_take in *. lia.
Qed.
End counting.

Section published.
Import Insert.
Implicit Types (s : state) (mt : ConcurrentMemTableData) (p : pc) (t : nat) (i : Z).

(** The counters agree with the rows, and the log with the slots handed out. *)
Record counted (s : state) : Prop := {
  ct_cnt : 0 <= ready_cnt (st_mt s) /\
           ready_cnt (st_mt s) + count_pc is_counting (st_pcs s) = count_ready (ready (st_mt s)) (capacity (st_mt s));
  ct_over : sealed (st_mt s) = true \/ (exists t, at_pc s t Overflow) -> capacity (st_mt s) < current_size (st_mt s);
  ct_log : forall i x, st_log s !! i = Some x -> i < current_size (st_mt s) }.

Lemma counted_quiet s t p p' mt :
  counted s -> at_pc s t p -> p' <> Overflow -> current_size mt = current_size (st_mt s) ->
  capacity mt = capacity (st_mt s) -> ready mt = ready (st_mt s) -> (sealed mt = true -> sealed (st_mt s) = true \/ p = Overflow) ->
  0 <= ready_cnt mt ->
  ready_cnt mt + (if is_counting p' then 1 else 0) = ready_cnt (st_mt s) + (if is_counting p then 1 else 0) ->
  counted (goto s t mt p').
Proof.
  intros [[C1 C1'] C2 C3] Hp Ho E1 E2 E3 Es Hnn Hc. split; cbn [st_mt st_pcs st_log goto update].
  - rewrite (count_pc_insert _ _ _ _ _ Hp), E2, E3. lia.
  - rewrite E1, E2. intros [Hs|[t' Ht']]; apply C2.
    + destruct (Es Hs) as [|Hpo]; [by left|right]. subst p. eauto.
    + apply at_goto in Ht'. case_decide; [|eauto]. by destruct Ht' as [_ <-].
  - rewrite E1. exact C3.
Qed.

Lemma counted_step s s' : inv s -> counted s -> step s s' -> counted s'.
Proof.
  intros Hinv Hct Hstep. pose proof Hinv as [V1 V2 [V3 V3b] V4 V5 V6 V7 V8 V9 V10]. pose proof Hct as [[C1 C1'] C2 C3].
  destruct Hstep as [s t tid row Hp Hrow|s t tid row mt p Hp Hf|s t Hp|s t i tid row mt Hp Hw|s t i mt Hp Hw|s t i Hp|s t i Hp|s t Hp|s t cur new p Hp Hsc|s t cur new mt p Hp Hsw].
  - apply (counted_quiet s t Idle); unfold read_sealed; try done; destruct (sealed (st_mt s)); try done; tauto.
  - unfold fetch_slot in Hf. injection Hf as <- <-. set (i := current_size (st_mt s)) in *.
    assert (Hi : u32 (i + 1) = i + 1).
    { unfold UINT32_MAX in *. apply u32_small. pose proof (inv_reserving _ _ _ _ Hinv Hp) as Hb. fold i in Hb. lia. }
    rewrite Hi in *. split; cbn [st_mt st_pcs st_log goto update].
    + split; [done|]. cbn. rewrite (count_pc_insert _ _ _ _ _ Hp). destruct (capacity (st_mt s) <=? i); cbn; lia.
    + cbn. destruct (Z.leb_spec (capacity (st_mt s)) i); [intros _; fold i; lia|].
      intros [Hs|[t' Ht']]; [fold i in C2; specialize (C2 (or_introl Hs)); lia|].
      assert (at_pc (goto s t ((st_mt s) <| current_size := i + 1 |>) (Write i tid row)) t' Overflow) as Ht'' by exact Ht'.
      apply at_goto in Ht''. case_decide; [by destruct Ht''|]. fold i in C2. specialize (C2 (or_intror (ex_intro _ t' Ht''))). lia.
    + cbn. fold i in C3. intros j x. destruct (capacity (st_mt s) <=? i); [intros Hj; specialize (C3 j x Hj); lia|].
      rewrite lookup_insert_Some. intros [[<- _]|[_ Hj]]; [lia|]. specialize (C3 j x Hj). lia.
  - apply (counted_quiet s t Overflow); try done. by right.
  - unfold write_row in Hw. destruct (arr_set (tids (st_mt s)) i tid); [|done]. cbn in Hw.
    destruct (mem_write _ _ _); [|done]. injection Hw as <-. apply (counted_quiet s t (Write i tid row)); try done. by left.
  - destruct (V5 _ _ i Hp eq_refl) as (Hi & Hi' & Hnr).
    unfold set_ready, arr_set, arr_get in Hw. destruct (ready (st_mt s) !! i) as [y|] eqn:Ey; [|done]. cbn in Hw. injection Hw as <-.
    split; cbn [st_mt st_pcs st_log goto update].
    + cbn. rewrite (count_pc_insert _ _ _ _ _ Hp), (count_ready_set _ _ _ y); [cbn; lia|done|done|].
      intros ->. done.
    + cbn. intros [Hs|[t' Ht']]; apply C2; [by left|right]. apply at_goto in Ht'. case_decide; [by destruct Ht'|eauto].
    + exact C3.
  - assert (Hu : u32 (ready_cnt (st_mt s) + 1) = ready_cnt (st_mt s) + 1).
    { apply u32_small. pose proof (count_ready_bounds (ready (st_mt s)) (capacity (st_mt s)) ltac:(lia)).
      pose proof (count_pc_bounds is_counting (st_pcs s)). pose proof (zlen_nonneg (st_pcs s)). unfold UINT32_MAX in *. lia. }
    apply (counted_quiet s t (Count i)); try done; cbn; rewrite ?Hu; [by left|lia|lia].
  - apply (counted_quiet s t (ReadMax i)); unfold read_max; try done; repeat case_match; try done; by left.
  - apply (counted_quiet s t SwapFirst); unfold swap_first; try done; repeat case_match; try done; by left.
  - unfold scan_step in Hsc. assert (Hq : is_counting p = false /\ p <> Overflow).
    { destruct (new <? capacity (st_mt s)); [destruct (arr_get _ _) as [r|]; [|done]; cbn in Hsc; destruct (r =? 1)|];
        injection Hsc as <-; repeat case_match; done. }
    destruct Hq as [Hq Hq']. apply (counted_quiet s t (Scan cur new)); try done; [by left|]. by rewrite Hq.
  - unfold swap_max in Hsw. destruct (max_ready_id (st_mt s) =? cur); injection Hsw as <- <-;
      apply (counted_quiet s t (Swap cur new)); try done; try (by left); by repeat case_match.
Qed.

(** The memtable was set up in a slot whose arrays are large enough for the
    configured capacity (at most [MEMTABLE_MAX_CAPACITY], the declared size). *)
Definition set_up (array_size memtable_capacity : Z) (mt : ConcurrentMemTableData) : Prop :=
  exists mt0 rel id d e,
    zlen (vector_blob mt0) = array_size /\ memtable_capacity <= zlen (ready mt0) /\ memtable_capacity <= zlen (tids mt0) /\
    0 <= array_size /\ 0 <= memtable_capacity <= MEMTABLE_MAX_CAPACITY /\
    set_memtable array_size memtable_capacity mt0 rel id d e = Ok mt.

Lemma MAXALIGN_id z : (8 | z) -> MAXALIGN z = z.
Proof. intros [k ->]. rewrite MAXALIGN_eq. rewrite Z.div_add_l by done. change (7 / 8) with 0. lia. Qed.

Lemma set_memtable_rows array_size mcap mt :
  set_up array_size mcap mt -> (8 | VEC_BYTES_PER_ROW mt) -> rows_fit mt.
Proof.
  intros (mt0 & rel & id & d & e & Hb & _ & _ & Ha & Hm & Hs) H8. unfold set_memtable in Hs.
  set (mt1 := mt0 <| mt_rel := rel |> <| memtable_id := id |> <| dim := d |> <| elem_size := e |>) in *.
  destruct (memtable_cap array_size mcap (VEC_BYTES_PER_ROW mt1)) as [cap|] eqn:Ec; [|done]. cbn in Hs. injection Hs as <-.
  change (8 | VEC_BYTES_PER_ROW mt1) in H8.
  assert (Hv : 0 <= VEC_BYTES_PER_ROW mt1) by (unfold VEC_BYTES_PER_ROW, u64; apply Z.mod_pos_bound; lia).
  split; [exact Hv|]. intros i Hi. unfold vec_offset.
  change (VEC_BYTES_PER_ROW _) with (VEC_BYTES_PER_ROW mt1). change (zlen (vector_blob _)) with (zlen (vector_blob mt0)).
  change (0 <= i < cap) in Hi. rewrite MAXALIGN_id by done. rewrite Hb. unfold memtable_cap in Ec.
  destruct (Z.eqb_spec (VEC_BYTES_PER_ROW mt1) 0); [done|]. injection Ec as <-.
  set (v := VEC_BYTES_PER_ROW mt1) in *. unfold u32 in Hi.
  assert (i < array_size / v).
  { eapply Z.lt_le_trans; [apply Hi|]. etransitivity; [apply Z.le_min_l|]. apply Z.mod_le; [|lia].
    destruct (Z.lt_total v 0) as [|[|]]; [lia|done|]. apply Z.div_pos; lia. }
  pose proof (Z.mul_div_le array_size v ltac:(lia)). nia.
Qed.

Lemma set_up_init array_size mcap mt n :
  set_up array_size mcap mt -> (8 | VEC_BYTES_PER_ROW mt) -> Z.of_nat n < 2 ^ 31 ->
  inv (init mt n) /\ counted (init mt n).
Proof.
  intros Hup H8 Hn. pose proof (set_memtable_rows _ _ _ Hup H8) as Hfit.
  destruct Hup as (mt0 & rel & id & d & e & Hb & Hr & Ht & Ha & Hm & Hs).
  unfold set_memtable in Hs. destruct (memtable_cap _ _ _) as [cap|] eqn:Ec; [|done]. cbn in Hs. injection Hs as Hs.
  assert (Hcap : 0 <= cap <= mcap).
  { unfold memtable_cap in Ec. destruct (_ =? 0); [done|]. injection Ec as <-. unfold MEMTABLE_MAX_CAPACITY, u32 in *.
    rewrite (Z.mod_small mcap) by lia. pose proof (Z.mod_pos_bound (array_size / VEC_BYTES_PER_ROW
      ((mt0 <| mt_rel := rel |> <| memtable_id := id |> <| dim := d |> <| elem_size := e |>))) (2 ^ 32)). lia. }
  unfold MEMTABLE_MAX_CAPACITY in *.
  assert (Hidle : forall t p, at_pc (init mt n) t p -> p = Idle).
  { intros t p Hp. unfold at_pc in Hp. cbn in Hp. by apply lookup_replicate in Hp as [-> _]. }
  assert (Hzero : forall f, f Idle = false -> count_pc f (replicate n Idle) = 0).
  { intros f Hf. unfold count_pc. clear -Hf. induction n as [|n IH]; [done|]. cbn [replicate]. rewrite filter_cons, Hf. by case_decide. }
  assert (Hready : ready mt = mem_clear (ready mt0) cap) by (by rewrite <-Hs).
  assert (Hlen : cap <= zlen (ready mt)).
  { rewrite Hready. unfold mem_clear, zlen in *. rewrite length_app, length_replicate, length_drop. lia. }
  assert (Hnone : forall i, is_ready mt i -> 0 <= i < cap -> False).
  { intros i Hi Hic. unfold is_ready in Hi. rewrite Hready in Hi. unfold mem_clear in Hi.
    rewrite zlookup_app_l in Hi by (unfold zlen; rewrite length_replicate; lia).
    replace i with (Z.of_nat (Z.to_nat i)) in Hi by lia. rewrite zlookup_nat in Hi. by apply lookup_replicate in Hi as [? _]. }
  assert (E : capacity mt = cap /\ current_size mt = 0 /\ ready_cnt mt = 0 /\ sealed mt = false /\ max_ready_id mt = UINT32_MAX /\
              tids mt = tids mt0) by (by rewrite <-Hs).
  destruct E as (E1 & E2 & E3 & E4 & E5 & E6).
  split; split; cbn [init st_mt st_pcs st_log] in *; rewrite ?E1, ?E2, ?E3, ?E4, ?E6.
  - unfold UINT32_MAX, zlen in *. rewrite length_replicate. lia.
  - exact Hfit.
  - split; [done|]. unfold size_bound. rewrite E4, E1, E2, Hzero by done. lia.
  - by intros t p ->%Hidle.
  - by intros t p i ->%Hidle.
  - by intros t t' p p' i ->%Hidle.
  - lia.
  - by intros t i tid row ?%Hidle.
  - intros i Hi Hic. by destruct (Hnone i).
  - left. done.
  - split; [done|]. rewrite Hzero by done. unfold count_ready. rewrite Hready. unfold mem_clear.
    rewrite take_app_length' by (by rewrite length_replicate). cbn. clear.
    induction (Z.to_nat cap) as [|k IH]; [done|]. cbn [replicate]. by rewrite filter_cons, decide_False by done.
  - intros [?|[t ?%Hidle]]; done.
  - by intros i x ?%lookup_empty_Some.
Qed.

Lemma reach_inv array_size mcap mt n s :
  set_up array_size mcap mt -> (8 | VEC_BYTES_PER_ROW mt) -> Z.of_nat n < 2 ^ 31 ->
  rtc step (init mt n) s -> inv s /\ counted s.
Proof.
  intros Hup H8 Hn Hr. pose proof (set_up_init _ _ _ _ Hup H8 Hn) as Hi.
  induction Hr as [|x y z Hxy _ IH]; [done|]. apply IH. destruct Hi. split; [by eapply insert_inv_step|by eapply counted_step].
Qed.

(** A slot is handed out at most once. *)
Lemma log_step s s' : counted s -> step s s' -> st_log s ⊆ st_log s'.
Proof.
  intros [_ _ C] Hstep. destruct Hstep; cbn [goto st_log update]; try done.
  match goal with H : fetch_slot _ _ _ = _ |- _ => unfold fetch_slot in H; injection H as <- <- end.
  destruct (capacity (st_mt s) <=? current_size (st_mt s)); [done|]. cbn. apply insert_subseteq.
  destruct (st_log s !! current_size (st_mt s)) as [x|] eqn:Hx; [|done]. specialize (C _ _ Hx). lia.
Qed.

Lemma log_steps s s' : inv s -> counted s -> rtc step s s' -> st_log s ⊆ st_log s'.
Proof.
  intros Hi Hc Hr. induction Hr as [|x y z Hxy _ IH]; [done|]. etransitivity; [by eapply log_step|].
  apply IH; [by eapply insert_inv_step|by eapply counted_step].
Qed.

(** Under the invariant no step runs outside an array. *)
Lemma inv_progress s : inv s ->
  (forall t i tid row, at_pc s t (Write i tid row) -> exists mt, write_row (st_mt s) i tid row = Ok mt) /\
  (forall t i, at_pc s t (Publish i) -> exists mt, set_ready (st_mt s) i = Ok mt) /\
  (forall t cur new, at_pc s t (Scan cur new) -> exists p, scan_step (st_mt s) cur new = Ok p).
Proof.
  intros [V1 [V2 V2'] [V3 V3b] V4 V5 V6 V7 V8 V9 V10]. split_and!.
  - intros t i tid row Hp. destruct (V5 _ _ i Hp eq_refl) as (Hi & Hi' & _).
    destruct (V7 i Hi Hi') as (tid' & row' & Hl & Hz & _). rewrite (V8 _ _ _ _ Hp) in Hl. injection Hl as <- <-.
    unfold write_row. destruct (zlookup_lt_is_Some (tids (st_mt s)) i) as [y Hy]; [lia|]. rewrite (arr_set_Some _ _ _ _ Hy). cbn.
    destruct (mem_write_ok (vector_blob (st_mt s)) (vec_offset (st_mt s) i) row) as [blob ->]; [|rewrite Hz; by apply V2'|cbn; eauto].
    by apply vec_offset_nonneg; [|lia].
  - intros t i Hp. destruct (V5 _ _ i Hp eq_refl) as (Hi & _). unfold set_ready.
    destruct (zlookup_lt_is_Some (ready (st_mt s)) i) as [y Hy]; [lia|]. rewrite (arr_set_Some _ _ _ _ Hy). cbn. eauto.
  - intros t cur new Hp. destruct (V4 _ _ Hp) as (Hc & _). unfold scan_step. destruct (Z.ltb_spec new (capacity (st_mt s))); [|eauto].
    destruct (zlookup_lt_is_Some (ready (st_mt s)) new) as [y Hy]; [lia|]. rewrite (proj2 (arr_get_Ok _ _ _) Hy). cbn.
    destruct (y =? 1); eauto.
Qed.

(** A published row holds what it was reserved for. *)
Definition holds (s : state) (i : Z) : Prop :=
  exists tid row, st_log s !! i = Some (tid, row) /\ tids (st_mt s) !! i = Some tid /\ row_at (st_mt s) i = row.

Lemma inv_holds s i : inv s -> 0 <= i < capacity (st_mt s) -> is_ready (st_mt s) i -> holds s i.
Proof.
  intros [V1 V2 [V3 V3b] V4 V5 V6 V7 V8 V9 V10] Hi Hr.
  destruct (V7 i Hi (V9 i Hr Hi)) as (tid & row & Hl & Hz & [(t & Ht)|(H1 & H2 & _)]).
  - destruct (V5 _ _ i Ht eq_refl) as (_ & _ & Hn). done.
  - exists tid, row. done.
Qed.

(** A sealed memtable whose published count reached its size. *)
Lemma drained s : inv s -> counted s -> wait_for_publish (st_mt s) = Ok true ->
  forall i, 0 <= i < capacity (st_mt s) -> is_ready (st_mt s) i.
Proof.
  intros [V1 _ _ _ _ _ _ _ _ _] [[C1 C1'] C2 _] Hw. unfold wait_for_publish in Hw. destruct (sealed (st_mt s)) eqn:Es; [|done].
  specialize (C2 (or_introl eq_refl)). destruct (Z.ltb_spec (Z.min (current_size (st_mt s)) (capacity (st_mt s))) (ready_cnt (st_mt s))); [done|].
  injection Hw as Hw%Z.eqb_eq. pose proof (count_pc_bounds is_counting (st_pcs s)).
  pose proof (count_ready_bounds (ready (st_mt s)) (capacity (st_mt s)) ltac:(lia)).
  intros i Hi. by apply (count_ready_full _ (capacity (st_mt s))); [lia|lia|].
Qed.
(** Once every row is published no backend owns a slot, so rows stay. *)
Definition all_ready (s : state) : Prop := forall j, 0 <= j < capacity (st_mt s) -> is_ready (st_mt s) j.

Lemma rows_stable s s' :
  inv s -> all_ready s -> step s s' ->
  tids (st_mt s') = tids (st_mt s) /\ (forall i, row_at (st_mt s') i = row_at (st_mt s) i) /\ all_ready s'.
Proof.
  intros [_ _ _ _ V5 _ _ _ _ _] Hd Hstep. destruct Hstep; try done.
  - unfold fetch_slot in *. by simplify_eq.
  - match goal with H : at_pc _ _ (Write ?j _ _) |- _ => destruct (V5 _ _ j H eq_refl) as (Hj & _ & Hn) end. by destruct Hn; apply Hd.
  - match goal with H : at_pc _ _ (Publish ?j) |- _ => destruct (V5 _ _ j H eq_refl) as (Hj & _ & Hn) end. by destruct Hn; apply Hd.
  - unfold swap_first, all_ready. cbn. by destruct (_ =? _).
  - unfold swap_max in *. by destruct (_ =? _); simplify_eq/=.
Qed.

Lemma rows_stable_steps s s' :
  inv s -> all_ready s -> rtc step s s' ->
  tids (st_mt s') = tids (st_mt s) /\ forall i, row_at (st_mt s') i = row_at (st_mt s) i.
Proof.
  intros Hi Hd Hr. induction Hr as [|x y z Hxy _ IH]; [done|].
  destruct (rows_stable _ _ Hi Hd Hxy) as (Ht & Hrow & Hd'). destruct (IH (insert_inv_step _ _ Hi Hxy) Hd') as [Ht' Hrow'].
  split; [congruence|]. intros i. by rewrite Hrow'.
Qed.

Lemma exec_step s t new s' : exec s t new = Some s' -> step s s'.
Proof.
  unfold exec. destruct (st_pcs s !! t) as [p|] eqn:Hp; [|done]. cbn [mbind option_bind]. intros He.
  destruct p; try (simplify_eq; by econstructor).
  - destruct new as [[tid row]|]; [|done]. cbn in He. destruct (Z.eqb_spec (zlen row) (VEC_BYTES_PER_ROW (st_mt s))); simplify_eq. by constructor.
  - destruct (fetch_slot (st_mt s) tid row) as [mt p] eqn:Hf. simplify_eq. by econstructor.
  - destruct (write_row _ _ _ _) eqn:Hw; simplify_eq. by econstructor.
  - destruct (set_ready _ _) eqn:Hw; simplify_eq. by econstructor.
  - destruct (scan_step _ _ _) eqn:Hw; simplify_eq. by econstructor.
  - destruct (swap_max _ _ _) as [mt p] eqn:Hw; simplify_eq. by econstructor.
Qed.

Lemma execs_steps sched s s' : execs s sched = Some s' -> rtc step s s'.
Proof.
  revert s; induction sched as [|[t new] sched IH]; intros s; cbn; [by intros [= ->]|].
  destruct (exec s t new) as [s1|] eqn:He; [|done]. cbn. intros Hs. eapply rtc_l; [by eapply exec_step|by apply IH].
Qed.

(** Nobody is left who would move [max_ready_id] past [m]. *)
Definition leaves_max (m : Z) (p : pc) : Prop :=
  match p with Count i | ReadMax i => i <> m + 1 | Scan _ _ | Swap _ _ => False | _ => True end.

Record stuck (m : Z) (s : state) : Prop := {
  sk_max : max_ready_id (st_mt s) = m /\ 0 <= m /\ m + 1 < capacity (st_mt s);
  sk_ready : is_ready (st_mt s) (m + 1);
  sk_pc : forall t p, at_pc s t p -> leaves_max m p }.

Lemma stuck_goto m s t mt p :
  stuck m s -> max_ready_id mt = m -> capacity mt = capacity (st_mt s) -> (is_ready (st_mt s) (m + 1) -> is_ready mt (m + 1)) ->
  leaves_max m p -> stuck m (goto s t mt p).
Proof.
  intros [(K1 & K2 & K3) K4 K5] Hm Hc Hr Hp. split; cbn [goto st_mt update].
  - by rewrite Hc.
  - by apply Hr.
  - intros t' q Hq. apply at_goto in Hq. case_decide; [by destruct Hq as [_ ->]|by eapply K5].
Qed.

Lemma stuck_step m s s' : inv s -> stuck m s -> step s s' -> stuck m s'.
Proof.
  intros [V1 V2 [V3 V3b] V4 V5 V6 V7 V8 V9 V10] Hk Hstep. pose proof Hk as [(K1 & K2 & K3) K4 K5].
  destruct Hstep as [s t tid row Hp Hrow|s t tid row mt p Hp Hf|s t Hp|s t i tid row mt Hp Hw|s t i mt Hp Hw|s t i Hp|s t i Hp|s t Hp|s t cur new p Hp Hsc|s t cur new mt p Hp Hsw].
  - apply stuck_goto; try done. unfold read_sealed. by destruct (sealed _).
  - unfold fetch_slot in Hf. injection Hf as <- <-.
    assert (stuck m (goto s t ((st_mt s) <| current_size := u32 (current_size (st_mt s) + 1) |>)
              (if capacity (st_mt s) <=? current_size (st_mt s) then Overflow else Write (current_size (st_mt s)) tid row))) as [? ? ?].
    { apply stuck_goto; try done. by destruct (_ <=? _). }
    by split.
  - by apply stuck_goto.
  - unfold write_row in Hw. destruct (arr_set _ _ _); [|done]. cbn in Hw. destruct (mem_write _ _ _); [|done]. injection Hw as <-.
    by apply stuck_goto.
  - destruct (V5 _ _ i Hp eq_refl) as (Hi & _ & Hnr). unfold set_ready in Hw. destruct (arr_set _ _ _) as [r|] eqn:Er; [|done].
    injection Hw as <-. apply stuck_goto; try done; [|cbn; intros ->; done].
    unfold arr_set in Er. destruct (arr_get _ _); [|done]. injection Er as <-. unfold is_ready. cbn.
    intros Hm. rewrite zlookup_insert_ne; [done|]. intros ->. done.
  - apply stuck_goto; try done. by apply K5 in Hp.
  - apply K5 in Hp. cbn in Hp. apply stuck_goto; try done. unfold read_max.
    rewrite K1. destruct (Z.eqb_spec m UINT32_MAX); [by destruct (i =? 0)|].
    unfold UINT32_MAX in *. pose proof (zlen_nonneg (st_pcs s)). rewrite u32_small by lia. by destruct (Z.eqb_spec i (m + 1)).
  - apply stuck_goto; try done; unfold swap_first; rewrite K1; destruct (Z.eqb_spec m UINT32_MAX); try done.
    unfold UINT32_MAX in *. pose proof (zlen_nonneg (st_pcs s)). lia.
  - by apply K5 in Hp.
  - by apply K5 in Hp.
Qed.

Lemma stuck_steps m s s' : inv s -> stuck m s -> rtc step s s' -> max_ready_id (st_mt s') = m.
Proof.
  intros Hi Hk Hr. induction Hr as [|x y z Hxy _ IH]; [by destruct Hk as [[? _] _ _]|].
  apply IH; [by eapply insert_inv_step|by eapply stuck_step].
Qed.
End published.

(** An example: rows of two 4-byte elements, room for two of them. *)
Module Example.
Import Insert.

Definition slot0 : ConcurrentMemTableData :=
  mkMemTable 0 0 0 0 0 true true 0 0 0 [0; 0; 0] [0] [1; 1; 1] (replicate 24 0).
Definition mt (cap : Z) : ConcurrentMemTableData :=
  match set_memtable 24 cap slot0 16384 7 2 4 with Ok m => m | Error _ => slot0 end.

Lemma mt_set_up cap : 0 <= cap <= 3 -> set_up 24 cap (mt cap).
Proof.
  intros Hc. exists slot0, 16384, 7, 2, 4. unfold MEMTABLE_MAX_CAPACITY. split_and!; try reflexivity; unfold zlen; cbn; lia.
Qed.

Definition row (x : Z) : list Z := replicate 8 x.
Definition again (n : nat) (t : nat) : list (nat * option (Z * list Z)) := replicate n (t, None).
Definition begin (t : nat) (tid x : Z) : list (nat * option (Z * list Z)) := [(t, Some (tid, row x))] ++ again 1 t.

(** Two backends fill two rows; the second to arrive publishes first, and a
    third insert seals the memtable. *)
Definition sched : list (nat * option (Z * list Z)) :=
  begin 0 11 5 ++ begin 1 12 6 ++ again 4 1 ++ again 5 0 ++ begin 0 13 7 ++ again 1 0.
Definition final : state := match execs (init (mt 2) 2) sched with Some s => s | None => init (mt 2) 2 end.

Lemma reach_final : rtc step (init (mt 2) 2) final.
Proof. apply (execs_steps sched). vm_compute. reflexivity. Qed.

(** Three rows of a larger memtable, published in the order 1, 0, 2. *)
Definition sched3 : list (nat * option (Z * list Z)) :=
  begin 0 11 5 ++ begin 1 12 6 ++ again 4 1 ++ again 5 0 ++ begin 0 13 7 ++ again 4 0.
Definition final3 : state := match execs (init (mt 3) 2) sched3 with Some s => s | None => init (mt 3) 2 end.

Lemma reach_final3 : rtc step (init (mt 3) 2) final3.
Proof. apply (execs_steps sched3). vm_compute. reflexivity. Qed.
End Example.

(** ** Properties *)

(** C21: Concurrent inserts are safe and lose nothing.  From a memtable just set
    up (rows a multiple of 8 bytes, any number of backends), in every state the
    backends can reach: no write runs outside the memtable; every row marked
    ready holds the tuple id and the vector of the one insert its slot was
    handed to; every row up to [max_ready_id] is ready; and no slot is ever
    handed out again. *)
Theorem concurrent_inserts_sound array_size mcap mt n s :
  set_up array_size mcap mt -> (8 | VEC_BYTES_PER_ROW mt) -> Z.of_nat n < 2 ^ 31 -> rtc Insert.step (Insert.init mt n) s ->
  (forall t i tid row, Insert.at_pc s t (Insert.Write i tid row) -> exists mt', Insert.write_row (Insert.st_mt s) i tid row = Ok mt') /\
  (forall i, 0 <= i < capacity (Insert.st_mt s) -> is_ready (Insert.st_mt s) i -> holds s i) /\
  max_ok (Insert.st_mt s) /\
  (forall s', rtc Insert.step s s' -> Insert.st_log s ⊆ Insert.st_log s').
Proof.
  intros Hup H8 Hn Hr. destruct (reach_inv _ _ _ _ _ Hup H8 Hn Hr) as [Hi Hc]. split_and!.
  - by apply inv_progress.
  - intros i. by apply inv_holds.
  - by destruct Hi.
  - intros s' Hs'. by apply log_steps.
Qed.

(** C25: The flush worker waits long enough.  In every state the backends can
    reach with the memtable sealed, [wait_for_publish] never fails; once it is
    satisfied every row of the memtable is published and holds what was
    inserted, and nothing any backend does later changes a tuple id or a vector
    the flush copies. *)
Theorem flush_waits_for_every_row array_size mcap mt n s :
  set_up array_size mcap mt -> (8 | VEC_BYTES_PER_ROW mt) -> Z.of_nat n < 2 ^ 31 -> rtc Insert.step (Insert.init mt n) s ->
  sealed (Insert.st_mt s) = true ->
  (exists b, Insert.wait_for_publish (Insert.st_mt s) = Ok b) /\
  (Insert.wait_for_publish (Insert.st_mt s) = Ok true ->
   (forall i, 0 <= i < capacity (Insert.st_mt s) -> holds s i) /\
   forall s', rtc Insert.step s s' ->
     tids (Insert.st_mt s') = tids (Insert.st_mt s) /\ forall i, row_at (Insert.st_mt s') i = row_at (Insert.st_mt s) i).
Proof.
  intros Hup H8 Hn Hr Hs. destruct (reach_inv _ _ _ _ _ Hup H8 Hn Hr) as [Hi Hc]. split.
  - unfold Insert.wait_for_publish. rewrite Hs. destruct Hi as [V1 _ _ _ _ _ _ _ _ _], Hc as [[C1 C1'] C2 _].
    specialize (C2 (or_introl Hs)). pose proof (count_pc_bounds is_counting (Insert.st_pcs s)).
    pose proof (count_ready_bounds (ready (Insert.st_mt s)) (capacity (Insert.st_mt s)) ltac:(lia)).
    destruct (Z.ltb_spec (Z.min (current_size (Insert.st_mt s)) (capacity (Insert.st_mt s))) (ready_cnt (Insert.st_mt s))); [lia|eauto].
  - intros Hw. pose proof (drained s Hi Hc Hw) as Hd. split; [intros i Hin; by apply inv_holds; [| |apply Hd]|].
    intros s'. by apply rows_stable_steps.
Qed.

Lemma concurrent_inserts_sound_witness :
  holds Example.final 0 /\ holds Example.final 1 /\ tids (Insert.st_mt Example.final) = [11; 12; 0].
Proof.
  assert (H8 : (8 | VEC_BYTES_PER_ROW (Example.mt 2))) by (by exists 1).
  pose proof (concurrent_inserts_sound 24 2 (Example.mt 2) 2 Example.final (Example.mt_set_up 2 ltac:(lia)) H8 eq_refl Example.reach_final)
    as (_ & H & _).
  split; [|split]; [apply H; [by vm_compute|vm_compute; reflexivity]..|vm_compute; reflexivity].
Defined.

Lemma flush_waits_for_every_row_witness :
  Insert.wait_for_publish (Insert.st_mt Example.final) = Ok true /\ forall i, 0 <= i < 2 -> holds Example.final i.
Proof.
  assert (H8 : (8 | VEC_BYTES_PER_ROW (Example.mt 2))) by (by exists 1).
  pose proof (flush_waits_for_every_row 24 2 (Example.mt 2) 2 Example.final (Example.mt_set_up 2 ltac:(lia)) H8 eq_refl Example.reach_final eq_refl)
    as [_ H].
  split; [vm_compute; reflexivity|]. apply H. vm_compute. reflexivity.
Defined.

(** The published prefix can stop growing for good.  If the row after
    [max_ready_id] was published by a backend that has already left
    [update_max_ready_id], no later insert ever moves [max_ready_id] again,
    although its comment promises the end of the ready prefix. *)
Theorem max_ready_id_sticks array_size mcap mt n s :
  set_up array_size mcap mt -> (8 | VEC_BYTES_PER_ROW mt) -> Z.of_nat n < 2 ^ 31 -> rtc Insert.step (Insert.init mt n) s ->
  (forall t p, Insert.at_pc s t p -> p = Insert.Idle) ->
  let m := max_ready_id (Insert.st_mt s) in
  0 <= m -> m + 1 < capacity (Insert.st_mt s) -> is_ready (Insert.st_mt s) (m + 1) ->
  forall s', rtc Insert.step s s' -> max_ready_id (Insert.st_mt s') = m.
Proof.
  intros Hup H8 Hn Hr Hidle m Hm Hc Hy s' Hs'. destruct (reach_inv _ _ _ _ _ Hup H8 Hn Hr) as [Hi _].
  apply (stuck_steps m s); [done| |done]. split; [done|done|]. by intros t p ->%Hidle.
Qed.

Lemma max_ready_id_sticks_witness :
  max_ready_id (Insert.st_mt Example.final3) = 0 /\ is_ready (Insert.st_mt Example.final3) 2 /\
  forall s', rtc Insert.step Example.final3 s' -> max_ready_id (Insert.st_mt s') = 0.
Proof.
  assert (H8 : (8 | VEC_BYTES_PER_ROW (Example.mt 3))) by (by exists 1).
  assert (Hidle : forall t p, Insert.at_pc Example.final3 t p -> p = Insert.Idle).
  { intros t p Hp. unfold Insert.at_pc in Hp. change (Insert.st_pcs Example.final3) with [Insert.Idle; Insert.Idle] in Hp.
    destruct t as [|[|t]]; by inversion Hp. }
  split; [vm_compute; reflexivity|]. split; [vm_compute; reflexivity|].
  assert (Hc : 0 + 1 < capacity (Insert.st_mt Example.final3)) by (vm_compute; reflexivity).
  apply (max_ready_id_sticks 24 3 (Example.mt 3) 2 Example.final3 (Example.mt_set_up 3 ltac:(lia)) H8 eq_refl Example.reach_final3 Hidle);
    vm_compute; try reflexivity; discriminate.
Defined.

(** The memtable's capacity ignores the alignment of its rows.  When the
    row size is not a multiple of 8 and the byte array bounds the capacity, the
    last slot handed out lies past the end of the array.  In the code's sizes
    this is a vector of 673 floats. *)
Theorem last_row_overflows array_size mcap mt0 rel id d e mt :
  set_memtable array_size mcap mt0 rel id d e = Ok mt -> zlen (vector_blob mt0) = array_size ->
  VEC_BYTES_PER_ROW mt < capacity mt -> capacity mt = array_size / VEC_BYTES_PER_ROW mt -> ~ (8 | VEC_BYTES_PER_ROW mt) ->
  (forall tid row, zlen row = VEC_BYTES_PER_ROW mt -> Insert.write_row mt (capacity mt - 1) tid row = Error OutOfBounds) /\
  memtable_cap MEMTABLE_VECTOR_ARRAY_SIZE_BYTES MEMTABLE_MAX_CAPACITY (673 * 4) = Ok (MEMTABLE_VECTOR_ARRAY_SIZE_BYTES / (673 * 4)).
Proof.
  intros Hs Hb Hv Hc H8. split; [|reflexivity]. intros tid row Hz. unfold Insert.write_row.
  unfold arr_set, arr_get. destruct (tids mt !! (capacity mt - 1)); [cbn|done].
  unfold mem_write. assert (Hblob : vector_blob mt = vector_blob mt0).
  { unfold set_memtable in Hs. destruct (memtable_cap _ _ _); [|done]. cbn in Hs. by injection Hs as <-. }
  rewrite Hz, Hblob, Hb. set (v := VEC_BYTES_PER_ROW mt) in *.
  assert (Hnn : 0 <= v) by (unfold v, VEC_BYTES_PER_ROW, u64; apply Z.mod_pos_bound; lia).
  assert (0 < v) by (destruct (decide (v = 0)) as [->|]; [by destruct H8; exists 0|lia]).
  assert (Ha : v + 1 <= MAXALIGN v).
  { pose proof (MAXALIGN_le v). destruct (decide (MAXALIGN v = v)) as [He|]; [|lia]. destruct H8. rewrite <-He, MAXALIGN_eq. by exists ((v + 7) / 8); lia. }
  assert (array_size < vec_offset mt (capacity mt - 1) + v).
  { unfold vec_offset. fold v. pose proof (Z.mod_pos_bound array_size v ltac:(lia)). pose proof (Z.div_mod array_size v ltac:(lia)).
    rewrite <-Hc in *. nia. }
  destruct (Z.ltb_spec array_size (vec_offset mt (capacity mt - 1) + v)); [|lia]. by rewrite orb_true_r.
Qed.

Lemma last_row_overflows_witness :
  match set_memtable 24 12 (Example.slot0 <| tids := replicate 12 0 |>) 16384 7 1 2 with
  | Ok mt => Insert.write_row mt 11 42 [1; 2] = Error OutOfBounds
  | Error _ => False
  end.
Proof.
  destruct (set_memtable 24 12 (Example.slot0 <| tids := replicate 12 0 |>) 16384 7 1 2) as [mt|] eqn:Hs; [|by vm_compute in Hs].
  pose proof Hs as Hs'. vm_compute in Hs'. injection Hs' as Hmt.
  assert (Hc : capacity mt = 12) by (by rewrite <-Hmt). assert (Hv : VEC_BYTES_PER_ROW mt = 2) by (by rewrite <-Hmt).
  destruct (last_row_overflows 24 12 (Example.slot0 <| tids := replicate 12 0 |>) 16384 7 1 2 mt Hs eq_refl) as [H _];
    rewrite ?Hc, ?Hv; [lia|reflexivity| |].
  - intros [k Hk]. lia.
  - rewrite Hc, Hv in H. apply (H 42 [1; 2]). reflexivity.
Defined.
