(* ===== verification/MemtableSearch.v ===== *)
(** Searching memtables and merging their results with the segments'
    ([search_memtable_common], [search_lsm_index] of lsmindex.c, the wrapper
    [BruteForceSearch] of vectorindeximpl.cpp).

    The distance kernel ([ComputeDistance] calls a faiss routine), the C
    library's [qsort], knowhere's brute-force search and the exchange with the
    vector search process are arguments; what is assumed of them is stated in
    [knowhere_ok] and [qsort_ok]. *)

From S2P Require Import Prelude Bitmap TopK Memtable.

Record LSMSnapshot := mkSnapshot { gidx : Z; gmt_id : Z; scount : Z; sidxs : list Z; smt_ids : list Z }.

Section search.
Context {D : Type} (le : D -> D -> Prop) `{!RelDecision le} `{!Total le} `{!Transitive le}.
(** [compute_distance row query] on [dim] floats each. *)
Context (compute_distance : list Z -> list Z -> D).
Context (qsort : list (DistancePair D) -> list (DistancePair D)).
(** Vectors, query, bitset, count, k, dim: the [k] ids and distances, nothing
    if knowhere reports a failure, an error if it throws. *)
Context (knowhere_search : list Z -> list Z -> list Z -> Z -> Z -> Z -> res (option (list (DistancePair D)))).

(** [dim] floats from [VEC_PTR_AT(mt, i)]. *)
Definition float_row (mt : ConcurrentMemTableData) (i : Z) : list Z :=
  slice (vector_blob mt) (vec_offset mt i) (vec_offset mt i + 4 * dim mt).

(** [slot_is_ready_acquire]. *)
Definition slot_is_ready_acquire (mt : ConcurrentMemTableData) (i : Z) : res bool :=
  r ← arr_get (ready mt) i; Ok (negb (r =? 0)).

Definition BruteForceSearch (vectors query_vector bitmap : list Z) (count k dim : Z) : res (list (DistancePair D)) :=
  r ← knowhere_search vectors query_vector bitmap count k dim;
  Ok (match r with None => [] | Some l => take (Z.to_nat (Z.min k count)) l end).

(** The loop that collects the ready, not deleted rows among the given ones. *)
Fixpoint collect_rows (mt : ConcurrentMemTableData) (query : list Z) (rows : list Z) : res (list (DistancePair D)) :=
  match rows with
  | [] => Ok []
  | i :: rows =>
      rdy ← slot_is_ready_acquire mt i;
      if negb rdy then collect_rows mt query rows
      else if IS_SLOT_SET (mt_bitmap mt) i then collect_rows mt query rows
      else tid ← arr_get (tids mt) i;
           l ← collect_rows mt query rows;
           Ok (mkPair (compute_distance (float_row mt i) query) tid :: l)
  end.

(** Row numbers of a brute-force result replaced by tuple ids. *)
Fixpoint to_tids (mt : ConcurrentMemTableData) (l : list (DistancePair D)) : res (list (DistancePair D)) :=
  match l with
  | [] => Ok []
  | p :: l => tid ← arr_get (tids mt) (id p); l' ← to_tids mt l; Ok (mkPair (distance p) tid :: l')
  end.

Definition brute_force (mt : ConcurrentMemTableData) (query : list Z) (count k : Z) : res (list (DistancePair D)) :=
  r ← BruteForceSearch (vector_blob mt) query (mt_bitmap mt) count k (dim mt);
  to_tids mt r.

Definition search_memtable_common (mt : ConcurrentMemTableData) (query : list Z) (k : Z) (check_ready : bool)
    : res (list (DistancePair D)) :=
  let valid_num := Z.min (current_size mt) (capacity mt) in
  if valid_num =? 0 then Ok []
  else if check_ready then
    let max_ready := max_ready_id mt in
    if max_ready =? UINT32_MAX then
      dist_pairs ← collect_rows mt query (seqZ 0 valid_num);
      Ok (take (Z.to_nat k) (qsort dist_pairs))
    else
      let ready_limit := Z.min (u32 (max_ready + 1)) valid_num in
      remaining ← collect_rows mt query (seqZ ready_limit (valid_num - ready_limit));
      brute_force_pairs ← (if 0 <? ready_limit then brute_force mt query ready_limit k else Ok []);
      Ok (merge_top_k le (Z.to_nat k) (qsort remaining) brute_force_pairs)
  else brute_force mt query valid_num k.

Definition search_growing_memtable mt query k := search_memtable_common mt query k true.
Definition search_sealed_memtable mt query k := search_memtable_common mt query k false.

(** *** search_lsm_index *)

Context (vector_search_send : LSMSnapshot -> res unit).
Context (vector_search_get_result : res (list (DistancePair D))).

(** [pg_atomic_add_fetch_u32(&slots[i].ref_count, d)]. *)
Definition ref_add (slots : list MemtableBufferSlot) (i d : Z) : res (list MemtableBufferSlot) :=
  arr_upd slots i (fun s => s <| mt_ref_count ::= fun c => u32 (c + d) |>).

Fixpoint snapshot_sealed (slots : list MemtableBufferSlot) (idxs : list Z) : res (list Z * list MemtableBufferSlot) :=
  match idxs with
  | [] => Ok ([], slots)
  | i :: idxs =>
      s ← arr_get slots i;
      slots ← ref_add slots i 1;
      '(ids, slots) ← snapshot_sealed slots idxs;
      Ok (memtable_id (slot_mt s) :: ids, slots)
  end.

(** One round of the loop that waits for a growing memtable. *)
Definition take_snapshot (lsm : LSMIndexData) (slots : list MemtableBufferSlot)
    : res (option (LSMSnapshot * list MemtableBufferSlot)) :=
  let g := growing_memtable_idx lsm in
  if (0 <=? g) && (g <? MEMTABLE_BUF_SIZE) then
    s ← arr_get slots g;
    slots ← ref_add slots g 1;
    let sealed_idxs := take (Z.to_nat (memtable_count lsm)) (memtable_idxs lsm) in
    '(ids, slots) ← snapshot_sealed slots sealed_idxs;
    Ok (Some (mkSnapshot g (memtable_id (slot_mt s)) (memtable_count lsm) sealed_idxs ids, slots))
  else Ok None.

(** Step 4: what is left of the references when it stops, and its result. *)
Fixpoint sealed_loop (query : list Z) (k : Z) (idxs : list Z) (slots : list MemtableBufferSlot) (sealed_released : Z)
    (pair_1 : list (DistancePair D)) : list MemtableBufferSlot * Z * res (list (DistancePair D)) :=
  match idxs with
  | [] => (slots, sealed_released, Ok pair_1)
  | i :: idxs =>
      match (s ← arr_get slots i; search_sealed_memtable (slot_mt s) query k) with
      | Error e => (slots, sealed_released, Error e)
      | Ok smt_pairs =>
          match ref_add slots i (-1) with
          | Error e => (slots, sealed_released, Error e)
          | Ok slots => sealed_loop query k idxs slots (sealed_released + 1) (merge_top_k le (Z.to_nat k) pair_1 smt_pairs)
          end
      end
  end.

(** Steps 2 to 5: the slots, whether the growing memtable is still held, how
    many sealed ones were released, and the result. *)
Definition search_body (query : list Z) (k : Z) (slots : list MemtableBufferSlot) (snap : LSMSnapshot)
    : list MemtableBufferSlot * bool * Z * res (list (DistancePair D)) :=
  match vector_search_send snap with
  | Error e => (slots, true, 0, Error e)
  | Ok _ =>
      match (s ← arr_get slots (gidx snap); search_growing_memtable (slot_mt s) query k) with
      | Error e => (slots, true, 0, Error e)
      | Ok gmt_pairs =>
          match ref_add slots (gidx snap) (-1) with
          | Error e => (slots, true, 0, Error e)
          | Ok slots =>
              let '(slots, sealed_released, r) := sealed_loop query k (sidxs snap) slots 0 gmt_pairs in
              (slots, false, sealed_released,
               pair_1 ← r; segment_pairs ← vector_search_get_result; merge_top_k_dedup le k pair_1 segment_pairs)
          end
      end
  end.

Fixpoint release_all (slots : list MemtableBufferSlot) (idxs : list Z) : res (list MemtableBufferSlot) :=
  match idxs with
  | [] => Ok slots
  | i :: idxs => slots ← ref_add slots i (-1); release_all slots idxs
  end.

(** The [PG_CATCH] block. *)
Definition release_held (slots : list MemtableBufferSlot) (snap : LSMSnapshot) (gmt_held : bool) (sealed_released : Z)
    : res (list MemtableBufferSlot) :=
  slots ← (if gmt_held then ref_add slots (gidx snap) (-1) else Ok slots);
  release_all slots (drop (Z.to_nat sealed_released) (sidxs snap)).

Inductive search_outcome :=
  | Retry
  | Returned (slots : list MemtableBufferSlot) (pairs : list (DistancePair D))
  | Raised (slots : list MemtableBufferSlot).

(** An [ereport(ERROR)] is caught and raised again; a wild access is not. *)
Definition search_lsm_index (lsm : LSMIndexData) (slots : list MemtableBufferSlot) (query : list Z) (k : Z)
    : res search_outcome :=
  snapshot ← take_snapshot lsm slots;
  match snapshot with
  | None => Ok Retry
  | Some (snap, slots) =>
      let '(slots, gmt_held, sealed_released, r) := search_body query k slots snap in
      match r with
      | Ok pairs => Ok (Returned slots pairs)
      | Error ElogError => slots ← release_held slots snap gmt_held sealed_released; Ok (Raised slots)
      | Error e => Error e
      end
  end.

(** *** What the library code is assumed to do *)

(** The undeleted vectors of a dense array, by row number. *)
Definition bf_cands (vectors query bitmap : list Z) (count dim : Z) : list (DistancePair D) :=
  (fun i => mkPair (compute_distance (slice vectors (4 * dim * i) (4 * dim * i + 4 * dim)) query) i)
    <$> filter (fun i => IS_SLOT_SET bitmap i = false) (seqZ 0 count).

(** [knowhere::BruteForce::Search]: [k] entries, first a ranking of the vectors
    the bitset lets through, then padding with id -1. *)
Definition knowhere_ok : Prop := forall vectors query bitmap count k dim,
  0 < count -> 0 < k -> 0 <= dim -> 4 * dim * count <= zlen vectors ->
  exists real pad, knowhere_search vectors query bitmap count k dim = Ok (Some (real ++ pad)) /\
    ranks le (Z.to_nat k) (bf_cands vectors query bitmap count dim) real /\
    Forall (fun p => id p = -1) pad /\ zlen (real ++ pad) = k.

(** The C library's [qsort] with [compare_distance]. *)
Definition qsort_ok : Prop := forall l, qsort l ≡ₚ l /\ StronglySorted (nearer le) (qsort l).

(** *** What a search of one memtable should return *)

Definition tid_at (mt : ConcurrentMemTableData) (i : Z) : Z := default 0 (tids mt !! i).
Definition row_pair (mt : ConcurrentMemTableData) (query : list Z) (i : Z) : DistancePair D :=
  mkPair (compute_distance (float_row mt i) query) (tid_at mt i).

(** Rows handed out. *)
Definition valid_num (mt : ConcurrentMemTableData) : Z := Z.min (current_size mt) (capacity mt).

(** A row a search has to consider: not deleted and, in a growing memtable,
    published. *)
Definition live (mt : ConcurrentMemTableData) (check_ready : bool) (i : Z) : bool :=
  (if check_ready then bool_decide (ready mt !! i <> Some 0) else true) && negb (IS_SLOT_SET (mt_bitmap mt) i).

Definition visible (mt : ConcurrentMemTableData) (check_ready : bool) (query : list Z) : list (DistancePair D) :=
  row_pair mt query <$> filter (fun i => live mt check_ready i = true) (seqZ 0 (valid_num mt)).

(** Rows below [n] that are not deleted. *)
Definition undeleted (mt : ConcurrentMemTableData) (n : Z) : list Z :=
  filter (fun i => IS_SLOT_SET (mt_bitmap mt) i = false) (seqZ 0 n).

(** The arrays reach as far as the capacity, floats lie densely, and the
    published prefix is what [max_ready_id] says (an invariant of the inserts). *)
Record searchable (mt : ConcurrentMemTableData) : Prop := {
  sb_size : 0 <= current_size mt;
  sb_cap : 0 <= capacity mt < UINT32_MAX /\ capacity mt <= zlen (tids mt) /\ capacity mt <= zlen (ready mt);
  sb_dense : MAXALIGN (VEC_BYTES_PER_ROW mt) = 4 * dim mt /\ 0 <= dim mt /\ 4 * dim mt * capacity mt <= zlen (vector_blob mt);
  sb_max : max_ok mt }.

(** ** Searching one memtable *)

Lemma seqZ_split m n : 0 <= m <= n -> seqZ 0 n = seqZ 0 m ++ seqZ m (n - m).
Proof.
  intros H. replace n with (m + (n - m)) at 1 by lia. rewrite seqZ_app by lia. by rewrite Z.add_0_l.
Qed.

Lemma collect_rows_spec mt query rows :
  searchable mt -> (forall i, i ∈ rows -> 0 <= i < capacity mt) ->
  collect_rows mt query rows = Ok (row_pair mt query <$> filter (fun i => live mt true i = true) rows).
Proof.
  intros [_ (_ & Ht & Hr) _ _] Hin. induction rows as [|i rows IH]; [done|].
  assert (0 <= i < capacity mt) by (apply Hin; left). specialize (IH ltac:(intros j Hj; apply Hin; by right)).
  destruct (zlookup_lt_is_Some (ready mt) i) as [r Hri]; [lia|]. destruct (zlookup_lt_is_Some (tids mt) i) as [x Hx]; [lia|].
  rewrite filter_cons. cbn [collect_rows]. unfold slot_is_ready_acquire. rewrite (proj2 (arr_get_Ok _ _ _) Hri). cbn.
  assert (Hlive : live mt true i = negb (r =? 0) && negb (IS_SLOT_SET (mt_bitmap mt) i)).
  { unfold live. rewrite Hri. f_equal. destruct (Z.eqb_spec r 0) as [->|];
      [by apply bool_decide_eq_false_2; intros []|apply bool_decide_eq_true_2; congruence]. }
  destruct (r =? 0), (IS_SLOT_SET (mt_bitmap mt) i); cbn in Hlive |- *; rewrite IH; case_decide; try congruence.
  rewrite (proj2 (arr_get_Ok _ _ _) Hx). cbn. unfold row_pair at 2, tid_at. by rewrite Hx.
Qed.

Lemma to_tids_spec mt (l : list (DistancePair D)) :
  (forall p, p ∈ l -> 0 <= id p < zlen (tids mt)) -> to_tids mt l = Ok (relabel (tid_at mt) <$> l).
Proof.
  induction l as [|p l IH]; intros Hin; [done|]. cbn [to_tids].
  destruct (zlookup_lt_is_Some (tids mt) (id p)) as [x Hx]; [apply Hin; left|].
  rewrite (proj2 (arr_get_Ok _ _ _) Hx). cbn. rewrite IH by (intros q Hq; apply Hin; by right). cbn.
  unfold relabel at 2, tid_at. by rewrite Hx.
Qed.

Section with_library.
Hypothesis Hknowhere : knowhere_ok.
Hypothesis Hqsort : qsort_ok.

(** The brute-force search of a dense prefix that has enough undeleted rows. *)
Lemma brute_force_ranks mt query count k :
  searchable mt -> 0 < count <= capacity mt -> 0 < k -> Z.min k count <= zlen (undeleted mt count) ->
  exists out, brute_force mt query count k = Ok out /\
    ranks le (Z.to_nat k) (row_pair mt query <$> undeleted mt count) out.
Proof.
  intros [_ (Hc & Ht & Hr) (Hd & Hd0 & Hblob) _] Hcount Hk Henough.
  destruct (Hknowhere (vector_blob mt) query (mt_bitmap mt) count k (dim mt)) as (real & pad & Hs & Hrk & _ & Hlen); [lia|lia|lia|nia|].
  unfold brute_force, BruteForceSearch. rewrite Hs. cbn.
  set (cands := bf_cands (vector_blob mt) query (mt_bitmap mt) count (dim mt)) in *.
  assert (Hlc : length cands = length (undeleted mt count)) by (unfold cands, bf_cands, undeleted; by rewrite length_fmap).
  assert (Hreal : length real = Z.to_nat (Z.min k count)).
  { destruct Hrk as (_ & -> & _). rewrite Hlc. unfold zlen in Henough.
    pose proof (length_filter (fun i => IS_SLOT_SET (mt_bitmap mt) i = false) (seqZ 0 count)) as Hf. rewrite length_seqZ in Hf.
    fold (undeleted mt count) in Hf. lia. }
  rewrite take_app_length' by lia.
  rewrite to_tids_spec.
  2: { intros p Hp. apply (ranks_elem le _ _ _ _ Hrk) in Hp. unfold cands, bf_cands in Hp.
       apply list_elem_of_fmap in Hp as (i & -> & Hi). apply list_elem_of_filter in Hi as [_ Hi]. apply elem_of_seqZ in Hi. cbn. lia. }
  eexists. split; [done|]. apply (ranks_relabel le (tid_at mt)) in Hrk.
  assert (relabel (tid_at mt) <$> cands = row_pair mt query <$> undeleted mt count) as <-; [|exact Hrk].
  unfold cands, bf_cands. rewrite <-list_fmap_compose. apply list_fmap_ext. intros _ i _. unfold relabel, row_pair, float_row, vec_offset. cbn.
  rewrite Hd. do 3 f_equal; lia.
Qed.

(** Sorting everything and keeping [k] is a ranking, and merging it with
    another one cuts it later. *)
Lemma qsort_ranks k l : ranks le k l (take k (qsort l)).
Proof. destruct (Hqsort l) as [Hp Hs]. by apply (ranks_sorted_perm le). Qed.

Lemma merge_sorted_ranks k A B l1 l2 :
  StronglySorted (nearer le) l1 -> l1 ≡ₚ A -> ranks le k B l2 -> ranks le k (A ++ B) (merge_top_k le k l1 l2).
Proof.
  intros Hs Hp Hb. assert (Hcut : merge_top_k le k l1 l2 = merge_top_k le k (take k l1) l2).
  { clear. revert l1 l2. induction k as [|k IH]; intros l1 l2; [done|]. destruct l1 as [|p l1]; [done|].
    cbn. destruct l2 as [|q l2]; [by rewrite IH|]. case_bool_decide; [by rewrite IH|]. f_equal.
    rewrite IH. destruct k as [|k]; [done|]. cbn [take]. rewrite (IH (p :: take (S k) l1)). cbn [take].
    by rewrite take_take, Nat.min_l by lia. }
  rewrite Hcut. apply (merge_ranks le); [|done]. by apply (ranks_sorted_perm le).
Qed.

(** What the optimised search needs: enough undeleted rows in the part it gives
    to knowhere. *)
Definition brute_forced (mt : ConcurrentMemTableData) (check_ready : bool) : Z :=
  if check_ready then
    (if max_ready_id mt =? UINT32_MAX then 0 else Z.min (max_ready_id mt + 1) (valid_num mt))
  else valid_num mt.

Definition enough_rows (mt : ConcurrentMemTableData) (check_ready : bool) (k : Z) : Prop :=
  Z.min k (brute_forced mt check_ready) <= zlen (undeleted mt (brute_forced mt check_ready)).

Lemma filter_ext_in (P Q : Z -> Prop) `{forall x, Decision (P x)} `{forall x, Decision (Q x)} (l : list Z) :
  (forall i, i ∈ l -> P i <-> Q i) -> filter P l = filter Q l.
Proof.
  induction l as [|i l IH]; intros Hl; [done|]. rewrite !filter_cons. rewrite IH by (intros j Hj; apply Hl; by right).
  specialize (Hl i ltac:(left)). repeat case_decide; tauto.
Qed.

Lemma live_sealed mt (l : list Z) : filter (fun i => live mt false i = true) l = filter (fun i => IS_SLOT_SET (mt_bitmap mt) i = false) l.
Proof. apply filter_ext_in. intros i _. unfold live. by destruct (IS_SLOT_SET _ i). Qed.

Lemma ready_prefix mt n :
  (forall i, 0 <= i < n -> ready mt !! i = Some 1) ->
  filter (fun i => live mt true i = true) (seqZ 0 n) = undeleted mt n.
Proof.
  intros Hr. unfold undeleted. apply filter_ext_in. intros i Hi%elem_of_seqZ. unfold live. rewrite Hr by lia.
  rewrite bool_decide_eq_true_2 by done. by destruct (IS_SLOT_SET _ i).
Qed.

Lemma search_memtable_ranks mt query k check_ready :
  searchable mt -> 0 < k -> enough_rows mt check_ready k ->
  exists out, search_memtable_common mt query k check_ready = Ok out /\
    ranks le (Z.to_nat k) (visible mt check_ready query) out.
Proof.
  intros Hmt Hk Hen. pose proof Hmt as [Hsz (Hc & Ht & Hr) (Hd & Hd0 & Hblob) Hmax].
  unfold search_memtable_common. fold (valid_num mt). unfold enough_rows, brute_forced in Hen.
  assert (Hv : 0 <= valid_num mt <= capacity mt) by (unfold valid_num; lia).
  destruct (Z.eqb_spec (valid_num mt) 0) as [H0|H0].
  { eexists. split; [done|]. unfold visible. rewrite H0. cbn. split; [constructor|]. split; [by rewrite Nat.min_0_r|].
    exists []. split; [done|]. by intros p q ?%elem_of_nil. }
  assert (Hrows : forall m n i, 0 <= m -> i ∈ seqZ m n -> m + n <= valid_num mt -> 0 <= i < capacity mt).
  { intros m n i Hm Hi%elem_of_seqZ Hn. lia. }
  destruct check_ready.
  - destruct (Z.eqb_spec (max_ready_id mt) UINT32_MAX) as [Hm|Hm].
    + rewrite collect_rows_spec by (done || (intros i Hi; eapply Hrows; [|exact Hi|]; lia)). cbn.
      eexists. split; [done|]. apply qsort_ranks.
    + destruct Hmax as [|[Hmr Hpre]]; [done|]. unfold UINT32_MAX in *.
      rewrite u32_small by lia. set (n := Z.min (max_ready_id mt + 1) (valid_num mt)) in *.
      rewrite collect_rows_spec by (done || (intros i Hi; eapply Hrows; [|exact Hi|]; lia)). cbn.
      destruct (Z.ltb_spec 0 n) as [Hn|]; [|lia].
      destruct (brute_force_ranks mt query n k Hmt ltac:(lia) Hk Hen) as (out & Hs & Hrk).
      rewrite Hs. cbn. eexists. split; [done|].
      set (rest := row_pair mt query <$> filter (fun i => live mt true i = true) (seqZ n (valid_num mt - n))).
      destruct (Hqsort rest) as [Hp Hsorted]. eapply ranks_perm; [|by apply (merge_sorted_ranks _ rest _ _ _ Hsorted Hp Hrk)].
      unfold visible, rest. rewrite (seqZ_split n) by lia. rewrite filter_app, fmap_app, (ready_prefix mt n).
      2: { intros i Hi. apply Hpre. lia. }
      apply Permutation_app_comm.
  - destruct (brute_force_ranks mt query (valid_num mt) k Hmt ltac:(lia) Hk Hen) as (out & Hs & Hrk).
    exists out. split; [done|]. unfold visible. by rewrite live_sealed.
Qed.
End with_library.

(** ** Reference counts *)

(** The slots with [delta i] references more on slot [i]. *)
Definition add_refs (slots : list MemtableBufferSlot) (delta : Z -> Z) : list MemtableBufferSlot :=
  imap (fun n s => s <| mt_ref_count := u32 (mt_ref_count s + delta (Z.of_nat n)) |>) slots.

Definition held_once (i : Z) : Z -> Z := fun j => if decide (i = j) then 1 else 0.
Definition held_all (idxs : list Z) : Z -> Z := fun j => zlen (filter (fun i => i = j) idxs).

Lemma add_refs_lookup slots delta i :
  add_refs slots delta !! i = (fun s => s <| mt_ref_count := u32 (mt_ref_count s + delta i) |>) <$> slots !! i.
Proof.
  unfold lookup, zlist_lookup. case_decide; [|done]. unfold add_refs. rewrite list_lookup_imap.
  destruct (slots !! Z.to_nat i); [|done]. cbn. by rewrite Z2Nat.id by lia.
Qed.

Lemma zlist_ext {A} (l l' : list A) : (forall i : Z, l !! i = l' !! i) -> l = l'.
Proof. intros H. apply list_eq. intros n. specialize (H (Z.of_nat n)). by rewrite !zlookup_nat in H. Qed.

Lemma ref_add_refs slots delta i d s :
  slots !! i = Some s ->
  ref_add (add_refs slots delta) i d = Ok (add_refs slots (fun j => delta j + (if decide (i = j) then d else 0))).
Proof.
  intros Hs. unfold ref_add. erewrite arr_upd_Some by (rewrite add_refs_lookup, Hs; reflexivity). f_equal.
  apply zlist_ext. intros j. rewrite zlookup_insert, !add_refs_lookup. destruct (decide (i = j)) as [<-|Hne].
  - rewrite Hs. cbn [fmap option_fmap option_map]. f_equal. destruct s as [c m]. unfold update; cbn. f_equal. by rewrite u32_add_l, Z.add_assoc.
  - destruct (slots !! j); cbn; [|done]. by rewrite Z.add_0_r.
Qed.

Lemma add_refs_ext slots d d' : (forall j, d j = d' j) -> add_refs slots d = add_refs slots d'.
Proof. intros H. apply zlist_ext. intros j. rewrite !add_refs_lookup. by rewrite H. Qed.

Lemma add_refs_zero slots : Forall (fun s => 0 <= mt_ref_count s < 2 ^ 32) slots -> add_refs slots (fun _ => 0) = slots.
Proof.
  intros Hb. apply zlist_ext. intros j. rewrite add_refs_lookup. destruct (slots !! j) as [s|] eqn:Hj; [|done]. cbn. f_equal.
  assert (0 <= mt_ref_count s < 2 ^ 32).
  { rewrite Forall_forall in Hb. apply Hb. unfold lookup, zlist_lookup in Hj. case_decide; [|done]. by eapply list_elem_of_lookup_2. }
  rewrite Z.add_0_r, u32_small by lia. by destruct s.
Qed.

Lemma snapshot_sealed_refs slots delta idxs :
  Forall (fun i => is_Some (slots !! i)) idxs ->
  exists ids, snapshot_sealed (add_refs slots delta) idxs = Ok (ids, add_refs slots (fun j => delta j + held_all idxs j)).
Proof.
  revert delta; induction idxs as [|i idxs IH]; intros delta Hf.
  - exists []. cbn. do 2 f_equal. apply add_refs_ext. intros j. unfold held_all. cbn. change (zlen []) with 0. lia.
  - apply Forall_cons in Hf as [[s Hs] Hf]. cbn [snapshot_sealed].
    unfold arr_get. rewrite add_refs_lookup, Hs. cbn. rewrite (ref_add_refs _ _ _ _ _ Hs). cbn.
    destruct (IH (fun j => delta j + (if decide (i = j) then 1 else 0)) Hf) as [ids ->]. cbn. eexists. do 2 f_equal.
    apply add_refs_ext. intros j. unfold held_all. rewrite filter_cons. case_decide; rewrite ?zlen_cons; lia.
Qed.

Lemma release_all_refs slots delta idxs :
  Forall (fun i => is_Some (slots !! i)) idxs ->
  release_all (add_refs slots delta) idxs = Ok (add_refs slots (fun j => delta j - held_all idxs j)).
Proof.
  revert delta; induction idxs as [|i idxs IH]; intros delta Hf.
  - cbn. f_equal. apply add_refs_ext. intros j. unfold held_all. cbn. change (zlen []) with 0. lia.
  - apply Forall_cons in Hf as [[s Hs] Hf]. cbn [release_all]. rewrite (ref_add_refs _ _ _ _ _ Hs). cbn.
    rewrite IH by done. f_equal. apply add_refs_ext. intros j. unfold held_all. rewrite filter_cons.
    case_decide; rewrite ?zlen_cons; lia.
Qed.

(** Wherever the loop over the sealed memtables stops, it has released exactly
    the ones it counts. *)
Lemma sealed_loop_refs query k slots idxs : Forall (fun i => is_Some (slots !! i)) idxs ->
  forall delta rel pairs slots' rel' r, sealed_loop query k idxs (add_refs slots delta) rel pairs = (slots', rel', r) ->
  exists done todo, idxs = done ++ todo /\ rel' = rel + zlen done /\
    slots' = add_refs slots (fun j => delta j - held_all done j) /\ (forall l, r = Ok l -> todo = []).
Proof.
  induction idxs as [|i idxs IH]; intros Hf delta rel pairs slots' rel' r; cbn [sealed_loop].
  - intros [= <- <- <-]. exists [], []. split; [done|]. split; [unfold zlen; cbn; lia|]. split; [|done].
    apply add_refs_ext. intros j. unfold held_all. cbn. change (zlen []) with 0. lia.
  - apply Forall_cons in Hf as [[s Hs] Hf]. unfold arr_get. rewrite add_refs_lookup, Hs. cbn.
    destruct (search_sealed_memtable _ _ _) as [smt|e].
    + rewrite (ref_add_refs _ _ _ _ _ Hs). intros Hl. apply IH in Hl as (dn & todo & -> & -> & -> & Hr); [|done].
      exists (i :: dn), todo. split; [done|]. split; [rewrite zlen_cons; lia|]. split; [|done].
      apply add_refs_ext. intros j. unfold held_all. rewrite filter_cons. case_decide; rewrite ?zlen_cons; lia.
    + intros [= <- <- <-]. exists [], (i :: idxs). split; [done|]. split; [unfold zlen; cbn; lia|]. split; [|done].
      apply add_refs_ext. intros j. unfold held_all. cbn. change (zlen []) with 0. lia.
Qed.

(** The slots a snapshot looks at. *)
Definition sealed_idxs (lsm : LSMIndexData) : list Z := take (Z.to_nat (memtable_count lsm)) (memtable_idxs lsm).

Lemma take_snapshot_refs lsm slots g :
  growing_memtable_idx lsm = g -> 0 <= g < MEMTABLE_BUF_SIZE -> is_Some (slots !! g) ->
  Forall (fun i => is_Some (slots !! i)) (sealed_idxs lsm) -> Forall (fun s => 0 <= mt_ref_count s < 2 ^ 32) slots ->
  exists snap, take_snapshot lsm slots =
      Ok (Some (snap, add_refs slots (fun j => (if decide (g = j) then 1 else 0) + held_all (sealed_idxs lsm) j))) /\
    gidx snap = g /\ sidxs snap = sealed_idxs lsm.
Proof.
  intros Hg Hr [s Hs] Hf Hb. unfold take_snapshot. rewrite Hg.
  destruct (Z.leb_spec 0 g); [|lia]. destruct (Z.ltb_spec g MEMTABLE_BUF_SIZE); [|lia]. cbn [andb].
  unfold arr_get. rewrite Hs. cbn [of_option mbind res_bind]. replace (ref_add slots g 1) with (ref_add (add_refs slots (fun _ => 0)) g 1) by (by rewrite add_refs_zero).
  rewrite (ref_add_refs _ _ _ _ _ Hs). cbn [mbind res_bind]. fold (sealed_idxs lsm).
  destruct (snapshot_sealed_refs slots (fun j => 0 + (if decide (g = j) then 1 else 0)) (sealed_idxs lsm) Hf) as [ids ->].
  cbn. eexists. split; [|split; cycle 1].
  { do 3 f_equal. }
  all: done.
Qed.

(** The whole body: success releases everything, failure what it counts. *)
Lemma search_body_refs query k slots snap slots' held rel r :
  is_Some (slots !! gidx snap) -> Forall (fun i => is_Some (slots !! i)) (sidxs snap) ->
  search_body query k (add_refs slots (fun j => (if decide (gidx snap = j) then 1 else 0) + held_all (sidxs snap) j)) snap =
    (slots', held, rel, r) ->
  (forall l, r = Ok l -> slots' = add_refs slots (fun _ => 0)) /\
  (forall e, r = Error e -> release_held slots' snap held rel = Ok (add_refs slots (fun _ => 0))).
Proof.
  intros [s Hs] Hf. unfold search_body. set (delta := fun j : Z => _).
  assert (Hrel : release_held (add_refs slots delta) snap true 0 = Ok (add_refs slots (fun _ => 0))).
  { unfold release_held. rewrite (ref_add_refs _ _ _ _ _ Hs). cbn. rewrite release_all_refs by done. f_equal.
    apply add_refs_ext. intros j. subst delta. cbn. change (Z.to_nat 0) with 0%nat. rewrite drop_0. case_decide; lia. }
  destruct (vector_search_send snap) as [[]|e]; [|intros [= <- <- <- <-]; by split].
  unfold arr_get at 1. rewrite add_refs_lookup, Hs. cbn [of_option fmap option_fmap option_map mbind res_bind].
  destruct (search_growing_memtable _ query k) as [g|e]; [|intros [= <- <- <- <-]; by split].
  rewrite (ref_add_refs _ _ _ _ _ Hs). destruct (sealed_loop query k (sidxs snap) _ 0 g) as [[slots1 rel1] r1] eqn:Hl.
  apply sealed_loop_refs in Hl as (dn & todo & Hsplit & -> & -> & Htodo); [|done]. intros [= <- <- <- <-]. split.
  - intros l Hr. destruct r1 as [l1|]; [|done]. rewrite (Htodo l1 eq_refl), app_nil_r in Hsplit.
    apply add_refs_ext. intros j. subst delta. cbn. rewrite Hsplit. case_decide; lia.
  - intros e _. unfold release_held. cbn. rewrite Hsplit, drop_app_length' by (unfold zlen; lia).
    rewrite release_all_refs by (by rewrite Hsplit in Hf; apply Forall_app in Hf as [_ ?]). f_equal.
    apply add_refs_ext. intros j. subst delta. cbn. rewrite Hsplit. unfold held_all. rewrite filter_app, zlen_app. case_decide; lia.
Qed.

(** ** The combined search *)

Section exact.
Hypothesis Hknowhere : knowhere_ok.
Hypothesis Hqsort : qsort_ok.

Definition slot_ok (slots : list MemtableBufferSlot) (check_ready : bool) (k i : Z) : Prop :=
  exists s, slots !! i = Some s /\ searchable (slot_mt s) /\ enough_rows (slot_mt s) check_ready k.

Definition visible_at (slots : list MemtableBufferSlot) (check_ready : bool) (query : list Z) (i : Z) : list (DistancePair D) :=
  match slots !! i with Some s => visible (slot_mt s) check_ready query | None => [] end.

Lemma sealed_loop_ranks query k slots idxs : 0 < k -> Forall (slot_ok slots false k) idxs ->
  forall delta rel A pairs, ranks le (Z.to_nat k) A pairs ->
  exists slots' rel' out, sealed_loop query k idxs (add_refs slots delta) rel pairs = (slots', rel', Ok out) /\
    ranks le (Z.to_nat k) (A ++ (idxs ≫= visible_at slots false query)) out.
Proof.
  intros Hk Hf. induction Hf as [|i idxs (s & Hs & Hok & Hen) Hf IH]; intros delta rel A pairs Hr; cbn [sealed_loop].
  - do 3 eexists. split; [done|]. cbn. by rewrite app_nil_r.
  - unfold arr_get. rewrite add_refs_lookup, Hs. cbn [of_option fmap option_fmap option_map mbind res_bind].
    change (slot_mt (s <| mt_ref_count := _ |>)) with (slot_mt s).
    destruct (search_memtable_ranks Hknowhere Hqsort (slot_mt s) query k false Hok Hk Hen) as (smt & Hse & Hrk).
    unfold search_sealed_memtable. rewrite Hse. rewrite (ref_add_refs _ _ _ _ _ Hs).
    destruct (IH (fun j => delta j + (if decide (i = j) then -1 else 0)) (rel + 1) (A ++ visible (slot_mt s) false query)
                 (merge_top_k le (Z.to_nat k) pairs smt)) as (slots' & rel' & out & Hl & Ho).
    { by apply (merge_ranks le). }
    exists slots', rel', out. split; [exact Hl|]. rewrite bind_cons, app_assoc. unfold visible_at at 1. by rewrite Hs.
Qed.

Lemma search_body_ranks query k slots snap delta segs :
  0 < k -> slot_ok slots true k (gidx snap) -> Forall (slot_ok slots false k) (sidxs snap) ->
  vector_search_send snap = Ok tt -> vector_search_get_result = Ok segs -> StronglySorted (nearer le) segs ->
  let cands := visible_at slots true query (gidx snap) ++ (sidxs snap ≫= visible_at slots false query) in
  NoDup (id <$> cands) ->
  exists slots' held rel out, search_body query k (add_refs slots delta) snap = (slots', held, rel, Ok out) /\
    dedup_ranks le k (cands ++ segs) out.
Proof.
  intros Hk (s & Hs & Hok & Hen) Hf Hsend Hget Hsorted cands Hnd. unfold search_body. rewrite Hsend, Hget.
  unfold arr_get. rewrite add_refs_lookup, Hs. cbn [of_option fmap option_fmap option_map mbind res_bind].
  change (slot_mt (s <| mt_ref_count := _ |>)) with (slot_mt s).
  destruct (search_memtable_ranks Hknowhere Hqsort (slot_mt s) query k true Hok Hk Hen) as (g & Hse & Hrk).
  unfold search_growing_memtable. rewrite Hse, (ref_add_refs _ _ _ _ _ Hs).
  destruct (sealed_loop_ranks query k slots (sidxs snap) Hk Hf (fun j => delta j + (if decide (gidx snap = j) then -1 else 0)) 0 _ _ Hrk)
    as (slots' & rel & l1 & -> & Hl1). cbn [mbind res_bind].
  destruct (merge_top_k_dedup_ranks le k l1 segs) as (out & -> & Hout); [lia|by destruct Hl1|done|].
  do 4 eexists. split; [done|]. assert (Hc : cands = visible (slot_mt s) true query ++ (sidxs snap ≫= visible_at slots false query)).
  { unfold cands. f_equal. unfold visible_at. by rewrite Hs. }
  rewrite <-Hc in Hl1. eapply (dedup_ranks_cut le); [lia|exact Hl1|exact Hnd|exact Hout].
Qed.
End exact.

Lemma slot_ok_some slots c k i : slot_ok slots c k i -> is_Some (slots !! i).
Proof. intros (s & Hs & _). by exists s. Qed.

(** The queue and the slots are in order: every index names a slot. *)
Definition slots_ok (lsm : LSMIndexData) (slots : list MemtableBufferSlot) : Prop :=
  zlen slots = MEMTABLE_BUF_SIZE /\ Forall (fun i => is_Some (slots !! i)) (sealed_idxs lsm) /\
  Forall (fun s => 0 <= mt_ref_count s < 2 ^ 32) slots.

Lemma search_exact lsm slots query k segs :
  knowhere_ok -> qsort_ok -> slots_ok lsm slots -> 0 < k ->
  0 <= growing_memtable_idx lsm < MEMTABLE_BUF_SIZE -> slot_ok slots true k (growing_memtable_idx lsm) ->
  Forall (slot_ok slots false k) (sealed_idxs lsm) ->
  (forall snap, vector_search_send snap = Ok tt) -> vector_search_get_result = Ok segs -> StronglySorted (nearer le) segs ->
  let cands := visible_at slots true query (growing_memtable_idx lsm) ++ (sealed_idxs lsm ≫= visible_at slots false query) in
  NoDup (id <$> cands) ->
  exists slots' out, search_lsm_index lsm slots query k = Ok (Returned slots' out) /\ dedup_ranks le k (cands ++ segs) out.
Proof.
  intros Hkn Hq (Hlen & Hf & Hb) Hk Hg Hgo Hso Hsend Hget Hsorted cands Hnd. unfold search_lsm_index.
  destruct (take_snapshot_refs lsm slots _ eq_refl Hg (slot_ok_some _ _ _ _ Hgo) Hf Hb) as (snap & -> & Egi & Esi). cbn [mbind res_bind].
  rewrite <-Egi in Hgo. rewrite <-Esi in Hso. unfold cands in *. rewrite <-Egi, <-Esi in *.
  destruct (search_body_ranks Hkn Hq query k slots snap (fun j => (if decide (gidx snap = j) then 1 else 0) + held_all (sidxs snap) j) segs
              Hk Hgo Hso (Hsend snap) Hget Hsorted Hnd) as (slots' & held & rel & out & -> & Ho).
  by exists slots', out.
Qed.

(** ** Properties *)

(** A search gives every reference back.  Whatever the sub-searches, the
    vector search process and the merge do, a search that returns, and a search
    that ends in an error, leave every memtable's reference count as it was. *)
Theorem search_keeps_references lsm slots query k o :
  slots_ok lsm slots -> search_lsm_index lsm slots query k = Ok o ->
  match o with Retry => True | Returned slots' _ => slots' = slots | Raised slots' => slots' = slots end.
Proof.
  intros (Hlen & Hf & Hb). unfold search_lsm_index.
  destruct (decide (0 <= growing_memtable_idx lsm < MEMTABLE_BUF_SIZE)) as [Hg|Hg].
  - assert (Hgs : is_Some (slots !! growing_memtable_idx lsm)) by (destruct (zlookup_lt_is_Some slots (growing_memtable_idx lsm)) as [s ?]; [lia|eauto]).
    destruct (take_snapshot_refs lsm slots _ eq_refl Hg Hgs Hf Hb) as (snap & -> & Egi & Esi). cbn [mbind res_bind].
    rewrite <-Egi, <-Esi. destruct (search_body query k _ snap) as [[[slots1 held] rel] r] eqn:Hbody.
    apply search_body_refs in Hbody as [Hok Herr]; [|by rewrite Egi|by rewrite Esi].
    destruct r as [l|[]]; [| |done..].
    + intros [= <-]. rewrite (Hok l eq_refl). by apply add_refs_zero.
    + rewrite (Herr _ eq_refl). cbn. intros [= <-]. by apply add_refs_zero.
  - unfold take_snapshot. destruct (Z.leb_spec 0 (growing_memtable_idx lsm)), (Z.ltb_spec (growing_memtable_idx lsm) MEMTABLE_BUF_SIZE);
      try lia; cbn; by intros [= <-].
Qed.


(** A sealed memtable with too few undeleted rows breaks the search: the
    padding entries of the brute-force result (id -1) are used as row numbers
    and read outside the array of tuple ids. *)
Theorem padding_is_read_as_a_row mt query k :
  knowhere_ok -> searchable mt -> 0 < k -> 0 < valid_num mt ->
  zlen (undeleted mt (valid_num mt)) < Z.min k (valid_num mt) ->
  search_sealed_memtable mt query k = Error OutOfBounds.
Proof.
  intros Hkn [Hsz (Hc & Ht & Hr) (Hd & Hd0 & Hblob) Hmax] Hk Hv Hfew.
  unfold search_sealed_memtable, search_memtable_common. fold (valid_num mt). destruct (Z.eqb_spec (valid_num mt) 0); [lia|].
  unfold brute_force, BruteForceSearch. assert (valid_num mt <= capacity mt) by (unfold valid_num; lia).
  destruct (Hkn (vector_blob mt) query (mt_bitmap mt) (valid_num mt) k (dim mt)) as (real & pad & -> & Hrk & Hpad & Hlen); [lia|lia|lia|nia|].
  cbn. destruct Hrk as (_ & Hl & _). unfold bf_cands in Hl. rewrite length_fmap in Hl. fold (undeleted mt (valid_num mt)) in Hl.
  assert (Hlr : (length real < Z.to_nat (Z.min k (valid_num mt)))%nat) by (unfold zlen in *; lia).
  rewrite take_app_ge by lia. destruct pad as [|p pad].
  { rewrite app_nil_r in Hlen. unfold zlen in *. lia. }
  apply Forall_cons in Hpad as [Hp _]. destruct (Z.to_nat (Z.min k (valid_num mt)) - length real)%nat as [|m] eqn:Em; [lia|].
  cbn [take]. clear -Hp. induction real as [|q real IH]; cbn [app to_tids].
  - unfold arr_get. rewrite Hp, zlookup_neg by lia. done.
  - unfold arr_get. destruct (tids mt !! id q); [|done]. cbn. by rewrite IH.
Qed.
End search.

(** ** Examples: integer distances and a concrete library *)
Module SearchExample.
Import Insert Example.

Definition dist (row query : list Z) : Z := foldr Z.add 0 (zip_with (fun a b => Z.abs (a - b)) row query).
Definition sort : list (DistancePair Z) -> list (DistancePair Z) := merge_sort (nearer Z.le).
Definition search (vectors query bitmap : list Z) (count k dim : Z) : res (option (list (DistancePair Z))) :=
  let real := take (Z.to_nat k) (sort (bf_cands dist vectors query bitmap count dim)) in
  Ok (Some (real ++ replicate (Z.to_nat k - length real) (mkPair 0 (-1)))).

Lemma sort_ok : qsort_ok Z.le sort.
Proof.
  intros l. split; [apply merge_sort_Permutation|]. apply StronglySorted_merge_sort; [exact (nearer_trans Z.le)|exact (nearer_total Z.le)].
Qed.

Lemma search_ok : knowhere_ok Z.le dist search.
Proof.
  intros v q b c k d Hc Hk Hd Hv. do 2 eexists. split; [reflexivity|]. destruct (sort_ok (bf_cands dist v q b c d)) as [Hp Hs].
  split; [by apply ranks_sorted_perm|]. split; [by apply Forall_replicate|].
  unfold zlen. rewrite length_app, length_replicate, length_take. lia.
Qed.

(** Slot 0 is the growing memtable (three rows), slot 1 a sealed one (two). *)
Definition slots : list MemtableBufferSlot :=
  [mkBufferSlot 1 (st_mt final3); mkBufferSlot 1 (st_mt final)] ++ replicate 6 (mkBufferSlot 0 slot0).
Definition lsm : LSMIndexData := mkLSM 16384 2 4 9 0 8 [1; 0; 0; 0] 1.
Definition segments : list (DistancePair Z) := [mkPair 3 11; mkPair 9 40].

Lemma final_searchable : searchable (st_mt final).
Proof.
  split; [vm_compute; discriminate|vm_compute; intuition discriminate|vm_compute; intuition discriminate|].
  right. split; [vm_compute; intuition discriminate|]. intros j Hj. change (0 <= j <= 0) in Hj.
  replace j with 0 by lia. vm_compute. reflexivity.
Qed.

Lemma final3_searchable : searchable (st_mt final3).
Proof.
  split; [vm_compute; discriminate|vm_compute; intuition discriminate|vm_compute; intuition discriminate|].
  right. split; [vm_compute; intuition discriminate|]. intros j Hj. change (0 <= j <= 0) in Hj.
  replace j with 0 by lia. vm_compute. reflexivity.
Qed.

(** The shared slots as above, with the sealed memtable under other ids. *)
Definition sealed_mt : ConcurrentMemTableData := (st_mt final) <| tids := [21; 22; 0] |>.
Definition slots2 : list MemtableBufferSlot := <[1 := mkBufferSlot 1 sealed_mt]> slots.

Lemma searchable_tids m l : searchable m -> zlen l = zlen (tids m) -> searchable (m <| tids := l |>).
Proof. destruct m. intros [S1 S2 S3 S4] Hl. split; cbn in *; [exact S1|lia|exact S3|exact S4]. Qed.

Lemma sealed_searchable : searchable sealed_mt.
Proof. apply searchable_tids; [exact final_searchable|vm_compute; reflexivity]. Qed.

Lemma slots2_ok : slots_ok lsm slots2.
Proof.
  split; [vm_compute; reflexivity|]. split.
  - change (sealed_idxs lsm) with [1]. constructor; [|constructor]. exists (mkBufferSlot 1 sealed_mt). vm_compute. reflexivity.
  - apply (bool_decide_unpack _). vm_compute. exact I.
Qed.

(** Three backends on two rows: the first has reserved row 0 and not yet
    written it when the third finds the memtable full and seals it. *)
Definition late_sched : list (nat * option (Z * list Z)) :=
  begin 0 11 5 ++ begin 1 12 6 ++ again 4 1 ++ begin 2 13 7 ++ again 1 2.
Definition late : state := match execs (init (mt 2) 3) late_sched with Some s => s | None => init (mt 2) 3 end.

Lemma reach_late : rtc step (init (mt 2) 3) late.
Proof. apply (execs_steps late_sched). vm_compute. reflexivity. Qed.

Definition one_deleted : ConcurrentMemTableData := (st_mt final) <| mt_bitmap := [1] |>.

Lemma one_deleted_searchable : searchable one_deleted.
Proof.
  assert (forall m l, searchable m -> searchable (m <| mt_bitmap := l |>)) as H; [|apply H, final_searchable].
  intros m l [S1 S2 S3 S4]. destruct m. by split.
Qed.
End SearchExample.

Lemma search_keeps_references_witness :
  exists slots', search_lsm_index Z.le SearchExample.dist SearchExample.sort SearchExample.search
      (fun _ => Ok tt) (Error ElogError) SearchExample.lsm SearchExample.slots2 [6; 6] 2 = Ok (Raised slots') /\
    slots' = SearchExample.slots2.
Proof.
  assert (H : exists slots', search_lsm_index Z.le SearchExample.dist SearchExample.sort SearchExample.search
      (fun _ => Ok tt) (Error ElogError) SearchExample.lsm SearchExample.slots2 [6; 6] 2 = Ok (Raised slots'))
    by (eexists; vm_compute; reflexivity).
  destruct H as [slots' Hr]. exists slots'. split; [exact Hr|].
  apply (search_keeps_references _ _ _ _ _ _ _ _ _ _ _ SearchExample.slots2_ok Hr).
Defined.


Lemma padding_is_read_as_a_row_witness :
  search_sealed_memtable Z.le SearchExample.dist SearchExample.sort SearchExample.search SearchExample.one_deleted [6; 6] 2 = Error OutOfBounds.
Proof.
  apply padding_is_read_as_a_row; [exact SearchExample.search_ok|exact SearchExample.one_deleted_searchable|lia|vm_compute; reflexivity..].
Defined.

(** A sealed memtable is searched before its last rows are published.
    There is an interleaving of three inserts after which the rotation takes
    the memtable and queues it for searches although a reserved row has not
    been written, and the search of the sealed memtable returns a tuple id
    nobody inserted. *)
Theorem sealed_search_reads_unpublished_row :
  exists s out p,
    rtc Insert.step (Insert.init (Example.mt 2) 3) s /\ Insert.wait_for_publish (Insert.st_mt s) = Ok false /\
    Buffer.begin_rotation SearchExample.lsm [mkBufferSlot 1 (Insert.st_mt s)] true =
      Ok (Buffer.Claimed 0 (SearchExample.lsm <| growing_memtable_id := 7 |> <| growing_memtable_idx := MT_IDX_ROTATING |>)) /\
    search_sealed_memtable Z.le SearchExample.dist SearchExample.sort SearchExample.search (Insert.st_mt s) [1; 1] 1 = Ok out /\
    p ∈ out /\ forall i tid row, Insert.st_log s !! i = Some (tid, row) -> id p <> tid.
Proof.
  exists SearchExample.late, [mkPair 2 0], (mkPair 2 0). split_and!.
  - exact SearchExample.reach_late.
  - vm_compute. reflexivity.
  - vm_compute. reflexivity.
  - vm_compute. reflexivity.
  - left.
  - intros i tid row Hl. assert (Hlog : Insert.st_log SearchExample.late = {[0 := (11, Example.row 5); 1 := (12, Example.row 6)]})
      by (vm_compute; reflexivity).
    rewrite Hlog in Hl. rewrite lookup_insert_Some, lookup_singleton_Some in Hl. cbn.
    destruct Hl as [[_ E]|[_ [_ E]]]; apply (f_equal fst) in E; cbn in E; lia.
Qed.
