(* ===== verification/VacuumRedo.v ===== *)
(** Replaying vacuum records on a standby (segment_vacuum_redo.c): deletions
    are applied to the memtable of their segment id, if there is one, and to
    the deletion bitmap of the segment file that covers it.

    The exchange with the vector index worker is an argument: for every round,
    what it answers and what the directory looks like afterwards (the fetcher
    may deliver files in the meantime). *)

From S2P Require Import Prelude Bitmap SegmentPool FileNames SegmentFiles BitmapVersions Tombstones Memtable.

Record xl_dpv_vacuum_entry := mkEntry { sid_local_idx : Z; entry_tid : Z }.
(** [entry_count] is the length of the entries. *)
Record xl_dpv_vacuum_tombstones := mkTombstones { hdr_sid : Z; owner_version : Z; is_memtable_owner : Z }.

Module Redo.

(** ** The memtable *)

(** The walk over the rows of the memtable in insertion order. *)
Fixpoint memtable_walk (fuel : nat) (tids_ : list Z) (entries : list xl_dpv_vacuum_entry) (j cap w : Z) (bm : list Z)
    : res (list Z) :=
  match fuel with
  | O => Error OutOfFuel
  | S fuel =>
      if (j <? cap) && (w <? zlen entries) then
        t ← arr_get tids_ j;
        e ← arr_get entries w;
        if t =? entry_tid e then memtable_walk fuel tids_ entries (j + 1) cap (w + 1) (SET_SLOT bm j)
        else memtable_walk fuel tids_ entries (j + 1) cap w bm
      else Ok bm
  end.

Definition apply_entries_to_memtable_locked (mt : ConcurrentMemTableData) (hdr : xl_dpv_vacuum_tombstones)
    (entries : list xl_dpv_vacuum_entry) : res ConcurrentMemTableData :=
  if is_memtable_owner hdr =? 1 then
    Ok (mt <| mt_bitmap ::= fun bm =>
          foldl (fun bm e => if sid_local_idx e <? capacity mt then SET_SLOT bm (sid_local_idx e) else bm) bm entries |>)
  else
    let cur := current_size mt in
    let cap := if capacity mt <? cur then capacity mt else cur in
    bm ← memtable_walk (S (Z.to_nat cap)) (tids mt) entries 0 cap 0 (mt_bitmap mt);
    Ok (mt <| mt_bitmap := bm |>).

(** The slot of the sealed memtable of [sid], the first of the queue. *)
Fixpoint find_sealed (slots : list MemtableBufferSlot) (idxs : list Z) (sid : Z) : res (option Z) :=
  match idxs with
  | [] => Ok None
  | i :: idxs =>
      if i <? 0 then find_sealed slots idxs sid
      else s ← arr_get slots i;
           if memtable_id (slot_mt s) =? sid then Ok (Some i) else find_sealed slots idxs sid
  end.

Definition find_memtable (lsm : LSMIndexData) (slots : list MemtableBufferSlot) (sid : Z) : res (option Z) :=
  target ← find_sealed slots (take (Z.to_nat (memtable_count lsm)) (memtable_idxs lsm)) sid;
  match target with
  | Some i => Ok (Some i)
  | None =>
      let g := growing_memtable_idx lsm in
      if (g =? MT_IDX_INVALID) || (g =? MT_IDX_ROTATING) then Ok None
      else s ← arr_get slots g; Ok (if memtable_id (slot_mt s) =? sid then Some g else None)
  end.

(** Phase B reads the id of the memtable again before applying. *)
Definition apply_to_memtable_for_sid (lsm : LSMIndexData) (slots : list MemtableBufferSlot) (sid : Z)
    (hdr : xl_dpv_vacuum_tombstones) (entries : list xl_dpv_vacuum_entry) : res (bool * list MemtableBufferSlot) :=
  target ← find_memtable lsm slots sid;
  match target with
  | None => Ok (false, slots)
  | Some i =>
      s ← arr_get slots i;
      if negb (memtable_id (slot_mt s) =? sid) then Ok (false, slots)
      else mt ← apply_entries_to_memtable_locked (slot_mt s) hdr entries;
           Ok (true, <[i := s <| slot_mt := mt |>]> slots)
  end.

(** ** The segment file *)

Definition find_disk_segment_for_sid (d : directory) (sid : Z) : option Scan.SegmentFileInfo :=
  head (filter (fun f => Scan.fi_start_sid f <= sid /\ sid <= Scan.fi_end_sid f)
          (Scan.scan_segment_metadata_files (readdir d) (Z.to_nat MAX_SEGMENTS_COUNT))).

(** Binary search in the offset table; -1 when it does not find [sid]. *)
Fixpoint offset_search (fuel : nat) (offs : list SegmentOffsetRange) (lo hi sid : Z) : res Z :=
  match fuel with
  | O => Error OutOfFuel
  | S fuel =>
      if lo <=? hi then
        let mid := lo + Z.shiftr (hi - lo) 1 in
        o ← arr_get offs mid;
        if off_sid o =? sid then Ok mid
        else if off_sid o <? sid then offset_search fuel offs (mid + 1) hi sid
        else offset_search fuel offs lo (mid - 1) sid
      else Ok (-1)
  end.

Definition offset_index_for_sid (offs : list SegmentOffsetRange) (count sid : Z) : res Z :=
  offset_search (S (Z.to_nat count)) offs 0 (count - 1) sid.

(** The rows named by their position in the segment id. *)
Definition mark_entry (start_off end_off : Z) (st : list Z * Z) (e : xl_dpv_vacuum_entry) : list Z * Z :=
  let m := start_off + sid_local_idx e in
  if m <? end_off then Merge.mark_row st m else st.

(** The bitmap and the number of rows newly marked. *)
Definition apply_marks (hdr : xl_dpv_vacuum_tombstones) (entries : list xl_dpv_vacuum_entry) (disk_version start_off end_off : Z)
    (bitmap mapping : list Z) : res (list Z * Z) :=
  if (disk_version =? owner_version hdr) && (is_memtable_owner hdr =? 0) then
    Ok (foldl (mark_entry start_off end_off) (bitmap, 0) entries)
  else Merge.tid_walk (Merge.range_fuel start_off end_off) mapping (entry_tid <$> entries) start_off end_off 0 (bitmap, 0).

(** One round up to the message to the worker: the writes to do and the segment
    they are for, or nothing ([return false]).  The buffers the loaders return
    are never null. *)
Definition redo_round (max_file : Z) (d : directory) (hdr : xl_dpv_vacuum_tombstones) (entries : list xl_dpv_vacuum_entry)
    : res (option (list file_op)) :=
  match find_disk_segment_for_sid d (hdr_sid hdr) with
  | None => Ok None
  | Some (Scan.mkFileInfo disk_start disk_end disk_version) =>
      match SegFile.read_lsm_segment_metadata d disk_start disk_end disk_version with
      | None => Ok None
      | Some (_, _, valid_rows, _) =>
          offs ← SegFile.load_offset_file d disk_start disk_end disk_version;
          oi ← offset_index_for_sid offs (u32 (disk_end - disk_start + 1)) (hdr_sid hdr);
          if oi <? 0 then Ok None
          else
            o ← arr_get offs oi;
            loaded ← SegFile.load_bitmap_file d disk_start disk_end disk_version;
            mapping ← SegFile.load_mapping_file d disk_start disk_end disk_version;
            st ← apply_marks hdr entries disk_version (start_offset o) (end_offset o) loaded.1 mapping;
            let latest_sub := Scan.find_latest_bitmap_subversion (readdir d) disk_start disk_end disk_version in
            let use_subversion := if latest_sub =? UINT32_MAX then 0 else u32 (latest_sub + 1) in
            let bitmap_size := GET_BITMAP_SIZE valid_rows in
            if zlen st.1 <? bitmap_size then Error OutOfBounds
            else
              ops ← SegFile.write_bitmap_file_with_subversion max_file disk_start disk_end disk_version use_subversion
                      (take (Z.to_nat bitmap_size) st.1) (u32 (default 0 loaded.2 + st.2));
              Ok (Some ops)
      end
  end.

Definition MAX_VACUUM_REDO_RETRIES : nat := 4.

Section worker.
(** Status and directory after the [n]-th message. *)
Context (worker : nat -> directory -> Z * directory).

Fixpoint redo_loop (attempts_left attempt : nat) (max_file : Z) (d : directory) (hdr : xl_dpv_vacuum_tombstones)
    (entries : list xl_dpv_vacuum_entry) : res (bool * directory) :=
  match attempts_left with
  | O => Ok (true, d)
  | S attempts_left =>
      round ← redo_round max_file d hdr entries;
      match round with
      | None => Ok (false, d)
      | Some ops =>
          let '(worker_status, d) := worker attempt (run_ops d ops) in
          if worker_status =? 0 then Ok (true, d)
          else if worker_status =? 1 then redo_loop attempts_left (S attempt) max_file d hdr entries
          else Ok (true, d)
      end
  end.

Definition apply_to_disk_file_for_sid := redo_loop MAX_VACUUM_REDO_RETRIES 0.

(** [lsm] is what [lookup_lsm_index_idx] found. *)
Definition dpv_apply_vacuum_tombstones (max_file : Z) (lsm : option LSMIndexData) (slots : list MemtableBufferSlot) (d : directory)
    (hdr : xl_dpv_vacuum_tombstones) (entries : list xl_dpv_vacuum_entry) : res (list MemtableBufferSlot * directory) :=
  match lsm with
  | None => Ok (slots, d)
  | Some lsm =>
      '(mem_handled, slots) ← apply_to_memtable_for_sid lsm slots (hdr_sid hdr) hdr entries;
      '(file_handled, d) ← apply_to_disk_file_for_sid max_file d hdr entries;
      if negb mem_handled && negb file_handled then Error ElogError else Ok (slots, d)
  end.
End worker.

End Redo.

(** ** The binary search *)

(** Offset table entries in increasing order of their segment ids. *)
Definition sids_increasing (offs : list SegmentOffsetRange) : Prop :=
  forall i j o o', offs !! i = Some o -> offs !! j = Some o' -> i < j -> off_sid o < off_sid o'.

Lemma offset_search_spec fuel offs lo hi sid :
  sids_increasing offs -> 0 <= lo -> hi < zlen offs -> (Z.to_nat (hi + 1 - lo) < fuel)%nat ->
  (forall i o, offs !! i = Some o -> i < lo \/ hi < i -> off_sid o <> sid) ->
  exists r, Redo.offset_search fuel offs lo hi sid = Ok r /\
    ((r = -1 /\ forall o, o ∈ offs -> off_sid o <> sid) \/ (0 <= r /\ exists o, offs !! r = Some o /\ off_sid o = sid)).
Proof.
  intros Hinc. revert lo hi; induction fuel as [|fuel IH]; intros lo hi Hlo Hhi Hf Hout; [lia|].
  cbn [Redo.offset_search]. destruct (Z.leb_spec lo hi) as [Hle|Hgt].
  - rewrite Z.shiftr_div_pow2 by lia. change (2 ^ 1) with 2. set (mid := lo + (hi - lo) / 2).
    assert (Hmid : lo <= mid <= hi).
    { subst mid. pose proof (Z.div_pos (hi - lo) 2). pose proof (Z.div_le_upper_bound (hi - lo) 2 (hi - lo)). lia. }
    destruct (zlookup_lt_is_Some offs mid) as [o Ho]; [lia|]. rewrite (proj2 (arr_get_Ok _ _ _) Ho). cbn [mbind res_bind].
    destruct (Z.eqb_spec (off_sid o) sid) as [He|Hne]; [exists mid; split; [done|right; split; [lia|eauto]]|].
    destruct (Z.ltb_spec (off_sid o) sid) as [Hlt|Hge]; apply IH; try lia; intros i o' Hi Hc.
    + destruct (decide (i <= mid)); [|apply (Hout i o' Hi); lia]. destruct (decide (i = mid)) as [->|]; [congruence|].
      pose proof (Hinc i mid o' o Hi Ho ltac:(lia)). lia.
    + destruct (decide (mid <= i)); [|apply (Hout i o' Hi); lia]. destruct (decide (i = mid)) as [->|]; [congruence|].
      pose proof (Hinc mid i o o' Ho Hi ltac:(lia)). lia.
  - exists (-1). split; [done|]. left. split; [done|]. intros o Ho. apply elem_of_zlookup in Ho as [i Hi].
    apply (Hout i o Hi). lia.
Qed.

Lemma sids_increasing_NoDup offs : sids_increasing offs -> NoDup (off_sid <$> offs).
Proof.
  intros Hinc. apply NoDup_alt. intros i j x Hi Hj. rewrite !list_lookup_fmap in Hi, Hj.
  destruct (offs !! i) as [o|] eqn:Ei; [|done]. destruct (offs !! j) as [o'|] eqn:Ej; [|done].
  cbn in Hi, Hj. injection Hi as <-. injection Hj as Hj. rewrite <-zlookup_nat in Ei, Ej.
  destruct (decide (i < j)%nat) as [Hlt|]; [pose proof (Hinc _ _ _ _ Ei Ej ltac:(lia)); lia|].
  destruct (decide (j < i)%nat) as [Hlt|]; [pose proof (Hinc _ _ _ _ Ej Ei ltac:(lia)); lia|]. lia.
Qed.

(** ** What a round marks *)

(** The record fits the segment: rows named by position hold the tuple ids they
    come with; rows named by tuple id come in the order of the segment. *)
Definition entries_fit (hdr : xl_dpv_vacuum_tombstones) (entries : list xl_dpv_vacuum_entry) (v : Z) (map : list Z)
    (o : SegmentOffsetRange) : Prop :=
  NoDup (sid_rows map o) /\
  if (v =? owner_version hdr) && (is_memtable_owner hdr =? 0) then
    forall e, e ∈ entries -> 0 <= sid_local_idx e /\ start_offset o + sid_local_idx e < end_offset o /\
      map !! (start_offset o + sid_local_idx e) = Some (entry_tid e)
  else sublist (entry_tid <$> entries) (sid_rows map o).

Lemma sid_rows_position map o (q : Z) x :
  0 <= start_offset o -> start_offset o <= q < end_offset o -> map !! q = Some x ->
  sid_rows map o !! Z.to_nat (q - start_offset o) = Some x.
Proof.
  intros H0 Hq Hx. unfold sid_rows. apply slice_lookup; [lia|]. replace (start_offset o + _) with q by lia. split; [done|lia].
Qed.

Lemma apply_marks_spec hdr entries v map bm n o :
  0 <= start_offset o -> end_offset o <= n -> zlen map = n -> entries_fit hdr entries v map o ->
  exists rows, Redo.apply_marks hdr entries v (start_offset o) (end_offset o) bm map = Ok (mark_rows (bm, 0) rows) /\
    forall q, q ∈ rows <-> start_offset o <= q < end_offset o /\ exists x, map !! q = Some x /\ x ∈ entry_tid <$> entries.
Proof.
  intros Hs He Hm [Hnd Hfit]. unfold Redo.apply_marks. destruct ((v =? owner_version hdr) && (is_memtable_owner hdr =? 0)).
  - exists ((fun e => start_offset o + sid_local_idx e) <$> entries). split.
    + f_equal. generalize (bm, 0). induction entries as [|e entries IH]; intros st; [done|]. cbn [foldl fmap list_fmap mark_rows].
      destruct (Hfit e ltac:(left)) as (_ & Hlt & _). unfold Redo.mark_entry at 2.
      destruct (Z.ltb_spec (start_offset o + sid_local_idx e) (end_offset o)); [|lia]. apply IH. intros e' He'. apply Hfit. by right.
    + intros q. rewrite list_elem_of_fmap. split.
      * intros (e & -> & Hin). destruct (Hfit e Hin) as (H0 & H1 & H2). split; [lia|]. exists (entry_tid e). split; [done|].
        by apply list_elem_of_fmap_2.
      * intros (Hq & x & Hx & (e & -> & Hin)%list_elem_of_fmap). exists e. split; [|done]. destruct (Hfit e Hin) as (H0 & H1 & H2).
        pose proof (sid_rows_position _ _ _ _ Hs Hq Hx) as P1. pose proof (sid_rows_position map o (start_offset o + sid_local_idx e) _ Hs ltac:(lia) H2) as P2.
        pose proof (NoDup_lookup _ _ _ _ Hnd P1 P2). lia.
  - exists (match_positions (start_offset o) (sid_rows map o) (entry_tid <$> entries)). split.
    + rewrite tid_walk_spec by (unfold Merge.range_fuel; lia). by rewrite drop_0.
    + intros q. split.
      * intros Hq. pose proof (match_positions_range _ _ _ _ Hq) as Hr.
        destruct (lookup_lt_is_Some_2 (sid_rows map o) (Z.to_nat (q - start_offset o))) as [x Hx]; [unfold zlen in Hr; lia|].
        pose proof Hx as Hx'. apply slice_lookup in Hx' as [Hx' Hlt]; [|lia].
        replace (start_offset o + Z.of_nat (Z.to_nat (q - start_offset o))) with q in * by lia.
        split; [lia|]. exists x. split; [done|]. eapply (match_positions_sound (start_offset o) _ _ _ _ Hnd Hx).
        by replace (start_offset o + Z.of_nat (Z.to_nat (q - start_offset o))) with q by lia.
      * intros (Hq & x & Hx & Hin). replace q with (start_offset o + Z.of_nat (Z.to_nat (q - start_offset o))) by lia.
        eapply match_positions_complete; [done|done|by apply sid_rows_position|done].
Qed.

(** Some row of the segment id the record names. *)
Definition names_row (hdr : xl_dpv_vacuum_tombstones) (entries : list xl_dpv_vacuum_entry) (map : list Z)
    (offs : list SegmentOffsetRange) (q : Z) : Prop :=
  exists x, row_of map offs (hdr_sid hdr) q x /\ x ∈ entry_tid <$> entries.

#[global] Instance names_row_dec hdr entries map offs q : Decision (names_row hdr entries map offs q).
Proof.
  destruct (map !! q) as [x|] eqn:Hx.
  - destruct (decide (x ∈ entry_tid <$> entries /\ Exists (fun o => off_sid o = hdr_sid hdr /\ start_offset o <= q < end_offset o) offs)) as [[H1 H2]|Hn].
    + left. exists x. split; [|done]. apply Exists_exists in H2 as (o & Ho & Hs & Hr). by exists o.
    + right. intros (y & (o & Ho & Hs & Hr & Hy) & Hin). apply Hn. assert (y = x) as -> by congruence. split; [done|].
      apply Exists_exists. eauto.
  - right. intros (y & (o & _ & _ & _ & Hy) & _). congruence.
Defined.

(** The state of the segment a record is replayed on. *)
Record replayable (d : directory) (hdr : xl_dpv_vacuum_tombstones) (entries : list xl_dpv_vacuum_entry)
    (a b v n : Z) (map bm : list Z) (offs : list SegmentOffsetRange) : Prop := {
  rp_disk : on_disk d a b v n map bm offs;
  rp_found : Redo.find_disk_segment_for_sid d (hdr_sid hdr) = Some (Scan.mkFileInfo a b v);
  rp_ids : zlen offs = b - a + 1 /\ zlen offs < 2 ^ 32;
  rp_sorted : sids_increasing offs;
  rp_ranges : Forall (fun o => 0 <= start_offset o /\ end_offset o <= n) offs;
  rp_entry : exists o, o ∈ offs /\ off_sid o = hdr_sid hdr /\ entries_fit hdr entries v map o;
  rp_subs : subversions_small d a b v }.

Lemma redo_round_spec max_file d hdr entries a b v n map bm offs :
  4 < max_file -> replayable d hdr entries a b v n map bm offs ->
  exists ops bm', Redo.redo_round max_file d hdr entries = Ok (Some ops) /\
    SegFile.write_bitmap_file_with_subversion max_file a b v (next_subversion d a b v) bm' (count_set bm' n) = Ok ops /\
    zlen bm' = zlen bm /\
    forall q, 0 <= q -> IS_SLOT_SET bm' q = IS_SLOT_SET bm q || bool_decide (names_row hdr entries map offs q).
Proof.
  intros Hmax [Hdisk Hfind [Hids Hids32] Hsorted Hranges (o & Ho & Hsid & Hfit) Hsmall].
  pose proof Hdisk as [(Ha & Hb & Hab & Hv & Hv') [t Hmeta] Hmap Hoffs Hbm (Hn & Hlm & Hlb)].
  pose proof (Forall_forall (fun o => 0 <= start_offset o /\ end_offset o <= n) offs) as [HF _].
  destruct (HF Hranges o Ho) as [Hr1 Hr2].
  destruct (apply_marks_spec hdr entries v map bm n o Hr1 Hr2 Hlm Hfit) as (rows & Hmarks & Hrows).
  destruct (mark_rows_spec n (bm, 0) rows) as (Hz & Hbits & Hcnt).
  { unfold covers. cbn. lia. }
  { intros p Hp. apply Hrows in Hp as [Hp _]. lia. }
  cbn [fst snd] in *. set (bm' := (mark_rows (bm, 0) rows).1) in *.
  assert (Hspec : forall q, 0 <= q -> IS_SLOT_SET bm' q = IS_SLOT_SET bm q || bool_decide (names_row hdr entries map offs q)).
  { intros q Hq. rewrite Hbits by done. f_equal. apply bool_decide_ext. rewrite Hrows. split.
    - intros (Hq' & x & Hx & Hin). exists x. split; [|done]. by exists o.
    - intros (x & (o' & Ho' & Hs' & Hq' & Hx) & Hin).
      assert (o' = o) as -> by (eapply same_sid; [by apply sids_increasing_NoDup|done|done|congruence]). eauto. }
  pose proof (count_set_bounds bm n). pose proof (count_set_bounds bm' n).
  destruct (on_disk_update max_file d a b v n map bm offs bm' Hmax Hdisk Hsmall Hz) as (ops & Hops & _).
  exists ops, bm'. split; [|done]. unfold Redo.redo_round. rewrite Hfind, Hmeta, Hoffs. cbn [mbind res_bind].
  rewrite (u32_small (b - a + 1)) by lia. rewrite <-Hids.
  destruct (offset_search_spec (S (Z.to_nat (zlen offs))) offs 0 (zlen offs - 1) (hdr_sid hdr) Hsorted) as (r & Hr & Hcase);
    [lia|lia|lia|intros i o' Hi; apply zlookup_lt_Some in Hi; lia|].
  unfold Redo.offset_index_for_sid. rewrite Hr. cbn [mbind res_bind].
  destruct Hcase as [[-> Hnone]|(Hr0 & o' & Ho' & Hs')]; [by destruct (Hnone o Ho)|].
  assert (o' = o) as -> by (eapply same_sid; [by apply sids_increasing_NoDup|apply elem_of_zlookup; eauto|done|congruence]).
  destruct (Z.ltb_spec r 0); [lia|]. rewrite (proj2 (arr_get_Ok _ _ _) Ho'). cbn [mbind res_bind]. rewrite Hbm. cbn [mbind res_bind].
  rewrite Hmap. cbn [mbind res_bind fst snd]. rewrite Hmarks. cbn [mbind res_bind]. fold (next_subversion d a b v). fold bm'.
  destruct (Z.ltb_spec (zlen bm') (GET_BITMAP_SIZE n)); [lia|].
  rewrite take_ge by (unfold zlen in *; lia). cbn [default from_option].
  change (id (count_set bm n)) with (count_set bm n).
  replace (count_set bm n + (mark_rows (bm, 0) rows).2) with (count_set bm' n) by lia.
  rewrite (u32_small (count_set bm' n)) by lia. rewrite Hops. done.
Qed.

(** After one round the same record can be replayed again. *)
Lemma redo_round_again max_file d hdr entries a b v n map bm offs ops bm' :
  4 < max_file -> replayable d hdr entries a b v n map bm offs -> fits (readdir d) ->
  next_subversion d a b v + 1 < UINT32_MAX -> zlen bm' = zlen bm ->
  SegFile.write_bitmap_file_with_subversion max_file a b v (next_subversion d a b v) bm' (count_set bm' n) = Ok ops ->
  replayable (run_ops d ops) hdr entries a b v n map bm' offs.
Proof.
  intros Hmax [Hdisk Hfind Hids Hsorted Hranges Hentry Hsmall] Hfits Hroom Hz Hops.
  destruct (on_disk_update max_file d a b v n map bm offs bm' Hmax Hdisk Hsmall Hz) as (ops' & Hops' & Hdisk' & Hle & Hmeta & _).
  rewrite Hops in Hops'. injection Hops' as <-. split; try done.
  - unfold Redo.find_disk_segment_for_sid. by rewrite (scan_same d) by done.
  - intros e w He Hw. specialize (Hle e w He Hw). lia.
Qed.

(** The segment branch, when the worker finds the segment in its pool. *)
Lemma redo_disk worker max_file d hdr entries a b v n map bm offs :
  4 < max_file -> replayable d hdr entries a b v n map bm offs -> (forall d, worker 0%nat d = (0, d)) ->
  exists ops bm', Redo.redo_round max_file d hdr entries = Ok (Some ops) /\
    Redo.apply_to_disk_file_for_sid worker max_file d hdr entries = Ok (true, run_ops d ops) /\
    on_disk (run_ops d ops) a b v n map bm' offs /\ zlen bm' = zlen bm /\
    SegFile.write_bitmap_file_with_subversion max_file a b v (next_subversion d a b v) bm' (count_set bm' n) = Ok ops /\
    forall q, 0 <= q -> IS_SLOT_SET bm' q = IS_SLOT_SET bm q || bool_decide (names_row hdr entries map offs q).
Proof.
  intros Hmax Hrp Hworker. destruct (redo_round_spec max_file d hdr entries a b v n map bm offs Hmax Hrp) as (ops & bm' & Hround & Hops & Hz & Hbits).
  destruct Hrp as [Hdisk Hfind Hids Hsorted Hranges Hentry Hsmall].
  destruct (on_disk_update max_file d a b v n map bm offs bm' Hmax Hdisk Hsmall Hz) as (ops' & Hops' & Hdisk' & _).
  rewrite Hops in Hops'. injection Hops' as <-. exists ops, bm'. split; [done|]. split; [|done].
  unfold Redo.apply_to_disk_file_for_sid, Redo.MAX_VACUUM_REDO_RETRIES. cbn [Redo.redo_loop]. rewrite Hround. cbn [mbind res_bind].
  by rewrite Hworker.
Qed.

(** ** Properties *)

(** Replaying a vacuum record marks exactly the named rows.  On a segment
    whose files are in order, whose offset table is sorted, and whose worker
    acknowledges, the record sets the deletion bits of the rows that hold its
    tuple ids under its segment id and no others; loading the segment afterwards
    gives the new bitmap with the right count and everything else as before. *)
Theorem vacuum_redo_marks_named_rows worker max_file d hdr entries a b v n map bm offs :
  4 < max_file -> replayable d hdr entries a b v n map bm offs -> (forall d, worker 0%nat d = (0, d)) ->
  exists d' bm', Redo.apply_to_disk_file_for_sid worker max_file d hdr entries = Ok (true, d') /\
    on_disk d' a b v n map bm' offs /\
    forall q, 0 <= q -> IS_SLOT_SET bm' q = IS_SLOT_SET bm q || bool_decide (names_row hdr entries map offs q).
Proof.
  intros Hmax Hrp Hw. destruct (redo_disk worker max_file d hdr entries a b v n map bm offs Hmax Hrp Hw)
    as (ops & bm' & _ & Hr & Hd & _ & _ & Hbits). by exists (run_ops d ops), bm'.
Qed.

(** Replaying a record twice is the same as replaying it once.  Recovery
    may replay from an earlier point; the second replay changes no bit and no
    count. *)
Theorem vacuum_redo_idempotent worker max_file d hdr entries a b v n map bm offs :
  4 < max_file -> replayable d hdr entries a b v n map bm offs -> (forall d, worker 0%nat d = (0, d)) ->
  fits (readdir d) -> next_subversion d a b v + 1 < UINT32_MAX ->
  exists d1 d2 bm1 bm2, Redo.apply_to_disk_file_for_sid worker max_file d hdr entries = Ok (true, d1) /\
    Redo.apply_to_disk_file_for_sid worker max_file d1 hdr entries = Ok (true, d2) /\
    on_disk d1 a b v n map bm1 offs /\ on_disk d2 a b v n map bm2 offs /\
    count_set bm2 n = count_set bm1 n /\ forall q, 0 <= q -> IS_SLOT_SET bm2 q = IS_SLOT_SET bm1 q.
Proof.
  intros Hmax Hrp Hw Hfits Hroom.
  destruct (redo_disk worker max_file d hdr entries a b v n map bm offs Hmax Hrp Hw) as (ops & bm1 & _ & Hr1 & Hd1 & Hz1 & Hops & Hb1).
  pose proof (redo_round_again max_file d hdr entries a b v n map bm offs ops bm1 Hmax Hrp Hfits Hroom Hz1 Hops) as Hrp2.
  destruct (redo_disk worker max_file _ hdr entries a b v n map bm1 offs Hmax Hrp2 Hw) as (ops2 & bm2 & _ & Hr2 & Hd2 & Hz2 & _ & Hb2).
  exists (run_ops d ops), (run_ops (run_ops d ops) ops2), bm1, bm2. do 4 (split; [done|]).
  assert (Hq : forall q, 0 <= q -> IS_SLOT_SET bm2 q = IS_SLOT_SET bm1 q).
  { intros q Hq. rewrite Hb2, Hb1 by done. by rewrite <-orb_assoc, orb_diag. }
  split; [|done]. apply count_set_ext. intros i Hi. apply Hq. lia.
Qed.

(** On a sorted offset table the binary search of the redo agrees with the
    linear scan the adoption uses, and it always ends. *)
Theorem offset_search_agrees_with_scan offs sid :
  sids_increasing offs ->
  Redo.offset_index_for_sid offs (zlen offs) sid = Merge.offset_linear (Merge.table_fuel (zlen offs)) offs (zlen offs) 0 sid.
Proof.
  intros Hinc. pose proof (zlen_nonneg offs). destruct (offset_search_spec (S (Z.to_nat (zlen offs))) offs 0 (zlen offs - 1) sid Hinc) as (r & Hr & Hcase);
    [lia|lia|lia|intros i o' Hi; apply zlookup_lt_Some in Hi; lia|].
  unfold Redo.offset_index_for_sid. rewrite Hr.
  destruct (offset_linear_spec offs sid 0 (Merge.table_fuel (zlen offs))) as (r' & -> & Hcase').
  { lia. } { unfold Merge.table_fuel. lia. }
  f_equal. destruct Hcase as [[-> Hn]|(H0 & o & Ho & Hs)], Hcase' as [[-> Hn']|(o' & H0' & Ho' & Hs')]; [done| | |].
  - destruct (Hn o'); [|done]. apply elem_of_zlookup. eauto.
  - exfalso. apply (Hn' r o); [|done|done]. apply zlookup_lt_Some in Ho. lia.
  - pose proof (sids_increasing_NoDup offs Hinc) as Hnd. destruct (Z.lt_total r r') as [Hlt|[|Hlt]]; [|done|].
    + pose proof (Hinc _ _ _ _ Ho Ho' Hlt). lia.
    + pose proof (Hinc _ _ _ _ Ho' Ho Hlt). lia.
Qed.

(** A segment as [merge_adjacent_segments_pool] writes it when the later of the
    two merged segments is the larger: its offset table starts with the ids of
    the larger segment. *)
Definition merged_offsets : list SegmentOffsetRange := [mkOffsetRange 4 0 1; mkOffsetRange 5 1 2; mkOffsetRange 3 2 3].
Definition merged_prep : SegFile.PrepareFlushMetaData :=
  SegFile.mkPrep 3 5 3 [41; 51; 31] [0] 0 (Some [7]) HNSW (Some merged_offsets).
Definition dir_of (prep : SegFile.PrepareFlushMetaData) : directory :=
  match SegFile.flush_segment_to_disk 8 ∅ prep with Ok ops => run_ops ∅ ops | Error _ => ∅ end.
Definition no_memtables : LSMIndexData := mkLSM 16384 2 4 6 MT_IDX_INVALID 0 [-1; -1; -1; -1] 0.
Definition worker_ok (n : nat) (d : directory) : Z * directory := (0, d).

(** The record of an id in an unsorted offset table is lost.  The binary
    search misses the first id of a merged segment whose larger part came
    second; the redo then reports that the id has no segment on disk and stops
    recovery with an error, although the linear scan finds its rows. *)
Theorem unsorted_offsets_fail_redo :
  exists d hdr entries,
    Redo.find_disk_segment_for_sid d (hdr_sid hdr) = Some (Scan.mkFileInfo 3 5 1) /\
    SegFile.load_offset_file d 3 5 1 = Ok merged_offsets /\
    Merge.offset_linear (Merge.table_fuel 3) merged_offsets 3 0 (hdr_sid hdr) = Ok 2 /\
    Redo.offset_index_for_sid merged_offsets 3 (hdr_sid hdr) = Ok (-1) /\
    Redo.dpv_apply_vacuum_tombstones worker_ok 8 (Some no_memtables) [] d hdr entries = Error ElogError.
Proof.
  exists (dir_of merged_prep), (mkTombstones 3 1 0), [mkEntry 0 31]. split_and!; vm_compute; reflexivity.
Qed.

Definition example_hdr : xl_dpv_vacuum_tombstones := mkTombstones 3 1 0.
Definition example_entries : list xl_dpv_vacuum_entry := [mkEntry 0 11].

Lemma example_replayable : replayable flushed_dir example_hdr example_entries 3 4 2 3 [11; 12; 13] [2] example_offsets.
Proof.
  split.
  - exact flushed_on_disk.
  - vm_compute. reflexivity.
  - split; vm_compute; reflexivity.
  - intros i j o o' Hi Hj Hlt. pose proof (zlookup_lt_Some _ _ _ Hi) as H1. pose proof (zlookup_lt_Some _ _ _ Hj) as H2.
    change (zlen example_offsets) with 2 in *. assert (i = 0 /\ j = 1) as [-> ->] by lia.
    injection Hi as <-. injection Hj as <-. done.
  - repeat constructor; cbn; lia.
  - exists (mkOffsetRange 3 0 2). split; [left|]. split; [done|]. split.
    + vm_compute. apply (bool_decide_unpack _). vm_compute. exact I.
    + cbn. apply sublist_skip, sublist_nil_l.
  - exact flushed_subversions.
Qed.

Lemma vacuum_redo_marks_named_rows_witness :
  exists d' bm', Redo.apply_to_disk_file_for_sid worker_ok 8 flushed_dir example_hdr example_entries = Ok (true, d') /\
    IS_SLOT_SET bm' 0 = true /\ IS_SLOT_SET bm' 2 = false /\ on_disk d' 3 4 2 3 [11; 12; 13] bm' example_offsets.
Proof.
  destruct (vacuum_redo_marks_named_rows worker_ok 8 flushed_dir example_hdr example_entries 3 4 2 3 [11; 12; 13] [2] example_offsets)
    as (d' & bm' & Hr & Hd & Hb); [lia|exact example_replayable|done|].
  exists d', bm'. split; [exact Hr|]. rewrite !Hb by lia. split; [vm_compute; reflexivity|]. split; [vm_compute; reflexivity|exact Hd].
Defined.

Lemma vacuum_redo_idempotent_witness :
  exists d1 d2, Redo.apply_to_disk_file_for_sid worker_ok 8 flushed_dir example_hdr example_entries = Ok (true, d1) /\
    Redo.apply_to_disk_file_for_sid worker_ok 8 d1 example_hdr example_entries = Ok (true, d2).
Proof.
  destruct (vacuum_redo_idempotent worker_ok 8 flushed_dir example_hdr example_entries 3 4 2 3 [11; 12; 13] [2] example_offsets)
    as (d1 & d2 & bm1 & bm2 & H1 & H2 & _); [lia|exact example_replayable|done|vm_compute; discriminate|vm_compute; reflexivity|].
  exists d1, d2. split; [exact H1|exact H2].
Defined.

Lemma offset_search_agrees_with_scan_witness : Redo.offset_index_for_sid example_offsets 2 4 = Ok 1.
Proof.
  change 2 with (zlen example_offsets). rewrite offset_search_agrees_with_scan; [reflexivity|].
  apply (rp_sorted _ _ _ _ _ _ _ _ _ _ example_replayable).
Defined.
