(* ===== verification/SegmentRewrite.v ===== *)
(** Segment rewrites (vector_index_worker.c): the rebuild of one segment, which
    leaves out the rows deleted when it started, and the merge of two
    neighbours, which keeps every row.

    [Rewrite.rebuild_rows] and [Rewrite.merge_rows] are the loops that build the
    new tuple ids, deletion bitmap, offset windows and delete count;
    [Rewrite.rebuild_index_pool] and [Rewrite.merge_adjacent_segments_pool] are
    the whole tasks, from the files of the old version to the replacement in
    the pool.  The index objects and their (de)serialisation belong to the
    vector library and are parameters. *)

From S2P Require Import Prelude Bitmap SegmentPool FileNames SegmentFiles Tombstones Adoption.

Module Rewrite.

Definition SIZE_MAX : Z := 2 ^ 64 - 1.

(** ** Rebuilding one segment *)

(** The row counts [MergeIndex] checks and returns ([total_count] is the
    index's own count): every row whose bit is clear is selected. *)
Definition MergeIndex_rows (has_raw_data : bool) (total_count count : Z) (bitmap : list Z) : res Z :=
  if negb has_raw_data then Error ElogError
  else if negb (total_count =? count) then Error ElogError
  else
    let selected_count := count - count_set bitmap count in
    if selected_count <=? 0 then Error ElogError else Ok selected_count.

(** [new_offsets[j] = {old sid, SIZE_MAX, 0}] over a zeroed table. *)
Definition init_offsets (old_offsets : list SegmentOffsetRange) (segment_count : Z) : res (list SegmentOffsetRange) :=
  copy_loop (fun o => mkOffsetRange (off_sid o) SIZE_MAX 0) old_offsets 0 segment_count
    (replicate (Z.to_nat segment_count) (mkOffsetRange 0 0 0)).

(** The [while] that skips empty windows and those that end at or before row [i]. *)
Fixpoint advance_window (fuel : nat) (old_offsets : list SegmentOffsetRange) (segment_count i cur : Z) : res Z :=
  match fuel with
  | O => Error OutOfFuel
  | S fuel =>
      if cur <? segment_count then
        o ← arr_get old_offsets cur;
        if start_offset o =? end_offset o then advance_window fuel old_offsets segment_count i (cur + 1)
        else if i32 (end_offset o) <=? i then advance_window fuel old_offsets segment_count i (cur + 1)
        else Ok cur
      else Ok cur
  end.

Record rebuild_state := mkRebuild {
  write_idx : Z; cur_sid_idx : Z; new_mapping : list Z; new_bitmap : list Z;
  new_offsets : list SegmentOffsetRange; new_delete_count : Z }.
#[global] Instance eta_rebuild_state : Settable rebuild_state := fun s =>
  mkRebuild (write_idx s) (cur_sid_idx s) (new_mapping s) (new_bitmap s) (new_offsets s) (new_delete_count s).
#[global] Instance eta_offset_range : Settable SegmentOffsetRange := fun o =>
  mkOffsetRange (off_sid o) (start_offset o) (end_offset o).

(** "Update offset range" *)
Definition extend_window (old_offsets : list SegmentOffsetRange) (segment_count i : Z) (st : rebuild_state)
    : res rebuild_state :=
  if cur_sid_idx st <? segment_count then
    o ← arr_get old_offsets (cur_sid_idx st);
    if (i32 (start_offset o) <=? i) && (i <? i32 (end_offset o)) then
      w ← arr_get (new_offsets st) (cur_sid_idx st);
      let w := if start_offset w =? SIZE_MAX then w <| start_offset := write_idx st |> else w in
      offs ← arr_set (new_offsets st) (cur_sid_idx st) (w <| end_offset := write_idx st + 1 |>);
      Ok (st <| new_offsets := offs |>)
    else Ok st
  else Ok st.

(** One iteration of the row loop. *)
Definition rebuild_row (snapshot_bitmap fresh_bitmap old_mapping : list Z) (old_offsets : list SegmentOffsetRange)
    (segment_count : Z) (st : rebuild_state) (i : Z) : res rebuild_state :=
  cur ← advance_window (Merge.table_fuel segment_count) old_offsets segment_count i (cur_sid_idx st);
  let st := st <| cur_sid_idx := cur |> in
  if IS_SLOT_SET snapshot_bitmap i then Ok st
  else
    x ← arr_get old_mapping i;
    map ← arr_set (new_mapping st) (write_idx st) x;
    let st := st <| new_mapping := map |> in
    let st := if IS_SLOT_SET fresh_bitmap i
              then st <| new_bitmap := SET_SLOT (new_bitmap st) (write_idx st) |>
                      <| new_delete_count := u32 (new_delete_count st + 1) |>
              else st in
    st ← extend_window old_offsets segment_count i st;
    Ok (st <| write_idx := write_idx st + 1 |>).

(** "Fix empty offset ranges", on the table and [prev_end]. *)
Definition fix_window (st : list SegmentOffsetRange * Z) (j : Z) : res (list SegmentOffsetRange * Z) :=
  w ← arr_get st.1 j;
  if start_offset w =? SIZE_MAX then
    offs ← arr_set st.1 j (w <| start_offset := st.2 |> <| end_offset := st.2 |>); Ok (offs, st.2)
  else Ok (st.1, end_offset w).

(** The new mapping, bitmap, offsets and delete count. [malloc_mapping] is the
    uninitialised block of [new_index_count] entries. *)
Definition rebuild_rows (vec_count segment_count : Z) (snapshot_bitmap fresh_bitmap old_mapping : list Z)
    (old_offsets : list SegmentOffsetRange) (new_index_count : Z) (malloc_mapping : list Z)
    : res (list Z * list Z * list SegmentOffsetRange * Z) :=
  offs ← init_offsets old_offsets segment_count;
  st ← foldl_res (rebuild_row snapshot_bitmap fresh_bitmap old_mapping old_offsets segment_count)
         (mkRebuild 0 0 malloc_mapping (zero_bitmap new_index_count) offs 0) (seqZ 0 (i32 vec_count));
  fixed ← foldl_res fix_window (new_offsets st, 0) (seqZ 0 segment_count);
  Ok (new_mapping st, new_bitmap st, fixed.1, new_delete_count st).

(** ** Merging two segments *)

(** [for (i = 0; i < n; i++) if (IS_SLOT_SET(src, i)) SET_SLOT(dst, base + i);] *)
Definition copy_bits (src : list Z) (base n : Z) (dst : list Z) : list Z :=
  foldl (fun dst i => if IS_SLOT_SET src i then SET_SLOT dst (base + i) else dst) dst (seqZ 0 n).

(** "Clear stray bits in last byte" *)
Definition clear_stray (total_count merged_bitmap_size : Z) (bitmap : list Z) : res (list Z) :=
  let rem := Z.rem total_count 8 in
  if negb (rem =? 0) then
    arr_upd bitmap (merged_bitmap_size - 1) (fun b => Z.land b ((Z.shiftl 1 rem - 1) mod 256))
  else Ok bitmap.

Definition shift_window (larger_count : Z) (o : SegmentOffsetRange) : SegmentOffsetRange :=
  mkOffsetRange (off_sid o) (u64 (start_offset o + larger_count)) (u64 (end_offset o + larger_count)).

(** What the loops read of one of the two segments: its row count, the bitmap
    reloaded under the mutexes, its mapping and its table with its size. *)
Record merge_side := mkSide {
  ms_count : Z; ms_bitmap : list Z; ms_mapping : list Z; ms_offsets : list SegmentOffsetRange; ms_sids : Z }.

Definition merge_rows (larger smaller : merge_side) (merged_seg_count : Z) (malloc_mapping : list Z)
    : res (list Z * list Z * list SegmentOffsetRange) :=
  let total_count := i32 (ms_count larger + ms_count smaller) in
  let merged_bitmap_size := GET_BITMAP_SIZE total_count in
  let bitmap := copy_bits (ms_bitmap larger) 0 (ms_count larger) (zero_bitmap total_count) in
  let bitmap := copy_bits (ms_bitmap smaller) (ms_count larger) (ms_count smaller) bitmap in
  bitmap ← clear_stray total_count merged_bitmap_size bitmap;
  map ← copy_loop id (ms_mapping larger) 0 (ms_count larger) malloc_mapping;
  map ← copy_loop id (ms_mapping smaller) (ms_count larger) (ms_count smaller) map;
  offs ← copy_loop id (ms_offsets larger) 0 (ms_sids larger)
           (replicate (Z.to_nat merged_seg_count) (mkOffsetRange 0 0 0));
  offs ← copy_loop (shift_window (ms_count larger)) (ms_offsets smaller) (ms_sids larger) (ms_sids smaller) offs;
  Ok (map, bitmap, offs).

(** ** The whole tasks

    The state a task works on is the index directory and the pool; what vacuums
    do to the directory while the new index is built is [others].  The pool is
    only changed by the task itself: [is_compacting] keeps other rewrites away. *)
Section tasks.
(** The vector library: an index object stands for its contents. *)
Context (IndexLoadAndSave : option bytes -> IndexType -> bool -> option Z) (IndexSerialize : Z -> bytes).
Context (has_raw_data : Z -> bool) (Count : Z -> Z).
Context (build_selected : Z -> list Z -> IndexType -> IndexType -> Z) (add_all : Z -> Z -> Z).
(** The contents of a fresh [malloc] block of [n] entries. *)
Context (malloc : Z -> list Z).
Context (max_file capacity : Z) (others : directory -> directory).

(** The fields both tasks set in the reserved slot. *)
Definition set_rewritten (prep : SegFile.PrepareFlushMetaData) (index new_version : Z) (ns : FlushedSegmentData)
    : FlushedSegmentData :=
  ns <| segment_id_start := SegFile.start_sid prep |> <| segment_id_end := SegFile.end_sid prep |>
     <| index_ptr := Some index |> <| bitmap_ptr := Some (SegFile.prep_bitmap prep) |>
     <| map_ptr := Some (SegFile.prep_map prep) |> <| vec_count := SegFile.valid_rows prep |>
     <| index_type := SegFile.prep_index_type prep |> <| delete_count := SegFile.prep_delete_count prep |>
     <| version := new_version |> <| is_compacting := false |> <| load_state := SEG_FULLY_LOADED |>.

(** Replace under the write lock, then the three [pg_atomic_fetch_add_u32]. *)
Definition publish_rewritten (pool : FlushedSegmentPool) (olds : list Z) (new_slot : Z) (ty : IndexType) (n : Z)
    : res FlushedSegmentPool :=
  pool ← Pool.replace_flushed_segments_n capacity (pool <| seg_lock := WriteHeld |>) olds new_slot;
  let pool := pool <| flat_count ::= fun c => if bool_decide (ty = FLAT) then u32 (c + 1) else c |>
      <| memtable_capacity_le_count ::= fun c => if u32 n <=? u32 capacity then u32 (c + 1) else c |>
      <| small_segment_le_count ::= fun c => if u32 n <=? THRESHOLD_SMALL_SEGMENT_SIZE then u32 (c + 1) else c |> in
  Ok (pool <| seg_lock := Unlocked |>).

(** No slot: the claim on the old segments is dropped. *)
Definition drop_claims (pool : FlushedSegmentPool) (olds : list Z) : res FlushedSegmentPool :=
  foldl_res (fun pool i =>
    segs ← arr_upd (flushed_segments pool) i (fun s => s <| is_compacting := false |>);
    Ok (pool <| flushed_segments := segs |>)) pool olds.

(** Phases 3 (writing) and 4 of both tasks. *)
Definition install (d : directory) (pool : FlushedSegmentPool) (olds : list Z)
    (prep : SegFile.PrepareFlushMetaData) (index : Z) : res (directory * FlushedSegmentPool) :=
  ops ← SegFile.flush_segment_to_disk max_file d prep;
  let d := run_ops d ops in
  let new_version := Scan.find_latest_segment_version (readdir d) (SegFile.start_sid prep) (SegFile.end_sid prep) in
  r ← Pool.reserve_flushed_segment pool;
  let '(new_slot_idx, pool) := r in
  if new_slot_idx =? NIL then pool ← drop_claims pool olds; Ok (d, pool)
  else
    segs ← arr_upd (flushed_segments pool) new_slot_idx (set_rewritten prep index new_version);
    pool ← publish_rewritten (pool <| flushed_segments := segs |>) olds new_slot_idx
             (SegFile.prep_index_type prep) (SegFile.valid_rows prep);
    Ok (d, pool).

Definition rebuild_index_pool (d : directory) (pool : FlushedSegmentPool) (segment_idx0 : Z) (target_type : IndexType)
    : res (directory * FlushedSegmentPool) :=
  seg ← arr_get (flushed_segments pool) segment_idx0;
  let a := segment_id_start seg in
  let b := segment_id_end seg in
  let version := Scan.find_latest_segment_version (readdir d) a b in
  old_index ← of_option NullDeref (SegFile.load_index_file IndexLoadAndSave d a b version (index_type seg) false);
  snapshot ← SegFile.load_bitmap_file d a b version;
  old_mapping ← SegFile.load_mapping_file d a b version;
  old_offsets ← SegFile.load_offset_file d a b version;
  new_index_count ← MergeIndex_rows (has_raw_data old_index) (Count old_index) (i32 (vec_count seg)) snapshot.1;
  let new_index := build_selected old_index snapshot.1 (index_type seg) target_type in
  let d := others d in
  fresh ← SegFile.load_bitmap_file d a b version;
  r ← rebuild_rows (vec_count seg) (u32 (b - a + 1)) snapshot.1 fresh.1 old_mapping old_offsets
        new_index_count (malloc new_index_count);
  let '(map, bitmap, offs, deleted) := r in
  install d pool [segment_idx0]
    (SegFile.mkPrep a b (u32 new_index_count) map bitmap deleted (Some (IndexSerialize new_index)) target_type (Some offs))
    new_index.

(** One of the two segments as loaded in phase 1. *)
Definition load_side (d : directory) (seg : FlushedSegmentData)
    : res (Z * list Z * list SegmentOffsetRange) :=
  let a := segment_id_start seg in
  let b := segment_id_end seg in
  let version := Scan.find_latest_segment_version (readdir d) a b in
  index ← of_option NullDeref (SegFile.load_index_file IndexLoadAndSave d a b version (index_type seg) false);
  _ ← SegFile.load_bitmap_file d a b version;
  mapping ← SegFile.load_mapping_file d a b version;
  offs ← SegFile.load_offset_file d a b version;
  Ok (index, mapping, offs).

(** The checks of [MergeTwoIndices] and the merged count; dimensions agree,
    they are those of the one indexed column. *)
Definition MergeTwoIndices (lindex lcount sindex scount : Z) : res (Z * Z) :=
  if lcount <? scount then Error ElogError
  else if negb (has_raw_data lindex) || negb (has_raw_data sindex) then Error ElogError
  else if negb (Count lindex =? lcount) || negb (Count sindex =? scount) then Error ElogError
  else
    let merged := add_all lindex sindex in
    if negb (Count merged =? lcount + scount) then Error ElogError else Ok (merged, Count merged).

Definition merge_adjacent_segments_pool (d : directory) (pool : FlushedSegmentPool) (segment_idx0 segment_idx1 : Z)
    (merged_start_sid merged_end_sid : Z) : res (directory * FlushedSegmentPool) :=
  seg0 ← arr_get (flushed_segments pool) segment_idx0;
  seg1 ← arr_get (flushed_segments pool) segment_idx1;
  let version0 := Scan.find_latest_segment_version (readdir d) (segment_id_start seg0) (segment_id_end seg0) in
  let version1 := Scan.find_latest_segment_version (readdir d) (segment_id_start seg1) (segment_id_end seg1) in
  s0 ← load_side d seg0;
  s1 ← load_side d seg1;
  let seg0_larger := vec_count seg1 <=? vec_count seg0 in
  let '(lseg, (lindex, lmap, loffs), sseg, (sindex, smap, soffs)) :=
    if seg0_larger then (seg0, s0, seg1, s1) else (seg1, s1, seg0, s0) in
  let larger_count := i32 (vec_count lseg) in
  let smaller_count := i32 (vec_count sseg) in
  m ← MergeTwoIndices lindex larger_count sindex smaller_count;
  let '(merged_index, merged_count) := m in
  let d := others d in
  fresh0 ← SegFile.load_bitmap_file d (segment_id_start seg0) (segment_id_end seg0) version0;
  fresh1 ← SegFile.load_bitmap_file d (segment_id_start seg1) (segment_id_end seg1) version1;
  dc0 ← of_option NullDeref fresh0.2;
  dc1 ← of_option NullDeref fresh1.2;
  let larger := mkSide larger_count (if seg0_larger then fresh0.1 else fresh1.1) lmap loffs
                  (u32 (segment_id_end lseg - segment_id_start lseg + 1)) in
  let smaller := mkSide smaller_count (if seg0_larger then fresh1.1 else fresh0.1) smap soffs
                  (u32 (segment_id_end sseg - segment_id_start sseg + 1)) in
  r ← merge_rows larger smaller (u32 (merged_end_sid - merged_start_sid + 1))
        (malloc (i32 (larger_count + smaller_count)));
  let '(map, bitmap, offs) := r in
  install d pool [segment_idx0; segment_idx1]
    (SegFile.mkPrep merged_start_sid merged_end_sid (u32 merged_count) (take (Z.to_nat merged_count) map) bitmap
       (u32 (dc0 + dc1)) (Some (IndexSerialize merged_index)) (index_type lseg) (Some offs))
    merged_index.

End tasks.

End Rewrite.

Import Rewrite.

(** ** The rows a rebuild keeps *)

(** How many of the rows below [x] are kept: the new row number of row [x]. *)
Definition kept (bm : list Z) (x : Z) : Z := x - count_set bm x.

(** The tuple ids of the kept rows of a range, in order. *)
Definition kept_rows (bm map : list Z) (lo hi : Z) : list Z :=
  omap (fun i => if IS_SLOT_SET bm i then None else map !! i) (seqZ lo (hi - lo)).

Section kept.
Implicit Types (bm map : list Z) (x y lo hi : Z).

Lemma kept_succ bm x : 0 <= x -> kept bm (x + 1) = kept bm x + (if IS_SLOT_SET bm x then 0 else 1).
Proof. intros. unfold kept. rewrite count_set_succ by done. destruct (IS_SLOT_SET bm x); lia. Qed.

Lemma kept_bounds bm x : 0 <= x -> 0 <= kept bm x <= x.
Proof. unfold kept. pose proof (count_set_bounds bm x). lia. Qed.

Lemma kept_mono bm x y : 0 <= x <= y -> kept bm x <= kept bm y.
Proof.
  intros. enough (forall k, 0 <= k -> kept bm x <= kept bm (x + k)) as Hk.
  { replace y with (x + (y - x)) by lia. apply Hk. lia. }
  apply natlike_ind; [by rewrite Z.add_0_r|]. intros k Hk0 IH.
  replace (x + Z.succ k) with (x + k + 1) by lia. rewrite kept_succ by lia. destruct (IS_SLOT_SET bm (x + k)); lia.
Qed.

Lemma kept_lt bm x y : 0 <= x < y -> IS_SLOT_SET bm x = false -> kept bm x < kept bm y.
Proof.
  intros Hx Hb. pose proof (kept_mono bm (x + 1) y ltac:(lia)) as Hm. rewrite kept_succ, Hb in Hm by lia. lia.
Qed.

Lemma kept_rows_snoc bm map lo hi x :
  lo <= hi -> map !! hi = Some x ->
  kept_rows bm map lo (hi + 1) = kept_rows bm map lo hi ++ (if IS_SLOT_SET bm hi then [] else [x]).
Proof.
  intros Hlo Hx. unfold kept_rows. replace (hi + 1 - lo) with (hi - lo + 1) by lia.
  rewrite seqZ_snoc, omap_app by lia. f_equal. replace (lo + (hi - lo)) with hi by lia. cbn.
  by destruct (IS_SLOT_SET bm hi); [|rewrite Hx].
Qed.

Lemma kept_rows_sublist bm map lo hi :
  0 <= lo <= hi -> hi <= zlen map -> sublist (kept_rows bm map lo hi) (slice map lo hi).
Proof.
  intros Hlo Hhi. enough (forall k, 0 <= k -> lo + k <= hi -> sublist (kept_rows bm map lo (lo + k)) (slice map lo (lo + k))) as Hk.
  { replace hi with (lo + (hi - lo)) by lia. apply Hk; lia. }
  apply (natlike_ind (fun k => lo + k <= hi -> _)).
  - intros _. rewrite Z.add_0_r. unfold kept_rows. by rewrite Z.sub_diag, slice_nil by lia.
  - intros k Hk0 IH Hk. replace (lo + Z.succ k) with (lo + k + 1) by lia.
    destruct (zlookup_lt_is_Some map (lo + k)) as [x Hx]; [lia|].
    rewrite (kept_rows_snoc _ _ _ _ x), (slice_snoc _ _ _ x) by (done || lia).
    apply sublist_app; [apply IH; lia|]. destruct (IS_SLOT_SET bm (lo + k)); [apply sublist_nil_l|done].
Qed.

(** A mapping that holds every kept row at its new number holds, between the
    new numbers of a range's ends, that range's kept rows. *)
Lemma slice_kept bm map new_map n lo hi :
  0 <= lo <= hi -> hi <= n -> n <= zlen map ->
  (forall r, 0 <= r < n -> IS_SLOT_SET bm r = false -> new_map !! kept bm r = map !! r) ->
  slice new_map (kept bm lo) (kept bm hi) = kept_rows bm map lo hi.
Proof.
  intros Hlo Hhi Hn Hr.
  enough (forall k, 0 <= k -> lo + k <= hi -> slice new_map (kept bm lo) (kept bm (lo + k)) = kept_rows bm map lo (lo + k)) as Hk.
  { replace hi with (lo + (hi - lo)) by lia. apply Hk; lia. }
  apply (natlike_ind (fun k => lo + k <= hi -> _)).
  - intros _. rewrite Z.add_0_r. unfold kept_rows. by rewrite Z.sub_diag, slice_nil by lia.
  - intros k Hk0 IH Hk. replace (lo + Z.succ k) with (lo + k + 1) by lia.
    destruct (zlookup_lt_is_Some map (lo + k)) as [x Hx]; [lia|].
    rewrite (kept_rows_snoc _ _ _ _ x), <-IH, kept_succ by (done || lia).
    destruct (IS_SLOT_SET bm (lo + k)) eqn:Hb; [by rewrite Z.add_0_r, app_nil_r|].
    apply slice_snoc; [|by rewrite Hr by (done || lia)].
    pose proof (kept_bounds bm lo). pose proof (kept_mono bm lo (lo + k)). lia.
Qed.
End kept.

(** ** Offset windows *)

(** The windows of an offset table over [n] rows do not run into each other. *)
Record windows_ok (n : Z) (offs : list SegmentOffsetRange) : Prop := {
  wk_range : forall j o, offs !! j = Some o -> 0 <= start_offset o <= end_offset o /\ end_offset o <= n;
  wk_order : forall j k o w, offs !! j = Some o -> offs !! k = Some w -> j < k -> end_offset o <= start_offset w }.

(** The new window of [o] after the rows below [i] have been handled. *)
Definition window_upto (bm : list Z) (i : Z) (o : SegmentOffsetRange) : SegmentOffsetRange :=
  if kept bm (Z.min (start_offset o) i) <? kept bm (Z.min (end_offset o) i)
  then mkOffsetRange (off_sid o) (kept bm (start_offset o)) (kept bm (Z.min (end_offset o) i))
  else mkOffsetRange (off_sid o) SIZE_MAX 0.

Section windows.
Context (bm : list Z) (n : Z) (offs : list SegmentOffsetRange) (Hn : 0 <= n < 2 ^ 31) (Hw : windows_ok n offs).
Implicit Types (o : SegmentOffsetRange) (i j : Z).

Lemma window_upto_0 j o : offs !! j = Some o -> window_upto bm 0 o = mkOffsetRange (off_sid o) SIZE_MAX 0.
Proof.
  intros Ho. destruct (wk_range _ _ Hw _ _ Ho) as [Hr _]. unfold window_upto. rewrite !Z.min_r by lia.
  by rewrite Z.ltb_irrefl.
Qed.

Lemma window_upto_out i j o :
  offs !! j = Some o -> 0 <= i -> ~ (start_offset o <= i < end_offset o) -> window_upto bm (i + 1) o = window_upto bm i o.
Proof.
  intros Ho Hi Hout. destruct (wk_range _ _ Hw _ _ Ho) as [Hr _]. unfold window_upto.
  destruct (decide (end_offset o <= i)).
  - by rewrite !(Z.min_l _ i), !(Z.min_l _ (i + 1)) by lia.
  - rewrite !(Z.min_r _ i), !(Z.min_r _ (i + 1)) by lia. by rewrite !Z.ltb_irrefl.
Qed.

Lemma window_upto_deleted i o : 0 <= i -> 0 <= start_offset o -> IS_SLOT_SET bm i = true -> window_upto bm (i + 1) o = window_upto bm i o.
Proof.
  intros Hi Hs Hb. assert (H : forall x, 0 <= x -> kept bm (Z.min x (i + 1)) = kept bm (Z.min x i)).
  { intros x Hx. destruct (decide (x <= i)); [by rewrite !Z.min_l by lia|]. rewrite !Z.min_r by lia.
    rewrite kept_succ, Hb by done. lia. }
  unfold window_upto. destruct (decide (0 <= end_offset o)); [by rewrite !H by lia|].
  by rewrite H, !(Z.min_l (end_offset o)) by lia.
Qed.

Lemma window_upto_in i j o :
  offs !! j = Some o -> start_offset o <= i < end_offset o -> IS_SLOT_SET bm i = false ->
  window_upto bm (i + 1) o =
    mkOffsetRange (off_sid o)
      (if start_offset (window_upto bm i o) =? SIZE_MAX then kept bm i else start_offset (window_upto bm i o))
      (kept bm i + 1).
Proof.
  intros Ho Hi Hb. destruct (wk_range _ _ Hw _ _ Ho) as [Hr Hr2]. unfold window_upto.
  rewrite (Z.min_l _ (i + 1)), (Z.min_r _ (i + 1)), (Z.min_l _ i), (Z.min_r _ i), kept_succ, Hb by lia.
  pose proof (kept_mono bm (start_offset o) i). pose proof (kept_bounds bm i).
  destruct (Z.ltb_spec (kept bm (start_offset o)) (kept bm i + 1)); [|lia].
  destruct (Z.ltb_spec (kept bm (start_offset o)) (kept bm i)); cbn [start_offset].
  - destruct (Z.eqb_spec (kept bm (start_offset o)) SIZE_MAX) as [He|_]; [|done].
    unfold SIZE_MAX in He. lia.
  - rewrite Z.eqb_refl. f_equal. lia.
Qed.

(** The [while] stops at the only window that can hold row [i]. *)
Lemma advance_window_spec fuel i cur :
  0 <= cur <= zlen offs -> zlen offs - cur < Z.of_nat fuel ->
  exists c, advance_window fuel offs (zlen offs) i cur = Ok c /\ cur <= c <= zlen offs /\
    (forall j o, cur <= j < c -> offs !! j = Some o -> start_offset o = end_offset o \/ end_offset o <= i) /\
    (forall o, offs !! c = Some o -> i < end_offset o).
Proof.
  revert cur. induction fuel as [|fuel IH]; intros cur Hc Hf; [lia|]. cbn [advance_window].
  destruct (Z.ltb_spec cur (zlen offs)).
  2: { exists cur. split; [done|]. split; [lia|]. split; [lia|]. intros o ?%zlookup_lt_Some. lia. }
  destruct (zlookup_lt_is_Some offs cur) as [o Ho]; [lia|]. run.
  destruct (wk_range _ _ Hw _ _ Ho) as [Hr Hr2]. rewrite i32_small by lia.
  assert (Hskip : start_offset o = end_offset o \/ end_offset o <= i ->
    exists c, advance_window fuel offs (zlen offs) i (cur + 1) = Ok c /\ cur <= c <= zlen offs /\
      (forall j o, cur <= j < c -> offs !! j = Some o -> start_offset o = end_offset o \/ end_offset o <= i) /\
      (forall o, offs !! c = Some o -> i < end_offset o)).
  { intros Hs. destruct (IH (cur + 1)) as (c & -> & Hc' & Hpast & Hat); [lia|lia|]. exists c.
    split; [done|]. split; [lia|]. split; [|done]. intros j o' Hj Ho'.
    destruct (decide (j = cur)) as [->|]; [congruence|]. apply (Hpast j o'); [lia|done]. }
  destruct (Z.eqb_spec (start_offset o) (end_offset o)); [by apply Hskip; left|].
  destruct (Z.leb_spec (end_offset o) i); [by apply Hskip; right|].
  exists cur. split; [done|]. split; [lia|]. split; [lia|]. intros o' Ho'. by assert (o' = o) as -> by congruence.
Qed.
End windows.

(** ** The row loop of the rebuild *)
Section rebuild.
Context (snap fresh map : list Z) (offs : list SegmentOffsetRange) (n : Z).
Context (Hn : 0 <= n < 2 ^ 31) (Hmap : zlen map = n) (Hw : windows_ok n offs).

Record rebuild_inv (i : Z) (st : rebuild_state) : Prop := {
  ri_idx : write_idx st = kept snap i;
  ri_cur : 0 <= cur_sid_idx st <= zlen offs;
  ri_past : forall j o, offs !! j = Some o -> j < cur_sid_idx st -> start_offset o = end_offset o \/ end_offset o <= i;
  ri_map_len : zlen (new_mapping st) = kept snap n;
  ri_map : forall r, 0 <= r < i -> IS_SLOT_SET snap r = false -> new_mapping st !! kept snap r = map !! r;
  ri_bm_len : zlen (new_bitmap st) = GET_BITMAP_SIZE (kept snap n);
  ri_bits : forall r, 0 <= r < i -> IS_SLOT_SET snap r = false -> IS_SLOT_SET (new_bitmap st) (kept snap r) = IS_SLOT_SET fresh r;
  ri_clear : forall q, kept snap i <= q -> IS_SLOT_SET (new_bitmap st) q = false;
  ri_count : new_delete_count st = count_set (new_bitmap st) (kept snap i);
  ri_offs_len : zlen (new_offsets st) = zlen offs;
  ri_offs : forall j o, offs !! j = Some o -> new_offsets st !! j = Some (window_upto snap i o) }.

Lemma rebuild_inv_deleted i st cur :
  0 <= i < n -> rebuild_inv i st -> IS_SLOT_SET snap i = true -> 0 <= cur <= zlen offs ->
  (forall j o, offs !! j = Some o -> j < cur -> start_offset o = end_offset o \/ end_offset o <= i) ->
  rebuild_inv (i + 1) (st <| cur_sid_idx := cur |>).
Proof.
  intros Hi [] Hb Hc Hpast. assert (Hk : kept snap (i + 1) = kept snap i) by (rewrite kept_succ, Hb by lia; lia).
  split; cbn; rewrite ?Hk; try done.
  - intros j o Ho Hj. destruct (Hpast j o Ho Hj); [by left|right; lia].
  - intros r Hr Hf. destruct (decide (r = i)); [congruence|]. apply ri_map0; [lia|done].
  - intros r Hr Hf. destruct (decide (r = i)); [congruence|]. apply ri_bits0; [lia|done].
  - intros j o Ho. destruct (wk_range _ _ Hw _ _ Ho). rewrite window_upto_deleted by (done || lia). by apply ri_offs0.
Qed.

(** The window update of a kept row, on any state with the loop's windows. *)
Lemma extend_window_spec i st :
  0 <= i < n -> IS_SLOT_SET snap i = false -> write_idx st = kept snap i -> 0 <= cur_sid_idx st <= zlen offs ->
  (forall j o, offs !! j = Some o -> j < cur_sid_idx st -> start_offset o = end_offset o \/ end_offset o <= i) ->
  (forall o, offs !! cur_sid_idx st = Some o -> i < end_offset o) ->
  zlen (new_offsets st) = zlen offs ->
  (forall j o, offs !! j = Some o -> new_offsets st !! j = Some (window_upto snap i o)) ->
  exists offs', extend_window offs (zlen offs) i st = Ok (st <| new_offsets := offs' |>) /\
    zlen offs' = zlen offs /\ forall j o, offs !! j = Some o -> offs' !! j = Some (window_upto snap (i + 1) o).
Proof.
  intros Hi Hb Hwi Hc Hpast Hat Hlen Hold. unfold extend_window.
  assert (Hother : forall j o, offs !! j = Some o ->
    (j = cur_sid_idx st -> i < start_offset o) -> window_upto snap (i + 1) o = window_upto snap i o).
  { intros j o Ho Hj. apply (window_upto_out snap n offs Hw i j); [done|lia|]. intros Hin.
    destruct (decide (j < cur_sid_idx st)); [destruct (Hpast j o Ho); lia|].
    destruct (decide (j = cur_sid_idx st)) as [->|]; [specialize (Hj eq_refl); lia|].
    destruct (zlookup_lt_is_Some offs (cur_sid_idx st)) as [w Hcw]; [apply zlookup_lt_Some in Ho; lia|].
    specialize (Hat w Hcw). pose proof (wk_order _ _ Hw _ _ _ _ Hcw Ho). lia. }
  destruct (Z.ltb_spec (cur_sid_idx st) (zlen offs)).
  2: { exists (new_offsets st). split; [by destruct st|]. split; [done|]. intros j o Ho.
       rewrite (Hother j o Ho); [by apply Hold|]. apply zlookup_lt_Some in Ho. lia. }
  destruct (zlookup_lt_is_Some offs (cur_sid_idx st)) as [w Hcw]; [lia|]. run.
  destruct (wk_range _ _ Hw _ _ Hcw) as [Hr Hr2]. specialize (Hat w Hcw). rewrite !i32_small by lia.
  destruct (Z.leb_spec (start_offset w) i); cbn [andb].
  2: { exists (new_offsets st). split; [by destruct st|]. split; [done|]. intros j o Ho.
       rewrite (Hother j o Ho); [by apply Hold|]. intros ->. by assert (o = w) as -> by congruence. }
  destruct (Z.ltb_spec i (end_offset w)); [|lia]. pose proof (Hold _ _ Hcw) as Hnw. run.
  eexists; split; [done|]. split; [by rewrite zlen_insert|]. intros j o Ho. rewrite zlookup_insert.
  case_decide as Hj.
  - subst j. assert (o = w) as -> by congruence. rewrite Hnw. cbn. f_equal.
    rewrite (window_upto_in snap n offs Hn Hw i (cur_sid_idx st) w), Hwi by (done || lia).
    destruct (Z.eqb_spec (start_offset (window_upto snap i w)) SIZE_MAX); unfold update; cbn;
      f_equal; unfold window_upto; by destruct (_ <? _).
  - rewrite (Hother j o Ho) by congruence. by apply Hold.
Qed.

(** The bitmap and the delete count of a kept row. *)
Lemma mark_kept i bm dc :
  0 <= i < n -> IS_SLOT_SET snap i = false -> zlen bm = GET_BITMAP_SIZE (kept snap n) ->
  (forall r, 0 <= r < i -> IS_SLOT_SET snap r = false -> IS_SLOT_SET bm (kept snap r) = IS_SLOT_SET fresh r) ->
  (forall q, kept snap i <= q -> IS_SLOT_SET bm q = false) ->
  dc = count_set bm (kept snap i) ->
  let bm' := if IS_SLOT_SET fresh i then SET_SLOT bm (kept snap i) else bm in
  let dc' := if IS_SLOT_SET fresh i then u32 (dc + 1) else dc in
  zlen bm' = GET_BITMAP_SIZE (kept snap n) /\
  (forall r, 0 <= r < i + 1 -> IS_SLOT_SET snap r = false -> IS_SLOT_SET bm' (kept snap r) = IS_SLOT_SET fresh r) /\
  (forall q, kept snap i + 1 <= q -> IS_SLOT_SET bm' q = false) /\
  dc' = count_set bm' (kept snap i + 1).
Proof.
  intros Hi Hb Hz Hbits Hclr ->. assert (Hc : covers bm (kept snap n)) by (unfold covers; lia). pose proof (kept_lt snap i n ltac:(lia) Hb) as Hlt.
  pose proof (kept_bounds snap i ltac:(lia)) as Hki. pose proof (kept_bounds snap n ltac:(lia)) as Hkn.
  pose proof (count_set_bounds bm (kept snap i)) as Hcb. destruct (IS_SLOT_SET fresh i) eqn:Hf; cbn zeta.
  - split; [by rewrite zlen_SET_SLOT|].
    assert (Hset : forall q, 0 <= q -> IS_SLOT_SET (SET_SLOT bm (kept snap i)) q = (kept snap i =? q) || IS_SLOT_SET bm q).
    { intros q Hq. by apply (IS_SLOT_SET_SET bm (kept snap n)); [|lia|]. }
    split; [|split].
    + intros r Hr Hfr. rewrite Hset by (pose proof (kept_bounds snap r); lia).
      destruct (decide (r = i)) as [->|]; [by rewrite Z.eqb_refl, Hf|].
      pose proof (kept_lt snap r i ltac:(lia) Hfr). rewrite Hbits by (done || lia).
      by destruct (Z.eqb_spec (kept snap i) (kept snap r)); [lia|].
    + intros q Hq. rewrite Hset, Hclr by lia. destruct (Z.eqb_spec (kept snap i) q); [lia|done].
    + rewrite u32_small by lia. rewrite count_set_succ, Hset, Z.eqb_refl by lia. cbn [orb].
      f_equal. apply count_set_ext. intros q Hq. rewrite Hset by lia.
      by destruct (Z.eqb_spec (kept snap i) q); [lia|].
  - split; [done|]. split; [|split].
    + intros r Hr Hfr. destruct (decide (r = i)) as [->|]; [by rewrite Hf, Hclr by lia|]. apply Hbits; [lia|done].
    + intros q Hq. apply Hclr. lia.
    + rewrite count_set_succ, Hclr by lia. lia.
Qed.

Lemma rebuild_row_spec i st :
  0 <= i < n -> rebuild_inv i st ->
  exists st', rebuild_row snap fresh map offs (zlen offs) st i = Ok st' /\ rebuild_inv (i + 1) st'.
Proof.
  intros Hi Hinv. pose proof Hinv as [Hwi Hc Hpast Hlen Hrows Hcov Hbits Hclr Hcnt Holen Hold]. unfold rebuild_row.
  destruct (advance_window_spec n offs Hn Hw (Merge.table_fuel (zlen offs)) i (cur_sid_idx st))
    as (cur & -> & Hcur & Hskip & Hat); [done|unfold Merge.table_fuel; lia|]. cbn [mbind res_bind].
  assert (Hpast' : forall j o, offs !! j = Some o -> j < cur -> start_offset o = end_offset o \/ end_offset o <= i).
  { intros j o Ho Hj. destruct (decide (j < cur_sid_idx st)); [by eapply Hpast|]. apply (Hskip j); [lia|done]. }
  destruct (IS_SLOT_SET snap i) eqn:Hb.
  { eexists; split; [done|]. apply rebuild_inv_deleted; try done. lia. }
  destruct (zlookup_lt_is_Some map i) as [x Hx]; [lia|]. run.
  pose proof (kept_lt snap i n ltac:(lia) Hb) as Hlt. pose proof (kept_bounds snap i ltac:(lia)) as Hki.
  destruct (zlookup_lt_is_Some (new_mapping st) (kept snap i)) as [y Hy]; [lia|].
  destruct st as [wi c0 mp nb no dc]; cbn in Hwi, Hy, Hcov, Hbits, Hclr, Hcnt, Hrows, Hlen, Holen, Hold; subst wi.
  unfold update; cbn [new_mapping write_idx]. rewrite (arr_set_Some _ _ _ _ Hy). cbn [mbind res_bind].
  destruct (mark_kept i nb dc) as (Hcov' & Hbits' & Hclr' & Hcnt'); [done..|].
  set (bm' := if IS_SLOT_SET fresh i then _ else nb) in *.
  set (dc' := if IS_SLOT_SET fresh i then _ else dc) in *.
  set (st1 := mkRebuild (kept snap i) cur (<[kept snap i := x]> mp) bm' no dc').
  assert (Hst1 : forall st0, st0 = st1 -> exists st',
    (st2 ← extend_window offs (zlen offs) i st0; Ok (st2 <| write_idx := write_idx st2 + 1 |>)) = Ok st' /\ rebuild_inv (i + 1) st').
  { intros st0 ->. destruct (extend_window_spec i st1) as (offs' & -> & Hl & Ho'); [done|done|done|cbn; lia|done|done|done|done|].
    eexists; split; [done|]. assert (Hk : kept snap (i + 1) = kept snap i + 1) by (rewrite kept_succ, Hb by lia; lia).
    split; cbn; rewrite ?Hk, ?zlen_insert; try done.
    - lia.
    - intros j o Ho Hj. destruct (Hpast' j o Ho Hj); [by left|right; lia].
    - intros r Hr Hfr. rewrite zlookup_insert. destruct (decide (r = i)) as [->|].
      + by rewrite decide_True, Hy.
      + pose proof (kept_lt snap r i ltac:(lia) Hfr). rewrite decide_False by lia. apply Hrows; [lia|done]. }
  apply Hst1. unfold st1, bm', dc', update. by destruct (IS_SLOT_SET fresh i).
Qed.

Lemma init_offsets_spec :
  exists l, init_offsets offs (zlen offs) = Ok l /\ zlen l = zlen offs /\
    forall j o, offs !! j = Some o -> l !! j = Some (mkOffsetRange (off_sid o) SIZE_MAX 0).
Proof.
  pose proof (zlen_nonneg offs). unfold init_offsets.
  assert (Hz : zlen (replicate (Z.to_nat (zlen offs)) (mkOffsetRange 0 0 0)) = zlen offs).
  { unfold zlen. rewrite length_replicate. lia. }
  destruct (copy_loop_spec (fun o => mkOffsetRange (off_sid o) SIZE_MAX 0) offs 0 (zlen offs)
              (replicate (Z.to_nat (zlen offs)) (mkOffsetRange 0 0 0))) as (l & -> & Hl & Hk); [lia|lia|lia|].
  exists l. split; [done|]. split; [lia|]. intros j o Ho. rewrite Hk, decide_True by (apply zlookup_lt_Some in Ho; lia).
  by rewrite Z.sub_0_r, Ho.
Qed.

Lemma rebuild_inv_init l malloc_mapping :
  zlen malloc_mapping = kept snap n -> zlen l = zlen offs ->
  (forall j o, offs !! j = Some o -> l !! j = Some (mkOffsetRange (off_sid o) SIZE_MAX 0)) ->
  rebuild_inv 0 (mkRebuild 0 0 malloc_mapping (zero_bitmap (kept snap n)) l 0).
Proof.
  intros Hm Hl Ho. pose proof (zlen_nonneg offs). pose proof (kept_bounds snap n).
  split; cbn; try done; try lia.
  - intros j o Hj%zlookup_lt_Some. lia.
  - apply zlen_zero_bitmap. lia.
  - intros q Hq. apply IS_SLOT_SET_zero. change (kept snap 0) with 0 in Hq. done.
  - intros j o Hj. rewrite (window_upto_0 snap n offs Hw j o Hj). by apply Ho.
Qed.

(** What the second pass makes of the window [o]. *)
Definition rewritten (o w : SegmentOffsetRange) : Prop :=
  off_sid w = off_sid o /\ 0 <= start_offset w <= end_offset w /\
  (if kept snap (start_offset o) <? kept snap (end_offset o)
   then start_offset w = kept snap (start_offset o) /\ end_offset w = kept snap (end_offset o)
   else start_offset w = end_offset w).

Record fix_inv (j : Z) (st : list SegmentOffsetRange * Z) : Prop := {
  fx_len : zlen st.1 = zlen offs;
  fx_prev : 0 <= st.2 <= kept snap n;
  fx_ahead : forall k o, j <= k -> offs !! k = Some o -> st.2 <= kept snap (start_offset o);
  fx_todo : forall k o, j <= k -> offs !! k = Some o -> st.1 !! k = Some (window_upto snap n o);
  fx_done : forall k o, 0 <= k < j -> offs !! k = Some o -> exists w, st.1 !! k = Some w /\ rewritten o w /\ end_offset w <= st.2;
  fx_order : forall k1 k2 w1 w2, k1 < k2 < j -> st.1 !! k1 = Some w1 -> st.1 !! k2 = Some w2 -> end_offset w1 <= start_offset w2 }.

Lemma window_upto_n j o : offs !! j = Some o ->
  window_upto snap n o =
    if kept snap (start_offset o) <? kept snap (end_offset o)
    then mkOffsetRange (off_sid o) (kept snap (start_offset o)) (kept snap (end_offset o))
    else mkOffsetRange (off_sid o) SIZE_MAX 0.
Proof.
  intros Ho. destruct (wk_range _ _ Hw _ _ Ho). unfold window_upto. by rewrite !Z.min_l by lia.
Qed.

Lemma fix_window_spec j st :
  0 <= j < zlen offs -> fix_inv j st -> exists st', fix_window st j = Ok st' /\ fix_inv (j + 1) st'.
Proof.
  intros Hj [Hlen Hprev Hahead Htodo Hdone Hord]. destruct st as [l prev]; cbn in *.
  destruct (zlookup_lt_is_Some offs j) as [o Ho]; [lia|].
  pose proof (Htodo j o ltac:(lia) Ho) as Hl. destruct (wk_range _ _ Hw _ _ Ho) as [Hr Hr2].
  pose proof (kept_bounds snap (start_offset o) ltac:(lia)). pose proof (kept_bounds snap (end_offset o) ltac:(lia)).
  pose proof (kept_mono snap (start_offset o) (end_offset o) ltac:(lia)) as Hse.
  pose proof (kept_mono snap (end_offset o) n ltac:(lia)) as Hen.
  pose proof (Hahead j o ltac:(lia) Ho) as Hpo.
  assert (Hnext : forall k w, j + 1 <= k -> offs !! k = Some w -> kept snap (end_offset o) <= kept snap (start_offset w)).
  { intros k w Hk Hkw. apply kept_mono. pose proof (wk_order _ _ Hw _ _ _ _ Ho Hkw). lia. }
  assert (Hlj : forall k w, k < j -> l !! k = Some w -> end_offset w <= prev).
  { intros k w Hk Hkw. apply zlookup_lt_Some in Hkw as Hb.
    destruct (zlookup_lt_is_Some offs k) as [o' Ho']; [lia|].
    destruct (Hdone k o') as (w' & Hw' & _ & He); [lia|done|]. by assert (w = w') as -> by congruence. }
  unfold fix_window. cbn [fst snd]. rewrite (window_upto_n j o Ho) in Hl. run.
  destruct (Z.ltb_spec (kept snap (start_offset o)) (kept snap (end_offset o))) as [Hlt|Hge]; cbn [start_offset end_offset].
  - destruct (Z.eqb_spec (kept snap (start_offset o)) SIZE_MAX) as [He|_]; [unfold SIZE_MAX in He; lia|].
    eexists; split; [done|]. split; cbn; try done.
    + lia.
    + intros k w Hk. apply Htodo. lia.
    + intros k w Hk Hkw. destruct (decide (k = j)) as [->|].
      * assert (w = o) as -> by congruence. eexists; split; [exact Hl|]. unfold rewritten. cbn.
        destruct (Z.ltb_spec (kept snap (start_offset o)) (kept snap (end_offset o))); [|lia]. repeat split; lia.
      * destruct (Hdone k w) as (w' & Hw' & Hrw & He); [lia|done|]. exists w'. split; [done|]. split; [done|lia].
    + intros k1 k2 w1 w2 Hk H1 H2. destruct (decide (k2 = j)) as [->|]; [|apply (Hord k1 k2); [lia|done|done]].
      rewrite Hl in H2. injection H2 as <-. cbn. pose proof (Hlj k1 w1). intuition lia.
  - destruct (Z.eqb_spec SIZE_MAX SIZE_MAX) as [_|]; [|done].
    eexists; split; [done|]. split; cbn; try done.
    + by rewrite zlen_insert.
    + intros k w Hk Hkw. pose proof (Hnext k w). intuition lia.
    + intros k w Hk Hkw. rewrite zlookup_insert, decide_False by lia. apply Htodo; [lia|done].
    + intros k w Hk Hkw. rewrite zlookup_insert. destruct (decide (k = j)) as [->|].
      * assert (w = o) as -> by congruence. rewrite decide_True, Hl by done. eexists; split; [done|].
        unfold rewritten, update; cbn.
        destruct (Z.ltb_spec (kept snap (start_offset o)) (kept snap (end_offset o))); [lia|]. repeat split; lia.
      * rewrite decide_False by lia. apply Hdone; [lia|done].
    + intros k1 k2 w1 w2 Hk. rewrite !zlookup_insert, (decide_False (P := j = k1)) by lia. intros H1.
      case_decide as Hk2; [|intros H2; apply (Hord k1 k2); [lia|done|done]]. subst k2. rewrite Hl. cbn. intros [= <-].
      unfold update; cbn. apply (Hlj k1 w1); [lia|done].
Qed.

(** The loops of [rebuild_rows], together. *)
Lemma rebuild_rows_spec malloc_mapping :
  zlen malloc_mapping = kept snap n ->
  exists map' bm' offs', rebuild_rows n (zlen offs) snap fresh map offs (kept snap n) malloc_mapping =
      Ok (map', bm', offs', count_set bm' (kept snap n)) /\
    zlen map' = kept snap n /\ zlen bm' = GET_BITMAP_SIZE (kept snap n) /\ zlen offs' = zlen offs /\ windows_ok (kept snap n) offs' /\
    (forall r, 0 <= r < n -> IS_SLOT_SET snap r = false ->
       map' !! kept snap r = map !! r /\ IS_SLOT_SET bm' (kept snap r) = IS_SLOT_SET fresh r) /\
    (forall j o, offs !! j = Some o -> exists w, offs' !! j = Some w /\ rewritten o w /\
       sid_rows map' w = kept_rows snap map (start_offset o) (end_offset o)).
Proof.
  intros Hm. unfold rebuild_rows. pose proof (zlen_nonneg offs) as Hz.
  destruct init_offsets_spec as (l & -> & Hl & Hlo). cbn [mbind res_bind]. rewrite i32_small by lia.
  destruct (for_loop rebuild_inv (rebuild_row snap fresh map offs (zlen offs))
              (mkRebuild 0 0 malloc_mapping (zero_bitmap (kept snap n)) l 0) n) as (st & -> & Hst);
    [lia|by apply rebuild_inv_init|intros i b Hi; by apply rebuild_row_spec|]. cbn [mbind res_bind].
  destruct Hst as [_ _ _ Hmlen Hrows Hcov Hbits _ Hcnt Holen Hold].
  destruct (for_loop fix_inv fix_window (new_offsets st, 0) (zlen offs)) as ([offs' prev] & -> & Hfx);
    [done| |intros j b Hj; by apply fix_window_spec|].
  { split; cbn [fst snd]; [done|pose proof (kept_bounds snap n ltac:(lia)); lia| | |intros; lia|intros k1 k2 w1 w2 Hk ?%zlookup_lt_Some; lia].
    - intros k o _ Ho. apply kept_bounds. destruct (wk_range _ _ Hw _ _ Ho). lia.
    - intros k o _ Ho. by apply Hold. }
  cbn [mbind res_bind fst]. destruct Hfx as [Hflen Hprev _ _ Hdone Hord]. cbn in *.
  exists (new_mapping st), (new_bitmap st), offs'. rewrite Hcnt.
  assert (Hfind : forall j w, offs' !! j = Some w -> exists o, offs !! j = Some o /\ rewritten o w /\ end_offset w <= prev).
  { intros j w Hj. apply zlookup_lt_Some in Hj as Hb. destruct (zlookup_lt_is_Some offs j) as [o Ho]; [lia|].
    destruct (Hdone j o) as (w' & Hw' & Hrw & He); [lia|done|]. assert (w = w') as -> by congruence. eauto. }
  split; [done|]. split; [done|]. split; [done|]. split; [done|]. split; [split|split].
  - intros j w Hj. destruct (Hfind j w Hj) as (o & Ho & (_ & Hr & _) & He). lia.
  - intros j k w1 w2 H1 H2 Hjk. apply (Hord j k); [|done|done]. apply zlookup_lt_Some in H2. lia.
  - intros r Hr Hb. split; [by apply Hrows|by apply Hbits].
  - intros j o Ho. destruct (Hdone j o) as (w & Hj & Hrw & _); [apply zlookup_lt_Some in Ho; lia|done|].
    exists w. split; [done|]. split; [done|]. destruct (wk_range _ _ Hw _ _ Ho) as [Hor Hor2].
    destruct Hrw as (_ & Hr & Hif). rewrite <-(slice_kept snap map (new_mapping st) n) by (done || lia). unfold sid_rows.
    pose proof (kept_mono snap (start_offset o) (end_offset o) ltac:(lia)).
    destruct (Z.ltb_spec (kept snap (start_offset o)) (kept snap (end_offset o))); [by destruct Hif as [-> ->]|].
    by rewrite !slice_nil by lia.
Qed.
End rebuild.

Lemma MergeIndex_rows_kept total count bm rows :
  MergeIndex_rows true total count bm = Ok rows <-> total = count /\ rows = kept bm count /\ 0 < rows.
Proof.
  unfold MergeIndex_rows, kept. cbn [negb]. destruct (Z.eqb_spec total count); cbn [negb]; [|naive_solver].
  destruct (Z.leb_spec (count - count_set bm count) 0); [split; [done|lia]|].
  split; [intros [= <-]; done|intros (_ & -> & _); done].
Qed.

Section rebuilt.
Context (snap fresh map : list Z) (offs : list SegmentOffsetRange) (n : Z).
Context (Hn : 0 <= n < 2 ^ 31) (Hmap : zlen map = n) (Hw : windows_ok n offs).

(** The rows of each segment id, before and after. *)
Definition same_tables (map' : list Z) (offs' : list SegmentOffsetRange) : Prop :=
  zlen offs' = zlen offs /\
  forall j o, offs !! j = Some o -> exists w, offs' !! j = Some w /\ rewritten snap o w /\
    sid_rows map' w = kept_rows snap map (start_offset o) (end_offset o).

Lemma same_tables_back map' offs' j w :
  same_tables map' offs' -> offs' !! j = Some w ->
  exists o, offs !! j = Some o /\ rewritten snap o w /\ sid_rows map' w = kept_rows snap map (start_offset o) (end_offset o).
Proof.
  intros [Hl Hj] Hw'. apply zlookup_lt_Some in Hw' as Hb. destruct (zlookup_lt_is_Some offs j) as [o Ho]; [lia|].
  destruct (Hj j o Ho) as (w' & Hw2 & ?). assert (w = w') as -> by congruence. eauto.
Qed.

Lemma rebuilt_compacted map' offs' :
  NoDup (off_sid <$> offs) -> (forall o, o ∈ offs -> NoDup (sid_rows map o)) -> same_tables map' offs' ->
  compacted map map' offs offs'.
Proof.
  intros Hsid Hnd Ht w o [j Hj]%elem_of_zlookup Ho Hs.
  destruct (same_tables_back _ _ _ _ Ht Hj) as (o' & Ho' & [Hs' _] & Hr).
  assert (o' = o) as -> by (eapply same_sid; [exact Hsid|apply elem_of_zlookup; eauto|done|congruence]).
  destruct (wk_range _ _ Hw _ _ Ho'). split; [|by apply Hnd]. rewrite Hr.
  apply (kept_rows_sublist snap map); lia.
Qed.

(** A kept row of a window is, under its new number, in the new window. *)
Lemma window_of_kept_row o w r :
  rewritten snap o w -> 0 <= start_offset o <= r -> r < end_offset o -> IS_SLOT_SET snap r = false ->
  start_offset w <= kept snap r < end_offset w.
Proof.
  intros (_ & _ & Hif) Hr He Hb. pose proof (kept_mono snap (start_offset o) r ltac:(lia)).
  pose proof (kept_lt snap r (end_offset o) ltac:(lia) Hb).
  destruct (Z.ltb_spec (kept snap (start_offset o)) (kept snap (end_offset o))); [|lia]. destruct Hif. lia.
Qed.
End rebuilt.

(** Deletions of the old segment, row by row, as the union finds them. *)
Lemma deleted_row snap map map' old_bm offs offs' n j o w r :
  zlen map = n -> windows_ok n offs -> windows_ok (kept snap n) offs' -> same_tables snap map offs map' offs' ->
  NoDup (off_sid <$> offs) -> (forall o, o ∈ offs -> NoDup (sid_rows map o)) ->
  offs !! j = Some o -> offs' !! j = Some w -> rewritten snap o w ->
  start_offset o <= r < end_offset o -> IS_SLOT_SET snap r = false -> map' !! kept snap r = map !! r ->
  (exists sid x, row_of map' offs' sid (kept snap r) x /\ deleted_in map old_bm offs sid x) <-> IS_SLOT_SET old_bm r = true.
Proof.
  intros Hmap Hw Hw' Ht Hsid Hnd Ho Hj Hrw Hr Hb Hx.
  destruct (wk_range _ _ Hw _ _ Ho) as [Hor Hor2]. destruct (zlookup_lt_is_Some map r) as [x Hxr]; [lia|].
  pose proof (window_of_kept_row snap o w r Hrw ltac:(lia) ltac:(lia) Hb) as Hin.
  destruct Hrw as (Hsw & _ & _). split.
  - intros (sid & x' & (w2 & [k Hk]%elem_of_zlookup & Hs2 & Hq & Hx') & i & (o2 & Ho2 & Hso2 & Hi & Hxi) & Hdel).
    assert (x' = x) as -> by congruence.
    assert (k = j) as ->.
    { destruct (Z.lt_trichotomy k j) as [Hlt|[|Hlt]]; [|done|].
      - pose proof (wk_order _ _ Hw' _ _ _ _ Hk Hj Hlt). lia.
      - pose proof (wk_order _ _ Hw' _ _ _ _ Hj Hk Hlt). lia. }
    assert (w2 = w) as -> by congruence.
    assert (Hoin : o ∈ offs) by (apply elem_of_zlookup; eauto).
    assert (o2 = o) as -> by (eapply same_sid; [exact Hsid|done|done|congruence]).
    assert (i = r) as <-; [|done].
    assert (Hlk : forall q, start_offset o <= q < end_offset o -> map !! q = Some x ->
      sid_rows map o !! Z.to_nat (q - start_offset o) = Some x).
    { intros q Hq' Hxq. apply slice_lookup; [lia|]. replace (start_offset o + _) with q by lia. split; [done|lia]. }
    pose proof (NoDup_lookup _ _ _ _ (Hnd o Hoin) (Hlk i Hi Hxi) (Hlk r Hr Hxr)). lia.
  - intros Hdel. exists (off_sid o), x. split.
    + exists w. split; [apply elem_of_zlookup; eauto|]. split; [done|]. split; [done|congruence].
    + exists r. split; [|done]. exists o. split; [apply elem_of_zlookup; eauto|done].
Qed.

(** A rebuild that starts from [snap] and reloads the bitmap as [fresh]
    keeps exactly the rows [snap] does not delete, in order, inside the windows
    of their segment ids; each kept row is deleted in the new bitmap iff
    [fresh] deletes it, so a vacuum during the build is not lost; the stored
    delete count is that of the new bitmap; the new windows do not overlap.
    Every loop finishes and no index leaves its array, whatever the
    uninitialised mapping block holds. *)
Theorem rebuild_keeps_undeleted_rows snap fresh map offs n rows malloc_mapping :
  0 <= n < 2 ^ 31 -> zlen map = n -> windows_ok n offs ->
  MergeIndex_rows true n n snap = Ok rows -> zlen malloc_mapping = rows ->
  exists map' bm' offs',
    rebuild_rows n (zlen offs) snap fresh map offs rows malloc_mapping = Ok (map', bm', offs', count_set bm' rows) /\
    map' = kept_rows snap map 0 n /\ zlen map' = rows /\ covers bm' rows /\ windows_ok rows offs' /\
    (forall r, 0 <= r < n -> IS_SLOT_SET snap r = false ->
       map' !! kept snap r = map !! r /\ IS_SLOT_SET bm' (kept snap r) = IS_SLOT_SET fresh r) /\
    (forall j o, offs !! j = Some o -> exists w, offs' !! j = Some w /\ off_sid w = off_sid o /\
       sid_rows map' w = kept_rows snap map (start_offset o) (end_offset o)).
Proof.
  intros Hn Hmap Hw Hrows Hm. apply MergeIndex_rows_kept in Hrows as (_ & -> & Hpos).
  destruct (rebuild_rows_spec snap fresh map offs n Hn Hmap Hw malloc_mapping Hm)
    as (map' & bm' & offs' & He & Hl & Hc & _ & Hw' & Hr & Ht).
  exists map', bm', offs'. split; [done|]. split; [|split; [done|]; split; [unfold covers; lia|]; do 2 (split; [done|])].
  - rewrite <-(slice_kept snap map map' n 0 n); [|lia|lia|lia|intros; by apply Hr].
    by rewrite <-Hl, slice_full.
  - intros j o Ho. destruct (Ht j o Ho) as (w & Hj & [Hs _] & Hsr). eauto.
Qed.

(** What a vacuum wrote into the old segment reaches the rebuilt one when
    the standby takes the old bits over: whatever bitmap [old_bm] the old
    segment has by then, every kept row of the new segment ends up deleted iff
    the rebuild had already marked it or [old_bm] deletes its old row; no other
    row of a segment id is affected and the count is in step. *)
Theorem rebuilt_segment_takes_tombstones snap fresh map offs n malloc_mapping old_s old_bm :
  0 <= n < 2 ^ 31 -> windows_ok n offs -> zlen malloc_mapping = kept snap n ->
  (forall o, o ∈ offs -> NoDup (sid_rows map o)) -> rows_ok old_s n map old_bm offs ->
  exists map' bm' offs' dc,
    rebuild_rows n (zlen offs) snap fresh map offs (kept snap n) malloc_mapping = Ok (map', bm', offs', dc) /\
    forall new_s, rows_ok new_s (kept snap n) map' bm' offs' -> delete_count new_s = dc ->
      exists bm2,
        Merge.union_segment_bitmap_via_offset_merge new_s old_s = Ok (marked new_s bm2 (count_set bm2 (kept snap n))) /\
        forall j o r, offs !! j = Some o -> start_offset o <= r < end_offset o -> IS_SLOT_SET snap r = false ->
          map' !! kept snap r = map !! r /\
          IS_SLOT_SET bm2 (kept snap r) = IS_SLOT_SET fresh r || IS_SLOT_SET old_bm r.
Proof.
  intros Hn Hw Hm Hnd Hold. pose proof (ro_len _ _ _ _ _ Hold) as Hmap. pose proof (ro_sids _ _ _ _ _ Hold) as Hsid.
  destruct (rebuild_rows_spec snap fresh map offs n Hn Hmap Hw malloc_mapping Hm)
    as (map' & bm' & offs' & -> & Hl & Hc & Hlo & Hw' & Hr & Ht).
  assert (Hst : same_tables snap map offs map' offs') by done.
  do 4 eexists; split; [done|]. intros new_s Hnew Hdc. pose proof (kept_bounds snap n ltac:(lia)).
  destruct (union_segment_spec old_s n map old_bm offs new_s (kept snap n) map' bm' offs')
    as (bm2 & dc2 & -> & _ & Hb2 & Hcount); [done|done|by eapply rebuilt_compacted|lia| |].
  { rewrite Hdc. pose proof (count_set_bounds bm' (kept snap n)). lia. }
  exists bm2. split; [by rewrite (Hcount Hdc)|]. intros j o r Ho Hin Hb.
  destruct (wk_range _ _ Hw _ _ Ho) as [Hor Hor2]. destruct (Hr r ltac:(lia) Hb) as [Hx Hbit]. split; [done|].
  destruct (Ht j o Ho) as (w & Hj & Hrw & _). pose proof (kept_bounds snap r ltac:(lia)).
  pose proof (deleted_row snap map map' old_bm offs offs' n j o w r Hmap Hw Hw' Hst Hsid Hnd Ho Hj Hrw Hin Hb Hx) as Hd.
  apply eq_bool_prop_intro. rewrite !Is_true_true, Hb2, Hd, Hbit, orb_true_iff by lia. done.
Qed.

(** ** A concrete rebuild

    Rows 11 to 14 of ids 3 and 4; 11 was deleted when the rebuild started and
    14 while it ran; 13 is deleted in the old segment afterwards. *)
Definition junk : list Z := [0; 0; 0].

Lemma old_offs_ok : windows_ok 4 old_offs.
Proof.
  split.
  - intros j o Hj. apply zlookup_lt_Some in Hj as Hb. change (zlen old_offs) with 2 in Hb.
    assert (j = 0 \/ j = 1) as [-> | ->] by lia; vm_compute in Hj; injection Hj as <-; vm_compute; repeat split; congruence.
  - intros j k o w Hj Hk Hlt. apply zlookup_lt_Some in Hj as Hb, Hk as Hb'. change (zlen old_offs) with 2 in Hb, Hb'.
    assert (j = 0) as -> by lia. assert (k = 1) as -> by lia. vm_compute in Hj, Hk.
    injection Hj as <-. injection Hk as <-. vm_compute. congruence.
Qed.

Lemma rebuild_keeps_undeleted_rows_witness :
  rebuild_rows 4 2 [1] [9] [11; 12; 13; 14] old_offs 3 junk =
    Ok ([12; 13; 14], [4], [mkOffsetRange 3 0 2; mkOffsetRange 4 2 3], 1) /\
  exists map' bm' offs',
    rebuild_rows 4 2 [1] [9] [11; 12; 13; 14] old_offs 3 junk = Ok (map', bm', offs', count_set bm' 3) /\
    map' = kept_rows [1] [11; 12; 13; 14] 0 4.
Proof.
  split; [vm_compute; reflexivity|].
  destruct (rebuild_keeps_undeleted_rows [1] [9] [11; 12; 13; 14] old_offs 4 3 junk) as (m & b & o & H1 & H2 & _);
    [lia|reflexivity|apply old_offs_ok|vm_compute; reflexivity|reflexivity|].
  exists m, b, o. split; [exact H1|exact H2].
Defined.

Lemma rebuilt_segment_takes_tombstones_witness :
  exists map' bm' offs' dc, rebuild_rows 4 2 [1] [9] [11; 12; 13; 14] old_offs 3 junk = Ok (map', bm', offs', dc) /\
    exists bm2, Merge.union_segment_bitmap_via_offset_merge (segment_with map' bm' offs')
                  (segment_with [11; 12; 13; 14] [4] old_offs) =
      Ok (marked (segment_with map' bm' offs') bm2 (count_set bm2 3)).
Proof.
  destruct (rebuilt_segment_takes_tombstones [1] [9] [11; 12; 13; 14] old_offs 4 junk
              (segment_with [11; 12; 13; 14] [4] old_offs) [4]) as (m & b & o & dc & He & Hu).
  - lia.
  - apply old_offs_ok.
  - reflexivity.
  - intros o Ho. unfold old_offs in Ho. rewrite !elem_of_cons, elem_of_nil in Ho.
    destruct Ho as [->|[->|[]]]; apply (bool_decide_unpack _); vm_compute; exact I.
  - apply (segment_with_ok [11; 12; 13; 14]); [by vm_compute| |apply (bool_decide_unpack _); by vm_compute].
    repeat constructor; by vm_compute.
  - exists m, b, o, dc. split; [exact He|]. vm_compute in He. injection He as <- <- <- <-.
    destruct (Hu (segment_with [12; 13; 14] [4] new_offs)) as (bm2 & Hb2 & _); [|vm_compute; reflexivity|exists bm2; exact Hb2].
    apply (segment_with_ok [12; 13; 14]); [by vm_compute| |apply (bool_decide_unpack _); by vm_compute].
    repeat constructor; by vm_compute.
Defined.

(** ** The merge of two segments *)
Section merge.
Implicit Types (bm src dst : list Z).

Lemma copy_bits_spec src base n dst :
  0 <= base -> 0 <= n -> covers dst (base + n) ->
  zlen (copy_bits src base n dst) = zlen dst /\
  forall q, 0 <= q -> IS_SLOT_SET (copy_bits src base n dst) q =
    (bool_decide (base <= q < base + n) && IS_SLOT_SET src (q - base)) || IS_SLOT_SET dst q.
Proof.
  intros Hb Hn Hc. unfold copy_bits. set (f := fun dst i => if IS_SLOT_SET src i then _ else dst).
  enough (forall k, 0 <= k -> k <= n ->
    zlen (foldl f dst (seqZ 0 k)) = zlen dst /\ forall q, 0 <= q -> IS_SLOT_SET (foldl f dst (seqZ 0 k)) q =
      (bool_decide (base <= q < base + k) && IS_SLOT_SET src (q - base)) || IS_SLOT_SET dst q) as H by (apply H; lia).
  apply (natlike_ind (fun k => k <= n -> _)).
  - intros _. split; [done|]. intros q Hq. by rewrite bool_decide_eq_false_2 by lia.
  - intros k Hk IH Hkn. destruct (IH ltac:(lia)) as [Hl Hq]. clear IH.
    rewrite <-Z.add_1_r, seqZ_snoc, foldl_app, Z.add_0_l by done. cbn [foldl].
    set (d0 := foldl f dst (seqZ 0 k)) in *. unfold f.
    assert (Hstep : forall q, bool_decide (base <= q < base + (k + 1)) = (base + k =? q) || bool_decide (base <= q < base + k)).
    { intros q. apply eq_bool_prop_intro. rewrite orb_True, !Is_true_true, !bool_decide_eq_true, Z.eqb_eq. lia. }
    destruct (IS_SLOT_SET src k) eqn:Hs.
    + split; [by rewrite zlen_SET_SLOT|]. intros q Hq0. rewrite (IS_SLOT_SET_SET d0 (base + n)), Hq, Hstep; [|done|unfold covers in *; lia|lia|done].
      destruct (Z.eqb_spec (base + k) q) as [<-|]; [|done]. replace (base + k - base) with k by lia. by rewrite Hs.
    + split; [done|]. intros q Hq0. rewrite Hq, Hstep by done.
      destruct (Z.eqb_spec (base + k) q) as [<-|]; [|done]. replace (base + k - base) with k by lia. by rewrite Hs, !andb_false_r.
Qed.

(** The mask changes no bit of a row, and clears those past the last row. *)
Lemma clear_stray_spec total bm :
  0 <= total -> zlen bm = GET_BITMAP_SIZE total ->
  exists bm', clear_stray total (GET_BITMAP_SIZE total) bm = Ok bm' /\ zlen bm' = zlen bm /\
    forall q, 0 <= q < 8 * zlen bm -> IS_SLOT_SET bm' q = bool_decide (q < total) && IS_SLOT_SET bm q.
Proof.
  intros Ht Hl. unfold clear_stray, GET_BITMAP_SIZE in *. rewrite Z.rem_mod_nonneg by lia.
  pose proof (Z.div_mod total 8 ltac:(lia)). pose proof (Z.mod_pos_bound total 8 ltac:(lia)) as Hrem.
  assert (Hsz : (total + 7) / 8 = if total mod 8 =? 0 then total / 8 else total / 8 + 1).
  { destruct (Z.eqb_spec (total mod 8) 0).
    - symmetry. apply Z.div_unique with 7; lia.
    - symmetry. apply Z.div_unique with (total mod 8 - 1); lia. }
  destruct (Z.eqb_spec (total mod 8) 0); cbn [negb].
  { exists bm. split; [done|]. split; [done|]. intros q Hq. rewrite bool_decide_eq_true_2 by lia. done. }
  rewrite Hsz in *. destruct (zlookup_lt_is_Some bm (total / 8)) as [b Hb]; [pose proof (Z.div_pos total 8); lia|].
  replace (total / 8 + 1 - 1) with (total / 8) by lia. run. eexists; split; [done|]. split; [by rewrite zlen_insert|].
  intros q Hq. rewrite !IS_SLOT_SET_spec, zlookup_insert by lia.
  pose proof (Z.div_mod q 8 ltac:(lia)). pose proof (Z.mod_pos_bound q 8 ltac:(lia)) as Hqm.
  rewrite Z.shiftl_1_l. assert (0 < 2 ^ (total mod 8) <= 2 ^ 8) as Hp.
  { split; [apply Z.pow_pos_nonneg; lia|]. apply Z.pow_le_mono_r; lia. }
  rewrite Z.mod_small by lia. case_decide as Hd.
  - rewrite <-Hd, Hb. cbn.
    replace (2 ^ (total mod 8) - 1) with (Z.ones (total mod 8)) by (rewrite Z.ones_equiv; lia).
    rewrite Z.land_spec, Z.testbit_ones_nonneg, andb_comm by lia. f_equal.
    apply eq_bool_prop_intro. rewrite !Is_true_true, Z.ltb_lt, bool_decide_eq_true. lia.
  - rewrite bool_decide_eq_true_2; [done|]. apply zlookup_lt_Some in Hb. nia.
Qed.

Lemma count_set_split bm bm2 a b :
  0 <= a -> 0 <= b -> (forall i, 0 <= i < b -> IS_SLOT_SET bm (a + i) = IS_SLOT_SET bm2 i) ->
  count_set bm (a + b) = count_set bm a + count_set bm2 b.
Proof.
  intros Ha Hb Hi. enough (forall k, 0 <= k -> k <= b -> count_set bm (a + k) = count_set bm a + count_set bm2 k) as H by (apply H; lia).
  apply (natlike_ind (fun k => k <= b -> _)); [by rewrite Z.add_0_r, count_set_0, Z.add_0_r|].
  intros k Hk IH Hkb. replace (a + Z.succ k) with (a + k + 1) by lia. rewrite <-Z.add_1_r, !count_set_succ, IH, Hi by lia. lia.
Qed.

(** The two halves of a merged array. *)
Lemma copy_two {A B} (g : A -> B) (f : A -> B) (l k : list A) (dst d1 d2 : list B) :
  zlen dst = zlen l + zlen k -> copied f l dst 0 (zlen l) d1 -> copied g k d1 (zlen l) (zlen k) d2 ->
  d2 = (f <$> l) ++ (g <$> k).
Proof.
  intros Hd [H1l H1] [H2l H2].
  apply zlist_eq; [rewrite zlen_app, !zlen_fmap; lia|]. intros i Hi. rewrite H2.
  destruct (decide (i < zlen l)).
  - rewrite decide_False, H1, decide_True, Z.sub_0_r, zlookup_app_l, zlookup_fmap by (rewrite ?zlen_fmap; lia). done.
  - rewrite decide_True, zlookup_app_r, zlookup_fmap, zlen_fmap by (rewrite ?zlen_fmap; lia). done.
Qed.

Record side_ok (m : merge_side) : Prop := {
  sd_count : 0 <= ms_count m;
  sd_mapping : zlen (ms_mapping m) = ms_count m;
  sd_windows : windows_ok (ms_count m) (ms_offsets m);
  sd_sids : zlen (ms_offsets m) = ms_sids m }.

Section sides.
Context (l m : merge_side) (Hl : side_ok l) (Hm : side_ok m).
Context (Htotal : ms_count l + ms_count m < 2 ^ 31).
Let total := ms_count l + ms_count m.

Definition merged_offsets : list SegmentOffsetRange := ms_offsets l ++ (shift_window (ms_count l) <$> ms_offsets m).

Lemma shift_window_eq o : o ∈ ms_offsets m ->
  shift_window (ms_count l) o = mkOffsetRange (off_sid o) (start_offset o + ms_count l) (end_offset o + ms_count l).
Proof.
  intros [j Hj]%elem_of_zlookup. destruct (wk_range _ _ (sd_windows _ Hm) _ _ Hj) as [Hr Hr2].
  pose proof (sd_count _ Hl). unfold shift_window, u64. by rewrite !Z.mod_small by lia.
Qed.

(** Where a window of the merged table comes from. *)
Lemma merged_lookup j w : merged_offsets !! j = Some w ->
  (j < zlen (ms_offsets l) /\ ms_offsets l !! j = Some w) \/
  (exists o, zlen (ms_offsets l) <= j /\ ms_offsets m !! (j - zlen (ms_offsets l)) = Some o /\
    w = mkOffsetRange (off_sid o) (start_offset o + ms_count l) (end_offset o + ms_count l)).
Proof.
  unfold merged_offsets. intros Hj. destruct (decide (j < zlen (ms_offsets l))).
  - left. by rewrite zlookup_app_l in Hj.
  - right. rewrite zlookup_app_r, zlookup_fmap in Hj by lia.
    destruct (ms_offsets m !! (j - zlen (ms_offsets l))) as [o|] eqn:Ho; [|done]. cbn in Hj. injection Hj as <-.
    exists o. rewrite shift_window_eq by (apply elem_of_zlookup; eauto). split; [lia|done].
Qed.

Lemma merged_windows_ok : windows_ok total merged_offsets.
Proof.
  pose proof (sd_count _ Hl). pose proof (sd_count _ Hm).
  pose proof (sd_windows _ Hl) as Hwl. pose proof (sd_windows _ Hm) as Hwm. split.
  - intros j w [[_ Hj]|(o & _ & Ho & ->)]%merged_lookup; cbn.
    + pose proof (wk_range _ _ Hwl _ _ Hj). unfold total. lia.
    + pose proof (wk_range _ _ Hwm _ _ Ho). unfold total. lia.
  - intros j k w1 w2 [[Hj1 Hj]|(o & Hj1 & Ho & ->)]%merged_lookup [[Hk1 Hk]|(o' & Hk1 & Ho' & ->)]%merged_lookup Hjk; cbn.
    + by apply (wk_order _ _ Hwl j k).
    + pose proof (wk_range _ _ Hwl _ _ Hj). pose proof (wk_range _ _ Hwm _ _ Ho'). lia.
    + lia.
    + pose proof (wk_order _ _ Hwm _ _ _ _ Ho Ho'). lia.
Qed.

(** The bitmap loops and the mask. *)
Lemma merged_bits :
  exists bm, clear_stray total (GET_BITMAP_SIZE total)
      (copy_bits (ms_bitmap m) (ms_count l) (ms_count m) (copy_bits (ms_bitmap l) 0 (ms_count l) (zero_bitmap total))) = Ok bm /\
    covers bm total /\
    (forall i, 0 <= i < ms_count l -> IS_SLOT_SET bm i = IS_SLOT_SET (ms_bitmap l) i) /\
    (forall i, 0 <= i < ms_count m -> IS_SLOT_SET bm (ms_count l + i) = IS_SLOT_SET (ms_bitmap m) i) /\
    (forall q, total <= q -> IS_SLOT_SET bm q = false).
Proof.
  pose proof (sd_count _ Hl). pose proof (sd_count _ Hm).
  assert (Hz : zlen (zero_bitmap total) = GET_BITMAP_SIZE total) by (apply zlen_zero_bitmap; unfold total; lia).
  assert (Hmono : forall a, 0 <= a <= total -> GET_BITMAP_SIZE a <= GET_BITMAP_SIZE total).
  { intros a Ha. unfold GET_BITMAP_SIZE. apply Z.div_le_mono; lia. }
  destruct (copy_bits_spec (ms_bitmap l) 0 (ms_count l) (zero_bitmap total)) as [H1l H1];
    [lia|lia|unfold covers; rewrite Hz; apply Hmono; unfold total; lia|].
  destruct (copy_bits_spec (ms_bitmap m) (ms_count l) (ms_count m) (copy_bits (ms_bitmap l) 0 (ms_count l) (zero_bitmap total)))
    as [H2l H2]; [lia|lia|unfold covers; rewrite H1l, Hz; apply Hmono; unfold total; lia|].
  destruct (clear_stray_spec total
    (copy_bits (ms_bitmap m) (ms_count l) (ms_count m) (copy_bits (ms_bitmap l) 0 (ms_count l) (zero_bitmap total))))
    as (bm & -> & Hbl & Hb); [unfold total; lia|lia|].
  exists bm. split; [done|]. rewrite H2l, H1l, Hz in *.
  assert (Hcap : total <= 8 * GET_BITMAP_SIZE total).
  { unfold GET_BITMAP_SIZE. pose proof (Z.div_mod (total + 7) 8). pose proof (Z.mod_pos_bound (total + 7) 8). lia. }
  unfold total in *. split; [unfold covers; lia|]. split; [|split].
  - intros i Hi. rewrite Hb, H2, H1, IS_SLOT_SET_zero by lia. rewrite (bool_decide_eq_true_2 (i < _)) by lia.
    rewrite bool_decide_eq_false_2, bool_decide_eq_true_2 by lia. cbn. by rewrite Z.sub_0_r, orb_false_r.
  - intros i Hi. rewrite Hb, H2, H1, IS_SLOT_SET_zero by lia. rewrite (bool_decide_eq_true_2 (ms_count l + i < _)) by lia.
    rewrite bool_decide_eq_true_2, bool_decide_eq_false_2 by lia. cbn. replace (ms_count l + i - ms_count l) with i by lia. by rewrite orb_false_r.
  - intros q Hq. destruct (decide (q < 8 * GET_BITMAP_SIZE (ms_count l + ms_count m))).
    + rewrite Hb by lia. by rewrite bool_decide_eq_false_2 by lia.
    + rewrite IS_SLOT_SET_spec, zlookup_ge; [done| |lia]. rewrite Hbl. apply Z.div_le_lower_bound; lia.
Qed.

Lemma merge_rows_spec malloc_mapping :
  zlen malloc_mapping = total ->
  exists bm, merge_rows l m (ms_sids l + ms_sids m) malloc_mapping =
      Ok (ms_mapping l ++ ms_mapping m, bm, merged_offsets) /\
    covers bm total /\
    (forall i, 0 <= i < ms_count l -> IS_SLOT_SET bm i = IS_SLOT_SET (ms_bitmap l) i) /\
    (forall i, 0 <= i < ms_count m -> IS_SLOT_SET bm (ms_count l + i) = IS_SLOT_SET (ms_bitmap m) i) /\
    (forall q, total <= q -> IS_SLOT_SET bm q = false).
Proof.
  intros Hj. destruct Hl as [Hlc Hlm _ Hls], Hm as [Hmc Hmm _ Hms]. unfold merge_rows.
  rewrite i32_small by lia. fold total. destruct merged_bits as (bm & -> & Hbits). exists bm. cbn [mbind res_bind].
  split; [|exact Hbits]. pose proof (zlen_nonneg (ms_offsets l)). pose proof (zlen_nonneg (ms_offsets m)).
  destruct (copy_loop_spec id (ms_mapping l) 0 (ms_count l) malloc_mapping) as (d1 & -> & H1); [lia|lia|unfold total in *; lia|].
  cbn [mbind res_bind]. pose proof (proj1 H1) as H1l.
  destruct (copy_loop_spec id (ms_mapping m) (ms_count l) (ms_count m) d1) as (d2 & -> & H2); [lia|lia|unfold total in *; lia|].
  cbn [mbind res_bind].
  set (zero := replicate _ _). assert (Hzl : zlen zero = ms_sids l + ms_sids m).
  { unfold zero, zlen at 1. rewrite length_replicate. lia. }
  destruct (copy_loop_spec id (ms_offsets l) 0 (ms_sids l) zero) as (o1 & -> & H3); [lia|lia|lia|].
  cbn [mbind res_bind]. pose proof (proj1 H3) as H3l.
  destruct (copy_loop_spec (shift_window (ms_count l)) (ms_offsets m) (ms_sids l) (ms_sids m) o1) as (o2 & -> & H4); [lia|lia|lia|].
  cbn [mbind res_bind]. rewrite <-Hlm in H1, H2. rewrite <-Hmm in H2. rewrite <-Hls in H3, H4. rewrite <-Hms in H4.
  rewrite (copy_two id id (ms_mapping l) (ms_mapping m) malloc_mapping d1 d2) by (done || (unfold total in *; lia)).
  rewrite (copy_two (shift_window (ms_count l)) id (ms_offsets l) (ms_offsets m) zero o1 o2) by (done || lia).
  by rewrite !list_fmap_id.
Qed.
End sides.
End merge.

(** A merge keeps every row of both segments, those of the larger one
    first: mapping and bitmap are the concatenations, no bit is set past the
    last row, the deleted rows are those of the two bitmaps (so the sum of two
    exact delete counts is exact), every segment id keeps its rows in order
    and the windows still do not overlap. *)
Theorem merge_keeps_every_row l m malloc_mapping :
  side_ok l -> side_ok m -> ms_count l + ms_count m < 2 ^ 31 -> zlen malloc_mapping = ms_count l + ms_count m ->
  let total := ms_count l + ms_count m in
  exists map' bm' offs', merge_rows l m (ms_sids l + ms_sids m) malloc_mapping = Ok (map', bm', offs') /\
    map' = ms_mapping l ++ ms_mapping m /\ covers bm' total /\ windows_ok total offs' /\
    (forall i, 0 <= i < ms_count l -> IS_SLOT_SET bm' i = IS_SLOT_SET (ms_bitmap l) i) /\
    (forall i, 0 <= i < ms_count m -> IS_SLOT_SET bm' (ms_count l + i) = IS_SLOT_SET (ms_bitmap m) i) /\
    (forall q, total <= q -> IS_SLOT_SET bm' q = false) /\
    count_set bm' total = count_set (ms_bitmap l) (ms_count l) + count_set (ms_bitmap m) (ms_count m) /\
    off_sid <$> offs' = (off_sid <$> ms_offsets l) ++ (off_sid <$> ms_offsets m) /\
    (forall o, o ∈ ms_offsets l -> o ∈ offs' /\ sid_rows map' o = sid_rows (ms_mapping l) o) /\
    (forall o, o ∈ ms_offsets m -> exists w, w ∈ offs' /\ off_sid w = off_sid o /\ sid_rows map' w = sid_rows (ms_mapping m) o).
Proof.
  intros Hl Hm Ht Hj total. destruct (merge_rows_spec l m Hl Hm Ht malloc_mapping Hj) as (bm & -> & Hc & Hbl & Hbm & Hs).
  pose proof (sd_count _ Hl). pose proof (sd_count _ Hm).
  exists (ms_mapping l ++ ms_mapping m), bm, (merged_offsets l m). do 3 (split; [done|]).
  split; [by apply merged_windows_ok|]. do 3 (split; [done|]). split; [|split; [|split]].
  - unfold total. rewrite (count_set_split bm (ms_bitmap m)) by done. f_equal. by apply count_set_ext.
  - unfold merged_offsets. rewrite fmap_app. f_equal. rewrite <-list_fmap_compose. by apply list_fmap_ext.
  - intros o Ho. split; [apply elem_of_app; by left|]. apply elem_of_zlookup in Ho as [j Hoj].
    destruct (wk_range _ _ (sd_windows _ Hl) _ _ Hoj). apply slice_app_l; [lia|]. rewrite (sd_mapping _ Hl). lia.
  - intros o Ho. exists (shift_window (ms_count l) o). split; [apply elem_of_app; right; by apply list_elem_of_fmap_2|].
    split; [done|]. rewrite (shift_window_eq l m) by done. apply elem_of_zlookup in Ho as [j Hoj].
    destruct (wk_range _ _ (sd_windows _ Hm) _ _ Hoj). unfold sid_rows; cbn. rewrite <-(sd_mapping _ Hl).
    apply slice_app_r. lia.
Qed.

(** The larger side is ids 3 and 4, with row 1 deleted; the smaller is id 5. *)
Definition larger_example : merge_side := mkSide 4 [2] [11; 12; 13; 14] old_offs 2.
Definition smaller_example : merge_side := mkSide 2 [2] [21; 22] [mkOffsetRange 5 0 2] 1.

Lemma merge_keeps_every_row_witness :
  merge_rows larger_example smaller_example 3 [0; 0; 0; 0; 0; 0] =
    Ok ([11; 12; 13; 14; 21; 22], [34], [mkOffsetRange 3 0 3; mkOffsetRange 4 3 4; mkOffsetRange 5 4 6]) /\
  exists map' bm' offs', merge_rows larger_example smaller_example 3 [0; 0; 0; 0; 0; 0] = Ok (map', bm', offs') /\
    map' = [11; 12; 13; 14; 21; 22].
Proof.
  split; [vm_compute; reflexivity|].
  destruct (merge_keeps_every_row larger_example smaller_example [0; 0; 0; 0; 0; 0]) as (a & b & c & H1 & H2 & _).
  - split; [vm_compute; congruence|reflexivity|apply old_offs_ok|reflexivity].
  - split; [vm_compute; congruence|reflexivity| |reflexivity]. split.
    + intros j o Hj. apply zlookup_lt_Some in Hj as Hb. change (zlen (ms_offsets smaller_example)) with 1 in Hb.
      assert (j = 0) as -> by lia. vm_compute in Hj. injection Hj as <-. vm_compute. repeat split; congruence.
    + intros j k o w Hj Hk Hlt. apply zlookup_lt_Some in Hj, Hk. change (zlen (ms_offsets smaller_example)) with 1 in *. lia.
  - vm_compute. reflexivity.
  - reflexivity.
  - exists a, b, c. split; [exact H1|exact H2].
Defined.

(** ** The whole tasks *)

(** The statistics after a task: those of the published list, and the new
    segment once more. *)
Definition stats_counted_twice (cap : Z) (pool : FlushedSegmentPool) (l : list Z) (s : FlushedSegmentData) : Prop :=
  flat_count pool = u32 (stat_sum is_flat (flushed_segments pool) l + (if is_flat s then 1 else 0)) /\
  memtable_capacity_le_count pool =
    u32 (stat_sum (fits_memtable cap) (flushed_segments pool) l + (if fits_memtable cap s then 1 else 0)) /\
  small_segment_le_count pool = u32 (stat_sum is_small (flushed_segments pool) l + (if is_small s then 1 else 0)).

Section install.
Context (max_file cap : Z) (l1 olds l3 : list Z).
Implicit Types (pool : FlushedSegmentPool) (s : FlushedSegmentData).

Lemma publish_rewritten_spec pool new s :
  pool_wf pool (l1 ++ olds ++ l3) -> stats_exact cap pool (l1 ++ olds ++ l3) -> olds <> [] ->
  flushed_segments pool !! new = Some s -> in_used s = true -> new ∉ l1 ++ olds ++ l3 ->
  (forall i, i ∈ l1 -> start_of (flushed_segments pool) i <= segment_id_start s) ->
  (forall i, i ∈ l3 -> segment_id_start s <= start_of (flushed_segments pool) i) ->
  exists pool', publish_rewritten cap pool olds new (index_type s) (vec_count s) = Ok pool' /\
    pool_wf pool' (l1 ++ new :: l3) /\ stats_counted_twice cap pool' (l1 ++ new :: l3) s /\
    payload_at (flushed_segments pool') new = Some (payload (s <| ref_count := 1 |>)) /\
    ranges (flushed_segments pool') (l1 ++ new :: l3) =
      ranges (flushed_segments pool) l1 ++ range_of s :: ranges (flushed_segments pool) l3.
Proof.
  intros Hw Hst Hne Hs Hu Hnew H1 H3. unfold publish_rewritten.
  assert (Hw' : pool_wf (pool <| seg_lock := WriteHeld |>) (l1 ++ olds ++ l3)) by (destruct Hw; by split).
  destruct (replace_spec cap (pool <| seg_lock := WriteHeld |>) l1 olds l3 new s Hw' Hne Hs Hu Hnew H1 H3)
    as (p & -> & Hpw & Hpst & Hn & _ & Ho & _). cbn [mbind res_bind]. specialize (Hpst Hst).
  eexists; split; [done|]. split; [destruct Hpw; by split|]. split; [|split; [exact Hn|]].
  - destruct Hpst as (Hf & Hm & Hsm). unfold stats_counted_twice, update; cbn. rewrite Hf, Hm, Hsm.
    unfold is_flat, fits_memtable, is_small.
    case_bool_decide; destruct (u32 (vec_count s) <=? u32 cap), (u32 (vec_count s) <=? THRESHOLD_SMALL_SEGMENT_SIZE);
      rewrite ?u32_add_l, ?Z.add_0_r; done.
  - pose proof (lw_nodup _ _ (pw_list _ _ Hw)) as Hnd. rewrite !NoDup_app in Hnd. destruct Hnd as (_ & Hd1 & _ & Hd3 & _).
    unfold update; cbn. change (new :: l3) with ([new] ++ l3).
    rewrite !ranges_app, (ranges_single _ _ _ s Hn eq_refl). cbn [app].
    f_equal; [|f_equal]; apply ranges_ext; intros i Hi; apply Ho; [|set_solver| |set_solver].
    + intros Hx. apply (Hd1 i Hi). set_solver.
    + intros Hx. by apply (Hd3 i Hx).
Qed.

(** The claims dropped, the pool is otherwise as before. *)
Lemma drop_claims_ok pool : (forall i, i ∈ olds -> exists s, flushed_segments pool !! i = Some s) ->
  exists pool', drop_claims pool olds = Ok pool' /\
    forall j, (fun s => s <| is_compacting := false |>) <$> (flushed_segments pool' !! j) =
              (fun s => s <| is_compacting := false |>) <$> (flushed_segments pool !! j).
Proof.
  intros Hs. unfold drop_claims.
  destruct (foldl_res_ind (fun _ p => forall j, (fun s => s <| is_compacting := false |>) <$> (flushed_segments p !! j) =
        (fun s => s <| is_compacting := false |>) <$> (flushed_segments pool !! j))
     (fun pool i => segs ← arr_upd (flushed_segments pool) i (fun s => s <| is_compacting := false |>);
                    Ok (pool <| flushed_segments := segs |>)) olds pool) as (p & -> & Hp); [done| |eauto].
  intros dn i p Hp [t Ht]. destruct (Hs i) as [s Hi]; [rewrite Ht; set_solver|].
  specialize (Hp i) as Hpi. rewrite Hi in Hpi. destruct (flushed_segments p !! i) as [s'|] eqn:Hs'; [|done].
  run. eexists; split; [done|]. intros j. unfold update; cbn. rewrite zlookup_insert. case_decide; [subst|by apply Hp].
  rewrite <-Hp, Hs'. done.
Qed.

(** What a task leaves behind for the request [prep]: either no slot was free
    and the published list is as before, or the new segment replaces [olds]. *)
Definition installed pool pool' (prep : SegFile.PrepareFlushMetaData) (index v : Z) : Prop :=
  ((forall j, insert_idx pool <= j < MAX_SEGMENTS_COUNT -> slot_used (flushed_segments pool) j) /\
   drop_claims pool olds = Ok pool') \/
  exists new s, (new ∉ l1 ++ olds ++ l3) /\ flushed_segments pool !! new = Some s /\ in_used s = false /\
    pool_wf pool' (l1 ++ new :: l3) /\
    payload_at (flushed_segments pool') new =
      Some (payload ((set_rewritten prep index v (s <| in_used := true |>)) <| ref_count := 1 |>)) /\
    ranges (flushed_segments pool') (l1 ++ new :: l3) =
      ranges (flushed_segments pool) l1 ++ ((SegFile.start_sid prep, SegFile.end_sid prep) :: ranges (flushed_segments pool) l3) /\
    stats_counted_twice cap pool' (l1 ++ new :: l3) (set_rewritten prep index v (s <| in_used := true |>)).

Lemma install_spec d pool prep offs index :
  4 < max_file -> prep_ok prep offs -> next_version d (SegFile.start_sid prep) (SegFile.end_sid prep) < UINT32_MAX ->
  pool_wf pool (l1 ++ olds ++ l3) -> stats_exact cap pool (l1 ++ olds ++ l3) -> olds <> [] ->
  (forall i, i ∈ l1 -> start_of (flushed_segments pool) i <= SegFile.start_sid prep) ->
  (forall i, i ∈ l3 -> SegFile.start_sid prep <= start_of (flushed_segments pool) i) ->
  exists ops pool', SegFile.flush_segment_to_disk max_file d prep = Ok ops /\
    install max_file cap d pool olds prep index = Ok (run_ops d ops, pool') /\
    installed pool pool' prep index (next_version d (SegFile.start_sid prep) (SegFile.end_sid prep)).
Proof.
  intros Hmax Hok Hv Hw Hst Hne H1 H3.
  destruct (flush_completes max_file d prep offs Hmax Hok Hv) as (ops & Hf & _ & Hlat & _ & _).
  unfold install. rewrite Hf. cbn [mbind res_bind]. rewrite Hlat. set (v := next_version _ _ _).
  destruct (reserve_spec pool (l1 ++ olds ++ l3) Hw)
    as (new & p & Hres & Hwp & [(-> & -> & Hfull)|(Hnew & Hnl & _ & (s & Hs & Hu & Hs') & _ & Hoth)]);
    rewrite Hres; cbn [mbind res_bind].
  - rewrite Z.eqb_refl. destruct (drop_claims_ok pool) as (p' & Hd & _).
    { intros i Hi. eapply list_wf_slot; [apply Hw|set_solver]. }
    rewrite Hd. cbn [mbind res_bind]. eexists ops, p'. split; [done|]. split; [done|]. by left.
  - destruct (Z.eqb_spec new NIL) as [->|_]; [unfold NIL, UINT32_MAX, MAX_SEGMENTS_COUNT in Hnew; lia|].
    run. set (ns := set_rewritten prep index v (s <| in_used := true |>)).
    change (p <| flushed_segments := <[new := ns]> (flushed_segments p) |>) with (set_slot p new ns).
    assert (Hsame : forall i, i ∈ l1 ++ olds ++ l3 -> flushed_segments (set_slot p new ns) !! i = flushed_segments pool !! i).
    { intros i Hi. rewrite set_slot_other by (by intros ->). apply Hoth. by intros ->. }
    assert (Hso : forall i, i ∈ l1 ++ olds ++ l3 -> start_of (flushed_segments (set_slot p new ns)) i = start_of (flushed_segments pool) i).
    { intros i Hi. unfold start_of. by rewrite Hsame. }
    destruct (publish_rewritten_spec (set_slot p new ns) new ns) as (p2 & Hp & Hw2 & Hst2 & Hn2 & Hr2).
    + by apply set_slot_wf.
    + apply set_slot_stats; [by eapply reserve_stats|done].
    + done.
    + by eapply set_slot_same.
    + done.
    + done.
    + intros i Hi. rewrite Hso by set_solver. by apply H1.
    + intros i Hi. rewrite Hso by set_solver. by apply H3.
    + change (SegFile.prep_index_type prep) with (index_type ns).
      change (SegFile.valid_rows prep) with (vec_count ns). rewrite Hp. cbn [mbind res_bind].
      eexists ops, p2. split; [done|]. split; [done|]. right. exists new, s. do 5 (split; [done|]). split; [|done].
      rewrite Hr2. assert (Hrng : forall l, (forall i, i ∈ l -> i ∈ l1 ++ olds ++ l3) ->
        ranges (flushed_segments (set_slot p new ns)) l = ranges (flushed_segments pool) l).
      { intros l Hl. apply ranges_ext. intros i Hi. unfold payload_at. by rewrite Hsame by auto. }
      rewrite !Hrng by set_solver. done.
Qed.
End install.

(** A rebuild's input on disk: the files of version [v] read back as these
    arrays, in [d] when the task starts and, for the bitmap, in [d2] later. *)
Record rebuild_input (d d2 : directory) (a b v n : Z) (snap fresh map : list Z) (offs : list SegmentOffsetRange) : Prop := {
  in_bitmap : exists dc, SegFile.load_bitmap_file d a b v = Ok (snap, dc);
  in_mapping : SegFile.load_mapping_file d a b v = Ok map;
  in_offsets : SegFile.load_offset_file d a b v = Ok offs;
  in_fresh : exists dc, SegFile.load_bitmap_file d2 a b v = Ok (fresh, dc);
  in_sids : u32_ok a /\ u32_ok b /\ a <= b;
  in_rows : 0 <= n < 2 ^ 28 /\ zlen map = n /\ Forall tid_range map;
  in_windows : windows_ok n offs /\ zlen offs = b - a + 1 /\ 24 * zlen offs < 2 ^ 31 /\ Forall (fun o => u32_ok (off_sid o)) offs }.

Section rebuild_task.
Context (load : option bytes -> IndexType -> bool -> option Z) (IndexSerialize : Z -> bytes).
Context (has_raw_data : Z -> bool) (Count : Z -> Z).
Context (build_selected : Z -> list Z -> IndexType -> IndexType -> Z).
Context (malloc : Z -> list Z) (Hmalloc : forall k, 0 <= k -> zlen (malloc k) = k).
Context (max_file cap : Z) (others : directory -> directory) (Hmax : 4 < max_file).

Definition rebuild_prep (a b : Z) (target : IndexType) (index : Z) (map bm : list Z) (offs : list SegmentOffsetRange)
    : SegFile.PrepareFlushMetaData :=
  SegFile.mkPrep a b (zlen map) map bm (count_set bm (zlen map)) (Some (IndexSerialize index)) target (Some offs).

Lemma rebuild_prep_ok a b target index n snap map map' bm' offs offs' :
  u32_ok a -> u32_ok b -> a <= b -> 0 <= n < 2 ^ 28 -> Forall tid_range map -> 
  windows_ok n offs -> zlen offs = b - a + 1 -> 24 * zlen offs < 2 ^ 31 -> Forall (fun o => u32_ok (off_sid o)) offs ->
  zlen map = n -> zlen map' = kept snap n -> map' = kept_rows snap map 0 n -> zlen bm' = GET_BITMAP_SIZE (kept snap n) ->
  windows_ok (kept snap n) offs' -> same_tables snap map offs map' offs' ->
  prep_ok (rebuild_prep a b target index map' bm' offs') offs'.
Proof.
  intros Ha Hb Hab Hn Ht Hw Hzo Hszo Hsid Hzm Hzm' Hmap' Hbm Hw' Hst. pose proof (kept_bounds snap n ltac:(lia)) as Hk.
  pose proof (count_set_bounds bm' (kept snap n)) as Hc. pose proof (proj1 Hst) as Hlo.
  split; cbn; try done; rewrite ?Hzm'; try (unfold u32_ok; lia); try lia.
  - subst map'. rewrite Forall_forall in Ht |- *. intros x Hx. apply Ht.
    eapply sublist_in in Hx; [|apply (kept_rows_sublist snap map 0 n); lia]. by rewrite <-Hzm, slice_full in Hx.
  - pose proof (Z.div_le_upper_bound (kept snap n + 7) 8 (kept snap n + 7) ltac:(lia) ltac:(lia)).
    rewrite Hbm. unfold GET_BITMAP_SIZE. lia.
  - rewrite Forall_forall in Hsid |- *. intros w [j Hj]%elem_of_zlookup.
    destruct (same_tables_back snap map offs map' offs' j w Hst Hj) as (o & Ho & (Hs & _) & _).
    destruct (wk_range _ _ Hw' _ _ Hj). split; [rewrite Hs; apply Hsid, elem_of_zlookup; eauto|lia].
Qed.

End rebuild_task.

(** ** A concrete task

    Segment 3-4 of [flushed_dir] (rows 11, 12, 13; 12 deleted); while the new
    index is built a vacuum deletes 11. *)
Definition vacuum_11 (d : directory) : directory :=
  match SegFile.write_bitmap_file_with_subversion 8 3 4 2 1 [3] 2 with Ok ops => run_ops d ops | Error _ => d end.
Definition pool_before_rebuild : FlushedSegmentPool :=
  one_segment_pool (segment_at 3 4 2 [11; 12; 13] [2] example_offsets).
Definition block (k : Z) : list Z := replicate (Z.to_nat k) 7.

Lemma example_offsets_ok : windows_ok 3 example_offsets.
Proof.
  split.
  - intros j o Hj. apply zlookup_lt_Some in Hj as Hb. change (zlen example_offsets) with 2 in Hb.
    assert (j = 0 \/ j = 1) as [-> | ->] by lia; vm_compute in Hj; injection Hj as <-; vm_compute; repeat split; congruence.
  - intros j k o w Hj Hk Hlt. apply zlookup_lt_Some in Hj as Hb, Hk as Hb'. change (zlen example_offsets) with 2 in Hb, Hb'.
    assert (j = 0) as -> by lia. assert (k = 1) as -> by lia. vm_compute in Hj, Hk.
    injection Hj as <-. injection Hk as <-. vm_compute. congruence.
Qed.

Lemma rebuild_example_input : rebuild_input flushed_dir (vacuum_11 flushed_dir) 3 4 2 3 [2] [3] [11; 12; 13] example_offsets.
Proof.
  split.
  - exists (Some 1). vm_compute. reflexivity.
  - vm_compute. reflexivity.
  - vm_compute. reflexivity.
  - exists (Some 2). vm_compute. reflexivity.
  - unfold u32_ok. lia.
  - split; [lia|]. split; [reflexivity|]. repeat (constructor; [unfold tid_range; lia|]). constructor.
  - split; [apply example_offsets_ok|]. split; [reflexivity|]. split; [reflexivity|].
    repeat (constructor; [unfold u32_ok; cbn; lia|]). constructor.
Qed.

