(* ===== verification/BulkDelete.v ===== *)
(** Vacuum on the primary ([bulk_delete_lsm_index] of lsmindex.c) and the index
    worker's answer to it ([SEGMENT_UPDATE_VACUUM] of vector_index_worker.c).

    The vacuum marks the rows whose heap tuple is dead: first in the growing
    memtable, then in the sealed ones, then in the bitmap files of the segments
    on disk; every batch is logged for the standbys before the bitmap file is
    written, and the worker then takes the new bitmap into its pool.  The log
    records and the requests to the status pages are outputs of the model. *)

From S2P Require Import Prelude Bitmap Tid SegmentPool FileNames SegmentFiles BitmapVersions Tombstones Memtable VacuumRedo.
From S2P Require Import Adoption SegmentRewrite.

(** A record of [dpv_emit_vacuum_tombstones], with the bitmap subversion. *)
Record wal_record := mkWal {
  wal_hdr : xl_dpv_vacuum_tombstones; wal_subversion : Z; wal_entries : list xl_dpv_vacuum_entry }.

(** The state a vacuum works on: the shared memtables, the index directory and
    the worker's pool; its statistics; and what it has sent out, the log records
    and the [RemoveFromStatusMemtable] calls (memtable, row, tuple id). *)
Record vacuum_state := mkVacuum {
  vs_slots : list MemtableBufferSlot; vs_dir : directory; vs_pool : FlushedSegmentPool;
  tuples_removed : Z; num_index_tuples : Z;
  vs_wal : list wal_record; vs_status : list (Z * Z * Z) }.
#[global] Instance eta_vacuum_state : Settable vacuum_state := fun s =>
  mkVacuum (vs_slots s) (vs_dir s) (vs_pool s) (tuples_removed s) (num_index_tuples s) (vs_wal s) (vs_status s).

Module Vacuum.

(** ** The worker's side *)

(** The status (0: done, 1: retry) and the pool. *)
Definition update_vacuum (d : directory) (pool : FlushedSegmentPool) (start_sid end_sid expected_version : Z)
    : res (Z * FlushedSegmentPool) :=
  seg_idx ← Pool.find_segment_by_sids pool start_sid end_sid;
  if seg_idx =? NIL then Ok (1, pool)
  else
    pool ← Pool.pin_segment pool seg_idx;
    seg ← arr_get (flushed_segments pool) seg_idx;
    retry ← (if negb (version seg =? expected_version) || negb (in_used seg) then Ok 1
             else live_idx ← Pool.find_segment_by_sids pool start_sid end_sid;
                  Ok (if live_idx =? seg_idx then 0 else 1));
    pool ← (if retry =? 0 then
              r ← SegFile.load_bitmap_file d start_sid end_sid UINT32_MAX;
              new_delete_count ← of_option NullDeref r.2;
              old ← of_option NullDeref (bitmap_ptr seg);
              bm ← or_bytes (GET_BITMAP_SIZE (vec_count seg)) old r.1;
              segs ← arr_set (flushed_segments pool) seg_idx
                       (seg <| bitmap_ptr := Some bm |> <| delete_count := new_delete_count |>);
              Ok (pool <| flushed_segments := segs |>)
            else Ok pool);
    pool ← Pool.decrement_flushed_segment_ref_count pool seg_idx;
    Ok (retry, pool).

Section bulk_delete.
Context {B : Type} `{BlockId B}.
(** [callback(&tid, callback_state)]: the heap tuple is dead. *)
Context (callback : ItemPointerData B -> bool) (primary : bool) (max_file : Z).
(** What other processes do to directory and pool before the worker gets the
    [n]-th message of this vacuum. *)
Context (others : nat -> directory * FlushedSegmentPool -> directory * FlushedSegmentPool).

Definition dead (encoded : Z) : bool := callback (Int64ToItemPointer encoded).

Definition send_update (n : nat) (st : vacuum_state) (start_sid end_sid expected_version : Z) : res (Z * vacuum_state) :=
  let '(d, pool) := others n (vs_dir st, vs_pool st) in
  r ← update_vacuum d pool start_sid end_sid expected_version;
  Ok (r.1, st <| vs_dir := d |> <| vs_pool := r.2 |>).

(** ** Memtables *)

(** What the loop over one memtable's rows builds. *)
Record row_scan := mkScan {
  rs_bitmap : list Z; rs_changed : bool; rs_removed : Z; rs_live : Z;
  rs_entries : list xl_dpv_vacuum_entry; rs_status : list (Z * Z * Z) }.

(** One row; [check_ready]: the growing memtable looks at [ready] first. *)
Definition memtable_row (check_ready : bool) (mt : ConcurrentMemTableData) (s : row_scan) (i : Z) : res row_scan :=
  go ← (if check_ready then r ← arr_get (ready mt) i; Ok (r =? 1) else Ok true);
  if negb go then Ok s
  else
    t ← arr_get (tids mt) i;
    Ok (if dead t then
          mkScan (SET_SLOT (rs_bitmap s) i) true (rs_removed s + 1) (rs_live s)
            (if primary then rs_entries s ++ [mkEntry i t] else rs_entries s)
            (rs_status s ++ [(memtable_id mt, i, t)])
        else mkScan (rs_bitmap s) (rs_changed s) (rs_removed s) (rs_live s + 1) (rs_entries s) (rs_status s)).

Definition valid_size (mt : ConcurrentMemTableData) : Z :=
  if capacity mt <? current_size mt then capacity mt else current_size mt.

Definition emit (hdr : xl_dpv_vacuum_tombstones) (subversion : Z) (entries : list xl_dpv_vacuum_entry) (st : vacuum_state)
    : vacuum_state := st <| vs_wal := vs_wal st ++ [mkWal hdr subversion entries] |>.

Definition write_files (ops : list file_op) (st : vacuum_state) : vacuum_state := st <| vs_dir := run_ops (vs_dir st) ops |>.

(** The bitmap of a memtable as written to a file of [n] bytes. *)
Definition file_bitmap (bm : list Z) (n : Z) : res (list Z) :=
  if zlen bm <? n then Error OutOfBounds else Ok (take (Z.to_nat n) bm).

(** The part after the row loop: log, write, tell the worker.  The worker's
    answer is not looked at. *)
Definition publish_memtable (n : nat) (mt : ConcurrentMemTableData) (s : row_scan) (st : vacuum_state) : res vacuum_state :=
  let id := memtable_id mt in
  let persistent := SegFile.read_lsm_segment_metadata (vs_dir st) id id UINT32_MAX in
  if negb (rs_changed s) then Ok st
  else
    let delete_count := count_set (rs_bitmap s) (valid_size mt) in
    bytes ← file_bitmap (rs_bitmap s) (GET_BITMAP_SIZE (valid_size mt));
    match persistent with
    | Some (start_sid_disk, end_sid_disk, _, _) =>
        let version := Scan.find_latest_segment_version (readdir (vs_dir st)) id id in
        let next_sub := next_subversion (vs_dir st) id id version in
        let st := if primary then emit (mkTombstones id version 0) next_sub (rs_entries s) st else st in
        ops ← SegFile.write_bitmap_file_with_subversion max_file id id version next_sub bytes delete_count;
        r ← send_update n (write_files ops st) start_sid_disk end_sid_disk 0;
        Ok r.2
    | None =>
        let st := if primary && (0 <? zlen (rs_entries s)) then emit (mkTombstones id 0 1) UINT32_MAX (rs_entries s) st else st in
        ops ← SegFile.write_bitmap_for_memtable max_file id bytes delete_count;
        Ok (write_files ops st)
    end.

(** One memtable, its row loop and what follows.  The reference the vacuum takes
    before and drops after leaves [ref_count] as it was. *)
Definition vacuum_memtable (n : nat) (check_ready : bool) (slot : Z) (st : vacuum_state) : res vacuum_state :=
  sl ← arr_get (vs_slots st) slot;
  let mt := slot_mt sl in
  s ← foldl_res (memtable_row check_ready mt) (mkScan (mt_bitmap mt) false 0 0 [] []) (seqZ 0 (valid_size mt));
  slots ← arr_set (vs_slots st) slot (sl <| slot_mt := mt <| mt_bitmap := rs_bitmap s |> |>);
  publish_memtable n mt s
    (st <| vs_slots := slots |> <| tuples_removed := tuples_removed st + rs_removed s |>
        <| num_index_tuples := num_index_tuples st + rs_live s |> <| vs_status := vs_status st ++ rs_status s |>).

(** Step 1.  The answer is [growing_memtable_id], 0 when there is none. *)
Definition vacuum_growing (lsm : LSMIndexData) (st : vacuum_state) : res (Z * vacuum_state) :=
  let gidx := growing_memtable_idx lsm in
  if (0 <=? gidx) && negb (gidx =? MT_IDX_INVALID) && negb (gidx =? MT_IDX_ROTATING) then
    sl ← arr_get (vs_slots st) gidx;
    st ← vacuum_memtable 0 true gidx st;
    Ok (memtable_id (slot_mt sl), st)
  else Ok (0, st).

(** The next sealed memtable, from the back of the queue: its slot and id. *)
Fixpoint next_sealed (slots : list MemtableBufferSlot) (idxs : list Z) (growing_id : Z) (vacuumed : list Z)
    : res (option (Z * Z)) :=
  match idxs with
  | [] => Ok None
  | mt_idx :: idxs =>
      if (mt_idx <? 0) || (MEMTABLE_BUF_SIZE <=? mt_idx) then next_sealed slots idxs growing_id vacuumed
      else
        sl ← arr_get slots mt_idx;
        let mt_id := memtable_id (slot_mt sl) in
        if growing_id <=? mt_id then next_sealed slots idxs growing_id vacuumed
        else if bool_decide (mt_id ∈ vacuumed) then next_sealed slots idxs growing_id vacuumed
        else Ok (Some (mt_idx, mt_id))
  end.

(** Step 2, with the vacuumed ids. *)
Fixpoint vacuum_sealed (fuel : nat) (n : nat) (lsm : LSMIndexData) (growing_id : Z) (vacuumed : list Z) (st : vacuum_state)
    : res (list Z * vacuum_state) :=
  match fuel with
  | O => Error OutOfFuel
  | S fuel =>
      if MEMTABLE_NUM <? memtable_count lsm then Error ElogError
      else
        next ← next_sealed (vs_slots st) (reverse (take (Z.to_nat (memtable_count lsm)) (memtable_idxs lsm))) growing_id vacuumed;
        match next with
        | None => Ok (vacuumed, st)
        | Some (mt_idx, mt_id) =>
            sl ← arr_get (vs_slots st) mt_idx;
            if negb (mt_rel (slot_mt sl) =? indexRelId lsm) then Error ElogError
            else
              st ← vacuum_memtable n false mt_idx st;
              vacuum_sealed fuel (S n) lsm growing_id
                (if zlen vacuumed <? MEMTABLE_NUM + 1 then vacuumed ++ [mt_id] else vacuumed) st
        end
  end.

(** ** Segments on disk *)

(** What the loop over a segment's rows builds. The buffer of segment id [k]
    has room for [end_offset - start_offset] entries. *)
Record segment_scan := mkSegScan {
  ss_bitmap : list Z; ss_changed : bool; ss_delete_count : Z; ss_removed : Z; ss_live : Z;
  ss_single : list xl_dpv_vacuum_entry; ss_per_sid : list (list xl_dpv_vacuum_entry); ss_cur_off : Z }.
#[global] Instance eta_segment_scan : Settable segment_scan := fun s =>
  mkSegScan (ss_bitmap s) (ss_changed s) (ss_delete_count s) (ss_removed s) (ss_live s) (ss_single s) (ss_per_sid s) (ss_cur_off s).

(** The monotone pointer into the offset table. *)
Fixpoint advance_offset (fuel : nat) (offs : list SegmentOffsetRange) (sid_count i cur : Z) : res Z :=
  match fuel with
  | O => Error OutOfFuel
  | S fuel =>
      if cur <? sid_count then
        o ← arr_get offs cur;
        if end_offset o <=? i then advance_offset fuel offs sid_count i (cur + 1) else Ok cur
      else Ok cur
  end.

(** Filing the entry of row [i] under its segment id. *)
Definition log_row (single : bool) (offs : list SegmentOffsetRange) (sid_count i tid : Z) (s : segment_scan) : res segment_scan :=
  if negb primary then Ok s
  else if single then Ok (s <| ss_single := ss_single s ++ [mkEntry i tid] |>)
  else
    k ← advance_offset (Merge.table_fuel sid_count) offs sid_count i (ss_cur_off s);
    if sid_count <=? k then Error ElogError
    else
      o ← arr_get offs k;
      es ← arr_get (ss_per_sid s) k;
      if end_offset o - start_offset o <=? zlen es then Error OutOfBounds
      else
        per_sid ← arr_set (ss_per_sid s) k (es ++ [mkEntry (u32 (i - start_offset o)) tid]);
        Ok (s <| ss_per_sid := per_sid |> <| ss_cur_off := k |>).

Definition segment_row (single : bool) (mapping : list Z) (offs : list SegmentOffsetRange) (sid_count : Z)
    (s : segment_scan) (i : Z) : res segment_scan :=
  if IS_SLOT_SET (ss_bitmap s) i then Ok s
  else
    t ← arr_get mapping i;
    if dead t then
      log_row single offs sid_count i t
        (s <| ss_bitmap := SET_SLOT (ss_bitmap s) i |> <| ss_changed := true |> <| ss_removed := ss_removed s + 1 |>
           <| ss_delete_count := u32 (ss_delete_count s + 1) |>)
    else Ok (s <| ss_live := ss_live s + 1 |>).

(** The records of a batch: one, or one per touched segment id. *)
Definition segment_records (single : bool) (start_sid version next_sub : Z) (offs : list SegmentOffsetRange) (s : segment_scan)
    : list wal_record :=
  if negb primary then []
  else if single then
    if 0 <? zlen (ss_single s) then [mkWal (mkTombstones start_sid version 0) next_sub (ss_single s)] else []
  else
    omap (fun oe => if 0 <? zlen oe.2 then Some (mkWal (mkTombstones (off_sid oe.1) version 0) next_sub oe.2) else None)
      (zip offs (ss_per_sid s)).

(** Loading, marking, logging and writing one segment, up to the message to the
    worker: the id range and version, whether anything changed, the new state. *)
Definition vacuum_segment_files (f : Scan.SegmentFileInfo) (vacuumed : list Z) (st : vacuum_state)
    : res (option (Z * Z * Z) * vacuum_state) :=
  let seg_version := Scan.fi_version f in
  match SegFile.read_lsm_segment_metadata (vs_dir st) (Scan.fi_start_sid f) (Scan.fi_end_sid f) seg_version with
  | None => Error ElogError
  | Some (a, b, valid_rows, _) =>
      let single := a =? b in
      if single && bool_decide (a ∈ vacuumed) then Ok (None, st)
      else
        bitmap ← SegFile.load_bitmap_file (vs_dir st) a b seg_version;
        mapping ← SegFile.load_mapping_file (vs_dir st) a b seg_version;
        let delete_count := default 0 bitmap.2 in
        let sid_count := u32 (b - a + 1) in
        let multi := (0 <? valid_rows) && primary && negb single in
        offs ← (if multi then SegFile.load_offset_file (vs_dir st) a b seg_version else Ok []);
        s ← foldl_res (segment_row single mapping offs sid_count)
              (mkSegScan bitmap.1 false delete_count 0 0 [] (if multi then replicate (Z.to_nat sid_count) [] else []) 0)
              (seqZ 0 valid_rows);
        let st := st <| tuples_removed := tuples_removed st + ss_removed s |> <| num_index_tuples := num_index_tuples st + ss_live s |> in
        if ss_changed s then
          let next_sub := next_subversion (vs_dir st) a b seg_version in
          let st := st <| vs_wal := vs_wal st ++ segment_records single a seg_version next_sub offs s |> in
          bytes ← file_bitmap (ss_bitmap s) (GET_BITMAP_SIZE valid_rows);
          ops ← SegFile.write_bitmap_file_with_subversion max_file a b seg_version next_sub bytes (ss_delete_count s);
          Ok (Some (a, b, seg_version), write_files ops st)
        else Ok (None, st)
  end.

(** [retry_segment]: again with the segment that covers the first id now. *)
Fixpoint vacuum_segment (fuel : nat) (n : nat) (f : Scan.SegmentFileInfo) (vacuumed : list Z) (st : vacuum_state)
    : res (nat * vacuum_state) :=
  match fuel with
  | O => Error OutOfFuel
  | S fuel =>
      r ← vacuum_segment_files f vacuumed st;
      match r with
      | (None, st) => Ok (n, st)
      | (Some (a, b, v), st) =>
          w ← send_update n st a b v;
          let '(result, st) := w in
          if result =? 1 then
            match Redo.find_disk_segment_for_sid (vs_dir st) a with
            | Some f => vacuum_segment fuel (S n) f vacuumed st
            | None => Ok (S n, st)
            end
          else Ok (S n, st)
      end
  end.

(** Step 3.  [retries] bounds the retries of one file. *)
Definition vacuum_segments (retries : nat) (n : nat) (vacuumed : list Z) (st : vacuum_state) : res vacuum_state :=
  let files := Scan.scan_segment_metadata_files (readdir (vs_dir st)) (Z.to_nat MAX_SEGMENTS_COUNT) in
  r ← foldl_res (fun acc f => vacuum_segment retries acc.1 f vacuumed acc.2) (n, st) files;
  Ok r.2.

(** The whole vacuum; [lsm] is [None] when the index is not loaded. *)
Definition bulk_delete_lsm_index (retries : nat) (lsm : option LSMIndexData) (st : vacuum_state) : res vacuum_state :=
  match lsm with
  | None => Ok st
  | Some lsm =>
      g ← vacuum_growing lsm st;
      let '(growing_id, st) := g in
      let gidx := growing_memtable_idx lsm in
      let found := (0 <=? gidx) && negb (gidx =? MT_IDX_INVALID) && negb (gidx =? MT_IDX_ROTATING) in
      s ← vacuum_sealed (S (S (Z.to_nat MEMTABLE_NUM))) 1 lsm growing_id (if found then [growing_id] else []) st;
      let '(vacuumed, st) := s in
      vacuum_segments retries (S (S (Z.to_nat MEMTABLE_NUM))) vacuumed st
  end.

End bulk_delete.
End Vacuum.

Import Vacuum.

(** ** Marking one segment *)

Lemma length_omap_le {A C} (f : A -> option C) (l : list A) : (length (omap f l) <= length l)%nat.
Proof. induction l as [|x l IH]; cbn; [lia|]. destruct (f x); cbn; lia. Qed.

Section segment.
Context {B : Type} `{BlockId B} (callback : ItemPointerData B -> bool) (primary : bool).
Context (n : Z) (map bm : list Z) (Hn : 0 <= n < 2 ^ 31) (Hmap : zlen map = n) (Hbm : covers bm n).

(** Row [i] holds a dead tuple. *)
Definition dead_row (i : Z) : bool := match map !! i with Some t => dead callback t | None => false end.

(** The rows of a range the vacuum marks, numbered from its start. *)
Definition victims (lo hi : Z) : list xl_dpv_vacuum_entry :=
  omap (fun i => if IS_SLOT_SET bm i then None
                 else t ← map !! i; if dead callback t then Some (mkEntry (i - lo) t) else None) (seqZ lo (hi - lo)).

Lemma victims_nil lo hi : hi <= lo -> victims lo hi = [].
Proof. intros Hle. unfold victims, seqZ. by replace (Z.to_nat (hi - lo)) with 0%nat by lia. Qed.

Lemma victims_snoc lo hi t : lo <= hi -> map !! hi = Some t ->
  victims lo (hi + 1) = victims lo hi ++ (if negb (IS_SLOT_SET bm hi) && dead callback t then [mkEntry (hi - lo) t] else []).
Proof.
  intros Hlo Ht. unfold victims. replace (hi + 1 - lo) with (hi - lo + 1) by lia.
  rewrite seqZ_snoc, omap_app by lia. f_equal. replace (lo + (hi - lo)) with hi by lia. cbn.
  destruct (IS_SLOT_SET bm hi); [done|]. rewrite Ht. cbn. by destruct (dead callback t).
Qed.

Lemma victims_length lo hi : lo <= hi -> zlen (victims lo hi) <= hi - lo.
Proof.
  intros Hle. unfold victims, zlen. etrans; [apply inj_le, length_omap_le|]. rewrite length_seqZ. lia.
Qed.

Lemma elem_of_victims lo hi e :
  e ∈ victims lo hi <-> lo <= lo + sid_local_idx e < hi /\ IS_SLOT_SET bm (lo + sid_local_idx e) = false /\
    map !! (lo + sid_local_idx e) = Some (entry_tid e) /\ dead callback (entry_tid e) = true.
Proof.
  unfold victims. rewrite list_elem_of_omap. split.
  - intros (i & Hi%elem_of_seqZ & He). destruct (IS_SLOT_SET bm i) eqn:Hb; [done|].
    destruct (map !! i) as [t|] eqn:Ht; [|done]. cbn in He. destruct (dead callback t) eqn:Hd; [|done].
    injection He as <-. cbn. replace (lo + (i - lo)) with i by lia. split; [lia|done].
  - intros (Hr & Hb & Ht & Hd). exists (lo + sid_local_idx e). split; [apply elem_of_seqZ; lia|].
    rewrite Hb, Ht. cbn. rewrite Hd. destruct e as [x t]; cbn. do 2 f_equal. lia.
Qed.

(** The part of the loop state that does not depend on the log. *)
Record scan_inv (i : Z) (s : segment_scan) : Prop := {
  si_len : zlen (ss_bitmap s) = zlen bm;
  si_bits : forall q, 0 <= q -> IS_SLOT_SET (ss_bitmap s) q = IS_SLOT_SET bm q || ((q <? i) && dead_row q);
  si_count : ss_delete_count s = count_set (ss_bitmap s) n;
  si_removed : ss_removed s = zlen (victims 0 i);
  si_changed : ss_changed s = (0 <? ss_removed s);
  si_live : ss_live s = i - count_set (ss_bitmap s) i;
  si_same : ss_removed s = 0 -> ss_bitmap s = bm }.

(** One row, whatever the log does to its own fields. *)
Lemma scan_inv_step i s s' t :
  0 <= i < n -> map !! i = Some t -> scan_inv i s -> IS_SLOT_SET (ss_bitmap s) i = IS_SLOT_SET bm i ->
  (if IS_SLOT_SET bm i then
     ss_bitmap s' = ss_bitmap s /\ ss_changed s' = ss_changed s /\ ss_delete_count s' = ss_delete_count s /\
     ss_removed s' = ss_removed s /\ ss_live s' = ss_live s
   else if dead callback t then
     ss_bitmap s' = SET_SLOT (ss_bitmap s) i /\ ss_changed s' = true /\ ss_delete_count s' = u32 (ss_delete_count s + 1) /\
     ss_removed s' = ss_removed s + 1 /\ ss_live s' = ss_live s
   else
     ss_bitmap s' = ss_bitmap s /\ ss_changed s' = ss_changed s /\ ss_delete_count s' = ss_delete_count s /\
     ss_removed s' = ss_removed s /\ ss_live s' = ss_live s + 1) ->
  scan_inv (i + 1) s'.
Proof.
  intros Hi Ht [Hl Hb Hc Hr Hch Hlv Hsm] Hbi Hs'.
  assert (Hdr : dead_row i = dead callback t) by (unfold dead_row; by rewrite Ht).
  assert (Hcov : covers (ss_bitmap s) n) by (unfold covers in *; by rewrite Hl).
  assert (Hlt : forall q, (q <? i + 1) && dead_row q = ((q <? i) && dead_row q) || ((q =? i) && dead_row q)).
  { intros q. destruct (dead_row q); [|by rewrite !andb_false_r]. rewrite !andb_true_r.
    destruct (Z.ltb_spec q (i + 1)), (Z.ltb_spec q i), (Z.eqb_spec q i); (done || lia). }
  pose proof (victims_snoc 0 i t ltac:(lia) Ht) as Hv. pose proof (count_set_bounds (ss_bitmap s) n) as Hcb.
  destruct (IS_SLOT_SET bm i) eqn:Hbmi; [|destruct (dead callback t) eqn:Hd]; destruct Hs' as (E1 & E2 & E3 & E4 & E5);
    split; rewrite ?E1, ?E2, ?E3, ?E4, ?E5, ?Hv, ?Hbmi by lia; cbn [negb andb];
    rewrite ?app_nil_r; try done; try lia; try (rewrite count_set_succ, Hbi by lia; lia).
  - intros q Hq. rewrite Hb, Hlt by done. destruct (Z.eqb_spec q i) as [->|]; [by rewrite Hbmi|]. by rewrite orb_false_r.
  - by rewrite zlen_SET_SLOT.
  - intros q Hq. rewrite (IS_SLOT_SET_SET _ n), Hb, Hlt by (done || lia).
    destruct (Z.eqb_spec i q) as [<-|]; [rewrite Z.eqb_refl, Hdr; cbn; by rewrite !orb_true_r|].
    destruct (Z.eqb_spec q i); [lia|]. by rewrite orb_false_r.
  - rewrite count_set_SET by (done || lia). rewrite Hc, u32_small; [done|]. split; [lia|].
    enough (count_set (ss_bitmap s) n < n) by lia. pose proof (count_set_SET (ss_bitmap s) n i Hcov Hi Hbi) as Hx.
    pose proof (count_set_bounds (SET_SLOT (ss_bitmap s) i) n). lia.
  - rewrite zlen_app, Hr. done.
  - rewrite Hr. pose proof (zlen_nonneg (victims 0 i)). symmetry. apply Z.ltb_lt. lia.
  - rewrite count_set_succ, (IS_SLOT_SET_SET _ n), Z.eqb_refl by (done || lia). cbn [orb].
    rewrite (count_set_ext _ (ss_bitmap s) i); [lia|]. intros j Hj. rewrite (IS_SLOT_SET_SET _ n) by (done || lia).
    by destruct (Z.eqb_spec i j); [lia|].
  - rewrite Hr. pose proof (zlen_nonneg (victims 0 i)). lia.
  - intros q Hq. rewrite Hb, Hlt by done. destruct (Z.eqb_spec q i) as [->|]; [rewrite Hdr; by destruct (i <? i), (IS_SLOT_SET bm i)|]. by rewrite orb_false_r.
Qed.

(** *** The log buffers *)
Context (offs : list SegmentOffsetRange) (Hw : windows_ok n offs).
Context (Hcover : forall r, 0 <= r < n -> exists j o, offs !! j = Some o /\ start_offset o <= r < end_offset o).

Definition victim (i : Z) : bool := negb (IS_SLOT_SET bm i) && dead_row i.

Lemma victims_upto_same j o i :
  offs !! j = Some o -> 0 <= i < n -> victim i = false \/ ~ (start_offset o <= i < end_offset o) ->
  victims (start_offset o) (Z.min (end_offset o) (i + 1)) = victims (start_offset o) (Z.min (end_offset o) i).
Proof.
  intros Ho Hi Hv. destruct (wk_range _ _ Hw _ _ Ho) as [Hr _].
  destruct (decide (end_offset o <= i)); [by rewrite !Z.min_l by lia|]. rewrite !Z.min_r by lia.
  destruct (decide (i < start_offset o)); [by rewrite !victims_nil by lia|].
  destruct (zlookup_lt_is_Some map i) as [t Ht]; [lia|]. rewrite (victims_snoc _ _ t) by (done || lia).
  destruct Hv as [Hv|]; [|lia]. unfold victim, dead_row in Hv. rewrite Ht in Hv. by rewrite Hv, app_nil_r.
Qed.

Lemma victims_upto_in j o i t :
  offs !! j = Some o -> start_offset o <= i < end_offset o -> map !! i = Some t -> victim i = true ->
  victims (start_offset o) (Z.min (end_offset o) (i + 1)) =
    victims (start_offset o) (Z.min (end_offset o) i) ++ [mkEntry (i - start_offset o) t].
Proof.
  intros Ho Hi Ht Hv. rewrite !Z.min_r by lia. rewrite (victims_snoc _ _ t) by (done || lia).
  unfold victim, dead_row in Hv. rewrite Ht in Hv. by rewrite Hv.
Qed.

Record log_inv (i : Z) (s : segment_scan) : Prop := {
  lg_len : zlen (ss_per_sid s) = zlen offs;
  lg_cur : 0 <= ss_cur_off s <= zlen offs;
  lg_past : forall k o, offs !! k = Some o -> k < ss_cur_off s -> end_offset o <= i;
  lg_entries : forall k o, offs !! k = Some o -> ss_per_sid s !! k = Some (victims (start_offset o) (Z.min (end_offset o) i)) }.

Definition log_ok (single : bool) (i : Z) (s : segment_scan) : Prop :=
  if negb primary then True else if single then ss_single s = victims 0 i else log_inv i s.

Lemma advance_offset_spec fuel i cur :
  0 <= i < n -> 0 <= cur <= zlen offs -> zlen offs - cur < Z.of_nat fuel ->
  (forall k o, offs !! k = Some o -> k < cur -> end_offset o <= i) ->
  exists k o, advance_offset fuel offs (zlen offs) i cur = Ok k /\ cur <= k < zlen offs /\ offs !! k = Some o /\
    start_offset o <= i < end_offset o /\ forall k' o', offs !! k' = Some o' -> k' < k -> end_offset o' <= i.
Proof.
  intros Hi. revert cur. induction fuel as [|fuel IH]; intros cur Hc Hf Hpast; [lia|]. cbn [advance_offset].
  destruct (Hcover i Hi) as (j & o & Ho & Hin). apply zlookup_lt_Some in Ho as Hj.
  assert (Hcj : cur <= j).
  { destruct (decide (cur <= j)); [done|]. specialize (Hpast j o Ho ltac:(lia)). lia. }
  destruct (Z.ltb_spec cur (zlen offs)); [|lia]. destruct (zlookup_lt_is_Some offs cur) as [oc Hoc]; [lia|]. run.
  destruct (Z.leb_spec (end_offset oc) i) as [Hle|Hgt].
  - destruct (IH (cur + 1)) as (k & o' & -> & Hk & Ho' & Hin' & Hp); [lia|lia| |].
    { intros k o' Ho' Hk. destruct (decide (k = cur)) as [->|]; [by assert (o' = oc) as -> by congruence|].
      apply (Hpast k); [done|lia]. }
    exists k, o'. split; [done|]. split; [lia|done].
  - assert (cur = j) as <-.
    { destruct (decide (cur = j)) as [|Hne]; [done|].
      pose proof (wk_order _ _ Hw _ _ _ _ Hoc Ho ltac:(lia)). pose proof (wk_range _ _ Hw _ _ Hoc). lia. }
    assert (oc = o) as -> by congruence. exists cur, o. split; [done|]. split; [lia|]. split; [done|]. split; [done|].
    intros k' o' Ho' Hk'. by apply (Hpast k').
Qed.

(** Filing the entry of a marked row. *)
Lemma log_row_spec single i t s :
  0 <= i < n -> map !! i = Some t -> victim i = true -> log_ok single i s ->
  exists s', log_row primary single offs (zlen offs) i t s = Ok s' /\ log_ok single (i + 1) s' /\
    ss_bitmap s' = ss_bitmap s /\ ss_changed s' = ss_changed s /\ ss_delete_count s' = ss_delete_count s /\
    ss_removed s' = ss_removed s /\ ss_live s' = ss_live s.
Proof.
  intros Hi Ht Hv Hlog. unfold log_row, log_ok in *. destruct primary; cbn [negb] in *; [|by exists s].
  destruct single.
  { eexists; split; [done|]. split; [|done]. unfold update; cbn. rewrite (victims_snoc _ _ t), Hlog by (done || lia).
    unfold victim, dead_row in Hv. rewrite Ht in Hv. by rewrite Hv, Z.sub_0_r. }
  destruct Hlog as [Hlen Hcur Hpast Hent].
  destruct (advance_offset_spec (Merge.table_fuel (zlen offs)) i (ss_cur_off s)) as (k & o & -> & Hk & Ho & Hin & Hp);
    [done|done|unfold Merge.table_fuel; lia|done|]. cbn [mbind res_bind].
  destruct (Z.leb_spec (zlen offs) k); [lia|]. pose proof (Hent k o Ho) as He. run.
  destruct (wk_range _ _ Hw _ _ Ho) as [Hr Hr2].
  pose proof (victims_length (start_offset o) (Z.min (end_offset o) i) ltac:(lia)) as Hvl.
  destruct (Z.leb_spec (end_offset o - start_offset o) (zlen (victims (start_offset o) (Z.min (end_offset o) i)))); [lia|].
  rewrite (u32_small (i - start_offset o)) by lia. eexists; split; [done|]. split; [|done].
  split; unfold update; cbn.
  - by rewrite zlen_insert.
  - lia.
  - intros k' o' Ho' Hk'. specialize (Hp k' o' Ho' Hk'). lia.
  - intros k' o' Ho'. rewrite zlookup_insert. case_decide as Hkk.
    + subst k'. assert (o' = o) as -> by congruence. rewrite He. cbn. by rewrite (victims_upto_in k o i t).
    + rewrite (Hent k' o' Ho'). f_equal. symmetry. apply (victims_upto_same k'); [done|done|]. right. intros Hin'.
      destruct (Z.lt_trichotomy k' k) as [Hlt|[|Hlt]]; [|congruence|].
      * pose proof (wk_order _ _ Hw _ _ _ _ Ho' Ho Hlt). lia.
      * pose proof (wk_order _ _ Hw _ _ _ _ Ho Ho' Hlt). lia.
Qed.

Lemma log_ok_skip single i s s' :
  0 <= i < n -> victim i = false -> ss_single s' = ss_single s -> ss_per_sid s' = ss_per_sid s -> ss_cur_off s' = ss_cur_off s ->
  log_ok single i s -> log_ok single (i + 1) s'.
Proof.
  intros Hi Hv E1 E2 E3. unfold log_ok. destruct primary; cbn [negb]; [|done]. destruct single.
  - rewrite E1. intros ->. destruct (zlookup_lt_is_Some map i) as [t Ht]; [lia|].
    rewrite (victims_snoc _ _ t) by (done || lia). unfold victim, dead_row in Hv. rewrite Ht in Hv. by rewrite Hv, app_nil_r.
  - intros [Hlen Hcur Hpast Hent]. split; rewrite ?E2, ?E3; [done|done| |].
    + intros k o Ho Hk. specialize (Hpast k o Ho Hk). lia.
    + intros k o Ho. rewrite (Hent k o Ho). f_equal. symmetry. apply (victims_upto_same k); [done|done|by left].
Qed.

Lemma segment_row_spec single i s :
  0 <= i < n -> scan_inv i s -> log_ok single i s ->
  exists s', segment_row callback primary single map offs (zlen offs) s i = Ok s' /\ scan_inv (i + 1) s' /\ log_ok single (i + 1) s'.
Proof.
  intros Hi Hs Hl. destruct (zlookup_lt_is_Some map i) as [t Ht]; [lia|].
  assert (Hbi : IS_SLOT_SET (ss_bitmap s) i = IS_SLOT_SET bm i).
  { rewrite (si_bits _ _ Hs) by lia. rewrite Z.ltb_irrefl. cbn. by rewrite orb_false_r. }
  assert (Hvi : victim i = negb (IS_SLOT_SET bm i) && dead callback t) by (unfold victim, dead_row; by rewrite Ht).
  pose proof (scan_inv_step i s) as Hstep. unfold segment_row. rewrite Hbi. destruct (IS_SLOT_SET bm i) eqn:Hb.
  { exists s. split; [done|]. split; [by apply (Hstep s t)|]. by eapply log_ok_skip. }
  run. destruct (dead callback t) eqn:Hd.
  - set (s1 := s <| ss_bitmap := _ |> <| ss_changed := true |> <| ss_removed := _ |> <| ss_delete_count := _ |>).
    destruct (log_row_spec single i t s1) as (s' & -> & Hl' & E1 & E2 & E3 & E4 & E5); [done|done|done| |].
    { revert Hl. unfold log_ok. destruct primary, single; cbn [negb]; try done. by intros []; split. }
    exists s'. split; [done|]. split; [|done]. apply (Hstep s' t); [done..|]. rewrite Hd. by rewrite E1, E2, E3, E4, E5.
  - eexists; split; [done|]. split; [apply (Hstep _ t); [done..|]; by rewrite Hd|]. by apply (log_ok_skip single i s).
Qed.
End segment.

(** ** The worker's answer *)
Section worker_side.
Implicit Types (pool : FlushedSegmentPool) (l : list Z) (seg : FlushedSegmentData).

Lemma first_slot_ext (P : FlushedSegmentData -> bool) segs segs' l :
  (forall j, j ∈ l -> P <$> (segs' !! j) = P <$> (segs !! j)) -> first_slot P segs' l = first_slot P segs l.
Proof.
  induction l as [|j l IH]; intros Hp; [done|]. cbn. specialize (Hp j ltac:(left)) as Hj.
  rewrite IH by (intros; apply Hp; by right).
  destruct (segs' !! j), (segs !! j); cbn in Hj; try done. by injection Hj as ->.
Qed.

Lemma find_by_sids pool l a b : pool_wf pool l ->
  Pool.find_segment_by_sids pool a b = Ok (first_slot (exact_range a b) (flushed_segments pool) l).
Proof.
  intros Hw. unfold Pool.find_segment_by_sids. rewrite (pw_head _ _ Hw).
  by rewrite (find_by_sids_loop_spec pool [] l) by (done || apply (list_wf_fuel _ _ (pw_list _ _ Hw))).
Qed.

(** Taking a reference keeps the published list as it is. *)
Lemma set_ref_wf pool l i seg r :
  pool_wf pool l -> flushed_segments pool !! i = Some seg -> 1 <= r < 2 ^ 31 ->
  pool_wf (set_slot pool i (seg <| ref_count := r |>)) l.
Proof.
  intros Hw Hs Hr. split; cbn; try apply Hw.
  - by apply list_wf_set_ref; [apply Hw|].
  - intros j sj Hj. rewrite zlookup_insert. case_decide; [subst|by apply (pw_refs _ _ Hw)].
    rewrite Hs. intros [= <-]. done.
Qed.

Lemma pin_spec pool i seg :
  flushed_segments pool !! i = Some seg -> 0 <= ref_count seg -> ref_count seg + 1 < 2 ^ 31 ->
  Pool.pin_segment pool i = Ok (set_slot pool i (seg <| ref_count := ref_count seg + 1 |>)).
Proof.
  intros Hs Hr Hr'. unfold Pool.pin_segment. rewrite (arr_upd_Some _ _ _ _ Hs). cbn [mbind res_bind].
  unfold set_slot, update. cbn. by rewrite i32_small by lia.
Qed.

Lemma unpin_spec pool i seg :
  flushed_segments pool !! i = Some seg -> 2 <= ref_count seg < 2 ^ 31 ->
  Pool.decrement_flushed_segment_ref_count pool i = Ok (set_slot pool i (seg <| ref_count := ref_count seg - 1 |>)).
Proof.
  intros Hs Hr. unfold Pool.decrement_flushed_segment_ref_count, Pool.ref_count_fetch_sub.
  rewrite (arr_upd_Some _ _ _ _ Hs). cbn [mbind res_bind]. unfold Pool.ref_count_check, set_slot, update. cbn.
  rewrite (proj2 (arr_get_Ok _ _ _) (zlookup_insert_eq _ _ _ _ Hs)). cbn. rewrite i32_small by lia.
  destruct (Z.eqb_spec (ref_count seg - 1) 0); [lia|done].
Qed.

(** The worker, on the segment that is still the published one at the expected
    version: done, and only its bitmap and delete count change. *)
Lemma update_vacuum_spec d pool l i seg a b v mbm bm dc :
  pool_wf pool l -> i ∈ l -> flushed_segments pool !! i = Some seg ->
  first_slot (exact_range a b) (flushed_segments pool) l = i -> version seg = v -> ref_count seg + 1 < 2 ^ 31 ->
  bitmap_ptr seg = Some mbm -> 0 <= vec_count seg -> covers mbm (vec_count seg) -> covers bm (vec_count seg) ->
  SegFile.load_bitmap_file d a b UINT32_MAX = Ok (bm, Some dc) ->
  exists mbm', update_vacuum d pool a b v = Ok (0, set_slot pool i (seg <| bitmap_ptr := Some mbm' |> <| delete_count := dc |>)) /\
    zlen mbm' = zlen mbm /\
    forall q, 0 <= q < vec_count seg -> IS_SLOT_SET mbm' q = IS_SLOT_SET mbm q || IS_SLOT_SET bm q.
Proof.
  intros Hw Hi Hs Hfirst Hv Hr Hb Hn Hcm Hcb Hload.
  pose proof (pw_refs _ _ Hw i seg Hi Hs) as Href. pose proof (lw_used _ _ (pw_list _ _ Hw) i seg Hi Hs) as Hu.
  destruct (or_bytes_bits (vec_count seg) mbm bm Hn Hcm Hcb) as (mbm' & Hor & Hz & Hbits).
  exists mbm'. split; [|split; [done|exact Hbits]].
  unfold update_vacuum. rewrite (find_by_sids pool l) by done. cbn [mbind res_bind]. rewrite Hfirst.
  destruct (Z.eqb_spec i NIL) as [->|_]; [by destruct (list_wf_not_nil _ _ (pw_list _ _ Hw))|].
  rewrite (pin_spec pool i seg) by (done || lia). cbn [mbind res_bind].
  set (seg1 := seg <| ref_count := ref_count seg + 1 |>). set (pool1 := set_slot pool i seg1).
  assert (Hs1 : flushed_segments pool1 !! i = Some seg1) by (by eapply set_slot_same).
  assert (Hw1 : pool_wf pool1 l) by (apply set_ref_wf; [done|done|lia]).
  rewrite (proj2 (arr_get_Ok _ _ _) Hs1). cbn [mbind res_bind].
  change (version seg1) with (version seg). change (in_used seg1) with (in_used seg). rewrite Hv, Z.eqb_refl, Hu. cbn [negb orb].
  rewrite (find_by_sids pool1 l) by done. cbn [mbind res_bind].
  rewrite (first_slot_ext _ (flushed_segments pool)), Hfirst, !Z.eqb_refl.
  2: { intros j Hj. destruct (decide (j = i)) as [->|]; [by rewrite Hs1, Hs|]. unfold pool1. by rewrite set_slot_other. }
  cbn [mbind res_bind]. change (0 =? 0) with true. cbv iota. rewrite Hload. cbn [mbind res_bind snd fst of_option].
  change (bitmap_ptr seg1) with (bitmap_ptr seg). rewrite Hb. cbn [of_option mbind res_bind].
  change (vec_count seg1) with (vec_count seg). rewrite Hor. cbn [mbind res_bind].
  rewrite (arr_set_Some _ _ _ _ Hs1). cbn [mbind res_bind].
  set (seg2 := seg1 <| bitmap_ptr := Some mbm' |> <| delete_count := dc |>).
  change (pool1 <| flushed_segments := <[i := seg2]> (flushed_segments pool1) |>) with (set_slot pool1 i seg2).
  rewrite (unpin_spec _ i seg2); [|by eapply set_slot_same|change (ref_count seg2) with (ref_count seg + 1); lia].
  cbn [mbind res_bind]. unfold pool1. rewrite !set_slot_twice. do 3 f_equal.
  unfold seg2, seg1, update; cbn. destruct seg; cbn. f_equal. lia.
Qed.
(** No segment of the expected version: the worker asks to retry and changes nothing. *)
Lemma update_vacuum_stale d pool l a b v :
  pool_wf pool l ->
  (forall i seg, i ∈ l -> flushed_segments pool !! i = Some seg -> version seg <> v /\ ref_count seg + 1 < 2 ^ 31) ->
  update_vacuum d pool a b v = Ok (1, pool).
Proof.
  intros Hw Hall. unfold update_vacuum. rewrite (find_by_sids pool l) by done. cbn [mbind res_bind].
  destruct (first_slot_spec (exact_range a b) pool l Hw) as [Hfound _]. set (i := first_slot _ _ _) in *.
  destruct (Z.eqb_spec i NIL) as [|Hne]; [done|]. destruct (Hfound Hne) as (Hi & seg & Hs & _).
  destruct (Hall i seg Hi Hs) as [Hv Hr]. pose proof (pw_refs _ _ Hw i seg Hi Hs) as Href.
  rewrite (pin_spec pool i seg) by (done || lia). cbn [mbind res_bind].
  set (seg1 := seg <| ref_count := ref_count seg + 1 |>).
  assert (Hs1 : flushed_segments (set_slot pool i seg1) !! i = Some seg1) by (by eapply set_slot_same).
  rewrite (proj2 (arr_get_Ok _ _ _) Hs1). cbn [mbind res_bind]. change (version seg1) with (version seg).
  destruct (Z.eqb_spec (version seg) v) as [|_]; [done|]. cbn [negb orb mbind res_bind]. change (1 =? 0) with false. cbv iota.
  cbn [mbind res_bind]. rewrite (unpin_spec _ i seg1) by (done || (change (ref_count seg1) with (ref_count seg + 1); lia)).
  cbn [mbind res_bind]. rewrite set_slot_twice. do 2 f_equal.
  assert (seg1 <| ref_count := ref_count seg1 - 1 |> = seg) as ->; [|by apply set_slot_id].
  unfold seg1, update; cbn. destruct seg; cbn. f_equal. lia.
Qed.

End worker_side.

(** ** One segment file *)
Section file.
Context {B : Type} `{BlockId B} (callback : ItemPointerData B -> bool) (primary : bool) (max_file : Z) (Hmax : 4 < max_file).
Context (a b v n : Z) (map bm : list Z) (offs : list SegmentOffsetRange).

(** The log records of the batch: one per segment id with a marked row. *)
Definition batch_records (sub : Z) : list wal_record :=
  if negb primary then []
  else omap (fun o => let es := victims callback map bm (start_offset o) (end_offset o) in
                      if 0 <? zlen es then Some (mkWal (mkTombstones (off_sid o) v 0) sub es) else None) offs.

(** The segment as the vacuum finds it. *)
Record vacuumable (d : directory) : Prop := {
  vc_disk : on_disk d a b v n map bm offs;
  vc_latest : Scan.find_latest_segment_version (readdir d) a b = v;
  vc_subs : subversions_small d a b v;
  vc_rows : 0 < n;
  vc_windows : windows_ok n offs /\ zlen offs = b - a + 1 /\ zlen offs < 2 ^ 32;
  vc_single : a = b -> offs = [mkOffsetRange a 0 n];
  vc_cover : forall r, 0 <= r < n -> exists j o, offs !! j = Some o /\ start_offset o <= r < end_offset o }.

Lemma vacuumable_covers d : vacuumable d -> covers bm n.
Proof. intros Hv. destruct (vc_disk _ Hv) as [_ _ _ _ _ (_ & _ & Hz)]. unfold covers. lia. Qed.

(** The row loop from its initial state. *)
Lemma segment_scan_spec d (offs' : list SegmentOffsetRange) single :
  vacuumable d -> single = (a =? b) ->
  offs' = (if primary && negb single then offs else []) ->
  exists s, foldl_res (segment_row callback primary single map offs' (zlen offs))
      (mkSegScan bm false (count_set bm n) 0 0 []
         (if (0 <? n) && primary && negb single then replicate (Z.to_nat (zlen offs)) [] else []) 0) (seqZ 0 n) = Ok s /\
    scan_inv callback n map bm n s /\
    forall sub, segment_records primary single a v sub offs' s = batch_records sub.
Proof.
  intros Hv Hsingle Hoffs'. pose proof (vacuumable_covers d Hv) as Hcov.
  destruct Hv as [[_ _ _ _ _ (Hn & Hmap & _)] _ _ Hpos (Hw & Hlo & Hlo32) Hone Hcover].
  set (init := mkSegScan _ _ _ _ _ _ _ _).
  assert (Hs0 : scan_inv callback n map bm 0 init).
  { split; cbn; try done. intros q Hq. destruct (Z.ltb_spec q 0); [lia|]. by rewrite orb_false_r. }
  destruct (for_loop (fun i s => scan_inv callback n map bm i s /\ log_ok callback primary map bm offs single i s)
              (segment_row callback primary single map offs' (zlen offs)) init n) as (s & Hrun & Hs & Hlog); [lia| | |].
  - split; [done|]. unfold log_ok. destruct primary eqn:Hp; cbn [negb]; [|done].
    destruct single eqn:Hsg; [done|]. unfold init. cbn [negb andb]. destruct (Z.ltb_spec 0 n); [|lia]. cbn [andb].
    pose proof (zlen_nonneg offs). split; cbn; try lia.
    + unfold zlen at 1. rewrite length_replicate. lia.
    + intros k o Hk. apply zlookup_lt_Some in Hk. lia.
    + intros k o Hk. destruct (wk_range _ _ Hw _ _ Hk). rewrite victims_nil by lia.
      apply zlookup_lt_Some in Hk. unfold lookup, zlist_lookup. rewrite decide_True by lia.
      apply lookup_replicate. split; [done|lia].
  - intros i s Hi [Hs Hl]. destruct primary eqn:Hp.
    + destruct single eqn:Hsg; cbn [negb andb] in Hoffs'.
      * (* one id: the offset table is not read *)
        destruct (segment_row_spec callback true n map bm Hn Hmap Hcov offs Hw Hcover true i s Hi Hs Hl) as (s' & Hr & Hs' & Hl').
        exists s'. split; [|done]. rewrite <-Hr. unfold segment_row. destruct (IS_SLOT_SET (ss_bitmap s) i); [done|].
        destruct (arr_get map i) as [t|]; [|done]. cbn [mbind res_bind]. by destruct (dead callback t).
      * subst offs'. by apply segment_row_spec.
    + destruct (segment_row_spec callback false n map bm Hn Hmap Hcov offs Hw Hcover single i s Hi Hs Hl) as (s' & Hr & Hs' & Hl').
      exists s'. split; [|done]. rewrite <-Hr. unfold segment_row. destruct (IS_SLOT_SET (ss_bitmap s) i); [done|].
      destruct (arr_get map i) as [t|]; [|done]. cbn [mbind res_bind]. by destruct (dead callback t).
  - exists s. split; [done|]. split; [done|]. intros sub. unfold segment_records, batch_records, log_ok in *.
    destruct primary; cbn [negb] in *; [|done]. destruct single eqn:Hsg.
    + rewrite (Hone (proj1 (Z.eqb_eq a b) (eq_sym Hsingle))), Hlog. cbn. by destruct (0 <? zlen _).
    + cbn in Hoffs'. subst offs'. destruct Hlog as [Hpl _ _ Hent].
      assert (Hper : ss_per_sid s = (fun o => victims callback map bm (start_offset o) (end_offset o)) <$> offs).
      { apply zlist_eq; [by rewrite zlen_fmap|]. intros k Hk. rewrite zlookup_fmap.
        destruct (zlookup_lt_is_Some offs k) as [o Ho]; [lia|]. rewrite (Hent k o Ho), Ho. cbn.
        destruct (wk_range _ _ Hw _ _ Ho). by rewrite Z.min_l by lia. }
      rewrite Hper. clear. induction offs as [|o os IH]; [done|]. cbn. destruct (0 <? zlen _); by rewrite IH.
Qed.

(** Nothing to mark: no records. *)
Lemma batch_records_nil sub : windows_ok n offs -> victims callback map bm 0 n = [] -> batch_records sub = [].
Proof.
  intros Hw Hnil. unfold batch_records. destruct primary; cbn [negb]; [|done].
  assert (Hall : forall o, o ∈ offs -> victims callback map bm (start_offset o) (end_offset o) = []).
  { intros o [j Hj]%elem_of_zlookup. destruct (wk_range _ _ Hw _ _ Hj).
    destruct (victims callback map bm (start_offset o) (end_offset o)) as [|e es] eqn:He; [done|exfalso].
    assert (Hin : e ∈ victims callback map bm (start_offset o) (end_offset o)) by (rewrite He; left).
    apply elem_of_victims in Hin as (Hr & Hb & Ht & Hd).
    assert (Hin : mkEntry (start_offset o + sid_local_idx e) (entry_tid e) ∈ victims callback map bm 0 n).
    { apply elem_of_victims. cbn. split; [lia|done]. }
    rewrite Hnil in Hin. by apply elem_of_nil in Hin. }
  clear -Hall. induction offs as [|o os IH]; [done|]. cbn. rewrite Hall by left. cbn. apply IH. intros; apply Hall; by right.
Qed.

Lemma vacuum_segment_files_spec st vacuumed :
  vacuumable (vs_dir st) -> (a = b -> a ∉ vacuumed) ->
  exists bm' d', let changed := 0 <? zlen (victims callback map bm 0 n) in
    let sub := next_subversion (vs_dir st) a b v in
    vacuum_segment_files callback primary max_file (Scan.mkFileInfo a b v) vacuumed st =
      Ok (if changed then Some (a, b, v) else None,
          st <| tuples_removed := tuples_removed st + zlen (victims callback map bm 0 n) |>
             <| num_index_tuples := num_index_tuples st + (n - count_set bm' n) |>
             <| vs_wal := vs_wal st ++ batch_records sub |> <| vs_dir := d' |>) /\
    zlen bm' = zlen bm /\
    (forall q, 0 <= q < n -> IS_SLOT_SET bm' q = IS_SLOT_SET bm q || dead_row callback map q) /\
    on_disk d' a b v n map bm' offs /\ Scan.find_latest_segment_version (readdir d') a b = v /\
    (changed = false -> d' = vs_dir st /\ bm' = bm) /\
    (changed = true -> exists ops, d' = run_ops (vs_dir st) ops /\
       SegFile.write_bitmap_file_with_subversion max_file a b v sub bm' (count_set bm' n) = Ok ops).
Proof.
  intros Hv Hvac. pose proof Hv as [[(Ha & Hb & Hab & Hvu & Hvm) [t Hmeta] Hmapf Hofff Hbmf (Hn & Hzm & Hzb)] Hlat Hsubs Hpos (Hw & Hlo & Hlo32) Hone Hcover].
  destruct (segment_scan_spec (vs_dir st) (if primary && negb (a =? b) then offs else []) (a =? b) Hv eq_refl eq_refl)
    as (s & Hscan & [Hsl Hsb Hsc Hsr Hsch Hslv Hsm] & Hrec).
  assert (Hg : 0 <= GET_BITMAP_SIZE n) by (unfold GET_BITMAP_SIZE; apply Z.div_pos; lia).
  assert (Hbits : forall q, 0 <= q < n -> IS_SLOT_SET (ss_bitmap s) q = IS_SLOT_SET bm q || dead_row callback map q).
  { intros q Hq. rewrite Hsb by lia. by destruct (Z.ltb_spec q n); [|lia]. }
  destruct (on_disk_update max_file (vs_dir st) a b v n map bm offs (ss_bitmap s) Hmax (vc_disk _ Hv) Hsubs Hsl)
    as (ops & Hops & Hdisk' & _ & Hmetas & _).
  exists (ss_bitmap s), (if ss_changed s then run_ops (vs_dir st) ops else vs_dir st). cbn zeta. rewrite <-Hsr, <-Hsch.
  split; [|split; [done|split; [done|split; [|split; [|split]]]]].
  - unfold vacuum_segment_files. cbn [Scan.fi_version Scan.fi_start_sid Scan.fi_end_sid]. rewrite Hmeta.
    assert (Hskip : (a =? b) && bool_decide (a ∈ vacuumed) = false).
    { destruct (Z.eqb_spec a b) as [He|]; [|done]. by rewrite bool_decide_eq_false_2 by (by apply Hvac). }
    rewrite Hskip, Hbmf, Hmapf. cbn [mbind res_bind fst snd]. rewrite (u32_small (b - a + 1)), <-Hlo by lia.
    assert (Hoffl : (if (0 <? n) && primary && negb (a =? b) then SegFile.load_offset_file (vs_dir st) a b v else Ok []) =
                    Ok (if primary && negb (a =? b) then offs else [])).
    { destruct (Z.ltb_spec 0 n); [|lia]. cbn [andb]. by destruct (primary && negb (a =? b)). }
    rewrite Hoffl. cbn [mbind res_bind default from_option]. change (id (count_set bm n)) with (count_set bm n).
    rewrite Hscan. cbn [mbind res_bind]. change (vs_dir (st <| tuples_removed := _ |> <| num_index_tuples := _ |>)) with (vs_dir st).
    rewrite Hrec. unfold file_bitmap. rewrite Hsl, Hzb, Z.ltb_irrefl.
    rewrite take_ge by (unfold zlen in *; lia). cbn [mbind res_bind]. rewrite Hsc, Hops. cbn [mbind res_bind].
    rewrite Hslv. destruct (ss_changed s) eqn:Hc; [done|].
    rewrite batch_records_nil; [|done|]; [by rewrite app_nil_r; destruct st|].
    symmetry in Hsch. apply Z.ltb_ge in Hsch as Hc'. rewrite Hsr in Hc'. destruct (victims callback map bm 0 n) as [|e es]; [done|].
    rewrite zlen_cons in Hc'. pose proof (zlen_nonneg es). lia.
  - destruct (ss_changed s) eqn:Hc; [done|]. rewrite Hsm; [apply Hv|]. symmetry in Hsch. apply Z.ltb_ge in Hsch.
    pose proof (zlen_nonneg (victims callback map bm 0 n)). lia.
  - destruct (ss_changed s); [|done]. rewrite (latest_version_ext _ (vs_dir st)); [done|done|done|]; intros s1 f Hf; by rewrite (Hmetas s1 f Hf).
  - intros Hc. rewrite Hc. split; [done|]. apply Hsm. rewrite Hsch in Hc. apply Z.ltb_ge in Hc. pose proof (zlen_nonneg (victims callback map bm 0 n)). lia.
  - intros ->. by exists ops.
Qed.
End file.

(** ** The standby replays the batch *)

(** The records of a log applied in order. *)
Definition replay (worker : nat -> directory -> Z * directory) max_file lsm (slots : list MemtableBufferSlot)
    (d : directory) (log : list wal_record) : res (list MemtableBufferSlot * directory) :=
  foldl_res (fun acc r => Redo.dpv_apply_vacuum_tombstones worker max_file (Some lsm) acc.1 acc.2 (wal_hdr r) (wal_entries r))
    (slots, d) log.

Section replay.
Context {B : Type} `{BlockId B} (callback : ItemPointerData B -> bool) (max_file : Z) (Hmax : 4 < max_file).
Context (a b v n : Z) (map bm : list Z) (offs : list SegmentOffsetRange).
Context (Hwin : windows_ok n offs) (Hlen : zlen offs = b - a + 1 /\ zlen offs < 2 ^ 32) (Hinc : sids_increasing offs).
Context (Hnd : forall o, o ∈ offs -> NoDup (sid_rows map o)).

(** A standby with the segment on disk and room for [k] more subversions. *)
Record standby (d : directory) (bm0 : list Z) (k : Z) : Prop := {
  sb_disk : on_disk d a b v n map bm0 offs;
  sb_subs : subversions_small d a b v;
  sb_found : forall o, o ∈ offs -> Redo.find_disk_segment_for_sid d (off_sid o) = Some (Scan.mkFileInfo a b v);
  sb_fits : fits (readdir d);
  sb_room : next_subversion d a b v + k < UINT32_MAX }.

Definition record_of (sub : Z) (o : SegmentOffsetRange) : wal_record :=
  mkWal (mkTombstones (off_sid o) v 0) sub (victims callback map bm (start_offset o) (end_offset o)).

Lemma record_replayable d bm0 k sub o :
  standby d bm0 k -> o ∈ offs -> replayable d (wal_hdr (record_of sub o)) (wal_entries (record_of sub o)) a b v n map bm0 offs.
Proof.
  intros [Hd Hs Hf _ _] Ho. split; [done|by apply Hf|done|done| | |done].
  - apply Forall_forall. intros o' [j Hj]%elem_of_zlookup. destruct (wk_range _ _ Hwin _ _ Hj). lia.
  - exists o. split; [done|]. split; [done|]. split; [by apply Hnd|]. cbn. rewrite Z.eqb_refl. cbn.
    intros e (Hr & _ & Ht & _)%elem_of_victims. split; [lia|]. split; [lia|done].
Qed.

(** The record of a segment id names its victims. *)
Lemma record_names sub o q :
  o ∈ offs -> names_row (wal_hdr (record_of sub o)) (wal_entries (record_of sub o)) map offs q <->
    start_offset o <= q < end_offset o /\ IS_SLOT_SET bm q = false /\ dead_row callback map q = true.
Proof.
  intros Ho. unfold names_row. cbn [wal_hdr wal_entries record_of hdr_sid]. split.
  - intros (x & (o' & Ho' & Hsid & Hq & Hx) & (e & -> & He)%list_elem_of_fmap).
    assert (o' = o) as -> by (eapply same_sid; [by apply sids_increasing_NoDup|done..]).
    apply elem_of_victims in He as (Hr & Hb & Ht & Hdead). split; [done|].
    pose proof Ho as Hoj. apply elem_of_zlookup in Hoj as [j Hj]. destruct (wk_range _ _ Hwin _ _ Hj).
    pose proof (sid_rows_position map o q _ ltac:(lia) Hq Hx) as P1.
    pose proof (sid_rows_position map o (start_offset o + sid_local_idx e) _ ltac:(lia) ltac:(lia) Ht) as P2.
    pose proof (NoDup_lookup _ _ _ _ (Hnd o Ho) P1 P2). assert (start_offset o + sid_local_idx e = q) as <- by lia.
    split; [done|]. unfold dead_row. by rewrite Ht.
  - intros (Hq & Hb & Hdead). unfold dead_row in Hdead. destruct (map !! q) as [x|] eqn:Hx; [|done].
    exists x. split; [by exists o|]. apply list_elem_of_fmap. exists (mkEntry (q - start_offset o) x). split; [done|].
    apply elem_of_victims. cbn. replace (start_offset o + (q - start_offset o)) with q by lia. split; [lia|done].
Qed.

Context (worker : nat -> directory -> Z * directory) (Hworker : forall d, worker 0%nat d = (0, d)).
Context (lsm : LSMIndexData) (slots : list MemtableBufferSlot).
Context (Hnomem : forall o, o ∈ offs -> Redo.find_memtable lsm slots (off_sid o) = Ok None).

(** One record. *)
Lemma replay_record d bm0 k sub o :
  standby d bm0 (k + 1) -> 0 <= k -> o ∈ offs ->
  exists d' bm1, Redo.dpv_apply_vacuum_tombstones worker max_file (Some lsm) slots d (wal_hdr (record_of sub o)) (wal_entries (record_of sub o)) =
      Ok (slots, d') /\ standby d' bm1 k /\ zlen bm1 = zlen bm0 /\
    forall q, 0 <= q < n -> IS_SLOT_SET bm1 q = IS_SLOT_SET bm0 q ||
      bool_decide (start_offset o <= q < end_offset o /\ IS_SLOT_SET bm q = false /\ dead_row callback map q = true).
Proof.
  intros Hst Hk Ho. pose proof (record_replayable d bm0 _ sub o Hst Ho) as Hrp.
  destruct (redo_disk worker max_file d _ _ a b v n map bm0 offs Hmax Hrp Hworker) as (ops & bm1 & _ & Hrun & Hd1 & Hz & Hops & Hbits).
  destruct Hst as [Hd Hs Hf Hfits Hroom].
  destruct (on_disk_update max_file d a b v n map bm0 offs bm1 Hmax Hd Hs Hz) as (ops' & Hops' & _ & Hle & Hmeta & _).
  rewrite Hops in Hops'. injection Hops' as <-. destruct (next_subversion_fresh d a b v Hs) as [Hfresh _].
  exists (run_ops d ops), bm1. unfold Redo.dpv_apply_vacuum_tombstones, Redo.apply_to_memtable_for_sid.
  cbn [wal_hdr wal_entries record_of hdr_sid]. rewrite (Hnomem o Ho). cbn [mbind res_bind].
  cbn [wal_hdr wal_entries record_of] in Hrun. rewrite Hrun. cbn [mbind res_bind negb andb].
  destruct (next_subversion_update (run_ops d ops) a b v (next_subversion d a b v)) as [Hnext Hsmall]; [lia|lia|done|].
  split; [done|]. split; [|split; [done|]].
  - split; [done|done| |by apply (fits_same d)|lia]. intros o' Ho'. unfold Redo.find_disk_segment_for_sid.
    rewrite (scan_same d) by done. by apply Hf.
  - intros q Hq. rewrite Hbits by lia. f_equal. apply bool_decide_ext. by apply record_names.
Qed.

(** The records of a list of segment ids. *)
Lemma replay_records sub os : forall d bm0, (forall o, o ∈ os -> o ∈ offs) -> standby d bm0 (zlen os) ->
  exists d' bm1, replay worker max_file lsm slots d
      (omap (fun o => let es := victims callback map bm (start_offset o) (end_offset o) in
                      if 0 <? zlen es then Some (record_of sub o) else None) os) = Ok (slots, d') /\
    standby d' bm1 0 /\ zlen bm1 = zlen bm0 /\
    forall q, 0 <= q < n -> IS_SLOT_SET bm1 q = IS_SLOT_SET bm0 q ||
      bool_decide (Exists (fun o => start_offset o <= q < end_offset o) os /\ IS_SLOT_SET bm q = false /\ dead_row callback map q = true).
Proof.
  induction os as [|o os IH]; intros d bm0 Hin Hst.
  { exists d, bm0. split; [done|]. split; [done|]. split; [done|]. intros q Hq.
    rewrite bool_decide_eq_false_2; [by rewrite orb_false_r|]. intros [He _]. by apply Exists_nil in He. }
  rewrite zlen_cons in Hst. pose proof (zlen_nonneg os) as Hos. cbn [omap list_omap]. cbn zeta.
  assert (Hex : forall q, Exists (fun o => start_offset o <= q < end_offset o) (o :: os) <->
             start_offset o <= q < end_offset o \/ Exists (fun o => start_offset o <= q < end_offset o) os) by (intros; apply Exists_cons).
  destruct (Z.ltb_spec 0 (zlen (victims callback map bm (start_offset o) (end_offset o)))) as [Hpos|Hnone].
  - destruct (replay_record d bm0 (zlen os) sub o) as (d1 & bm1 & Hrun & Hst1 & Hz1 & Hb1); [by rewrite Z.add_comm in Hst |done|apply Hin; left|].
    destruct (IH d1 bm1) as (d2 & bm2 & Hrun2 & Hst2 & Hz2 & Hb2); [intros; apply Hin; by right|done|].
    exists d2, bm2. unfold replay in *. cbn [foldl_res fst snd]. cbn [wal_hdr wal_entries record_of] in Hrun |- *.
    rewrite Hrun. cbn [mbind res_bind]. split; [exact Hrun2|]. split; [done|]. split; [congruence|].
    intros q Hq. rewrite Hb2, Hb1 by done. rewrite <-orb_assoc. f_equal. rewrite <-bool_decide_or. apply bool_decide_ext.
    rewrite Hex. tauto.
  - destruct (IH d bm0) as (d2 & bm2 & Hrun2 & Hst2 & Hz2 & Hb2); [intros; apply Hin; by right|by destruct Hst; split; try done; lia|].
    exists d2, bm2. split; [exact Hrun2|]. split; [done|]. split; [done|]. intros q Hq. rewrite Hb2 by done. f_equal.
    apply bool_decide_ext. rewrite Hex. split; [tauto|]. intros ([Hr|] & Hb & Hdead); [|done]. exfalso.
    unfold dead_row in Hdead. destruct (map !! q) as [x|] eqn:Hx; [|done].
    assert (He : mkEntry (q - start_offset o) x ∈ victims callback map bm (start_offset o) (end_offset o)).
    { apply elem_of_victims. cbn. replace (start_offset o + (q - start_offset o)) with q by lia. done. }
    destruct (victims callback map bm (start_offset o) (end_offset o)) as [|e es]; [by apply elem_of_nil in He|].
    rewrite zlen_cons in Hnone. pose proof (zlen_nonneg es). lia.
Qed.
End replay.

(** ** Properties *)

Definition undisturbed (n : nat) (x : directory * FlushedSegmentPool) : directory * FlushedSegmentPool := x.

(** Every marked row raises the count by one. *)
Lemma victims_count {B : Type} `{BlockId B} (callback : ItemPointerData B -> bool) n map bm bm' :
  0 <= n <= zlen map -> (forall q, 0 <= q < n -> IS_SLOT_SET bm' q = IS_SLOT_SET bm q || dead_row callback map q) ->
  zlen (victims callback map bm 0 n) = count_set bm' n - count_set bm n.
Proof.
  intros Hn Hbits. enough (forall k, 0 <= k -> k <= n -> zlen (victims callback map bm 0 k) = count_set bm' k - count_set bm k) as Hk
    by (apply Hk; lia).
  apply (natlike_ind (fun k => k <= n -> _)); [done|]. intros k Hk IH Hkn. rewrite <-Z.add_1_r.
  destruct (zlookup_lt_is_Some map k) as [t Ht]; [lia|].
  rewrite (victims_snoc _ _ _ _ _ t), zlen_app, IH, !count_set_succ, Hbits by (done || lia).
  unfold dead_row. rewrite Ht. destruct (IS_SLOT_SET bm k), (dead callback t); unfold zlen; cbn [negb andb orb length]; lia.
Qed.

(** "Latest" is the newest version. *)
Lemma load_latest_bitmap d a b v : v <> UINT32_MAX -> Scan.find_latest_segment_version (readdir d) a b = v ->
  SegFile.load_bitmap_file d a b UINT32_MAX = SegFile.load_bitmap_file d a b v.
Proof.
  intros Hv Hl. unfold SegFile.load_bitmap_file, SegFile.resolve_version. rewrite Z.eqb_refl, Hl.
  by destruct (Z.eqb_spec v UINT32_MAX).
Qed.


(** A vacuum that is told to retry ends after one more round.  The pool
    holds the segment under another version, so every answer is "retry"; the
    second round finds the rows it marked in the first one and has nothing left
    to do.  The rows are marked and counted as removed once, but the live rows
    are counted in both rounds. *)
Theorem vacuum_retry_ends {B : Type} `{BlockId B} (callback : ItemPointerData B -> bool) primary max_file
    a b v n map bm offs st vacuumed l m retries :
  4 < max_file -> vacuumable a b v n map bm offs (vs_dir st) -> (a = b -> a ∉ vacuumed) ->
  Redo.find_disk_segment_for_sid (vs_dir st) a = Some (Scan.mkFileInfo a b v) -> fits (readdir (vs_dir st)) ->
  next_subversion (vs_dir st) a b v + 1 < UINT32_MAX -> 0 < zlen (victims callback map bm 0 n) ->
  pool_wf (vs_pool st) l ->
  (forall i seg, i ∈ l -> flushed_segments (vs_pool st) !! i = Some seg -> version seg <> v /\ ref_count seg + 1 < 2 ^ 31) ->
  exists st' bm',
    vacuum_segment callback primary max_file undisturbed (S (S retries)) m (Scan.mkFileInfo a b v) vacuumed st = Ok (S m, st') /\
    on_disk (vs_dir st') a b v n map bm' offs /\
    (forall q, 0 <= q < n -> IS_SLOT_SET bm' q = IS_SLOT_SET bm q || dead_row callback map q) /\
    vs_pool st' = vs_pool st /\ tuples_removed st' = tuples_removed st + (count_set bm' n - count_set bm n) /\
    num_index_tuples st' = num_index_tuples st + 2 * (n - count_set bm' n).
Proof.
  intros Hmax Hv Hvac Hfind Hfits Hroom Hvict Hw Hstale.
  pose proof Hv as [Hdisk Hlat Hsubs Hpos Hwin Hone Hcover].
  destruct (od_size _ _ _ _ _ _ _ _ Hdisk) as (Hn & Hzm & Hzb).
  destruct (vacuum_segment_files_spec callback primary max_file Hmax a b v n map bm offs st vacuumed Hv Hvac)
    as (bm' & d' & Hrun & Hz & Hbits & Hdisk' & Hlat' & _ & Hops). cbn zeta in *.
  rewrite (proj2 (Z.ltb_lt _ _) Hvict) in *. destruct (Hops eq_refl) as (ops & -> & Hw1).
  destruct (on_disk_update max_file (vs_dir st) a b v n map bm offs bm' Hmax Hdisk Hsubs Hz) as (ops' & Hops' & _ & Hle & Hmetas & _).
  rewrite Hw1 in Hops'. injection Hops' as <-.
  destruct (next_subversion_fresh _ _ _ _ Hsubs) as [Hfresh _].
  destruct (next_subversion_update (run_ops (vs_dir st) ops) a b v (next_subversion (vs_dir st) a b v)) as [_ Hsubs']; [lia|lia|done|].
  set (st1 := st <| tuples_removed := _ |> <| num_index_tuples := _ |> <| vs_wal := _ |> <| vs_dir := _ |>) in Hrun.
  assert (Hv1 : vacuumable a b v n map bm' offs (vs_dir st1)) by (split; try done).
  destruct (vacuum_segment_files_spec callback primary max_file Hmax a b v n map bm' offs st1 vacuumed Hv1 Hvac)
    as (bm2 & d2 & Hrun2 & _ & Hbits2 & Hdisk2 & _ & Hsame2 & _). cbn zeta in *.
  assert (Hsame : count_set bm2 n = count_set bm' n).
  { apply count_set_ext. intros q Hq. rewrite Hbits2, Hbits by done. by destruct (IS_SLOT_SET bm q), (dead_row callback map q). }
  assert (Hnone : zlen (victims callback map bm' 0 n) = 0) by (rewrite (victims_count callback n map bm' bm2) by (done || lia); lia).
  rewrite Hnone in Hrun2, Hsame2. destruct (Hsame2 eq_refl) as [-> ->]. eexists _, bm'. split.
  { cbn [vacuum_segment]. rewrite Hrun. cbn [mbind res_bind]. unfold send_update, undisturbed.
    rewrite (update_vacuum_stale _ (vs_pool st1) l) by done. cbn [mbind res_bind fst snd]. change (1 =? 1) with true. cbv iota.
    assert (Hfind1 : Redo.find_disk_segment_for_sid (vs_dir st1) a = Some (Scan.mkFileInfo a b v)).
    { rewrite <-Hfind. unfold Redo.find_disk_segment_for_sid. by rewrite (scan_same (vs_dir st)). }
    assert (Hst1 : st1 <| vs_dir := vs_dir st1 |> <| vs_pool := vs_pool st1 |> = st1) by (by destruct st1).
    rewrite Hst1, Hfind1, Hrun2. cbn [mbind res_bind]. change (0 <? 0) with false. cbv iota. reflexivity. }
  split; [exact Hdisk2|]. split; [done|]. split; [done|]. split.
  - unfold update; cbn. rewrite (victims_count callback n map bm bm') by (done || lia). lia.
  - unfold update; cbn. lia.
Qed.


Lemma next_sealed_none slots idxs vacuumed :
  zlen slots = MEMTABLE_BUF_SIZE -> (forall i s, slots !! i = Some s -> 0 <= memtable_id (slot_mt s)) ->
  next_sealed slots idxs 0 vacuumed = Ok None.
Proof.
  intros Hz Hid. induction idxs as [|i idxs IH]; [done|]. cbn [next_sealed].
  destruct (Z.ltb_spec i 0), (Z.leb_spec MEMTABLE_BUF_SIZE i); try done. cbn [orb].
  destruct (zlookup_lt_is_Some slots i) as [s Hs]; [lia|]. run. specialize (Hid i s Hs).
  destruct (Z.leb_spec 0 (memtable_id (slot_mt s))); [done|lia].
Qed.

(** A vacuum without a growing memtable skips every sealed one.  0 stands
    for "no growing memtable", and the guard against memtables that are at least
    as new as the growing one then holds for all of them: during a rotation no
    row of a memtable is looked at, and only the segment files are vacuumed. *)
Theorem vacuum_during_rotation_skips_memtables {B : Type} `{BlockId B} (callback : ItemPointerData B -> bool) primary max_file others
    retries lsm st :
  growing_memtable_idx lsm = MT_IDX_INVALID \/ growing_memtable_idx lsm = MT_IDX_ROTATING ->
  memtable_count lsm <= MEMTABLE_NUM -> zlen (vs_slots st) = MEMTABLE_BUF_SIZE ->
  (forall i s, vs_slots st !! i = Some s -> 0 <= memtable_id (slot_mt s)) ->
  bulk_delete_lsm_index callback primary max_file others retries (Some lsm) st =
    vacuum_segments callback primary max_file others retries (S (S (Z.to_nat MEMTABLE_NUM))) [] st.
Proof.
  intros Hg Hcnt Hz Hid. unfold bulk_delete_lsm_index, vacuum_growing.
  assert ((0 <=? growing_memtable_idx lsm) = false) as -> by (destruct Hg as [-> | ->]; done).
  cbn [andb mbind res_bind vacuum_sealed]. destruct (Z.ltb_spec MEMTABLE_NUM (memtable_count lsm)); [lia|].
  by rewrite next_sealed_none.
Qed.

(** The vacuum of segment 3-4 of [flushed_dir] (rows 11, 12, 13; 12 deleted)
    when the heap tuple at position 11 of block 0 is dead. *)
Definition dead_11 (tid : ItemPointerData BlockIdData) : bool := ip_posid tid =? 11.
Definition vacuum_before : vacuum_state := mkVacuum [] flushed_dir pool_before_rebuild 0 0 [] [].

Lemma vacuum_example_ok : vacuumable 3 4 2 3 [11; 12; 13] [2] example_offsets flushed_dir.
Proof.
  split; [exact flushed_on_disk|vm_compute; reflexivity|exact flushed_subversions|lia| |lia|].
  - split; [exact example_offsets_ok|]. split; [reflexivity|vm_compute; reflexivity].
  - intros r Hr. assert (Hc : r = 0 \/ r = 1 \/ r = 2) by lia.
    destruct Hc as [-> | [-> | ->]]; [exists 0|exists 0|exists 1]; eexists; (split; [vm_compute; reflexivity|cbn; lia]).
Qed.



(** The pool holds version 1 of segment 3-4, the disk version 2. *)
Definition vacuum_behind : vacuum_state :=
  mkVacuum [] flushed_dir (one_segment_pool (segment_at 3 4 1 [11; 12; 13] [2] example_offsets)) 0 0 [] [].

Lemma vacuum_retry_ends_witness :
  exists st' bm', vacuum_segment dead_11 true 8 undisturbed 2 1 (Scan.mkFileInfo 3 4 2) [] vacuum_behind = Ok (2%nat, st') /\
    on_disk (vs_dir st') 3 4 2 3 [11; 12; 13] bm' example_offsets /\ IS_SLOT_SET bm' 0 = true /\ num_index_tuples st' = 2 * (3 - count_set bm' 3).
Proof.
  destruct (vacuum_retry_ends dead_11 true 8 3 4 2 3 [11; 12; 13] [2] example_offsets vacuum_behind [] [0] 1 0)
    as (st' & bm' & Hrun & Hdisk & Hbits & _ & _ & Hlive).
  - lia.
  - exact vacuum_example_ok.
  - lia.
  - vm_compute. reflexivity.
  - vm_compute. congruence.
  - vm_compute. reflexivity.
  - vm_compute. reflexivity.
  - apply pool_wfb_sound. vm_compute. reflexivity.
  - intros i seg Hi Hs. apply list_elem_of_singleton in Hi as ->. vm_compute in Hs. injection Hs as <-. vm_compute. split; congruence.
  - exists st', bm'. split; [exact Hrun|]. split; [exact Hdisk|]. split; [rewrite Hbits by lia; vm_compute; reflexivity|exact Hlive].
Defined.

(** Two sealed memtables, 5 in slot 0 and 6 in slot 1, with three rows each. *)
Definition sealed_mt (id : Z) : ConcurrentMemTableData :=
  mkMemTable 16384 id 8 3 3 true false 2 2 4 [11; 12; 13; 0; 0; 0; 0; 0] [0] [1; 1; 1; 0; 0; 0; 0; 0] [].
Definition two_sealed : list MemtableBufferSlot :=
  [mkBufferSlot 1 (sealed_mt 5); mkBufferSlot 1 (sealed_mt 6)] ++ replicate 6 (mkBufferSlot 0 (sealed_mt 0)).
Definition lsm_with (growing_idx growing_id : Z) : LSMIndexData := mkLSM 16384 2 4 8 growing_idx growing_id [0; 1; -1; -1] 2.
Definition two_memtables : vacuum_state := vacuum_before <| vs_slots := two_sealed |>.

Lemma vacuum_during_rotation_skips_memtables_witness :
  exists st', bulk_delete_lsm_index dead_11 true 8 undisturbed 3 (Some (lsm_with MT_IDX_ROTATING 0)) two_memtables = Ok st' /\
    vs_slots st' = two_sealed /\ IS_SLOT_SET (mt_bitmap (sealed_mt 5)) 0 = false /\ dead_row dead_11 (tids (sealed_mt 5)) 0 = true.
Proof.
  assert (Hids : Forall (fun s => 0 <= memtable_id (slot_mt s)) two_sealed) by (repeat (constructor; [vm_compute; congruence|]); constructor).
  rewrite (vacuum_during_rotation_skips_memtables dead_11 true 8 undisturbed 3 (lsm_with MT_IDX_ROTATING 0) two_memtables).
  - eexists; split; [vm_compute; reflexivity|]. repeat split; vm_compute; reflexivity.
  - right. reflexivity.
  - vm_compute. congruence.
  - vm_compute. reflexivity.
  - intros i s Hs. change (vs_slots two_memtables) with two_sealed in Hs. rewrite Forall_forall in Hids. apply Hids.
    apply elem_of_zlookup. eauto.
Defined.
