(* ===== verification/MemtableVacuum.v ===== *)
(** The memtables in a vacuum (steps 1 and 2 of [bulk_delete_lsm_index],
    lsmindex.c; modelled in BulkDelete.v): which rows the row loop marks, how the
    sealed memtables are visited, what the log and the worker get. *)

From S2P Require Import Prelude Bitmap Tid SegmentPool FileNames SegmentFiles BitmapVersions Tombstones Memtable VacuumRedo.
From S2P Require Import Adoption SegmentRewrite BulkDelete.

Import Vacuum.

(** ** One memtable *)
Section memtable.
Context {B : Type} `{BlockId B} (callback : ItemPointerData B -> bool) (primary check_ready : bool).
Context (mt : ConcurrentMemTableData) (n : Z).
Context (Hrows : n <= zlen (tids mt) /\ n <= zlen (ready mt)) (Hbm : covers (mt_bitmap mt) n).

(** Row [i] is looked at; it holds a dead tuple. *)
Definition looked_at (i : Z) : bool := if check_ready then bool_decide (ready mt !! i = Some 1) else true.
Definition hit (i : Z) : bool := looked_at i && dead_row callback (tids mt) i.

(** The rows below [k] the vacuum marks; how many it keeps. *)
Definition hits (k : Z) : list xl_dpv_vacuum_entry :=
  omap (fun i => if looked_at i then t ← tids mt !! i; if dead callback t then Some (mkEntry i t) else None else None) (seqZ 0 k).
Definition kept_rows (k : Z) : Z := zlen (filter (fun i => looked_at i && negb (dead_row callback (tids mt) i) = true) (seqZ 0 k)).

Lemma elem_of_hits k e : e ∈ hits k <-> 0 <= sid_local_idx e < k /\ looked_at (sid_local_idx e) = true /\
  tids mt !! sid_local_idx e = Some (entry_tid e) /\ dead callback (entry_tid e) = true.
Proof.
  unfold hits. rewrite list_elem_of_omap. split.
  - intros (i & Hi%elem_of_seqZ & He). destruct (looked_at i) eqn:Hl; [|done].
    destruct (tids mt !! i) as [t|] eqn:Ht; [|done]. cbn in He. destruct (dead callback t) eqn:Hd; [|done].
    injection He as <-. cbn. split; [lia|done].
  - intros (Hr & Hl & Ht & Hd). exists (sid_local_idx e). split; [apply elem_of_seqZ; lia|]. rewrite Hl, Ht. cbn. rewrite Hd. by destruct e.
Qed.

Lemma hits_index k q : 0 <= q < k -> (exists e, e ∈ hits k /\ sid_local_idx e = q) <-> hit q = true.
Proof.
  intros Hq. unfold hit, dead_row. split.
  - intros (e & (_ & Hl & Ht & Hd)%elem_of_hits & <-). by rewrite Hl, Ht.
  - intros [Hl Hd]%andb_true_iff. destruct (tids mt !! q) as [t|] eqn:Ht; [|done]. exists (mkEntry q t). split; [|done].
    by apply elem_of_hits.
Qed.

Record row_inv (i : Z) (s : row_scan) : Prop := {
  ri_len : zlen (rs_bitmap s) = zlen (mt_bitmap mt);
  ri_bits : forall q, 0 <= q -> IS_SLOT_SET (rs_bitmap s) q = IS_SLOT_SET (mt_bitmap mt) q || ((q <? i) && hit q);
  ri_same : hits i = [] -> rs_bitmap s = mt_bitmap mt;
  ri_changed : rs_changed s = negb (bool_decide (hits i = []));
  ri_removed : rs_removed s = zlen (hits i);
  ri_live : rs_live s = kept_rows i;
  ri_entries : rs_entries s = if primary then hits i else [];
  ri_status : rs_status s = (fun e => (memtable_id mt, sid_local_idx e, entry_tid e)) <$> hits i }.

Lemma memtable_row_spec i s : 0 <= i < n -> row_inv i s ->
  exists s', memtable_row callback primary check_ready mt s i = Ok s' /\ row_inv (i + 1) s'.
Proof.
  intros Hi [Hl Hb Hsm Hc Hr Hlv He Hst]. destruct (zlookup_lt_is_Some (tids mt) i) as [t Ht]; [lia|].
  destruct (zlookup_lt_is_Some (ready mt) i) as [r Hrd]; [lia|].
  assert (Hgo : (if check_ready then r ← arr_get (ready mt) i; Ok (r =? 1) else Ok true) = Ok (looked_at i)).
  { unfold looked_at. destruct check_ready; [|done]. run. rewrite Hrd. f_equal. destruct (Z.eqb_spec r 1) as [->|Hne].
    - by rewrite bool_decide_eq_true_2. - by rewrite bool_decide_eq_false_2 by congruence. }
  assert (Hh : hits (i + 1) = hits i ++ (if hit i then [mkEntry i t] else [])).
  { unfold hits, hit, dead_row. rewrite seqZ_snoc, omap_app by lia. f_equal. rewrite Z.add_0_l. cbn. rewrite Ht. cbn.
    destruct (looked_at i); [|done]. by destruct (dead callback t). }
  assert (Hk : kept_rows (i + 1) = kept_rows i + (if looked_at i && negb (dead callback t) then 1 else 0)).
  { unfold kept_rows, dead_row. rewrite seqZ_snoc, filter_app, zlen_app, Z.add_0_l by lia. f_equal.
    rewrite filter_cons, Ht, filter_nil. by destruct (looked_at i && negb (dead callback t)). }
  assert (Hhit : hit i = looked_at i && dead callback t) by (unfold hit, dead_row; by rewrite Ht).
  assert (Hlt : forall q, (q <? i + 1) && hit q = ((q <? i) && hit q) || ((q =? i) && hit i)).
  { intros q. destruct (Z.eqb_spec q i) as [->|]; [|rewrite orb_false_r; f_equal; destruct (Z.ltb_spec q (i + 1)), (Z.ltb_spec q i); (done || lia)].
    destruct (Z.ltb_spec i (i + 1)), (Z.ltb_spec i i); (done || lia). }
  assert (Hcov : covers (rs_bitmap s) n) by (unfold covers in *; by rewrite Hl).
  unfold memtable_row. rewrite Hgo. cbn [mbind res_bind]. destruct (looked_at i) eqn:Hla; cbn [negb andb] in *.
  2: { exists s. split; [done|]. rewrite Hhit, app_nil_r in Hh. split; rewrite ?Hh, ?Hk; try done; [|lia].
       intros q Hq. rewrite Hb, Hlt, Hhit, andb_false_r, orb_false_r by done. done. }
  run. destruct (dead callback t) eqn:Hd; cbn [negb] in *; (eexists; split; [done|]); rewrite Hhit in Hh.
  - split; cbn [rs_bitmap rs_changed rs_removed rs_live rs_entries rs_status]; rewrite ?Hh, ?Hk.
    + by rewrite zlen_SET_SLOT.
    + intros q Hq. rewrite (IS_SLOT_SET_SET _ n), Hb, Hlt, Hhit, (Z.eqb_sym i q) by (done || lia).
      destruct (q =? i), (IS_SLOT_SET (mt_bitmap mt) q), ((q <? i) && hit q); done.
    + intros Hnil%app_nil. by destruct Hnil.
    + rewrite bool_decide_eq_false_2; [done|]. intros Hnil%app_nil. by destruct Hnil.
    + rewrite zlen_app, Hr. done.
    + lia.
    + rewrite He. by destruct primary.
    + by rewrite Hst, fmap_app.
  - rewrite app_nil_r in Hh. split; cbn [rs_bitmap rs_changed rs_removed rs_live rs_entries rs_status]; rewrite ?Hh, ?Hk; try done; [|lia].
    intros q Hq. rewrite Hb, Hlt, Hhit, andb_false_r, orb_false_r by done. done.
Qed.

Lemma memtable_rows_spec : 0 <= n ->
  exists s, foldl_res (memtable_row callback primary check_ready mt) (mkScan (mt_bitmap mt) false 0 0 [] []) (seqZ 0 n) = Ok s /\ row_inv n s.
Proof.
  intros Hn. apply for_loop; [done| |apply memtable_row_spec]. split; cbn; try done.
  - intros q Hq. destruct (Z.ltb_spec q 0); [lia|]. by rewrite orb_false_r.
  - by destruct primary.
Qed.
End memtable.

(** *** The loop over the sealed memtables *)

(** What a vacuum of a memtable leaves of every slot. *)
Definition slot_name (s : MemtableBufferSlot) : Z * Z := (memtable_id (slot_mt s), mt_rel (slot_mt s)).

Section sealed.
Context {B : Type} `{BlockId B} (callback : ItemPointerData B -> bool) (primary : bool) (max_file : Z).
Context (others : nat -> directory * FlushedSegmentPool -> directory * FlushedSegmentPool).

Lemma publish_memtable_slots n mt s st st' :
  publish_memtable primary max_file others n mt s st = Ok st' -> vs_slots st' = vs_slots st.
Proof.
  unfold publish_memtable. destruct (negb (rs_changed s)); [by intros [= <-]|].
  destruct (file_bitmap _ _) as [bytes|]; [|done]. cbn [mbind res_bind].
  destruct (SegFile.read_lsm_segment_metadata _ _ _ _) as [[[[x y] w] z]|].
  - destruct (SegFile.write_bitmap_file_with_subversion _ _ _ _ _ _ _) as [ops|]; [|done]. cbn [mbind res_bind].
    unfold send_update. destruct (others _ _) as [d p]. destruct (update_vacuum _ _ _ _ _) as [r|]; [|done]. cbn [mbind res_bind snd].
    intros [= <-]. by destruct primary.
  - destruct (SegFile.write_bitmap_for_memtable _ _ _ _) as [ops|]; [|done]. cbn [mbind res_bind].
    intros [= <-]. by destruct (primary && _).
Qed.

Lemma vacuum_memtable_names n check_ready slot st st' :
  vacuum_memtable callback primary max_file others n check_ready slot st = Ok st' ->
  forall i, slot_name <$> vs_slots st' !! i = slot_name <$> vs_slots st !! i.
Proof.
  unfold vacuum_memtable. destruct (arr_get (vs_slots st) slot) as [sl|] eqn:Hsl; [|done]. apply arr_get_Ok in Hsl. cbn [mbind res_bind].
  destruct (foldl_res _ _ _) as [s|]; [|done]. cbn [mbind res_bind]. rewrite (arr_set_Some _ _ _ _ Hsl). cbn [mbind res_bind].
  intros ->%publish_memtable_slots i. cbn [vs_slots]. unfold update; cbn [vs_slots]. rewrite zlookup_insert. case_decide; [|done].
  subst. by rewrite Hsl.
Qed.

(** A queue entry and the id of its memtable. *)
Definition sealed_slot (lsm : LSMIndexData) (slots : list MemtableBufferSlot) (x : Z * Z) : Prop :=
  0 <= x.1 < MEMTABLE_BUF_SIZE /\ slot_name <$> slots !! x.1 = Some (x.2, indexRelId lsm).

Lemma next_sealed_skips lsm slots growing_id vacuumed done_ rest :
  Forall (fun x => sealed_slot lsm slots x /\ x.2 < growing_id) (done_ ++ rest) ->
  (forall x, x ∈ done_ -> x.2 ∈ vacuumed) -> (forall x, head rest = Some x -> x.2 ∉ vacuumed) ->
  next_sealed slots (fst <$> done_ ++ rest) growing_id vacuumed = Ok (head rest).
Proof.
  intros Hall Hdone Hrest.
  assert (Hstep : forall x idxs, sealed_slot lsm slots x /\ x.2 < growing_id ->
            next_sealed slots (x.1 :: idxs) growing_id vacuumed =
            if bool_decide (x.2 ∈ vacuumed) then next_sealed slots idxs growing_id vacuumed else Ok (Some x)).
  { intros [i id] idxs [[Hr Hs] Hg]. cbn in *. destruct (slots !! i) as [s|] eqn:Hi; [|done]. injection Hs as Hid Hrel.
    destruct (Z.ltb_spec i 0), (Z.leb_spec MEMTABLE_BUF_SIZE i); try lia. cbn [orb]. run. rewrite Hid.
    destruct (Z.leb_spec growing_id id); [lia|done]. }
  induction done_ as [|x done_ IH]; cbn [app fmap list_fmap] in *.
  - destruct rest as [|x rest]; [done|]. apply Forall_cons in Hall as [Hx _]. cbn [fmap list_fmap head].
    rewrite Hstep by done. by rewrite bool_decide_eq_false_2 by (by apply Hrest).
  - apply Forall_cons in Hall as [Hx Hall]. rewrite Hstep by done. rewrite bool_decide_eq_true_2 by (apply Hdone; left).
    apply IH; [done|]. intros; apply Hdone; by right.
Qed.

(** One memtable after the other. *)
Definition vacuum_each (n : nat) (queue : list (Z * Z)) (vacuumed : list Z) (st : vacuum_state) : res (nat * list Z * vacuum_state) :=
  foldl_res (fun acc x => st ← vacuum_memtable callback primary max_file others acc.1.1 false x.1 acc.2;
                          Ok (S acc.1.1, acc.1.2 ++ [x.2], st)) (n, vacuumed, st) queue.

Lemma vacuum_sealed_loop lsm growing_id rest : forall fuel n done_ first st,
  0 <= memtable_count lsm <= MEMTABLE_NUM ->
  reverse (take (Z.to_nat (memtable_count lsm)) (memtable_idxs lsm)) = fst <$> done_ ++ rest ->
  Forall (fun x => sealed_slot lsm (vs_slots st) x /\ x.2 < growing_id) (done_ ++ rest) ->
  NoDup (first ++ (snd <$> done_ ++ rest)) -> zlen first <= 1 -> (length rest < fuel)%nat ->
  vacuum_sealed callback primary max_file others fuel n lsm growing_id (first ++ (snd <$> done_)) st =
    (r ← vacuum_each n rest (first ++ (snd <$> done_)) st; Ok (r.1.2, r.2)).
Proof.
  induction rest as [|x rest IH]; intros [|fuel] n done_ first st Hcnt Hq Hall Hnd Hfirst Hfuel; cbn [length] in Hfuel; try lia;
    cbn [vacuum_sealed]; (destruct (Z.ltb_spec MEMTABLE_NUM (memtable_count lsm)); [lia|]); rewrite Hq;
    (rewrite (next_sealed_skips lsm); [|done|intros y Hy; apply elem_of_app; right; by apply list_elem_of_fmap_2|]).
  - done.
  - done.
  - cbn [head mbind res_bind]. apply Forall_app in Hall as Hx. destruct Hx as [_ Hx]. apply Forall_cons in Hx as [[[Hr Hs] Hlt] _].
    destruct x as [i id]; cbn [fst snd] in *. destruct (vs_slots st !! i) as [sl|] eqn:Hi; [|done]. cbn in Hs. injection Hs as Hid Hrel.
    run. rewrite Hrel, Z.eqb_refl. cbn [negb]. unfold vacuum_each. cbn [foldl_res fst snd].
    destruct (vacuum_memtable callback primary max_file others n false i st) as [st'|] eqn:Hv; [|done]. cbn [mbind res_bind].
    assert (Hroom : zlen (first ++ (snd <$> done_)) < MEMTABLE_NUM + 1).
    { rewrite zlen_app, zlen_fmap. assert (Hl : zlen done_ + 1 + zlen rest <= memtable_count lsm).
      { apply (f_equal zlen) in Hq. rewrite zlen_fmap, zlen_app, zlen_cons in Hq. unfold zlen at 1 in Hq.
        rewrite length_reverse, length_take in Hq. lia. }
      pose proof (zlen_nonneg rest). lia. }
    destruct (Z.ltb_spec (zlen (first ++ (snd <$> done_))) (MEMTABLE_NUM + 1)); [|lia].
    assert (Hsnoc : (first ++ (snd <$> done_)) ++ [id] = first ++ (snd <$> (done_ ++ [(i, id)]))) by (by rewrite fmap_app, app_assoc).
    rewrite !Hsnoc. rewrite (IH fuel (S n) (done_ ++ [(i, id)]) first st'); try done; [by rewrite <-app_assoc| |by rewrite <-app_assoc|lia].
    rewrite <-app_assoc. apply (Forall_impl _ _ _ Hall). intros y [[Hy1 Hy2] Hy3]. split; [|done]. split; [done|].
    by rewrite (vacuum_memtable_names _ _ _ _ _ Hv).
  - intros y [= <-] Hy. rewrite fmap_app, app_assoc in Hnd. apply NoDup_app in Hnd as (_ & Hdisj & _).
    apply (Hdisj _ Hy). left.
Qed.
End sealed.

(** ** Properties *)

(** Every sealed memtable is vacuumed once.  With memtables sealed before
    the growing one, the search for the next memtable goes through the queue
    from its back, takes each entry exactly once although it starts over after
    every memtable, and ends; the outcome, errors included, is that of vacuuming
    the entries one after the other. *)
Theorem sealed_memtables_vacuumed_once {B : Type} `{BlockId B} (callback : ItemPointerData B -> bool) primary max_file others
    n lsm growing_id first queue st :
  0 <= memtable_count lsm <= MEMTABLE_NUM ->
  reverse (take (Z.to_nat (memtable_count lsm)) (memtable_idxs lsm)) = fst <$> queue ->
  Forall (fun x => sealed_slot lsm (vs_slots st) x /\ x.2 < growing_id) queue ->
  NoDup (first ++ (snd <$> queue)) -> zlen first <= 1 ->
  vacuum_sealed callback primary max_file others (S (S (Z.to_nat MEMTABLE_NUM))) n lsm growing_id first st =
    (r ← vacuum_each callback primary max_file others n queue first st; Ok (r.1.2, r.2)).
Proof.
  intros Hcnt Hq Hall Hnd Hfirst. rewrite <-(app_nil_r first) at 1 2.
  apply (vacuum_sealed_loop callback primary max_file others lsm growing_id queue _ n [] first st); try done.
  apply (f_equal length) in Hq. rewrite length_reverse, length_take, length_fmap in Hq. unfold MEMTABLE_NUM in *. lia.
Qed.

Lemma memtable_file max_file id bytes dc : 4 < max_file -> exists ops, SegFile.write_bitmap_for_memtable max_file id bytes dc = Ok ops.
Proof.
  intros Hmax. destruct (write_segment_file_spec max_file (Path.GetLSMBitmapFilePathForMemtable id) bytes (Some dc) Hmax) as (cs & Hw & _).
  eauto.
Qed.

(** Publishing a memtable that is not on disk. *)
Lemma publish_memtable_fresh primary max_file others k mt s st :
  4 < max_file -> covers (rs_bitmap s) (valid_size mt) ->
  SegFile.read_lsm_segment_metadata (vs_dir st) (memtable_id mt) (memtable_id mt) UINT32_MAX = None ->
  exists d', publish_memtable primary max_file others k mt s st =
    Ok (st <| vs_wal := vs_wal st ++ (if rs_changed s && (primary && (0 <? zlen (rs_entries s)))
                                      then [mkWal (mkTombstones (memtable_id mt) 0 1) UINT32_MAX (rs_entries s)] else []) |>
           <| vs_dir := d' |>).
Proof.
  intros Hmax Hcov Hmeta. unfold publish_memtable. rewrite Hmeta. destruct (rs_changed s); cbn [negb andb].
  - unfold file_bitmap. destruct (Z.ltb_spec (zlen (rs_bitmap s)) (GET_BITMAP_SIZE (valid_size mt))); [unfold covers in Hcov; lia|].
    cbn [mbind res_bind].
    destruct (memtable_file max_file (memtable_id mt) (take (Z.to_nat (GET_BITMAP_SIZE (valid_size mt))) (rs_bitmap s))
                (count_set (rs_bitmap s) (valid_size mt)) Hmax) as [ops ->].
    cbn [mbind res_bind]. exists (run_ops (vs_dir st) ops). destruct (primary && _); [done|]. rewrite app_nil_r. by destruct st.
  - exists (vs_dir st). rewrite app_nil_r. by destruct st.
Qed.

(** Marking by position, as the standby does it. *)
Lemma mark_positions cap entries : forall bm, covers bm cap ->
  (forall e, e ∈ entries -> 0 <= sid_local_idx e < cap) ->
  forall q, 0 <= q ->
  IS_SLOT_SET (foldl (fun bm e => if sid_local_idx e <? cap then SET_SLOT bm (sid_local_idx e) else bm) bm entries) q =
    IS_SLOT_SET bm q || bool_decide (Exists (fun e => sid_local_idx e = q) entries).
Proof.
  induction entries as [|e entries IH]; intros bm Hcov Hin q Hq; cbn [foldl].
  - rewrite bool_decide_eq_false_2; [by rewrite orb_false_r|]. by intros ?%Exists_nil.
  - pose proof (Hin e ltac:(left)) as He. destruct (Z.ltb_spec (sid_local_idx e) cap); [|lia].
    rewrite IH by (first [by apply covers_SET_SLOT | done | intros e' He'; apply Hin; by right]).
    rewrite (IS_SLOT_SET_SET _ cap) by done.
    assert (Hex : Exists (fun e => sid_local_idx e = q) (e :: entries) <-> sid_local_idx e = q \/ Exists (fun e => sid_local_idx e = q) entries)
      by apply Exists_cons.
    destruct (Z.eqb_spec (sid_local_idx e) q) as [Heq|Hne].
    + rewrite (bool_decide_eq_true_2 (Exists _ (e :: entries))) by tauto. cbn [orb]. by rewrite orb_true_r.
    + cbn [orb]. f_equal. apply bool_decide_ext. tauto.
Qed.

(** The vacuum of a memtable that is not on disk, and its replay.  It marks
    exactly the rows it looks at that hold a dead tuple, reports each of them,
    and logs them by position; a standby whose memtable has the same rows
    deleted has the same rows deleted again after it applied the record. *)
Theorem memtable_vacuum_replays {B : Type} `{BlockId B} (callback : ItemPointerData B -> bool) primary max_file others
    check_ready k slot sl st :
  let mt := slot_mt sl in let n := valid_size mt in let hs := hits callback check_ready mt n in
  4 < max_file -> vs_slots st !! slot = Some sl -> 0 <= n -> n <= zlen (tids mt) -> n <= zlen (ready mt) -> covers (mt_bitmap mt) n ->
  SegFile.read_lsm_segment_metadata (vs_dir st) (memtable_id mt) (memtable_id mt) UINT32_MAX = None ->
  exists st' bm', vacuum_memtable callback primary max_file others k check_ready slot st = Ok st' /\
    vs_slots st' = <[slot := sl <| slot_mt := mt <| mt_bitmap := bm' |> |>]> (vs_slots st) /\
    (forall q, 0 <= q -> IS_SLOT_SET bm' q = IS_SLOT_SET (mt_bitmap mt) q || ((q <? n) && hit callback check_ready mt q)) /\
    vs_pool st' = vs_pool st /\
    vs_status st' = vs_status st ++ ((fun e => (memtable_id mt, sid_local_idx e, entry_tid e)) <$> hs) /\
    tuples_removed st' = tuples_removed st + zlen hs /\
    num_index_tuples st' = num_index_tuples st + kept_rows callback check_ready mt n /\
    vs_wal st' = vs_wal st ++
      (if primary && negb (bool_decide (hs = [])) then [mkWal (mkTombstones (memtable_id mt) 0 1) UINT32_MAX hs] else []) /\
    forall mts : ConcurrentMemTableData, covers (mt_bitmap mts) (capacity mts) -> n <= capacity mts ->
      (forall q, 0 <= q -> IS_SLOT_SET (mt_bitmap mts) q = IS_SLOT_SET (mt_bitmap mt) q) ->
      exists mts', Redo.apply_entries_to_memtable_locked mts (mkTombstones (memtable_id mt) 0 1) hs = Ok mts' /\
        forall q, 0 <= q -> IS_SLOT_SET (mt_bitmap mts') q = IS_SLOT_SET bm' q.
Proof.
  intros mt n hs Hmax Hsl Hn Htids Hready Hcov Hmeta.
  destruct (memtable_rows_spec callback primary check_ready mt n (conj Htids Hready) Hcov Hn) as (s & Hrun & [Hl Hb Hsm Hc Hr Hlv He Hst]).
  fold hs in Hsm, Hc, Hr, He, Hst.
  set (st1 := st <| vs_slots := <[slot := sl <| slot_mt := mt <| mt_bitmap := rs_bitmap s |> |>]> (vs_slots st) |>
                 <| tuples_removed := tuples_removed st + rs_removed s |>
                 <| num_index_tuples := num_index_tuples st + rs_live s |> <| vs_status := vs_status st ++ rs_status s |>).
  destruct (publish_memtable_fresh primary max_file others k mt s st1) as [d' Hpub];
    [done|by unfold covers in *; rewrite Hl|done|].
  eexists _, (rs_bitmap s). split.
  { unfold vacuum_memtable. run. fold mt. fold n. rewrite Hrun. cbn [mbind res_bind]. rewrite (arr_set_Some _ _ _ _ Hsl). exact Hpub. }
  split; [done|]. split; [done|]. split; [done|]. split; [by rewrite <-Hst|]. split; [by rewrite <-Hr|]. split; [by rewrite <-Hlv|].
  split.
  { change (vs_wal (st1 <| vs_wal := ?w |> <| vs_dir := d' |>)) with w. change (vs_wal st1) with (vs_wal st). f_equal.
    rewrite Hc, He. destruct primary, (bool_decide_reflect (hs = [])) as [|Hne]; cbn [negb andb]; try done.
    destruct hs as [|e es]; [done|]. rewrite zlen_cons. pose proof (zlen_nonneg es). by destruct (Z.ltb_spec 0 (1 + zlen es)); [|lia]. }
  intros mts Hcovs Hcap Hsame. eexists; split; [reflexivity|]. intros q Hq. unfold update; cbn [mt_bitmap].
  rewrite (mark_positions (capacity mts)), Hb, Hsame by (done || (intros e (Hi & _)%elem_of_hits; lia)). f_equal.
  destruct (Z.ltb_spec q n) as [Hlt|Hge]; cbn [andb].
  - destruct (hit callback check_ready mt q) eqn:Hh.
    + apply bool_decide_eq_true_2, Exists_exists. by apply hits_index.
    + apply bool_decide_eq_false_2. intros Hex%Exists_exists. apply hits_index in Hex; [congruence|lia].
  - apply bool_decide_eq_false_2. intros (e & (Hi & _)%elem_of_hits & <-)%Exists_exists. lia.
Qed.

(** The vacuum of a memtable that is already flushed reaches the disk, not
    the pool.  It asks the worker for version 0; versions start at 1, so the
    worker always answers "retry", and the answer is not looked at: the newest
    bitmap file has the new deletions and the pool searches go on with the old
    bitmap.  Step 3 then skips the segment because its memtable was vacuumed. *)
Theorem flushed_memtable_vacuum_misses_pool {B : Type} `{BlockId B} (callback : ItemPointerData B -> bool) primary max_file
    check_ready k slot sl st l v map bm offs :
  let mt := slot_mt sl in let n := valid_size mt in let id := memtable_id mt in
  4 < max_file -> vs_slots st !! slot = Some sl -> n <= zlen (tids mt) -> n <= zlen (ready mt) -> covers (mt_bitmap mt) n ->
  on_disk (vs_dir st) id id v n map bm offs -> Scan.find_latest_segment_version (readdir (vs_dir st)) id id = v ->
  subversions_small (vs_dir st) id id v -> hits callback check_ready mt n <> [] ->
  pool_wf (vs_pool st) l ->
  (forall i seg, i ∈ l -> flushed_segments (vs_pool st) !! i = Some seg -> 1 <= version seg /\ ref_count seg + 1 < 2 ^ 31) ->
  exists st' bm', vacuum_memtable callback primary max_file undisturbed k check_ready slot st = Ok st' /\
    on_disk (vs_dir st') id id v n map bm' offs /\
    (forall q, 0 <= q < n -> IS_SLOT_SET bm' q = IS_SLOT_SET (mt_bitmap mt) q || hit callback check_ready mt q) /\
    vs_pool st' = vs_pool st /\ forall vacuumed, id ∈ vacuumed ->
      vacuum_segment_files callback primary max_file (Scan.mkFileInfo id id v) vacuumed st' = Ok (None, st').
Proof.
  intros mt n id Hmax Hsl Htids Hready Hcov Hdisk Hlat Hsubs Hhits Hw Hvers.
  pose proof Hdisk as [(_ & _ & _ & _ & Hvm) [t Hmeta] _ _ _ (Hn & _ & Hzb)].
  destruct (memtable_rows_spec callback primary check_ready mt n (conj Htids Hready) Hcov ltac:(lia)) as (s & Hrun & [Hl Hb _ Hc _ _ _ _]).
  set (bm' := take (Z.to_nat (GET_BITMAP_SIZE n)) (rs_bitmap s)).
  assert (Hlen : GET_BITMAP_SIZE n <= zlen (rs_bitmap s)) by (unfold covers in Hcov; lia).
  assert (Hz : zlen bm' = zlen bm) by (subst bm'; unfold zlen in *; rewrite length_take; pose proof (zlen_nonneg bm); unfold zlen in *; lia).
  assert (Hbits : forall q, 0 <= q < n -> IS_SLOT_SET bm' q = IS_SLOT_SET (rs_bitmap s) q) by (intros; by apply IS_SLOT_SET_take).
  destruct (on_disk_update max_file (vs_dir st) id id v n map bm offs bm' Hmax Hdisk Hsubs Hz) as (ops & Hops & Hdisk' & _).
  set (st1 := st <| vs_slots := <[slot := sl <| slot_mt := mt <| mt_bitmap := rs_bitmap s |> |>]> (vs_slots st) |>
                 <| tuples_removed := tuples_removed st + rs_removed s |>
                 <| num_index_tuples := num_index_tuples st + rs_live s |> <| vs_status := vs_status st ++ rs_status s |>).
  set (st2 := if primary then emit (mkTombstones id v 0) (next_subversion (vs_dir st) id id v) (rs_entries s) st1 else st1).
  exists (write_files ops st2), bm'.
  assert (Hst2 : vs_dir (write_files ops st2) = run_ops (vs_dir st) ops) by (subst st2; by destruct primary).
  split; [|split; [by rewrite Hst2|split; [|split]]].
  - unfold vacuum_memtable. run. fold mt. fold n. rewrite Hrun. cbn [mbind res_bind]. rewrite (arr_set_Some _ _ _ _ Hsl).
    cbn [mbind res_bind]. fold st1. unfold publish_memtable. fold id. fold n. change (vs_dir st1) with (vs_dir st).
    assert (Hmeta' : SegFile.read_lsm_segment_metadata (vs_dir st) id id UINT32_MAX = Some (id, id, n, t)).
    { revert Hmeta. unfold SegFile.read_lsm_segment_metadata, SegFile.resolve_version. rewrite Z.eqb_refl, Hlat.
      by destruct (Z.eqb_spec v UINT32_MAX). }
    rewrite Hmeta', Hc, bool_decide_eq_false_2 by done. cbn [negb]. unfold file_bitmap.
    destruct (Z.ltb_spec (zlen (rs_bitmap s)) (GET_BITMAP_SIZE n)); [lia|]. cbn [mbind res_bind]. rewrite Hlat. fold bm'.
    rewrite <-(count_set_ext bm'), Hops by done. cbn [mbind res_bind]. fold st2. unfold send_update, undisturbed.
    rewrite (update_vacuum_stale _ (vs_pool (write_files ops st2)) l).
    + cbn [mbind res_bind fst snd]. f_equal.
    + subst st2. by destruct primary.
    + intros i seg Hi Hs. assert (Hs' : flushed_segments (vs_pool st) !! i = Some seg) by (revert Hs; subst st2; by destruct primary).
      destruct (Hvers i seg Hi Hs'). lia.
  - intros q Hq. rewrite Hbits, Hb by lia. by destruct (Z.ltb_spec q n); [|lia].
  - subst st2. by destruct primary.
  - intros vacuumed Hin. unfold vacuum_segment_files. cbn [Scan.fi_version Scan.fi_start_sid Scan.fi_end_sid].
    rewrite Hst2. destruct (od_meta _ _ _ _ _ _ _ _ Hdisk') as [t' ->]. rewrite Z.eqb_refl. by rewrite bool_decide_eq_true_2.
Qed.

Lemma sealed_memtables_vacuumed_once_witness :
  vacuum_sealed dead_11 true 8 undisturbed (S (S (Z.to_nat MEMTABLE_NUM))) 1 (lsm_with 2 7) 7 [7] two_memtables =
    (r ← vacuum_each dead_11 true 8 undisturbed 1 [(1, 6); (0, 5)] [7] two_memtables; Ok (r.1.2, r.2)).
Proof.
  apply (sealed_memtables_vacuumed_once dead_11 true 8 undisturbed 1 (lsm_with 2 7) 7 [7] [(1, 6); (0, 5)] two_memtables).
  - vm_compute. split; congruence.
  - vm_compute. reflexivity.
  - repeat (constructor; [split; [split; [vm_compute; split; congruence|vm_compute; reflexivity]|vm_compute; reflexivity]|]). constructor.
  - apply (bool_decide_unpack _). vm_compute. exact I.
  - vm_compute. congruence.
Defined.

Lemma memtable_vacuum_replays_witness :
  exists st' bm', vacuum_memtable dead_11 true 8 undisturbed 1 false 0 two_memtables = Ok st' /\
    IS_SLOT_SET bm' 0 = true /\ IS_SLOT_SET bm' 1 = false /\
    vs_wal st' = [mkWal (mkTombstones 5 0 1) UINT32_MAX [mkEntry 0 11]] /\ num_index_tuples st' = 2.
Proof.
  destruct (memtable_vacuum_replays dead_11 true 8 undisturbed false 1 0 (mkBufferSlot 1 (sealed_mt 5)) two_memtables)
    as (st' & bm' & Hrun & _ & Hbits & _ & _ & _ & Hlive & Hwal & _).
  - lia.
  - reflexivity.
  - vm_compute. congruence.
  - vm_compute. congruence.
  - vm_compute. congruence.
  - vm_compute. congruence.
  - vm_compute. reflexivity.
  - exists st', bm'. split; [exact Hrun|]. rewrite !Hbits, Hwal, Hlive by lia. repeat split; vm_compute; reflexivity.
Defined.

(** Memtable 5 as a segment on disk and in the pool. *)
Definition flushed_5 : directory := dir_of (SegFile.mkPrep 5 5 3 [11; 12; 13] [0] 0 (Some [7]) HNSW (Some [mkOffsetRange 5 0 3])).
Definition flushed_memtables : vacuum_state :=
  mkVacuum two_sealed flushed_5 (one_segment_pool (segment_at 5 5 1 [11; 12; 13] [0] [mkOffsetRange 5 0 3])) 0 0 [] [].

Lemma flushed_5_on_disk : on_disk flushed_5 5 5 1 3 [11; 12; 13] [0] [mkOffsetRange 5 0 3].
Proof.
  split; [unfold u32_ok, UINT32_MAX; lia|exists HNSW; vm_compute; reflexivity|vm_compute; reflexivity..|].
  split; [lia|]. split; vm_compute; reflexivity.
Qed.

Lemma flushed_memtable_vacuum_misses_pool_witness :
  exists st' bm', vacuum_memtable dead_11 true 8 undisturbed 1 false 0 flushed_memtables = Ok st' /\
    on_disk (vs_dir st') 5 5 1 3 [11; 12; 13] bm' [mkOffsetRange 5 0 3] /\ IS_SLOT_SET bm' 0 = true /\
    vs_pool st' = vs_pool flushed_memtables /\ IS_SLOT_SET [0] 0 = false.
Proof.
  destruct (flushed_memtable_vacuum_misses_pool dead_11 true 8 false 1 0 (mkBufferSlot 1 (sealed_mt 5)) flushed_memtables [0] 1
              [11; 12; 13] [0] [mkOffsetRange 5 0 3]) as (st' & bm' & Hrun & Hdisk & Hbits & Hpool & _).
  - lia.
  - reflexivity.
  - vm_compute. congruence.
  - vm_compute. congruence.
  - vm_compute. congruence.
  - exact flushed_5_on_disk.
  - vm_compute. reflexivity.
  - intros e w He%elem_of_readdir Hw.
    assert (Hn : Forall (fun s => Scan.version_of (Scan.subversion_prefix 5 5 1) s = None) (readdir flushed_5)).
    { apply (bool_decide_unpack _). vm_compute. exact I. }
    rewrite Forall_forall in Hn. change (vs_dir flushed_memtables) with flushed_5 in He. by rewrite Hn in Hw.
  - vm_compute. congruence.
  - apply pool_wfb_sound. vm_compute. reflexivity.
  - intros i seg Hi Hs. apply list_elem_of_singleton in Hi as ->. vm_compute in Hs. injection Hs as <-. vm_compute. split; congruence.
  - exists st', bm'. split; [exact Hrun|]. split; [exact Hdisk|]. split; [rewrite Hbits by (vm_compute; split; congruence); vm_compute; reflexivity|].
    split; [exact Hpool|vm_compute; reflexivity].
Defined.
