(* ===== verification/MergeSchedule.v ===== *)
(** The merge scheduler (vector_index_worker.c): which segments the maintenance
    threads rebuild or merge next.  A scan under the read lock looks for a
    segment, or a segment and a neighbour; the claim then takes the write lock
    and looks again, because other threads may have come in between; what they
    do to the pool is an argument. *)

From S2P Require Import Prelude SegmentPool.

Inductive MergeTaskType := SEGMENT_UPDATE_REBUILD_FLAT | SEGMENT_UPDATE_REBUILD_DELETION | SEGMENT_UPDATE_MERGE.
#[global] Instance MergeTaskType_eq_dec : EqDecision MergeTaskType.
Proof. solve_decision. Defined.

Record MergeTaskLocal := mkTask {
  operation_type : MergeTaskType; task_lsm_idx : Z; segment_idx0 : Z; segment_idx1 : Z;
  merged_start_sid : Z; merged_end_sid : Z }.

Definition MAX_SEGMENTS_SIZE : Z := 2000000.

Module Schedule.

Section scheduler.
(** [postgresqlv_memtable_capacity], and the test of the deletion ratio in
    floating point: [delete_count / vec_count > postgresqlv_deletion_rebuild_ratio]. *)
Context (memtable_capacity : Z) (ratio_exceeded : Z -> Z -> bool).

(** In use, not taken by another thread, loaded. *)
Definition usable (s : FlushedSegmentData) : bool :=
  in_used s && negb (is_compacting s) && bool_decide (load_state s = SEG_FULLY_LOADED).

(** [CANDIDATE_OK] *)
Definition candidate_ok (pool : FlushedSegmentPool) (i : Z) : res bool :=
  if i =? NIL then Ok false
  else s ← arr_get (flushed_segments pool) i; Ok (usable s && negb (bool_decide (index_type s = DISKANN))).

Definition choose_adjacent_smaller_pool (pool : FlushedSegmentPool) (idx : Z) : res (option Z) :=
  s ← arr_get (flushed_segments pool) idx;
  let prev := prev_idx s in
  let next := next_idx s in
  have_prev ← candidate_ok pool prev;
  have_next ← candidate_ok pool next;
  match have_prev, have_next with
  | false, false => Ok None
  | true, false => Ok (Some prev)
  | false, true => Ok (Some next)
  | true, true =>
      p ← arr_get (flushed_segments pool) prev;
      q ← arr_get (flushed_segments pool) next;
      Ok (Some (if vec_count p <=? vec_count q then prev else next))
  end.

(** The claimed task and the pool; nothing when a segment is no longer usable. *)
Definition claim_merge_task_pool (lsm_idx : Z) (pool : FlushedSegmentPool) (idx0 idx1 : Z) (ty : MergeTaskType)
    : res (option MergeTaskLocal * FlushedSegmentPool) :=
  s0 ← arr_get (flushed_segments pool) idx0;
  if negb (usable s0) then Ok (None, pool)
  else
    ok1 ← (if bool_decide (ty = SEGMENT_UPDATE_MERGE) then
             if idx1 =? NIL then Ok false else s1 ← arr_get (flushed_segments pool) idx1; Ok (usable s1)
           else Ok true);
    if negb ok1 then Ok (None, pool)
    else
      segs ← arr_upd (flushed_segments pool) idx0 (fun s => s <| is_compacting := true |>);
      segs ← (if bool_decide (ty = SEGMENT_UPDATE_MERGE) && negb (idx1 =? NIL)
              then arr_upd segs idx1 (fun s => s <| is_compacting := true |>) else Ok segs);
      s0 ← arr_get segs idx0;
      e ← (if bool_decide (ty = SEGMENT_UPDATE_MERGE) then s1 ← arr_get segs idx1; Ok (segment_id_end s1)
           else Ok (segment_id_end s0));
      Ok (Some (mkTask ty lsm_idx idx0 idx1 (segment_id_start s0) e), pool <| flushed_segments := segs |>).

(** The size limit of the merge priorities. *)
Definition size_limit (priority_type : Z) : Z -> bool := fun n =>
  if priority_type =? 2 then n <=? u32 memtable_capacity
  else if priority_type =? 4 then n <=? THRESHOLD_SMALL_SEGMENT_SIZE
  else n <? MAX_SEGMENTS_SIZE.

(** [should_claim], with the neighbour for the merge priorities. *)
Definition wants (pool : FlushedSegmentPool) (priority_type cur : Z) (seg : FlushedSegmentData) : res (bool * Z) :=
  if priority_type =? 1 then Ok (bool_decide (index_type seg = FLAT), NIL)
  else if priority_type =? 3 then
    Ok ((0 <? vec_count seg) && ratio_exceeded (delete_count seg) (vec_count seg), NIL)
  else if bool_decide (index_type seg = DISKANN) then Ok (false, NIL)
  else if size_limit priority_type (vec_count seg) then
    adj ← choose_adjacent_smaller_pool pool cur;
    match adj with
    | None => Ok (false, NIL)
    | Some adj =>
        a ← arr_get (flushed_segments pool) adj;
        Ok ((vec_count a <? MAX_SEGMENTS_SIZE) && (vec_count seg + vec_count a <? MAX_SEGMENTS_SIZE), adj)
    end
  else Ok (false, NIL).

(** The walk under the read lock: the next segment to claim, with its neighbour. *)
Fixpoint scan_from (fuel : nat) (pool : FlushedSegmentPool) (priority_type cur : Z) : res (option (Z * Z)) :=
  match fuel with
  | O => Error OutOfFuel
  | S fuel =>
      if cur =? NIL then Ok None
      else
        seg ← arr_get (flushed_segments pool) cur;
        if negb (usable seg) then scan_from fuel pool priority_type (next_idx seg)
        else
          '(should_claim, adj) ← wants pool priority_type cur seg;
          if (should_claim : bool) then Ok (Some (cur, adj)) else scan_from fuel pool priority_type (next_idx seg)
  end.

(** The two segments in the order of their ids. *)
Definition order_pair (pool : FlushedSegmentPool) (cur adj : Z) : res (Z * Z) :=
  if adj =? NIL then Ok (cur, NIL)
  else
    a ← arr_get (flushed_segments pool) adj;
    c ← arr_get (flushed_segments pool) cur;
    Ok (if segment_id_start a <? segment_id_start c then (adj, cur) else (cur, adj)).

Definition task_type_of (priority_type : Z) : MergeTaskType :=
  if priority_type =? 1 then SEGMENT_UPDATE_REBUILD_FLAT
  else if priority_type =? 3 then SEGMENT_UPDATE_REBUILD_DELETION else SEGMENT_UPDATE_MERGE.

(** What other threads do while this one holds no lock, the [n]-th time. *)
Context (others : nat -> FlushedSegmentPool -> FlushedSegmentPool).

(** Scan, claim, and again from the head when the claim failed. *)
Fixpoint claim_loop (rounds n : nat) (lsm_idx : Z) (pool : FlushedSegmentPool) (priority_type : Z)
    : res (option MergeTaskLocal * FlushedSegmentPool) :=
  match rounds with
  | O => Error OutOfFuel
  | S rounds =>
      found ← scan_from Pool.list_fuel pool priority_type (head_idx pool);
      match found with
      | None => Ok (None, pool)
      | Some (cur, adj) =>
          p ← order_pair pool cur adj;
          c ← claim_merge_task_pool lsm_idx (others n pool) p.1 p.2 (task_type_of priority_type);
          match c with
          | (Some task, pool) => Ok (Some task, pool)
          | (None, pool) => claim_loop rounds (S n) lsm_idx (others (S n) pool) priority_type
          end
      end
  end.

Definition traverse_and_check_priority_pool (rounds : nat) (lsm_idx : Z) (pool : FlushedSegmentPool) (priority_type : Z)
    : res (option MergeTaskLocal * FlushedSegmentPool) :=
  if head_idx pool =? NIL then Ok (None, pool)
  else
    h ← arr_get (flushed_segments pool) (head_idx pool);
    if negb (in_used h) then Ok (None, pool)
    else claim_loop rounds 0 lsm_idx pool priority_type.

(** The counter that is looked at before the pool is walked. *)
Definition gate (priority_type : Z) (pool : FlushedSegmentPool) : bool :=
  if priority_type =? 1 then 0 <? flat_count pool
  else if priority_type =? 2 then 0 <? memtable_capacity_le_count pool
  else if priority_type =? 4 then 0 <? small_segment_le_count pool
  else true.

(** One priority over all indexes, from index [lsm_idx] on. *)
Fixpoint scan_priority (rounds : nat) (priority_type lsm_idx : Z) (slots : list (bool * FlushedSegmentPool))
    : res (option MergeTaskLocal * list (bool * FlushedSegmentPool)) :=
  match slots with
  | [] => Ok (None, [])
  | (queryable, pool) :: slots =>
      r ← (if queryable && gate priority_type pool then traverse_and_check_priority_pool rounds lsm_idx pool priority_type
           else Ok (None, pool));
      match r with
      | (Some task, pool) => Ok (Some task, (queryable, pool) :: slots)
      | (None, pool) =>
          rest ← scan_priority rounds priority_type (lsm_idx + 1) slots;
          Ok (rest.1, (queryable, pool) :: rest.2)
      end
  end.

Fixpoint scan_priorities (rounds : nat) (priorities : list Z) (slots : list (bool * FlushedSegmentPool))
    : res (option MergeTaskLocal * list (bool * FlushedSegmentPool)) :=
  match priorities with
  | [] => Ok (None, slots)
  | p :: priorities =>
      r ← scan_priority rounds p 0 slots;
      match r with
      | (Some task, slots) => Ok (Some task, slots)
      | (None, slots) => scan_priorities rounds priorities slots
      end
  end.

(** The indexes in the order of their slots: whether they are queryable, and
    their pools. *)
Definition scan_and_claim_merge_task_pool (rounds : nat) (slots : list (bool * FlushedSegmentPool)) :=
  scan_priorities rounds [1; 2; 3; 4; 5] slots.

End scheduler.
End Schedule.

Import Schedule.

(** ** What there is to do *)

Definition adjacent (l : list Z) (i j : Z) : Prop := exists l1 l2, l = l1 ++ i :: j :: l2.

Section work.
Context (memtable_capacity : Z) (ratio_exceeded : Z -> Z -> bool).

Definition candidate (pool : FlushedSegmentPool) (i : Z) : bool :=
  match flushed_segments pool !! i with Some s => usable s && negb (bool_decide (index_type s = DISKANN)) | None => false end.
Definition count_of (pool : FlushedSegmentPool) (i : Z) : Z :=
  match flushed_segments pool !! i with Some s => vec_count s | None => 0 end.

(** A pair the merge priority [p] is for. *)
Definition mergeable (pool : FlushedSegmentPool) (l : list Z) (p i j : Z) : Prop :=
  adjacent l i j /\ candidate pool i = true /\ candidate pool j = true /\
  (size_limit memtable_capacity p (count_of pool i) = true \/ size_limit memtable_capacity p (count_of pool j) = true) /\
  count_of pool i + count_of pool j < MAX_SEGMENTS_SIZE.

(** A segment the rebuild priority [p] is for. *)
Definition rebuildable (pool : FlushedSegmentPool) (l : list Z) (p i : Z) : Prop :=
  i ∈ l /\ exists s, flushed_segments pool !! i = Some s /\ usable s = true /\
    if p =? 1 then index_type s = FLAT else 0 < vec_count s /\ ratio_exceeded (delete_count s) (vec_count s) = true.

Definition is_rebuild (p : Z) : bool := (p =? 1) || (p =? 3).

Definition work (pool : FlushedSegmentPool) (l : list Z) (p : Z) : Prop :=
  if is_rebuild p then exists i, rebuildable pool l p i else exists i j, mergeable pool l p i j.

(** A published list as the scheduler finds it. *)
Record scannable (pool : FlushedSegmentPool) (l : list Z) : Prop := {
  sc_wf : pool_wf pool l;
  sc_order : forall l1 i l2 j, l = l1 ++ i :: l2 -> j ∈ l2 -> start_of (flushed_segments pool) i < start_of (flushed_segments pool) j;
  sc_counts : forall i s, i ∈ l -> flushed_segments pool !! i = Some s -> 0 <= vec_count s < 2 ^ 32 }.

Context (pool : FlushedSegmentPool) (l : list Z) (Hsc : scannable pool l).

Lemma candidate_NIL : candidate pool NIL = false.
Proof. unfold candidate. by rewrite (slot_NIL _ _ (pw_list _ _ (sc_wf _ _ Hsc))). Qed.

Lemma candidate_ok_spec i : i = NIL \/ i ∈ l -> candidate_ok pool i = Ok (candidate pool i).
Proof.
  intros Hi. unfold candidate_ok. destruct (Z.eqb_spec i NIL) as [->|Hn]; [by rewrite candidate_NIL|].
  destruct Hi as [|Hi]; [done|]. destruct (list_wf_slot _ _ _ (pw_list _ _ (sc_wf _ _ Hsc)) Hi) as [s Hs].
  unfold candidate. rewrite Hs. by run.
Qed.

Lemma last_or_cases l1 : last_or NIL l1 = NIL \/ exists l0, l1 = l0 ++ [last_or NIL l1].
Proof. destruct l1 as [|x l0 _] using rev_ind; [by left|]. right. exists l0. by rewrite last_or_app. Qed.

Lemma hd_or_cases l2 : hd_or NIL l2 = NIL \/ exists l0, l2 = hd_or NIL l2 :: l0.
Proof. destruct l2; [by left|]. right. by eexists. Qed.

(** The neighbours of a slot. *)
Definition neighbour (i j : Z) : Prop := adjacent l i j \/ adjacent l j i.

Lemma neighbour_prev l1 cur l2 : l = l1 ++ cur :: l2 -> last_or NIL l1 <> NIL -> adjacent l (last_or NIL l1) cur.
Proof.
  intros Hl Hne. destruct (last_or_cases l1) as [|[l0 Hl0]]; [done|]. exists l0, l2. rewrite Hl. rewrite Hl0 at 1. by rewrite <-app_assoc.
Qed.

Lemma neighbour_next l1 cur l2 : l = l1 ++ cur :: l2 -> hd_or NIL l2 <> NIL -> adjacent l cur (hd_or NIL l2).
Proof. intros Hl Hne. destruct (hd_or_cases l2) as [|[l0 Hl0]]; [done|]. exists l1, l0. rewrite Hl. by rewrite <-Hl0. Qed.

Lemma neighbour_cases l1 cur l2 j : l = l1 ++ cur :: l2 -> neighbour cur j -> j = last_or NIL l1 \/ j = hd_or NIL l2.
Proof.
  intros Hl Hnb. pose proof (lw_nodup _ _ (pw_list _ _ (sc_wf _ _ Hsc))) as Hnd.
  assert (Hsplit : forall (a b c d : list Z) x, a ++ x :: b = c ++ x :: d -> NoDup (a ++ x :: b) -> a = c /\ b = d).
  { induction a as [|y a IH]; intros b c d x He Hn.
    - destruct c as [|z c]; cbn in He; [by injection He|]. injection He as -> He. exfalso. apply NoDup_cons in Hn as [Hn _]. apply Hn. rewrite He. set_solver.
    - destruct c as [|z c]; cbn in *; injection He as -> He.
      + exfalso. apply NoDup_cons in Hn as [Hn _]. apply Hn. set_solver.
      + apply NoDup_cons in Hn as [_ Hn]. destruct (IH _ _ _ _ He Hn) as [-> ->]. done. }
  destruct Hnb as [(a & b & E)|(a & b & E)]; rewrite E in Hl, Hnd.
  - destruct (Hsplit _ _ _ _ _ Hl Hnd) as [-> <-]. right. done.
  - change (a ++ j :: cur :: b) with (a ++ [j] ++ cur :: b) in Hl, Hnd. rewrite app_assoc in Hl, Hnd.
    destruct (Hsplit _ _ _ _ _ Hl Hnd) as [<- ->]. left. by rewrite last_or_app.
Qed.

Lemma choose_spec l1 cur l2 : l = l1 ++ cur :: l2 ->
  exists r, choose_adjacent_smaller_pool pool cur = Ok r /\
    match r with
    | None => forall j, neighbour cur j -> candidate pool j = false
    | Some adj => neighbour cur adj /\ candidate pool adj = true /\
        forall j, neighbour cur j -> candidate pool j = true -> count_of pool adj <= count_of pool j
    end.
Proof.
  intros Hl. pose proof (sc_wf _ _ Hsc) as Hw. pose proof (pw_list _ _ Hw) as Hlw.
  pose proof (lw_chain _ _ Hlw) as Hch. rewrite Hl in Hch. destruct (chain_middle _ _ _ _ _ _ Hch) as (s & Hs & Hp & Hnx).
  assert (Hpl : last_or NIL l1 = NIL \/ last_or NIL l1 ∈ l).
  { destruct (last_or_cases l1) as [|[l0 Hl0]]; [by left|right]. rewrite Hl. apply elem_of_app. left. rewrite Hl0 at 2. set_solver. }
  assert (Hnl : hd_or NIL l2 = NIL \/ hd_or NIL l2 ∈ l).
  { destruct l2; [by left|right]. rewrite Hl. cbn. set_solver. }
  unfold choose_adjacent_smaller_pool. run. rewrite Hp, Hnx, !candidate_ok_spec by done. cbn [mbind res_bind].
  set (p := last_or NIL l1) in *. set (q := hd_or NIL l2) in *.
  assert (Hnbp : candidate pool p = true -> neighbour cur p).
  { intros Hc. right. apply neighbour_prev with (l2 := l2); [done|]. fold p. intros He. by rewrite He, candidate_NIL in Hc. }
  assert (Hnbq : candidate pool q = true -> neighbour cur q).
  { intros Hc. left. apply (neighbour_next l1); [done|]. fold q. intros He. by rewrite He, candidate_NIL in Hc. }
  assert (Hcase : forall j, neighbour cur j -> j = p \/ j = q) by (intros j Hj; by apply (neighbour_cases l1 cur l2)).
  destruct (candidate pool p) eqn:Hcp, (candidate pool q) eqn:Hcq.
  - pose proof Hcp as Hcp'. pose proof Hcq as Hcq'. unfold candidate in Hcp', Hcq'.
    destruct (flushed_segments pool !! p) as [sp|] eqn:Hsp; [|done]. destruct (flushed_segments pool !! q) as [sq|] eqn:Hsq; [|done].
    run. eexists; split; [done|]. assert (Hcnt : count_of pool p = vec_count sp /\ count_of pool q = vec_count sq) by (unfold count_of; by rewrite Hsp, Hsq).
    destruct (Z.leb_spec (vec_count sp) (vec_count sq)); (split; [auto|split; [done|]]); intros j [-> | ->]%Hcase _; lia.
  - exists (Some p). split; [done|]. split; [auto|]. split; [done|]. intros j [-> | ->]%Hcase Hj; [done|congruence].
  - exists (Some q). split; [done|]. split; [auto|]. split; [done|]. intros j [-> | ->]%Hcase Hj; [congruence|done].
  - exists None. split; [done|]. by intros j [-> | ->]%Hcase.
Qed.

(** What [should_claim] says of a usable segment. *)
Definition wanted (p cur adj : Z) (b : bool) : Prop :=
  if is_rebuild p then if b then adj = NIL /\ rebuildable pool l p cur else ~ rebuildable pool l p cur
  else if b then neighbour cur adj /\ candidate pool cur = true /\ candidate pool adj = true /\
                 size_limit memtable_capacity p (count_of pool cur) = true /\ count_of pool cur + count_of pool adj < MAX_SEGMENTS_SIZE
  else forall j, neighbour cur j -> candidate pool cur = true -> candidate pool j = true ->
         size_limit memtable_capacity p (count_of pool cur) = true -> MAX_SEGMENTS_SIZE <= count_of pool cur + count_of pool j.

Lemma wants_spec l1 cur l2 p s :
  l = l1 ++ cur :: l2 -> flushed_segments pool !! cur = Some s -> usable s = true ->
  exists b adj, wants memtable_capacity ratio_exceeded pool p cur s = Ok (b, adj) /\ wanted p cur adj b.
Proof.
  intros Hl Hs Hu. unfold wants, wanted, is_rebuild.
  assert (Hin : cur ∈ l) by (rewrite Hl; set_solver).
  destruct (Z.eqb_spec p 1) as [->|H1]; cbn [orb].
  { eexists _, _. split; [done|]. unfold rebuildable. cbn. destruct (bool_decide_reflect (index_type s = FLAT)) as [Hf|Hf].
    - split; [done|]. split; [done|]. by exists s.
    - intros (_ & s' & Hs' & _ & Hf'). by simplify_eq. }
  destruct (Z.eqb_spec p 3) as [->|H3].
  { eexists _, _. split; [done|]. unfold rebuildable. cbn.
    destruct (Z.ltb_spec 0 (vec_count s)) as [Hv|Hv]; cbn [andb]; [destruct (ratio_exceeded _ _) eqn:Hr|].
    - split; [done|]. split; [done|]. by exists s.
    - intros (_ & s' & Hs' & _ & _ & Hf'). simplify_eq. congruence.
    - intros (_ & s' & Hs' & _ & Hv' & _). simplify_eq. lia. }
  assert (Hcur : count_of pool cur = vec_count s) by (unfold count_of; by rewrite Hs).
  assert (Hcand : candidate pool cur = negb (bool_decide (index_type s = DISKANN))) by (unfold candidate; by rewrite Hs, Hu).
  destruct (bool_decide (index_type s = DISKANN)) eqn:Hd.
  { eexists _, _. split; [done|]. intros j _ Hc. by rewrite Hcand in Hc. }
  rewrite <-Hcur. destruct (size_limit memtable_capacity p (count_of pool cur)) eqn:Hlim; [|eexists _, _; by split].
  destruct (choose_spec l1 cur l2 Hl) as (r & -> & Hr). cbn [mbind res_bind]. destruct r as [adj|].
  - destruct Hr as (Hnb & Hca & Hmin). pose proof Hca as Hca'. unfold candidate in Hca'.
    destruct (flushed_segments pool !! adj) as [sa|] eqn:Hsa; [|done]. run.
    assert (Hca2 : count_of pool adj = vec_count sa) by (unfold count_of; by rewrite Hsa).
    assert (Hb : 0 <= vec_count s) by (eapply (sc_counts _ _ Hsc); eauto).
    eexists _, _. split; [done|]. rewrite <-Hca2.
    destruct (Z.ltb_spec (count_of pool adj) MAX_SEGMENTS_SIZE), (Z.ltb_spec (count_of pool cur + count_of pool adj) MAX_SEGMENTS_SIZE);
      cbn [andb]; try (intros j Hj _ Hcj _; specialize (Hmin j Hj Hcj); lia).
    split; [done|]. split; [by rewrite Hcand|]. by split.
  - eexists _, _. split; [done|]. intros j Hj _ Hcj. by rewrite (Hr j Hj) in Hcj.
Qed.

(** The walk finds the first wanted segment, or there is none. *)
Lemma scan_from_spec p fuel : forall l1 l2, l = l1 ++ l2 -> (length l2 < fuel)%nat ->
  exists r, scan_from memtable_capacity ratio_exceeded fuel pool p (hd_or NIL l2) = Ok r /\
    match r with
    | Some (cur, adj) => exists k1 k2 s, l = k1 ++ cur :: k2 /\ flushed_segments pool !! cur = Some s /\ usable s = true /\ wanted p cur adj true
    | None => forall i s, i ∈ l2 -> flushed_segments pool !! i = Some s -> usable s = true -> exists adj, wanted p i adj false
    end.
Proof.
  induction fuel as [|fuel IH]; intros l1 l2 Hl Hf; [lia|].
  destruct l2 as [|cur l2]; cbn [scan_from hd_or].
  { exists None. split; [done|]. by intros i s ?%elem_of_nil. }
  pose proof (sc_wf _ _ Hsc) as Hw. rewrite Hl in Hw. destruct (walk_slot _ _ _ _ Hw) as (s & Hs & _ & Hne & Hnx & _).
  destruct (Z.eqb_spec cur NIL); [done|]. run. cbn [length] in Hf.
  destruct (IH (l1 ++ [cur]) l2) as (r & Hr & Hspec); [by rewrite <-app_assoc|lia|]. rewrite Hnx.
  assert (Hstep : (exists adj, usable s = true -> wanted p cur adj false) ->
            match r with
            | Some (cur0, adj) => exists k1 k2 s0, l = k1 ++ cur0 :: k2 /\ flushed_segments pool !! cur0 = Some s0 /\ usable s0 = true /\ wanted p cur0 adj true
            | None => forall i s0, i ∈ cur :: l2 -> flushed_segments pool !! i = Some s0 -> usable s0 = true -> exists adj, wanted p i adj false
            end).
  { intros [adj Hadj]. destruct r as [[c a]|]; [done|]. intros i s' [->|Hi]%elem_of_cons Hs' Hu'; [|by eapply Hspec].
    simplify_eq. eauto. }
  destruct (usable s) eqn:Hu; cbn [negb].
  - destruct (wants_spec l1 cur l2 p s Hl Hs Hu) as (b & adj & -> & Hwant). cbn [mbind res_bind]. destruct b.
    + exists (Some (cur, adj)). split; [done|]. by exists l1, l2, s.
    + exists r. split; [done|]. apply Hstep. eauto.
  - exists r. split; [done|]. apply Hstep. by exists NIL.
Qed.

(** No segment is wanted: there is nothing to do. *)
Lemma no_work p :
  (forall i s, i ∈ l -> flushed_segments pool !! i = Some s -> usable s = true -> exists adj, wanted p i adj false) -> ~ work pool l p.
Proof.
  intros Hall. unfold work, wanted in *. destruct (is_rebuild p).
  - intros (i & Hr). pose proof Hr as (Hi & s & Hs & Hu & _). by destruct (Hall i s Hi Hs Hu).
  - intros (i & j & Hadj & Hci & Hcj & Hlim & Hsum).
    assert (Hin : i ∈ l /\ j ∈ l) by (destruct Hadj as (a & b & ->); set_solver). destruct Hin as [Hi Hj].
    assert (Hu : forall x, candidate pool x = true -> exists s, flushed_segments pool !! x = Some s /\ usable s = true).
    { intros x Hx. unfold candidate in Hx. destruct (flushed_segments pool !! x) as [s|]; [|done]. apply andb_true_iff in Hx as [Hx _]. eauto. }
    destruct Hlim as [Hlim|Hlim].
    + destruct (Hu i Hci) as (s & Hs & Hus). destruct (Hall i s Hi Hs Hus) as [_ Hn].
      specialize (Hn j ltac:(by left) Hci Hcj Hlim). lia.
    + destruct (Hu j Hcj) as (s & Hs & Hus). destruct (Hall j s Hj Hs Hus) as [_ Hn].
      specialize (Hn i ltac:(by right) Hcj Hci Hlim). lia.
Qed.

Lemma adjacent_order i j : adjacent l i j -> start_of (flushed_segments pool) i < start_of (flushed_segments pool) j.
Proof. intros (a & b & Hl). apply (sc_order _ _ Hsc a i (j :: b)); [done|left]. Qed.

(** The pair in the order of the list. *)
Lemma order_pair_spec cur adj : cur ∈ l -> neighbour cur adj ->
  exists lo hi, order_pair pool cur adj = Ok (lo, hi) /\ adjacent l lo hi /\ (lo = cur /\ hi = adj \/ lo = adj /\ hi = cur).
Proof.
  intros Hcur Hnb. pose proof (pw_list _ _ (sc_wf _ _ Hsc)) as Hlw.
  assert (Hadj : adj ∈ l) by (destruct Hnb as [(a & b & ->)|(a & b & ->)]; set_solver).
  destruct (list_wf_slot _ _ _ Hlw Hadj) as [sa Hsa]. destruct (list_wf_slot _ _ _ Hlw Hcur) as [sc Hsc'].
  unfold order_pair. destruct (Z.eqb_spec adj NIL) as [->|_]; [by destruct (list_wf_not_nil _ _ Hlw)|]. run.
  assert (Hst : start_of (flushed_segments pool) adj = segment_id_start sa /\ start_of (flushed_segments pool) cur = segment_id_start sc)
    by (unfold start_of; by rewrite Hsa, Hsc').
  destruct Hnb as [Ha|Ha]; pose proof (adjacent_order _ _ Ha); destruct (Z.ltb_spec (segment_id_start sa) (segment_id_start sc)); try lia;
    eexists _, _; (split; [done|]); auto.
Qed.
End work.

(** ** The claim *)

(** The segments a task holds. *)
Definition task_segments (t : MergeTaskLocal) : list Z :=
  segment_idx0 t :: if bool_decide (operation_type t = SEGMENT_UPDATE_MERGE) then [segment_idx1 t] else [].

Definition usable_at (pool : FlushedSegmentPool) (i : Z) : Prop := exists s, flushed_segments pool !! i = Some s /\ usable s = true.
Definition compacting_at (pool : FlushedSegmentPool) (i : Z) : Prop := exists s, flushed_segments pool !! i = Some s /\ is_compacting s = true.

Definition mark_compacting (s : FlushedSegmentData) : FlushedSegmentData := s <| is_compacting := true |>.

(** The task [t] and the pool [pool'] after a successful claim in [pool]. *)
Record claimed (lsm_idx : Z) (ty : MergeTaskType) (i0 i1 : Z) (pool : FlushedSegmentPool) (t : MergeTaskLocal)
    (pool' : FlushedSegmentPool) : Prop := {
  cl_type : operation_type t = ty;
  cl_lsm : task_lsm_idx t = lsm_idx;
  cl_idx0 : segment_idx0 t = i0;
  cl_idx1 : segment_idx1 t = i1;
  cl_start : forall s, flushed_segments pool !! i0 = Some s -> merged_start_sid t = segment_id_start s;
  cl_end : forall s, flushed_segments pool !! (if bool_decide (ty = SEGMENT_UPDATE_MERGE) then i1 else i0) = Some s ->
             merged_end_sid t = segment_id_end s;
  cl_slots : forall i, flushed_segments pool' !! i =
    if bool_decide (i ∈ task_segments t) then mark_compacting <$> flushed_segments pool !! i else flushed_segments pool !! i }.

(** A claim that succeeds: the segments were usable, are compacting now, and
    nothing else changed. *)
Lemma claim_spec lsm_idx pool i0 i1 ty :
  usable_at pool i0 -> (ty = SEGMENT_UPDATE_MERGE -> i1 <> NIL /\ i1 <> i0 /\ usable_at pool i1) ->
  exists t pool', claim_merge_task_pool lsm_idx pool i0 i1 ty = Ok (Some t, pool') /\ claimed lsm_idx ty i0 i1 pool t pool'.
Proof.
  intros (s0 & Hs0 & Hu0) H1. unfold claim_merge_task_pool. run. rewrite Hu0. cbn [negb].
  destruct (bool_decide_reflect (ty = SEGMENT_UPDATE_MERGE)) as [->|Hty].
  - destruct (H1 eq_refl) as (Hn & Hne & s1 & Hs1 & Hu1). destruct (Z.eqb_spec i1 NIL); [done|]. run. rewrite Hu1. cbn [negb mbind res_bind andb].
    run. set (segs1 := <[i0 := _]> _). assert (Hs1' : segs1 !! i1 = Some s1) by (subst segs1; by rewrite zlookup_insert_ne).
    run. set (segs2 := <[i1 := _]> segs1).
    assert (H0' : segs2 !! i0 = Some (s0 <| is_compacting := true |>)).
    { subst segs2 segs1. rewrite zlookup_insert_ne by done. by eapply zlookup_insert_eq. }
    assert (H1' : segs2 !! i1 = Some (s1 <| is_compacting := true |>)) by (subst segs2; by eapply zlookup_insert_eq).
    run. eexists _, _. split; [done|]. split; try done; cbn.
    + intros s Hs. by simplify_eq.
    + intros s Hs. rewrite bool_decide_eq_true_2 in Hs by done. by simplify_eq.
    + intros i. change (segs2 !! i = if bool_decide (i ∈ [i0; i1]) then mark_compacting <$> flushed_segments pool !! i else flushed_segments pool !! i).
      destruct (decide (i = i0)) as [->|]; [rewrite bool_decide_eq_true_2 by set_solver; by rewrite H0', Hs0|].
      destruct (decide (i = i1)) as [->|]; [rewrite bool_decide_eq_true_2 by set_solver; by rewrite H1', Hs1|].
      rewrite bool_decide_eq_false_2 by set_solver. subst segs2 segs1. by rewrite !zlookup_insert_ne.
  - cbn [mbind res_bind negb andb]. run. set (segs1 := <[i0 := _]> _).
    assert (H0' : segs1 !! i0 = Some (s0 <| is_compacting := true |>)) by (subst segs1; by eapply zlookup_insert_eq).
    cbn [mbind res_bind]. run.
    eexists _, _. split; [done|]. assert (Hb : bool_decide (ty = SEGMENT_UPDATE_MERGE) = false) by (by apply bool_decide_eq_false_2).
    split; try done; cbn; rewrite ?Hb.
    + intros s Hs. by simplify_eq.
    + intros s Hs. by simplify_eq.
    + intros i. change (flushed_segments (pool <| flushed_segments := segs1 |>)) with segs1. unfold task_segments; cbn. rewrite Hb.
      destruct (decide (i = i0)) as [->|]; [rewrite bool_decide_eq_true_2 by set_solver; by rewrite H0', Hs0|].
      rewrite bool_decide_eq_false_2 by set_solver. subst segs1. by rewrite zlookup_insert_ne.
Qed.

Lemma claim_inv lsm_idx pool i0 i1 ty t pool' :
  claim_merge_task_pool lsm_idx pool i0 i1 ty = Ok (Some t, pool') ->
  forall i, i ∈ task_segments t -> usable_at pool i /\ compacting_at pool' i.
Proof.
  unfold claim_merge_task_pool. destruct (arr_get (flushed_segments pool) i0) as [s0|] eqn:Hs0; [|done]. apply arr_get_Ok in Hs0.
  cbn [mbind res_bind]. destruct (usable s0) eqn:Hu0; [|done]. cbn [negb].
  destruct (bool_decide_reflect (ty = SEGMENT_UPDATE_MERGE)) as [->|Hty].
  - destruct (Z.eqb_spec i1 NIL) as [|Hn]; [done|]. destruct (arr_get (flushed_segments pool) i1) as [s1|] eqn:Hs1; [|done].
    apply arr_get_Ok in Hs1. cbn [mbind res_bind]. destruct (usable s1) eqn:Hu1; [|done]. cbn [negb andb]. run.
    set (segs1 := <[i0 := _]> _).
    assert (Hs1' : exists x, segs1 !! i1 = Some x).
    { subst segs1. rewrite zlookup_insert. case_decide; [subst; rewrite Hs0|rewrite Hs1]; by eexists. }
    destruct Hs1' as [x Hx]. run. set (segs2 := <[i1 := _]> segs1).
    assert (H0 : exists y, segs2 !! i0 = Some y /\ is_compacting y = true).
    { subst segs2 segs1. rewrite zlookup_insert. case_decide; subst; [rewrite Hx; by eexists|].
      rewrite (zlookup_insert_eq _ _ _ _ Hs0). by eexists. }
    assert (H1 : exists y, segs2 !! i1 = Some y /\ is_compacting y = true) by (subst segs2; rewrite (zlookup_insert_eq _ _ _ _ Hx); by eexists).
    pose proof H0 as (y0 & Hy0 & _). pose proof H1 as (y1 & Hy1 & _). run.
    intros [= <- <-] i. unfold task_segments; cbn. intros Hi.
    assert (Hc : i = i0 \/ i = i1) by set_solver. destruct Hc as [-> | ->]; (split; [by eexists|done]).
  - cbn [mbind res_bind negb andb]. run. set (segs1 := <[i0 := _]> _).
    assert (H0 : segs1 !! i0 = Some (s0 <| is_compacting := true |>)) by (subst segs1; by eapply zlookup_insert_eq).
    cbn [mbind res_bind]. run. intros [= <- <-] i. unfold task_segments; cbn. rewrite bool_decide_eq_false_2 by done.
    intros ->%list_elem_of_singleton. split; eexists; by split.
Qed.

Lemma mark_keeps segs i segs' j :
  arr_upd segs i (fun s => s <| is_compacting := true |>) = Ok segs' ->
  (exists s, segs !! j = Some s /\ is_compacting s = true) -> exists s, segs' !! j = Some s /\ is_compacting s = true.
Proof.
  unfold arr_upd. destruct (arr_get segs i) as [x|]; [|done]. cbn [mbind res_bind]. intros [= <-] (s & Hs & Hc).
  rewrite zlookup_insert. case_decide; [subst; rewrite Hs; by eexists|by exists s].
Qed.

Lemma claim_same lsm_idx pool i0 i1 ty t pool' i :
  claim_merge_task_pool lsm_idx pool i0 i1 ty = Ok (Some t, pool') -> compacting_at pool i -> compacting_at pool' i.
Proof.
  unfold claim_merge_task_pool. intros Hc Hi. revert Hc.
  destruct (arr_get (flushed_segments pool) i0) as [s0|]; [|done]. cbn [mbind res_bind].
  destruct (negb (usable s0)); [done|]. destruct (if bool_decide (ty = SEGMENT_UPDATE_MERGE) then _ else _) as [ok1|]; [|done].
  cbn [mbind res_bind]. destruct (negb ok1); [done|].
  destruct (arr_upd (flushed_segments pool) i0 _) as [segs1|] eqn:H1; [|done]. cbn [mbind res_bind].
  apply (mark_keeps _ _ _ i) in H1; [|done].
  destruct (bool_decide (ty = SEGMENT_UPDATE_MERGE) && negb (i1 =? NIL)).
  - destruct (arr_upd segs1 i1 _) as [segs2|] eqn:H2; [|done]. cbn [mbind res_bind]. apply (mark_keeps _ _ _ i) in H2; [|done].
    destruct (arr_get segs2 i0) as [x|]; [|done]. cbn [mbind res_bind]. destruct (if bool_decide _ then _ else _); [|done]. by intros [= _ <-].
  - cbn [mbind res_bind]. destruct (arr_get segs1 i0) as [x|]; [|done]. cbn [mbind res_bind].
    destruct (if bool_decide _ then _ else _); [|done]. by intros [= _ <-].
Qed.

(** ** Threads *)

(** The pool, and the tasks the threads hold. *)
Record sched_state := mkSched { ss_pool : FlushedSegmentPool; ss_tasks : list MergeTaskLocal }.

(** The segments of [tasks] stay marked. *)
Definition marks_kept (tasks : list MergeTaskLocal) (pool pool' : FlushedSegmentPool) : Prop :=
  forall t i, t ∈ tasks -> i ∈ task_segments t -> compacting_at pool i -> compacting_at pool' i.

(** A thread claims, whatever its scan said before; a thread is done with its
    task, and may have replaced its segments; anything else that leaves the
    marked segments marked. *)
Inductive sched_step : sched_state -> sched_state -> Prop :=
  | thread_claims lsm_idx i0 i1 ty t pool pool' ts :
      claim_merge_task_pool lsm_idx pool i0 i1 ty = Ok (Some t, pool') ->
      sched_step (mkSched pool ts) (mkSched pool' (t :: ts))
  | thread_finishes pool pool' ts1 t ts2 :
      marks_kept (ts1 ++ ts2) pool pool' -> sched_step (mkSched pool (ts1 ++ t :: ts2)) (mkSched pool' (ts1 ++ ts2))
  | pool_changes pool pool' ts : marks_kept ts pool pool' -> sched_step (mkSched pool ts) (mkSched pool' ts).

Definition exclusive (s : sched_state) : Prop :=
  (forall t i, t ∈ ss_tasks s -> i ∈ task_segments t -> compacting_at (ss_pool s) i) /\
  forall l1 t l2 t' i, ss_tasks s = l1 ++ t :: l2 -> t' ∈ l1 ++ l2 -> i ∈ task_segments t -> i ∈ task_segments t' -> False.

Lemma exclusive_drop pool ts1 t ts2 : exclusive (mkSched pool (ts1 ++ t :: ts2)) -> exclusive (mkSched pool (ts1 ++ ts2)).
Proof.
  intros [Hc Hd]. cbn in *. split; cbn; [intros t' i Ht'; apply Hc; set_solver|].
  intros l1 u l2 u' i Heq Hu' Hi Hi'.
  assert (Hsplit : exists k1 k2, ts1 ++ t :: ts2 = k1 ++ u :: k2 /\ forall x, x ∈ l1 ++ l2 -> x ∈ k1 ++ k2).
  { apply app_eq_inv in Heq as [(k & -> & Hk)|(k & -> & Hk)].
    - destruct k as [|x k]; cbn in Hk; subst.
      + exists (l1 ++ [t]), l2. rewrite app_nil_r, <-app_assoc. split; [done|]. set_solver.
      + injection Hk as <- ->. exists l1, (k ++ t :: ts2). rewrite <-app_assoc. split; [done|]. set_solver.
    - subst. exists (ts1 ++ t :: k), l2. rewrite <-app_assoc. split; [done|]. set_solver. }
  destruct Hsplit as (k1 & k2 & Hk & Hsub). apply (Hd k1 u k2 u' i Hk); auto.
Qed.

Lemma usable_not_compacting pool i : usable_at pool i -> compacting_at pool i -> False.
Proof.
  intros (s & Hs & Hu) (s' & Hs' & Hc). simplify_eq. unfold usable in Hu. rewrite Hc in Hu. by rewrite andb_false_r in Hu.
Qed.

Definition quiet (n : nat) (pool : FlushedSegmentPool) : FlushedSegmentPool := pool.

(** The task [t] is one the priority [p] is for. *)
Definition task_for memtable_capacity ratio_exceeded (pool : FlushedSegmentPool) (l : list Z) (p lsm_idx : Z)
    (t : MergeTaskLocal) (pool' : FlushedSegmentPool) : Prop :=
  (if is_rebuild p then rebuildable ratio_exceeded pool l p (segment_idx0 t)
   else mergeable memtable_capacity pool l p (segment_idx0 t) (segment_idx1 t)) /\
  claimed lsm_idx (task_type_of p) (segment_idx0 t) (segment_idx1 t) pool t pool'.

(** One traversal when no other thread comes in between. *)
Lemma traverse_quiet memtable_capacity ratio_exceeded pool l p lsm_idx rounds :
  scannable pool l ->
  exists r pool', traverse_and_check_priority_pool memtable_capacity ratio_exceeded quiet (S rounds) lsm_idx pool p = Ok (r, pool') /\
    match r with
    | None => pool' = pool /\ ~ work memtable_capacity ratio_exceeded pool l p
    | Some t => task_for memtable_capacity ratio_exceeded pool l p lsm_idx t pool'
    end.
Proof.
  intros Hsc. pose proof (sc_wf _ _ Hsc) as Hw. pose proof (pw_list _ _ Hw) as Hlw.
  destruct (scan_from_spec memtable_capacity ratio_exceeded pool l Hsc p Pool.list_fuel [] l eq_refl) as (r & Hscan & Hr);
    [apply (list_wf_fuel _ _ Hlw)|].
  assert (Hnone : (forall i s, i ∈ l -> flushed_segments pool !! i = Some s -> usable s = true ->
             exists adj, wanted memtable_capacity ratio_exceeded pool l p i adj false) ->
           ~ work memtable_capacity ratio_exceeded pool l p) by (by apply no_work).
  unfold traverse_and_check_priority_pool. rewrite (pw_head _ _ Hw). destruct l as [|h l'].
  { cbn. exists None, pool. split; [done|]. split; [done|]. apply Hnone. by intros i s ?%elem_of_nil. }
  destruct (walk_slot pool [] h l' Hw) as (sh & Hsh & Hu & Hn & _). cbn [hd_or] in *. destruct (Z.eqb_spec h NIL); [done|]. run. rewrite Hu.
  cbn [negb claim_loop]. rewrite (pw_head _ _ Hw). cbn [hd_or]. rewrite Hscan. cbn [mbind res_bind]. destruct r as [[cur adj]|].
  2: { exists None, pool. split; [done|]. split; [done|]. by apply Hnone. }
  destruct Hr as (k1 & k2 & s & Hl & Hs & Hus & Hwant). unfold wanted in Hwant.
  assert (Hin : cur ∈ h :: l') by (rewrite Hl; apply elem_of_app; right; left). destruct (is_rebuild p) eqn:Hp.
  - destruct Hwant as [-> Hreb]. unfold order_pair. cbn [mbind res_bind fst snd]. change (NIL =? NIL) with true. cbn [mbind res_bind fst snd].
    assert (Hty : task_type_of p <> SEGMENT_UPDATE_MERGE).
    { unfold is_rebuild in Hp. unfold task_type_of. destruct (p =? 1); [done|]. by destruct (p =? 3). }
    destruct (claim_spec lsm_idx pool cur NIL (task_type_of p)) as (t & pool' & Hcl & Hclaimed); [by exists s|done|].
    change (quiet 0 pool) with pool. rewrite Hcl. exists (Some t), pool'. split; [done|]. unfold task_for. rewrite Hp.
    by rewrite (cl_idx0 _ _ _ _ _ _ _ Hclaimed), (cl_idx1 _ _ _ _ _ _ _ Hclaimed).
  - destruct Hwant as (Hnb & Hc1 & Hc2 & Hlim & Hsum).
    destruct (order_pair_spec ratio_exceeded pool (h :: l') Hsc cur adj Hin Hnb) as (lo & hi & -> & Hadj & Hcase). cbn [mbind res_bind fst snd].
    assert (Hty : task_type_of p = SEGMENT_UPDATE_MERGE).
    { unfold is_rebuild in Hp. unfold task_type_of. destruct (p =? 1); [done|]. by destruct (p =? 3). }
    assert (Hcand : candidate pool lo = true /\ candidate pool hi = true) by (destruct Hcase as [[-> ->]|[-> ->]]; done).
    assert (Hm : mergeable memtable_capacity pool (h :: l') p lo hi).
    { split; [done|]. split; [apply Hcand|]. split; [apply Hcand|].
      destruct Hcase as [[-> ->]|[-> ->]]; (split; [auto|lia]). }
    assert (Hus' : forall x, candidate pool x = true -> usable_at pool x).
    { intros x Hx. unfold candidate in Hx. destruct (flushed_segments pool !! x) as [sx|] eqn:Hsx; [|done].
      apply andb_true_iff in Hx as [Hx _]. by exists sx. }
    destruct (claim_spec lsm_idx pool lo hi (task_type_of p)) as (t & pool' & Hcl & Hclaimed); [apply Hus', Hcand| |].
    { intros _. split; [|split; [|apply Hus', Hcand]].
      - intros ->. destruct Hcand as [_ Hcand]. unfold candidate in Hcand. by rewrite (slot_NIL _ _ Hlw) in Hcand.
      - intros ->. pose proof (adjacent_order pool _ Hsc _ _ Hadj). lia. }
    change (quiet 0 pool) with pool. rewrite Hcl. exists (Some t), pool'. split; [done|]. unfold task_for. rewrite Hp.
    by rewrite (cl_idx0 _ _ _ _ _ _ _ Hclaimed), (cl_idx1 _ _ _ _ _ _ _ Hclaimed).
Qed.

(** *** All indexes *)
Section all_indexes.
Context (memtable_capacity : Z) (ratio_exceeded : Z -> Z -> bool).

(** A pool as the scheduler finds it, with its counters. *)
Definition slot_ready (s : bool * FlushedSegmentPool) (l : list Z) : Prop :=
  scannable s.2 l /\ stats_exact memtable_capacity s.2 l.

Lemma counted pool l f i s : list_wf (flushed_segments pool) l -> i ∈ l -> flushed_segments pool !! i = Some s -> f s = true ->
  0 < u32 (stat_sum f (flushed_segments pool) l).
Proof.
  intros Hw Hi Hs Hf. pose proof (list_wf_fuel _ _ Hw) as Hlen. pose proof (stat_sum_bounds f (flushed_segments pool) l) as Hb.
  apply list_elem_of_split in Hi as (l1 & l2 & ->). rewrite stat_sum_app, (stat_sum_cons _ _ _ _ _ Hs), Hf in *.
  pose proof (stat_sum_bounds f (flushed_segments pool) l1). pose proof (stat_sum_bounds f (flushed_segments pool) l2).
  unfold Pool.list_fuel, zlen in *. rewrite u32_small by lia. lia.
Qed.

(** A counter at zero: the walk would find nothing. *)
Lemma gate_closed pool l p : scannable pool l -> stats_exact memtable_capacity pool l -> gate p pool = false ->
  ~ work memtable_capacity ratio_exceeded pool l p.
Proof.
  intros Hsc (Hf & Hm & Hs) Hg Hwork. pose proof (pw_list _ _ (sc_wf _ _ Hsc)) as Hw. unfold gate in Hg. unfold work, is_rebuild in Hwork.
  assert (Hfind : forall x, candidate pool x = true -> exists s, flushed_segments pool !! x = Some s /\ count_of pool x = vec_count s).
  { intros x Hx. unfold candidate in Hx. unfold count_of. destruct (flushed_segments pool !! x); [eauto|done]. }
  destruct (Z.eqb_spec p 1) as [->|H1]; cbn [orb] in Hwork.
  { destruct Hwork as (i & Hi & s & Hsi & _ & Hflat). cbn in Hflat. rewrite Hf in Hg. apply Z.ltb_ge in Hg.
    pose proof (counted pool l is_flat i s Hw Hi Hsi ltac:(unfold is_flat; by rewrite bool_decide_eq_true_2)). lia. }
  destruct (Z.eqb_spec p 3) as [->|H3]; [done|].
  destruct Hwork as (i & j & Hadj & Hci & Hcj & Hlim & _).
  assert (Hin : i ∈ l /\ j ∈ l) by (destruct Hadj as (a & b & ->); split; apply elem_of_app; right; [left|right; left]).
  assert (Hone : exists x s, x ∈ l /\ flushed_segments pool !! x = Some s /\ size_limit memtable_capacity p (vec_count s) = true).
  { destruct (Hfind i Hci) as (si & Hsi & Hni). destruct (Hfind j Hcj) as (sj & Hsj & Hnj). rewrite Hni, Hnj in Hlim.
    destruct Hlim; [exists i, si|exists j, sj]; split; try apply Hin; done. }
  destruct Hone as (x & s & Hx & Hsx & Hl). pose proof (sc_counts _ _ Hsc x s Hx Hsx) as Hcnt. unfold size_limit in Hl.
  destruct (Z.eqb_spec p 2) as [->|H2].
  { rewrite Hm in Hg. apply Z.ltb_ge in Hg.
    pose proof (counted pool l (fits_memtable memtable_capacity) x s Hw Hx Hsx ltac:(unfold fits_memtable; by rewrite u32_small by lia)). lia. }
  destruct (Z.eqb_spec p 4) as [->|H4]; [|done].
  rewrite Hs in Hg. apply Z.ltb_ge in Hg.
  pose proof (counted pool l is_small x s Hw Hx Hsx ltac:(unfold is_small; by rewrite u32_small by lia)). lia.
Qed.

(** One priority: the first index with work for it. *)
Definition idle (slots : list (bool * FlushedSegmentPool)) (ls : list (list Z)) (p : Z) : Prop :=
  forall (i : nat) pool l, slots !! i = Some (true, pool) -> ls !! i = Some l -> ~ work memtable_capacity ratio_exceeded pool l p.

Definition takes (slots slots' : list (bool * FlushedSegmentPool)) (ls : list (list Z)) (p k : Z) (t : MergeTaskLocal) : Prop :=
  exists (i : nat) pool l pool', slots !! i = Some (true, pool) /\ ls !! i = Some l /\
    slots' = <[i := (true, pool')]> slots /\ task_for memtable_capacity ratio_exceeded pool l p (k + Z.of_nat i) t pool'.

Lemma scan_priority_quiet p rounds slots ls : Forall2 slot_ready slots ls -> forall k,
  exists r slots', scan_priority memtable_capacity ratio_exceeded quiet (S rounds) p k slots = Ok (r, slots') /\
    match r with None => slots' = slots /\ idle slots ls p | Some t => takes slots slots' ls p k t end.
Proof.
  induction 1 as [|[q pool] l slots ls [Hsc Hst] Hall IH]; intros k; cbn [scan_priority].
  { exists None, []. split; [done|]. split; [done|]. by intros i pool l Hi. }
  cbn in Hsc, Hst. destruct (IH (k + 1)) as (r2 & slots2 & Hrest & Hr2).
  assert (Hskip : (q = true -> ~ work memtable_capacity ratio_exceeded pool l p) ->
    exists r slots', (rest ← scan_priority memtable_capacity ratio_exceeded quiet (S rounds) p (k + 1) slots;
                      Ok (rest.1, (q, pool) :: rest.2)) = Ok (r, slots') /\
      match r with None => slots' = (q, pool) :: slots /\ idle ((q, pool) :: slots) (l :: ls) p
                 | Some t => takes ((q, pool) :: slots) slots' (l :: ls) p k t end).
  { intros Hno. rewrite Hrest. cbn [mbind res_bind fst snd]. exists r2, ((q, pool) :: slots2). split; [done|]. destruct r2 as [t|].
    - destruct Hr2 as (i & pool1 & l1 & pool2 & Hi & Hl & -> & Ht). exists (S i), pool1, l1, pool2. split; [done|]. split; [done|].
      split; [done|]. by replace (k + Z.of_nat (S i)) with (k + 1 + Z.of_nat i) by lia.
    - destruct Hr2 as [-> Hidle]. split; [done|]. intros [|i] pool1 l1 Hi Hl; cbn in Hi, Hl; [|by eapply Hidle].
      injection Hi as -> ->. injection Hl as ->. by apply Hno. }
  destruct q; cbn [andb]; [destruct (gate p pool) eqn:Hg|].
  - destruct (traverse_quiet memtable_capacity ratio_exceeded pool l p k rounds Hsc) as (r & pool' & -> & Hr). cbn [mbind res_bind].
    destruct r as [t|].
    + exists (Some t), ((true, pool') :: slots). split; [done|]. exists 0%nat, pool, l, pool'. rewrite Z.add_0_r. by split_and!.
    + destruct Hr as [-> Hno]. apply Hskip. by intros _.
  - cbn [mbind res_bind]. apply Hskip. intros _. by apply gate_closed.
  - cbn [mbind res_bind]. apply Hskip. done.
Qed.

Lemma scan_priorities_quiet rounds slots ls : Forall2 slot_ready slots ls -> forall ps,
  exists r slots', scan_priorities memtable_capacity ratio_exceeded quiet (S rounds) ps slots = Ok (r, slots') /\
    match r with
    | None => slots' = slots /\ forall p, p ∈ ps -> idle slots ls p
    | Some t => exists ps1 p ps2, ps = ps1 ++ p :: ps2 /\ (forall q, q ∈ ps1 -> idle slots ls q) /\ takes slots slots' ls p 0 t
    end.
Proof.
  intros Hall. induction ps as [|p ps IH]; cbn [scan_priorities].
  { exists None, slots. split; [done|]. split; [done|]. by intros p ?%elem_of_nil. }
  destruct (scan_priority_quiet p rounds slots ls Hall 0) as (r & slots' & -> & Hr). cbn [mbind res_bind]. destruct r as [t|].
  - exists (Some t), slots'. split; [done|]. exists [], p, ps. split; [done|]. split; [by intros q ?%elem_of_nil|done].
  - destruct Hr as [-> Hidle]. destruct IH as (r & slots' & -> & Hr). exists r, slots'. split; [done|]. destruct r as [t|].
    + destruct Hr as (ps1 & q & ps2 & -> & Hbefore & Ht). exists (p :: ps1), q, ps2. split; [done|]. split; [|done].
      by intros x [->|Hx]%elem_of_cons; [|apply Hbefore].
    + destruct Hr as [-> Hidle']. split; [done|]. by intros x [->|Hx]%elem_of_cons; [|apply Hidle'].
Qed.
End all_indexes.

(** ** Properties *)


(** The scheduler finds the most urgent work there is, and always ends.
    When no other thread interferes, the scan over all indexes and priorities
    returns with a claimed task of the first priority that has work on any
    queryable index: a usable segment to rebuild, or two usable neighbours in
    the order of their ids that are small enough together; if it returns without
    one, no queryable index has work of any priority. *)
Theorem scheduler_takes_most_urgent memtable_capacity ratio_exceeded rounds slots ls :
  Forall2 (slot_ready memtable_capacity) slots ls ->
  exists r slots', scan_and_claim_merge_task_pool memtable_capacity ratio_exceeded quiet (S rounds) slots = Ok (r, slots') /\
    match r with
    | None => slots' = slots /\ forall p, 1 <= p <= 5 -> idle memtable_capacity ratio_exceeded slots ls p
    | Some t => exists p, 1 <= p <= 5 /\ (forall q, 1 <= q < p -> idle memtable_capacity ratio_exceeded slots ls q) /\
        takes memtable_capacity ratio_exceeded slots slots' ls p 0 t
    end.
Proof.
  intros Hall. destruct (scan_priorities_quiet memtable_capacity ratio_exceeded rounds slots ls Hall [1; 2; 3; 4; 5]) as (r & slots' & Hr & Hspec).
  exists r, slots'. split; [exact Hr|]. destruct r as [t|].
  - destruct Hspec as (ps1 & p & ps2 & Hps & Hbefore & Ht). exists p. change [1; 2; 3; 4; 5] with (seqZ 1 5) in Hps.
    assert (Hp : ps1 = seqZ 1 (p - 1) /\ 1 <= p <= 5).
    { destruct ps1 as [|? [|? [|? [|? [|? ps1]]]]]; vm_compute in Hps; injection Hps as; subst; try (split; [reflexivity|lia]). by destruct ps1. }
    destruct Hp as [-> Hp]. split; [done|]. split; [|done]. intros q Hq. apply Hbefore, elem_of_seqZ. lia.
  - destruct Hspec as [-> Hidle]. split; [done|]. intros p Hp. apply Hidle. change [1; 2; 3; 4; 5] with (seqZ 1 5). apply elem_of_seqZ. lia.
Qed.

(** Segments 3-3 and 4-4 of ten rows each. *)
Definition example_segment (id next prev : Z) : FlushedSegmentData :=
  mkSegment true id id 10 None HNSW (Some 7) None next prev 1 SEG_FULLY_LOADED 0 false 1 None 0.
Definition unused_segment : FlushedSegmentData :=
  mkSegment false 0 0 0 None FLAT None None NIL NIL 0 SEG_NOT_LOADED 0 false 0 None 0.
Definition two_segments : FlushedSegmentPool :=
  mkPool Unlocked (example_segment 3 1 NIL :: example_segment 4 NIL 0 :: replicate 1022 unused_segment) 2 0 1 2 0 2 2.
Definition no_ratio (deleted count : Z) : bool := false.

Lemma two_segments_scannable : scannable two_segments [0; 1].
Proof.
  split.
  - apply pool_wfb_sound. vm_compute. reflexivity.
  - intros l1 i l2 j Hl Hj. destruct l1 as [|x [|y l1]]; cbn in Hl.
    + injection Hl as <- <-. apply list_elem_of_singleton in Hj as ->. vm_compute. reflexivity.
    + injection Hl as <- <- <-. by apply elem_of_nil in Hj.
    + injection Hl as _ _ Hl. by destruct l1.
  - intros i s Hi Hs. assert (Hc : i = 0 \/ i = 1) by set_solver. destruct Hc as [-> | ->]; vm_compute in Hs; injection Hs as <-; cbn; lia.
Qed.

Lemma scheduler_takes_most_urgent_witness :
  exists t slots', scan_and_claim_merge_task_pool 50000 no_ratio quiet 1 [(false, two_segments); (true, two_segments)] = Ok (Some t, slots') /\
    segment_idx0 t = 0 /\ segment_idx1 t = 1 /\
    exists p, takes 50000 no_ratio [(false, two_segments); (true, two_segments)] slots' [[0; 1]; [0; 1]] p 0 t.
Proof.
  assert (Hready : forall q, slot_ready 50000 (q, two_segments) [0; 1]).
  { intros q. split; [exact two_segments_scannable|]. split; [|split]; vm_compute; reflexivity. }
  destruct (scheduler_takes_most_urgent 50000 no_ratio 0 [(false, two_segments); (true, two_segments)] [[0; 1]; [0; 1]])
    as (r & slots' & Hrun & Hspec); [constructor; [apply Hready|constructor; [apply Hready|constructor]]|].
  assert (Hsome : match scan_and_claim_merge_task_pool 50000 no_ratio quiet 1 [(false, two_segments); (true, two_segments)] with
                  | Ok (Some t, _) => segment_idx0 t = 0 /\ segment_idx1 t = 1
                  | _ => False
                  end) by (vm_compute; split; reflexivity).
  rewrite Hrun in Hsome. destruct r as [t|]; [|done]. destruct Hsome as [H0 H1].
  destruct Hspec as (p & _ & _ & Ht). exists t, slots'. split; [exact Hrun|]. split; [exact H0|]. split; [exact H1|]. by exists p.
Defined.

