(* ===== verification/MemtableCycle.v ===== *)
(** The life of a memtable slot (lsmindex.c, lsmbackground.c): backends seal the
    growing memtable, put a fresh one in its place and queue the old one; the
    flush worker turns queued memtables into segments and gives the slots back;
    searches pin the memtables they read; other indexes use the same buffer.

    The operations are those of Memtable.v ([Buffer]) and the flush worker's
    below; [act] has one rule per critical section (or atomic access) of a
    backend or worker, [env] what happens besides: pins, rows being inserted, the
    other indexes, the release of status-page entries.  Reference counts are far
    from the width of their type; ids are taken while the counter has not run
    out. *)

From S2P Require Import Prelude Bitmap Memtable MemtableSearch.

Module Flush.

(** [claim_immutable_for_flush], one pass: the first queued memtable whose
    [flush_claimed] can be moved from 0 to 1. *)
Fixpoint claim_immutable_for_flush (slots : list MemtableBufferSlot) (idxs : list Z) : res (option (Z * list MemtableBufferSlot)) :=
  match idxs with
  | [] => Ok None
  | cand :: idxs =>
      s ← arr_get slots cand;
      if flush_claimed (slot_mt s) then claim_immutable_for_flush slots idxs
      else Ok (Some (cand, <[cand := s <| slot_mt ::= fun mt => mt <| flush_claimed := true |> |>]> slots))
  end.

Fixpoint find_pos (idxs : list Z) (i mt_idx : Z) : option Z :=
  match idxs with
  | [] => None
  | x :: idxs => if x =? mt_idx then Some i else find_pos idxs (i + 1) mt_idx
  end.

(** [handoff_unlink]: the queue closes the gap. *)
Definition handoff_unlink (lsm : LSMIndexData) (mt_idx : Z) : res LSMIndexData :=
  match find_pos (take (Z.to_nat (memtable_count lsm)) (memtable_idxs lsm)) 0 mt_idx with
  | None => Error ElogError
  | Some pos =>
      idxs ← foldl_res (fun idxs i => x ← arr_get idxs i; arr_set idxs (i - 1) x) (memtable_idxs lsm)
               (seqZ (pos + 1) (memtable_count lsm - (pos + 1)));
      Ok (lsm <| memtable_idxs := idxs |> <| memtable_count ::= fun c => c - 1 |>)
  end.

Definition release_memtable_slot (slots : list MemtableBufferSlot) (mt_idx : Z) := ref_add slots mt_idx (-1).

(** Step 4.5: the flushed memtables whose status-page entry is still there. *)
Definition track_flushed (flushed_not_released : list Z) (sid : Z) : list Z :=
  if zlen flushed_not_released <? MEMTABLE_NUM then flushed_not_released ++ [sid] else flushed_not_released.

End Flush.

Import Buffer Flush.

(** Where a backend ([Working], then the rotation) or a flush worker is. *)
Inductive cycle_pc :=
  | Working
  | Rotate (need_enqueue : bool)
  | Allocate (cur : Z) (need_enqueue : bool)
  | Enqueue (cur new : Z)
  | Switch (new : Z)
  | Flushing (i : Z)
  | Flushed (i : Z)
  | Tracked (i : Z)
  | Unlinked (i : Z).

(** What the processes share, and ghost state: the ids ever handed out, the pins
    with the memtable they were taken for, the slots the other indexes hold. *)
Record shared := mkShared {
  sh_lsm : LSMIndexData; sh_slots : list MemtableBufferSlot;
  sh_segments : list Z; sh_tracked : list Z; sh_status : list Z;
  sh_made : list Z; sh_pins : list (Z * Z); sh_foreign : list Z }.
#[global] Instance eta_shared : Settable shared := fun s =>
  mkShared (sh_lsm s) (sh_slots s) (sh_segments s) (sh_tracked s) (sh_status s) (sh_made s) (sh_pins s) (sh_foreign s).

Definition queue (lsm : LSMIndexData) : list Z := take (Z.to_nat (memtable_count lsm)) (memtable_idxs lsm).
Definition id_of (slots : list MemtableBufferSlot) (i : Z) : option Z := (fun s => memtable_id (slot_mt s)) <$> slots !! i.

Section steps.
Context (array_size memtable_capacity : Z).

Inductive act : cycle_pc -> shared -> cycle_pc -> shared -> Prop :=
  (* insert_lsm_index: no slot left in the growing memtable, or no growing memtable *)
  | found_full sh : 0 <= growing_memtable_idx (sh_lsm sh) -> act Working sh (Rotate true) sh
  | found_none sh : growing_memtable_idx (sh_lsm sh) = MT_IDX_INVALID -> act Working sh (Rotate false) sh
  (* rotate_growing_memtable *)
  | rotation_left need sh : begin_rotation (sh_lsm sh) (sh_slots sh) need = Ok Leave -> act (Rotate need) sh Working sh
  | rotation_begins need sh cur lsm :
      begin_rotation (sh_lsm sh) (sh_slots sh) need = Ok (Claimed cur lsm) ->
      act (Rotate need) sh (Allocate cur need) (sh <| sh_lsm := lsm |>)
  | allocated cur need sh new lsm slots :
      register_and_set_memtable array_size memtable_capacity (sh_lsm sh) (sh_slots sh) false 0 = Ok (new, lsm, slots) ->
      0 <= new -> next_segment_id (sh_lsm sh) + 1 < 2 ^ 32 ->
      act (Allocate cur need) sh (if need then Enqueue cur new else Switch new)
        (sh <| sh_lsm := lsm |> <| sh_slots := slots |> <| sh_made := sh_made sh ++ [next_segment_id (sh_lsm sh)] |>
            <| sh_status := sh_status sh ++ [next_segment_id (sh_lsm sh)] |>)
  | enqueued cur new sh lsm :
      enqueue_sealed_memtable (sh_lsm sh) cur = Ok (Some lsm) -> act (Enqueue cur new) sh (Switch new) (sh <| sh_lsm := lsm |>)
  | switched new sh lsm :
      finish_rotation (sh_lsm sh) (sh_slots sh) new = Ok lsm -> act (Switch new) sh Working (sh <| sh_lsm := lsm |>)
  (* lsm_flush_one_pending *)
  | flush_claims sh i slots :
      claim_immutable_for_flush (sh_slots sh) (queue (sh_lsm sh)) = Ok (Some (i, slots)) ->
      act Working sh (Flushing i) (sh <| sh_slots := slots |>)
  | flush_writes i sh s :
      sh_slots sh !! i = Some s -> Insert.wait_for_publish (slot_mt s) = Ok true ->
      act (Flushing i) sh (Flushed i) (sh <| sh_segments := sh_segments sh ++ [memtable_id (slot_mt s)] |>)
  | flush_tracks i sh s :
      sh_slots sh !! i = Some s ->
      act (Flushed i) sh (Tracked i) (sh <| sh_tracked := track_flushed (sh_tracked sh) (memtable_id (slot_mt s)) |>)
  | flush_unlinks i sh lsm :
      handoff_unlink (sh_lsm sh) i = Ok lsm -> act (Tracked i) sh (Unlinked i) (sh <| sh_lsm := lsm |>)
  | flush_releases i sh slots :
      release_memtable_slot (sh_slots sh) i = Ok slots -> act (Unlinked i) sh Working (sh <| sh_slots := slots |>).

(** A row being reserved or published: nothing but the rows changes, and a
    sealed memtable stays sealed. *)
Definition rows_only (mt mt' : ConcurrentMemTableData) : Prop :=
  memtable_id mt' = memtable_id mt /\ flush_claimed mt' = flush_claimed mt /\ (sealed mt = true -> sealed mt' = true).

Inductive env : shared -> shared -> Prop :=
  (* a search or a vacuum, under mt_lock *)
  | pinned sh i s slots :
      i = growing_memtable_idx (sh_lsm sh) \/ i ∈ queue (sh_lsm sh) -> sh_slots sh !! i = Some s -> mt_ref_count s + 1 < 2 ^ 32 ->
      ref_add (sh_slots sh) i 1 = Ok slots ->
      env sh (sh <| sh_slots := slots |> <| sh_pins := (i, memtable_id (slot_mt s)) :: sh_pins sh |>)
  | unpinned sh i id p1 p2 slots :
      sh_pins sh = p1 ++ (i, id) :: p2 -> ref_add (sh_slots sh) i (-1) = Ok slots ->
      env sh (sh <| sh_slots := slots |> <| sh_pins := p1 ++ p2 |>)
  | rows_inserted sh i s mt :
      sh_slots sh !! i = Some s -> rows_only (slot_mt s) mt ->
      env sh (sh <| sh_slots := <[i := s <| slot_mt := mt |>]> (sh_slots sh) |>)
  (* insert_lsm_index: the status-page entries of flushed memtables *)
  | status_released sh :
      env sh (sh <| sh_status := filter (fun id => id ∉ sh_tracked sh) (sh_status sh) |> <| sh_tracked := [] |>)
  (* other indexes *)
  | foreign_takes sh i s mt :
      sh_slots sh !! i = Some s -> mt_ref_count s = 0 ->
      env sh (sh <| sh_slots := <[i := mkBufferSlot 1 mt]> (sh_slots sh) |> <| sh_foreign := i :: sh_foreign sh |>)
  | foreign_works sh i s mt :
      i ∈ sh_foreign sh -> sh_slots sh !! i = Some s ->
      env sh (sh <| sh_slots := <[i := s <| slot_mt := mt |>]> (sh_slots sh) |>)
  | foreign_drops sh i f1 f2 slots :
      sh_foreign sh = f1 ++ i :: f2 -> ref_add (sh_slots sh) i (-1) = Ok slots ->
      env sh (sh <| sh_slots := slots |> <| sh_foreign := f1 ++ f2 |>).

Record cycle := mkCycle { cy_shared : shared; cy_pcs : list cycle_pc }.

Inductive cycle_step : cycle -> cycle -> Prop :=
  | does_act sh sh' p1 pc pc' p2 : act pc sh pc' sh' -> cycle_step (mkCycle sh (p1 ++ pc :: p2)) (mkCycle sh' (p1 ++ pc' :: p2))
  | does_env sh sh' pcs : env sh sh' -> cycle_step (mkCycle sh pcs) (mkCycle sh' pcs).

End steps.

(** ** The operations *)

(** How often a slot occurs. *)
Definition cnt (i : Z) (l : list Z) : Z := zlen (filter (fun j => j = i) l).
Definition one (b : bool) : Z := if b then 1 else 0.

Lemma cnt_app i l1 l2 : cnt i (l1 ++ l2) = cnt i l1 + cnt i l2.
Proof. unfold cnt. by rewrite filter_app, zlen_app. Qed.

Lemma cnt_cons i j l : cnt i (j :: l) = one (j =? i) + cnt i l.
Proof. unfold cnt. rewrite filter_cons. destruct (Z.eqb_spec j i); [rewrite decide_True by done; by rewrite zlen_cons|by rewrite decide_False]. Qed.

Lemma cnt_snoc i l j : cnt i (l ++ [j]) = cnt i l + one (j =? i).
Proof. rewrite cnt_app, cnt_cons. change (cnt i []) with 0. lia. Qed.

Lemma cnt_nonneg i l : 0 <= cnt i l.
Proof. apply zlen_nonneg. Qed.

Lemma cnt_le i l : cnt i l <= zlen l.
Proof. unfold cnt, zlen. pose proof (length_filter (fun j => j = i) l). lia. Qed.

Lemma cnt_elem i l : i ∈ l <-> 0 < cnt i l.
Proof.
  induction l as [|j l IH]; [split; [by intros ?%elem_of_nil|done]|]. rewrite elem_of_cons, cnt_cons, IH.
  pose proof (cnt_nonneg i l). unfold one. destruct (Z.eqb_spec j i); [subst; split; [lia|by left]|]. split; [intros [|]; [by subst|lia]|intros; right; lia].
Qed.

Definition set_ref (slots : list MemtableBufferSlot) (i d : Z) (s : MemtableBufferSlot) : list MemtableBufferSlot :=
  <[i := s <| mt_ref_count := mt_ref_count s + d |>]> slots.

Lemma ref_add_inv slots i d slots' : ref_add slots i d = Ok slots' ->
  exists s, slots !! i = Some s /\ (0 <= mt_ref_count s + d < 2 ^ 32 -> slots' = set_ref slots i d s).
Proof.
  unfold ref_add, arr_upd. destruct (arr_get slots i) as [s|] eqn:Hs; [|done]. apply arr_get_Ok in Hs. cbn. intros [= <-]. exists s.
  split; [done|]. intros Hw. unfold set_ref, update; cbn. by rewrite u32_small.
Qed.

Lemma ref_add_Ok slots i d s : slots !! i = Some s -> 0 <= mt_ref_count s + d < 2 ^ 32 -> ref_add slots i d = Ok (set_ref slots i d s).
Proof. intros Hs Hw. unfold ref_add. rewrite (arr_upd_Some _ _ _ _ Hs). unfold set_ref, update; cbn. by rewrite u32_small. Qed.

Lemma claim_slot_inv slots : forall i n slots', claim_slot slots i = Some (n, slots') ->
  exists s, i <= n /\ slots !! (n - i) = Some s /\ mt_ref_count s = 0 /\ slots' = <[n - i := s <| mt_ref_count := 1 |>]> slots.
Proof.
  induction slots as [|s slots IH]; intros i n slots'; [done|]. cbn [claim_slot].
  destruct (Z.eqb_spec (mt_ref_count s) 0) as [Hz|Hz].
  - intros [= <- <-]. exists s. rewrite Z.sub_diag. split; [lia|]. done.
  - destruct (claim_slot slots (i + 1)) as [[m sl]|] eqn:Hc; [|done]. cbn. intros [= <- <-].
    destruct (IH _ _ _ Hc) as (s' & Hle & Hs' & Hz' & ->). exists s'. split; [lia|].
    assert (Hsh : forall k, 0 <= k -> (s :: slots) !! (k + 1) = slots !! k).
    { intros k Hk. unfold lookup, zlist_lookup. rewrite !decide_True by lia. by replace (Z.to_nat (k + 1)) with (S (Z.to_nat k)) by lia. }
    assert (Hins : forall k x, 0 <= k -> <[k + 1 := x]> (s :: slots) = s :: <[k := x]> slots).
    { intros k x Hk. unfold insert, zlist_insert. rewrite !decide_True by lia. by replace (Z.to_nat (k + 1)) with (S (Z.to_nat k)) by lia. }
    replace (m - i) with (m - (i + 1) + 1) by lia. rewrite Hsh, Hins by lia. done.
Qed.

(** A new memtable: the slot was free, is empty now, and has the next id. *)
Lemma register_inv array_size cap lsm slots new lsm' slots' :
  register_and_set_memtable array_size cap lsm slots false 0 = Ok (new, lsm', slots') -> 0 <= new ->
  exists s mt, slots !! new = Some s /\ mt_ref_count s = 0 /\ slots' = <[new := mkBufferSlot 1 mt]> slots /\
    memtable_id mt = next_segment_id lsm /\ sealed mt = false /\ flush_claimed mt = false /\
    lsm' = lsm <| next_segment_id := u32 (next_segment_id lsm + 1) |>.
Proof.
  unfold register_and_set_memtable. destruct (claim_slot slots 0) as [[n sl]|] eqn:Hc; [|by intros [= <- <- <-]].
  destruct (claim_slot_inv _ _ _ _ Hc) as (s & Hle & Hs & Hz & ->). rewrite Z.sub_0_r in *. cbn [fst snd alloc_segment_id].
  rewrite (proj2 (arr_get_Ok _ _ _) (zlookup_insert_eq _ _ _ _ Hs)). cbn [mbind res_bind].
  destruct (set_memtable _ _ _ _ _ _ _) as [mt|] eqn:Hm; [|done]. cbn [mbind res_bind]. intros [= <- <- <-] _.
  exists s, mt. split; [done|]. split; [done|]. revert Hm. unfold set_memtable. destruct (memtable_cap _ _ _) as [c|]; [|done].
  cbn [mbind res_bind]. intros [= <-]. split; [|done]. by rewrite zinsert_insert.
Qed.

Lemma claim_inv_slots idxs slots i slots' :
  claim_immutable_for_flush slots idxs = Ok (Some (i, slots')) ->
  i ∈ idxs /\ exists s, slots !! i = Some s /\ flush_claimed (slot_mt s) = false /\
    slots' = <[i := s <| slot_mt ::= fun mt => mt <| flush_claimed := true |> |>]> slots.
Proof.
  induction idxs as [|j idxs IH]; [done|]. cbn [claim_immutable_for_flush]. destruct (arr_get slots j) as [s|] eqn:Hs; [|done].
  apply arr_get_Ok in Hs. cbn [mbind res_bind]. destruct (flush_claimed (slot_mt s)) eqn:Hf.
  - intros Hc. destruct (IH Hc) as (Hi & Hr). split; [by right|done].
  - intros [= <- <-]. split; [left|]. by exists s.
Qed.

Lemma zlookup_take {A} (l : list A) (n k : Z) : 0 <= k < n -> take (Z.to_nat n) l !! k = l !! k.
Proof. intros Hk. unfold lookup, zlist_lookup. rewrite !decide_True by lia. apply lookup_take_lt. lia. Qed.

Lemma find_pos_inv idxs : forall i x pos, find_pos idxs i x = Some pos ->
  exists q1 q2, idxs = q1 ++ x :: q2 /\ pos = i + zlen q1 /\ x ∉ q1.
Proof.
  induction idxs as [|y idxs IH]; intros i x pos; [done|]. cbn [find_pos]. destruct (Z.eqb_spec y x) as [->|Hne].
  - intros [= <-]. exists [], idxs. rewrite Z.add_0_r. split; [done|]. split; [done|]. by intros ?%elem_of_nil.
  - intros Hf. destruct (IH _ _ _ Hf) as (q1 & q2 & -> & -> & Hn). exists (y :: q1), q2. split; [done|]. rewrite zlen_cons. split; [lia|].
    intros [->|]%elem_of_cons; done.
Qed.

Lemma shift_loop (idxs : list Z) pos m : 0 <= pos -> 0 <= m -> pos + m < zlen idxs ->
  exists l, foldl_res (fun idxs i => x ← arr_get idxs i; arr_set idxs (i - 1) x) idxs (seqZ (pos + 1) m) = Ok l /\ zlen l = zlen idxs /\
    forall k, l !! k = if decide (pos <= k < pos + m) then idxs !! (k + 1) else idxs !! k.
Proof.
  intros Hpos. revert m. apply (natlike_ind (fun m => pos + m < zlen idxs -> _)).
  - intros _. exists idxs. split; [done|]. split; [done|]. intros k. rewrite decide_False by lia. done.
  - intros m Hm IH Hlt. rewrite <-Z.add_1_r in *. destruct IH as (l & Hl & Hz & Hk); [lia|].
    rewrite seqZ_snoc, foldl_res_app, Hl by lia. cbn [mbind res_bind foldl_res].
    assert (Hx : l !! (pos + 1 + m) = idxs !! (pos + 1 + m)) by (rewrite Hk, decide_False by lia; done).
    destruct (zlookup_lt_is_Some idxs (pos + 1 + m)) as [x Hx']; [lia|]. rewrite Hx' in Hx. run.
    destruct (zlookup_lt_is_Some l (pos + 1 + m - 1)) as [y Hy]; [lia|]. rewrite (arr_set_Some _ _ _ _ Hy). cbn [mbind res_bind].
    eexists; split; [done|]. split; [by rewrite zlen_insert|]. intros k. rewrite zlookup_insert. case_decide as Hc.
    + subst k. rewrite Hy. cbn. rewrite decide_True by lia. by replace (pos + 1 + m - 1 + 1) with (pos + 1 + m) by lia.
    + rewrite Hk. repeat case_decide; try done; lia.
Qed.

Lemma handoff_inv lsm i lsm' :
  0 <= memtable_count lsm <= zlen (memtable_idxs lsm) -> handoff_unlink lsm i = Ok lsm' ->
  (exists q1 q2, queue lsm = q1 ++ i :: q2 /\ queue lsm' = q1 ++ q2) /\
  memtable_count lsm' = memtable_count lsm - 1 /\ 0 <= memtable_count lsm' /\ zlen (memtable_idxs lsm') = zlen (memtable_idxs lsm) /\
  growing_memtable_idx lsm' = growing_memtable_idx lsm /\ next_segment_id lsm' = next_segment_id lsm.
Proof.
  intros Hcnt. unfold handoff_unlink. fold (queue lsm). destruct (find_pos (queue lsm) 0 i) as [pos|] eqn:Hf; [|done].
  destruct (find_pos_inv _ _ _ _ Hf) as (q1 & q2 & Hq & -> & _). rewrite Z.add_0_l.
  assert (Hz : zlen q1 + 1 + zlen q2 = memtable_count lsm).
  { apply (f_equal zlen) in Hq. rewrite zlen_app, zlen_cons in Hq. unfold queue, zlen at 1 in Hq. rewrite length_take in Hq. unfold zlen in *. lia. }
  pose proof (zlen_nonneg q1). pose proof (zlen_nonneg q2).
  destruct (shift_loop (memtable_idxs lsm) (zlen q1) (memtable_count lsm - (zlen q1 + 1))) as (l & -> & Hzl & Hl); [lia..|].
  cbn [mbind res_bind]. intros [= <-]. split; [|unfold update; cbn; repeat split; (done || lia)].
  exists q1, q2. split; [done|]. unfold queue, update; cbn.
  assert (Hfull : forall k, 0 <= k < memtable_count lsm -> memtable_idxs lsm !! k = (q1 ++ i :: q2) !! k).
  { intros k Hk. rewrite <-Hq. unfold queue. by rewrite zlookup_take. }
  apply zlist_eq.
  - rewrite zlen_app. unfold zlen at 1. rewrite length_take. unfold zlen in *. lia.
  - intros k Hk. assert (Hk' : 0 <= k < memtable_count lsm - 1) by (unfold zlen in Hk; rewrite length_take in Hk; lia).
    rewrite zlookup_take, Hl by lia. case_decide as Hc.
    + rewrite Hfull by lia. rewrite !zlookup_app_r by lia. replace (k + 1 - zlen q1) with (k - zlen q1 + 1) by lia.
      unfold lookup, zlist_lookup. rewrite !decide_True by lia. by replace (Z.to_nat (k - zlen q1 + 1)) with (S (Z.to_nat (k - zlen q1))) by lia.
    + rewrite Hfull by lia. by rewrite !zlookup_app_l by lia.
Qed.

Lemma enqueue_inv lsm i lsm' :
  0 <= memtable_count lsm -> zlen (memtable_idxs lsm) = MEMTABLE_NUM -> enqueue_sealed_memtable lsm i = Ok (Some lsm') ->
  queue lsm' = queue lsm ++ [i] /\ memtable_count lsm' = memtable_count lsm + 1 /\ memtable_count lsm < MEMTABLE_NUM /\
  zlen (memtable_idxs lsm') = MEMTABLE_NUM /\ growing_memtable_idx lsm' = growing_memtable_idx lsm /\ next_segment_id lsm' = next_segment_id lsm.
Proof.
  intros Hc Hz. unfold enqueue_sealed_memtable. destruct (Z.ltb_spec (memtable_count lsm) MEMTABLE_NUM) as [Hlt|]; [|done].
  destruct (zlookup_lt_is_Some (memtable_idxs lsm) (memtable_count lsm)) as [y Hy]; [lia|].
  rewrite (arr_set_Some _ _ _ _ Hy). cbn [mbind res_bind]. intros [= <-]. unfold queue, update; cbn.
  split; [|rewrite zlen_insert; by repeat split]. replace (Z.to_nat (memtable_count lsm + 1)) with (S (Z.to_nat (memtable_count lsm))) by lia.
  unfold insert, zlist_insert. rewrite decide_True by lia. unfold lookup, zlist_lookup in Hy. rewrite decide_True in Hy by lia.
  rewrite (take_S_r _ _ i); [|apply list_lookup_insert_eq; by eapply lookup_lt_Some]. by rewrite take_insert_ge by lia.
Qed.

(** ** The invariant *)

(** What a process at [pc] contributes, per slot: references it is responsible
    for, memtables it flushes (queued still), memtables whose segment is
    written, sealed memtables it has not queued yet; and whether it rotates. *)
Definition own (pc : cycle_pc) (i : Z) : Z :=
  match pc with
  | Allocate cur true => one (cur =? i)
  | Enqueue cur new => one (cur =? i) + one (new =? i)
  | Switch new => one (new =? i)
  | Unlinked j => one (j =? i)
  | _ => 0
  end.
Definition busy (pc : cycle_pc) (i : Z) : Z :=
  match pc with Flushing j | Flushed j | Tracked j => one (j =? i) | _ => 0 end.
Definition past (pc : cycle_pc) (i : Z) : Z :=
  match pc with Flushed j | Tracked j | Unlinked j => one (j =? i) | _ => 0 end.
Definition waits (pc : cycle_pc) (i : Z) : Z :=
  match pc with Allocate cur true | Enqueue cur _ => one (cur =? i) | _ => 0 end.
Definition rotating (pc : cycle_pc) : Z :=
  match pc with Allocate _ _ | Enqueue _ _ | Switch _ => 1 | _ => 0 end.

(** A process never starts a rotation that forgets the growing memtable. *)
Definition good (pc : cycle_pc) : Prop :=
  match pc with Rotate need | Allocate _ need => need = true | _ => True end.

(** The references the index itself holds on slot [i]; [o] are those of its processes. *)
Definition hold (lsm : LSMIndexData) (o : Z -> Z) (i : Z) : Z :=
  one ((0 <=? growing_memtable_idx lsm) && (growing_memtable_idx lsm =? i)) + cnt i (queue lsm) + o i.

Record refs_ok (slots : list MemtableBufferSlot) (H : Z -> Z) (foreign : list Z) (pins : list (Z * Z)) : Prop := {
  rf_len : zlen slots = MEMTABLE_BUF_SIZE;
  rf_range : forall i, 0 < H i + cnt i foreign -> 0 <= i < MEMTABLE_BUF_SIZE;
  rf_nonneg : forall i, 0 <= H i;
  rf_excl : forall i, H i + cnt i foreign <= 1;
  rf_refs : forall i s, slots !! i = Some s -> mt_ref_count s = H i + cnt i foreign + cnt i (fst <$> pins);
  rf_width : forall i s, slots !! i = Some s -> mt_ref_count s < 2 ^ 32;
  rf_pins : forall i id, (i, id) ∈ pins -> id_of slots i = Some id /\ cnt i foreign = 0 }.

Record queue_ok (slots : list MemtableBufferSlot) (lsm : LSMIndexData) (r : Z) (b w : Z -> Z) : Prop := {
  qk_count : 0 <= memtable_count lsm <= MEMTABLE_NUM /\ zlen (memtable_idxs lsm) = MEMTABLE_NUM;
  qk_rotating : growing_memtable_idx lsm = MT_IDX_ROTATING /\ r = 1 \/ 0 <= growing_memtable_idx lsm < MEMTABLE_BUF_SIZE /\ r = 0;
  qk_busy : forall i, b i <= 1 /\ (0 < b i -> cnt i (queue lsm) = 1 /\ exists s, slots !! i = Some s /\ flush_claimed (slot_mt s) = true);
  qk_sealed : forall i s, slots !! i = Some s -> 0 < cnt i (queue lsm) + w i -> sealed (slot_mt s) = true }.

Record ids_ok (slots : list MemtableBufferSlot) (H p : Z -> Z) (next : Z) (segments tracked status made : list Z) : Prop := {
  id_names : forall i j a, 0 < H i -> 0 < H j -> id_of slots i = Some a -> id_of slots j = Some a -> i = j;
  id_made : forall i a, 0 < H i -> id_of slots i = Some a -> a ∈ made;
  id_fresh : 0 <= next < 2 ^ 32 /\ forall a, a ∈ made -> a < next;
  id_past : forall i, 0 < p i -> 0 < H i /\ exists a, id_of slots i = Some a /\ a ∈ segments;
  id_written : forall i a, 0 < H i -> id_of slots i = Some a -> a ∈ segments -> 0 < p i;
  id_segments : NoDup segments /\ forall a, a ∈ segments -> a ∈ made;
  id_live : forall a, a ∈ made -> (exists i, 0 < H i /\ id_of slots i = Some a) \/ a ∈ segments;
  id_status : forall a, a ∈ made -> a ∈ status \/ a ∈ segments;
  id_tracked : forall a, a ∈ tracked -> a ∈ segments }.

Record ok (sh : shared) (o : Z -> Z) (r : Z) (b p w : Z -> Z) : Prop := {
  ok_refs : refs_ok (sh_slots sh) (hold (sh_lsm sh) o) (sh_foreign sh) (sh_pins sh);
  ok_queue : queue_ok (sh_slots sh) (sh_lsm sh) r b w;
  ok_ids : ids_ok (sh_slots sh) (hold (sh_lsm sh) o) p (next_segment_id (sh_lsm sh)) (sh_segments sh) (sh_tracked sh) (sh_status sh) (sh_made sh) }.

Lemma one_nonneg b : 0 <= one b <= 1.
Proof. destruct b; cbn; lia. Qed.

(** *** What each part depends on *)

Lemma refs_ok_ext slots slots' H H' foreign pins :
  (forall i, H' i = H i) -> zlen slots' = zlen slots ->
  (forall i s', slots' !! i = Some s' -> exists s, slots !! i = Some s /\ mt_ref_count s' = mt_ref_count s) ->
  (forall i id, (i, id) ∈ pins -> id_of slots' i = id_of slots i) ->
  refs_ok slots H foreign pins -> refs_ok slots' H' foreign pins.
Proof.
  intros HH Hz Hs Hid [Hlen Hrange Hnn Hexcl Hrefs Hwidth Hpins]. split.
  - congruence.
  - intros i. rewrite HH. apply Hrange.
  - intros i. rewrite HH. apply Hnn.
  - intros i. rewrite HH. apply Hexcl.
  - intros i s' Hs'. rewrite HH. destruct (Hs _ _ Hs') as (s0 & Hs0 & ->). by apply Hrefs.
  - intros i s' Hs'. destruct (Hs _ _ Hs') as (s0 & Hs0 & ->). by apply (Hwidth i).
  - intros i id Hi. rewrite (Hid i id Hi). by apply Hpins.
Qed.

Lemma queue_ok_ext slots slots' lsm r b b' w w' :
  (forall i, b' i = b i) -> (forall i, w' i = w i) ->
  (forall i s, slots !! i = Some s -> 0 < cnt i (queue lsm) + w i -> exists s', slots' !! i = Some s' /\
     (sealed (slot_mt s) = true -> sealed (slot_mt s') = true) /\ (flush_claimed (slot_mt s) = true -> flush_claimed (slot_mt s') = true)) ->
  (forall i, 0 <= w i) -> zlen slots' = zlen slots ->
  queue_ok slots lsm r b w -> queue_ok slots' lsm r b' w'.
Proof.
  intros Hb Hw Hs Hwn Hz [Hc Hr Hbusy Hsealed]. split; [done|done| |].
  - intros i. rewrite Hb. destruct (Hbusy i) as [H1 H2]. split; [done|]. intros Hpos. destruct (H2 Hpos) as (Hq & s & Hs0 & Hf).
    split; [done|]. destruct (Hs i s Hs0) as (s' & Hs' & _ & Hf'); [specialize (Hwn i); lia|]. exists s'. auto.
  - intros i s' Hs'. rewrite Hw. intros Hpos. assert (Hlt := zlookup_lt_Some _ _ _ Hs'). rewrite Hz in Hlt.
    destruct (zlookup_lt_is_Some slots i) as [s Hs0]; [lia|].
    destruct (Hs i s Hs0 Hpos) as (s'' & Hs'' & Hsl & _). simplify_eq. apply Hsl. by apply (Hsealed i).
Qed.

Lemma ids_ok_ext slots slots' H H' p p' next segments tracked status made :
  (forall i, H' i = H i) -> (forall i, p' i = p i) -> (forall i, 0 < H i -> id_of slots' i = id_of slots i) ->
  ids_ok slots H p next segments tracked status made -> ids_ok slots' H' p' next segments tracked status made.
Proof.
  intros HH Hp Hid [Hn Hm Hf Hpa Hwr Hsg Hlv Hst Htr]. split; [| |done| | |done| |done|done].
  - intros i j a Hi Hj. rewrite HH in *. rewrite !Hid by done. by apply Hn.
  - intros i a Hi. rewrite HH in *. rewrite Hid by done. by apply Hm.
  - intros i Hi. rewrite Hp, HH in *. destruct (Hpa i Hi) as [Hh Ha]. split; [done|]. by rewrite Hid.
  - intros i a Hi. rewrite Hp, HH in *. rewrite Hid by done. by apply Hwr.
  - intros a Ha. destruct (Hlv a Ha) as [(i & Hi & He)|]; [|by right]. left. exists i. rewrite HH, Hid; done.
Qed.

(** *** One process *)

(** What the other processes contribute. *)
Record others_ok (o : Z -> Z) (r : Z) (b p w : Z -> Z) : Prop := {
  ot_own : forall i, 0 <= o i;
  ot_busy : forall i, 0 <= b i;
  ot_past : forall i, 0 <= p i <= b i + o i;
  ot_waits : forall i, 0 <= w i <= o i;
  ot_rotating : 0 <= r }.

Section one_process.
Context (o : Z -> Z) (r : Z) (b p w : Z -> Z) (Hot : others_ok o r b p w).

Definition ok_at (pc : cycle_pc) (sh : shared) : Prop :=
  ok sh (fun i => o i + own pc i) (r + rotating pc) (fun i => b i + busy pc i) (fun i => p i + past pc i) (fun i => w i + waits pc i).

Lemma waits_nonneg pc i : 0 <= w i + waits pc i.
Proof.
  pose proof (ot_waits _ _ _ _ _ Hot i). enough (0 <= waits pc i) by lia.
  destruct pc as [| |c []|c n| | | | |]; cbn; try lia; apply one_nonneg.
Qed.

Lemma begin_inv lsm slots cur lsm' : begin_rotation lsm slots true = Ok (Claimed cur lsm') ->
  cur = growing_memtable_idx lsm /\ cur <> MT_IDX_ROTATING /\ (exists s, slots !! cur = Some s /\ sealed (slot_mt s) = true) /\
  growing_memtable_idx lsm' = MT_IDX_ROTATING /\ queue lsm' = queue lsm /\ memtable_count lsm' = memtable_count lsm /\
  memtable_idxs lsm' = memtable_idxs lsm /\ next_segment_id lsm' = next_segment_id lsm.
Proof.
  unfold begin_rotation. destruct (Z.eqb_spec (growing_memtable_idx lsm) MT_IDX_ROTATING) as [|Hne]; [done|].
  destruct (Z.leb_spec MEMTABLE_BUF_SIZE (growing_memtable_idx lsm)); [done|].
  destruct (arr_get slots (growing_memtable_idx lsm)) as [s|] eqn:Hs; [|done]. apply arr_get_Ok in Hs. cbn [mbind res_bind].
  destruct (sealed (slot_mt s)) eqn:Hsealed; [|done]. cbn [negb]. intros [= <- <-]. repeat split; [done|by exists s].
Qed.

Lemma rotation_begins_ok sh cur lsm :
  ok_at (Rotate true) sh -> begin_rotation (sh_lsm sh) (sh_slots sh) true = Ok (Claimed cur lsm) ->
  ok_at (Allocate cur true) (sh <| sh_lsm := lsm |>).
Proof.
  intros [Hr [Hc Hrot Hb Hsl] Hi] (-> & Hne & (s & Hs & Hsealed) & Hg' & Hq & Hcnt & Hidx & Hnext)%begin_inv.
  destruct Hrot as [[]|[Hg Hr0]]; [done|]. cbn in Hb, Hsl, Hr0. set (g := growing_memtable_idx (sh_lsm sh)) in *.
  assert (HH : forall i, hold lsm (fun i => o i + own (Allocate g true) i) i = hold (sh_lsm sh) (fun i => o i + own (Rotate true) i) i).
  { intros i. unfold hold. rewrite Hg', Hq. fold g. destruct (Z.leb_spec 0 g); [|lia]. cbn. lia. }
  split; cbn.
  - apply (refs_ok_ext (sh_slots sh) _ _ _ _ _ HH); eauto.
  - split; rewrite ?Hcnt, ?Hidx, ?Hq; [done|left; split; [done|lia]|done|].
    intros i s' Hs' Hpos. destruct (Z.eqb_spec g i) as [<-|Hgi]; [by simplify_eq|]. apply (Hsl i s' Hs'). cbn in Hpos. lia.
  - rewrite Hnext. by eapply ids_ok_ext; [exact HH| | |exact Hi].
Qed.

Lemma enqueued_ok sh cur new lsm :
  ok_at (Enqueue cur new) sh -> enqueue_sealed_memtable (sh_lsm sh) cur = Ok (Some lsm) -> ok_at (Switch new) (sh <| sh_lsm := lsm |>).
Proof.
  intros [Hr [Hc Hrot Hb Hsl] Hi] Henq. destruct (enqueue_inv _ _ _ (proj1 (proj1 Hc)) (proj2 Hc) Henq) as (Hq & Hcnt & Hlt & Hz & Hg & Hnext).
  assert (HH : forall i, hold lsm (fun i => o i + own (Switch new) i) i = hold (sh_lsm sh) (fun i => o i + own (Enqueue cur new) i) i).
  { intros i. unfold hold. rewrite Hg, Hq, cnt_snoc. cbn. lia. }
  split; cbn.
  - apply (refs_ok_ext (sh_slots sh) _ _ _ _ _ HH); eauto.
  - split; rewrite ?Hcnt, ?Hz, ?Hg; [split; [lia|done]|done| |].
    + intros i. destruct (Hb i) as [H1 H2]. split; [done|]. intros Hpos. destruct (H2 Hpos) as [H3 H4]. split; [|done].
      rewrite Hq, cnt_snoc. pose proof (rf_excl _ _ _ _ Hr i) as Hex. pose proof (cnt_nonneg i (sh_foreign sh)).
      unfold hold in Hex. cbn in Hex. pose proof (one_nonneg (new =? i)). pose proof (one_nonneg (cur =? i)). pose proof (ot_own _ _ _ _ _ Hot i).
      pose proof (one_nonneg ((0 <=? growing_memtable_idx (sh_lsm sh)) && (growing_memtable_idx (sh_lsm sh) =? i))). lia.
    + intros i s Hs Hpos. apply (Hsl i s Hs). rewrite Hq, cnt_snoc in Hpos. cbn in Hpos |- *. lia.
  - rewrite Hnext. by eapply ids_ok_ext; [exact HH| | |exact Hi].
Qed.

Lemma switched_ok sh new lsm :
  ok_at (Switch new) sh -> finish_rotation (sh_lsm sh) (sh_slots sh) new = Ok lsm -> ok_at Working (sh <| sh_lsm := lsm |>).
Proof.
  intros [Hr [Hc Hrot Hb Hsl] Hi]. unfold finish_rotation. destruct (arr_get (sh_slots sh) new) as [s|] eqn:Hs; [|done]. apply arr_get_Ok in Hs.
  cbn [mbind res_bind]. intros [= <-]. pose proof (ot_rotating _ _ _ _ _ Hot). cbn in Hrot. destruct Hrot as [[Hg Hr0]|[_ Hr0]]; [|lia].
  pose proof (zlookup_lt_Some _ _ _ Hs) as Hlt. rewrite (rf_len _ _ _ _ Hr) in Hlt.
  set (lsm := (sh_lsm sh) <| growing_memtable_idx := new |> <| growing_memtable_id := memtable_id (slot_mt s) |>).
  assert (HH : forall i, hold lsm (fun i => o i + own Working i) i = hold (sh_lsm sh) (fun i => o i + own (Switch new) i) i).
  { intros i. unfold hold. rewrite Hg. cbn. destruct (Z.leb_spec 0 new); [|lia]. cbn. change (queue lsm) with (queue (sh_lsm sh)). lia. }
  split; cbn.
  - apply (refs_ok_ext (sh_slots sh) _ _ _ _ _ HH); eauto.
  - split; [done|right; split; [done|lia]|done|done].
  - by eapply ids_ok_ext; [exact HH| | |exact Hi].
Qed.

Lemma id_of_insert slots i s j : id_of (<[i := s]> slots) j =
  if decide (i = j) then (fun _ => memtable_id (slot_mt s)) <$> slots !! j else id_of slots j.
Proof. unfold id_of. rewrite zlookup_insert. case_decide; [by destruct (slots !! j)|done]. Qed.

(** A slot in use is the one the new memtable cannot get. *)
Lemma allocated_ok array_size cap cur sh new lsm slots :
  ok_at (Allocate cur true) sh ->
  register_and_set_memtable array_size cap (sh_lsm sh) (sh_slots sh) false 0 = Ok (new, lsm, slots) ->
  0 <= new -> next_segment_id (sh_lsm sh) + 1 < 2 ^ 32 ->
  ok_at (Enqueue cur new)
    (sh <| sh_lsm := lsm |> <| sh_slots := slots |> <| sh_made := sh_made sh ++ [next_segment_id (sh_lsm sh)] |>
        <| sh_status := sh_status sh ++ [next_segment_id (sh_lsm sh)] |>).
Proof.
  intros [Hr [Hc Hrot Hb Hsl] Hi] Hreg Hnew Hroom.
  destruct (register_inv _ _ _ _ _ _ _ Hreg Hnew) as (s & mt & Hs & Hz & -> & Hid & Hsealed & Hfc & ->).
  pose proof (rf_refs _ _ _ _ Hr new s Hs) as Href. pose proof (rf_nonneg _ _ _ _ Hr new) as Hn0.
  pose proof (cnt_nonneg new (sh_foreign sh)). pose proof (cnt_nonneg new (fst <$> sh_pins sh)).
  assert (Hfree : hold (sh_lsm sh) (fun i => o i + own (Allocate cur true) i) new = 0) by lia.
  set (HO := hold (sh_lsm sh) (fun i => o i + own (Allocate cur true) i)) in *.
  set (lsm := (sh_lsm sh) <| next_segment_id := _ |>).
  assert (HH : forall i, hold lsm (fun i => o i + own (Enqueue cur new) i) i = HO i + one (new =? i)).
  { intros i. unfold HO, hold. cbn. change (queue lsm) with (queue (sh_lsm sh)). lia. }
  pose proof (zlookup_lt_Some _ _ _ Hs) as Hlt. rewrite (rf_len _ _ _ _ Hr) in Hlt.
  assert (Hown : 0 <= o new /\ 0 <= w new <= o new /\ 0 <= cnt new (queue (sh_lsm sh)))
    by (split; [apply Hot|split; [apply Hot|apply cnt_nonneg]]).
  assert (Hhold : cnt new (queue (sh_lsm sh)) = 0 /\ o new = 0 /\ cur <> new).
  { unfold HO, hold in Hfree. cbn in Hfree. pose proof (one_nonneg ((0 <=? growing_memtable_idx (sh_lsm sh)) && (growing_memtable_idx (sh_lsm sh) =? new))).
    destruct (Z.eqb_spec cur new); cbn in Hfree; lia. }
  destruct Hhold as (Hq0 & Ho0 & Hcn).
  set (next := next_segment_id (sh_lsm sh)) in *. destruct (id_fresh _ _ _ _ _ _ _ _ Hi) as [Hnx Hlts].
  assert (Hnid : id_of (<[new := mkBufferSlot 1 mt]> (sh_slots sh)) new = Some next).
  { rewrite id_of_insert, decide_True by done. rewrite Hs. cbn. by rewrite Hid. }
  assert (Hoid : forall i, new <> i -> id_of (<[new := mkBufferSlot 1 mt]> (sh_slots sh)) i = id_of (sh_slots sh) i).
  { intros i Hne. by rewrite id_of_insert, decide_False. }
  assert (Hcase : forall i, 0 < HO i + one (new =? i) -> i = new \/ 0 < HO i /\ new <> i).
  { intros i. destruct (Z.eqb_spec new i) as [->|]; [by left|]. cbn. intros. right. split; [lia|done]. }
  split; cbn.
  - destruct Hr as [Hlen Hrange Hnn Hexcl Hrefs Hwidth Hpins]. split.
    + by rewrite zlen_insert.
    + intros i. rewrite HH. destruct (Z.eqb_spec new i) as [<-|]; [lia|]. cbn. intros Hp. apply Hrange. lia.
    + intros i. rewrite HH. specialize (Hnn i). pose proof (one_nonneg (new =? i)). lia.
    + intros i. rewrite HH. destruct (Z.eqb_spec new i) as [<-|]; cbn; [lia|]. specialize (Hexcl i). lia.
    + intros i s'. rewrite zlookup_insert, HH. case_decide as Hne.
      * subst i. rewrite Hs. cbn. intros [= <-]. cbn. rewrite Z.eqb_refl. cbn. lia.
      * intros Hs'. destruct (Z.eqb_spec new i); [done|]. cbn. rewrite (Hrefs i s' Hs'). lia.
    + intros i s'. rewrite zlookup_insert. case_decide; [subst i; rewrite Hs; cbn; by intros [= <-]|apply Hwidth].
    + intros i id Hi'. destruct (Hpins i id Hi') as [Hp Hf]. split; [|done]. rewrite Hoid; [done|]. intros <-.
      assert (0 < cnt new (fst <$> sh_pins sh)) by (apply cnt_elem, list_elem_of_fmap; by exists (new, id)). lia.
  - split; [done|exact Hrot| |].
    + intros i. destruct (Hb i) as [Hb1 Hb2]. split; [done|]. intros Hp. destruct (Hb2 Hp) as (Hq & s' & Hs' & Hf'). split; [done|].
      exists s'. split; [|done]. rewrite zlookup_insert_ne; [done|]. intros <-. lia.
    + intros i s' Hs' Hp. change (queue lsm) with (queue (sh_lsm sh)) in Hp.
      destruct (Z.eqb_spec new i) as [<-|Hne]; [destruct (Z.eqb_spec cur new); [done|]; cbn in Hp; lia|].
      rewrite zlookup_insert_ne in Hs' by done. by apply (Hsl i s').
  - rewrite (u32_small (next + 1)) by lia. destruct Hi as [Hn Hm _ Hpa Hwr [Hnd Hsm] Hlv Hst Htr].
    assert (Hnmade : next ∉ sh_made sh) by (intros Hin; specialize (Hlts _ Hin); lia).
    assert (Hp0 : forall i, 0 < p i + 0 -> i <> new) by (intros i Hp ->; destruct (Hpa new Hp); lia).
    split.
    + intros i j a. rewrite !HH. intros [->|[Hi Hni]]%Hcase [->|[Hj Hnj]]%Hcase; rewrite ?Hnid, ?Hoid by done; [done| | |by apply Hn].
      * intros [= <-] Hja. exfalso. apply Hnmade. by apply (Hm j).
      * intros Hia [= <-]. exfalso. apply Hnmade. by apply (Hm i).
    + intros i a. rewrite HH. intros [->|[Hi Hni]]%Hcase; rewrite ?Hnid, ?Hoid by done.
      * intros [= <-]. apply elem_of_app. right. left.
      * intros Hia. apply elem_of_app. left. by apply (Hm i).
    + split; [lia|]. intros a [Ha|Ha%list_elem_of_singleton]%elem_of_app; [specialize (Hlts a Ha); lia|lia].
    + intros i Hp. destruct (Hpa i Hp) as (Hh & Ha). rewrite HH. split; [pose proof (one_nonneg (new =? i)); lia|].
      by rewrite Hoid by (intros <-; by apply (Hp0 new)).
    + intros i a. rewrite HH. intros [->|[Hi Hni]]%Hcase; rewrite ?Hnid, ?Hoid by done; [|by apply Hwr].
      intros [= <-] Hin. exfalso. by apply Hnmade, Hsm.
    + split; [done|]. intros a Ha. apply elem_of_app. left. by apply Hsm.
    + intros a [Ha| ->%list_elem_of_singleton]%elem_of_app.
      * destruct (Hlv a Ha) as [(i & Hi & Hia)|]; [left|by right]. exists i. assert (new <> i) by (intros <-; lia).
        rewrite HH, Hoid by done. split; [pose proof (one_nonneg (new =? i)); lia|done].
      * left. exists new. rewrite HH, Z.eqb_refl. split; [cbn; lia|done].
    + intros a [Ha| ->%list_elem_of_singleton]%elem_of_app; [|left; apply elem_of_app; right; left].
      destruct (Hst a Ha); [left; apply elem_of_app; by left|by right].
    + done.
Qed.

Lemma flush_claims_ok sh i slots :
  ok_at Working sh -> claim_immutable_for_flush (sh_slots sh) (queue (sh_lsm sh)) = Ok (Some (i, slots)) ->
  ok_at (Flushing i) (sh <| sh_slots := slots |>).
Proof.
  intros [Hr Hqk Hi] Hcl. destruct (claim_inv_slots _ _ _ _ Hcl) as (Hin & s & Hs & Hfc & ->).
  set (s1 := s <| slot_mt ::= _ |>). pose proof Hqk as [Hc Hrot Hb Hsl].
  assert (Hid : forall j, id_of (<[i := s1]> (sh_slots sh)) j = id_of (sh_slots sh) j).
  { intros j. rewrite id_of_insert. case_decide; [|done]. subst. unfold id_of. by rewrite Hs. }
  assert (Hb0 : b i = 0).
  { destruct (Hb i) as [_ H2]. cbn in H2. pose proof (ot_busy _ _ _ _ _ Hot i). destruct (decide (b i = 0)); [done|].
    destruct H2 as (_ & s' & Hs' & Hf'); [lia|]. simplify_eq. congruence. }
  assert (Hq1 : cnt i (queue (sh_lsm sh)) = 1).
  { apply cnt_elem in Hin. pose proof (rf_excl _ _ _ _ Hr i) as Hex. unfold hold in Hex. cbn in Hex.
    pose proof (cnt_nonneg i (sh_foreign sh)). pose proof (ot_own _ _ _ _ _ Hot i).
    pose proof (one_nonneg ((0 <=? growing_memtable_idx (sh_lsm sh)) && (growing_memtable_idx (sh_lsm sh) =? i))). lia. }
  split; cbn.
  - apply (refs_ok_ext (sh_slots sh) _ (hold (sh_lsm sh) (fun i => o i + own Working i))); [done|by rewrite zlen_insert| |done|exact Hr].
    intros j s'. rewrite zlookup_insert. case_decide; [|eauto]. subst j. rewrite Hs. cbn. intros [= <-]. by exists s.
  - split; [done|exact Hrot| |].
    + intros j. destruct (Hb j) as [H1 H2]. cbn in H1, H2. destruct (Z.eqb_spec i j) as [<-|Hne]; cbn.
      * split; [lia|]. intros _. split; [done|]. exists s1. split; [by eapply zlookup_insert_eq|done].
      * split; [lia|]. intros Hp. destruct (H2 ltac:(lia)) as (Hq & s' & Hs' & Hf'). split; [done|]. exists s'.
        by rewrite zlookup_insert_ne.
    + intros j s' Hs' Hp. revert Hs'. rewrite zlookup_insert. case_decide as Hj; [|intros Hs'; by apply (Hsl j s')].
      subst j. rewrite Hs. cbn. intros [= <-]. change (sealed (slot_mt s) = true). by apply (Hsl i s).
  - by eapply ids_ok_ext; [| |intros; apply Hid|exact Hi].
Qed.

Lemma flush_writes_ok sh i s :
  ok_at (Flushing i) sh -> sh_slots sh !! i = Some s ->
  ok_at (Flushed i) (sh <| sh_segments := sh_segments sh ++ [memtable_id (slot_mt s)] |>).
Proof.
  intros [Hr Hqk Hi] Hs. split; [exact Hr|exact Hqk|]. pose proof Hqk as [Hc Hrot Hb Hsl]. cbn.
  set (HO := hold (sh_lsm sh) (fun i => o i + own (Flushing i) i)) in *.
  set (a := memtable_id (slot_mt s)). assert (Ha : id_of (sh_slots sh) i = Some a) by (unfold id_of; by rewrite Hs).
  assert (Hfacts : 0 < HO i /\ p i = 0).
  { destruct (Hb i) as [H1 H2]. cbn in H1, H2. rewrite Z.eqb_refl in H1, H2. cbn in H1, H2. pose proof (ot_busy _ _ _ _ _ Hot i).
    destruct (H2 ltac:(lia)) as [Hq _]. pose proof (ot_past _ _ _ _ _ Hot i). pose proof (ot_own _ _ _ _ _ Hot i).
    pose proof (rf_excl _ _ _ _ Hr i) as Hex. pose proof (cnt_nonneg i (sh_foreign sh)). unfold HO, hold in *. cbn in *.
    pose proof (one_nonneg ((0 <=? growing_memtable_idx (sh_lsm sh)) && (growing_memtable_idx (sh_lsm sh) =? i))). lia. }
  destruct Hfacts as [Hh Hp0]. destruct Hi as [Hn Hm Hf Hpa Hwr [Hnd Hsm] Hlv Hst Htr]. cbn in Hpa, Hwr.
  assert (Hnew : a ∉ sh_segments sh) by (intros Hin; specialize (Hwr i a Hh Ha Hin); lia).
  assert (Hsub : forall x, x ∈ sh_segments sh -> x ∈ sh_segments sh ++ [a]) by (intros; apply elem_of_app; by left).
  split; [exact Hn|exact Hm|exact Hf| | | | | |].
  - intros j. destruct (Z.eqb_spec i j) as [<-|Hne]; cbn.
    + intros _. split; [exact Hh|]. exists a. split; [done|]. apply elem_of_app. right. left.
    + intros Hp. destruct (Hpa j ltac:(lia)) as (H1 & x & Hx & Hin). split; [exact H1|]. exists x. auto.
  - intros j x Hj Hx [Hin| ->%list_elem_of_singleton]%elem_of_app.
    + specialize (Hwr j x Hj Hx Hin). pose proof (one_nonneg (i =? j)). lia.
    + rewrite (Hn i j a Hh Hj Ha Hx) in *. rewrite Z.eqb_refl. pose proof (ot_past _ _ _ _ _ Hot j). cbn. lia.
  - split.
    + apply NoDup_app. split; [done|]. split; [|apply NoDup_singleton]. by intros x Hx ->%list_elem_of_singleton.
    + intros x [Hin| ->%list_elem_of_singleton]%elem_of_app; [by apply Hsm|by apply (Hm i)].
  - intros x Hx. destruct (Hlv x Hx) as [|]; [by left|right; auto].
  - intros x Hx. destruct (Hst x Hx) as [|]; [by left|right; auto].
  - intros x Hx. auto.
Qed.

Lemma flush_tracks_ok sh i s :
  ok_at (Flushed i) sh -> sh_slots sh !! i = Some s ->
  ok_at (Tracked i) (sh <| sh_tracked := track_flushed (sh_tracked sh) (memtable_id (slot_mt s)) |>).
Proof.
  intros [Hr Hqk Hi] Hs. split; [exact Hr|exact Hqk|]. destruct Hi as [Hn Hm Hf Hpa Hwr Hsg Hlv Hst Htr].
  split; [exact Hn|exact Hm|exact Hf|exact Hpa|exact Hwr|exact Hsg|exact Hlv|exact Hst|]. cbn. unfold track_flushed.
  destruct (zlen (sh_tracked sh) <? MEMTABLE_NUM); [|exact Htr]. intros a [Ha| ->%list_elem_of_singleton]%elem_of_app; [by apply Htr|].
  destruct (Hpa i) as (_ & a & Ha & Hin); [cbn; rewrite Z.eqb_refl; pose proof (ot_past _ _ _ _ _ Hot i); cbn; lia|].
  unfold id_of in Ha. rewrite Hs in Ha. by injection Ha as ->.
Qed.

Lemma flush_unlinks_ok sh i lsm :
  ok_at (Tracked i) sh -> handoff_unlink (sh_lsm sh) i = Ok lsm -> ok_at (Unlinked i) (sh <| sh_lsm := lsm |>).
Proof.
  intros [Hr [Hc Hrot Hb Hsl] Hi] Hun. destruct (handoff_inv (sh_lsm sh) i lsm ltac:(lia) Hun) as ((q1 & q2 & Hq & Hq') & Hcnt & Hc0 & Hz & Hg & Hnext).
  assert (Hcq : forall j, cnt j (queue (sh_lsm sh)) = cnt j (queue lsm) + one (i =? j)).
  { intros j. rewrite Hq, Hq', !cnt_app, cnt_cons. lia. }
  assert (HH : forall j, hold lsm (fun j => o j + own (Unlinked i) j) j = hold (sh_lsm sh) (fun j => o j + own (Tracked i) j) j).
  { intros j. unfold hold. rewrite Hg, Hcq. cbn. lia. }
  split; cbn.
  - apply (refs_ok_ext (sh_slots sh) _ _ _ _ _ HH); eauto.
  - split; rewrite ?Hg, ?Hz; [split; [lia|apply Hc]|exact Hrot| |].
    + intros j. destruct (Hb j) as [H1 H2]. cbn in H1, H2. rewrite Z.add_0_r. pose proof (Hcq j) as Hj. pose proof (one_nonneg (i =? j)).
      split; [lia|]. intros Hp. destruct (H2 ltac:(lia)) as [H3 H4]. split; [|done].
      destruct (Z.eqb_spec i j); cbn in *; lia.
    + intros j s Hs Hp. apply (Hsl j s Hs). rewrite Hcq. pose proof (one_nonneg (i =? j)). cbn in *. lia.
  - rewrite Hnext. by eapply ids_ok_ext; [exact HH| | |exact Hi].
Qed.

Lemma held_count slots H foreign pins i s : refs_ok slots H foreign pins -> 0 < H i + cnt i foreign + cnt i (fst <$> pins) -> slots !! i = Some s ->
  0 <= mt_ref_count s + -1 < 2 ^ 32.
Proof. intros Hr Hp Hs. pose proof (rf_refs _ _ _ _ Hr i s Hs). pose proof (rf_width _ _ _ _ Hr i s Hs). lia. Qed.

Lemma unlinked_held lsm i foreign pins : 0 < hold lsm (fun j => o j + own (Unlinked i) j) i + cnt i foreign + cnt i pins.
Proof.
  unfold hold. cbn. rewrite Z.eqb_refl. cbn. pose proof (ot_own _ _ _ _ _ Hot i). pose proof (cnt_nonneg i (queue lsm)). pose proof (cnt_nonneg i foreign).
  pose proof (cnt_nonneg i pins). pose proof (one_nonneg ((0 <=? growing_memtable_idx lsm) && (growing_memtable_idx lsm =? i))). lia.
Qed.

Lemma flush_releases_ok sh i slots :
  ok_at (Unlinked i) sh -> release_memtable_slot (sh_slots sh) i = Ok slots -> ok_at Working (sh <| sh_slots := slots |>).
Proof.
  intros [Hr Hqk Hi] (s & Hs & Hsl)%ref_add_inv. rewrite Hsl; clear Hsl; [|by eapply held_count; [exact Hr| |exact Hs]; apply unlinked_held].
  unfold set_ref. set (s1 := s <| mt_ref_count := _ |>). pose proof Hqk as [Hc Hrot Hb Hsl].
  set (HO := hold (sh_lsm sh) (fun j => o j + own (Unlinked i) j)) in *.
  assert (HH : forall j, HO j = hold (sh_lsm sh) (fun j => o j + own Working j) j + one (i =? j)).
  { intros j. unfold HO, hold. cbn. lia. }
  assert (Hid : forall j, id_of (<[i := s1]> (sh_slots sh)) j = id_of (sh_slots sh) j).
  { intros j. rewrite id_of_insert. case_decide; [|done]. subst. unfold id_of. by rewrite Hs. }
  set (H1 := hold (sh_lsm sh) (fun j => o j + own Working j)) in *.
  assert (Hfree : H1 i = 0 /\ p i = 0 /\ forall j, 0 <= H1 j).
  { assert (Hnn : forall j, 0 <= H1 j).
    { intros j. unfold H1, hold. cbn. pose proof (ot_own _ _ _ _ _ Hot j). pose proof (cnt_nonneg j (queue (sh_lsm sh))).
      pose proof (one_nonneg ((0 <=? growing_memtable_idx (sh_lsm sh)) && (growing_memtable_idx (sh_lsm sh) =? j))). lia. }
    pose proof (rf_excl _ _ _ _ Hr i) as Hex. pose proof (cnt_nonneg i (sh_foreign sh)). rewrite HH, Z.eqb_refl in Hex. cbn in Hex.
    specialize (Hnn i) as Hi0. assert (Hz : H1 i = 0) by lia. split; [done|]. split; [|done].
    unfold H1, hold in Hz. cbn in Hz. pose proof (ot_own _ _ _ _ _ Hot i). pose proof (cnt_nonneg i (queue (sh_lsm sh))).
    pose proof (one_nonneg ((0 <=? growing_memtable_idx (sh_lsm sh)) && (growing_memtable_idx (sh_lsm sh) =? i))).
    pose proof (ot_past _ _ _ _ _ Hot i). pose proof (ot_busy _ _ _ _ _ Hot i). destruct (Hb i) as [_ Hbi]. cbn in Hbi.
    destruct (decide (b i = 0)); [lia|]. destruct (Hbi ltac:(lia)) as [Hq _]. lia. }
  destruct Hfree as (Hfree & Hp0 & Hnn). split; cbn -[own]; fold H1.
  - destruct Hr as [Hlen Hrange Hnn' Hexcl Hrefs Hwidth Hpins]. split.
    + by rewrite zlen_insert.
    + intros j Hp. apply Hrange. rewrite HH. pose proof (one_nonneg (i =? j)). lia.
    + apply Hnn.
    + intros j. specialize (Hexcl j). rewrite HH in Hexcl. pose proof (one_nonneg (i =? j)). lia.
    + intros j s'. rewrite zlookup_insert. case_decide as Hj.
      * subst j. rewrite Hs. cbn. intros [= <-]. specialize (Hrefs i s Hs). rewrite HH, Z.eqb_refl in Hrefs. cbn in Hrefs |- *. lia.
      * intros Hs'. specialize (Hrefs j s' Hs'). rewrite HH in Hrefs. destruct (Z.eqb_spec i j); [done|]. cbn in Hrefs. lia.
    + intros j s'. rewrite zlookup_insert. case_decide; [|apply Hwidth]. subst j. rewrite Hs. cbn. intros [= <-]. specialize (Hwidth i s Hs).
      cbn. lia.
    + intros j id Hj. rewrite Hid. by apply Hpins.
  - eapply queue_ok_ext; [| | | |by rewrite zlen_insert|exact Hqk]; [done|done| |apply (waits_nonneg (Unlinked i))].
    intros j s' Hs' _. rewrite zlookup_insert. case_decide; [|by exists s']. subst j. rewrite Hs. exists s1. simplify_eq. done.
  - destruct Hi as [Hn Hm Hf Hpa Hwr Hsg Hlv Hst Htr]. cbn in Hpa, Hwr.
    assert (Hpos : forall j, 0 < H1 j -> 0 < HO j /\ i <> j).
    { intros j Hj. rewrite HH. pose proof (one_nonneg (i =? j)). split; [lia|]. intros <-. lia. }
    split; [| |exact Hf| | |exact Hsg| |exact Hst|exact Htr].
    + intros j k a Hj Hk. rewrite !Hid. apply Hn; by apply Hpos.
    + intros j a Hj. rewrite Hid. apply Hm. by apply Hpos.
    + intros j Hp. destruct (Hpa j) as [Hj Ha]; [pose proof (one_nonneg (i =? j)); lia|]. rewrite Hid. split; [|done].
      rewrite HH in Hj. destruct (Z.eqb_spec i j) as [<-|]; [lia|]. cbn in Hj. lia.
    + intros j a Hj. rewrite Hid. intros Ha Hin. destruct (Hpos j Hj) as [Hj' Hne]. specialize (Hwr j a Hj' Ha Hin).
      destruct (Z.eqb_spec i j); [done|]. cbn in Hwr. lia.
    + intros a Ha. destruct (Hlv a Ha) as [(j & Hj & Hja)|]; [|by right]. destruct (Z.eqb_spec i j) as [<-|Hne].
      * right. destruct (Hpa i) as (_ & x & Hx & Hin); [rewrite Z.eqb_refl; cbn; lia|]. congruence.
      * left. exists j. rewrite Hid. split; [|done]. rewrite HH in Hj. destruct (Z.eqb_spec i j); [done|]. cbn in Hj. lia.
Qed.
Lemma ok_at_same pc pc' sh :
  own pc = own pc' -> busy pc = busy pc' -> past pc = past pc' -> waits pc = waits pc' -> rotating pc = rotating pc' ->
  ok_at pc sh -> ok_at pc' sh.
Proof. unfold ok_at. by intros -> -> -> -> ->. Qed.

Lemma growing_valid pc sh : ok_at pc sh -> rotating pc = 0 -> growing_memtable_idx (sh_lsm sh) <> MT_IDX_INVALID.
Proof. intros [_ [_ [[-> _]|[? _]] _ _] _] _; [done|]. unfold MT_IDX_INVALID. lia. Qed.

Lemma act_ok array_size cap pc sh pc' sh' :
  act array_size cap pc sh pc' sh' -> good pc -> ok_at pc sh -> good pc' /\ ok_at pc' sh'.
Proof.
  intros Ha Hg Hok. destruct Ha; cbn in Hg; subst; (split; [try done|]).
  - by eapply ok_at_same, Hok.
  - by destruct (growing_valid _ _ Hok eq_refl).
  - by eapply ok_at_same, Hok.
  - by eapply ok_at_same, Hok.
  - by eapply rotation_begins_ok.
  - by eapply allocated_ok.
  - by eapply enqueued_ok.
  - by eapply switched_ok.
  - by eapply flush_claims_ok.
  - by eapply flush_writes_ok.
  - by eapply flush_tracks_ok.
  - by eapply flush_unlinks_ok.
  - by eapply flush_releases_ok.
Qed.

End one_process.

(** *** What else happens *)

Lemma same_slot_refs (slots : list MemtableBufferSlot) (i : Z) (s s1 : MemtableBufferSlot) : slots !! i = Some s -> mt_ref_count s1 = mt_ref_count s ->
  forall (j : Z) s', <[i := s1]> slots !! j = Some s' -> exists s0, slots !! j = Some s0 /\ mt_ref_count s' = mt_ref_count s0.
Proof.
  intros Hs Hr j s'. rewrite zlookup_insert. case_decide; [|eauto]. subst j. rewrite Hs. cbn. intros [= <-]. by exists s.
Qed.

Lemma same_slot_id (slots : list MemtableBufferSlot) (i : Z) (s s1 : MemtableBufferSlot) : slots !! i = Some s -> memtable_id (slot_mt s1) = memtable_id (slot_mt s) ->
  forall (j : Z), id_of (<[i := s1]> slots) j = id_of slots j.
Proof. intros Hs Hid j. rewrite id_of_insert. case_decide; [|done]. subst. unfold id_of. rewrite Hs. cbn. by f_equal. Qed.

(** Slots of the index, seen from its queue. *)
Lemma same_slot_flags (slots : list MemtableBufferSlot) (i : Z) (s s1 : MemtableBufferSlot) lsm (w : Z -> Z) :
  slots !! i = Some s ->
  (sealed (slot_mt s) = true -> sealed (slot_mt s1) = true) -> (flush_claimed (slot_mt s) = true -> flush_claimed (slot_mt s1) = true) ->
  forall (j : Z) s0, slots !! j = Some s0 -> 0 < cnt j (queue lsm) + w j -> exists s', <[i := s1]> slots !! j = Some s' /\
     (sealed (slot_mt s0) = true -> sealed (slot_mt s') = true) /\ (flush_claimed (slot_mt s0) = true -> flush_claimed (slot_mt s') = true).
Proof.
  intros Hs H1 H2 j s0 Hs0 _. rewrite zlookup_insert. case_decide; [|by exists s0]. subst j. rewrite Hs0. exists s1.
  assert (s0 = s) as -> by congruence. done.
Qed.

(** Taking and dropping references on one slot. *)
Lemma refs_change (slots : list MemtableBufferSlot) (i : Z) (s s1 : MemtableBufferSlot) H foreign foreign' pins pins' :
  slots !! i = Some s ->
  refs_ok slots H foreign pins ->
  (forall j, cnt j foreign' = cnt j foreign \/ j = i) ->
  (forall j, cnt j (fst <$> pins') = cnt j (fst <$> pins) \/ j = i) ->
  (0 < H i + cnt i foreign' -> 0 <= i < MEMTABLE_BUF_SIZE) -> H i + cnt i foreign' <= 1 ->
  mt_ref_count s1 = H i + cnt i foreign' + cnt i (fst <$> pins') -> mt_ref_count s1 < 2 ^ 32 ->
  (forall j id, (j, id) ∈ pins' -> id_of (<[i := s1]> slots) j = Some id /\ cnt j foreign' = 0) ->
  refs_ok (<[i := s1]> slots) H foreign' pins'.
Proof.
  intros Hs [Hlen Hrange Hnn Hexcl Hrefs Hwidth Hpins] Hf Hp Hr1 Hex1 Href Hw Hpin. split.
  - by rewrite zlen_insert.
  - intros j. destruct (decide (j = i)) as [->|Hne]; [done|]. destruct (Hf j) as [->|]; [apply Hrange|done].
  - apply Hnn.
  - intros j. destruct (decide (j = i)) as [->|Hne]; [done|]. destruct (Hf j) as [->|]; [apply Hexcl|done].
  - intros j s'. rewrite zlookup_insert. case_decide as Hj; [subst j; rewrite Hs; by intros [= <-]|]. intros Hs'. rewrite (Hrefs j s' Hs').
    destruct (Hf j) as [->|]; [|done]. by destruct (Hp j) as [->|].
  - intros j s'. rewrite zlookup_insert. case_decide as Hj; [subst j; rewrite Hs; by intros [= <-]|apply Hwidth].
  - done.
Qed.

Lemma ref_nonneg slots H foreign pins i s : refs_ok slots H foreign pins -> slots !! i = Some s -> 0 <= mt_ref_count s.
Proof.
  intros Hr Hs. pose proof (rf_refs _ _ _ _ Hr i s Hs). pose proof (rf_nonneg _ _ _ _ Hr i). pose proof (cnt_nonneg i foreign).
  pose proof (cnt_nonneg i (fst <$> pins)). lia.
Qed.

Lemma env_ok sh sh' o r b p w : others_ok o r b p w -> env sh sh' -> ok sh o r b p w -> ok sh' o r b p w.
Proof.
  intros Hot Henv [Hr Hqk Hi]. assert (Hwn : forall i, 0 <= w i) by (intros i; apply Hot).
  set (H := hold (sh_lsm sh) o) in *.
  destruct Henv as [sh i s slots Hi0 Hs Hw Hadd|sh i id p1 p2 slots Hpins Hadd|sh i s mt Hs (Hmid & Hfc & Hsl)|sh|sh i s mt Hs Hz|sh i s mt Hin Hs|sh i f1 f2 slots Hf Hadd].
  - (* pinned *)
    rewrite (ref_add_Ok _ _ _ _ Hs) in Hadd by (pose proof (ref_nonneg _ _ _ _ i s Hr Hs); lia). injection Hadd as <-. unfold set_ref. set (s1 := s <| mt_ref_count := _ |>).
    pose proof (zlookup_lt_Some _ _ _ Hs) as Hlt.
    assert (HH : H i = 1 /\ cnt i (sh_foreign sh) = 0).
    { pose proof (rf_excl _ _ _ _ Hr i) as Hex. pose proof (cnt_nonneg i (sh_foreign sh)). enough (1 <= H i) by lia.
      unfold H, hold. pose proof (ot_own _ _ _ _ _ Hot i). pose proof (cnt_nonneg i (queue (sh_lsm sh))). destruct Hi0 as [->|Hq%cnt_elem].
      - rewrite Z.eqb_refl. destruct (Z.leb_spec 0 (growing_memtable_idx (sh_lsm sh))); [cbn; lia|lia].
      - pose proof (one_nonneg ((0 <=? growing_memtable_idx (sh_lsm sh)) && (growing_memtable_idx (sh_lsm sh) =? i))). lia. }
    destruct HH as [HH Hf0]. pose proof (rf_refs _ _ _ _ Hr i s Hs) as Href. pose proof (same_slot_id _ _ _ s1 Hs eq_refl) as Hid. split; cbn.
    + eapply refs_change; [exact Hs|exact Hr|by left| | | | | |]; fold H; cbn [fst fmap list_fmap].
      * intros j. rewrite cnt_cons. destruct (Z.eqb_spec i j); [by right|by left].
      * intros _. by rewrite <-(rf_len _ _ _ _ Hr).
      * lia.
      * rewrite cnt_cons, Z.eqb_refl. cbn. lia.
      * exact Hw.
      * intros j id. rewrite Hid. intros [[= -> ->]|Hj]%elem_of_cons; [|by apply (rf_pins _ _ _ _ Hr)].
        unfold id_of. by rewrite Hs.
    + eapply queue_ok_ext; [done|done|by eapply same_slot_flags|done|by rewrite zlen_insert|exact Hqk].
    + by eapply ids_ok_ext; [| |intros; apply Hid|exact Hi].
  - (* unpinned *)
    apply ref_add_inv in Hadd as (s & Hs & Hadd). pose proof (held_count _ _ _ _ i s Hr) as Hw.
    rewrite Hadd; clear Hadd; [|apply Hw; [|done]; rewrite Hpins, fmap_app, cnt_app; cbn [fmap list_fmap fst]; rewrite cnt_cons, Z.eqb_refl;
      pose proof (cnt_nonneg i (fst <$> p1)); pose proof (cnt_nonneg i (fst <$> p2)); pose proof (cnt_nonneg i (sh_foreign sh));
      pose proof (rf_nonneg _ _ _ _ Hr i); cbn; lia].
    unfold set_ref. set (s1 := s <| mt_ref_count := _ |>). pose proof (rf_width _ _ _ _ Hr i s Hs) as Hwd.
    pose proof (rf_refs _ _ _ _ Hr i s Hs) as Href. pose proof (same_slot_id _ _ _ s1 Hs eq_refl) as Hid. split; cbn.
    + eapply refs_change; [exact Hs|exact Hr|by left| | | | | |]; fold H.
      * intros j. rewrite Hpins, !fmap_app, !cnt_app. cbn [fmap list_fmap fst]. rewrite cnt_cons. destruct (Z.eqb_spec i j); [by right|left; cbn; lia].
      * apply (rf_range _ _ _ _ Hr).
      * apply (rf_excl _ _ _ _ Hr).
      * rewrite Hpins, !fmap_app, !cnt_app in Href. cbn [fmap list_fmap fst] in Href. rewrite cnt_cons, Z.eqb_refl in Href.
        rewrite fmap_app, cnt_app. cbn in Href |- *. lia.
      * cbn. lia.
      * intros j id' Hj. rewrite Hid. apply (rf_pins _ _ _ _ Hr). rewrite Hpins. set_solver.
    + eapply queue_ok_ext; [done|done|by eapply same_slot_flags|done|by rewrite zlen_insert|exact Hqk].
    + by eapply ids_ok_ext; [| |intros; apply Hid|exact Hi].
  - (* rows_inserted *)
    set (s1 := s <| slot_mt := mt |>). pose proof (same_slot_id _ _ _ s1 Hs Hmid) as Hid. split; cbn.
    + eapply refs_ok_ext; [done|by rewrite zlen_insert|by eapply same_slot_refs|intros; apply Hid|exact Hr].
    + eapply queue_ok_ext; [done|done| |done|by rewrite zlen_insert|exact Hqk]. eapply same_slot_flags; [exact Hs|exact Hsl|cbn; congruence].
    + by eapply ids_ok_ext; [| |intros; apply Hid|exact Hi].
  - (* status_released *)
    split; cbn; [exact Hr|exact Hqk|]. destruct Hi as [Hn Hm Hf Hpa Hwr Hsg Hlv Hst Htr]. split; try done; [|by intros a ?%elem_of_nil].
    intros a Ha. destruct (decide (a ∈ sh_tracked sh)) as [Ht|Ht]; [right; by apply Htr|].
    destruct (Hst a Ha); [left; by apply list_elem_of_filter|by right].
  - (* foreign_takes *)
    pose proof (rf_refs _ _ _ _ Hr i s Hs) as Href. pose proof (rf_nonneg _ _ _ _ Hr i). pose proof (cnt_nonneg i (sh_foreign sh)).
    pose proof (cnt_nonneg i (fst <$> sh_pins sh)). assert (HH : H i = 0) by (unfold H in *; lia).
    assert (Hid : forall j, i <> j -> id_of (<[i := mkBufferSlot 1 mt]> (sh_slots sh)) j = id_of (sh_slots sh) j)
      by (intros j Hne; by rewrite id_of_insert, decide_False).
    assert (Hown : cnt i (queue (sh_lsm sh)) = 0 /\ w i = 0).
    { pose proof (ot_own _ _ _ _ _ Hot i). pose proof (cnt_nonneg i (queue (sh_lsm sh))). pose proof (ot_waits _ _ _ _ _ Hot i).
      unfold H, hold in HH. pose proof (one_nonneg ((0 <=? growing_memtable_idx (sh_lsm sh)) && (growing_memtable_idx (sh_lsm sh) =? i))). lia. }
    pose proof (zlookup_lt_Some _ _ _ Hs) as Hlt. split; cbn.
    + eapply refs_change; [exact Hs|exact Hr| |by left| | | | |]; fold H; rewrite ?cnt_cons, ?Z.eqb_refl; cbn [one mt_ref_count].
      * intros j. rewrite cnt_cons. destruct (Z.eqb_spec i j); [by right|by left].
      * intros _. by rewrite <-(rf_len _ _ _ _ Hr).
      * unfold H in *. lia.
      * unfold H in *. lia.
      * done.
      * intros j id Hj. assert (i <> j).
        { intros <-. assert (0 < cnt i (fst <$> sh_pins sh)) by (apply cnt_elem, list_elem_of_fmap; by exists (i, id)). unfold H in *. lia. }
        rewrite Hid by done. rewrite cnt_cons. destruct (rf_pins _ _ _ _ Hr j id Hj). destruct (Z.eqb_spec i j); [done|]. by split.
    + eapply queue_ok_ext; [done|done| |done|by rewrite zlen_insert|exact Hqk]. intros j s0 Hs0 Hpos.
      assert (i <> j) by (intros <-; lia). exists s0. by rewrite zlookup_insert_ne.
    + eapply ids_ok_ext; [done|done| |exact Hi]. intros j Hj. apply Hid. intros <-. fold H in Hj. lia.
  - (* foreign_works *)
    apply cnt_elem in Hin. pose proof (rf_excl _ _ _ _ Hr i) as Hex. pose proof (rf_nonneg _ _ _ _ Hr i). assert (HH : H i = 0) by (unfold H in *; lia).
    assert (Hid : forall j, i <> j -> id_of (<[i := s <| slot_mt := mt |>]> (sh_slots sh)) j = id_of (sh_slots sh) j)
      by (intros j Hne; by rewrite id_of_insert, decide_False).
    assert (Hown : cnt i (queue (sh_lsm sh)) = 0 /\ w i = 0).
    { pose proof (ot_own _ _ _ _ _ Hot i). pose proof (cnt_nonneg i (queue (sh_lsm sh))). pose proof (ot_waits _ _ _ _ _ Hot i).
      unfold H, hold in HH. pose proof (one_nonneg ((0 <=? growing_memtable_idx (sh_lsm sh)) && (growing_memtable_idx (sh_lsm sh) =? i))). lia. }
    split; cbn.
    + eapply refs_ok_ext; [done|by rewrite zlen_insert|by eapply same_slot_refs| |exact Hr]. intros j id Hj. apply Hid. intros <-.
      destruct (rf_pins _ _ _ _ Hr i id Hj). lia.
    + eapply queue_ok_ext; [done|done| |done|by rewrite zlen_insert|exact Hqk]. intros j s0 Hs0 Hpos.
      assert (i <> j) by (intros <-; lia). exists s0. by rewrite zlookup_insert_ne.
    + eapply ids_ok_ext; [done|done| |exact Hi]. intros j Hj. apply Hid. intros <-. fold H in Hj. lia.
  - (* foreign_drops *)
    apply ref_add_inv in Hadd as (s & Hs & Hadd). pose proof (held_count _ _ _ _ i s Hr) as Hw.
    rewrite Hadd; clear Hadd; [|apply Hw; [|done]; rewrite Hf, cnt_app, cnt_cons, Z.eqb_refl; pose proof (cnt_nonneg i f1); pose proof (cnt_nonneg i f2);
      pose proof (cnt_nonneg i (fst <$> sh_pins sh)); pose proof (rf_nonneg _ _ _ _ Hr i); cbn; lia].
    unfold set_ref. set (s1 := s <| mt_ref_count := _ |>). pose proof (rf_width _ _ _ _ Hr i s Hs) as Hwd.
    pose proof (rf_refs _ _ _ _ Hr i s Hs) as Href. pose proof (same_slot_id _ _ _ s1 Hs eq_refl) as Hid.
    assert (Hcf : forall j, cnt j (sh_foreign sh) = cnt j (f1 ++ f2) + one (i =? j)) by (intros j; rewrite Hf, !cnt_app, cnt_cons; lia).
    split; cbn.
    + eapply refs_change; [exact Hs|exact Hr| |by left| | | | |]; fold H.
      * intros j. rewrite Hcf. destruct (Z.eqb_spec i j); [by right|left; cbn; lia].
      * intros Hpos. apply (rf_range _ _ _ _ Hr). rewrite Hcf. pose proof (one_nonneg (i =? i)). unfold H in *. lia.
      * pose proof (rf_excl _ _ _ _ Hr i) as Hex. rewrite Hcf in Hex. pose proof (one_nonneg (i =? i)). unfold H in *. lia.
      * rewrite Hcf, Z.eqb_refl in Href. unfold H in *. cbn in Href |- *. lia.
      * cbn. lia.
      * intros j id Hj. rewrite Hid. destruct (rf_pins _ _ _ _ Hr j id Hj) as [Hj1 Hj2]. split; [done|]. rewrite Hcf in Hj2.
        pose proof (one_nonneg (i =? j)). pose proof (cnt_nonneg j (f1 ++ f2)). lia.
    + eapply queue_ok_ext; [done|done|by eapply same_slot_flags|done|by rewrite zlen_insert|exact Hqk].
    + by eapply ids_ok_ext; [| |intros; apply Hid|exact Hi].
Qed.

(** ** The whole system *)

Fixpoint total (f : cycle_pc -> Z) (pcs : list cycle_pc) : Z :=
  match pcs with [] => 0 | pc :: pcs => f pc + total f pcs end.
Definition at_slot (f : cycle_pc -> Z -> Z) (pcs : list cycle_pc) (i : Z) : Z := total (fun pc => f pc i) pcs.

Lemma total_mid f p1 pc p2 : total f (p1 ++ pc :: p2) = total f (p1 ++ p2) + f pc.
Proof. induction p1 as [|q p1 IH]; cbn; [lia|]. rewrite IH. lia. Qed.

Lemma total_le (f g : cycle_pc -> Z) pcs : (forall pc, f pc <= g pc) -> total f pcs <= total g pcs.
Proof. intros Hle. induction pcs as [|pc pcs IH]; cbn; [lia|]. specialize (Hle pc). lia. Qed.

Lemma total_plus f g pcs : total (fun pc => f pc + g pc) pcs = total f pcs + total g pcs.
Proof. induction pcs as [|pc pcs IH]; cbn; lia. Qed.

Lemma total_0 pcs : total (fun _ => 0) pcs = 0.
Proof. induction pcs as [|pc pcs IH]; cbn; lia. Qed.

Lemma pc_bounds pc i :
  0 <= own pc i <= 2 * rotating pc + past pc i /\ 0 <= busy pc i /\ 0 <= past pc i <= busy pc i + own pc i /\ 0 <= waits pc i <= own pc i /\ 0 <= rotating pc.
Proof.
  destruct pc as [| |c []|c n|n|j|j|j|j]; cbn;
    repeat match goal with |- context [one ?b] => lazymatch goal with H : 0 <= one b <= 1 |- _ => fail | _ => pose proof (one_nonneg b) end end; lia.
Qed.

Lemma others_total pcs : others_ok (at_slot own pcs) (total rotating pcs) (at_slot busy pcs) (at_slot past pcs) (at_slot waits pcs).
Proof.
  assert (Hnn : forall f : cycle_pc -> Z, (forall pc, 0 <= f pc) -> 0 <= total f pcs)
    by (intros f Hf; pose proof (total_le (fun _ => 0) f pcs Hf); rewrite total_0 in *; lia).
  unfold at_slot. split; [| | | |apply Hnn; intros pc; apply (pc_bounds pc 0)]; intros i.
  - apply Hnn. intros pc. apply (pc_bounds pc i).
  - apply Hnn. intros pc. apply (pc_bounds pc i).
  - split; [apply Hnn; intros pc; apply (pc_bounds pc i)|]. rewrite <-total_plus. apply total_le. intros pc. apply (pc_bounds pc i).
  - split; [apply Hnn; intros pc; apply (pc_bounds pc i)|]. apply total_le. intros pc. apply (pc_bounds pc i).
Qed.

Definition cycle_ok (c : cycle) : Prop :=
  ok (cy_shared c) (at_slot own (cy_pcs c)) (total rotating (cy_pcs c)) (at_slot busy (cy_pcs c)) (at_slot past (cy_pcs c)) (at_slot waits (cy_pcs c)) /\
  Forall good (cy_pcs c).

Lemma ok_ext sh o o' r r' b b' p p' w w' :
  (forall i, o' i = o i) -> r' = r -> (forall i, b' i = b i) -> (forall i, p' i = p i) -> (forall i, w' i = w i) ->
  (forall i, 0 <= w i) -> ok sh o r b p w -> ok sh o' r' b' p' w'.
Proof.
  intros Ho -> Hb Hp Hw Hwn [Hr Hqk Hi].
  assert (HH : forall i, hold (sh_lsm sh) o' i = hold (sh_lsm sh) o i) by (intros i; unfold hold; by rewrite Ho).
  split.
  - by eapply refs_ok_ext; [exact HH| | | |exact Hr]; eauto.
  - eapply queue_ok_ext; [exact Hb|exact Hw| |exact Hwn|done|exact Hqk]. intros i s Hs _. by exists s.
  - by eapply ids_ok_ext; [exact HH|exact Hp| |exact Hi].
Qed.

(** The process in the middle and the others. *)
Lemma ok_mid sh p1 pc p2 :
  let pcs := p1 ++ pc :: p2 in let rest := p1 ++ p2 in
  ok sh (at_slot own pcs) (total rotating pcs) (at_slot busy pcs) (at_slot past pcs) (at_slot waits pcs) <->
  ok_at (at_slot own rest) (total rotating rest) (at_slot busy rest) (at_slot past rest) (at_slot waits rest) pc sh.
Proof.
  cbn. unfold ok_at. pose proof (others_total (p1 ++ pc :: p2)) as Hp. pose proof (others_total (p1 ++ p2)) as Hr.
  split; (apply ok_ext; unfold at_slot; intros; try by rewrite total_mid).
  - apply (ot_waits _ _ _ _ _ Hp).
  - apply (waits_nonneg _ _ _ _ _ Hr).
Qed.

Section reachable.
Context (array_size memtable_capacity : Z).

Lemma cycle_step_ok c c' : cycle_step array_size memtable_capacity c c' -> cycle_ok c -> cycle_ok c'.
Proof.
  intros [sh sh' p1 pc pc' p2 Ha|sh sh' pcs He] [Hok Hgood]; cbn in *.
  - apply Forall_app in Hgood as [Hg1 [Hg Hg2]%Forall_cons]. apply ok_mid in Hok.
    destruct (act_ok _ _ _ _ _ (others_total _) _ _ _ _ _ _ Ha Hg Hok) as [Hg' Hok'].
    split; cbn; [by apply ok_mid|]. apply Forall_app. split; [done|]. by constructor.
  - split; [|done]. cbn. eapply env_ok; [apply others_total|done|done].
Qed.

Lemma cycle_steps_ok c c' : rtc (cycle_step array_size memtable_capacity) c c' -> cycle_ok c -> cycle_ok c'.
Proof. induction 1; [done|]. intros. eauto using cycle_step_ok. Qed.

End reachable.

(** The index when the server has just built or loaded it: one growing
    memtable, nothing queued, every process idle, the segments of earlier
    memtables on disk. *)
Record started (c : cycle) (g a : Z) : Prop := {
  st_lsm : growing_memtable_idx (sh_lsm (cy_shared c)) = g /\ memtable_count (sh_lsm (cy_shared c)) = 0 /\
    zlen (memtable_idxs (sh_lsm (cy_shared c))) = MEMTABLE_NUM;
  st_slots : zlen (sh_slots (cy_shared c)) = MEMTABLE_BUF_SIZE /\ id_of (sh_slots (cy_shared c)) g = Some a;
  st_refs : forall i s, sh_slots (cy_shared c) !! i = Some s -> mt_ref_count s = one (i =? g) + cnt i (sh_foreign (cy_shared c));
  st_foreign : NoDup (sh_foreign (cy_shared c)) /\ (g ∉ sh_foreign (cy_shared c)) /\ Forall (fun i => 0 <= i < MEMTABLE_BUF_SIZE) (sh_foreign (cy_shared c));
  st_ids : sh_made (cy_shared c) = sh_segments (cy_shared c) ++ [a] /\ sh_status (cy_shared c) = [a] /\ sh_tracked (cy_shared c) = [] /\
    NoDup (sh_made (cy_shared c)) /\ 0 <= next_segment_id (sh_lsm (cy_shared c)) < 2 ^ 32 /\
    forall x, x ∈ sh_made (cy_shared c) -> x < next_segment_id (sh_lsm (cy_shared c));
  st_pins : sh_pins (cy_shared c) = [];
  st_pcs : Forall (fun pc => pc = Working) (cy_pcs c) }.

Lemma cnt_NoDup i l : NoDup l -> cnt i l <= 1.
Proof.
  induction 1 as [|j l Hj Hl IH]; [done|]. rewrite cnt_cons. destruct (Z.eqb_spec j i) as [->|]; cbn; [|lia].
  destruct (decide (cnt i l <= 0)); [lia|]. destruct Hj. apply cnt_elem. lia.
Qed.

Lemma total_idle f pcs : Forall (fun pc => pc = Working) pcs -> f Working = 0 -> total f pcs = 0.
Proof. induction 1 as [|pc pcs -> _ IH]; cbn; [done|]. intros Hf. rewrite IH by done. lia. Qed.

Lemma started_ok c g a : started c g a -> cycle_ok c.
Proof.
  destruct c as [sh pcs]. intros [(Hg & Hc & Hz) (Hlen & Ha) Hrefs (Hnd & Hgf & Hff) (Hmade & Hst & Htr & Hndm & Hnx & Hlt) Hpins Hpcs]. cbn in *.
  split; [|eapply Forall_impl; [exact Hpcs|by intros ? ->]].
  assert (Hidle : forall f i, f Working i = 0 -> at_slot f pcs i = 0) by (intros f i Hf; by apply (total_idle (fun pc => f pc i))).
  eapply (ok_ext sh (fun _ => 0) _ 0 _ (fun _ => 0) _ (fun _ => 0) _ (fun _ => 0));
    [intros i; by apply Hidle|by apply total_idle|intros i; by apply Hidle|intros i; by apply Hidle|intros i; by apply Hidle|done|].
  assert (Hgr : 0 <= g < MEMTABLE_BUF_SIZE).
  { rewrite <-Hlen. unfold id_of in Ha. destruct (sh_slots sh !! g) as [s|] eqn:Hs; [|done]. by apply zlookup_lt_Some in Hs. }
  assert (Hq : queue (sh_lsm sh) = []) by (unfold queue; by rewrite Hc).
  assert (HH : forall i, hold (sh_lsm sh) (fun _ => 0) i = one (i =? g)).
  { intros i. unfold hold. rewrite Hq, Hg, (Z.eqb_sym g i). destruct (Z.leb_spec 0 g); [|lia]. cbn. change (cnt i []) with 0. lia. }
  assert (Hin : forall i, 0 < one (i =? g) -> i = g) by (intros i; by destruct (Z.eqb_spec i g)).
  split.
  - split; rewrite ?Hpins.
    + done.
    + intros i. rewrite HH. intros Hp. destruct (decide (i = g)) as [Hi|Hi]; [by rewrite Hi|]. rewrite (proj2 (Z.eqb_neq i g) Hi) in Hp. cbn in Hp.
      assert (Hif : i ∈ sh_foreign sh) by (apply cnt_elem; lia). rewrite Forall_forall in Hff. by apply Hff.
    + intros i. rewrite HH. apply one_nonneg.
    + intros i. rewrite HH. pose proof (cnt_NoDup i _ Hnd). rewrite cnt_elem in Hgf. destruct (decide (i = g)) as [Hi|Hi].
      * rewrite Hi in *. rewrite Z.eqb_refl. cbn. lia.
      * rewrite (proj2 (Z.eqb_neq i g) Hi). cbn. lia.
    + intros i s Hs. rewrite HH, (Hrefs i s Hs). cbn. change (cnt i []) with 0. lia.
    + intros i s Hs. rewrite (Hrefs i s Hs). pose proof (one_nonneg (i =? g)). pose proof (cnt_NoDup i _ Hnd). lia.
    + by intros i id ?%elem_of_nil.
  - split; rewrite ?Hq, ?Hg, ?Hc; [split; [unfold MEMTABLE_NUM; lia|done]|by right|intros i; split; [done|lia]|].
    intros i s Hs. change (cnt i []) with 0. lia.
  - split; rewrite ?Hst, ?Htr.
    + intros i j x. rewrite !HH. by intros ->%Hin ->%Hin.
    + intros i x. rewrite HH. intros ->%Hin Hx. rewrite Hmade. assert (x = a) as -> by congruence. apply elem_of_app. right. left.
    + done.
    + intros i Hp. lia.
    + intros i x. rewrite HH. intros ->%Hin Hx Hs. exfalso. assert (x = a) as -> by congruence.
      rewrite Hmade in Hndm. apply NoDup_app in Hndm as (_ & Hd & _). apply (Hd a Hs). left.
    + rewrite Hmade in Hndm |- *. apply NoDup_app in Hndm as (Hn & _ & _). split; [done|]. intros x Hx. apply elem_of_app. by left.
    + intros x. rewrite Hmade. intros [Hx| ->%list_elem_of_singleton]%elem_of_app; [by right|]. left. exists g. rewrite HH, Z.eqb_refl. done.
    + intros x. rewrite Hmade. intros [Hx| ->%list_elem_of_singleton]%elem_of_app; [by right|]. left. left.
    + by intros x ?%elem_of_nil.
Qed.

(** ** What follows *)

Section consequences.
Context (array_size memtable_capacity : Z).

Lemma reachable_ok c0 c g a : started c0 g a -> rtc (cycle_step array_size memtable_capacity) c0 c -> cycle_ok c.
Proof. intros Hst Hr. by eapply cycle_steps_ok, started_ok. Qed.

End consequences.

Lemma total_pos f pcs : (forall pc, 0 <= f pc) -> 0 < total f pcs -> exists pc, pc ∈ pcs /\ 0 < f pc.
Proof.
  intros Hf. induction pcs as [|pc pcs IH]; cbn; [lia|]. intros Hp. destruct (decide (0 < f pc)); [exists pc; split; [left|done]|].
  destruct IH as (q & Hq & Hfq); [specialize (Hf pc); lia|]. exists q. split; [by right|done].
Qed.

Lemma total_in f pcs pc : (forall pc, 0 <= f pc) -> pc ∈ pcs -> f pc <= total f pcs.
Proof.
  intros Hf (p1 & p2 & ->)%list_elem_of_split. rewrite total_mid. enough (0 <= total f (p1 ++ p2)) by lia.
  pose proof (total_le (fun _ => 0) f (p1 ++ p2) Hf). rewrite total_0 in *. lia.
Qed.

(** Where the reference the index holds on a slot is. *)
Definition in_hands (c : cycle) (i : Z) : Prop :=
  i = growing_memtable_idx (sh_lsm (cy_shared c)) \/ i ∈ queue (sh_lsm (cy_shared c)) \/ exists pc, pc ∈ cy_pcs c /\ 0 < own pc i.

Lemma held_in_hands c i : 0 < hold (sh_lsm (cy_shared c)) (at_slot own (cy_pcs c)) i -> in_hands c i.
Proof.
  unfold hold. intros Hh. destruct (Z.eqb_spec (growing_memtable_idx (sh_lsm (cy_shared c))) i) as [He|Hne]; [left; by rewrite He|]. right.
  rewrite andb_false_r in Hh. cbn in Hh. destruct (decide (0 < cnt i (queue (sh_lsm (cy_shared c))))) as [|Hq]; [left; by apply cnt_elem|].
  right. apply (total_pos (fun pc => own pc i)); [intros pc; apply (pc_bounds pc i)|]. unfold at_slot in Hh. lia.
Qed.

Lemma hold_nonrotating c i :
  cycle_ok c -> 0 <= growing_memtable_idx (sh_lsm (cy_shared c)) -> at_slot own (cy_pcs c) i <= at_slot past (cy_pcs c) i.
Proof.
  intros [Hok _] Hg. destruct (qk_rotating _ _ _ _ _ (ok_queue _ _ _ _ _ _ Hok)) as [[Hg' _]|[_ Hr]]; [unfold MT_IDX_ROTATING in Hg'; lia|].
  unfold at_slot. assert (Hle : total (fun pc => own pc i) (cy_pcs c) <= total (fun pc => (rotating pc + rotating pc) + past pc i) (cy_pcs c)).
  { apply total_le. intros pc. pose proof (pc_bounds pc i). lia. }
  rewrite !total_plus in Hle. lia.
Qed.

Lemma held_slot c i : cycle_ok c -> 0 < hold (sh_lsm (cy_shared c)) (at_slot own (cy_pcs c)) i ->
  exists s, sh_slots (cy_shared c) !! i = Some s /\ 1 <= mt_ref_count s /\ cnt i (sh_foreign (cy_shared c)) = 0.
Proof.
  intros [[Hr _ _] _] Hh. pose proof (rf_excl _ _ _ _ Hr i) as Hex. pose proof (cnt_nonneg i (sh_foreign (cy_shared c))).
  destruct (zlookup_lt_is_Some (sh_slots (cy_shared c)) i) as [s Hs]; [rewrite (rf_len _ _ _ _ Hr); apply (rf_range _ _ _ _ Hr); lia|].
  exists s. split; [done|]. rewrite (rf_refs _ _ _ _ Hr i s Hs). pose proof (cnt_nonneg i (fst <$> sh_pins (cy_shared c))). lia.
Qed.

Lemma growing_or_queued_held c i : cycle_ok c -> 0 <= growing_memtable_idx (sh_lsm (cy_shared c)) ->
  i = growing_memtable_idx (sh_lsm (cy_shared c)) \/ i ∈ queue (sh_lsm (cy_shared c)) ->
  0 < hold (sh_lsm (cy_shared c)) (at_slot own (cy_pcs c)) i.
Proof.
  intros [Hok _] Hg Hi. unfold hold. pose proof (ot_own _ _ _ _ _ (others_total (cy_pcs c)) i). pose proof (cnt_nonneg i (queue (sh_lsm (cy_shared c)))).
  destruct Hi as [->|Hq%cnt_elem].
  - rewrite Z.eqb_refl. destruct (Z.leb_spec 0 (growing_memtable_idx (sh_lsm (cy_shared c)))); [cbn; lia|lia].
  - pose proof (one_nonneg ((0 <=? growing_memtable_idx (sh_lsm (cy_shared c))) && (growing_memtable_idx (sh_lsm (cy_shared c)) =? i))). lia.
Qed.

(** The pins of a snapshot. *)
Definition snapshot_ids (snap : LSMSnapshot) : list Z := gmt_id snap :: smt_ids snap.
Definition snapshot_pins (snap : LSMSnapshot) : list (Z * Z) := zip (gidx snap :: sidxs snap) (snapshot_ids snap).

(** Pinning one memtable: what [take_snapshot] does at each of its slots. *)
Lemma pin_one sh o r b p w i : others_ok o r b p w -> ok sh o r b p w -> 2 + zlen (sh_pins sh) < 2 ^ 32 ->
  i = growing_memtable_idx (sh_lsm sh) \/ i ∈ queue (sh_lsm sh) -> is_Some (sh_slots sh !! i) ->
  exists s slots, sh_slots sh !! i = Some s /\ ref_add (sh_slots sh) i 1 = Ok slots /\
    let sh' := sh <| sh_slots := slots |> <| sh_pins := (i, memtable_id (slot_mt s)) :: sh_pins sh |> in
    env sh sh' /\ ok sh' o r b p w /\ forall j, id_of slots j = id_of (sh_slots sh) j.
Proof.
  intros Hot Hok Hw Hi [s Hs]. pose proof Hok as [Hr _ _].
  assert (Hc : 0 <= mt_ref_count s /\ mt_ref_count s + 1 < 2 ^ 32).
  { split; [by eapply ref_nonneg|]. rewrite (rf_refs _ _ _ _ Hr i s Hs). pose proof (rf_excl _ _ _ _ Hr i).
    pose proof (cnt_le i (fst <$> sh_pins sh)) as Hz. rewrite zlen_fmap in Hz. lia. }
  exists s, (set_ref (sh_slots sh) i 1 s). split; [done|]. assert (Hadd := ref_add_Ok _ _ 1 _ Hs ltac:(lia)). split; [done|]. cbn.
  assert (He : env sh (sh <| sh_slots := set_ref (sh_slots sh) i 1 s |> <| sh_pins := (i, memtable_id (slot_mt s)) :: sh_pins sh |>))
    by (eapply pinned; [done|done|lia|done]).
  split; [done|]. split; [by eapply env_ok|by apply same_slot_id with s].
Qed.

Lemma pin_all o r b p w l : others_ok o r b p w -> forall sh, ok sh o r b p w -> 2 + zlen l + zlen (sh_pins sh) < 2 ^ 32 ->
  (forall i, i ∈ l -> i = growing_memtable_idx (sh_lsm sh) \/ i ∈ queue (sh_lsm sh)) ->
  (forall i, i ∈ l -> is_Some (sh_slots sh !! i)) ->
  exists ids slots, snapshot_sealed (sh_slots sh) l = Ok (ids, slots) /\
    rtc env sh (sh <| sh_slots := slots |> <| sh_pins := reverse (zip l ids) ++ sh_pins sh |>) /\
    Forall2 (fun i a => id_of (sh_slots sh) i = Some a) l ids.
Proof.
  intros Hot. induction l as [|i l IH]; intros sh Hok Hw Hin Hsome.
  - exists [], (sh_slots sh). split; [done|]. split; [by destruct sh|constructor].
  - rewrite zlen_cons in Hw. pose proof (zlen_nonneg l).
    destruct (pin_one sh o r b p w i Hot Hok ltac:(lia) (Hin i ltac:(left)) (Hsome i ltac:(left))) as (s & sl1 & Hs & Hadd & He & Hok1 & Hid).
    set (a := memtable_id (slot_mt s)) in *. set (sh1 := sh <| sh_slots := sl1 |> <| sh_pins := (i, a) :: sh_pins sh |>) in *.
    destruct (IH sh1 Hok1) as (ids & slots & Hsnap & Hrtc & Hids).
    { cbn. rewrite zlen_cons. lia. }
    { intros j Hj. apply Hin. by right. }
    { intros j Hj. specialize (Hid j). unfold id_of in Hid. destruct (Hsome j) as [s' Hs']; [by right|]. rewrite Hs' in Hid. cbn.
      by destruct (sl1 !! j). }
    exists (a :: ids), slots. split; [|split].
    + cbn [snapshot_sealed]. rewrite (proj2 (arr_get_Ok _ _ _) Hs). cbn [mbind res_bind]. rewrite Hadd. cbn [mbind res_bind].
      change (sh_slots sh1) with sl1 in Hsnap. by rewrite Hsnap.
    + cbn [zip zip_with]. rewrite reverse_cons, <-app_assoc. by eapply rtc_l.
    + constructor; [unfold id_of; by rewrite Hs|]. eapply Forall2_impl; [exact Hids|]. intros j x Hx. change (id_of sl1 j = Some x) in Hx. by rewrite <-Hid.
Qed.

(** The whole snapshot. *)
Lemma take_snapshot_pins o r b p w sh : others_ok o r b p w -> ok sh o r b p w -> zlen (sh_pins sh) < 2 ^ 31 ->
  0 <= growing_memtable_idx (sh_lsm sh) < MEMTABLE_BUF_SIZE ->
  (forall i, i ∈ growing_memtable_idx (sh_lsm sh) :: queue (sh_lsm sh) -> is_Some (sh_slots sh !! i)) ->
  exists snap slots, take_snapshot (sh_lsm sh) (sh_slots sh) = Ok (Some (snap, slots)) /\
    rtc env sh (sh <| sh_slots := slots |> <| sh_pins := reverse (snapshot_pins snap) ++ sh_pins sh |>) /\
    Forall2 (fun i a => id_of (sh_slots sh) i = Some a) (growing_memtable_idx (sh_lsm sh) :: queue (sh_lsm sh)) (snapshot_ids snap).
Proof.
  intros Hot Hok Hw Hg Hsome. pose proof (qk_count _ _ _ _ _ (ok_queue _ _ _ _ _ _ Hok)) as [Hcnt Hz].
  assert (Hlen : zlen (queue (sh_lsm sh)) <= MEMTABLE_NUM) by (unfold queue, zlen in *; rewrite length_take; lia). unfold MEMTABLE_NUM in Hlen.
  destruct (pin_all o r b p w (growing_memtable_idx (sh_lsm sh) :: queue (sh_lsm sh)) Hot sh Hok) as (ids & slots & Hsnap & Hrtc & Hids);
    [rewrite zlen_cons; lia|intros i; by rewrite elem_of_cons|exact Hsome|].
  cbn [snapshot_sealed] in Hsnap. unfold take_snapshot. destruct (Z.leb_spec 0 (growing_memtable_idx (sh_lsm sh))); [|lia].
  destruct (Z.ltb_spec (growing_memtable_idx (sh_lsm sh)) MEMTABLE_BUF_SIZE); [|lia]. cbn [andb]. fold (queue (sh_lsm sh)).
  destruct (arr_get (sh_slots sh) _) as [s|]; [|done]. cbn [mbind res_bind] in *. destruct (ref_add _ _ 1) as [sl1|]; [|done]. cbn [mbind res_bind] in *.
  destruct (snapshot_sealed sl1 (queue (sh_lsm sh))) as [[ids' sl2]|]; [|done]. cbn in *. injection Hsnap as <- <-. eexists _, _. split; [done|]. by split.
Qed.

Lemma claim_slot_full slots : forall i, Forall (fun s => mt_ref_count s <> 0) slots -> claim_slot slots i = None.
Proof.
  induction slots as [|s slots IH]; intros i; [done|]. intros [Hs Hf]%Forall_cons. cbn [claim_slot].
  destruct (Z.eqb_spec (mt_ref_count s) 0); [done|]. by rewrite IH.
Qed.

Lemma claim_total slots idxs : (forall i, i ∈ idxs -> is_Some (slots !! i)) -> exists r, claim_immutable_for_flush slots idxs = Ok r.
Proof.
  induction idxs as [|i idxs IH]; intros Hs; [by eexists|]. cbn [claim_immutable_for_flush]. destruct (Hs i) as [s Hi]; [left|].
  rewrite (proj2 (arr_get_Ok _ _ _) Hi). cbn [mbind res_bind]. destruct (flush_claimed _); [apply IH; intros j Hj; apply Hs; by right|by eexists].
Qed.

Lemma find_pos_total idxs x : forall i, x ∈ idxs -> exists pos, find_pos idxs i x = Some pos.
Proof.
  induction idxs as [|y idxs IH]; intros i; [by intros ?%elem_of_nil|]. cbn [find_pos]. destruct (Z.eqb_spec y x); [by eexists|].
  intros [->|Hx]%elem_of_cons; [done|by apply IH].
Qed.

Lemma handoff_total lsm i : 0 <= memtable_count lsm <= zlen (memtable_idxs lsm) -> i ∈ queue lsm -> exists lsm', handoff_unlink lsm i = Ok lsm'.
Proof.
  intros Hc Hi. unfold handoff_unlink. fold (queue lsm). destruct (find_pos_total _ _ 0 Hi) as [pos Hf]. rewrite Hf.
  destruct (find_pos_inv _ _ _ _ Hf) as (q1 & q2 & Hq & -> & _).
  assert (Hz : zlen q1 + 1 + zlen q2 <= memtable_count lsm).
  { apply (f_equal zlen) in Hq. rewrite zlen_app, zlen_cons in Hq. unfold queue, zlen at 1 in Hq. rewrite length_take in Hq. unfold zlen in *. lia. }
  pose proof (zlen_nonneg q1). pose proof (zlen_nonneg q2). rewrite Z.add_0_l.
  destruct (shift_loop (memtable_idxs lsm) (zlen q1) (memtable_count lsm - (zlen q1 + 1))) as (l & -> & _); [lia..|]. by eexists.
Qed.

(** Steps of the index's own processes only. *)
Definition acts (array_size memtable_capacity : Z) (c c' : cycle) : Prop :=
  exists p1 pc pc' p2, cy_pcs c = p1 ++ pc :: p2 /\ cy_pcs c' = p1 ++ pc' :: p2 /\
    act array_size memtable_capacity pc (cy_shared c) pc' (cy_shared c').

(** ** Runs *)
Module Runs.

Definition memtable (id rows : Z) (full : bool) : ConcurrentMemTableData :=
  mkMemTable 0 id 1 rows (Z.min rows 1) full false UINT32_MAX 2 4 [0] [0] [Z.min rows 1] (replicate 8 0).
Definition slots8 (growing : list Z) : list MemtableBufferSlot :=
  (fun i => mkBufferSlot (if bool_decide (i ∈ growing) then 1 else 0) (memtable (if i =? 0 then 5 else 0) 0 false)) <$> seqZ 0 8.
Definition lsm0 (g : Z) : LSMIndexData := mkLSM 16384 2 4 6 g 5 (replicate 4 0) 0.
Definition sh0 (g : Z) (made used foreign : list Z) : shared := mkShared (lsm0 g) (slots8 used) [3; 4] [] [5] made [] foreign.

Definition get {A} (d : A) (r : res A) : A := match r with Ok x => x | Error _ => d end.
Definition claimed (r : res rotation) (lsm : LSMIndexData) : LSMIndexData := match r with Ok (Claimed _ l) => l | _ => lsm end.

Definition do_rows (i : Z) (mt : ConcurrentMemTableData) (sh : shared) : shared :=
  match sh_slots sh !! i with
  | Some s => sh <| sh_slots := <[i := s <| slot_mt := mt |>]> (sh_slots sh) |>
  | None => sh
  end.
Definition do_begin (need : bool) (sh : shared) : shared :=
  sh <| sh_lsm := claimed (begin_rotation (sh_lsm sh) (sh_slots sh) need) (sh_lsm sh) |>.
Definition do_allocate (sh : shared) : shared :=
  let '(_, lsm, slots) := get (0, sh_lsm sh, sh_slots sh) (register_and_set_memtable 8 1 (sh_lsm sh) (sh_slots sh) false 0) in
  sh <| sh_lsm := lsm |> <| sh_slots := slots |> <| sh_made := sh_made sh ++ [next_segment_id (sh_lsm sh)] |>
     <| sh_status := sh_status sh ++ [next_segment_id (sh_lsm sh)] |>.
Definition do_enqueue (cur : Z) (sh : shared) : shared :=
  sh <| sh_lsm := default (sh_lsm sh) (get None (enqueue_sealed_memtable (sh_lsm sh) cur)) |>.
Definition do_switch (new : Z) (sh : shared) : shared := sh <| sh_lsm := get (sh_lsm sh) (finish_rotation (sh_lsm sh) (sh_slots sh) new) |>.
Definition do_claim (sh : shared) : shared :=
  sh <| sh_slots := from_option snd (sh_slots sh) (get None (claim_immutable_for_flush (sh_slots sh) (queue (sh_lsm sh)))) |>.
Definition do_pin (i id : Z) (sh : shared) : shared :=
  sh <| sh_slots := get (sh_slots sh) (ref_add (sh_slots sh) i 1) |> <| sh_pins := (i, id) :: sh_pins sh |>.

Definition slot_at (i : Z) (sh : shared) : MemtableBufferSlot := default (mkBufferSlot 0 (memtable 0 0 false)) (sh_slots sh !! i).

(** The growing memtable fills up, is replaced and flushed, while a search holds it. *)
Definition c0 : cycle := mkCycle (sh0 0 [3; 4; 5] [0] []) [Working; Working].
Definition s1 : shared := Eval vm_compute in do_rows 0 (memtable 5 2 true) (cy_shared c0).
Definition s2 : shared := Eval vm_compute in do_begin true s1.
Definition s3 : shared := Eval vm_compute in do_allocate s2.
Definition s4 : shared := Eval vm_compute in do_enqueue 0 s3.
Definition s5 : shared := Eval vm_compute in do_switch 1 s4.
Definition s6 : shared := Eval vm_compute in do_pin 0 5 s5.
Definition s7 : shared := Eval vm_compute in do_claim s6.
Definition old : MemtableBufferSlot := mkBufferSlot 2 ((memtable 5 2 true) <| flush_claimed := true |>).
Definition s8 : shared := Eval vm_compute in s7 <| sh_segments := sh_segments s7 ++ [memtable_id (slot_mt old)] |>.
Definition s9 : shared := Eval vm_compute in s8 <| sh_tracked := track_flushed (sh_tracked s8) (memtable_id (slot_mt old)) |>.
Definition c9 : cycle := mkCycle s9 [Working; Tracked 0].

Lemma env_then sh sh' pcs c : env sh sh' -> rtc (cycle_step 8 1) (mkCycle sh' pcs) c -> rtc (cycle_step 8 1) (mkCycle sh pcs) c.
Proof. intros He. eapply rtc_l, does_env, He. Qed.

Lemma first_then pc sh pc' sh' p c :
  act 8 1 pc sh pc' sh' -> rtc (cycle_step 8 1) (mkCycle sh' (pc' :: p)) c -> rtc (cycle_step 8 1) (mkCycle sh (pc :: p)) c.
Proof. intros Ha. eapply rtc_l, (does_act _ _ _ _ []), Ha. Qed.

Lemma second_then q pc sh pc' sh' p c :
  act 8 1 pc sh pc' sh' -> rtc (cycle_step 8 1) (mkCycle sh' (q :: pc' :: p)) c -> rtc (cycle_step 8 1) (mkCycle sh (q :: pc :: p)) c.
Proof. intros Ha. eapply rtc_l, (does_act _ _ _ _ [q]), Ha. Qed.

Ltac ev := vm_compute; reflexivity.

(** A server with eight indexes: the seven others hold the other slots. *)
Definition others : list Z := [1; 2; 3; 4; 5; 6; 7].
Definition e0 : cycle := mkCycle (sh0 0 [3; 4; 5] (0 :: others) others) [Working].
Definition e1 : shared := Eval vm_compute in do_rows 0 (memtable 5 2 true) (cy_shared e0).
Definition e2 : cycle := mkCycle (do_begin true e1) [Allocate 0 true].

(** A standby that was just promoted has no growing memtable; two backends
    find that out at the same time. *)
Definition d0 : shared := Eval vm_compute in (sh0 MT_IDX_INVALID [3; 4] [] []) <| sh_status := [] |>.
Definition promoted : cycle := mkCycle d0 [Working; Working].
Definition d1 : shared := Eval vm_compute in do_begin false d0.
Definition d2 : shared := Eval vm_compute in do_allocate d1.
Definition d3 : shared := Eval vm_compute in do_switch 0 d2.
Definition d4 : shared := Eval vm_compute in do_rows 0 (memtable 6 1 false) d3.
Definition d5 : shared := Eval vm_compute in do_begin false d4.
Definition d6 : shared := Eval vm_compute in do_allocate d5.
Definition d7 : shared := Eval vm_compute in do_switch 1 d6.
Definition doubled : cycle := mkCycle d7 [Working; Working].

Ltac each_slot Hs :=
  let Hi := fresh in pose proof (zlookup_lt_Some _ _ _ Hs) as Hi; change (zlen _) with 8 in Hi; revert Hs;
  match type of Hi with 0 <= ?i < 8 =>
    let Hc := fresh in
    assert (i = 0 \/ i = 1 \/ i = 2 \/ i = 3 \/ i = 4 \/ i = 5 \/ i = 6 \/ i = 7) as Hc by lia; clear Hi;
    destruct_or! Hc; subst; vm_compute; by intros [= <-]
  end.

Lemma sh0_started foreign pcs :
  foreign = [] \/ foreign = others -> Forall (fun pc => pc = Working) pcs -> started (mkCycle (sh0 0 [3; 4; 5] (0 :: foreign) foreign) pcs) 0 5.
Proof.
  intros Hf Hpcs. assert (Hin : NoDup foreign /\ (0 ∉ foreign) /\ Forall (fun i => 0 <= i < MEMTABLE_BUF_SIZE) foreign)
    by (destruct Hf as [-> | ->]; split; [..|split]; apply (bool_decide_unpack _); ev).
  split; [..|done|exact Hpcs]; cbn [cy_shared cy_pcs sh0 sh_lsm sh_slots sh_foreign sh_made sh_segments sh_status sh_tracked]; [by split_and!| | |exact Hin|].
  - destruct Hf as [-> | ->]; split; ev.
  - intros i s Hs. destruct Hf as [-> | ->]; each_slot Hs.
  - split_and!; try ev; [apply (bool_decide_unpack _); ev|done|].
    intros x. repeat (intros [->|Hx]%elem_of_cons; [done|revert Hx]). by intros ?%elem_of_nil.
Qed.

Lemma ran : rtc (cycle_step 8 1) c0 c9.
Proof.
  unfold c0, c9. eapply (env_then _ s1); [apply (rows_inserted (cy_shared c0) 0 (slot_at 0 (cy_shared c0)) (memtable 5 2 true)); [ev|]; by split_and!|].
  eapply (first_then Working s1 (Rotate true) s1); [apply found_full; by apply Z.leb_le|].
  eapply (first_then _ s1 (Allocate 0 true) s2); [apply rotation_begins; ev|].
  eapply (first_then _ s2 (Enqueue 0 1) s3); [apply (allocated 8 1 0 true); [ev|done|by apply Z.ltb_lt]|].
  eapply (first_then _ s3 (Switch 1) s4); [apply enqueued; ev|].
  eapply (first_then _ s4 Working s5); [apply switched; ev|].
  eapply (env_then s5 s6); [apply (pinned s5 0 (slot_at 0 s5)); [right; left|ev..]|].
  eapply (second_then _ _ s6 (Flushing 0) s7); [apply flush_claims; ev|].
  eapply (second_then _ _ s7 (Flushed 0) s8); [apply (flush_writes 8 1 0 s7 old); ev|].
  eapply (second_then _ _ s8 (Tracked 0) s9); [apply (flush_tracks 8 1 0 s8 old); ev|]. apply rtc_refl.
Qed.

Lemma starves : rtc (cycle_step 8 1) e0 e2.
Proof.
  unfold e0, e2. eapply (env_then _ e1); [apply (rows_inserted (cy_shared e0) 0 (slot_at 0 (cy_shared e0)) (memtable 5 2 true)); [ev|]; by split_and!|].
  eapply (first_then Working e1 (Rotate true) e1); [apply found_full; by apply Z.leb_le|].
  eapply first_then; [apply rotation_begins; ev|]. apply rtc_refl.
Qed.

Lemma doubles : rtc (cycle_step 8 1) promoted doubled.
Proof.
  unfold promoted, doubled. eapply (first_then _ d0 (Rotate false) d0); [by apply found_none|].
  eapply (second_then _ _ d0 (Rotate false) d0); [by apply found_none|].
  eapply (first_then _ d0 (Allocate MT_IDX_INVALID false) d1); [apply rotation_begins; ev|].
  eapply (first_then _ d1 (Switch 0) d2); [apply (allocated 8 1 MT_IDX_INVALID false); [ev|done|by apply Z.ltb_lt]|].
  eapply (first_then _ d2 Working d3); [apply switched; ev|].
  eapply (env_then d3 d4); [apply (rows_inserted d3 0 (slot_at 0 d3) (memtable 6 1 false)); [ev|]; by split_and!|].
  eapply (second_then _ _ d4 (Allocate 0 false) d5); [apply rotation_begins; ev|].
  eapply (second_then _ _ d5 (Switch 1) d6); [apply (allocated 8 1 0 false); [ev|done|by apply Z.ltb_lt]|].
  eapply (second_then _ _ d6 Working d7); [apply switched; ev|]. apply rtc_refl.
Qed.

End Runs.

(** ** Properties *)

(** C2: No memtable is ever lost.  From the start, whatever the backends, flush
    workers, searches and other indexes do and in whatever order: every memtable
    ever made is on disk as a segment, or its slot still has its id, is counted
    as in use, is not another index's, and is the growing one, a queued one or in
    the hands of a process (a rotation or a flush) -- also while a rotation is
    under way; its entry is on the status page until the segment is on disk; and
    no memtable is written to disk twice. *)
Theorem no_memtable_is_lost array_size memtable_capacity c0 c g a :
  started c0 g a -> rtc (cycle_step array_size memtable_capacity) c0 c ->
  let sh := cy_shared c in
  (forall id, id ∈ sh_made sh ->
     (id ∈ sh_segments sh \/ exists i s, sh_slots sh !! i = Some s /\ memtable_id (slot_mt s) = id /\ 1 <= mt_ref_count s /\
        (i ∉ sh_foreign sh) /\ in_hands c i) /\
     (id ∈ sh_status sh \/ id ∈ sh_segments sh)) /\
  NoDup (sh_segments sh).
Proof.
  intros Hst Hr. pose proof (reachable_ok _ _ _ _ _ _ Hst Hr) as Hok. pose proof Hok as [[_ _ Hi] _]. cbn.
  split; [|apply Hi]. intros id Hid. split; [|by apply (id_status _ _ _ _ _ _ _ _ Hi)].
  destruct (id_live _ _ _ _ _ _ _ _ Hi id Hid) as [(i & Hh & Ha)|]; [right|by left].
  destruct (held_slot c i Hok Hh) as (s & Hs & Href & Hf). exists i, s. unfold id_of in Ha. rewrite Hs in Ha. cbn in Ha.
  split_and!; [done|congruence|done|rewrite cnt_elem; lia|by apply held_in_hands].
Qed.

Lemma no_memtable_is_lost_witness :
  sh_made (cy_shared Runs.c9) = [3; 4; 5; 6] /\
  let sh := cy_shared Runs.c9 in
  (forall id, id ∈ sh_made sh ->
     (id ∈ sh_segments sh \/ exists i s, sh_slots sh !! i = Some s /\ memtable_id (slot_mt s) = id /\ 1 <= mt_ref_count s /\
        (i ∉ sh_foreign sh) /\ in_hands Runs.c9 i) /\
     (id ∈ sh_status sh \/ id ∈ sh_segments sh)) /\
  NoDup (sh_segments sh).
Proof.
  split; [reflexivity|]. apply (no_memtable_is_lost 8 1 Runs.c0 Runs.c9 0 5); [|apply Runs.ran].
  apply (Runs.sh0_started []); [by left|by repeat constructor].
Defined.

(** C3: A search sees every memtable.  It takes its snapshot exactly when no
    rotation is under way (otherwise it tries again); the snapshot then never
    fails (fewer than 2^31 pins being held), it is a series of pins of the
    growing and the queued memtables, and it holds every memtable ever made that
    has no segment yet, under the id its slot has at that moment. *)
Theorem snapshot_is_complete array_size memtable_capacity c0 c g a :
  started c0 g a -> rtc (cycle_step array_size memtable_capacity) c0 c -> zlen (sh_pins (cy_shared c)) < 2 ^ 31 ->
  let sh := cy_shared c in
  if decide (growing_memtable_idx (sh_lsm sh) = MT_IDX_ROTATING) then take_snapshot (sh_lsm sh) (sh_slots sh) = Ok None
  else exists snap slots, take_snapshot (sh_lsm sh) (sh_slots sh) = Ok (Some (snap, slots)) /\
    rtc env sh (sh <| sh_slots := slots |> <| sh_pins := reverse (snapshot_pins snap) ++ sh_pins sh |>) /\
    forall id, id ∈ sh_made sh -> id ∈ sh_segments sh \/ id ∈ snapshot_ids snap.
Proof.
  intros Hst Hr Hw. pose proof (reachable_ok _ _ _ _ _ _ Hst Hr) as Hok. pose proof Hok as [[Hrf Hq Hi] _]. cbn. set (sh := cy_shared c) in *.
  destruct (qk_rotating _ _ _ _ _ Hq) as [[Hg _]|[Hg _]]; [rewrite decide_True by done; unfold take_snapshot; by rewrite Hg|].
  rewrite decide_False by (unfold MT_IDX_ROTATING; lia).
  destruct (take_snapshot_pins _ _ _ _ _ sh (others_total _) (proj1 Hok) Hw Hg) as (snap & slots & Hsnap & Hrtc & Hids).
  { intros i Hi'. destruct (held_slot c i Hok) as (s & Hs & _); [|by eexists].
    apply growing_or_queued_held; [done|exact (proj1 Hg)|by rewrite <-elem_of_cons]. }
  exists snap, slots. split; [done|]. split; [done|]. intros id Hid.
  destruct (id_live _ _ _ _ _ _ _ _ Hi id Hid) as [(i & Hh & Ha)|]; [|by left].
  destruct (decide (i ∈ growing_memtable_idx (sh_lsm sh) :: queue (sh_lsm sh))) as [Hii|Hni].
  - right. destruct (list_elem_of_lookup_1 _ _ Hii) as [k Hk]. destruct (Forall2_lookup_l _ _ _ _ _ Hids Hk) as (x & Hxk & Hx).
    assert (x = id) as -> by congruence. by eapply list_elem_of_lookup_2.
  - left. destruct (id_past _ _ _ _ _ _ _ _ Hi i) as (_ & x & Hx & Hxs); [|assert (x = id) as -> by congruence; done].
    pose proof (hold_nonrotating c i Hok (proj1 Hg)) as Hle. unfold hold in Hh.
    rewrite elem_of_cons, cnt_elem in Hni. pose proof (cnt_nonneg i (queue (sh_lsm sh))). revert Hh. fold sh.
    destruct (Z.eqb_spec (growing_memtable_idx (sh_lsm sh)) i); [exfalso; apply Hni; by left|]. rewrite andb_false_r. cbn [one]. lia.
Qed.

Lemma snapshot_is_complete_witness :
  (exists snap slots, take_snapshot (sh_lsm Runs.s9) (sh_slots Runs.s9) = Ok (Some (snap, slots)) /\
    rtc env Runs.s9 (Runs.s9 <| sh_slots := slots |> <| sh_pins := reverse (snapshot_pins snap) ++ sh_pins Runs.s9 |>) /\
    forall id, id ∈ sh_made Runs.s9 -> id ∈ sh_segments Runs.s9 \/ id ∈ snapshot_ids snap) /\
  exists slots, take_snapshot (sh_lsm Runs.s9) (sh_slots Runs.s9) = Ok (Some (mkSnapshot 1 6 1 [0] [5], slots)).
Proof.
  split; [|eexists; vm_compute; reflexivity].
  refine (snapshot_is_complete 8 1 Runs.c0 Runs.c9 0 5 _ Runs.ran _); [apply (Runs.sh0_started []); [by left|by repeat constructor]|reflexivity].
Defined.

(** A pinned memtable stays what it was.  As long as a search or vacuum holds
    its reference, the slot keeps the id it was pinned under, its count is at
    least the number of its pins, no other index has it, and a backend that
    looks for a free slot never gets it. *)
Theorem pinned_slots_stable array_size memtable_capacity c0 c g a i id :
  started c0 g a -> rtc (cycle_step array_size memtable_capacity) c0 c -> (i, id) ∈ sh_pins (cy_shared c) ->
  exists s, sh_slots (cy_shared c) !! i = Some s /\ memtable_id (slot_mt s) = id /\ cnt i (fst <$> sh_pins (cy_shared c)) <= mt_ref_count s /\
    (i ∉ sh_foreign (cy_shared c)) /\
    forall new slots, claim_slot (sh_slots (cy_shared c)) 0 = Some (new, slots) -> new <> i.
Proof.
  intros Hst Hr Hpin. destruct (reachable_ok _ _ _ _ _ _ Hst Hr) as [[Hrf _ _] _].
  destruct (rf_pins _ _ _ _ Hrf i id Hpin) as [Ha Hf]. unfold id_of in Ha. destruct (sh_slots (cy_shared c) !! i) as [s|] eqn:Hs; [|done].
  injection Ha as Ha. exists s. pose proof (rf_refs _ _ _ _ Hrf i s Hs) as Href. pose proof (rf_nonneg _ _ _ _ Hrf i).
  assert (0 < cnt i (fst <$> sh_pins (cy_shared c))) by (apply cnt_elem, list_elem_of_fmap; by exists (i, id)).
  split_and!; [done|done|lia|rewrite cnt_elem; lia|]. intros new slots Hc ->.
  destruct (claim_slot_inv _ _ _ _ Hc) as (s' & _ & Hs' & Hz & _). rewrite Z.sub_0_r in Hs'. assert (s' = s) as -> by congruence. lia.
Qed.

Lemma pinned_slots_stable_witness :
  exists s, sh_slots Runs.s9 !! 0 = Some s /\ memtable_id (slot_mt s) = 5 /\ cnt 0 (fst <$> sh_pins Runs.s9) <= mt_ref_count s /\
    (0 ∉ sh_foreign Runs.s9) /\ forall new slots, claim_slot (sh_slots Runs.s9) 0 = Some (new, slots) -> new <> 0.
Proof.
  apply (pinned_slots_stable 8 1 Runs.c0 Runs.c9 0 5 0 5); [apply (Runs.sh0_started []); [by left|by repeat constructor]|apply Runs.ran|].
  apply (bool_decide_unpack _). vm_compute. exact I.
Defined.



(** A rotation can wait for a slot forever.  The new memtable is allocated
    before the sealed one is queued; with every slot of the buffer in use (eight
    indexes fill it with their growing memtables alone) and nothing queued, the
    rotation waits for a slot, and no backend or flush worker of the index can
    do anything that frees one: the state never changes again, and an insert
    neither succeeds nor fails. *)
Theorem rotation_starves array_size memtable_capacity c c' cur :
  Forall (fun s => mt_ref_count s <> 0) (sh_slots (cy_shared c)) -> memtable_count (sh_lsm (cy_shared c)) = 0 ->
  growing_memtable_idx (sh_lsm (cy_shared c)) = MT_IDX_ROTATING ->
  Forall (fun pc => pc = Working \/ pc = Rotate true \/ pc = Allocate cur true) (cy_pcs c) -> Allocate cur true ∈ cy_pcs c ->
  rtc (acts array_size memtable_capacity) c c' ->
  Allocate cur true ∈ cy_pcs c' /\ cy_shared c' = cy_shared c.
Proof.
  intros Hfull Hc Hg. intros Hpcs Hin Hr. revert Hpcs Hin Hfull Hc Hg.
  induction Hr as [c|c1 c2 c3 (p1 & pc & pc' & p2 & Hp & Hp' & Ha) _ IH]; [done|]. intros Hpcs Hin Hfull Hc Hg.
  rewrite Hp in Hpcs, Hin. apply Forall_app in Hpcs as [Hf1 [Hpc Hf2]%Forall_cons].
  assert (Hstep : cy_shared c2 = cy_shared c1 /\ pc' = Working /\ pc <> Allocate cur true).
  { destruct Ha as [sh Hge|sh Hge| | |cur0 need sh new lsm slots Hreg Hnew| | |sh i slots Hcl| | | |]; destruct_or! Hpc; simplify_eq; cbn in *.
    - rewrite Hg in Hge. unfold MT_IDX_ROTATING in Hge. lia.
    - by rewrite Hg in Hge.
    - done.
    - unfold begin_rotation in *. rewrite Hg in *. done.
    - unfold register_and_set_memtable in Hreg. rewrite claim_slot_full in Hreg by done. simplify_eq. lia.
    - unfold queue in Hcl. by rewrite Hc in Hcl. }
  destruct Hstep as (Hsh & -> & Hne).
  destruct IH as [IH1 IH2]; rewrite ?Hsh, ?Hp'; try done.
  - apply Forall_app. split; [done|]. constructor; [by left|done].
  - apply elem_of_app in Hin as [|[He|]%elem_of_cons]; [apply elem_of_app; by left|by destruct Hne|apply elem_of_app; right; by right].
  - split; [done|congruence].
Qed.

Lemma rotation_starves_witness :
  started Runs.e0 0 5 /\ rtc (cycle_step 8 1) Runs.e0 Runs.e2 /\
  forall c', rtc (acts 8 1) Runs.e2 c' -> Allocate 0 true ∈ cy_pcs c' /\ cy_shared c' = cy_shared Runs.e2.
Proof.
  split; [apply (Runs.sh0_started Runs.others); [by right|by repeat constructor]|]. split; [apply Runs.starves|].
  intros c' Hr. apply (rotation_starves 8 1 Runs.e2 c' 0).
  - apply (bool_decide_unpack _). vm_compute. exact I.
  - reflexivity.
  - reflexivity.
  - constructor; [right; by right|constructor].
  - left.
  - exact Hr.
Defined.

(** On a promoted standby two backends can both make the first memtable.
    There is no growing memtable; both backends see that; the second one does
    not look again when it starts its rotation, and replaces the first one's
    fresh memtable without queueing it.  A row inserted and published in between
    is then in a memtable that is not growing, not queued, not on disk and in
    nobody's hands, a search does not look at it, and its slot is never free
    again. *)
Theorem promoted_standby_loses_rows :
  rtc (cycle_step 8 1) Runs.promoted Runs.doubled /\
  (exists s, sh_slots (cy_shared Runs.doubled) !! 0 = Some s /\ memtable_id (slot_mt s) ∈ sh_made (cy_shared Runs.doubled) /\
     (memtable_id (slot_mt s) ∉ sh_segments (cy_shared Runs.doubled)) /\
     ready (slot_mt s) = [1] /\ current_size (slot_mt s) = 1 /\ mt_ref_count s = 1) /\
  ~ in_hands Runs.doubled 0 /\
  exists slots, take_snapshot (sh_lsm (cy_shared Runs.doubled)) (sh_slots (cy_shared Runs.doubled)) = Ok (Some (mkSnapshot 1 7 0 [] [], slots)).
Proof.
  split; [apply Runs.doubles|]. split; [|split; [|eexists; vm_compute; reflexivity]].
  - exists (Runs.slot_at 0 Runs.d7). split_and!; try (vm_compute; reflexivity); by apply (bool_decide_unpack _); vm_compute.
  - intros [Hg|[Hq|(pc & Hpc & Ho)]]; [done|by apply elem_of_nil in Hq|].
    cbn in Hpc. by apply elem_of_cons in Hpc as [->|[->|?%elem_of_nil]%elem_of_cons].
Qed.
