(* ===== verification/SegmentFetch.v ===== *)
(** Fetching a segment from the primary (segment_fetcher.c) and the file server
    that answers (replication_server.c): the wire protocol, and the pull of the
    five files of a segment and of the index's own metadata, each into a
    temporary file that is renamed, the segment's metadata last.

    A connection is what one side sent, cut anywhere by the network.  A file
    arrives in one write; names are relative to the directory of the index. *)

From S2P Require Import Prelude SegmentPool FileNames SegmentFiles.

#[local] Open Scope string_scope.
#[local] Open Scope list_scope.
#[local] Open Scope Z_scope.

Inductive DpvFileKind :=
  | DPV_FILE_INDEX | DPV_FILE_MAPPING | DPV_FILE_OFFSET | DPV_FILE_BITMAP | DPV_FILE_METADATA | DPV_FILE_INDEX_METADATA.
#[global] Instance DpvFileKind_eq_dec : EqDecision DpvFileKind.
Proof. solve_decision. Defined.

(** The file operations of a pull: those of a flush, and [unlink]. *)
Inductive fetch_op := Do (o : file_op) | Unlink (path : string).

Definition run_fetch_op (d : directory) (o : fetch_op) : directory :=
  match o with Do o => run_op d o | Unlink p => delete p d end.
Definition run_fetch (d : directory) (ops : list fetch_op) : directory := foldl run_fetch_op d ops.

(** No connection, a refusal or no size; or the announced size and the bytes
    that arrive before the connection ends. *)
Inductive reply := NoAnswer | Answer (size : Z) (sent : bytes).

Module Wire.

(** [pg_hton32], [pg_hton64]. *)
Definition be_bytes (n : nat) (z : Z) : bytes := reverse (le_bytes n z).
Definition be_value (b : bytes) : Z := le_value (reverse b).

Definition kind_code (kind : DpvFileKind) : Z :=
  match kind with
  | DPV_FILE_INDEX => 1 | DPV_FILE_MAPPING => 2 | DPV_FILE_OFFSET => 3 | DPV_FILE_BITMAP => 4
  | DPV_FILE_METADATA => 5 | DPV_FILE_INDEX_METADATA => 6
  end.
Definition DPV_REQ_GET_FILE : Z := 1.
Definition DPV_RESULT_OK : Z := 0.
Definition DPV_RESULT_AUTH_FAIL : Z := 1.
Definition DPV_RESULT_NOT_FOUND : Z := 2.

(** What [pull_one_file] writes. *)
Definition request (secret : bytes) (idx start_sid end_sid version : Z) (kind : DpvFileKind) : bytes :=
  be_bytes 4 1 ++ be_bytes 4 (zlen secret) ++ secret ++ be_bytes 4 DPV_REQ_GET_FILE ++ be_bytes 4 idx ++
  be_bytes 4 start_sid ++ be_bytes 4 end_sid ++ be_bytes 4 version ++ [kind_code kind].

(** [n] bytes, or the end of the connection. *)
Definition read_n (n : Z) (input : bytes) : option (bytes * bytes) :=
  if zlen input <? n then None else Some (take (Z.to_nat n) input, drop (Z.to_nat n) input).
Definition read_u32 (input : bytes) : option (Z * bytes) := '(b, input) ← read_n 4 input; Some (be_value b, input).

(** The C string at the start of a buffer. *)
Fixpoint c_string (b : bytes) : bytes :=
  match b with [] => [] | x :: b => if x =? 0 then [] else x :: c_string b end.

Definition build_file_path (start_sid end_sid version kind : Z) : option string :=
  if kind =? 1 then Some (Path.GetLSMIndexFilePathWithVersion start_sid end_sid version)
  else if kind =? 2 then Some (Path.GetLSMMappingFilePathWithVersion start_sid end_sid version ++ ".0")%string
  else if kind =? 3 then Some (Path.GetLSMOffsetFilePathWithVersion start_sid end_sid version ++ ".0")%string
  else if kind =? 4 then Some (Path.GetLSMBitmapFilePathWithVersion start_sid end_sid version ++ ".0")%string
  else if kind =? 5 then Some (Path.GetLSMSegmentMetadataPathWithVersion start_sid end_sid version)
  else if kind =? 6 then Some Path.get_lsm_metadata_path
  else None.

(** [handle_one_connection]: what is sent back before the connection is closed. *)
Definition handle_one_connection (shared_secret : option bytes) (files : Z -> directory) (input : bytes) : bytes :=
  default [] (
    '(proto_ver, input) ← read_u32 input;
    if negb (proto_ver =? 1) then None else
    '(secret_len, input) ← read_u32 input;
    if 256 <=? secret_len then None else
    '(secret, input) ← read_n secret_len input;
    if negb (bool_decide (shared_secret = Some (c_string secret))) then Some [DPV_RESULT_AUTH_FAIL] else
    '(req_kind, input) ← read_u32 input;
    '(idx, input) ← read_u32 input;
    '(start_sid, input) ← read_u32 input;
    '(end_sid, input) ← read_u32 input;
    '(version, input) ← read_u32 input;
    '(fkind, input) ← read_n 1 input;
    if negb (req_kind =? DPV_REQ_GET_FILE) then None else
    match build_file_path start_sid end_sid version (be_value fkind) with
    | None => Some [DPV_RESULT_NOT_FOUND]
    | Some path =>
        match files idx !! path with
        | None => Some [DPV_RESULT_NOT_FOUND]
        | Some b => Some (DPV_RESULT_OK :: be_bytes 8 (zlen b) ++ b)
        end
    end).

(** The answer as [pull_one_file] reads it. *)
Definition read_reply (answer : bytes) : reply :=
  match read_n 1 answer with
  | None => NoAnswer
  | Some (result, answer) =>
      if negb (be_value result =? DPV_RESULT_OK) then NoAnswer
      else match read_n 8 answer with
           | None => NoAnswer
           | Some (size, answer) => Answer (be_value size) answer
           end
  end.

(** One request; the network delivers the first [cut] bytes of the answer. *)
Definition ask (secret : bytes) (shared_secret : option bytes) (files : Z -> directory) (cut : nat)
    (idx start_sid end_sid version : Z) (kind : DpvFileKind) : reply :=
  read_reply (take cut (handle_one_connection shared_secret files (request secret idx start_sid end_sid version kind))).

End Wire.

Module Pull.
Section pull.
Context (server : DpvFileKind -> reply).
Context (start_sid end_sid version : Z).

Definition build_dest_path (kind : DpvFileKind) : string :=
  match kind with
  | DPV_FILE_INDEX => Path.GetLSMIndexFilePathWithVersion start_sid end_sid version
  | DPV_FILE_MAPPING => (Path.GetLSMMappingFilePathWithVersion start_sid end_sid version ++ ".0")%string
  | DPV_FILE_OFFSET => (Path.GetLSMOffsetFilePathWithVersion start_sid end_sid version ++ ".0")%string
  | DPV_FILE_BITMAP => (Path.GetLSMBitmapFilePathWithVersion start_sid end_sid version ++ ".0")%string
  | DPV_FILE_METADATA => Path.GetLSMSegmentMetadataPathWithVersion start_sid end_sid version
  | DPV_FILE_INDEX_METADATA => Path.get_lsm_metadata_path
  end.

Definition tmp_of (out_path : string) : string := (out_path ++ ".tmp")%string.

Definition pull_one_file (kind : DpvFileKind) (out_path : string) : list fetch_op * bool :=
  match server kind with
  | NoAnswer => ([], false)
  | Answer remaining sent =>
      if zlen sent <? remaining then ([Do (OpWrite (tmp_of out_path) sent); Unlink (tmp_of out_path)], false)
      else ([Do (OpWrite (tmp_of out_path) (take (Z.to_nat remaining) sent)); Do (OpRename (tmp_of out_path) out_path)], true)
  end.

Fixpoint pull_kinds (kinds : list DpvFileKind) : list fetch_op * bool :=
  match kinds with
  | [] => ([], true)
  | kind :: kinds =>
      let r := pull_one_file kind (build_dest_path kind) in
      if r.2 then let r' := pull_kinds kinds in (r.1 ++ r'.1, r'.2) else (r.1, false)
  end.

Definition kinds : list DpvFileKind :=
  [DPV_FILE_INDEX; DPV_FILE_MAPPING; DPV_FILE_OFFSET; DPV_FILE_BITMAP; DPV_FILE_METADATA].

(** [pull_all_files] in directory [d] of the index. *)
Definition pull_all_files (d : directory) : list fetch_op * bool :=
  let r := pull_one_file DPV_FILE_INDEX_METADATA Path.get_lsm_metadata_path in
  if negb r.2 then (r.1, false)
  else if bool_decide (is_Some (run_fetch d r.1 !! Path.GetLSMSegmentMetadataPathWithVersion start_sid end_sid version))
  then (r.1, true)
  else let r' := pull_kinds kinds in (r.1 ++ r'.1, r'.2).

End pull.
End Pull.

Import Wire Pull.

(** ** What a pull touches *)

Definition touches (p : string) (o : fetch_op) : Prop :=
  match o with Do o => p ∈ op_keys o | Unlink q => p = q end.

Lemma run_fetch_app d l1 l2 : run_fetch d (l1 ++ l2) = run_fetch (run_fetch d l1) l2.
Proof. apply foldl_app. Qed.

Lemma run_fetch_op_other d o p : ~ touches p o -> run_fetch_op d o !! p = d !! p.
Proof. destruct o as [o|q]; cbn; intros Hp; [by apply run_op_other|]. apply lookup_delete_ne. congruence. Qed.

Lemma run_fetch_other d ops p : (forall o, o ∈ ops -> ~ touches p o) -> run_fetch d ops !! p = d !! p.
Proof.
  revert d; induction ops as [|o ops IH]; intros d Hp; [done|]. cbn. unfold run_fetch in IH.
  rewrite IH by (intros o' Ho'; apply Hp; by right). apply run_fetch_op_other, Hp. left.
Qed.

Lemma app_longer s c t : s <> (s ++ String c t)%string.
Proof. induction s as [|c' s IH]; [done|]. rewrite append_cons. intros [= He]. by apply IH. Qed.

Section pulling.
Context (server : DpvFileKind -> reply).
Context (start_sid end_sid version : Z).
Abbreviation dest := (build_dest_path start_sid end_sid version).

(** The bytes a complete answer carries. *)
Definition content (kind : DpvFileKind) : bytes :=
  match server kind with Answer size sent => take (Z.to_nat size) sent | NoAnswer => [] end.

Lemma pull_one_cases kind out ops ok : pull_one_file server kind out = (ops, ok) ->
  if ok then ops = [Do (OpWrite (tmp_of out) (content kind)); Do (OpRename (tmp_of out) out)]
  else ops = [] \/ exists sent, ops = [Do (OpWrite (tmp_of out) sent); Unlink (tmp_of out)].
Proof.
  unfold pull_one_file, content. destruct (server kind) as [|size sent]; [intros [= <- <-]; by left|].
  destruct (zlen sent <? size); intros [= <- <-]; [right; by exists sent|done].
Qed.

Lemma pull_one_touches kind out ops ok p o :
  pull_one_file server kind out = (ops, ok) -> o ∈ ops -> touches p o -> p = tmp_of out \/ p = out /\ ok = true.
Proof.
  intros Hp%pull_one_cases. destruct ok; [subst ops|destruct Hp as [->|(sent & ->)]].
  - intros [->|[->|[]%elem_of_nil]%elem_of_cons]%elem_of_cons; cbn.
    + intros ->%list_elem_of_singleton. by left.
    + intros [->|[->|[]%elem_of_nil]%elem_of_cons]%elem_of_cons; [by left|by right].
  - by intros ?%elem_of_nil.
  - intros [->|[->|[]%elem_of_nil]%elem_of_cons]%elem_of_cons; cbn; [intros ->%list_elem_of_singleton|intros ->]; by left.
Qed.

Lemma pull_one_run d kind out ops : pull_one_file server kind out = (ops, true) -> run_fetch d ops !! out = Some (content kind).
Proof.
  intros ->%pull_one_cases. cbn. rewrite lookup_insert_eq. by rewrite lookup_insert_eq.
Qed.

Lemma dest_inj k k' : dest k = dest k' -> k = k'.
Proof. destruct k, k'; cbn; try done; discriminate. Qed.

Lemma dest_tmp k k' : dest k <> tmp_of (dest k').
Proof.
  destruct (decide (k = k')) as [->|Hne]; [apply app_longer|]. destruct k, k'; try done; cbn; discriminate.
Qed.

(** Names of other files. *)
Definition elsewhere (p : string) : Prop := forall k, p <> dest k /\ p <> tmp_of (dest k).

Lemma pull_kinds_spec ks : NoDup ks -> forall d ops ok, pull_kinds server start_sid end_sid version ks = (ops, ok) ->
  (ok = true -> forall k, k ∈ ks -> run_fetch d ops !! dest k = Some (content k)) /\
  forall p o, o ∈ ops -> touches p o -> exists k, k ∈ ks /\ (p = tmp_of (dest k) \/ p = dest k).
Proof.
  induction 1 as [|k ks Hk Hnd IH]; intros d ops ok; cbn.
  - intros [= <- <-]. split; [by intros _ k ?%elem_of_nil|by intros p o ?%elem_of_nil].
  - destruct (pull_one_file server k (dest k)) as [ops1 ok1] eqn:H1. cbn. destruct ok1.
    + destruct (pull_kinds server start_sid end_sid version ks) as [ops2 ok2] eqn:H2. cbn. intros [= <- <-].
      destruct (IH (run_fetch d ops1) _ _ eq_refl) as [Hrun Htouch]. split.
      * intros -> k' [->|Hk']%elem_of_cons; rewrite run_fetch_app; [|by apply Hrun].
        rewrite run_fetch_other; [by apply pull_one_run|]. intros o Ho Ht. destruct (Htouch _ _ Ho Ht) as (k' & Hk' & [He|He]).
        -- by apply (dest_tmp k k').
        -- apply Hk. by rewrite (dest_inj _ _ He).
      * intros p o [Ho|Ho]%elem_of_app Ht.
        -- exists k. split; [left|]. destruct (pull_one_touches _ _ _ _ _ _ H1 Ho Ht) as [|[? _]]; auto.
        -- destruct (Htouch _ _ Ho Ht) as (k' & Hk' & Hp). exists k'. split; [by right|done].
    + intros [= <- <-]. split; [done|]. intros p o Ho Ht. exists k. split; [left|].
      destruct (pull_one_touches _ _ _ _ _ _ H1 Ho Ht) as [|[_ ?]]; [by left|done].
Qed.

End pulling.

Section whole_pull.
Context (server : DpvFileKind -> reply).
Context (start_sid end_sid version : Z).
Abbreviation dest := (build_dest_path start_sid end_sid version).
Abbreviation content := (content server).
Abbreviation metadata := (dest DPV_FILE_METADATA).

(** Every operation of a pull but the last works on other names than the
    metadata file's. *)
Definition quiet (ops : list fetch_op) : Prop := forall o, o ∈ ops -> ~ touches metadata o.

Lemma quiet_app l1 l2 : quiet l1 -> quiet l2 -> quiet (l1 ++ l2).
Proof. intros H1 H2 o [Ho|Ho]%elem_of_app; auto. Qed.

Lemma quiet_one k ops ok : pull_one_file server k (dest k) = (ops, ok) -> k <> DPV_FILE_METADATA -> quiet ops.
Proof.
  intros Hp Hk o Ho Ht. destruct (pull_one_touches _ _ _ _ _ _ _ Hp Ho Ht) as [He|[He _]]; [by apply (dest_tmp _ _ _ _ _ He)|].
  by apply dest_inj in He.
Qed.

Lemma quiet_take ops k : quiet ops -> quiet (take k ops).
Proof. intros Hq o Ho. apply Hq. by eapply elem_of_take in Ho as (? & ? & _); eapply list_elem_of_lookup_2. Qed.

Lemma quiet_run d ops : quiet ops -> run_fetch d ops !! metadata = d !! metadata.
Proof. intros Hq. by apply run_fetch_other. Qed.

(** The data files, then the metadata. *)
Lemma pull_kinds_quiet ks ops ok : pull_kinds server start_sid end_sid version ks = (ops, ok) -> DPV_FILE_METADATA ∉ ks -> quiet ops.
Proof.
  revert ops ok; induction ks as [|k ks IH]; intros ops ok; cbn; [by intros [= <- <-] _ o ?%elem_of_nil|].
  destruct (pull_one_file server k (dest k)) as [ops1 ok1] eqn:H1. intros Hp [Hk Hks]%not_elem_of_cons.
  assert (Hq : quiet ops1) by (eapply quiet_one; [exact H1|congruence]). cbn in Hp. destruct ok1; [|by injection Hp as <- <-].
  destruct (pull_kinds server start_sid end_sid version ks) as [ops2 ok2] eqn:H2. injection Hp as <- <-. apply quiet_app; [done|by eapply IH].
Qed.

Lemma pull_kinds_app ks1 ks2 : pull_kinds server start_sid end_sid version (ks1 ++ ks2) =
  let r := pull_kinds server start_sid end_sid version ks1 in
  if r.2 then let r' := pull_kinds server start_sid end_sid version ks2 in (r.1 ++ r'.1, r'.2) else (r.1, false).
Proof.
  induction ks1 as [|k ks1 IH]; cbn; [by destruct (pull_kinds _ _ _ _ ks2)|].
  destruct (pull_one_file server k (dest k)) as [ops1 [|]]; [|done]. cbn. rewrite IH.
  destruct (pull_kinds _ _ _ _ ks1) as [ops2 [|]]; [|done]. cbn. by destruct (pull_kinds _ _ _ _ ks2) as [ops3 ok3]; cbn; rewrite app_assoc.
Qed.

(** A pull that works is quiet but for its last operation. *)
Lemma pull_all_shape d ops ok : d !! metadata = None -> pull_all_files server start_sid end_sid version d = (ops, ok) ->
  if ok then exists ops', quiet ops' /\ ops = ops' ++ [Do (OpRename (tmp_of metadata) metadata)] /\
               run_fetch d ops' !! tmp_of metadata = Some (content DPV_FILE_METADATA)
  else quiet ops.
Proof.
  intros Hd. unfold pull_all_files. change Path.get_lsm_metadata_path with (dest DPV_FILE_INDEX_METADATA) at 1.
  destruct (pull_one_file server DPV_FILE_INDEX_METADATA _) as [ops0 ok0] eqn:H0. pose proof (quiet_one _ _ _ H0 ltac:(done)) as Hq0.
  cbn [fst snd negb]. destruct ok0; cbn [fst snd negb]; [|by intros [= <- <-]].
  rewrite bool_decide_false by (change (¬ is_Some (run_fetch d ops0 !! metadata)); rewrite quiet_run, Hd by done; by intros [? ?]).
  change kinds with ([DPV_FILE_INDEX; DPV_FILE_MAPPING; DPV_FILE_OFFSET; DPV_FILE_BITMAP] ++ [DPV_FILE_METADATA]).
  rewrite pull_kinds_app. destruct (pull_kinds _ _ _ _ [DPV_FILE_INDEX; DPV_FILE_MAPPING; DPV_FILE_OFFSET; DPV_FILE_BITMAP]) as [ops1 ok1] eqn:H1.
  assert (Hq1 : quiet ops1) by (eapply pull_kinds_quiet; [exact H1|by apply (bool_decide_unpack _)]).
  destruct ok1; cbn; [|intros [= <- <-]; by apply quiet_app].
  destruct (pull_one_file server DPV_FILE_METADATA _) as [ops2 ok2] eqn:H2. pose proof (pull_one_cases _ _ _ _ _ H2) as Hc. cbn.
  destruct ok2; cbn; intros [= <- <-].
  - rewrite app_nil_r, Hc. exists (ops0 ++ ops1 ++ [Do (OpWrite (tmp_of metadata) (content DPV_FILE_METADATA))]). split; [|split].
    + apply quiet_app; [done|]. apply quiet_app; [done|]. intros o ->%list_elem_of_singleton. cbn. intros Ht%list_elem_of_singleton.
      by apply (dest_tmp start_sid end_sid version DPV_FILE_METADATA DPV_FILE_METADATA Ht).
    + by rewrite <-!app_assoc.
    + rewrite !run_fetch_app. cbn. apply lookup_insert_eq.
  - apply quiet_app; [done|]. apply quiet_app; [done|]. destruct Hc as [->|(sent & ->)]; intros o; [by intros ?%elem_of_nil|].
    intros [->|[->|[]%elem_of_nil]%elem_of_cons]%elem_of_cons; cbn; [intros Ht%list_elem_of_singleton|intros Ht]; by apply (dest_tmp start_sid end_sid version DPV_FILE_METADATA DPV_FILE_METADATA Ht).
Qed.

Lemma pull_all_runs d ops : d !! metadata = None -> pull_all_files server start_sid end_sid version d = (ops, true) ->
  forall k, run_fetch d ops !! dest k = Some (content k).
Proof.
  intros Hd. unfold pull_all_files. change Path.get_lsm_metadata_path with (dest DPV_FILE_INDEX_METADATA) at 1.
  destruct (pull_one_file server DPV_FILE_INDEX_METADATA _) as [ops0 ok0] eqn:H0. pose proof (quiet_one _ _ _ H0 ltac:(done)) as Hq0.
  cbn [fst snd negb]. destruct ok0; cbn [fst snd negb]; [|done].
  rewrite bool_decide_false by (change (¬ is_Some (run_fetch d ops0 !! metadata)); rewrite quiet_run, Hd by done; by intros [? ?]).
  destruct (pull_kinds _ _ _ _ kinds) as [ops1 ok1] eqn:H1. cbn [fst snd]. intros [= <- ->] k.
  destruct (pull_kinds_spec server start_sid end_sid version kinds) with (d := run_fetch d ops0) (2 := H1) as [Hrun Htouch];
    [by apply (bool_decide_unpack _)|].
  rewrite run_fetch_app. destruct (decide (k ∈ kinds)) as [Hk|Hk]; [by apply Hrun|]. rewrite run_fetch_other.
  - assert (k = DPV_FILE_INDEX_METADATA) as -> by (destruct k; try done; exfalso; apply Hk; unfold kinds; set_solver).
    by eapply pull_one_run.
  - intros o Ho Ht. destruct (Htouch _ _ Ho Ht) as (k' & Hk' & [He|He]); [by apply (dest_tmp _ _ _ _ _ He)|].
    apply dest_inj in He. by subst.
Qed.

Lemma pull_all_elsewhere d ops ok p o : pull_all_files server start_sid end_sid version d = (ops, ok) ->
  elsewhere start_sid end_sid version p -> o ∈ ops -> ~ touches p o.
Proof.
  unfold pull_all_files. change Path.get_lsm_metadata_path with (dest DPV_FILE_INDEX_METADATA) at 1. intros Hp He Ho Ht.
  destruct (pull_one_file server DPV_FILE_INDEX_METADATA _) as [ops0 ok0] eqn:H0. cbn [fst snd negb] in Hp.
  assert (Hin : o ∈ ops0 \/ o ∈ (pull_kinds server start_sid end_sid version kinds).1).
  { destruct ok0; cbn [fst snd negb] in Hp; [case_bool_decide|]; injection Hp as <- _; [by left|by apply elem_of_app in Ho|by left]. }
  destruct Hin as [Hin|Hin].
  - destruct (pull_one_touches _ _ _ _ _ _ _ H0 Hin Ht) as [->|[-> _]]; by destruct (He DPV_FILE_INDEX_METADATA).
  - destruct (pull_kinds _ _ _ _ kinds) as [ops1 ok1] eqn:H1.
    destruct (pull_kinds_spec server start_sid end_sid version kinds) with (d := d) (2 := H1) as [_ Htouch]; [by apply (bool_decide_unpack _)|].
    destruct (Htouch _ _ Hin Ht) as (k & _ & [->| ->]); by destruct (He k).
Qed.
End whole_pull.

(** ** The wire *)

Lemma length_be_bytes n z : length (be_bytes n z) = n.
Proof. unfold be_bytes. by rewrite length_reverse, length_le_bytes. Qed.

Lemma zlen_be_bytes n z : zlen (be_bytes n z) = Z.of_nat n.
Proof. unfold zlen. by rewrite length_be_bytes. Qed.

Lemma be_value_bytes n z : 0 <= z < 256 ^ Z.of_nat n -> be_value (be_bytes n z) = z.
Proof. intros Hz. unfold be_value, be_bytes. rewrite reverse_involutive, le_value_bytes. by apply Z.mod_small. Qed.

Lemma read_n_app n b r : zlen b = n -> read_n n (b ++ r) = Some (b, r).
Proof.
  intros <-. unfold read_n. rewrite zlen_app. pose proof (zlen_nonneg r). destruct (Z.ltb_spec (zlen b + zlen r) (zlen b)); [lia|].
  unfold zlen. rewrite Nat2Z.id, take_app_length, drop_app_length. done.
Qed.

Lemma read_u32_app z r : u32_ok z -> read_u32 (be_bytes 4 z ++ r) = Some (z, r).
Proof. intros Hz. unfold read_u32. rewrite read_n_app by apply zlen_be_bytes. cbn [mbind option_bind]. by rewrite be_value_bytes. Qed.

Lemma c_string_id b : 0 ∉ b -> c_string b = b.
Proof.
  induction b as [|x b IH]; [done|]. intros [Hx Hb]%not_elem_of_cons. cbn. destruct (Z.eqb_spec x 0); [congruence|]. by rewrite IH.
Qed.

Lemma file_path_dest start_sid end_sid version kind :
  build_file_path start_sid end_sid version (kind_code kind) = Some (build_dest_path start_sid end_sid version kind).
Proof. by destruct kind. Qed.

(** The server's answer to a well-formed request. *)
Lemma handle_request secret files idx start_sid end_sid version kind :
  0 ∉ secret -> zlen secret < 256 -> u32_ok idx -> u32_ok start_sid -> u32_ok end_sid -> u32_ok version ->
  handle_one_connection (Some secret) files (request secret idx start_sid end_sid version kind) =
  match files idx !! build_dest_path start_sid end_sid version kind with
  | None => [DPV_RESULT_NOT_FOUND]
  | Some b => DPV_RESULT_OK :: be_bytes 8 (zlen b) ++ b
  end.
Proof.
  intros Hz Hlen Hi Hs He Hv. unfold handle_one_connection, request. pose proof (zlen_nonneg secret).
  rewrite read_u32_app by done. cbn [mbind option_bind Z.eqb Pos.eqb negb]. rewrite read_u32_app by (unfold u32_ok; lia). cbn [mbind option_bind].
  destruct (Z.leb_spec 256 (zlen secret)); [lia|]. rewrite read_n_app by done. cbn [mbind option_bind].
  rewrite c_string_id, bool_decide_true by done. cbn [negb]. do 5 (rewrite read_u32_app by done; cbn [mbind option_bind]). change [kind_code kind] with ([kind_code kind] ++ []).
  rewrite read_n_app by done. cbn [mbind option_bind].
  replace (be_value [kind_code kind]) with (kind_code kind) by (by destruct kind). cbn [negb]. rewrite Z.eqb_refl, file_path_dest. cbn [negb].
  by destruct (files idx !! _).
Qed.

Lemma ask_spec secret files cut idx start_sid end_sid version kind :
  0 ∉ secret -> zlen secret < 256 -> u32_ok idx -> u32_ok start_sid -> u32_ok end_sid -> u32_ok version ->
  (forall b, files idx !! build_dest_path start_sid end_sid version kind = Some b -> zlen b < 2 ^ 64) ->
  ask secret (Some secret) files cut idx start_sid end_sid version kind =
  match files idx !! build_dest_path start_sid end_sid version kind with
  | None => NoAnswer
  | Some b => if (cut <? 9)%nat then NoAnswer else Answer (zlen b) (take (cut - 9) b)
  end.
Proof.
  intros Hz Hlen Hi Hs He Hv Hb. unfold ask. rewrite handle_request by done.
  destruct (files idx !! _) as [b|]; [|by destruct cut as [|[|cut]]]. specialize (Hb b eq_refl). unfold read_reply.
  destruct cut as [|cut]; [done|]. cbn [take]. change (DPV_RESULT_OK :: ?l) with ([DPV_RESULT_OK] ++ l). rewrite read_n_app by done.
  cbn [be_value negb]. change (be_value [DPV_RESULT_OK] =? DPV_RESULT_OK) with true. cbn [negb]. destruct (Nat.ltb_spec (S cut) 9) as [Hc|Hc].
  - unfold read_n. destruct (Z.ltb_spec (zlen (take cut (be_bytes 8 (zlen b) ++ b))) 8) as [|Hl]; [done|]. unfold zlen in Hl. rewrite length_take in Hl. lia.
  - rewrite take_app_ge by (rewrite length_be_bytes; lia). rewrite read_n_app by apply zlen_be_bytes. rewrite be_value_bytes by (pose proof (zlen_nonneg b); lia).
    rewrite length_be_bytes. by replace (cut - 8)%nat with (S cut - 9)%nat by lia.
Qed.

(** A pull that works got every file complete. *)
Definition complete (r : reply) : Prop := exists size sent, r = Answer size sent /\ size <= zlen sent.

Lemma pull_one_complete server kind out ops : pull_one_file server kind out = (ops, true) -> complete (server kind).
Proof.
  unfold pull_one_file. destruct (server kind) as [|size sent]; [done|]. destruct (Z.ltb_spec (zlen sent) size); [done|]. intros _. by exists size, sent.
Qed.

Lemma pull_kinds_complete server s e v ks ops : pull_kinds server s e v ks = (ops, true) -> forall k, k ∈ ks -> complete (server k).
Proof.
  revert ops; induction ks as [|k ks IH]; intros ops; cbn; [by intros _ k ?%elem_of_nil|].
  destruct (pull_one_file server k _) as [ops1 [|]] eqn:H1; [|done]. cbn. destruct (pull_kinds server s e v ks) as [ops2 ok2] eqn:H2. cbn.
  intros [= <- ->] k' [->|Hk]%elem_of_cons; [by eapply pull_one_complete|by eapply IH].
Qed.

Lemma pull_all_complete server s e v d ops : d !! build_dest_path s e v DPV_FILE_METADATA = None ->
  pull_all_files server s e v d = (ops, true) -> forall k, complete (server k).
Proof.
  intros Hd. unfold pull_all_files. change Path.get_lsm_metadata_path with (build_dest_path s e v DPV_FILE_INDEX_METADATA) at 1.
  destruct (pull_one_file server DPV_FILE_INDEX_METADATA _) as [ops0 ok0] eqn:H0. pose proof (quiet_one _ _ _ _ _ _ _ H0 ltac:(done)) as Hq.
  cbn [fst snd negb]. destruct ok0; cbn [fst snd negb]; [|done].
  rewrite bool_decide_false by (change (¬ is_Some (run_fetch d ops0 !! build_dest_path s e v DPV_FILE_METADATA)); rewrite quiet_run, Hd by done; by intros [? ?]).
  destruct (pull_kinds _ _ _ _ kinds) as [ops1 ok1] eqn:H1. cbn [fst snd]. intros [= <- ->] k.
  destruct (decide (k = DPV_FILE_INDEX_METADATA)) as [->|Hk]; [by eapply pull_one_complete|]. eapply pull_kinds_complete; [exact H1|].
  unfold kinds. destruct k; set_solver.
Qed.

(** ** Reading one-chunk files *)

(** Both directories hold the same single chunk. *)
Definition same_chunk (d d' : directory) (path : string) : Prop :=
  is_Some (d !! Path.chunk_path path 0) /\ d' !! Path.chunk_path path 0 = d !! Path.chunk_path path 0 /\
  d !! Path.chunk_path path 1 = None /\ d' !! Path.chunk_path path 1 = None.

Lemma count_one_chunk d path : is_Some (d !! Path.chunk_path path 0) -> d !! Path.chunk_path path 1 = None ->
  Chunk.count_chunks (S (size d)) d path 0 = Ok 1.
Proof.
  intros [b Hb] Hn. assert (Hsz : size d <> 0%nat) by (apply map_size_ne_0_lookup; eauto).
  cbn [Chunk.count_chunks]. rewrite Hb. destruct (size d) as [|n]; [done|]. cbn [Chunk.count_chunks]. change (0 + 1) with 1. by rewrite Hn.
Qed.

Lemma read_same_chunk d d' path want : same_chunk d d' path -> Chunk.read_segment_file d' path want = Chunk.read_segment_file d path want.
Proof.
  intros (Hs & He & Hn & Hn'). unfold Chunk.read_segment_file. rewrite !count_one_chunk by (done || by rewrite He).
  cbn [mbind res_bind]. change (seqZ 0 1) with [0]. cbn. unfold Chunk.chunk_at. by rewrite He.
Qed.

Lemma pulled_no_subversion entries s e v :
  (forall x, x ∈ entries -> Scan.version_of (Scan.subversion_prefix s e v) x = None) -> Scan.find_latest_bitmap_subversion entries s e v = UINT32_MAX.
Proof.
  unfold Scan.find_latest_bitmap_subversion. induction entries as [|x l IH]; [done|]. intros Hn. cbn. rewrite Hn by left. apply IH. intros y Hy.
  apply Hn. by right.
Qed.

Section load_same.
Context (IndexLoadAndSave : option bytes -> IndexType -> bool -> option Z).
Context (s e v : Z).

(** The files of segment [s..e] at version [v], each in one chunk and the bitmap
    never updated, are the same in both directories. *)
Record same_segment (d d' : directory) : Prop := {
  sg_metadata : d' !! Path.GetLSMSegmentMetadataPathWithVersion s e v = d !! Path.GetLSMSegmentMetadataPathWithVersion s e v;
  sg_index : d' !! Path.GetLSMIndexFilePathWithVersion s e v = d !! Path.GetLSMIndexFilePathWithVersion s e v;
  sg_mapping : same_chunk d d' (Path.GetLSMMappingFilePathWithVersion s e v);
  sg_offset : same_chunk d d' (Path.GetLSMOffsetFilePathWithVersion s e v);
  sg_bitmap : same_chunk d d' (Path.GetLSMBitmapFilePathWithVersion s e v);
  sg_sub : Scan.find_latest_bitmap_subversion (readdir d) s e v = UINT32_MAX;
  sg_sub' : Scan.find_latest_bitmap_subversion (readdir d') s e v = UINT32_MAX }.

Lemma load_same d d' segment use_mmap : v <> UINT32_MAX -> same_segment d d' ->
  SegFile.load_and_set_segment IndexLoadAndSave d' segment s e v use_mmap = SegFile.load_and_set_segment IndexLoadAndSave d segment s e v use_mmap.
Proof.
  intros Hv [Hm Hi Hmap Hoff Hbm Hs Hs']. unfold SegFile.load_and_set_segment, SegFile.read_lsm_segment_metadata, SegFile.load_bitmap_file,
    SegFile.load_mapping_file, SegFile.load_offset_file, SegFile.load_index_file, SegFile.bitmap_path, SegFile.resolve_version.
  destruct (Z.eqb_spec v UINT32_MAX) as [|_]; [done|]. destruct (Z.eqb_spec v UINT32_MAX) as [|_]; [done|]. rewrite Hm, Hs, Hs', Hi.
  unfold Path.GetLSMBitmapFilePathWithSubversion. rewrite Z.eqb_refl. by rewrite (read_same_chunk _ _ _ _ Hmap), (read_same_chunk _ _ _ _ Hoff), (read_same_chunk _ _ _ _ Hbm).
Qed.
End load_same.

(** ** The names a directory scan sees *)

Lemma strip_prefix_cancel a p q : strip_prefix (a +:+ p) (a +:+ q) = strip_prefix p q.
Proof. induction a as [|c a IH]; [done|]. rewrite !append_cons. cbn [strip_prefix]. by rewrite Ascii.eqb_refl. Qed.

Section scan_names.
Context (s e v : Z).
Abbreviation dest := (build_dest_path s e v).

Lemma no_subversion_name k r : Scan.version_of (Scan.subversion_prefix s e v) (dest k +:+ r) = None.
Proof.
  unfold Scan.version_of. destruct k; try done. cbn [build_dest_path]. unfold Path.GetLSMBitmapFilePathWithVersion, Path.file_name, Scan.subversion_prefix.
  change ("bitmap_" +:+ ?x) with ("bitmap" +:+ "_" +:+ x). rewrite !append_assoc. rewrite !strip_prefix_cancel. done.
Qed.

Lemma version_name k r : u32_ok v -> r = "" \/ r = ".tmp" ->
  Scan.version_of (Scan.version_prefix s e) (dest k +:+ r) = None \/ Scan.version_of (Scan.version_prefix s e) (dest k +:+ r) = Some v.
Proof.
  intros Hv Hr. assert (Hst : stops r) by (by destruct Hr as [-> | ->]).
  destruct (decide (k = DPV_FILE_METADATA)) as [->|Hk]; [|left; destruct Hr as [-> | ->], k; done]. right. cbn [build_dest_path]. unfold Scan.version_of. rewrite metadata_path_split, append_assoc, strip_prefix_app.
  change (Some (atoi_u32 (print_u32 v +:+ r)) = Some v). by rewrite atoi_print.
Qed.

Lemma metadata_name r : u32_ok v -> stops r -> Scan.version_of (Scan.version_prefix s e) (dest DPV_FILE_METADATA +:+ r) = Some v.
Proof.
  intros Hv Hr. cbn [build_dest_path]. unfold Scan.version_of. rewrite metadata_path_split, append_assoc, strip_prefix_app.
  change (Some (atoi_u32 (print_u32 v +:+ r)) = Some v). by rewrite atoi_print.
Qed.

(** The second chunk of a data file has another name. *)
Lemma second_chunk_elsewhere p :
  p ∈ [Path.GetLSMMappingFilePathWithVersion s e v; Path.GetLSMOffsetFilePathWithVersion s e v; Path.GetLSMBitmapFilePathWithVersion s e v] ->
  elsewhere s e v (Path.chunk_path p 1).
Proof.
  assert (Hne : forall q r : string, (q +:+ ".1") <> (q +:+ (".0" +:+ r))).
  { intros q r Heq%(f_equal (strip_prefix q)). by rewrite !strip_prefix_app in Heq. }
  intros [->|[->|[->|[]%elem_of_nil]%elem_of_cons]%elem_of_cons]%elem_of_cons k; (split; [|unfold tmp_of]);
    destruct k; cbn [build_dest_path]; try discriminate; rewrite ?append_assoc; first [exact (Hne _ "")|exact (Hne _ ".tmp")].
Qed.

(** Every name a pull leaves is an old one or one of its own. *)
Lemma pull_names server d ops ok n x : pull_all_files server s e v d = (ops, ok) -> x ∈ readdir (run_fetch d (take n ops)) ->
  x ∈ readdir d \/ exists k r, x = (dest k +:+ r) /\ (r = "" \/ r = ".tmp").
Proof.
  intros Hp Hx. destruct (decide (Exists (fun k => x = dest k \/ x = tmp_of (dest k))
    [DPV_FILE_INDEX; DPV_FILE_MAPPING; DPV_FILE_OFFSET; DPV_FILE_BITMAP; DPV_FILE_METADATA; DPV_FILE_INDEX_METADATA])) as [Hk|Hk].
  - right. apply Exists_exists in Hk as (k & _ & [->| ->]); exists k; [exists ""|exists ".tmp"]; (split; [|auto]); [by rewrite append_nil|done].
  - left. apply elem_of_readdir. apply elem_of_readdir in Hx. rewrite run_fetch_other in Hx; [done|]. intros o Ho.
    eapply pull_all_elsewhere; [exact Hp| |by eapply elem_of_take in Ho as (? & ? & _); eapply list_elem_of_lookup_2].
    intros k. rewrite Exists_exists in Hk. split; intros ->; apply Hk; exists k; (split; [destruct k; set_solver|auto]).
Qed.
End scan_names.

(** ** Examples *)
Module Fetched.
Definition secret : bytes := [115; 51].
Definition primary : directory := run_ops example_dir (match SegFile.flush_segment_to_disk 4096 example_dir example_prep with Ok ops => ops | Error _ => [] end)
  ∪ {[ Path.get_lsm_metadata_path := [9] ]}.
Definition files (idx : Z) : directory := if idx =? 16384 then primary else ∅.
(** The network loses nothing, or cuts the answer with the mapping. *)
Definition fine (kind : DpvFileKind) : nat := 1000.
Definition cut_mapping (kind : DpvFileKind) : nat := if decide (kind = DPV_FILE_MAPPING) then 12 else 1000.
Definition server (cut : DpvFileKind -> nat) (kind : DpvFileKind) : reply := ask secret (Some secret) files (cut kind) 16384 3 4 2 kind.
Definition standby : directory := {[ Path.GetLSMSegmentMetadataPathWithVersion 3 4 1 := SegFile.metadata_bytes example_prep ]}.
End Fetched.

(** ** Properties *)

(** A segment becomes visible with the last step of its pull.  Whatever the
    primary answers and wherever the fetcher stops (a crash, a failed transfer),
    the segment's metadata file does not exist before the last operation of a
    successful pull; after it, all six files hold exactly what the primary
    announced; and no file of another segment or version is ever touched. *)
Theorem pull_commits_last server start_sid end_sid version d ops ok :
  d !! build_dest_path start_sid end_sid version DPV_FILE_METADATA = None ->
  pull_all_files server start_sid end_sid version d = (ops, ok) ->
  (forall n, (n < length ops)%nat \/ ok = false -> run_fetch d (take n ops) !! build_dest_path start_sid end_sid version DPV_FILE_METADATA = None) /\
  (ok = true -> forall kind, run_fetch d ops !! build_dest_path start_sid end_sid version kind = Some (content server kind)) /\
  (forall p n, elsewhere start_sid end_sid version p -> run_fetch d (take n ops) !! p = d !! p).
Proof.
  intros Hd Hp. pose proof (pull_all_shape _ _ _ _ _ _ _ Hd Hp) as Hs. split; [|split].
  - intros n Hn. rewrite quiet_run; [done|]. destruct ok; [|by apply quiet_take]. destruct Hn as [Hn|]; [|done].
    destruct Hs as (ops' & Hq & -> & _). rewrite length_app in Hn. cbn in Hn. rewrite take_app_le by lia. by apply quiet_take.
  - intros ->. by apply pull_all_runs.
  - intros p n He. apply run_fetch_other. intros o Ho. eapply pull_all_elsewhere; [exact Hp|done|].
    by eapply elem_of_take in Ho as (? & ? & _); eapply list_elem_of_lookup_2.
Qed.

Lemma pull_commits_last_witness :
  (pull_all_files (Fetched.server Fetched.fine) 3 4 2 Fetched.standby).2 = true /\
  (forall n, (n < 12)%nat -> run_fetch Fetched.standby (take n (pull_all_files (Fetched.server Fetched.fine) 3 4 2 Fetched.standby).1)
     !! Path.GetLSMSegmentMetadataPathWithVersion 3 4 2 = None).
Proof.
  split; [vm_compute; reflexivity|]. intros n Hn.
  destruct (pull_commits_last (Fetched.server Fetched.fine) 3 4 2 Fetched.standby
    (pull_all_files (Fetched.server Fetched.fine) 3 4 2 Fetched.standby).1 true) as [H _]; [vm_compute; reflexivity..|].
  apply H. left. replace (length _) with 12%nat by (vm_compute; reflexivity). exact Hn.
Defined.

(** C17: A pulled segment is the primary's.  Client and server share a secret
    (below 256 bytes); whatever part of each answer the network delivers: if the
    pull reports success, the standby's six files are the primary's byte for
    byte, and loading the segment gives exactly what the primary's own load
    gives (each file in one chunk, the bitmap not updated since); otherwise the
    segment's metadata file is not there. *)
Theorem pulled_segment_loads_as_on_primary IndexLoadAndSave secret files cut idx start_sid end_sid version d ops ok :
  0 ∉ secret -> zlen secret < 256 -> u32_ok idx -> u32_ok start_sid -> u32_ok end_sid -> u32_ok version -> version <> UINT32_MAX ->
  (forall p b, files idx !! p = Some b -> zlen b < 2 ^ 64) ->
  (forall p, p ∈ [Path.GetLSMMappingFilePathWithVersion start_sid end_sid version; Path.GetLSMOffsetFilePathWithVersion start_sid end_sid version;
             Path.GetLSMBitmapFilePathWithVersion start_sid end_sid version] ->
     files idx !! Path.chunk_path p 1 = None /\ d !! Path.chunk_path p 1 = None) ->
  (forall x, x ∈ readdir (files idx) \/ x ∈ readdir d -> Scan.version_of (Scan.subversion_prefix start_sid end_sid version) x = None) ->
  d !! Path.GetLSMSegmentMetadataPathWithVersion start_sid end_sid version = None ->
  pull_all_files (fun kind => ask secret (Some secret) files (cut kind) idx start_sid end_sid version kind) start_sid end_sid version d = (ops, ok) ->
  if ok then
    (forall kind, run_fetch d ops !! build_dest_path start_sid end_sid version kind = files idx !! build_dest_path start_sid end_sid version kind) /\
    forall segment use_mmap,
      SegFile.load_and_set_segment IndexLoadAndSave (run_fetch d ops) segment start_sid end_sid version use_mmap =
      SegFile.load_and_set_segment IndexLoadAndSave (files idx) segment start_sid end_sid version use_mmap
  else run_fetch d ops !! Path.GetLSMSegmentMetadataPathWithVersion start_sid end_sid version = None.
Proof.
  intros Hz Hlen Hi Hs He Hv Hmax Hsize Hchunks Hsub Hd Hp. set (server := fun kind => _) in Hp.
  pose proof (pull_all_shape _ _ _ _ _ _ _ Hd Hp) as Hshape. destruct ok; [|change (run_fetch d ops !! build_dest_path start_sid end_sid version DPV_FILE_METADATA = None); by rewrite quiet_run].
  assert (Hfiles : forall kind, run_fetch d ops !! build_dest_path start_sid end_sid version kind = files idx !! build_dest_path start_sid end_sid version kind /\
                      is_Some (files idx !! build_dest_path start_sid end_sid version kind)).
  { intros kind. rewrite (pull_all_runs _ _ _ _ _ _ Hd Hp kind). destruct (pull_all_complete _ _ _ _ _ _ Hd Hp kind) as (size & sent & Ha & Hc).
    unfold content. rewrite Ha. unfold server in Ha. rewrite ask_spec in Ha by (done || intros; by eapply Hsize).
    destruct (files idx !! _) as [b|] eqn:Hb; [|done]. destruct (_ <? 9)%nat; [done|]. injection Ha as <- <-. split; [|done]. f_equal.
    unfold zlen in *. rewrite Nat2Z.id. rewrite length_take in Hc. rewrite take_take, take_ge by lia. done. }
  split; [intros kind; apply Hfiles|]. intros segment use_mmap. apply load_same; [done|].
  assert (Hone : forall kind p, build_dest_path start_sid end_sid version kind = Path.chunk_path p 0 ->
      p ∈ [Path.GetLSMMappingFilePathWithVersion start_sid end_sid version; Path.GetLSMOffsetFilePathWithVersion start_sid end_sid version;
           Path.GetLSMBitmapFilePathWithVersion start_sid end_sid version] -> same_chunk (files idx) (run_fetch d ops) p).
  { intros kind p Hk Hin. destruct (Hfiles kind) as [Hf1 Hf2]. destruct (Hchunks p Hin) as [Hc1 Hc2]. rewrite Hk in *. split_and!; try done.
    rewrite run_fetch_other; [done|]. intros o Ho. eapply pull_all_elsewhere; [exact Hp|by apply second_chunk_elsewhere|exact Ho]. }
  split; [apply (Hfiles DPV_FILE_METADATA)|apply (Hfiles DPV_FILE_INDEX)|apply (Hone DPV_FILE_MAPPING); [done|left]|
    apply (Hone DPV_FILE_OFFSET); [done|right; left]|apply (Hone DPV_FILE_BITMAP); [done|right; right; left]|apply pulled_no_subversion; auto|].
  apply pulled_no_subversion. intros x Hx. rewrite <-(firstn_all ops) in Hx.
  destruct (pull_names _ _ _ _ _ _ _ _ _ Hp Hx) as [|(k & r & -> & _)]; [auto|by apply no_subversion_name].
Qed.

Lemma pulled_segment_loads_as_on_primary_witness :
  (pull_all_files (Fetched.server Fetched.fine) 3 4 2 Fetched.standby).2 = true /\
  (pull_all_files (Fetched.server Fetched.cut_mapping) 3 4 2 Fetched.standby).2 = false /\
  forall load segment,
    SegFile.load_and_set_segment load (run_fetch Fetched.standby (pull_all_files (Fetched.server Fetched.fine) 3 4 2 Fetched.standby).1) segment 3 4 2 false =
    SegFile.load_and_set_segment load Fetched.primary segment 3 4 2 false.
Proof.
  split; [vm_compute; reflexivity|]. split; [vm_compute; reflexivity|]. intros load segment.
  destruct (pulled_segment_loads_as_on_primary load Fetched.secret Fetched.files Fetched.fine 16384 3 4 2 Fetched.standby
    (pull_all_files (Fetched.server Fetched.fine) 3 4 2 Fetched.standby).1 true) as [_ H].
  - apply (bool_decide_unpack _). vm_compute. exact I.
  - reflexivity.
  - unfold u32_ok. lia.
  - unfold u32_ok. lia.
  - unfold u32_ok. lia.
  - unfold u32_ok. lia.
  - discriminate.
  - intros p b Hb. refine (map_Forall_lookup_1 (fun _ b => zlen b < 2 ^ 64) Fetched.primary p b _ Hb).
    apply (bool_decide_unpack _). vm_compute. exact I.
  - apply Forall_forall. apply (bool_decide_unpack _). vm_compute. exact I.
  - intros x Hx. apply elem_of_app in Hx. revert x Hx. apply Forall_forall. apply (bool_decide_unpack _). vm_compute. exact I.
  - vm_compute. reflexivity.
  - vm_compute. reflexivity.
  - exact (H segment false).
Defined.

(** An interrupted pull hides the segment it replaces.  The temporary file of
    the metadata is [metadata_<start>_<end>_v<version>.tmp], a name every
    directory scan takes for version [version] (the program's own writers use a
    name the scans skip).  When the fetcher stops before its last rename, the
    newest version of the range is the one that is not there: its metadata cannot
    be read, and loading it leaves the slot as it was. *)
Theorem interrupted_pull_hides_segment server start_sid end_sid version d ops :
  u32_ok start_sid -> u32_ok end_sid -> u32_ok version -> version <> UINT32_MAX ->
  d !! Path.GetLSMSegmentMetadataPathWithVersion start_sid end_sid version = None ->
  Scan.find_latest_segment_version (readdir d) start_sid end_sid < version ->
  pull_all_files server start_sid end_sid version d = (ops, true) ->
  let d' := run_fetch d (take (pred (length ops)) ops) in
  Scan.find_latest_segment_version (readdir d') start_sid end_sid = version /\
  SegFile.read_lsm_segment_metadata d' start_sid end_sid UINT32_MAX = None /\
  forall IndexLoadAndSave segment use_mmap,
    SegFile.load_and_set_segment IndexLoadAndSave d' segment start_sid end_sid UINT32_MAX use_mmap = Ok segment.
Proof.
  intros Hs He Hv Hmax Hd Hold Hp d'. destruct (pull_all_shape _ _ _ _ _ _ _ Hd Hp) as (ops' & Hq & Hops & Htmp).
  assert (Hd' : d' = run_fetch d ops') by (unfold d'; rewrite Hops, length_app, take_app_length'; [done|cbn; lia]).
  assert (Hnone : d' !! Path.GetLSMSegmentMetadataPathWithVersion start_sid end_sid version = None) by (rewrite Hd'; by apply (eq_trans (quiet_run _ _ _ d ops' Hq))).
  assert (Hlatest : Scan.find_latest_segment_version (readdir d') start_sid end_sid = version).
  { destruct (find_latest_segment_version_max (readdir d') start_sid end_sid) as (Hub & Hnn & Hattained). apply Z.le_antisymm.
    - destruct Hattained as [->|(x & Hx & Hxv)]; [apply Hv|].
      destruct (pull_names _ _ _ _ _ _ _ _ _ Hp Hx) as [Hx'|(k & r & -> & Hr)].
      + destruct (find_latest_segment_version_max (readdir d) start_sid end_sid) as (Hub' & _). specialize (Hub' _ _ Hx' Hxv). lia.
      + destruct (version_name start_sid end_sid version k r Hv Hr) as [Hk|Hk]; rewrite Hk in Hxv; [done|]. injection Hxv as ->. lia.
    - apply Hub with (e := tmp_of (build_dest_path start_sid end_sid version DPV_FILE_METADATA)); [|by apply metadata_name].
      apply elem_of_readdir. rewrite Hd', Htmp. done. }
  assert (Hread : forall w, w = UINT32_MAX \/ w = version -> SegFile.read_lsm_segment_metadata d' start_sid end_sid w = None).
  { intros w Hw. unfold SegFile.read_lsm_segment_metadata, SegFile.resolve_version. rewrite Hlatest.
    destruct Hw as [-> | ->]; [rewrite Z.eqb_refl|destruct (Z.eqb_spec version UINT32_MAX); [done|]]; by rewrite Hnone. }
  split; [exact Hlatest|]. split; [apply Hread; by left|]. intros load segment use_mmap. unfold SegFile.load_and_set_segment.
  unfold SegFile.resolve_version at 1. rewrite Z.eqb_refl, Hlatest, Hread by auto. done.
Qed.

Lemma interrupted_pull_hides_segment_witness :
  Scan.find_latest_segment_version (readdir Fetched.standby) 3 4 = 1 /\
  SegFile.read_lsm_segment_metadata Fetched.standby 3 4 UINT32_MAX = Some (3, 4, 3, HNSW) /\
  SegFile.read_lsm_segment_metadata (run_fetch Fetched.standby (take 11 (pull_all_files (Fetched.server Fetched.fine) 3 4 2 Fetched.standby).1)) 3 4 UINT32_MAX = None.
Proof.
  split; [vm_compute; reflexivity|]. split; [vm_compute; reflexivity|].
  refine (proj1 (proj2 (interrupted_pull_hides_segment (Fetched.server Fetched.fine) 3 4 2 Fetched.standby
    (pull_all_files (Fetched.server Fetched.fine) 3 4 2 Fetched.standby).1 _ _ _ _ _ _ _))); first [by (unfold u32_ok; lia)|discriminate|vm_compute; reflexivity].
Defined.
