(* ===== verification/FetchQueue.v ===== *)
(** The standby's queue of segments to fetch (pending_fetch_queue.c) and the
    workers that serve it (the main loop of segment_fetcher.c): one file per
    entry, named after its key, whose header carries the status.

    A claim holds the entry's lock while it reads and rewrites the header, so it
    is one step; so is every other rewrite of a header.  Which entries a
    directory listing returns is arbitrary.  Whether a pull succeeds is
    arbitrary too (SegmentFetch.v says what a pull does). *)

From S2P Require Import Prelude FileNames.

#[local] Open Scope string_scope.
#[local] Open Scope list_scope.
#[local] Open Scope Z_scope.

Inductive DpvFetchStatus := DPV_FETCH_PENDING | DPV_FETCH_FETCHING | DPV_FETCH_DONE | DPV_FETCH_FAILED.
#[global] Instance DpvFetchStatus_eq_dec : EqDecision DpvFetchStatus.
Proof. solve_decision. Defined.

(** [DpvFetchKind] is 1 (created) or 2 (replaced). *)
Record DpvFetchKey := mkKey { k_indexRelId : Z; k_start_sid : Z; k_end_sid : Z; k_version : Z; k_kind : Z }.
#[global] Instance DpvFetchKey_eq_dec : EqDecision DpvFetchKey.
Proof. solve_decision. Defined.

(** An entry file: [DpvFetchEntryHeader] and the trailer. *)
Record fetch_entry := mkEntry { e_key : DpvFetchKey; e_source_lsn : Z; e_status : DpvFetchStatus; e_trailer : list Z }.
#[global] Instance eta_fetch_entry : Settable fetch_entry := fun e =>
  mkEntry (e_key e) (e_source_lsn e) (e_status e) (e_trailer e).

(** ** File names *)

Definition hex_digit (d : Z) : Ascii.ascii := Ascii.ascii_of_N (Z.to_N (if d <? 10 then 48 + d else 87 + d)).

(** [%0<w>u] and [%0<w>x] of a number that needs at most [w] digits. *)
Fixpoint print_pad (base : Z) (w : nat) (z : Z) (acc : string) : string :=
  match w with O => acc | S w => print_pad base w (z / base) (String (hex_digit (z mod base)) acc) end.

Definition key_to_filename (k : DpvFetchKey) : string :=
  print_pad 16 8 (k_indexRelId k) ("_" +:+ print_pad 10 10 (k_start_sid k) ("_" +:+ print_pad 10 10 (k_end_sid k)
    ("_" +:+ print_pad 10 10 (k_version k) ("_" +:+ print_u32 (k_kind k) +:+ ".entry")))).
#[global] Arguments key_to_filename : simpl never.
Definition key_ok (k : DpvFetchKey) : Prop :=
  u32_ok (k_indexRelId k) /\ u32_ok (k_start_sid k) /\ u32_ok (k_end_sid k) /\ u32_ok (k_version k) /\ (k_kind k = 1 \/ k_kind k = 2).
Definition enqueue_tmp (fname : string) : string := "." +:+ fname +:+ ".tmp".

Fixpoint ends_with (suffix s : string) : bool :=
  if String.eqb s suffix then true else match s with EmptyString => false | String _ s => ends_with suffix s end.
Definition starts_with_dot (s : string) : bool := match strip_prefix "." s with Some _ => true | None => false end.

(** ** The queue directory: complete entries, and temporary files *)

Record queue_dir := mkQueue { q_entries : gmap string fetch_entry; q_tmps : gset string }.
#[global] Instance eta_queue_dir : Settable queue_dir := fun q => mkQueue (q_entries q) (q_tmps q).

(** [dpv_queue_enqueue], in three steps: the check, the temporary file, the
    rename (the directory is synced after it). *)
Definition already_queued (q : queue_dir) (e : fetch_entry) : bool := bool_decide (is_Some (q_entries q !! key_to_filename (e_key e))).
Definition write_tmp (q : queue_dir) (e : fetch_entry) : queue_dir :=
  q <| q_tmps ::= fun t => {[ enqueue_tmp (key_to_filename (e_key e)) ]} ∪ t |>.
Definition rename_tmp (q : queue_dir) (e : fetch_entry) : queue_dir :=
  q <| q_entries ::= <[key_to_filename (e_key e) := e]> |> <| q_tmps ::= fun t => t ∖ {[ enqueue_tmp (key_to_filename (e_key e)) ]} |>.
Definition dpv_queue_enqueue (q : queue_dir) (e : fetch_entry) : bool * queue_dir :=
  if already_queued q e then (false, q) else (true, rename_tmp (write_tmp q e) e).

(** The body of [dpv_queue_pop_pending]'s loop on one directory entry. *)
Definition claim_entry (locked : string -> bool) (q : queue_dir) (name : string) : option (fetch_entry * queue_dir) :=
  if starts_with_dot name || negb (ends_with ".entry" name) || locked name then None
  else e ← q_entries q !! name;
       if bool_decide (e_status e = DPV_FETCH_PENDING)
       then let e := e <| e_status := DPV_FETCH_FETCHING |> in Some (e, q <| q_entries ::= <[name := e]> |>)
       else None.

Fixpoint dpv_queue_pop_pending (locked : string -> bool) (q : queue_dir) (listing : list string) : option (string * fetch_entry * queue_dir) :=
  match listing with
  | [] => None
  | name :: listing =>
      match claim_entry locked q name with
      | Some (e, q) => Some (name, e, q)
      | None => dpv_queue_pop_pending locked q listing
      end
  end.

Definition dpv_queue_mark (q : queue_dir) (name : string) (new_status : DpvFetchStatus) : queue_dir :=
  if bool_decide (new_status = DPV_FETCH_DONE) then q <| q_entries ::= delete name |>
  else match q_entries q !! name with
       | Some e => q <| q_entries ::= <[name := e <| e_status := new_status |>]> |>
       | None => q
       end.

(** [dpv_queue_recover_on_startup], one directory entry. *)
Definition recover_one (q : queue_dir) (name : string) : queue_dir :=
  if ends_with ".tmp" name then q <| q_tmps ::= fun t => t ∖ {[ name ]} |>
  else if negb (ends_with ".entry" name) then q
  else match q_entries q !! name with
       | Some e => if bool_decide (e_status e = DPV_FETCH_FETCHING)
                   then q <| q_entries ::= <[name := e <| e_status := DPV_FETCH_PENDING |>]> |> else q
       | None => q
       end.
Definition dpv_queue_recover_on_startup (q : queue_dir) (listing : list string) : queue_dir := foldl recover_one q listing.

(** ** Redo and the fetchers *)

(** Where the startup process (the only producer) and a fetcher are. *)
Inductive producer := NotEnqueuing | TmpWritten (e : fetch_entry) | Renamed (e : fetch_entry).
Inductive fetcher := Off | Sweeping (names : list string) | Waiting | Fetching (name : string).

(** Ghost state: the entries whose [dpv_queue_enqueue] has returned true, and
    the names of those whose pull has succeeded. *)
Record fetch_state := mkFetch { f_queue : queue_dir; f_producer : producer; f_workers : list fetcher;
  f_enqueued : list fetch_entry; f_pulled : list string }.
#[global] Instance eta_fetch_state : Settable fetch_state := fun s =>
  mkFetch (f_queue s) (f_producer s) (f_workers s) (f_enqueued s) (f_pulled s).

Definition at_worker (s : fetch_state) (w : nat) (f : fetcher) : Prop := f_workers s !! w = Some f.
Definition now (w : nat) (f : fetcher) (s : fetch_state) : fetch_state := s <| f_workers ::= <[w := f]> |>.

Inductive fetch_step : fetch_state -> fetch_state -> Prop :=
  (* redo of SEGMENT_CREATED and SEGMENT_REPLACED *)
  | redo_tmp s e : f_producer s = NotEnqueuing -> e_status e = DPV_FETCH_PENDING -> key_ok (e_key e) -> already_queued (f_queue s) e = false ->
      fetch_step s (s <| f_queue ::= fun q => write_tmp q e |> <| f_producer := TmpWritten e |>)
  | redo_rename s e : f_producer s = TmpWritten e ->
      fetch_step s (s <| f_queue ::= fun q => rename_tmp q e |> <| f_producer := Renamed e |>)
  | redo_returns s e : f_producer s = Renamed e ->
      fetch_step s (s <| f_producer := NotEnqueuing |> <| f_enqueued ::= cons e |>)
  (* segment_fetcher_main *)
  | starts_first s listing : at_worker s 0 Off -> fetch_step s (now 0 (Sweeping listing) s)
  | starts s w : (0 < w)%nat -> at_worker s w Off -> fetch_step s (now w Waiting s)
  | sweeps s w name names : at_worker s w (Sweeping (name :: names)) ->
      fetch_step s (now w (Sweeping names) (s <| f_queue ::= fun q => recover_one q name |>))
  | swept s w : at_worker s w (Sweeping []) -> fetch_step s (now w Waiting s)
  | pops s w locked listing name e q : at_worker s w Waiting -> dpv_queue_pop_pending locked (f_queue s) listing = Some (name, e, q) ->
      fetch_step s (now w (Fetching name) (s <| f_queue := q |>))
  | pull_fails s w name : at_worker s w (Fetching name) ->
      fetch_step s (now w Waiting (s <| f_queue ::= fun q => dpv_queue_mark q name DPV_FETCH_FAILED |>))
  | pull_succeeds s w name : at_worker s w (Fetching name) ->
      fetch_step s (now w Waiting (s <| f_queue ::= fun q => dpv_queue_mark q name DPV_FETCH_DONE |> <| f_pulled ::= cons name |>))
  (* a worker dies; the server dies: a rename not yet synced may be lost *)
  | worker_dies s w f : at_worker s w f -> fetch_step s (now w Off s)
  | server_dies s (kept : bool) :
      fetch_step s (s <| f_workers ::= fmap (fun _ => Off) |> <| f_producer := NotEnqueuing |>
        <| f_queue ::= fun q => match f_producer s with
                                | Renamed e => if kept then q else q <| q_entries ::= delete (key_to_filename (e_key e)) |>
                                | _ => q
                                end |>).

(** ** Names *)

Lemma hex_digit_inj a b : 0 <= a < 16 -> 0 <= b < 16 -> hex_digit a = hex_digit b -> a = b.
Proof.
  intros Ha Hb He%(f_equal Ascii.N_of_ascii). unfold hex_digit in He.
  destruct (Z.ltb_spec a 10), (Z.ltb_spec b 10); rewrite !Ascii.N_ascii_embedding in He by lia; lia.
Qed.

Lemma print_pad_inj base w : 0 < base <= 16 -> forall z z' acc acc', 0 <= z < base ^ Z.of_nat w -> 0 <= z' < base ^ Z.of_nat w ->
  print_pad base w z acc = print_pad base w z' acc' -> z = z' /\ acc = acc'.
Proof.
  intros Hb. induction w as [|w IH]; intros z z' acc acc' Hz Hz'; cbn [print_pad]; [cbn in Hz, Hz'; intros ->; split; [lia|done]|].
  rewrite Nat2Z.inj_succ, Z.pow_succ_r in Hz, Hz' by lia.
  assert (Hdiv : forall x, 0 <= x < base * base ^ Z.of_nat w -> 0 <= x / base < base ^ Z.of_nat w).
  { intros x Hx. split; [apply Z.div_pos; lia|apply Z.div_lt_upper_bound; lia]. }
  intros He. destruct (IH _ _ _ _ (Hdiv z Hz) (Hdiv z' Hz') He) as [Hq Ha]. injection Ha as Hd ->. split; [|done].
  apply hex_digit_inj in Hd; [|pose proof (Z.mod_pos_bound z base); pose proof (Z.mod_pos_bound z' base); lia..].
  rewrite (Z.div_mod z base), (Z.div_mod z' base) by lia. by rewrite Hq, Hd.
Qed.

Lemma underscore_inj s s' : ("_" +:+ s) = ("_" +:+ s') -> s = s'.
Proof. intros [= He]. exact He. Qed.

(** One file per key: the renames deduplicate. *)
Lemma key_to_filename_inj k k' : key_ok k -> key_ok k' -> key_to_filename k = key_to_filename k' -> k = k'.
Proof.
  destruct k as [o a b v n], k' as [o' a' b' v' n']. unfold key_ok, key_to_filename; cbn [k_indexRelId k_start_sid k_end_sid k_version k_kind]. intros (Ho & Ha & Hb & Hv & Hn) (Ho' & Ha' & Hb' & Hv' & Hn') He.
  assert (H16 : forall z, u32_ok z -> 0 <= z < 16 ^ Z.of_nat 8) by (intros z Hz; exact Hz).
  assert (H10 : forall z, u32_ok z -> 0 <= z < 10 ^ Z.of_nat 10) by (intros z Hz; change (10 ^ Z.of_nat 10) with 10000000000; unfold u32_ok in Hz; lia).
  apply print_pad_inj in He as [-> He]; [|lia|by auto..]. apply underscore_inj in He.
  apply print_pad_inj in He as [-> He]; [|lia|by auto..]. apply underscore_inj in He.
  apply print_pad_inj in He as [-> He]; [|lia|by auto..]. apply underscore_inj in He.
  apply print_pad_inj in He as [-> He]; [|lia|by auto..]. apply underscore_inj in He. f_equal.
  destruct Hn as [-> | ->], Hn' as [-> | ->]; done.
Qed.

(** ** What the operations do to an entry *)

Definition same_fetch (e e' : fetch_entry) : Prop := e_key e' = e_key e /\ e_source_lsn e' = e_source_lsn e /\ e_trailer e' = e_trailer e.

(** Nothing but statuses changes. *)
Definition only_statuses (q q' : queue_dir) : Prop :=
  forall name, match q_entries q !! name with
               | None => q_entries q' !! name = None
               | Some e => exists e', q_entries q' !! name = Some e' /\ same_fetch e e'
               end.

Lemma only_statuses_refl q : only_statuses q q.
Proof. intros name. destruct (q_entries q !! name) as [e|]; [exists e; by split_and!|done]. Qed.

Lemma only_statuses_set q name e e' :
  q_entries q !! name = Some e -> same_fetch e e' -> only_statuses q (q <| q_entries ::= <[name := e']> |>).
Proof.
  intros He Hs x. unfold update; cbn. destruct (decide (name = x)) as [<-|Hne].
  - rewrite He, lookup_insert_eq. by exists e'.
  - rewrite lookup_insert_ne by done. apply (only_statuses_refl q x).
Qed.

Lemma claim_entry_inv locked q name e q' : claim_entry locked q name = Some (e, q') ->
  exists e0, q_entries q !! name = Some e0 /\ e_status e0 = DPV_FETCH_PENDING /\ e = e0 <| e_status := DPV_FETCH_FETCHING |> /\
    q' = q <| q_entries ::= <[name := e]> |> /\ ends_with ".entry" name = true.
Proof.
  unfold claim_entry. destruct (starts_with_dot name); [done|]. destruct (ends_with ".entry" name) eqn:Hend; [|done]. destruct (locked name); [done|].
  cbn. destruct (q_entries q !! name) as [e0|] eqn:He; [|done]. cbn. case_bool_decide as Hs; [|done]. intros [= <- <-]. by exists e0.
Qed.

Lemma pop_inv locked q listing name e q' : dpv_queue_pop_pending locked q listing = Some (name, e, q') ->
  name ∈ listing /\ claim_entry locked q name = Some (e, q').
Proof.
  induction listing as [|x l IH]; [done|]. cbn. destruct (claim_entry locked q x) as [[e1 q1]|] eqn:Hc.
  - intros [= <- <- <-]. split; [left|done].
  - intros Hp. destruct (IH Hp). split; [by right|done].
Qed.

Lemma claim_only_statuses locked q name e q' : claim_entry locked q name = Some (e, q') -> only_statuses q q'.
Proof. intros (e0 & He & _ & -> & -> & _)%claim_entry_inv. by eapply only_statuses_set. Qed.

Lemma recover_only_statuses q name : only_statuses q (recover_one q name).
Proof.
  unfold recover_one. destruct (ends_with ".tmp" name); [intros x; apply (only_statuses_refl q x)|].
  destruct (ends_with ".entry" name); [|apply only_statuses_refl]. cbn. destruct (q_entries q !! name) as [e|] eqn:He; [|apply only_statuses_refl].
  case_bool_decide; [by eapply only_statuses_set|apply only_statuses_refl].
Qed.

Lemma mark_only_statuses q name st : st <> DPV_FETCH_DONE -> only_statuses q (dpv_queue_mark q name st).
Proof.
  intros Hst. unfold dpv_queue_mark. rewrite bool_decide_false by done. destruct (q_entries q !! name) as [e|] eqn:He; [by eapply only_statuses_set|].
  apply only_statuses_refl.
Qed.

Lemma only_statuses_None q q' name : only_statuses q q' -> q_entries q !! name = None -> q_entries q' !! name = None.
Proof. intros Ho Hn. specialize (Ho name). by rewrite Hn in Ho. Qed.

Lemma only_statuses_Some q q' name e : only_statuses q q' -> q_entries q !! name = Some e -> exists e', q_entries q' !! name = Some e' /\ same_fetch e e'.
Proof. intros Ho He. specialize (Ho name). by rewrite He in Ho. Qed.

Lemma only_statuses_back q q' name e' : only_statuses q q' -> q_entries q' !! name = Some e' -> exists e, q_entries q !! name = Some e /\ same_fetch e e'.
Proof.
  intros Ho He. specialize (Ho name). destruct (q_entries q !! name) as [e|]; [|congruence]. destruct Ho as (e1 & He1 & Hs). exists e. split; [done|].
  by simplify_eq.
Qed.

(** ** The invariant *)

Definition fname (e : fetch_entry) : string := key_to_filename (e_key e).
#[global] Arguments fname : simpl never.

(** Where an entry that was asked for is. *)
Definition kept (s : fetch_state) (e : fetch_entry) : Prop :=
  (exists e', q_entries (f_queue s) !! fname e = Some e' /\ same_fetch e e') \/ fname e ∈ f_pulled s.

Record queue_ok (s : fetch_state) : Prop := {
  qi_names : forall name e, q_entries (f_queue s) !! name = Some e -> name = fname e /\ key_ok (e_key e);
  qi_enqueued : forall e, e ∈ f_enqueued s -> kept s e;
  qi_tmp : forall e, f_producer s = TmpWritten e -> q_entries (f_queue s) !! fname e = None /\ key_ok (e_key e) /\ e_status e = DPV_FETCH_PENDING;
  qi_renamed : forall e, f_producer s = Renamed e -> kept s e;
  qi_again : forall e e', e ∈ f_enqueued s -> f_producer s = TmpWritten e' \/ f_producer s = Renamed e' -> fname e = fname e' -> fname e ∈ f_pulled s }.

Lemma same_fetch_trans e1 e2 e3 : same_fetch e1 e2 -> same_fetch e2 e3 -> same_fetch e1 e3.
Proof. unfold same_fetch. intuition congruence. Qed.

Lemma same_fetch_name e e' : same_fetch e e' -> fname e' = fname e /\ key_ok (e_key e') = key_ok (e_key e).
Proof. intros (Hk & _). unfold fname. by rewrite Hk. Qed.

(** Steps that only change statuses, or drop the entry of a finished pull. *)
Lemma kept_statuses s s' e : only_statuses (f_queue s) (f_queue s') -> f_pulled s' = f_pulled s -> kept s e -> kept s' e.
Proof.
  intros Ho Hp [(e' & He & Hs)|]; [left|right; congruence]. destruct (only_statuses_Some _ _ _ _ Ho He) as (e2 & He2 & Hs2). exists e2.
  split; [done|by eapply same_fetch_trans].
Qed.

Lemma queue_ok_statuses s s' : only_statuses (f_queue s) (f_queue s') -> f_pulled s' = f_pulled s -> f_producer s' = f_producer s ->
  f_enqueued s' = f_enqueued s -> queue_ok s -> queue_ok s'.
Proof.
  intros Ho Hp Hpr Hen [H1 H2 H3 H4 H5]. split; rewrite ?Hp, ?Hpr, ?Hen.
  - intros name e He. destruct (only_statuses_back _ _ _ _ Ho He) as (e0 & He0 & Hs). destruct (same_fetch_name _ _ Hs) as [-> ->]. by apply H1.
  - intros e He. eapply kept_statuses; eauto.
  - intros e He. destruct (H3 e He) as [Hn Hk]. split; [by eapply only_statuses_None|done].
  - intros e He. eapply kept_statuses; eauto.
  - exact H5.
Qed.

(** An entry that disappears has been pulled. *)
Lemma queue_ok_done s name w :
  queue_ok s -> queue_ok (now w Waiting (s <| f_queue ::= fun q => dpv_queue_mark q name DPV_FETCH_DONE |> <| f_pulled ::= cons name |>)).
Proof.
  intros [H1 H2 H3 H4 H5]. set (s' := now _ _ _).
  assert (Hq : q_entries (f_queue s') = delete name (q_entries (f_queue s))) by reflexivity.
  assert (Hk : forall e, kept s e -> kept s' e).
  { intros e [(e' & He & Hs)|He]; [|right; cbn; by right]. destruct (decide (fname e = name)) as [<-|Hne]; [right; cbn; left|].
    left. exists e'. split; [|done]. by rewrite Hq, lookup_delete_ne. }
  assert (Hl : forall x e, q_entries (f_queue s') !! x = Some e -> q_entries (f_queue s) !! x = Some e).
  { intros x e. rewrite Hq, lookup_delete_Some. by intros [_ ?]. }
  split.
  - intros x e He. by apply H1, Hl.
  - intros e He. by apply Hk, H2.
  - intros e He. destruct (H3 e He) as [Hn Hr]. split; [|done]. destruct (q_entries (f_queue s') !! fname e) as [e'|] eqn:Hx; [|done].
    apply Hl in Hx. congruence.
  - intros e He. by apply Hk, H4.
  - intros e e' He Hp Hn. cbn. right. by eapply H5.
Qed.

Lemma fetch_step_ok s s' : fetch_step s s' -> queue_ok s -> queue_ok s'.
Proof.
  intros Hstep Hok. pose proof Hok as [H1 H2 H3 H4 H5].
  destruct Hstep as [s e Hpr Hst Hkey Hq|s e Hpr|s e Hpr|s listing Hw|s w Hlt Hw|s w name names Hw|s w Hw|s w locked listing name e q Hw Hpop|s w name Hw|s w name Hw|s w f Hw|s b].
  - (* redo_tmp *) unfold already_queued in Hq. apply bool_decide_eq_false in Hq. apply eq_None_not_Some in Hq. split.
    + exact H1.
    + exact H2.
    + cbn. intros e' [= <-]. done.
    + done.
    + cbn. intros e0 e' He [[= <-]|]; [|done]. intros Hn. destruct (H2 e0 He) as [(e1 & He1 & _)|]; [|done]. rewrite Hn in He1. unfold fname in He1. congruence.
  - (* redo_rename *) destruct (H3 e Hpr) as (Hn & Hkey & Hst).
    assert (Hk : forall e0, kept s e0 -> kept (s <| f_queue ::= fun q => rename_tmp q e |> <| f_producer := Renamed e |>) e0).
    { intros e0 [(e1 & He1 & Hs)|]; [left|by right]. exists e1. split; [|done]. cbn. rewrite lookup_insert_ne; [done|]. intros Heq. unfold fname in *. congruence. }
    split.
    + intros name e0. cbn. rewrite lookup_insert_Some. intros [[<- <-]|[_ He0]]; [done|by apply H1].
    + intros e0 He0. by apply Hk, H2.
    + done.
    + cbn. intros e0 [= <-]. left. exists e. split; [cbn; apply lookup_insert_eq|by split_and!].
    + cbn. intros e0 e' He [|[= <-]]; [done|]. apply (H5 e0 e He). by left.
  - (* redo_returns *) split; [exact H1| |done|done|].
    + cbn. intros e0 [->|He0]%elem_of_cons; [by apply H4|by apply H2].
    + cbn. by intros e0 e' _ [|].
  - by apply (queue_ok_statuses s); [apply only_statuses_refl|..].
  - by apply (queue_ok_statuses s); [apply only_statuses_refl|..].
  - by apply (queue_ok_statuses s); [apply recover_only_statuses|..].
  - by apply (queue_ok_statuses s); [apply only_statuses_refl|..].
  - apply pop_inv in Hpop as [_ Hc]. by apply (queue_ok_statuses s); [by eapply claim_only_statuses|..].
  - by apply (queue_ok_statuses s); [by apply mark_only_statuses|..].
  - by apply queue_ok_done.
  - by apply (queue_ok_statuses s); [apply only_statuses_refl|..].
  - (* server_dies *)
    destruct (f_producer s) as [|e|e] eqn:Hpr; [by split; cbn; rewrite ?Hpr; try done; intros ? ? ? [|]| |].
    { split; cbn; rewrite ?Hpr; try done. by intros ? ? ? [|]. }
    set (s' := s <| f_workers ::= _ |> <| f_producer := _ |> <| f_queue ::= _ |>).
    assert (Hl : forall x e0, q_entries (f_queue s') !! x = Some e0 -> q_entries (f_queue s) !! x = Some e0).
    { intros x e0. cbn. destruct b; [done|]. cbn. rewrite lookup_delete_Some. by intros [_ ?]. }
    split; [intros x e0 He0; by apply H1, Hl| |done|done|by intros ? ? ? [|]].
    intros e0 He0. cbn in He0. destruct (decide (fname e0 = fname e)) as [Heq|Hne]; [right; cbn; eapply H5; [done|by right|done]|].
    destruct (H2 e0 He0) as [(e1 & He1 & Hs)|]; [|by right]. left. exists e1. split; [|done]. cbn. destruct b; [done|]. cbn.
    rewrite lookup_delete_ne; [done|]. intros Hx. by apply Hne.
Qed.

Lemma fetch_steps_ok s s' : rtc fetch_step s s' -> queue_ok s -> queue_ok s'.
Proof. induction 1; [done|]. eauto using fetch_step_ok. Qed.

(** A queue directory found on disk, every process about to start. *)
Definition boot (entries : gmap string fetch_entry) (tmps : gset string) (workers : nat) : fetch_state :=
  mkFetch (mkQueue entries tmps) NotEnqueuing (replicate workers Off) [] [].
Definition well_named (entries : gmap string fetch_entry) : Prop :=
  forall name e, entries !! name = Some e -> name = fname e /\ key_ok (e_key e).

Lemma boot_ok entries tmps workers : well_named entries -> queue_ok (boot entries tmps workers).
Proof. intros Hn. split; [exact Hn|by intros e ?%elem_of_nil|done|done|by intros e e' ?%elem_of_nil]. Qed.

(** ** Who fetches what *)

Lemma at_now s w f w' g : at_worker (now w f s) w' g -> w' = w /\ g = f \/ w' <> w /\ at_worker s w' g.
Proof.
  unfold at_worker, now; cbn. destruct (decide (w' = w)) as [->|Hne]; [|rewrite list_lookup_insert_ne by done; by right].
  intros Hl. left. split; [done|]. destruct (decide (w < length (f_workers s))%nat) as [Hlt|Hge].
  - rewrite list_lookup_insert_eq in Hl by done. by injection Hl.
  - rewrite list_insert_ge in Hl by lia. apply lookup_lt_Some in Hl. lia.
Qed.

(** No worker fetches while one sweeps. *)
Definition alone (s : fetch_state) : Prop :=
  (exists w names, at_worker s w (Sweeping names)) -> forall w name, ~ at_worker s w (Fetching name).
Definition orderly (s s' : fetch_state) : Prop := fetch_step s s' /\ alone s /\ alone s'.

Record one_each (s : fetch_state) : Prop := {
  oe_claimed : forall w name, at_worker s w (Fetching name) -> exists e, q_entries (f_queue s) !! name = Some e /\ e_status e = DPV_FETCH_FETCHING;
  oe_one : forall w w' name, at_worker s w (Fetching name) -> at_worker s w' (Fetching name) -> w = w' }.

(** A worker that does not fetch, and the others as before. *)
Lemma one_each_now s w f (q : queue_dir -> queue_dir) g :
  (forall name, f <> Fetching name) -> at_worker s w g ->
  (forall w' name, w' <> w -> at_worker s w' (Fetching name) -> q_entries (q (f_queue s)) !! name = q_entries (f_queue s) !! name) ->
  one_each s -> one_each (now w f (s <| f_queue ::= q |>)).
Proof.
  intros Hf Hw Hq [H1 H2]. split.
  - intros w' name [[-> Hg]|[Hne Ha]]%at_now; [by destruct (Hf name)|]. destruct (H1 w' name Ha) as (e & He & Hst). exists e. split; [|done].
    change (q_entries (q (f_queue s)) !! name = Some e). by rewrite (Hq w' name).
  - intros w1 w2 name [[-> Hg]|[_ Ha]]%at_now [[-> Hg']|[_ Hb]]%at_now; [done|by destruct (Hf name)|by destruct (Hf name)|by apply (H2 _ _ name)].
Qed.

Lemma one_each_same s w f g : (forall name, f <> Fetching name) -> at_worker s w g -> one_each s -> one_each (now w f s).
Proof. intros Hf Hw Ho. apply (one_each_now s w f (fun q => q) g); auto. Qed.

Lemma orderly_ok s s' : orderly s s' -> queue_ok s -> one_each s -> one_each s'.
Proof.
  intros (Hstep & Halone & _) [Hn Hq Htmp Hren Hag] Ho. pose proof Ho as [H1 H2].
  destruct Hstep as [s e Hpr Hst Hkey Hqd|s e Hpr|s e Hpr|s listing Hw|s w Hlt Hw|s w name names Hw|s w Hw|s w locked listing name e q Hw Hpop|s w name Hw|s w name Hw|s w f Hw|s b].
  - split; [exact H1|exact H2].
  - split; [|exact H2]. intros w name Hw. destruct (H1 w name Hw) as (e0 & He0 & Hs). exists e0. split; [|done]. cbn.
    destruct (Htmp e Hpr) as [Hnone _]. rewrite lookup_insert_ne; [done|]. intros Hx. unfold fname in Hnone. congruence.
  - split; [exact H1|exact H2].
  - by eapply one_each_same.
  - by eapply one_each_same.
  - eapply one_each_now; [done|exact Hw| |done]. intros w' name' _ Hf. destruct (Halone ltac:(by exists w, (name :: names)) w' name' Hf).
  - by eapply one_each_same.
  - apply pop_inv in Hpop as [_ Hc]. destruct (claim_entry_inv _ _ _ _ _ Hc) as (e0 & He0 & Hp & -> & -> & _). split.
    + intros w' x [[-> [= <-]]|[Hne Ha]]%at_now; cbn.
      * rewrite lookup_insert_eq. by eexists.
      * destruct (H1 w' x Ha) as (e1 & He1 & Hs1). rewrite lookup_insert_ne; [by exists e1|]. intros <-. congruence.
    + intros w1 w2 x [[-> Hg]|[Hn1 Ha]]%at_now [[-> Hg']|[Hn2 Hb]]%at_now; [done| | |by apply (H2 _ _ x)]; simplify_eq.
      * destruct (H1 _ _ Hb) as (e1 & He1 & Hs1). congruence.
      * destruct (H1 _ _ Ha) as (e1 & He1 & Hs1). congruence.
  - eapply one_each_now; [done|exact Hw| |done]. intros w' x Hne Ha. unfold dpv_queue_mark. rewrite bool_decide_false by done.
    destruct (q_entries (f_queue s) !! name); [|done]. cbn. rewrite lookup_insert_ne; [done|]. intros <-. by apply Hne, (H2 _ _ name).
  - assert (Hd : one_each (now w Waiting (s <| f_queue ::= fun q => dpv_queue_mark q name DPV_FETCH_DONE |>))); [|by destruct Hd; split].
    eapply one_each_now; [done|exact Hw| |done]. intros w' x Hne Ha. cbn. change (delete name (q_entries (f_queue s)) !! x = q_entries (f_queue s) !! x).
    rewrite lookup_delete_ne; [done|]. intros <-. by apply Hne, (H2 _ _ name).
  - by eapply one_each_same.
  - split; intros ? ?; unfold at_worker; cbn; rewrite list_lookup_fmap; by destruct (f_workers s !! _).
Qed.

(** An entry nobody works on and redo is not about to write. *)
Definition left_alone (s : fetch_state) (name : string) : Prop :=
  (forall w, ~ at_worker s w (Fetching name)) /\ forall e, f_producer s = TmpWritten e \/ f_producer s = Renamed e -> fname e <> name.

Lemma failed_stays s s' name e : fetch_step s s' -> left_alone s name ->
  q_entries (f_queue s) !! name = Some e -> e_status e = DPV_FETCH_FAILED ->
  left_alone s' name /\ q_entries (f_queue s') !! name = Some e.
Proof.
  intros Hstep [Hw0 Hp0] He Hst.
  assert (Hnow : forall w f g (q : queue_dir -> queue_dir) pulled, at_worker s w g -> f <> Fetching name -> q_entries (q (f_queue s)) !! name = Some e ->
    left_alone (now w f (s <| f_queue ::= q |> <| f_pulled := pulled |>)) name /\
    q_entries (f_queue (now w f (s <| f_queue ::= q |> <| f_pulled := pulled |>))) !! name = Some e).
  { intros w f g q pulled Hw Hf Hq. split; [split; [|exact Hp0]|exact Hq]. intros w' [[-> Hg]|[_ Ha]]%at_now; [by destruct Hf|by apply (Hw0 w')]. }
  destruct Hstep as [s e1 Hpr Hs1 Hkey Hqd|s e1 Hpr|s e1 Hpr|s listing Hw|s w Hlt Hw|s w x names Hw|s w Hw|s w locked listing x e1 q Hw Hpop|s w x Hw|s w x Hw|s w f Hw|s b].
  - split; [split; [exact Hw0|]|exact He]. cbn. intros e2 [[= <-]|]; [|done]. intros Hx. apply bool_decide_eq_false in Hqd. apply Hqd. fold (fname e1). rewrite Hx. by eexists.
  - split; [split; [exact Hw0|]|]; cbn.
    + intros e2 [|[= <-]]; [done|]. apply Hp0. by left.
    + rewrite lookup_insert_ne; [done|]. apply (Hp0 e1). by left.
  - split; [split; [exact Hw0|by intros e2 [|]]|exact He].
  - by apply (Hnow 0%nat _ Off (fun q => q) (f_pulled s)).
  - by apply (Hnow w _ Off (fun q => q) (f_pulled s)).
  - apply (Hnow w _ _ _ (f_pulled s) Hw); [done|]. unfold recover_one. destruct (ends_with ".tmp" x); [exact He|]. destruct (ends_with ".entry" x); [|exact He]. cbn.
    destruct (q_entries (f_queue s) !! x) as [e1|] eqn:Hx; [|exact He]. case_bool_decide as Hs; [|exact He]. cbn. rewrite lookup_insert_ne; [done|]. intros ->. congruence.
  - by apply (Hnow w _ _ (fun q => q) (f_pulled s) Hw).
  - apply pop_inv in Hpop as [_ Hc]. destruct (claim_entry_inv _ _ _ _ _ Hc) as (e0 & He0 & Hp & -> & -> & _).
    assert (Hne : x <> name) by (intros ->; congruence).
    apply (Hnow w _ _ (fun _ => _) (f_pulled s) Hw); [congruence|]. cbn. by rewrite lookup_insert_ne.
  - assert (Hne : x <> name) by (intros ->; by apply (Hw0 w)). apply (Hnow w _ _ _ (f_pulled s) Hw); [done|]. unfold dpv_queue_mark. rewrite bool_decide_false by done.
    destruct (q_entries (f_queue s) !! x); [|exact He]. cbn. by rewrite lookup_insert_ne.
  - assert (Hne : x <> name) by (intros ->; by apply (Hw0 w)). apply (Hnow w _ _ _ (x :: f_pulled s) Hw); [done|].
    change (delete x (q_entries (f_queue s)) !! name = Some e). by rewrite lookup_delete_ne.
  - by apply (Hnow w _ _ (fun q => q) (f_pulled s) Hw).
  - split; [split; [|by intros ? [|]]|].
    + intros w. unfold at_worker; cbn. rewrite list_lookup_fmap. by destruct (f_workers s !! _).
    + cbn. destruct (f_producer s) as [|e1|e1] eqn:Hpr; [exact He..|]. destruct b; [exact He|]. cbn. rewrite lookup_delete_ne; [done|]. apply (Hp0 e1). by right.
Qed.

(** ** What a listing shows of an entry *)

Fixpoint last_char (s : string) : option Ascii.ascii :=
  match s with EmptyString => None | String c s => match last_char s with Some d => Some d | None => Some c end end.

Lemma last_char_app a s : s <> "" -> last_char (a +:+ s) = last_char s.
Proof.
  intros Hs. induction a as [|c a IH]; [done|]. rewrite append_cons. cbn [last_char]. rewrite IH. destruct s as [|d s]; [done|]. cbn. by destruct (last_char s).
Qed.

Lemma ends_with_app a s : ends_with s (a +:+ s) = true.
Proof.
  induction a as [|c a IH]; [destruct s as [|d s]; [done|]; rewrite append_empty; cbn [ends_with]; by rewrite String.eqb_refl|].
  rewrite append_cons. cbn [ends_with]. rewrite IH. by destruct (String.eqb _ _).
Qed.

Lemma ends_with_last suffix s : suffix <> "" -> ends_with suffix s = true -> last_char s = last_char suffix.
Proof.
  intros Hs. induction s as [|c s IH]; cbn [ends_with].
  - destruct (String.eqb_spec "" suffix) as [<-|]; done.
  - destruct (String.eqb_spec (String c s) suffix) as [->|]; [done|]. intros He. specialize (IH He). cbn [last_char]. rewrite IH.
    destruct suffix as [|d suffix]; [done|]. cbn [last_char]. by destruct (last_char suffix).
Qed.

Lemma print_pad_app base w : forall z acc s, (print_pad base w z acc +:+ s) = print_pad base w z (acc +:+ s).
Proof. induction w as [|w IH]; intros z acc s; [done|]. cbn [print_pad]. by rewrite IH, append_cons. Qed.

Lemma entry_name k : exists pre, key_to_filename k = (pre +:+ ".entry").
Proof.
  exists (print_pad 16 8 (k_indexRelId k) ("_" +:+ print_pad 10 10 (k_start_sid k) ("_" +:+ print_pad 10 10 (k_end_sid k)
    ("_" +:+ print_pad 10 10 (k_version k) ("_" +:+ print_u32 (k_kind k)))))).
  unfold key_to_filename. by repeat (rewrite print_pad_app, append_assoc).
Qed.

Lemma name_is_entry k : key_ok k -> ends_with ".entry" (key_to_filename k) = true /\ ends_with ".tmp" (key_to_filename k) = false /\
  starts_with_dot (key_to_filename k) = false.
Proof.
  intros Hk. destruct (entry_name k) as [pre Hpre]. split; [rewrite Hpre; apply ends_with_app|]. split.
  - destruct (ends_with ".tmp" (key_to_filename k)) eqn:He; [|done]. apply ends_with_last in He; [|done]. rewrite Hpre, last_char_app in He by done. done.
  - unfold starts_with_dot, key_to_filename. set (rest := "_" +:+ _). cbn [print_pad]. set (d := (_ mod 16)). cbn [strip_prefix].
    case_match eqn:Heq; [|done]. destruct (Ascii.eqb_spec (Ascii.Ascii false true true true false true false false) (hex_digit d)) as [Hd|]; [|done]. exfalso.
    assert (0 <= d < 16) by (apply Z.mod_pos_bound; lia). apply (f_equal Ascii.N_of_ascii) in Hd. unfold hex_digit in Hd.
    destruct (Z.ltb_spec d 10); rewrite Ascii.N_ascii_embedding in Hd by lia; change (Ascii.N_of_ascii _) with 46%N in Hd; lia.
Qed.

(** *** The sweep *)

Lemma recover_lookup q name x : (forall y e, q_entries q !! y = Some e -> y = fname e /\ key_ok (e_key e)) ->
  q_entries (recover_one q name) !! x =
  (fun e => if bool_decide (name = x /\ e_status e = DPV_FETCH_FETCHING) then e <| e_status := DPV_FETCH_PENDING |> else e) <$> q_entries q !! x.
Proof.
  intros Hn. assert (Hsame : name <> x -> (fun e => if bool_decide (name = x /\ e_status e = DPV_FETCH_FETCHING) then e <| e_status := DPV_FETCH_PENDING |> else e) <$> q_entries q !! x = q_entries q !! x).
  { intros Hne. destruct (q_entries q !! x); [|done]. cbn. by rewrite bool_decide_false by naive_solver. }
  unfold recover_one. destruct (decide (name = x)) as [->|Hne].
  - destruct (q_entries q !! x) as [e|] eqn:He; [|destruct (ends_with ".tmp" x), (ends_with ".entry" x); cbn; by rewrite He].
    destruct (Hn x e He) as [-> Hk]. destruct (name_is_entry _ Hk) as (H1 & H2 & _). unfold fname in *. rewrite H1, H2. cbn.
    destruct (decide (e_status e = DPV_FETCH_FETCHING)) as [Hs|Hs].
    + rewrite !bool_decide_true by done. cbn. by rewrite lookup_insert_eq.
    + rewrite !bool_decide_false by (done || by intros [_ ?]). exact He.
  - rewrite Hsame by done. destruct (ends_with ".tmp" name); [done|]. destruct (ends_with ".entry" name); [|done]. cbn.
    destruct (q_entries q !! name) as [e|] eqn:He; [|done]. case_bool_decide; [|done]. cbn. by rewrite lookup_insert_ne.
Qed.

Lemma recover_all q listing : (forall y e, q_entries q !! y = Some e -> y = fname e /\ key_ok (e_key e)) -> forall x,
  q_entries (dpv_queue_recover_on_startup q listing) !! x =
  (fun e => if bool_decide (x ∈ listing /\ e_status e = DPV_FETCH_FETCHING) then e <| e_status := DPV_FETCH_PENDING |> else e) <$> q_entries q !! x.
Proof.
  revert q; induction listing as [|name l IH]; intros q Hn x.
  - cbn. destruct (q_entries q !! x) as [e|]; [|done]. cbn. rewrite bool_decide_false; [done|]. by intros [?%elem_of_nil _].
  - cbn. unfold dpv_queue_recover_on_startup in IH. rewrite IH.
    + rewrite recover_lookup by done. destruct (q_entries q !! x) as [e|]; [|done]. cbn. f_equal.
      destruct (decide (e_status e = DPV_FETCH_FETCHING)) as [Hs|Hs].
      * destruct (decide (name = x)) as [->|Hne].
        -- rewrite (bool_decide_true (x = x /\ _)) by done. rewrite bool_decide_false by (by intros [_ ?]). rewrite bool_decide_true; [done|]. split; [left|done].
        -- rewrite (bool_decide_false (name = x /\ _)) by (by intros [? _]).
           rewrite (bool_decide_ext (x ∈ l /\ e_status e = DPV_FETCH_FETCHING) (x ∈ name :: l /\ e_status e = DPV_FETCH_FETCHING)); [done|].
           rewrite elem_of_cons. split; [intros [? ?]; split; [by right|done]|intros [[->|?] ?]; done].
      * rewrite (bool_decide_false (name = x /\ _)) by (by intros [_ ?]). by rewrite !bool_decide_false by (by intros [_ ?]).
    + intros y e. rewrite recover_lookup by done. destruct (q_entries q !! y) as [e0|] eqn:He0; [|done]. cbn. intros [= <-].
      destruct (Hn y e0 He0) as [-> Hk]. by case_bool_decide.
Qed.

Lemma pop_finds q listing : (forall y e, q_entries q !! y = Some e -> y = fname e /\ key_ok (e_key e)) ->
  (exists x e, x ∈ listing /\ q_entries q !! x = Some e /\ e_status e = DPV_FETCH_PENDING) ->
  is_Some (dpv_queue_pop_pending (fun _ => false) q listing).
Proof.
  intros Hn (x & e & Hx & He & Hs). induction listing as [|y l IH]; [by apply elem_of_nil in Hx|]. cbn.
  destruct (claim_entry (fun _ => false) q y) as [[e1 q1]|] eqn:Hc; [done|]. apply elem_of_cons in Hx as [->|Hx]; [|by apply IH].
  exfalso. destruct (Hn y e He) as [-> Hk]. destruct (name_is_entry _ Hk) as (H1 & _ & H3). unfold claim_entry, fname in *. rewrite H1, H3, He in Hc. cbn in Hc.
  by rewrite bool_decide_true in Hc.
Qed.

(** ** A run *)
Module Race.
Definition key : DpvFetchKey := mkKey 16384 3 4 2 2.
Definition pending : fetch_entry := mkEntry key 100 DPV_FETCH_PENDING [7; 7].
Definition claimed : fetch_entry := pending <| e_status := DPV_FETCH_FETCHING |>.
Definition name : string := key_to_filename key.

(** Redo queues the entry; both workers start; the second one takes the entry
    before the first one's sweep reaches it; the first one takes it again. *)
Definition s0 : fetch_state := boot ∅ ∅ 2.
Definition with_entry (e : fetch_entry) (workers : list fetcher) (pulled : list string) : fetch_state :=
  mkFetch (mkQueue {[ name := e ]} ∅) NotEnqueuing workers [pending] pulled.
Definition both : fetch_state := with_entry claimed [Fetching name; Fetching name] [].

Lemma step_eq s s' s'' : fetch_step s s' -> s' = s'' -> fetch_step s s''.
Proof. by intros Hs <-. Qed.

Lemma queued : rtc fetch_step s0 (with_entry pending [Off; Off] []).
Proof.
  eapply rtc_l; [apply (redo_tmp s0 pending); [done|done|unfold key_ok, u32_ok; cbn; lia|reflexivity]|].
  eapply rtc_l; [by apply (redo_rename _ pending)|]. eapply rtc_l; [by apply (redo_returns _ pending)|].
  refine (eq_rect _ (fun s => rtc fetch_step s _) (rtc_refl _ _) _ _). vm_compute. reflexivity.
Qed.

Lemma raced : rtc fetch_step s0 both.
Proof.
  etrans; [apply queued|].
  eapply rtc_l; [eapply step_eq; [by apply (starts _ 1); [lia|]|exact (eq_refl (with_entry pending [Off; Waiting] []))]|].
  eapply rtc_l; [eapply step_eq; [by apply (starts_first _ [name])|exact (eq_refl (with_entry pending [Sweeping [name]; Waiting] []))]|].
  eapply rtc_l; [eapply step_eq; [apply (pops _ 1 (fun _ => false) [name] name claimed (mkQueue {[ name := claimed ]} ∅)); vm_compute; reflexivity
    |exact (eq_refl (with_entry claimed [Sweeping [name]; Fetching name] []))]|].
  eapply rtc_l; [eapply step_eq; [by apply (sweeps _ 0 name [])|vm_compute; exact (eq_refl (with_entry pending [Sweeping []; Fetching name] []))]|].
  eapply rtc_l; [eapply step_eq; [by apply (swept _ 0)|exact (eq_refl (with_entry pending [Waiting; Fetching name] []))]|].
  eapply rtc_l; [eapply step_eq; [apply (pops _ 0 (fun _ => false) [name] name claimed (mkQueue {[ name := claimed ]} ∅)); vm_compute; reflexivity
    |exact (eq_refl both)]|]. apply rtc_refl.
Qed.

End Race.

(** ** Properties *)

(** C20: No fetch is lost.  Whatever the startup process, the fetchers, their
    crashes and the server's crashes do: an entry whose enqueue has returned is
    still in the queue with its key and trailer (only its status changed), or
    its pull has succeeded; and an enqueue that is turned down as a duplicate
    found an entry of the very same key. *)
Theorem no_fetch_is_lost entries tmps workers s :
  well_named entries -> rtc fetch_step (boot entries tmps workers) s ->
  (forall e, e ∈ f_enqueued s ->
     (exists e', q_entries (f_queue s) !! key_to_filename (e_key e) = Some e' /\ same_fetch e e') \/ key_to_filename (e_key e) ∈ f_pulled s) /\
  (forall e, key_ok (e_key e) -> (dpv_queue_enqueue (f_queue s) e).1 = false ->
     exists e', q_entries (f_queue s) !! key_to_filename (e_key e) = Some e' /\ e_key e' = e_key e).
Proof.
  intros Hn Hr. pose proof (fetch_steps_ok _ _ Hr (boot_ok _ tmps workers Hn)) as [H1 H2 _ _ _]. split; [exact H2|].
  intros e Hk. unfold dpv_queue_enqueue, already_queued. case_bool_decide as He; [|done]. intros _. destruct He as [e' He']. exists e'. split; [done|].
  destruct (H1 _ _ He') as [Hname Hk']. unfold fname in Hname. symmetry. by apply key_to_filename_inj.
Qed.

Lemma no_fetch_is_lost_witness :
  (exists e', q_entries (f_queue Race.both) !! Race.name = Some e' /\ same_fetch Race.pending e') \/ Race.name ∈ f_pulled Race.both.
Proof.
  refine (proj1 (no_fetch_is_lost ∅ ∅ 2 Race.both _ Race.raced) Race.pending _); [|left].
  intros name e He. by rewrite lookup_empty in He.
Defined.

(** Fetches are exclusive as long as no worker sweeps while another one
    fetches: no two workers ever fetch the same entry, and the entry of a fetch
    under way is in the queue, marked as being fetched. *)
Theorem fetches_are_exclusive entries tmps workers s :
  well_named entries -> rtc orderly (boot entries tmps workers) s ->
  (forall w w' name, at_worker s w (Fetching name) -> at_worker s w' (Fetching name) -> w = w') /\
  (forall w name, at_worker s w (Fetching name) -> exists e, q_entries (f_queue s) !! name = Some e /\ e_status e = DPV_FETCH_FETCHING).
Proof.
  intros Hn Hr. assert (Hinv : queue_ok s /\ one_each s) by
    (assert (H0 : queue_ok (boot entries tmps workers) /\ one_each (boot entries tmps workers)) by
       (split; [by apply boot_ok|]; split; intros w; unfold at_worker; cbn; [intros name [[=] _]%lookup_replicate_1|intros w' name [[=] _]%lookup_replicate_1]);
     revert H0; clear Hn; induction Hr as [|s1 s2 s3 Hs _ IH]; [done|]; intros [Hq Ho]; apply IH; split; [by eapply fetch_step_ok; [apply Hs|]|by eapply orderly_ok]).
  destruct Hinv as [_ [H1 H2]]. split; [intros w w' name; apply H2|exact H1].
Qed.

Lemma fetches_are_exclusive_witness :
  orderly (boot {[ Race.name := Race.pending ]} ∅ 2) (now 1 Waiting (boot {[ Race.name := Race.pending ]} ∅ 2)) /\
  forall w w' name, at_worker (now 1 Waiting (boot {[ Race.name := Race.pending ]} ∅ 2)) w (Fetching name) ->
    at_worker (now 1 Waiting (boot {[ Race.name := Race.pending ]} ∅ 2)) w' (Fetching name) -> w = w'.
Proof.
  assert (Hstep : orderly (boot {[ Race.name := Race.pending ]} ∅ 2) (now 1 Waiting (boot {[ Race.name := Race.pending ]} ∅ 2))).
  { split; [by apply (starts _ 1); [lia|]|]. split; intros _ [|[|w]] name; by vm_compute. }
  split; [exact Hstep|]. refine (proj1 (fetches_are_exclusive {[ Race.name := Race.pending ]} ∅ 2 _ _ (rtc_l _ _ _ _ Hstep (rtc_refl _ _)))).
  intros name e [<- <-]%lookup_singleton_Some. split; [reflexivity|]. unfold key_ok, u32_ok. cbn. lia.
Defined.

(** The sweep takes entries away from running fetches.  Only worker 0 sweeps,
    but it starts together with the others: an entry a peer has already claimed
    is set back to pending, claimed again, and pulled by two workers at once,
    into the same temporary files. *)
Theorem sweep_gives_entry_to_two_workers :
  rtc fetch_step (boot ∅ ∅ 2) Race.both /\
  at_worker Race.both 0 (Fetching Race.name) /\ at_worker Race.both 1 (Fetching Race.name).
Proof. split; [apply Race.raced|done]. Qed.

(** A failed pull is never tried again.  Once an entry is marked failed (and
    its worker has gone on), no worker, restart, sweep or redo of the same
    record ever changes or fetches it, and enqueueing its key again is turned
    down as a duplicate: the segment stays missing on the standby. *)
Theorem failed_fetch_is_final s s' e :
  q_entries (f_queue s) !! key_to_filename (e_key e) = Some e -> e_status e = DPV_FETCH_FAILED ->
  left_alone s (key_to_filename (e_key e)) -> rtc fetch_step s s' ->
  q_entries (f_queue s') !! key_to_filename (e_key e) = Some e /\
  (forall w, ~ at_worker s' w (Fetching (key_to_filename (e_key e)))) /\
  (forall e', e_key e' = e_key e -> dpv_queue_enqueue (f_queue s') e' = (false, f_queue s')) /\
  (forall locked listing e' q, dpv_queue_pop_pending locked (f_queue s') listing <> Some (key_to_filename (e_key e), e', q)).
Proof.
  intros He Hst Hal Hr. assert (Hend : left_alone s' (key_to_filename (e_key e)) /\ q_entries (f_queue s') !! key_to_filename (e_key e) = Some e).
  { induction Hr as [|s1 s2 s3 Hs _ IH]; [done|]. destruct (failed_stays _ _ _ _ Hs Hal He Hst) as [H1 H2]. by apply IH. }
  destruct Hend as [[Hw _] He']. split; [done|]. split; [done|]. split.
  - intros e' Hk. unfold dpv_queue_enqueue, already_queued. rewrite Hk, He'. by rewrite bool_decide_true.
  - intros locked listing e' q [_ Hc]%pop_inv. destruct (claim_entry_inv _ _ _ _ _ Hc) as (e0 & He0 & Hp & _). congruence.
Qed.

Lemma failed_fetch_is_final_witness :
  let s := boot {[ Race.name := Race.pending <| e_status := DPV_FETCH_FAILED |> ]} ∅ 1 in
  let s' := now 0 Waiting (s <| f_workers := [Sweeping []] |>) in
  rtc fetch_step s s' /\ dpv_queue_enqueue (f_queue s') Race.pending = (false, f_queue s').
Proof.
  cbv zeta. set (s := boot _ _ _). set (s' := now _ _ _).
  assert (Hr : rtc fetch_step s s').
  { eapply rtc_l; [eapply Race.step_eq; [by apply (starts_first _ [])|exact (eq_refl (s <| f_workers := [Sweeping []] |>))]|].
    eapply rtc_l; [by apply (swept _ 0)|]. apply rtc_refl. }
  split; [exact Hr|].
  refine (proj1 (proj2 (proj2 (failed_fetch_is_final s s' (Race.pending <| e_status := DPV_FETCH_FAILED |>) _ _ _ Hr))) Race.pending _); [vm_compute; reflexivity|reflexivity| |reflexivity].
  split; [intros [|w]; by vm_compute|]. intros e [H|H]; discriminate H.
Defined.

(** A restart takes up what a crash left.  The sweep over a listing of all
    entries sets exactly those being fetched back to pending and changes nothing
    else; no entry is left marked as being fetched, every entry asked for and not
    yet pulled is still there, and as long as one is pending the next pop returns
    an entry (no other worker holding locks). *)
Theorem restart_requeues_orphans entries tmps workers s listing :
  well_named entries -> rtc fetch_step (boot entries tmps workers) s ->
  (forall name, is_Some (q_entries (f_queue s) !! name) -> name ∈ listing) ->
  let q := dpv_queue_recover_on_startup (f_queue s) listing in
  (forall name, q_entries q !! name =
     (fun e => if bool_decide (e_status e = DPV_FETCH_FETCHING) then e <| e_status := DPV_FETCH_PENDING |> else e) <$> q_entries (f_queue s) !! name) /\
  (forall e, e ∈ f_enqueued s -> key_to_filename (e_key e) ∈ f_pulled s \/
     exists e', q_entries q !! key_to_filename (e_key e) = Some e' /\ same_fetch e e' /\ e_status e' <> DPV_FETCH_FETCHING) /\
  ((exists name e, q_entries q !! name = Some e /\ e_status e = DPV_FETCH_PENDING) -> is_Some (dpv_queue_pop_pending (fun _ => false) q listing)).
Proof.
  intros Hn Hr Hall q. pose proof (fetch_steps_ok _ _ Hr (boot_ok _ tmps workers Hn)) as [H1 H2 _ _ _].
  assert (Hq : forall name, q_entries q !! name =
     (fun e => if bool_decide (e_status e = DPV_FETCH_FETCHING) then e <| e_status := DPV_FETCH_PENDING |> else e) <$> q_entries (f_queue s) !! name).
  { intros name. unfold q. rewrite recover_all by exact H1. destruct (q_entries (f_queue s) !! name) as [e|] eqn:He; [|done]. cbn. f_equal.
    rewrite (bool_decide_ext (name ∈ listing /\ e_status e = DPV_FETCH_FETCHING) (e_status e = DPV_FETCH_FETCHING)); [done|].
    split; [by intros [_ ?]|]. intros Hs. split; [apply Hall; by eexists|done]. }
  split; [exact Hq|]. split.
  - intros e He. destruct (H2 e He) as [(e' & He' & Hs)|]; [right|by left]. unfold fname in He'. rewrite Hq, He'. cbn. case_bool_decide as Hst; eexists; (split; [done|]).
    + split; [exact Hs|done].
    + split; [exact Hs|done].
  - intros (name & e & He & Hst). assert (Hnames : forall y e0, q_entries q !! y = Some e0 -> y = fname e0 /\ key_ok (e_key e0)).
    { intros y e0. rewrite Hq. destruct (q_entries (f_queue s) !! y) as [e1|] eqn:He1; [|done]. cbn. intros [= <-]. destruct (H1 _ _ He1) as [-> Hk]. by case_bool_decide. }
    apply pop_finds; [done|]. exists name, e. split; [|done]. apply Hall. rewrite Hq in He. by destruct (q_entries (f_queue s) !! name).
Qed.

Lemma restart_requeues_orphans_witness :
  is_Some (dpv_queue_pop_pending (fun _ => false) (dpv_queue_recover_on_startup (f_queue Race.both) [Race.name]) [Race.name]).
Proof.
  refine (proj2 (proj2 (restart_requeues_orphans ∅ ∅ 2 Race.both [Race.name] _ Race.raced _)) _).
  - intros name e He. by rewrite lookup_empty in He.
  - intros name [e He]. change (({[ Race.name := Race.claimed ]} : gmap string fetch_entry) !! name = Some e) in He.
    apply lookup_singleton_Some in He as [<- _]. left.
  - exists Race.name, Race.pending. split; vm_compute; reflexivity.
Defined.
