(* ===== verification/StatusPage.v ===== *)
(** The status pages of an index (statuspage.c): which memtables exist and which
    tuples each holds, kept in the index relation itself so that a restart can
    rebuild the memtables.

    Block 1 is the meta page, block 2 the first page of the memtable array; each
    memtable has a chain of tuple pages, and released pages form a free list.  An
    operation is the list of states its WAL records commit, in order: a crash
    leaves the state before it or one of these.  A new block is the next one of
    the relation, and joins it with the record that initialises it.  The page
    functions of PostgreSQL are the class [PageLayout]. *)

From S2P Require Import Prelude Memtable.

Definition InvalidBlockNumber : Z := 4294967295.
Definition BlockNumberIsValid (b : Z) : bool := negb (b =? InvalidBlockNumber).
Definition STATUS_METAPAGE_BLKNO : Z := 1.
Definition STATUS_MEMTABLE_ARRAY_BLKNO : Z := 2.

Record StatusPageMetaData := mkMeta { freePageHead : Z; freePageTail : Z; max_memtable_sid : Z }.
#[global] Instance eta_StatusPageMetaData : Settable StatusPageMetaData := fun m =>
  mkMeta (freePageHead m) (freePageTail m) (max_memtable_sid m).

Record StatusMemtableData := mkStatusMemtable { memtablePageHead : Z; memtableInsertPage : Z; st_sid : Z }.
#[global] Instance eta_StatusMemtableData : Settable StatusMemtableData := fun m =>
  mkStatusMemtable (memtablePageHead m) (memtableInsertPage m) (st_sid m).

(** An item of a page; [T] is [ItemPointerData]. *)
Inductive item (T : Type) := MemtableItem (m : StatusMemtableData) | TupleItem (t : T).
Arguments MemtableItem {T} m.
Arguments TupleItem {T} t.

(** [bufpage.c], on pages without unused line pointers (deleting an item closes
    the gap): items are numbered from 1. *)
Class PageLayout (T : Type) := {
  PageGetFreeSpace : list (item T) -> Z;
  PageAddItem : list (item T) -> item T -> Z -> option (list (item T));
  PageIndexTupleDelete : list (item T) -> Z -> list (item T) }.

Definition MEMTABLE_ITEM_SIZE : Z := MAXALIGN 12.
Definition TUPLE_ITEM_SIZE : Z := MAXALIGN 6.

Class PageLaws (T : Type) `{PageLayout T} : Prop := {
  empty_page_room : MEMTABLE_ITEM_SIZE < PageGetFreeSpace (T := T) [] /\ TUPLE_ITEM_SIZE < PageGetFreeSpace (T := T) [];
  add_item_room items x size : size < PageGetFreeSpace items -> PageAddItem items x size = Some (items ++ [x]);
  delete_item l1 x l2 : PageIndexTupleDelete (l1 ++ x :: l2) (zlen l1 + 1) = l1 ++ l2 }.

Section pages.
Context {T : Type} `{EqDecision T} `{PageLayout T}.

Record StatusPage := mkPage { pg_items : list (item T); nextblkno : Z }.
#[global] Instance eta_StatusPage : Settable StatusPage := fun p => mkPage (pg_items p) (nextblkno p).

(** The blocks of the index relation; block 0 belongs to the access method. *)
Inductive block := OtherBlock | MetaBlock (m : StatusPageMetaData) | StatusBlock (p : StatusPage).
Abbreviation relation_blocks := (list block).

Definition get_page (r : relation_blocks) (b : Z) : res StatusPage :=
  match r !! b with Some (StatusBlock p) => Ok p | _ => Error OutOfBounds end.
Definition put_page (r : relation_blocks) (b : Z) (p : StatusPage) : relation_blocks := <[b := StatusBlock p]> r.
Definition get_meta (r : relation_blocks) : res StatusPageMetaData :=
  match r !! STATUS_METAPAGE_BLKNO with Some (MetaBlock m) => Ok m | _ => Error OutOfBounds end.
Definition put_meta (r : relation_blocks) (m : StatusPageMetaData) : relation_blocks := <[STATUS_METAPAGE_BLKNO := MetaBlock m]> r.

(** An item read as the other kind. *)
Definition as_memtable (x : item T) : res StatusMemtableData :=
  match x with MemtableItem m => Ok m | TupleItem _ => Error OutOfBounds end.
Definition as_tuple (x : item T) : res T :=
  match x with TupleItem t => Ok t | MemtableItem _ => Error OutOfBounds end.

(** Bound of every walk along [nextblkno]. *)
Definition walk_fuel (r : relation_blocks) : nat := S (length r).

(** [StatusInitPage]. *)
Definition StatusInitPage : StatusPage := mkPage [] InvalidBlockNumber.

(** [StatusNewBuffer] and [StatusInitPage]. *)
Definition new_page (r : relation_blocks) : Z * relation_blocks := (zlen r, r ++ [StatusBlock StatusInitPage]).

Definition CreateStatusMetaPage (r : relation_blocks) : relation_blocks :=
  r ++ [MetaBlock (mkMeta InvalidBlockNumber InvalidBlockNumber 0)].
Definition InitializeStatusMemtableArray (r : relation_blocks) : relation_blocks := (new_page r).2.

(** *** Finding a memtable *)

Fixpoint find_in_page (items : list (item T)) (offno sid : Z) : res (option (Z * StatusMemtableData)) :=
  match items with
  | [] => Ok None
  | x :: items => m ← as_memtable x; if st_sid m =? sid then Ok (Some (offno, m)) else find_in_page items (offno + 1) sid
  end.

(** [FindMemtableInsertPage], and the first loop of the readers: block and
    offset of the item, and the item. *)
Fixpoint search_array (fuel : nat) (r : relation_blocks) (b sid : Z) : res (option (Z * Z * StatusMemtableData)) :=
  match fuel with
  | O => Error OutOfFuel
  | S fuel =>
      if BlockNumberIsValid b then
        p ← get_page r b;
        f ← find_in_page (pg_items p) 1 sid;
        match f with
        | Some (offno, m) => Ok (Some (b, offno, m))
        | None => search_array fuel r (nextblkno p) sid
        end
      else Ok None
  end.
Definition FindMemtableInsertPage (r : relation_blocks) (sid : Z) : res (option (Z * Z * StatusMemtableData)) :=
  search_array (walk_fuel r) r STATUS_MEMTABLE_ARRAY_BLKNO sid.

(** *** ReleaseStatusMemtable *)

Fixpoint chain_tail (fuel : nat) (r : relation_blocks) (b : Z) : res Z :=
  match fuel with
  | O => Error OutOfFuel
  | S fuel => p ← get_page r b; if BlockNumberIsValid (nextblkno p) then chain_tail fuel r (nextblkno p) else Ok b
  end.

(** The item of [sid] on a page with its last page; the last page of the
    others is looked up too. *)
Fixpoint release_in_page (r : relation_blocks) (items : list (item T)) (offno sid : Z) : res (option (Z * StatusMemtableData * Z)) :=
  match items with
  | [] => Ok None
  | x :: items =>
      m ← as_memtable x;
      tailPageNumber ← (if BlockNumberIsValid (memtableInsertPage m) then chain_tail (walk_fuel r) r (memtableInsertPage m)
                        else Ok (memtableInsertPage m));
      if st_sid m =? sid then Ok (Some (offno, m, tailPageNumber)) else release_in_page r items (offno + 1) sid
  end.

(** The record that moves the pages to the free list and deletes the item. *)
Definition release_pages (r : relation_blocks) (b offno : Z) (m : StatusMemtableData) (tailPageNumber : Z) : res relation_blocks :=
  meta ← get_meta r;
  r ← (if negb (BlockNumberIsValid (freePageHead meta))
       then Ok (put_meta r (meta <| freePageHead := memtablePageHead m |> <| freePageTail := tailPageNumber |>))
       else t ← get_page r (freePageTail meta);
            Ok (put_meta (put_page r (freePageTail meta) (t <| nextblkno := memtablePageHead m |>))
                         (meta <| freePageTail := tailPageNumber |>)));
  p ← get_page r b;
  Ok (put_page r b (p <| pg_items ::= fun items => PageIndexTupleDelete items offno |>)).

Fixpoint release_loop (fuel : nat) (r : relation_blocks) (b sid : Z) : res (list relation_blocks) :=
  match fuel with
  | O => Error OutOfFuel
  | S fuel =>
      if BlockNumberIsValid b then
        p ← get_page r b;
        f ← release_in_page r (pg_items p) 1 sid;
        match f with
        | Some (offno, m, tailPageNumber) => r ← release_pages r b offno m tailPageNumber; Ok [r]
        | None => release_loop fuel r (nextblkno p) sid
        end
      else Ok []
  end.
Definition ReleaseStatusMemtable (r : relation_blocks) (sid : Z) : res (list relation_blocks) :=
  release_loop (walk_fuel r) r STATUS_MEMTABLE_ARRAY_BLKNO sid.

(** *** Pages from the free list *)

Definition GetFreePage (r : relation_blocks) : res (option (Z * relation_blocks)) :=
  meta ← get_meta r;
  if negb (BlockNumberIsValid (freePageHead meta)) then Ok None
  else p ← get_page r (freePageHead meta);
       let meta' := meta <| freePageHead := nextblkno p |>
                         <| freePageTail ::= fun t => if BlockNumberIsValid (nextblkno p) then t else InvalidBlockNumber |> in
       Ok (Some (freePageHead meta, put_page (put_meta r meta') (freePageHead meta) StatusInitPage)).

Definition free_or_new (r : relation_blocks) : res (Z * relation_blocks) :=
  f ← GetFreePage r; Ok (default (new_page r) f).

(** *** RegisterStatusMemtable and AddToStatusMemtable *)

Definition UpdateMaxMemtableSid (r : relation_blocks) (sid : Z) : res relation_blocks :=
  meta ← get_meta r; Ok (put_meta r (meta <| max_memtable_sid := sid |>)).

(** The loop that looks for a page with room from page [b] on, or links one
    more page; the state after that record, if there is one, and the page. *)
Fixpoint find_room (size : Z) (extend : relation_blocks -> res (Z * relation_blocks)) (fuel : nat) (r : relation_blocks) (b : Z)
    : res (option relation_blocks * Z) :=
  match fuel with
  | O => Error OutOfFuel
  | S fuel =>
      p ← get_page r b;
      if size <? PageGetFreeSpace (pg_items p) then Ok (None, b)
      else if BlockNumberIsValid (nextblkno p) then find_room size extend fuel r (nextblkno p)
      else '(nb, r) ← extend r;
           p ← get_page r b;
           Ok (Some (put_page r b (p <| nextblkno := nb |>)), nb)
  end.

Definition add_item (r : relation_blocks) (b : Z) (x : item T) (size : Z) : res relation_blocks :=
  p ← get_page r b;
  items ← of_option ElogError (PageAddItem (pg_items p) x size);
  Ok (put_page r b (p <| pg_items := items |>)).

Definition RegisterStatusMemtable (r : relation_blocks) (sid : Z) : res (list relation_blocks) :=
  r1 ← UpdateMaxMemtableSid r sid;
  '(o, insertPage) ← find_room MEMTABLE_ITEM_SIZE (fun r => Ok (new_page r)) (walk_fuel r1) r1 STATUS_MEMTABLE_ARRAY_BLKNO;
  '(mb, r3) ← free_or_new (default r1 o);
  r4 ← add_item r3 insertPage (MemtableItem (mkStatusMemtable mb mb sid)) MEMTABLE_ITEM_SIZE;
  Ok (r1 :: option_list o ++ [r4]).

(** The tuple is added somewhere from the insert page of [m] on. *)
Definition add_tuple (r : relation_blocks) (m : StatusMemtableData) (tid : T) : res (list relation_blocks * relation_blocks * Z) :=
  '(o, insertPage) ← find_room TUPLE_ITEM_SIZE free_or_new (walk_fuel r) r (memtableInsertPage m);
  r2 ← add_item (default r o) insertPage (TupleItem tid) TUPLE_ITEM_SIZE;
  Ok (option_list o ++ [r2], r2, insertPage).

(** [info] is the block and offset found before. *)
Definition StatusUpdateInsertPage (r : relation_blocks) (info : Z * Z) (insertPage : Z) : res (option relation_blocks) :=
  p ← get_page r info.1;
  x ← arr_get (pg_items p) (info.2 - 1);
  m ← as_memtable x;
  if BlockNumberIsValid insertPage && negb (insertPage =? memtableInsertPage m)
  then Ok (Some (put_page r info.1 (p <| pg_items ::= <[info.2 - 1 := MemtableItem (m <| memtableInsertPage := insertPage |>)]> |>)))
  else Ok None.

Definition AddToStatusMemtable (r : relation_blocks) (sid : Z) (tid : T) : res (list relation_blocks) :=
  f ← FindMemtableInsertPage r sid;
  '(b, offno, m) ← of_option ElogError f;
  '(commits, r2, insertPage) ← add_tuple r m tid;
  if insertPage =? memtableInsertPage m then Ok commits
  else o ← StatusUpdateInsertPage r2 (b, offno) insertPage; Ok (commits ++ option_list o).

(** *** Readers *)

Definition GetStatusGrowingSid (r : relation_blocks) : res Z := meta ← get_meta r; Ok (max_memtable_sid meta).

Fixpoint chain_items (fuel : nat) (r : relation_blocks) (b : Z) : res (list (item T)) :=
  match fuel with
  | O => Error OutOfFuel
  | S fuel =>
      if BlockNumberIsValid b then p ← get_page r b; l ← chain_items fuel r (nextblkno p); Ok (pg_items p ++ l)
      else Ok []
  end.

(** NULL when there is no memtable. *)
Definition GetStatusMemtableSids (r : relation_blocks) : res (option (list Z)) :=
  items ← chain_items (walk_fuel r) r STATUS_MEMTABLE_ARRAY_BLKNO;
  ms ← mapM as_memtable items;
  Ok (match ms with [] => None | _ => Some (st_sid <$> ms) end).

Definition GetStatusMemtableTids (r : relation_blocks) (sid : Z) : res (option (list T)) :=
  f ← FindMemtableInsertPage r sid;
  match f with
  | Some (_, _, m) =>
      if BlockNumberIsValid (memtablePageHead m) then
        items ← chain_items (walk_fuel r) r (memtablePageHead m);
        tids ← mapM as_tuple items;
        if MEMTABLE_MAX_CAPACITY <? zlen tids then Error OutOfBounds else Ok (Some tids)
      else Ok None
  | None => Ok None
  end.

(** *** RemoveFromStatusMemtable *)

Fixpoint find_tuple (items : list (item T)) (offno : Z) (tid : T) : res (option Z) :=
  match items with
  | [] => Ok None
  | x :: items => t ← as_tuple x; if bool_decide (t = tid) then Ok (Some offno) else find_tuple items (offno + 1) tid
  end.

Fixpoint remove_loop (fuel : nat) (r : relation_blocks) (b : Z) (tid : T) : res (option relation_blocks) :=
  match fuel with
  | O => Error OutOfFuel
  | S fuel =>
      if BlockNumberIsValid b then
        p ← get_page r b;
        f ← find_tuple (pg_items p) 1 tid;
        match f with
        | Some offno => Ok (Some (put_page r b (p <| pg_items ::= fun items => PageIndexTupleDelete items offno |>)))
        | None => remove_loop fuel r (nextblkno p) tid
        end
      else Ok None
  end.

Definition RemoveFromStatusMemtable (r : relation_blocks) (sid : Z) (tid : T) : res (bool * list relation_blocks) :=
  f ← FindMemtableInsertPage r sid;
  match f with
  | Some (_, _, m) =>
      if BlockNumberIsValid (memtablePageHead m) then
        o ← remove_loop (walk_fuel r) r (memtablePageHead m) tid;
        Ok (bool_decide (is_Some o), option_list o)
      else Ok (false, [])
  | None => Ok (false, [])
  end.


(** ** The pages that belong to the store *)

(** Ghost description of a chain: blocks with what they hold. *)
Definition first {A} (l : list (Z * A)) (nxt : Z) : Z := match l with [] => nxt | x :: _ => x.1 end.
Fixpoint seg (l : list (Z * list (item T))) (nxt : Z) : list (Z * StatusPage) :=
  match l with [] => [] | x :: l => (x.1, mkPage x.2 (first l nxt)) :: seg l nxt end.
Abbreviation Inv := InvalidBlockNumber.

(** The relation consists of block 0, the meta page, the pages [P], and the free
    list [F]. *)
Record frame (r : list block) (P : list (Z * StatusPage)) (F : list (Z * list (item T))) (max : Z) : Prop := {
  fr_nodup : NoDup (P ++ seg F Inv).*1;
  fr_pages b p : (b, p) ∈ P ++ seg F Inv -> 2 <= b /\ r !! b = Some (StatusBlock p);
  fr_meta : r !! 1 = Some (MetaBlock (mkMeta (first F Inv) (default Inv (last F.*1)) max));
  fr_all : zlen P + zlen F + 2 = zlen r;
  fr_bound : zlen r <= Inv }.

Lemma zlen_seg l nxt : zlen (seg l nxt) = zlen l.
Proof. induction l as [|x l IH]; [done|]. cbn. by rewrite !zlen_cons, IH. Qed.

Lemma seg_blocks l nxt : (seg l nxt).*1 = l.*1.
Proof. induction l as [|x l IH]; [done|]. cbn. by f_equal. Qed.

Lemma first_app {A} (l1 l2 : list (Z * A)) nxt : first (l1 ++ l2) nxt = first l1 (first l2 nxt).
Proof. by destruct l1. Qed.

Lemma seg_app l1 l2 nxt : seg (l1 ++ l2) nxt = seg l1 (first l2 nxt) ++ seg l2 nxt.
Proof. induction l1 as [|x l1 IH]; [done|]. cbn. by rewrite IH, first_app. Qed.

#[global] Instance frame_perm r : Proper ((≡ₚ) ==> (=) ==> (=) ==> iff) (frame r).
Proof.
  assert (Himp : forall P P' F max, P ≡ₚ P' -> frame r P F max -> frame r P' F max).
  { intros P P' F max HP [H1 H2 H3 H4 H5]. split; try done.
    - by rewrite <-HP.
    - intros b p. rewrite <-HP. apply H2.
    - unfold zlen in *. by rewrite <-HP. }
  intros P P' HP F F' <- max max' <-. split; by apply Himp.
Qed.

Lemma frame_elem r P F max b p : frame r P F max -> (b, p) ∈ P -> 2 <= b < zlen r /\ r !! b = Some (StatusBlock p).
Proof.
  intros Hf Hp. destruct (fr_pages _ _ _ _ Hf b p) as [H1 H2]; [apply elem_of_app; by left|].
  pose proof (zlookup_lt_Some _ _ _ H2). by repeat split; lia || done.
Qed.

Lemma get_page_Some r b p : r !! b = Some (StatusBlock p) -> get_page r b = Ok p.
Proof. intros Hb. unfold get_page. by rewrite Hb. Qed.

Lemma frame_get r P F max b p : frame r P F max -> (b, p) ∈ P -> get_page r b = Ok p.
Proof. intros Hf Hp. apply get_page_Some, (frame_elem _ _ _ _ _ _ Hf Hp). Qed.

Lemma valid_block b : 0 <= b < Inv -> BlockNumberIsValid b = true.
Proof. intros Hb. unfold BlockNumberIsValid. destruct (Z.eqb_spec b Inv); [lia|done]. Qed.

Lemma frame_valid r P F max b p : frame r P F max -> (b, p) ∈ P -> BlockNumberIsValid b = true.
Proof. intros Hf Hp. apply valid_block. destruct (frame_elem _ _ _ _ _ _ Hf Hp) as [? _]. pose proof (fr_bound _ _ _ _ Hf). lia. Qed.

Lemma frame_get_meta r P F max : frame r P F max -> get_meta r = Ok (mkMeta (first F Inv) (default Inv (last F.*1)) max).
Proof. intros Hf. unfold get_meta, STATUS_METAPAGE_BLKNO. by rewrite (fr_meta _ _ _ _ Hf). Qed.

(** Writing a page that belongs to it. *)
Lemma frame_put r b p p' P F max : frame r ((b, p) :: P) F max -> frame (put_page r b p') ((b, p') :: P) F max.
Proof.
  intros [H1 H2 H3 H4 H5]. assert (Hb : 2 <= b /\ r !! b = Some (StatusBlock p)) by (apply H2; left). destruct Hb as [Hb Hr].
  unfold put_page. split; try done.
  - cbn in *. intros c q [[= -> ->]|Hc]%elem_of_cons; [split; [done|]; by eapply zlookup_insert_eq|].
    destruct (H2 c q) as [Hc2 Hq]; [by right|]. split; [done|]. rewrite zlookup_insert_ne; [done|].
    intros ->. apply NoDup_cons in H1 as [Hn _]. apply Hn. apply list_elem_of_fmap. by exists (c, q).
  - rewrite zlookup_insert_ne by lia. exact H3.
  - rewrite zlen_insert. rewrite zlen_cons in *. lia.
  - by rewrite zlen_insert.
Qed.

Lemma frame_put_meta r P F max max' : frame r P F max ->
  frame (put_meta r (mkMeta (first F Inv) (default Inv (last F.*1)) max')) P F max'.
Proof.
  intros [H1 H2 H3 H4 H5]. unfold put_meta, STATUS_METAPAGE_BLKNO. split; try done.
  - intros b p Hp. destruct (H2 b p Hp) as [Hb Hr]. split; [done|]. rewrite zlookup_insert_ne by lia. done.
  - by eapply zlookup_insert_eq.
  - by rewrite zlen_insert.
  - by rewrite zlen_insert.
Qed.

Lemma frame_new r P F max : frame r P F max -> zlen r < Inv ->
  frame (new_page r).2 (((new_page r).1, StatusInitPage) :: P) F max.
Proof.
  intros [H1 H2 H3 H4 H5] Hr. cbn [new_page fst snd].
  assert (Hlen : 2 <= zlen r) by (pose proof (zlen_nonneg P); pose proof (zlen_nonneg F); lia).
  split; cbn [app].
  - cbn. apply NoDup_cons. split; [|done]. intros [[b p] [Hb Hp]]%list_elem_of_fmap. cbn in Hb. subst b.
    destruct (H2 _ _ Hp) as [_ Hz%zlookup_lt_Some]. lia.
  - intros b p [[= -> ->]|Hp]%elem_of_cons.
    + split; [done|]. rewrite zlookup_app_r, Z.sub_diag by lia. done.
    + destruct (H2 _ _ Hp) as [Hb Hz]. split; [done|]. rewrite zlookup_app_l; [done|]. apply zlookup_lt_Some in Hz; lia.
  - rewrite zlookup_app_l by lia. done.
  - rewrite zlen_cons, zlen_app, zlen_cons, zlen_nil. lia.
  - rewrite zlen_app, zlen_cons, zlen_nil. lia.
Qed.

(** A page of the free list, or a new one. *)
Lemma frame_free_or_new r P F max : frame r P F max -> zlen r < Inv ->
  exists nb r' F', free_or_new r = Ok (nb, r') /\ frame r' ((nb, StatusInitPage) :: P) F' max /\
    zlen r <= zlen r' <= zlen r + 1 /\ (F <> [] -> zlen r' = zlen r).
Proof.
  intros Hf Hr. unfold free_or_new, GetFreePage. rewrite (frame_get_meta _ _ _ _ Hf). cbn [mbind res_bind freePageHead].
  destruct F as [|[b its] F].
  - cbn [first negb BlockNumberIsValid]. change (BlockNumberIsValid Inv) with false. cbn [negb mbind res_bind default].
    exists (zlen r), (r ++ [StatusBlock StatusInitPage]), []. split; [done|].
    split; [by apply (frame_new r P [] max)|]. rewrite zlen_app, zlen_cons, zlen_nil. split; [lia|done].
  - cbn [first fst]. pose proof Hf as [H1 H2 H3 H4 H5].
    assert (Hb : 2 <= b /\ r !! b = Some (StatusBlock (mkPage its (first F Inv)))) by (apply H2; apply elem_of_app; right; cbn; left).
    destruct Hb as [Hb Hrb]. pose proof (zlookup_lt_Some _ _ _ Hrb).
    rewrite (valid_block b) by lia. cbn [negb]. rewrite (get_page_Some _ _ _ Hrb). cbn [mbind res_bind nextblkno default].
    eexists b, _, F. split; [done|]. unfold put_page, put_meta, STATUS_METAPAGE_BLKNO, update; cbn [freePageHead freePageTail max_memtable_sid].
    assert (HF : BlockNumberIsValid (first F Inv) = negb (bool_decide (F = []))).
    { destruct F as [|[c its'] F]; [done|]. cbn [first fst]. assert (Hc : (c, mkPage its' (first F Inv)) ∈ P ++ seg ((b, its) :: (c, its') :: F) Inv)
        by (apply elem_of_app; right; cbn; right; left). destruct (H2 _ _ Hc) as [Hc2 Hcl%zlookup_lt_Some]. rewrite valid_block by lia. done. }
    rewrite HF. split; [|rewrite !zlen_insert; split; [lia|done]]. split.
    + rewrite fmap_app in H1. cbn in H1. cbn. rewrite fmap_app. by rewrite Permutation_middle.
    + cbn [app]. intros c q [[= -> ->]|Hc]%elem_of_cons.
      { split; [done|]. eapply zlookup_insert_eq. rewrite zlookup_insert_ne by lia. done. }
      assert (Hcb : c <> b).
      { intros ->. rewrite fmap_app in H1. cbn in H1. rewrite <-Permutation_middle in H1. apply NoDup_cons in H1 as [Hn _].
        apply Hn. rewrite <-fmap_app. apply list_elem_of_fmap. by exists (b, q). }
      destruct (H2 c q) as [Hc2 Hq]; [apply elem_of_app in Hc as [Hc|Hc]; apply elem_of_app; [by left|right; by right]|].
      split; [done|]. rewrite !zlookup_insert_ne by lia. done.
    + rewrite zlookup_insert_ne by lia. erewrite zlookup_insert_eq by done. do 3 f_equal.
      destruct F as [|x F]; [done|]. done.
    + rewrite !zlen_insert, zlen_cons. rewrite zlen_cons in H4. lia.
    + by rewrite !zlen_insert.
Qed.

(** ** Walking a chain *)

Definition on_chain (r : list block) (l : list (Z * list (item T))) : Prop :=
  forall b p, (b, p) ∈ seg l Inv -> get_page r b = Ok p /\ BlockNumberIsValid b = true.

Lemma on_chain_app r l1 l2 : on_chain r (l1 ++ l2) -> on_chain r l2.
Proof. intros Hc b p Hp. apply Hc. rewrite seg_app. apply elem_of_app. by right. Qed.

Lemma on_chain_cons r b its l : on_chain r ((b, its) :: l) ->
  get_page r b = Ok (mkPage its (first l Inv)) /\ BlockNumberIsValid b = true /\ on_chain r l.
Proof. intros Hc. destruct (Hc b (mkPage its (first l Inv))) as [H1 H2]; [by left|]. split_and!; try done. by apply (on_chain_app r [(b, its)] l). Qed.

Lemma on_chain_first r l : on_chain r l -> l <> [] -> BlockNumberIsValid (first l Inv) = true.
Proof. destruct l as [|[b its] l]; [done|]. intros Hc _. apply (on_chain_cons _ _ _ _ Hc). Qed.

Lemma chain_items_seg r l : on_chain r l -> forall fuel, (length l < fuel)%nat -> chain_items fuel r (first l Inv) = Ok (concat l.*2).
Proof.
  induction l as [|[b its] l IH]; intros Hc [|fuel] Hf; cbn in Hf; try lia; [done|]. cbn [first fst chain_items].
  destruct (on_chain_cons _ _ _ _ Hc) as (-> & -> & Hc'). cbn [mbind res_bind pg_items nextblkno]. by rewrite IH by (done || lia).
Qed.

Lemma chain_tail_seg r l : on_chain r l -> l <> [] -> forall fuel, (length l < fuel)%nat ->
  chain_tail fuel r (first l Inv) = Ok (default Inv (last l.*1)).
Proof.
  induction l as [|[b its] l IH]; intros Hc Hne [|fuel] Hf; cbn in Hf; try lia; [done|]. cbn [first fst chain_tail].
  destruct (on_chain_cons _ _ _ _ Hc) as (-> & _ & Hc'). cbn [mbind res_bind nextblkno]. destruct l as [|x l]; [done|].
  rewrite (on_chain_first _ _ Hc') by done. rewrite IH by (done || (cbn in *; lia)). done.
Qed.

(** From page [l] on: a page with room, or the last page is extended. *)
Lemma find_room_seg size extend r l : on_chain r l -> l <> [] -> forall fuel, (length l < fuel)%nat ->
  (exists l1 b its l2, l = l1 ++ (b, its) :: l2 /\ size < PageGetFreeSpace its /\ find_room size extend fuel r (first l Inv) = Ok (None, b)) \/
  (exists l1 b its, l = l1 ++ [(b, its)] /\
     find_room size extend fuel r (first l Inv) =
       ('(nb, r) ← extend r; p ← get_page r b; Ok (Some (put_page r b (p <| nextblkno := nb |>)), nb))).
Proof.
  induction l as [|[b its] l IH]; intros Hc Hne [|fuel] Hf; cbn in Hf; try lia; [done|]. cbn [first fst find_room].
  destruct (on_chain_cons _ _ _ _ Hc) as (-> & _ & Hc'). cbn [mbind res_bind pg_items nextblkno].
  destruct (Z.ltb_spec size (PageGetFreeSpace its)) as [Hlt|_]; [left; by exists [], b, its, l|].
  destruct l as [|x l]; [right; by exists [], b, its|]. rewrite (on_chain_first _ _ Hc') by done.
  destruct (IH Hc' ltac:(done) fuel ltac:(cbn in *; lia)) as [(l1 & b' & its' & l2 & Hl & Hs & Hfr)|(l1 & b' & its' & Hl & Hfr)].
  - left. exists ((b, its) :: l1), b', its', l2. split; [cbn; by rewrite Hl|done].
  - right. exists ((b, its) :: l1), b', its'. split; [cbn; by rewrite Hl|exact Hfr].
Qed.

(** ** The memtables *)

Record entry := mkEntry { en_sid : Z; en_chain : list (Z * list T); en_insert : Z }.
Definition on_page {A B} (f : A -> B) (x : Z * list A) : Z * list B := (x.1, f <$> x.2).
Definition tuple_pages (e : entry) : list (Z * list (item T)) := on_page TupleItem <$> en_chain e.
Definition en_tids (e : entry) : list T := concat (en_chain e).*2.
Definition en_data (e : entry) : StatusMemtableData := mkStatusMemtable (first (en_chain e) Inv) (en_insert e) (en_sid e).
Definition entry_item (e : entry) : item T := MemtableItem (en_data e).

(** Ghost: the pages of the memtable array with their entries. *)
Abbreviation array := (list (Z * list entry)).
Definition array_pages (a : array) : list (Z * list (item T)) := on_page entry_item <$> a.
Definition entries (a : array) : list entry := concat a.*2.
Definition chains (es : list entry) : list (Z * StatusPage) := concat ((fun e => seg (tuple_pages e) Inv) <$> es).
Definition owned (a : array) : list (Z * StatusPage) := seg (array_pages a) Inv ++ chains (entries a).

Record store (r : list block) (a : array) (max : Z) : Prop := {
  st_frame : exists F, frame r (owned a) F max;
  st_array : first a Inv = STATUS_MEMTABLE_ARRAY_BLKNO;
  st_insert e : e ∈ entries a -> en_insert e ∈ (en_chain e).*1;
  st_sids : NoDup (en_sid <$> entries a) }.

Definition content_of (es : list entry) : gmap Z (list T) := list_to_map ((fun e => (en_sid e, en_tids e)) <$> es).
Definition content (a : array) : gmap Z (list T) := content_of (entries a).

(** What the pages say: the largest memtable id and the memtables' tuples. *)
Definition stores (r : list block) (s : Z * gmap Z (list T)) : Prop := exists a, store r a s.1 /\ content a = s.2.

Lemma first_map {A B} (f : A -> B) (l : list (Z * list A)) nxt : first (on_page f <$> l) nxt = first l nxt.
Proof. by destruct l. Qed.

Lemma first_array_pages a nxt : first (array_pages a) nxt = first a nxt.
Proof. apply first_map. Qed.
Lemma first_tuple_pages e nxt : first (tuple_pages e) nxt = first (en_chain e) nxt.
Proof. apply first_map. Qed.

Lemma map_blocks {A B} (f : A -> B) (l : list (Z * list A)) : (on_page f <$> l).*1 = l.*1.
Proof. induction l as [|x l IH]; [done|]. cbn. by f_equal. Qed.
Lemma tuple_pages_blocks e : (tuple_pages e).*1 = (en_chain e).*1.
Proof. apply map_blocks. Qed.

Lemma map_contents {A B} (f : A -> B) (l : list (Z * list A)) :
  concat (on_page f <$> l).*2 = f <$> concat l.*2.
Proof. induction l as [|x l IH]; [done|]. cbn. by rewrite IH, fmap_app. Qed.

Lemma entries_app a1 a2 : entries (a1 ++ a2) = entries a1 ++ entries a2.
Proof. unfold entries. by rewrite fmap_app, concat_app. Qed.
Lemma entries_cons x a : entries (x :: a) = x.2 ++ entries a.
Proof. done. Qed.
Lemma chains_app es1 es2 : chains (es1 ++ es2) = chains es1 ++ chains es2.
Proof. unfold chains. by rewrite fmap_app, concat_app. Qed.
Lemma array_pages_app a1 a2 : array_pages (a1 ++ a2) = array_pages a1 ++ array_pages a2.
Proof. apply fmap_app. Qed.

Lemma content_of_perm es es' : NoDup (en_sid <$> es) -> es ≡ₚ es' -> content_of es = content_of es'.
Proof. intros Hn Hp. unfold content_of. apply list_to_map_proper; [|by rewrite Hp]. rewrite <-list_fmap_compose. exact Hn. Qed.

Lemma content_of_cons e es : content_of (e :: es) = <[en_sid e := en_tids e]> (content_of es).
Proof. done. Qed.

Lemma content_of_None sid es : sid ∉ en_sid <$> es -> content_of es !! sid = None.
Proof. intros Hn. apply not_elem_of_list_to_map_1. rewrite <-list_fmap_compose. exact Hn. Qed.

Lemma content_of_middle es1 e es2 : NoDup (en_sid <$> (es1 ++ e :: es2)) ->
  content_of (es1 ++ e :: es2) = <[en_sid e := en_tids e]> (content_of (es1 ++ es2)) /\ content_of (es1 ++ es2) !! en_sid e = None.
Proof.
  intros Hn. rewrite (content_of_perm _ (e :: es1 ++ es2)) by (done || by rewrite <-Permutation_middle). split; [apply content_of_cons|].
  apply content_of_None. rewrite <-Permutation_middle in Hn. cbn in Hn. by apply NoDup_cons in Hn as [? _].
Qed.

(** One page of the array, the chain of one of its entries, and the rest. *)
Definition rest (a1 : array) (b : Z) (es : list entry) (a2 : array) : list (Z * StatusPage) :=
  seg (array_pages a1) b ++ seg (array_pages a2) Inv ++ chains (entries a1 ++ es ++ entries a2).

Lemma owned_page a1 b es a2 :
  owned (a1 ++ (b, es) :: a2) ≡ₚ (b, mkPage (entry_item <$> es) (first a2 Inv)) :: rest a1 b es a2.
Proof.
  unfold owned, rest. rewrite array_pages_app, entries_app, entries_cons, seg_app. cbn [array_pages fmap list_fmap seg first fst snd].
  change (on_page entry_item <$> a2) with (array_pages a2).
  rewrite first_array_pages, <-app_assoc. cbn [app]. by rewrite <-Permutation_middle.
Qed.

Lemma owned_split a1 b es1 e es2 a2 :
  owned (a1 ++ (b, es1 ++ e :: es2) :: a2) ≡ₚ
    (b, mkPage (entry_item <$> (es1 ++ e :: es2)) (first a2 Inv)) :: seg (tuple_pages e) Inv ++ rest a1 b (es1 ++ es2) a2.
Proof.
  rewrite owned_page. f_equiv. unfold rest. rewrite !chains_app. change (chains (e :: es2)) with (seg (tuple_pages e) Inv ++ chains es2).
  solve_Permutation.
Qed.

Lemma entries_split a1 b es1 e es2 a2 :
  entries (a1 ++ (b, es1 ++ e :: es2) :: a2) = (entries a1 ++ es1) ++ e :: es2 ++ entries a2.
Proof. rewrite entries_app, entries_cons. cbn [snd]. by rewrite <-!app_assoc. Qed.

Lemma entry_at a e : e ∈ entries a -> exists a1 b es1 es2 a2, a = a1 ++ (b, es1 ++ e :: es2) :: a2.
Proof.
  unfold entries. intros He. apply list_elem_of_In, in_concat in He as (es & Hes & He). apply list_elem_of_In in Hes, He.
  apply list_elem_of_fmap in Hes as ([b es'] & -> & Ha). apply list_elem_of_split in Ha as (a1 & a2 & ->).
  cbn in He. apply list_elem_of_split in He as (es1 & es2 & ->). by exists a1, b, es1, es2, a2.
Qed.

(** ** Finding a memtable *)

Lemma find_in_page_spec es off sid :
  match list_find (fun e => en_sid e = sid) es with
  | Some (i, e) => find_in_page (entry_item <$> es) off sid = Ok (Some (off + Z.of_nat i, en_data e))
  | None => find_in_page (entry_item <$> es) off sid = Ok None
  end.
Proof.
  revert off. induction es as [|e es IH]; intros off; [done|]. cbn [fmap list_fmap find_in_page list_find entry_item as_memtable mbind res_bind].
  cbn [en_data st_sid]. destruct (Z.eqb_spec (en_sid e) sid) as [He|He]; [rewrite decide_True by done; cbn; by rewrite Z.add_0_r|].
  rewrite decide_False by done. specialize (IH (off + 1)). destruct (list_find _ es) as [[i e']|]; cbn; [|done].
  rewrite IH. do 3 f_equal. lia.
Qed.

(** Where an entry of [sid] is. *)
Definition found_at (a : array) (sid : Z) (b : Z) (es1 : list entry) (e : entry) : Prop :=
  en_sid e = sid /\ exists a1 es2 a2, a = a1 ++ (b, es1 ++ e :: es2) :: a2.

Lemma search_array_seg r sid a : on_chain r (array_pages a) -> forall fuel, (length a < fuel)%nat ->
  ((sid ∉ (en_sid <$> entries a)) /\ search_array fuel r (first a Inv) sid = Ok None) \/
  (exists b es1 e, found_at a sid b es1 e /\ search_array fuel r (first a Inv) sid = Ok (Some (b, zlen es1 + 1, en_data e))).
Proof.
  induction a as [|[b es] a IH]; intros Hc [|fuel] Hf; cbn in Hf; try lia; [left; split; [by apply not_elem_of_nil|done]|].
  cbn [first fst search_array]. destruct (on_chain_cons r b (entry_item <$> es) (array_pages a) Hc) as (-> & -> & Hc'). cbn [mbind res_bind pg_items nextblkno].
  pose proof (find_in_page_spec es 1 sid) as Hp. destruct (list_find _ es) as [[i e]|] eqn:He; rewrite Hp; cbn [mbind res_bind].
  - right. apply list_find_Some in He as (Hi & Hsid & _). pose proof (take_drop_middle _ _ _ Hi) as Hes.
    exists b, (take i es), e. split; [split; [done|]; exists [], (drop (S i) es), a; by rewrite Hes|].
    do 2 f_equal. unfold zlen. rewrite length_take. apply lookup_lt_Some in Hi. f_equal. f_equal. lia.
  - change (first (array_pages a) Inv) with (first (on_page entry_item <$> a) Inv). rewrite first_map.
    destruct (IH Hc' fuel) as [[Hs Hr]|(b' & es1 & e & [Hs (a1 & es2 & a2 & Ha)] & Hr)]; [lia|left|right]; rewrite Hr.
    + split; [|done]. rewrite entries_cons, fmap_app, elem_of_app. intros [Hin|Hin]; [|done]. cbn in Hin.
      apply list_find_None in He. apply list_elem_of_fmap in Hin as (e & -> & He'). rewrite Forall_forall in He. by apply (He e).
    + exists b', es1, e. split; [|done]. split; [done|]. exists ((b, es) :: a1), es2, a2. by rewrite Ha.
Qed.

Section in_store.
Context (r : list block) (a : array) (max : Z) (Hst : store r a max).

Lemma store_on_chain : on_chain r (array_pages a) /\ (length a < walk_fuel r)%nat.
Proof.
  destruct (st_frame _ _ _ Hst) as [F Hf]. split.
  - intros b p Hp. assert (Ho : (b, p) ∈ owned a) by (apply elem_of_app; by left). split; [by eapply frame_get|by eapply frame_valid].
  - pose proof (fr_all _ _ _ _ Hf) as Hz. unfold owned in Hz. rewrite zlen_app, zlen_seg in Hz. unfold array_pages, zlen in Hz.
    rewrite length_fmap in Hz. unfold walk_fuel. pose proof (zlen_nonneg (chains (entries a))) as Hc. unfold zlen in Hc. lia.
Qed.

Lemma store_chain e : e ∈ entries a -> on_chain r (tuple_pages e) /\ (length (en_chain e) < walk_fuel r)%nat /\ en_chain e <> [].
Proof.
  intros He. destruct (st_frame _ _ _ Hst) as [F Hf]. pose proof (st_insert _ _ _ Hst e He) as Hi.
  destruct (entry_at _ _ He) as (a1 & b & es1 & es2 & a2 & ->). rewrite owned_split in Hf. split; [|split].
  - intros c p Hp. assert (Ho : (c, p) ∈ (b, mkPage (entry_item <$> (es1 ++ e :: es2)) (first a2 Inv)) :: seg (tuple_pages e) Inv ++ rest a1 b (es1 ++ es2) a2)
      by (right; apply elem_of_app; by left). split; [by eapply frame_get|by eapply frame_valid].
  - pose proof (fr_all _ _ _ _ Hf) as Hz. rewrite zlen_cons, zlen_app, zlen_seg in Hz. unfold tuple_pages, zlen in Hz.
    rewrite length_fmap in Hz. unfold walk_fuel. lia.
  - intros Hn. rewrite Hn in Hi. by apply elem_of_nil in Hi.
Qed.

Lemma store_find sid :
  ((sid ∉ (en_sid <$> entries a)) /\ FindMemtableInsertPage r sid = Ok None) \/
  (exists b es1 e, found_at a sid b es1 e /\ FindMemtableInsertPage r sid = Ok (Some (b, zlen es1 + 1, en_data e))).
Proof.
  destruct store_on_chain as [Hc Hl]. unfold FindMemtableInsertPage. rewrite <-(st_array _ _ _ Hst). by apply search_array_seg.
Qed.

Lemma found_elem sid b es1 e : found_at a sid b es1 e -> e ∈ entries a /\ content a !! sid = Some (en_tids e).
Proof.
  intros (<- & a1 & es2 & a2 & ->). rewrite entries_split. split; [apply elem_of_app; right; left|]. unfold content.
  pose proof (st_sids _ _ _ Hst) as Hn. rewrite entries_split in *. destruct (content_of_middle _ _ _ Hn) as [-> _]. apply lookup_insert_eq.
Qed.

(** The chain from the insert page on. *)
Lemma insert_suffix e : e ∈ entries a -> exists c1 ts c2, en_chain e = c1 ++ (en_insert e, ts) :: c2.
Proof.
  intros He. pose proof (st_insert _ _ _ Hst e He) as Hi. apply list_elem_of_fmap in Hi as ([b ts] & Hb & Hi).
  apply list_elem_of_split in Hi as (c1 & c2 & Hc). cbn in Hb. subst b. by exists c1, ts, c2.
Qed.

End in_store.

(** ** The readers *)

Lemma mapM_memtables es : mapM as_memtable (entry_item <$> es) = Ok (en_data <$> es).
Proof. induction es as [|e es IH]; [done|]. cbn. cbn in IH. by rewrite IH. Qed.

Lemma mapM_tuples (ts : list T) : mapM as_tuple (TupleItem <$> ts) = Ok ts.
Proof. induction ts as [|x ts IH]; [done|]. cbn. cbn in IH. by rewrite IH. Qed.

Section readers.
Context (r : list block) (s : Z * gmap Z (list T)) (Hr : stores r s).

Lemma growing_sid_reads : GetStatusGrowingSid r = Ok s.1.
Proof. destruct Hr as (a & Hs & _). destruct (st_frame _ _ _ Hs) as [F Hf]. unfold GetStatusGrowingSid. by rewrite (frame_get_meta _ _ _ _ Hf). Qed.

Lemma sids_read : exists sids, GetStatusMemtableSids r = Ok (match sids with [] => None | _ => Some sids end) /\ sids ≡ₚ (map_to_list s.2).*1.
Proof.
  destruct Hr as (a & Hs & Hm). destruct (store_on_chain _ _ _ Hs) as [Hc Hl]. exists (en_sid <$> entries a). split.
  - unfold GetStatusMemtableSids. rewrite <-(st_array _ _ _ Hs), <-first_array_pages.
    rewrite (chain_items_seg _ _ Hc) by (unfold array_pages; by rewrite length_fmap). cbn [mbind res_bind].
    unfold array_pages. rewrite map_contents. change (concat a.*2) with (entries a). rewrite mapM_memtables. cbn [mbind res_bind].
    destruct (entries a) as [|e es]; [done|]. cbn [fmap list_fmap]. do 3 f_equal. by rewrite <-list_fmap_compose.
  - rewrite <-Hm. unfold content, content_of. rewrite map_to_list_to_map, <-list_fmap_compose; [done|].
    rewrite <-list_fmap_compose. apply (st_sids _ _ _ Hs).
Qed.

Lemma tids_read sid : (forall ts, s.2 !! sid = Some ts -> zlen ts <= MEMTABLE_MAX_CAPACITY) -> GetStatusMemtableTids r sid = Ok (s.2 !! sid).
Proof.
  destruct Hr as (a & Hs & Hm). intros Hcap. unfold GetStatusMemtableTids. destruct (store_find _ _ _ Hs sid) as [[Hn ->]|(b & es1 & e & Hat & ->)]; cbn [mbind res_bind].
  - rewrite <-Hm. unfold content. by rewrite content_of_None.
  - destruct (found_elem _ _ _ Hs _ _ _ _ Hat) as [He Hsid]. destruct (store_chain _ _ _ Hs _ He) as (Hc & Hl & Hne).
    rewrite Hm in Hsid. cbn [en_data memtablePageHead]. rewrite <-first_tuple_pages. rewrite (on_chain_first _ _ Hc) by (unfold tuple_pages; by destruct (en_chain e)).
    rewrite (chain_items_seg _ _ Hc) by (unfold tuple_pages; by rewrite length_fmap). cbn [mbind res_bind].
    unfold tuple_pages. rewrite map_contents, mapM_tuples. cbn [mbind res_bind]. fold (en_tids e). rewrite Hsid. specialize (Hcap _ Hsid).
    destruct (Z.ltb_spec MEMTABLE_MAX_CAPACITY (zlen (en_tids e))); [lia|done].
Qed.
End readers.

(** ** Changing the store *)

Lemma page_inv {A B} (f : A -> B) (c : list (Z * list A)) (l1 l2 : list (Z * list B)) b its : on_page f <$> c = l1 ++ (b, its) :: l2 ->
  exists c1 xs c2, c = c1 ++ (b, xs) :: c2 /\ its = f <$> xs /\ l2 = on_page f <$> c2.
Proof.
  intros Hc. apply fmap_app_inv in Hc as (c1 & c' & _ & Hc' & ->). symmetry in Hc'. apply fmap_cons_inv in Hc' as ([x ts] & c2 & [= -> ->] & -> & ->).
  by exists c1, ts, c2.
Qed.

Section changes.
Context `{!PageLaws T}.
Context (a1 : array) (b : Z) (es1 es2 : list entry) (a2 : array).
Abbreviation with_entry e := (a1 ++ (b, es1 ++ e :: es2) :: a2).

(** Another entry in the place of one. *)
Lemma store_replace r r' e e' max max' :
  store r (with_entry e) max -> (exists F, frame r' (owned (with_entry e')) F max') -> en_sid e' = en_sid e -> en_insert e' ∈ (en_chain e').*1 ->
  store r' (with_entry e') max' /\ content (with_entry e') = <[en_sid e := en_tids e']> (content (with_entry e)).
Proof.
  intros [H1 H2 H3 H4] Hf Hsid Hin. rewrite entries_split in H3, H4.
  assert (Hn : NoDup (en_sid <$> ((entries a1 ++ es1) ++ e' :: es2 ++ entries a2))).
  { rewrite fmap_app, fmap_cons in *. by rewrite Hsid. }
  split; [split; try done|].
  - rewrite first_app in *. by destruct a1.
  - intros x. rewrite entries_split, elem_of_app, elem_of_cons. intros [Hx|[->|Hx]]; [|done|].
    + apply H3. rewrite elem_of_app. by left.
    + apply H3. rewrite elem_of_app, elem_of_cons. by right; right.
  - by rewrite entries_split.
  - unfold content. rewrite !entries_split. destruct (content_of_middle _ _ _ Hn) as [-> _]. destruct (content_of_middle _ _ _ H4) as [-> _].
    rewrite Hsid. by rewrite insert_insert_eq.
Qed.

(** A page with room for one more tuple. *)
Lemma chain_room r e max : store r (with_entry e) max -> zlen r < Inv ->
  exists o nb e' c1 ts c2, find_room TUPLE_ITEM_SIZE free_or_new (walk_fuel r) r (en_insert e) = Ok (o, nb) /\
    store (default r o) (with_entry e') max /\ content (with_entry e') = content (with_entry e) /\ en_data e' = en_data e /\ en_tids e' = en_tids e /\
    en_chain e' = c1 ++ (nb, ts) :: c2 /\ TUPLE_ITEM_SIZE < PageGetFreeSpace (TupleItem <$> ts) /\ zlen (default r o) <= zlen r + 1.
Proof.
  intros Hst Hr. assert (He : e ∈ entries (with_entry e)) by (rewrite entries_split; apply elem_of_app; right; left).
  destruct (store_chain _ _ _ Hst _ He) as (Hc & Hl & _). destruct (insert_suffix _ _ _ Hst _ He) as (c1 & ts0 & c2 & Hch).
  set (tail := (en_insert e, ts0) :: c2) in *.
  assert (Hc2 : on_chain r (on_page TupleItem <$> tail)) by (unfold tuple_pages in Hc; rewrite Hch, fmap_app in Hc; by apply on_chain_app in Hc).
  assert (Hl2 : (length (on_page TupleItem <$> tail) < walk_fuel r)%nat) by (rewrite length_fmap; rewrite Hch, length_app in Hl; lia).
  destruct (find_room_seg TUPLE_ITEM_SIZE free_or_new r _ Hc2 ltac:(done) _ Hl2) as [(l1 & nb & its & l2 & Hsp & Hroom & Hfr)|(l1 & x & its & Hsp & Hfr)];
    rewrite first_map in Hfr; change (first tail Inv) with (en_insert e) in Hfr; rewrite Hfr;
    apply page_inv in Hsp as (d1 & ts & d2 & Hd & -> & Hl2eq).
  - exists None, nb, e, (c1 ++ d1), ts, d2. cbn [default]. split_and!; try done; [by rewrite Hch, Hd, <-app_assoc|lia].
  - destruct d2; [|done]. clear Hl2eq. destruct (st_frame _ _ _ Hst) as [F Hf].
    destruct (frame_free_or_new _ _ _ _ Hf Hr) as (nb & r' & F' & -> & Hf' & Hz & _). cbn [mbind res_bind].
    assert (Hch' : en_chain e = (c1 ++ d1) ++ [(x, ts)]) by (rewrite Hch, Hd; by rewrite <-app_assoc).
    rewrite owned_split in Hf'. set (pg := mkPage _ (first a2 Inv)) in Hf'. unfold tuple_pages in Hf'. rewrite Hch', fmap_app, seg_app in Hf'. cbn [fmap list_fmap on_page fst snd seg first] in Hf'.
    set (e' := mkEntry (en_sid e) ((c1 ++ d1) ++ [(x, ts); (nb, [])]) (en_insert e)).
    assert (Hperm : (nb, StatusInitPage) :: (b, pg) :: (seg (on_page TupleItem <$> (c1 ++ d1)) x ++ [(x, mkPage (TupleItem <$> ts) Inv)]) ++ rest a1 b (es1 ++ es2) a2
      ≡ₚ (x, mkPage (TupleItem <$> ts) Inv) :: (b, pg) :: (seg (on_page TupleItem <$> (c1 ++ d1)) x ++ [(nb, StatusInitPage)]) ++ rest a1 b (es1 ++ es2) a2) by solve_Permutation.
    rewrite Hperm in Hf'. rewrite (frame_get _ _ _ _ _ _ Hf') by left. cbn [mbind res_bind].
    apply (frame_put _ _ _ (mkPage (TupleItem <$> ts) nb)) in Hf'.
    assert (Hdata : en_data e' = en_data e) by (unfold en_data; cbn; rewrite Hch'; f_equal; by destruct (c1 ++ d1)).
    assert (Htids : en_tids e' = en_tids e) by (unfold en_tids; cbn; rewrite Hch', !fmap_app, !concat_app; cbn; by rewrite app_nil_r).
    assert (Hpg : pg = mkPage (entry_item <$> (es1 ++ e' :: es2)) (first a2 Inv)) by (unfold pg; rewrite !fmap_app, !fmap_cons; unfold entry_item; by rewrite Hdata).
    destruct (store_replace r (put_page r' x (mkPage (TupleItem <$> ts) nb)) e e' max max Hst) as [Hst' Hcont].
    { exists F'. rewrite owned_split, <-Hpg. unfold tuple_pages at 1. cbn [en_chain e']. rewrite fmap_app, seg_app. cbn [fmap list_fmap on_page fst snd seg first].
      eapply frame_perm; [|done..|exact Hf']. unfold StatusInitPage. solve_Permutation. }
    { done. }
    { cbn [en_insert en_chain e']. change [(x, ts); (nb, [])] with ([(x, ts)] ++ [(nb, @nil T)]). rewrite app_assoc, <-Hch', fmap_app.
      apply elem_of_app. left. exact (st_insert _ _ _ Hst _ He). }
    exists (Some (put_page r' x (mkPage (TupleItem <$> ts) nb))), nb, e', ((c1 ++ d1) ++ [(x, ts)]), [], []. cbn [default].
    split_and!; try done.
    + rewrite Hcont, Htids. rewrite insert_id; [done|]. destruct (found_elem _ _ _ Hst (en_sid e) b es1 e) as [_ Hlk]; [|exact Hlk]. split; [done|]. by exists a1, es2, a2.
    + cbn [en_chain e']. by rewrite <-(app_assoc (c1 ++ d1) [(x, ts)]).
    + apply empty_page_room.
    + cbn. unfold put_page. rewrite zlen_insert. lia.
Qed.

(** One page of the chain of an entry, written with other tuples. *)
Lemma write_tuples r e max c1 nb ts ts' c2 : store r (with_entry e) max -> en_chain e = c1 ++ (nb, ts) :: c2 ->
  let e' := mkEntry (en_sid e) (c1 ++ (nb, ts') :: c2) (en_insert e) in
  get_page r nb = Ok (mkPage (TupleItem <$> ts) (first c2 Inv)) /\
  store (put_page r nb (mkPage (TupleItem <$> ts') (first c2 Inv))) (with_entry e') max /\
  content (with_entry e') = <[en_sid e := en_tids e']> (content (with_entry e)) /\ en_data e' = en_data e.
Proof.
  intros Hst Hch e'. destruct (st_frame _ _ _ Hst) as [F Hf].
  assert (Hdata : en_data e' = en_data e) by (unfold en_data; cbn; rewrite Hch; f_equal; by destruct c1).
  set (pg := mkPage (entry_item <$> (es1 ++ e :: es2)) (first a2 Inv)).
  assert (Hpg : pg = mkPage (entry_item <$> (es1 ++ e' :: es2)) (first a2 Inv)) by (unfold pg; rewrite !fmap_app, !fmap_cons; unfold entry_item; by rewrite Hdata).
  assert (Hseg : forall e0 ts0, en_chain e0 = c1 ++ (nb, ts0) :: c2 ->
    seg (tuple_pages e0) Inv ≡ₚ (nb, mkPage (TupleItem <$> ts0) (first c2 Inv)) :: seg (on_page TupleItem <$> c1) nb ++ seg (on_page TupleItem <$> c2) Inv).
  { intros e0 ts0 He0. unfold tuple_pages. rewrite He0, fmap_app, fmap_cons, seg_app. cbn [on_page fst snd seg first].
    rewrite first_map. by rewrite <-Permutation_middle. }
  assert (Hown : forall e0 ts0, en_chain e0 = c1 ++ (nb, ts0) :: c2 -> pg = mkPage (entry_item <$> (es1 ++ e0 :: es2)) (first a2 Inv) ->
    owned (with_entry e0) ≡ₚ (nb, mkPage (TupleItem <$> ts0) (first c2 Inv)) :: (b, pg) :: (seg (on_page TupleItem <$> c1) nb ++ seg (on_page TupleItem <$> c2) Inv) ++ rest a1 b (es1 ++ es2) a2).
  { intros e0 ts0 He0 Hpg0. rewrite owned_split, <-Hpg0, (Hseg e0 ts0 He0). solve_Permutation. }
  rewrite (Hown e ts Hch eq_refl) in Hf. split; [by eapply frame_get; [exact Hf|left]|].
  apply (frame_put _ _ _ (mkPage (TupleItem <$> ts') (first c2 Inv))) in Hf.
  destruct (store_replace r (put_page r nb (mkPage (TupleItem <$> ts') (first c2 Inv))) e e' max max Hst) as [H1 H2]; try done.
  - exists F. by rewrite (Hown e' ts' eq_refl Hpg).
  - cbn. pose proof (st_insert _ _ _ Hst e) as Hi. rewrite entries_split, Hch in Hi. rewrite fmap_app in *. apply Hi. apply elem_of_app. right. left.
Qed.

Lemma array_page_at r e max : store r (with_entry e) max -> get_page r b = Ok (mkPage (entry_item <$> (es1 ++ e :: es2)) (first a2 Inv)).
Proof. intros Hst. destruct (st_frame _ _ _ Hst) as [F Hf]. rewrite owned_split in Hf. by eapply frame_get; [exact Hf|left]. Qed.

(** [StatusUpdateInsertPage] on the right item. *)
Lemma insert_page_updated r e max nb : store r (with_entry e) max -> nb ∈ (en_chain e).*1 -> nb <> en_insert e ->
  let e' := mkEntry (en_sid e) (en_chain e) nb in
  exists r', StatusUpdateInsertPage r (b, zlen es1 + 1) nb = Ok (Some r') /\
    store r' (with_entry e') max /\ content (with_entry e') = content (with_entry e) /\ zlen r' = zlen r.
Proof.
  intros Hst Hnb Hne e'. unfold StatusUpdateInsertPage. cbn [fst snd]. rewrite (array_page_at _ _ _ Hst). cbn [mbind res_bind pg_items].
  assert (He : e ∈ entries (with_entry e)) by (rewrite entries_split; apply elem_of_app; right; left).
  assert (Hx : (entry_item <$> (es1 ++ e :: es2)) !! (zlen es1 + 1 - 1) = Some (entry_item e)).
  { rewrite zlookup_fmap, zlookup_app_r by lia. by replace (zlen es1 + 1 - 1 - zlen es1) with 0 by lia. }
  run. cbn [entry_item as_memtable mbind res_bind]. destruct (Z.eqb_spec nb (memtableInsertPage (en_data e))) as [|_]; [done|].
  destruct (store_chain _ _ _ Hst _ He) as (Hc & _ & _).
  assert (Hv : BlockNumberIsValid nb = true).
  { rewrite <-tuple_pages_blocks, <-(seg_blocks _ Inv) in Hnb. apply list_elem_of_fmap in Hnb as ([c p] & -> & Hp). by destruct (Hc _ _ Hp). }
  assert (Hitems : <[zlen es1 + 1 - 1:=MemtableItem ((en_data e) <| memtableInsertPage := nb |>)]> (entry_item <$> (es1 ++ e :: es2)) = entry_item <$> (es1 ++ e' :: es2)).
  { apply zlist_eq; [by rewrite zlen_insert, !zlen_fmap, !zlen_app, !zlen_cons|]. intros i Hi. rewrite zlookup_insert.
    case_decide as Hc'; [subst i; rewrite Hx; cbn; rewrite zlookup_fmap, zlookup_app_r by lia; by replace (zlen es1 + 1 - 1 - zlen es1) with 0 by lia|].
    rewrite !zlookup_fmap. destruct (decide (i < zlen es1)); [by rewrite !zlookup_app_l by lia|]. rewrite !zlookup_app_r by lia.
    unfold lookup, zlist_lookup. rewrite !decide_True by lia. by replace (Z.to_nat (i - zlen es1)) with (S (Z.to_nat (i - zlen es1 - 1))) by lia. }
  rewrite Hv. cbn [andb negb]. set (pg' := mkPage (entry_item <$> (es1 ++ e' :: es2)) (first a2 Inv)).
  exists (put_page r b pg'). split; [unfold update, pg' in *; cbn [pg_items nextblkno]; by rewrite Hitems|].
  destruct (st_frame _ _ _ Hst) as [F Hf]. rewrite owned_split in Hf. apply (frame_put _ _ _ pg') in Hf.
  destruct (store_replace r (put_page r b pg') e e' max max Hst) as [H1 H2]; [|done|exact Hnb|].
  - exists F. rewrite owned_split. exact Hf.
  - split; [exact H1|]. split; [|apply zlen_insert]. rewrite H2. apply insert_id.
    destruct (found_elem _ _ _ Hst (en_sid e) b es1 e) as [_ Hlk]; [|exact Hlk]. split; [done|]. by exists a1, es2, a2.
Qed.

End changes.

Section operations.
Context `{!PageLaws T}.

Lemma stores_at r s sid ts : stores r s -> s.2 !! sid = Some ts ->
  exists a1 b es1 e es2 a2, store r (a1 ++ (b, es1 ++ e :: es2) :: a2) s.1 /\ content (a1 ++ (b, es1 ++ e :: es2) :: a2) = s.2 /\
    en_sid e = sid /\ en_tids e = ts /\ FindMemtableInsertPage r sid = Ok (Some (b, zlen es1 + 1, en_data e)).
Proof.
  intros (a & Hst & Hc) Hsid. destruct (store_find _ _ _ Hst sid) as [[Hn _]|(b & es1 & e & Hat & Hf)].
  - rewrite <-Hc in Hsid. unfold content in Hsid. by rewrite content_of_None in Hsid.
  - destruct (found_elem _ _ _ Hst _ _ _ _ Hat) as [_ Hlk]. destruct Hat as (He & a1 & es2 & a2 & ->). exists a1, b, es1, e, es2, a2.
    split_and!; try done. rewrite Hc in Hlk. congruence.
Qed.

Lemma stores_absent r s sid : stores r s -> s.2 !! sid = None -> FindMemtableInsertPage r sid = Ok None.
Proof.
  intros (a & Hst & Hc) Hsid. destruct (store_find _ _ _ Hst sid) as [[_ Hf]|(b & es1 & e & Hat & _)]; [done|].
  destruct (found_elem _ _ _ Hst _ _ _ _ Hat) as [_ Hlk]. by rewrite Hc, Hsid in Hlk.
Qed.

(** What an operation guarantees: it works, what its last record leaves, and
    what a crash between its records leaves. *)
Definition ends_in (r : list block) (c : res (list (list block))) (middle final : list block -> Prop) : Prop :=
  exists commits r', c = Ok (commits ++ [r']) /\ final r' /\ zlen r' <= zlen r + 2 /\
    Forall (fun x => (middle x \/ final x) /\ zlen x <= zlen r + 2) commits.

Lemma add_refines r s sid tid ts : stores r s -> zlen r < Inv -> s.2 !! sid = Some ts ->
  exists ts', ts' ≡ₚ tid :: ts /\ ends_in r (AddToStatusMemtable r sid tid) (fun x => stores x s) (fun x => stores x (s.1, <[sid := ts']> s.2)).
Proof.
  intros Hs Hr Hsid. destruct (stores_at _ _ _ _ Hs Hsid) as (a1 & b & es1 & e & es2 & a2 & Hst & Hc & <- & <- & Hf).
  destruct (chain_room a1 b es1 es2 a2 r e s.1 Hst Hr) as (o & nb & e1 & c1 & ts & c2 & Hfr & Hst1 & Hc1 & Hd1 & Ht1 & Hch1 & Hroom & Hz).
  destruct (write_tuples a1 b es1 es2 a2 (default r o) e1 s.1 c1 nb ts (ts ++ [tid]) c2 Hst1 Hch1) as (Hget & Hst2 & Hc2 & Hd2).
  set (e2 := mkEntry (en_sid e1) (c1 ++ (nb, ts ++ [tid]) :: c2) (en_insert e1)) in *. set (r2 := put_page (default r o) nb _) in Hst2.
  assert (Hsid1 : en_sid e1 = en_sid e) by (by injection Hd1). assert (Hins : en_insert e1 = en_insert e) by (by injection Hd1).
  assert (Hts : en_tids e2 ≡ₚ tid :: en_tids e).
  { rewrite <-Ht1. unfold en_tids, e2; cbn. rewrite Hch1, !fmap_app, !concat_app. cbn. solve_Permutation. }
  exists (en_tids e2). split; [done|].
  assert (Hst2' : stores r2 (s.1, <[en_sid e := en_tids e2]> s.2)).
  { eexists; split; [exact Hst2|]. by rewrite Hc2, Hsid1, Hc1, Hc. }
  assert (Hz2 : zlen r2 <= zlen r + 1) by (unfold r2, put_page; by rewrite zlen_insert).
  assert (Hadd : add_tuple r (en_data e) tid = Ok (option_list o ++ [r2], r2, nb)).
  { unfold add_tuple. cbn [en_data memtableInsertPage]. rewrite Hfr. cbn [mbind res_bind]. unfold add_item. rewrite Hget. cbn [mbind res_bind pg_items].
    rewrite (add_item_room _ _ _ Hroom). cbn [of_option mbind res_bind]. unfold r2, update; cbn [pg_items nextblkno]. by rewrite fmap_app. }
  assert (Ho : Forall (fun x => (stores x s \/ stores x (s.1, <[en_sid e := en_tids e2]> s.2)) /\ zlen x <= zlen r + 2) (option_list o)).
  { destruct o as [r1|]; [|done]. apply Forall_singleton. cbn in Hz, Hst1. split; [|lia]. left. eexists; split; [exact Hst1|]. by rewrite Hc1. }
  unfold AddToStatusMemtable. rewrite Hf. cbn [mbind res_bind of_option]. rewrite Hadd. cbn [mbind res_bind].
  destruct (Z.eqb_spec nb (memtableInsertPage (en_data e))) as [Heq|Hne].
  - exists (option_list o), r2. split_and!; try done. lia.
  - destruct (insert_page_updated a1 b es1 es2 a2 r2 e2 s.1 nb Hst2) as (r3 & -> & Hst3 & Hc3 & Hz3).
    { unfold e2; cbn. rewrite fmap_app. apply elem_of_app. right. left. }
    { cbn in *. congruence. }
    cbn [mbind res_bind option_list]. exists (option_list o ++ [r2]), r3. split; [done|].
    assert (Hst3' : stores r3 (s.1, <[en_sid e := en_tids e2]> s.2)) by (eexists; split; [exact Hst3|]; etransitivity; [exact Hc3|]; by rewrite Hc2, Hsid1, Hc1, Hc).
    split; [done|]. split; [lia|]. apply Forall_app. split; [done|]. apply Forall_singleton. split; [by right|lia].
Qed.

Lemma find_tuple_spec (ts : list T) off tid :
  ((tid ∉ ts) /\ find_tuple (TupleItem <$> ts) off tid = Ok None) \/
  (exists l1 l2, ts = l1 ++ tid :: l2 /\ (tid ∉ l1) /\ find_tuple (TupleItem <$> ts) off tid = Ok (Some (off + zlen l1))).
Proof.
  revert off. induction ts as [|x ts IH]; intros off; [left; split; [apply not_elem_of_nil|done]|].
  rewrite fmap_cons. cbn [find_tuple as_tuple mbind res_bind]. case_bool_decide as Hx.
  - right. subst x. exists [], ts. split_and!; [done|apply not_elem_of_nil|by rewrite Z.add_0_r].
  - destruct (IH (off + 1)) as [[Hn Hf]|(l1 & l2 & -> & Hn & Hf)]; rewrite Hf; [left|right].
    + split; [|done]. apply not_elem_of_cons. split; [congruence|done].
    + exists (x :: l1), l2. split_and!; [done|apply not_elem_of_cons; split; [congruence|done]|rewrite zlen_cons; do 2 f_equal; lia].
Qed.

Lemma remove_loop_seg r tid c : on_chain r (on_page TupleItem <$> c) -> forall fuel, (length c < fuel)%nat ->
  ((tid ∉ concat c.*2) /\ remove_loop fuel r (first c Inv) tid = Ok None) \/
  (exists c1 nb l1 l2 c2, c = c1 ++ (nb, l1 ++ tid :: l2) :: c2 /\ (tid ∉ concat c1.*2 ++ l1) /\
     remove_loop fuel r (first c Inv) tid = Ok (Some (put_page r nb (mkPage (TupleItem <$> (l1 ++ l2)) (first c2 Inv))))).
Proof.
  induction c as [|[b ts] c IH]; intros Hc [|fuel] Hf; cbn in Hf; try lia; [left; split; [apply not_elem_of_nil|done]|].
  cbn [first fst remove_loop]. destruct (on_chain_cons r b (TupleItem <$> ts) (list_fmap _ _ (on_page TupleItem) c) Hc) as (-> & -> & Hc').
  change (list_fmap _ _ (on_page TupleItem) c) with (on_page TupleItem <$> c) in *.
  cbn [mbind res_bind pg_items nextblkno]. destruct (find_tuple_spec ts 1 tid) as [[Hn ->]|(l1 & l2 & -> & Hn & ->)]; cbn [mbind res_bind].
  - rewrite first_map. destruct (IH Hc' fuel) as [[Hn' Hr]|(c1 & nb & l1 & l2 & c2 & -> & Hn' & Hr)]; [lia|left|right]; rewrite Hr.
    + split; [|done]. cbn. rewrite elem_of_app. by intros [?|?].
    + exists ((b, ts) :: c1), nb, l1, l2, c2. split_and!; try done. cbn. rewrite <-app_assoc, elem_of_app. by intros [?|?].
  - right. exists [], b, l1, l2, c. split_and!; try done. unfold update; cbn [pg_items nextblkno]. rewrite first_map, fmap_app, fmap_cons.
    rewrite (Z.add_comm 1 (zlen l1)), <-(zlen_fmap TupleItem l1), delete_item. by rewrite fmap_app.
Qed.

Lemma remove_refines r s sid tid ts : stores r s -> s.2 !! sid = Some ts ->
  ((tid ∉ ts) /\ RemoveFromStatusMemtable r sid tid = Ok (false, [])) \/
  (exists l1 l2 r', ts = l1 ++ tid :: l2 /\ (tid ∉ l1) /\ RemoveFromStatusMemtable r sid tid = Ok (true, [r']) /\
     stores r' (s.1, <[sid := l1 ++ l2]> s.2) /\ zlen r' = zlen r).
Proof.
  intros Hs Hsid. destruct (stores_at _ _ _ _ Hs Hsid) as (a1 & b & es1 & e & es2 & a2 & Hst & Hc & <- & <- & Hf).
  assert (He : e ∈ entries (a1 ++ (b, es1 ++ e :: es2) :: a2)) by (rewrite entries_split; apply elem_of_app; right; left).
  destruct (store_chain _ _ _ Hst _ He) as (Hch & Hl & Hne). unfold RemoveFromStatusMemtable. rewrite Hf. cbn [mbind res_bind en_data memtablePageHead].
  rewrite <-first_tuple_pages, (on_chain_first _ _ Hch), first_tuple_pages by (unfold tuple_pages; by destruct (en_chain e)).
  destruct (remove_loop_seg r tid _ Hch _ Hl) as [[Hn ->]|(c1 & nb & l1 & l2 & c2 & Hsp & Hn & ->)]; cbn [mbind res_bind]; [by left|right].
  destruct (write_tuples a1 b es1 es2 a2 r e s.1 c1 nb (l1 ++ tid :: l2) (l1 ++ l2) c2 Hst Hsp) as (_ & Hst2 & Hc2 & _).
  exists (concat c1.*2 ++ l1), (l2 ++ concat c2.*2). eexists.
  assert (Hts : en_tids e = (concat c1.*2 ++ l1) ++ tid :: l2 ++ concat c2.*2) by (unfold en_tids; rewrite Hsp, fmap_app, concat_app; cbn; by rewrite <-!app_assoc).
  split_and!; [done|done|done| |apply zlen_insert].
  eexists; split; [exact Hst2|]. rewrite Hc2, Hc. cbn. do 2 f_equal. unfold en_tids; cbn. rewrite fmap_app, concat_app; cbn. by rewrite <-!app_assoc.
Qed.

(** *** Registering *)

Lemma array_room r a max : store r a max -> zlen r < Inv ->
  exists o b a1 es a2, find_room MEMTABLE_ITEM_SIZE (fun r => Ok (new_page r)) (walk_fuel r) r STATUS_MEMTABLE_ARRAY_BLKNO = Ok (o, b) /\
    store (default r o) (a1 ++ (b, es) :: a2) max /\ entries (a1 ++ (b, es) :: a2) = entries a /\
    MEMTABLE_ITEM_SIZE < PageGetFreeSpace (entry_item <$> es) /\ zlen (default r o) <= zlen r + 1.
Proof.
  intros Hst Hr. destruct (store_on_chain _ _ _ Hst) as [Hc Hl]. pose proof (st_array _ _ _ Hst) as Ha.
  assert (Hne : array_pages a <> []) by (by destruct a). rewrite <-(length_fmap (on_page entry_item) a) in Hl.
  destruct (find_room_seg MEMTABLE_ITEM_SIZE (fun r => Ok (new_page r)) r _ Hc Hne _ Hl) as [(l1 & b & its & l2 & Hsp & Hroom & Hfr)|(l1 & x & its & Hsp & Hfr)];
    rewrite first_array_pages, Ha in Hfr; rewrite Hfr; destruct (page_inv _ _ _ _ _ _ Hsp) as (a1 & es & a2 & -> & -> & Ha2).
  - exists None, b, a1, es, a2. cbn [default]. split_and!; try done. lia.
  - destruct a2; [|done]. clear Ha2 Hsp. destruct (st_frame _ _ _ Hst) as [F Hf]. apply frame_new in Hf; [|done]. cbn [new_page fst snd] in Hf.
    rewrite owned_page in Hf. cbn [first] in Hf.
    assert (Hperm : (zlen r, StatusInitPage) :: (x, mkPage (entry_item <$> es) Inv) :: rest a1 x es [] ≡ₚ
      (x, mkPage (entry_item <$> es) Inv) :: (zlen r, StatusInitPage) :: rest a1 x es []) by solve_Permutation.
    rewrite Hperm in Hf. cbn [mbind res_bind new_page]. rewrite (frame_get _ _ _ _ _ _ Hf) by left. cbn [mbind res_bind].
    apply (frame_put _ _ _ (mkPage (entry_item <$> es) (zlen r))) in Hf.
    set (r2 := put_page _ x (mkPage _ (zlen r))) in Hf.
    assert (Hent : entries ((a1 ++ [(x, es)]) ++ [(zlen r, [])]) = entries (a1 ++ [(x, es)])) by (rewrite (entries_app (a1 ++ _)); apply app_nil_r).
    exists (Some r2), (zlen r), (a1 ++ [(x, es)]), [], []. cbn [default from_option].
    split_and!; [done| |done|apply empty_page_room|cbn; unfold r2, put_page; rewrite zlen_insert, zlen_app, zlen_cons, zlen_nil; lia].
    destruct Hst as [_ H2 H3 H4]. split.
    + exists F. eapply frame_perm; [|done..|exact Hf]. unfold owned. rewrite Hent, !array_pages_app, seg_app. unfold rest. rewrite entries_app.
      rewrite first_array_pages. cbn [first array_pages fmap list_fmap on_page seg fst snd chains entries]. rewrite seg_app. cbn.
      unfold StatusInitPage. rewrite !app_nil_r. solve_Permutation.
    + rewrite !first_app in *. by destruct a1.
    + intros e He. rewrite Hent in He. by apply H3.
    + by rewrite Hent.
Qed.

Lemma set_max r a max max' : store r a max ->
  exists r', UpdateMaxMemtableSid r max' = Ok r' /\ store r' a max' /\ zlen r' = zlen r.
Proof.
  intros [[F Hf] H2 H3 H4]. unfold UpdateMaxMemtableSid. rewrite (frame_get_meta _ _ _ _ Hf). cbn [mbind res_bind].
  eexists; split; [done|]. split; [|apply zlen_insert]. split; try done. exists F. by apply (frame_put_meta _ _ _ max).
Qed.

Lemma register_refines r s sid : stores r s -> zlen r + 1 < Inv -> s.2 !! sid = None ->
  ends_in r (RegisterStatusMemtable r sid) (fun x => stores x (sid, s.2)) (fun x => stores x (sid, <[sid := []]> s.2)).
Proof.
  intros (a & Hst & Hc) Hr Hsid. unfold RegisterStatusMemtable. destruct (set_max _ _ _ sid Hst) as (r1 & -> & Hst1 & Hz1). cbn [mbind res_bind].
  destruct (array_room r1 a sid Hst1) as (o & b & a1 & es & a2 & -> & Hst2 & Hent & Hroom & Hz2); [lia|]. cbn [mbind res_bind].
  destruct (st_frame _ _ _ Hst2) as [F Hf]. destruct (frame_free_or_new _ _ _ _ Hf) as (mb & r3 & F3 & -> & Hf3 & Hz3 & _); [lia|]. cbn [mbind res_bind].
  rewrite owned_page in Hf3.
  assert (Hperm : forall p, (mb, StatusInitPage) :: (b, p) :: rest a1 b es a2 ≡ₚ (b, p) :: (mb, StatusInitPage) :: rest a1 b es a2) by (intros p; constructor).
  rewrite Hperm in Hf3. unfold add_item. rewrite (frame_get _ _ _ _ _ _ Hf3) by left. cbn [mbind res_bind pg_items].
  rewrite (add_item_room _ _ _ Hroom). cbn [of_option mbind res_bind]. unfold update; cbn [pg_items nextblkno].
  set (e := mkEntry sid [(mb, [])] mb). change (MemtableItem (mkStatusMemtable mb mb sid)) with (entry_item e).
  change [entry_item e] with (entry_item <$> [e]). rewrite <-fmap_app.
  apply (frame_put _ _ _ (mkPage (entry_item <$> (es ++ [e])) (first a2 Inv))) in Hf3. set (r4 := put_page r3 b _) in *.
  assert (Hent4 : entries (a1 ++ (b, es ++ [e]) :: a2) = (entries a1 ++ es) ++ e :: entries a2) by apply (entries_split a1 b es e [] a2).
  assert (Hent2 : entries a = (entries a1 ++ es) ++ entries a2) by (rewrite <-Hent, entries_app, entries_cons; by rewrite <-app_assoc).
  assert (Hfresh : sid ∉ (en_sid <$> entries a)).
  { intros (e0 & -> & He0)%list_elem_of_fmap. assert (Hlk : content_of (entries a) !! en_sid e0 = Some (en_tids e0)); [|fold (content a) in Hlk; rewrite Hc in Hlk; congruence].
    unfold content_of. apply elem_of_list_to_map_1; [rewrite <-list_fmap_compose; apply (st_sids _ _ _ Hst)|]. apply list_elem_of_fmap. by exists e0. }
  assert (Hn : NoDup (en_sid <$> ((entries a1 ++ es) ++ e :: entries a2))).
  { rewrite <-Permutation_middle, <-Hent2, fmap_cons. apply NoDup_cons. split; [exact Hfresh|apply (st_sids _ _ _ Hst)]. }
  assert (Hst4 : stores r4 (sid, <[sid := []]> s.2)).
  { exists (a1 ++ (b, es ++ [e]) :: a2). split.
    - cbn [fst]. destruct Hst2 as [_ H2 H3 H4]. split.
      + exists F3. rewrite (owned_split a1 b es e [] a2), app_nil_r. cbn [seg tuple_pages en_chain e fmap list_fmap on_page fst snd first].
        eapply frame_perm; [|done..|exact Hf3]. unfold StatusInitPage. rewrite fmap_app. done.
      + rewrite first_app in *. by destruct a1.
      + intros e0. rewrite Hent4, elem_of_app, elem_of_cons. rewrite Hent, Hent2 in H3. intros [He0|[->|He0]]; [apply H3, elem_of_app; by left|left|apply H3, elem_of_app; by right].
      + rewrite Hent4. exact Hn.
    - unfold content. rewrite Hent4. destruct (content_of_middle _ _ _ Hn) as [-> _]. rewrite <-Hent2. fold (content a). by rewrite Hc. }
  exists (r1 :: option_list o), r4. split; [done|]. split; [exact Hst4|].
  assert (Hz4 : zlen r4 = zlen r3) by apply zlen_insert. split; [lia|]. apply Forall_cons. split.
  - split; [left; by exists a|lia].
  - destruct o as [r2|]; [|done]. apply Forall_singleton. cbn in Hz2, Hst2. split; [left|lia].
    eexists; split; [exact Hst2|]. unfold content. by rewrite Hent.
Qed.

(** *** Releasing *)

Lemma holds_put r Q b p p' : NoDup ((b, p) :: Q).*1 -> (forall c q, (c, q) ∈ (b, p) :: Q -> 2 <= c /\ r !! c = Some (StatusBlock q)) ->
  forall c q, (c, q) ∈ (b, p') :: Q -> 2 <= c /\ put_page r b p' !! c = Some (StatusBlock q).
Proof.
  intros Hn Hq c q [[= -> ->]|Hc]%elem_of_cons.
  - destruct (Hq b p) as [Hb Hr]; [left|]. split; [done|]. by eapply zlookup_insert_eq.
  - destruct (Hq c q) as [Hc2 Hr]; [by right|]. split; [done|]. unfold put_page. rewrite zlookup_insert_ne; [done|]. intros ->.
    cbn in Hn. apply NoDup_cons in Hn as [Hn _]. apply Hn. apply list_elem_of_fmap. by exists (c, q).
Qed.

Lemma frame_free r P F c max : frame r (seg c Inv ++ P) F max -> c <> [] ->
  exists meta r', get_meta r = Ok meta /\ frame r' P (F ++ c) max /\ zlen r' = zlen r /\
    (if negb (BlockNumberIsValid (freePageHead meta))
     then Ok (put_meta r (meta <| freePageHead := first c Inv |> <| freePageTail := default Inv (last c.*1) |>))
     else t ← get_page r (freePageTail meta);
          Ok (put_meta (put_page r (freePageTail meta) (t <| nextblkno := first c Inv |>)) (meta <| freePageTail := default Inv (last c.*1) |>))) = Ok r'.
Proof.
  intros Hf Hne. exists (mkMeta (first F Inv) (default Inv (last F.*1)) max). rewrite (frame_get_meta _ _ _ _ Hf). pose proof Hf as [H1 H2 H3 H4 H5]. cbn [freePageHead freePageTail].
  assert (Hlast : last (F ++ c).*1 = last c.*1) by (destruct c as [|x c _] using rev_ind; [done|]; rewrite !fmap_app, app_assoc; cbn; by rewrite !last_snoc).
  destruct F as [|f F _] using rev_ind.
  - cbn [first]. change (BlockNumberIsValid Inv) with false. cbn [negb]. eexists. split_and!; [done| |apply zlen_insert|done].
    cbn [app]. unfold update; cbn [max_memtable_sid]. cbn [seg] in H1, H2. rewrite app_nil_r in H1.
    assert (Hp : seg c Inv ++ P ≡ₚ P ++ seg c Inv) by apply Permutation_app_comm. split.
    + by rewrite <-Hp.
    + intros b p Hb. rewrite <-Hp in Hb. destruct (H2 b p) as [Hb2 Hr]; [by rewrite app_nil_r|]. split; [done|]. unfold put_meta, STATUS_METAPAGE_BLKNO. by rewrite zlookup_insert_ne by lia.
    + by eapply zlookup_insert_eq.
    + unfold put_meta. rewrite zlen_insert. rewrite zlen_app, zlen_seg, zlen_nil in H4. lia.
    + unfold put_meta. by rewrite zlen_insert.
  - destruct f as [x its]. assert (Hv : BlockNumberIsValid (first (F ++ [(x, its)]) Inv) = true).
    { assert (Hin : exists p, (first (F ++ [(x, its)]) Inv, p) ∈ seg (F ++ [(x, its)]) Inv) by (destruct F as [|[y its'] F]; eexists; by left).
      destruct Hin as [p Hin]. destruct (H2 (first (F ++ [(x, its)]) Inv) p) as [Hb2 Hr%zlookup_lt_Some]; [apply elem_of_app; by right|]. apply valid_block. lia. }
    rewrite Hv. cbn [negb]. assert (Htail : default Inv (last (F ++ [(x, its)]).*1) = x) by (rewrite fmap_app; cbn; by rewrite last_snoc). rewrite Htail.
    assert (Hseg : forall nxt tl, seg (F ++ [(x, its)]) nxt ++ tl ≡ₚ (x, mkPage its nxt) :: seg F x ++ tl) by (intros nxt tl; rewrite seg_app; cbn; solve_Permutation).
    assert (Hold : (seg c Inv ++ P) ++ seg (F ++ [(x, its)]) Inv ≡ₚ (x, mkPage its Inv) :: seg F x ++ seg c Inv ++ P)
      by (rewrite Permutation_app_comm; apply Hseg).
    assert (Hnew : P ++ seg ((F ++ [(x, its)]) ++ c) Inv ≡ₚ (x, mkPage its (first c Inv)) :: seg F x ++ seg c Inv ++ P).
    { rewrite (seg_app (F ++ _)), Permutation_app_comm, <-app_assoc. apply Hseg. }
    assert (H2' : forall b p, (b, p) ∈ (x, mkPage its Inv) :: seg F x ++ seg c Inv ++ P -> 2 <= b /\ r !! b = Some (StatusBlock p)) by (intros b p; rewrite <-Hold; apply H2).
    rewrite Hold in H1. destruct (H2' x (mkPage its Inv)) as [Hx Hrx]; [left|]. rewrite (get_page_Some _ _ _ Hrx). cbn [mbind res_bind].
    unfold update; cbn [pg_items nextblkno freePageHead max_memtable_sid]. eexists. split_and!; [done| | |done].
    + split.
      * rewrite Hnew. exact H1.
      * intros b p. rewrite Hnew. intros Hb. destruct (holds_put r _ _ _ _ H1 H2' b p Hb) as [Hb2 Hr]. split; [done|].
        unfold put_meta, STATUS_METAPAGE_BLKNO. by rewrite zlookup_insert_ne by lia.
      * unfold put_meta, STATUS_METAPAGE_BLKNO, put_page. erewrite zlookup_insert_eq by (rewrite zlookup_insert_ne by lia; exact H3).
        rewrite Hlast, first_app. by destruct F.
      * unfold put_meta, put_page. rewrite !zlen_insert. rewrite zlen_app, zlen_seg in H4. rewrite zlen_app. lia.
      * unfold put_meta, put_page. by rewrite !zlen_insert.
    + unfold put_meta, put_page. by rewrite !zlen_insert.
Qed.

Definition last_block (e : entry) : Z := default Inv (last (en_chain e).*1).
Definition tail_found (r : list block) (e : entry) : Prop :=
  BlockNumberIsValid (en_insert e) = true /\ chain_tail (walk_fuel r) r (en_insert e) = Ok (last_block e).

Lemma store_tail r a max e : store r a max -> e ∈ entries a -> tail_found r e.
Proof.
  intros Hst He. destruct (store_chain _ _ _ Hst _ He) as (Hc & Hl & _). destruct (insert_suffix _ _ _ Hst _ He) as (c1 & ts & c2 & Hch).
  assert (Hc2 : on_chain r (on_page TupleItem <$> ((en_insert e, ts) :: c2))) by (unfold tuple_pages in Hc; rewrite Hch, fmap_app in Hc; by apply on_chain_app in Hc).
  split; [by apply (on_chain_first _ _ Hc2)|]. change (en_insert e) with (first ((en_insert e, ts) :: c2) Inv) at 1. rewrite <-(first_map TupleItem).
  rewrite (chain_tail_seg _ _ Hc2) by (done || (rewrite length_fmap; rewrite Hch, length_app in Hl; lia)). rewrite map_blocks. unfold last_block. rewrite Hch, fmap_app.
  by rewrite last_app, fmap_cons, last_cons; destruct (last c2.*1).
Qed.

Lemma release_in_page_spec r es off sid : (forall e, e ∈ es -> tail_found r e) ->
  release_in_page r (entry_item <$> es) off sid =
    match list_find (fun e => en_sid e = sid) es with
    | Some (i, e) => Ok (Some (off + Z.of_nat i, en_data e, last_block e))
    | None => Ok None
    end.
Proof.
  revert off. induction es as [|e es IH]; intros off Ht; [done|]. rewrite fmap_cons. cbn [release_in_page list_find entry_item as_memtable mbind res_bind].
  destruct (Ht e) as [Hv Htail]; [left|]. cbn [en_data memtableInsertPage st_sid]. rewrite Hv, Htail. cbn [mbind res_bind].
  destruct (Z.eqb_spec (en_sid e) sid) as [He|He]; [rewrite decide_True by done; cbn; by rewrite Z.add_0_r|].
  rewrite decide_False by done. rewrite IH by (intros x Hx; apply Ht; by right). destruct (list_find _ es) as [[i e']|]; cbn; [|done].
  do 4 f_equal. lia.
Qed.

Lemma release_loop_seg r sid a : on_chain r (array_pages a) -> (forall e, e ∈ entries a -> tail_found r e) -> forall fuel, (length a < fuel)%nat ->
  ((sid ∉ (en_sid <$> entries a)) /\ release_loop fuel r (first a Inv) sid = Ok []) \/
  (exists b es1 e, found_at a sid b es1 e /\
     release_loop fuel r (first a Inv) sid = (r' ← release_pages r b (zlen es1 + 1) (en_data e) (last_block e); Ok [r'])).
Proof.
  induction a as [|[b es] a IH]; intros Hc Ht [|fuel] Hf; cbn in Hf; try lia; [left; split; [by apply not_elem_of_nil|done]|].
  cbn [first fst release_loop]. destruct (on_chain_cons r b (entry_item <$> es) (array_pages a) Hc) as (-> & -> & Hc'). cbn [mbind res_bind pg_items nextblkno].
  rewrite release_in_page_spec by (intros e He; apply Ht; rewrite entries_cons; apply elem_of_app; by left).
  destruct (list_find _ es) as [[i e]|] eqn:He; cbn [mbind res_bind].
  - right. apply list_find_Some in He as (Hi & Hsid & _). pose proof (take_drop_middle _ _ _ Hi) as Hes.
    exists b, (take i es), e. split; [split; [done|]; exists [], (drop (S i) es), a; by rewrite Hes|].
    replace (zlen (take i es) + 1) with (1 + Z.of_nat i); [done|]. unfold zlen. rewrite length_take. apply lookup_lt_Some in Hi. lia.
  - rewrite first_array_pages.
    destruct (IH Hc' ltac:(intros e Hin; apply Ht; rewrite entries_cons; apply elem_of_app; by right) fuel) as [[Hs Hr]|(b' & es1 & e & [Hs (a1 & es2 & a2 & Ha)] & Hr)];
      [lia|left|right]; rewrite Hr.
    + split; [|done]. rewrite entries_cons, fmap_app, elem_of_app. intros [Hin|Hin]; [|done]. cbn in Hin.
      apply list_find_None in He. apply list_elem_of_fmap in Hin as (e & -> & He'). rewrite Forall_forall in He. by apply (He e).
    + exists b', es1, e. split; [|done]. split; [done|]. exists ((b, es) :: a1), es2, a2. by rewrite Ha.
Qed.

Lemma release_refines r s sid : stores r s ->
  (s.2 !! sid = None /\ ReleaseStatusMemtable r sid = Ok []) \/
  (is_Some (s.2 !! sid) /\ exists r', ReleaseStatusMemtable r sid = Ok [r'] /\ stores r' (s.1, delete sid s.2) /\ zlen r' = zlen r).
Proof.
  intros (a & Hst & Hc). destruct (store_on_chain _ _ _ Hst) as [Hch Hl]. unfold ReleaseStatusMemtable. rewrite <-(st_array _ _ _ Hst).
  destruct (release_loop_seg r sid a Hch) with (fuel := walk_fuel r) as [[Hn Hrel]|(b & es1 & e & (Hsid & a1 & es2 & a2 & ->) & Hrel)];
    [by intros e He; eapply store_tail|done|left|right]; rewrite Hrel.
  { split; [|done]. rewrite <-Hc. by apply content_of_None. }
  pose proof (st_sids _ _ _ Hst) as Hn. rewrite entries_split in Hn. destruct (content_of_middle _ _ _ Hn) as [Hc1 Hc2].
  unfold content in Hc. rewrite entries_split, Hc1 in Hc. rewrite <-Hc, <-Hsid, lookup_insert_eq. split; [done|].
  assert (He : e ∈ entries (a1 ++ (b, es1 ++ e :: es2) :: a2)) by (rewrite entries_split; apply elem_of_app; right; left).
  destruct (store_chain _ _ _ Hst _ He) as (_ & _ & Hne). destruct (st_frame _ _ _ Hst) as [F Hf]. rewrite owned_split in Hf.
  rewrite Permutation_middle in Hf. destruct (frame_free r _ F (tuple_pages e) s.1 Hf) as (meta & r1 & Hm & Hf1 & Hz1 & Hr1); [unfold tuple_pages; by destruct (en_chain e)|].
  rewrite first_tuple_pages, tuple_pages_blocks in Hr1. unfold release_pages. rewrite Hm. cbn [mbind res_bind en_data memtablePageHead]. unfold last_block.
  rewrite Hr1. cbn [mbind res_bind]. rewrite (frame_get _ _ _ _ _ _ Hf1) by left. cbn [mbind res_bind].
  unfold update; cbn [pg_items nextblkno]. rewrite fmap_app, fmap_cons, <-(zlen_fmap entry_item es1), delete_item, <-fmap_app.
  apply (frame_put _ _ _ (mkPage (entry_item <$> (es1 ++ es2)) (first a2 Inv))) in Hf1. eexists; split; [done|].
  split; [|unfold put_page; by rewrite zlen_insert]. exists (a1 ++ (b, es1 ++ es2) :: a2).
  assert (Hent : entries (a1 ++ (b, es1 ++ es2) :: a2) = (entries a1 ++ es1) ++ es2 ++ entries a2) by (rewrite entries_app, entries_cons; cbn; by rewrite <-!app_assoc).
  split; [destruct Hst as [_ H2 H3 _]; split|].
  - exists (F ++ tuple_pages e). cbn [fst]. by rewrite owned_page.
  - rewrite first_app in *. by destruct a1.
  - intros x. rewrite Hent, elem_of_app. rewrite entries_split in H3. intros [Hx|Hx]; apply H3, elem_of_app; [by left|right; by right].
  - rewrite Hent. rewrite <-Permutation_middle, fmap_cons in Hn. by apply NoDup_cons in Hn as [_ ?].
  - unfold content. rewrite Hent. cbn [snd]. by rewrite delete_insert_id.
Qed.

(** ** Calls *)

Inductive status_call := CallRegister (sid : Z) | CallAdd (sid : Z) (tid : T) | CallRemove (sid : Z) (tid : T) | CallRelease (sid : Z).

Definition run_call (c : status_call) (r : list block) : res (list (list block)) :=
  match c with
  | CallRegister sid => RegisterStatusMemtable r sid
  | CallAdd sid tid => AddToStatusMemtable r sid tid
  | CallRemove sid tid => o ← RemoveFromStatusMemtable r sid tid; Ok o.2
  | CallRelease sid => ReleaseStatusMemtable r sid
  end.
Definition after (r : list block) (commits : list (list block)) : list block := default r (last commits).

(** The index relation after [CREATE INDEX]; block 0 is the access method's. *)
Definition created : list block := InitializeStatusMemtableArray (CreateStatusMetaPage [OtherBlock]).

(** A memtable id is registered once; blocks can still be numbered. *)
Definition permitted (c : status_call) (r : list block) : Prop :=
  zlen r + 1 < Inv /\ match c with CallRegister sid => FindMemtableInsertPage r sid = Ok None | _ => True end.

(** A call, or a crash after any of its records. *)
Definition status_step (r r' : list block) : Prop :=
  exists c commits, permitted c r /\ run_call c r = Ok commits /\ (r' = after r commits \/ r' ∈ commits).

(** *** The specification: the largest id and a map from ids to tuples *)

Inductive effect : status_call -> Z * gmap Z (list T) -> Z * gmap Z (list T) -> Prop :=
  | registers sid max m : m !! sid = None -> effect (CallRegister sid) (max, m) (sid, <[sid := []]> m)
  | adds sid tid max m ts ts' : m !! sid = Some ts -> ts' ≡ₚ tid :: ts -> effect (CallAdd sid tid) (max, m) (max, <[sid := ts']> m)
  | removes sid tid max m l1 l2 : m !! sid = Some (l1 ++ tid :: l2) -> tid ∉ l1 -> effect (CallRemove sid tid) (max, m) (max, <[sid := l1 ++ l2]> m)
  | removes_nothing sid tid max m : tid ∉ default [] (m !! sid) -> effect (CallRemove sid tid) (max, m) (max, m)
  | releases sid max m : effect (CallRelease sid) (max, m) (max, delete sid m).

(** What the readers of the pages return. *)
Definition shows (r : list block) (s : Z * gmap Z (list T)) : Prop :=
  GetStatusGrowingSid r = Ok s.1 /\
  (exists sids, GetStatusMemtableSids r = Ok (match sids with [] => None | _ => Some sids end) /\ sids ≡ₚ (map_to_list s.2).*1) /\
  forall sid, (forall ts, s.2 !! sid = Some ts -> zlen ts <= MEMTABLE_MAX_CAPACITY) -> GetStatusMemtableTids r sid = Ok (s.2 !! sid).

Lemma stores_shows r s : stores r s -> shows r s.
Proof. intros Hs. split; [by apply growing_sid_reads|]. split; [by apply sids_read|]. intros sid. by apply tids_read. Qed.

(** One call: its effect, and the states a crash can leave. *)
Lemma call_refines r s c : stores r s -> permitted c r -> (forall sid tid, c = CallAdd sid tid -> is_Some (s.2 !! sid)) ->
  exists commits s', run_call c r = Ok commits /\ effect c s s' /\ stores (after r commits) s' /\
    forall x, x ∈ commits -> stores x s \/ stores x s' \/ exists sid, c = CallRegister sid /\ stores x (sid, s.2).
Proof.
  intros Hs [Hr Hp] Ha. destruct s as [max m]. unfold after. destruct c as [sid|sid tid|sid tid|sid]; cbn [run_call].
  - assert (Hm : m !! sid = None).
    { destruct (m !! sid) as [ts|] eqn:Hsid; [|done]. destruct (stores_at _ _ _ _ Hs Hsid) as (? & ? & ? & ? & ? & ? & _ & _ & _ & _ & Hf). congruence. }
    destruct (register_refines _ _ sid Hs Hr Hm) as (commits & r' & -> & Hfin & _ & Hmid). eexists _, _. split; [done|]. split; [by constructor|].
    rewrite last_snoc. split; [exact Hfin|]. rewrite Forall_forall in Hmid. intros x [Hx| ->%list_elem_of_singleton]%elem_of_app; [|by right; left].
    destruct (Hmid x Hx) as [[Hx'|Hx'] _]; [right; right; by exists sid|by right; left].
  - destruct (Ha sid tid eq_refl) as [ts Hsid]. destruct (add_refines _ _ sid tid ts Hs ltac:(lia) Hsid) as (ts' & Hts & commits & r' & -> & Hfin & _ & Hmid).
    eexists _, _. split; [done|]. split; [by econstructor|]. rewrite last_snoc. split; [exact Hfin|]. rewrite Forall_forall in Hmid.
    intros x [Hx| ->%list_elem_of_singleton]%elem_of_app; [|by right; left]. destruct (Hmid x Hx) as [[Hx'|Hx'] _]; [by left|by right; left].
  - destruct (m !! sid) as [ts|] eqn:Hsid.
    + destruct (remove_refines _ _ sid tid ts Hs Hsid) as [[Hn ->]|(l1 & l2 & r' & -> & Hn & -> & Hfin & _)]; cbn [mbind res_bind snd].
      * exists [], (max, m). split_and!; [done|constructor; by rewrite Hsid|done|by intros x ?%elem_of_nil].
      * eexists [r'], _. split_and!; [done|by constructor|exact Hfin|]. intros x ->%list_elem_of_singleton. by right; left.
    + unfold RemoveFromStatusMemtable. rewrite (stores_absent _ _ _ Hs Hsid). cbn [mbind res_bind snd].
      exists [], (max, m). split_and!; [done|constructor; rewrite Hsid; apply not_elem_of_nil|done|by intros x ?%elem_of_nil].
  - destruct (release_refines _ _ sid Hs) as [[Hn ->]|[_ (r' & -> & Hfin & _)]].
    + exists [], (max, m). split_and!; [done| |done|by intros x ?%elem_of_nil]. cbn in Hn. rewrite <-(delete_id m sid Hn) at 2. constructor.
    + eexists [r'], _. split_and!; [done|constructor|exact Hfin|]. intros x ->%list_elem_of_singleton. by right; left.
Qed.

Lemma created_stores : stores created (0, ∅).
Proof.
  exists [(2, [])]. split; [|done]. split; [|done| |constructor].
  - exists []. split.
    + cbn. apply NoDup_singleton.
    + cbn. by intros b p [= -> ->]%list_elem_of_singleton.
    + done.
    + done.
    + done.
  - by intros e ?%elem_of_nil.
Qed.

Lemma reachable_stores r : rtc status_step created r -> exists s, stores r s.
Proof.
  intros Hr. pose proof (ex_intro (stores created) _ created_stores) as H0. revert H0. induction Hr as [|r1 r2 r3 (c & commits & Hp & Hc & Hcases) _ IH]; [done|].
  intros [s Hs]. apply IH.
  assert (Hadd : forall sid tid, c = CallAdd sid tid -> is_Some (s.2 !! sid)).
  { intros sid tid ->. cbn [run_call] in Hc. destruct (s.2 !! sid) eqn:Hsid; [done|]. unfold AddToStatusMemtable in Hc. by rewrite (stores_absent _ _ _ Hs Hsid) in Hc. }
  destruct (call_refines _ _ _ Hs Hp Hadd) as (commits' & s' & Hc' & _ & Hfin & Hmid). rewrite Hc in Hc'. injection Hc' as <-.
  destruct Hcases as [->|Hin]; [by exists s'|]. destruct (Hmid _ Hin) as [Hx|[Hx|(sid & _ & Hx)]]; by eexists.
Qed.

(** ** The shape of the pages *)

Fixpoint walk (fuel : nat) (r : list block) (b : Z) : res (list Z) :=
  match fuel with
  | O => Error OutOfFuel
  | S fuel =>
      if BlockNumberIsValid b then p ← get_page r b; l ← walk fuel r (nextblkno p); Ok (b :: l) else Ok []
  end.

(** The chain of a memtable consists of pages of tuples and holds its insert page. *)
Definition typed_chain (r : list block) (m : StatusMemtableData) (c : list Z) : Prop :=
  walk (walk_fuel r) r (memtablePageHead m) = Ok c /\ memtableInsertPage m ∈ c /\
  exists ts, chain_items (walk_fuel r) r (memtablePageHead m) = Ok (TupleItem <$> ts).

(** Every page is on one chain and holds items of the kind of its chain. *)
Definition typed (r : list block) : Prop :=
  exists array ms chains free meta,
    walk (walk_fuel r) r STATUS_MEMTABLE_ARRAY_BLKNO = Ok array /\
    chain_items (walk_fuel r) r STATUS_MEMTABLE_ARRAY_BLKNO = Ok (MemtableItem <$> ms) /\ NoDup (st_sid <$> ms) /\
    Forall2 (typed_chain r) ms chains /\
    get_meta r = Ok meta /\ walk (walk_fuel r) r (freePageHead meta) = Ok free /\ freePageTail meta = default Inv (last free) /\
    array ++ concat chains ++ free ≡ₚ seqZ 2 (zlen r - 2).

Lemma walk_seg r l : on_chain r l -> forall fuel, (length l < fuel)%nat -> walk fuel r (first l Inv) = Ok l.*1.
Proof.
  induction l as [|[b its] l IH]; intros Hc [|fuel] Hf; cbn in Hf; try lia; [done|]. cbn [first fst walk].
  destruct (on_chain_cons _ _ _ _ Hc) as (-> & -> & Hc'). cbn [mbind res_bind nextblkno]. by rewrite IH by (done || lia).
Qed.

Lemma all_blocks (l : list Z) lo n : NoDup l -> (forall b, b ∈ l -> lo <= b < lo + n) -> zlen l = n -> l ≡ₚ seqZ lo n.
Proof.
  intros Hn Hl Hlen. apply submseteq_length_Permutation; [|unfold zlen in Hlen; rewrite length_seqZ; lia].
  apply NoDup_submseteq; [done|]. intros b Hb. apply elem_of_seqZ. by apply Hl.
Qed.

Lemma owned_blocks a : (owned a).*1 = a.*1 ++ concat ((fun e => (en_chain e).*1) <$> entries a).
Proof.
  unfold owned. rewrite fmap_app, seg_blocks. unfold array_pages. rewrite map_blocks. f_equal. unfold chains.
  induction (entries a) as [|e es IH]; [done|]. cbn. rewrite fmap_app, seg_blocks, tuple_pages_blocks. by f_equal.
Qed.

Lemma stores_typed r s : stores r s -> typed r.
Proof.
  intros (a & Hst & _). destruct (store_on_chain _ _ _ Hst) as [Hc Hl]. destruct (st_frame _ _ _ Hst) as [F Hf].
  assert (HF : on_chain r F /\ (length F < walk_fuel r)%nat).
  { split; [|pose proof (fr_all _ _ _ _ Hf); pose proof (zlen_nonneg (owned a)); unfold walk_fuel, zlen in *; lia].
    intros b p Hp. destruct (fr_pages _ _ _ _ Hf b p) as [Hb Hr]; [apply elem_of_app; by right|]. split; [by apply get_page_Some|].
    apply zlookup_lt_Some in Hr. apply valid_block. pose proof (fr_bound _ _ _ _ Hf). lia. }
  destruct HF as [HF HFl]. exists a.*1, (en_data <$> entries a), ((fun e => (en_chain e).*1) <$> entries a), F.*1, (mkMeta (first F Inv) (default Inv (last F.*1)) s.1).
  rewrite <-(st_array _ _ _ Hst), <-first_array_pages. split_and!.
  - rewrite (walk_seg _ _ Hc) by (unfold array_pages; by rewrite length_fmap). unfold array_pages. by rewrite map_blocks.
  - rewrite (chain_items_seg _ _ Hc) by (unfold array_pages; by rewrite length_fmap). unfold array_pages. rewrite map_contents.
    change (concat a.*2) with (entries a). by rewrite <-list_fmap_compose.
  - rewrite <-list_fmap_compose. exact (st_sids _ _ _ Hst).
  - apply Forall2_fmap_2. apply Forall_Forall2_diag. apply Forall_forall. intros e He. destruct (store_chain _ _ _ Hst _ He) as (Hce & Hle & _).
    unfold typed_chain. cbn [en_data memtablePageHead memtableInsertPage]. rewrite <-first_tuple_pages. split_and!.
    + rewrite (walk_seg _ _ Hce) by (unfold tuple_pages; by rewrite length_fmap). by rewrite tuple_pages_blocks.
    + exact (st_insert _ _ _ Hst _ He).
    + exists (en_tids e). rewrite (chain_items_seg _ _ Hce) by (unfold tuple_pages; by rewrite length_fmap). unfold tuple_pages. by rewrite map_contents.
  - by apply (frame_get_meta _ _ _ _ Hf).
  - by apply walk_seg.
  - done.
  - rewrite app_assoc, <-owned_blocks, <-(seg_blocks F Inv), <-fmap_app. apply all_blocks.
    + apply (fr_nodup _ _ _ _ Hf).
    + intros b ([c p] & -> & Hp)%list_elem_of_fmap. destruct (fr_pages _ _ _ _ Hf c p Hp) as [Hb Hr%zlookup_lt_Some]. cbn. lia.
    + rewrite zlen_fmap, zlen_app, zlen_seg. pose proof (fr_all _ _ _ _ Hf). lia.
Qed.

End operations.

End pages.

(** PostgreSQL's 8 KiB pages: 24 bytes of header, 8 of special space, a line
    pointer of 4 bytes per item. *)
Module PgPage.
Section pg.
Context {T : Type}.
Definition item_size (x : item T) : Z := match x with MemtableItem _ => MEMTABLE_ITEM_SIZE | TupleItem _ => TUPLE_ITEM_SIZE end.
Definition free_space (items : list (item T)) : Z := 8192 - 24 - 8 - foldr (fun x n => item_size x + 4 + n) 0 items - 4.
#[export] Instance pg_layout : PageLayout T := {
  PageGetFreeSpace := free_space;
  PageAddItem items x size := if size <=? free_space items then Some (items ++ [x]) else None;
  PageIndexTupleDelete items offno := delete (Z.to_nat (offno - 1)) items }.
#[export] Instance pg_laws : PageLaws T.
Proof.
  split.
  - done.
  - intros items x size Hs. cbn in *. destruct (Z.leb_spec size (free_space items)); [done|lia].
  - intros l1 x l2. cbn. replace (Z.to_nat (zlen l1 + 1 - 1)) with (length l1) by (unfold zlen; lia). apply delete_middle.
Qed.
End pg.
End PgPage.

(** ** Examples *)
Module StatusRuns.
Import PgPage.
Abbreviation blocks := (list (block (T := Z))).
Abbreviation call := (status_call (T := Z)).

Definition permitted_dec (c : call) (r : blocks) : bool :=
  (zlen r + 1 <? InvalidBlockNumber) && match c with CallRegister sid => match FindMemtableInsertPage r sid with Ok None => true | _ => false end | _ => true end.
Definition run_calls (cs : list call) (r : blocks) : res blocks :=
  foldl_res (fun r c => if permitted_dec c r then commits ← run_call c r; Ok (after r commits) else Error ElogError) r cs.

Lemma permitted_decides c r : permitted_dec c r = true -> permitted c r.
Proof.
  unfold permitted_dec, permitted. rewrite andb_true_iff, Z.ltb_lt. intros [Hz Hc]. split; [exact Hz|].
  destruct c as [sid| | |]; try done. by destruct (FindMemtableInsertPage r sid) as [[|]|].
Qed.

Lemma run_calls_reach cs : forall r r', run_calls cs r = Ok r' -> rtc status_step r r'.
Proof.
  induction cs as [|c cs IH]; intros r r'; [by intros [= ->]|]. unfold run_calls; cbn. destruct (permitted_dec c r) eqn:Hp; [|done].
  destruct (run_call c r) as [commits|] eqn:Hc; [|done]. cbn. intros Hr. eapply rtc_l; [|exact (IH _ _ Hr)].
  exists c, commits. split_and!; [by apply permitted_decides|done|by left].
Qed.

Definition get {A} (d : A) (r : res A) : A := match r with Ok x => x | Error _ => d end.

(** Two memtables with tuples, one of them deleted again. *)
Definition small : blocks :=
  Eval vm_compute in get [] (run_calls [CallRegister 4; CallAdd 4 70; CallAdd 4 71; CallRegister 5; CallAdd 5 72; CallRemove 4 70] created).
Lemma small_reached : rtc status_step created small.
Proof. apply (run_calls_reach [CallRegister 4; CallAdd 4 70; CallAdd 4 71; CallRegister 5; CallAdd 5 72; CallRemove 4 70]). vm_compute. reflexivity. Qed.

(** Three memtables; the first page of memtable 5 is full. *)
Definition crowded_calls : list call := [CallRegister 4; CallRegister 5; CallRegister 6] ++ (CallAdd 5 <$> seqZ 100 679).
Definition crowded : blocks := Eval vm_compute in get [] (run_calls crowded_calls created).
Lemma crowded_reached : rtc status_step created crowded.
Proof. apply (run_calls_reach crowded_calls). vm_compute. reflexivity. Qed.

(** A backend adds a tuple to memtable 5 while another one releases memtable 4:
    the item of memtable 5 has moved when its insert page is written. *)
Definition info5 : Z * Z * StatusMemtableData := Eval vm_compute in get (0, 0, mkStatusMemtable 0 0 0) (o ← FindMemtableInsertPage crowded 5; of_option ElogError o).
Definition released : blocks := Eval vm_compute in get [] (l ← ReleaseStatusMemtable crowded 4; Ok (after crowded l)).
Definition added : blocks := Eval vm_compute in get [] ('(_, r, _) ← add_tuple released info5.2 900; Ok r).
Definition added_at : Z := Eval vm_compute in get 0 ('(_, _, b) ← add_tuple released info5.2 900; Ok b).
Definition misdirected : blocks := Eval vm_compute in get [] (o ← StatusUpdateInsertPage added info5.1 added_at; of_option ElogError o).
Definition misplaced : blocks := Eval vm_compute in get [] (l ← AddToStatusMemtable misdirected 6 901; Ok (after misdirected l)).
End StatusRuns.
Import PgPage.

(** ** Properties *)

(** C4: The status pages hold a map from memtable ids to tuples.  Whatever calls
    and crashes produced them, reading the pages gives a largest id and a map;
    every further call works and turns them into what the call means: an empty
    memtable, one more tuple, one tuple less, a memtable less. *)
Theorem status_pages_refine_map {T} `{EqDecision T} `{PageLaws T} (r : list (block (T := T))) :
  rtc status_step created r ->
  exists s, shows r s /\
    forall c, permitted c r -> (forall sid tid, c = CallAdd sid tid -> is_Some (s.2 !! sid)) ->
      exists commits s', run_call c r = Ok commits /\ effect c s s' /\ shows (after r commits) s'.
Proof.
  intros [s Hs]%reachable_stores. exists s. split; [by apply stores_shows|]. intros c Hp Ha.
  destruct (call_refines _ _ _ Hs Hp Ha) as (commits & s' & Hc & He & Hf & _). exists commits, s'. split_and!; [done..|by apply stores_shows].
Qed.

Lemma status_pages_refine_map_witness :
  exists s, shows StatusRuns.small s /\ exists commits s', AddToStatusMemtable StatusRuns.small 5 73 = Ok commits /\ shows (after StatusRuns.small commits) s'.
Proof.
  destruct (status_pages_refine_map StatusRuns.small StatusRuns.small_reached) as (s & Hs & Hc). exists s. split; [exact Hs|].
  destruct (Hc (CallAdd 5 73)) as (commits & s' & H1 & _ & H2).
  - apply StatusRuns.permitted_decides. vm_compute. reflexivity.
  - intros sid tid [= <- <-]. destruct Hs as (_ & (sids & Hsids & Hp) & _). destruct (s.2 !! 5) as [ts|] eqn:Hl; [by eexists|exfalso].
    assert (H5 : 5 ∈ (map_to_list s.2).*1).
    { rewrite <-Hp. replace sids with [4; 5] by (destruct sids; [discriminate Hsids|]; injection Hsids as <- <-; reflexivity). right. left. }
    apply list_elem_of_fmap in H5 as ([sid ts] & Heq & Hin%elem_of_map_to_list). cbn in Heq. congruence.
  - exists commits, s'. exact (conj H1 H2).
Defined.

(** Calls are atomic under crashes.  A crash between the records of a call
    leaves pages that read as before the call or as after it; registering may
    also leave the new largest id without the memtable, which recovery expects. *)
Theorem status_calls_atomic {T} `{EqDecision T} `{PageLaws T} (r : list (block (T := T))) c commits :
  rtc status_step created r -> permitted c r -> run_call c r = Ok commits ->
  exists s s', shows r s /\ effect c s s' /\ shows (after r commits) s' /\
    forall x, x ∈ commits -> shows x s \/ shows x s' \/ exists sid, c = CallRegister sid /\ shows x (sid, s.2).
Proof.
  intros [s Hs]%reachable_stores Hp Hc. assert (Ha : forall sid tid, c = CallAdd sid tid -> is_Some (s.2 !! sid)).
  { intros sid tid ->. cbn [run_call] in Hc. destruct (s.2 !! sid) eqn:Hsid; [done|]. unfold AddToStatusMemtable in Hc. by rewrite (stores_absent _ _ _ Hs Hsid) in Hc. }
  destruct (call_refines _ _ _ Hs Hp Ha) as (commits' & s' & Hc' & He & Hf & Hmid). rewrite Hc in Hc'. injection Hc' as <-.
  exists s, s'. split_and!; [by apply stores_shows|done|by apply stores_shows|]. intros x Hx.
  destruct (Hmid x Hx) as [H1|[H1|(sid & -> & H1)]]; [left|right; left|right; right; exists sid; split; [done|]]; by apply stores_shows.
Qed.

Lemma status_calls_atomic_witness :
  exists s s', effect (CallRegister 6) s s' /\
    forall x, x ∈ StatusRuns.get [] (RegisterStatusMemtable StatusRuns.small 6) -> shows x s \/ shows x s' \/ exists sid, CallRegister (T := Z) 6 = CallRegister sid /\ shows x (sid, s.2).
Proof.
  destruct (status_calls_atomic StatusRuns.small (CallRegister 6) (StatusRuns.get [] (RegisterStatusMemtable StatusRuns.small 6)) StatusRuns.small_reached)
    as (s & s' & _ & He & _ & Hx); [apply StatusRuns.permitted_decides; vm_compute; reflexivity|vm_compute; reflexivity|]. exists s, s'. exact (conj He Hx).
Defined.

(** C18: The pages are well typed and none is lost.  In every state that calls and
    crashes can produce, each block behind the meta page is on exactly one chain
    (the memtable array, the tuples of one memtable, the free list), holds items
    of its chain's kind, every insert page is on its own memtable's chain, and
    the free list ends in the page the meta page names. *)
Theorem status_pages_well_typed {T} `{EqDecision T} `{PageLaws T} (r : list (block (T := T))) :
  rtc status_step created r -> typed r.
Proof. intros [s Hs]%reachable_stores. by eapply stores_typed. Qed.

Lemma status_pages_well_typed_witness : zlen StatusRuns.small = 5 /\ typed StatusRuns.small.
Proof. split; [vm_compute; reflexivity|]. apply (status_pages_well_typed StatusRuns.small StatusRuns.small_reached). Defined.

(** A stale offset misdirects a memtable.  [AddToStatusMemtable] finds its
    item, lets go of the page, and writes the item's insert page by offset
    afterwards; a release of an earlier memtable in between moves the items.
    Here memtable 6 gets the insert page of memtable 5, and its next tuple is
    stored as one of memtable 5. *)
Theorem stale_offset_misplaces_tuples :
  exists (r r1 r2 r3 r4 : list (block (T := Z))) b offno m nb ts,
    rtc status_step created r /\ FindMemtableInsertPage r 5 = Ok (Some (b, offno, m)) /\
    ReleaseStatusMemtable r 4 = Ok [r1] /\
    (exists commits, add_tuple r1 m 900 = Ok (commits, r2, nb)) /\ StatusUpdateInsertPage r2 (b, offno) nb = Ok (Some r3) /\
    AddToStatusMemtable r3 6 901 = Ok [r4] /\
    GetStatusMemtableTids r4 6 = Ok (Some []) /\ GetStatusMemtableTids r4 5 = Ok (Some ts) /\ 901 ∈ ts.
Proof.
  exists StatusRuns.crowded, StatusRuns.released, StatusRuns.added, StatusRuns.misdirected, StatusRuns.misplaced,
    (StatusRuns.info5.1.1), (StatusRuns.info5.1.2), (StatusRuns.info5.2), StatusRuns.added_at, (seqZ 100 679 ++ [900; 901]).
  split; [exact StatusRuns.crowded_reached|]. split; [vm_compute; reflexivity|]. split; [vm_compute; reflexivity|].
  split; [eexists; vm_compute; reflexivity|]. do 4 (split; [vm_compute; reflexivity|]). apply elem_of_app. right. right. left.
Qed.
