(* ===== verification/RecoverSegments.v ===== *)
(** Recovery of the segments of an index (recover_lsm_index_internal of
    lsmindex.c, steps 1 and 2).  A segment file may hold rows whose insertion is
    not in the log that survived: the deletion bitmaps of the segments are
    brought in line with the status pages.

    The status pages are read through the functions of StatusPage; nobody writes
    them while the slot of the index is LSM_SLOT_RECOVERING.  The files are read
    and written through SegFile. *)

From S2P Require Import Prelude Bitmap Tid SegmentPool FileNames SegmentFiles BitmapVersions Tombstones Memtable StatusPage.

Definition LOAD_LATEST_VERSION : Z := UINT32_MAX.

(** [qsort] and [bsearch] with a comparison function. *)
Definition compare_sids_desc (sid_a sid_b : Z) : Z := if sid_b <? sid_a then -1 else if sid_a <? sid_b then 1 else 0.
Definition compare_int64 (val_a val_b : Z) : Z := if val_a <? val_b then -1 else if val_b <? val_a then 1 else 0.
Definition cmp_le (cmp : Z -> Z -> Z) (a b : Z) : Prop := cmp a b <= 0.
#[global] Instance cmp_le_dec cmp : RelDecision (cmp_le cmp).
Proof. intros a b. unfold cmp_le. apply _. Defined.
Definition qsort (cmp : Z -> Z -> Z) (l : list Z) : list Z := merge_sort (cmp_le cmp) l.
Definition bsearch (key : Z) (l : list Z) (cmp : Z -> Z -> Z) : bool := existsb (fun x => cmp key x =? 0) l.

(** [ItemPointerData] with decidable equality. *)
#[global] Instance ItemPointerData_eq_dec {B} `{EqDecision B} : EqDecision (ItemPointerData B).
Proof. solve_decision. Defined.

Module Recover.
Section recover.
Context {B : Type} `{BlockId B} `{EqDecision B} `{PageLayout (ItemPointerData B)}.
Context (max_file : Z) (r : list (block (T := ItemPointerData B))).

(** [if (!IS_SLOT_SET(bitmap, i)) { SET_SLOT(bitmap, i); count++; }], the bitmap
    being as long as it was loaded. *)
Definition mark_loaded_row (st : list Z * Z) (vec_idx : Z) : res (list Z * Z) :=
  _ ← arr_get st.1 (Z.shiftr vec_idx 3); Ok (Merge.mark_row st vec_idx).

(** The new subversion of the bitmap of the latest version. *)
Definition write_next_bitmap (d : directory) (start_sid end_sid valid_rows : Z) (bitmap : list Z) (delete_count : Z) : res directory :=
  let version := Scan.find_latest_segment_version (readdir d) start_sid end_sid in
  let bitmap_size := GET_BITMAP_SIZE valid_rows in
  if zlen bitmap <? bitmap_size then Error OutOfBounds
  else ops ← SegFile.write_bitmap_file_with_subversion max_file start_sid end_sid version (next_subversion d start_sid end_sid version)
               (take (Z.to_nat bitmap_size) bitmap) delete_count;
       Ok (run_ops d ops).

(** *** Step 1: rows of ids above the greatest the status pages know *)

Definition mark_newer_row (valid_rows : Z) (st : list Z * Z) (vec_idx : Z) : res (list Z * Z) :=
  if vec_idx <? valid_rows then mark_loaded_row st vec_idx else Ok st.

Definition mark_newer_range (max_sid valid_rows : Z) (offs : list SegmentOffsetRange) (st : list Z * Z) (sid_idx : Z) : res (list Z * Z) :=
  o ← arr_get offs sid_idx;
  if off_sid o <=? max_sid then Ok st
  else if start_offset o =? end_offset o then Ok st
  else foldl_res (mark_newer_row valid_rows) st (seqZ (start_offset o) (end_offset o - start_offset o)).

(** The body of the loop, for a file that ends above [max_sid]. *)
Definition mark_newer_segment (max_sid : Z) (f : Scan.SegmentFileInfo) (d : directory) : res directory :=
  match SegFile.read_lsm_segment_metadata d (Scan.fi_start_sid f) (Scan.fi_end_sid f) (Scan.fi_version f) with
  | None => Ok d
  | Some (start_sid_disk, end_sid_disk, valid_rows, _) =>
      if end_sid_disk <=? max_sid then Ok d
      else
        loaded ← SegFile.load_bitmap_file d start_sid_disk end_sid_disk LOAD_LATEST_VERSION;
        delete_count ← of_option NullDeref loaded.2;
        offs ← SegFile.load_offset_file d start_sid_disk end_sid_disk LOAD_LATEST_VERSION;
        st ← foldl_res (mark_newer_range max_sid valid_rows offs) (loaded.1, delete_count) (seqZ 0 (u32 (end_sid_disk - start_sid_disk + 1)));
        write_next_bitmap d start_sid_disk end_sid_disk valid_rows st.1 (u32 st.2)
  end.

(** From the last file down to the first that ends below. *)
Fixpoint delete_newer_rows (max_sid : Z) (files_down : list Scan.SegmentFileInfo) (d : directory) : res directory :=
  match files_down with
  | [] => Ok d
  | f :: files_down =>
      if max_sid <? Scan.fi_end_sid f then d ← mark_newer_segment max_sid f d; delete_newer_rows max_sid files_down d else Ok d
  end.

(** *** Step 2: rows whose tuple the status pages do not list *)

Definition mark_missing_row (mapping status_tids : list Z) (st : list Z * Z) (vec_idx : Z) : res (list Z * Z) :=
  vec_tid ← arr_get mapping vec_idx;
  if bsearch vec_tid status_tids compare_int64 then Ok st else mark_loaded_row st vec_idx.

(** Bitmap, count and [bitmap_changed].  [sids] are the ids from [s_idx] on. *)
Definition mark_missing_range (mapping : list Z) (offs : list SegmentOffsetRange) (sids : list Z) (st : list Z * Z * bool) (sid_idx : Z)
    : res (list Z * Z * bool) :=
  let '(bitmap, delete_count, bitmap_changed) := st in
  o ← arr_get offs sid_idx;
  if negb (bool_decide (off_sid o ∈ sids)) then Ok st
  else if start_offset o =? end_offset o then Ok st
  else
    status_tids ← GetStatusMemtableTids r (off_sid o);
    let status_tids_int64 := qsort compare_int64 (ItemPointerToInt64 <$> default [] status_tids) in
    '(bitmap, additional_deleted) ← foldl_res (mark_missing_row mapping status_tids_int64) (bitmap, 0)
                                      (seqZ (start_offset o) (end_offset o - start_offset o));
    Ok (bitmap, u32 (delete_count + additional_deleted), bitmap_changed || (0 <? additional_deleted)).

Definition mark_missing_segment (f : Scan.SegmentFileInfo) (sids : list Z) (d : directory) : res directory :=
  match SegFile.read_lsm_segment_metadata d (Scan.fi_start_sid f) (Scan.fi_end_sid f) (Scan.fi_version f) with
  | None => Ok d
  | Some (start_sid_disk, end_sid_disk, valid_rows, _) =>
      mapping ← SegFile.load_mapping_file d start_sid_disk end_sid_disk LOAD_LATEST_VERSION;
      loaded ← SegFile.load_bitmap_file d start_sid_disk end_sid_disk LOAD_LATEST_VERSION;
      delete_count ← of_option NullDeref loaded.2;
      offs ← SegFile.load_offset_file d start_sid_disk end_sid_disk LOAD_LATEST_VERSION;
      st ← foldl_res (mark_missing_range mapping offs sids) (loaded.1, delete_count, false) (seqZ 0 (u32 (end_sid_disk - start_sid_disk + 1)));
      let '(bitmap, delete_count, bitmap_changed) := st in
      if bitmap_changed : bool then write_next_bitmap d start_sid_disk end_sid_disk valid_rows bitmap delete_count else Ok d
  end.

(** The walk down the files ([f_idx]) and the ids ([s_idx]), both descending. *)
Fixpoint missing_loop (fuel : nat) (files_down : list Scan.SegmentFileInfo) (sids : list Z) (d : directory) : res directory :=
  match fuel with
  | O => Error OutOfFuel
  | S fuel =>
      match files_down, sids with
      | f :: files_down', sid :: sids' =>
          if Scan.fi_end_sid f <? sid then missing_loop fuel files_down sids' d
          else d ← (if (Scan.fi_start_sid f <=? sid) && (sid <=? Scan.fi_end_sid f) then mark_missing_segment f sids d else Ok d);
               missing_loop fuel files_down' sids d
      | _, _ => Ok d
      end
  end.

Definition delete_missing_rows (files : list Scan.SegmentFileInfo) (sids : list Z) (d : directory) : res directory :=
  match last files, last sids with
  | Some f, Some sid =>
      if sid <=? Scan.fi_end_sid f then missing_loop (S (length files + length sids)) (reverse files) sids d else Ok d
  | _, _ => Ok d
  end.

(** Both steps; [sids] in descending order. *)
Definition repair_segments (max_sid : Z) (files : list Scan.SegmentFileInfo) (sids : list Z) (d : directory) : res directory :=
  d ← delete_newer_rows max_sid (reverse files) d; delete_missing_rows files sids d.

End recover.
End Recover.

(** ** Sorting and searching *)

#[global] Instance sids_desc_total : Total (cmp_le compare_sids_desc).
Proof. intros a b. unfold cmp_le, compare_sids_desc. destruct (Z.ltb_spec b a), (Z.ltb_spec a b); lia. Qed.
#[global] Instance sids_desc_trans : Transitive (cmp_le compare_sids_desc).
Proof.
  intros a b c. unfold cmp_le, compare_sids_desc.
  destruct (Z.ltb_spec b a), (Z.ltb_spec a b), (Z.ltb_spec c b), (Z.ltb_spec b c), (Z.ltb_spec c a), (Z.ltb_spec a c); lia.
Qed.

(** Descending lists of distinct ids. *)
Abbreviation descending := (StronglySorted (fun a b : Z => b < a)).

Lemma strictly_descending (k : list Z) : StronglySorted (cmp_le compare_sids_desc) k -> NoDup k -> descending k.
Proof.
  induction 1 as [|a k Hk IH Ha]; [constructor|]. intros [Hn Hnd]%NoDup_cons. constructor; [by apply IH|].
  rewrite Forall_forall in Ha |- *. intros b Hb. specialize (Ha b Hb). revert Ha. unfold cmp_le, compare_sids_desc.
  destruct (Z.ltb_spec b a); [done|]. destruct (Z.ltb_spec a b); [lia|]. by assert (a = b) as -> by lia.
Qed.

Lemma qsort_desc (l : list Z) : NoDup l -> descending (qsort compare_sids_desc l) /\ qsort compare_sids_desc l ≡ₚ l.
Proof.
  intros Hnd. pose proof (merge_sort_Permutation (cmp_le compare_sids_desc) l) as Hp. split; [|exact Hp].
  apply strictly_descending; [apply (StronglySorted_merge_sort (cmp_le compare_sids_desc) l)|unfold qsort; by rewrite Hp].
Qed.

Lemma bsearch_qsort (key : Z) (l : list Z) : bsearch key (qsort compare_int64 l) compare_int64 = bool_decide (key ∈ l).
Proof.
  apply eq_bool_prop_intro. rewrite bool_decide_spec, Is_true_true. unfold bsearch. rewrite existsb_exists.
  assert (Hx : forall x, (compare_int64 key x =? 0) = true <-> x = key).
  { intros x. unfold compare_int64. destruct (Z.ltb_spec key x), (Z.ltb_spec x key); cbn; split; intros; try lia; done. }
  assert (Hin : forall x, List.In x (qsort compare_int64 l) <-> x ∈ l).
  { intros x. rewrite <-list_elem_of_In. unfold qsort. by rewrite merge_sort_Permutation. }
  split; [intros (x & Hi & He); apply Hx in He as ->; by apply Hin|intros Hk; exists key; split; [by apply Hin|by apply Hx]].
Qed.

(** ** What the loops mark *)

Section marking.
Implicit Types (bm map rows : list Z) (n p : Z) (st : list Z * Z) (offs : list SegmentOffsetRange).

Lemma mark_loaded_ok n st p : 0 <= n -> covers st.1 n -> 0 <= p < n -> Recover.mark_loaded_row st p = Ok (Merge.mark_row st p).
Proof.
  intros Hn Hc Hp. unfold Recover.mark_loaded_row. destruct (covers_lookup st.1 n p Hc Hp) as [b Hb].
  rewrite Z.shiftr_div_pow2 by lia. change (2 ^ 3) with 8. run. done.
Qed.

Lemma covers_mark n st p : covers st.1 n -> covers (Merge.mark_row st p).1 n.
Proof. intros Hc. unfold Merge.mark_row. destruct (IS_SLOT_SET st.1 p); [done|by apply covers_SET_SLOT]. Qed.

Lemma covers_marks n st rows : covers st.1 n -> covers (mark_rows st rows).1 n.
Proof. revert st; induction rows as [|p rows IH]; intros st Hc; [done|]. cbn. by apply IH, covers_mark. Qed.

(** A loop over rows of which it marks those that satisfy [keep]. *)
Lemma filter_marks (f : list Z * Z -> Z -> res (list Z * Z)) (keep : Z -> bool) n st rows :
  (forall st p, covers st.1 n -> p ∈ rows -> f st p = Ok (if keep p then Merge.mark_row st p else st)) -> covers st.1 n ->
  foldl_res f st rows = Ok (mark_rows st (filter (fun p => keep p = true) rows)).
Proof.
  revert st; induction rows as [|p rows IH]; intros st Hf Hc; [done|]. cbn [foldl_res]. rewrite Hf by (done || left). cbn [mbind res_bind].
  rewrite filter_cons. destruct (keep p) eqn:Hk.
  - rewrite decide_True by done. cbn [mark_rows foldl]. apply IH; [intros; apply Hf; [done|by right]|by apply covers_mark].
  - rewrite decide_False by done. apply IH; [intros; apply Hf; [done|by right]|done].
Qed.

(** A loop over the offset table that marks [rows o] for every entry. *)
Lemma table_marks (f : list Z * Z -> Z -> res (list Z * Z)) (rows : SegmentOffsetRange -> list Z) offs n st :
  (forall st i o, covers st.1 n -> offs !! i = Some o -> f st i = Ok (mark_rows st (rows o))) -> covers st.1 n ->
  foldl_res f st (seqZ 0 (zlen offs)) = Ok (mark_rows st (mjoin (rows <$> offs))).
Proof.
  intros Hf Hc. destruct (for_loop (fun k st' => st' = mark_rows st (mjoin (rows <$> take (Z.to_nat k) offs))) f st (zlen offs)) as (st' & -> & ->).
  - apply zlen_nonneg.
  - done.
  - intros i st' Hi ->. destruct (zlookup_lt_is_Some offs i Hi) as [o Ho]. eexists. split; [by apply Hf; [apply covers_marks|]|].
    rewrite <-mark_rows_app. f_equal. replace (Z.to_nat (i + 1)) with (S (Z.to_nat i)) by lia.
    unfold lookup, zlist_lookup in Ho. rewrite decide_True in Ho by lia. rewrite (take_S_r _ _ o Ho).
    rewrite fmap_app, join_app. cbn. by rewrite app_nil_r.
  - do 3 f_equal. unfold zlen. by rewrite Nat2Z.id, firstn_all.
Qed.

End marking.

(** ** Updating one segment among others *)

(** No name carries one of the last [k] subversions. *)
Definition subversions_room (k : Z) (d : directory) (a b v : Z) : Prop :=
  forall e w, is_Some (d !! e) -> Scan.version_of (Scan.subversion_prefix a b v) e = Some w -> w + k < UINT32_MAX.

Lemma next_subversion_room k d a b v : 1 <= k < UINT32_MAX -> subversions_room k d a b v -> next_subversion d a b v + k <= UINT32_MAX.
Proof.
  intros Hk Hr. unfold next_subversion. destruct (latest_subversion_cases (readdir d) a b v) as [[-> _]|(Hl & (e & He & Hv) & _)].
  - intros e w He%elem_of_readdir Hw. specialize (Hr e w He Hw). lia.
  - cbn. unfold UINT32_MAX in *. lia.
  - apply elem_of_readdir in He. specialize (Hr e _ He Hv). unfold UINT32_MAX in *. zcase; [lia|]. rewrite u32_small; lia.
Qed.

Lemma same_subversions d d' a b v :
  subversions_small d a b v -> (forall e, is_Some (Scan.version_of (Scan.subversion_prefix a b v) e) -> d' !! e = d !! e) ->
  Scan.find_latest_bitmap_subversion (readdir d') a b v = Scan.find_latest_bitmap_subversion (readdir d) a b v.
Proof.
  intros Hs He. assert (Hb : forall e w, e ∈ readdir d -> Scan.version_of (Scan.subversion_prefix a b v) e = Some w -> w < UINT32_MAX).
  { intros e w Hin%elem_of_readdir Hw. specialize (Hs e w Hin Hw). lia. }
  assert (Hin : forall e w, Scan.version_of (Scan.subversion_prefix a b v) e = Some w -> e ∈ readdir d' <-> e ∈ readdir d).
  { intros e w Hw. rewrite !elem_of_readdir. rewrite He; [done|by eexists]. }
  destruct (latest_subversion_cases (readdir d') a b v) as [[H1 N1]|(R1 & (e1 & E1 & V1) & M1)];
    [intros e w Hd' Hw; apply (Hb e w); [by apply (Hin e w)|done]|..];
    destruct (latest_subversion_cases (readdir d) a b v Hb) as [[H2 N2]|(R2 & (e2 & E2 & V2) & M2)].
  - congruence.
  - rewrite (N1 e2) in V2; [done|]. by apply (Hin _ _ V2).
  - rewrite (N2 e1) in V1; [done|]. by apply (Hin _ _ V1).
  - apply Z.le_antisymm; [apply (M2 e1); [by apply (Hin _ _ V1)|done]|apply (M1 e2); [by apply (Hin _ _ V2)|done]].
Qed.

Section others.
Context (a b v a' b' v' : Z) (Hids : u32_ok a /\ u32_ok b /\ u32_ok v /\ u32_ok a' /\ u32_ok b' /\ u32_ok v') (Hne : (a', b') <> (a, b)).

(** A file of the other segment, whatever follows the version. *)
Lemma sub_keys_foreign sv t r s :
  sv < UINT32_MAX -> t ∈ data_types \/ t = "metadata"%string -> stops r ->
  file_keys (sub_path a b v sv) s -> s <> (Path.file_name t a' b' v' +:+ r)%string.
Proof.
  intros Hsv Ht Hr (i & _ & Hs) ->. destruct Hids as (Ha & Hb & Hv & Ha' & Hb' & Hv').
  assert (He : exists q, (Path.file_name t a' b' v' +:+ r = Path.file_name "bitmap" a b v +:+ ("_" +:+ q))%string).
  { destruct Hs as [->| ->]; unfold Path.tmp_path, Path.chunk_path; rewrite sub_path_eq by done;
      unfold Scan.subversion_prefix, Path.file_name; eexists; rewrite !append_assoc; reflexivity. }
  destruct He as [q He]. apply file_name_inj in He; [|by apply data_type_ok|apply data_type_ok; left; in_types|done..].
  destruct He as (_ & -> & -> & _). done.
Qed.

Lemma subversion_name_foreign sv s :
  sv < UINT32_MAX -> file_keys (sub_path a b v sv) s -> Scan.version_of (Scan.subversion_prefix a' b' v') s = None.
Proof.
  intros Hsv Hs. unfold Scan.version_of. destruct (strip_prefix _ s) as [x|] eqn:E; [|done]. apply strip_prefix_Some in E. exfalso.
  eapply (sub_keys_foreign sv "bitmap" ("_s" +:+ x)%string s); [done|left; in_types|done|done|].
  rewrite E. unfold Scan.subversion_prefix, Path.file_name. by rewrite !append_assoc.
Qed.

(** The other segment reads as before. *)
Lemma on_disk_other d d' sv n map bm offs :
  sv < UINT32_MAX -> (forall s, ~ file_keys (sub_path a b v sv) s -> d' !! s = d !! s) ->
  (forall s, is_Some (d !! s) -> d' !! s = d !! s) -> subversions_small d a' b' v' ->
  on_disk d a' b' v' n map bm offs -> on_disk d' a' b' v' n map bm offs.
Proof.
  intros Hsv Hout Hkeep Hsmall [Hi [t Hmeta] Hmap Hoffs Hbm Hsz]. pose proof Hi as (Ha' & Hb' & _ & Hv' & Hlt).
  assert (Hno : forall t r, t ∈ data_types \/ t = "metadata"%string -> stops r -> d' !! (Path.file_name t a' b' v' +:+ r)%string = d !! (Path.file_name t a' b' v' +:+ r)%string).
  { intros t' r Ht Hr. apply Hout. intros Hk. exact (sub_keys_foreign sv t' r _ Hsv Ht Hr Hk eq_refl). }
  assert (Hrv : forall dd, SegFile.resolve_version dd a' b' v' = v').
  { intros dd. unfold SegFile.resolve_version. destruct (Z.eqb_spec v' UINT32_MAX); [lia|done]. }
  assert (Hread : forall path want x, (exists t r, (t ∈ data_types) /\ path = (Path.file_name t a' b' v' +:+ r)%string /\ stops (r +:+ ".")%string) ->
            Chunk.read_segment_file d path want = Ok x -> Chunk.read_segment_file d' path want = Ok x).
  { intros path want x (t' & r & Ht & -> & Hr). apply read_segment_file_ext; [exact Hkeep|]. intros i. unfold Path.chunk_path.
    rewrite append_assoc. apply Hno; [by left|]. destruct r; [done|exact Hr]. }
  split; [done| | | | |done].
  - exists t. revert Hmeta. unfold SegFile.read_lsm_segment_metadata. rewrite !Hrv.
    pose proof (Hno "metadata"%string ""%string (or_intror eq_refl) I) as Hm. rewrite append_nil in Hm.
    unfold Path.GetLSMSegmentMetadataPathWithVersion. by rewrite Hm.
  - revert Hmap. unfold SegFile.load_mapping_file. rewrite !Hrv. unfold Path.GetLSMMappingFilePathWithVersion.
    destruct (Chunk.read_segment_file d _ _) as [x|] eqn:E; [|done]. rewrite (Hread _ _ x); [done| |done].
    exists "mapping"%string, ""%string. split; [in_types|]. by rewrite append_nil.
  - revert Hoffs. unfold SegFile.load_offset_file. rewrite !Hrv. unfold Path.GetLSMOffsetFilePathWithVersion.
    destruct (b' <? a'); [done|]. destruct (Chunk.read_segment_file d _ _) as [x|] eqn:E; [|done]. rewrite (Hread _ _ x); [done| |done].
    exists "offset"%string, ""%string. split; [in_types|]. by rewrite append_nil.
  - revert Hbm. unfold SegFile.load_bitmap_file. rewrite !Hrv. unfold SegFile.bitmap_path. rewrite (same_subversions d d' a' b' v'); [|done|].
    + apply Hread. unfold Path.GetLSMBitmapFilePathWithSubversion. destruct (_ =? UINT32_MAX).
      * exists "bitmap"%string, ""%string. split; [in_types|]. by rewrite append_nil.
      * eexists "bitmap"%string, _. split; [in_types|]. split; [unfold Path.file_name; rewrite !append_assoc; reflexivity|done].
    + intros e [w Hw]. apply Hout. intros Hk. by rewrite (subversion_name_foreign sv e Hsv Hk) in Hw.
Qed.
End others.

(** ** Segments on disk *)

Record segment := mkSegment {
  sg_file : Scan.SegmentFileInfo; sg_rows : Z; sg_map : list Z; sg_bits : list Z; sg_offs : list SegmentOffsetRange }.
#[global] Instance eta_segment : Settable segment := fun s => mkSegment (sg_file s) (sg_rows s) (sg_map s) (sg_bits s) (sg_offs s).

Abbreviation seg_start s := (Scan.fi_start_sid (sg_file s)).
Abbreviation seg_end s := (Scan.fi_end_sid (sg_file s)).
Abbreviation seg_version s := (Scan.fi_version (sg_file s)).

(** The latest version of the segment, with room for [k] more bitmaps. *)
Record holds (k : Z) (d : directory) (s : segment) : Prop := {
  ho_disk : on_disk d (seg_start s) (seg_end s) (seg_version s) (sg_rows s) (sg_map s) (sg_bits s) (sg_offs s);
  ho_latest : Scan.find_latest_segment_version (readdir d) (seg_start s) (seg_end s) = seg_version s;
  ho_room : subversions_room k d (seg_start s) (seg_end s) (seg_version s) }.

(** Its offset table has an entry for every id, with rows of the segment. *)
Record table_ok (s : segment) : Prop := {
  tk_count : zlen (sg_offs s) = seg_end s - seg_start s + 1;
  tk_bound : seg_end s < UINT32_MAX;
  tk_entries : Forall (fun o => seg_start s <= off_sid o <= seg_end s /\ 0 <= start_offset o /\ end_offset o <= sg_rows s) (sg_offs s) }.

Lemma same_latest_version d d' a b :
  (forall e, is_Some (Scan.version_of (Scan.version_prefix a b) e) -> d' !! e = d !! e) ->
  Scan.find_latest_segment_version (readdir d') a b = Scan.find_latest_segment_version (readdir d) a b.
Proof.
  intros He. assert (Hin : forall e w, Scan.version_of (Scan.version_prefix a b) e = Some w -> e ∈ readdir d' <-> e ∈ readdir d).
  { intros e w Hw. rewrite !elem_of_readdir. rewrite He; [done|by eexists]. }
  destruct (find_latest_segment_version_max (readdir d') a b) as (M1 & R1 & C1).
  destruct (find_latest_segment_version_max (readdir d) a b) as (M2 & R2 & C2). apply Z.le_antisymm.
  - destruct C1 as [->|(e & E & V)]; [done|]. apply (M2 e); [by apply (Hin _ _ V)|done].
  - destruct C2 as [->|(e & E & V)]; [done|]. apply (M1 e); [by apply (Hin _ _ V)|done].
Qed.

Lemma sub_keys_no_version a b v sv x y s : sv < UINT32_MAX -> file_keys (sub_path a b v sv) s -> Scan.version_of (Scan.version_prefix x y) s = None.
Proof.
  intros Hsv (i & _ & [->| ->]); unfold Scan.version_of, Path.tmp_path, Path.chunk_path; rewrite sub_path_eq by done; reflexivity.
Qed.

Section update_segment.
Context (max_file : Z) (Hmax : 4 < max_file).

(** One more bitmap for [s]: it is the one that counts, and nothing else changes. *)
Lemma write_next_bitmap_ok k d s bits :
  1 <= k < UINT32_MAX -> holds (k + 1) d s -> zlen bits = zlen (sg_bits s) ->
  exists d', Recover.write_next_bitmap max_file d (seg_start s) (seg_end s) (sg_rows s) bits (count_set bits (sg_rows s)) = Ok d' /\
    holds k d' (s <| sg_bits := bits |>) /\
    (forall j g, 1 <= j -> sids (sg_file g) <> sids (sg_file s) -> holds j d g -> holds j d' g) /\
    (forall x f, Scan.parse_metadata_name x = Some f -> d' !! x = d !! x).
Proof.
  intros Hk [Hd Hl Hr] Hz. pose proof Hd as [(Ha & Hb & Hab & Hv & Hv') _ _ _ _ (Hn & _ & Hlb)].
  assert (Hsmall : subversions_small d (seg_start s) (seg_end s) (seg_version s)) by (intros e w He Hw; specialize (Hr e w He Hw); lia).
  destruct (on_disk_update max_file d _ _ _ _ _ _ _ bits Hmax Hd Hsmall Hz) as (ops & Hops & Hd' & Hle & Hmeta & Hout).
  destruct (next_subversion_fresh _ _ _ _ Hsmall) as [Hsv Hfresh].
  assert (Hroom : next_subversion d (seg_start s) (seg_end s) (seg_version s) + (k + 1) <= UINT32_MAX).
  { destruct (decide (k + 1 < UINT32_MAX)); [by apply next_subversion_room; [lia|]|].
    pose proof (next_subversion_room k d _ _ _ Hk ltac:(intros e w He Hw; specialize (Hr e w He Hw); lia)) as H1.
    unfold next_subversion in *. destruct (latest_subversion_cases (readdir d) (seg_start s) (seg_end s) (seg_version s)) as [[-> _]|(Hl' & (e & He & Hve) & _)].
    - intros e w He%elem_of_readdir Hw. specialize (Hr e w He Hw). lia.
    - cbn in *. lia.
    - apply elem_of_readdir in He. specialize (Hr e _ He Hve). lia. }
  exists (run_ops d ops). unfold Recover.write_next_bitmap. rewrite Hl, Hlb in *. rewrite Hz, Z.ltb_irrefl.
  rewrite take_ge by (unfold zlen in *; lia). rewrite Hops. split; [done|]. split; [|split; [|exact Hmeta]].
  - split; cbn [sg_file sg_rows sg_map sg_bits sg_offs].
    + exact Hd'.
    + etrans; [|exact Hl]. apply same_latest_version. intros e [w Hw]. apply Hout. intros Hs.
      by rewrite (sub_keys_no_version _ _ _ _ _ _ e (proj2 Hsv) Hs) in Hw.
    + intros e w He Hw. specialize (Hle e w He Hw). unfold subversions_room. lia.
  - intros j g Hj Hne [Gd Gl Gr]. pose proof Gd as [(Ha' & Hb' & _ & Gv & Gv') _ _ _ _ _].
    assert (Hids : u32_ok (seg_start s) /\ u32_ok (seg_end s) /\ u32_ok (seg_version s) /\ u32_ok (seg_start g) /\ u32_ok (seg_end g) /\ u32_ok (seg_version g))
      by done.
    assert (Hkeep : forall x, is_Some (d !! x) -> run_ops d ops !! x = d !! x).
    { intros x Hx. apply Hout. intros Hs. destruct (sub_keys_version _ _ _ (next_subversion d (seg_start s) (seg_end s) (seg_version s)) x ltac:(unfold u32_ok, UINT32_MAX in *; lia) (proj2 Hsv) Hs) as [Hw _].
      specialize (Hfresh x _ Hx Hw). lia. }
    split.
    + eapply (on_disk_other (seg_start s) (seg_end s) (seg_version s)); [exact Hids|exact Hne|..|exact Gd]; [|exact Hout|exact Hkeep|]; [lia|].
      intros e w He Hw. specialize (Gr e w He Hw). lia.
    + rewrite <-Gl. apply same_latest_version. intros e [w Hw]. apply Hout. intros Hs.
      by rewrite (sub_keys_no_version _ _ _ _ _ _ e (proj2 Hsv) Hs) in Hw.
    + intros e w He Hw. apply (Gr e w); [|done]. rewrite <-Hout; [done|]. intros Hs.
      by rewrite (subversion_name_foreign _ _ _ _ _ _ Hids Hne _ e (proj2 Hsv) Hs) in Hw.
Qed.
End update_segment.

(** [s'] is [s] with the rows [P] deleted too. *)
Record marks (P : Z -> Prop) (s s' : segment) : Prop := {
  ma_same : s' = s <| sg_bits := sg_bits s' |>;
  ma_bits q : 0 <= q -> IS_SLOT_SET (sg_bits s') q = true <-> IS_SLOT_SET (sg_bits s) q = true \/ P q }.

Definition some_row (s : segment) (Q : Z -> Z -> Prop) (q : Z) : Prop :=
  exists sid x, row_of (sg_map s) (sg_offs s) sid q x /\ Q sid x.

(** Rows of ids above [max_sid]. *)
Definition newer (max_sid : Z) (s : segment) : Z -> Prop := some_row s (fun sid _ => max_sid < sid).

(** Rows of the ids [sids] whose tuple is not one of [ids sid]. *)
Definition missing (sids : list Z) (ids : Z -> list Z) (s : segment) : Z -> Prop := some_row s (fun sid x => sid ∈ sids /\ x ∉ ids sid).

(** Between [d] and [d'] only bitmaps of [files] were written. *)
Definition writes_bitmaps (files : list Scan.SegmentFileInfo) (d d' : directory) : Prop :=
  (forall j g, 1 <= j -> sids (sg_file g) ∉ sids <$> files -> holds j d g -> holds j d' g) /\
  (forall x f, Scan.parse_metadata_name x = Some f -> d' !! x = d !! x).

Lemma writes_none files d : writes_bitmaps files d d.
Proof. split; [by intros j g _ _ Hg|done]. Qed.

Lemma writes_trans fs gs d1 d2 d3 : writes_bitmaps fs d1 d2 -> writes_bitmaps gs d2 d3 -> writes_bitmaps (fs ++ gs) d1 d3.
Proof.
  intros [H1 H2] [H3 H4]. split; [|intros x f Hx; by rewrite (H4 x f), (H2 x f)].
  intros j g Hj Hn Hg. rewrite fmap_app, not_elem_of_app in Hn. apply H3; [done|tauto|]. apply H1; [done|tauto|done].
Qed.

Lemma holds_le j k d s : j <= k -> holds k d s -> holds j d s.
Proof. intros Hjk [H1 H2 H3]. split; [done|done|]. intros e w He Hw. specialize (H3 e w He Hw). lia. Qed.

Lemma marks_nothing (P : Z -> Prop) s : (forall q, ~ P q) -> marks P s s.
Proof. intros Hn. split; [by destruct s|]. intros q _. split; [by left|]. intros [|Hq]; [done|by destruct (Hn q)]. Qed.

Lemma marks_trans P Q s1 s2 s3 : marks P s1 s2 -> marks Q s2 s3 -> marks (fun q => P q \/ Q q) s1 s3.
Proof.
  intros [H1 H2] [H3 H4]. split; [rewrite H3, H1; by destruct s1|]. intros q Hq. rewrite H4, H2 by done. tauto.
Qed.

Lemma marks_ext (P Q : Z -> Prop) s s' : (forall q, P q <-> Q q) -> marks P s s' -> marks Q s s'.
Proof. intros He [H1 H2]. split; [done|]. intros q Hq. by rewrite H2, He. Qed.

Lemma Forall2_in {A A'} (P Q : A -> A' -> Prop) (l : list A) (k : list A') :
  Forall2 P l k -> (forall x y, x ∈ l -> P x y -> Q x y) -> Forall2 Q l k.
Proof.
  induction 1 as [|x y l k Hxy _ IH]; intros Hi; constructor; [apply Hi; [left|done]|]. apply IH. intros x' y' Hx'. apply Hi. by right.
Qed.

Lemma marks_sids P s s' : marks P s s' -> sg_file s' = sg_file s.
Proof. by intros [-> _]. Qed.

Lemma marks_table P s s' : marks P s s' -> table_ok s -> table_ok s'.
Proof. intros [-> _] [H1 H2 H3]. by split. Qed.

(** Two tables with the same rows ask the same of a row. *)
Lemma some_row_marked P s s' Q q : marks P s s' -> some_row s' Q q <-> some_row s Q q.
Proof. by intros [-> _]. Qed.

Lemma holds_loads k d s : holds k d s ->
  (exists t, SegFile.read_lsm_segment_metadata d (seg_start s) (seg_end s) (seg_version s) = Some (seg_start s, seg_end s, sg_rows s, t)) /\
  SegFile.load_bitmap_file d (seg_start s) (seg_end s) LOAD_LATEST_VERSION = Ok (sg_bits s, Some (count_set (sg_bits s) (sg_rows s))) /\
  SegFile.load_mapping_file d (seg_start s) (seg_end s) LOAD_LATEST_VERSION = Ok (sg_map s) /\
  SegFile.load_offset_file d (seg_start s) (seg_end s) LOAD_LATEST_VERSION = Ok (sg_offs s).
Proof.
  intros [[(_ & _ & _ & _ & Hv) Hm Hmap Hoffs Hbm _] Hl _]. split; [done|].
  assert (Hr : SegFile.resolve_version d (seg_start s) (seg_end s) LOAD_LATEST_VERSION = SegFile.resolve_version d (seg_start s) (seg_end s) (seg_version s)).
  { unfold SegFile.resolve_version, LOAD_LATEST_VERSION. rewrite Z.eqb_refl. destruct (Z.eqb_spec (seg_version s) UINT32_MAX); [lia|done]. }
  unfold SegFile.load_bitmap_file, SegFile.load_mapping_file, SegFile.load_offset_file in *. by rewrite Hr.
Qed.

Lemma table_count k d s : holds k d s -> table_ok s -> u32 (seg_end s - seg_start s + 1) = zlen (sg_offs s).
Proof.
  intros [[(Ha & Hb & Hab & _) _ _ _ _ _] _ _] [Hc Hb' _]. rewrite Hc. apply u32_small. unfold u32_ok, UINT32_MAX in *. lia.
Qed.

Lemma table_entry s i o : table_ok s -> sg_offs s !! (i : Z) = Some o ->
  seg_start s <= off_sid o <= seg_end s /\ 0 <= start_offset o /\ end_offset o <= sg_rows s.
Proof. intros Ht Hi. pose proof (tk_entries _ Ht) as He. rewrite Forall_forall in He. apply He, elem_of_zlookup. by exists i. Qed.

Lemma row_in_table s Q q : table_ok s -> some_row s Q q -> exists sid x, seg_start s <= sid <= seg_end s /\ Q sid x.
Proof.
  intros Ht (sid & x & (o & Ho & <- & _) & HQ). exists (off_sid o), x. split; [|done].
  pose proof (tk_entries _ Ht) as He. rewrite Forall_forall in He. by apply He.
Qed.

(** Rows listed range by range. *)
Definition range_rows (o : SegmentOffsetRange) : list Z := seqZ (start_offset o) (end_offset o - start_offset o).

Lemma table_rows k d s (rows : SegmentOffsetRange -> list Z) (Q : Z -> Z -> Prop) :
  holds k d s -> table_ok s ->
  (forall o q x, o ∈ sg_offs s -> sg_map s !! q = Some x -> q ∈ rows o <-> start_offset o <= q < end_offset o /\ Q (off_sid o) x) ->
  (forall o q, o ∈ sg_offs s -> q ∈ rows o -> start_offset o <= q < end_offset o) ->
  forall q, q ∈ mjoin (rows <$> sg_offs s) <-> some_row s Q q.
Proof.
  intros [[_ _ _ _ _ (Hn & Hlm & _)] _ _] Ht Hr Hin q. rewrite list_elem_of_join. split.
  - intros (l & Hq & (o & -> & Ho)%list_elem_of_fmap). pose proof (Hin o q Ho Hq) as Hqr.
    pose proof (tk_entries _ Ht) as He. rewrite Forall_forall in He. specialize (He o Ho).
    destruct (zlookup_lt_is_Some (sg_map s) q ltac:(lia)) as [x Hx]. exists (off_sid o), x. apply (Hr o q x Ho Hx) in Hq as [_ HQ].
    split; [by exists o|done].
  - intros (sid & x & (o & Ho & <- & Hq & Hx) & HQ). exists (rows o). split; [by apply (Hr o q x)|]. by apply list_elem_of_fmap_2.
Qed.

(** ** The two steps *)

Lemma on_disk_sizes k d s : holds k d s -> 0 <= sg_rows s < 2 ^ 31 /\ zlen (sg_map s) = sg_rows s /\ zlen (sg_bits s) = GET_BITMAP_SIZE (sg_rows s).
Proof. by intros [[_ _ _ _ _ Hz] _ _]. Qed.

Lemma count_u32 k d s bits : holds k d s -> u32 (count_set bits (sg_rows s)) = count_set bits (sg_rows s).
Proof. intros (Hn & _ & _)%on_disk_sizes. apply u32_small. pose proof (count_set_bounds bits (sg_rows s)). lia. Qed.

(** Marking a list of rows of the segment, with the count of the bits set. *)
Lemma marked_rows k d s rows Q :
  holds k d s -> table_ok s -> (forall q, q ∈ rows <-> some_row s Q q) -> forall dc,
  let st := mark_rows (sg_bits s, dc) rows in
  marks (some_row s Q) s (s <| sg_bits := st.1 |>) /\ zlen st.1 = zlen (sg_bits s) /\
  st.2 - dc = count_set st.1 (sg_rows s) - count_set (sg_bits s) (sg_rows s).
Proof.
  intros Hh Ht Hrows dc st. destruct (on_disk_sizes _ _ _ Hh) as (Hn & Hlm & Hlb).
  destruct (mark_rows_spec (sg_rows s) (sg_bits s, dc) rows) as (Hz & Hb & Hc).
  - unfold covers. cbn. lia.
  - intros p Hp. apply Hrows in Hp as (sid & x & (o & Ho & _ & Hq & _) & _). pose proof (tk_entries _ Ht) as He. rewrite Forall_forall in He.
    specialize (He o Ho). lia.
  - cbn [fst snd] in *. fold st in Hz, Hb, Hc. split; [|done]. split; [done|]. cbn. intros q Hq. rewrite Hb by done.
    rewrite orb_true_iff, bool_decide_eq_true. by rewrite Hrows.
Qed.

Section repair.
Context {B : Type} `{BlockId B} `{EqDecision B} `{PageLayout (ItemPointerData B)}.
Context (max_file : Z) (Hmax : 4 < max_file).

Lemma mark_newer_segment_ok max_sid k d s :
  1 <= k < UINT32_MAX -> holds (k + 1) d s -> table_ok s -> max_sid < seg_end s ->
  exists d' s', Recover.mark_newer_segment max_file max_sid (sg_file s) d = Ok d' /\
    marks (newer max_sid s) s s' /\ holds k d' s' /\ writes_bitmaps [sg_file s] d d'.
Proof.
  intros Hk Hh Ht Hend. destruct (holds_loads _ _ _ Hh) as ([t Hm] & Hb & _ & Ho). destruct (on_disk_sizes _ _ _ Hh) as (Hn & Hlm & Hlb).
  unfold Recover.mark_newer_segment. rewrite Hm. zcase; [lia|]. rewrite Hb. cbn [mbind res_bind snd of_option]. rewrite Ho. cbn [mbind res_bind fst].
  rewrite (table_count _ _ _ Hh Ht).
  set (rows := fun o => if off_sid o <=? max_sid then [] else range_rows o).
  assert (Hrows : forall q, q ∈ mjoin (rows <$> sg_offs s) <-> some_row s (fun sid _ => max_sid < sid) q).
  { apply (table_rows _ _ _ _ _ Hh Ht); subst rows; cbn beta; intros o q.
    - intros x Hin Hx. zcase; [rewrite elem_of_nil; lia|]. unfold range_rows. rewrite elem_of_seqZ. lia.
    - intros Hin. zcase; [by rewrite elem_of_nil|]. unfold range_rows. rewrite elem_of_seqZ. lia. }
  rewrite (table_marks _ rows _ (sg_rows s)); [|intros st i o Hc Hi|unfold covers; cbn; lia].
  - destruct (marked_rows _ _ _ _ _ Hh Ht Hrows (count_set (sg_bits s) (sg_rows s))) as (Hmk & Hz & Hc). cbn [mbind res_bind].
    set (st := mark_rows _ _) in *. replace st.2 with (count_set st.1 (sg_rows s)) by lia. rewrite (count_u32 _ _ _ st.1 Hh).
    destruct (write_next_bitmap_ok max_file Hmax k d s st.1 Hk Hh Hz) as (d' & -> & Hh' & Hfr & Hmeta).
    exists d', (s <| sg_bits := st.1 |>). split_and!; [done|exact Hmk|exact Hh'|]. split; [|exact Hmeta].
    intros j g Hj Hng. apply Hfr; [done|]. intros He. apply Hng. rewrite He. left.
  - destruct (table_entry _ _ _ Ht Hi) as (_ & Hlo & Hhi). unfold Recover.mark_newer_range. run. subst rows. cbn beta. destruct (Z.leb_spec (off_sid o) max_sid); [done|].
    zcase; [unfold range_rows; by rewrite seqZ_nil by lia|].
    rewrite (filter_marks _ (fun _ => true) (sg_rows s)); [|intros st' p Hc' Hp%elem_of_seqZ|done].
    + do 2 f_equal. fold (range_rows o). clear. induction (range_rows o) as [|x l IH]; [done|]. rewrite filter_cons_True by done. by f_equal.
    + unfold Recover.mark_newer_row. zcase; [|lia]. apply (mark_loaded_ok (sg_rows s)); [lia|done|lia].
Qed.

(** Files from the last to the first: each ends below the start of the one before. *)
Definition downwards (segs : list segment) : Prop := StronglySorted (fun f g => seg_end g < seg_start f) segs.

Lemma marks_Forall2 (P : segment -> Z -> Prop) segs : (forall s q, s ∈ segs -> ~ P s q) -> Forall2 (fun s s' => marks (P s) s s') segs segs.
Proof.
  intros Hn. induction segs as [|s segs IH]; constructor; [apply marks_nothing; intros q; apply Hn; left|].
  apply IH. intros s' q Hs'. apply Hn. by right.
Qed.

(** Segments that come later do not share their ids with the first. *)
Lemma downwards_fresh k d s segs g : downwards (s :: segs) -> Forall (holds k d) (s :: segs) -> g ∈ segs -> sids (sg_file g) ∉ sids <$> [sg_file s].
Proof.
  intros [_ Hs]%StronglySorted_inv Hf Hg Hx. apply list_elem_of_singleton in Hx. rewrite Forall_forall in Hs, Hf. specialize (Hs g Hg).
  injection Hx as Hx _. destruct (Hf g ltac:(by right)) as [[(_ & _ & Hab & _) _ _ _ _ _] _ _]. lia.
Qed.

Lemma rest_holds k d d' s segs : downwards (s :: segs) -> Forall (holds (k + 1) d) (s :: segs) -> 1 <= k ->
  writes_bitmaps [sg_file s] d d' -> Forall (holds (k + 1) d') segs.
Proof.
  intros Hd Hh Hk Hw. pose proof Hh as [_ Hrest]%Forall_cons. rewrite Forall_forall in Hrest |- *. intros g Hg.
  apply (proj1 Hw); [lia| |by apply Hrest]. by eapply downwards_fresh.
Qed.

(** The first segment was updated, then the rest. *)
Lemma repaired_cons (P : segment -> Z -> Prop) k d d1 d2 s s' segs segs' :
  downwards (s :: segs) -> Forall (holds (k + 1) d) (s :: segs) -> 1 <= k ->
  marks (P s) s s' -> holds k d1 s' -> writes_bitmaps [sg_file s] d d1 ->
  Forall2 (fun s s' => marks (P s) s s') segs segs' -> Forall (holds k d2) segs' -> writes_bitmaps (sg_file <$> segs) d1 d2 ->
  Forall2 (fun s s' => marks (P s) s s') (s :: segs) (s' :: segs') /\ Forall (holds k d2) (s' :: segs') /\ writes_bitmaps (sg_file <$> (s :: segs)) d d2.
Proof.
  intros Hd Hh Hk Hm Hh' Hw Hms Hhs Hw2. split_and!; [by constructor| |exact (writes_trans [_] _ _ _ _ Hw Hw2)].
  constructor; [|exact Hhs]. apply (proj1 Hw2); [lia| |exact Hh']. rewrite (marks_sids _ _ _ Hm).
  intros (f & Hf & (g & -> & Hg)%list_elem_of_fmap)%list_elem_of_fmap. eapply (downwards_fresh (k + 1) d s segs g Hd Hh Hg).
  rewrite <-Hf. left.
Qed.

Lemma none_repaired (P : segment -> Z -> Prop) k d segs : (forall s q, s ∈ segs -> ~ P s q) -> Forall (holds (k + 1) d) segs ->
  Forall2 (fun s s' => marks (P s) s s') segs segs /\ Forall (holds k d) segs /\ writes_bitmaps (sg_file <$> segs) d d.
Proof.
  intros Hn Hh. split_and!; [by apply marks_Forall2| |split; [by intros j g _ _ Hg|done]].
  eapply Forall_impl; [exact Hh|]. intros g. apply holds_le. lia.
Qed.

Lemma downwards_ends k d s segs g : downwards (s :: segs) -> Forall (holds k d) (s :: segs) -> g ∈ s :: segs -> seg_end g <= seg_end s.
Proof.
  intros Hd [[[(_ & _ & Hab & _) _ _ _ _ _] _ _] _]%Forall_cons [->|Hg]%elem_of_cons; [done|].
  apply StronglySorted_inv in Hd as [_ Hd]. rewrite Forall_forall in Hd. specialize (Hd g Hg). lia.
Qed.

Lemma delete_newer_ok max_sid k d segs :
  1 <= k < UINT32_MAX -> Forall (holds (k + 1) d) segs -> Forall table_ok segs -> downwards segs ->
  exists d' segs', Recover.delete_newer_rows max_file max_sid (sg_file <$> segs) d = Ok d' /\
    Forall2 (fun s s' => marks (newer max_sid s) s s') segs segs' /\ Forall (holds k d') segs' /\ writes_bitmaps (sg_file <$> segs) d d'.
Proof.
  intros Hk. revert d; induction segs as [|s segs IH]; intros d Hh Ht Hd.
  { exists d, []. split_and!; [done|constructor|constructor|apply writes_none]. }
  pose proof Hh as [Hs Hrest]%Forall_cons. pose proof Ht as [Hts Htr]%Forall_cons. cbn [fmap list_fmap Recover.delete_newer_rows].
  zcase.
  - destruct (mark_newer_segment_ok max_sid k d s) as (d1 & s' & -> & Hm & Hh' & Hw); [done..|lia|]. cbn [mbind res_bind].
    destruct (IH d1) as (d2 & segs' & -> & Hms & Hhs & Hw2); [eapply rest_holds; [exact Hd|exact Hh|lia|exact Hw]|done|by apply StronglySorted_inv in Hd as [? _]|].
    exists d2, (s' :: segs'). split; [done|]. eapply (repaired_cons (newer max_sid) k d d1 d2 s s' segs segs'); (done || lia).
  - exists d, (s :: segs). split; [done|]. apply (none_repaired (newer max_sid)); [|done].
    intros g q Hg (sid & x & Hr & Hq)%row_in_table; [|rewrite Forall_forall in Ht; by apply Ht].
    pose proof (downwards_ends _ _ _ _ _ Hd Hh Hg). lia.
Qed.

(** The count of [mark_rows] only grows, and stands still only if no bit changes. *)
Lemma mark_rows_count st rows : st.2 <= (mark_rows st rows).2 /\ ((mark_rows st rows).2 = st.2 -> (mark_rows st rows).1 = st.1).
Proof.
  revert st; induction rows as [|p rows IH]; intros st; [done|]. cbn. destruct (IH (Merge.mark_row st p)) as [H1 H2]. unfold mark_rows in *.
  revert H1 H2. unfold Merge.mark_row. destruct (IS_SLOT_SET st.1 p); [done|]. cbn. intros H1 H2. split; [lia|]. lia.
Qed.

Lemma mark_rows_fst bm c c' rows : (mark_rows (bm, c) rows).1 = (mark_rows (bm, c') rows).1.
Proof.
  revert bm c c'; induction rows as [|p rows IH]; intros bm c c'; [done|]. cbn. unfold Merge.mark_row. cbn. destruct (IS_SLOT_SET bm p); apply IH.
Qed.

Context (r : list (block (T := ItemPointerData B))) (tids_of : Z -> option (list (ItemPointerData B))).

Definition ids_of (sid : Z) : list Z := ItemPointerToInt64 <$> default [] (tids_of sid).

Definition missing_rows (s : segment) (sids : list Z) (o : SegmentOffsetRange) : list Z :=
  if bool_decide (off_sid o ∈ sids)
  then filter (fun q => match sg_map s !! q with Some x => bool_decide (x ∉ ids_of (off_sid o)) | None => false end = true) (range_rows o)
  else [].

Lemma missing_rows_spec k d s sids : holds k d s -> table_ok s ->
  forall q, q ∈ mjoin (missing_rows s sids <$> sg_offs s) <-> missing sids ids_of s q.
Proof.
  intros Hh Ht. apply (table_rows _ _ _ _ (fun sid x => sid ∈ sids /\ x ∉ ids_of sid) Hh Ht); unfold missing_rows; intros o q.
  - intros x Ho Hx. case_bool_decide as Hs.
    + rewrite list_elem_of_filter. rewrite Hx. rewrite bool_decide_eq_true. unfold range_rows. rewrite elem_of_seqZ. intuition lia.
    + rewrite elem_of_nil. tauto.
  - intros Ho. case_bool_decide; [|by rewrite elem_of_nil]. rewrite list_elem_of_filter. unfold range_rows. rewrite elem_of_seqZ. lia.
Qed.

(** One entry of the offset table. *)
Lemma mark_missing_range_ok k d s sids bm dc changed (i : Z) o :
  holds k d s -> table_ok s -> (forall sid, sid ∈ sids -> GetStatusMemtableTids r sid = Ok (tids_of sid)) ->
  sg_offs s !! i = Some o -> zlen bm = zlen (sg_bits s) -> dc = count_set bm (sg_rows s) ->
  exists changed', Recover.mark_missing_range r (sg_map s) (sg_offs s) sids (bm, dc, changed) i =
    Ok ((mark_rows (bm, 0) (missing_rows s sids o)).1, count_set (mark_rows (bm, 0) (missing_rows s sids o)).1 (sg_rows s), changed') /\
    (changed' = false -> changed = false /\ (mark_rows (bm, 0) (missing_rows s sids o)).1 = bm).
Proof.
  intros Hh Ht Hst Hi Hz ->. destruct (on_disk_sizes _ _ _ Hh) as (Hn & Hlm & Hlb). destruct (table_entry _ _ _ Ht Hi) as (_ & Hlo & Hhi).
  unfold Recover.mark_missing_range. run. unfold missing_rows. case_bool_decide as Hs; cbn [negb]; [|by exists changed].
  zcase; [exists changed; unfold range_rows; by rewrite seqZ_nil by lia|]. rewrite (Hst _ Hs). cbn [mbind res_bind].
  fold (range_rows o). fold (ids_of (off_sid o)).
  set (keep := fun q => match sg_map s !! q with Some x => bool_decide (x ∉ ids_of (off_sid o)) | None => false end).
  rewrite (filter_marks _ keep (sg_rows s)).
  - cbn [mbind res_bind]. set (rows := filter _ _). destruct (mark_rows (bm, 0) rows) as [bm' c] eqn:E. cbn [fst].
    destruct (mark_rows_count (bm, 0) rows) as [Hc1 Hc2]. destruct (mark_rows_spec (sg_rows s) (bm, 0) rows) as (_ & _ & Hc).
    { unfold covers. cbn. lia. }
    { intros q [_ Hq]%list_elem_of_filter. unfold range_rows in Hq. apply elem_of_seqZ in Hq. lia. }
    rewrite E in Hc, Hc1, Hc2. cbn [fst snd] in *. eexists. split; [do 3 f_equal; rewrite <-(count_u32 _ _ _ bm' Hh); f_equal; lia|].
    intros [-> Hl%Z.ltb_ge]%orb_false_iff. split; [done|]. apply Hc2. lia.
  - intros st q Hc Hq%elem_of_seqZ. unfold Recover.mark_missing_row. destruct (zlookup_lt_is_Some (sg_map s) q ltac:(lia)) as [x Hx]. run.
    unfold keep. rewrite Hx, bsearch_qsort. destruct (decide (x ∈ ids_of (off_sid o))).
    + rewrite bool_decide_true by done. rewrite bool_decide_false by tauto. done.
    + rewrite bool_decide_false by done. rewrite bool_decide_true by done. apply (mark_loaded_ok (sg_rows s)); [lia|done|lia].
  - unfold covers. cbn. lia.
Qed.

(** The bitmap after marking [rows]. *)
Definition marked_bits (bm : list Z) (rows : list Z) : list Z := (mark_rows (bm, 0) rows).1.

Lemma marked_bits_app bm r1 r2 : marked_bits bm (r1 ++ r2) = marked_bits (marked_bits bm r1) r2.
Proof. unfold marked_bits. rewrite mark_rows_app. destruct (mark_rows (bm, 0) r1) as [bm' c]. apply mark_rows_fst. Qed.

Lemma zlen_mark_rows st rows : zlen (mark_rows st rows).1 = zlen st.1.
Proof.
  revert st; induction rows as [|p rows IH]; intros st; [done|]. cbn. unfold mark_rows in IH. rewrite IH. unfold Merge.mark_row.
  destruct (IS_SLOT_SET st.1 p); [done|apply zlen_SET_SLOT].
Qed.

(** The whole table. *)
Lemma mark_missing_table k d s sids :
  holds k d s -> table_ok s -> (forall sid, sid ∈ sids -> GetStatusMemtableTids r sid = Ok (tids_of sid)) ->
  exists bm changed, foldl_res (Recover.mark_missing_range r (sg_map s) (sg_offs s) sids) (sg_bits s, count_set (sg_bits s) (sg_rows s), false)
      (seqZ 0 (zlen (sg_offs s))) = Ok (bm, count_set bm (sg_rows s), changed) /\
    marks (missing sids ids_of s) s (s <| sg_bits := bm |>) /\ zlen bm = zlen (sg_bits s) /\ (changed = false -> bm = sg_bits s).
Proof.
  intros Hh Ht Hst. set (upto i := marked_bits (sg_bits s) (mjoin (missing_rows s sids <$> take (Z.to_nat i) (sg_offs s)))).
  destruct (for_loop (fun i st => exists changed, st = (upto i, count_set (upto i) (sg_rows s), changed) /\ (changed = false -> upto i = sg_bits s))
    (Recover.mark_missing_range r (sg_map s) (sg_offs s) sids) (sg_bits s, count_set (sg_bits s) (sg_rows s), false) (zlen (sg_offs s)))
    as (st & -> & changed & -> & Hch).
  - apply zlen_nonneg.
  - by exists false.
  - intros i st Hi (changed & -> & Hch). destruct (zlookup_lt_is_Some (sg_offs s) i Hi) as [o Ho].
    assert (Hz : zlen (upto i) = zlen (sg_bits s)) by apply (zlen_mark_rows (sg_bits s, 0)).
    destruct (mark_missing_range_ok k d s sids (upto i) _ changed i o Hh Ht Hst Ho Hz eq_refl) as (changed' & Hr & Hch').
    eexists. split; [exact Hr|]. exists changed'. fold (marked_bits (upto i) (missing_rows s sids o)) in Hch' |- *.
    assert (Hnext : upto (i + 1) = marked_bits (upto i) (missing_rows s sids o)).
    { subst upto. cbn beta. rewrite <-marked_bits_app. f_equal. replace (Z.to_nat (i + 1)) with (S (Z.to_nat i)) by lia.
      unfold lookup, zlist_lookup in Ho. rewrite decide_True in Ho by lia. rewrite (take_S_r _ _ o Ho), fmap_app, join_app.
      cbn. by rewrite app_nil_r. }
    rewrite Hnext. split; [done|]. intros Hf. destruct (Hch' Hf) as [Hc ->]. by apply Hch.
  - exists (upto (zlen (sg_offs s))), changed. split; [done|].
    assert (Hall : upto (zlen (sg_offs s)) = (mark_rows (sg_bits s, 0) (mjoin (missing_rows s sids <$> sg_offs s))).1).
    { subst upto. cbn beta. unfold marked_bits, zlen. by rewrite Nat2Z.id, firstn_all. }
    rewrite Hall in Hch |- *. split; [|split; [apply zlen_mark_rows|exact Hch]].
    by apply (marked_rows _ _ _ _ _ Hh Ht (missing_rows_spec _ _ _ _ Hh Ht)).
Qed.

Lemma mark_missing_segment_ok k d s sids :
  1 <= k < UINT32_MAX -> holds (k + 1) d s -> table_ok s -> (forall sid, sid ∈ sids -> GetStatusMemtableTids r sid = Ok (tids_of sid)) ->
  exists d' s', Recover.mark_missing_segment max_file r (sg_file s) sids d = Ok d' /\
    marks (missing sids ids_of s) s s' /\ holds k d' s' /\ writes_bitmaps [sg_file s] d d'.
Proof.
  intros Hk Hh Ht Hst. destruct (holds_loads _ _ _ Hh) as ([t Hm] & Hb & Hmap & Ho).
  destruct (mark_missing_table _ _ _ _ Hh Ht Hst) as (bm & changed & Hf & Hmk & Hz & Hch).
  unfold Recover.mark_missing_segment. rewrite Hm, Hmap. cbn [mbind res_bind]. rewrite Hb. cbn [mbind res_bind snd of_option].
  rewrite Ho. cbn [mbind res_bind fst]. rewrite (table_count _ _ _ Hh Ht), Hf. cbn [mbind res_bind]. destruct changed.
  - destruct (write_next_bitmap_ok max_file Hmax k d s bm Hk Hh Hz) as (d' & -> & Hh' & Hfr & Hmeta).
    exists d', (s <| sg_bits := bm |>). split_and!; [done|exact Hmk|exact Hh'|]. split; [|exact Hmeta].
    intros j g Hj Hng. apply Hfr; [done|]. intros He. apply Hng. rewrite He. left.
  - exists d, (s <| sg_bits := bm |>). split_and!; [done|exact Hmk| |split; [by intros j g _ _ Hg|done]].
    rewrite Hch by done. replace (s <| sg_bits := sg_bits s |>) with s by by destruct s. eapply holds_le; [|exact Hh]. lia.
Qed.

(** The walk over files and ids. *)
Lemma missing_loop_ok k segs : forall fuel d sids,
  1 <= k < UINT32_MAX -> Forall (holds (k + 1) d) segs -> Forall table_ok segs -> downwards segs -> descending sids ->
  (forall sid, sid ∈ sids -> GetStatusMemtableTids r sid = Ok (tids_of sid)) -> (length segs + length sids < fuel)%nat ->
  exists d' segs', Recover.missing_loop max_file r fuel (sg_file <$> segs) sids d = Ok d' /\
    Forall2 (fun s s' => marks (missing sids ids_of s) s s') segs segs' /\ Forall (holds k d') segs' /\ writes_bitmaps (sg_file <$> segs) d d'.
Proof.
  intros fuel d sids Hk. revert segs d sids; induction fuel as [|fuel IH]; intros segs d sids Hh Ht Hd Hs Hst Hf; [lia|].
  cbn [Recover.missing_loop]. destruct segs as [|s segs].
  { exists d, []. split_and!; [by destruct sids|constructor|constructor|apply writes_none]. }
  cbn [fmap list_fmap]. destruct sids as [|sid sids].
  { exists d, (s :: segs). split; [done|]. apply none_repaired; [|done]. intros g q Hg (sid & x & _ & [Hin _]). by apply elem_of_nil in Hin. }
  pose proof (StronglySorted_inv Hs) as [Hs' Hlt]. rewrite Forall_forall in Hlt. pose proof Ht as [Hts Htr]%Forall_cons. zcase.
  - destruct (IH (s :: segs) d sids) as (d' & segs' & He & Hms & Hhs & Hw); [done..|intros x Hx; apply Hst; by right|cbn in *; lia|].
    cbn [fmap list_fmap] in He. rewrite He.
    exists d', segs'. split_and!; [done| |done|done]. eapply Forall2_in; [exact Hms|]. cbn. intros g g' Hg. apply marks_ext. intros q.
    split; intros (i & x & Hr & Hi & Hx).
    + exists i, x. split; [done|]. split; [by right|done].
    + exists i, x. split; [done|]. split; [|done]. apply elem_of_cons in Hi as [->|Hi]; [|done].
      assert (Hgt : table_ok g) by (rewrite Forall_forall in Ht; by apply Ht).
      destruct (row_in_table g (fun i _ => i = sid) q Hgt) as (j & _ & Hj & ->); [by exists sid, x|].
      pose proof (downwards_ends _ _ _ _ _ Hd Hh Hg). lia.
  - destruct (decide (seg_start s <= sid)) as [Hle|Hgt].
    + rewrite (proj2 (Z.leb_le _ _) Hle), (proj2 (Z.leb_le sid (seg_end s)) ltac:(lia)). cbn [andb]. pose proof Hh as [Hhs0 _]%Forall_cons.
      destruct (mark_missing_segment_ok k d s (sid :: sids) Hk Hhs0 Hts Hst) as (d1 & s' & -> & Hm & Hh' & Hw). cbn [mbind res_bind].
      destruct (IH segs d1 (sid :: sids)) as (d2 & segs' & -> & Hms & Hhs & Hw2);
        [eapply rest_holds; [exact Hd|exact Hh|lia|exact Hw]|done|by apply StronglySorted_inv in Hd as [? _]|done..|cbn in *; lia|].
      exists d2, (s' :: segs'). split; [done|]. eapply (repaired_cons (missing (sid :: sids) ids_of) k d d1 d2); (done || lia).
    + rewrite (proj2 (Z.leb_gt (seg_start s) sid) ltac:(lia)). cbn [andb mbind res_bind].
      destruct (IH segs d (sid :: sids)) as (d2 & segs' & -> & Hms & Hhs & Hw2);
        [by apply Forall_cons in Hh as [_ ?]|done|by apply StronglySorted_inv in Hd as [? _]|done..|cbn in *; lia|].
      exists d2, (s :: segs'). split; [done|]. eapply (repaired_cons (missing (sid :: sids) ids_of) k d d d2); [done|done|lia| | | |done|done|done].
      * apply marks_nothing. intros q (i & x & Hi & Hin & _)%row_in_table; [|done].
        apply elem_of_cons in Hin as [->|Hin]; [lia|]. specialize (Hlt _ Hin). lia.
      * apply Forall_cons in Hh as [Hh _]. eapply holds_le; [|exact Hh]. lia.
      * split; [by intros j g _ _ Hg|done].
Qed.
End repair.

(** ** Both steps *)

(** Files in the order of the directory scan. *)
Definition upwards (segs : list segment) : Prop := StronglySorted (fun f g => seg_end f < seg_start g) segs.

Lemma StronglySorted_snoc {A} (R : A -> A -> Prop) l x : StronglySorted R l -> (forall y, y ∈ l -> R y x) -> StronglySorted R (l ++ [x]).
Proof.
  induction 1 as [|y l Hl IH Hy]; intros Hx; [by repeat constructor|]. cbn. constructor; [apply IH; intros z Hz; apply Hx; by right|].
  apply Forall_app. split; [done|]. constructor; [apply Hx; left|constructor].
Qed.

Lemma StronglySorted_reverse {A} (R : A -> A -> Prop) l : StronglySorted R l -> StronglySorted (fun x y => R y x) (reverse l).
Proof.
  induction 1 as [|x l Hl IH Hx]; [by constructor|]. rewrite reverse_cons. apply StronglySorted_snoc; [done|].
  intros y Hy. rewrite elem_of_reverse in Hy. rewrite Forall_forall in Hx. by apply Hx.
Qed.

Lemma downwards_reverse segs : upwards segs -> downwards (reverse segs).
Proof. apply (StronglySorted_reverse (fun f g => seg_end f < seg_start g)). Qed.

Lemma scan_upwards entries segs :
  fits entries -> ranges_valid entries -> sg_file <$> segs = Scan.scan_segment_metadata_files entries (Z.to_nat MAX_SEGMENTS_COUNT) -> upwards segs.
Proof.
  intros Hfit Hok Hsegs. pose proof (collect_versions_newest entries Hfit) as Hn. pose proof Hn as (_ & Hin & _).
  assert (Hp : merge_sort Scan.version_le (Scan.collect_versions entries) ≡ₚ Scan.collect_versions entries) by apply merge_sort_Permutation.
  destruct (accept_spec (merge_sort Scan.version_le (Scan.collect_versions entries)) UINT32_MAX (Z.to_nat MAX_SEGMENTS_COUNT)) as (_ & Hs & _).
  - apply (StronglySorted_merge_sort Scan.version_le).
  - rewrite Hp. pose proof (newest_length _ _ Hn). unfold fits, zlen in Hfit. lia.
  - intros f Hf. rewrite Hp in Hf. apply Hok. by apply Hin.
  - change (Scan.accept _ _ _) with (Scan.scan_segment_metadata_files entries (Z.to_nat MAX_SEGMENTS_COUNT)) in Hs. rewrite <-Hsegs in Hs.
    clear -Hs. induction segs as [|s segs IH]; [constructor|]. apply StronglySorted_inv in Hs as [Hs Hf]. constructor; [by apply IH|].
    exact (proj1 (Forall_fmap _ _ _) Hf).
Qed.

Lemma last_reverse {A} (l : list A) x l' : reverse l = x :: l' -> last l = Some x.
Proof. intros Hr. rewrite <-(reverse_involutive l), Hr, reverse_cons. apply last_snoc. Qed.

Lemma Forall_reverse {A} (P : A -> Prop) l : Forall P l <-> Forall P (reverse l).
Proof. by rewrite reverse_Permutation. Qed.

Lemma descending_last sids sid x : descending sids -> last sids = Some sid -> x ∈ sids -> sid <= x.
Proof.
  intros Hs (l & ->)%last_Some Hx. induction l as [|y l IH]; cbn in *; [apply list_elem_of_singleton in Hx; lia|].
  apply StronglySorted_inv in Hs as [Hs Hy]. apply elem_of_cons in Hx as [->|Hx]; [|by apply IH].
  rewrite Forall_forall in Hy. specialize (Hy sid ltac:(apply elem_of_app; right; left)). lia.
Qed.

Section both.
Context {B : Type} `{BlockId B} `{EqDecision B} `{PageLayout (ItemPointerData B)}.
Context (max_file : Z) (Hmax : 4 < max_file) (r : list (block (T := ItemPointerData B))) (tids_of : Z -> option (list (ItemPointerData B))).

Lemma delete_missing_ok k d segs sids :
  1 <= k < UINT32_MAX -> Forall (holds (k + 1) d) segs -> Forall table_ok segs -> upwards segs -> descending sids ->
  (forall sid, sid ∈ sids -> GetStatusMemtableTids r sid = Ok (tids_of sid)) ->
  exists d' segs', Recover.delete_missing_rows max_file r (sg_file <$> segs) sids d = Ok d' /\
    Forall2 (fun s s' => marks (missing sids (ids_of tids_of) s) s s') segs segs' /\ Forall (holds k d') segs' /\ writes_bitmaps (sg_file <$> segs) d d'.
Proof.
  intros Hk Hh Ht Hu Hs Hst. assert (Hnone : (forall s q, s ∈ segs -> ~ missing sids (ids_of tids_of) s q) ->
    exists d' segs', Ok d = Ok d' /\ Forall2 (fun s s' => marks (missing sids (ids_of tids_of) s) s s') segs segs' /\
      Forall (holds k d') segs' /\ writes_bitmaps (sg_file <$> segs) d d').
  { intros Hn. exists d, segs. split; [done|]. by apply (none_repaired (missing sids (ids_of tids_of))). }
  unfold Recover.delete_missing_rows. destruct (last (sg_file <$> segs)) as [f|] eqn:Hf.
  2: { apply Hnone. intros s q Hin. apply last_None, fmap_nil_inv in Hf as ->. by apply elem_of_nil in Hin. }
  destruct (last sids) as [sid|] eqn:Hl; [zcase|].
  - apply Forall_reverse in Hh, Ht. pose proof (downwards_reverse _ Hu) as Hd. rewrite <-fmap_reverse.
    destruct (missing_loop_ok max_file Hmax r tids_of k (reverse segs) (S (length (sg_file <$> segs) + length sids)) d sids)
      as (d' & segs' & -> & Hm & Hh' & Hw); [done..|rewrite length_reverse, length_fmap; lia|].
    exists d', (reverse segs'). split_and!; [done| |by apply Forall_reverse; rewrite reverse_involutive|].
    + rewrite <-(reverse_involutive segs). by apply Forall2_reverse.
    + destruct Hw as [Hw1 Hw2]. split; [|exact Hw2]. intros j g Hj Hn. apply Hw1; [done|]. by rewrite fmap_reverse, fmap_reverse, elem_of_reverse.
  - apply Hnone. intros s q Hin (i & x & Hi & Hsi & _)%row_in_table; [|rewrite Forall_forall in Ht; by apply Ht].
    pose proof (descending_last _ _ _ Hs Hl Hsi) as Hle. rewrite fmap_last in Hf. apply fmap_Some in Hf as (g & Hg & ->). apply last_Some in Hg as (l & ->).
    apply elem_of_app in Hin as [Hin|Hin%list_elem_of_singleton]; [|subst; lia].
    assert (seg_end s < seg_start g); [|].
    { clear -Hu Hin. unfold upwards in Hu. induction l as [|y l IH]; [by apply elem_of_nil in Hin|]. cbn in Hu.
      apply StronglySorted_inv in Hu as [Hu Hy]. apply elem_of_cons in Hin as [->|Hin]; [|by apply IH].
      rewrite Forall_forall in Hy. apply Hy, elem_of_app. right. left. }
    apply Forall_app in Hh as [_ [[[(_ & _ & Hab & _) _ _ _ _ _] _ _] _]%Forall_cons]. lia.
  - apply Hnone. intros s q _ (i & x & _ & Hi & _). apply last_None in Hl as ->. by apply elem_of_nil in Hi.
Qed.

Lemma repair_segments_ok k max_sid d segs sids :
  1 <= k -> k + 1 < UINT32_MAX -> Forall (holds (k + 2) d) segs -> Forall table_ok segs -> upwards segs -> descending sids ->
  (forall sid, sid ∈ sids -> GetStatusMemtableTids r sid = Ok (tids_of sid)) ->
  exists d' segs', Recover.repair_segments max_file r max_sid (sg_file <$> segs) sids d = Ok d' /\
    Forall2 (fun s s' => marks (fun q => newer max_sid s q \/ missing sids (ids_of tids_of) s q) s s') segs segs' /\
    Forall (holds k d') segs' /\ writes_bitmaps (sg_file <$> segs) d d'.
Proof.
  intros Hk Hk' Hh Ht Hu Hs Hst. unfold Recover.repair_segments. rewrite <-fmap_reverse. replace (k + 2) with ((k + 1) + 1) in Hh by lia.
  pose proof (downwards_reverse _ Hu) as Hd. pose proof (proj1 (Forall_reverse _ _) Hh) as Hhr. pose proof (proj1 (Forall_reverse _ _) Ht) as Htr.
  destruct (delete_newer_ok max_file Hmax max_sid (k + 1) d (reverse segs)) as (d1 & segs1 & -> & Hm1 & Hh1 & Hw1); [lia|done..|]. cbn [mbind res_bind].
  apply Forall2_reverse in Hm1. rewrite reverse_involutive in Hm1. apply Forall_reverse in Hh1.
  assert (Hf : sg_file <$> segs = sg_file <$> reverse segs1).
  { clear -Hm1. induction Hm1 as [|s s' l l' Hm _ IH]; [done|]. cbn. rewrite (marks_sids _ _ _ Hm). by f_equal. }
  rewrite Hf. destruct (delete_missing_ok k d1 (reverse segs1) sids) as (d2 & segs2 & -> & Hm2 & Hh2 & Hw2); [lia|done| | |done|done|].
  - clear -Hm1 Ht. induction Hm1 as [|s s' l l' Hm _ IH]; [constructor|]. apply Forall_cons in Ht as [Hs Hl].
    constructor; [by eapply marks_table|by apply IH].
  - clear -Hm1 Hu. induction Hm1 as [|s s' l l' Hm Hml IH]; [constructor|]. apply StronglySorted_inv in Hu as [Hu Hs].
    constructor; [by apply IH|]. clear -Hml Hs Hm. rewrite (marks_sids _ _ _ Hm). induction Hml as [|g g' l l' Hg _ IH]; [constructor|].
    apply Forall_cons in Hs as [H1 H2]. constructor; [by rewrite (marks_sids _ _ _ Hg)|by apply IH].
  - exists d2, segs2. split_and!; [done| |done|].
    + clear -Hm1 Hm2. revert segs2 Hm2. induction Hm1 as [|s s' l l' Hm _ IH]; intros segs2 Hm2; inversion Hm2; subst; constructor; [|by apply IH].
      eapply marks_ext; [|eapply marks_trans; [exact Hm|eassumption]]. intros q. cbn. unfold missing. by rewrite (some_row_marked _ _ _ _ _ Hm).
    + destruct Hw1 as [H1 H2], Hw2 as [H3 H4]. split; [|intros x f Hx; by rewrite (H4 x f), (H2 x f)]. intros j g Hj Hn Hg.
      apply H3; [done|done|]. apply H1; [done| |done]. rewrite fmap_reverse, fmap_reverse, elem_of_reverse. by rewrite Hf.
Qed.
End both.

(** ** Example *)
Module RepairRuns.
Import PgPage.

(** Block ids as their numbers. *)
#[export] Instance number_blocks : BlockId Z := { BlockIdGetBlockNumber b := b; BlockIdSet n := n }.
Abbreviation tid := (ItemPointerData Z).
Abbreviation blocks := (list (block (T := tid))).

Definition calls (cs : list (status_call (T := tid))) : blocks :=
  match foldl_res (fun r c => commits ← run_call c r; Ok (after r commits)) created cs with Ok r => r | Error _ => [] end.

(** Memtable 3 with one tuple; the growing memtable is 3, so nothing of 4 was
    logged. *)
Definition pages : blocks := calls [CallRegister 3; CallAdd 3 (mkItemPointer 0 11)].
Definition listed (sid : Z) : option (list tid) := if sid =? 3 then Some [mkItemPointer 0 11] else None.

Definition flushed : segment := mkSegment (Scan.mkFileInfo 3 4 2) 3 [11; 12; 13] [2] example_offsets.

Lemma flushed_holds : holds 3 flushed_dir flushed.
Proof.
  split; [exact flushed_on_disk|vm_compute; reflexivity|]. intros e w He%elem_of_readdir Hw.
  assert (H : Forall (fun s => Scan.version_of (Scan.subversion_prefix 3 4 2) s = None) (readdir flushed_dir)).
  { apply (bool_decide_unpack _). vm_compute. exact I. }
  rewrite Forall_forall in H. by rewrite H in Hw.
Qed.

Lemma flushed_table : table_ok flushed.
Proof. split; [done|done|]. repeat constructor; cbn; lia. Qed.

Lemma flushed_ranges : ranges_valid (readdir flushed_dir).
Proof.
  intros f Hf. assert (H : Forall (fun f => Scan.fi_start_sid f <= Scan.fi_end_sid f < UINT32_MAX) (parsed (readdir flushed_dir))).
  { apply (bool_decide_unpack _). vm_compute. exact I. }
  rewrite Forall_forall in H. by apply H.
Qed.
End RepairRuns.
Import PgPage RepairRuns.

(** ** Properties *)

(** Recovery brings the segments in line with the status pages.  The files
    are repaired without an error; afterwards a row of a segment is deleted if it
    was, if its id is above the greatest id of the log, or if the status pages
    know its id without its tuple, and only then.  The same segments are found,
    with everything but the deletion bits as before. *)
Theorem recovery_repairs_segments {B} `{BlockId B} `{PageLayout (ItemPointerData B)} max_file r tids_of max_sid d segs sids :
  4 < max_file -> fits (readdir d) -> ranges_valid (readdir d) ->
  sg_file <$> segs = Scan.scan_segment_metadata_files (readdir d) (Z.to_nat MAX_SEGMENTS_COUNT) ->
  Forall (holds 3 d) segs -> Forall table_ok segs -> descending sids ->
  (forall sid, sid ∈ sids -> GetStatusMemtableTids r sid = Ok (tids_of sid)) ->
  exists d' segs', Recover.repair_segments max_file r max_sid (sg_file <$> segs) sids d = Ok d' /\
    Forall2 (fun s s' => marks (some_row s (fun sid x => max_sid < sid \/ sid ∈ sids /\ x ∉ ids_of tids_of sid)) s s') segs segs' /\
    Forall (holds 1 d') segs' /\
    forall n, Scan.scan_segment_metadata_files (readdir d') n = Scan.scan_segment_metadata_files (readdir d) n.
Proof.
  intros Hmax Hfit Hrg Hsegs Hh Ht Hs Hst.
  destruct (repair_segments_ok max_file Hmax r tids_of 1 max_sid d segs sids) as (d' & segs' & Hr & Hm & Hh' & _ & Hmeta);
    [lia|unfold UINT32_MAX; lia|done|done|by eapply scan_upwards|done|done|].
  exists d', segs'. split_and!; [done| |done|intros n; by apply scan_same].
  eapply Forall2_impl; [exact Hm|]. intros s s'. apply marks_ext. intros q. unfold newer, missing, some_row. split.
  - intros [(sid & x & Hq & Hc)|(sid & x & Hq & Hc)]; exists sid, x; tauto.
  - intros (sid & x & Hq & [Hc|Hc]); [left|right]; by exists sid, x.
Qed.

Lemma recovery_repairs_segments_witness :
  exists d' s', Recover.repair_segments 8 pages 3 [sg_file flushed] [3] flushed_dir = Ok d' /\ holds 1 d' s' /\
    IS_SLOT_SET (sg_bits s') 0 = false /\ IS_SLOT_SET (sg_bits s') 1 = true /\ IS_SLOT_SET (sg_bits s') 2 = true.
Proof.
  destruct (recovery_repairs_segments 8 pages listed 3 flushed_dir [flushed] [3]) as (d' & segs' & Hr & Hm & Hh & _).
  - lia.
  - vm_compute. discriminate.
  - exact flushed_ranges.
  - vm_compute. reflexivity.
  - constructor; [exact flushed_holds|constructor].
  - constructor; [exact flushed_table|constructor].
  - repeat constructor.
  - intros sid Hsid. apply list_elem_of_singleton in Hsid. subst sid. vm_compute. reflexivity.
  - inversion Hm as [|? s' ? ? [_ Hb] Hnil]; subst. inversion Hnil; subst. apply Forall_cons in Hh as [Hh _]. exists d', s'.
    assert (Hrow : forall q sid x, row_of [11; 12; 13] example_offsets sid q x -> q = 0 /\ sid = 3 \/ q = 1 /\ sid = 3 \/ q = 2 /\ sid = 4).
    { intros q sid x (o & Ho & <- & Hq & _). unfold example_offsets in Ho.
      rewrite !elem_of_cons, elem_of_nil in Ho. destruct Ho as [->|[->|[]]]; cbn in *; lia. }
    split; [exact Hr|]. split; [exact Hh|]. split; [|split].
    + apply not_true_is_false. rewrite (Hb 0) by lia. intros [Hx|(sid & x & Hq & Hc)]; [vm_compute in Hx; discriminate|].
      pose proof Hq as Hq'. apply Hrow in Hq. assert (sid = 3) as -> by lia. destruct Hc as [Hc|[_ Hc]]; [lia|]. apply Hc.
      destruct Hq' as (o & _ & _ & _ & Hx). vm_compute in Hx. injection Hx as <-. apply (bool_decide_unpack _). vm_compute. exact I.
    + apply Hb; [lia|]. left. reflexivity.
    + apply Hb; [lia|]. right. exists 4, 13. split; [|left; lia]. exists (mkOffsetRange 4 2 3). split; [right; left|]. split; [done|]. split; [cbn; lia|done].
Defined.
