(* ===== verification/Recovery.v ===== *)
(** Recovery of an index after a restart (recover_lsm_index_internal of
    lsmindex.c): the segments are repaired (RecoverSegments), and the memtables
    whose rows are in no segment are built again from the status pages and the
    heap.

    The heap is an argument: what fetching a row version under SnapshotAny gives.
    The slot of the index is LSM_SLOT_RECOVERING throughout, so nobody else
    touches the index; the memtable slots of other indexes keep their contents. *)

From S2P Require Import Prelude Bitmap Tid SegmentPool FileNames SegmentFiles BitmapVersions Tombstones Memtable MemtableCycle StatusPage RecoverSegments.

Module Rebuild.

(** [publish_slot_release] by itself: the accesses of the insert protocol one
    after the other. *)
Fixpoint publish_from (fuel : nat) (mt : ConcurrentMemTableData) (p : Insert.pc) : res ConcurrentMemTableData :=
  match fuel with
  | O => Error OutOfFuel
  | S fuel =>
      match p with
      | Insert.Publish i => mt ← Insert.set_ready mt i; publish_from fuel mt (Insert.Count i)
      | Insert.Count i => publish_from fuel (mt <| ready_cnt ::= fun c => u32 (c + 1) |>) (Insert.ReadMax i)
      | Insert.ReadMax i => publish_from fuel mt (Insert.read_max mt i)
      | Insert.SwapFirst => Ok (Insert.swap_first mt)
      | Insert.Scan cur new => p ← Insert.scan_step mt cur new; publish_from fuel mt p
      | Insert.Swap cur new => let '(mt, p) := Insert.swap_max mt cur new in publish_from fuel mt p
      | _ => Ok mt
      end
  end.
Definition publish_slot_release (mt : ConcurrentMemTableData) (i : Z) : res ConcurrentMemTableData :=
  publish_from (Z.to_nat (capacity mt) + 8) mt (Insert.Publish i).

Section rebuild.
Context {B : Type} `{BlockId B} `{PageLayout (ItemPointerData B)}.
Context (array_size memtable_capacity max_file : Z).
(** No such row, a row with a null vector, or the vector's elements. *)
Context (table_tuple_fetch_row_version : ItemPointerData B -> option (option (list Z))).

(** One tuple of a memtable.  A vector shorter than a row is read past its end. *)
Definition recover_row (mt : ConcurrentMemTableData) (tid : ItemPointerData B) : res ConcurrentMemTableData :=
  match table_tuple_fetch_row_version tid with
  | None => Ok mt
  | Some vector_datum =>
      let i := current_size mt in
      let mt := mt <| current_size := u32 (i + 1) |> in
      x ← of_option ElogError vector_datum;
      if zlen x <? VEC_BYTES_PER_ROW mt then Error OutOfBounds
      else mt ← Insert.write_row mt i (ItemPointerToInt64 tid) (take (Z.to_nat (VEC_BYTES_PER_ROW mt)) x);
           publish_slot_release mt i
  end.

(** [allocate_new_growing_memtable]; it waits as long as every slot is taken. *)
Definition allocate_memtable (lsm : LSMIndexData) (slots : list MemtableBufferSlot) (sid : Z) : res (Z * list MemtableBufferSlot) :=
  '(mt_idx, _, slots) ← Buffer.register_and_set_memtable array_size memtable_capacity lsm slots true sid;
  if mt_idx <? 0 then Error OutOfFuel else Ok (mt_idx, slots).

(** One id of step 3: index, slots, [growing_memtable_allocated]. *)
Definition recover_memtable (r : list (block (T := ItemPointerData B))) (status_growing_sid : Z)
    (st : LSMIndexData * list MemtableBufferSlot * bool) (sid : Z) : res (LSMIndexData * list MemtableBufferSlot * bool) :=
  let '(lsm, slots, growing_memtable_allocated) := st in
  status_tids ← GetStatusMemtableTids r sid;
  '(mt_idx, slots) ← allocate_memtable lsm slots sid;
  s ← arr_get slots mt_idx;
  mt ← foldl_res recover_row (slot_mt s) (default [] status_tids);
  if sid =? status_growing_sid then
    Ok (lsm <| growing_memtable_idx := mt_idx |> <| growing_memtable_id := memtable_id mt |> <| next_segment_id := u32 (memtable_id mt + 1) |>,
        <[mt_idx := s <| slot_mt := mt |>]> slots, true)
  else
    enqueued ← Buffer.enqueue_sealed_memtable lsm mt_idx;
    lsm ← of_option ElogError enqueued;
    Ok (lsm, <[mt_idx := s <| slot_mt := mt <| sealed := true |> |>]> slots, growing_memtable_allocated).

(** The ids of flushed memtables, in an array of [MEMTABLE_NUM]. *)
Fixpoint track_flushed_sids (largest_end : Z) (sids_up : list Z) (flushed_not_released : list Z) : res (list Z) :=
  match sids_up with
  | [] => Ok flushed_not_released
  | sid :: sids_up =>
      if sid <=? largest_end then
        if zlen flushed_not_released <? MEMTABLE_NUM then track_flushed_sids largest_end sids_up (flushed_not_released ++ [sid])
        else Error OutOfBounds
      else Ok flushed_not_released
  end.

(** The largest id, the ids in descending order, and the greatest id of which
    rows may be in a segment. *)
Definition read_status_pages (r : list (block (T := ItemPointerData B))) : res (Z * list Z * Z) :=
  status_growing_sid ← GetStatusGrowingSid r;
  listed ← GetStatusMemtableSids r;
  sids ← of_option NullDeref (qsort compare_sids_desc <$> listed);
  first_sid ← arr_get sids 0;
  Ok (status_growing_sid, sids, if first_sid =? status_growing_sid then status_growing_sid else u32 (status_growing_sid - 1)).

(** Index, memtable slots, [flushed_not_released] and directory afterwards. *)
Definition recover_lsm_index_internal (index_relid : Z) (r : list (block (T := ItemPointerData B))) (d : directory)
    (lsm : LSMIndexData) (slots : list MemtableBufferSlot) : res (LSMIndexData * list MemtableBufferSlot * list Z * directory) :=
  '(status_growing_sid, sids, max_memtable_sid) ← read_status_pages r;
  meta ← of_option ElogError (SegFile.read_lsm_index_metadata d);
  let lsm := lsm <| indexRelId := index_relid |> <| lsm_dim := SegFile.im_dim meta |> <| lsm_elem_size := SegFile.im_elem_size meta |> in
  let files := Scan.scan_segment_metadata_files (readdir d) (Z.to_nat MAX_SEGMENTS_COUNT) in
  d ← Recover.repair_segments max_file r max_memtable_sid files sids d;
  let lsm := lsm <| memtable_idxs := replicate (Z.to_nat MEMTABLE_NUM) (-1) |> <| memtable_count := 0 |> in
  largest ← arr_get files (zlen files - 1);
  let sids_up := reverse sids in
  flushed_not_released ← track_flushed_sids (Scan.fi_end_sid largest) sids_up [];
  '(lsm, slots, growing_memtable_allocated) ←
    foldl_res (fun st sid => if sid <=? Scan.fi_end_sid largest then Ok st else recover_memtable r status_growing_sid st sid) (lsm, slots, false) sids_up;
  first_sid ← arr_get sids 0;
  let lsm := if growing_memtable_allocated : bool then lsm else lsm <| next_segment_id := u32 (first_sid + 1) |> in
  Ok (lsm, slots, flushed_not_released, d).

End rebuild.
End Rebuild.

(** ** Filling a memtable *)

Section filling.
Import Insert.
Implicit Types (mt : ConcurrentMemTableData) (p : pc).

(** Positions behind the write. *)
Definition publishing p : Prop := match p with Idle | Publish _ | Count _ | ReadMax _ | SwapFirst | Scan _ _ | Swap _ _ => True | _ => False end.

Lemma goto_eq mt pcs log t mt' p : goto (mkState mt pcs log) t mt' p = mkState mt' (<[t := p]> pcs) log.
Proof. done. Qed.

(** Publishing alone is a run of the insert protocol. *)
Lemma publish_runs fuel mt p mt' pcs log t :
  publishing p -> (t < length pcs)%nat -> Rebuild.publish_from fuel mt p = Ok mt' ->
  rtc step (mkState mt (<[t := p]> pcs) log) (mkState mt' (<[t := Idle]> pcs) log).
Proof.
  intros Hp Ht. revert mt p Hp; induction fuel as [|fuel IH]; intros mt p Hp; [done|]. cbn [Rebuild.publish_from].
  assert (Hat : forall mt p, at_pc (mkState mt (<[t := p]> pcs) log) t p) by (intros; by apply list_lookup_insert_eq).
  assert (Hgo : forall mt1 p1 mt2 p2, goto (mkState mt1 (<[t := p1]> pcs) log) t mt2 p2 = mkState mt2 (<[t := p2]> pcs) log).
  { intros. rewrite goto_eq. f_equal. apply list_insert_insert_eq. }
  assert (Hnext : forall mt1 p1 mt2 p2, step (mkState mt1 (<[t := p1]> pcs) log) (goto (mkState mt1 (<[t := p1]> pcs) log) t mt2 p2) ->
            rtc step (mkState mt2 (<[t := p2]> pcs) log) (mkState mt' (<[t := Idle]> pcs) log) ->
            rtc step (mkState mt1 (<[t := p1]> pcs) log) (mkState mt' (<[t := Idle]> pcs) log)).
  { intros mt1 p1 mt2 p2 Hs Hr. eapply rtc_l; [exact Hs|]. by rewrite Hgo. }
  destruct p as [| | | |i|i|i| |cur new|cur new]; try done.
  - intros [= ->]. apply rtc_refl.
  - destruct (set_ready mt i) as [mt1|] eqn:E; [|done]. cbn. intros Hr. eapply Hnext; [by eapply step_publish|by apply IH].
  - intros Hr. eapply Hnext; [by eapply step_count|by apply IH].
  - intros Hr. eapply Hnext; [by eapply step_read_max|apply IH; [|exact Hr]]. unfold read_max. by repeat case_match.
  - intros [= <-]. eapply Hnext; [by eapply step_swap_first|apply rtc_refl].
  - destruct (scan_step mt cur new) as [p1|] eqn:E; [|done]. cbn. intros Hr. eapply Hnext; [by eapply step_scan|apply IH; [|exact Hr]].
    unfold scan_step in E. destruct (new <? capacity mt); [destruct (arr_get (ready mt) new) as [x|]; [cbn in E|done]; destruct (x =? 1)|];
      injection E as <-; by try destruct (cur <? new - 1).
  - destruct (swap_max mt cur new) as [mt1 p1] eqn:E. intros Hr. eapply Hnext; [by eapply step_swap|apply IH; [|exact Hr]].
    unfold swap_max in E. destruct (max_ready_id mt =? cur); [by injection E as _ <-|]. injection E as _ <-. by destruct (new <=? max_ready_id mt).
Qed.

(** One access. *)
Lemma from_publish f mt i mt1 : set_ready mt i = Ok mt1 -> Rebuild.publish_from (S f) mt (Publish i) = Rebuild.publish_from f mt1 (Count i).
Proof. intros He. cbn [Rebuild.publish_from]. by rewrite He. Qed.
Lemma from_read f mt i p : read_max mt i = p -> Rebuild.publish_from (S f) mt (ReadMax i) = Rebuild.publish_from f mt p.
Proof. by intros <-. Qed.
Lemma from_scan f mt cur new p : scan_step mt cur new = Ok p -> Rebuild.publish_from (S f) mt (Scan cur new) = Rebuild.publish_from f mt p.
Proof. intros He. cbn [Rebuild.publish_from]. by rewrite He. Qed.
Lemma from_swap f mt cur new mt1 p : swap_max mt cur new = (mt1, p) -> Rebuild.publish_from (S f) mt (Swap cur new) = Rebuild.publish_from f mt1 p.
Proof. intros He. cbn [Rebuild.publish_from]. by rewrite He. Qed.

(** Publishing the row behind the published ones. *)
Lemma publish_next mt i y :
  0 <= i < capacity mt -> capacity mt < 2 ^ 31 -> ready mt !! i = Some y ->
  (i + 1 < capacity mt -> ready mt !! (i + 1) = Some 0) ->
  max_ready_id mt = (if decide (i = 0) then UINT32_MAX else i - 1) ->
  Rebuild.publish_slot_release mt i =
    Ok (mt <| ready := <[i := 1]> (ready mt) |> <| ready_cnt ::= fun c => u32 (c + 1) |> <| max_ready_id := i |>).
Proof.
  intros Hi Hc Hy Hnext Hmax. unfold Rebuild.publish_slot_release.
  replace (Z.to_nat (capacity mt) + 8)%nat with (S (S (S (S (S (S (S (S (Z.to_nat (capacity mt))))))))))%nat by lia.
  set (fuel := S (Z.to_nat (capacity mt))). set (mt1 := mt <| ready := <[i := 1]> (ready mt) |>).
  set (mt2 := mt1 <| ready_cnt ::= fun c => u32 (c + 1) |>).
  assert (Hm2 : max_ready_id mt2 = max_ready_id mt /\ ready mt2 = <[i := 1]> (ready mt) /\ capacity mt2 = capacity mt) by done.
  destruct Hm2 as (Em & Er & Ec). rewrite <-Em in Hmax.
  rewrite (from_publish _ _ _ mt1) by (unfold set_ready; by run).
  change (Rebuild.publish_from (S (S (S (S (S (S fuel)))))) mt1 (Count i)) with (Rebuild.publish_from (S (S (S (S (S fuel))))) mt2 (ReadMax i)).
  destruct (decide (i = 0)) as [->|Hne].
  - rewrite (from_read _ _ _ SwapFirst) by (unfold read_max; by rewrite Hmax).
    change (Rebuild.publish_from (S (S (S (S fuel)))) mt2 SwapFirst) with (@Ok ConcurrentMemTableData (swap_first mt2)). unfold swap_first. by rewrite Hmax.
  - rewrite (from_read _ _ _ (Scan (i - 1) i)).
    2: { unfold read_max. rewrite Hmax. zcase; [unfold UINT32_MAX in *; lia|]. rewrite u32_small by lia. zcase; [|lia]. f_equal. lia. }
    rewrite (from_scan _ _ _ _ (Scan (i - 1) (i + 1))).
    2: { unfold scan_step. rewrite Ec, Er. zcase; [|lia]. rewrite (proj2 (arr_get_Ok _ _ _) (zlookup_insert_eq _ _ _ _ Hy)). cbn [mbind res_bind].
         by rewrite u32_small by lia. }
    rewrite (from_scan _ _ _ _ (Swap (i - 1) i)).
    2: { unfold scan_step. rewrite Ec, Er. replace (i + 1 - 1) with i by lia. rewrite (proj2 (Z.ltb_lt (i - 1) i)) by lia. zcase; [|done].
         unfold arr_get. rewrite zlookup_insert_ne by lia. by rewrite Hnext. }
    rewrite (from_swap _ _ _ _ (mt2 <| max_ready_id := i |>) Idle); [done|]. unfold swap_max. by rewrite Hmax, Z.eqb_refl.
Qed.

(** [mt] is the fresh memtable [mt0] with the given rows, all published, as the
    insert protocol leaves it. *)
Record filled (n : nat) (mt0 mt : ConcurrentMemTableData) (rows : list (Z * list Z)) : Prop := {
  fl_run : exists log, rtc step (init mt0 n) (mkState mt (replicate n Idle) log) /\ forall i : Z, log !! i = rows !! i;
  fl_size : current_size mt = zlen rows /\ ready_cnt mt = zlen rows;
  fl_max : max_ready_id mt = if decide (zlen rows = 0) then UINT32_MAX else zlen rows - 1;
  fl_free : forall i, zlen rows <= i < capacity mt -> ready mt !! i = Some 0;
  fl_same : mt = mt0 <| current_size := current_size mt |> <| ready_cnt := ready_cnt mt |> <| max_ready_id := max_ready_id mt |>
                     <| tids := tids mt |> <| ready := ready mt |> <| vector_blob := vector_blob mt |> }.


Section fill.
Context (array_size mcap : Z) (mt0 : ConcurrentMemTableData) (n : nat).
Context (Hup : set_up array_size mcap mt0) (H8 : (8 | VEC_BYTES_PER_ROW mt0)) (Hn : (0 < n)%nat) (Hn' : Z.of_nat n < 2 ^ 31) (Hopen : sealed mt0 = false).

Lemma filled_fields mt rows : filled n mt0 mt rows ->
  capacity mt = capacity mt0 /\ memtable_id mt = memtable_id mt0 /\ sealed mt = false /\ mt_bitmap mt = mt_bitmap mt0 /\
  VEC_BYTES_PER_ROW mt = VEC_BYTES_PER_ROW mt0 /\ flush_claimed mt = flush_claimed mt0.
Proof. intros [_ _ _ _ Hs]. rewrite Hs. by cbn. Qed.

Lemma set_up_capacity : 0 <= capacity mt0 <= MEMTABLE_MAX_CAPACITY.
Proof.
  pose proof (iv_arrays _ (proj1 (reach_inv _ _ _ _ _ Hup H8 Hn' (rtc_refl _ _)))) as (Hc & _). cbn in Hc. split; [done|].
  destruct Hup as (mt1 & rel & id & d & e & _ & _ & _ & _ & Hm & Hs). unfold set_memtable in Hs.
  destruct (memtable_cap _ _ _) as [cap|] eqn:Ec; [|done]. cbn in Hs. injection Hs as <-. cbn. unfold memtable_cap in Ec.
  destruct (_ =? 0); [done|]. injection Ec as <-. unfold MEMTABLE_MAX_CAPACITY in *. rewrite (u32_small mcap) by lia. lia.
Qed.

Lemma filled_empty : filled n mt0 mt0 [].
Proof.
  pose proof (reach_inv _ _ _ _ _ Hup H8 Hn' (rtc_refl _ _)) as [[(Hc & Hr & _) _ _ _ _ _ _ _ _ _] _]. cbn in Hc, Hr.
  destruct Hup as (mt1 & rel & id & d & e & _ & _ & _ & _ & _ & Hs). unfold set_memtable in Hs.
  destruct (memtable_cap _ _ _) as [cap|]; [|done]. cbn in Hs. injection Hs as Hs. split.
  - exists ∅. split; [apply rtc_refl|]. intros i. rewrite lookup_empty. unfold lookup, zlist_lookup. by case_decide.
  - by rewrite <-Hs.
  - by rewrite <-Hs.
  - intros i Hi. rewrite <-Hs in Hi, Hc |- *. cbn in *. unfold mem_clear. change (zlen (@nil (Z * list Z))) with 0 in Hi.
    rewrite zlookup_app_l by (unfold zlen; rewrite length_replicate; lia). replace i with (Z.of_nat (Z.to_nat i)) by lia. rewrite zlookup_nat.
    apply lookup_replicate. lia.
  - by destruct mt0.
Qed.

Lemma filled_inv mt log : rtc step (init mt0 n) (mkState mt (replicate n Idle) log) -> inv (mkState mt (replicate n Idle) log).
Proof. intros Hr. by apply (reach_inv _ _ _ _ _ Hup H8 Hn' Hr). Qed.

(** One more row. *)
Lemma write_next_row mt rows t x : filled n mt0 mt rows -> zlen rows < capacity mt0 -> zlen x = VEC_BYTES_PER_ROW mt0 ->
  exists mt1, write_row (mt <| current_size := u32 (current_size mt + 1) |>) (current_size mt) t x = Ok mt1 /\
  exists mt2, Rebuild.publish_slot_release mt1 (current_size mt) = Ok mt2 /\ filled n mt0 mt2 (rows ++ [(t, x)]).
Proof.
  intros Hf Hroom Hx. pose proof Hf as [(log & Hrun & Hlog) [Hsz Hcnt] Hmax Hfree Hsame]. destruct (filled_fields _ _ Hf) as (Ec & _ & Es & _ & Ev & _).
  pose proof (filled_inv _ _ Hrun) as [(Hc0 & Hcr & Hct & _) [Hv Hfit] _ _ _ _ _ _ _ _]. cbn [st_mt st_pcs] in *.
  pose proof set_up_capacity as Hcap. unfold MEMTABLE_MAX_CAPACITY in Hcap. pose proof (zlen_nonneg rows) as Hrn. rewrite Hsz. rewrite u32_small by lia.
  set (i := zlen rows) in *. set (mtf := mt <| current_size := i + 1 |>).
  destruct (zlookup_lt_is_Some (tids mt) i ltac:(lia)) as [t0 Ht0].
  destruct (mem_write_ok (vector_blob mt) (vec_offset mt i) x) as [blob Hblob]; [by apply vec_offset_nonneg|rewrite Hx, <-Ev; apply Hfit; lia|].
  set (mt1 := mtf <| tids := <[i := t]> (tids mt) |> <| vector_blob := blob |>). exists mt1.
  assert (Hw : write_row mtf i t x = Ok mt1).
  { unfold write_row. change (tids mtf) with (tids mt). rewrite (arr_set_Some _ _ _ _ Ht0). cbn [mbind res_bind].
    change (vector_blob mtf) with (vector_blob mt). change (vec_offset mtf i) with (vec_offset mt i). by rewrite Hblob. }
  split; [exact Hw|]. set (mt2 := mt1 <| ready := <[i := 1]> (ready mt1) |> <| ready_cnt ::= fun c => u32 (c + 1) |> <| max_ready_id := i |>).
  assert (Hp : Rebuild.publish_slot_release mt1 i = Ok mt2).
  { apply (publish_next mt1 i 0); [change (capacity mt1) with (capacity mt); lia|change (capacity mt1) with (capacity mt); lia|apply Hfree; lia| |].
    - intros Hi. apply Hfree. change (capacity mt1) with (capacity mt) in Hi. lia.
    - exact Hmax. }
  exists mt2. split; [exact Hp|]. assert (Hz : zlen (rows ++ [(t, x)]) = i + 1) by (rewrite zlen_app; done). split.
  - exists (<[i := (t, x)]> log). split.
    + etrans; [exact Hrun|].
      assert (Hat : forall p, at_pc (mkState mt (<[0%nat := p]> (replicate n Idle)) log) 0 p) by (intros; apply list_lookup_insert_eq; by rewrite length_replicate).
      assert (Hidle : <[0%nat := Idle]> (replicate n Idle) = replicate n Idle) by (apply list_insert_id, lookup_replicate; done).
      rewrite <-Hidle at 1. eapply rtc_l. { apply (step_start _ 0%nat t x); [apply Hat|]. cbn. by rewrite Ev. }
      unfold read_sealed. cbn [st_mt]. rewrite Es, goto_eq, list_insert_insert_eq.
      eapply rtc_l. { eapply (step_fetch _ 0%nat t x); [apply Hat|]. unfold fetch_slot. cbn [st_mt]. rewrite Hsz. rewrite (proj2 (Z.leb_gt (capacity mt) i)) by lia. reflexivity. }
      rewrite goto_eq, list_insert_insert_eq, u32_small by lia. fold mtf.
      eapply rtc_l. { eapply (step_write _ 0%nat i t x mt1); [apply list_lookup_insert_eq; by rewrite length_replicate|exact Hw]. }
      change (rtc step (mkState mt1 (<[0%nat := Publish i]> (<[0%nat := Write i t x]> (replicate n Idle))) (<[i := (t, x)]> log))
        (mkState mt2 (replicate n Idle) (<[i := (t, x)]> log))).
      rewrite list_insert_insert_eq. rewrite <-Hidle at 2.
      eapply publish_runs; [|by rewrite length_replicate|exact Hp]. done.
    + intros j. destruct (decide (j = i)) as [->|Hne].
      * rewrite lookup_insert_eq. symmetry. rewrite zlookup_app_r by (unfold i; lia). unfold i. by rewrite Z.sub_diag.
      * rewrite lookup_insert_ne, Hlog by done. destruct (decide (j < i)); [by rewrite zlookup_app_l|].
        rewrite !zlookup_ge; [done|rewrite Hz; lia|unfold i in *; lia].
  - rewrite Hz. split; [done|]. change (ready_cnt mt2) with (u32 (ready_cnt mt + 1)). rewrite Hcnt. apply u32_small. lia.
  - rewrite Hz, decide_False by lia. change (max_ready_id mt2) with i. lia.
  - rewrite Hz. intros j Hj. change (capacity mt2) with (capacity mt) in Hj. change (ready mt2) with (<[i := 1]> (ready mt)).
    rewrite zlookup_insert_ne by lia. apply Hfree. lia.
  - subst mt2 mt1 mtf. clear -Hsame. destruct mt, mt0. cbn in *. injection Hsame as -> -> -> -> -> -> -> ->. reflexivity.
Qed.
End fill.

(** *** The heap rows of a memtable *)

Section rows.
Context {B : Type} `{BlockId B}.
Context (table_tuple_fetch_row_version : ItemPointerData B -> option (option (list Z))).

(** The tuples the heap still has, with their vectors. *)
Definition heap_rows (width : Z) (tids : list (ItemPointerData B)) : list (Z * list Z) :=
  omap (fun tid => match table_tuple_fetch_row_version tid with
                   | Some (Some x) => Some (ItemPointerToInt64 tid, take (Z.to_nat width) x)
                   | _ => None end) tids.

(** Rows the heap can give: none has a null or too short vector. *)
Definition readable (width : Z) (tid : ItemPointerData B) : Prop :=
  match table_tuple_fetch_row_version tid with Some (Some x) => width <= zlen x | Some None => False | None => True end.

Lemma rows_recovered array_size mcap mt0 n tids :
  set_up array_size mcap mt0 -> (8 | VEC_BYTES_PER_ROW mt0) -> (0 < n)%nat -> Z.of_nat n < 2 ^ 31 -> sealed mt0 = false ->
  Forall (readable (VEC_BYTES_PER_ROW mt0)) tids -> forall mt rows, filled n mt0 mt rows -> zlen rows + zlen tids <= capacity mt0 ->
  exists mt', foldl_res (Rebuild.recover_row table_tuple_fetch_row_version) mt tids = Ok mt' /\
    filled n mt0 mt' (rows ++ heap_rows (VEC_BYTES_PER_ROW mt0) tids).
Proof.
  intros Hup H8 Hn Hn' Hopen. induction 1 as [|tid tids Hr _ IH]; intros mt rows Hf Hz.
  { exists mt. split; [done|]. cbn. by rewrite app_nil_r. }
  unfold readable in Hr. unfold heap_rows. cbn [omap list_omap]. rewrite zlen_cons in Hz. pose proof (zlen_nonneg tids).
  destruct (table_tuple_fetch_row_version tid) as [[x|]|] eqn:Ef; [|done|].
  - destruct (filled_fields _ _ Hopen _ _ Hf) as (_ & _ & _ & _ & Ev & _).
    destruct (write_next_row _ _ _ _ Hup H8 Hn Hn' Hopen mt rows (ItemPointerToInt64 tid) (take (Z.to_nat (VEC_BYTES_PER_ROW mt0)) x) Hf)
      as (mt1 & Hw & mt2 & Hp & Hf2); [lia| |].
    { unfold zlen in *. rewrite length_take. assert (0 <= VEC_BYTES_PER_ROW mt0) by (unfold VEC_BYTES_PER_ROW, u64; apply Z.mod_pos_bound; lia). lia. }
    assert (Hrow : Rebuild.recover_row table_tuple_fetch_row_version mt tid = Ok mt2).
    { unfold Rebuild.recover_row. rewrite Ef. cbn [mbind res_bind of_option].
      change (VEC_BYTES_PER_ROW (mt <| current_size := u32 (current_size mt + 1) |>)) with (VEC_BYTES_PER_ROW mt). rewrite Ev. zcase; [lia|].
      by rewrite Hw. }
    cbn [foldl_res]. rewrite Hrow. cbn [mbind res_bind].
    destruct (IH mt2 _ Hf2) as (mt' & -> & Hf'); [rewrite zlen_app; change (zlen [_]) with 1; lia|].
    exists mt'. split; [done|]. by rewrite <-app_assoc in Hf'.
  - assert (Hrow : Rebuild.recover_row table_tuple_fetch_row_version mt tid = Ok mt) by (unfold Rebuild.recover_row; by rewrite Ef).
    cbn [foldl_res]. rewrite Hrow. cbn [mbind res_bind]. apply IH; [done|lia].
Qed.
End rows.
End filling.

(** ** What recovery promises *)

(** The memtable of [sid] with the given rows, as inserts by themselves would
    have left it (with [n] backends about to use it), sealed or not. *)
Record rebuilt (array_size mcap : Z) (n : nat) (closed : bool) (sid : Z) (rows : list (Z * list Z)) (mt : ConcurrentMemTableData) : Prop := {
  rb_id : memtable_id mt = sid /\ sealed mt = closed /\ flush_claimed mt = false;
  rb_run : exists mt0 mt1 log, set_up array_size mcap mt0 /\ rtc Insert.step (Insert.init mt0 n) (Insert.mkState mt1 (replicate n Insert.Idle) log) /\
             mt = mt1 <| sealed := closed |>;
  rb_size : current_size mt = zlen rows /\ ready_cnt mt = zlen rows /\ zlen rows <= capacity mt;
  rb_max : max_ready_id mt = if decide (zlen rows = 0) then UINT32_MAX else zlen rows - 1;
  rb_rows : forall (i : Z) t x, rows !! i = Some (t, x) -> tids mt !! i = Some t /\ row_at mt i = x /\ is_ready mt i;
  rb_kept : forall i, 0 <= i < capacity mt -> IS_SLOT_SET (mt_bitmap mt) i = false;
  rb_free : forall i, zlen rows <= i < capacity mt -> ready mt !! i = Some 0 }.

(** The slot whose arrays are as long as declared. *)
Definition slot_ok (array_size mcap : Z) (s : MemtableBufferSlot) : Prop :=
  zlen (vector_blob (slot_mt s)) = array_size /\ mcap <= zlen (ready (slot_mt s)) /\ mcap <= zlen (tids (slot_mt s)).

Lemma set_memtable_fields array_size mcap mt rel id d e mt' : set_memtable array_size mcap mt rel id d e = Ok mt' ->
  memtable_id mt' = id /\ sealed mt' = false /\ flush_claimed mt' = false /\ dim mt' = d /\ elem_size mt' = e /\
  mt_bitmap mt' = mem_clear (mt_bitmap mt) MEMTABLE_BITMAP_SIZE /\ memtable_cap array_size mcap (u64 (d * e)) = Ok (capacity mt').
Proof.
  unfold set_memtable. cbn. change (VEC_BYTES_PER_ROW _) with (u64 (d * e)). destruct (memtable_cap _ _ _) as [c|]; [|done]. cbn.
  by intros [= <-].
Qed.

Lemma cleared_bits bm i : 0 <= i < MEMTABLE_MAX_CAPACITY -> IS_SLOT_SET (mem_clear bm MEMTABLE_BITMAP_SIZE) i = false.
Proof.
  intros Hi. rewrite <-(IS_SLOT_SET_take _ MEMTABLE_MAX_CAPACITY) by done. unfold mem_clear. rewrite take_app_length'.
  - apply (IS_SLOT_SET_zero MEMTABLE_MAX_CAPACITY). lia.
  - by rewrite length_replicate.
Qed.

(** *** Slots *)

Definition free_slots (slots : list MemtableBufferSlot) : Z := zlen (filter (fun s => mt_ref_count s = 0) slots).

Lemma claim_slot_free slots : forall i, 0 < free_slots slots -> is_Some (Buffer.claim_slot slots i).
Proof.
  induction slots as [|s slots IH]; intros i Hf; [done|]. cbn [Buffer.claim_slot]. zcase; [by eexists|].
  destruct (IH (i + 1)) as [x ->]; [|by eexists]. unfold free_slots in *. by rewrite filter_cons, decide_False in Hf by done.
Qed.

Lemma free_slots_insert slots (i : Z) s s' : slots !! i = Some s -> mt_ref_count s = 0 -> mt_ref_count s' <> 0 ->
  free_slots (<[i := s']> slots) = free_slots slots - 1.
Proof.
  unfold lookup, zlist_lookup, insert, zlist_insert. case_decide as Hi; [|done]. intros Hs Hz Hz'. unfold free_slots.
  revert Hs. generalize (Z.to_nat i). clear -Hz Hz'. induction slots as [|a slots IH]; intros k Hs; [done|]. destruct k as [|k].
  - injection Hs as ->. change (<[0%nat := s']> (s :: slots)) with (s' :: slots). rewrite !filter_cons, decide_False, decide_True by done. rewrite zlen_cons. lia.
  - change (<[S k := s']> (a :: slots)) with (a :: <[k := s']> slots). specialize (IH k Hs). rewrite !filter_cons. case_decide; rewrite ?zlen_cons; lia.
Qed.

Lemma register_for_recovery array_size mcap lsm slots sid :
  0 < free_slots slots -> u64 (lsm_dim lsm * lsm_elem_size lsm) <> 0 ->
  exists i s mt0, slots !! i = Some s /\ mt_ref_count s = 0 /\
    set_memtable array_size mcap (slot_mt s) (indexRelId lsm) sid (lsm_dim lsm) (lsm_elem_size lsm) = Ok mt0 /\
    Buffer.register_and_set_memtable array_size mcap lsm slots true sid = Ok (i, lsm, <[i := mkBufferSlot 1 mt0]> slots).
Proof.
  intros Hf He. destruct (claim_slot_free _ 0 Hf) as [[i slots'] Hc]. destruct (claim_slot_inv _ _ _ _ Hc) as (s & Hle & Hs & Hz & ->).
  rewrite Z.sub_0_r in *. destruct (set_memtable array_size mcap (slot_mt s) (indexRelId lsm) sid (lsm_dim lsm) (lsm_elem_size lsm)) as [mt0|] eqn:Hm.
  2: { exfalso. unfold set_memtable in Hm. change (VEC_BYTES_PER_ROW _) with (u64 (lsm_dim lsm * lsm_elem_size lsm)) in Hm. unfold memtable_cap in Hm.
       destruct (Z.eqb_spec (u64 (lsm_dim lsm * lsm_elem_size lsm)) 0); done. }
  exists i, s, mt0. split_and!; [done..|]. unfold Buffer.register_and_set_memtable. rewrite Hc. cbn [mbind res_bind fst snd].
  rewrite (proj2 (arr_get_Ok _ _ _) (zlookup_insert_eq _ _ _ _ Hs)). cbn [mbind res_bind slot_mt update]. 
  change (slot_mt (s <| mt_ref_count := 1 |>)) with (slot_mt s). rewrite Hm. cbn [mbind res_bind].
  do 2 f_equal. apply zinsert_insert.
Qed.

Lemma allocate_ok array_size mcap lsm slots sid :
  0 < free_slots slots -> u64 (lsm_dim lsm * lsm_elem_size lsm) <> 0 ->
  exists i s mt0, slots !! i = Some s /\ mt_ref_count s = 0 /\
    set_memtable array_size mcap (slot_mt s) (indexRelId lsm) sid (lsm_dim lsm) (lsm_elem_size lsm) = Ok mt0 /\
    Rebuild.allocate_memtable array_size mcap lsm slots sid = Ok (i, <[i := mkBufferSlot 1 mt0]> slots).
Proof.
  intros Hf He. destruct (register_for_recovery array_size mcap lsm slots sid Hf He) as (i & s & mt0 & Hs & Hz & Hm & Hr).
  exists i, s, mt0. split_and!; [done..|]. unfold Rebuild.allocate_memtable. rewrite Hr. cbn [mbind res_bind]. zcase; [|done].
  apply zlookup_lt_Some in Hs. lia.
Qed.

Section rebuilding.
Context (array_size mcap : Z) (n : nat) (Hn : (0 < n)%nat) (Hn' : Z.of_nat n < 2 ^ 31).
Context (Hsizes : 0 <= array_size /\ 0 <= mcap <= MEMTABLE_MAX_CAPACITY).

Lemma filled_rebuilt mt0 mt rows closed :
  set_up array_size mcap mt0 -> (8 | VEC_BYTES_PER_ROW mt0) -> sealed mt0 = false -> flush_claimed mt0 = false ->
  (forall i, 0 <= i < MEMTABLE_MAX_CAPACITY -> IS_SLOT_SET (mt_bitmap mt0) i = false) ->
  filled n mt0 mt rows -> rebuilt array_size mcap n closed (memtable_id mt0) rows (mt <| sealed := closed |>).
Proof.
  intros Hup H8 Hopen Hfl Hbits Hf. destruct (filled_fields _ _ Hopen _ _ Hf) as (Ec & Ei & Es & Eb & Ev & Ef). pose proof Hf as [(log & Hrun & Hlog) [Hsz Hcnt] Hmax Hfree Hsame].
  pose proof (filled_inv _ _ _ _ Hup H8 Hn' _ _ Hrun) as Hinv. pose proof Hinv as [(Hc0 & Hcr & _) _ [_ Hb] _ Hown _ Hlg _ _ _].
  pose proof (set_up_capacity _ _ _ _ Hup H8 Hn Hn' Hopen) as Hcap. unfold size_bound in Hb. cbn [Insert.st_mt Insert.st_pcs Insert.st_log] in *.
  assert (Hz : zlen rows <= capacity mt).
  { rewrite Es, Hsz in Hb. assert (count_pc is_overflow (replicate n Insert.Idle) = 0); [|lia]. clear. unfold count_pc.
    induction n as [|k IH]; [done|]. cbn [replicate]. by rewrite filter_cons, decide_False. }
  split; cbn [memtable_id sealed flush_claimed current_size ready_cnt capacity max_ready_id tids mt_bitmap update] in *.
  - change (memtable_id mt = memtable_id mt0 /\ closed = closed /\ flush_claimed mt = false). rewrite Ei, Ef. done.
  - exists mt0, mt, log. done.
  - done.
  - done.
  - intros i t x Hi. pose proof (zlookup_lt_Some _ _ _ Hi) as Hir. change (row_at (mt <| sealed := closed |>) i) with (row_at mt i).
    rewrite <-Hlog in Hi. destruct (Hlg i) as (t' & x' & Hl & _ & Hcase); [cbn; lia|cbn; lia|]. rewrite Hi in Hl. injection Hl as <- <-.
    assert (Hidle : forall k p, Insert.at_pc (Insert.mkState mt (replicate n Insert.Idle) log) k p -> p = Insert.Idle).
    { intros k p Hp. unfold Insert.at_pc in Hp. cbn in Hp. by apply lookup_replicate in Hp as [-> _]. }
    destruct Hcase as [[k Hk%Hidle]|(H1 & H2 & [H3|[k Hk%Hidle]])]; done.
  - intros i Hi. change (mt_bitmap (mt <| sealed := closed |>)) with (mt_bitmap mt). rewrite Eb. apply Hbits.
    change (capacity (mt <| sealed := closed |>)) with (capacity mt) in Hi. lia.
  - exact Hfree.
Qed.

End rebuilding.

(** *** The memtables one after the other *)

Section loop.
Context {B : Type} `{BlockId B} `{PageLayout (ItemPointerData B)}.
Context (fetch : ItemPointerData B -> option (option (list Z))) (r : list (block (T := ItemPointerData B))) (g : Z).
Context (tids_of : Z -> option (list (ItemPointerData B))).
Context (array_size mcap : Z) (n : nat) (Hn : (0 < n)%nat) (Hn' : Z.of_nat n < 2 ^ 31).
Context (Hsizes : 0 <= array_size /\ 0 <= mcap <= MEMTABLE_MAX_CAPACITY).
Context (width cap : Z) (Hcap : memtable_cap array_size mcap width = Ok cap) (H8 : (8 | width)).

Definition rows_of (sid : Z) : list (Z * list Z) := heap_rows fetch width (default [] (tids_of sid)).

(** The rebuilt memtable of [sid] is in slot [i], with one reference. *)
Definition at_slot (slots : list MemtableBufferSlot) (sid i : Z) : Prop :=
  exists s, slots !! i = Some s /\ mt_ref_count s = 1 /\ rebuilt array_size mcap n (negb (sid =? g)) sid (rows_of sid) (slot_mt s).

Definition others (sids : list Z) : list Z := filter (fun sid => sid <> g) sids.

Record progress (lsm0 : LSMIndexData) (slots0 : list MemtableBufferSlot) (sids : list Z) (st : LSMIndexData * list MemtableBufferSlot * bool) : Prop := {
  pg_queue : Forall2 (at_slot st.1.2) (others sids) (queue st.1.1);
  pg_count : memtable_count st.1.1 = zlen (others sids) /\ zlen (memtable_idxs st.1.1) = MEMTABLE_NUM;
  pg_growing : if st.2 : bool
               then g ∈ sids /\ at_slot st.1.2 g (growing_memtable_idx st.1.1) /\ growing_memtable_id st.1.1 = g /\ next_segment_id st.1.1 = u32 (g + 1)
               else (g ∉ sids) /\ growing_memtable_idx st.1.1 = growing_memtable_idx lsm0 /\ growing_memtable_id st.1.1 = growing_memtable_id lsm0;
  pg_free : free_slots st.1.2 + zlen sids = free_slots slots0 /\ zlen st.1.2 = zlen slots0;
  pg_kept : forall i s, slots0 !! i = Some s -> mt_ref_count s <> 0 -> st.1.2 !! i = Some s;
  pg_taken : forall i s, st.1.2 !! i = Some s -> mt_ref_count s = 0 -> slots0 !! i = Some s;
  pg_dims : indexRelId st.1.1 = indexRelId lsm0 /\ lsm_dim st.1.1 = lsm_dim lsm0 /\ lsm_elem_size st.1.1 = lsm_elem_size lsm0 }.

(** A slot that was free is overwritten: the memtables built so far stay. *)
Lemma at_slot_insert slots sid i (j : Z) s s' : slots !! j = Some s -> mt_ref_count s = 0 -> at_slot slots sid i -> at_slot (<[j := s']> slots) sid i.
Proof.
  intros Hj Hz (t & Ht & H1 & Hr). exists t. split; [|done]. rewrite zlookup_insert_ne; [done|]. intros <-. assert (s = t) as -> by congruence. lia.
Qed.

Lemma others_snoc sids sid : others (sids ++ [sid]) = others sids ++ (if sid =? g then [] else [sid]).
Proof. unfold others. rewrite filter_app, filter_cons. f_equal. by destruct (Z.eqb_spec sid g), (decide (sid <> g)). Qed.

Lemma recover_memtable_ok lsm0 slots0 sids st sid :
  progress lsm0 slots0 sids st -> sid ∉ sids ->
  u64 (lsm_dim lsm0 * lsm_elem_size lsm0) = width -> width <> 0 -> Forall (slot_ok array_size mcap) slots0 ->
  zlen sids < free_slots slots0 -> zlen (others (sids ++ [sid])) <= MEMTABLE_NUM ->
  GetStatusMemtableTids r sid = Ok (tids_of sid) -> Forall (readable fetch width) (default [] (tids_of sid)) ->
  zlen (default [] (tids_of sid)) <= cap ->
  exists st', Rebuild.recover_memtable array_size mcap fetch r g st sid = Ok st' /\ progress lsm0 slots0 (sids ++ [sid]) st'.
Proof.
  intros [Hq [Hc Hi] Hg [Hf Hz] Hk Ht (D1 & D2 & D3)] Hnew Hw Hw0 Hok Hroom Hnum Hst Hrd Hcp. destruct st as [[lsm slots] alloc]. cbn [fst snd] in *.
  destruct (allocate_ok array_size mcap lsm slots sid) as (i & s & mt0 & Hs & Hs0 & Hm & Ha); [lia|by rewrite D2, D3, Hw|].
  destruct (set_memtable_fields _ _ _ _ _ _ _ _ Hm) as (M1 & M2 & M3 & M4 & M5 & M6 & M7). rewrite D2, D3, Hw in M7.
  assert (Hcap0 : capacity mt0 = cap) by congruence.
  assert (Hv : VEC_BYTES_PER_ROW mt0 = width) by (unfold VEC_BYTES_PER_ROW; by rewrite M4, M5, D2, D3).
  assert (Hup : set_up array_size mcap mt0).
  { rewrite Forall_forall in Hok. destruct (Hok s) as (O1 & O2 & O3); [apply elem_of_zlookup; exists i; by apply Ht|].
    exists (slot_mt s), (indexRelId lsm), sid, (lsm_dim lsm), (lsm_elem_size lsm). split_and!; try done; lia. }
  rewrite <-Hv in H8. destruct (rows_recovered fetch array_size mcap mt0 n (default [] (tids_of sid)) Hup H8 Hn Hn' M2) with (mt := mt0) (rows := @nil (Z * list Z))
    as (mt' & Hrows & Hfill); [by rewrite Hv|by eapply filled_empty|change (zlen []) with 0; lia|].
  rewrite Hv in Hfill. cbn [app] in Hfill. fold (rows_of sid) in Hfill.
  assert (Hb : forall closed, rebuilt array_size mcap n closed sid (rows_of sid) (mt' <| sealed := closed |>)).
  { intros closed. rewrite <-M1 at 1. apply (filled_rebuilt array_size mcap n Hn Hn' mt0); try done. intros j Hj. rewrite M6. by apply cleared_bits. }
  assert (Hmt : memtable_id mt' = sid) by (destruct (Hb false) as [[Hid _] _ _ _ _ _ _]; exact Hid).
  unfold Rebuild.recover_memtable. rewrite Hst. cbn [mbind res_bind]. rewrite Ha. cbn [mbind res_bind].
  rewrite (proj2 (arr_get_Ok _ _ _) (zlookup_insert_eq _ _ _ _ Hs)). cbn [mbind res_bind slot_mt]. rewrite Hrows. cbn [mbind res_bind].
  assert (Hins : forall x y, <[i := x]> (<[i := y]> slots) = <[i := x]> slots).
  { intros x y. apply zinsert_insert. }
  rewrite others_snoc in Hnum.
  assert (Hslots : forall mt'', let slots' := <[i := mkBufferSlot 1 mt'']> slots in
    (free_slots slots' + zlen (sids ++ [sid]) = free_slots slots0 /\ zlen slots' = zlen slots0) /\
    (forall j t, slots0 !! j = Some t -> mt_ref_count t <> 0 -> slots' !! j = Some t) /\
    (forall j t, slots' !! j = Some t -> mt_ref_count t = 0 -> slots0 !! j = Some t)).
  { intros mt''. cbn zeta. rewrite (free_slots_insert _ _ s) by done. rewrite zlen_insert, zlen_app. change (zlen [sid]) with 1. split; [lia|].
    split; intros j t; rewrite zlookup_insert; case_decide as Hj.
    - subst j. intros Hjt Htz. specialize (Hk _ _ Hjt Htz). congruence.
    - by apply Hk.
    - subst j. rewrite Hs. cbn. intros [= <-]. done.
    - by apply Ht. }
  assert (Hhere : forall closed mt'', mt'' = mt' <| sealed := closed |> -> closed = negb (sid =? g) -> at_slot (<[i := mkBufferSlot 1 mt'']> slots) sid i).
  { intros closed mt'' -> ->. exists (mkBufferSlot 1 (mt' <| sealed := negb (sid =? g) |>)). split; [by eapply zlookup_insert_eq|]. split; [done|]. apply Hb. }
  destruct (Z.eqb_spec sid g) as [Hsg|Hsg].
  - eexists. split; [done|]. change ((mkBufferSlot 1 mt0) <| slot_mt := mt' |>) with (mkBufferSlot 1 mt'). rewrite Hins.
    destruct (Hslots mt') as (F1 & F2 & F3). split; cbn [fst snd]; rewrite ?others_snoc, ?(proj2 (Z.eqb_eq sid g) Hsg), ?app_nil_r; try done.
    + eapply Forall2_impl; [exact Hq|]. intros x j. by apply at_slot_insert with s.
    + split; [apply elem_of_app; right; rewrite Hsg; left|]. cbn. rewrite Hmt, Hsg. split; [|done]. rewrite <-Hsg. apply (Hhere false); [|done].
      destruct (filled_fields _ _ M2 _ _ Hfill) as (_ & _ & Hsl & _). clear -Hsl. destruct mt'. cbn in *. by subst.
  - assert (Hlt : memtable_count lsm < MEMTABLE_NUM) by (rewrite zlen_app in Hnum; change (zlen [sid]) with 1 in Hnum; lia).
    assert (He : exists lsm', Buffer.enqueue_sealed_memtable lsm i = Ok (Some lsm')).
    { unfold Buffer.enqueue_sealed_memtable. rewrite (proj2 (Z.ltb_lt _ _) Hlt). pose proof (zlen_nonneg (others sids)).
      destruct (zlookup_lt_is_Some (memtable_idxs lsm) (memtable_count lsm)) as [y Hy]; [lia|]. rewrite (arr_set_Some _ _ _ _ Hy). cbn. by eexists. }
    destruct He as [lsm' He]. rewrite He. cbn [mbind res_bind of_option].
    destruct (enqueue_inv lsm i lsm') as (Q1 & Q2 & _ & Q4 & Q5 & Q6); [pose proof (zlen_nonneg (others sids)); lia|lia|done|].
    assert (Hd : indexRelId lsm' = indexRelId lsm /\ lsm_dim lsm' = lsm_dim lsm /\ lsm_elem_size lsm' = lsm_elem_size lsm /\ growing_memtable_id lsm' = growing_memtable_id lsm).
    { clear -He. unfold Buffer.enqueue_sealed_memtable in He. destruct (_ <? _); [|done]. destruct (arr_set _ _ _); [|done]. cbn in He. by injection He as <-. }
    destruct Hd as (E1 & E2 & E3 & E4). eexists. split; [done|]. change ((mkBufferSlot 1 mt0) <| slot_mt := mt' <| sealed := true |> |>) with (mkBufferSlot 1 (mt' <| sealed := true |>)).
    rewrite Hins. destruct (Hslots (mt' <| sealed := true |>)) as (F1 & F2 & F3).
    split; cbn [fst snd]; rewrite ?others_snoc, ?(proj2 (Z.eqb_neq sid g)) by done; try done.
    + rewrite Q1. apply Forall2_app; [eapply Forall2_impl; [exact Hq|]; intros x j; by apply at_slot_insert with s|].
      constructor; [|constructor]. apply (Hhere true); done.
    + split; [rewrite Q2, Hc, zlen_app; done|done].
    + destruct alloc.
      * destruct Hg as (G1 & G2 & G3 & G4). rewrite Q5, Q6, E4. split; [apply elem_of_app; by left|]. split; [by apply at_slot_insert with s|done].
      * destruct Hg as (G1 & G2 & G3). rewrite Q5, E4. split; [|done]. rewrite elem_of_app, list_elem_of_singleton. intros [|]; [done|congruence].
    + by rewrite E1, E2, E3.
Qed.
End loop.

(** ** The whole recovery *)

Abbreviation ascending := (StronglySorted Z.lt).

Lemma ascending_reverse l : descending l -> ascending (reverse l).
Proof. apply (StronglySorted_reverse (fun a b : Z => b < a)). Qed.

Lemma ascending_filter (P : Z -> Prop) `{forall x, Decision (P x)} l : ascending l -> ascending (filter P l).
Proof.
  induction 1 as [|x l Hl IH Hx]; [constructor|]. rewrite filter_cons. case_decide; [|done]. constructor; [done|].
  rewrite Forall_forall in Hx |- *. intros y [_ Hy]%list_elem_of_filter. by apply Hx.
Qed.

Lemma ascending_NoDup l : ascending l -> NoDup l.
Proof.
  induction 1 as [|x l Hl IH Hx]; constructor; [|done]. rewrite Forall_forall in Hx. intros Hin. specialize (Hx x Hin). lia.
Qed.

Definition flushed_sids (e : Z) (sids : list Z) : list Z := filter (fun sid => sid <= e) sids.
Definition unflushed_sids (e : Z) (sids : list Z) : list Z := filter (fun sid => e < sid) sids.

Lemma track_flushed_ok e l : forall acc, ascending l -> zlen acc + zlen (flushed_sids e l) <= MEMTABLE_NUM ->
  Rebuild.track_flushed_sids e l acc = Ok (acc ++ flushed_sids e l).
Proof.
  induction l as [|sid l IH]; intros acc Hl Hz; [cbn; by rewrite app_nil_r|]. cbn [Rebuild.track_flushed_sids]. pose proof (StronglySorted_inv Hl) as [Hl' Hx].
  unfold flushed_sids in *. set (P := fun x => x <= e) in *. destruct (Z.leb_spec sid e).
  - rewrite filter_cons_True in Hz |- * by done. rewrite zlen_cons in Hz. pose proof (zlen_nonneg (filter P l)). zcase; [|lia].
    rewrite IH; [by rewrite <-app_assoc|done|rewrite zlen_app; change (zlen [sid]) with 1; lia].
  - enough (filter P (sid :: l) = []) as -> by by rewrite app_nil_r.
    destruct (filter P (sid :: l)) as [|y k] eqn:E; [done|]. assert (Hy : y ∈ filter P (sid :: l)) by (rewrite E; left).
    apply list_elem_of_filter in Hy as [Hy [->|Hin]%elem_of_cons]; unfold P in Hy; [lia|]. rewrite Forall_forall in Hx. specialize (Hx y Hin). lia.
Qed.

Section whole.
Context {B : Type} `{BlockId B} `{PageLayout (ItemPointerData B)}.
Context (fetch : ItemPointerData B -> option (option (list Z))) (array_size mcap max_file : Z) (n : nat).
Context (r : list (block (T := ItemPointerData B))) (d : directory) (slots : list MemtableBufferSlot).
Context (g : Z) (m : gmap Z (list (ItemPointerData B))) (meta : SegFile.IndexMeta) (segs : list segment) (cap : Z).

Definition row_width : Z := u64 (SegFile.im_dim meta * SegFile.im_elem_size meta).
Definition last_end : Z := default 0 ((fun s => seg_end s) <$> last segs).
(** The ids of the status pages, ascending. *)
Definition listed_sids : list Z := reverse (qsort compare_sids_desc (map_to_list m).*1).

(** When recovery works: the status pages show a largest id and a map of ids up
    to it, the files are those of an index with at least one segment, the
    unflushed memtables find room, and the heap can give their rows. *)
Record recoverable : Prop := {
  re_pages : shows r (g, m) /\ m <> ∅ /\ 1 <= g < 2 ^ 32 /\ forall sid ts, m !! sid = Some ts -> sid <= g /\ zlen ts <= MEMTABLE_MAX_CAPACITY;
  re_meta : SegFile.read_lsm_index_metadata d = Some meta /\ row_width <> 0 /\ (8 | row_width) /\ memtable_cap array_size mcap row_width = Ok cap;
  re_files : fits (readdir d) /\ ranges_valid (readdir d) /\
    sg_file <$> segs = Scan.scan_segment_metadata_files (readdir d) (Z.to_nat MAX_SEGMENTS_COUNT) /\
    segs <> [] /\ Forall (holds 3 d) segs /\ Forall table_ok segs;
  re_rows : forall sid ts, m !! sid = Some ts -> last_end < sid -> Forall (readable fetch row_width) ts /\ zlen ts <= cap;
  re_room : zlen (flushed_sids last_end listed_sids) <= MEMTABLE_NUM /\ zlen (others g (unflushed_sids last_end listed_sids)) <= MEMTABLE_NUM /\
    zlen (unflushed_sids last_end listed_sids) <= free_slots slots;
  re_slots : Forall (slot_ok array_size mcap) slots;
  re_sizes : 4 < max_file /\ 0 <= array_size /\ 0 <= mcap <= MEMTABLE_MAX_CAPACITY /\ (0 < n)%nat /\ Z.of_nat n < 2 ^ 31 }.

(** The greatest id of which something may be in a segment. *)
Definition max_logged : Z := if bool_decide (is_Some (m !! g)) then g else g - 1.

(** The slot of a memtable with its rows of the heap. *)
Abbreviation memtable_at := (at_slot fetch g (fun sid => m !! sid) array_size mcap n row_width).

Record recovered (lsm lsm' : LSMIndexData) (slots' : list MemtableBufferSlot) (tracked : list Z) (d' : directory) : Prop := {
  rd_segments : exists segs',
    Forall2 (fun s s' => marks (some_row s (fun sid x => max_logged < sid \/ is_Some (m !! sid) /\ x ∉ ids_of (fun sid => m !! sid) sid)) s s') segs segs' /\
    Forall (holds 1 d') segs' /\ forall k, Scan.scan_segment_metadata_files (readdir d') k = Scan.scan_segment_metadata_files (readdir d) k;
  rd_queue : exists sids, ascending sids /\ (forall sid, sid ∈ sids <-> is_Some (m !! sid) /\ last_end < sid /\ sid <> g) /\
    Forall2 (memtable_at slots') sids (queue lsm');
  rd_growing : if bool_decide (is_Some (m !! g) /\ last_end < g)
    then memtable_at slots' g (growing_memtable_idx lsm') /\ growing_memtable_id lsm' = g /\ next_segment_id lsm' = u32 (g + 1)
    else growing_memtable_idx lsm' = growing_memtable_idx lsm /\
         exists newest, is_Some (m !! newest) /\ (forall sid, is_Some (m !! sid) -> sid <= newest) /\ next_segment_id lsm' = u32 (newest + 1);
  rd_tracked : forall sid, sid ∈ tracked <-> is_Some (m !! sid) /\ sid <= last_end;
  rd_others : forall i s, slots !! i = Some s -> mt_ref_count s <> 0 -> slots' !! i = Some s }.


Lemma descending_unique (l k : list Z) : descending l -> descending k -> l ≡ₚ k -> l = k.
Proof. intros Hl Hk Hp. eapply (StronglySorted_unique_strong (fun a b : Z => b < a)); [|done..]. intros a b _ _ Hab Hba. lia. Qed.

Lemma keys_NoDup : NoDup (map_to_list m).*1.
Proof. apply NoDup_fst_map_to_list. Qed.

Lemma elem_of_keys sid : sid ∈ (map_to_list m).*1 <-> is_Some (m !! sid).
Proof.
  rewrite list_elem_of_fmap. split.
  - intros ([k ts] & -> & Hk%elem_of_map_to_list). by exists ts.
  - intros [ts Hts]. exists (sid, ts). split; [done|]. by apply elem_of_map_to_list.
Qed.

Lemma elem_of_listed sid : sid ∈ listed_sids <-> is_Some (m !! sid).
Proof. unfold listed_sids. rewrite elem_of_reverse. destruct (qsort_desc _ keys_NoDup) as [_ ->]. apply elem_of_keys. Qed.

Lemma listed_ascending : ascending listed_sids.
Proof. apply ascending_reverse. by apply qsort_desc, keys_NoDup. Qed.

(** What the first reads give. *)
Lemma sids_of_pages : recoverable ->
  exists l, GetStatusMemtableSids r = Ok (Some l) /\ qsort compare_sids_desc l = reverse listed_sids.
Proof.
  intros [(Hsh & Hne & _) _ _ _ _ _ _]. destruct Hsh as (_ & (l & Hl & Hp) & _). cbn in Hp. exists l. destruct l as [|x l].
  - destruct Hne. apply map_to_list_empty_iff. symmetry in Hp. apply Permutation_nil_r in Hp. by apply fmap_nil_inv in Hp.
  - split; [done|]. unfold listed_sids. rewrite reverse_involutive. assert (Hnd : NoDup (x :: l)) by (rewrite Hp; apply keys_NoDup).
    destruct (qsort_desc _ Hnd) as [H1 H2]. destruct (qsort_desc _ keys_NoDup) as [H3 H4]. apply descending_unique; [done|done|by rewrite H2, H4].
Qed.

Lemma unflushed_snoc e l sid : unflushed_sids e (l ++ [sid]) = unflushed_sids e l ++ (if sid <=? e then [] else [sid]).
Proof. unfold unflushed_sids. rewrite filter_app, filter_cons. f_equal. destruct (Z.leb_spec sid e), (decide (e < sid)); (done || lia). Qed.

Lemma unflushed_prefix e l k : l `prefix_of` k -> zlen (unflushed_sids e l) <= zlen (unflushed_sids e k) /\ zlen (others g (unflushed_sids e l)) <= zlen (others g (unflushed_sids e k)).
Proof.
  intros [x ->]. unfold unflushed_sids, others. rewrite !filter_app, !zlen_app. split; [pose proof (zlen_nonneg (filter (fun sid => e < sid) x))|
    pose proof (zlen_nonneg (filter (fun sid => sid <> g) (filter (fun sid => e < sid) x)))]; lia.
Qed.

(** Step 3. *)
Lemma memtables_recovered lsm : recoverable ->
  u64 (lsm_dim lsm * lsm_elem_size lsm) = row_width -> queue lsm = [] -> memtable_count lsm = 0 -> zlen (memtable_idxs lsm) = MEMTABLE_NUM ->
  exists st, foldl_res (fun st sid => if sid <=? last_end then Ok st else Rebuild.recover_memtable array_size mcap fetch r g st sid)
      (lsm, slots, false) listed_sids = Ok st /\
    progress fetch g (fun sid => m !! sid) array_size mcap n row_width lsm slots (unflushed_sids last_end listed_sids) st.
Proof.
  intros [(Hsh & _ & _ & Hm) (_ & Hw0 & H8 & Hcap) _ Hrows (_ & Hr2 & Hr3) Hslots (_ & Ha & Hmc & Hn & Hn')] Hw Hq Hc Hi.
  apply (foldl_res_ind (fun done st => progress fetch g (fun sid => m !! sid) array_size mcap n row_width lsm slots (unflushed_sids last_end done) st)).
  - split; cbn [fst snd]; try done; change (unflushed_sids last_end []) with (@nil Z); change (others g []) with (@nil Z); change (zlen []) with 0.
    + by rewrite Hq.
    + split; [apply not_elem_of_nil|done].
    + split; [lia|done].
  - intros dn sid st Hp Hpre. pose proof (unflushed_prefix last_end _ _ Hpre) as [U1 U2]. rewrite unflushed_snoc in U1, U2 |- *.
    destruct (Z.leb_spec sid last_end) as [Hle|Hgt]; [exists st; split; [done|]; by rewrite app_nil_r|].
    assert (Hin : sid ∈ listed_sids). { destruct Hpre as [x ->]. apply elem_of_app. left. apply elem_of_app. right. left. }
    pose proof Hin as [ts Hts]%elem_of_listed. destruct (Hrows _ _ Hts Hgt) as [Hrd Hz]. rewrite zlen_app in U1. change (zlen [sid]) with 1 in U1.
    eapply (recover_memtable_ok fetch r g (fun sid => m !! sid) array_size mcap n Hn Hn' (conj Ha Hmc) row_width cap Hcap H8); try done; try lia.
    + unfold unflushed_sids. intros [_ Hx]%list_elem_of_filter. pose proof (ascending_NoDup _ listed_ascending) as Hnd. destruct Hpre as [x Hpre].
      rewrite Hpre, <-app_assoc in Hnd. apply NoDup_app in Hnd as (_ & Hd & _). apply (Hd sid Hx). left.
    + destruct Hsh as (_ & _ & Hr). apply Hr. cbn. intros ts' Hts'. by destruct (Hm _ _ Hts').
    + by rewrite Hts.
    + by rewrite Hts.
Qed.

Lemma recovery_ok lsm index_relid :
  recoverable ->
  exists lsm' slots' tracked d',
    Rebuild.recover_lsm_index_internal array_size mcap max_file fetch index_relid r d lsm slots = Ok (lsm', slots', tracked, d') /\
    recovered lsm lsm' slots' tracked d'.
Proof.
  intros Hre. destruct (sids_of_pages Hre) as (l & Hl & Hsids).
  pose proof Hre as [(Hsh & Hne & Hg & Hm) (Hmeta & Hw0 & H8 & Hcap) (F1 & F2 & F3 & F4 & F5 & F6) _ (Hr1 & _) _ (S1 & _)].
  unfold Rebuild.recover_lsm_index_internal, Rebuild.read_status_pages. destruct Hsh as (Hgr & _ & Htids). cbn [fst snd] in *. rewrite Hgr. cbn [mbind res_bind]. rewrite Hl.
  cbn [mbind res_bind fmap option_fmap option_map of_option]. rewrite Hsids.
  destruct (reverse listed_sids) as [|first rest] eqn:Hd.
  { exfalso. destruct (map_choose m Hne) as (sid & ts & Hts). assert (Hin : sid ∈ reverse listed_sids) by (rewrite elem_of_reverse; apply elem_of_listed; by eexists).
    rewrite Hd in Hin. by apply elem_of_nil in Hin. }
  assert (Hin : forall sid, sid ∈ first :: rest <-> is_Some (m !! sid)) by (intros sid; rewrite <-Hd, elem_of_reverse; apply elem_of_listed).
  assert (Hdesc : descending (first :: rest)) by (rewrite <-Hd; apply (StronglySorted_reverse Z.lt), listed_ascending).
  assert (Hfirst : forall sid, is_Some (m !! sid) -> sid <= first).
  { intros sid [->|Hs]%Hin%elem_of_cons; [done|]. apply StronglySorted_inv in Hdesc as [_ Hx]. rewrite Forall_forall in Hx. specialize (Hx _ Hs). lia. }
  change (arr_get (first :: rest) 0) with (@Ok Z first). cbn [mbind res_bind fst snd].
  assert (Hmax : (if first =? g then g else u32 (g - 1)) = max_logged).
  { unfold max_logged. destruct (Z.eqb_spec first g) as [->|Hfg].
    - rewrite bool_decide_true; [done|]. apply Hin. left.
    - rewrite bool_decide_false; [apply u32_small; lia|]. intros Hgm. pose proof (Hfirst g Hgm). assert (is_Some (m !! first)) as [ts Hts] by (apply Hin; left).
      destruct (Hm _ _ Hts). lia. }
  rewrite Hmax, Hmeta. cbn [mbind res_bind of_option]. rewrite <-F3.
  destruct (repair_segments_ok max_file S1 r (fun sid => m !! sid) 1 max_logged d segs (first :: rest)) as (d' & segs' & -> & Hmk & Hh & Hw1 & Hw2);
    [lia|unfold UINT32_MAX; lia|done|done|by eapply scan_upwards|done| |].
  { intros sid _. apply Htids. intros ts Hts. by destruct (Hm _ _ Hts). }
  cbn [mbind res_bind]. destruct (last segs) as [s|] eqn:Hls; [|by apply last_None in Hls].
  assert (Hlast : arr_get (sg_file <$> segs) (zlen (sg_file <$> segs) - 1) = Ok (sg_file s)).
  { apply last_Some in Hls as [l' ->]. apply arr_get_Ok. rewrite fmap_app, zlen_app. change (zlen (sg_file <$> [s])) with 1.
    rewrite zlookup_app_r by lia. by replace (zlen (sg_file <$> l') + 1 - 1 - zlen (sg_file <$> l')) with 0 by lia. }
  rewrite Hlast. cbn [mbind res_bind]. assert (He : seg_end s = last_end) by (unfold last_end; by rewrite Hls). rewrite He.
  rewrite <-Hd, reverse_involutive. rewrite (track_flushed_ok last_end listed_sids [] listed_ascending) by exact Hr1. cbn [mbind res_bind app].
  match goal with |- context [foldl_res ?f (?l0, slots, false) listed_sids] => set (lsm1 := l0); set (step := f) end.
  destruct (memtables_recovered lsm1 Hre) as (st & Hst & Hpg); [done|done|done|done|]. fold step in Hst. rewrite Hst. cbn [mbind res_bind].
  destruct st as [[lsm2 slots2] alloc]. rewrite Hd. change (arr_get (first :: rest) 0) with (@Ok Z first). cbn [mbind res_bind]. destruct Hpg as [Q1 [Q2 Q3] Q4 Q5 Q6 Q7 Q8]. cbn [fst snd] in *.
  assert (Hun : forall sid, sid ∈ unflushed_sids last_end listed_sids <-> is_Some (m !! sid) /\ last_end < sid).
  { intros sid. unfold unflushed_sids. rewrite list_elem_of_filter, elem_of_listed. tauto. }
  eexists _, _, _, _. split; [reflexivity|]. split.
  - exists segs'. split_and!; [|done|intros k; by apply scan_same]. eapply Forall2_impl; [exact Hmk|]. intros x x'. apply marks_ext. intros q.
    unfold newer, missing, some_row. setoid_rewrite Hin. split.
    + intros [(sid & y & Hq & Hc)|(sid & y & Hq & Hc)]; exists sid, y; tauto.
    + intros (sid & y & Hq & [Hc|Hc]); [left|right]; by exists sid, y.
  - exists (others g (unflushed_sids last_end listed_sids)). split_and!.
    + by apply ascending_filter, ascending_filter, listed_ascending.
    + intros sid. unfold others. rewrite list_elem_of_filter, Hun. tauto.
    + by destruct alloc.
  - rewrite <-(bool_decide_ext _ _ (Hun g)). destruct alloc.
    + destruct Q4 as (G1 & G2 & G3 & G4). rewrite bool_decide_true by done. done.
    + destruct Q4 as (G1 & G2 & G3). rewrite bool_decide_false by done. split; [done|]. exists first. split; [apply Hin; left|]. done.
  - intros sid. unfold flushed_sids. rewrite list_elem_of_filter, elem_of_listed. tauto.
  - done.
Qed.
End whole.

(** ** Example *)
Module RecoveryRuns.
Import PgPage RepairRuns.

(** Memtable 5 is sealed, memtable 6 grows; each has one tuple. *)
Definition calls_made : list (status_call (T := tid)) :=
  [CallRegister 5; CallAdd 5 (mkItemPointer 0 21); CallRegister 6; CallAdd 6 (mkItemPointer 0 22)].
Definition pages : blocks := calls calls_made.
Definition listed : gmap Z (list tid) := {[ 5 := [mkItemPointer 0 21]; 6 := [mkItemPointer 0 22] ]}.

(** A call whose effect is known. *)
Lemma stores_call (r : blocks) s c commits s' :
  stores r s -> permitted c r -> (forall sid t, c = CallAdd sid t -> is_Some (s.2 !! sid)) ->
  run_call c r = Ok commits -> (forall s2, effect c s s2 -> s2 = s') -> stores (after r commits) s'.
Proof.
  intros Hs Hp Ha Hc He. destruct (call_refines r s c Hs Hp Ha) as (commits' & s2 & Hc' & H2 & H3 & _).
  rewrite Hc in Hc'. injection Hc' as <-. by rewrite <-(He _ H2).
Qed.

Lemma register_effect sid g (m : gmap Z (list tid)) s2 : effect (CallRegister sid) (g, m) s2 -> s2 = (sid, <[sid := []]> m).
Proof. by inversion 1; subst. Qed.

Lemma first_add_effect sid t g (m : gmap Z (list tid)) s2 : m !! sid = Some [] -> effect (CallAdd sid t) (g, m) s2 -> s2 = (g, <[sid := [t]]> m).
Proof.
  intros Hm He. inversion He as [|? ? ? ? ts ts' Hs Hp| | |]; subst. rewrite Hm in Hs. injection Hs as <-.
  apply Permutation_singleton_r in Hp as ->. done.
Qed.

Ltac permitted_now := split; [vm_compute; reflexivity|]; first [exact I | vm_compute; reflexivity].

Lemma pages_store : stores pages (6, listed).
Proof.
  set (r0 := created (T := tid)). pose proof (created_stores (T := tid)) as H0.
  assert (Hstep : forall (r : blocks) s c (r' : blocks), stores r s -> permitted c r -> (forall sid t, c = CallAdd sid t -> is_Some (s.2 !! sid)) ->
    (exists commits, run_call c r = Ok commits /\ after r commits = r') -> forall s', (forall s2, effect c s s2 -> s2 = s') -> stores r' s').
  { intros r s c r' Hs Hp Ha (commits & Hc & <-) s' He. by eapply stores_call. }
  eapply (Hstep _ _ (CallRegister 5)) in H0; [|permitted_now|done|eexists; split; [vm_compute; reflexivity|vm_compute; reflexivity]|apply register_effect].
  eapply (Hstep _ _ (CallAdd 5 (mkItemPointer 0 21))) in H0;
    [|permitted_now|intros ? ? [= <- <-]; by eexists|eexists; split; [vm_compute; reflexivity|vm_compute; reflexivity]|intros s2; apply first_add_effect; vm_compute; reflexivity].
  eapply (Hstep _ _ (CallRegister 6)) in H0; [|permitted_now|done|eexists; split; [vm_compute; reflexivity|vm_compute; reflexivity]|apply register_effect].
  eapply (Hstep _ _ (CallAdd 6 (mkItemPointer 0 22))) in H0;
    [|permitted_now|intros ? ? [= <- <-]; by eexists|eexists; split; [vm_compute; reflexivity|vm_compute; reflexivity]|intros s2; apply first_add_effect; vm_compute; reflexivity].
  replace listed with (<[6 := [mkItemPointer 0 22]]> (<[6 := []]> (<[5 := [mkItemPointer 0 21]]> (<[5 := []]> (∅ : gmap Z (list tid))))))
    by (vm_compute; reflexivity).
  exact H0.
Qed.

(** The log ends with memtable 3, although the files reach up to 4. *)
Definition short_calls : list (status_call (T := tid)) := [CallRegister 3; CallAdd 3 (mkItemPointer 0 11)].
Definition short_pages : blocks := calls short_calls.
Definition short_listed : gmap Z (list tid) := {[ 3 := [mkItemPointer 0 11] ]}.

Lemma short_store : stores short_pages (3, short_listed).
Proof.
  pose proof (created_stores (T := tid)) as H0. set (r0 := created (T := tid)) in H0.
  eapply (stores_call _ _ (CallRegister 3)) in H0; [|permitted_now|done|vm_compute; reflexivity|apply register_effect].
  eapply (stores_call _ _ (CallAdd 3 (mkItemPointer 0 11))) in H0;
    [|permitted_now|intros ? ? [= <- <-]; by eexists|vm_compute; reflexivity|intros s2; apply first_add_effect; vm_compute; reflexivity].
  replace short_listed with (<[3 := [mkItemPointer 0 11]]> (<[3 := []]> (∅ : gmap Z (list tid)))) by (vm_compute; reflexivity). exact H0.
Qed.

(** Segments 3..4, rows of two 4-byte elements. *)
Definition index_meta : SegFile.IndexMeta := SegFile.mkIndexMeta HNSW 2 4 32 200.
Definition dir : directory := run_ops flushed_dir (SegFile.write_lsm_index_metadata index_meta).
Definition fetch (t : tid) : option (option (list Z)) := Some (Some (replicate 8 (ip_posid t))).
Definition buffer : list MemtableBufferSlot := mkBufferSlot 2 Example.slot0 :: replicate 7 (mkBufferSlot 0 Example.slot0).
Definition lsm0 : LSMIndexData := mkLSM 0 0 0 0 MT_IDX_INVALID 0 [] 0.

Lemma dir_holds : holds 3 dir flushed.
Proof.
  split; [|vm_compute; reflexivity|].
  - split; [unfold u32_ok, UINT32_MAX; cbn; lia|exists HNSW; vm_compute; reflexivity|vm_compute; reflexivity..|].
    split; [cbn; lia|]. split; vm_compute; reflexivity.
  - intros e w He%elem_of_readdir Hw.
    assert (H : Forall (fun s => Scan.version_of (Scan.subversion_prefix 3 4 2) s = None) (readdir dir)).
    { apply (bool_decide_unpack _). vm_compute. exact I. }
    rewrite Forall_forall in H. by rewrite H in Hw.
Qed.

Lemma dir_ranges : ranges_valid (readdir dir).
Proof.
  intros f Hf. assert (H : Forall (fun f => Scan.fi_start_sid f <= Scan.fi_end_sid f < UINT32_MAX) (parsed (readdir dir))).
  { apply (bool_decide_unpack _). vm_compute. exact I. }
  rewrite Forall_forall in H. by apply H.
Qed.

Lemma example_recoverable (r : blocks) g m :
  stores r (g, m) -> m <> ∅ -> 1 <= g < 2 ^ 32 -> (forall sid ts, m !! sid = Some ts -> sid <= g /\ zlen ts <= 3) ->
  zlen (flushed_sids 4 (listed_sids m)) <= 4 -> zlen (others g (unflushed_sids 4 (listed_sids m))) <= 4 -> zlen (unflushed_sids 4 (listed_sids m)) <= 7 ->
  recoverable fetch 24 3 8 2 r dir buffer g m index_meta [flushed] 3.
Proof.
  intros Hs Hne Hg Hm H1 H2 H3. split.
  - split; [by apply stores_shows|]. split; [done|]. split; [done|]. intros sid ts Hts. destruct (Hm _ _ Hts). unfold MEMTABLE_MAX_CAPACITY. lia.
  - split; [vm_compute; reflexivity|]. split; [done|]. split; [by exists 1|vm_compute; reflexivity].
  - split; [vm_compute; discriminate|]. split; [exact dir_ranges|]. split; [vm_compute; reflexivity|]. split; [done|].
    split; constructor; [exact dir_holds|constructor|exact flushed_table|constructor].
  - intros sid ts Hts _. split; [|by destruct (Hm _ _ Hts)]. apply Forall_forall. intros t _. unfold readable, fetch, zlen. rewrite length_replicate. vm_compute. discriminate.
  - split; [done|]. split; [done|]. change (free_slots buffer) with 7. done.
  - apply Forall_cons. split; [by vm_compute|]. apply Forall_replicate. by vm_compute.
  - unfold MEMTABLE_MAX_CAPACITY. repeat split; lia.
Qed.

Lemma listed_recoverable : recoverable fetch 24 3 8 2 pages dir buffer 6 listed index_meta [flushed] 3.
Proof.
  apply example_recoverable; [exact pages_store|done|lia| |vm_compute; discriminate..].
  intros sid ts Hts. assert (H : map_Forall (fun sid ts => sid <= 6 /\ zlen ts <= 3) listed) by (apply (bool_decide_unpack _); vm_compute; exact I).
  by apply H in Hts.
Qed.

Lemma short_recoverable : recoverable fetch 24 3 8 2 short_pages dir buffer 3 short_listed index_meta [flushed] 3.
Proof.
  apply example_recoverable; [exact short_store|done|lia| |vm_compute; discriminate..].
  intros sid ts Hts. assert (H : map_Forall (fun sid ts => sid <= 3 /\ zlen ts <= 3) short_listed) by (apply (bool_decide_unpack _); vm_compute; exact I).
  by apply H in Hts.
Qed.
End RecoveryRuns.
Import PgPage RepairRuns RecoveryRuns.

(** ** Properties *)



(** After a log that ends before the files do, an id is given twice.  When
    every memtable of the surviving status pages lies below the last segment
    file, the next memtable gets an id that file already covers; whenever that
    memtable has to be recovered, it counts as flushed, and its rows are not
    rebuilt. *)
Theorem short_log_reuses_ids {B} `{BlockId B} `{PageLayout (ItemPointerData B)} fetch array_size mcap max_file n r d slots g m meta segs cap lsm index_relid :
  recoverable fetch array_size mcap max_file n r d slots g m meta segs cap ->
  (forall sid, is_Some (m !! sid) -> 0 <= sid < last_end segs) -> last_end segs < 2 ^ 32 ->
  exists lsm' slots' tracked d',
    Rebuild.recover_lsm_index_internal array_size mcap max_file fetch index_relid r d lsm slots = Ok (lsm', slots', tracked, d') /\
    growing_memtable_idx lsm' = growing_memtable_idx lsm /\ next_segment_id lsm' <= last_end segs /\
    forall r2 d2 slots2 g2 m2 meta2 segs2 cap2 lsm2,
      recoverable fetch array_size mcap max_file n r2 d2 slots2 g2 m2 meta2 segs2 cap2 ->
      last_end segs <= last_end segs2 -> is_Some (m2 !! next_segment_id lsm') ->
      exists lsm2' slots2' tracked2 d2',
        Rebuild.recover_lsm_index_internal array_size mcap max_file fetch index_relid r2 d2 lsm2 slots2 = Ok (lsm2', slots2', tracked2, d2') /\
        next_segment_id lsm' ∈ tracked2 /\ Forall (fun i => id_of slots2' i <> Some (next_segment_id lsm')) (queue lsm2').
Proof.
  intros Hre Hlow Hle. destruct (recovery_ok fetch array_size mcap max_file n r d slots g m meta segs cap lsm index_relid Hre)
    as (lsm' & slots' & tracked & d' & Hr & [_ _ Hg _ _]).
  exists lsm', slots', tracked, d'. split; [exact Hr|]. rewrite bool_decide_false in Hg by (intros [Hgm Hlt]; specialize (Hlow _ Hgm); lia).
  destruct Hg as [Hgi (newest & Hnew & _ & Hnx)]. split; [exact Hgi|]. specialize (Hlow _ Hnew). rewrite u32_small in Hnx by lia. split; [lia|].
  intros r2 d2 slots2 g2 m2 meta2 segs2 cap2 lsm2 Hre2 Hend Hin.
  destruct (recovery_ok fetch array_size mcap max_file n r2 d2 slots2 g2 m2 meta2 segs2 cap2 lsm2 index_relid Hre2)
    as (lsm2' & slots2' & tracked2 & d2' & Hr2 & [_ (sids & _ & Hs & Hq) _ Ht _]).
  exists lsm2', slots2', tracked2, d2'. split; [exact Hr2|]. split; [apply Ht; split; [exact Hin|lia]|].
  apply Forall_forall. intros i Hi. apply list_elem_of_lookup in Hi as [k Hk]. destruct (Forall2_lookup_r _ _ _ _ _ Hq Hk) as (sid & Hsid & (s & Hsl & _ & [[Hid _] _ _ _ _ _ _])).
  unfold id_of. rewrite Hsl. cbn. rewrite Hid. intros [= ->]. apply list_elem_of_lookup_2, Hs in Hsid. lia.
Qed.

Lemma short_log_reuses_ids_witness :
  exists lsm' slots' tracked d',
    Rebuild.recover_lsm_index_internal 24 3 8 fetch 16384 short_pages dir lsm0 buffer = Ok (lsm', slots', tracked, d') /\ next_segment_id lsm' <= seg_end flushed.
Proof.
  destruct (short_log_reuses_ids fetch 24 3 8 2 short_pages dir buffer 3 short_listed index_meta [flushed] 3 lsm0 16384 short_recoverable)
    as (lsm' & slots' & tracked & d' & Hr & _ & Hn & _).
  - intros sid [ts Hts]. assert (H : map_Forall (fun sid ts => 0 <= sid < last_end [flushed]) short_listed) by (apply (bool_decide_unpack _); vm_compute; exact I).
    by apply H in Hts.
  - vm_compute. reflexivity.
  - exists lsm', slots', tracked, d'. split; [exact Hr|exact Hn].
Defined.
