(* ===== verification/IndexSlots.v ===== *)
(** The table of index slots ([SharedLSMIndexBuffer] in lsmindex.c) and the
    processes that fill it: sessions that look an index up, the
    IndexRecoveryWorker (index_recovery_worker.c), CREATE INDEX, replay on a
    standby, and the first reader, which loads the segments.

    Each definition is one stretch of code that runs under the table's lock or
    changes one slot by a compare-and-swap; [others i] is what the other
    processes do to the table while a session sleeps on slot [i]'s condition
    variable. *)

From S2P Require Import Prelude SegmentPool FileNames SegmentFiles Memtable MemtableCycle.

Inductive LSMSlotState := LSM_SLOT_FREE | LSM_SLOT_RECOVERING | LSM_SLOT_WRITABLE | LSM_SLOT_LOADING_INDEX | LSM_SLOT_QUERYABLE.
#[global] Instance LSMSlotState_eq_dec : EqDecision LSMSlotState.
Proof. solve_decision. Defined.

Definition is_writable (v : LSMSlotState) : bool :=
  match v with LSM_SLOT_WRITABLE | LSM_SLOT_LOADING_INDEX | LSM_SLOT_QUERYABLE => true | _ => false end.

(** [LSMIndexBufferSlot]; the last fields are those of [lsmIndex] that
    [LSMIndexData] does not have. *)
Record LSMIndexBufferSlot := mkIndexSlot {
  valid : LSMSlotState;
  state_error : Z;
  request_db_oid : Z;
  request_db_userid : Z;
  lsmIndex : LSMIndexData;
  index_type : Z;
  hnsw_m : Z;
  hnsw_ef_construction : Z;
  flushed_not_released_count : Z;
  releasing_in_progress : Z }.
#[global] Instance eta_LSMIndexBufferSlot : Settable LSMIndexBufferSlot := fun s =>
  mkIndexSlot (valid s) (state_error s) (request_db_oid s) (request_db_userid s) (lsmIndex s) (index_type s) (hnsw_m s) (hnsw_ef_construction s)
    (flushed_not_released_count s) (releasing_in_progress s).

Module Slots.

Definition InvalidOid : Z := 0.
Definition INDEX_BUF_SIZE : Z := 8.
Definition START_SEGMENT_ID : Z := 3.

(** [lsm_index_buffer_shmem_initialize]: the memory starts out zeroed. *)
Definition zero_lsm : LSMIndexData := mkLSM 0 0 0 0 0 0 (replicate (Z.to_nat MEMTABLE_NUM) 0) 0.
Definition free_slot : LSMIndexBufferSlot :=
  mkIndexSlot LSM_SLOT_FREE 0 InvalidOid InvalidOid (zero_lsm <| growing_memtable_idx := MT_IDX_INVALID |> <| growing_memtable_id := 0 |>) 0 0 0 0 0.
Definition lsm_index_buffer_shmem_initialize : list LSMIndexBufferSlot := replicate (Z.to_nat INDEX_BUF_SIZE) free_slot.

(** The scan every lookup starts with: the first slot in use for the index. *)
Fixpoint scan_slots (index_relid : Z) (slots : list LSMIndexBufferSlot) (i : Z) : option (Z * LSMIndexBufferSlot) :=
  match slots with
  | [] => None
  | s :: slots =>
      if bool_decide (valid s = LSM_SLOT_FREE) || negb (indexRelId (lsmIndex s) =? index_relid) then scan_slots index_relid slots (i + 1)
      else Some (i, s)
  end.

(** The first slot whose [valid] can be moved from [LSM_SLOT_FREE] to [to]. *)
Fixpoint claim_free (to : LSMSlotState) (slots : list LSMIndexBufferSlot) (i : Z) : option (Z * list LSMIndexBufferSlot) :=
  match slots with
  | [] => None
  | s :: slots' =>
      if bool_decide (valid s = LSM_SLOT_FREE) then Some (i, (s <| valid := to |>) :: slots')
      else r ← claim_free to slots' (i + 1); Some (r.1, s :: r.2)
  end.

(** The sleep on [state_cv] until the slot is no longer being recovered, and the
    checks after it. *)
Definition after_recovery (others : Z -> list LSMIndexBufferSlot -> list LSMIndexBufferSlot) (i : Z) (slots : list LSMIndexBufferSlot)
    : bool * list LSMIndexBufferSlot :=
  let slots := others i slots in
  (match slots !! i with Some s => is_writable (valid s) && (state_error s =? 0) | None => false end, slots).

(** The part of [claim_or_find_lsm_index_slot] under the buffer's lock. *)
Inductive claim := Registered (i : Z) | Recovering (i : Z) | Claimed (i : Z).

Definition claim_locked (index_relid db_oid db_userid : Z) (slots : list LSMIndexBufferSlot) : res (claim * list LSMIndexBufferSlot) :=
  match scan_slots index_relid slots 0 with
  | Some (i, s) => Ok (if is_writable (valid s) then Registered i else Recovering i, slots)
  | None =>
      match claim_free LSM_SLOT_RECOVERING slots 0 with
      | None => Error ElogError
      | Some (i, slots) =>
          slots ← arr_upd slots i (fun s => s <| state_error := 0 |> <| request_db_oid := db_oid |> <| request_db_userid := db_userid |>
                                              <| lsmIndex ::= fun lsm => lsm <| indexRelId := index_relid |> |>);
          Ok (Claimed i, slots)
      end
  end.

Section lookup.
Context (others : Z -> list LSMIndexBufferSlot -> list LSMIndexBufferSlot) (worker_running : bool).

(** [elog(ERROR)] leaves the table as it is, so results come with the table. *)
Definition claim_or_find_lsm_index_slot (index_relid db_oid db_userid : Z) (slots : list LSMIndexBufferSlot) : res Z * list LSMIndexBufferSlot :=
  match claim_locked index_relid db_oid db_userid slots with
  | Error e => (Error e, slots)
  | Ok (Registered i, slots) => (Ok i, slots)
  | Ok (Recovering i, slots) =>
      let '(ready, slots) := after_recovery others i slots in (if ready : bool then Ok i else Error ElogError, slots)
  | Ok (Claimed i, slots) =>
      if worker_running then let '(ready, slots) := after_recovery others i slots in (if ready : bool then Ok i else Error ElogError, slots)
      else (Error ElogError, match arr_upd slots i (fun s => s <| valid := LSM_SLOT_FREE |>) with Ok slots => slots | Error _ => slots end)
  end.

Definition register_lsm_index (MyDatabaseId userid index_relid : Z) (slots : list LSMIndexBufferSlot) : res Z * list LSMIndexBufferSlot :=
  claim_or_find_lsm_index_slot index_relid MyDatabaseId userid slots.

Definition register_lsm_index_for_redo (db_oid index_relid : Z) (slots : list LSMIndexBufferSlot) : res Z * list LSMIndexBufferSlot :=
  if db_oid =? InvalidOid then (Error ElogError, slots) else claim_or_find_lsm_index_slot index_relid db_oid InvalidOid slots.

Definition lookup_lsm_index_idx (index_relid : Z) (slots : list LSMIndexBufferSlot) : Z * list LSMIndexBufferSlot :=
  match scan_slots index_relid slots 0 with
  | None => (-1, slots)
  | Some (i, s) =>
      if is_writable (valid s) then (i, slots)
      else let '(ready, slots) := after_recovery others i slots in (if ready : bool then i else -1, slots)
  end.

(** [get_lsm_index] is the same with [for_redo] false. *)
Definition get_lsm_index_idx (MyDatabaseId userid index_relid : Z) (for_redo : bool) (db_oid : Z) (slots : list LSMIndexBufferSlot)
    : res Z * list LSMIndexBufferSlot :=
  match scan_slots index_relid slots 0 with
  | None => if for_redo then register_lsm_index_for_redo db_oid index_relid slots else register_lsm_index MyDatabaseId userid index_relid slots
  | Some (i, s) =>
      if is_writable (valid s) then (Ok i, slots)
      else let '(ready, slots) := after_recovery others i slots in (if ready : bool then Ok i else Error ElogError, slots)
  end.

(** [find_loaded_slot] (standby_memtable.c). *)
Definition find_loaded_slot (index_relid : Z) (slots : list LSMIndexBufferSlot) : option Z * list LSMIndexBufferSlot :=
  let '(i, slots) := lookup_lsm_index_idx index_relid slots in
  (if i <? 0 then None else s ← slots !! i; if is_writable (valid s) then Some i else None, slots).
End lookup.

(** Replay of INDEX_CREATE: -1 when no slot is free. *)
Definition claim_lsm_index_slot_for_create_redo (db_oid index_relid type dim elem_size : Z) (slots : list LSMIndexBufferSlot) : res (Z * list LSMIndexBufferSlot) :=
  match scan_slots index_relid slots 0 with
  | Some (i, _) => Ok (i, slots)
  | None =>
      match claim_free LSM_SLOT_WRITABLE slots 0 with
      | None => Ok (-1, slots)
      | Some (i, slots) =>
          slots ← arr_upd slots i (fun s => s <| state_error := 0 |> <| request_db_oid := db_oid |> <| request_db_userid := InvalidOid |>
            <| index_type := type |>
            <| lsmIndex ::= fun lsm => lsm <| indexRelId := index_relid |> <| lsm_dim := dim |> <| lsm_elem_size := elem_size |>
                 <| next_segment_id := START_SEGMENT_ID + 1 |> <| memtable_idxs := replicate (Z.to_nat MEMTABLE_NUM) (-1) |> <| memtable_count := 0 |> |>
            <| flushed_not_released_count := 0 |> <| releasing_in_progress := 0 |>);
          Ok (i, slots)
      end
  end.

Section worker.
(** [recover_lsm_index_internal]: [None] when it raises an error. *)
Context (recover : Z -> LSMIndexData -> option (SegFile.IndexMeta * LSMIndexData)).

Definition fail_slot (s : LSMIndexBufferSlot) : LSMIndexBufferSlot := s <| state_error := 1 |> <| valid := LSM_SLOT_FREE |>.

Definition recover_slot (s : LSMIndexBufferSlot) : LSMIndexBufferSlot :=
  match recover (indexRelId (lsmIndex s)) (lsmIndex s) with
  | Some (meta, lsm) =>
      s <| lsmIndex := lsm |> <| index_type := index_type_code (SegFile.im_index_type meta) |> <| hnsw_m := SegFile.im_hnsw_m meta |>
        <| hnsw_ef_construction := SegFile.im_hnsw_ef_construction meta |> <| valid := LSM_SLOT_WRITABLE |>
  | None => fail_slot s
  end.

(** The worker at slot [i]: the database it is connected to, and whether there
    was something to do. *)
Definition worker_visit (st : option Z * list LSMIndexBufferSlot * bool) (i : Z) : res (option Z * list LSMIndexBufferSlot * bool) :=
  let '(connected_db_oid, slots, found_work) := st in
  s ← arr_get slots i;
  if bool_decide (valid s <> LSM_SLOT_RECOVERING) then Ok st
  else
    let connected := default (request_db_oid s) connected_db_oid in
    Ok (Some connected, <[i := if negb (request_db_oid s =? connected) then fail_slot s else recover_slot s]> slots, true).

Definition worker_pass (connected_db_oid : option Z) (slots : list LSMIndexBufferSlot) : res (option Z * list LSMIndexBufferSlot * bool) :=
  foldl_res worker_visit (connected_db_oid, slots, false) (seqZ 0 INDEX_BUF_SIZE).

(** [do { ... } while (found_work);] *)
Fixpoint worker_scan (fuel : nat) (others : list LSMIndexBufferSlot -> list LSMIndexBufferSlot) (connected_db_oid : option Z) (slots : list LSMIndexBufferSlot)
    : res (option Z * list LSMIndexBufferSlot) :=
  match fuel with
  | O => Error OutOfFuel
  | S fuel =>
      '(connected_db_oid, slots, found_work) ← worker_pass connected_db_oid slots;
      if found_work : bool then worker_scan fuel others connected_db_oid (others slots) else Ok (connected_db_oid, slots)
  end.
End worker.

Section build.
Context (array_size memtable_capacity : Z).

(** CREATE INDEX takes a slot and names it (without the lock); [hnsw] are the
    options of an HNSW index. *)
Definition build_begin (index_relid : Z) (type : IndexType) (dim elem_size : Z) (hnsw : Z * Z) (slots : list LSMIndexBufferSlot) : res (Z * list LSMIndexBufferSlot) :=
  match claim_free LSM_SLOT_RECOVERING slots 0 with
  | None => Error ElogError
  | Some (i, slots) =>
      let '(m, ef) := if bool_decide (type = HNSW) then hnsw else (32, 200) in
      slots ← arr_upd slots i (fun s => s <| index_type := index_type_code type |> <| hnsw_m := m |> <| hnsw_ef_construction := ef |>
        <| lsmIndex ::= fun lsm => lsm <| indexRelId := index_relid |> <| lsm_dim := dim |> <| lsm_elem_size := elem_size |>
             <| next_segment_id := START_SEGMENT_ID + 1 |> |>);
      Ok (i, slots)
  end.

(** ... and, once the segment is on disk and loaded, publishes it with its first
    memtable ([None]: no memtable is free yet, it sleeps and tries again). *)
Definition build_finish (i : Z) (slots : list LSMIndexBufferSlot) (memtables : list MemtableBufferSlot)
    : res (option (list LSMIndexBufferSlot * list MemtableBufferSlot)) :=
  s ← arr_get slots i;
  let lsm := (lsmIndex s) <| memtable_idxs := replicate (Z.to_nat MEMTABLE_NUM) (-1) |> <| memtable_count := 0 |> in
  '(mt_idx, lsm, memtables) ← Buffer.register_and_set_memtable array_size memtable_capacity lsm memtables false 0;
  if mt_idx <? 0 then Ok None
  else
    mt ← arr_get memtables mt_idx;
    let lsm := lsm <| growing_memtable_idx := mt_idx |> <| growing_memtable_id := memtable_id (slot_mt mt) |> in
    Ok (Some (<[i := s <| lsmIndex := lsm |> <| flushed_not_released_count := 0 |> <| releasing_in_progress := 0 |> <| valid := LSM_SLOT_QUERYABLE |>]> slots, memtables)).
End build.

Section load.
(** The directory over time (milliseconds waited), whether this is a standby with
    a fetcher, its time limit; whether [index_load_blocking] succeeds; what others
    do meanwhile. *)
Context (files_at : Z -> list string) (standby : bool) (fetch_wait_timeout_ms : Z) (index_load_blocking : Z -> bool).
Context (others : Z -> list LSMIndexBufferSlot -> list LSMIndexBufferSlot).

Definition dpv_initial_segment_on_disk (entries : list string) : bool :=
  existsb (fun f => (Scan.fi_start_sid f <=? START_SEGMENT_ID) && (START_SEGMENT_ID <=? Scan.fi_end_sid f))
    (Scan.scan_segment_metadata_files entries (Z.to_nat MAX_SEGMENTS_COUNT)).

Fixpoint fetch_barrier (fuel : nat) (waited_ms : Z) : res unit :=
  match fuel with
  | O => Error OutOfFuel
  | S fuel =>
      if dpv_initial_segment_on_disk (files_at waited_ms) then Ok tt
      else if fetch_wait_timeout_ms <=? waited_ms then Error ElogError
      else fetch_barrier fuel (waited_ms + 100)
  end.

Definition barrier_rounds : nat := S (S (Z.to_nat (fetch_wait_timeout_ms / 100))).

(** The winner of the compare-and-swap. *)
Definition load_slot (i : Z) (slots : list LSMIndexBufferSlot) : res bool * list LSMIndexBufferSlot :=
  match slots !! i with
  | None => (Error OutOfBounds, slots)
  | Some s =>
      let s := s <| valid := LSM_SLOT_LOADING_INDEX |> <| state_error := 0 |> in
      let barrier := if standby then fetch_barrier barrier_rounds 0 else Ok tt in
      let loaded := match barrier with Ok _ => if index_load_blocking (indexRelId (lsmIndex s)) then Ok true else Error ElogError | Error e => Error e end in
      let slots := others i (<[i := s]> slots) in
      let publish s := match loaded with Ok _ => s <| valid := LSM_SLOT_QUERYABLE |> | Error _ => s <| state_error := 1 |> <| valid := LSM_SLOT_WRITABLE |> end in
      (loaded, match arr_upd slots i publish with Ok slots => slots | Error _ => slots end)
  end.

(** [None]: [others] has not let the wait end. *)
Definition ensure_index_loaded (i : Z) (slots : list LSMIndexBufferSlot) : option (res bool) * list LSMIndexBufferSlot :=
  match slots !! i with
  | None => (Some (Error OutOfBounds), slots)
  | Some s =>
      match valid s with
      | LSM_SLOT_QUERYABLE => (Some (Ok true), slots)
      | LSM_SLOT_WRITABLE => let '(r, slots) := load_slot i slots in (Some r, slots)
      | _ =>
          let slots := others i slots in
          (match valid <$> slots !! i with Some LSM_SLOT_QUERYABLE => Some (Ok true) | Some LSM_SLOT_WRITABLE => Some (Ok false) | _ => None end, slots)
      end
  end.

Definition get_lsm_index_for_read (worker_running : bool) (MyDatabaseId userid index_relid : Z) (slots : list LSMIndexBufferSlot)
    : option (res Z) * list LSMIndexBufferSlot :=
  let '(r, slots) := get_lsm_index_idx others worker_running MyDatabaseId userid index_relid false InvalidOid slots in
  match r with
  | Error e => (Some (Error e), slots)
  | Ok i =>
      let '(loaded, slots) := ensure_index_loaded i slots in
      ((fun r => match r with Ok true => Ok i | Ok false => Error ElogError | Error e => Error e end) <$> loaded, slots)
  end.
End load.

End Slots.

(** ** The table *)

Implicit Types (slots : list LSMIndexBufferSlot) (s : LSMIndexBufferSlot).

Definition named (s : LSMIndexBufferSlot) : Z := indexRelId (lsmIndex s).

(** The slot is in use for the index; the slot's index can be used. *)
Definition holds slots (i relid : Z) : Prop := exists s, slots !! i = Some s /\ valid s <> LSM_SLOT_FREE /\ named s = relid.
Definition serves slots (i relid : Z) : Prop := exists s, slots !! i = Some s /\ is_writable (valid s) = true /\ named s = relid.

(** No index has two slots. *)
Definition one_slot_each slots : Prop := forall i j relid, holds slots i relid -> holds slots j relid -> i = j.

Lemma writable_used v : is_writable v = true -> v <> LSM_SLOT_FREE.
Proof. by destruct v. Qed.

Lemma serves_holds slots i relid : serves slots i relid -> holds slots i relid.
Proof. intros (s & Hs & Hv & Hn). exists s. split; [done|]. split; [by apply writable_used|done]. Qed.

Lemma scan_from relid slots : forall k,
  match Slots.scan_slots relid slots k with
  | Some (i, s) => k <= i /\ slots !! (i - k) = Some s /\ valid s <> LSM_SLOT_FREE /\ named s = relid
  | None => forall i, ~ holds slots i relid
  end.
Proof.
  induction slots as [|s slots IH]; intros k; cbn [Slots.scan_slots]; [intros i (s & Hs%zlookup_lt_Some & _); change (zlen []) with 0 in Hs; lia|]. specialize (IH (k + 1)). fold (named s).
  case_bool_decide as Hv; [|destruct (Z.eqb_spec (named s) relid) as [Hn|Hn]]; cbn [orb negb].
  2: { split; [lia|]. by rewrite Z.sub_diag, zlookup_cons. }
  all: destruct (Slots.scan_slots relid slots (k + 1)) as [[i s']|];
    [destruct IH as (Hk & Hs & ?); split; [lia|]; rewrite zlookup_cons; destruct (Z.eqb_spec (i - k) 0); [lia|]; replace (i - k - 1) with (i - (k + 1)) by lia; done|].
  all: intros i (s' & Hs & Hv' & Hn'); rewrite zlookup_cons in Hs; destruct (Z.eqb_spec i 0); [by injection Hs as <-|]; apply (IH (i - 1)); by exists s'.
Qed.

Lemma scan_spec relid slots :
  match Slots.scan_slots relid slots 0 with
  | Some (i, s) => slots !! i = Some s /\ valid s <> LSM_SLOT_FREE /\ named s = relid
  | None => forall i, ~ holds slots i relid
  end.
Proof. pose proof (scan_from relid slots 0) as H. destruct (Slots.scan_slots relid slots 0) as [[i s]|]; [|done]. rewrite Z.sub_0_r in H. tauto. Qed.

Lemma claim_free_from to slots : forall k,
  match Slots.claim_free to slots k with
  | Some (i, slots') => k <= i /\ exists s, slots !! (i - k) = Some s /\ valid s = LSM_SLOT_FREE /\ slots' = <[i - k := s <| valid := to |>]> slots /\
      forall j sj, j < i - k -> slots !! j = Some sj -> valid sj <> LSM_SLOT_FREE
  | None => forall i s, slots !! i = Some s -> valid s <> LSM_SLOT_FREE
  end.
Proof.
  induction slots as [|s slots IH]; intros k; cbn [Slots.claim_free]; [intros i s Hs%zlookup_lt_Some; change (zlen []) with 0 in Hs; lia|]. specialize (IH (k + 1)). case_bool_decide as Hv.
  - split; [lia|]. exists s. rewrite Z.sub_diag, zlookup_cons, zinsert_cons by lia. split; [done|]. split; [done|]. split; [done|].
    intros j sj Hj Hs. by rewrite zlookup_neg in Hs by lia.
  - destruct (Slots.claim_free to slots (k + 1)) as [[i slots']|]; cbn [mbind option_bind fst snd].
    + destruct IH as (Hk & s' & Hs & Hf & -> & Hfirst). split; [lia|]. exists s'. rewrite zlookup_cons, zinsert_cons by lia. destruct (Z.eqb_spec (i - k) 0); [lia|].
      replace (i - k - 1) with (i - (k + 1)) by lia. split; [done|]. split; [done|]. split; [done|]. intros j sj Hj Hsj. rewrite zlookup_cons in Hsj.
      destruct (Z.eqb_spec j 0); [by injection Hsj as <-|]. by apply (Hfirst (j - 1) sj ltac:(lia)).
    + intros i s' Hs. rewrite zlookup_cons in Hs. destruct (Z.eqb_spec i 0); [by injection Hs as <-|]. by apply (IH (i - 1)).
Qed.

Lemma claim_free_spec to slots :
  match Slots.claim_free to slots 0 with
  | Some (i, slots') => exists s, slots !! i = Some s /\ valid s = LSM_SLOT_FREE /\ slots' = <[i := s <| valid := to |>]> slots /\
      forall j sj, j < i -> slots !! j = Some sj -> valid sj <> LSM_SLOT_FREE
  | None => forall i s, slots !! i = Some s -> valid s <> LSM_SLOT_FREE
  end.
Proof. pose proof (claim_free_from to slots 0) as H. destruct (Slots.claim_free to slots 0) as [[i slots']|]; [|done]. rewrite Z.sub_0_r in H. tauto. Qed.

Section steps.
Context (recover : Z -> LSMIndexData -> option (SegFile.IndexMeta * LSMIndexData)).

(** Recovery names the index it was asked for ([lsm->indexRelId = index_relid]). *)
Definition names_index : Prop := forall relid lsm meta lsm', recover relid lsm = Some (meta, lsm') -> indexRelId lsm' = relid.

(** What sessions, the worker and replay do to the table, one change at a time
    (CREATE INDEX apart). *)
Inductive slot_step : list LSMIndexBufferSlot -> list LSMIndexBufferSlot -> Prop :=
  | claims relid db user slots i slots' : Slots.claim_locked relid db user slots = Ok (Slots.Claimed i, slots') -> slot_step slots slots'
  (* no worker is running *)
  | unclaims slots i s : slots !! i = Some s -> valid s = LSM_SLOT_RECOVERING -> slot_step slots (<[i := s <| valid := LSM_SLOT_FREE |>]> slots)
  | recovers c slots b i c' slots' b' : Slots.worker_visit recover (c, slots, b) i = Ok (c', slots', b') -> slot_step slots slots'
  | creates db relid type dim elem slots i slots' :
      Slots.claim_lsm_index_slot_for_create_redo db relid type dim elem slots = Ok (i, slots') -> slot_step slots slots'
  | load_begins slots i s : slots !! i = Some s -> valid s = LSM_SLOT_WRITABLE ->
      slot_step slots (<[i := s <| valid := LSM_SLOT_LOADING_INDEX |> <| state_error := 0 |>]> slots)
  | load_ends slots i s : slots !! i = Some s -> valid s = LSM_SLOT_LOADING_INDEX -> slot_step slots (<[i := s <| valid := LSM_SLOT_QUERYABLE |>]> slots)
  | load_fails slots i s : slots !! i = Some s -> valid s = LSM_SLOT_LOADING_INDEX ->
      slot_step slots (<[i := s <| state_error := 1 |> <| valid := LSM_SLOT_WRITABLE |>]> slots)
  (* memtables come and go *)
  | used slots i s lsm : slots !! i = Some s -> is_writable (valid s) = true -> indexRelId lsm = named s ->
      slot_step slots (<[i := s <| lsmIndex := lsm |>]> slots).

(** Every step changes one slot: a free slot is taken for an index that has
    none, or a slot in use keeps its index (or is freed while recovering). *)
Inductive slot_change (slots : list LSMIndexBufferSlot) : list LSMIndexBufferSlot -> Prop :=
  | no_change : slot_change slots slots
  | takes i s s' : slots !! i = Some s -> valid s = LSM_SLOT_FREE -> (forall j, ~ holds slots j (named s')) ->
      (forall j sj, j < i -> slots !! j = Some sj -> valid sj <> LSM_SLOT_FREE) -> slot_change slots (<[i := s']> slots)
  | frees i s s' : slots !! i = Some s -> valid s = LSM_SLOT_RECOVERING -> valid s' = LSM_SLOT_FREE -> slot_change slots (<[i := s']> slots)
  | keeps i s s' : slots !! i = Some s -> valid s <> LSM_SLOT_FREE -> named s' = named s ->
      (is_writable (valid s) = true -> is_writable (valid s') = true) -> valid s' <> LSM_SLOT_FREE -> slot_change slots (<[i := s']> slots).

Lemma claim_shape relid db user slots :
  match Slots.claim_locked relid db user slots with
  | Ok (Slots.Registered i, slots') => slots' = slots /\ serves slots i relid
  | Ok (Slots.Recovering i, slots') => slots' = slots /\ holds slots i relid
  | Ok (Slots.Claimed i, slots') => (forall j, ~ holds slots j relid) /\ exists s s', slots !! i = Some s /\ valid s = LSM_SLOT_FREE /\
      slots' = <[i := s']> slots /\ valid s' = LSM_SLOT_RECOVERING /\ state_error s' = 0 /\ request_db_oid s' = db /\ named s' = relid /\
      (forall j sj, j < i -> slots !! j = Some sj -> valid sj <> LSM_SLOT_FREE)
  | Error e => e = ElogError /\ (forall j, ~ holds slots j relid) /\ forall i s, slots !! i = Some s -> valid s <> LSM_SLOT_FREE
  end.
Proof.
  unfold Slots.claim_locked. pose proof (scan_spec relid slots) as Hscan. destruct (Slots.scan_slots relid slots 0) as [[i s]|].
  - destruct Hscan as (Hs & Hv & Hn). destruct (is_writable (valid s)) eqn:Hw; (split; [done|]; by exists s).
  - pose proof (claim_free_spec LSM_SLOT_RECOVERING slots) as Hf. destruct (Slots.claim_free _ _ _) as [[i slots']|]; [|done].
    destruct Hf as (s & Hs & Hv & -> & Hfirst). rewrite (arr_upd_Some _ _ _ _ (zlookup_insert_eq _ _ _ _ Hs)). cbn [mbind res_bind]. split; [done|].
    eexists s, _. split; [done|]. split; [done|]. split; [apply zinsert_insert|]. done.
Qed.

Lemma create_shape db relid type dim elem slots :
  exists i slots', Slots.claim_lsm_index_slot_for_create_redo db relid type dim elem slots = Ok (i, slots') /\
    ((slots' = slots /\ holds slots i relid) \/
     (i = -1 /\ slots' = slots /\ (forall j, ~ holds slots j relid) /\ forall j s, slots !! j = Some s -> valid s <> LSM_SLOT_FREE) \/
     ((forall j, ~ holds slots j relid) /\ exists s s', slots !! i = Some s /\ valid s = LSM_SLOT_FREE /\ slots' = <[i := s']> slots /\ valid s' = LSM_SLOT_WRITABLE /\ state_error s' = 0 /\
      named s' = relid /\ (hnsw_m s', hnsw_ef_construction s') = (hnsw_m s, hnsw_ef_construction s) /\
      lsmIndex s' = mkLSM relid dim elem (Slots.START_SEGMENT_ID + 1) (growing_memtable_idx (lsmIndex s)) (growing_memtable_id (lsmIndex s)) (replicate (Z.to_nat MEMTABLE_NUM) (-1)) 0 /\
      (forall j sj, j < i -> slots !! j = Some sj -> valid sj <> LSM_SLOT_FREE))).
Proof.
  unfold Slots.claim_lsm_index_slot_for_create_redo. pose proof (scan_spec relid slots) as Hscan. destruct (Slots.scan_slots relid slots 0) as [[i s]|].
  - exists i, slots. split; [done|]. left. split; [done|]. by exists s.
  - pose proof (claim_free_spec LSM_SLOT_WRITABLE slots) as Hf. destruct (Slots.claim_free _ _ _) as [[i slots']|].
    + destruct Hf as (s & Hs & Hv & -> & Hfirst). rewrite (arr_upd_Some _ _ _ _ (zlookup_insert_eq _ _ _ _ Hs)). cbn [mbind res_bind]. eexists i, _.
      split; [done|]. right. right. split; [done|]. eexists s, _. split; [done|]. split; [done|]. split; [apply zinsert_insert|]. done.
    + exists (-1), slots. split; [done|]. right. left. done.
Qed.

Lemma step_change slots slots' : names_index -> slot_step slots slots' -> slot_change slots slots'.
Proof.
  intros Hrec [relid db user sl i sl' Hc|sl i s Hs Hv|c sl b i c' sl' b' Hw|db relid type dim elem sl i sl' Hc|sl i s Hs Hv|sl i s Hs Hv|sl i s Hs Hv|sl i s lsm Hs Hv Hl].
  - pose proof (claim_shape relid db user sl) as H. rewrite Hc in H. destruct H as (Hno & s & s' & Hs & Hv & -> & _ & _ & _ & Hn & Hfirst).
    apply (takes _ i s); [done|done| |done]. by rewrite Hn.
  - by apply (frees _ i s).
  - unfold Slots.worker_visit in Hw. destruct (arr_get sl i) as [s|] eqn:Hs; [cbn [mbind res_bind] in Hw; apply arr_get_Ok in Hs|done].
    case_bool_decide as Hv; [injection Hw as _ <- _; apply no_change|]. injection Hw as _ <- _.
    destruct (negb _); [by apply (frees _ i s)|]. unfold Slots.recover_slot. destruct (recover _ _) as [[meta lsm]|] eqn:Hr; [|by apply (frees _ i s)].
    apply (keeps _ i s); [done|by rewrite Hv|exact (Hrec _ _ _ _ Hr)|by rewrite Hv|done].
  - destruct (create_shape db relid type dim elem sl) as (i' & sl0 & Hc' & Hcase). rewrite Hc in Hc'. injection Hc' as <- <-.
    destruct Hcase as [[-> _]|[(_ & -> & _)|(Hno & s & s' & Hs & Hv & -> & _ & _ & Hn & _ & _ & Hfirst)]]; [apply no_change..|].
    apply (takes _ i s); [done|done| |done]. by rewrite Hn.
  - apply (keeps _ i s); [done|by rewrite Hv|done|done|done].
  - apply (keeps _ i s); [done|by rewrite Hv|done|done|done].
  - apply (keeps _ i s); [done|by rewrite Hv|done|done|done].
  - apply (keeps _ i s); [done|by apply writable_used|done|done|by apply writable_used].
Qed.

Lemma holds_insert slots i j s' relid : holds (<[i := s']> slots) j relid -> j = i /\ valid s' <> LSM_SLOT_FREE /\ named s' = relid \/ j <> i /\ holds slots j relid.
Proof.
  intros (s & Hs & Hv & Hn). rewrite zlookup_insert in Hs. case_decide as Hij; [|right; split; [done|by exists s]].
  destruct (slots !! j); [|done]. injection Hs as <-. by left.
Qed.

(** One change keeps slots unique, and keeps a slot that serves an index. *)
Lemma change_unique slots slots' : slot_change slots slots' -> one_slot_each slots -> one_slot_each slots'.
Proof.
  intros [|i s s' Hs Hv Hno _|i s s' Hs Hv Hf|i s s' Hs Hv Hn _ Hv'] Hone; [done| | |]; intros j k relid Hj%holds_insert Hk%holds_insert.
  - destruct Hj as [(-> & _ & Hnj)|[_ Hj]], Hk as [(-> & _ & Hnk)|[_ Hk]]; [done|subst relid; by destruct (Hno k)|subst relid; by destruct (Hno j)|by apply (Hone _ _ relid)].
  - destruct Hj as [(_ & ? & _)|[_ Hj]]; [done|]. destruct Hk as [(_ & ? & _)|[_ Hk]]; [done|]. by apply (Hone _ _ relid).
  - assert (Hi : holds slots i (named s)) by (by exists s).
    destruct Hj as [(-> & _ & Hnj)|[_ Hj]], Hk as [(-> & _ & Hnk)|[_ Hk]]; [done| | |by apply (Hone _ _ relid)]; subst relid; rewrite Hn in *; by apply (Hone _ _ (named s)).
Qed.

Lemma change_serves slots slots' i relid : slot_change slots slots' -> serves slots i relid -> serves slots' i relid.
Proof.
  intros Hc (s & Hs & Hw & Hn). destruct Hc as [|j sj s' Hsj Hv|j sj s' Hsj Hv Hf|j sj s' Hsj Hv Hn' Hw' _]; [by exists s|..];
    (destruct (decide (j = i)) as [->|Hne]; [assert (sj = s) as -> by congruence|exists s; by rewrite zlookup_insert_ne]).
  - by rewrite Hv in Hw.
  - by rewrite Hv in Hw.
  - exists s'. split; [by eapply zlookup_insert_eq|]. split; [by apply Hw'|by rewrite Hn'].
Qed.

Lemma steps_unique slots slots' : names_index -> rtc slot_step slots slots' -> one_slot_each slots -> one_slot_each slots'.
Proof. intros Hrec. induction 1 as [|s1 s2 s3 H _ IH]; [done|]. intros Hone. apply IH. eapply change_unique; [by apply step_change|done]. Qed.

Lemma steps_serve slots slots' i relid : names_index -> rtc slot_step slots slots' -> serves slots i relid -> serves slots' i relid.
Proof. intros Hrec. induction 1 as [|s1 s2 s3 H _ IH]; [done|]. intros Hs. apply IH. eapply change_serves; [by apply step_change|done]. Qed.

(** *** Lookups *)

Section lookups.
Context (others : Z -> list LSMIndexBufferSlot -> list LSMIndexBufferSlot).

(** Sleeping sees steps of the others end with the slot recovered or not; the
    slot is not given to another index in the meantime. *)
Record wakes : Prop := {
  wk_steps : forall i slots, rtc slot_step slots (others i slots);
  wk_done : forall slots i s, others i slots !! i = Some s -> valid s <> LSM_SLOT_RECOVERING;
  wk_same : forall slots i relid s, holds slots i relid -> others i slots !! i = Some s -> is_writable (valid s) = true -> named s = relid }.

(** How a lookup can end: the slot serves the index, or it failed for a reason. *)
Definition found (worker_running : bool) (relid : Z) slots (r : res Z) slots' : Prop :=
  rtc slot_step slots slots' /\
  match r with
  | Ok i => serves slots' i relid
  | Error e => e = ElogError /\
      ( (* the recovery failed *) (exists i slots1, rtc slot_step slots slots1 /\ slots' = others i slots1 /\ holds slots1 i relid /\
          forall s, slots' !! i = Some s -> valid s = LSM_SLOT_FREE \/ state_error s <> 0) \/
       (* no slot is free *) ((forall i, ~ holds slots i relid) /\ slots' = slots /\ forall i s, slots !! i = Some s -> valid s <> LSM_SLOT_FREE) \/
       (* nobody to recover it *) (worker_running = false /\ (forall i, ~ holds slots i relid) /\ forall i, ~ holds slots' i relid))
  end.

Lemma after_recovery_ok worker_running relid slots slots1 i : wakes -> rtc slot_step slots slots1 -> holds slots1 i relid ->
  let '(ready, slots') := Slots.after_recovery others i slots1 in
  found worker_running relid slots (if ready then Ok i else Error ElogError) slots' /\ (ready = true -> serves slots' i relid).
Proof.
  intros [Hst Hd Hsame] Hrtc Hh. unfold Slots.after_recovery. assert (Hr' : rtc slot_step slots (others i slots1)) by (etrans; [exact Hrtc|apply Hst]).
  assert (Hserve : (match others i slots1 !! i with Some s => is_writable (valid s) && (state_error s =? 0) | None => false end) = true -> serves (others i slots1) i relid).
  { destruct (others i slots1 !! i) as [s|] eqn:Hs; [|done]. intros [Hw _]%andb_prop. exists s. split; [done|]. split; [done|]. by apply (Hsame slots1 i). }
  destruct (match others i slots1 !! i with Some s => is_writable (valid s) && (state_error s =? 0) | None => false end) eqn:Hready; (split; [split; [done|]|done]); [by apply Hserve|].
  split; [done|]. left. exists i, slots1. split; [done|]. split; [done|]. split; [done|]. intros s Hs. rewrite Hs in Hready.
  specialize (Hd slots1 i s Hs). destruct (is_writable (valid s)) eqn:Hw; [|left; by destruct (valid s)]. right. cbn [andb] in Hready. by apply Z.eqb_neq.
Qed.

Lemma claim_or_find_ok worker_running relid db user slots : wakes ->
  let '(r, slots') := Slots.claim_or_find_lsm_index_slot others worker_running relid db user slots in found worker_running relid slots r slots'.
Proof.
  intros Hwk. unfold Slots.claim_or_find_lsm_index_slot. pose proof (claim_shape relid db user slots) as H.
  destruct (Slots.claim_locked relid db user slots) as [[[i|i|i] slots1]|e] eqn:Hc.
  - destruct H as [-> Hs]. split; [done|done].
  - destruct H as [-> Hh]. pose proof (after_recovery_ok worker_running relid slots slots i Hwk (rtc_refl _ _) Hh) as Ha.
    destruct (Slots.after_recovery others i slots). by destruct Ha.
  - destruct H as (Hno & s & s' & Hs & Hv & -> & Hv' & He' & _ & Hn & _). assert (Hstep : rtc slot_step slots (<[i := s']> slots)) by (eapply rtc_once, claims; exact Hc).
    assert (Hs' : <[i := s']> slots !! i = Some s') by (by eapply zlookup_insert_eq). destruct worker_running.
    + pose proof (after_recovery_ok true relid slots _ i Hwk Hstep) as Ha. destruct (Slots.after_recovery others i _).
      by apply Ha; exists s'; rewrite Hv'.
    + rewrite (arr_upd_Some _ _ _ _ Hs'). split.
      * etrans; [exact Hstep|]. by apply rtc_once, unclaims.
      * split; [done|]. right. right. split; [done|]. split; [done|]. intros j [(_ & Hf & _)|[Hne Hj]]%holds_insert; [by destruct Hf|].
        apply holds_insert in Hj as [(? & _)|[_ Hj]]; [done|]. by apply (Hno j).
  - destruct H as (-> & Hno & Hfull). split; [done|]. split; [done|]. right. left. done.
Qed.

Lemma get_idx_ok worker_running mydb user relid for_redo db slots : wakes -> (for_redo = true -> db <> Slots.InvalidOid) ->
  let '(r, slots') := Slots.get_lsm_index_idx others worker_running mydb user relid for_redo db slots in found worker_running relid slots r slots'.
Proof.
  intros Hwk Hdb. unfold Slots.get_lsm_index_idx. pose proof (scan_spec relid slots) as Hscan. destruct (Slots.scan_slots relid slots 0) as [[i s]|].
  - destruct Hscan as (Hs & Hv & Hn). destruct (is_writable (valid s)) eqn:Hw; [split; [done|]; by exists s|].
    pose proof (after_recovery_ok worker_running relid slots slots i Hwk (rtc_refl _ _) ltac:(by exists s)) as Ha. destruct (Slots.after_recovery others i slots). by destruct Ha.
  - destruct for_redo; [|by apply claim_or_find_ok]. unfold Slots.register_lsm_index_for_redo.
    destruct (Z.eqb_spec db Slots.InvalidOid); [by specialize (Hdb eq_refl)|by apply claim_or_find_ok].
Qed.

Lemma lookup_idx_ok relid slots : wakes ->
  let '(i, slots') := Slots.lookup_lsm_index_idx others relid slots in rtc slot_step slots slots' /\ (i = -1 \/ serves slots' i relid).
Proof.
  intros Hwk. unfold Slots.lookup_lsm_index_idx. pose proof (scan_spec relid slots) as Hscan. destruct (Slots.scan_slots relid slots 0) as [[i s]|].
  - destruct Hscan as (Hs & Hv & Hn). destruct (is_writable (valid s)) eqn:Hw; [split; [done|right]; by exists s|].
    pose proof (after_recovery_ok true relid slots slots i Hwk (rtc_refl _ _) ltac:(by exists s)) as Ha. destruct (Slots.after_recovery others i slots) as [[] slots'].
    + destruct Ha as [[? _] ?]. split; [done|right]. auto.
    + destruct Ha as [[? _] _]. split; [done|by left].
  - split; [done|by left].
Qed.
End lookups.
End steps.

(** ** The worker *)

Section worker.
Context (recover : Z -> LSMIndexData -> option (SegFile.IndexMeta * LSMIndexData)).

Definition recovering slots (i : Z) : Prop := exists s, slots !! i = Some s /\ valid s = LSM_SLOT_RECOVERING.

Lemma visit_ok c slots b i : is_Some (slots !! i) ->
  exists c' slots' b', Slots.worker_visit recover (c, slots, b) i = Ok (c', slots', b') /\ zlen slots' = zlen slots /\
    rtc (slot_step recover) slots slots' /\ ~ recovering slots' i /\
    (forall j, j <> i -> slots' !! j = slots !! j) /\ (~ recovering slots i -> b' = b /\ slots' = slots).
Proof.
  intros [s Hs]. pose proof (recovers recover c slots b i) as Hstep. unfold Slots.worker_visit in *. rewrite (proj2 (arr_get_Ok _ _ _) Hs) in *. cbn [mbind res_bind] in *.
  case_bool_decide as Hv.
  - exists c, slots, b. repeat (split; [done|]). split; [|done]. intros (s' & Hs' & ?). congruence.
  - assert (Hyes : recovering slots i) by (by exists s). eexists _, _, true. split; [done|]. rewrite zlen_insert. split; [done|].
    split; [by eapply rtc_once, Hstep|]. split; [|split; [|by intros []]].
    + intros (s' & Hs' & Hv'). rewrite (zlookup_insert_eq _ _ _ _ Hs) in Hs'. injection Hs' as <-. destruct (negb _); [done|].
      unfold Slots.recover_slot in Hv'. by destruct (recover _ _) as [[]|].
    + intros j Hne. by rewrite zlookup_insert_ne.
Qed.

Lemma pass_ok c slots : zlen slots = Slots.INDEX_BUF_SIZE ->
  exists c' slots' b, Slots.worker_pass recover c slots = Ok (c', slots', b) /\ zlen slots' = Slots.INDEX_BUF_SIZE /\ rtc (slot_step recover) slots slots' /\
    (forall i, ~ recovering slots' i) /\ ((forall i, ~ recovering slots i) -> b = false /\ slots' = slots).
Proof.
  intros Hz. set (P := fun (k : Z) (st : option Z * list LSMIndexBufferSlot * bool) => exists c' slots' b, st = (c', slots', b) /\ zlen slots' = Slots.INDEX_BUF_SIZE /\
    rtc (slot_step recover) slots slots' /\ (forall i, i < k -> ~ recovering slots' i) /\ ((forall i, ~ recovering slots i) -> b = false /\ slots' = slots)).
  destruct (for_loop P (Slots.worker_visit recover) (c, slots, false) Slots.INDEX_BUF_SIZE) as (st & Hst & c' & slots' & b & -> & Hz' & Hr & Hno & Hq).
  - unfold Slots.INDEX_BUF_SIZE. lia.
  - exists c, slots, false. split; [done|]. split; [done|]. split; [done|]. split; [|done]. intros i Hi (s & Hs & _). apply zlookup_lt_Some in Hs. lia.
  - intros k st Hk (c1 & slots1 & b1 & -> & Hz1 & Hr1 & Hno1 & Hq1).
    destruct (visit_ok c1 slots1 b1 k) as (c2 & slots2 & b2 & Hv & Hz2 & Hr2 & Hno2 & Ho & Hif); [apply zlookup_lt_is_Some; lia|].
    exists (c2, slots2, b2). split; [done|]. exists c2, slots2, b2. split; [done|]. split; [congruence|]. split; [by etrans|]. split.
    + intros i Hi. destruct (decide (i = k)) as [->|Hne]; [done|]. intros (s & Hs & Hrv). rewrite Ho in Hs by done. apply (Hno1 i ltac:(lia)). by exists s.
    + intros Hquiet. destruct (Hq1 Hquiet) as [-> ->]. destruct (Hif (Hquiet k)) as [-> ->]. done.
  - exists c', slots', b. split; [done|]. split; [done|]. split; [done|]. split; [|done]. intros i Hi. destruct (decide (i < Slots.INDEX_BUF_SIZE)) as [|Hge]; [by apply (Hno i)|].
    destruct Hi as (s & Hs & _). apply zlookup_lt_Some in Hs. lia.
Qed.

Lemma scan_ends c slots : zlen slots = Slots.INDEX_BUF_SIZE ->
  exists c' slots', (forall fuel, Slots.worker_scan recover (S (S fuel)) (fun t => t) c slots = Ok (c', slots')) /\
    rtc (slot_step recover) slots slots' /\ forall i, ~ recovering slots' i.
Proof.
  intros Hz. destruct (pass_ok c slots Hz) as (c1 & slots1 & b1 & Hp1 & Hz1 & Hr1 & Hno1 & Hq1). destruct (pass_ok c1 slots1 Hz1) as (c2 & slots2 & b2 & Hp2 & _ & _ & _ & Hq2).
  destruct (Hq2 Hno1) as [-> ->]. cbn [Slots.worker_scan]. rewrite Hp1. cbn [mbind res_bind]. destruct b1.
  - exists c2, slots1. split; [|done]. intros fuel. rewrite Hp2. done.
  - by exists c1, slots1.
Qed.
End worker.

(** ** Loading *)

Section barrier.
Context (files_at : Z -> list string) (timeout : Z).
Abbreviation arrived := (fun ms => Slots.dpv_initial_segment_on_disk (files_at ms) = true).

(** The rounds left from [waited] on are enough. *)
Lemma barrier_from fuel : forall waited,
  0 <= waited -> (Z.to_nat ((timeout - waited + 99) / 100) + 1 <= fuel)%nat ->
  match Slots.fetch_barrier files_at timeout fuel waited with
  | Ok _ => exists k, 0 <= k /\ (k = 0 \/ waited + 100 * (k - 1) < timeout) /\ arrived (waited + 100 * k)
  | Error e => e = ElogError /\ forall k, 0 <= k -> k = 0 \/ waited + 100 * (k - 1) < timeout -> ~ arrived (waited + 100 * k)
  end.
Proof.
  induction fuel as [|fuel IH]; intros waited H0 Hf; [lia|]. cbn [Slots.fetch_barrier].
  destruct (Slots.dpv_initial_segment_on_disk (files_at waited)) eqn:Hd.
  { exists 0. rewrite Z.mul_0_r, Z.add_0_r. split; [lia|]. split; [by left|done]. }
  destruct (Z.leb_spec timeout waited) as [Hge|Hlt].
  - split; [done|]. intros k Hk [->|Hr]; [rewrite Z.mul_0_r, Z.add_0_r; by rewrite Hd|]. assert (k = 0) as -> by lia. rewrite Z.mul_0_r, Z.add_0_r. by rewrite Hd.
  - assert (Hfuel : (Z.to_nat ((timeout - (waited + 100) + 99) / 100) + 1 <= fuel)%nat).
    { assert (0 < (timeout - waited + 99) / 100) by (apply Z.div_str_pos; lia).
      replace ((timeout - waited + 99) / 100) with ((timeout - (waited + 100) + 99) / 100 + 1) in *; [lia|].
      rewrite <-Z.div_add by lia. f_equal. lia. }
    specialize (IH (waited + 100) ltac:(lia) Hfuel). destruct (Slots.fetch_barrier _ _ _ _) as [|e].
    + destruct IH as (k & Hk & Hr & Ha). exists (k + 1). split; [lia|]. split; [right; lia|]. by replace (waited + 100 * (k + 1)) with (waited + 100 + 100 * k) by lia.
    + destruct IH as [-> IH]. split; [done|]. intros k Hk Hr. destruct (decide (k = 0)) as [->|Hne]; [rewrite Z.mul_0_r, Z.add_0_r; by rewrite Hd|].
      specialize (IH (k - 1) ltac:(lia)). replace (waited + 100 + 100 * (k - 1)) with (waited + 100 * k) in IH by lia. apply IH. lia.
Qed.

Lemma barrier_ok : 0 <= timeout ->
  match Slots.fetch_barrier files_at timeout (Slots.barrier_rounds timeout) 0 with
  | Ok _ => exists k, 0 <= k /\ (k = 0 \/ 100 * (k - 1) < timeout) /\ arrived (100 * k)
  | Error e => e = ElogError /\ forall k, 0 <= k -> k = 0 \/ 100 * (k - 1) < timeout -> ~ arrived (100 * k)
  end.
Proof.
  intros Ht. apply (barrier_from _ 0); [lia|]. unfold Slots.barrier_rounds. rewrite Z.sub_0_r.
  assert ((timeout + 99) / 100 <= timeout / 100 + 1) by (rewrite <-Z.div_add by lia; apply Z.div_le_mono; lia). lia.
Qed.
End barrier.

(** *** The first reader *)

Section reading.
Context (recover : Z -> LSMIndexData -> option (SegFile.IndexMeta * LSMIndexData)) (Hrec : names_index recover).
Context (others : Z -> list LSMIndexBufferSlot -> list LSMIndexBufferSlot) (Hwk : wakes recover others).
Context (files_at : Z -> list string) (standby : bool) (timeout : Z) (index_load_blocking : Z -> bool).

Definition loaded slots (i relid : Z) : Prop := exists s, slots !! i = Some s /\ valid s = LSM_SLOT_QUERYABLE /\ named s = relid.

Lemma serves_others i slots j relid : serves slots j relid -> serves (others i slots) j relid.
Proof. apply (steps_serve recover); [exact Hrec|apply (wk_steps _ _ Hwk)]. Qed.

Lemma load_slot_ok i relid slots : serves slots i relid ->
  let '(r, slots') := Slots.load_slot files_at standby timeout index_load_blocking others i slots in
  match r with
  | Ok _ => loaded slots' i relid /\ index_load_blocking relid = true /\
      (standby = true -> exists k, Slots.dpv_initial_segment_on_disk (files_at k) = true \/ timeout < 0)
  | Error _ => exists s, slots' !! i = Some s /\ valid s = LSM_SLOT_WRITABLE /\ state_error s = 1 /\ named s = relid
  end.
Proof.
  intros (s & Hs & Hw & Hn). unfold Slots.load_slot. rewrite Hs. set (s1 := s <| valid := LSM_SLOT_LOADING_INDEX |> <| state_error := 0 |>).
  change (indexRelId (lsmIndex s1)) with (named s). rewrite Hn.
  assert (H1 : serves (<[i := s1]> slots) i relid) by (exists s1; split; [by eapply zlookup_insert_eq|done]).
  destruct (serves_others i _ i relid H1) as (s2 & Hs2 & _ & Hn2). rewrite (arr_upd_Some _ _ _ _ Hs2).
  destruct (if standby then _ else _) as [[]|e] eqn:Hb.
  - destruct (index_load_blocking relid) eqn:Hl.
    + split; [eexists; split; [by eapply zlookup_insert_eq|done]|]. split; [done|]. intros ->. destruct (decide (0 <= timeout)) as [Ht|]; [|exists 0; right; lia].
      pose proof (barrier_ok files_at timeout Ht) as Hbar. rewrite Hb in Hbar. destruct Hbar as (k & _ & _ & Hk). exists (100 * k). by left.
    + eexists. split; [by eapply zlookup_insert_eq|done].
  - eexists. split; [by eapply zlookup_insert_eq|done].
Qed.

Lemma ensure_ok i relid slots : serves slots i relid ->
  let '(r, slots') := Slots.ensure_index_loaded files_at standby timeout index_load_blocking others i slots in r = Some (Ok true) -> loaded slots' i relid.
Proof.
  intros Hsv. pose proof Hsv as (s & Hs & Hw & Hn). unfold Slots.ensure_index_loaded. rewrite Hs.
  assert (Hwait : match valid <$> others i slots !! i with Some LSM_SLOT_QUERYABLE => Some (Ok true) | Some LSM_SLOT_WRITABLE => Some (@Ok bool false) | _ => None end = Some (Ok true) -> loaded (others i slots) i relid).
  { destruct (serves_others i _ i relid Hsv) as (s2 & Hs2 & _ & Hn2). rewrite Hs2. cbn. destruct (valid s2) eqn:Hv2; try done. intros _. by exists s2. }
  destruct (valid s) eqn:Hv; try done.
  - pose proof (load_slot_ok i relid slots Hsv) as Hl. destruct (Slots.load_slot _ _ _ _ _ _ _) as [r slots']. intros [= ->]. by destruct Hl.
  - intros _. by exists s.
Qed.

Lemma for_read_ok worker_running mydb user relid slots i slots' :
  Slots.get_lsm_index_for_read files_at standby timeout index_load_blocking others worker_running mydb user relid slots = (Some (Ok i), slots') ->
  loaded slots' i relid.
Proof.
  unfold Slots.get_lsm_index_for_read. pose proof (get_idx_ok recover others worker_running mydb user relid false Slots.InvalidOid slots Hwk ltac:(done)) as Hg.
  destruct (Slots.get_lsm_index_idx _ _ _ _ _ _ _ _) as [[j|e] slots1]; [|done]. destruct Hg as [_ Hsv]. pose proof (ensure_ok j relid slots1 Hsv) as He.
  destruct (Slots.ensure_index_loaded _ _ _ _ _ _ _) as [r slots2]. destruct r as [[[]|]|]; intros [=]; subst. by apply He.
Qed.
End reading.

(** *** Slots that change hands *)

(** The first free slot is the one that is claimed. *)
Lemma claim_first relid db user slots i s : (forall j, ~ holds slots j relid) -> slots !! i = Some s -> valid s = LSM_SLOT_FREE ->
  (forall j sj, j < i -> slots !! j = Some sj -> valid sj <> LSM_SLOT_FREE) ->
  exists s', Slots.claim_locked relid db user slots = Ok (Slots.Claimed i, <[i := s']> slots) /\ valid s' = LSM_SLOT_RECOVERING /\ request_db_oid s' = db /\ named s' = relid.
Proof.
  intros Hno Hs Hv Hfirst. pose proof (claim_shape relid db user slots) as H. destruct (Slots.claim_locked relid db user slots) as [[[j|j|j] slots']|e].
  - destruct H as [_ H%serves_holds]. by apply Hno in H.
  - destruct H as [_ H]. by apply Hno in H.
  - destruct H as (_ & sj & s' & Hsj & Hvj & -> & Hv' & _ & Hdb & Hn & Hj). assert (j = i) as ->.
    { destruct (Z.lt_trichotomy j i) as [Hlt|[|Hlt]]; [by destruct (Hfirst j sj Hlt Hsj)|done|by destruct (Hj i s Hlt Hs)]. }
    by exists s'.
  - destruct H as (_ & _ & Hfull). by destruct (Hfull i s Hs).
Qed.

Lemma visit_slot recover c slots b i s : slots !! i = Some s -> valid s = LSM_SLOT_RECOVERING ->
  Slots.worker_visit recover (Some c, slots, b) i = Ok (Some c, <[i := if request_db_oid s =? c then Slots.recover_slot recover s else Slots.fail_slot s]> slots, true).
Proof.
  intros Hs Hv. unfold Slots.worker_visit. rewrite (proj2 (arr_get_Ok _ _ _) Hs). cbn [mbind res_bind]. rewrite bool_decide_false by (by intros []).
  cbn [default from_option Datatypes.id]. by destruct (request_db_oid s =? c).
Qed.

Lemma build_shape relid type dim elem hnsw slots i slots' : Slots.build_begin relid type dim elem hnsw slots = Ok (i, slots') ->
  exists s s', slots !! i = Some s /\ valid s = LSM_SLOT_FREE /\ slots' = <[i := s']> slots /\ valid s' = LSM_SLOT_RECOVERING /\ request_db_oid s' = request_db_oid s /\ named s' = relid /\
    (forall j sj, j < i -> slots !! j = Some sj -> valid sj <> LSM_SLOT_FREE).
Proof.
  unfold Slots.build_begin. pose proof (claim_free_spec LSM_SLOT_RECOVERING slots) as Hf. destruct (Slots.claim_free _ _ _) as [[j slots1]|]; [|done].
  destruct Hf as (s & Hs & Hv & -> & Hfirst). destruct (if bool_decide _ then hnsw else _) as [m ef]. rewrite (arr_upd_Some _ _ _ _ (zlookup_insert_eq _ _ _ _ Hs)). cbn [mbind res_bind].
  intros [= <- <-]. eexists s, _. split; [done|]. split; [done|]. split; [apply zinsert_insert|]. done.
Qed.

Lemma finish_names array_size mcap i slots memtables slots' memtables' s : slots !! i = Some s ->
  Slots.build_finish array_size mcap i slots memtables = Ok (Some (slots', memtables')) ->
  exists s', slots' = <[i := s']> slots /\ valid s' = LSM_SLOT_QUERYABLE /\ named s' = named s.
Proof.
  intros Hs. unfold Slots.build_finish. rewrite (proj2 (arr_get_Ok _ _ _) Hs). cbn [mbind res_bind]. unfold Buffer.register_and_set_memtable.
  destruct (Buffer.claim_slot memtables 0) as [[k ms]|]; [|done]. cbn [alloc_segment_id fst snd]. destruct (arr_get ms k) as [m|]; [cbn [mbind res_bind]|done].
  destruct (set_memtable _ _ _ _ _ _ _) as [mt|]; [cbn [mbind res_bind]|done]. destruct (k <? 0); [done|]. destruct (arr_get _ k) as [m'|]; [cbn [mbind res_bind]|done].
  intros [= <- _]. eexists. split; [done|]. split; [done|]. unfold named. reflexivity.
Qed.

(** A slot whose recovery failed is given to another index and recovered. *)
Lemma recycled recover db slots i s a b meta lsm :
  names_index recover -> one_slot_each slots -> slots !! i = Some s -> valid s = LSM_SLOT_RECOVERING -> named s = a -> request_db_oid s = db ->
  (forall j sj, j < i -> slots !! j = Some sj -> valid sj <> LSM_SLOT_FREE) -> (forall j, ~ holds slots j b) ->
  recover a (lsmIndex s) = None -> (forall l, recover b l = Some (meta, lsm)) ->
  exists slots' s', rtc (slot_step recover) slots slots' /\ slots' !! i = Some s' /\ valid s' = LSM_SLOT_WRITABLE /\ state_error s' = 0 /\ named s' = b /\
    forall j, ~ holds slots' j a.
Proof.
  intros Hrec Hone Hs Hv Ha Hdb Hfirst Hnob Hfail Hok. set (s1 := Slots.fail_slot s). set (slots1 := <[i := s1]> slots).
  assert (Hvis1 : Slots.worker_visit recover (Some db, slots, false) i = Ok (Some db, slots1, true)).
  { rewrite (visit_slot _ _ _ _ _ _ Hs Hv), Hdb, Z.eqb_refl. unfold Slots.recover_slot. change (indexRelId (lsmIndex s)) with (named s). by rewrite Ha, Hfail. }
  assert (Hs1 : slots1 !! i = Some s1) by (by eapply zlookup_insert_eq).
  assert (Hab : a <> b) by (intros ->; apply (Hnob i); exists s; by rewrite Hv).
  assert (Hnoa : forall j, ~ holds slots1 j a).
  { intros j [(_ & Hf & _)|[Hne Hj]]%holds_insert; [by destruct Hf|]. apply Hne. apply (Hone j i a Hj). exists s. by rewrite Hv. }
  destruct (claim_first b db 0 slots1 i s1) as (s2 & Hclaim & Hv2 & Hdb2 & Hn2); [|done|done| |].
  { intros j [(_ & Hf & _)|[_ Hj]]%holds_insert; [by destruct Hf|by apply (Hnob j)]. }
  { intros j sj Hj. unfold slots1. rewrite zlookup_insert_ne by lia. by apply Hfirst. }
  set (slots2 := <[i := s2]> slots1) in *. assert (Hs2 : slots2 !! i = Some s2) by (by eapply zlookup_insert_eq).
  set (s3 := Slots.recover_slot recover s2). set (slots3 := <[i := s3]> slots2).
  assert (Hvis3 : Slots.worker_visit recover (Some db, slots2, false) i = Ok (Some db, slots3, true)) by (by rewrite (visit_slot _ _ _ _ _ _ Hs2 Hv2), Hdb2, Z.eqb_refl).
  assert (Hs3 : slots3 !! i = Some s3) by (by eapply zlookup_insert_eq).
  assert (H3 : valid s3 = LSM_SLOT_WRITABLE /\ state_error s3 = state_error s2 /\ named s3 = b).
  { unfold s3, Slots.recover_slot. change (indexRelId (lsmIndex s2)) with (named s2). rewrite Hn2, Hok. split; [done|]. split; [done|]. exact (Hrec _ _ _ _ (Hok lsm)). }
  assert (He2 : state_error s2 = 0).
  { pose proof (claim_shape b db 0 slots1) as H. rewrite Hclaim in H. destruct H as (_ & _ & s' & _ & _ & E & _ & He & _).
    assert (Hs' : <[i := s']> slots1 !! i = Some s') by (by eapply zlookup_insert_eq). rewrite <-E in Hs'. fold slots2 in Hs'. congruence. }
  destruct H3 as (Hv3 & He3 & Hn3). exists slots3, s3.
  split. { eapply rtc_l; [by eapply recovers|]. eapply rtc_l; [by eapply claims|]. eapply rtc_once. by eapply recovers. }
  split; [done|]. split; [done|]. split; [by rewrite He3|]. split; [done|].
  intros j [(_ & _ & Hn)|[_ [(_ & _ & Hn)|[_ Hj]]%holds_insert]]%holds_insert; [congruence|congruence|by apply (Hnoa j)].
Qed.

(** ** Examples *)
Module SlotRuns.

Definition meta : SegFile.IndexMeta := SegFile.mkIndexMeta HNSW 2 4 16 64.
(** Recovery succeeds except for index 13; the worker is connected to database 5. *)
Definition recover (relid : Z) (lsm : LSMIndexData) : option (SegFile.IndexMeta * LSMIndexData) :=
  if relid =? 13 then None else Some (meta, mkLSM relid 2 4 6 MT_IDX_INVALID 0 [-1; -1; -1; -1] 0).
Definition others (i : Z) (slots : list LSMIndexBufferSlot) : list LSMIndexBufferSlot :=
  match Slots.worker_visit recover (Some 5, slots, false) i with Ok (_, slots, _) => slots | Error _ => slots end.

Lemma recover_names : names_index recover.
Proof. intros relid lsm m lsm'. unfold recover. destruct (relid =? 13); [done|]. by intros [= _ <-]. Qed.

Lemma others_wakes : wakes recover others.
Proof.
  split.
  - intros i slots. unfold others. destruct (Slots.worker_visit _ _ _) as [[[c slots'] b]|] eqn:Hv; [|done]. eapply rtc_once, recovers. exact Hv.
  - intros slots i s. unfold others. destruct (slots !! i) as [s0|] eqn:Hs0.
    + destruct (visit_ok recover (Some 5) slots false i ltac:(by exists s0)) as (c' & slots' & b' & -> & _ & _ & Hno & _). intros Hs Hv. apply Hno. by exists s.
    + unfold Slots.worker_visit, arr_get. rewrite Hs0. cbn. congruence.
  - intros slots i relid s (s0 & Hs0 & Hv0 & Hn0). unfold others, Slots.worker_visit. rewrite (proj2 (arr_get_Ok _ _ _) Hs0). cbn [mbind res_bind].
    case_bool_decide as Hv; [intros Hs _; congruence|]. rewrite (zlookup_insert_eq _ _ _ _ Hs0). intros [= <-]. destruct (negb _); [done|].
    unfold Slots.recover_slot. destruct (recover _ _) as [[m l]|] eqn:Hr; [|done]. intros _. change (indexRelId l = relid). by rewrite (recover_names _ _ _ _ Hr).
Qed.

Definition empty_table : list LSMIndexBufferSlot := Slots.lsm_index_buffer_shmem_initialize.

Lemma empty_holds i relid : ~ holds empty_table i relid.
Proof. intros (s & Hs & Hv & _). assert (Hin : s ∈ empty_table) by (apply elem_of_zlookup; by exists i). apply elem_of_replicate in Hin as [-> _]. by destruct Hv. Qed.

(** Index 13 is being recovered. *)
Definition recovering_13 : list LSMIndexBufferSlot := match Slots.claim_locked 13 5 10 empty_table with Ok (_, slots) => slots | Error _ => [] end.
(** CREATE INDEX has taken a slot for index 20. *)
Definition building_20 : list LSMIndexBufferSlot := match Slots.build_begin 20 HNSW 2 4 (8, 32) empty_table with Ok (_, slots) => slots | Error _ => [] end.
Definition memtables : list MemtableBufferSlot := replicate 8 (mkBufferSlot 0 Example.slot0).

(** The segment arrives after 250 ms. *)
Definition files_at (ms : Z) : list string := if ms <? 250 then [] else ["metadata_3_3_v1"]%string.
End SlotRuns.
Import SlotRuns.

(** ** Properties *)



(** A lookup finds the index, or says why not.  [get_lsm_index_idx], on a
    session's path or on the path of replay, returns a writable slot of the index
    that was asked for, recovering it if need be; it raises an error only if the
    recovery failed, no slot is free, or no recovery worker runs, and in the last
    case the slot it had taken is free again. *)
Theorem lookup_finds_index recover others worker_running MyDatabaseId userid relid for_redo db_oid slots r slots' :
  wakes recover others -> (for_redo = true -> db_oid <> Slots.InvalidOid) ->
  Slots.get_lsm_index_idx others worker_running MyDatabaseId userid relid for_redo db_oid slots = (r, slots') ->
  found recover others worker_running relid slots r slots'.
Proof.
  intros Hwk Hdb Hrun. pose proof (get_idx_ok recover others worker_running MyDatabaseId userid relid for_redo db_oid slots Hwk Hdb) as H. by rewrite Hrun in H.
Qed.

Lemma lookup_finds_index_witness :
  serves (Slots.get_lsm_index_idx others true 5 10 7 false 0 recovering_13).2 1 7 /\
  found recover others true 13 recovering_13 (Error ElogError) (Slots.get_lsm_index_idx others true 5 10 13 true 5 recovering_13).2.
Proof.
  split.
  - pose proof (lookup_finds_index recover others true 5 10 7 false 0 recovering_13 (Ok 1) (Slots.get_lsm_index_idx others true 5 10 7 false 0 recovering_13).2
      others_wakes ltac:(discriminate) ltac:(vm_compute; reflexivity)) as [_ H]. exact H.
  - apply (lookup_finds_index recover others true 5 10 13 true 5); [exact others_wakes|discriminate|vm_compute; reflexivity].
Defined.

(** A query gets a loaded index.  When [get_lsm_index_for_read] returns a
    slot, the slot serves the index that was asked for and its segments are
    loaded, whether this session loaded them or waited for another. *)
Theorem read_gets_loaded_index recover others files_at standby timeout load worker_running MyDatabaseId userid relid slots i slots' :
  names_index recover -> wakes recover others ->
  Slots.get_lsm_index_for_read files_at standby timeout load others worker_running MyDatabaseId userid relid slots = (Some (Ok i), slots') ->
  loaded slots' i relid.
Proof. intros Hrec Hwk. by apply for_read_ok with recover. Qed.

Lemma read_gets_loaded_index_witness :
  loaded (Slots.get_lsm_index_for_read files_at true 500 (fun _ => true) others true 5 10 7 recovering_13).2 1 7.
Proof.
  apply (read_gets_loaded_index recover others files_at true 500 (fun _ => true) true 5 10 7 recovering_13 1); [exact recover_names|exact others_wakes|].
  vm_compute. reflexivity.
Defined.

(** C10: The wait for the first segment ends.  However the files arrive, the
    standby's first reader stops waiting after at most one round per 100 ms of
    the time limit and one more; it goes on exactly if the initial segment (or a
    merged one that covers it) is there at one of those looks. *)
Theorem fetch_barrier_ends files_at timeout :
  0 <= timeout ->
  (Slots.fetch_barrier files_at timeout (Slots.barrier_rounds timeout) 0 = Ok tt /\
   exists k, 0 <= k /\ (k = 0 \/ 100 * (k - 1) < timeout) /\ Slots.dpv_initial_segment_on_disk (files_at (100 * k)) = true) \/
  (Slots.fetch_barrier files_at timeout (Slots.barrier_rounds timeout) 0 = Error ElogError /\
   forall k, 0 <= k -> k = 0 \/ 100 * (k - 1) < timeout -> Slots.dpv_initial_segment_on_disk (files_at (100 * k)) = false).
Proof.
  intros Ht. pose proof (barrier_ok files_at timeout Ht) as H. destruct (Slots.fetch_barrier _ _ _ _) as [[]|e]; [by left|].
  destruct H as [-> H]. right. split; [done|]. intros k Hk Hr. apply not_true_is_false. by apply H.
Qed.

Lemma fetch_barrier_ends_witness :
  Slots.fetch_barrier files_at 500 (Slots.barrier_rounds 500) 0 = Ok tt /\ Slots.fetch_barrier files_at 120 (Slots.barrier_rounds 120) 0 = Error ElogError.
Proof.
  split.
  - destruct (fetch_barrier_ends files_at 500 ltac:(lia)) as [[H _]|[H _]]; [exact H|]. vm_compute in H. discriminate.
  - destruct (fetch_barrier_ends files_at 120 ltac:(lia)) as [[H _]|[H _]]; [|exact H]. vm_compute in H. discriminate.
Defined.

(** The worker's scan ends.  With nobody adding requests, two passes over the
    table are enough: the first decides every slot that is being recovered, the
    second finds nothing to do. *)
Theorem recovery_worker_ends recover connected_db_oid slots fuel :
  zlen slots = Slots.INDEX_BUF_SIZE ->
  exists connected' slots', Slots.worker_scan recover (S (S fuel)) (fun slots => slots) connected_db_oid slots = Ok (connected', slots') /\
    rtc (slot_step recover) slots slots' /\ forall i, ~ recovering slots' i.
Proof. intros Hz. destruct (scan_ends recover connected_db_oid slots Hz) as (c & t & H & ?). exists c, t. by split. Qed.

Lemma recovery_worker_ends_witness : exists slots', Slots.worker_scan recover 2 (fun slots => slots) None recovering_13 = Ok (Some 5, slots') /\ valid <$> slots' !! 0 = Some LSM_SLOT_FREE.
Proof.
  destruct (recovery_worker_ends recover None recovering_13 0 ltac:(vm_compute; reflexivity)) as (c & slots' & H & _). pose proof H as H'. vm_compute in H'. injection H' as <- H'.
  exists slots'. split; [exact H|]. rewrite <-H'. vm_compute. reflexivity.
Defined.

(** A waiting lookup can return another index.  The recovery of index [a]
    fails while a session waits for it; before that session runs again the slot
    is given to [b] and recovered.  The session sees a writable slot without an
    error, and returns it as [a]'s: neither wait checks the slot's index again. *)
Theorem waiter_takes_other_index recover db slots i s a b meta lsm :
  names_index recover -> one_slot_each slots -> slots !! i = Some s -> valid s = LSM_SLOT_RECOVERING -> named s = a -> request_db_oid s = db ->
  (forall j sj, j < i -> slots !! j = Some sj -> valid sj <> LSM_SLOT_FREE) -> (forall j, ~ holds slots j b) ->
  recover a (lsmIndex s) = None -> (forall l, recover b l = Some (meta, lsm)) ->
  exists slots', rtc (slot_step recover) slots slots' /\
    Slots.lookup_lsm_index_idx (fun _ _ => slots') a slots = (i, slots') /\
    (forall worker_running mydb user for_redo db_oid,
       Slots.get_lsm_index_idx (fun _ _ => slots') worker_running mydb user a for_redo db_oid slots = (Ok i, slots')) /\
    serves slots' i b /\ forall j, ~ holds slots' j a.
Proof.
  intros Hrec Hone Hs Hv Ha Hdb Hfirst Hnob Hfail Hok.
  destruct (recycled recover db slots i s a b meta lsm Hrec Hone Hs Hv Ha Hdb Hfirst Hnob Hfail Hok) as (slots' & s' & Hsteps & Hs' & Hv' & He' & Hn' & Hnoa). exists slots'.
  assert (Hscan : Slots.scan_slots a slots 0 = Some (i, s)).
  { pose proof (scan_spec a slots) as H. destruct (Slots.scan_slots a slots 0) as [[k sk]|].
    - destruct H as (Hk & Hvk & Hnk). assert (k = i) as -> by (apply (Hone k i a); [by exists sk|exists s; by rewrite Hv]). congruence.
    - destruct (H i). exists s. by rewrite Hv. }
  assert (Hwake : Slots.after_recovery (fun _ _ => slots') i slots = (true, slots')) by (unfold Slots.after_recovery; by rewrite Hs', Hv', He').
  split; [done|]. split; [unfold Slots.lookup_lsm_index_idx; by rewrite Hscan, Hv, Hwake|]. split; [intros; unfold Slots.get_lsm_index_idx; by rewrite Hscan, Hv, Hwake|].
  split; [exists s'; by rewrite Hv'|done].
Qed.

Lemma waiter_takes_other_index_witness : exists slots', Slots.lookup_lsm_index_idx (fun _ _ => slots') 13 recovering_13 = (0, slots') /\ serves slots' 0 7.
Proof.
  assert (Hh : forall j relid, holds recovering_13 j relid -> j = 0 /\ relid = 13).
  { intros j relid H. change recovering_13 with (<[0 := Slots.free_slot <| valid := LSM_SLOT_RECOVERING |> <| state_error := 0 |> <| request_db_oid := 5 |> <| request_db_userid := 10 |>
      <| lsmIndex ::= fun lsm => lsm <| indexRelId := 13 |> |>]> empty_table) in H.
    apply holds_insert in H as [(-> & _ & <-)|[_ H]]; [done|by apply empty_holds in H]. }
  destruct (waiter_takes_other_index recover 5 recovering_13 0 (default Slots.free_slot (recovering_13 !! 0)) 13 7 meta (mkLSM 7 2 4 6 MT_IDX_INVALID 0 [-1; -1; -1; -1] 0))
    as (slots' & _ & Hl & _ & Hs & _); [exact recover_names| |reflexivity..| | |reflexivity|intros l; reflexivity|by exists slots'].
  - intros i j relid [-> _]%Hh [-> _]%Hh. reflexivity.
  - intros j sj Hj Hs. rewrite zlookup_neg in Hs by lia. discriminate.
  - intros j [_ H]%Hh. discriminate.
Defined.

(** CREATE INDEX can lose its slot.  While it builds, its slot looks like one
    that waits for recovery, with the database of an earlier request (or none).
    The worker, woken by anybody else, fails that slot and frees it; the next
    lookup gives it to another index; and when the build publishes the slot, it
    publishes the other index over the built segments, and the new index has no
    slot. *)
Theorem worker_frees_slot_being_built recover array_size mcap c relid type dim elem hnsw slots i slots1 other db user :
  Slots.build_begin relid type dim elem hnsw slots = Ok (i, slots1) -> (forall s, slots !! i = Some s -> request_db_oid s <> c) ->
  relid <> other -> (forall j, ~ holds slots j other) -> (forall j, ~ holds slots j relid) ->
  exists slots2 slots3, Slots.worker_visit recover (Some c, slots1, false) i = Ok (Some c, slots2, true) /\
    Slots.claim_locked other db user slots2 = Ok (Slots.Claimed i, slots3) /\
    forall memtables slots4 memtables', Slots.build_finish array_size mcap i slots3 memtables = Ok (Some (slots4, memtables')) ->
      loaded slots4 i other /\ forall j, ~ holds slots4 j relid.
Proof.
  intros Hb Hdb Hne Hnoo Hnor. destruct (build_shape _ _ _ _ _ _ _ _ Hb) as (s & s1 & Hs & Hv & -> & Hv1 & Hdb1 & Hn1 & Hfirst).
  assert (Hs1 : <[i := s1]> slots !! i = Some s1) by (by eapply zlookup_insert_eq). rewrite (visit_slot _ _ _ _ _ _ Hs1 Hv1), Hdb1, (proj2 (Z.eqb_neq _ _) (Hdb s Hs)), zinsert_insert.
  set (s2 := Slots.fail_slot s1). assert (Hs2 : <[i := s2]> slots !! i = Some s2) by (by eapply zlookup_insert_eq).
  destruct (claim_first other db user (<[i := s2]> slots) i s2) as (s3 & Hclaim & Hv3 & _ & Hn3); [|done|done| |].
  { intros j [(_ & Hf & _)|[_ Hj]]%holds_insert; [by destruct Hf|by apply (Hnoo j)]. }
  { intros j sj Hj. rewrite zlookup_insert_ne by lia. by apply Hfirst. }
  rewrite zinsert_insert in Hclaim. eexists _, _. split; [done|]. split; [exact Hclaim|]. intros memtables slots4 memtables' Hfin.
  assert (Hs3 : <[i := s3]> slots !! i = Some s3) by (by eapply zlookup_insert_eq). destruct (finish_names _ _ _ _ _ _ _ _ Hs3 Hfin) as (s4 & -> & Hv4 & Hn4).
  split.
  - exists s4. split; [by eapply zlookup_insert_eq|]. split; [done|congruence].
  - intros j [(_ & _ & Hn)|[_ [(_ & _ & Hn)|[_ Hj]]%holds_insert]]%holds_insert; [congruence|congruence|by apply (Hnor j)].
Qed.

Lemma worker_frees_slot_being_built_witness :
  exists slots2 slots3 slots4 memtables', Slots.worker_visit recover (Some 5, building_20, false) 0 = Ok (Some 5, slots2, true) /\
    Slots.claim_locked 7 5 10 slots2 = Ok (Slots.Claimed 0, slots3) /\
    Slots.build_finish 24 3 0 slots3 memtables = Ok (Some (slots4, memtables')) /\ loaded slots4 0 7 /\ forall j, ~ holds slots4 j 20.
Proof.
  destruct (worker_frees_slot_being_built recover 24 3 5 20 HNSW 2 4 (8, 32) empty_table 0 building_20 7 5 10) as (slots2 & slots3 & Hv & Hc & Hf).
  - reflexivity.
  - intros s Hs. vm_compute in Hs. injection Hs as <-. discriminate.
  - discriminate.
  - intros j. apply empty_holds.
  - intros j. apply empty_holds.
  - pose proof Hv as Hv'. vm_compute in Hv'. injection Hv' as Hv'. pose proof Hc as Hc'. rewrite <-Hv' in Hc'. vm_compute in Hc'. injection Hc' as Hc'.
    assert (Hfin : exists slots4 m, Slots.build_finish 24 3 0 slots3 memtables = Ok (Some (slots4, m))) by (rewrite <-Hc'; eexists _, _; vm_compute; reflexivity).
    destruct Hfin as (slots4 & m & Hfin). exists slots2, slots3, slots4, m. split; [exact Hv|]. split; [exact Hc|]. split; [exact Hfin|]. exact (Hf _ _ _ Hfin).
Defined.
