(* ===== verification/StandbyMemtable.v ===== *)
(** Memtables on a standby (standby_memtable.c): replaying the log registers
    memtables and writes the rows the primary has inserted; the fetcher lets go
    of memtables whose rows have arrived in a segment
    ([fetcher_release_covered_memtables] of segment_fetcher.c).

    The specification is a map from segment ids to their rows.  The startup
    process is the only writer of rows and of [current_size], and the only one
    besides the fetchers to change the index; [standby_step] interleaves both
    with pins of searches, replayed deletions and the other indexes. *)

From S2P Require Import Prelude Bitmap Tid TopK Memtable MemtableSearch MemtableCycle RecoverSegments Recovery.

Module Standby.

(** The sealed memtables, in the order of the queue. *)
Fixpoint find_queued (slots : list MemtableBufferSlot) (idxs : list Z) (sid : Z) : res (option Z) :=
  match idxs with
  | [] => Ok None
  | i :: idxs => s ← arr_get slots i; if memtable_id (slot_mt s) =? sid then Ok (Some i) else find_queued slots idxs sid
  end.

Definition find_memtable_by_sid (lsm : LSMIndexData) (slots : list MemtableBufferSlot) (sid : Z) : res (option Z) :=
  let g := growing_memtable_idx lsm in
  is_growing ← (if (g =? MT_IDX_INVALID) || (g =? MT_IDX_ROTATING) then Ok false
                else s ← arr_get slots g; Ok (memtable_id (slot_mt s) =? sid));
  if is_growing : bool then Ok (Some g) else find_queued slots (queue lsm) sid.

(** [if (memtable_count < MEMTABLE_NUM) memtable_idxs[memtable_count++] = mt_idx;] *)
Definition queue_sealed (lsm : LSMIndexData) (mt_idx : Z) : res LSMIndexData :=
  if memtable_count lsm <? MEMTABLE_NUM then
    idxs ← arr_set (memtable_idxs lsm) (memtable_count lsm) mt_idx;
    Ok (lsm <| memtable_idxs := idxs |> <| memtable_count ::= fun c => c + 1 |>)
  else Ok lsm.

Definition seal (slots : list MemtableBufferSlot) (i : Z) : res (list MemtableBufferSlot) :=
  arr_upd slots i (fun s => s <| slot_mt ::= fun mt => mt <| sealed := true |> |>).

(** A fresh memtable takes its place. *)
Definition wire (lsm : LSMIndexData) (slots : list MemtableBufferSlot) (mt_idx sid : Z) : res (LSMIndexData * list MemtableBufferSlot) :=
  let g := growing_memtable_idx lsm in
  if (growing_memtable_id lsm <? sid) || (g =? MT_IDX_INVALID) then
    '(lsm, slots) ← (if (g =? MT_IDX_INVALID) || (g =? MT_IDX_ROTATING) then Ok (lsm, slots)
                     else slots ← seal slots g; lsm ← queue_sealed lsm g; Ok (lsm, slots));
    Ok (lsm <| growing_memtable_idx := mt_idx |> <| growing_memtable_id := sid |>, slots)
  else
    slots ← seal slots mt_idx; lsm ← queue_sealed lsm mt_idx; Ok (lsm, slots).

Definition dpv_standby_register_memtable (array_size memtable_capacity : Z) (lsm : LSMIndexData) (slots : list MemtableBufferSlot) (sid : Z)
    : res (LSMIndexData * list MemtableBufferSlot) :=
  known ← find_memtable_by_sid lsm slots sid;
  match known with
  | Some _ => Ok (lsm, slots)
  | None =>
      '(mt_idx, lsm, slots) ← Buffer.register_and_set_memtable array_size memtable_capacity lsm slots true sid;
      if mt_idx <? 0 then Ok (lsm, slots) else wire lsm slots mt_idx sid
  end.

(** One row.  Nobody else writes [current_size], so the loop of
    compare-and-swaps ends with its first. *)
Definition add_row (mt : ConcurrentMemTableData) (slot_index tid : Z) (vector : list Z) : res ConcurrentMemTableData :=
  if capacity mt <=? slot_index then Ok mt
  else if negb (zlen vector =? VEC_BYTES_PER_ROW mt) then Ok mt
  else
    mt ← Insert.write_row mt slot_index tid vector;
    let new_size := u32 (slot_index + 1) in
    Rebuild.publish_slot_release (if new_size <=? current_size mt then mt else mt <| current_size := new_size |>) slot_index.

Definition dpv_standby_add_to_memtable {B : Type} `{BlockId B} (lsm : LSMIndexData) (slots : list MemtableBufferSlot)
    (sid slot_index : Z) (tid : ItemPointerData B) (vector : list Z) : res (list MemtableBufferSlot) :=
  known ← find_memtable_by_sid lsm slots sid;
  match known with
  | None => Ok slots
  | Some i =>
      s ← arr_get slots i;
      mt ← add_row (slot_mt s) slot_index (ItemPointerToInt64 tid) vector;
      Ok (<[i := s <| slot_mt := mt |>]> slots)
  end.

(** *** The fetcher *)

(** The ids a segment covers. *)
Definition covers_sid (start_sid end_sid sid : Z) : bool := (start_sid <=? sid) && (sid <=? end_sid).

(** The loop over the queue: [new_count], the compacted array, the slots. *)
Definition release_queued (start_sid end_sid : Z) (st : Z * list Z * list MemtableBufferSlot) (i : Z) : res (Z * list Z * list MemtableBufferSlot) :=
  let '(new_count, idxs, slots) := st in
  mt_idx ← arr_get idxs i;
  if mt_idx <? 0 then Ok st
  else
    s ← arr_get slots mt_idx;
    if covers_sid start_sid end_sid (memtable_id (slot_mt s)) then slots ← ref_add slots mt_idx (-1); Ok (new_count, idxs, slots)
    else idxs ← arr_set idxs new_count mt_idx; Ok (new_count + 1, idxs, slots).

Definition fetcher_release_covered_memtables (lsm : LSMIndexData) (slots : list MemtableBufferSlot) (start_sid end_sid : Z)
    : res (LSMIndexData * list MemtableBufferSlot) :=
  '(new_count, idxs, slots) ← foldl_res (release_queued start_sid end_sid) (0, memtable_idxs lsm, slots) (seqZ 0 (memtable_count lsm));
  let lsm := lsm <| memtable_idxs := idxs |> <| memtable_count := new_count |> in
  let g := growing_memtable_idx lsm in
  if (g =? MT_IDX_INVALID) || (g =? MT_IDX_ROTATING) then Ok (lsm, slots)
  else
    s ← arr_get slots g;
    if covers_sid start_sid end_sid (memtable_id (slot_mt s)) then
      slots ← ref_add slots g (-1);
      Ok (lsm <| growing_memtable_idx := MT_IDX_INVALID |> <| growing_memtable_id := 0 |>, slots)
    else Ok (lsm, slots).

End Standby.

(** ** One memtable *)

(** The rows of a memtable, by slot index. *)
Abbreviation rows_map := (gmap Z (Z * list Z)).

Record holds_rows (mt : ConcurrentMemTableData) (rows : rows_map) : Prop := {
  hr_arrays : 0 <= capacity mt <= MEMTABLE_MAX_CAPACITY /\ capacity mt <= zlen (ready mt) /\ capacity mt <= zlen (tids mt);
  hr_fit : rows_fit mt;
  hr_range : forall i, is_Some (rows !! i) -> 0 <= i < current_size mt;
  hr_size : 0 <= current_size mt <= capacity mt /\ (current_size mt = 0 \/ is_Some (rows !! (current_size mt - 1)));
  hr_ready : forall i, 0 <= i < capacity mt -> ready mt !! i = Some (if decide (is_Some (rows !! i)) then 1 else 0);
  hr_rows : forall i t x, rows !! i = Some (t, x) -> tids mt !! i = Some t /\ row_at mt i = x /\ zlen x = VEC_BYTES_PER_ROW mt;
  hr_max : max_ok mt }.

(** Sealing a memtable and marking rows deleted leaves the rows alone. *)
Definition same_rows (mt mt' : ConcurrentMemTableData) : Prop :=
  exists b bm, mt' = mt <| sealed := b |> <| mt_bitmap := bm |>.

Lemma same_rows_refl mt : same_rows mt mt.
Proof. exists (sealed mt), (mt_bitmap mt). by destruct mt. Qed.

Lemma holds_same mt mt' rows : same_rows mt mt' -> holds_rows mt rows -> holds_rows mt' rows.
Proof. intros (b & bm & ->) [H1 H2 H3 H4 H5 H6 H7]. by split. Qed.

Section publishing.
Implicit Types (mt : ConcurrentMemTableData) (i cur new : Z).
Import Insert.

(** Extending the published prefix ends with a prefix that is published. *)
Lemma scan_ok fuel : forall mt cur new,
  (Z.to_nat (capacity mt - new) + 3 <= fuel)%nat -> max_ready_id mt = cur -> 0 <= cur < new -> new <= capacity mt -> capacity mt < 2 ^ 31 ->
  capacity mt <= zlen (ready mt) -> (forall j, 0 <= j < new -> is_ready mt j) ->
  exists m, Rebuild.publish_from fuel mt (Scan cur new) = Ok (mt <| max_ready_id := m |>) /\ max_ok (mt <| max_ready_id := m |>).
Proof.
  induction fuel as [|fuel IH]; intros mt cur new Hf Hm Hc Hn H31 Hz Hr; [lia|].
  assert (Hstop : scan_step mt cur new = Ok (if cur <? new - 1 then Swap cur (new - 1) else Idle) ->
    exists m, Rebuild.publish_from (S fuel) mt (Scan cur new) = Ok (mt <| max_ready_id := m |>) /\ max_ok (mt <| max_ready_id := m |>)).
  { intros Hs. rewrite (from_scan _ _ _ _ _ Hs). destruct fuel as [|fuel]; [lia|]. destruct (Z.ltb_spec cur (new - 1)) as [Hlt|Hge].
    - exists (new - 1). rewrite (from_swap _ _ _ _ (mt <| max_ready_id := new - 1 |>) Idle) by (unfold swap_max; by rewrite Hm, Z.eqb_refl).
      destruct fuel as [|fuel]; [lia|]. split; [done|]. right. split; [change (0 <= new - 1 < capacity mt); lia|]. intros j Hj. change (is_ready mt j). change (0 <= j <= new - 1) in Hj. apply Hr. lia.
    - exists cur. replace (mt <| max_ready_id := cur |>) with mt by (rewrite <-Hm; by destruct mt). split; [done|]. right. rewrite Hm. split; [lia|].
      intros j Hj. apply Hr. lia. }
  unfold scan_step in Hstop. destruct (Z.ltb_spec new (capacity mt)) as [Hlt|Hge]; [|by apply Hstop].
  destruct (zlookup_lt_is_Some (ready mt) new) as [y Hy]; [lia|]. rewrite (proj2 (arr_get_Ok _ _ _) Hy) in Hstop. cbn [mbind res_bind] in Hstop.
  destruct (Z.eqb_spec y 1) as [Hy1|]; [|by apply Hstop].
  rewrite (from_scan _ _ _ _ (Scan cur (new + 1))).
  - apply IH; try (done || lia). intros j Hj. destruct (decide (j = new)) as [->|]; [unfold is_ready; by rewrite Hy, Hy1|apply Hr; lia].
  - unfold scan_step. rewrite (proj2 (Z.ltb_lt _ _) Hlt), (proj2 (arr_get_Ok _ _ _) Hy). cbn [mbind res_bind]. by rewrite Hy1, u32_small by lia.
Qed.

(** Publishing any row, alone. *)
Lemma publish_ok mt i :
  0 <= i < capacity mt -> capacity mt < 2 ^ 31 -> capacity mt <= zlen (ready mt) -> max_ok mt ->
  exists m, Rebuild.publish_slot_release mt i =
      Ok (mt <| ready := <[i := 1]> (ready mt) |> <| ready_cnt ::= fun c => u32 (c + 1) |> <| max_ready_id := m |>) /\
    max_ok (mt <| ready := <[i := 1]> (ready mt) |> <| ready_cnt ::= fun c => u32 (c + 1) |> <| max_ready_id := m |>).
Proof.
  intros Hi H31 Hz Hmax. unfold Rebuild.publish_slot_release.
  replace (Z.to_nat (capacity mt) + 8)%nat with (S (S (S (Z.to_nat (capacity mt) + 5))))%nat by lia. set (fuel := (Z.to_nat (capacity mt) + 5)%nat).
  destruct (zlookup_lt_is_Some (ready mt) i) as [y Hy]; [lia|]. set (mt1 := mt <| ready := <[i := 1]> (ready mt) |>).
  set (mt2 := mt1 <| ready_cnt ::= fun c => u32 (c + 1) |>). rewrite (from_publish _ _ _ mt1) by (unfold set_ready; by run).
  change (Rebuild.publish_from (S (S fuel)) mt1 (Count i)) with (Rebuild.publish_from (S fuel) mt2 (ReadMax i)).
  assert (Hz2 : capacity mt2 <= zlen (ready mt2)) by (change (capacity mt <= zlen (<[i := 1]> (ready mt))); by rewrite zlen_insert).
  assert (Hr2 : forall j, is_ready mt j \/ j = i -> is_ready mt2 j).
  { intros j Hj. change (<[i := 1]> (ready mt) !! j = Some 1). destruct (decide (i = j)) as [<-|Hne]; [by eapply zlookup_insert_eq|].
    rewrite zlookup_insert_ne by done. destruct Hj as [|Hj]; [done|by destruct Hne]. }
  assert (Hok2 : max_ok mt2). { destruct Hmax as [|[Hm Hr]]; [by left|]. right. split; [done|]. intros j Hj. apply Hr2. left. by apply Hr. }
  assert (Hidle : read_max mt2 i = Idle -> exists m, Rebuild.publish_from (S fuel) mt2 (ReadMax i) = Ok (mt2 <| max_ready_id := m |>) /\ max_ok (mt2 <| max_ready_id := m |>)).
  { intros He. exists (max_ready_id mt2). rewrite (from_read _ _ _ _ He). replace (mt2 <| max_ready_id := max_ready_id mt2 |>) with mt2 by by destruct mt2.
    split; [|done]. unfold fuel. by replace (Z.to_nat (capacity mt) + 5)%nat with (S (Z.to_nat (capacity mt) + 4)) by lia. }
  unfold read_max in Hidle. destruct (Z.eqb_spec (max_ready_id mt2) UINT32_MAX) as [Hnone|Hsome].
  - destruct (Z.eqb_spec i 0) as [->|]; [|by apply Hidle]. exists 0. rewrite (from_read _ _ _ SwapFirst).
    2: { unfold read_max. by rewrite Hnone. }
    unfold fuel. replace (Z.to_nat (capacity mt) + 5)%nat with (S (Z.to_nat (capacity mt) + 4)) by lia.
    change (Rebuild.publish_from (S (Z.to_nat (capacity mt) + 4)) mt2 SwapFirst) with (@Ok ConcurrentMemTableData (swap_first mt2)).
    unfold swap_first. rewrite Hnone. split; [done|]. right. split; [change (0 <= 0 < capacity mt); lia|]. intros j Hj. change (0 <= j <= 0) in Hj.
    change (is_ready mt2 j). apply Hr2. right. lia.
  - destruct Hok2 as [|[Hm Hr]]; [done|]. change (capacity mt2) with (capacity mt) in Hm. destruct (Z.eqb_spec i (u32 (max_ready_id mt2 + 1))) as [Hi1|]; [|by apply Hidle].
    rewrite u32_small in Hi1 by lia. rewrite (from_read _ _ _ (Scan (max_ready_id mt2) (max_ready_id mt2 + 1))).
    2: { unfold read_max. rewrite (proj2 (Z.eqb_neq _ _) Hsome), u32_small by lia. by rewrite <-Hi1, Z.eqb_refl. }
    apply scan_ok; change (capacity mt2) with (capacity mt); try (done || lia). intros j Hj. apply Hr. lia.
Qed.
End publishing.

(** A fresh memtable has no rows. *)
Lemma fresh_holds array_size mcap mt : set_up array_size mcap mt -> (8 | VEC_BYTES_PER_ROW mt) -> sealed mt = false -> holds_rows mt ∅.
Proof.
  intros Hup H8 Hopen. pose proof (set_up_capacity array_size mcap mt 1 Hup H8 ltac:(lia) ltac:(lia) Hopen) as Hc.
  pose proof (filled_empty array_size mcap mt 1 Hup H8 ltac:(lia) ltac:(lia) Hopen) as [_ [Hs _] Hm Hfree _].
  pose proof (proj1 (reach_inv _ _ _ 1 _ Hup H8 ltac:(lia) (rtc_refl _ _))) as [(_ & Hr & Ht & _) Hfit _ _ _ _ _ _ _ Hmax]. cbn [Insert.st_mt] in *.
  change (zlen (@nil (Z * list Z))) with 0 in *. split.
  - done.
  - done.
  - by intros i ?%lookup_empty_is_Some.
  - rewrite Hs. split; [lia|]. by left.
  - intros i Hi. rewrite decide_False; [by apply Hfree|]. by intros ?%lookup_empty_is_Some.
  - by intros i t x ?%lookup_empty_Some.
  - done.
Qed.

(** Replaying one row. *)
Lemma add_row_ok mt rows i t x :
  holds_rows mt rows -> 0 <= i ->
  exists mt', Standby.add_row mt i t x = Ok mt' /\ memtable_id mt' = memtable_id mt /\
    (if (i <? capacity mt) && (zlen x =? VEC_BYTES_PER_ROW mt)
     then holds_rows mt' (<[i := (t, x)]> rows) /\ ready_cnt mt' = u32 (ready_cnt mt + 1) /\ current_size mt' = Z.max (current_size mt) (i + 1)
     else mt' = mt) /\
    capacity mt' = capacity mt /\ (dim mt' = dim mt /\ elem_size mt' = elem_size mt) /\
    zlen (vector_blob mt') = zlen (vector_blob mt) /\ zlen (ready mt') = zlen (ready mt) /\ zlen (tids mt') = zlen (tids mt).
Proof.
  intros [(Hc & Hzr & Hzt) [Hv Hfit] Hrange [Hsz Hlast] Hready Hrows Hmax] Hi. unfold MEMTABLE_MAX_CAPACITY in Hc.
  unfold Standby.add_row. rewrite Z.ltb_antisym. destruct (Z.leb_spec (capacity mt) i) as [Hge|Hlt]; [by exists mt|].
  destruct (Z.eqb_spec (zlen x) (VEC_BYTES_PER_ROW mt)) as [Hx|Hx]; [|by exists mt]. cbn [negb andb].
  destruct (zlookup_lt_is_Some (tids mt) i) as [t0 Ht0]; [lia|].
  destruct (mem_write_ok (vector_blob mt) (vec_offset mt i) x) as [blob Hblob]; [by apply vec_offset_nonneg|rewrite Hx; apply Hfit; lia|].
  set (mt1 := mt <| tids := <[i := t]> (tids mt) |> <| vector_blob := blob |>).
  assert (Hw : Insert.write_row mt i t x = Ok mt1) by (unfold Insert.write_row; run; by rewrite Hblob). rewrite Hw. cbn [mbind res_bind].
  rewrite (u32_small (i + 1)) by lia. change (current_size mt1) with (current_size mt).
  set (mt2 := if i + 1 <=? current_size mt then mt1 else mt1 <| current_size := i + 1 |>).
  assert (E2 : capacity mt2 = capacity mt /\ ready mt2 = ready mt /\ max_ready_id mt2 = max_ready_id mt /\ tids mt2 = tids mt1 /\ vector_blob mt2 = blob /\
               memtable_id mt2 = memtable_id mt /\ dim mt2 = dim mt /\ elem_size mt2 = elem_size mt /\ current_size mt2 = Z.max (current_size mt) (i + 1) /\
               ready_cnt mt2 = ready_cnt mt).
  { unfold mt2. zcase; split_and!; try done; [change (current_size mt1) with (current_size mt)|change (i + 1 = Z.max (current_size mt) (i + 1))]; lia. }
  destruct E2 as (E1 & E2 & E3 & E4 & E5 & E6 & E7 & E8 & E9 & E10).
  assert (Hmax2 : max_ok mt2) by (unfold max_ok, is_ready; rewrite E1, E2, E3; exact Hmax).
  destruct (publish_ok mt2 i ltac:(lia) ltac:(lia) ltac:(rewrite E1, E2; lia) Hmax2) as (m & Hp & Hmax3).
  fold mt2. set (mt3 := mt2 <| ready := <[i := 1]> (ready mt2) |> <| ready_cnt ::= fun c => u32 (c + 1) |> <| max_ready_id := m |>) in *.
  exists mt3. split; [exact Hp|]. split; [exact E6|].
  destruct (mem_write_spec _ _ _ _ Hblob) as (H0 & Hend & Hlen & Hat & Helse).
  assert (Ev : VEC_BYTES_PER_ROW mt3 = VEC_BYTES_PER_ROW mt) by (unfold VEC_BYTES_PER_ROW; change (dim mt3) with (dim mt2); change (elem_size mt3) with (elem_size mt2); by rewrite E7, E8).
  assert (Eo : forall k, vec_offset mt3 k = vec_offset mt k) by (intros k; unfold vec_offset; by rewrite Ev).
  split; [|change (capacity mt3) with (capacity mt2); change (vector_blob mt3) with (vector_blob mt2); change (tids mt3) with (tids mt2);
           change (ready mt3) with (<[i := 1]> (ready mt2)); change (dim mt3) with (dim mt2); change (elem_size mt3) with (elem_size mt2); rewrite E1, E2, E4, E5, E7, E8; change (tids mt1) with (<[i := t]> (tids mt)); rewrite !zlen_insert; done].
  assert (Erow : forall k, 0 <= k -> k <> i -> row_at mt3 k = row_at mt k).
  { intros k Hk Hne. unfold row_at. rewrite Eo, Ev. change (vector_blob mt3) with (vector_blob mt2). rewrite E5. apply Helse; [by apply vec_offset_nonneg|].
    rewrite Hx. destruct (row_separate mt i k Hv Hi Hk) as [|]; [done|left; lia|right; lia]. }
  split; [|split; [change (ready_cnt mt3) with (u32 (ready_cnt mt2 + 1)); by rewrite E10|exact E9]]. split.
  - change (capacity mt3) with (capacity mt2). change (ready mt3) with (<[i := 1]> (ready mt2)). change (tids mt3) with (tids mt2).
    rewrite E1, E2, E4. change (tids mt1) with (<[i := t]> (tids mt)). rewrite !zlen_insert. unfold MEMTABLE_MAX_CAPACITY. lia.
  - split; [by rewrite Ev|]. intros k Hk. change (capacity mt3) with (capacity mt2) in Hk. rewrite E1 in Hk. rewrite Eo, Ev.
    change (vector_blob mt3) with (vector_blob mt2). rewrite E5, Hlen. by apply Hfit.
  - intros k Hk. change (current_size mt3) with (current_size mt2). rewrite E9. destruct (decide (k = i)) as [->|Hne]; [lia|].
    rewrite lookup_insert_ne in Hk by done. specialize (Hrange k Hk). lia.
  - change (current_size mt3) with (current_size mt2). change (capacity mt3) with (capacity mt2). rewrite E1, E9. split; [lia|]. right.
    destruct (decide (current_size mt <= i)).
    + replace (Z.max (current_size mt) (i + 1) - 1) with i by lia. rewrite lookup_insert_eq. by eexists.
    + replace (Z.max (current_size mt) (i + 1)) with (current_size mt) by lia. destruct Hlast as [|Hlast]; [lia|].
      destruct (decide (current_size mt - 1 = i)) as [->|]; [rewrite lookup_insert_eq; by eexists|by rewrite lookup_insert_ne].
  - intros k Hk. change (capacity mt3) with (capacity mt2) in Hk. change (ready mt3) with (<[i := 1]> (ready mt2)). rewrite E1 in Hk. rewrite E2.
    destruct (decide (k = i)) as [->|Hne].
    + rewrite (zlookup_insert_eq _ _ _ _ (Hready i Hk)), lookup_insert_eq, decide_True by (by eexists). done.
    + rewrite zlookup_insert_ne, lookup_insert_ne by done. by apply Hready.
  - intros k t' x' Hk. rewrite Ev. change (tids mt3) with (tids mt2). rewrite E4. change (tids mt1) with (<[i := t]> (tids mt)).
    destruct (decide (k = i)) as [->|Hne].
    + rewrite lookup_insert_eq in Hk. injection Hk as <- <-. split; [by eapply zlookup_insert_eq|]. split; [|done].
      unfold row_at. rewrite Eo, Ev. change (vector_blob mt3) with (vector_blob mt2). rewrite E5, <-Hx. exact Hat.
    + rewrite lookup_insert_ne in Hk by done. destruct (Hrows _ _ _ Hk) as (H1 & H2 & H3). split; [by rewrite zlookup_insert_ne|].
      split; [|done]. rewrite Erow; [done| |done]. specialize (Hrange k ltac:(by eexists)). lia.
  - exact Hmax3.
Qed.

(** ** The memtables of an index *)

(** Rows by segment id. *)
Abbreviation view := (gmap Z rows_map).

Definition known (lsm : LSMIndexData) : list Z :=
  (if growing_memtable_idx lsm =? MT_IDX_INVALID then [] else [growing_memtable_idx lsm]) ++ queue lsm.

Lemma growing_known lsm : 0 <= growing_memtable_idx lsm -> growing_memtable_idx lsm ∈ known lsm.
Proof. intros Hg. unfold known, MT_IDX_INVALID. rewrite (proj2 (Z.eqb_neq (growing_memtable_idx lsm) (-1))) by lia. left. Qed.

Section index.
Context (array_size mcap d e cap : Z).
Let width := u64 (d * e).

(** Every slot of the buffer has its arrays, and a reference count that fits. *)
Definition buffer_ok (slots : list MemtableBufferSlot) : Prop :=
  forall i s, slots !! i = Some s -> slot_ok array_size mcap s /\ 0 <= mt_ref_count s < 2 ^ 32.

(** The memtable in [s] has the rows the view gives it. *)
Definition backed (v : view) (s : MemtableBufferSlot) : Prop :=
  0 < mt_ref_count s /\ capacity (slot_mt s) = cap /\ (dim (slot_mt s) = d /\ elem_size (slot_mt s) = e) /\
  exists rows, v !! memtable_id (slot_mt s) = Some rows /\ holds_rows (slot_mt s) rows.

(** The slots in [l] are the memtables of the view. *)
Record backs (l : list Z) (slots : list MemtableBufferSlot) (v : view) : Prop := {
  bk_buffer : buffer_ok slots;
  bk_nodup : NoDup l;
  bk_rows : forall i, i ∈ l -> exists s, slots !! i = Some s /\ backed v s;
  bk_ids : forall i j a, i ∈ l -> j ∈ l -> id_of slots i = Some a -> id_of slots j = Some a -> i = j;
  bk_view : forall sid, is_Some (v !! sid) -> exists i, i ∈ l /\ id_of slots i = Some sid }.

Record wired (lsm : LSMIndexData) (slots : list MemtableBufferSlot) : Prop := {
  wr_count : 0 <= memtable_count lsm <= MEMTABLE_NUM /\ zlen (memtable_idxs lsm) = MEMTABLE_NUM;
  wr_dims : lsm_dim lsm = d /\ lsm_elem_size lsm = e;
  wr_growing : growing_memtable_idx lsm = MT_IDX_INVALID \/ 0 <= growing_memtable_idx lsm /\ id_of slots (growing_memtable_idx lsm) = Some (growing_memtable_id lsm) }.

Definition shows (lsm : LSMIndexData) (slots : list MemtableBufferSlot) (v : view) : Prop := wired lsm slots /\ backs (known lsm) slots v.

Implicit Types (l : list Z) (slots : list MemtableBufferSlot) (v : view) (s : MemtableBufferSlot).

Lemma id_of_Some slots i a : id_of slots i = Some a <-> exists s, slots !! i = Some s /\ memtable_id (slot_mt s) = a.
Proof. unfold id_of. destruct (slots !! i) as [s|]; cbn; naive_solver. Qed.

Lemma backs_perm l l' slots v : l ≡ₚ l' -> backs l slots v -> backs l' slots v.
Proof.
  intros Hp [H1 H2 H3 H4 H5]. split; [done|by rewrite <-Hp| | |].
  - intros i Hi. apply H3. by rewrite Hp.
  - intros i j a Hi Hj. apply H4; by rewrite Hp.
  - intros sid Hs. destruct (H5 sid Hs) as (i & Hi & He). exists i. by rewrite <-Hp.
Qed.

(** The memtables keep their rows. *)
Lemma backs_frame l slots slots' v :
  buffer_ok slots' ->
  (forall i s, i ∈ l -> slots !! i = Some s -> exists s', slots' !! i = Some s' /\ 0 < mt_ref_count s' /\ same_rows (slot_mt s) (slot_mt s')) ->
  backs l slots v -> backs l slots' v.
Proof.
  intros Hb Hs [H1 H2 H3 H4 H5].
  assert (Hid : forall i, i ∈ l -> id_of slots' i = id_of slots i).
  { intros i Hi. destruct (H3 i Hi) as (s & Hsi & _). destruct (Hs i s Hi Hsi) as (s' & Hs' & _ & b & bm & Hm). unfold id_of. rewrite Hsi, Hs'. cbn. by rewrite Hm. }
  split; [done..| | |].
  - intros i Hi. destruct (H3 i Hi) as (s & Hsi & _ & Hc & Hw & rows & Hv & Hr). destruct (Hs i s Hi Hsi) as (s' & Hs' & Hpos & Hsame).
    exists s'. split; [done|]. split; [done|]. pose proof Hsame as (b & bm & Hm). rewrite Hm. split; [exact Hc|]. split; [exact Hw|]. exists rows. split; [exact Hv|].
    rewrite <-Hm. by eapply holds_same.
  - intros i j a Hi Hj. rewrite !Hid by done. by apply H4.
  - intros sid Hsid. destruct (H5 sid Hsid) as (i & Hi & He). exists i. by rewrite Hid.
Qed.

(** One more memtable. *)
Lemma backs_add l slots v i s sid :
  slots !! i = Some s -> memtable_id (slot_mt s) = sid -> v !! sid = None -> i ∉ l ->
  0 < mt_ref_count s -> capacity (slot_mt s) = cap -> dim (slot_mt s) = d /\ elem_size (slot_mt s) = e -> holds_rows (slot_mt s) ∅ ->
  backs l slots v -> backs (i :: l) slots (<[sid := ∅]> v).
Proof.
  intros Hs Hid Hv Hi Hpos Hc [Hd He] Hr [H1 H2 H3 H4 H5].
  assert (Hother : forall j, j ∈ l -> id_of slots j <> Some sid).
  { intros j Hj (sj & Hsj & Hidj)%id_of_Some. destruct (H3 j Hj) as (s' & Hs' & _ & _ & _ & rows & Hv' & _). rewrite Hsj in Hs'. injection Hs' as <-. congruence. }
  split; [done|by constructor| | |].
  - intros j [->|Hj]%elem_of_cons.
    + exists s. split; [done|]. split_and!; [done..|]. exists ∅. by rewrite Hid, lookup_insert_eq.
    + destruct (H3 j Hj) as (s' & Hs' & Hp' & Hc' & [Hd' He'] & rows & Hv' & Hr'). exists s'. split; [done|]. split_and!; [done..|]. exists rows.
      rewrite lookup_insert_ne; [done|]. intros Heq. rewrite <-Heq in Hv'. congruence.
  - assert (Hnew : id_of slots i = Some sid) by (apply id_of_Some; by exists s).
    intros j k a [->|Hj]%elem_of_cons [->|Hk]%elem_of_cons Ha Hb; [done| | |by eapply H4].
    + exfalso. apply (Hother k Hk). congruence.
    + exfalso. apply (Hother j Hj). congruence.
  - intros sid' Hs'. destruct (decide (sid = sid')) as [->|Hne].
    + exists i. split; [left|]. apply id_of_Some. by exists s.
    + rewrite lookup_insert_ne in Hs' by done. destruct (H5 _ Hs') as (j & Hj & Hje). exists j. split; [by right|done].
Qed.

(** New rows for one memtable. *)
Lemma backs_row l slots v i s mt rows :
  i ∈ l -> slots !! i = Some s -> memtable_id mt = memtable_id (slot_mt s) -> capacity mt = cap -> dim mt = d /\ elem_size mt = e ->
  slot_ok array_size mcap (mkBufferSlot 0 mt) -> holds_rows mt rows ->
  backs l slots v -> backs l (<[i := s <| slot_mt := mt |>]> slots) (<[memtable_id mt := rows]> v).
Proof.
  intros Hi Hs Hid Hc [Hd He] Hok Hr [H1 H2 H3 H4 H5].
  assert (Hids : forall j, id_of (<[i := s <| slot_mt := mt |>]> slots) j = id_of slots j).
  { intros j. unfold id_of. destruct (decide (i = j)) as [<-|Hne]; [|by rewrite zlookup_insert_ne]. rewrite (zlookup_insert_eq _ _ _ _ Hs), Hs. cbn. by rewrite Hid. }
  split; [|done| | |].
  - intros j sj. destruct (decide (i = j)) as [<-|Hne]; [|rewrite zlookup_insert_ne by done; apply H1].
    rewrite (zlookup_insert_eq _ _ _ _ Hs). intros [= <-]. split; [exact Hok|]. by apply (H1 i s).
  - intros j Hj. destruct (decide (i = j)) as [<-|Hne].
    + exists (s <| slot_mt := mt |>). split; [by eapply zlookup_insert_eq|]. destruct (H3 i Hi) as (s' & Hs' & Hpos & _). rewrite Hs in Hs'. injection Hs' as <-.
      split; [exact Hpos|]. split; [done|]. split; [done|]. exists rows. split; [|done]. change (slot_mt (s <| slot_mt := mt |>)) with mt. apply lookup_insert_eq.
    + destruct (H3 j Hj) as (sj & Hsj & Hp' & Hc' & [Hd' He'] & rows' & Hv' & Hr'). exists sj. rewrite zlookup_insert_ne by done. split; [done|]. split_and!; [done..|].
      exists rows'. rewrite lookup_insert_ne; [done|]. intros Heq. apply Hne. apply (H4 i j (memtable_id (slot_mt sj))); [done..| |]; apply id_of_Some; eexists; split; try done. congruence.
  - intros j k a. rewrite !Hids. by apply H4.
  - intros sid Hsid. setoid_rewrite Hids. apply H5. destruct (decide (memtable_id mt = sid)) as [<-|Hne]; [|by rewrite lookup_insert_ne in Hsid].
    destruct (H3 i Hi) as (s' & Hs' & _ & _ & _ & rows' & Hv' & _). rewrite Hs in Hs'. injection Hs' as <-. rewrite Hid. by eexists.
Qed.

(** Fewer memtables. *)
Lemma backs_drop l slots slots' v (keep : Z -> bool) (kept : Z -> Prop) `{!forall i, Decision (kept i)} :
  backs l slots v -> buffer_ok slots' ->
  (forall i s, i ∈ l -> slots !! i = Some s -> (kept i <-> keep (memtable_id (slot_mt s)) = true) /\
     exists s', slots' !! i = Some s' /\ slot_mt s' = slot_mt s /\ (kept i -> 0 < mt_ref_count s')) ->
  backs (filter kept l) slots' (filter (fun p => keep p.1 = true) v).
Proof.
  intros [H1 H2 H3 H4 H5] Hb Hs.
  assert (Hid : forall i, i ∈ l -> id_of slots' i = id_of slots i).
  { intros i Hi. destruct (H3 i Hi) as (s & Hsi & _). destruct (Hs i s Hi Hsi) as (_ & s' & Hs' & Hm & _). unfold id_of. rewrite Hsi, Hs'. cbn. by rewrite Hm. }
  split; [done|by apply NoDup_filter| | |].
  - intros i [Hk Hi]%list_elem_of_filter. destruct (H3 i Hi) as (s & Hsi & _ & Hc & Hw & rows & Hv & Hr). destruct (Hs i s Hi Hsi) as (Hkeep & s' & Hs' & Hm & Hpos).
    exists s'. split; [done|]. split; [by apply Hpos|]. rewrite Hm. split; [done|]. split; [done|]. exists rows. split; [|done].
    apply map_lookup_filter_Some. split; [done|]. cbn. by apply Hkeep.
  - intros i j a [_ Hi]%list_elem_of_filter [_ Hj]%list_elem_of_filter. rewrite !Hid by done. by apply H4.
  - intros sid [rows [Hv Hk]%map_lookup_filter_Some]. destruct (H5 sid ltac:(by eexists)) as (i & Hi & He). exists i. rewrite Hid by done. split; [|done].
    apply list_elem_of_filter. split; [|done]. destruct (H3 i Hi) as (s & Hsi & _). destruct (Hs i s Hi Hsi) as (Hkeep & _). apply Hkeep.
    apply id_of_Some in He as (s' & Hs' & Hm). rewrite Hsi in Hs'. injection Hs' as <-. by rewrite Hm.
Qed.

(** *** Finding a memtable *)

Lemma find_queued_ok slots idxs sid :
  (forall i, i ∈ idxs -> is_Some (slots !! i)) ->
  exists o, Standby.find_queued slots idxs sid = Ok o /\
    match o with Some i => i ∈ idxs /\ id_of slots i = Some sid | None => forall i, i ∈ idxs -> id_of slots i <> Some sid end.
Proof.
  induction idxs as [|i idxs IH]; intros Hs; [exists None; split; [done|]; by intros i ?%elem_of_nil|].
  destruct (Hs i) as [s Hsi]; [left|]. cbn [Standby.find_queued]. run. destruct (Z.eqb_spec (memtable_id (slot_mt s)) sid) as [He|Hne].
  - exists (Some i). split; [done|]. split; [left|]. apply id_of_Some. by exists s.
  - destruct IH as (o & -> & Ho); [intros j Hj; apply Hs; by right|]. exists o. split; [done|]. destruct o as [j|].
    + destruct Ho. split; [by right|done].
    + intros j [->|Hj]%elem_of_cons; [|by apply Ho]. intros (s' & Hs' & He)%id_of_Some. rewrite Hsi in Hs'. injection Hs' as <-. done.
Qed.

Lemma find_ok lsm slots v sid : shows lsm slots v ->
  exists o, Standby.find_memtable_by_sid lsm slots sid = Ok o /\
    match o with
    | Some i => i ∈ known lsm /\ exists s rows, slots !! i = Some s /\ memtable_id (slot_mt s) = sid /\ v !! sid = Some rows /\ holds_rows (slot_mt s) rows
    | None => v !! sid = None
    end.
Proof.
  intros [[Hcnt _ Hgrow] [H1 H2 H3 H4 H5]]. set (g := growing_memtable_idx lsm) in *.
  assert (Hfound : forall i, i ∈ known lsm -> id_of slots i = Some sid ->
    i ∈ known lsm /\ exists s rows, slots !! i = Some s /\ memtable_id (slot_mt s) = sid /\ v !! sid = Some rows /\ holds_rows (slot_mt s) rows).
  { intros i Hi (s & Hsi & He)%id_of_Some. split; [done|]. destruct (H3 i Hi) as (s' & Hs' & _ & _ & _ & rows & Hv & Hr). rewrite Hsi in Hs'. injection Hs' as <-.
    exists s, rows. by rewrite <-He. }
  assert (Hnone : (forall i, i ∈ known lsm -> id_of slots i <> Some sid) -> v !! sid = None).
  { intros Hn. apply eq_None_not_Some. intros (i & Hi & He)%H5. by apply (Hn i). }
  destruct (find_queued_ok slots (queue lsm) sid) as (o & Hq & Ho).
  { intros i Hi. destruct (H3 i) as (s & Hsi & _); [unfold known; set_solver|by eexists]. }
  unfold Standby.find_memtable_by_sid. fold g.
  assert (Hrest : (g = MT_IDX_INVALID \/ id_of slots g <> Some sid) -> exists o, Standby.find_queued slots (queue lsm) sid = Ok o /\
    match o with
    | Some i => i ∈ known lsm /\ exists s rows, slots !! i = Some s /\ memtable_id (slot_mt s) = sid /\ v !! sid = Some rows /\ holds_rows (slot_mt s) rows
    | None => v !! sid = None
    end).
  { intros Hg. exists o. split; [done|]. destruct o as [i|].
    - destruct Ho as [Hi He]. apply Hfound; [unfold known; set_solver|done].
    - apply Hnone. unfold known. fold g. intros i [Hi|Hi]%elem_of_app; [|by apply Ho]. destruct (Z.eqb_spec g MT_IDX_INVALID); [by apply elem_of_nil in Hi|].
      apply list_elem_of_singleton in Hi as ->. by destruct Hg. }
  destruct Hgrow as [Hg|[Hg0 Hgid]].
  - rewrite Hg. cbn [Z.eqb orb mbind res_bind]. rewrite Hg in Hrest. cbn. apply Hrest. by left.
  - unfold MT_IDX_INVALID, MT_IDX_ROTATING in *. rewrite (proj2 (Z.eqb_neq g (-1))), (proj2 (Z.eqb_neq g (-2))) by lia. cbn [orb].
    pose proof Hgid as (s & Hsg & Hid)%id_of_Some. run. destruct (Z.eqb_spec (memtable_id (slot_mt s)) sid) as [He|Hne].
    + exists (Some g). split; [done|]. apply Hfound; [by apply growing_known|by rewrite Hgid; congruence].
    + apply Hrest. right. rewrite Hgid. congruence.
Qed.

(** *** Replaying a row *)

Lemma add_ok {B} `{BlockId B} lsm slots v sid i (tid : ItemPointerData B) x : shows lsm slots v -> 0 <= i ->
  exists slots', Standby.dpv_standby_add_to_memtable lsm slots sid i tid x = Ok slots' /\
    shows lsm slots' (if (i <? cap) && (zlen x =? width) then alter (insert i (ItemPointerToInt64 tid, x)) sid v else v).
Proof.
  intros Hsh Hi. destruct (find_ok lsm slots v sid Hsh) as (o & Ho & Hcase). unfold Standby.dpv_standby_add_to_memtable. rewrite Ho. cbn [mbind res_bind].
  destruct o as [k|].
  2: { exists slots. split; [done|]. destruct (_ && _); [|done]. rewrite (proj2 (map_eq_iff _ v)); [done|]. intros a. destruct (decide (sid = a)) as [<-|];
       [by rewrite lookup_alter_eq, Hcase|by rewrite lookup_alter_ne]. }
  destruct Hcase as (Hk & s & rows & Hs & Hid & Hv & Hr). pose proof Hsh as [Hw Hb]. run.
  destruct (add_row_ok (slot_mt s) rows i (ItemPointerToInt64 tid) x Hr Hi) as (mt' & -> & Hid' & Hrows & Hc' & Hw' & Hz1 & Hz2 & Hz3). cbn [mbind res_bind].
  eexists. split; [done|]. destruct (bk_rows _ _ _ Hb k Hk) as (s' & Hs' & _ & Hc & [Hd He] & _). rewrite Hs in Hs'. injection Hs' as <-.
  assert (Hwd : VEC_BYTES_PER_ROW (slot_mt s) = width) by (unfold VEC_BYTES_PER_ROW; by rewrite Hd, He). rewrite Hc, Hwd in Hrows. rewrite Hd, He in Hw'.
  assert (Hids : forall j, id_of (<[k := s <| slot_mt := mt' |>]> slots) j = id_of slots j).
  { intros j. unfold id_of. destruct (decide (k = j)) as [<-|Hne]; [|by rewrite zlookup_insert_ne]. rewrite (zlookup_insert_eq _ _ _ _ Hs), Hs. cbn. by rewrite Hid'. }
  split. { destruct Hw as [Hw1 Hw2 Hw3]. split; [done..|]. by rewrite Hids. }
  destruct (bk_buffer _ _ _ Hb k s Hs) as [[Hk1 Hk2] _].
  assert (Hstep : forall rows', holds_rows mt' rows' -> backs (known lsm) (<[k := s <| slot_mt := mt' |>]> slots) (<[memtable_id mt' := rows']> v)).
  { intros rows' Hr'. apply backs_row; try done; [congruence..|]. unfold slot_ok. cbn. by rewrite Hz1, Hz2, Hz3. }
  destruct ((i <? cap) && (zlen x =? width)).
  - destruct Hrows as [Hrows _]. specialize (Hstep _ Hrows). rewrite Hid', Hid in Hstep. replace (alter (insert i (ItemPointerToInt64 tid, x)) sid v) with (<[sid := <[i := (ItemPointerToInt64 tid, x)]> rows]> v); [done|].
    apply map_eq. intros a. destruct (decide (sid = a)) as [<-|]; [by rewrite lookup_alter_eq, lookup_insert_eq, Hv|by rewrite lookup_alter_ne, lookup_insert_ne].
  - subst mt'. specialize (Hstep rows Hr). by rewrite Hid, insert_id in Hstep.
Qed.
(** *** Registering a memtable *)

Lemma queue_sealed_ok lsm i : 0 <= memtable_count lsm < MEMTABLE_NUM -> zlen (memtable_idxs lsm) = MEMTABLE_NUM ->
  exists lsm', Standby.queue_sealed lsm i = Ok lsm' /\ queue lsm' = queue lsm ++ [i] /\ memtable_count lsm' = memtable_count lsm + 1 /\
    zlen (memtable_idxs lsm') = MEMTABLE_NUM /\ growing_memtable_idx lsm' = growing_memtable_idx lsm /\ growing_memtable_id lsm' = growing_memtable_id lsm /\
    lsm_dim lsm' = lsm_dim lsm /\ lsm_elem_size lsm' = lsm_elem_size lsm.
Proof.
  intros Hc Hz. destruct (zlookup_lt_is_Some (memtable_idxs lsm) (memtable_count lsm)) as [y Hy]; [lia|].
  unfold Standby.queue_sealed. zcase; [|lia]. rewrite (arr_set_Some _ _ _ _ Hy). cbn [mbind res_bind]. eexists. split; [done|].
  destruct (enqueue_inv lsm i (lsm <| memtable_idxs := <[memtable_count lsm := i]> (memtable_idxs lsm) |> <| memtable_count ::= fun c => c + 1 |>)) as (Hq & _ & _ & Hz' & _);
    [lia|done|unfold Buffer.enqueue_sealed_memtable; rewrite (proj2 (Z.ltb_lt _ _)) by lia; by rewrite (arr_set_Some _ _ _ _ Hy)|]. done.
Qed.

Lemma seal_ok slots i s : slots !! i = Some s -> buffer_ok slots ->
  exists slots', Standby.seal slots i = Ok slots' /\ buffer_ok slots' /\
    forall j sj, slots !! j = Some sj -> exists sj', slots' !! j = Some sj' /\ mt_ref_count sj' = mt_ref_count sj /\ same_rows (slot_mt sj) (slot_mt sj').
Proof.
  intros Hs Hb. unfold Standby.seal. rewrite (arr_upd_Some _ _ _ _ Hs). eexists. split; [done|]. split.
  - intros j sj. destruct (decide (i = j)) as [<-|Hne]; [|rewrite zlookup_insert_ne by done; apply Hb]. rewrite (zlookup_insert_eq _ _ _ _ Hs). intros [= <-]. exact (Hb i s Hs).
  - intros j sj Hsj. destruct (decide (i = j)) as [<-|Hne].
    + rewrite Hs in Hsj. injection Hsj as <-. eexists. split; [by eapply zlookup_insert_eq|]. split; [done|]. exists true, (mt_bitmap (slot_mt s)). unfold update; cbn. by destruct (slot_mt s).
    + exists sj. rewrite zlookup_insert_ne by done. split; [done|]. split; [done|]. apply same_rows_refl.
Qed.

Lemma sealed_backs l slots slots' v : buffer_ok slots' ->
  (forall j sj, slots !! j = Some sj -> exists sj', slots' !! j = Some sj' /\ mt_ref_count sj' = mt_ref_count sj /\ same_rows (slot_mt sj) (slot_mt sj')) ->
  backs l slots v -> backs l slots' v /\ forall j, is_Some (slots !! j) -> id_of slots' j = id_of slots j.
Proof.
  intros Hb Hs Hl. split.
  - eapply backs_frame; [done| |exact Hl]. intros i s Hi Hsi. destruct (Hs i s Hsi) as (s' & Hs' & Href & Hsame). exists s'. rewrite Href. split; [done|]. split; [|done].
    destruct (bk_rows _ _ _ Hl i Hi) as (s0 & Hs0 & Hpos & _). congruence.
  - intros j [sj Hsj]. destruct (Hs j sj Hsj) as (sj' & Hsj' & _ & b & bm & Hm). unfold id_of. rewrite Hsj, Hsj'. cbn. by rewrite Hm.
Qed.

Lemma known_growing lsm i sid : 0 <= i -> known (lsm <| growing_memtable_idx := i |> <| growing_memtable_id := sid |>) = i :: queue lsm.
Proof.
  intros Hi. change (known (lsm <| growing_memtable_idx := i |> <| growing_memtable_id := sid |>)) with ((if i =? MT_IDX_INVALID then [] else [i]) ++ queue lsm).
  unfold MT_IDX_INVALID. by rewrite (proj2 (Z.eqb_neq i (-1))) by lia.
Qed.

(** Wiring the memtable in slot [i], which is not known yet. *)
Lemma wire_ok lsm slots v i s sid :
  wired lsm slots -> memtable_count lsm < MEMTABLE_NUM -> slots !! i = Some s -> memtable_id (slot_mt s) = sid ->
  backs (i :: known lsm) slots v ->
  exists lsm' slots', Standby.wire lsm slots i sid = Ok (lsm', slots') /\ shows lsm' slots' v.
Proof.
  intros [[Hc Hz] [Hd He] Hg] Hroom Hs Hid Hb. pose proof (bk_buffer _ _ _ Hb) as Hbuf. set (g := growing_memtable_idx lsm) in *. unfold Standby.wire. fold g.
  assert (Hi : 0 <= i) by (apply zlookup_lt_Some in Hs; lia).
  assert (Hkn : known lsm = (if g =? MT_IDX_INVALID then [] else [g]) ++ queue lsm) by done.
  destruct Hg as [Hg|[Hg0 Hgid]].
  - rewrite Hkn, Hg in *. change (MT_IDX_INVALID =? MT_IDX_INVALID) with true in *. cbn [app] in Hb. rewrite orb_true_r. cbn [orb mbind res_bind]. eexists _, _. split; [done|]. split; [split|].
    + done.
    + done.
    + right. split; [done|]. apply id_of_Some. by exists s.
    + by rewrite known_growing by done.
  - assert (Hgne : (g =? MT_IDX_INVALID) = false /\ (g =? MT_IDX_ROTATING) = false) by (unfold MT_IDX_INVALID, MT_IDX_ROTATING; split; apply Z.eqb_neq; lia).
    destruct Hgne as [E1 E2]. rewrite E1, E2 in *. rewrite orb_false_r. cbn [orb app] in *. rewrite Hkn in Hb.
    pose proof Hgid as (sg & Hsg & _)%id_of_Some. destruct (Z.ltb_spec (growing_memtable_id lsm) sid) as [Hlt|Hge].
    + destruct (seal_ok slots g sg Hsg Hbuf) as (slots' & -> & Hbuf' & Hsame). cbn [mbind res_bind].
      destruct (queue_sealed_ok lsm g ltac:(lia) Hz) as (lsm' & -> & Hq & Hc' & Hz' & _ & _ & Hd' & He'). cbn [mbind res_bind].
      destruct (sealed_backs _ _ _ _ Hbuf' Hsame Hb) as [Hb' Hids]. eexists _, _. split; [done|]. split; [split|].
      * change (0 <= memtable_count lsm' <= MEMTABLE_NUM /\ zlen (memtable_idxs lsm') = MEMTABLE_NUM). lia.
      * change (lsm_dim lsm' = d /\ lsm_elem_size lsm' = e). by rewrite Hd', He'.
      * right. change (0 <= i /\ id_of slots' i = Some sid). split; [done|]. rewrite Hids by (by eexists). apply id_of_Some. by exists s.
      * eapply backs_perm; [|exact Hb']. rewrite known_growing, Hq by done. apply perm_skip. apply Permutation_cons_append.
    + destruct (seal_ok slots i s Hs Hbuf) as (slots' & -> & Hbuf' & Hsame). cbn [mbind res_bind].
      destruct (queue_sealed_ok lsm i ltac:(lia) Hz) as (lsm' & -> & Hq & Hc' & Hz' & Hg' & Hgid' & Hd' & He'). cbn [mbind res_bind].
      destruct (sealed_backs _ _ _ _ Hbuf' Hsame Hb) as [Hb' Hids]. eexists _, _. split; [done|]. split; [split|].
      * lia.
      * by rewrite Hd', He'.
      * right. rewrite Hg', Hgid'. fold g. split; [done|]. by rewrite Hids by (by eexists).
      * eapply backs_perm; [|exact Hb']. unfold known. rewrite Hg', Hq. fold g. rewrite E1. cbn [app]. etrans; [apply perm_swap|]. apply perm_skip. apply Permutation_cons_append.
Qed.

Section fresh.
Context (Hsizes : 0 <= array_size /\ 0 <= mcap <= MEMTABLE_MAX_CAPACITY) (H8 : (8 | width)) (Hcap : memtable_cap array_size mcap width = Ok cap).

(** The memtable set up in a free slot. *)
Lemma free_slot_fresh lsm slots sid : 0 < free_slots slots -> lsm_dim lsm = d /\ lsm_elem_size lsm = e -> buffer_ok slots ->
  exists i s mt0, slots !! i = Some s /\ mt_ref_count s = 0 /\ 0 <= i /\
    Buffer.register_and_set_memtable array_size mcap lsm slots true sid = Ok (i, lsm, <[i := mkBufferSlot 1 mt0]> slots) /\
    memtable_id mt0 = sid /\ capacity mt0 = cap /\ (dim mt0 = d /\ elem_size mt0 = e) /\ holds_rows mt0 ∅ /\ buffer_ok (<[i := mkBufferSlot 1 mt0]> slots).
Proof.
  intros Hfree [Hd He] Hb. assert (Hwz : width <> 0). { unfold memtable_cap in Hcap. by destruct (Z.eqb_spec width 0). }
  destruct (register_for_recovery array_size mcap lsm slots sid Hfree) as (i & s & mt0 & Hs & Hz & Hm & Hr); [by rewrite Hd, He|].
  exists i, s, mt0. pose proof (zlookup_lt_Some _ _ _ Hs) as Hi. rewrite Hd, He in Hm.
  destruct (set_memtable_fields _ _ _ _ _ _ _ _ Hm) as (Fid & Fs & _ & Fd & Fe & _ & Fc). fold width in Fc. rewrite Hcap in Fc. injection Fc as Fc.
  assert (Fw : VEC_BYTES_PER_ROW mt0 = width) by (unfold VEC_BYTES_PER_ROW; by rewrite Fd, Fe).
  destruct (Hb i s Hs) as [(Hk1 & Hk2 & Hk3) _].
  assert (Hup : set_up array_size mcap mt0) by (exists (slot_mt s), (indexRelId lsm), sid, d, e; split_and!; done || lia).
  assert (Hfresh : holds_rows mt0 ∅) by (eapply fresh_holds; [exact Hup|by rewrite Fw|done]).
  split_and!; try done; [lia|]. intros j sj. destruct (decide (i = j)) as [<-|Hne]; [|rewrite zlookup_insert_ne by done; apply Hb].
  rewrite (zlookup_insert_eq _ _ _ _ Hs). intros [= <-]. split; [|cbn; lia]. unfold slot_ok. cbn. unfold set_memtable in Hm. cbn in Hm.
  destruct (memtable_cap _ _ _) as [c|]; [|done]. cbn in Hm. injection Hm as <-. split; [exact Hk1|]. split; [|exact Hk3].
  cbn. unfold mem_clear. rewrite zlen_app. unfold zlen in *. rewrite length_replicate, length_drop. lia.
Qed.

Lemma register_ok lsm slots v sid : shows lsm slots v -> memtable_count lsm < MEMTABLE_NUM -> 0 < free_slots slots ->
  exists lsm' slots', Standby.dpv_standby_register_memtable array_size mcap lsm slots sid = Ok (lsm', slots') /\
    shows lsm' slots' (if decide (is_Some (v !! sid)) then v else <[sid := ∅]> v).
Proof.
  intros Hsh Hroom Hfree. destruct (find_ok lsm slots v sid Hsh) as (o & Ho & Hcase). unfold Standby.dpv_standby_register_memtable. rewrite Ho. cbn [mbind res_bind].
  destruct o as [k|].
  { destruct Hcase as (_ & s & rows & _ & _ & Hv & _). rewrite decide_True by (by eexists). by eexists _, _. }
  rewrite Hcase, decide_False by (by intros [? ?]). pose proof Hsh as [Hw Hb].
  destruct (free_slot_fresh lsm slots sid Hfree (wr_dims _ _ Hw) (bk_buffer _ _ _ Hb)) as (i & s & mt0 & Hs & Hz & Hi & -> & Fid & Fc & Fde & Hfresh & Hbuf').
  cbn [mbind res_bind]. zcase; [lia|].
  assert (Hnot : i ∉ known lsm). { intros Hi'. destruct (bk_rows _ _ _ Hb i Hi') as (s' & Hs' & Hpos & _). rewrite Hs in Hs'. injection Hs' as <-. lia. }
  set (slots' := <[i := mkBufferSlot 1 mt0]> slots) in *.
  assert (Hb' : backs (i :: known lsm) slots' (<[sid := ∅]> v)).
  { eapply (backs_add _ _ _ _ (mkBufferSlot 1 mt0)); try done; [by eapply zlookup_insert_eq|].
    eapply backs_frame; [done| |exact Hb]. intros j sj Hj Hsj. exists sj. unfold slots'. rewrite zlookup_insert_ne by (intros ->; done). split; [done|]. split; [|apply same_rows_refl].
    destruct (bk_rows _ _ _ Hb j Hj) as (s0 & Hs0 & Hpos & _). congruence. }
  eapply wire_ok; [|done|by eapply zlookup_insert_eq|done|exact Hb'].
  destruct Hw as [Hw1 Hw2 Hw3]. split; [done..|]. destruct Hw3 as [|[Hg0 Hgid]]; [by left|]. right. split; [done|].
  unfold id_of, slots'. rewrite zlookup_insert_ne; [done|]. intros ->. by apply Hnot, growing_known.
Qed.

End fresh.

(** *** Letting memtables go *)

(** Memtables whose rows are in a segment. *)
Definition covered (slots : list MemtableBufferSlot) (start_sid end_sid i : Z) : Prop :=
  match id_of slots i with Some sid => Standby.covers_sid start_sid end_sid sid = true | None => False end.
#[global] Instance covered_dec slots start_sid end_sid i : Decision (covered slots start_sid end_sid i).
Proof. unfold covered. destruct (id_of slots i); apply _. Defined.

Section release.
Context (start_sid end_sid : Z) (slots : list MemtableBufferSlot).
Abbreviation gone := (covered slots start_sid end_sid).
Abbreviation left := (fun i => ~ gone i).
Definition drop_refs (l : list Z) : list MemtableBufferSlot := add_refs slots (fun i => - cnt i l).

Lemma drop_refs_snoc l i s : slots !! i = Some s -> ref_add (drop_refs l) i (-1) = Ok (drop_refs (l ++ [i])).
Proof.
  intros Hs. unfold drop_refs. rewrite (ref_add_refs _ _ _ _ _ Hs). f_equal. apply add_refs_ext. intros j. rewrite cnt_snoc.
  destruct (Z.eqb_spec i j), (decide (i = j)); cbn; (done || lia).
Qed.

Lemma drop_refs_slot l i s : slots !! i = Some s -> exists s', drop_refs l !! i = Some s' /\ slot_mt s' = slot_mt s /\ mt_ref_count s' = u32 (mt_ref_count s - cnt i l).
Proof. intros Hs. unfold drop_refs. rewrite add_refs_lookup, Hs. eexists. split; [done|]. done. Qed.

(** The loop over the queue compacts it and drops one reference each. *)
Lemma release_loop idxs n :
  0 <= n <= zlen idxs -> (forall i, i ∈ take (Z.to_nat n) idxs -> 0 <= i /\ is_Some (slots !! i)) ->
  exists idxs', foldl_res (Standby.release_queued start_sid end_sid) (0, idxs, drop_refs []) (seqZ 0 n) =
      Ok (zlen (filter left (take (Z.to_nat n) idxs)), idxs', drop_refs (filter gone (take (Z.to_nat n) idxs))) /\
    zlen idxs' = zlen idxs /\ take (Z.to_nat (zlen (filter left (take (Z.to_nat n) idxs)))) idxs' = filter left (take (Z.to_nat n) idxs).
Proof.
  intros Hn Hin. set (P := fun (k : Z) (st : Z * list Z * list MemtableBufferSlot) =>
    exists idxs', st = (zlen (filter left (take (Z.to_nat k) idxs)), idxs', drop_refs (filter gone (take (Z.to_nat k) idxs))) /\
      zlen idxs' = zlen idxs /\ take (Z.to_nat (zlen (filter left (take (Z.to_nat k) idxs)))) idxs' = filter left (take (Z.to_nat k) idxs) /\
      (forall j, k <= j -> idxs' !! j = idxs !! j) /\ zlen (filter left (take (Z.to_nat k) idxs)) <= k).
  destruct (for_loop P (Standby.release_queued start_sid end_sid) (0, idxs, drop_refs []) n) as (st & Hst & idxs' & -> & Hz & Ht & _).
  - lia.
  - exists idxs. cbn. done.
  - intros k st Hk (idxs' & -> & Hz & Ht & Hrest & Hle). destruct (zlookup_lt_is_Some idxs k) as [i Hi]; [lia|].
    assert (Hi' : idxs' !! k = Some i) by (by rewrite Hrest by lia).
    destruct (Hin i) as [Hi0 [s Hs]].
    { assert (Ht' : take (Z.to_nat n) idxs !! k = Some i) by (by rewrite zlookup_take). unfold lookup, zlist_lookup in Ht'. rewrite decide_True in Ht' by lia. by eapply list_elem_of_lookup_2. }
    destruct (drop_refs_slot (filter gone (take (Z.to_nat k) idxs)) i s Hs) as (s' & Hs' & Hm & _).
    unfold Standby.release_queued, P. run. zcase; [lia|]. run. rewrite Hm. rewrite (take_zsnoc _ _ _ Hi), !filter_app, !filter_cons, !filter_nil.
    assert (Hgone : gone i <-> Standby.covers_sid start_sid end_sid (memtable_id (slot_mt s)) = true) by (unfold covered, id_of; by rewrite Hs).
    destruct (Standby.covers_sid start_sid end_sid (memtable_id (slot_mt s))).
    + rewrite (drop_refs_snoc _ _ _ Hs). cbn [mbind res_bind]. rewrite (decide_True (P := gone i)) by (by apply Hgone). rewrite decide_False by (intros Hl; by apply Hl, Hgone).
      rewrite app_nil_r. eexists. split; [done|]. exists idxs'. split; [done|]. split; [done|]. split; [done|]. split; [intros j Hj; apply Hrest; lia|lia].
    + rewrite (decide_False (P := gone i)) by (intros Hg; by apply Hgone in Hg). rewrite decide_True by (intros Hg; by apply Hgone in Hg).
      set (m := zlen (filter left (take (Z.to_nat k) idxs))) in *. pose proof (zlen_nonneg (filter left (take (Z.to_nat k) idxs))). fold m in H.
      destruct (zlookup_lt_is_Some idxs' m) as [y Hy]; [lia|]. run. eexists. split; [done|]. exists (<[m := i]> idxs').
      rewrite app_nil_r, zlen_app, zlen_insert. change (zlen [i]) with 1. fold m. split; [done|]. split; [done|]. split; [|split; [|lia]].
      * rewrite (take_zsnoc _ _ i) by (by eapply zlookup_insert_eq). f_equal. unfold insert, zlist_insert. rewrite decide_True by lia. by rewrite take_insert_ge by lia.
      * intros j Hj. rewrite zlookup_insert_ne by lia. apply Hrest. lia.
  - exists idxs'. done.
Qed.

Lemma drop_refs_nil : buffer_ok slots -> drop_refs [] = slots.
Proof.
  intros Hb. unfold drop_refs. rewrite (add_refs_ext _ _ (fun _ => 0)) by done. apply add_refs_zero. apply Forall_forall.
  intros s [i Hs]%elem_of_zlookup. by apply Hb in Hs as [_ ?].
Qed.

(** The index lets go of the covered memtables, and of nothing else. *)
Lemma release_known lsm v : shows lsm slots v ->
  exists lsm', Standby.fetcher_release_covered_memtables lsm slots start_sid end_sid = Ok (lsm', drop_refs (filter gone (known lsm))) /\
    known lsm' = filter left (known lsm) /\ queue lsm' = filter left (queue lsm) /\
    0 <= memtable_count lsm' <= memtable_count lsm /\ zlen (memtable_idxs lsm') = zlen (memtable_idxs lsm) /\
    lsm_dim lsm' = lsm_dim lsm /\ lsm_elem_size lsm' = lsm_elem_size lsm /\
    (growing_memtable_idx lsm' = MT_IDX_INVALID \/
     growing_memtable_idx lsm' = growing_memtable_idx lsm /\ growing_memtable_id lsm' = growing_memtable_id lsm).
Proof.
  intros [[[Hc Hz] _ Hg] Hb]. pose proof (drop_refs_nil (bk_buffer _ _ _ Hb)) as Hnil.
  destruct (release_loop (memtable_idxs lsm) (memtable_count lsm)) as (idxs' & Hl & Hz' & Ht).
  { unfold MEMTABLE_NUM in *. lia. }
  { intros i Hi. fold (queue lsm) in Hi. destruct (bk_rows _ _ _ Hb i) as (s & Hs & _); [unfold known; set_solver|].
    split; [apply zlookup_lt_Some in Hs; lia|by eexists]. }
  fold (queue lsm) in *. rewrite Hnil in Hl. unfold Standby.fetcher_release_covered_memtables. rewrite Hl. cbn [mbind res_bind].
  set (m := zlen (filter left (queue lsm))) in *. set (lsm1 := lsm <| memtable_idxs := idxs' |> <| memtable_count := m |>). set (g := growing_memtable_idx lsm) in *.
  change (growing_memtable_idx lsm1) with g. assert (Hq1 : queue lsm1 = filter left (queue lsm)) by exact Ht.
  assert (Hm : 0 <= m <= memtable_count lsm).
  { subst m. pose proof (length_filter left (queue lsm)) as Hf. unfold queue at 2 in Hf. rewrite length_take in Hf. unfold zlen. lia. }
  destruct Hg as [Hg|[Hg0 Hgid]].
  - rewrite Hg. change (MT_IDX_INVALID =? MT_IDX_INVALID) with true. cbn [orb]. exists lsm1. unfold known. fold g. change (growing_memtable_idx lsm1) with g. rewrite Hg, Hq1.
    change (MT_IDX_INVALID =? MT_IDX_INVALID) with true. cbn [app]. split; [done|]. split; [done|]. split; [done|]. split; [exact Hm|]. split; [exact Hz'|]. split; [done|]. split; [done|]. by left.
  - unfold MT_IDX_INVALID, MT_IDX_ROTATING in *. rewrite (proj2 (Z.eqb_neq g (-1))), (proj2 (Z.eqb_neq g (-2))) by lia. cbn [orb].
    pose proof Hgid as (s & Hs & Hid)%id_of_Some. destruct (drop_refs_slot (filter gone (queue lsm)) g s Hs) as (s' & Hs' & Hms & _). run. rewrite Hms.
    assert (Hkn : known lsm = g :: queue lsm) by (unfold known, MT_IDX_INVALID; fold g; by rewrite (proj2 (Z.eqb_neq g (-1))) by lia).
    assert (Hgone : gone g <-> Standby.covers_sid start_sid end_sid (memtable_id (slot_mt s)) = true) by (unfold covered, id_of; by rewrite Hs).
    rewrite Hkn, !filter_cons. destruct (Standby.covers_sid start_sid end_sid (memtable_id (slot_mt s))).
    + rewrite (drop_refs_snoc _ _ _ Hs). cbn [mbind res_bind]. rewrite (decide_True (P := gone g)) by (by apply Hgone).
      rewrite decide_False by (intros Hlf; by apply Hlf, Hgone). exists (lsm1 <| growing_memtable_idx := -1 |> <| growing_memtable_id := 0 |>). split.
      * do 2 f_equal. apply add_refs_ext. intros j. rewrite cnt_app, !cnt_cons. change (cnt j []) with 0. lia.
      * split; [exact Hq1|]. split; [exact Hq1|]. split; [exact Hm|]. split; [exact Hz'|]. split; [done|]. split; [done|]. by left.
    + rewrite (decide_False (P := gone g)) by (intros Hx; by apply Hgone in Hx). rewrite decide_True by (intros Hx; by apply Hgone in Hx).
      exists lsm1. split; [done|]. split; [unfold known, MT_IDX_INVALID; change (growing_memtable_idx lsm1) with g; rewrite (proj2 (Z.eqb_neq g (-1))) by lia; by rewrite Hq1|].
      split; [exact Hq1|]. split; [exact Hm|]. split; [exact Hz'|]. split; [done|]. split; [done|]. by right.
Qed.

Lemma cnt_mem l i : NoDup l -> cnt i l = if decide (i ∈ l) then 1 else 0.
Proof.
  induction 1 as [|j l Hj _ IH]; [by rewrite decide_False by apply not_elem_of_nil|]. rewrite cnt_cons, IH. destruct (Z.eqb_spec j i) as [->|Hne]; cbn [one].
  - by rewrite decide_False, decide_True by (done || left).
  - destruct (decide (i ∈ l)) as [Hi|Hi]; [by rewrite decide_True by (by right)|]. rewrite decide_False; [done|]. by intros [->|]%elem_of_cons.
Qed.

Lemma release_ok lsm v : shows lsm slots v ->
  exists lsm' slots', Standby.fetcher_release_covered_memtables lsm slots start_sid end_sid = Ok (lsm', slots') /\
    shows lsm' slots' (filter (fun p => negb (Standby.covers_sid start_sid end_sid p.1) = true) v).
Proof.
  intros Hsh. destruct (release_known lsm v Hsh) as (lsm' & Hr & Hkn & _ & Hm & Hz & Hd & He & Hg). exists lsm'. eexists. split; [exact Hr|].
  destruct Hsh as [[[Hc Hn] [Hld Hle] Hgr] Hb]. set (drops := filter gone (known lsm)).
  assert (Hcnt : forall i, 0 <= cnt i drops <= 1).
  { intros i. rewrite cnt_mem by (apply NoDup_filter, (bk_nodup _ _ _ Hb)). case_decide; lia. }
  assert (Hslot : forall i s, slots !! i = Some s -> exists s', drop_refs drops !! i = Some s' /\ slot_mt s' = slot_mt s /\
    mt_ref_count s' = mt_ref_count s - cnt i drops /\ 0 <= mt_ref_count s').
  { intros i s Hs. destruct (drop_refs_slot drops i s Hs) as (s' & Hs' & Hms & Href). exists s'. split; [done|]. split; [done|]. destruct (bk_buffer _ _ _ Hb i s Hs) as [_ Hw].
    assert (0 < cnt i drops -> 0 < mt_ref_count s).
    { intros Hi. apply cnt_elem, list_elem_of_filter in Hi as [_ Hi]. destruct (bk_rows _ _ _ Hb i Hi) as (s0 & Hs0 & Hp & _). congruence. }
    specialize (Hcnt i). rewrite Href, u32_small by lia. lia. }
  assert (Hback : forall i s', drop_refs drops !! i = Some s' -> exists s, slots !! i = Some s /\ slot_mt s' = slot_mt s /\ 0 <= mt_ref_count s' < 2 ^ 32).
  { intros i s' Hs'. unfold drop_refs in Hs'. rewrite add_refs_lookup in Hs'. destruct (slots !! i) as [s|] eqn:Hs; [|done]. injection Hs' as <-. exists s.
    split; [done|]. split; [done|]. unfold update; cbn. apply u32_range. }
  split.
  - split; [lia|by rewrite Hd, He|]. destruct Hg as [|[Hg Hgi]]; [by left|]. rewrite Hg, Hgi. destruct Hgr as [|[Hg0 Hgid]]; [by left|]. right. split; [done|].
    apply id_of_Some in Hgid as (s & Hs & Hid). destruct (Hslot _ _ Hs) as (s' & Hs' & Hms & _). apply id_of_Some. exists s'. by rewrite Hms.
  - rewrite Hkn. apply (backs_drop (known lsm) slots _ v (fun sid => negb (Standby.covers_sid start_sid end_sid sid)) left Hb).
    + intros i s' Hs'. destruct (Hback i s' Hs') as (s & Hs & Hms & Hw). split; [|done]. unfold slot_ok. rewrite Hms. by apply (bk_buffer _ _ _ Hb i s Hs).
    + intros i s Hi Hs. assert (Hgone : gone i <-> Standby.covers_sid start_sid end_sid (memtable_id (slot_mt s)) = true) by (unfold covered, id_of; by rewrite Hs).
      split; [rewrite Hgone; by destruct (Standby.covers_sid _ _ _)|]. destruct (Hslot i s Hs) as (s' & Hs' & Hms & Href & _). exists s'. split; [done|]. split; [done|].
      intros Hl. rewrite Href. destruct (bk_rows _ _ _ Hb i Hi) as (s0 & Hs0 & Hp & _). rewrite Hs in Hs0. injection Hs0 as <-.
      destruct (decide (0 < cnt i drops)) as [Hx|]; [|lia]. apply cnt_elem, list_elem_of_filter in Hx as [Hx _]. by destruct Hl.
Qed.
End release.

(** *** The log, the fetchers and everybody else *)

Section log.
Context (Hsizes : 0 <= array_size /\ 0 <= mcap <= MEMTABLE_MAX_CAPACITY) (H8 : (8 | width)) (Hcap : memtable_cap array_size mcap width = Ok cap).
Context {B : Type} `{BlockId B}.

(** What happens to the memtables of the index: a record is replayed, a fetched
    segment takes rows over, or something else happens to the buffer. *)
Inductive event :=
  | Register (sid : Z)
  | Add (sid slot_index : Z) (tid : ItemPointerData B) (vector : list Z)
  | Release (start_sid end_sid : Z)
  | Elsewhere.

Abbreviation state := (LSMIndexData * list MemtableBufferSlot)%type.

Inductive standby_step : event -> state -> res state -> Prop :=
  | replays_register sid lsm slots :
      memtable_count lsm < MEMTABLE_NUM -> 0 < free_slots slots ->
      standby_step (Register sid) (lsm, slots) (Standby.dpv_standby_register_memtable array_size mcap lsm slots sid)
  | replays_add sid i tid x lsm slots : 0 <= i ->
      standby_step (Add sid i tid x) (lsm, slots) (slots ← Standby.dpv_standby_add_to_memtable lsm slots sid i tid x; Ok (lsm, slots))
  | releases start_sid end_sid lsm slots :
      standby_step (Release start_sid end_sid) (lsm, slots) (Standby.fetcher_release_covered_memtables lsm slots start_sid end_sid)
  (* pins, replayed deletions, other indexes *)
  | happens lsm slots slots' : buffer_ok slots' ->
      (forall i s, i ∈ known lsm -> slots !! i = Some s ->
         exists s', slots' !! i = Some s' /\ 0 < mt_ref_count s' /\ exists bm, slot_mt s' = (slot_mt s) <| mt_bitmap := bm |>) ->
      standby_step Elsewhere (lsm, slots) (Ok (lsm, slots')).

Inductive standby_run : list event -> state -> res state -> Prop :=
  | run_done st : standby_run [] st (Ok st)
  | run_step ev evs st st' r : standby_step ev st (Ok st') -> standby_run evs st' r -> standby_run (ev :: evs) st r
  | run_fails ev evs st x : standby_step ev st (Error x) -> standby_run (ev :: evs) st (Error x).

(** The specification. *)
Definition replayed (v : view) (ev : event) : view :=
  match ev with
  | Register sid => if decide (is_Some (v !! sid)) then v else <[sid := ∅]> v
  | Add sid i tid x => if (i <? cap) && (zlen x =? width) then alter (insert i (ItemPointerToInt64 tid, x)) sid v else v
  | Release start_sid end_sid => filter (fun p => negb (Standby.covers_sid start_sid end_sid p.1) = true) v
  | Elsewhere => v
  end.

Lemma step_shows ev lsm slots v r : shows lsm slots v -> standby_step ev (lsm, slots) r ->
  exists lsm' slots', r = Ok (lsm', slots') /\ shows lsm' slots' (replayed v ev).
Proof.
  intros Hsh Hstep. remember (lsm, slots) as st eqn:Est. destruct Hstep as [sid l sl Hroom Hfree|sid i tid x l sl Hi|a b l sl|l sl sl' Hb Hs]; injection Est as -> ->.
  - destruct (register_ok Hsizes H8 Hcap lsm slots v sid Hsh Hroom Hfree) as (lsm' & slots' & -> & Hsh'). by exists lsm', slots'.
  - destruct (add_ok lsm slots v sid i tid x Hsh Hi) as (slots' & -> & Hsh'). by exists lsm, slots'.
  - destruct (release_ok a b slots lsm v Hsh) as (lsm' & slots' & -> & Hsh'). by exists lsm', slots'.
  - exists lsm, sl'. split; [done|]. destruct Hsh as [[Hw1 Hw2 Hw3] Hback].
    assert (Hf : forall i s, i ∈ known lsm -> slots !! i = Some s -> exists s', sl' !! i = Some s' /\ 0 < mt_ref_count s' /\ same_rows (slot_mt s) (slot_mt s')).
    { intros i s Hi Hsi. destruct (Hs i s Hi Hsi) as (s' & Hs' & Hpos & bm & Hm). exists s'. split; [done|]. split; [done|]. exists (sealed (slot_mt s)), bm. rewrite Hm. by destruct (slot_mt s). }
    split; [|by eapply backs_frame]. split; [done..|]. destruct Hw3 as [|[Hg Hid]]; [by left|]. right. split; [done|].
    apply id_of_Some in Hid as (s & Hsi & Hid). destruct (Hf _ _ (growing_known _ Hg) Hsi) as (s' & Hs' & _ & b & bm & Hm). apply id_of_Some. exists s'. by rewrite Hm.
Qed.

(** Marking rows of one memtable deleted. *)
Lemma bitmap_shows lsm slots v i s bm : shows lsm slots v -> slots !! i = Some s ->
  shows lsm (<[i := s <| slot_mt ::= fun mt => mt <| mt_bitmap := bm |> |>]> slots) v.
Proof.
  intros Hsh Hs. pose proof (bk_buffer _ _ _ (proj2 Hsh)) as Hb. set (s' := s <| slot_mt ::= _ |>).
  destruct (step_shows Elsewhere lsm slots v (Ok (lsm, <[i := s']> slots)) Hsh) as (lsm' & slots' & [= <- <-] & Hsh'); [|exact Hsh']. apply happens.
  - intros j sj. destruct (decide (i = j)) as [<-|Hne]; [|rewrite zlookup_insert_ne by done; apply Hb].
    rewrite (zlookup_insert_eq _ _ _ _ Hs). intros [= <-]. exact (Hb i s Hs).
  - intros j sj Hj Hsj. destruct (bk_rows _ _ _ (proj2 Hsh) j Hj) as (s0 & Hs0 & Hpos & _). assert (s0 = sj) as -> by congruence.
    destruct (decide (i = j)) as [<-|Hne].
    + assert (s = sj) as -> by congruence. exists s'. split; [by eapply zlookup_insert_eq|]. split; [done|]. by eexists.
    + exists sj. rewrite zlookup_insert_ne by done. split; [done|]. split; [done|]. exists (mt_bitmap (slot_mt sj)). by destruct (slot_mt sj).
Qed.

Lemma run_shows evs : forall lsm slots v r, shows lsm slots v -> standby_run evs (lsm, slots) r ->
  exists lsm' slots', r = Ok (lsm', slots') /\ shows lsm' slots' (foldl replayed v evs).
Proof.
  induction evs as [|ev evs IH]; intros lsm slots v r Hsh Hrun; inversion Hrun as [|? ? ? st' ? Hstep Hrest|? ? ? ? Hstep]; subst.
  - by exists lsm, slots.
  - destruct (step_shows _ _ _ _ _ Hsh Hstep) as (lsm1 & slots1 & [= ->] & Hsh1). by apply (IH _ _ _ _ Hsh1).
  - by destruct (step_shows _ _ _ _ _ Hsh Hstep) as (lsm1 & slots1 & ? & _).
Qed.
End log.

(** *** Searching on the standby *)

Section search_log.
Context {D : Type} (le : D -> D -> Prop) `{!RelDecision le} `{!Total le} `{!Transitive le}.
Context (compute_distance : list Z -> list Z -> D) (qsort : list (DistancePair D) -> list (DistancePair D)).
Context (knowhere_search : list Z -> list Z -> list Z -> Z -> Z -> Z -> res (option (list (DistancePair D)))).
Context (vector_search_send : LSMSnapshot -> res unit) (vector_search_get_result : res (list (DistancePair D))).
Context (Hfloats : width = 4 * d /\ 0 <= d) (H8 : (8 | width)).

(** The logged rows that are not deleted, with their distances. *)
Definition row_cands (rows : rows_map) (bm query : list Z) : list (DistancePair D) :=
  omap (fun i => '(t, x) ← rows !! i; if IS_SLOT_SET bm i then None else Some (mkPair (compute_distance x query) t)) (seqZ 0 cap).
Definition slot_cands slots v (query : list Z) (i : Z) : list (DistancePair D) :=
  match slots !! i with Some s => row_cands (default ∅ (v !! memtable_id (slot_mt s))) (mt_bitmap (slot_mt s)) query | None => [] end.

(** No row is missing below the last one. *)
Definition no_gap (rows : rows_map) : Prop := forall i j, is_Some (rows !! i) -> 0 <= j <= i -> is_Some (rows !! j).

Lemma visible_cands mt rows check_ready query :
  holds_rows mt rows -> capacity mt = cap -> dim mt = d /\ elem_size mt = e -> check_ready = true \/ no_gap rows ->
  visible compute_distance mt check_ready query = row_cands rows (mt_bitmap mt) query.
Proof.
  intros [(Hc & Hzr & Hzt) Hfit Hrange [Hsz Hlast] Hready Hrows _] Hcp [Hd He] Hgap. unfold visible, row_cands.
  assert (Hv : valid_num mt = current_size mt) by (unfold valid_num; lia). rewrite Hv, <-Hcp, (seqZ_split (current_size mt) (capacity mt)) by lia. rewrite omap_app.
  replace (omap _ (seqZ (current_size mt) _)) with (@nil (DistancePair D)).
  2: { symmetry. assert (Hin : forall i, i ∈ seqZ (current_size mt) (capacity mt - current_size mt) -> rows !! i = None).
       { intros i Hi%elem_of_seqZ. apply eq_None_not_Some. intros Hs%Hrange. lia. }
       revert Hin. generalize (seqZ (current_size mt) (capacity mt - current_size mt)). clear. induction l as [|i l IH]; intros Hin; [done|]. cbn [omap list_omap].
       rewrite (Hin i) by left. cbn. apply IH. intros j Hj. apply Hin. by right. }
  rewrite app_nil_r. assert (Hin : forall i, i ∈ seqZ 0 (current_size mt) -> 0 <= i < current_size mt) by (intros i Hi%elem_of_seqZ; lia).
  revert Hin. generalize (seqZ 0 (current_size mt)). induction l as [|i l IH]; intros Hin; [done|]. specialize (IH ltac:(intros j Hj; apply Hin; by right)).
  specialize (Hin i ltac:(left)).
  assert (Hl : live mt check_ready i = match rows !! i with Some _ => negb (IS_SLOT_SET (mt_bitmap mt) i) | None => false end).
  { unfold live. rewrite (Hready i ltac:(lia)). destruct (rows !! i) as [p|] eqn:Hr.
    - rewrite decide_True by (by eexists). by destruct check_ready.
    - destruct Hgap as [->|Hgap]; [by rewrite decide_False by (by intros [? ?])|]. exfalso. destruct Hlast as [|Hlast]; [lia|].
      destruct (Hgap _ i Hlast ltac:(lia)). congruence. }
  rewrite filter_cons. cbn [omap list_omap]. destruct (rows !! i) as [[t x]|] eqn:Hr; cbn [mbind option_bind].
  - destruct (Hrows _ _ _ Hr) as (Ht & Hx & _). destruct (IS_SLOT_SET (mt_bitmap mt) i); cbn [negb] in Hl; [by rewrite decide_False by congruence|].
    rewrite decide_True by done. cbn [fmap list_fmap]. rewrite IH. f_equal. unfold row_pair, tid_at. rewrite Ht. cbn. f_equal. f_equal. rewrite <-Hx. unfold float_row, row_at.
    replace (VEC_BYTES_PER_ROW mt) with (4 * dim mt); [done|]. unfold VEC_BYTES_PER_ROW. rewrite Hd, He. fold width. lia.
  - by rewrite decide_False by congruence.
Qed.

Lemma holds_searchable mt rows : holds_rows mt rows -> dim mt = d /\ elem_size mt = e -> searchable mt.
Proof.
  intros [(Hc & Hzr & Hzt) [Hv Hfit] Hrange [Hsz _] _ _ Hmax] [Hd He]. unfold MEMTABLE_MAX_CAPACITY, UINT32_MAX in *.
  assert (Hw : VEC_BYTES_PER_ROW mt = width) by (unfold VEC_BYTES_PER_ROW; by rewrite Hd, He).
  assert (Ha : MAXALIGN (VEC_BYTES_PER_ROW mt) = 4 * dim mt) by (rewrite Hw, MAXALIGN_id by done; lia).
  split; [lia|unfold UINT32_MAX; lia| |done]. split; [done|]. split; [lia|]. destruct (decide (capacity mt = 0)) as [->|Hne]; [pose proof (zlen_nonneg (vector_blob mt)); lia|].
  specialize (Hfit (capacity mt - 1) ltac:(lia)). unfold vec_offset in Hfit. rewrite Ha, Hw in Hfit. rewrite Hd in *. nia.
Qed.

Lemma search_log_ok lsm slots v query k segs :
  knowhere_ok le compute_distance knowhere_search -> qsort_ok le qsort ->
  shows lsm slots v -> zlen slots = MEMTABLE_BUF_SIZE -> 0 < k -> growing_memtable_idx lsm <> MT_IDX_INVALID ->
  (forall i s, i ∈ known lsm -> slots !! i = Some s -> enough_rows (slot_mt s) (i =? growing_memtable_idx lsm) k) ->
  (forall i sid rows, i ∈ queue lsm -> id_of slots i = Some sid -> v !! sid = Some rows -> no_gap rows) ->
  (forall snap, vector_search_send snap = Ok tt) -> vector_search_get_result = Ok segs -> StronglySorted (nearer le) segs ->
  NoDup (id <$> (known lsm ≫= slot_cands slots v query)) ->
  exists slots' out,
    search_lsm_index le compute_distance qsort knowhere_search vector_search_send vector_search_get_result lsm slots query k = Ok (Returned slots' out) /\
    dedup_ranks le k ((known lsm ≫= slot_cands slots v query) ++ segs) out.
Proof.
  intros Hkn Hq [[[Hc Hz] _ Hg] Hb] Hlen Hk Hgi Henough Hgaps Hsend Hget Hsorted Hnd. destruct Hg as [|[Hg0 _]]; [done|]. set (g := growing_memtable_idx lsm) in *.
  assert (Hkn' : known lsm = g :: queue lsm) by (unfold known, MT_IDX_INVALID; fold g; by rewrite (proj2 (Z.eqb_neq g (-1))) by lia). rewrite Hkn' in *.
  pose proof (bk_nodup _ _ _ Hb) as [Hgq _]%NoDup_cons.
  assert (Hslot : forall i, i ∈ g :: queue lsm -> MemtableSearch.slot_ok slots (i =? g) k i).
  { intros i Hi. destruct (bk_rows _ _ _ Hb i Hi) as (s & Hs & _ & _ & Hde & rows & _ & Hr). exists s. split; [done|]. split; [by eapply holds_searchable|by apply Henough]. }
  assert (Hvis : forall i, i ∈ g :: queue lsm -> visible_at compute_distance slots (i =? g) query i = slot_cands slots v query i).
  { intros i Hi. destruct (bk_rows _ _ _ Hb i Hi) as (s & Hs & _ & Hcp & Hde & rows & Hv & Hr). unfold visible_at, slot_cands. rewrite Hs, Hv. cbn [default from_option Datatypes.id].
    apply visible_cands; [done..|]. apply elem_of_cons in Hi as [->|Hi]; [left; apply Z.eqb_refl|]. right. eapply Hgaps; [exact Hi| |exact Hv]. apply id_of_Some. by exists s. }
  assert (Hne : forall i, i ∈ queue lsm -> (i =? g) = false) by (intros i Hi; apply Z.eqb_neq; by intros ->).
  assert (Hcands : visible_at compute_distance slots true query g ++ (sealed_idxs lsm ≫= visible_at compute_distance slots false query) = (g :: queue lsm) ≫= slot_cands slots v query).
  { rewrite bind_cons, <-Hvis by left. rewrite Z.eqb_refl. f_equal. change (sealed_idxs lsm) with (queue lsm).
    assert (Hall : forall i, i ∈ queue lsm -> visible_at compute_distance slots false query i = slot_cands slots v query i) by (intros i Hi; rewrite <-Hvis, Hne by (done || by right); done).
    revert Hall. generalize (queue lsm). clear. induction l as [|i l IH]; intros Hall; [done|]. rewrite !bind_cons, Hall by left. f_equal. apply IH. intros j Hj. apply Hall. by right. }
  rewrite <-Hcands in *. assert (Hg8 : 0 <= g < MEMTABLE_BUF_SIZE) by (destruct (Hslot g ltac:(left)) as (s & Hs & _); apply zlookup_lt_Some in Hs; lia).
  apply search_exact; try done.
  - split; [done|]. split.
    + apply Forall_forall. intros i Hi. destruct (Hslot i ltac:(by right)) as (s & Hs & _). by eexists.
    + apply Forall_forall. intros s [i Hs]%elem_of_zlookup. by apply (bk_buffer _ _ _ Hb) in Hs as [_ ?].
  - specialize (Hslot g ltac:(left)). by rewrite Z.eqb_refl in Hslot.
  - apply Forall_forall. intros i Hi. specialize (Hslot i ltac:(by right)). by rewrite (Hne i Hi) in Hslot.
Qed.
End search_log.

(** *** No room in the queue *)

Lemma filter_others (x : Z) l : x ∉ l -> filter (fun y => y <> x) l = l.
Proof.
  induction l as [|y l IH]; intros Hx; [done|]. apply not_elem_of_cons in Hx as [Hne Hx]. rewrite filter_cons, decide_True by (intros ->; done).
  by rewrite IH.
Qed.

Lemma backs_without g old l slots v : backs (g :: l) slots v -> id_of slots g = Some old -> backs l slots (delete old v).
Proof.
  intros Hb Hgid. pose proof (bk_nodup _ _ _ Hb) as [Hgl _]%NoDup_cons.
  replace l with (filter (fun j => j <> g) (g :: l)) by (rewrite filter_cons, decide_False by (intros Hx; by apply Hx); by apply filter_others).
  replace (delete old v) with (filter (fun p => negb (p.1 =? old) = true) v).
  2: { apply map_eq. intros a. rewrite map_lookup_filter. cbn. destruct (decide (a = old)) as [->|Hne].
       - rewrite lookup_delete_eq. destruct (v !! old); cbn; [|done]. rewrite Z.eqb_refl. by rewrite option_guard_False.
       - rewrite lookup_delete_ne by done. destruct (v !! a); cbn; [|done]. rewrite (proj2 (Z.eqb_neq a old)) by done. by rewrite option_guard_True. }
  apply (backs_drop (g :: l) slots slots v (fun a => negb (a =? old)) (fun j => j <> g) Hb (bk_buffer _ _ _ Hb)).
  intros j sj Hj Hsj. destruct (bk_rows _ _ _ Hb j Hj) as (s' & Hs' & Hpos & _). rewrite Hsj in Hs'. injection Hs' as <-. split; [|by exists sj].
  rewrite negb_true_iff, Z.eqb_neq. split; intros Hne Heq; apply Hne.
  - apply (bk_ids _ _ _ Hb j g old); [done|left|apply id_of_Some; by exists sj|done].
  - subst j. apply id_of_Some in Hgid as (s' & Hs' & <-). congruence.
Qed.

(** A newer memtable replaces the growing one; that one is sealed and dropped. *)
Lemma full_register lsm slots v sid :
  0 <= array_size /\ 0 <= mcap <= MEMTABLE_MAX_CAPACITY -> (8 | width) -> memtable_cap array_size mcap width = Ok cap -> shows lsm slots v -> memtable_count lsm = MEMTABLE_NUM -> 0 < free_slots slots ->
  growing_memtable_idx lsm <> MT_IDX_INVALID -> growing_memtable_id lsm < sid -> v !! sid = None ->
  exists lsm' slots', Standby.dpv_standby_register_memtable array_size mcap lsm slots sid = Ok (lsm', slots') /\
    shows lsm' slots' (<[sid := ∅]> (delete (growing_memtable_id lsm) v)) /\ (growing_memtable_idx lsm ∉ known lsm') /\
    exists s s', slots !! growing_memtable_idx lsm = Some s /\ slots' !! growing_memtable_idx lsm = Some s' /\
      mt_ref_count s' = mt_ref_count s /\ (slot_mt s') = (slot_mt s) <| sealed := true |>.
Proof.
  intros Hsizes H8 Hcap Hsh Hfull Hfree Hgi Hlt Hv. destruct (find_ok lsm slots v sid Hsh) as (o & Ho & Hcase). unfold Standby.dpv_standby_register_memtable. rewrite Ho. cbn [mbind res_bind].
  destruct o as [k|]; [destruct Hcase as (_ & s & rows & _ & _ & Hx & _); congruence|]. destruct Hsh as [[[Hc Hz] [Hd He] Hg] Hb].
  destruct Hg as [|[Hg0 Hgid]]; [done|]. set (g := growing_memtable_idx lsm) in *. set (old := growing_memtable_id lsm) in *.
  assert (Hkn : known lsm = g :: queue lsm) by (unfold known, MT_IDX_INVALID; fold g; by rewrite (proj2 (Z.eqb_neq g (-1))) by lia). rewrite Hkn in Hb.
  pose proof (bk_nodup _ _ _ Hb) as [Hgq Hndq]%NoDup_cons. pose proof Hgid as (sg & Hsg & Hgm)%id_of_Some.
  destruct (free_slot_fresh Hsizes H8 Hcap lsm slots sid Hfree (conj Hd He) (bk_buffer _ _ _ Hb)) as (i & s & mt0 & Hs & Hz0 & Hi0 & -> & Fid & Fc & Fde & Hfresh & Hbuf'). cbn [mbind res_bind].
  zcase; [lia|]. set (slots1 := <[i := mkBufferSlot 1 mt0]> slots) in *.
  assert (Hnot : i ∉ g :: queue lsm). { intros Hi'. destruct (bk_rows _ _ _ Hb i Hi') as (s' & Hs' & Hpos & _). rewrite Hs in Hs'. injection Hs' as <-. lia. }
  assert (Hgi1 : i <> g) by (intros ->; apply Hnot; left).
  pose proof (backs_without _ _ _ _ _ Hb Hgid) as Hrest.
  assert (Hb1 : backs (i :: queue lsm) slots1 (<[sid := ∅]> (delete old v))).
  { eapply (backs_add _ _ _ _ (mkBufferSlot 1 mt0)); try done; [by eapply zlookup_insert_eq| |intros Hi; apply Hnot; by right|].
    - rewrite lookup_delete_ne by lia. done.
    - eapply backs_frame; [done| |exact Hrest]. intros j sj Hj Hsj. exists sj. unfold slots1. rewrite zlookup_insert_ne by (intros ->; apply Hnot; by right). split; [done|].
      split; [|apply same_rows_refl]. destruct (bk_rows _ _ _ Hrest j Hj) as (s0 & Hs0 & Hpos & _). congruence. }
  assert (Hsg1 : slots1 !! g = Some sg) by (unfold slots1; by rewrite zlookup_insert_ne).
  unfold Standby.wire. fold g old. assert (E1 : (g =? MT_IDX_INVALID) = false /\ (g =? MT_IDX_ROTATING) = false) by (unfold MT_IDX_INVALID, MT_IDX_ROTATING; split; apply Z.eqb_neq; lia).
  destruct E1 as [E1 E2]. rewrite E1, E2, (proj2 (Z.ltb_lt _ _) Hlt). cbn [orb].
  destruct (seal_ok slots1 g sg Hsg1 Hbuf') as (slots' & Hseal & Hbuf2 & Hsame). rewrite Hseal. cbn [mbind res_bind]. unfold Standby.queue_sealed.
  rewrite (proj2 (Z.ltb_ge _ _)) by lia. cbn [mbind res_bind]. destruct (sealed_backs _ _ _ _ Hbuf2 Hsame Hb1) as [Hb2 Hids]. eexists _, _. split; [done|]. split; [split|].
  - split; [done|done|]. right. change (0 <= i /\ id_of slots' i = Some sid). split; [done|]. rewrite Hids by (eexists; by eapply zlookup_insert_eq). unfold id_of, slots1.
    rewrite (zlookup_insert_eq _ _ _ _ Hs). cbn. by rewrite Fid.
  - by rewrite known_growing.
  - rewrite known_growing by done. split; [by intros [->|?]%elem_of_cons|]. exists sg. unfold Standby.seal in Hseal. rewrite (arr_upd_Some _ _ _ _ Hsg1) in Hseal.
    injection Hseal as <-. eexists. split; [done|]. split; [by eapply zlookup_insert_eq|]. done.
Qed.
End index.

(** Inserts keep the shape of a memtable. *)
Definition shape (mt : ConcurrentMemTableData) : Z * Z * Z := (dim mt, elem_size mt, capacity mt).

Lemma step_shape s s' : Insert.step s s' -> shape (Insert.st_mt s') = shape (Insert.st_mt s).
Proof.
  destruct 1 as [|? ? ? ? mt p ? Hf| |? ? ? ? ? mt ? Hf|? ? ? mt ? Hf| | | | |? ? ? ? mt p ? Hf]; try done.
  - unfold Insert.fetch_slot in Hf. by injection Hf as <- _.
  - unfold Insert.write_row in Hf. destruct (arr_set _ _ _); [cbn in Hf|done]. destruct (mem_write _ _ _); [cbn in Hf|done]. by injection Hf as <-.
  - unfold Insert.set_ready in Hf. destruct (arr_set _ _ _); [cbn in Hf|done]. by injection Hf as <-.
  - unfold Insert.goto; cbn. unfold Insert.swap_first. by case_match.
  - unfold Insert.swap_max in Hf. destruct (_ =? _); by injection Hf as <- _.
Qed.

Lemma steps_shape s s' : rtc Insert.step s s' -> shape (Insert.st_mt s') = shape (Insert.st_mt s).
Proof. induction 1 as [|s1 s2 s3 H12 _ IH]; [done|]. by rewrite IH, (step_shape s1 s2). Qed.

(** A recovered memtable holds its rows. *)
Lemma rebuilt_holds array_size mcap n closed sid rows mt :
  rebuilt array_size mcap n closed sid rows mt -> (8 | VEC_BYTES_PER_ROW mt) -> (0 < n)%nat -> Z.of_nat n < 2 ^ 31 ->
  Forall (fun p => zlen p.2 = VEC_BYTES_PER_ROW mt) rows -> holds_rows mt (map_seqZ 0 rows).
Proof.
  intros [_ (mt0 & mt1 & log & Hup & Hrun & ->) [Hsz [_ Hz]] Hmax Hrows _ Hfree] H8 Hn Hn' Hw.
  set (mt := mt1 <| sealed := closed |>) in *.
  pose proof (steps_shape _ _ Hrun) as [= E1 E2 E3]. cbn in E1, E2, E3.
  assert (Ev : VEC_BYTES_PER_ROW mt = VEC_BYTES_PER_ROW mt0) by (unfold VEC_BYTES_PER_ROW; change (u64 (dim mt1 * elem_size mt1) = u64 (dim mt0 * elem_size mt0)); by rewrite E1, E2).
  rewrite Ev in H8. pose proof (proj1 (reach_inv _ _ _ _ _ Hup H8 Hn' Hrun)) as [(Hc & Hr & Ht & _) Hfit _ _ _ _ _ _ _ Hmx]. cbn [Insert.st_mt] in *.
  assert (Hcm : capacity mt <= MEMTABLE_MAX_CAPACITY).
  { change (capacity mt) with (capacity mt1). rewrite E3. destruct Hup as (m0 & rel & id & d & e & _ & _ & _ & _ & Hm & Hs).
    destruct (set_memtable_fields _ _ _ _ _ _ _ _ Hs) as (_ & _ & _ & _ & _ & _ & Hcm). unfold memtable_cap in Hcm. destruct (_ =? 0); [done|].
    injection Hcm as <-. unfold MEMTABLE_MAX_CAPACITY in *. rewrite (u32_small mcap) by lia. lia. }
  assert (Hlk : forall i : Z, (map_seqZ 0 rows : gmap Z (Z * list Z)) !! i = rows !! i).
  { intros i. destruct (decide (0 <= i)); [|rewrite zlookup_neg by lia; apply lookup_map_seqZ_None; lia]. rewrite lookup_map_seqZ_0, <-zlookup_nat by done. f_equal. lia. }
  split; change (current_size mt) with (current_size mt1) in *; change (capacity mt) with (capacity mt1) in *.
  - done.
  - exact Hfit.
  - intros i. rewrite Hlk. intros [p Hp]. apply zlookup_lt_Some in Hp. lia.
  - rewrite Hsz. split; [pose proof (zlen_nonneg rows); lia|]. destruct (decide (zlen rows = 0)); [by left|]. right. rewrite Hlk. apply zlookup_lt_is_Some. pose proof (zlen_nonneg rows). lia.
  - intros i Hi. rewrite Hlk. destruct (decide (is_Some (rows !! i))) as [[[t x] Hp]|Hno].
    + by destruct (Hrows _ _ _ Hp) as (_ & _ & ?).
    + apply Hfree. split; [|lia]. destruct (decide (zlen rows <= i)); [done|]. destruct Hno. apply zlookup_lt_is_Some. lia.
  - intros i t x. rewrite Hlk. intros Hp. destruct (Hrows _ _ _ Hp) as (? & ? & _). split; [done|]. split; [done|].
    apply (proj1 (Forall_forall _ rows) Hw (t, x)). apply elem_of_zlookup. by exists i.
  - exact Hmx.
Qed.

(** ** Example *)
Module StandbyRuns.
Import Example RepairRuns.

(** Rows of two 4-byte elements; every memtable has room for three. *)
Definition buffer (free : nat) : list MemtableBufferSlot := replicate (8 - free) (mkBufferSlot 1 slot0) ++ replicate free (mkBufferSlot 0 slot0).
Definition fresh_lsm : LSMIndexData := mkLSM 16384 2 4 4 MT_IDX_INVALID 0 [-1; -1; -1; -1] 0.
Abbreviation state := (LSMIndexData * list MemtableBufferSlot)%type.
Abbreviation log_event := (event (B := Z)).
Definition tid (n : Z) : ItemPointerData Z := mkItemPointer 0 n.

Lemma sizes : 0 <= 24 /\ 0 <= 3 <= MEMTABLE_MAX_CAPACITY.
Proof. unfold MEMTABLE_MAX_CAPACITY. lia. Qed.
Lemma width8 : (8 | u64 (2 * 4)).
Proof. by exists 1. Qed.
Lemma cap3 : memtable_cap 24 3 (u64 (2 * 4)) = Ok 3.
Proof. reflexivity. Qed.

Lemma fresh_shows free : (free <= 8)%nat -> shows 24 3 2 4 3 fresh_lsm (buffer free) ∅.
Proof.
  intros Hf. split; [split|split].
  - split; [unfold MEMTABLE_NUM; cbn; lia|done].
  - done.
  - by left.
  - intros i s Hs. assert (Hin : s ∈ buffer free) by (apply elem_of_zlookup; by exists i). unfold buffer in Hin.
    apply elem_of_app in Hin as [Hin|Hin]; apply elem_of_replicate in Hin as [-> _]; (split; [by vm_compute|cbn; lia]).
  - constructor.
  - intros i Hi. by apply elem_of_nil in Hi.
  - intros i j a Hi. by apply elem_of_nil in Hi.
  - intros sid Hs. by apply lookup_empty_is_Some in Hs.
Qed.

(** A log, replayed. *)
Fixpoint replay (evs : list log_event) (st : state) : option state :=
  match evs with
  | [] => Some st
  | ev :: evs =>
      r ← match ev with
          | Register sid =>
              if (memtable_count st.1 <? MEMTABLE_NUM) && (0 <? free_slots st.2)
              then Some (Standby.dpv_standby_register_memtable 24 3 st.1 st.2 sid) else None
          | Add sid i t x =>
              if 0 <=? i then Some (slots ← Standby.dpv_standby_add_to_memtable st.1 st.2 sid i t x; Ok (st.1, slots)) else None
          | Release a b => Some (Standby.fetcher_release_covered_memtables st.1 st.2 a b)
          | Elsewhere => None
          end;
      match r with Ok st => replay evs st | Error _ => None end
  end.

Lemma replay_run evs : forall st st', replay evs st = Some st' -> standby_run 24 3 evs st (Ok st').
Proof.
  induction evs as [|ev evs IH]; intros st st'; [intros [= ->]; constructor|]. destruct st as [lsm slots]. cbn [replay fst snd]. destruct ev as [sid|sid i t x|a b|]; [| | |done].
  - destruct (Z.ltb_spec (memtable_count lsm) MEMTABLE_NUM) as [Hc|]; [|done]. destruct (Z.ltb_spec 0 (free_slots slots)) as [Hf|]; [|done]. cbn [andb mbind option_bind].
    destruct (Standby.dpv_standby_register_memtable 24 3 lsm slots sid) as [st1|] eqn:E; [|done]. intros Hr. eapply run_step; [|by apply IH]. rewrite <-E. by apply replays_register.
  - destruct (Z.leb_spec 0 i) as [Hi|]; [|done]. cbn [mbind option_bind].
    destruct (Standby.dpv_standby_add_to_memtable lsm slots sid i t x) as [sl|] eqn:E; [cbn [mbind res_bind]|done]. intros Hr. eapply run_step; [|by apply IH].
    pose proof (replays_add 24 3 sid i t x lsm slots Hi) as Hstep. by rewrite E in Hstep.
  - cbn [mbind option_bind]. destruct (Standby.fetcher_release_covered_memtables lsm slots a b) as [st1|] eqn:E; [|done]. intros Hr. eapply run_step; [|by apply IH]. rewrite <-E. by apply releases.
Qed.

(** Two memtables; a row of the first arrives after the second is registered. *)
Definition log : list log_event := [Register 4; Add 4 1 (tid 12) (row 6); Register 5; Add 5 0 (tid 21) (row 7); Add 4 0 (tid 11) (row 5)].
Definition after_log : state := default (fresh_lsm, []) (replay log (fresh_lsm, buffer 8)).
(** Then a segment of the first arrives. *)
Definition after_release : state := default (fresh_lsm, []) (replay (log ++ [Release 4 4]) (fresh_lsm, buffer 8)).

Lemma ok_state (st : state) lsm slots : Ok st = Ok (lsm, slots) -> lsm = st.1 /\ slots = st.2.
Proof. by intros [= ->]. Qed.

Lemma log_run : standby_run 24 3 log (fresh_lsm, buffer 8) (Ok after_log).
Proof. apply replay_run. vm_compute. reflexivity. Qed.
Lemma release_run : standby_run 24 3 (log ++ [Release 4 4]) (fresh_lsm, buffer 8) (Ok after_release).
Proof. apply replay_run. vm_compute. reflexivity. Qed.

Definition the_view : view := {[ 4 := {[ 0 := (11, row 5); 1 := (12, row 6) ]}; 5 := {[ 0 := (21, row 7) ]} ]}.
Lemma log_view : foldl (replayed 2 4 3) ∅ log = the_view.
Proof. vm_compute. reflexivity. Qed.

(** Five memtables: the queue is full. *)
Definition crowded : state := default (fresh_lsm, []) (replay [Register 4; Register 5; Register 6; Register 7; Register 8] (fresh_lsm, buffer 8)).
End StandbyRuns.
Import RepairRuns StandbyRuns.

(** ** Properties *)

(** C7: Replaying the log rebuilds the primary's rows.  Whatever the order in
    which memtables are registered, rows arrive (also late, for sealed
    memtables), fetched segments take memtables over, and searches, replayed
    deletions and other indexes use the buffer: as long as every registration
    finds a free slot and room in the queue, no operation fails, and the
    memtables of the standby hold exactly the rows the log has for their
    segment ids, each published in its slot and readable. *)
Theorem standby_follows_log {B} `{BlockId B} array_size mcap d e cap evs lsm slots v r :
  0 <= array_size /\ 0 <= mcap <= MEMTABLE_MAX_CAPACITY -> (8 | u64 (d * e)) -> memtable_cap array_size mcap (u64 (d * e)) = Ok cap ->
  shows array_size mcap d e cap lsm slots v -> standby_run array_size mcap (B := B) evs (lsm, slots) r ->
  exists lsm' slots', r = Ok (lsm', slots') /\ shows array_size mcap d e cap lsm' slots' (foldl (replayed d e cap) v evs).
Proof. intros Hs H8 Hc. by apply run_shows. Qed.

Lemma standby_follows_log_witness :
  shows 24 3 2 4 3 after_log.1 after_log.2 the_view /\ queue after_log.1 = [0] /\ growing_memtable_idx after_log.1 = 1.
Proof.
  destruct (standby_follows_log 24 3 2 4 3 log fresh_lsm (buffer 8) ∅ _ sizes width8 cap3 (fresh_shows 8 ltac:(lia)) log_run) as (lsm' & slots' & E & Hs).
  apply ok_state in E as [-> ->]. rewrite log_view in Hs. split; [exact Hs|]. split; vm_compute; reflexivity.
Defined.

(** A query on the standby sees the log.  After any run of the replay, the
    search of a standby index returns, over its memtables and the results of its
    segments, the nearest distinct tuple ids among exactly the logged rows that
    are not deleted (rows of floats; sealed memtables have no missing rows; and
    enough undeleted rows, as on the primary). *)
Theorem standby_query_sees_log {B} `{BlockId B} array_size mcap d e cap {D} (le : D -> D -> Prop) `{!RelDecision le} `{!Total le} `{!Transitive le}
    compute_distance qsort knowhere_search vector_search_send evs lsm0 slots0 v0 lsm slots query k segs :
  0 <= array_size /\ 0 <= mcap <= MEMTABLE_MAX_CAPACITY -> (8 | u64 (d * e)) -> memtable_cap array_size mcap (u64 (d * e)) = Ok cap ->
  u64 (d * e) = 4 * d /\ 0 <= d -> knowhere_ok le compute_distance knowhere_search -> qsort_ok le qsort ->
  shows array_size mcap d e cap lsm0 slots0 v0 -> standby_run array_size mcap (B := B) evs (lsm0, slots0) (Ok (lsm, slots)) ->
  let v := foldl (replayed d e cap) v0 evs in
  zlen slots = MEMTABLE_BUF_SIZE -> 0 < k -> growing_memtable_idx lsm <> MT_IDX_INVALID ->
  (forall i s, i ∈ known lsm -> slots !! i = Some s -> enough_rows (slot_mt s) (i =? growing_memtable_idx lsm) k) ->
  (forall i sid rows, i ∈ queue lsm -> id_of slots i = Some sid -> v !! sid = Some rows -> no_gap rows) ->
  (forall snap, vector_search_send snap = Ok tt) -> StronglySorted (nearer le) segs ->
  NoDup (id <$> (known lsm ≫= slot_cands cap compute_distance slots v query)) ->
  exists slots' out,
    search_lsm_index le compute_distance qsort knowhere_search vector_search_send (Ok segs) lsm slots query k = Ok (Returned slots' out) /\
    dedup_ranks le k ((known lsm ≫= slot_cands cap compute_distance slots v query) ++ segs) out.
Proof.
  intros Hs H8 Hc Hf Hkn Hq Hsh Hrun v. destruct (run_shows array_size mcap d e cap Hs H8 Hc _ _ _ _ _ Hsh Hrun) as (lsm' & slots' & E & Hsh').
  injection E as <- <-. intros. by eapply search_log_ok.
Qed.

Lemma standby_query_sees_log_witness :
  exists slots' out, search_lsm_index Z.le SearchExample.dist SearchExample.sort SearchExample.search (fun _ => Ok tt) (Ok SearchExample.segments)
    after_log.1 after_log.2 [6; 6] 1 = Ok (Returned slots' out) /\ id <$> out = [12].
Proof.
  assert (Hrun : standby_run 24 3 log (fresh_lsm, buffer 8) (Ok (after_log.1, after_log.2))).
  { assert (E : after_log = (after_log.1, after_log.2)) by apply surjective_pairing. rewrite <-E. exact log_run. }
  edestruct (standby_query_sees_log 24 3 2 4 3 Z.le SearchExample.dist SearchExample.sort SearchExample.search (fun _ => Ok tt) log fresh_lsm (buffer 8) ∅
    after_log.1 after_log.2 [6; 6] 1 SearchExample.segments sizes width8 cap3) as (slots' & out & Hr & _).
  - split; [reflexivity|lia].
  - exact SearchExample.search_ok.
  - exact SearchExample.sort_ok.
  - apply (fresh_shows 8). lia.
  - exact Hrun.
  - vm_compute. reflexivity.
  - lia.
  - vm_compute. discriminate.
  - assert (Hall : Forall (fun i => forall s, after_log.2 !! i = Some s -> enough_rows (slot_mt s) (i =? growing_memtable_idx after_log.1) 1) (known after_log.1)).
    { assert (Hk : known after_log.1 = [1; 0]) by (vm_compute; reflexivity). rewrite Hk. repeat constructor; intros s Hx; vm_compute in Hx; injection Hx as <-; vm_compute; discriminate. }
    intros i s Hi. rewrite Forall_forall in Hall. by apply Hall.
  - rewrite log_view. assert (Hq : queue after_log.1 = [0]) by (vm_compute; reflexivity). rewrite Hq. intros i sid rows ->%list_elem_of_singleton Hid.
    assert (Hid' : id_of after_log.2 0 = Some 4) by (vm_compute; reflexivity). rewrite Hid' in Hid. injection Hid as <-.
    assert (Hv : the_view !! 4 = Some {[ 0 := (11, Example.row 5); 1 := (12, Example.row 6) ]}) by (vm_compute; reflexivity). rewrite Hv. intros [= <-] i' j Hi Hj.
    assert (0 <= j < 2) as Hj2.
    { destruct (decide (i' < 2)); [lia|]. destruct Hi as [p Hp]. by rewrite lookup_insert_ne, lookup_singleton_ne in Hp by lia. }
    destruct (decide (j = 0)) as [->|]; [by eexists|]. replace j with 1 by lia. by eexists.
  - done.
  - repeat constructor; vm_compute; discriminate.
  - rewrite log_view. apply (bool_decide_unpack _). vm_compute. reflexivity.
  - exists slots', out. split; [exact Hr|]. vm_compute in Hr. injection Hr as _ <-. reflexivity.
Defined.

(** A segment takes over its memtables and no others.  When a fetched
    segment has been adopted, exactly the memtables whose ids it covers leave
    the queue (which keeps its order) and the growing position, and exactly
    their slots lose one reference each; every other slot of the buffer is left
    alone. *)
Theorem release_takes_covered array_size mcap d e cap lsm slots v start_sid end_sid :
  shows array_size mcap d e cap lsm slots v ->
  exists lsm', Standby.fetcher_release_covered_memtables lsm slots start_sid end_sid =
      Ok (lsm', add_refs slots (fun i => if decide (i ∈ known lsm /\ covered slots start_sid end_sid i) then -1 else 0)) /\
    queue lsm' = filter (fun i => ~ covered slots start_sid end_sid i) (queue lsm) /\
    known lsm' = filter (fun i => ~ covered slots start_sid end_sid i) (known lsm).
Proof.
  intros Hsh. destruct (release_known array_size mcap d e cap start_sid end_sid slots lsm v Hsh) as (lsm' & Hr & Hkn & Hq & _). exists lsm'.
  split; [|done]. rewrite Hr. do 2 f_equal. apply add_refs_ext. intros i. pose proof (bk_nodup _ _ _ _ _ _ _ _ (proj2 Hsh)) as Hnd.
  rewrite cnt_mem by (by apply NoDup_filter). case_decide as H1; case_decide as H2; rewrite list_elem_of_filter in H1; tauto || lia.
Qed.

Lemma release_takes_covered_witness :
  exists lsm', Standby.fetcher_release_covered_memtables after_log.1 after_log.2 4 4 =
      Ok (lsm', add_refs after_log.2 (fun i => if decide (i ∈ known after_log.1 /\ covered after_log.2 4 4 i) then -1 else 0)) /\ known lsm' = [1].
Proof.
  destruct (standby_follows_log 24 3 2 4 3 log fresh_lsm (buffer 8) ∅ _ sizes width8 cap3 (fresh_shows 8 ltac:(lia)) log_run) as (lsm1 & slots1 & E & Hs).
  apply ok_state in E as [-> ->]. destruct (release_takes_covered 24 3 2 4 3 after_log.1 after_log.2 _ 4 4 Hs) as (lsm' & Hr & _ & Hk).
  exists lsm'. split; [exact Hr|]. rewrite Hk. vm_compute. reflexivity.
Defined.

(** A full queue loses the growing memtable.  When a newer memtable is
    registered while [MEMTABLE_NUM] sealed memtables still wait for their
    segments, the one that was growing is sealed and dropped: its rows are no
    longer found by any record or search, and because nothing names its slot any
    more, no later release gives the slot back. *)
Theorem full_queue_loses_growing array_size mcap d e cap lsm slots v sid :
  0 <= array_size /\ 0 <= mcap <= MEMTABLE_MAX_CAPACITY -> (8 | u64 (d * e)) -> memtable_cap array_size mcap (u64 (d * e)) = Ok cap ->
  shows array_size mcap d e cap lsm slots v -> memtable_count lsm = MEMTABLE_NUM -> 0 < free_slots slots ->
  growing_memtable_idx lsm <> MT_IDX_INVALID -> growing_memtable_id lsm < sid -> v !! sid = None ->
  exists lsm' slots' s', Standby.dpv_standby_register_memtable array_size mcap lsm slots sid = Ok (lsm', slots') /\
    slots' !! growing_memtable_idx lsm = Some s' /\ 0 < mt_ref_count s' /\ sealed (slot_mt s') = true /\
    (growing_memtable_idx lsm ∉ known lsm') /\
    Standby.find_memtable_by_sid lsm' slots' (growing_memtable_id lsm) = Ok None /\
    forall start_sid end_sid lsm2 slots2, Standby.fetcher_release_covered_memtables lsm' slots' start_sid end_sid = Ok (lsm2, slots2) ->
      mt_ref_count <$> slots2 !! growing_memtable_idx lsm = Some (mt_ref_count s').
Proof.
  intros Hs H8 Hc Hsh Hfull Hfree Hgi Hlt Hv.
  destruct (full_register array_size mcap d e cap lsm slots v sid Hs H8 Hc Hsh Hfull Hfree Hgi Hlt Hv) as (lsm' & slots' & Hr & Hsh' & Hnot & s & s' & Hg & Hg' & Href & Hmt).
  assert (Hin : growing_memtable_idx lsm ∈ known lsm) by (apply growing_known; apply zlookup_lt_Some in Hg; lia).
  destruct (bk_rows _ _ _ _ _ _ _ _ (proj2 Hsh) _ Hin) as (s0 & Hs0 & Hpos & _). rewrite Hg in Hs0. injection Hs0 as <-.
  exists lsm', slots', s'. split; [done|]. split; [done|]. split; [by rewrite Href|]. split; [by rewrite Hmt|]. split; [done|]. split.
  - destruct (find_ok _ _ _ _ _ lsm' slots' _ (growing_memtable_id lsm) Hsh') as (o & -> & Ho). destruct o as [i|]; [|done].
    destruct Ho as (_ & _ & rows & _ & _ & Hx & _). by rewrite lookup_insert_ne, lookup_delete_eq in Hx by lia.
  - intros a b lsm2 slots2 Hrel. destruct (release_known _ _ _ _ _ a b slots' lsm' _ Hsh') as (lsm3 & Hrel' & _). rewrite Hrel in Hrel'. injection Hrel' as _ ->.
    unfold drop_refs. rewrite add_refs_lookup, Hg'. cbn. unfold update; cbn. f_equal. rewrite cnt_mem by (apply NoDup_filter, (bk_nodup _ _ _ _ _ _ _ _ (proj2 Hsh'))).
    rewrite decide_False by (by intros [_ ?]%list_elem_of_filter). rewrite Z.add_0_r, u32_small; [done|]. by apply (bk_buffer _ _ _ _ _ _ _ _ (proj2 Hsh') _ _ Hg').
Qed.

Lemma crowded_shows : shows 24 3 2 4 3 crowded.1 crowded.2 {[ 4 := ∅; 5 := ∅; 6 := ∅; 7 := ∅; 8 := ∅ ]}.
Proof.
  assert (Hrun : standby_run 24 3 (B := Z) [Register 4; Register 5; Register 6; Register 7; Register 8] (fresh_lsm, buffer 8) (Ok crowded))
    by (apply replay_run; vm_compute; reflexivity).
  destruct (run_shows 24 3 2 4 3 sizes width8 cap3 _ _ _ _ _ (fresh_shows 8 ltac:(lia)) Hrun) as (lsm' & slots' & E & Hs).
  apply ok_state in E as [-> ->]. exact Hs.
Qed.

Lemma full_queue_loses_growing_witness :
  exists lsm' slots' s', Standby.dpv_standby_register_memtable 24 3 crowded.1 crowded.2 9 = Ok (lsm', slots') /\
    slots' !! growing_memtable_idx crowded.1 = Some s' /\ 0 < mt_ref_count s' /\ Standby.find_memtable_by_sid lsm' slots' 8 = Ok None.
Proof.
  destruct (full_queue_loses_growing 24 3 2 4 3 crowded.1 crowded.2 _ 9 sizes width8 cap3 crowded_shows) as (lsm' & slots' & s' & Hr & Hs & Hp & _ & _ & Hf & _);
    [vm_compute; reflexivity..|vm_compute; discriminate|vm_compute; reflexivity|vm_compute; reflexivity|].
  exists lsm', slots', s'. split; [exact Hr|]. split; [exact Hs|]. split; [exact Hp|]. assert (E : growing_memtable_id crowded.1 = 8) by (vm_compute; reflexivity).
  rewrite E in Hf. exact Hf.
Defined.

(** The first record after a restart counts its row twice.  The tuple id of
    an insert is in the status pages when its record is replayed; a record that
    makes the standby recover the index therefore finds its row rebuilt already.
    Replaying it makes [ready_cnt] exceed the number of rows, and once the
    memtable is sealed, waiting for its rows before the flush (after a
    promotion) ends in an error, whenever it is tried. *)
Theorem recovered_row_counted_twice array_size mcap n closed sid rows mt i t x :
  rebuilt array_size mcap n closed sid rows mt -> (8 | VEC_BYTES_PER_ROW mt) -> (0 < n)%nat -> Z.of_nat n < 2 ^ 31 ->
  Forall (fun p => zlen p.2 = VEC_BYTES_PER_ROW mt) rows -> rows !! i = Some (t, x) ->
  exists mt', Standby.add_row mt i t x = Ok mt' /\ holds_rows mt' (map_seqZ 0 rows) /\
    current_size mt' = zlen rows /\ ready_cnt mt' = zlen rows + 1 /\
    Insert.wait_for_publish (mt' <| sealed := true |>) = Error ElogError.
Proof.
  intros Hrb H8 Hn Hn' Hw Hi. pose proof (rebuilt_holds _ _ _ _ _ _ _ Hrb H8 Hn Hn' Hw) as Hh. pose proof (zlookup_lt_Some _ _ _ Hi) as Hir.
  destruct (rb_size _ _ _ _ _ _ _ Hrb) as (Hsz & Hcnt & Hcap). pose proof (proj1 (Forall_forall _ rows) Hw (t, x) ltac:(apply elem_of_zlookup; by exists i)) as Hx. cbn in Hx.
  destruct (add_row_ok mt _ i t x Hh ltac:(lia)) as (mt' & Ha & _ & Hrows & Hc' & _). rewrite (proj2 (Z.ltb_lt i (capacity mt))), (proj2 (Z.eqb_eq _ _) Hx) in Hrows by lia. cbn [andb] in Hrows.
  destruct Hrows as (Hh' & Hr' & Hs'). pose proof (hr_arrays _ _ Hh) as [Hcm _]. unfold MEMTABLE_MAX_CAPACITY in Hcm. rewrite Hcnt, u32_small in Hr' by lia. rewrite Hsz in Hs'.
  exists mt'. split; [done|]. split; [|split; [lia|split; [done|]]].
  - rewrite insert_id in Hh'; [done|]. rewrite lookup_map_seqZ_0, <-zlookup_nat by lia. rewrite <-Hi. f_equal. lia.
  - unfold Insert.wait_for_publish. change (sealed (mt' <| sealed := true |>)) with true. cbv iota. change (current_size (mt' <| sealed := true |>)) with (current_size mt').
    change (capacity (mt' <| sealed := true |>)) with (capacity mt'). change (ready_cnt (mt' <| sealed := true |>)) with (ready_cnt mt'). cbn zeta.
    rewrite (proj2 (Z.ltb_lt _ _)) by lia. done.
Qed.

Lemma one_row_rebuilt : exists mt, rebuilt 24 3 1 false 7 [(11, Example.row 5)] mt /\ VEC_BYTES_PER_ROW mt = 8.
Proof.
  assert (Hup : set_up 24 3 (Example.mt 3)) by (apply Example.mt_set_up; lia). assert (H8 : (8 | VEC_BYTES_PER_ROW (Example.mt 3))) by by exists 1.
  pose proof (filled_empty 24 3 (Example.mt 3) 1 Hup H8 ltac:(lia) ltac:(lia) eq_refl) as H0.
  destruct (write_next_row 24 3 (Example.mt 3) 1 Hup H8 ltac:(lia) ltac:(lia) eq_refl _ _ 11 (Example.row 5) H0) as (mt1 & _ & mt2 & _ & H1);
    [vm_compute; reflexivity|vm_compute; reflexivity|].
  exists (mt2 <| sealed := false |>). split.
  - refine (filled_rebuilt 24 3 1 ltac:(lia) ltac:(lia) (Example.mt 3) mt2 _ false Hup H8 eq_refl eq_refl _ H1).
    intros i Hi. change (mt_bitmap (Example.mt 3)) with (mem_clear (mt_bitmap Example.slot0) MEMTABLE_BITMAP_SIZE). by apply cleared_bits.
  - destruct (filled_fields (Example.mt 3) 1 eq_refl _ _ H1) as (_ & _ & _ & _ & Hv & _). exact Hv.
Qed.

Lemma recovered_row_counted_twice_witness :
  exists mt mt', rebuilt 24 3 1 false 7 [(11, Example.row 5)] mt /\ Standby.add_row mt 0 11 (Example.row 5) = Ok mt' /\
    current_size mt' = 1 /\ ready_cnt mt' = 2 /\ Insert.wait_for_publish (mt' <| sealed := true |>) = Error ElogError.
Proof.
  destruct one_row_rebuilt as (mt & Hrb & Hv).
  destruct (recovered_row_counted_twice 24 3 1 false 7 _ mt 0 11 (Example.row 5) Hrb) as (mt' & Ha & _ & Hs & Hr & Hw).
  - rewrite Hv. by exists 1.
  - lia.
  - lia.
  - rewrite Hv. repeat constructor.
  - reflexivity.
  - exists mt, mt'. split; [exact Hrb|]. split; [exact Ha|]. split; [exact Hs|]. split; [exact Hr|exact Hw].
Defined.
