(* ===== verification/FetcherAdopt.v ===== *)
(** What a fetcher does with an entry of the queue (the loop body of
    [segment_fetcher_main] in segment_fetcher.c): the files are pulled, the
    memtables the segment covers are found and sorted, their deletions are
    captured, the worker adopts the segment, and the memtables are let go.

    From finding the memtables to letting them go the fetcher holds their vacuum
    locks shared, so no deletion is replayed into them in between.  The exchange
    with the worker is an argument; the theorems instantiate it with
    [dpv_pool_adopt]. *)

From S2P Require Import Prelude Bitmap SegmentPool FileNames SegmentFiles Tombstones Adoption Memtable MemtableSearch MemtableCycle SegmentFetch FetchQueue RecoverSegments Recovery StandbyMemtable.

Module Fetcher.

(** A memtable of the cover: [memtable_cover] and [cover_mts] side by side. *)
Definition cover_entry : Type := Z * ConcurrentMemTableData.

(** The sealed memtables of the range, at most [MEMTABLE_NUM + 1] in all. *)
Fixpoint cover_queued (slots : list MemtableBufferSlot) (start_sid end_sid : Z) (idxs : list Z) (cover : list cover_entry) : res (list cover_entry) :=
  match idxs with
  | [] => Ok cover
  | i :: idxs =>
      if zlen cover <? MEMTABLE_NUM + 1 then
        if i <? 0 then cover_queued slots start_sid end_sid idxs cover
        else
          s ← arr_get slots i;
          let sid := memtable_id (slot_mt s) in
          cover_queued slots start_sid end_sid idxs (if Standby.covers_sid start_sid end_sid sid then cover ++ [(sid, slot_mt s)] else cover)
      else Ok cover
  end.

Definition find_cover (lsm : LSMIndexData) (slots : list MemtableBufferSlot) (start_sid end_sid : Z) : res (list cover_entry) :=
  cover ← cover_queued slots start_sid end_sid (queue lsm) [];
  let g := growing_memtable_idx lsm in
  if negb (g =? MT_IDX_INVALID) && negb (g =? MT_IDX_ROTATING) && (zlen cover <? MEMTABLE_NUM + 1) then
    s ← arr_get slots g;
    let sid := memtable_id (slot_mt s) in
    Ok (if Standby.covers_sid start_sid end_sid sid then cover ++ [(sid, slot_mt s)] else cover)
  else Ok cover.

(** The inner loop of the insertion sort. *)
Fixpoint sift (fuel : nat) (a : list cover_entry) (sj : Z) (v : cover_entry) : res (list cover_entry) :=
  match fuel with
  | O => Error OutOfFuel
  | S fuel =>
      if sj <? 0 then arr_set a (sj + 1) v
      else
        x ← arr_get a sj;
        if v.1 <? x.1 then a ← arr_set a (sj + 1) x; sift fuel a (sj - 1) v
        else arr_set a (sj + 1) v
  end.

Definition sort_cover (a : list cover_entry) : res (list cover_entry) :=
  foldl_res (fun a si => v ← arr_get a si; sift (S (Z.to_nat si)) a (si - 1) v) a (seqZ 1 (zlen a - 1)).

(** One group per memtable with deletions, the tuple ids in row order. *)
Definition group_of (mt : ConcurrentMemTableData) : res (option DpvVacuumGroup) :=
  let valid_size := if capacity mt <? current_size mt then capacity mt else current_size mt in
  let n_set := foldl (fun n j => if IS_SLOT_SET (mt_bitmap mt) j then n + 1 else n) 0 (seqZ 0 valid_size) in
  if n_set =? 0 then Ok None
  else
    g_tids ← foldl_res (fun l j => if IS_SLOT_SET (mt_bitmap mt) j then t ← arr_get (tids mt) j; Ok (l ++ [t]) else Ok l) [] (seqZ 0 valid_size);
    Ok (Some (mkGroup (memtable_id mt) g_tids)).

Definition groups_of (cover : list cover_entry) : res (list DpvVacuumGroup) :=
  foldl_res (fun groups c => g ← group_of c.2; Ok (match g with Some g => groups ++ [g] | None => groups end)) [] cover.

Section adopt.
(** The worker's state, and the exchange with it. *)
Context {P : Type} (dpv_send_adopt_task : list Z -> list DpvVacuumGroup -> P -> res (Adopt.DpvAdoptionOutcome * P)).

Definition adopt_fetched (lsm : LSMIndexData) (slots : list MemtableBufferSlot) (pool : P) (start_sid end_sid : Z)
    : res (LSMIndexData * list MemtableBufferSlot * P) :=
  found ← find_cover lsm slots start_sid end_sid;
  cover ← sort_cover found;
  groups ← groups_of cover;
  '(adopt_result, pool) ← dpv_send_adopt_task cover.*1 groups pool;
  match adopt_result with
  | Adopt.DPV_ADOPT_STALE_DISCARD => Ok (lsm, slots, pool)
  | _ => '(lsm, slots) ← Standby.fetcher_release_covered_memtables lsm slots start_sid end_sid; Ok (lsm, slots, pool)
  end.

(** One entry: [lsm] is the index [lookup_lsm_index_idx] finds, [server] what
    the primary answers. *)
Definition fetch_entry_body (server : DpvFileKind -> reply) (name : string) (key : DpvFetchKey) (q : queue_dir) (d : directory)
    (lsm : option LSMIndexData) (slots : list MemtableBufferSlot) (pool : P)
    : res (queue_dir * directory * option LSMIndexData * list MemtableBufferSlot * P) :=
  let '(ops, fetched) := Pull.pull_all_files server (k_start_sid key) (k_end_sid key) (k_version key) d in
  let d := run_fetch d ops in
  if negb fetched then Ok (dpv_queue_mark q name DPV_FETCH_FAILED, d, lsm, slots, pool)
  else
    '(lsm, slots, pool) ←
      match lsm with
      | None => Ok (None, slots, pool)
      | Some lsm => '(lsm, slots, pool) ← adopt_fetched lsm slots pool (k_start_sid key) (k_end_sid key); Ok (Some lsm, slots, pool)
      end;
    Ok (dpv_queue_mark q name DPV_FETCH_DONE, d, lsm, slots, pool).
End adopt.

End Fetcher.

(** ** Sorting *)

Abbreviation by_sid := (fun x y : Fetcher.cover_entry => x.1 <= y.1).

Lemma arr_set_app {A} (l k : list A) x y : arr_set (l ++ x :: k) (zlen l) y = Ok (l ++ y :: k).
Proof.
  rewrite (arr_set_Some _ _ _ x) by (rewrite zlookup_app_r, Z.sub_diag by lia; done). f_equal.
  apply zlist_eq; [rewrite zlen_insert, !zlen_app; f_equal; by rewrite !zlen_cons|]. rewrite zlen_insert. intros i Hi.
  destruct (Z.lt_trichotomy i (zlen l)) as [Hl|[->|Hr]].
  - rewrite zlookup_insert_ne, !zlookup_app_l by lia. done.
  - rewrite (zlookup_insert_eq _ _ _ x) by (rewrite zlookup_app_r, Z.sub_diag by lia; done). by rewrite zlookup_app_r, Z.sub_diag by lia.
  - rewrite zlookup_insert_ne, !zlookup_app_r by lia. change (x :: k) with ([x] ++ k). change (y :: k) with ([y] ++ k).
    rewrite !(zlookup_app_r [_] k) by (rewrite zlen_cons, zlen_nil; lia). done.
Qed.

Lemma sorted_snoc_le (l : list Fetcher.cover_entry) x y : StronglySorted by_sid (l ++ [x]) -> y ∈ l ++ [x] -> y.1 <= x.1.
Proof.
  intros Hs [Hy| ->%list_elem_of_singleton]%elem_of_app; [|lia]. apply (StronglySorted_app_1_elem_of by_sid l [x] y x Hs Hy). left.
Qed.

Lemma sift_ok (v : Fetcher.cover_entry) (pre : list Fetcher.cover_entry) : forall x rest fuel,
  (length pre < fuel)%nat -> StronglySorted by_sid pre ->
  exists l1 l2, pre = l1 ++ l2 /\ Fetcher.sift fuel (pre ++ x :: rest) (zlen pre - 1) v = Ok (l1 ++ v :: l2 ++ rest) /\
    (forall y, y ∈ l1 -> y.1 <= v.1) /\ (forall y, y ∈ l2 -> v.1 < y.1).
Proof.
  induction pre as [|y pre IH] using rev_ind; intros x rest fuel Hf Hs; (destruct fuel as [|fuel]; [lia|]); cbn [Fetcher.sift].
  - exists [], []. split; [done|]. split; [|split; by intros ? ?%elem_of_nil]. zcase; [|by destruct (Z.ltb_spec (zlen (@nil Fetcher.cover_entry) - 1) 0)].
    change (zlen [] - 1 + 1) with (zlen (@nil Fetcher.cover_entry)). by rewrite (arr_set_app [] rest).
  - rewrite zlen_app, zlen_cons, zlen_nil. pose proof (zlen_nonneg pre). rewrite (proj2 (Z.ltb_ge _ _)) by lia.
    replace (zlen pre + (1 + 0) - 1) with (zlen pre) by lia. rewrite <-app_assoc. cbn [app].
    assert (Hy : (pre ++ y :: x :: rest) !! zlen pre = Some y) by (by rewrite zlookup_app_r, Z.sub_diag by lia).
    rewrite (proj2 (arr_get_Ok _ _ _) Hy). cbn [mbind res_bind].
    replace (pre ++ y :: x :: rest) with ((pre ++ [y]) ++ x :: rest) by (by rewrite <-app_assoc).
    assert (Hset : forall z, arr_set ((pre ++ [y]) ++ x :: rest) (zlen pre + 1) z = Ok ((pre ++ [y]) ++ z :: rest)).
    { intros z. replace (zlen pre + 1) with (zlen (pre ++ [y])) by (rewrite zlen_app, zlen_cons, zlen_nil; lia). apply arr_set_app. }
    rewrite !Hset. cbn [mbind res_bind]. destruct (Z.ltb_spec v.1 y.1) as [Hlt|Hge].
    + rewrite length_app in Hf. cbn in Hf. rewrite <-app_assoc. cbn [app]. destruct (IH y (y :: rest) fuel) as (l1 & l2 & -> & -> & H1 & H2); [lia|by eapply StronglySorted_app_1_l|].
      exists l1, (l2 ++ [y]). rewrite <-!app_assoc. split; [done|]. split; [done|]. split; [done|]. intros z [Hz| ->%list_elem_of_singleton]%elem_of_app; [by apply H2|done].
    + exists (pre ++ [y]), []. rewrite app_nil_r. split; [done|]. split; [done|]. split; [|by intros ? ?%elem_of_nil].
      intros z Hz. pose proof (sorted_snoc_le _ _ _ Hs Hz). lia.
Qed.

Lemma sort_loop (rest done : list Fetcher.cover_entry) x :
  StronglySorted by_sid (done ++ [x]) ->
  exists a', foldl_res (fun a si => v ← arr_get a si; Fetcher.sift (S (Z.to_nat si)) a (si - 1) v) (done ++ x :: rest) (seqZ (zlen (done ++ [x])) (zlen rest)) = Ok a' /\
    a' ≡ₚ done ++ x :: rest /\ StronglySorted by_sid a'.
Proof.
  revert done x. induction rest as [|v rest IH]; intros done x Hs; [by exists (done ++ [x])|].
  rewrite zlen_cons. pose proof (zlen_nonneg rest). rewrite seqZ_cons by lia. cbn [foldl_res].
  replace (done ++ x :: v :: rest) with ((done ++ [x]) ++ v :: rest) by (by rewrite <-app_assoc). set (pre := done ++ [x]) in *.
  assert (Hv : (pre ++ v :: rest) !! zlen pre = Some v) by (by rewrite zlookup_app_r, Z.sub_diag by lia).
  rewrite (proj2 (arr_get_Ok _ _ _) Hv). cbn [mbind res_bind].
  destruct (sift_ok v pre v rest (S (Z.to_nat (zlen pre)))) as (l1 & l2 & Hpre & -> & H1 & H2); [unfold zlen; lia|done|]. cbn [mbind res_bind].
  assert (Hs' : StronglySorted by_sid (l1 ++ v :: l2)).
  { rewrite Hpre in Hs. apply StronglySorted_app in Hs as (Hc & Hs1 & Hs2). apply StronglySorted_app_2; [|done|].
    - intros y z Hy [->|Hz]%elem_of_cons; [by apply H1|by apply Hc].
    - apply SSorted_cons; [done|]. apply Forall_forall. intros y Hy. specialize (H2 y Hy). cbn. lia. }
  destruct (exists_last (l := l1 ++ v :: l2)) as (d & z & Hd); [by destruct l1|]. rewrite Hd in Hs'.
  replace (l1 ++ v :: l2 ++ rest) with (d ++ z :: rest) by (change (z :: rest) with ([z] ++ rest); rewrite app_assoc, <-Hd; by rewrite <-app_assoc).
  replace (Z.pred (1 + zlen rest)) with (zlen rest) by lia. change (Z.succ (zlen pre)) with (zlen pre + 1).
  assert (Hz : zlen pre + 1 = zlen (d ++ [z])) by (rewrite <-Hd, Hpre, !zlen_app, zlen_cons; lia). rewrite Hz.
  destruct (IH d z Hs') as (a' & -> & Hp & Hsa). exists a'. split; [reflexivity|]. split; [|done].
  rewrite Hp. change (z :: rest) with ([z] ++ rest). rewrite app_assoc, <-Hd, Hpre. solve_Permutation.
Qed.

(** The sort ends, and sorts. *)
Lemma sort_cover_ok a : exists a', Fetcher.sort_cover a = Ok a' /\ a' ≡ₚ a /\ StronglySorted by_sid a'.
Proof.
  unfold Fetcher.sort_cover. destruct a as [|x rest]; [exists []; split; [reflexivity|split; [done|apply SSorted_nil]]|].
  rewrite zlen_cons. replace (1 + zlen rest - 1) with (zlen rest) by lia.
  destruct (sort_loop rest [] x) as (a' & Ha & Hp & Hs); [repeat constructor|]. by exists a'.
Qed.

(** ** The memtables a segment covers *)

Definition entry_of (s : MemtableBufferSlot) : Fetcher.cover_entry := (memtable_id (slot_mt s), slot_mt s).
Definition entries (slots : list MemtableBufferSlot) (l : list Z) : list Fetcher.cover_entry := omap (fun i => entry_of <$> slots !! i) l.

Section cover.
Context (slots : list MemtableBufferSlot) (a b : Z).

Lemma covered_slot i s : slots !! i = Some s -> covered slots a b i <-> Standby.covers_sid a b (memtable_id (slot_mt s)) = true.
Proof. intros Hs. unfold covered, id_of. by rewrite Hs. Qed.

Lemma covered_cons i s l : slots !! i = Some s ->
  entries slots (filter (covered slots a b) (i :: l)) =
  (if Standby.covers_sid a b (memtable_id (slot_mt s)) then [entry_of s] else []) ++ entries slots (filter (covered slots a b) l).
Proof.
  intros Hs. rewrite filter_cons. pose proof (covered_slot i s Hs) as Hc. destruct (Standby.covers_sid a b _).
  - rewrite decide_True by (by apply Hc). unfold entries. cbn [omap list_omap]. by rewrite Hs.
  - rewrite decide_False by (by intros ?%Hc). done.
Qed.

Lemma cover_queued_ok idxs : forall cover,
  zlen cover + zlen idxs <= MEMTABLE_NUM + 1 -> (forall i, i ∈ idxs -> is_Some (slots !! i)) ->
  Fetcher.cover_queued slots a b idxs cover = Ok (cover ++ entries slots (filter (covered slots a b) idxs)).
Proof.
  induction idxs as [|i idxs IH]; intros cover Hz Hin; [by rewrite app_nil_r|]. cbn [Fetcher.cover_queued]. rewrite zlen_cons in Hz. pose proof (zlen_nonneg idxs).
  rewrite (proj2 (Z.ltb_lt _ _)) by lia. destruct (Hin i ltac:(left)) as [s Hs]. rewrite (proj2 (Z.ltb_ge i 0)) by (apply zlookup_lt_Some in Hs; lia).
  rewrite (proj2 (arr_get_Ok _ _ _) Hs). cbn [mbind res_bind]. rewrite (covered_cons i s idxs Hs), IH.
  - fold (entry_of s). destruct (Standby.covers_sid _ _ _); [by rewrite <-app_assoc|done].
  - destruct (Standby.covers_sid _ _ _); rewrite ?zlen_app, ?zlen_cons, ?zlen_nil; lia.
  - intros j Hj. apply Hin. by right.
Qed.

Lemma entries_le l : zlen (entries slots (filter (covered slots a b) l)) <= zlen l.
Proof.
  induction l as [|i l IH]; [done|]. rewrite filter_cons, zlen_cons. unfold entries in *. case_decide; cbn [omap list_omap]; [|lia].
  destruct (slots !! i); cbn; rewrite ?zlen_cons; lia.
Qed.

Lemma find_cover_ok array_size mcap d e cap lsm v : shows array_size mcap d e cap lsm slots v ->
  exists l, l ≡ₚ known lsm /\ Fetcher.find_cover lsm slots a b = Ok (entries slots (filter (covered slots a b) l)).
Proof.
  intros [[[Hc Hz] _ Hg] Hb]. unfold Fetcher.find_cover.
  assert (Hq : zlen (queue lsm) <= MEMTABLE_NUM) by (unfold queue, zlen in *; rewrite length_take; lia).
  assert (Hsome : forall i, i ∈ known lsm -> is_Some (slots !! i)) by (intros i Hi; destruct (bk_rows _ _ _ _ _ _ _ _ Hb i Hi) as (s & ? & _); by exists s).
  rewrite cover_queued_ok by (first [intros i Hi; apply Hsome; unfold known; set_solver|rewrite zlen_nil; unfold MEMTABLE_NUM in *; lia]).
  cbn [mbind res_bind app]. pose proof (entries_le (queue lsm)) as Hle. unfold known in *. destruct Hg as [Hg|[Hg0 Hid]].
  - rewrite Hg in *. exists (queue lsm). by split.
  - unfold MT_IDX_INVALID, MT_IDX_ROTATING in *. rewrite (proj2 (Z.eqb_neq (growing_memtable_idx lsm) (-1))) in * by lia.
    rewrite (proj2 (Z.eqb_neq (growing_memtable_idx lsm) (-2))) by lia. cbn [negb andb].
    exists (queue lsm ++ [growing_memtable_idx lsm]). split; [by rewrite Permutation_app_comm|].
    assert (Hlt : zlen (entries slots (filter (covered slots a b) (queue lsm))) < MEMTABLE_NUM + 1) by lia. apply Z.ltb_lt in Hlt. unfold Fetcher.cover_entry in *. rewrite Hlt.
    destruct (Hsome (growing_memtable_idx lsm)) as [s Hs]; [set_solver|]. rewrite (proj2 (arr_get_Ok _ _ _) Hs). cbn [mbind res_bind].
    rewrite filter_app. unfold entries at 1 2 3. rewrite omap_app. fold (entries slots (filter (covered slots a b) (queue lsm))).
    fold (entries slots (filter (covered slots a b) [growing_memtable_idx lsm])). rewrite (covered_cons _ s [] Hs). fold (entry_of s).
    destruct (Standby.covers_sid _ _ _); [done|by rewrite app_nil_r].
Qed.

Lemma elem_of_entries l c :
  c ∈ entries slots (filter (covered slots a b) l) <->
  exists i s, i ∈ l /\ slots !! i = Some s /\ Standby.covers_sid a b (memtable_id (slot_mt s)) = true /\ c = entry_of s.
Proof.
  unfold entries. rewrite list_elem_of_omap. split.
  - intros (i & [Hc Hi]%list_elem_of_filter & He). destruct (slots !! i) as [s|] eqn:Hs; [|done]. injection He as <-. exists i, s.
    split; [done|]. split; [done|]. split; [by eapply covered_slot|done].
  - intros (i & s & Hi & Hs & Hc & ->). exists i. rewrite Hs. split; [|done]. apply list_elem_of_filter. split; [by eapply covered_slot|done].
Qed.

(** The cover the worker gets: the ids of the range, each once, ascending. *)
Lemma cover_ids array_size mcap d e cap lsm v l cover :
  shows array_size mcap d e cap lsm slots v -> l ≡ₚ known lsm ->
  cover ≡ₚ entries slots (filter (covered slots a b) l) -> StronglySorted by_sid cover ->
  (forall sid, sid ∈ cover.*1 <-> is_Some (v !! sid) /\ a <= sid <= b) /\ StronglySorted Z.lt cover.*1.
Proof.
  intros [_ Hb] Hl Hp Hs. split.
  - intros sid. rewrite list_elem_of_fmap. split.
    + intros (c & -> & Hc). rewrite Hp in Hc. apply elem_of_entries in Hc as (i & s & Hi & Hsi & Hcs & ->). rewrite Hl in Hi.
      destruct (bk_rows _ _ _ _ _ _ _ _ Hb i Hi) as (s0 & Hs0 & _ & _ & _ & rows & Hv & _). assert (s0 = s) as -> by congruence. cbn.
      unfold Standby.covers_sid in Hcs. split; [by exists rows|]. lia.
    + intros [Hv Hr]. destruct (bk_view _ _ _ _ _ _ _ _ Hb sid Hv) as (i & Hi & Hid). apply id_of_Some in Hid as (s & Hsi & Hid). exists (entry_of s).
      split; [by cbn|]. rewrite Hp. apply elem_of_entries. exists i, s. rewrite Hl. unfold Standby.covers_sid. rewrite Hid. split_and!; (done || lia).
  - assert (Hnd : NoDup cover.*1).
    { rewrite Hp. assert (Hin : forall i, i ∈ l -> i ∈ known lsm) by (intros i; by rewrite Hl).
      assert (Hndl : NoDup l) by (rewrite Hl; apply (bk_nodup _ _ _ _ _ _ _ _ Hb)). clear Hl Hp. induction Hndl as [|i l Hi Hndl IH]; [apply NoDup_nil_2|].
      destruct (bk_rows _ _ _ _ _ _ _ _ Hb i (Hin i ltac:(left))) as (s & Hsi & _). rewrite (covered_cons i s l Hsi), fmap_app.
      specialize (IH ltac:(intros j Hj; apply Hin; by right)). destruct (Standby.covers_sid _ _ _); [|done]. cbn. apply NoDup_cons. split; [|done].
      intros (c & Hc & (j & s' & Hj & Hsj & _ & ->)%elem_of_entries)%list_elem_of_fmap. cbn in Hc.
      assert (i = j) as ->; [|done]. apply (bk_ids _ _ _ _ _ _ _ _ Hb i j (memtable_id (slot_mt s))); [apply Hin; left|apply Hin; by right|..]; apply id_of_Some; by eexists. }
    clear Hp. induction Hs as [|c cover Hs IH Hall]; [apply SSorted_nil|]. apply NoDup_cons in Hnd as [Hc Hnd]. apply SSorted_cons; [by apply IH|].
    apply Forall_forall. intros sid Hsid. pose proof Hsid as (c' & -> & Hc')%list_elem_of_fmap. rewrite Forall_forall in Hall. specialize (Hall c' Hc'). cbn in *.
    assert (c.1 <> c'.1) by (intros E; apply Hc; by rewrite E). lia.
Qed.
End cover.

(** *** Their deletions *)

(** The deleted rows of a memtable, in row order. *)
Definition marked_tids (mt : ConcurrentMemTableData) : list Z :=
  omap (fun j => if IS_SLOT_SET (mt_bitmap mt) j then tids mt !! j else None) (seqZ 0 (valid_num mt)).

Lemma marked_loop mt (n : Z) : 0 <= n <= zlen (tids mt) ->
  foldl (fun k j => if IS_SLOT_SET (mt_bitmap mt) j then k + 1 else k) 0 (seqZ 0 n) =
    zlen (omap (fun j => if IS_SLOT_SET (mt_bitmap mt) j then tids mt !! j else None) (seqZ 0 n)) /\
  foldl_res (fun l j => if IS_SLOT_SET (mt_bitmap mt) j then t ← arr_get (tids mt) j; Ok (l ++ [t]) else Ok l) [] (seqZ 0 n) =
    Ok (omap (fun j => if IS_SLOT_SET (mt_bitmap mt) j then tids mt !! j else None) (seqZ 0 n)).
Proof.
  set (f := fun j => if IS_SLOT_SET (mt_bitmap mt) j then tids mt !! j else None). intros [H0 Hn]. revert n H0 Hn. apply (natlike_ind (fun n => n <= zlen (tids mt) -> _)).
  - by intros _.
  - intros n H0 IH Hn. destruct IH as [IH1 IH2]; [lia|]. change (Z.succ n) with (n + 1) in *. rewrite seqZ_snoc, omap_app by lia. change (0 + n) with n.
    destruct (zlookup_lt_is_Some (tids mt) n) as [t Ht]; [lia|]. rewrite foldl_app, foldl_res_app, IH1, IH2. cbn [foldl foldl_res mbind res_bind omap list_omap].
    assert (Hf : f n = if IS_SLOT_SET (mt_bitmap mt) n then Some t else None) by (unfold f; by rewrite Ht). rewrite Hf. destruct (IS_SLOT_SET (mt_bitmap mt) n).
    + rewrite (proj2 (arr_get_Ok _ _ _) Ht), zlen_app. by cbn.
    + by rewrite app_nil_r.
Qed.

Lemma group_of_ok mt rows : holds_rows mt rows ->
  Fetcher.group_of mt = Ok (if decide (marked_tids mt = []) then None else Some (mkGroup (memtable_id mt) (marked_tids mt))).
Proof.
  intros [(Hc & _ & Ht) _ _ [Hs _] _ _ _]. unfold Fetcher.group_of. rewrite Z.ltb_antisym.
  replace (if negb (current_size mt <=? capacity mt) then capacity mt else current_size mt) with (valid_num mt) by (unfold valid_num; destruct (Z.leb_spec (current_size mt) (capacity mt)); cbn; lia).
  destruct (marked_loop mt (valid_num mt)) as [-> ->]; [unfold valid_num; lia|]. fold (marked_tids mt) in *.
  destruct (Z.eqb_spec (zlen (marked_tids mt)) 0) as [Hz|Hz].
  - rewrite decide_True; [done|]. by apply length_zero_iff_nil; unfold zlen in Hz; lia.
  - rewrite decide_False; [done|]. by intros E; rewrite E in Hz.
Qed.

Lemma elem_of_marked mt x : x ∈ marked_tids mt <-> exists j, 0 <= j < valid_num mt /\ IS_SLOT_SET (mt_bitmap mt) j = true /\ tids mt !! j = Some x.
Proof.
  unfold marked_tids. rewrite list_elem_of_omap. split.
  - intros (j & Hj%elem_of_seqZ & Hx). exists j. destruct (IS_SLOT_SET _ j); [|done]. split; [lia|done].
  - intros (j & Hj & Hb & Hx). exists j. rewrite Hb. split; [apply elem_of_seqZ; lia|done].
Qed.

(** The groups of a list of memtables. *)
Definition cover_groups (cover : list Fetcher.cover_entry) : list DpvVacuumGroup :=
  omap (fun c => if decide (marked_tids c.2 = []) then None else Some (mkGroup (memtable_id c.2) (marked_tids c.2))) cover.

Lemma groups_of_ok (cover : list Fetcher.cover_entry) : (forall c, c ∈ cover -> exists rows, holds_rows c.2 rows) ->
  Fetcher.groups_of cover = Ok (cover_groups cover).
Proof.
  assert (Hgs : (forall c, c ∈ cover -> exists rows, holds_rows c.2 rows) -> forall gs,
    foldl_res (fun groups c => g ← Fetcher.group_of c.2; Ok (match g with Some g => groups ++ [g] | None => groups end)) gs cover = Ok (gs ++ cover_groups cover)); [|intros Hin; by apply (Hgs Hin [])].
  induction cover as [|c cover IH]; intros Hin gs; [by rewrite app_nil_r|]. destruct (Hin c ltac:(left)) as [rows Hr].
  cbn [foldl_res]. rewrite (group_of_ok _ _ Hr). cbn [mbind res_bind].
  unfold cover_groups in *. cbn [omap list_omap]. rewrite IH by (intros c' Hc'; apply Hin; by right). case_decide; [done|]. by rewrite <-app_assoc.
Qed.

Lemma in_cover_groups (cover : list Fetcher.cover_entry) sid x :
  in_groups (cover_groups cover) sid x <-> exists c, c ∈ cover /\ memtable_id c.2 = sid /\ x ∈ marked_tids c.2.
Proof.
  unfold in_groups, cover_groups. split.
  - intros (g & (c & Hc & Hg)%list_elem_of_omap & Hs & Hx). case_decide; [done|]. injection Hg as <-. by exists c.
  - intros (c & Hc & Hs & Hx). eexists. split; [apply list_elem_of_omap; exists c; split; [exact Hc|]; rewrite decide_False; [done|]; intros E; rewrite E in Hx; by apply elem_of_nil in Hx|].
    by cbn.
Qed.

(** ** Adopting *)

(** The deleted rows of a memtable are rows the segment has for its id, in the
    same order (what the comment on [groups] in segment_fetcher.c relies on). *)
Definition has_deleted_rows (lsm : LSMIndexData) (slots : list MemtableBufferSlot) (map : list Z) (offs : list SegmentOffsetRange) : Prop :=
  forall i s o, i ∈ known lsm -> slots !! i = Some s -> o ∈ offs -> off_sid o = memtable_id (slot_mt s) ->
    sublist (marked_tids (slot_mt s)) (sid_rows map o) /\ NoDup (sid_rows map o).

(** The row [x] of memtable [sid] is marked deleted. *)
Definition memtable_deleted (lsm : LSMIndexData) (slots : list MemtableBufferSlot) (sid x : Z) : Prop :=
  exists i s, i ∈ known lsm /\ slots !! i = Some s /\ memtable_id (slot_mt s) = sid /\ x ∈ marked_tids (slot_mt s).

(** What the fetcher tells the worker. *)
Record cover_facts (lsm : LSMIndexData) (slots : list MemtableBufferSlot) (v : view) (a b : Z) (cover : list Z) (groups : list DpvVacuumGroup) : Prop := {
  cf_ids : forall sid, sid ∈ cover <-> is_Some (v !! sid) /\ a <= sid <= b;
  cf_sorted : StronglySorted Z.lt cover;
  cf_deleted : forall sid x, in_groups groups sid x <-> a <= sid <= b /\ memtable_deleted lsm slots sid x }.

Section adopting.
Context (array_size mcap d e cap : Z).
Implicit Types (lsm : LSMIndexData) (slots : list MemtableBufferSlot) (v : view).

(** Finding, sorting and grouping cannot fail. *)
Lemma cover_ok lsm slots v a b map offs :
  shows array_size mcap d e cap lsm slots v -> has_deleted_rows lsm slots map offs ->
  exists found cover groups, Fetcher.find_cover lsm slots a b = Ok found /\ Fetcher.sort_cover found = Ok cover /\
    Fetcher.groups_of cover = Ok groups /\ cover_facts lsm slots v a b cover.*1 groups /\ groups_present groups map offs.
Proof.
  intros Hsh Hseg. destruct (find_cover_ok slots a b _ _ _ _ _ _ _ Hsh) as (l & Hl & Hf). destruct (sort_cover_ok (entries slots (filter (covered slots a b) l))) as (cover & Hs & Hp & Hsorted).
  destruct (cover_ids slots a b _ _ _ _ _ _ _ _ _ Hsh Hl Hp Hsorted) as [Hids Hlt].
  assert (Hc : forall c, c ∈ cover -> exists i s rows, i ∈ known lsm /\ slots !! i = Some s /\ a <= memtable_id (slot_mt s) <= b /\ c = entry_of s /\ holds_rows (slot_mt s) rows).
  { intros c. rewrite Hp. intros (i & s & Hi & Hsi & Hcs & ->)%elem_of_entries. rewrite Hl in Hi. destruct Hsh as [_ Hb].
    destruct (bk_rows _ _ _ _ _ _ _ _ Hb i Hi) as (s0 & Hs0 & _ & _ & _ & rows & _ & Hr). assert (s0 = s) as -> by congruence.
    exists i, s, rows. unfold Standby.covers_sid in Hcs. split_and!; (done || lia). }
  eexists _, cover, (cover_groups cover). split; [exact Hf|]. split; [exact Hs|]. split.
  { apply groups_of_ok. intros c (i & s & rows & _ & _ & _ & -> & Hr)%Hc. by exists rows. }
  split; [split; [exact Hids|exact Hlt|]|].
  - intros sid x. rewrite in_cover_groups. split.
    + intros (c & Hcin & Hid & Hx). destruct (Hc c Hcin) as (i & s & rows & Hi & Hsi & Hr & -> & _). cbn in *. subst sid. split; [done|]. by exists i, s.
    + intros [Hr (i & s & Hi & Hsi & Hid & Hx)]. exists (entry_of s). split; [|by cbn]. rewrite Hp. apply elem_of_entries. exists i, s. rewrite Hl.
      unfold Standby.covers_sid. rewrite Hid. split_and!; (done || lia).
  - intros g o Hg Ho Hso. assert (Hin : exists c, c ∈ cover /\ g = mkGroup (memtable_id c.2) (marked_tids c.2)).
    { apply list_elem_of_omap in Hg as (c & Hcin & Hg). case_decide; [done|]. injection Hg as <-. by exists c. }
    destruct Hin as (c & Hcin & ->). destruct (Hc c Hcin) as (i & s & rows & Hi & Hsi & _ & -> & Hr). cbn in *.
    by apply (Hseg i s o Hi Hsi Ho).
Qed.
End adopting.

(** ** Example *)
Module FetcherRuns.
Import Example RepairRuns StandbyRuns.

(** Memtable 4 has row 14, memtable 5 row 21; then row 14 is marked deleted. *)
Definition log : list log_event := [Register 4; Add 4 0 (tid 14) (row 6); Register 5; Add 5 0 (tid 21) (row 7)].
Definition logged : state := default (fresh_lsm, []) (replay log (fresh_lsm, buffer 8)).
Definition first_slot : MemtableBufferSlot := default (mkBufferSlot 0 slot0) (logged.2 !! 0).
Definition lsm : LSMIndexData := logged.1.
Definition slots : list MemtableBufferSlot := <[0 := first_slot <| slot_mt ::= fun mt => mt <| mt_bitmap := SET_SLOT (mt_bitmap (slot_mt first_slot)) 0 |> |>]> logged.2.
Definition the_view : view := {[ 4 := {[ 0 := (14, row 6) ]}; 5 := {[ 0 := (21, row 7) ]} ]}.

(** The segment is in the answers of the primary and in the worker's load. *)
Definition empty_queue : queue_dir := mkQueue ∅ ∅.
Definition server : DpvFileKind -> reply := Fetched.server Fetched.fine.
Definition key : DpvFetchKey := mkKey 16384 3 4 2 0.
Definition worker (cover : list Z) (groups : list DpvVacuumGroup) (pool : FlushedSegmentPool) :=
  Adopt.adopt_body 50000 (fun _ => Ok shipped) Adoption.quiet 3 4 2 cover groups pool.

Lemma logged_run : standby_run 24 3 log (fresh_lsm, buffer 8) (Ok logged).
Proof. apply replay_run. vm_compute. reflexivity. Qed.

Lemma marked_shows : shows 24 3 2 4 3 lsm slots the_view.
Proof.
  apply (bitmap_shows 24 3 2 4 3 sizes width8 cap3 (B := Z)); [|vm_compute; reflexivity].
  destruct (run_shows 24 3 2 4 3 sizes width8 cap3 log fresh_lsm (buffer 8) ∅ (Ok logged) (fresh_shows 8 ltac:(lia)) logged_run) as (l & s & [-> ->]%ok_state & Hsh).
  replace the_view with (foldl (replayed 2 4 3) ∅ log) by (vm_compute; reflexivity). exact Hsh.
Qed.
End FetcherRuns.
Import Example RepairRuns StandbyRuns FetcherRuns.

(** ** Properties *)


