(* ===== verification/Replay.v ===== *)
(** The resource manager of the replication records (replication_rmgr.c): what
    the primary emits and what replay does with it on a hot standby.

    A record is its header's fields and the bytes that follow.  Replay is one
    process; what the others do to the index table while it waits, and the worker
    it sends vacuum tasks to, are arguments. *)

From S2P Require Import Prelude Bitmap Tid SegmentPool FileNames SegmentFiles Tombstones Memtable MemtableSearch VacuumRedo MemtableCycle FetchQueue RecoverSegments Recovery IndexSlots StandbyMemtable.

Record xl_dpv_seg_range := mkRange { sr_start_sid : Z; sr_end_sid : Z; sr_version : Z }.
Record xl_dpv_seg_offset := mkSegOffset { so_source_sid : Z; so_start_offset : Z }.

(** The header of SEGMENT_REPLACED. *)
Record xl_dpv_segment_replaced := mkReplaced {
  new_start_sid : Z; new_end_sid : Z; new_version : Z; old_count : Z; offset_count : Z }.

Inductive redo_op {B : Type} :=
  | XLOG_DPV_REGISTER_MEMTABLE (sid : Z)
  | XLOG_DPV_ADD_TO_MEMTABLE (sid slot_index : Z) (tid : ItemPointerData B) (vector : list Z)
  | XLOG_DPV_UPDATE_MAX_SID (sid : Z)
  | XLOG_DPV_RELEASE_MEMTABLE (sid : Z)
  | XLOG_DPV_SEGMENT_CREATED (start_sid end_sid version : Z)
  | XLOG_DPV_SEGMENT_REPLACED (hdr : xl_dpv_segment_replaced) (data : bytes)
  | XLOG_DPV_INDEX_CREATE (type dim elem_size : Z)
  | XLOG_DPV_VACUUM_TOMBSTONES (hdr : xl_dpv_vacuum_tombstones) (entries : list xl_dpv_vacuum_entry)
  | UNKNOWN_OP (info : Z).
Arguments redo_op : clear implicits.
Arguments XLOG_DPV_REGISTER_MEMTABLE {B}.
Arguments XLOG_DPV_ADD_TO_MEMTABLE {B}.
Arguments XLOG_DPV_UPDATE_MAX_SID {B}.
Arguments XLOG_DPV_RELEASE_MEMTABLE {B}.
Arguments XLOG_DPV_SEGMENT_CREATED {B}.
Arguments XLOG_DPV_SEGMENT_REPLACED {B}.
Arguments XLOG_DPV_INDEX_CREATE {B}.
Arguments XLOG_DPV_VACUUM_TOMBSTONES {B}.
Arguments UNKNOWN_OP {B}.

Record redo_record {B : Type} := mkRecord { dbOid : Z; rec_indexRelId : Z; op : redo_op B }.
Arguments redo_record : clear implicits.
Arguments mkRecord {B}.
Arguments dbOid {B}.
Arguments rec_indexRelId {B}.
Arguments op {B}.

Module Rmgr.

(** ** Emitting *)

Definition range_bytes (r : xl_dpv_seg_range) : bytes := le_bytes 4 (sr_start_sid r) ++ le_bytes 4 (sr_end_sid r) ++ le_bytes 4 (sr_version r).
Definition offset_bytes (o : xl_dpv_seg_offset) : bytes := le_bytes 4 (so_source_sid o) ++ le_bytes 4 (so_start_offset o).
Definition sizeof_seg_range : Z := 12.
Definition sizeof_seg_offset : Z := 8.
Definition u16 (z : Z) : Z := z mod 2 ^ 16.

Section emit.
Context {B : Type} (MyDatabaseId index_relid : Z).
Implicit Types (tid : ItemPointerData B).

Definition dpv_emit_register_memtable (sid : Z) : redo_record B := mkRecord MyDatabaseId index_relid (XLOG_DPV_REGISTER_MEMTABLE sid).
Definition dpv_emit_add_to_memtable (sid slot_index : Z) tid (vector : list Z) : redo_record B :=
  mkRecord MyDatabaseId index_relid (XLOG_DPV_ADD_TO_MEMTABLE sid slot_index tid vector).
Definition dpv_emit_update_max_sid (sid : Z) : redo_record B := mkRecord MyDatabaseId index_relid (XLOG_DPV_UPDATE_MAX_SID sid).
Definition dpv_emit_release_memtable (sid : Z) : redo_record B := mkRecord MyDatabaseId index_relid (XLOG_DPV_RELEASE_MEMTABLE sid).
Definition dpv_emit_segment_created (start_sid end_sid version : Z) : redo_record B :=
  mkRecord MyDatabaseId index_relid (XLOG_DPV_SEGMENT_CREATED start_sid end_sid version).
Definition dpv_emit_segment_replaced (old_ranges : list xl_dpv_seg_range) (start_sid end_sid version : Z) (offsets : list xl_dpv_seg_offset) : redo_record B :=
  mkRecord MyDatabaseId index_relid (XLOG_DPV_SEGMENT_REPLACED
    (mkReplaced start_sid end_sid version (u16 (zlen old_ranges)) (u16 (zlen offsets)))
    ((old_ranges ≫= range_bytes) ++ (offsets ≫= offset_bytes))).
Definition dpv_emit_index_create (type dim elem_size : Z) : redo_record B := mkRecord MyDatabaseId index_relid (XLOG_DPV_INDEX_CREATE type dim elem_size).
Definition dpv_emit_vacuum_tombstones (sid owner_version : Z) (memtable_owner : bool) (entries : list xl_dpv_vacuum_entry) : redo_record B :=
  mkRecord MyDatabaseId index_relid (XLOG_DPV_VACUUM_TOMBSTONES (mkTombstones sid owner_version (if memtable_owner then 1 else 0)) entries).
End emit.

(** ** Replaying *)

(** What replay reads and writes: the index table, the memtable buffer, the fetch
    queue, and the directory of every index. *)
Record standby := mkStandby {
  sb_slots : list LSMIndexBufferSlot;
  sb_memtables : list MemtableBufferSlot;
  sb_queue : queue_dir;
  sb_dirs : gmap Z directory }.
#[global] Instance eta_standby : Settable standby := fun s => mkStandby (sb_slots s) (sb_memtables s) (sb_queue s) (sb_dirs s).

Definition dir_of (st : standby) (relid : Z) : directory := default ∅ (sb_dirs st !! relid).

Section redo.
Context {B : Type} `{BlockId B}.
Context (array_size memtable_capacity max_file : Z).
Context (others : Z -> list LSMIndexBufferSlot -> list LSMIndexBufferSlot) (worker_running : bool) (vacuum_worker : nat -> directory -> Z * directory).
Context (InHotStandby : bool).

(** The start of every callback: find or recover the index; an error is caught
    and the record skipped. *)
Definition with_index (db_oid relid : Z) (st : standby) (k : standby -> res standby) : res standby :=
  if negb InHotStandby then Ok st
  else
    let '(r, slots) := Slots.get_lsm_index_idx others worker_running Slots.InvalidOid Slots.InvalidOid relid true db_oid (sb_slots st) in
    let st := st <| sb_slots := slots |> in
    match r with Ok _ => k st | Error _ => Ok st end.

(** [dpv_standby_*]: [find_loaded_slot], then the change to its memtables. *)
Definition on_loaded (relid : Z) (st : standby) (f : LSMIndexData -> list MemtableBufferSlot -> res (LSMIndexData * list MemtableBufferSlot)) : res standby :=
  let '(found, slots) := Slots.find_loaded_slot others relid (sb_slots st) in
  let st := st <| sb_slots := slots |> in
  match found with
  | None => Ok st
  | Some i =>
      s ← arr_get slots i;
      '(lsm, memtables) ← f (lsmIndex s) (sb_memtables st);
      Ok (st <| sb_slots := <[i := s <| lsmIndex := lsm |>]> slots |> <| sb_memtables := memtables |>)
  end.

Definition redo_register_memtable (db_oid relid sid : Z) (st : standby) : res standby :=
  with_index db_oid relid st (fun st => on_loaded relid st (fun lsm memtables => Standby.dpv_standby_register_memtable array_size memtable_capacity lsm memtables sid)).

Definition redo_add_to_memtable (db_oid relid sid slot_index : Z) (tid : ItemPointerData B) (vector : list Z) (st : standby) : res standby :=
  with_index db_oid relid st (fun st => on_loaded relid st (fun lsm memtables =>
    memtables ← Standby.dpv_standby_add_to_memtable lsm memtables sid slot_index tid vector; Ok (lsm, memtables))).

(** [dpv_standby_update_max_sid] and [dpv_standby_release_memtable] do nothing:
    the status pages are replayed page by page. *)
Definition dpv_standby_update_max_sid (relid sid : Z) (st : standby) : res standby := Ok st.
Definition dpv_standby_release_memtable (relid sid : Z) (st : standby) : res standby := Ok st.
Definition redo_update_max_sid (db_oid relid sid : Z) (st : standby) : res standby := with_index db_oid relid st (dpv_standby_update_max_sid relid sid).
Definition redo_release_memtable (db_oid relid sid : Z) (st : standby) : res standby := with_index db_oid relid st (dpv_standby_release_memtable relid sid).

Definition DPV_FETCH_KIND_CREATED : Z := 1.
Definition DPV_FETCH_KIND_REPLACED : Z := 2.

Definition enqueue (st : standby) (e : fetch_entry) : standby := st <| sb_queue := (dpv_queue_enqueue (sb_queue st) e).2 |>.

Definition redo_segment_created (ReadRecPtr db_oid relid start_sid end_sid version : Z) (st : standby) : res standby :=
  with_index db_oid relid st (fun st =>
    Ok (enqueue st (FetchQueue.mkEntry (mkKey relid start_sid end_sid version DPV_FETCH_KIND_CREATED) ReadRecPtr DPV_FETCH_PENDING []))).

(** A record shorter than its counts say is a PANIC. *)
Definition redo_segment_replaced (ReadRecPtr db_oid relid : Z) (hdr : xl_dpv_segment_replaced) (data : bytes) (st : standby) : res standby :=
  with_index db_oid relid st (fun st =>
    let trailer_size := old_count hdr * sizeof_seg_range + offset_count hdr * sizeof_seg_offset in
    if zlen data <? trailer_size then Error OutOfBounds
    else Ok (enqueue st (FetchQueue.mkEntry (mkKey relid (new_start_sid hdr) (new_end_sid hdr) (new_version hdr) DPV_FETCH_KIND_REPLACED) ReadRecPtr DPV_FETCH_PENDING
                           (take (Z.to_nat trailer_size) data)))).

Definition redo_index_create (db_oid relid type dim elem_size : Z) (st : standby) : res standby :=
  if negb InHotStandby then Ok st
  else
    let meta := SegFile.mkIndexMeta (index_type_of_code type) dim elem_size 32 200 in
    let d := run_ops (dir_of st relid) (SegFile.write_lsm_index_metadata meta) in
    '(_, slots) ← Slots.claim_lsm_index_slot_for_create_redo db_oid relid type dim elem_size (sb_slots st);
    Ok (st <| sb_dirs ::= <[relid := d]> |> <| sb_slots := slots |>).

Definition redo_vacuum_tombstones (db_oid relid : Z) (hdr : xl_dpv_vacuum_tombstones) (entries : list xl_dpv_vacuum_entry) (st : standby) : res standby :=
  with_index db_oid relid st (fun st =>
    let '(i, slots) := Slots.lookup_lsm_index_idx others relid (sb_slots st) in
    let lsm := if i <? 0 then None else lsmIndex <$> slots !! i in
    '(memtables, d) ← Redo.dpv_apply_vacuum_tombstones vacuum_worker max_file lsm (sb_memtables st) (dir_of st relid) hdr entries;
    Ok (st <| sb_slots := slots |> <| sb_memtables := memtables |> <| sb_dirs ::= <[relid := d]> |>)).

Definition dpv_replication_redo (ReadRecPtr : Z) (record : redo_record B) (st : standby) : res standby :=
  let db := dbOid record in
  let relid := rec_indexRelId record in
  match op record with
  | XLOG_DPV_REGISTER_MEMTABLE sid => redo_register_memtable db relid sid st
  | XLOG_DPV_ADD_TO_MEMTABLE sid slot_index tid vector => redo_add_to_memtable db relid sid slot_index tid vector st
  | XLOG_DPV_UPDATE_MAX_SID sid => redo_update_max_sid db relid sid st
  | XLOG_DPV_RELEASE_MEMTABLE sid => redo_release_memtable db relid sid st
  | XLOG_DPV_SEGMENT_CREATED start_sid end_sid version => redo_segment_created ReadRecPtr db relid start_sid end_sid version st
  | XLOG_DPV_SEGMENT_REPLACED hdr data => redo_segment_replaced ReadRecPtr db relid hdr data st
  | XLOG_DPV_INDEX_CREATE type dim elem_size => redo_index_create db relid type dim elem_size st
  | XLOG_DPV_VACUUM_TOMBSTONES hdr entries => redo_vacuum_tombstones db relid hdr entries st
  | UNKNOWN_OP _ => Error OutOfBounds
  end.

(** The log, from position [lsn] on. *)
Definition replay (lsn : Z) (log : list (redo_record B)) (st : standby) : res standby :=
  foldl_res (fun st r => dpv_replication_redo r.1 r.2 st) st (zip (seqZ lsn (zlen log)) log).
End redo.
End Rmgr.

(** ** Records do not change an index's identity *)

(** What registering keeps of the index. *)
Definition same_index (lsm lsm' : LSMIndexData) : Prop := indexRelId lsm' = indexRelId lsm /\ next_segment_id lsm' = next_segment_id lsm.

Lemma queue_sealed_same lsm i lsm' : Standby.queue_sealed lsm i = Ok lsm' -> same_index lsm lsm'.
Proof. unfold Standby.queue_sealed. destruct (_ <? _); [|by intros [= <-]]. destruct (arr_set _ _ _); [|done]. by intros [= <-]. Qed.

Lemma wire_same lsm slots i sid lsm' slots' : Standby.wire lsm slots i sid = Ok (lsm', slots') -> same_index lsm lsm'.
Proof.
  unfold Standby.wire. destruct (_ || _).
  - destruct (_ || _); [by intros [= <- _]|]. destruct (Standby.seal slots _); [cbn [mbind res_bind]|done].
    destruct (Standby.queue_sealed lsm _) as [lsm1|] eqn:Hq; [cbn [mbind res_bind]|done]. apply queue_sealed_same in Hq. by intros [= <- _].
  - destruct (Standby.seal slots _); [cbn [mbind res_bind]|done]. destruct (Standby.queue_sealed lsm _) as [lsm1|] eqn:Hq; [cbn [mbind res_bind]|done].
    apply queue_sealed_same in Hq. by intros [= <- _].
Qed.

Lemma register_same array_size mcap lsm slots sid lsm' slots' :
  Standby.dpv_standby_register_memtable array_size mcap lsm slots sid = Ok (lsm', slots') -> same_index lsm lsm'.
Proof.
  unfold Standby.dpv_standby_register_memtable. destruct (Standby.find_memtable_by_sid lsm slots sid) as [[]|]; [by intros [= <- _]| |done]. cbn [mbind res_bind].
  unfold Buffer.register_and_set_memtable. destruct (Buffer.claim_slot slots 0) as [[k ms]|]; [|by intros [= <- _]].
  destruct (arr_get ms k); [cbn [mbind res_bind]|done]. destruct (set_memtable _ _ _ _ _ _ _); [cbn [mbind res_bind]|done].
  destruct (k <? 0); [by intros [= <- _]|]. apply wire_same.
Qed.

Lemma apply_bitmap lsm slots sid hdr entries b slots' : Redo.apply_to_memtable_for_sid lsm slots sid hdr entries = Ok (b, slots') ->
  slots' = slots \/ exists i s bm, slots !! i = Some s /\ slots' = <[i := s <| slot_mt ::= fun mt => mt <| mt_bitmap := bm |> |>]> slots.
Proof.
  unfold Redo.apply_to_memtable_for_sid. destruct (Redo.find_memtable lsm slots sid) as [[i|]|]; cbn [mbind res_bind]; [|by intros [= _ <-]; left|done].
  destruct (arr_get slots i) as [s|] eqn:Hs; [apply arr_get_Ok in Hs; cbn [mbind res_bind]|done]. destruct (negb _); [by intros [= _ <-]; left|].
  destruct (Redo.apply_entries_to_memtable_locked (slot_mt s) hdr entries) as [mt|] eqn:Hm; [cbn [mbind res_bind]|done]. intros [= _ <-]. right.
  assert (Hbm : exists bm, mt = (slot_mt s) <| mt_bitmap := bm |>).
  { unfold Redo.apply_entries_to_memtable_locked in Hm. destruct (_ =? 1); [injection Hm as <-; by eexists|]. destruct (Redo.memtable_walk _ _ _ _ _ _ _); [|done]. injection Hm as <-. by eexists. }
  destruct Hbm as [bm ->]. by exists i, s, bm.
Qed.

(** ** The index being replayed *)

Lemma scan_insert relid slots i s s' : Slots.scan_slots relid slots 0 = Some (i, s) -> valid s' = valid s -> named s' = named s ->
  Slots.scan_slots relid (<[i := s']> slots) 0 = Some (i, s').
Proof.
  assert (Hgen : forall slots k, Slots.scan_slots relid slots k = Some (i, s) -> valid s' = valid s -> named s' = named s ->
    Slots.scan_slots relid (<[i - k := s']> slots) k = Some (i, s')).
  { clear. intros slots. induction slots as [|s0 slots IH]; intros k Hs Hv Hn; [done|]. pose proof (scan_from relid (s0 :: slots) k) as Hfrom. rewrite Hs in Hfrom.
    rewrite zinsert_cons by lia. cbn [Slots.scan_slots] in Hs. fold (named s0) in Hs. destruct (bool_decide _ || negb _) eqn:Hskip.
    - pose proof (scan_from relid slots (k + 1)) as Hf. rewrite Hs in Hf. destruct (Z.eqb_spec (i - k) 0); [lia|]. cbn [Slots.scan_slots]. fold (named s0). rewrite Hskip.
      replace (i - k - 1) with (i - (k + 1)) by lia. by apply IH.
    - injection Hs as -> ->. rewrite Z.sub_diag. cbn. fold (named s'). by rewrite Hv, Hn, Hskip. }
  intros. pose proof (Hgen slots 0) as Hall. rewrite Z.sub_0_r in Hall. by apply Hall.
Qed.

Section index.
Context (array_size mcap d e cap : Z) (Hsizes : 0 <= array_size /\ 0 <= mcap <= MEMTABLE_MAX_CAPACITY).
Context (H8 : (8 | u64 (d * e))) (Hcap : memtable_cap array_size mcap (u64 (d * e)) = Ok cap).
Context {B : Type} `{BlockId B} (max_file : Z) (others : Z -> list LSMIndexBufferSlot -> list LSMIndexBufferSlot) (worker_running : bool).
Context (vacuum_worker : nat -> directory -> Z * directory) (relid next : Z).
Abbreviation redo := (Rmgr.dpv_replication_redo array_size mcap max_file others worker_running vacuum_worker true).

(** The index has a writable slot, and its memtables show the view. *)
Definition index_shows (st : Rmgr.standby) (v : view) : Prop :=
  exists i s, Slots.scan_slots relid (Rmgr.sb_slots st) 0 = Some (i, s) /\ is_writable (valid s) = true /\ named s = relid /\
    next_segment_id (lsmIndex s) = next /\ shows array_size mcap d e cap (lsmIndex s) (Rmgr.sb_memtables st) v.

(** What a record does to the memtables. *)
Definition event_of (r : redo_record B) : event (B := B) :=
  match op r with
  | XLOG_DPV_REGISTER_MEMTABLE sid => Register sid
  | XLOG_DPV_ADD_TO_MEMTABLE sid slot_index tid vector => Add sid slot_index tid vector
  | _ => Elsewhere
  end.

(** The entry it puts into the fetch queue. *)
Definition fetch_of (r : redo_record B) : option DpvFetchKey :=
  match op r with
  | XLOG_DPV_SEGMENT_CREATED a b v => Some (mkKey (rec_indexRelId r) a b v Rmgr.DPV_FETCH_KIND_CREATED)
  | XLOG_DPV_SEGMENT_REPLACED hdr _ => Some (mkKey (rec_indexRelId r) (new_start_sid hdr) (new_end_sid hdr) (new_version hdr) Rmgr.DPV_FETCH_KIND_REPLACED)
  | _ => None
  end.

(** The memtables have room, records are whole, a vacuum finds its rows. *)
Definition can_replay (lsn : Z) (r : redo_record B) (st : Rmgr.standby) : Prop :=
  rec_indexRelId r = relid /\
  match op r with
  | XLOG_DPV_REGISTER_MEMTABLE _ => 0 < free_slots (Rmgr.sb_memtables st) /\
      forall i s, Slots.scan_slots relid (Rmgr.sb_slots st) 0 = Some (i, s) -> memtable_count (lsmIndex s) < MEMTABLE_NUM
  | XLOG_DPV_ADD_TO_MEMTABLE _ slot_index _ _ => 0 <= slot_index
  | XLOG_DPV_SEGMENT_REPLACED hdr data => old_count hdr * Rmgr.sizeof_seg_range + offset_count hdr * Rmgr.sizeof_seg_offset <= zlen data
  | XLOG_DPV_VACUUM_TOMBSTONES _ _ => exists st', redo lsn r st = Ok st'
  | UNKNOWN_OP _ => False
  | _ => True
  end.

Fixpoint replayable (lsn : Z) (log : list (redo_record B)) (st : Rmgr.standby) : Prop :=
  match log with
  | [] => True
  | r :: log => can_replay lsn r st /\ forall st', redo lsn r st = Ok st' -> replayable (lsn + 1) log st'
  end.

Lemma with_index_ok st v db k : index_shows st v -> Rmgr.with_index others worker_running true db relid st k = k st.
Proof.
  intros (i & s & Hs & Hw & _). unfold Rmgr.with_index. cbn [negb]. unfold Slots.get_lsm_index_idx. rewrite Hs, Hw. by destruct st.
Qed.

Lemma scan_nonneg i s slots : Slots.scan_slots relid slots 0 = Some (i, s) -> 0 <= i /\ slots !! i = Some s.
Proof. intros Hs. pose proof (scan_spec relid slots) as Hsp. rewrite Hs in Hsp. destruct Hsp as (Hi & _). split; [apply zlookup_lt_Some in Hi; lia|done]. Qed.

(** A change of the index's memtables. *)
Lemma on_loaded_ok st v v' f : index_shows st v ->
  (forall lsm memtables, shows array_size mcap d e cap lsm memtables v -> next_segment_id lsm = next ->
     (exists i s, Slots.scan_slots relid (Rmgr.sb_slots st) 0 = Some (i, s) /\ lsm = lsmIndex s) -> memtables = Rmgr.sb_memtables st ->
     exists lsm' memtables', f lsm memtables = Ok (lsm', memtables') /\ same_index lsm lsm' /\ shows array_size mcap d e cap lsm' memtables' v') ->
  exists st', Rmgr.on_loaded others relid st f = Ok st' /\ index_shows st' v' /\ Rmgr.sb_queue st' = Rmgr.sb_queue st.
Proof.
  intros (i & s & Hs & Hw & Hn & Hnext & Hsh) Hf. destruct (scan_nonneg _ _ _ Hs) as [Hi Hsi]. unfold Rmgr.on_loaded, Slots.find_loaded_slot, Slots.lookup_lsm_index_idx.
  rewrite Hs, Hw, (proj2 (Z.ltb_ge _ _) Hi), Hsi. cbn [mbind option_bind]. rewrite Hw, (proj2 (arr_get_Ok _ _ _) Hsi). cbn [mbind res_bind].
  destruct (Hf (lsmIndex s) (Rmgr.sb_memtables st) Hsh Hnext ltac:(by exists i, s) eq_refl) as (lsm' & ms' & Hrun & [Hr1 Hr2] & Hsh').
  change (Rmgr.sb_memtables (_ <| Rmgr.sb_slots := _ |>)) with (Rmgr.sb_memtables st). rewrite Hrun. cbn [mbind res_bind]. eexists. split; [done|]. split; [|done].
  exists i, (s <| lsmIndex := lsm' |>). split; [by apply (scan_insert _ _ _ s)|]. split; [done|]. split; [change (indexRelId lsm' = relid); by rewrite Hr1|].
  split; [change (next_segment_id lsm' = next); by rewrite Hr2|done].
Qed.

Lemma vacuum_shows st v lsn db hdr entries st' :
  index_shows st v -> redo lsn (mkRecord db relid (XLOG_DPV_VACUUM_TOMBSTONES hdr entries)) st = Ok st' -> index_shows st' v /\ Rmgr.sb_queue st' = Rmgr.sb_queue st.
Proof.
  intros Hsh. cbn [Rmgr.dpv_replication_redo op dbOid rec_indexRelId]. unfold Rmgr.redo_vacuum_tombstones. rewrite (with_index_ok _ _ _ _ Hsh).
  destruct Hsh as (i & s & Hs & Hw & Hn & Hnext & Hsh). destruct (scan_nonneg _ _ _ Hs) as [Hi Hsi]. unfold Slots.lookup_lsm_index_idx. rewrite Hs, Hw, (proj2 (Z.ltb_ge _ _) Hi), Hsi.
  cbn [fmap option_fmap option_map]. unfold Redo.dpv_apply_vacuum_tombstones.
  destruct (Redo.apply_to_memtable_for_sid _ _ _ _ _) as [[b ms]|] eqn:Hm; [cbn [mbind res_bind]|done]. destruct (Redo.apply_to_disk_file_for_sid _ _ _ _ _) as [[b' dd]|]; [cbn [mbind res_bind]|done].
  destruct (_ && _); [done|]. cbn [mbind res_bind]. intros [= <-]. split; [|done]. exists i, s. split; [exact Hs|]. split; [done|]. split; [done|]. split; [done|].
  change (shows array_size mcap d e cap (lsmIndex s) ms v). destruct (apply_bitmap _ _ _ _ _ _ _ Hm) as [->|(j & sj & bm & Hsj & ->)]; [done|].
  by apply (bitmap_shows array_size mcap d e cap Hsizes H8 Hcap (B := B)).
Qed.

Lemma create_again st v db type dim elem : index_shows st v ->
  exists st', Rmgr.redo_index_create true db relid type dim elem st = Ok st' /\ index_shows st' v /\ Rmgr.sb_queue st' = Rmgr.sb_queue st.
Proof.
  intros Hsh. unfold Rmgr.redo_index_create. cbn [negb]. pose proof Hsh as (i & s & Hs & Hrest). unfold Slots.claim_lsm_index_slot_for_create_redo. rewrite Hs. cbn [mbind res_bind].
  eexists. split; [done|]. split; [|done]. by exists i, s.
Qed.

Lemma enqueue_entry st ent : is_Some (q_entries (Rmgr.sb_queue (Rmgr.enqueue st ent)) !! key_to_filename (e_key ent)) /\
  (forall name, is_Some (q_entries (Rmgr.sb_queue st) !! name) -> is_Some (q_entries (Rmgr.sb_queue (Rmgr.enqueue st ent)) !! name)).
Proof.
  unfold Rmgr.enqueue. change (Rmgr.sb_queue (st <| Rmgr.sb_queue := ?q |>)) with q. unfold dpv_queue_enqueue, already_queued. case_bool_decide as Hq; [done|]. cbn [snd].
  change (q_entries (rename_tmp (write_tmp (Rmgr.sb_queue st) ent) ent)) with (<[key_to_filename (e_key ent) := ent]> (q_entries (Rmgr.sb_queue st))).
  split; [rewrite lookup_insert_eq; by eexists|]. intros name Hname. destruct (decide (key_to_filename (e_key ent) = name)) as [<-|Hne]; [rewrite lookup_insert_eq; by eexists|by rewrite lookup_insert_ne].
Qed.

Definition queued (st : Rmgr.standby) (r : redo_record B) : Prop :=
  forall k, fetch_of r = Some k -> is_Some (q_entries (Rmgr.sb_queue st) !! key_to_filename k).
Definition queue_grows (st st' : Rmgr.standby) : Prop :=
  forall name, is_Some (q_entries (Rmgr.sb_queue st) !! name) -> is_Some (q_entries (Rmgr.sb_queue st') !! name).

Lemma enqueue_ok st v db r ent : index_shows st v -> fetch_of r = Some (e_key ent) ->
  exists st', Rmgr.with_index others worker_running true db relid st (fun st => Ok (Rmgr.enqueue st ent)) = Ok st' /\ index_shows st' v /\ queue_grows st st' /\ queued st' r.
Proof.
  intros Hsh Hf. rewrite (with_index_ok _ _ _ _ Hsh). eexists. split; [done|]. destruct (enqueue_entry st ent) as [He Hg]. split; [exact Hsh|]. split; [exact Hg|].
  intros k Hk. rewrite Hf in Hk. by injection Hk as <-.
Qed.

(** One record. *)
Lemma redo_ok lsn r st v : index_shows st v -> can_replay lsn r st ->
  exists st', redo lsn r st = Ok st' /\ index_shows st' (replayed d e cap v (event_of r)) /\ queue_grows st st' /\ queued st' r.
Proof.
  intros Hsh [Hrel Hcan]. destruct r as [db rel o]. cbn in Hrel. subst rel.
  assert (Hplain : fetch_of (mkRecord db relid o) = None -> forall st' v', redo lsn (mkRecord db relid o) st = Ok st' -> index_shows st' v' -> Rmgr.sb_queue st' = Rmgr.sb_queue st ->
    exists st', redo lsn (mkRecord db relid o) st = Ok st' /\ index_shows st' v' /\ queue_grows st st' /\ queued st' (mkRecord db relid o)).
  { intros Hf st' v' Hr Hs Hq. exists st'. split; [done|]. split; [done|]. split; [intros name; by rewrite Hq|]. intros k. by rewrite Hf. }
  destruct o as [sid|sid si t x|sid|sid|a b ver|hdr data|ty dm el|hdr es|info]; cbn [op] in Hcan; cbn [event_of op replayed].
  - destruct (on_loaded_ok st v (if decide (is_Some (v !! sid)) then v else <[sid := ∅]> v) (fun lsm ms => Standby.dpv_standby_register_memtable array_size mcap lsm ms sid) Hsh) as (st' & Hr & Hs & Hq).
    { intros lsm ms Hshow _ (i & s & Hs & ->) ->. destruct Hcan as [Hfree Hroom]. destruct (register_ok array_size mcap d e cap Hsizes H8 Hcap (lsmIndex s) (Rmgr.sb_memtables st) v sid Hshow (Hroom i s Hs) Hfree) as (lsm' & ms' & Hreg & Hsh').
      exists lsm', ms'. split; [done|]. split; [by eapply register_same|done]. }
    apply (Hplain eq_refl st'); [|done..]. cbn [Rmgr.dpv_replication_redo op dbOid rec_indexRelId]. unfold Rmgr.redo_register_memtable. by rewrite (with_index_ok _ _ _ _ Hsh).
  - destruct (on_loaded_ok st v (if (si <? cap) && (zlen x =? u64 (d * e)) then alter (insert si (ItemPointerToInt64 t, x)) sid v else v)
      (fun lsm ms => ms ← Standby.dpv_standby_add_to_memtable lsm ms sid si t x; Ok (lsm, ms)) Hsh) as (st' & Hr & Hs & Hq).
    { intros lsm ms Hshow _ _ _. destruct (add_ok array_size mcap d e cap lsm ms v sid si t x Hshow Hcan) as (ms' & -> & Hsh'). exists lsm, ms'. done. }
    apply (Hplain eq_refl st'); [|done..]. cbn [Rmgr.dpv_replication_redo op dbOid rec_indexRelId]. unfold Rmgr.redo_add_to_memtable. by rewrite (with_index_ok _ _ _ _ Hsh).
  - apply (Hplain eq_refl st); [|done..]. cbn [Rmgr.dpv_replication_redo op dbOid rec_indexRelId]. unfold Rmgr.redo_update_max_sid. by rewrite (with_index_ok _ _ _ _ Hsh).
  - apply (Hplain eq_refl st); [|done..]. cbn [Rmgr.dpv_replication_redo op dbOid rec_indexRelId]. unfold Rmgr.redo_release_memtable. by rewrite (with_index_ok _ _ _ _ Hsh).
  - apply enqueue_ok; done.
  - cbn [Rmgr.dpv_replication_redo op dbOid rec_indexRelId]. unfold Rmgr.redo_segment_replaced. rewrite (proj2 (Z.ltb_ge _ _) Hcan). apply enqueue_ok; done.
  - destruct (create_again st v db ty dm el Hsh) as (st' & Hr & Hs & Hq). by apply (Hplain eq_refl st').
  - destruct Hcan as [st' Hr]. destruct (vacuum_shows st v lsn db hdr es st' Hsh Hr) as [Hs Hq]. by apply (Hplain eq_refl st').
  - done.
Qed.

(** A log. *)
Lemma replay_ok log : forall lsn st v, index_shows st v -> replayable lsn log st ->
  exists st', foldl_res (fun st r => redo r.1 r.2 st) st (zip (seqZ lsn (zlen log)) log) = Ok st' /\
    index_shows st' (foldl (replayed d e cap) v (event_of <$> log)) /\ queue_grows st st' /\ forall r, r ∈ log -> queued st' r.
Proof.
  induction log as [|r log IH]; intros lsn st v Hsh Hcan; [exists st; split; [done|]; split; [done|]; split; [by intros name|by intros r ?%elem_of_nil]|].
  destruct Hcan as [Hr Hrest]. destruct (redo_ok lsn r st v Hsh Hr) as (st1 & Hrun & Hsh1 & Hg1 & Hq1).
  destruct (IH (lsn + 1) st1 _ Hsh1 (Hrest st1 Hrun)) as (st2 & Hrun2 & Hsh2 & Hg2 & Hq2). exists st2. split.
  - rewrite zlen_cons. pose proof (zlen_nonneg log). rewrite seqZ_cons by lia. replace (Z.pred (1 + zlen log)) with (zlen log) by lia. cbn [zip zip_with foldl_res fst snd]. rewrite Hrun. exact Hrun2.
  - split; [exact Hsh2|]. split; [intros name Hname; by apply Hg2, Hg1|]. intros r' [->|Hin]%elem_of_cons; [intros k Hk; by apply Hg2, Hq1|by apply Hq2].
Qed.
End index.

(** ** A new index *)

Lemma create_ok array_size mcap d e cap relid db type st :
  buffer_ok array_size mcap (Rmgr.sb_memtables st) -> (forall j, ~ holds (Rmgr.sb_slots st) j relid) ->
  (exists i s, Rmgr.sb_slots st !! i = Some s /\ valid s = LSM_SLOT_FREE) ->
  (forall i s, Rmgr.sb_slots st !! i = Some s -> valid s = LSM_SLOT_FREE -> growing_memtable_idx (lsmIndex s) = MT_IDX_INVALID) ->
  exists st', Rmgr.redo_index_create true db relid type d e st = Ok st' /\
    index_shows array_size mcap d e cap relid (Slots.START_SEGMENT_ID + 1) st' ∅ /\ Rmgr.sb_memtables st' = Rmgr.sb_memtables st.
Proof.
  intros Hbuf Hno (i0 & s0 & Hs0 & Hf0) Hfresh. unfold Rmgr.redo_index_create. cbn [negb].
  destruct (create_shape db relid type d e (Rmgr.sb_slots st)) as (i & slots' & Hc & Hcase). rewrite Hc. cbn [mbind res_bind]. eexists. split; [done|]. split; [|done].
  destruct Hcase as [[_ Hh]|[(_ & _ & _ & Hfull)|(_ & s & s' & Hs & Hv & -> & Hv' & _ & Hn & _ & Hl & _)]]; [by destruct (Hno i)|by destruct (Hfull i0 s0)|].
  assert (Hs' : <[i := s']> (Rmgr.sb_slots st) !! i = Some s') by (by eapply zlookup_insert_eq).
  exists i, s'. split.
  - change (Slots.scan_slots relid (<[i := s']> (Rmgr.sb_slots st)) 0 = Some (i, s')). pose proof (scan_spec relid (<[i := s']> (Rmgr.sb_slots st))) as Hsc.
    destruct (Slots.scan_slots _ _ _) as [[j sj]|]; [|destruct (Hsc i); exists s'; by rewrite Hv'].
    destruct Hsc as (Hsj & Hvj & Hnj). assert (Hh : holds (<[i := s']> (Rmgr.sb_slots st)) j relid) by (by exists sj).
    apply holds_insert in Hh as [(-> & _)|[_ Hh]]; [congruence|by destruct (Hno j)].
  - rewrite Hv'. split; [done|]. split; [done|]. rewrite Hl. split; [done|]. rewrite (Hfresh i s Hs Hv). change (Rmgr.sb_memtables (_ <| Rmgr.sb_slots := _ |>)) with (Rmgr.sb_memtables st).
    split; [split|split].
    + split; [unfold MEMTABLE_NUM; cbn; lia|done].
    + done.
    + by left.
    + exact Hbuf.
    + constructor.
    + intros j Hj. by apply elem_of_nil in Hj.
    + intros j k a Hj. by apply elem_of_nil in Hj.
    + intros sid Hsid. by apply lookup_empty_is_Some in Hsid.
Qed.

(** A memtable made after the replay has the index's next id. *)
Lemma fresh_id array_size mcap lsm ms k lsm' ms' :
  Buffer.register_and_set_memtable array_size mcap lsm ms false 0 = Ok (k, lsm', ms') -> 0 <= k -> id_of ms' k = Some (next_segment_id lsm).
Proof.
  unfold Buffer.register_and_set_memtable. destruct (Buffer.claim_slot ms 0) as [[j ms1]|]; [|intros [= <- _ _]; lia]. cbn [alloc_segment_id fst snd].
  destruct (arr_get ms1 j) as [s|] eqn:Hs; [apply arr_get_Ok in Hs; cbn [mbind res_bind]|done]. destruct (set_memtable _ _ _ _ _ _ _) as [mt|] eqn:Hm; [cbn [mbind res_bind]|done].
  intros [= <- _ <-] Hj. unfold id_of. rewrite (zlookup_insert_eq _ _ _ _ Hs). cbn. f_equal. by apply set_memtable_fields in Hm as (-> & _).
Qed.

(** ** Examples *)
Module ReplayRuns.
Import Example RepairRuns StandbyRuns SlotRuns.

Abbreviation rec := (redo_record Z).
Definition vacuum_worker (n : nat) (d : directory) : Z * directory := (0, d).
Definition started : Rmgr.standby := Rmgr.mkStandby empty_table (buffer 8) (mkQueue ∅ ∅) ∅.
Abbreviation redo := (Rmgr.dpv_replication_redo 24 3 1000 others true vacuum_worker true).

(** Index 7 is built; its log follows. *)
Definition create : rec := Rmgr.dpv_emit_index_create 5 7 2 2 4.
Definition log : list rec :=
  [Rmgr.dpv_emit_update_max_sid 5 7 4; Rmgr.dpv_emit_register_memtable 5 7 4; Rmgr.dpv_emit_segment_created 5 7 3 3 1;
   Rmgr.dpv_emit_add_to_memtable 5 7 4 1 (StandbyRuns.tid 12) (row 6); Rmgr.dpv_emit_register_memtable 5 7 5;
   Rmgr.dpv_emit_add_to_memtable 5 7 4 0 (StandbyRuns.tid 11) (row 5);
   Rmgr.dpv_emit_segment_replaced 5 7 [mkRange 3 3 1; mkRange 4 4 1] 3 4 1 [mkSegOffset 3 0; mkSegOffset 4 2]].
Definition created : Rmgr.standby := match Rmgr.redo_index_create true 5 7 2 2 4 started with Ok st => st | Error _ => started end.

Definition can_replayb (r : rec) (st : Rmgr.standby) : bool :=
  (rec_indexRelId r =? 7) &&
  match op r with
  | XLOG_DPV_REGISTER_MEMTABLE _ => (0 <? free_slots (Rmgr.sb_memtables st)) &&
      match Slots.scan_slots 7 (Rmgr.sb_slots st) 0 with Some (_, s) => memtable_count (lsmIndex s) <? MEMTABLE_NUM | None => true end
  | XLOG_DPV_ADD_TO_MEMTABLE _ slot_index _ _ => 0 <=? slot_index
  | XLOG_DPV_SEGMENT_REPLACED hdr data => old_count hdr * Rmgr.sizeof_seg_range + offset_count hdr * Rmgr.sizeof_seg_offset <=? zlen data
  | XLOG_DPV_VACUUM_TOMBSTONES _ _ | UNKNOWN_OP _ => false
  | _ => true
  end.
Fixpoint replayableb (lsn : Z) (log : list rec) (st : Rmgr.standby) : bool :=
  match log with
  | [] => true
  | r :: log => can_replayb r st && match redo lsn r st with Ok st' => replayableb (lsn + 1) log st' | Error _ => true end
  end.

Lemma replayableb_sound log : forall lsn st, replayableb lsn log st = true -> replayable 24 3 1000 others true vacuum_worker 7 lsn log st.
Proof.
  induction log as [|r log IH]; intros lsn st; [done|]. cbn [replayableb replayable]. intros [Hc Hrest]%andb_prop. split.
  - unfold can_replayb in Hc. apply andb_prop in Hc as [Hrel Hc]. split; [by apply Z.eqb_eq|]. destruct (op r); try done.
    + apply andb_prop in Hc as [Hf Hroom]. split; [by apply Z.ltb_lt|]. intros i s Hs. rewrite Hs in Hroom. by apply Z.ltb_lt.
    + by apply Z.leb_le.
    + by apply Z.leb_le.
  - intros st' Hst'. apply IH. by rewrite Hst' in Hrest.
Qed.
End ReplayRuns.
Import Example RepairRuns StandbyRuns SlotRuns ReplayRuns.

(** ** Properties *)



(** A promoted standby reuses segment ids.  Replay never advances
    [next_segment_id], which INDEX_CREATE sets to the id of the first memtable.
    Whatever the log did since, the first memtable made after the promotion gets
    that id again, also when a memtable of the log still has it. *)
Theorem promoted_standby_reuses_ids {B} `{BlockId B} array_size mcap d e cap max_file others worker_running vacuum_worker lsn relid log st v :
  0 <= array_size /\ 0 <= mcap <= MEMTABLE_MAX_CAPACITY -> (8 | u64 (d * e)) -> memtable_cap array_size mcap (u64 (d * e)) = Ok cap ->
  index_shows array_size mcap d e cap relid (Slots.START_SEGMENT_ID + 1) st v ->
  replayable (B := B) array_size mcap max_file others worker_running vacuum_worker relid lsn log st ->
  exists st' i s, Rmgr.replay array_size mcap max_file others worker_running vacuum_worker true lsn log st = Ok st' /\
    Slots.scan_slots relid (Rmgr.sb_slots st') 0 = Some (i, s) /\
    (is_Some (foldl (replayed d e cap) v (event_of <$> log) !! (Slots.START_SEGMENT_ID + 1)) ->
       exists j, j ∈ known (lsmIndex s) /\ id_of (Rmgr.sb_memtables st') j = Some (Slots.START_SEGMENT_ID + 1)) /\
    forall k lsm' memtables', Buffer.register_and_set_memtable array_size mcap (lsmIndex s) (Rmgr.sb_memtables st') false 0 = Ok (k, lsm', memtables') -> 0 <= k ->
      id_of memtables' k = Some (Slots.START_SEGMENT_ID + 1).
Proof.
  intros Hs H8 Hc Hsh Hcan. destruct (replay_ok array_size mcap d e cap Hs H8 Hc max_file others worker_running vacuum_worker relid _ log lsn st v Hsh Hcan)
    as (st' & Hrun & (i & s & Hscan & Hw & Hn & Hnext & [Hwired Hb]) & _). exists st', i, s. split; [exact Hrun|]. split; [done|]. split.
  - intros Hv. exact (bk_view _ _ _ _ _ _ _ _ Hb _ Hv).
  - intros k lsm' ms' Hreg Hk. rewrite <-Hnext. by eapply fresh_id.
Qed.

Lemma promoted_standby_reuses_ids_witness :
  exists st' i s j k lsm' memtables', Rmgr.replay 24 3 1000 others true vacuum_worker true 101 log created = Ok st' /\
    Slots.scan_slots 7 (Rmgr.sb_slots st') 0 = Some (i, s) /\ j ∈ known (lsmIndex s) /\ id_of (Rmgr.sb_memtables st') j = Some 4 /\
    Buffer.register_and_set_memtable 24 3 (lsmIndex s) (Rmgr.sb_memtables st') false 0 = Ok (k, lsm', memtables') /\ id_of memtables' k = Some 4.
Proof.
  assert (Hsh : index_shows 24 3 2 4 3 7 4 created ∅).
  { destruct (create_ok 24 3 2 4 3 7 5 2 started) as (st & Hst & Hsh & _).
    - exact (bk_buffer _ _ _ _ _ _ _ _ (proj2 (fresh_shows 8 ltac:(lia)))).
    - intros j. apply empty_holds.
    - exists 0, Slots.free_slot. split; reflexivity.
    - intros i s Hs _. assert (Hin : s ∈ empty_table) by (apply elem_of_zlookup; by exists i). apply elem_of_replicate in Hin as [-> _]. reflexivity.
    - assert (Hcr : Rmgr.redo_index_create true 5 7 2 2 4 started = Ok created) by (vm_compute; reflexivity). rewrite Hcr in Hst. injection Hst as <-. exact Hsh. }
  destruct (promoted_standby_reuses_ids 24 3 2 4 3 1000 others true vacuum_worker 101 7 log created ∅ sizes width8 cap3 Hsh) as (st' & i & s & Hrun & Hscan & Hold & Hnew).
  - apply replayableb_sound. vm_compute. reflexivity.
  - destruct Hold as (j & Hj & Hidj); [exists {[ 0 := (11, row 5); 1 := (12, row 6) ]}; vm_compute; reflexivity|].
    assert (Hgood : match Rmgr.replay 24 3 1000 others true vacuum_worker true 101 log created with
      | Ok st' => match Slots.scan_slots 7 (Rmgr.sb_slots st') 0 with
                  | Some (_, s) => match Buffer.register_and_set_memtable 24 3 (lsmIndex s) (Rmgr.sb_memtables st') false 0 with Ok (k, _, _) => 0 <=? k | _ => false end
                  | None => false end
      | _ => false end = true) by (vm_compute; reflexivity).
    rewrite Hrun, Hscan in Hgood. destruct (Buffer.register_and_set_memtable 24 3 (lsmIndex s) (Rmgr.sb_memtables st') false 0) as [[[k lsm'] ms']|] eqn:Hreg; [|discriminate].
    exists st', i, s, j, k, lsm', ms'. split; [exact Hrun|]. split; [exact Hscan|]. split; [exact Hj|]. split; [exact Hidj|]. split; [exact Hreg|].
    apply (Hnew k lsm' ms' eq_refl). by apply Z.leb_le.
Defined.
