(* ===== verification/TaskQueue.v ===== *)
(** Tasks for the vector index worker: the ring in shared memory (ringbuffer.c),
    sending (tasksend.c), the worker's loop and the parsing of a task's data
    (vector_index_worker.c).

    Shared memory is an array of 4-byte words where its layout matters (the pool
    of search tasks), records otherwise.  The ring is only touched under its lock:
    an operation on it is one step. *)

From S2P Require Import Prelude Bitmap SegmentPool FileNames SegmentFiles Tombstones TopK Memtable MemtableSearch.

Inductive VectorTaskType := VectorSearchTaskType | IndexBuildTaskType | IndexLoadTaskType | SegmentUpdateTaskType.
#[global] Instance VectorTaskType_eq_dec : EqDecision VectorTaskType.
Proof. solve_decision. Defined.

Record TaskSlot := mkTask { task_type : VectorTaskType; dsm_size : Z; task_handle : Z }.
Record VectorSearchTaskData := mkSearch {
  backend_pgprocno : Z; search_relid : Z; vector_dim : Z; topk : Z; efs_nprobe : Z; snapshot : LSMSnapshot }.

(** A task as the worker sees it. *)
Inductive request := SearchTask (t : VectorSearchTaskData) (vector : list Z) | MaintTask (slot : TaskSlot).

Record RingBufferShmem := mkRing {
  ring_size : Z; head : Z; tail : Z; count : Z;
  task_slots : list TaskSlot;
  search_pool : list Z }.
#[global] Instance eta_ring : Settable RingBufferShmem := fun r =>
  mkRing (ring_size r) (head r) (tail r) (count r) (task_slots r) (search_pool r).

Module Ring.

Definition MAX_DIM : Z := 1024.
Definition MAX_TOPK : Z := 1000.
Definition sizeof_RingBufferShmem : Z := 56.
Definition sizeof_TaskSlot : Z := 24.
Definition sizeof_VectorSearchTaskData : Z := 72.
Definition sizeof_VectorSearchResultData : Z := 24.

Definition search_task_stride : Z := MAXALIGN sizeof_VectorSearchTaskData + 4 * MAX_DIM.
Definition search_result_stride : Z := MAXALIGN sizeof_VectorSearchResultData + MAX_TOPK * 8 + MAX_TOPK * 4.
Definition calculate_vector_search_task_pool_size (MaxBackends : Z) : Z := search_task_stride * MaxBackends.
Definition calculate_vector_search_result_pool_size (MaxBackends NUM_AUXILIARY_PROCS : Z) : Z := search_result_stride * (MaxBackends + NUM_AUXILIARY_PROCS).
Definition calculate_ring_buffer_shmem_size (MaxBackends NUM_AUXILIARY_PROCS : Z) : Z :=
  MAXALIGN sizeof_RingBufferShmem + MAXALIGN sizeof_TaskSlot * MaxBackends
  + calculate_vector_search_task_pool_size MaxBackends + calculate_vector_search_result_pool_size MaxBackends NUM_AUXILIARY_PROCS.

(** What [ring_buffer_init] asks of [ShmemInitStruct], in order. *)
Definition ring_buffer_init_sizes (MaxBackends NUM_AUXILIARY_PROCS : Z) : list Z :=
  [calculate_ring_buffer_shmem_size MaxBackends NUM_AUXILIARY_PROCS; calculate_vector_search_task_pool_size MaxBackends;
   calculate_vector_search_result_pool_size MaxBackends NUM_AUXILIARY_PROCS].

Definition ring_buffer_init (MaxBackends : Z) : RingBufferShmem :=
  mkRing MaxBackends 0 0 0 (replicate (Z.to_nat MaxBackends) (mkTask VectorSearchTaskType 0 0))
    (replicate (Z.to_nat (calculate_vector_search_task_pool_size MaxBackends / 4)) 0).

(** Offsets within their objects. *)
Definition vs_task_at (idx : Z) : Z := MAXALIGN sizeof_RingBufferShmem + idx * sizeof_TaskSlot.
Definition vs_search_task_at (idx : Z) : Z := idx * search_task_stride.
Definition vs_search_task_vector_at (task : Z) : Z := task + MAXALIGN sizeof_VectorSearchTaskData.
Definition vs_search_result_at (pgprocno : Z) : Z := pgprocno * search_result_stride.
Definition vs_search_result_id_at (result : Z) : Z := result + MAXALIGN sizeof_VectorSearchResultData.
Definition vs_search_result_dist_at (result result_count : Z) : Z := result + MAXALIGN sizeof_VectorSearchResultData + result_count * 8.

(** The words of a [VectorSearchTaskData]; of the arrays of the snapshot only the
    first [scount] entries mean something. *)
Definition four (l : list Z) : list Z := take 4 (l ++ replicate 4 0).
Definition task_words (t : VectorSearchTaskData) : list Z :=
  let s := snapshot t in
  [u32 (backend_pgprocno t); u32 (search_relid t); u32 (vector_dim t); u32 (vector_dim t / 2 ^ 32); u32 (topk t); u32 (efs_nprobe t);
   u32 (gidx s); u32 (scount s)] ++ (u32 <$> four (sidxs s)) ++ [u32 (gmt_id s)] ++ (u32 <$> four (smt_ids s)).

Definition task_of_words (w : list Z) : VectorSearchTaskData :=
  let word (i : nat) := nth i w 0 in
  let scount := i32 (word 7%nat) in
  let entries (i : nat) := take (Z.to_nat scount) (i32 <$> take 4 (drop i w)) in
  mkSearch (i32 (word 0%nat)) (word 1%nat) (word 2%nat + 2 ^ 32 * word 3%nat) (i32 (word 4%nat)) (i32 (word 5%nat))
    (mkSnapshot (i32 (word 6%nat)) (word 12%nat) scount (entries 8%nat) (entries 13%nat)).

Definition task_word (slot : Z) : Z := vs_search_task_at slot / 4.
Definition vector_word (slot : Z) : Z := vs_search_task_vector_at (vs_search_task_at slot) / 4.

(** The lock is held and the ring is not full. *)
Definition get_ring_buffer_slot (r : RingBufferShmem) : Z * RingBufferShmem :=
  (tail r, r <| tail := Z.rem (tail r + 1) (ring_size r) |> <| count ::= fun c => c + 1 |>).

(** [vector_search_send]; [query] is [dim] floats. *)
Definition vector_search_send (MyProcNumber index_oid : Z) (query : list Z) (dim topk efs_nprobe : Z) (snapshot : LSMSnapshot) (r : RingBufferShmem)
    : res RingBufferShmem :=
  if count r =? ring_size r then Error ElogError
  else
    let '(slot, r) := get_ring_buffer_slot r in
    slots ← arr_set (task_slots r) slot (mkTask VectorSearchTaskType 0 0);
    pool ← mem_write (search_pool r) (task_word slot) (task_words (mkSearch MyProcNumber index_oid dim topk efs_nprobe snapshot));
    pool ← mem_write pool (vector_word slot) (take (Z.to_nat dim) query);
    Ok (r <| task_slots := slots |> <| search_pool := pool |>).

(** The locked part of [submit_and_wait_maintenance]. *)
Definition submit_maintenance (type : VectorTaskType) (hdl size : Z) (r : RingBufferShmem) : res RingBufferShmem :=
  if count r =? ring_size r then Error ElogError
  else
    let '(slot, r) := get_ring_buffer_slot r in
    slots ← arr_set (task_slots r) slot (mkTask type size hdl);
    Ok (r <| task_slots := slots |>).

(** The worker: the task in a slot, the task at the head, and the step after
    handling it. *)
Definition read_task (r : RingBufferShmem) (idx : Z) : res request :=
  slot ← arr_get (task_slots r) idx;
  if decide (task_type slot = VectorSearchTaskType) then
    let t := task_of_words (slice (search_pool r) (task_word idx) (vector_word idx)) in
    if zlen (search_pool r) <? vector_word idx + vector_dim t then Error OutOfBounds
    else Ok (SearchTask t (slice (search_pool r) (vector_word idx) (vector_word idx + vector_dim t)))
  else Ok (MaintTask slot).

Definition next_task (r : RingBufferShmem) : res (option request) :=
  if count r =? 0 then Ok None else x ← read_task r (head r); Ok (Some x).

Definition advance (r : RingBufferShmem) : RingBufferShmem :=
  r <| head := Z.rem (head r + 1) (ring_size r) |> <| count ::= fun c => c - 1 |>.

End Ring.

(** The groups of an ADOPT task behind its [SegmentUpdateTaskData]. *)
Module Trailer.

Definition sizeof_SegmentUpdateTaskData : Z := 56.

Definition payload_size (groups : list DpvVacuumGroup) : Z := foldl (fun n g => n + (8 + zlen (gp_tids g) * 8)) 4 groups.

(** The packing loop of [segment_update_blocking]. *)
Definition pack_group (g : DpvVacuumGroup) : bytes := le_bytes 4 (gp_sid g) ++ le_bytes 4 (zlen (gp_tids g)) ++ encode_mapping (gp_tids g).
Definition pack_groups (groups : list DpvVacuumGroup) : bytes := le_bytes 4 (zlen groups) ++ (groups ≫= pack_group).

(** Where the tids of group [g] start in the segment. *)
Definition tids_offset (groups : list DpvVacuumGroup) (g : nat) : Z :=
  sizeof_SegmentUpdateTaskData + zlen (le_bytes 4 (zlen groups)) + zlen (take g groups ≫= pack_group) + 8.

(** [submit_maintenance_task], first pass: everything is inside the trailer; the
    number of tuple ids.  [b] starts at [scan] and [left] is [src_end - scan]. *)
Fixpoint check_groups (ng : nat) (b : bytes) (left total : Z) : res Z :=
  match ng with
  | O => Ok total
  | S ng =>
      if left <? 8 then Error ElogError
      else
        let n := le_value (take 4 (drop 4 b)) in
        if left - 8 <? n * 8 then Error ElogError
        else check_groups ng (drop (8 + Z.to_nat (n * 8)) b) (left - 8 - n * 8) (total + n)
  end.

(** Second pass. *)
Fixpoint fill_groups (ng : nat) (b : bytes) : list DpvVacuumGroup :=
  match ng with
  | O => []
  | S ng =>
      let n := le_value (take 4 (drop 4 b)) in
      let rest := drop 8 b in
      mkGroup (le_value (take 4 b)) (decode_records decode_tid 8 (Z.to_nat n) rest) :: fill_groups ng (drop (Z.to_nat (n * 8)) rest)
  end.

(** [deletion_tids_count] is the trailer's length in bytes. *)
Definition parse_groups (deletion_tids_count : Z) (src : bytes) : res (list DpvVacuumGroup) :=
  if deletion_tids_count =? 0 then Ok []
  else if deletion_tids_count <? 4 then Error ElogError
  else
    let ng := Z.to_nat (le_value (take 4 src)) in
    if (0 <? ng)%nat then _ ← check_groups ng (drop 4 src) (deletion_tids_count - 4) 0; Ok (fill_groups ng (drop 4 src)) else Ok [].

Definition deletion_tids_count (groups : list DpvVacuumGroup) : Z := u32 (payload_size groups).

End Trailer.

Definition int32 (z : Z) : Prop := - 2 ^ 31 <= z < 2 ^ 31.
Definition uint32 (z : Z) : Prop := 0 <= z < 2 ^ 32.

(** A task whose fields fit their types. *)
Record task_ok (t : VectorSearchTaskData) : Prop := {
  tk_proc : int32 (backend_pgprocno t); tk_relid : uint32 (search_relid t); tk_dim : 0 <= vector_dim t < 2 ^ 31;
  tk_topk : int32 (topk t); tk_efs : int32 (efs_nprobe t); tk_gidx : int32 (gidx (snapshot t)); tk_gmt : uint32 (gmt_id (snapshot t));
  tk_count : 0 <= scount (snapshot t) <= 4;
  tk_sidxs : zlen (sidxs (snapshot t)) = scount (snapshot t) /\ Forall int32 (sidxs (snapshot t));
  tk_smts : zlen (smt_ids (snapshot t)) = scount (snapshot t) /\ Forall int32 (smt_ids (snapshot t)) }.

(** A request that fits a slot of the ring. *)
Definition request_ok (x : request) : Prop :=
  match x with
  | SearchTask t v => task_ok t /\ zlen v = vector_dim t /\ vector_dim t <= Ring.MAX_DIM
  | MaintTask s => task_type s <> VectorSearchTaskType
  end.

(** The exchange between the processes and the worker: a slot of results per
    process, the ring, and the tasks under way. *)
Record VectorSearchResultData {D : Type} := mkResult {
  status : Z; result_count : Z; result_pairs : list (DistancePair D); maint_status : Z; maint_done : Z }.
Arguments VectorSearchResultData : clear implicits.
Arguments mkResult {D}.
Arguments status {D}.
Arguments result_count {D}.
Arguments result_pairs {D}.
Arguments maint_status {D}.
Arguments maint_done {D}.
#[global] Instance eta_result {D} : Settable (VectorSearchResultData D) := fun r =>
  mkResult (status r) (result_count r) (result_pairs r) (maint_status r) (maint_done r).

Inductive answer {D : Type} := Pairs (l : list (DistancePair D)) | MaintStatus (s : Z) | MaintDone.
Arguments answer : clear implicits.
Arguments Pairs {D}.
Arguments MaintStatus {D}.
Arguments MaintDone {D}.

(** A task between the ring and its answer: in the maintenance queue, being
    worked on, or with its answer written but not yet announced. *)
Inductive phase {D : Type} := Queued | Running | Written (a : answer D).
Arguments phase : clear implicits.
Arguments Queued {D}.
Arguments Running {D}.
Arguments Written {D}.

Record exchange {D : Type} := mkExchange {
  x_ring : RingBufferShmem;
  x_results : list (VectorSearchResultData D);
  x_waiting : gmap Z request;
  x_pending : list (request * phase D);
  x_upgrades : Z;
  x_returned : list (request * answer D) }.
Arguments exchange : clear implicits.
Arguments mkExchange {D}.
Arguments x_ring {D}.
Arguments x_results {D}.
Arguments x_waiting {D}.
Arguments x_pending {D}.
Arguments x_upgrades {D}.
Arguments x_returned {D}.
#[global] Instance eta_exchange {D} : Settable (exchange D) := fun s =>
  mkExchange (x_ring s) (x_results s) (x_waiting s) (x_pending s) (x_upgrades s) (x_returned s).

Module Exchange.
Section exchange.
Context {D : Type}.
(** The process named in a task's segment, and what a right answer is. *)
Context (dsm_owner : Z -> Z) (answers : request -> answer D -> Prop).

Definition MAINTENANCE_TASK_QUEUE_SIZE : Z := 1152.

Definition owner (x : request) : Z := match x with SearchTask t _ => backend_pgprocno t | MaintTask s => dsm_owner (task_handle s) end.

(** The flag a process polls: cleared before it sends, raised when all is done. *)
Definition clear (x : request) (r : VectorSearchResultData D) : VectorSearchResultData D :=
  match x with
  | SearchTask _ _ => r <| status := 0 |>
  | MaintTask s => (if decide (task_type s = SegmentUpdateTaskType) then r <| maint_status := 0 |> else r) <| maint_done := 0 |>
  end.
Definition raise (x : request) (r : VectorSearchResultData D) : VectorSearchResultData D :=
  match x with SearchTask _ _ => r <| status := 1 |> | MaintTask _ => r <| maint_done := 1 |> end.
Definition raised (x : request) (r : VectorSearchResultData D) : bool :=
  match x with SearchTask _ _ => status r =? 1 | MaintTask _ => negb (maint_done r =? 0) end.

(** The answer's words, and how they are read. *)
Definition write_answer (a : answer D) (r : VectorSearchResultData D) : VectorSearchResultData D :=
  match a with Pairs l => r <| result_count := zlen l |> <| result_pairs := l |> | MaintStatus s => r <| maint_status := s |> | MaintDone => r end.
Definition read_answer (x : request) (r : VectorSearchResultData D) : answer D :=
  match x with
  | SearchTask _ _ => Pairs (take (Z.to_nat (result_count r)) (result_pairs r))
  | MaintTask s => if decide (task_type s = SegmentUpdateTaskType) then MaintStatus (maint_status r) else MaintDone
  end.
Definition of_kind (x : request) (a : answer D) : Prop :=
  match x, a with
  | SearchTask _ _, Pairs _ => True
  | MaintTask s, MaintStatus _ => task_type s = SegmentUpdateTaskType
  | MaintTask s, MaintDone => task_type s <> SegmentUpdateTaskType
  | _, _ => False
  end.

(** The loop of [search_lsm_index] over the answer: [segment_pairs] has room for
    [k]. *)
Definition copy_segment_pairs (k : Z) (dummy : DistancePair D) (r : VectorSearchResultData D) : res (list (DistancePair D)) :=
  copy_loop (fun p => p) (result_pairs r) 0 (result_count r) (replicate (Z.to_nat k) dummy).

Definition is_queued (ph : phase D) : bool := match ph with Queued => true | _ => false end.
Definition queue_size (st : exchange D) : Z := x_upgrades st + zlen (List.filter (fun t => is_queued t.2) (x_pending st)).

(** [handle_task]: with the lock held. *)
Inductive handle_task (st : exchange D) : request -> exchange D -> Prop :=
  | handle_search t v : handle_task st (SearchTask t v) (st <| x_pending ::= fun l => l ++ [(SearchTask t v, Running)] |>)
  | handle_no_segments t v : answers (SearchTask t v) (Pairs []) ->
      handle_task st (SearchTask t v)
        (st <| x_results := match x_results st !! backend_pgprocno t with
                            | Some r => <[backend_pgprocno t := write_answer (Pairs []) r]> (x_results st) | None => x_results st end |>
            <| x_pending ::= fun l => l ++ [(SearchTask t v, Written (Pairs []))] |>)
  | handle_maintenance s : queue_size st < MAINTENANCE_TASK_QUEUE_SIZE ->
      handle_task st (MaintTask s) (st <| x_pending ::= fun l => l ++ [(MaintTask s, Queued)] |>)
  | handle_dropped s : MAINTENANCE_TASK_QUEUE_SIZE <= queue_size st -> handle_task st (MaintTask s) st.

(** [cancels]: a search may be given up between sending and waiting. *)
Inductive x_step (cancels : bool) (st : exchange D) : exchange D -> Prop :=
  | send_search p r relid query dim k efs snap ring :
      let x := SearchTask (mkSearch p relid dim k efs snap) query in
      x_waiting st !! p = None -> x_results st !! p = Some r -> request_ok x ->
      Ring.vector_search_send p relid query dim k efs snap (x_ring st) = Ok ring ->
      x_step cancels st (st <| x_ring := ring |> <| x_results ::= <[p := clear x r]> |> <| x_waiting ::= <[p := x]> |>)
  | send_maintenance p r type hdl size ring :
      let x := MaintTask (mkTask type size hdl) in
      x_waiting st !! p = None -> x_results st !! p = Some r -> request_ok x -> dsm_owner hdl = p ->
      Ring.submit_maintenance type hdl size (x_ring st) = Ok ring ->
      x_step cancels st (st <| x_ring := ring |> <| x_results ::= <[p := clear x r]> |> <| x_waiting ::= <[p := x]> |>)
  | worker_takes x st1 :
      Ring.next_task (x_ring st) = Ok (Some x) -> handle_task st x st1 ->
      x_step cancels st (st1 <| x_ring := Ring.advance (x_ring st) |>)
  | thread_takes l1 x l2 : x_pending st = l1 ++ (x, Queued) :: l2 -> x_step cancels st (st <| x_pending := l1 ++ (x, Running) :: l2 |>)
  | writes l1 x l2 a r : x_pending st = l1 ++ (x, Running) :: l2 -> of_kind x a -> answers x a -> x_results st !! owner x = Some r ->
      x_step cancels st (st <| x_results ::= <[owner x := write_answer a r]> |> <| x_pending := l1 ++ (x, Written a) :: l2 |>)
  | announces l1 x l2 a r : x_pending st = l1 ++ (x, Written a) :: l2 -> x_results st !! owner x = Some r ->
      x_step cancels st (st <| x_results ::= <[owner x := raise x r]> |> <| x_pending := l1 ++ l2 |>)
  | receives p x r : x_waiting st !! p = Some x -> x_results st !! p = Some r -> raised x r = true ->
      x_step cancels st (st <| x_waiting ::= delete p |> <| x_returned ::= fun l => l ++ [(x, read_answer x r)] |>)
  | cancelled p t v : cancels = true -> x_waiting st !! p = Some (SearchTask t v) -> x_step cancels st (st <| x_waiting ::= delete p |>)
  | upgrades n : 0 <= n -> x_step cancels st (st <| x_upgrades := n |>).
End exchange.
End Exchange.

(** ** The ring is a queue *)

Lemma i32_u32 z : int32 z -> i32 (u32 z) = z.
Proof. intros H. unfold i32, u32. rewrite Zplus_mod_idemp_l. rewrite Z.mod_small; unfold int32 in H; lia. Qed.

(** At most four entries survive the fixed-size arrays. *)
Lemma four_entries (l : list Z) : zlen l <= 4 -> Forall int32 l -> take (length l) (i32 <$> (u32 <$> Ring.four l)) = l.
Proof.
  intros Hz Hl. unfold Ring.four. assert (Hid : Forall (fun z => i32 (u32 z) = z) l) by (eapply Forall_impl; [exact Hl|exact i32_u32]).
  rewrite <-list_fmap_compose, <-fmap_take, take_take, take_app_le by (unfold zlen in Hz; lia). replace (length l `min` 4)%nat with (length l) by (unfold zlen in Hz; lia).
  rewrite firstn_all. clear -Hid. induction Hid as [|z l Hz _ IH]; [done|]. cbn. by rewrite Hz, IH.
Qed.

Lemma length_four l : length (Ring.four l) = 4%nat.
Proof. unfold Ring.four. rewrite length_take, length_app, length_replicate. lia. Qed.

Lemma length_task_words t : length (Ring.task_words t) = 17%nat.
Proof. unfold Ring.task_words. rewrite !length_app, !length_fmap, !length_four. done. Qed.

Lemma words_roundtrip t rest : task_ok t -> Ring.task_of_words (Ring.task_words t ++ rest) = t.
Proof.
  destruct t as [proc relid dim k efs [g gmt n sx sm]]. intros []; cbn [backend_pgprocno search_relid vector_dim topk efs_nprobe snapshot gidx gmt_id scount sidxs smt_ids] in *.
  destruct tk_sidxs0 as [Hsx Fsx], tk_smts0 as [Hsm Fsm].
  pose proof (four_entries sx ltac:(lia) Fsx) as Esx. pose proof (four_entries sm ltac:(lia) Fsm) as Esm.
  pose proof (length_four sx) as Lsx. pose proof (length_four sm) as Lsm. unfold Ring.task_words, Ring.task_of_words. cbn [snapshot backend_pgprocno search_relid vector_dim topk efs_nprobe gidx gmt_id scount sidxs smt_ids].
  destruct (Ring.four sx) as [|x0 [|x1 [|x2 [|x3 []]]]] eqn:E1; try done. destruct (Ring.four sm) as [|y0 [|y1 [|y2 [|y3 []]]]] eqn:E2; try done.
  cbn -[u32 i32 Z.mul Z.add Z.pow Z.div]. rewrite (Z.div_small dim) by lia. change (u32 0) with 0. rewrite Z.mul_0_r, Z.add_0_r, (u32_small relid), (u32_small dim), (u32_small gmt) by (unfold uint32 in *; lia).
  rewrite !i32_u32 by (done || (unfold int32; lia)). rewrite take_0. cbn -[u32 i32] in Esx, Esm. unfold zlen in Hsx, Hsm.
  replace (Z.to_nat n) with (length sx) at 1 by lia. replace (Z.to_nat n) with (length sm) by lia. cbn -[u32 i32]. by rewrite Esx, Esm.
Qed.

Lemma task_word_eq i : Ring.task_word i = 1042 * i.
Proof. unfold Ring.task_word, Ring.vs_search_task_at. change Ring.search_task_stride with 4168. replace (i * 4168) with (1042 * i * 4) by lia. by rewrite Z.div_mul. Qed.

Lemma vector_word_eq i : Ring.vector_word i = 1042 * i + 18.
Proof.
  unfold Ring.vector_word, Ring.vs_search_task_vector_at, Ring.vs_search_task_at. change Ring.search_task_stride with 4168. change (MAXALIGN Ring.sizeof_VectorSearchTaskData) with 72.
  replace (i * 4168 + 72) with ((1042 * i + 18) * 4) by lia. by rewrite Z.div_mul.
Qed.

(** Slot [i] of two rings is the same. *)
Definition same_slot (r r' : RingBufferShmem) (i : Z) : Prop :=
  task_slots r' !! i = task_slots r !! i /\ slice (search_pool r') (1042 * i) (1042 * (i + 1)) = slice (search_pool r) (1042 * i) (1042 * (i + 1)) /\
  zlen (search_pool r') = zlen (search_pool r).

Lemma same_words r r' i lo hi : 0 <= i -> same_slot r r' i -> 1042 * i <= lo -> lo <= hi -> hi <= 1042 * (i + 1) ->
  slice (search_pool r') lo hi = slice (search_pool r) lo hi.
Proof.
  intros Hi (_ & He & _) ???. rewrite <-!(slice_slice _ (1042 * i) (1042 * (i + 1)) lo hi) by lia. by rewrite He.
Qed.

Lemma read_same r r' i x : 0 <= i -> same_slot r r' i -> request_ok x -> Ring.read_task r i = Ok x -> Ring.read_task r' i = Ok x.
Proof.
  intros Hi Hsame Hx. unfold Ring.read_task, arr_get. rewrite (proj1 Hsame). destruct (task_slots r !! i) as [slot|]; [|done]. cbn [of_option mbind res_bind].
  destruct (decide _); [|done]. rewrite task_word_eq, vector_word_eq, (proj2 (proj2 Hsame)), (same_words r r' i (1042 * i)) by (done || lia).
  set (t := Ring.task_of_words _). destruct (Z.ltb_spec (zlen (search_pool r)) (1042 * i + 18 + vector_dim t)); [done|]. intros [= <-].
  destruct Hx as (Hok & Hv & Hd). pose proof (tk_dim _ Hok). unfold Ring.MAX_DIM in *. rewrite (same_words r r' i) by (done || lia). done.
Qed.

(** The ring [r] holds the queue [q]. *)
Record ring_of (r : RingBufferShmem) (q : list request) : Prop := {
  rg_size : 0 < ring_size r; rg_head : 0 <= head r < ring_size r;
  rg_count : count r = zlen q; rg_full : zlen q <= ring_size r;
  rg_tail : tail r = (head r + zlen q) mod ring_size r;
  rg_slots : zlen (task_slots r) = ring_size r; rg_pool : zlen (search_pool r) = 1042 * ring_size r;
  rg_ok : Forall request_ok q;
  rg_task : forall k x, q !! k = Some x -> Ring.read_task r ((head r + k) mod ring_size r) = Ok x }.

Lemma ring_init n : 0 < n -> ring_of (Ring.ring_buffer_init n) [].
Proof.
  intros Hn. unfold Ring.ring_buffer_init, Ring.calculate_vector_search_task_pool_size. change Ring.search_task_stride with 4168.
  split; cbn [ring_size head tail count task_slots search_pool]; unfold zlen; rewrite ?length_replicate; cbn [length]; try lia; try done.
  - replace (4168 * n) with (1042 * n * 4) by lia. rewrite Z.div_mul by lia. lia.
  - intros k x. unfold lookup, zlist_lookup. by case_decide.
Qed.

Lemma slot_distinct size h k n : 0 <= h < size -> 0 <= k < n -> n < size -> (h + k) mod size <> (h + n) mod size.
Proof.
  intros Hh Hk Hn Heq. assert (Hd : (n - k) mod size = 0).
  { replace (n - k) with ((h + n) - (h + k)) by lia. rewrite Zminus_mod, Heq, Z.sub_diag. by apply Zmod_0_l. }
  rewrite Z.mod_small in Hd; lia.
Qed.

(** One more task at the tail, the other slots as they were. *)
Lemma ring_push r r' q x : ring_of r q -> zlen q < ring_size r -> request_ok x ->
  ring_size r' = ring_size r -> head r' = head r -> tail r' = Z.rem (tail r + 1) (ring_size r) -> count r' = count r + 1 ->
  zlen (task_slots r') = zlen (task_slots r) -> zlen (search_pool r') = zlen (search_pool r) ->
  Ring.read_task r' (tail r) = Ok x -> (forall i, 0 <= i -> i <> tail r -> same_slot r r' i) -> ring_of r' (q ++ [x]).
Proof.
  intros [] Hroom Hx Es Eh Et Ec Ets Ep Hread Hsame. pose proof (Z.mod_pos_bound (head r + zlen q) (ring_size r) rg_size0).
  split; rewrite ?Es, ?Eh, ?Ec, ?Ets, ?Ep, ?zlen_app, ?zlen_cons, ?zlen_nil; try lia.
  - rewrite Et, rg_tail0, Z.rem_mod_nonneg, Zplus_mod_idemp_l by lia. f_equal. lia.
  - apply Forall_app. auto.
  - intros k y Hy. pose proof (zlookup_lt_Some _ _ _ Hy) as Hk. autorewrite with dpv in Hk. destruct (decide (k < zlen q)) as [Hlt|].
    + rewrite zlookup_app_l in Hy by lia. apply (read_same r); [apply Z.mod_pos_bound; lia| | |by apply rg_task0].
      * apply Hsame; [apply Z.mod_pos_bound; lia|]. rewrite rg_tail0. apply slot_distinct; lia.
      * rewrite Forall_forall in rg_ok0. apply rg_ok0, elem_of_zlookup. by exists k.
    + assert (k = zlen q) as -> by lia. rewrite zlookup_app_r, Z.sub_diag in Hy by lia. cbn in Hy. injection Hy as <-. by rewrite <-rg_tail0.
Qed.

Lemma ring_tail r q : ring_of r q -> 0 <= tail r < ring_size r.
Proof. intros []. rewrite rg_tail0. apply Z.mod_pos_bound. lia. Qed.

Lemma ring_send r q proc relid query dim k efs snap : ring_of r q -> task_ok (mkSearch proc relid dim k efs snap) -> zlen query = dim -> dim <= Ring.MAX_DIM ->
  if zlen q =? ring_size r then Ring.vector_search_send proc relid query dim k efs snap r = Error ElogError
  else exists r', Ring.vector_search_send proc relid query dim k efs snap r = Ok r' /\ ring_of r' (q ++ [SearchTask (mkSearch proc relid dim k efs snap) query]).
Proof.
  intros Hr Hok Hz Hdim. pose proof (ring_tail _ _ Hr) as Ht. destruct (Hr) as []. unfold Ring.vector_search_send. rewrite rg_count0. zcase; [done|].
  cbn [Ring.get_ring_buffer_slot]. unfold Ring.get_ring_buffer_slot. cbn [task_slots search_pool update]. set (t := mkSearch proc relid dim k efs snap) in *.
  destruct (zlookup_lt_is_Some (task_slots r) (tail r)) as [old Hold]; [lia|]. rewrite (arr_set_Some _ _ _ _ Hold). cbn [mbind res_bind].
  pose proof (length_task_words t) as Hlw. assert (Hzw : zlen (Ring.task_words t) = 17) by (unfold zlen; by rewrite Hlw).
  rewrite task_word_eq, vector_word_eq. unfold Ring.MAX_DIM in *. pose proof (tk_dim _ Hok) as Hd0. cbn [vector_dim t] in Hd0.
  destruct (mem_write_ok (search_pool r) (1042 * tail r) (Ring.task_words t)) as [p1 Hp1]; [lia|lia|]. rewrite Hp1. cbn [mbind res_bind].
  apply mem_write_spec in Hp1 as (_ & _ & Hz1 & Hs1 & Hf1). rewrite firstn_all2 by (unfold zlen in Hz; lia).
  destruct (mem_write_ok p1 (1042 * tail r + 18) query) as [p2 Hp2]; [lia|lia|]. rewrite Hp2. cbn [mbind res_bind].
  apply mem_write_spec in Hp2 as (_ & _ & Hz2 & Hs2 & Hf2). eexists. split; [done|].
  assert (Hx : request_ok (SearchTask t query)) by (split; [done|by split]).
  apply (ring_push r); try done; cbn [ring_size head tail count task_slots search_pool update]; try lia; [by rewrite zlen_insert| |].
  - unfold Ring.read_task. cbn [task_slots search_pool update]. rewrite (proj2 (arr_get_Ok _ _ _) (zlookup_insert_eq _ _ _ _ Hold)). cbn [mbind res_bind task_type].
    rewrite decide_True by done. rewrite task_word_eq, vector_word_eq. rewrite Hf2 by lia.
    destruct (zlookup_lt_is_Some p1 (1042 * tail r + 17)) as [w Hw]; [lia|].
    assert (Hsl : slice p1 (1042 * tail r) (1042 * tail r + 18) = Ring.task_words t ++ [w]).
    { replace (1042 * tail r + 18) with (1042 * tail r + 17 + 1) by lia. rewrite (slice_snoc _ _ _ w) by (done || lia). by rewrite <-Hzw, Hs1. }
    rewrite Hsl, words_roundtrip by done. change (vector_dim t) with dim. destruct (Z.ltb_spec (zlen p2) (1042 * tail r + 18 + dim)); [lia|].
    do 2 f_equal. by rewrite <-Hz.
  - intros i Hi Hne. split; [cbn; by rewrite zlookup_insert_ne|]. cbn. split; [|lia]. rewrite Hf2, Hf1 by lia. done.
Qed.

Lemma ring_submit r q type hdl size : ring_of r q -> type <> VectorSearchTaskType ->
  if zlen q =? ring_size r then Ring.submit_maintenance type hdl size r = Error ElogError
  else exists r', Ring.submit_maintenance type hdl size r = Ok r' /\ ring_of r' (q ++ [MaintTask (mkTask type size hdl)]).
Proof.
  intros Hr Hty. pose proof (ring_tail _ _ Hr) as Ht. destruct (Hr) as []. unfold Ring.submit_maintenance. rewrite rg_count0. zcase; [done|].
  unfold Ring.get_ring_buffer_slot. cbn [task_slots search_pool update].
  destruct (zlookup_lt_is_Some (task_slots r) (tail r)) as [old Hold]; [lia|]. rewrite (arr_set_Some _ _ _ _ Hold). cbn [mbind res_bind]. eexists. split; [done|].
  apply (ring_push r); try done; cbn [ring_size head tail count task_slots search_pool update]; try lia; [by rewrite zlen_insert| |].
  - unfold Ring.read_task. cbn [task_slots search_pool update]. rewrite (proj2 (arr_get_Ok _ _ _) (zlookup_insert_eq _ _ _ _ Hold)). cbn [mbind res_bind task_type]. by rewrite decide_False.
  - intros i Hi Hne. split; [cbn; by rewrite zlookup_insert_ne|]. by cbn.
Qed.

Lemma ring_next r q : ring_of r q -> Ring.next_task r = Ok (hd_error q).
Proof.
  intros []. unfold Ring.next_task. rewrite rg_count0. destruct q as [|x q]; [done|]. rewrite zlen_cons in *. pose proof (zlen_nonneg q). zcase; [lia|].
  specialize (rg_task0 0 x eq_refl). rewrite Z.add_0_r, Z.mod_small in rg_task0 by lia. by rewrite rg_task0.
Qed.

Lemma ring_pop r x q : ring_of r (x :: q) -> ring_of (Ring.advance r) q.
Proof.
  intros []. rewrite zlen_cons in *. pose proof (zlen_nonneg q). unfold Ring.advance.
  assert (Hrem : Z.rem (head r + 1) (ring_size r) = (head r + 1) mod ring_size r) by (apply Z.rem_mod_nonneg; lia).
  split; cbn [ring_size head tail count task_slots search_pool update]; rewrite ?Hrem; try done; try lia.
  - apply Z.mod_pos_bound. lia.
  - rewrite rg_tail0, Zplus_mod_idemp_l. f_equal. lia.
  - by apply Forall_cons in rg_ok0 as [_ ?].
  - intros k y Hk. pose proof (zlookup_lt_Some _ _ _ Hk). rewrite Zplus_mod_idemp_l. replace (head r + 1 + k) with (head r + (k + 1)) by lia.
    apply (rg_task0 (k + 1) y). rewrite zlookup_cons. zcase; [lia|]. by replace (k + 1 - 1) with k by lia.
Qed.

(** ** The trailer *)

Definition group_ok (g : DpvVacuumGroup) : Prop := uint32 (gp_sid g) /\ uint32 (zlen (gp_tids g)) /\ Forall tid_range (gp_tids g).

Lemma length_mapping l : length (encode_mapping l) = (8 * length l)%nat.
Proof. unfold encode_mapping. apply length_records. intros. apply length_le_bytes. Qed.

Lemma zlen_pack g : zlen (Trailer.pack_group g) = 8 + zlen (gp_tids g) * 8.
Proof. unfold Trailer.pack_group, zlen. rewrite !length_app, !length_le_bytes, length_mapping. lia. Qed.

Lemma zlen_groups groups : Trailer.payload_size groups = zlen (Trailer.pack_groups groups).
Proof.
  unfold Trailer.payload_size, Trailer.pack_groups. rewrite zlen_app. change (zlen (le_bytes 4 _)) with 4. generalize 4. 
  induction groups as [|g groups IH]; intros n; cbn [foldl]; [unfold zlen; cbn; lia|]. rewrite IH. cbn [mbind list_bind]. rewrite zlen_app, zlen_pack. lia.
Qed.

(** The header of a packed group. *)
Lemma pack_header g rest : group_ok g ->
  le_value (take 4 (Trailer.pack_group g ++ rest)) = gp_sid g /\ le_value (take 4 (drop 4 (Trailer.pack_group g ++ rest))) = zlen (gp_tids g) /\
  drop 8 (Trailer.pack_group g ++ rest) = encode_mapping (gp_tids g) ++ rest.
Proof.
  intros (Hs & Hn & _). unfold Trailer.pack_group. rewrite <-!app_assoc. rewrite take_app_length' by done.
  rewrite !(drop_app_length' _ _ 4) by done. rewrite take_app_length' by done.
  rewrite !le_value_u32 by done. split; [done|]. split; [done|]. rewrite app_assoc. apply drop_app_length'. by rewrite length_app, !length_le_bytes.
Qed.

Lemma check_ok groups : forall left total, Forall group_ok groups -> left = zlen (groups ≫= Trailer.pack_group) ->
  exists n, Trailer.check_groups (length groups) (groups ≫= Trailer.pack_group) left total = Ok n.
Proof.
  induction groups as [|g groups IH]; intros left total Hok Hleft; [by eexists|]. apply Forall_cons in Hok as [Hg Hok]. cbn [length Trailer.check_groups mbind list_bind] in *.
  set (rest := groups ≫= Trailer.pack_group) in *. fold (mbind (M := list) Trailer.pack_group groups) in rest. rewrite zlen_app, zlen_pack in Hleft. pose proof (zlen_nonneg rest). pose proof (zlen_nonneg (gp_tids g)).
  destruct (pack_header g rest Hg) as (_ & Hn & Hd). zcase; [lia|]. rewrite Hn. zcase; [lia|].
  assert (Hdrop : drop (8 + Z.to_nat (zlen (gp_tids g) * 8)) (Trailer.pack_group g ++ rest) = rest).
  { rewrite <-drop_drop, Hd. apply drop_app_length'. rewrite length_mapping. unfold zlen. lia. }
  rewrite Hdrop. apply IH; [done|]. lia.
Qed.

Lemma fill_ok groups rest : Forall group_ok groups -> Trailer.fill_groups (length groups) ((groups ≫= Trailer.pack_group) ++ rest) = groups.
Proof.
  induction groups as [|g groups IH]; intros Hok; [done|]. apply Forall_cons in Hok as [Hg Hok]. cbn [length Trailer.fill_groups mbind list_bind]. rewrite <-app_assoc.
  set (rest' := _ ++ rest). destruct (pack_header g rest' Hg) as (Hs & Hn & Hd). rewrite Hs, Hn, Hd. destruct Hg as (_ & _ & Ht). f_equal.
  - destruct g as [sid tids]. cbn [gp_sid gp_tids] in *. f_equal. unfold zlen. rewrite Nat2Z.id. apply decode_records_spec; [intros; apply length_le_bytes|].
    intros x Hx. rewrite Forall_forall in Ht. by apply decode_encode_tid, Ht.
  - rewrite drop_app_length' by (rewrite length_mapping; unfold zlen; lia). by apply IH.
Qed.

Lemma le_count (l : list DpvVacuumGroup) : zlen l < 2 ^ 32 -> Z.to_nat (le_value (le_bytes 4 (zlen l))) = length l.
Proof. intros H. rewrite le_value_u32 by (pose proof (zlen_nonneg l); lia). unfold zlen. by rewrite Nat2Z.id. Qed.

Lemma parse_packed groups : Forall group_ok groups -> zlen groups < 2 ^ 32 -> Trailer.payload_size groups < 2 ^ 32 ->
  Trailer.parse_groups (Trailer.deletion_tids_count groups) (Trailer.pack_groups groups) = Ok groups.
Proof.
  intros Hok Hn Hsize. unfold Trailer.deletion_tids_count. rewrite zlen_groups in *. unfold Trailer.pack_groups in *. rewrite zlen_app in *. change (zlen (le_bytes 4 (zlen groups))) with 4 in *.
  pose proof (zlen_nonneg (groups ≫= Trailer.pack_group)). rewrite u32_small by lia. unfold Trailer.parse_groups. repeat (zcase; [lia|]).
  rewrite take_app_length', drop_app_length' by done. rewrite le_count by done. destruct (Nat.ltb_spec 0 (length groups)) as [|Hz]; [|by destruct groups; [|cbn in Hz; lia]].
  assert (Hl : 4 + zlen (groups ≫= Trailer.pack_group) - 4 = zlen (groups ≫= Trailer.pack_group)) by lia.
  destruct (check_ok groups _ 0 Hok Hl) as [m ->]. cbn [mbind res_bind].
  rewrite <-(app_nil_r (groups ≫= Trailer.pack_group)), fill_ok by done. done.
Qed.

(** Bytes past the first [n] play no part. *)
Lemma take_prefix {A} (b b' : list A) (n m : nat) : take n b = take n b' -> (m <= n)%nat -> take m b = take m b'.
Proof. intros H Hm. rewrite <-(Nat.min_l m n Hm), <-!take_take. by rewrite H. Qed.

Lemma drop_prefix {A} (b b' : list A) (n m : nat) : take n b = take n b' -> take (n - m) (drop m b) = take (n - m) (drop m b').
Proof. intros H. by rewrite <-!skipn_firstn_comm, H. Qed.

Lemma word_prefix (b b' : bytes) (left : Z) : 8 <= left -> take (Z.to_nat left) b = take (Z.to_nat left) b' ->
  take 4 b = take 4 b' /\ take 4 (drop 4 b) = take 4 (drop 4 b').
Proof.
  intros Hl H. split; [apply (take_prefix b b' (Z.to_nat left)); [done|lia]|]. apply (take_prefix _ _ (Z.to_nat left - 4)); [by apply drop_prefix|lia].
Qed.

Lemma le_value_nonneg (b : bytes) : Forall (fun x => 0 <= x) b -> 0 <= le_value b.
Proof. induction 1; cbn; lia. Qed.

Lemma decode_prefix (b b' : bytes) (n : nat) : take (8 * n) b = take (8 * n) b' -> decode_records decode_tid 8 n b = decode_records decode_tid 8 n b'.
Proof.
  revert b b'; induction n as [|n IH]; intros b b' H; [done|]. cbn [decode_records]. f_equal.
  - f_equal. apply (take_prefix b b' (8 * S n)); [done|lia].
  - apply IH. replace (8 * n)%nat with (8 * S n - 8)%nat by lia. by apply drop_prefix.
Qed.

Lemma check_prefix ng : forall b b' left total, Forall (fun x => 0 <= x) b -> take (Z.to_nat left) b = take (Z.to_nat left) b' ->
  Trailer.check_groups ng b left total = Trailer.check_groups ng b' left total /\
  (forall n, Trailer.check_groups ng b left total = Ok n -> Trailer.fill_groups ng b = Trailer.fill_groups ng b').
Proof.
  induction ng as [|ng IH]; intros b b' left total Hpos H; [done|]. cbn [Trailer.check_groups Trailer.fill_groups]. zcase; [done|].
  destruct (word_prefix b b' left ltac:(lia) H) as [H1 H2]. rewrite <-H1, <-H2. set (n := le_value (take 4 (drop 4 b))).
  assert (Hn : 0 <= n) by (apply le_value_nonneg, Forall_take, Forall_drop, Hpos). zcase; [done|].
  assert (Hd : take (Z.to_nat left - 8) (drop 8 b) = take (Z.to_nat left - 8) (drop 8 b')) by by apply drop_prefix.
  assert (Hd2 : take (Z.to_nat (left - 8 - n * 8)) (drop (8 + Z.to_nat (n * 8)) b) = take (Z.to_nat (left - 8 - n * 8)) (drop (8 + Z.to_nat (n * 8)) b')).
  { replace (Z.to_nat (left - 8 - n * 8)) with (Z.to_nat left - (8 + Z.to_nat (n * 8)))%nat by lia. by apply drop_prefix. }
  destruct (IH _ _ _ (total + n) (Forall_drop _ _ _ Hpos) Hd2) as [IHc IHf]. split; [done|]. intros m Hm. rewrite <-!drop_drop in *. f_equal.
  - f_equal. apply decode_prefix. apply (take_prefix _ _ (Z.to_nat left - 8)); [done|lia].
  - by apply (IHf m).
Qed.

Lemma parse_prefix n src src' : Forall (fun x => 0 <= x) src -> take (Z.to_nat n) src = take (Z.to_nat n) src' ->
  Trailer.parse_groups n src = Trailer.parse_groups n src'.
Proof.
  intros Hpos H. unfold Trailer.parse_groups. zcase; [done|]. zcase; [done|]. rewrite <-(take_prefix src src' (Z.to_nat n) 4) by (done || lia).
  destruct (Nat.ltb_spec 0 (Z.to_nat (le_value (take 4 src)))); [|done].
  assert (Hd : take (Z.to_nat (n - 4)) (drop 4 src) = take (Z.to_nat (n - 4)) (drop 4 src')).
  { replace (Z.to_nat (n - 4)) with (Z.to_nat n - 4)%nat by lia. by apply drop_prefix. }
  destruct (check_prefix (Z.to_nat (le_value (take 4 src))) _ _ _ 0 (Forall_drop _ 4 _ Hpos) Hd) as [Hc Hf]. rewrite <-Hc.
  destruct (Trailer.check_groups _ _ _ _) as [m|e]; [|done]. cbn [mbind res_bind]. by rewrite (Hf m).
Qed.

(** ** Every answer reaches its question *)

Section replies.
Context {D : Type} (dsm_owner : Z -> Z) (answers : request -> answer D -> Prop).
Implicit Types (st : exchange D) (x : request) (r : VectorSearchResultData D).
Abbreviation owner := (Exchange.owner dsm_owner).

(** Where a request is: in the ring or under way. *)
Definition tokens st (q : list request) : list (request * option (phase D)) :=
  ((fun x => (x, None)) <$> q) ++ ((fun t => (t.1, Some t.2)) <$> x_pending st).
Definition mine (p : Z) (toks : list (request * option (phase D))) : list (request * option (phase D)) := filter (fun t => owner t.1 = p) toks.

(** Process [p]: nothing of an idle one is under way; of one that waits exactly
    its request is, or else its answer is there. *)
Definition served st (toks : list (request * option (phase D))) (p : Z) : Prop :=
  match x_waiting st !! p with
  | None => mine p toks = []
  | Some x => owner x = p /\ exists r, x_results st !! p = Some r /\
      ((exists o, mine p toks = [(x, o)] /\ Exchange.raised x r = false /\
          (forall a, o = Some (Written a) -> Exchange.read_answer x r = a /\ answers x a)) \/
       (mine p toks = [] /\ (Exchange.raised x r = true -> answers x (Exchange.read_answer x r))))
  end.

Record in_order st (q : list request) : Prop := {
  io_ring : ring_of (x_ring st) q;
  io_served : forall p, served st (tokens st q) p;
  io_returned : forall x a, (x, a) ∈ x_returned st -> answers x a }.

#[local] Instance mine_proper p : Proper (Permutation ==> Permutation) (mine p).
Proof. intros l l' H. unfold mine. by rewrite H. Qed.

Lemma mine_cons p t l : mine p (t :: l) = if decide (owner t.1 = p) then t :: mine p l else mine p l.
Proof. unfold mine. by rewrite filter_cons. Qed.

(** Only what is named matters. *)
Lemma served_frame st st' toks toks' p : served st toks p -> mine p toks ≡ₚ mine p toks' -> x_waiting st' !! p = x_waiting st !! p ->
  x_results st' !! p = x_results st !! p -> served st' toks' p.
Proof.
  unfold served. intros H Hm Hw Hr. rewrite Hw, Hr. destruct (x_waiting st !! p) as [x|].
  - destruct H as (Ho & r & Hres & H). split; [done|]. exists r. split; [done|]. destruct H as [(o & Hmine & H)|[Hmine H]].
    + left. exists o. split; [|done]. rewrite Hmine in Hm. by apply Permutation_singleton_l in Hm.
    + right. split; [|done]. rewrite Hmine in Hm. by apply Permutation_nil in Hm.
  - rewrite H in Hm. by apply Permutation_nil in Hm.
Qed.

(** The token of one request moves on: what its owner's slot has to satisfy. *)
Lemma served_move st st' toks toks' x o o' rest r r' : (forall p, served st toks p) ->
  toks ≡ₚ (x, o) :: rest -> toks' ≡ₚ (x, o') :: rest -> x_waiting st' = x_waiting st -> x_results st !! owner x = Some r ->
  x_results st' = <[owner x := r']> (x_results st) -> Exchange.raised x r' = Exchange.raised x r ->
  (forall a, o' = Some (Written a) -> (forall a', o = Some (Written a') -> Exchange.read_answer x r = a' /\ answers x a') -> Exchange.read_answer x r' = a /\ answers x a) ->
  forall p, served st' toks' p.
Proof.
  intros H Ht Ht' Hw Hr Hres Hraise Hwr p. destruct (decide (owner x = p)) as [<-|Hne].
  - specialize (H (owner x)). unfold served in *. rewrite Hw. assert (Hm : mine (owner x) toks ≡ₚ (x, o) :: mine (owner x) rest) by (rewrite Ht, mine_cons; cbn; by rewrite decide_True).
    assert (Hm' : mine (owner x) toks' ≡ₚ (x, o') :: mine (owner x) rest) by (rewrite Ht', mine_cons; cbn; by rewrite decide_True).
    destruct (x_waiting st !! owner x) as [y|]; [|rewrite H in Hm; by apply Permutation_nil in Hm].
    destruct H as (Ho & r0 & Hr0 & H). assert (r0 = r) as -> by congruence. destruct H as [(o0 & Hmine & Hfl & Ha)|[Hmine _]]; [|rewrite Hmine in Hm; by apply Permutation_nil in Hm].
    rewrite Hmine in Hm. apply Permutation_singleton_l in Hm. assert (mine (owner x) rest = [] /\ y = x /\ o0 = o) as (Hrest & -> & ->) by (injection Hm; auto).
    split; [done|]. exists r'. split; [rewrite Hres; by eapply zlookup_insert_eq|]. left. exists o'. rewrite Hrest in Hm'. symmetry in Hm'. apply Permutation_singleton_l in Hm'.
    split; [done|]. rewrite Hraise. split; [done|]. intros a Ho'. by apply Hwr.
  - apply (served_frame st _ toks); [done| |by rewrite Hw|rewrite Hres; by apply zlookup_insert_ne].
    rewrite Ht, Ht', !mine_cons. cbn. by rewrite !decide_False.
Qed.

Lemma mine_token p x o toks rest : toks ≡ₚ (x, o) :: rest -> owner x = p -> mine p toks ≡ₚ (x, o) :: mine p rest.
Proof. intros -> Ho. rewrite mine_cons. cbn. by rewrite decide_True. Qed.

Lemma token_served st toks x o rest : (forall p, served st toks p) -> toks ≡ₚ (x, o) :: rest ->
  x_waiting st !! owner x = Some x /\ mine (owner x) rest = [] /\ exists r, x_results st !! owner x = Some r /\ Exchange.raised x r = false /\
    (forall a, o = Some (Written a) -> Exchange.read_answer x r = a /\ answers x a).
Proof.
  intros H Ht. specialize (H (owner x)). pose proof (mine_token _ _ _ _ _ Ht eq_refl) as Hm. unfold served in H.
  destruct (x_waiting st !! owner x) as [y|]; [|rewrite H in Hm; by apply Permutation_nil in Hm].
  destruct H as (Ho & r & Hr & [(o0 & Hmine & Hfl & Ha)|[Hmine _]]); [|rewrite Hmine in Hm; by apply Permutation_nil in Hm].
  rewrite Hmine in Hm. apply Permutation_singleton_l in Hm. assert (mine (owner x) rest = [] /\ y = x /\ o0 = o) as (Hrest & -> & ->) by (injection Hm; auto).
  split; [done|]. split; [done|]. exists r. split; [done|]. split; [done|]. intros a ->. by apply Ha.
Qed.

Lemma zinsert_same {A} (l : list A) (i : Z) (x : A) : l !! i = Some x -> <[i := x]> l = l.
Proof.
  intros H. apply zlist_eq; [by rewrite zlen_insert|]. intros j _. rewrite zlookup_insert. case_decide; [subst; by rewrite H|done].
Qed.

(** The answer's token is gone, its flag raised. *)
Lemma served_done st st' toks toks' x a : (forall p, served st toks p) -> toks ≡ₚ (x, Some (Written a)) :: toks' -> x_waiting st' = x_waiting st ->
  (forall r, x_results st !! owner x = Some r -> x_results st' = <[owner x := Exchange.raise x r]> (x_results st)) -> forall p, served st' toks' p.
Proof.
  intros H Ht Hw Hres p. destruct (token_served _ _ _ _ _ H Ht) as (Hx & Hrest & r & Hr & _ & Ha). specialize (Hres r Hr). destruct (Ha a eq_refl) as [Hread Hans].
  destruct (decide (owner x = p)) as [<-|Hne].
  - unfold served. rewrite Hw, Hx. split; [done|]. exists (Exchange.raise x r). split; [rewrite Hres; by eapply zlookup_insert_eq|]. right. split; [done|]. intros _.
    replace (Exchange.read_answer x (Exchange.raise x r)) with (Exchange.read_answer x r); [by rewrite Hread|]. destruct x; done.
  - apply (served_frame st _ toks); [done| |by rewrite Hw|rewrite Hres; by apply zlookup_insert_ne]. rewrite Ht, mine_cons. cbn. by rewrite decide_False.
Qed.

(** A process sends. *)
Lemma served_sent st st' toks toks' x r : (forall p, served st toks p) -> toks' ≡ₚ (x, None) :: toks -> x_waiting st !! owner x = None -> x_results st !! owner x = Some r ->
  x_waiting st' = <[owner x := x]> (x_waiting st) -> x_results st' = <[owner x := Exchange.clear x r]> (x_results st) -> forall p, served st' toks' p.
Proof.
  intros H Ht Hidle Hr Hw Hres p. destruct (decide (owner x = p)) as [<-|Hne].
  - pose proof (H (owner x)) as Hm. unfold served in *. rewrite Hidle in Hm. rewrite Hw, lookup_insert_eq. split; [done|]. exists (Exchange.clear x r).
    split; [rewrite Hres; by eapply zlookup_insert_eq|]. left. exists None. pose proof (mine_token _ _ _ _ _ Ht eq_refl) as Hm'. rewrite Hm in Hm'.
    symmetry in Hm'. apply Permutation_singleton_l in Hm'. split; [done|]. split; [|done]. destruct x as [t v|s]; [done|]. unfold Exchange.clear, Exchange.raised. by case_decide.
  - apply (served_frame st _ toks); [done| |by rewrite Hw, lookup_insert_ne|rewrite Hres; by apply zlookup_insert_ne]. rewrite Ht, mine_cons. cbn. by rewrite decide_False.
Qed.

(** A waiting process stops waiting: nothing of it may be under way. *)
Lemma served_left st st' toks x p : (forall p, served st toks p) -> x_waiting st !! p = Some x -> mine p toks = [] ->
  x_waiting st' = delete p (x_waiting st) -> x_results st' = x_results st -> forall p', served st' toks p'.
Proof.
  intros H Hx Hmine Hw Hres p'. destruct (decide (p = p')) as [<-|Hne].
  - unfold served. by rewrite Hw, lookup_delete_eq.
  - apply (served_frame st _ toks); [done|done|by rewrite Hw, lookup_delete_ne|by rewrite Hres].
Qed.

Lemma read_written x a r : Exchange.of_kind x a -> Exchange.read_answer x (Exchange.write_answer a r) = a.
Proof.
  destruct x as [t v|s], a as [l|z|]; try done; cbn; intros H.
  - f_equal. unfold zlen. rewrite Nat2Z.id. apply firstn_all.
  - by rewrite decide_True.
  - by rewrite decide_False.
Qed.

Lemma raised_written x a r : Exchange.of_kind x a -> Exchange.raised x (Exchange.write_answer a r) = Exchange.raised x r.
Proof. by destruct x, a. Qed.

(** The token of a taken request. *)
Lemma tokens_moved st q x ph rest : x_pending st = rest ++ [(x, ph)] ->
  tokens st q ≡ₚ (x, Some ph) :: (((fun x => (x, None)) <$> q) ++ ((fun t => (t.1, Some t.2)) <$> rest)).
Proof. intros E. unfold tokens. rewrite E, fmap_app. cbn. rewrite app_assoc. symmetry. apply Permutation_cons_append. Qed.

Lemma tokens_middle st q l1 x ph l2 : x_pending st = l1 ++ (x, ph) :: l2 ->
  tokens st q ≡ₚ (x, Some ph) :: (((fun x => (x, None)) <$> q) ++ ((fun t => (t.1, Some t.2)) <$> (l1 ++ l2))).
Proof. intros E. unfold tokens. rewrite E, !fmap_app. cbn. rewrite !app_assoc. symmetry. apply Permutation_middle. Qed.

Lemma tokens_snoc st st' q x : x_pending st' = x_pending st -> tokens st' (q ++ [x]) ≡ₚ (x, None) :: tokens st q.
Proof. intros E. unfold tokens. rewrite E, fmap_app, <-app_assoc. cbn. symmetry. apply Permutation_middle. Qed.

Lemma handle_ok st q x st1 : in_order st (x :: q) -> Exchange.handle_task answers st x st1 -> in_order (st1 <| x_ring := Ring.advance (x_ring st) |>) q.
Proof.
  intros [Hring Hserved Hret] Hh. apply ring_pop in Hring. set (rest := ((fun x : request => (x, None)) <$> q) ++ ((fun t : request * phase D => (t.1, Some t.2)) <$> x_pending st)).
  assert (Ht : tokens st (x :: q) ≡ₚ (x, None) :: rest) by done. destruct (token_served _ _ _ _ _ Hserved Ht) as (Hx & Hrest & r & Hr & Hfl & _).
  destruct Hh as [t v|t v Hans|s Hroom|s Hfull]; (split; [done| |done]).
  - apply (served_move st _ (tokens st (SearchTask t v :: q)) _ (SearchTask t v) None (Some Running) rest r r); try done; [by apply (tokens_moved _ q _ _ (x_pending st))|by cbn; rewrite zinsert_same].
  - apply (served_move st _ (tokens st (SearchTask t v :: q)) _ (SearchTask t v) None (Some (Written (Pairs []))) rest r (Exchange.write_answer (Pairs []) r)); try done.
    + by apply (tokens_moved _ q _ _ (x_pending st)).
    + cbn in *. by rewrite Hr.
    + intros a [= <-] _. split; [by apply read_written|done].
  - apply (served_move st _ (tokens st (MaintTask s :: q)) _ (MaintTask s) None (Some Queued) rest r r); try done; [by apply (tokens_moved _ q _ _ (x_pending st))|by cbn; rewrite zinsert_same].
  - intros p. destruct (decide (owner (MaintTask s) = p)) as [<-|Hne].
    + unfold served. cbn [x_waiting x_results update]. rewrite Hx. split; [done|]. exists r. split; [done|]. right. split; [done|]. by rewrite Hfl.
    + apply (served_frame st _ (tokens st (MaintTask s :: q))); [done| |done|done]. rewrite Ht, mine_cons. cbn [fst]. by rewrite decide_False.
Qed.

Lemma step_ok st st' q : in_order st q -> Exchange.x_step dsm_owner answers false st st' -> exists q', in_order st' q'.
Proof.
  intros Hio Hstep. destruct (Hio) as [Hring Hserved Hret]. destruct Hstep as [p r relid query dim k efs snap ring x Hidle Hr Hok Hsend|p r type hdl size ring x Hidle Hr Hok Hown Hsend|x st1 Hnext Hh|l1 x l2 E|l1 x l2 a r E Hk Ha Hr|l1 x l2 a r E Hr|p x r Hx Hr Hfl|p t v Hc|n Hn].
  - destruct Hok as (Hok & Hz & Hd). pose proof (ring_send _ q p relid query dim k efs snap Hring Hok Hz Hd) as H. destruct (zlen q =? _); [by rewrite H in Hsend|].
    destruct H as (r' & H & Hring'). assert (r' = ring) as -> by congruence. exists (q ++ [x]). split; [done| |done].
    apply (served_sent st _ (tokens st q) _ x r); try done. by apply tokens_snoc.
  - pose proof (ring_submit _ q type hdl size Hring Hok) as H. destruct (zlen q =? _); [by rewrite H in Hsend|].
    destruct H as (r' & H & Hring'). assert (r' = ring) as -> by congruence. subst p. exists (q ++ [x]). split; [done| |done].
    apply (served_sent st _ (tokens st q) _ x r); try done. by apply tokens_snoc.
  - rewrite (ring_next _ _ Hring) in Hnext. destruct q as [|y q]; [done|]. injection Hnext as ->. exists q. by apply (handle_ok st q x st1).
  - exists q. split; [done| |done]. destruct (token_served _ _ _ _ _ Hserved (tokens_middle st q _ _ _ _ E)) as (_ & _ & r & Hr & _).
    apply (served_move st _ _ _ x (Some Queued) (Some Running) _ r r Hserved (tokens_middle st q _ _ _ _ E)); try done; [by apply (tokens_middle _ q l1 x Running l2)|by cbn; rewrite zinsert_same].
  - exists q. split; [done| |done].
    apply (served_move st _ _ _ x (Some Running) (Some (Written a)) _ r (Exchange.write_answer a r) Hserved (tokens_middle st q _ _ _ _ E)); try done; [by apply (tokens_middle _ q l1 x _ l2)|by apply raised_written|].
    intros a' [= <-] _. split; [by apply read_written|done].
  - exists q. split; [done| |done]. apply (served_done st _ (tokens st q) _ x a Hserved).
    + rewrite (tokens_middle st q _ _ _ _ E). done.
    + done.
    + intros r' Hr'. cbn. by assert (r' = r) as -> by congruence.
  - exists q. pose proof (Hserved p) as Hp. unfold served in Hp. rewrite Hx in Hp. destruct Hp as (_ & r' & Hr' & Hp). assert (r' = r) as -> by congruence.
    destruct Hp as [(o & _ & Hfl' & _)|[Hmine Hans]]; [congruence|]. split; [done| |].
    + by apply (served_left st _ _ x p Hserved Hx Hmine).
    + cbn. intros y b [Hin|Hin]%elem_of_app; [by apply Hret|]. apply list_elem_of_singleton in Hin as [= -> ->]. by apply Hans.
  - done.
  - exists q. split; [done| |done]. intros p. by apply (served_frame st _ (tokens st q)).
Qed.

Lemma steps_ok st st' q : in_order st q -> rtc (Exchange.x_step dsm_owner answers false) st st' -> exists q', in_order st' q'.
Proof.
  intros H Hs. revert q H. induction Hs as [st|st st1 st' Hstep _ IH]; intros q H; [by exists q|]. destruct (step_ok _ _ _ H Hstep) as [q1 H1]. by eapply IH.
Qed.

(** One request per process, so a process in range always finds room. *)
Lemma owners_distinct (q : list request) : (forall p, (length (filter (fun x => owner x = p) q) <= 1)%nat) -> NoDup (owner <$> q).
Proof.
  induction q as [|x q IH]; intros H; [constructor|]. rewrite fmap_cons. constructor.
  - intros (y & Hy & Hin)%list_elem_of_fmap. specialize (H (owner x)). rewrite filter_cons, decide_True in H by done.
    assert (y ∈ filter (fun z => owner z = owner x) q) as Hf by (apply list_elem_of_filter; split; [by symmetry|done]).
    destruct (filter (fun z => owner z = owner x) q); [by apply not_elem_of_nil in Hf|cbn in H; lia].
  - apply IH. intros p. specialize (H p). rewrite filter_cons in H. case_decide; cbn in H; lia.
Qed.

Lemma filter_tokens p st (q : list request) : (length (filter (fun x => owner x = p) q) <= length (mine p (tokens st q)))%nat.
Proof.
  unfold mine, tokens. rewrite filter_app, length_app. enough (length (filter (fun x => owner x = p) q) = length (filter (fun t : request * option (phase D) => owner t.1 = p) ((fun x => (x, None)) <$> q))) by lia.
  induction q as [|x q IH]; [done|]. rewrite fmap_cons, !filter_cons. cbn [fst]. case_decide; cbn [length]; by rewrite IH.
Qed.

Lemma mine_short st toks p : served st toks p -> (length (mine p toks) <= 1)%nat.
Proof. unfold served. destruct (x_waiting st !! p); [intros (_ & r0 & _ & [(o & -> & _)|[-> _]]); cbn; lia|intros ->; cbn; lia]. Qed.

Lemma never_full st q p : in_order st q -> x_waiting st !! p = None -> 0 <= p < ring_size (x_ring st) ->
  (forall p', is_Some (x_waiting st !! p') -> 0 <= p' < ring_size (x_ring st)) -> zlen q < ring_size (x_ring st).
Proof.
  intros [Hring Hserved _] Hidle Hp Hrange. set (size := ring_size (x_ring st)) in *.
  assert (Hwait : forall y, y ∈ q -> is_Some (x_waiting st !! owner y)).
  { intros y Hy. specialize (Hserved (owner y)). unfold served in Hserved. destruct (x_waiting st !! owner y); [by eexists|].
    assert (Hin : (y, None) ∈ mine (owner y) (tokens st q)); [|rewrite Hserved in Hin; by apply not_elem_of_nil in Hin].
    apply list_elem_of_filter. split; [done|]. apply elem_of_app. left. apply list_elem_of_fmap. by exists y. }
  assert (Hnd : NoDup (p :: (owner <$> q))).
  { constructor; [|apply owners_distinct; intros p'; pose proof (filter_tokens p' st q); pose proof (mine_short _ _ _ (Hserved p')); lia].
    intros (y & -> & Hy)%list_elem_of_fmap. destruct (Hwait y Hy) as [z Hz]. congruence. }
  assert (Hf : Forall (fun i => 0 <= i < Z.of_nat (Z.to_nat size)) (p :: (owner <$> q))).
  { constructor; [lia|]. apply Forall_fmap, Forall_forall. intros y Hy. cbn. specialize (Hrange (owner y) (Hwait y Hy)). lia. }
  pose proof (NoDup_zrange_length _ _ Hnd Hf) as Hl. cbn [length] in Hl. rewrite length_fmap in Hl. unfold zlen. lia.
Qed.

(** ** A process whose task was dropped *)

Record forgotten st (q : list request) (p : Z) (x : request) : Prop := {
  fg_ring : ring_of (x_ring st) q; fg_none : mine p (tokens st q) = []; fg_waiting : x_waiting st !! p = Some x;
  fg_maint : exists s, x = MaintTask s; fg_flag : exists r, x_results st !! p = Some r /\ Exchange.raised x r = false }.

Lemma none_owned p toks x o rest : mine p toks = [] -> toks ≡ₚ (x, o) :: rest -> owner x <> p /\ mine p rest = [].
Proof.
  intros H Ht. assert (Hm : mine p ((x, o) :: rest) = []) by (apply Permutation_nil; by rewrite <-H, Ht). rewrite mine_cons in Hm. cbn [fst] in Hm. by case_decide.
Qed.

Lemma forgotten_frame st st' q q' p x : forgotten st q p x -> ring_of (x_ring st') q' -> mine p (tokens st' q') = [] ->
  x_waiting st' !! p = x_waiting st !! p -> x_results st' !! p = x_results st !! p -> forgotten st' q' p x.
Proof. intros [H1 H2 H3 H4 H5] Hr Hm Hw Hres. split; [done|done|by rewrite Hw|done|by rewrite Hres]. Qed.

Lemma mine_other p x o rest toks : owner x <> p -> toks ≡ₚ (x, o) :: rest -> mine p rest = [] -> mine p toks = [].
Proof. intros Hne Ht Hm. apply Permutation_nil. rewrite Ht, mine_cons. cbn [fst]. by rewrite decide_False, Hm. Qed.

Lemma forgotten_step cancels st st' q p x : forgotten st q p x -> Exchange.x_step dsm_owner answers cancels st st' -> exists q', forgotten st' q' p x.
Proof.
  intros Hf Hstep. destruct (Hf) as [Hring Hnone Hw [s ->] [r0 [Hr0 Hfl0]]].
  destruct Hstep as [p' r relid query dim k efs snap ring y Hidle Hr Hok Hsend|p' r type hdl size ring y Hidle Hr Hok Hown Hsend|y st1 Hnext Hh|l1 y l2 E|l1 y l2 a r E Hk Ha Hr|l1 y l2 a r E Hr|p' y r Hy Hr Hfl|p' t v Hc Ht|n Hn].
  - assert (Hne : p' <> p) by (intros ->; congruence). destruct Hok as (Hok & Hz & Hd). pose proof (ring_send _ q p' relid query dim k efs snap Hring Hok Hz Hd) as H.
    destruct (zlen q =? _); [by rewrite H in Hsend|]. destruct H as (r' & H & Hring'). assert (r' = ring) as -> by congruence. exists (q ++ [y]).
    apply (forgotten_frame st _ q); [done|done| |by cbn; apply lookup_insert_ne|by cbn; apply zlookup_insert_ne]. by apply (mine_other p y None (tokens st q)); [|apply tokens_snoc|].
  - assert (Hne : p' <> p) by (intros ->; congruence). pose proof (ring_submit _ q type hdl size Hring Hok) as H.
    destruct (zlen q =? _); [by rewrite H in Hsend|]. destruct H as (r' & H & Hring'). assert (r' = ring) as -> by congruence. exists (q ++ [y]).
    apply (forgotten_frame st _ q); [done|done| |by cbn; apply lookup_insert_ne|by cbn; apply zlookup_insert_ne]. by apply (mine_other p y None (tokens st q)); [cbn; congruence|apply tokens_snoc|].
  - rewrite (ring_next _ _ Hring) in Hnext. destruct q as [|z q]; [done|]. injection Hnext as ->. apply ring_pop in Hring. exists q.
    assert (Ht : tokens st (y :: q) ≡ₚ (y, None) :: (((fun x : request => (x, None)) <$> q) ++ ((fun t : request * phase D => (t.1, Some t.2)) <$> x_pending st))) by done.
    destruct (none_owned _ _ _ _ _ Hnone Ht) as [Hne Hrest].
    destruct Hh as [t v|t v Hans|s' Hroom|s' Hfull]; (eapply forgotten_frame; [exact Hf|..]); try done; try (eapply mine_other; [exact Hne|eapply (tokens_moved _ q _ _ (x_pending st)); reflexivity|exact Hrest]).
    cbn [x_results update Exchange.owner] in Hne |- *. destruct (x_results st !! backend_pgprocno t); [by apply zlookup_insert_ne|done].
  - exists q. destruct (none_owned _ _ _ _ _ Hnone (tokens_middle st q _ _ _ _ E)) as [Hne Hrest]. apply (forgotten_frame st _ q); try done. eapply mine_other; [exact Hne|by apply (tokens_middle _ q l1 y Running l2)|done].
  - exists q. destruct (none_owned _ _ _ _ _ Hnone (tokens_middle st q _ _ _ _ E)) as [Hne Hrest]. apply (forgotten_frame st _ q); try done; [eapply mine_other; [exact Hne|by apply (tokens_middle _ q l1 y (Written a) l2)|done]|by cbn; apply zlookup_insert_ne].
  - exists q. destruct (none_owned _ _ _ _ _ Hnone (tokens_middle st q _ _ _ _ E)) as [Hne Hrest]. apply (forgotten_frame st _ q); try done. by cbn; apply zlookup_insert_ne.
  - exists q. assert (Hne : p' <> p) by (intros ->; congruence). apply (forgotten_frame st _ q); try done. by cbn; apply lookup_delete_ne.
  - exists q. assert (Hne : p' <> p) by (intros ->; congruence). apply (forgotten_frame st _ q); try done. by cbn; apply lookup_delete_ne.
  - exists q. by apply (forgotten_frame st _ q).
Qed.

Lemma forgotten_steps cancels st st' q p x : forgotten st q p x -> rtc (Exchange.x_step dsm_owner answers cancels) st st' -> exists q', forgotten st' q' p x.
Proof.
  intros H Hs. revert q H. induction Hs as [st|st st1 st' Hstep _ IH]; intros q H; [by exists q|]. destruct (forgotten_step _ _ _ _ _ _ H Hstep) as [q1 H1]. by eapply IH.
Qed.
End replies.

(** ** A search given up *)

Lemma copy_overflow {D} (k : Z) (dummy : DistancePair D) (r : VectorSearchResultData D) : 0 <= k < result_count r -> result_count r <= zlen (result_pairs r) ->
  Exchange.copy_segment_pairs k dummy r = Error OutOfBounds.
Proof.
  intros Hk Hr. unfold Exchange.copy_segment_pairs, copy_loop. replace (result_count r) with (k + (result_count r - k)) by lia. rewrite seqZ_app, foldl_res_app by lia.
  assert (Hz : zlen (replicate (Z.to_nat k) dummy) = k) by (unfold zlen; rewrite length_replicate; lia).
  destruct (copy_loop_spec (fun p : DistancePair D => p) (result_pairs r) 0 k (replicate (Z.to_nat k) dummy)) as (d & Hd & Hl & _); [lia|lia|lia|].
  unfold copy_loop in Hd. rewrite Hd. cbn [mbind res_bind]. rewrite seqZ_cons by lia. cbn [foldl_res]. destruct (zlookup_lt_is_Some (result_pairs r) (0 + k)) as [x Hx]; [lia|].
  run. unfold arr_set, arr_get. rewrite zlookup_ge by lia. done.
Qed.

Lemma stale_run {D} (dsm_owner : Z -> Z) (answers : request -> answer D -> Prop) st p r t1 v1 t2 v2 l1 :
  in_order dsm_owner answers st [] -> x_pending st = [] -> x_waiting st !! p = None -> x_results st !! p = Some r ->
  request_ok (SearchTask t1 v1) -> request_ok (SearchTask t2 v2) -> backend_pgprocno t1 = p -> backend_pgprocno t2 = p -> answers (SearchTask t1 v1) (Pairs l1) ->
  exists st' r', rtc (Exchange.x_step dsm_owner answers true) st st' /\ x_returned st' = x_returned st ++ [(SearchTask t2 v2, Pairs l1)] /\
    x_results st' !! p = Some r' /\ result_count r' = zlen l1 /\ result_pairs r' = l1.
Proof.
  intros [Hring _ _] Hpend Hidle Hr Hok1 Hok2 Hp1 Hp2 Hans. set (x1 := SearchTask t1 v1) in *. set (x2 := SearchTask t2 v2) in *.
  destruct t1 as [p1 relid1 dim1 k1 efs1 snap1], t2 as [p2 relid2 dim2 k2 efs2 snap2]. cbn [backend_pgprocno] in *. subst p1 p2.
  pose proof (rg_size _ _ Hring) as Hsize.
  pose proof (ring_send _ _ p relid1 v1 dim1 k1 efs1 snap1 Hring (proj1 Hok1) (proj1 (proj2 Hok1)) (proj2 (proj2 Hok1))) as H. rewrite zlen_nil in H.
  destruct (Z.eqb_spec 0 (ring_size (x_ring st))) as [E|_]; [lia|]. destruct H as (ring1 & Hs1 & Hring1). cbn [app] in Hring1.
  pose proof (ring_pop _ _ _ Hring1) as Hring1'. pose proof (rg_size _ _ Hring1') as Hsize1.
  pose proof (ring_send _ _ p relid2 v2 dim2 k2 efs2 snap2 Hring1' (proj1 Hok2) (proj1 (proj2 Hok2)) (proj2 (proj2 Hok2))) as H. rewrite zlen_nil in H.
  destruct (Z.eqb_spec 0 (ring_size (Ring.advance ring1))) as [E|_]; [lia|]. destruct H as (ring2 & Hs2 & Hring2). cbn [app] in Hring2.
  set (r1 := Exchange.clear x1 r). set (r2 := Exchange.clear x2 r1). set (r3 := Exchange.write_answer (Pairs l1) r2). set (r4 := Exchange.raise x1 r3).
  assert (Hin : forall y, <[p := y]> (x_results st) !! p = Some y) by (intros y; by eapply zlookup_insert_eq).
  eexists _, r4. split; [|split; [|split]].
  - eapply rtc_l; [exact (Exchange.send_search dsm_owner answers true st p r relid1 v1 dim1 k1 efs1 snap1 ring1 Hidle Hr Hok1 Hs1)|].
    eapply rtc_l; [eapply (Exchange.worker_takes _ _ _ _ x1); [exact (ring_next _ _ Hring1)|constructor]|].
    eapply rtc_l; [eapply (Exchange.cancelled _ _ _ _ p); [done|cbn; by rewrite lookup_insert_eq]|].
    eapply rtc_l; [eapply (Exchange.send_search _ _ _ _ p r1 relid2 v2 dim2 k2 efs2 snap2 ring2); [cbn; by rewrite lookup_delete_eq|apply Hin|exact Hok2|exact Hs2]|].
    eapply rtc_l; [eapply (Exchange.writes _ _ _ _ [] x1 [] (Pairs l1) r2); [cbn; by rewrite Hpend|done|done|cbn; rewrite zinsert_insert; apply Hin]|].
    eapply rtc_l; [eapply (Exchange.announces _ _ _ _ [] x1 [] (Pairs l1) r3); [done|cbn; rewrite !zinsert_insert; apply Hin]|].
    eapply rtc_l; [eapply (Exchange.receives _ _ _ _ p x2 r4); [cbn; by rewrite lookup_insert_eq|cbn; rewrite !zinsert_insert; apply Hin|done]|]. reflexivity.
  - cbn. do 4 f_equal. unfold zlen. rewrite Nat2Z.id. apply firstn_all.
  - cbn. rewrite !zinsert_insert. apply Hin.
  - done.
Qed.

(** ** A vector longer than its slot *)

Lemma slice_prefix {A} (l : list A) m : slice l 0 m = take (Z.to_nat m) l.
Proof. unfold slice. by rewrite drop_0, Z.sub_0_r. Qed.

Lemma long_last r q proc relid query dim k efs snap : ring_of r q -> zlen q < ring_size r -> zlen query = dim -> Ring.MAX_DIM < dim -> tail r = ring_size r - 1 ->
  Ring.vector_search_send proc relid query dim k efs snap r = Error OutOfBounds.
Proof.
  intros [] Hroom Hz Hdim Ht. unfold Ring.vector_search_send, Ring.get_ring_buffer_slot. rewrite rg_count0. zcase; [lia|]. cbn [task_slots search_pool update]. unfold Ring.MAX_DIM in *.
  destruct (zlookup_lt_is_Some (task_slots r) (tail r)) as [old Hold]; [lia|]. rewrite (arr_set_Some _ _ _ _ Hold). cbn [mbind res_bind]. rewrite task_word_eq, vector_word_eq.
  set (w := Ring.task_words _). assert (Hw : zlen w = 17) by (unfold zlen, w; by rewrite length_task_words).
  destruct (mem_write_ok (search_pool r) (1042 * tail r) w) as [p1 Hp1]; [lia|lia|]. rewrite Hp1. cbn [mbind res_bind]. apply mem_write_spec in Hp1 as (_ & _ & Hz1 & _).
  rewrite firstn_all2 by (unfold zlen in Hz; lia). unfold mem_write. destruct (Z.ltb_spec (zlen p1) (1042 * tail r + 18 + zlen query)); [by rewrite orb_true_r|lia].
Qed.

(** Sending the task [t]. *)
Definition send_task (t : VectorSearchTaskData) (v : list Z) (r : RingBufferShmem) : res RingBufferShmem :=
  Ring.vector_search_send (backend_pgprocno t) (search_relid t) v (vector_dim t) (topk t) (efs_nprobe t) (snapshot t) r.

Lemma long_next r q t1 v1 t2 v2 : ring_of r q -> zlen q + 1 < ring_size r -> tail r + 1 < ring_size r ->
  task_ok t1 -> zlen v1 = vector_dim t1 -> Ring.MAX_DIM < vector_dim t1 <= 2000 -> request_ok (SearchTask t2 v2) ->
  exists r1 r2 v1', send_task t1 v1 r = Ok r1 /\ send_task t2 v2 r1 = Ok r2 /\ Ring.read_task r2 (tail r) = Ok (SearchTask t1 v1') /\
    slice v1' 1024 (1024 + Z.min 17 (vector_dim t1 - 1024)) = take (Z.to_nat (Z.min 17 (vector_dim t1 - 1024))) (Ring.task_words t2).
Proof.
  intros Hr Hroom Htail Hok1 Hz1 Hd1 (Hok2 & Hz2 & Hd2). pose proof (ring_tail _ _ Hr) as Ht. destruct Hr. destruct t1 as [proc1 relid1 dim1 k1 efs1 snap1], t2 as [proc2 relid2 dim2 k2 efs2 snap2].
  cbn [backend_pgprocno search_relid vector_dim topk efs_nprobe snapshot] in *. unfold Ring.MAX_DIM in *. pose proof (tk_dim _ Hok2) as Hd2'. cbn [vector_dim] in Hd2'.
  set (t1 := mkSearch proc1 relid1 dim1 k1 efs1 snap1) in *. set (t2 := mkSearch proc2 relid2 dim2 k2 efs2 snap2) in *. assert (Hw1 : zlen (Ring.task_words t1) = 17) by (unfold zlen; by rewrite length_task_words).
  assert (Hw2 : zlen (Ring.task_words t2) = 17) by (unfold zlen; by rewrite length_task_words). set (task := mkTask VectorSearchTaskType 0 0).
  destruct (zlookup_lt_is_Some (task_slots r) (tail r)) as [old1 Ho1]; [lia|].
  destruct (zlookup_lt_is_Some (<[tail r := task]> (task_slots r)) (tail r + 1)) as [old2 Ho2]; [rewrite zlen_insert; lia|].
  destruct (mem_write_ok (search_pool r) (1042 * tail r) (Ring.task_words t1)) as [p1 Hp1]; [lia|lia|]. destruct (mem_write_spec _ _ _ _ Hp1) as (_ & _ & L1 & S1 & F1).
  destruct (mem_write_ok p1 (1042 * tail r + 18) v1) as [p2 Hp2]; [lia|lia|]. destruct (mem_write_spec _ _ _ _ Hp2) as (_ & _ & L2 & S2 & F2).
  destruct (mem_write_ok p2 (1042 * (tail r + 1)) (Ring.task_words t2)) as [p3 Hp3]; [lia|lia|]. destruct (mem_write_spec _ _ _ _ Hp3) as (_ & _ & L3 & S3 & F3).
  destruct (mem_write_ok p3 (1042 * (tail r + 1) + 18) v2) as [p4 Hp4]; [lia|lia|]. destruct (mem_write_spec _ _ _ _ Hp4) as (_ & _ & L4 & S4 & F4).
  set (slots1 := <[tail r := task]> (task_slots r)) in *.
  set (r1 := mkRing (ring_size r) (head r) (Z.rem (tail r + 1) (ring_size r)) (count r + 1) slots1 p2).
  set (r2 := mkRing (ring_size r) (head r) (Z.rem (tail r + 1 + 1) (ring_size r)) (count r + 1 + 1) (<[tail r + 1 := task]> slots1) p4).
  assert (Hs1 : send_task t1 v1 r = Ok r1).
  { unfold send_task, Ring.vector_search_send, Ring.get_ring_buffer_slot. cbn [task_slots search_pool update]. rewrite rg_count0, task_word_eq, vector_word_eq. zcase; [lia|].
    rewrite (arr_set_Some _ _ _ _ Ho1). cbn [mbind res_bind]. change (mkSearch _ _ _ _ _ _) with t1. rewrite Hp1. cbn [mbind res_bind].
    rewrite firstn_all2 by (unfold zlen in Hz1; cbn; lia). rewrite Hp2. reflexivity. }
  assert (Hs2 : send_task t2 v2 r1 = Ok r2).
  { unfold send_task, Ring.vector_search_send, Ring.get_ring_buffer_slot. cbn [ring_size head tail count task_slots search_pool update r1]. rewrite rg_count0, (Z.rem_small (tail r + 1)), task_word_eq, vector_word_eq by lia. zcase; [lia|].
    rewrite (arr_set_Some _ _ _ _ Ho2). cbn [mbind res_bind]. change (mkSearch _ _ _ _ _ _) with t2. rewrite Hp3. cbn [mbind res_bind].
    rewrite firstn_all2 by (unfold zlen in Hz2; cbn; lia). rewrite Hp4. cbn [mbind res_bind]. reflexivity. }
  exists r1, r2. eexists. split; [exact Hs1|]. split; [exact Hs2|]. unfold Ring.read_task. cbn [task_slots search_pool r2]. unfold arr_get, slots1. rewrite zlookup_insert_ne, (zlookup_insert_eq _ _ _ _ Ho1) by lia. cbn [of_option mbind res_bind task_type task].
  rewrite decide_True by done. rewrite task_word_eq, vector_word_eq.
  destruct (zlookup_lt_is_Some p1 (1042 * tail r + 17)) as [w Hw]; [lia|].
  assert (Hsl : slice p4 (1042 * tail r) (1042 * tail r + 18) = Ring.task_words t1 ++ [w]).
  { rewrite F4, F3, F2 by lia. replace (1042 * tail r + 18) with (1042 * tail r + 17 + 1) by lia. rewrite (slice_snoc _ _ _ w) by (done || lia). by rewrite <-Hw1, S1. }
  rewrite Hsl, words_roundtrip by done. change (vector_dim t1) with dim1. destruct (Z.ltb_spec (zlen p4) (1042 * tail r + 18 + dim1)); [lia|]. split; [reflexivity|].
  replace 1024 with (1042 * (tail r + 1) - (1042 * tail r + 18)) at 1 by lia.
  replace (1024 + Z.min 17 (dim1 - 1024)) with (1042 * (tail r + 1) + Z.min 17 (dim1 - 1024) - (1042 * tail r + 18)) by lia. rewrite slice_slice by lia.
  rewrite F4 by lia. rewrite <-S3, <-slice_prefix. symmetry. rewrite Hw2.
  rewrite <-(slice_slice p3 (1042 * (tail r + 1)) (1042 * (tail r + 1) + 17) (1042 * (tail r + 1)) (1042 * (tail r + 1) + Z.min 17 (dim1 - 1024))) by lia. f_equal; lia.
Qed.

(** Every array of tuple ids of a trailer starts 4 bytes past a multiple of 8. *)
Lemma tids_misaligned groups g : Trailer.tids_offset groups g mod 8 = 4.
Proof.
  unfold Trailer.tids_offset, Trailer.sizeof_SegmentUpdateTaskData. change (zlen (le_bytes 4 _)) with 4.
  assert (H : exists m, zlen (take g groups ≫= Trailer.pack_group) = 8 * m).
  { generalize (take g groups). intros l. induction l as [|x l [m IH]]; [by exists 0|]. exists (1 + zlen (gp_tids x) + m). change ((x :: l) ≫= Trailer.pack_group) with (Trailer.pack_group x ++ (l ≫= Trailer.pack_group)). rewrite zlen_app, zlen_pack. lia. }
  destruct H as [m ->]. replace (56 + 4 + 8 * m + 8) with (4 + (m + 8) * 8) by lia. by rewrite Z_mod_plus_full.
Qed.

(** [ring_buffer_init] allocates the two pools besides the room for them in the
    ring's own object. *)
Lemma init_exceeds_reservation n aux : 0 < n -> 0 <= aux ->
  foldr Z.add 0 (Ring.ring_buffer_init_sizes n aux) = Ring.calculate_ring_buffer_shmem_size n aux + (4168 * n + 12024 * (n + aux)).
Proof.
  intros. unfold Ring.ring_buffer_init_sizes, Ring.calculate_vector_search_task_pool_size, Ring.calculate_vector_search_result_pool_size. cbn [foldr].
  change Ring.search_task_stride with 4168. change Ring.search_result_stride with 12024. lia.
Qed.

(** *** An example *)
Module QueueRuns.

Definition snap : LSMSnapshot := mkSnapshot 0 5 1 [1] [4].
Definition task (p k dim : Z) : VectorSearchTaskData := mkSearch p 7 dim k 40 snap.
Definition no_result : VectorSearchResultData Z := mkResult 0 0 [] 0 0.
Definition fresh (n : Z) (results : list (VectorSearchResultData Z)) : exchange Z := mkExchange (Ring.ring_buffer_init n) results ∅ [] 0 [].
(** A right answer: so many pairs as the search asks for. *)
Definition answers (x : request) (a : answer Z) : Prop := match x, a with SearchTask t _, Pairs l => zlen l <= topk t | MaintTask _, Pairs _ => False | _, _ => True end.
Definition two : list (DistancePair Z) := [mkPair 1 11; mkPair 2 12].

Lemma task_fits p k dim : 0 <= p < 100 -> 0 <= k < 100 -> 0 <= dim < 3000 -> task_ok (task p k dim).
Proof. intros. split; cbn; unfold int32, uint32; try lia; (split; [reflexivity|repeat constructor; lia]). Qed.

Lemma request_fits p k v : 0 <= p < 100 -> 0 <= k < 100 -> zlen v <= 1024 -> request_ok (SearchTask (task p k (zlen v)) v).
Proof. intros. pose proof (zlen_nonneg v). split; [apply task_fits; lia|]. by split. Qed.
End QueueRuns.

Lemma fresh_in_order {D} dsm_owner (answers : request -> answer D -> Prop) n results : 0 < n ->
  in_order dsm_owner answers (mkExchange (Ring.ring_buffer_init n) results ∅ [] 0 []) [].
Proof. intros Hn. split; [by apply ring_init| |]. - intros p. done. - intros x a H. by apply not_elem_of_nil in H. Qed.

Import QueueRuns.

(** ** Properties *)

(** C12: The ring is a queue.  Whatever has been sent and handled before, sending
    appends a task exactly as it was given (its fields, its snapshot, its
    vector), or raises an error when as many tasks wait as there are slots; the
    worker is given the oldest one, and handling it leaves the others. *)
Theorem ring_refines_queue r q :
  ring_of r q ->
  (forall t v, request_ok (SearchTask t v) ->
     if zlen q =? ring_size r then send_task t v r = Error ElogError
     else exists r', send_task t v r = Ok r' /\ ring_of r' (q ++ [SearchTask t v])) /\
  (forall type hdl size, type <> VectorSearchTaskType ->
     if zlen q =? ring_size r then Ring.submit_maintenance type hdl size r = Error ElogError
     else exists r', Ring.submit_maintenance type hdl size r = Ok r' /\ ring_of r' (q ++ [MaintTask (mkTask type size hdl)])) /\
  Ring.next_task r = Ok (hd_error q) /\
  (forall x q', q = x :: q' -> ring_of (Ring.advance r) q').
Proof.
  intros Hr. split; [|split; [|split]].
  - intros [p relid dim k efs snap] v (Hok & Hz & Hd). exact (ring_send r q p relid v dim k efs snap Hr Hok Hz Hd).
  - intros type hdl size Hty. exact (ring_submit r q type hdl size Hr Hty).
  - by apply ring_next.
  - intros x q' ->. by apply ring_pop in Hr.
Qed.

Lemma ring_refines_queue_witness :
  exists r, send_task (task 1 5 3) [7; 8; 9] (Ring.ring_buffer_init 2) = Ok r /\ Ring.next_task r = Ok (Some (SearchTask (task 1 5 3) [7; 8; 9])).
Proof.
  destruct (ring_refines_queue _ [] (ring_init 2 ltac:(lia))) as (Hs & _). specialize (Hs (task 1 5 3) [7; 8; 9] (request_fits 1 5 [7; 8; 9] ltac:(lia) ltac:(lia) ltac:(vm_compute; discriminate))).
  destruct Hs as (r & Hsend & Hr). exists r. split; [exact Hsend|]. by destruct (ring_refines_queue r _ Hr) as (_ & _ & Hn & _).
Defined.

(** C11: Every process gets the answer to its own request.  However processes
    send searches and maintenance tasks, the worker takes them and threads finish
    them, in any order: what a process returns with is an answer to what it sent;
    and a process that has a slot of its own in the ring never finds it full.
    (No search is given up between sending and waiting here.) *)
Theorem replies_match_requests {D} dsm_owner (answers : request -> answer D -> Prop) n results st :
  0 < n -> rtc (Exchange.x_step dsm_owner answers false) (mkExchange (Ring.ring_buffer_init n) results ∅ [] 0 []) st ->
  (forall x a, (x, a) ∈ x_returned st -> answers x a) /\
  (forall p, x_waiting st !! p = None -> 0 <= p < ring_size (x_ring st) -> (forall p', is_Some (x_waiting st !! p') -> 0 <= p' < ring_size (x_ring st)) ->
     count (x_ring st) < ring_size (x_ring st)).
Proof.
  intros Hn Hs. destruct (steps_ok _ _ _ _ [] (fresh_in_order dsm_owner answers n results Hn) Hs) as [q Hq]. split; [apply (io_returned _ _ _ _ Hq)|].
  intros p Hidle Hp Hrange. rewrite (rg_count _ _ (io_ring _ _ _ _ Hq)). by apply (never_full dsm_owner answers st q p).
Qed.

Lemma replies_match_requests_witness :
  exists st, x_returned st = [(SearchTask (task 1 5 3) [7; 8; 9], Pairs two)] /\ answers (SearchTask (task 1 5 3) [7; 8; 9]) (Pairs two).
Proof.
  set (x := SearchTask (task 1 5 3) [7; 8; 9]). assert (Hok : request_ok x) by (apply (request_fits 1 5 [7; 8; 9]); [lia|lia|vm_compute; discriminate]).
  pose proof (ring_send _ _ 1 7 [7; 8; 9] 3 5 40 snap (ring_init 2 ltac:(lia)) (proj1 Hok) (proj1 (proj2 Hok)) (proj2 (proj2 Hok))) as H. cbv zeta in H.
  change (zlen [] =? ring_size (Ring.ring_buffer_init 2)) with false in H. cbv iota in H. destruct H as (ring & Hs & Hring). set (r0 := no_result).
  set (st0 := fresh 2 [r0; r0]). set (st1 := st0 <| x_ring := ring |> <| x_results ::= <[1 := Exchange.clear x r0]> |> <| x_waiting ::= <[1 := x]> |>).
  assert (S1 : Exchange.x_step (fun _ => 0) answers false st0 st1) by (apply (Exchange.send_search _ _ _ st0 1 r0 7 [7; 8; 9] 3 5 40 snap ring); [reflexivity|reflexivity|exact Hok|exact Hs]).
  set (st2 := (st1 <| x_pending ::= fun l => l ++ [(x, Running)] |>) <| x_ring := Ring.advance ring |>).
  assert (S2 : Exchange.x_step (fun _ => 0) answers false st1 st2) by (apply (Exchange.worker_takes _ _ _ st1 x); [exact (ring_next _ _ Hring)|apply (Exchange.handle_search answers st1)]).
  set (st3 := st2 <| x_results ::= <[1 := Exchange.write_answer (Pairs two) r0]> |> <| x_pending := [(x, Written (Pairs two))] |>).
  assert (S3 : Exchange.x_step (fun _ => 0) answers false st2 st3) by (apply (Exchange.writes _ _ _ st2 [] x [] (Pairs two) r0); [reflexivity|exact I|vm_compute; discriminate|reflexivity]).
  set (r1 := Exchange.write_answer (Pairs two) r0). set (st4 := st3 <| x_results ::= <[1 := Exchange.raise x r1]> |> <| x_pending := [] |>).
  assert (S4 : Exchange.x_step (fun _ => 0) answers false st3 st4) by (apply (Exchange.announces _ _ _ st3 [] x [] (Pairs two) r1); reflexivity).
  set (st5 := st4 <| x_waiting ::= delete 1 |> <| x_returned := [(x, Pairs two)] |>).
  assert (S5 : Exchange.x_step (fun _ => 0) answers false st4 st5) by (apply (Exchange.receives _ _ _ st4 1 x (Exchange.raise x r1)); reflexivity).
  exists st5. split; [reflexivity|]. destruct (replies_match_requests (fun _ => 0) answers 2 [r0; r0] st5 ltac:(lia)) as [H _].
  - eapply rtc_l; [exact S1|]. eapply rtc_l; [exact S2|]. eapply rtc_l; [exact S3|]. eapply rtc_l; [exact S4|]. apply rtc_once, S5.
  - apply H. left.
Defined.

(** After a search is given up, the next one of the process gets its answer.
    A search that ends with an error after sending (a failed allocation, an error
    of the memtable search) stays under way.  The process's next search clears the
    flag and sends; the old one then writes its answer and raises the flag, and
    the process returns it as the new one's.  If the old search asked for more
    rows than the new one, copying them runs over the array. *)
Theorem cancelled_search_answers_next {D} dsm_owner (answers : request -> answer D -> Prop) st p r t1 v1 t2 v2 l1 :
  in_order dsm_owner answers st [] -> x_pending st = [] -> x_waiting st !! p = None -> x_results st !! p = Some r ->
  request_ok (SearchTask t1 v1) -> request_ok (SearchTask t2 v2) -> backend_pgprocno t1 = p -> backend_pgprocno t2 = p ->
  answers (SearchTask t1 v1) (Pairs l1) ->
  exists st' r', rtc (Exchange.x_step dsm_owner answers true) st st' /\ x_returned st' = x_returned st ++ [(SearchTask t2 v2, Pairs l1)] /\
    x_results st' !! p = Some r' /\
    forall dummy, 0 <= topk t2 < zlen l1 -> Exchange.copy_segment_pairs (topk t2) dummy r' = Error OutOfBounds.
Proof.
  intros Hio Hpend Hidle Hr Hok1 Hok2 Hp1 Hp2 Hans.
  destruct (stale_run dsm_owner answers st p r t1 v1 t2 v2 l1 Hio Hpend Hidle Hr Hok1 Hok2 Hp1 Hp2 Hans) as (st' & r' & Hs & Hret & Hr' & Hc & Hl).
  exists st', r'. split; [done|]. split; [done|]. split; [done|]. intros dummy Hk. apply copy_overflow; rewrite Hc, ?Hl; lia.
Qed.

Lemma cancelled_search_answers_next_witness :
  exists st' r', rtc (Exchange.x_step (fun _ => 0) answers true) (fresh 2 [no_result; no_result]) st' /\
    x_returned st' = [(SearchTask (task 1 1 2) [3; 4], Pairs two)] /\ Exchange.copy_segment_pairs 1 (mkPair 0 0) r' = Error OutOfBounds.
Proof.
  destruct (cancelled_search_answers_next (fun _ => 0) answers (fresh 2 [no_result; no_result]) 1 no_result (task 1 5 3) [7; 8; 9] (task 1 1 2) [3; 4] two) as (st' & r' & Hs & Hret & Hr' & Hk);
    [apply fresh_in_order; lia|reflexivity|reflexivity|reflexivity|apply (request_fits 1 5 [7; 8; 9]); [lia|lia|vm_compute; discriminate]|apply (request_fits 1 1 [3; 4]); [lia|lia|vm_compute; discriminate]|reflexivity|reflexivity|vm_compute; discriminate|].
  exists st', r'. split; [exact Hs|]. split; [exact Hret|]. apply Hk. vm_compute. split; [discriminate|reflexivity].
Defined.

(** C39: A maintenance task that finds the worker's queue full is lost with its
    process.  [submit_maintenance_task] then drops it with a warning; whatever
    happens from there on, the process that sent it still waits for its flag,
    and nobody will raise it. *)
Theorem dropped_task_waits_forever {D} dsm_owner (answers : request -> answer D -> Prop) st s q :
  in_order dsm_owner answers st (MaintTask s :: q) -> Exchange.MAINTENANCE_TASK_QUEUE_SIZE <= Exchange.queue_size st ->
  exists st1, Exchange.x_step dsm_owner answers false st st1 /\ x_pending st1 = x_pending st /\
    forall cancels st2, rtc (Exchange.x_step dsm_owner answers cancels) st1 st2 ->
      x_waiting st2 !! dsm_owner (task_handle s) = Some (MaintTask s) /\
      exists r, x_results st2 !! dsm_owner (task_handle s) = Some r /\ Exchange.raised (MaintTask s) r = false.
Proof.
  intros [Hring Hserved _] Hfull. set (rest := ((fun x : request => (x, None)) <$> q) ++ ((fun t : request * phase D => (t.1, Some t.2)) <$> x_pending st)).
  assert (Ht : tokens st (MaintTask s :: q) ≡ₚ (MaintTask s, None) :: rest) by done.
  destruct (token_served _ _ _ _ _ _ _ Hserved Ht) as (Hx & Hrest & r & Hr & Hfl & _). set (st1 := st <| x_ring := Ring.advance (x_ring st) |>). exists st1.
  split; [apply (Exchange.worker_takes _ _ _ st (MaintTask s)); [exact (ring_next _ _ Hring)|by constructor]|]. split; [done|]. intros cancels st2 Hs.
  assert (Hf : forgotten dsm_owner st1 q (dsm_owner (task_handle s)) (MaintTask s)).
  { split; [by apply ring_pop in Hring|exact Hrest|exact Hx|by eexists|by exists r]. }
  destruct (forgotten_steps _ _ _ _ _ _ _ _ Hf Hs) as [q' [_ _ Hw _ Hfl']]. by split.
Qed.

(** A fresh system whose queue is full of upgrades, with one task in the ring. *)
Lemma full_example : exists st, in_order (fun _ => 0) answers st [MaintTask (mkTask IndexLoadTaskType 12 77)] /\ Exchange.queue_size st = 1152.
Proof.
  set (x := MaintTask (mkTask IndexLoadTaskType 12 77)). destruct (ring_submit _ _ IndexLoadTaskType 77 12 (ring_init 2 ltac:(lia)) ltac:(discriminate)) as (ring & Hs & Hring).
  exists ((fresh 2 [no_result; no_result]) <| x_ring := ring |> <| x_results ::= <[0 := Exchange.clear x no_result]> |> <| x_waiting ::= <[0 := x]> |> <| x_upgrades := 1152 |>).
  split; [|reflexivity]. destruct (fresh_in_order (fun _ => 0) answers 2 [no_result; no_result] ltac:(lia)) as [_ Hserved Hret]. split; [exact Hring| |exact Hret].
  apply (served_sent (fun _ => 0) answers (fresh 2 [no_result; no_result]) _ (tokens (fresh 2 [no_result; no_result]) []) _ x no_result); reflexivity || exact Hserved.
Qed.

Lemma dropped_task_waits_forever_witness :
  exists st1 : exchange Z, forall cancels st2, rtc (Exchange.x_step (fun _ => 0) answers cancels) st1 st2 -> x_waiting st2 !! 0 = Some (MaintTask (mkTask IndexLoadTaskType 12 77)).
Proof.
  destruct full_example as (st & Hio & Hsize). destruct (dropped_task_waits_forever _ _ st _ _ Hio ltac:(rewrite Hsize; vm_compute; discriminate)) as (st1 & _ & _ & H).
  exists st1. intros cancels st2 Hs. by destruct (H cancels st2 Hs).
Defined.

(** A vector longer than 1024 entries does not fit its slot.  hnsw and ivfflat
    indexes take up to 2000 dimensions, the slots of the pool have room for
    [MAX_DIM] = 1024.  In the last slot the copy leaves the pool; in any other
    the next search's fields are written over the vector before the worker reads
    it, so the worker searches for another vector than the one sent. *)
Theorem long_vector_spills r q t v :
  ring_of r q -> task_ok t -> zlen v = vector_dim t -> Ring.MAX_DIM < vector_dim t <= 2000 ->
  (tail r = ring_size r - 1 -> zlen q < ring_size r -> send_task t v r = Error OutOfBounds) /\
  (forall t2 v2, tail r + 1 < ring_size r -> zlen q + 1 < ring_size r -> request_ok (SearchTask t2 v2) ->
     exists r1 r2 v', send_task t v r = Ok r1 /\ send_task t2 v2 r1 = Ok r2 /\ Ring.read_task r2 (tail r) = Ok (SearchTask t v') /\
       slice v' 1024 (1024 + Z.min 17 (vector_dim t - 1024)) = take (Z.to_nat (Z.min 17 (vector_dim t - 1024))) (Ring.task_words t2)).
Proof.
  intros Hr Hok Hz Hd. split.
  - intros Ht Hroom. exact (long_last r q _ _ v _ _ _ _ Hr Hroom Hz (proj1 Hd) Ht).
  - intros t2 v2 Ht Hroom Hok2. exact (long_next r q t v t2 v2 Hr Hroom Ht Hok Hz Hd Hok2).
Qed.

Lemma long_vector_spills_witness :
  send_task (task 1 5 1025) (replicate 1025 7) (Ring.ring_buffer_init 1) = Error OutOfBounds /\
  exists r1 r2 v', send_task (task 1 5 1041) (replicate 1041 7) (Ring.ring_buffer_init 3) = Ok r1 /\ send_task (task 2 5 3) [7; 8; 9] r1 = Ok r2 /\
    Ring.read_task r2 0 = Ok (SearchTask (task 1 5 1041) v') /\ slice v' 1024 1041 = [2; 7; 3; 0; 5; 40; 0; 1; 1; 0; 0; 0; 5; 4; 0; 0; 0].
Proof.
  assert (Hz : forall n, zlen (replicate n 7) = Z.of_nat n) by (intros n; unfold zlen; by rewrite length_replicate). split.
  - apply (proj1 (long_vector_spills (Ring.ring_buffer_init 1) [] (task 1 5 1025) (replicate 1025 7) (ring_init 1 ltac:(lia)) (task_fits 1 5 1025 ltac:(lia) ltac:(lia) ltac:(lia)) (Hz 1025%nat) ltac:(vm_compute; split; [reflexivity|discriminate]))); reflexivity.
  - destruct (proj2 (long_vector_spills (Ring.ring_buffer_init 3) [] (task 1 5 1041) (replicate 1041 7) (ring_init 3 ltac:(lia)) (task_fits 1 5 1041 ltac:(lia) ltac:(lia) ltac:(lia)) (Hz 1041%nat) ltac:(vm_compute; split; [reflexivity|discriminate])) (task 2 5 3) [7; 8; 9] ltac:(reflexivity) ltac:(reflexivity) (request_fits 2 5 [7; 8; 9] ltac:(lia) ltac:(lia) ltac:(vm_compute; discriminate))) as (r1 & r2 & v' & H1 & H2 & H3 & H4).
    exists r1, r2, v'. split; [exact H1|]. split; [exact H2|]. split; [exact H3|]. exact H4.
Defined.

(** The trailer of an ADOPT task is read back as it was written: every group
    with its id and its tuple ids in order; and whatever the bytes are, reading
    them either fails or never looks past the length given. *)
Theorem trailer_roundtrip groups :
  Forall group_ok groups -> zlen groups < 2 ^ 32 -> Trailer.payload_size groups < 2 ^ 32 ->
  Trailer.parse_groups (Trailer.deletion_tids_count groups) (Trailer.pack_groups groups) = Ok groups /\
  forall n src src', Forall (fun x => 0 <= x) src -> take (Z.to_nat n) src = take (Z.to_nat n) src' -> Trailer.parse_groups n src = Trailer.parse_groups n src'.
Proof. intros Hok Hn Hs. split; [by apply parse_packed|]. exact parse_prefix. Qed.

Lemma trailer_roundtrip_witness :
  Trailer.parse_groups 44 (Trailer.pack_groups [mkGroup 4 [65537; -1]; mkGroup 5 []; mkGroup 6 []]) = Ok [mkGroup 4 [65537; -1]; mkGroup 5 []; mkGroup 6 []].
Proof.
  destruct (trailer_roundtrip [mkGroup 4 [65537; -1]; mkGroup 5 []; mkGroup 6 []]) as [H _]; [|reflexivity|reflexivity|exact H].
  repeat (apply Forall_cons_2 || apply Forall_nil_2 || split); vm_compute; (reflexivity || discriminate).
Defined.
