(* ===== verification/SegmentSearch.v ===== *)
(** Searching the flushed segments ([vector_search] of vector_index_worker.c,
    [ConcurrentVectorSearchOnSegments], [search_segment_task] and
    [merge_all_segment_results] of vectorindeximpl.cpp): the segments a search
    pins and visits, and the threads that search one segment each, the last of
    which merges and publishes.

    knowhere's search of one index is an argument.  A segment's buffers are read
    through its slot when its thread runs: they are the same as long as the slot
    is pinned. *)

From S2P Require Import Prelude Bitmap SegmentPool PoolLifecycle TopK Memtable MemtableSearch.

(** Where the thread of a segment is. *)
Inductive search_pc := Searching | Searched | Unpinned | Finished.
#[global] Instance search_pc_eq_dec : EqDecision search_pc.
Proof. solve_decision. Defined.

(** [ConcurrentSearchContext]: the slots to search, a result per slot, the
    countdown, and what was published. *)
Record ConcurrentSearchContext {D : Type} := mkContext {
  cx_segments : list Z;
  cx_results : list (list (DistancePair D));
  cx_remaining : Z;
  cx_pcs : list search_pc;
  cx_published : option (list (DistancePair D)) }.
Arguments ConcurrentSearchContext : clear implicits.
Arguments mkContext {D}.
Arguments cx_segments {D}.
Arguments cx_results {D}.
Arguments cx_remaining {D}.
Arguments cx_pcs {D}.
Arguments cx_published {D}.
#[global] Instance eta_context {D} : Settable (ConcurrentSearchContext D) := fun c =>
  mkContext (cx_segments c) (cx_results c) (cx_remaining c) (cx_pcs c) (cx_published c).

Module SegSearch.

(** The walk under the lock: pin every segment in use, remember its slot. *)
Fixpoint pin_walk (fuel : nat) (pool : FlushedSegmentPool) (idx tail : Z) : res (list Z * FlushedSegmentPool) :=
  match fuel with
  | O => Error OutOfFuel
  | S fuel =>
      s ← arr_get (flushed_segments pool) idx;
      '(here, pool) ← (if in_used s then pool ← Pool.pin_segment pool idx; Ok ([idx], pool) else Ok ([], pool));
      if idx =? tail then Ok (here, pool)
      else '(rest, pool) ← pin_walk fuel pool (next_idx s) tail; Ok (here ++ rest, pool)
  end.

Definition pin_all (pool : FlushedSegmentPool) : res (list Z * FlushedSegmentPool) :=
  if head_idx pool =? NIL then Ok ([], pool) else pin_walk Pool.list_fuel pool (head_idx pool) (tail_idx pool).

(** Is [sid] one of the memtables of the snapshot? *)
Definition sid_covered (snap : LSMSnapshot) (sid : Z) : bool :=
  (sid =? gmt_id snap) || existsb (fun j => match smt_ids snap !! j with Some x => u32 x =? sid | None => false end) (seqZ 0 (scount snap)).

Definition fully_covered (snap : LSMSnapshot) (s : FlushedSegmentData) : bool :=
  forallb (sid_covered snap) (seqZ (segment_id_start s) (segment_id_end s - segment_id_start s + 1)).

(** The filter after the lock is released; a skipped segment is unpinned. *)
Definition filter_segment (snap : LSMSnapshot) (st : list Z * FlushedSegmentPool) (idx : Z) : res (list Z * FlushedSegmentPool) :=
  let '(to_search, pool) := st in
  s ← arr_get (flushed_segments pool) idx;
  if fully_covered snap s then pool ← Pool.decrement_flushed_segment_ref_count pool idx; Ok (to_search, pool)
  else Ok (to_search ++ [idx], pool).

Section search.
Context {D : Type} (le : D -> D -> Prop) `{!RelDecision le} `{!Total le} `{!Transitive le}.
(** [index->Count()] and [index->Search]: type, index, bitset, number of rows,
    query, k, ef or nprobe. *)
Context (index_count : Z -> Z).
Context (index_search : IndexType -> Z -> list Z -> Z -> list Z -> Z -> Z -> option (list (DistancePair D))).

Definition VectorIndexSearch (type : IndexType) (index : Z) (bitmap : list Z) (count : Z) (query : list Z) (k efs_nprobe : Z)
    : option (list (DistancePair D)) :=
  if index_count index <=? 0 then None
  else
    r ← index_search type index bitmap count query k (match type with HNSW => Z.max efs_nprobe k | _ => efs_nprobe end);
    Some (take (Z.to_nat k) r).

(** Row numbers become tuple ids. *)
Fixpoint rows_to_ids (map : list Z) (l : list (DistancePair D)) : res (list (DistancePair D)) :=
  match l with
  | [] => Ok []
  | p :: l => tid ← arr_get map (id p); l' ← rows_to_ids map l; Ok (mkPair (distance p) tid :: l')
  end.

(** The search of [search_segment_task]. *)
Definition search_segment (pool : FlushedSegmentPool) (idx : Z) (query : list Z) (topk efs_nprobe : Z) : res (list (DistancePair D)) :=
  s ← arr_get (flushed_segments pool) idx;
  index ← of_option NullDeref (index_ptr s);
  bitmap ← of_option NullDeref (bitmap_ptr s);
  match VectorIndexSearch (index_type s) index bitmap (vec_count s) query topk efs_nprobe with
  | None | Some [] => Ok []
  | Some l => map ← of_option NullDeref (map_ptr s); rows_to_ids map l
  end.

Definition merge_one (topk : Z) (merged : option (list (DistancePair D))) (r : list (DistancePair D)) : option (list (DistancePair D)) :=
  match r with
  | [] => merged
  | _ => Some (match merged with None => r | Some m => merge_top_k le (Z.to_nat topk) m r end)
  end.

Definition merge_all_segment_results (topk : Z) (results : list (list (DistancePair D))) : list (DistancePair D) :=
  default [] (foldl (merge_one topk) None results).

(** One step of the thread of the [j]-th segment; [None] when it has ended. *)
Definition search_segment_task (query : list Z) (topk efs_nprobe : Z) (j : Z) (pool : FlushedSegmentPool) (c : ConcurrentSearchContext D)
    : res (option (FlushedSegmentPool * ConcurrentSearchContext D)) :=
  pc ← arr_get (cx_pcs c) j;
  idx ← arr_get (cx_segments c) j;
  match pc with
  | Searching =>
      r ← search_segment pool idx query topk efs_nprobe;
      results ← arr_set (cx_results c) j r;
      Ok (Some (pool, c <| cx_results := results |> <| cx_pcs ::= <[j := Searched]> |>))
  | Searched =>
      pool ← Pool.decrement_flushed_segment_ref_count pool idx;
      Ok (Some (pool, c <| cx_pcs ::= <[j := Unpinned]> |>))
  | Unpinned =>
      let remaining := cx_remaining c - 1 in
      let c := c <| cx_remaining := remaining |> <| cx_pcs ::= <[j := Finished]> |> in
      Ok (Some (pool, if remaining =? 0 then c <| cx_published := Some (merge_all_segment_results topk (cx_results c)) |> else c))
  | Finished => Ok None
  end.

(** [ConcurrentVectorSearchOnSegments] up to the launch of the threads. *)
Definition start_search (segments : list Z) : ConcurrentSearchContext D :=
  mkContext segments (replicate (length segments) []) (zlen segments) (replicate (length segments) Searching) None.

(** [vector_search]: [others] is what happens to the pool once the lock is
    released.  Without a segment to search the answer is empty at once. *)
Definition vector_search (others : FlushedSegmentPool -> FlushedSegmentPool) (snap : LSMSnapshot) (pool : FlushedSegmentPool)
    : res (FlushedSegmentPool * ConcurrentSearchContext D) :=
  '(segment_indices, pool) ← pin_all pool;
  '(to_search, pool) ← foldl_res (filter_segment snap) ([], others pool) segment_indices;
  Ok (pool, match to_search with [] => (start_search []) <| cx_published := Some [] |> | _ => start_search to_search end).
End search.
End SegSearch.

(** ** What is searched *)

Section covering.
Context (snap : LSMSnapshot).

Lemma sid_covered_spec sid : SegSearch.sid_covered snap sid = true <->
  sid = gmt_id snap \/ exists j x, 0 <= j < scount snap /\ smt_ids snap !! j = Some x /\ u32 x = sid.
Proof.
  unfold SegSearch.sid_covered. rewrite orb_true_iff, Z.eqb_eq, existsb_exists. split; intros [H|H]; [by left| |by left|].
  - destruct H as (j & Hj & Hx). apply elem_of_seqZ in Hj || apply list_elem_of_In, elem_of_seqZ in Hj. destruct (smt_ids snap !! j) as [x|] eqn:E; [|done]. right. exists j, x. split; [lia|]. split; [done|]. by apply Z.eqb_eq.
  - right. destruct H as (j & x & Hj & Hx & Hu). exists j. split; [apply list_elem_of_In, elem_of_seqZ; lia|]. rewrite Hx. by apply Z.eqb_eq.
Qed.

Lemma fully_covered_spec s : SegSearch.fully_covered snap s = true <-> forall sid, segment_id_start s <= sid <= segment_id_end s -> SegSearch.sid_covered snap sid = true.
Proof.
  unfold SegSearch.fully_covered. rewrite forallb_forall. split; intros H sid Hs.
  - apply H, list_elem_of_In, elem_of_seqZ. lia.
  - apply H. apply list_elem_of_In, elem_of_seqZ in Hs. lia.
Qed.

(** The slots of [l] that are searched. *)
Definition to_search (segs : list FlushedSegmentData) (l : list Z) : list Z :=
  List.filter (fun i => match segs !! i with Some s => negb (SegSearch.fully_covered snap s) | None => false end) l.
End covering.

(** One more reference. *)
Definition pinned (s : FlushedSegmentData) : FlushedSegmentData := s <| ref_count ::= fun c => i32 (c + 1) |>.

Section pinning.
Implicit Types (pool : FlushedSegmentPool) (l : list Z).

(** Pinning the rest of the list: every slot of it once. *)
Record pins (pool : FlushedSegmentPool) (l : list Z) (pool' : FlushedSegmentPool) : Prop := {
  pn_frame : same_frame pool pool' /\ insert_idx pool' = insert_idx pool /\ flushed_segment_count pool' = flushed_segment_count pool;
  pn_len : zlen (flushed_segments pool') = zlen (flushed_segments pool);
  pn_in : forall i s, i ∈ l -> flushed_segments pool !! i = Some s -> flushed_segments pool' !! i = Some (pinned s);
  pn_out : forall i, i ∉ l -> flushed_segments pool' !! i = flushed_segments pool !! i }.

Lemma pin_one_ok pool i s : flushed_segments pool !! i = Some s ->
  exists pool', Pool.pin_segment pool i = Ok pool' /\ pins pool [i] pool'.
Proof.
  intros Hs. unfold Pool.pin_segment. run. eexists. split; [done|]. split.
  - repeat split.
  - cbn. apply zlen_insert.
  - intros j sj ->%list_elem_of_singleton Hj. cbn. assert (sj = s) as -> by congruence. by eapply zlookup_insert_eq.
  - intros j Hj. cbn. apply zlookup_insert_ne. intros ->. apply Hj. by apply list_elem_of_singleton.
Qed.

Lemma pins_cons pool i l pool1 pool2 : i ∉ l -> pins pool [i] pool1 -> pins pool1 l pool2 -> pins pool (i :: l) pool2.
Proof.
  intros Hi [(Hf1 & Hi1 & Hc1) L1 I1 O1] [(Hf2 & Hi2 & Hc2) L2 I2 O2]. split; [|congruence| |].
  - destruct Hf1 as (?&?&?&?&?&?), Hf2 as (?&?&?&?&?&?). repeat split; congruence.
  - intros j s [->|Hj]%elem_of_cons Hs.
    + rewrite O2 by done. apply I1; [left|done].
    + assert (j <> i) by (intros ->; done). apply I2; [done|]. rewrite O1; [done|]. intros ->%list_elem_of_singleton. done.
  - intros j Hj. rewrite not_elem_of_cons in Hj. rewrite O2 by naive_solver. apply O1. intros ->%list_elem_of_singleton. naive_solver.
Qed.

(** Following the links does not depend on reference counts. *)
Lemma pinned_wf pool i s pool' l : pool_wf pool l -> i ∈ l -> flushed_segments pool !! i = Some s -> ref_count s < 2 ^ 31 - 1 -> Pool.pin_segment pool i = Ok pool' -> pool_wf pool' l.
Proof.
  intros Hw Hi Hs Hr. unfold Pool.pin_segment. run. intros [= <-]. pose proof (pw_refs _ _ Hw _ _ Hi Hs).
  apply (pool_wf_upd_ref pool _ l i s (ref_count s + 1)); try done; [lia| |apply Hw]. cbn. f_equal. rewrite <-(i32_small (ref_count s + 1)) by lia. done.
Qed.

Lemma pin_walk_ok l2 : forall pool l1 fuel, pool_wf pool (l1 ++ l2) -> l2 <> [] -> (length l2 < fuel)%nat ->
  (forall i s, i ∈ l2 -> flushed_segments pool !! i = Some s -> ref_count s < 2 ^ 31 - 1) ->
  exists pool', SegSearch.pin_walk fuel pool (hd_or NIL l2) (tail_idx pool) = Ok (l2, pool') /\ pins pool l2 pool'.
Proof.
  induction l2 as [|i l2 IH]; intros pool l1 fuel Hw Hne Hf Href; [done|]. destruct fuel as [|fuel]; [cbn in Hf; lia|].
  destruct (walk_slot _ _ _ _ Hw) as (s & Hs & Hu & Hn & Hnx & Ht). cbn [SegSearch.pin_walk hd_or]. run. rewrite Hu.
  destruct (pin_one_ok pool i s Hs) as (pool1 & Hpin & Hp1). rewrite Hpin. cbn [mbind res_bind]. rewrite Ht. case_bool_decide as Hl2.
  - subst l2. exists pool1. by split.
  - pose proof (lw_nodup _ _ (pw_list _ _ Hw)) as Hnd. apply NoDup_app in Hnd as (_ & _ & Hnd). apply NoDup_cons in Hnd as [Hi _].
    assert (Hw1 : pool_wf pool1 (l1 ++ i :: l2)) by (eapply (pinned_wf pool i s); [done|set_solver|done|apply (Href i); [left|done]|done]).
    destruct (IH pool1 (l1 ++ [i]) fuel) as (pool2 & Hrun & Hp2); [by rewrite <-app_assoc|done|cbn in Hf; lia| |].
    { intros j sj Hj Hsj. rewrite (pn_out _ _ _ Hp1) in Hsj by (intros ->%list_elem_of_singleton; done). apply (Href j); [by right|done]. }
    assert (Htail : tail_idx pool1 = tail_idx pool) by apply (pn_frame _ _ _ Hp1). rewrite Htail in Hrun. rewrite Hnx, Hrun. cbn [mbind res_bind]. exists pool2. split; [done|]. by eapply pins_cons.
Qed.

Lemma pin_all_ok pool l : pool_wf pool l -> (forall i s, i ∈ l -> flushed_segments pool !! i = Some s -> ref_count s < 2 ^ 31 - 1) ->
  exists pool', SegSearch.pin_all pool = Ok (l, pool') /\ pins pool l pool'.
Proof.
  intros Hw Href. unfold SegSearch.pin_all. rewrite (pw_head _ _ Hw). destruct l as [|i l].
  - cbn. exists pool. split; [done|]. split; [by repeat split|done|by intros ? ? ?%not_elem_of_nil|done].
  - pose proof (list_wf_not_nil _ _ (pw_list _ _ Hw)) as Hn. cbn [hd_or]. destruct (Z.eqb_spec i NIL) as [->|_]; [destruct Hn; left|].
    apply (pin_walk_ok (i :: l) pool [] _ Hw); [done|by apply (list_wf_fuel _ _ (pw_list _ _ Hw))|done].
Qed.
End pinning.

(** ** Releasing what the snapshot covers *)

Section filtering.
Context (snap : LSMSnapshot).
Implicit Types (pool : FlushedSegmentPool) (l : list Z).

Abbreviation searched := (to_search snap).

Lemma to_search_ext segs segs' l :
  (forall i, i ∈ l -> range_of <$> segs' !! i = range_of <$> segs !! i) -> searched segs' l = searched segs l.
Proof.
  unfold to_search. induction l as [|i l IH]; intros H; [done|]. cbn.
  rewrite IH by (intros j Hj; apply H; by right). pose proof (H i ltac:(left)) as Hi.
  destruct (segs !! i) as [s|], (segs' !! i) as [s'|]; try done. injection Hi as Ha Hb.
  unfold SegSearch.fully_covered. by rewrite Ha, Hb.
Qed.

Lemma elem_of_to_search segs l i s : segs !! i = Some s ->
  i ∈ searched segs l <-> i ∈ l /\ SegSearch.fully_covered snap s = false.
Proof.
  intros Hs. unfold to_search. rewrite list_elem_of_In, filter_In, Hs, negb_true_iff. by rewrite list_elem_of_In.
Qed.

(** What the filter leaves of a slot it visited. *)
Definition kept (s : FlushedSegmentData) : FlushedSegmentData :=
  if SegSearch.fully_covered snap s then released s else s.

Record filtered (pool : FlushedSegmentPool) (l : list Z) (pool' : FlushedSegmentPool) : Prop := {
  fl_insert : 0 <= insert_idx pool' <= MAX_SEGMENTS_COUNT;
  fl_in : forall i s, i ∈ l -> flushed_segments pool !! i = Some s -> flushed_segments pool' !! i = Some (kept s);
  fl_out : forall i, i ∉ l -> flushed_segments pool' !! i = flushed_segments pool !! i }.

Lemma filter_one pool i s acc : flushed_segments pool !! i = Some s -> 0 <= insert_idx pool <= MAX_SEGMENTS_COUNT ->
  exists pool', SegSearch.filter_segment snap (acc, pool) i = Ok (acc ++ searched (flushed_segments pool) [i], pool') /\ filtered pool [i] pool'.
Proof.
  intros Hs Hi. unfold SegSearch.filter_segment, to_search. run. cbn [List.filter]. rewrite Hs.
  assert (Hone : forall x, x ∈ [i] -> x = i) by (intros x; apply list_elem_of_singleton).
  destruct (SegSearch.fully_covered snap s) eqn:Ec; cbn [negb].
  - destruct (decrement_spec pool i s Hs Hi) as (pool' & -> & _ & Hsl & Hb & _). cbn [mbind res_bind].
    exists pool'. split; [by rewrite app_nil_r|]. split; [lia| |].
    + intros j sj ->%Hone Hj. assert (sj = s) as -> by congruence. rewrite Hsl. unfold kept. rewrite Ec. by eapply zlookup_insert_eq.
    + intros j Hj. rewrite Hsl. apply zlookup_insert_ne. intros ->. apply Hj. by left.
  - exists pool. split; [done|]. split; [done| |done]. intros j sj ->%Hone Hj. assert (sj = s) as -> by congruence. unfold kept. by rewrite Ec.
Qed.

Lemma filter_loop l : forall pool acc, NoDup l -> (forall i, i ∈ l -> exists s, flushed_segments pool !! i = Some s) ->
  0 <= insert_idx pool <= MAX_SEGMENTS_COUNT ->
  exists pool', foldl_res (SegSearch.filter_segment snap) (acc, pool) l = Ok (acc ++ searched (flushed_segments pool) l, pool') /\ filtered pool l pool'.
Proof.
  induction l as [|i l IH]; intros pool acc Hnd Hex Hi.
  - exists pool. split; [by rewrite app_nil_r|]. split; [done|by intros ? ? ?%not_elem_of_nil|done].
  - apply NoDup_cons in Hnd as [Hn Hnd]. destruct (Hex i ltac:(left)) as [s Hs].
    destruct (filter_one pool i s acc Hs Hi) as (pool1 & Hrun & [F1 I1 O1]). cbn [foldl_res]. rewrite Hrun. cbn [mbind res_bind].
    assert (Hne : forall j, j ∈ l -> j ∉ [i]) by (intros j Hj ->%list_elem_of_singleton; done).
    destruct (IH pool1 (acc ++ searched (flushed_segments pool) [i])) as (pool2 & Hrun2 & [F2 I2 O2]); [done| |done|].
    { intros j Hj. rewrite O1 by by apply Hne. apply Hex. by right. }
    exists pool2. rewrite Hrun2. split.
    + f_equal. f_equal. rewrite <-app_assoc. f_equal. rewrite (to_search_ext (flushed_segments pool) (flushed_segments pool1)).
      * symmetry. apply (List.filter_app _ [i] l).
      * intros j Hj. rewrite O1; [done|by apply Hne].
    + split; [done| |].
      * intros j sj [->|Hj]%elem_of_cons Hsj; [rewrite O2 by done; apply I1; [left|done]|].
        apply I2; [done|]. by rewrite O1 by by apply Hne.
      * intros j Hj. rewrite not_elem_of_cons in Hj. rewrite O2 by naive_solver. apply O1. intros ->%list_elem_of_singleton. naive_solver.
Qed.
End filtering.

(** ** The threads *)

Section threads.
Context {D : Type} (le : D -> D -> Prop) `{!RelDecision le} `{!Total le} `{!Transitive le}.
Context (index_count : Z -> Z).
Context (index_search : IndexType -> Z -> list Z -> Z -> list Z -> Z -> Z -> option (list (DistancePair D))).
Context (query : list Z) (topk efs_nprobe : Z).
Implicit Types (pool : FlushedSegmentPool) (c : ConcurrentSearchContext D).

Abbreviation answers := (SegSearch.search_segment index_count index_search).
Abbreviation task := (SegSearch.search_segment_task le index_count index_search query topk efs_nprobe).

(** Thread [j] still has its reference. *)
Definition holds c (j : Z) : Prop := cx_pcs c !! j = Some Searching \/ cx_pcs c !! j = Some Searched.

(** The same rows; deletion bits may have been set. *)
Definition same_rows (s s' : FlushedSegmentData) : Prop :=
  index_type s' = index_type s /\ index_ptr s' = index_ptr s /\ map_ptr s' = map_ptr s /\ vec_count s' = vec_count s /\
  (is_Some (bitmap_ptr s) -> is_Some (bitmap_ptr s')).

(** What everyone else may do: a referenced slot keeps its rows. *)
Definition leaves_held c pool pool' : Prop :=
  0 <= insert_idx pool' <= MAX_SEGMENTS_COUNT /\
  forall j i s, holds c j -> cx_segments c !! j = Some i -> flushed_segments pool !! i = Some s ->
  exists s', flushed_segments pool' !! i = Some s' /\ same_rows s s'.

Inductive search_step : FlushedSegmentPool * ConcurrentSearchContext D -> FlushedSegmentPool * ConcurrentSearchContext D -> Prop :=
| ss_thread j pool c pool' c' : task j pool c = Ok (Some (pool', c')) -> search_step (pool, c) (pool', c')
| ss_other pool pool' c : leaves_held c pool pool' -> search_step (pool, c) (pool', c).

(** A segment whose search can be answered: its buffers are there, and the row
    numbers the index reports are rows of it. *)
Definition searchable (s : FlushedSegmentData) : Prop :=
  is_Some (bitmap_ptr s) /\ exists index map, index_ptr s = Some index /\ map_ptr s = Some map /\
  forall bitmap r, SegSearch.VectorIndexSearch index_count index_search (index_type s) index bitmap (vec_count s) query topk efs_nprobe = Some r ->
    Forall (fun p => 0 <= id p < zlen map) r.

Lemma keeps_rows_refl s : same_rows s s.
Proof. by repeat split. Qed.

Lemma same_rows_trans s1 s2 s3 : same_rows s1 s2 -> same_rows s2 s3 -> same_rows s1 s3.
Proof. unfold same_rows. intros (?&?&?&?&?) (?&?&?&?&?). repeat split; try congruence. naive_solver. Qed.

Lemma searchable_same s s' : same_rows s s' -> searchable s -> searchable s'.
Proof.
  intros (Ht & Hi & Hm & Hv & Hb) (Hb0 & index & map & ? & ? & H). split; [by apply Hb|]. exists index, map.
  split; [congruence|]. split; [congruence|]. by rewrite Ht, Hv.
Qed.

Lemma rows_to_ids_ok map (r : list (DistancePair D)) : Forall (fun p => 0 <= id p < zlen map) r ->
  exists out, SegSearch.rows_to_ids map r = Ok out /\ out = relabel (fun i => default 0 (map !! i)) <$> r.
Proof.
  induction 1 as [|p r Hp Hr (out & Hrun & ->)]; [by exists []|]. cbn [SegSearch.rows_to_ids].
  destruct (zlookup_lt_is_Some map (id p) Hp) as [t Ht]. run. rewrite Hrun. cbn. eexists. split; [done|]. unfold relabel at 2. by rewrite Ht.
Qed.

(** Any knowhere index answers in order. *)
Definition in_order : Prop := forall type index bitmap count k ef r,
  index_search type index bitmap count query k ef = Some r -> StronglySorted (nearer le) r.

(** What a thread stores. *)
Definition answer_of (s : FlushedSegmentData) (r : list (DistancePair D)) : Prop :=
  exists pool i s', flushed_segments pool !! i = Some s' /\ same_rows s s' /\ answers pool i query topk efs_nprobe = Ok r.

Lemma sorted_relabel (f : Z -> Z) (r : list (DistancePair D)) : StronglySorted (nearer le) r -> StronglySorted (nearer le) (relabel f <$> r).
Proof.
  induction 1 as [|p r Hr IH Hp]; [constructor|]. cbn. constructor; [done|]. rewrite Forall_fmap. eapply Forall_impl; [exact Hp|]. done.
Qed.

Lemma search_segment_ok pool i s : in_order -> flushed_segments pool !! i = Some s -> searchable s ->
  exists r, answers pool i query topk efs_nprobe = Ok r /\ StronglySorted (nearer le) r /\ (length r <= Z.to_nat topk)%nat.
Proof.
  intros Hord Hs (Hb & index & map & Hi & Hm & Hrows). destruct Hb as [bitmap Hb]. unfold SegSearch.search_segment. run.
  rewrite Hi, Hb. cbn [of_option mbind res_bind]. pose proof (Hrows bitmap) as Hr.
  destruct (SegSearch.VectorIndexSearch _ _ _ _ _ _ _ _ _) as [r|] eqn:Ev; [|exists []; split; [done|split; [constructor|cbn; lia]]].
  assert (StronglySorted (nearer le) r /\ (length r <= Z.to_nat topk)%nat) as [Hso Hlen].
  { unfold SegSearch.VectorIndexSearch in Ev. destruct (index_count index <=? 0); [done|].
    destruct (index_search _ _ _ _ _ _ _) as [r0|] eqn:E0; [|done]. injection Ev as <-. apply Hord in E0. split; [|rewrite length_take; lia].
    rewrite <-(take_drop (Z.to_nat topk) r0) in E0. by apply StronglySorted_app in E0 as (_ & ? & _). }
  rewrite Hm. destruct r as [|p r]; [exists []; split; [done|split; [constructor|cbn; lia]]|]. cbn [of_option mbind res_bind].
  destruct (rows_to_ids_ok map _ (Hr _ eq_refl)) as (out & -> & ->). eexists. split; [done|]. split; [by apply sorted_relabel|by rewrite length_fmap].
Qed.

(** Merging sorted lists of at most [topk] entries. *)
Lemma merge_all_ranks l : 0 <= topk -> Forall (fun r => StronglySorted (nearer le) r /\ (length r <= Z.to_nat topk)%nat) l ->
  ranks le (Z.to_nat topk) (mjoin l) (SegSearch.merge_all_segment_results le topk l).
Proof.
  intros Hk. unfold SegSearch.merge_all_segment_results.
  assert (Hone : forall r, StronglySorted (nearer le) r -> (length r <= Z.to_nat topk)%nat -> ranks le (Z.to_nat topk) r r).
  { intros r Hs Hl. split; [done|]. split; [lia|]. exists []. rewrite app_nil_r. split; [done|]. by intros ? ? ? ?%not_elem_of_nil. }
  assert (Hnone : ranks le (Z.to_nat topk) [] []) by (apply Hone; [constructor|cbn; lia]).
  enough (forall l acc A, Forall (fun r => StronglySorted (nearer le) r /\ (length r <= Z.to_nat topk)%nat) l ->
    ranks le (Z.to_nat topk) A (default [] acc) -> (acc = None -> A = []) ->
    ranks le (Z.to_nat topk) (A ++ mjoin l) (default [] (foldl (SegSearch.merge_one le topk) acc l))) as H.
  { intros Hl. by apply (H l None []). }
  clear l. induction l as [|r l IH]; intros acc A Hall HA Hnil; [by rewrite app_nil_r|].
  apply Forall_cons in Hall as [[Hs Hl] Hall]. cbn [foldl]. change (mjoin (r :: l)) with (r ++ mjoin l). rewrite app_assoc. apply IH; [done| |].
  - destruct r as [|p r]; cbn [SegSearch.merge_one]; [by rewrite app_nil_r|]. destruct acc as [m|]; cbn [default] in *.
    + apply merge_ranks; try done. by apply Hone.
    + rewrite Hnil by done. by apply Hone.
  - destruct r; [|done]. cbn. intros ->. by rewrite Hnil.
Qed.

Lemma zlookup_NoDup {A} (l : list A) (i j : Z) x : NoDup l -> l !! i = Some x -> l !! j = Some x -> i = j.
Proof.
  intros Hnd Hi Hj. pose proof (zlookup_lt_Some _ _ _ Hi). pose proof (zlookup_lt_Some _ _ _ Hj).
  replace i with (Z.of_nat (Z.to_nat i)) in * by lia. replace j with (Z.of_nat (Z.to_nat j)) in * by lia. rewrite !zlookup_nat in *.
  f_equal. by eapply NoDup_lookup.
Qed.

(** How many threads are still at work. *)
Definition at_work (pc : search_pc) : Z := match pc with Finished => 0 | _ => 1 end.
Fixpoint unfinished (pcs : list search_pc) : Z :=
  match pcs with [] => 0 | pc :: pcs => at_work pc + unfinished pcs end.

Lemma unfinished_nonneg pcs : 0 <= unfinished pcs.
Proof. induction pcs as [|[] pcs IH]; cbn; lia. Qed.

Lemma unfinished_insert pcs : forall j pc pc', pcs !! j = Some pc -> unfinished (<[j := pc']> pcs) = unfinished pcs - at_work pc + at_work pc'.
Proof.
  induction pcs as [|x pcs IH]; intros j pc pc' Hj; [pose proof (zlookup_lt_Some _ _ _ Hj) as Hr; unfold zlen in Hr; cbn in Hr; lia|].
  pose proof (zlookup_lt_Some _ _ _ Hj). rewrite zlookup_cons in Hj. rewrite zinsert_cons by lia. destruct (Z.eqb_spec j 0) as [->|Hne].
  - injection Hj as ->. cbn. lia.
  - cbn [unfinished]. rewrite (IH _ pc) by done. lia.
Qed.

Lemma unfinished_pos pcs j pc : pcs !! j = Some pc -> pc <> Finished -> 0 < unfinished pcs.
Proof.
  intros Hj Hpc. pose proof (unfinished_insert pcs j pc Finished Hj). pose proof (unfinished_nonneg (<[j := Finished]> pcs)).
  destruct pc; cbn in *; done || lia.
Qed.

Lemma unfinished_zero pcs : unfinished pcs = 0 <-> forall j pc, pcs !! j = Some pc -> pc = Finished.
Proof.
  split.
  - intros H j pc Hj. destruct (decide (pc = Finished)) as [|Hn]; [done|]. pose proof (unfinished_pos _ _ _ Hj Hn). lia.
  - induction pcs as [|pc pcs IH]; intros H; [done|]. cbn. rewrite (H 0 pc) by done. rewrite IH; [done|].
    intros j x Hj. apply (H (j + 1)). pose proof (zlookup_lt_Some _ _ _ Hj). rewrite zlookup_cons. destruct (Z.eqb_spec (j + 1) 0); [lia|]. by replace (j + 1 - 1) with j by lia.
Qed.

Lemma unfinished_replicate n : unfinished (replicate n Searching) = Z.of_nat n.
Proof. induction n; cbn [replicate unfinished at_work]; lia. Qed.

(** What thread [j], searching slot [s], has left in its result. *)
Definition answered (s : FlushedSegmentData) c (j : Z) : Prop :=
  exists r, cx_results c !! j = Some r /\ answer_of s r /\ StronglySorted (nearer le) r /\ (length r <= Z.to_nat topk)%nat.

Section run.
Context (segs : list FlushedSegmentData) (l : list Z).

Record search_inv (pool : FlushedSegmentPool) (c : ConcurrentSearchContext D) : Prop := {
  si_segments : cx_segments c = l;
  si_results : zlen (cx_results c) = zlen l;
  si_pcs : zlen (cx_pcs c) = zlen l;
  si_insert : 0 <= insert_idx pool <= MAX_SEGMENTS_COUNT;
  si_held : forall j i s, holds c j -> l !! j = Some i -> segs !! i = Some s -> exists s', flushed_segments pool !! i = Some s' /\ same_rows s s';
  si_answered : forall j pc i s, cx_pcs c !! j = Some pc -> pc <> Searching -> l !! j = Some i -> segs !! i = Some s -> answered s c j;
  si_remaining : cx_remaining c = unfinished (cx_pcs c);
  si_published : cx_published c = if cx_remaining c =? 0 then Some (SegSearch.merge_all_segment_results le topk (cx_results c)) else None }.

Context (Hne : l <> []) (Hnd : NoDup l).
Context (Hslots : forall i, i ∈ l -> exists s, segs !! i = Some s /\ searchable s).
Context (Hord : in_order).

Lemma start_inv pool : flushed_segments pool = segs -> 0 <= insert_idx pool <= MAX_SEGMENTS_COUNT -> search_inv pool (SegSearch.start_search l).
Proof.
  intros Hs Hi. assert (Hrep : forall (j : Z) (pc : search_pc), replicate (length l) Searching !! j = Some pc -> pc = Searching).
  { intros j pc. unfold lookup, zlist_lookup. case_decide; [|done]. intros [-> _]%lookup_replicate. done. }
  assert (Hun : unfinished (replicate (length l) Searching) = zlen l) by apply unfinished_replicate.
  assert (0 < zlen l) by (destruct l; [done|rewrite zlen_cons; pose proof (zlen_nonneg l0); lia]).
  split; cbn; try done.
  - unfold zlen. by rewrite length_replicate.
  - unfold zlen. by rewrite length_replicate.
  - intros j i s _ _ Hs'. exists s. rewrite Hs. split; [done|apply keeps_rows_refl].
  - intros j pc i s Hpc Hn. by apply Hrep in Hpc.
  - destruct (Z.eqb_spec (zlen l) 0); [lia|done].
Qed.

Lemma thread_slot pool c j pc : search_inv pool c -> cx_pcs c !! j = Some pc ->
  exists i s, l !! j = Some i /\ arr_get (cx_segments c) j = Ok i /\ arr_get (cx_pcs c) j = Ok pc /\ segs !! i = Some s /\ searchable s.
Proof.
  intros Hi Hpc. pose proof (zlookup_lt_Some _ _ _ Hpc) as Hj. rewrite (si_pcs _ _ Hi) in Hj.
  destruct (zlookup_lt_is_Some l j Hj) as [i Hl]. destruct (Hslots i) as (s & Hs & Hse); [apply elem_of_zlookup; by exists j|].
  exists i, s. split; [done|]. rewrite (si_segments _ _ Hi). split; [by apply arr_get_Ok|]. split; [by apply arr_get_Ok|done].
Qed.

(** The three steps of a thread. *)
Lemma searched_inv pool c j i s r : search_inv pool c -> cx_pcs c !! j = Some Searching -> l !! j = Some i -> segs !! i = Some s ->
  answer_of s r -> StronglySorted (nearer le) r -> (length r <= Z.to_nat topk)%nat ->
  search_inv pool (c <| cx_results ::= <[j := r]> |> <| cx_pcs ::= <[j := Searched]> |>).
Proof.
  intros Hi Hpc Hl Hs Hr Hso Hlen. split; cbn; try apply Hi; [by rewrite zlen_insert; apply Hi..| | | |].
  - intros j' i' s' Hh. apply (si_held _ _ Hi j'). unfold holds in *. cbn in Hh. destruct (decide (j' = j)) as [->|Hj]; [by left|].
    by rewrite !zlookup_insert_ne in Hh by done.
  - intros j' pc i' s' Hpc' Hn Hl' Hs'. unfold answered. cbn. destruct (decide (j' = j)) as [->|Hj].
    + assert (i' = i) as -> by congruence. assert (s' = s) as -> by congruence. exists r. split; [|done].
      destruct (zlookup_lt_is_Some (cx_results c) j) as [x Hx]; [rewrite (si_results _ _ Hi); by eapply zlookup_lt_Some|]. by eapply zlookup_insert_eq.
    + rewrite zlookup_insert_ne in Hpc' by done. rewrite zlookup_insert_ne by done. by apply (si_answered _ _ Hi j' pc i').
  - rewrite (unfinished_insert _ _ Searching) by done. rewrite (si_remaining _ _ Hi). cbn. lia.
  - pose proof (unfinished_pos _ _ _ Hpc ltac:(done)). rewrite (si_published _ _ Hi), (si_remaining _ _ Hi).
    destruct (Z.eqb_spec (unfinished (cx_pcs c)) 0); [lia|done].
Qed.

Lemma unpinned_inv pool pool' c j i : search_inv pool c -> cx_pcs c !! j = Some Searched -> l !! j = Some i ->
  0 <= insert_idx pool' <= MAX_SEGMENTS_COUNT -> (forall i', i' <> i -> flushed_segments pool' !! i' = flushed_segments pool !! i') ->
  search_inv pool' (c <| cx_pcs ::= <[j := Unpinned]> |>).
Proof.
  intros Hi Hpc Hl Hii Hfr. split; cbn; try apply Hi; [by rewrite zlen_insert; apply Hi|done| | |].
  - intros j' i' s Hh Hl' Hs. unfold holds in Hh. cbn in Hh. destruct (decide (j' = j)) as [->|Hj].
    + exfalso. destruct Hh as [Hh|Hh]; erewrite zlookup_insert_eq in Hh by done; done.
    + rewrite !zlookup_insert_ne in Hh by done. rewrite Hfr; [by apply (si_held _ _ Hi j')|]. intros ->. apply Hj. by eapply zlookup_NoDup.
  - intros j' pc i' s Hpc' Hn. apply (si_answered _ _ Hi j' (if decide (j' = j) then Searched else pc)); case_decide; subst; try done.
    by rewrite zlookup_insert_ne in Hpc' by done.
  - rewrite (unfinished_insert _ _ Searched) by done. rewrite (si_remaining _ _ Hi). cbn. lia.
Qed.

Lemma finished_inv pool c j : search_inv pool c -> cx_pcs c !! j = Some Unpinned ->
  let c' := c <| cx_remaining := cx_remaining c - 1 |> <| cx_pcs ::= <[j := Finished]> |> in
  search_inv pool (if cx_remaining c - 1 =? 0 then c' <| cx_published := Some (SegSearch.merge_all_segment_results le topk (cx_results c')) |> else c').
Proof.
  intros Hi Hpc c'.
  assert (Hheld : forall j' i s, holds c' j' -> l !! j' = Some i -> segs !! i = Some s -> exists s', flushed_segments pool !! i = Some s' /\ same_rows s s').
  { intros j' i s Hh. apply (si_held _ _ Hi j'). unfold holds in *. cbn in Hh. destruct (decide (j' = j)) as [->|Hj].
    - destruct Hh as [Hh|Hh]; erewrite zlookup_insert_eq in Hh by done; done.
    - by rewrite !zlookup_insert_ne in Hh by done. }
  assert (Hans : forall j' pc i s, cx_pcs c' !! j' = Some pc -> pc <> Searching -> l !! j' = Some i -> segs !! i = Some s -> answered s c' j').
  { intros j' pc i s Hpc' Hn. apply (si_answered _ _ Hi j' (if decide (j' = j) then Unpinned else pc)); case_decide; subst; try done.
    cbn in Hpc'. by rewrite zlookup_insert_ne in Hpc' by done. }
  assert (Hrem : cx_remaining c - 1 = unfinished (cx_pcs c')).
  { cbn. rewrite (unfinished_insert _ _ Unpinned) by done. rewrite (si_remaining _ _ Hi). cbn. lia. }
  pose proof (unfinished_pos _ _ _ Hpc ltac:(done)) as Hpos. pose proof (si_remaining _ _ Hi) as Hr. pose proof (si_published _ _ Hi) as Hp.
  rewrite Hr in Hp. destruct (Z.eqb_spec (unfinished (cx_pcs c)) 0); [lia|].
  destruct (Z.eqb_spec (cx_remaining c - 1) 0) as [E|E]; (split; [apply Hi|apply Hi|cbn; rewrite zlen_insert; apply Hi|apply Hi|exact Hheld|exact Hans|exact Hrem|]).
  - cbn. rewrite E. done.
  - cbn. destruct (Z.eqb_spec (cx_remaining c - 1) 0); [lia|done].
Qed.

Lemma thread_step_ok pool c j pc : search_inv pool c -> cx_pcs c !! j = Some pc ->
  exists o, task j pool c = Ok o /\ match o with None => pc = Finished | Some (pool', c') => pc <> Finished /\ search_inv pool' c' end.
Proof.
  intros Hi Hpc. destruct (thread_slot _ _ _ _ Hi Hpc) as (i & s & Hl & Hci & Hcp & Hs & Hse).
  unfold SegSearch.search_segment_task. rewrite Hcp, Hci. cbn [mbind res_bind].
  assert (Hh : holds c j -> exists s', flushed_segments pool !! i = Some s' /\ same_rows s s') by (intros Hh; by apply (si_held _ _ Hi j)).
  destruct pc.
  - destruct Hh as (s' & Hs' & Hsr); [by left|]. destruct (search_segment_ok pool i s' Hord Hs') as (r & Hr & Hso & Hlen); [by eapply searchable_same|].
    rewrite Hr. cbn [mbind res_bind]. destruct (zlookup_lt_is_Some (cx_results c) j) as [x Hx]; [rewrite (si_results _ _ Hi); by eapply zlookup_lt_Some|].
    rewrite (arr_set_Some _ _ _ _ Hx). cbn [mbind res_bind]. eexists. split; [done|]. split; [done|]. eapply searched_inv; try done. by exists pool, i, s'.
  - destruct Hh as (s' & Hs' & Hsr); [by right|]. destruct (decrement_spec pool i s' Hs' (si_insert _ _ Hi)) as (pool' & -> & _ & Hsl & Hb & _).
    cbn [mbind res_bind]. eexists. split; [done|]. split; [done|]. eapply (unpinned_inv pool); try done; [pose proof (si_insert _ _ Hi); lia|].
    intros i' Hne'. rewrite Hsl. by apply zlookup_insert_ne.
  - eexists. split; [done|]. split; [done|]. by apply (finished_inv pool c j).
  - by exists None.
Qed.

Lemma search_step_inv pool c pool' c' : search_inv pool c -> search_step (pool, c) (pool', c') -> search_inv pool' c'.
Proof.
  intros Hi Hst. inversion Hst as [j ? ? ? ? Hrun|? ? ? [Hii Hlv]]; subst.
  - destruct (cx_pcs c !! j) as [pc|] eqn:Hpc.
    + destruct (thread_step_ok _ _ _ _ Hi Hpc) as (o & Ho & Hres). rewrite Hrun in Ho. injection Ho as <-. apply Hres.
    + exfalso. unfold SegSearch.search_segment_task in Hrun. destruct (arr_get (cx_pcs c) j) as [pc|] eqn:E; [|done]. apply arr_get_Ok in E. congruence.
  - split; try apply Hi; [done|]. intros j i s Hh Hl Hs. destruct (si_held _ _ Hi j i s Hh Hl Hs) as (s1 & Hs1 & Hr1).
    destruct (Hlv j i s1 Hh) as (s2 & Hs2 & Hr2); [by rewrite (si_segments _ _ Hi)|done|]. exists s2. split; [done|]. by eapply same_rows_trans.
Qed.

Lemma search_run_inv pool c x : search_inv pool c -> rtc search_step (pool, c) x -> search_inv x.1 x.2.
Proof.
  intros Hi Hr. remember (pool, c) as y eqn:Hy. assert (Hi' : search_inv y.1 y.2) by by rewrite Hy. clear Hy Hi pool c.
  induction Hr as [y|y z x Hst _ IH]; [done|]. apply IH. destruct y, z. by eapply search_step_inv.
Qed.
End run.
End threads.

(** ** The theorems *)

(** C14: a search of the segments visits what it must: under the lock it pins
    every listed segment, whatever happens to the pool afterwards (as long as a
    pinned slot keeps its id range), it starts one thread for each segment with
    an id that is not a memtable of the backend's snapshot, with the reference
    still held, and gives the reference of every other segment back; a segment
    id of the list is therefore found in the snapshot or in a searched segment;
    without a segment to search the empty answer is published at once. *)
Theorem vector_search_covers {D} snap pool l others :
  pool_wf pool l -> (forall i s, i ∈ l -> flushed_segments pool !! i = Some s -> ref_count s < 2 ^ 31 - 1) ->
  (forall pool1, SegSearch.pin_all pool = Ok (l, pool1) -> 0 <= insert_idx (others pool1) <= MAX_SEGMENTS_COUNT /\
     forall i s, i ∈ l -> flushed_segments pool1 !! i = Some s -> exists s', flushed_segments (others pool1) !! i = Some s' /\ range_of s' = range_of s) ->
  exists pool1 pool' c, SegSearch.pin_all pool = Ok (l, pool1) /\ pins pool l pool1 /\
    SegSearch.vector_search (D := D) others snap pool = Ok (pool', c) /\
    cx_segments c = to_search snap (flushed_segments pool) l /\
    (forall i s sid, i ∈ l -> flushed_segments pool !! i = Some s -> segment_id_start s <= sid <= segment_id_end s ->
      SegSearch.sid_covered snap sid = true \/ i ∈ cx_segments c) /\
    (forall i s, i ∈ l -> flushed_segments (others pool1) !! i = Some s ->
      flushed_segments pool' !! i = Some (if decide (i ∈ cx_segments c) then s else released s)) /\
    (cx_segments c = [] -> cx_published c = Some []).
Proof.
  intros Hw Href Hoth. destruct (pin_all_ok pool l Hw Href) as (pool1 & Hpin & Hp). destruct (Hoth pool1 Hpin) as [Hii Hkeep].
  pose proof (pw_list _ _ Hw) as Hl.
  assert (Hslot : forall i, i ∈ l -> exists s, flushed_segments pool !! i = Some s /\ exists s', flushed_segments (others pool1) !! i = Some s' /\ range_of s' = range_of s).
  { intros i Hi. destruct (list_wf_slot _ _ _ Hl Hi) as [s Hs]. exists s. split; [done|]. by destruct (Hkeep i _ Hi (pn_in _ _ _ Hp i s Hi Hs)) as (s' & Hs' & Hr); exists s'. }
  destruct (filter_loop snap l (others pool1) []) as (pool' & Hrun & [_ Hin _]); [apply Hl| |done|].
  { intros i Hi. destruct (Hslot i Hi) as (? & _ & s' & ? & _). by exists s'. }
  rewrite (to_search_ext snap (flushed_segments pool)) in Hrun.
  2:{ intros i Hi. destruct (Hslot i Hi) as (s & -> & s' & -> & Hr). cbn. by rewrite Hr. }
  set (ts := to_search snap (flushed_segments pool) l) in *.
  exists pool1, pool', (match ts with [] => (SegSearch.start_search []) <| cx_published := Some [] |> | _ => SegSearch.start_search ts end).
  assert (Hcx : cx_segments (match ts with [] => (SegSearch.start_search (D := D) []) <| cx_published := Some [] |> | _ => SegSearch.start_search ts end) = ts) by (by destruct ts).
  rewrite Hcx. split; [done|]. split; [done|]. split; [unfold SegSearch.vector_search; rewrite Hpin; cbn [mbind res_bind]; by rewrite Hrun|].
  split; [done|]. split; [|split].
  - intros i s sid Hi Hs Hsid. destruct (SegSearch.fully_covered snap s) eqn:Ec.
    + left. by apply (proj1 (fully_covered_spec snap s) Ec).
    + right. by apply (elem_of_to_search snap _ _ _ _ Hs).
  - intros i s Hi Hs. rewrite (Hin i s Hi Hs). unfold kept. f_equal. destruct (Hslot i Hi) as (s0 & Hs0 & s' & Hs' & Hr).
    assert (s' = s) as -> by congruence. injection Hr as Ha Hb.
    assert (Hc : SegSearch.fully_covered snap s = SegSearch.fully_covered snap s0) by (unfold SegSearch.fully_covered; by rewrite Ha, Hb).
    pose proof (elem_of_to_search snap _ l i s0 Hs0) as He. fold ts in He. rewrite Hc. destruct (SegSearch.fully_covered snap s0); case_decide; naive_solver.
  - by intros ->.
Qed.


(** A result that knowhere padded (fewer than [k] rows remain, or the probed
    lists hold fewer) makes the thread read in front of the row map. *)
Lemma padded_answer_overruns {D} (map : list Z) (l1 l2 : list (DistancePair D)) p :
  Forall (fun q => 0 <= id q < zlen map) l1 -> id p = -1 -> SegSearch.rows_to_ids map (l1 ++ p :: l2) = Error OutOfBounds.
Proof.
  intros H1 Hp. induction H1 as [|q l1 Hq _ IH]; cbn [app SegSearch.rows_to_ids].
  - rewrite Hp. unfold arr_get. by rewrite zlookup_neg by lia.
  - destruct (zlookup_lt_is_Some map (id q) Hq) as [t Ht]. run. by rewrite IH.
Qed.

(** ** Concrete runs *)

Module SearchRuns.

Definition slot (a b index : Z) (map : list Z) (prev next : Z) : FlushedSegmentData :=
  mkSegment true a b 2 (Some map) FLAT (Some index) (Some [0]) next prev 1 SEG_FULLY_LOADED 0 false 1 None 0.

(** Segment 1 in slot 0, segment 2-3 in slot 1. *)
Definition pool : FlushedSegmentPool :=
  mkPool Unlocked ([slot 1 1 70 [11; 12] NIL 1; slot 2 3 80 [21; 22] 0 NIL] ++ replicate 1022 (mkSegment false 0 0 0 None FLAT None None NIL NIL 0 SEG_NOT_LOADED 0 false 0 None 0))
    2 0 1 2 0 2 2.

(** A backend whose growing memtable is 1. *)
Definition snap : LSMSnapshot := mkSnapshot 0 1 0 [] [].

Definition count (index : Z) : Z := 2.
Definition index_search (type : IndexType) (index : Z) (bitmap : list Z) (n : Z) (query : list Z) (k ef : Z) : option (list (DistancePair Z)) :=
  Some (take (Z.to_nat k) (if index =? 70 then [mkPair 1 0; mkPair 4 1] else [mkPair 2 1; mkPair 3 0])).

(** The threads step in the order given. *)
Fixpoint run_threads (js : list Z) (st : FlushedSegmentPool * ConcurrentSearchContext Z) : res (FlushedSegmentPool * ConcurrentSearchContext Z) :=
  match js with
  | [] => Ok st
  | j :: js =>
      o ← SegSearch.search_segment_task Z.le count index_search [0] 3 10 j st.1 st.2;
      match o with Some st => run_threads js st | None => Error OutOfFuel end
  end.

Definition start : FlushedSegmentPool * ConcurrentSearchContext Z := (pool, SegSearch.start_search [0; 1]).
Definition ended : FlushedSegmentPool * ConcurrentSearchContext Z :=
  match run_threads [0; 1; 1; 0; 0; 1] start with Ok st => st | Error _ => start end.

Lemma run_threads_steps js : forall st st', run_threads js st = Ok st' -> rtc (search_step Z.le count index_search [0] 3 10) st st'.
Proof.
  induction js as [|j js IH]; intros st st' Hr; [injection Hr as <-; apply rtc_refl|]. cbn [run_threads] in Hr.
  destruct (SegSearch.search_segment_task _ _ _ _ _ _ _ _ _) as [[st1|]|] eqn:E; try done. cbn [mbind res_bind] in Hr.
  destruct st as [p c], st1 as [p1 c1]. eapply rtc_l; [by eapply ss_thread|]. by apply IH.
Qed.

Lemma ended_run : rtc (search_step Z.le count index_search [0] 3 10) start ended.
Proof. unfold ended. destruct (run_threads _ start) eqn:E; [by eapply run_threads_steps|apply rtc_refl]. Qed.

Lemma pool_ok : pool_wf pool [0; 1].
Proof. apply pool_wfb_sound. by vm_compute. Qed.

Lemma slots_ok i : i ∈ [0; 1] -> exists s, flushed_segments pool !! i = Some s /\ ref_count s = 1 /\ searchable count index_search [0] 3 10 s.
Proof.
  assert (Hcut : forall index (r : list (DistancePair Z)), SegSearch.VectorIndexSearch count index_search FLAT index [0] 2 [0] 3 10 = Some r -> Forall (fun p => 0 <= id p < 2) r).
  { intros index r. unfold SegSearch.VectorIndexSearch, index_search. cbn. intros [= <-]. destruct (index =? 70); repeat constructor; cbn; lia. }
  intros [->| ->%list_elem_of_singleton]%elem_of_cons; eexists; (split; [reflexivity|]); (split; [reflexivity|]);
    (split; [by eexists|]); do 2 eexists; (split; [reflexivity|]); (split; [reflexivity|]); intros bitmap r Hr; by eapply Hcut.
Qed.

Lemma in_order_ok : in_order Z.le index_search [0].
Proof.
  intros type index bitmap n k ef r [= <-].
  assert (Htake : forall m (l : list (DistancePair Z)), StronglySorted (nearer Z.le) l -> StronglySorted (nearer Z.le) (take m l)).
  { intros m l Hs. rewrite <-(take_drop m l) in Hs. by apply StronglySorted_app in Hs as (_ & ? & _). }
  apply Htake. destruct (index =? 70); repeat constructor; unfold nearer; cbn; lia.
Qed.
End SearchRuns.

Lemma vector_search_covers_witness :
  exists pool' c, SegSearch.vector_search (D := Z) (fun p => p) SearchRuns.snap SearchRuns.pool = Ok (pool', c) /\ cx_segments c = [1].
Proof.
  assert (Href : forall i s, i ∈ [0; 1] -> flushed_segments SearchRuns.pool !! i = Some s -> ref_count s < 2 ^ 31 - 1).
  { intros i s Hi Hs. destruct (SearchRuns.slots_ok i Hi) as (s' & Hs' & Hr & _). assert (s' = s) as -> by congruence. lia. }
  destruct (vector_search_covers (D := Z) SearchRuns.snap SearchRuns.pool [0; 1] (fun p => p) SearchRuns.pool_ok Href) as (pool1 & pool' & c & _ & _ & Hrun & Hc & _).
  - intros pool1 Hp. destruct (pin_all_ok _ _ SearchRuns.pool_ok Href) as (pool2 & Hp2 & Hpins).
    assert (pool2 = pool1) as -> by congruence. destruct (pn_frame _ _ _ Hpins) as (_ & -> & _). split; [vm_compute; split; discriminate|].
    intros i s _ Hs. by exists s.
  - exists pool', c. split; [exact Hrun|]. rewrite Hc. vm_compute. reflexivity.
Defined.

