(* ===== verification/Maintenance.v ===== *)
(** The maintenance threads of the index worker ([maintenance_worker_thread] of
    vector_index_worker.c): what each kind of task does to the pool of its index.

    A cold start maps the segments' index files, answers, and leaves one upgrade
    task per segment that copies the segment into a fully loaded slot later.
    The vacuum task is modelled with the vacuum (BulkDelete.v); here it is split
    where an upgrade can come between.  Reading the files of a segment is
    [SegFile.load_and_set_segment]; loading an index file is an argument. *)

From S2P Require Import Prelude Bitmap SegmentPool PoolLifecycle FileNames SegmentFiles BitmapVersions Tombstones Adoption IndexSlots SegmentRewrite BulkDelete.

(** [InternalUpgradeTaskData]. *)
Record InternalUpgradeTaskData := mkUpgrade {
  upg_index_relid : Z; upg_lsm_idx : Z; upg_segment_idx : Z; upg_start_sid : Z; upg_end_sid : Z; upg_version : Z;
  upg_index_type : IndexType }.

(** How an upgrade ended. *)
Inductive upgrade_result := LoadFailed | Discarded | NoFreeSlot | NoMemory | Upgraded (slot : Z).

Module Maint.

Definition MAX_ATTEMPTS : Z := 300000.
Definition MAINTENANCE_TASK_QUEUE_SIZE : Z := 1152.
Definition LOAD_LATEST_VERSION : Z := UINT32_MAX.

(** The polls of [wait_for_slot_queryable]; [valid_at k] is what the [k]-th
    reads. *)
Fixpoint wait_loop (fuel : nat) (valid_at : Z -> LSMSlotState) (attempts : Z) : res bool :=
  match fuel with
  | O => Error OutOfFuel
  | S fuel =>
      match valid_at attempts with
      | LSM_SLOT_QUERYABLE => Ok true
      | LSM_SLOT_LOADING_INDEX => if MAX_ATTEMPTS <=? attempts + 1 then Ok false else wait_loop fuel valid_at (attempts + 1)
      | _ => Ok false
      end
  end.

Definition wait_fuel : nat := Z.to_nat MAX_ATTEMPTS.

Definition wait_for_slot_queryable (valid_at : Z -> LSMSlotState) (lsm_idx : Z) : res bool :=
  if (lsm_idx <? 0) || (Slots.INDEX_BUF_SIZE <=? lsm_idx) then Ok false else wait_loop wait_fuel valid_at 0.

(** *** IndexBuildTaskType *)

Section files.
Context (IndexLoadAndSave : option bytes -> IndexType -> bool -> option Z) (capacity : Z) (d : directory).

Definition index_build (pool : FlushedSegmentPool) : res FlushedSegmentPool :=
  '(seg_idx, pool) ← Pool.reserve_flushed_segment (Pool.initialize_segment_pool pool);
  if seg_idx =? NIL then Ok pool
  else
    s ← arr_get (flushed_segments pool) seg_idx;
    s ← SegFile.load_and_set_segment IndexLoadAndSave d s Slots.START_SEGMENT_ID Slots.START_SEGMENT_ID LOAD_LATEST_VERSION false;
    Pool.register_flushed_segment capacity (pool <| flushed_segments ::= <[seg_idx := s]> |>) seg_idx.

(** *** SEGMENT_UPDATE_REGULAR *)

(** [others] is what other threads do to the pool between two critical
    sections.  The slot number is not tested: [arr_get] at -1 is out of
    bounds. *)
Definition segment_update_regular (valid_at : Z -> LSMSlotState) (others : nat -> FlushedSegmentPool -> FlushedSegmentPool)
    (lsm_idx start_sid end_sid : Z) (pool : FlushedSegmentPool) : res FlushedSegmentPool :=
  ready ← wait_for_slot_queryable valid_at lsm_idx;
  if negb ready then Ok pool
  else
    existing_idx ← Pool.find_segment_by_sids pool start_sid end_sid;
    if negb (existing_idx =? NIL) then Ok pool
    else
      '(seg_idx, pool) ← Pool.reserve_flushed_segment (set_lock (others 0%nat pool) WriteHeld);
      let pool := others 1%nat (set_lock pool Unlocked) in
      s ← arr_get (flushed_segments pool) seg_idx;
      s ← SegFile.load_and_set_segment IndexLoadAndSave d s start_sid end_sid LOAD_LATEST_VERSION false;
      let pool := others 2%nat (pool <| flushed_segments ::= <[seg_idx := s]> |>) in
      pool ← Pool.register_flushed_segment capacity (set_lock pool WriteHeld) seg_idx;
      Ok (set_lock pool Unlocked).

(** *** SEGMENT_UPDATE_ADOPT: the status for the requester *)

Definition adopt_status (o : Adopt.DpvAdoptionOutcome) : Z :=
  match o with Adopt.DPV_ADOPT_INDEX_UNLOADED => 2 | Adopt.DPV_ADOPT_STALE_DISCARD => 1 | Adopt.DPV_ADOPT_ADOPTED => 0 end.

(** *** IndexLoadTaskType *)

(** A full queue drops the task. *)
Definition submit_internal_task {T} (queue : list T) (t : T) : list T :=
  if MAINTENANCE_TASK_QUEUE_SIZE <=? zlen queue then queue else queue ++ [t].

Definition upgrade_task (index_relid lsm_idx seg_idx : Z) (s : FlushedSegmentData) : InternalUpgradeTaskData :=
  mkUpgrade index_relid lsm_idx seg_idx (segment_id_start s) (segment_id_end s) LOAD_LATEST_VERSION (SegmentPool.index_type s).

(** Phase 2: the walk under the read lock. *)
Fixpoint queue_upgrades (fuel : nat) (index_relid lsm_idx : Z) (pool : FlushedSegmentPool) (seg_idx : Z)
    (queue : list InternalUpgradeTaskData) : res (list InternalUpgradeTaskData) :=
  match fuel with
  | O => Error OutOfFuel
  | S fuel =>
      if seg_idx =? NIL then Ok queue
      else
        s ← arr_get (flushed_segments pool) seg_idx;
        let queue := if decide (load_state s = SEG_MMAP_LOADED) then submit_internal_task queue (upgrade_task index_relid lsm_idx seg_idx s) else queue in
        queue_upgrades fuel index_relid lsm_idx pool (next_idx s) queue
  end.

Definition index_load (mmap_cold_start : bool) (others : FlushedSegmentPool -> FlushedSegmentPool) (index_relid lsm_idx : Z)
    (pool : FlushedSegmentPool) (queue : list InternalUpgradeTaskData) : res (FlushedSegmentPool * list InternalUpgradeTaskData) :=
  pool ← SegFile.load_all_segments_from_disk IndexLoadAndSave capacity d mmap_cold_start (Pool.initialize_segment_pool pool);
  if mmap_cold_start then
    let pool := others pool in
    queue ← queue_upgrades Pool.list_fuel index_relid lsm_idx pool (head_idx pool) queue;
    Ok (pool, queue)
  else Ok (pool, queue).
End files.

(** *** InternalSegmentUpgradeTaskType *)

(** [memcpy] of the first [n] elements of a buffer. *)
Definition copy_prefix {A} (buf : list A) (n : Z) : res (list A) :=
  if zlen buf <? n then Error OutOfBounds else Ok (take (Z.to_nat n) buf).

Definition upgradable (upg : InternalUpgradeTaskData) (seg : FlushedSegmentData) : bool :=
  in_used seg && (segment_id_start seg =? upg_start_sid upg) && (segment_id_end seg =? upg_end_sid upg) &&
  bool_decide (load_state seg = SEG_MMAP_LOADED).

(** The new slot.  Its [offsets] and [offsets_count] are not assigned. *)
Definition upgraded_slot (seg : FlushedSegmentData) (index : Z) (bitmap map : list Z) (ns : FlushedSegmentData) : FlushedSegmentData :=
  ns <| segment_id_start := segment_id_start seg |> <| segment_id_end := segment_id_end seg |> <| vec_count := vec_count seg |>
     <| SegmentPool.index_type := SegmentPool.index_type seg |> <| delete_count := delete_count seg |> <| version := version seg |> <| is_compacting := false |>
     <| index_ptr := Some index |> <| bitmap_ptr := Some bitmap |> <| map_ptr := Some map |> <| load_state := SEG_FULLY_LOADED |>.

(** Under the write lock.  [new_index_ptr] is what [load_index_file] left. *)
Definition upgrade_locked (capacity : Z) (malloc_ok : bool) (index : Z) (upg : InternalUpgradeTaskData) (pool : FlushedSegmentPool)
    : res (upgrade_result * FlushedSegmentPool) :=
  seg ← arr_get (flushed_segments pool) (upg_segment_idx upg);
  if upgradable upg seg then
    '(new_slot_idx, pool) ← Pool.reserve_flushed_segment pool;
    if new_slot_idx =? NIL then Ok (NoFreeSlot, pool)
    else if malloc_ok then
      bitmap ← of_option NullDeref (bitmap_ptr seg);
      map ← of_option NullDeref (map_ptr seg);
      new_bitmap ← copy_prefix bitmap (GET_BITMAP_SIZE (vec_count seg));
      new_map ← copy_prefix map (vec_count seg);
      segs ← arr_upd (flushed_segments pool) new_slot_idx (upgraded_slot seg index new_bitmap new_map);
      pool ← Pool.replace_flushed_segments_n capacity (pool <| flushed_segments := segs |>) [upg_segment_idx upg] new_slot_idx;
      Ok (Upgraded new_slot_idx, pool)
    else
      segs ← arr_upd (flushed_segments pool) new_slot_idx (fun ns => ns <| in_used := false |>);
      Ok (NoMemory, pool <| flushed_segments := segs |>)
  else Ok (Discarded, pool).

Definition segment_upgrade (capacity : Z) (malloc_ok : bool) (new_index_ptr : option Z) (upg : InternalUpgradeTaskData) (pool : FlushedSegmentPool)
    : res (upgrade_result * FlushedSegmentPool) :=
  match new_index_ptr with
  | None => Ok (LoadFailed, pool)
  | Some index =>
      '(r, pool) ← upgrade_locked capacity malloc_ok index upg (set_lock pool WriteHeld);
      Ok (r, set_lock pool Unlocked)
  end.

(** A thread that executes a list of upgrade tasks; [index_of] is what loading
    the index file of a task gives. *)
Definition run_upgrades (capacity : Z) (index_of : InternalUpgradeTaskData -> option Z) (queue : list InternalUpgradeTaskData) (pool : FlushedSegmentPool)
    : res FlushedSegmentPool :=
  foldl_res (fun pool upg => '(_, pool) ← segment_upgrade capacity true (index_of upg) upg pool; Ok pool) pool queue.

(** *** SEGMENT_UPDATE_VACUUM, in the pieces between which an upgrade can run *)

(** Steps 1 and 2 up to the answer of the checks: slot and status. *)
Definition vacuum_check (pool : FlushedSegmentPool) (start_sid end_sid expected_version : Z) : res (Z * Z * FlushedSegmentPool) :=
  seg_idx ← Pool.find_segment_by_sids pool start_sid end_sid;
  if seg_idx =? NIL then Ok (NIL, 1, pool)
  else
    pool ← Pool.pin_segment pool seg_idx;
    seg ← arr_get (flushed_segments pool) seg_idx;
    if negb (version seg =? expected_version) || negb (in_used seg) then Ok (seg_idx, 1, pool)
    else live_idx ← Pool.find_segment_by_sids pool start_sid end_sid; Ok (seg_idx, if live_idx =? seg_idx then 0 else 1, pool).

(** The bits of the file, then step 3. *)
Definition vacuum_apply (d : directory) (seg_idx retry start_sid end_sid : Z) (pool : FlushedSegmentPool) : res (Z * FlushedSegmentPool) :=
  if seg_idx =? NIL then Ok (retry, pool)
  else
    seg ← arr_get (flushed_segments pool) seg_idx;
    pool ← (if retry =? 0 then
              r ← SegFile.load_bitmap_file d start_sid end_sid UINT32_MAX;
              new_delete_count ← of_option NullDeref r.2;
              old ← of_option NullDeref (bitmap_ptr seg);
              bm ← or_bytes (GET_BITMAP_SIZE (vec_count seg)) old r.1;
              segs ← arr_set (flushed_segments pool) seg_idx (seg <| bitmap_ptr := Some bm |> <| delete_count := new_delete_count |>);
              Ok (pool <| flushed_segments := segs |>)
            else Ok pool);
    pool ← Pool.decrement_flushed_segment_ref_count pool seg_idx;
    Ok (retry, pool).

Definition update_vacuum (d : directory) (between : FlushedSegmentPool -> FlushedSegmentPool) (start_sid end_sid expected_version : Z)
    (pool : FlushedSegmentPool) : res (Z * FlushedSegmentPool) :=
  '(seg_idx, retry, pool) ← vacuum_check pool start_sid end_sid expected_version;
  vacuum_apply d seg_idx retry start_sid end_sid (between pool).
End Maint.

(** ** Waiting *)

Lemma wait_loop_ok valid_at fuel : forall attempts, Z.of_nat fuel = Maint.MAX_ATTEMPTS - attempts -> (0 < fuel)%nat ->
  exists b, Maint.wait_loop fuel valid_at attempts = Ok b /\
    (b = true <-> exists k, attempts <= k < Maint.MAX_ATTEMPTS /\ valid_at k = LSM_SLOT_QUERYABLE /\ forall j, attempts <= j < k -> valid_at j = LSM_SLOT_LOADING_INDEX).
Proof.
  unfold Maint.MAX_ATTEMPTS. induction fuel as [|fuel IH]; intros attempts Hf Hpos; [lia|]. cbn [Maint.wait_loop]. unfold Maint.MAX_ATTEMPTS.
  assert (Hstop : valid_at attempts <> LSM_SLOT_QUERYABLE -> valid_at attempts <> LSM_SLOT_LOADING_INDEX ->
    ~ exists k, attempts <= k < 300000 /\ valid_at k = LSM_SLOT_QUERYABLE /\ forall j, attempts <= j < k -> valid_at j = LSM_SLOT_LOADING_INDEX).
  { intros H1 H2 (k & Hk & Hq & Hb). destruct (decide (k = attempts)) as [->|]; [done|]. apply H2, Hb. lia. }
  destruct (valid_at attempts) eqn:Ev; try (exists false; split; [done|]; split; [done|]; intros Hx; exfalso; by apply Hstop).
  - destruct (Z.leb_spec 300000 (attempts + 1)).
    + exists false. split; [done|]. split; [done|]. intros (k & Hk & Hq & _). assert (k = attempts) as -> by lia. congruence.
    + destruct (IH (attempts + 1)) as (b & Hrun & Hb); [lia..|]. exists b. split; [done|]. rewrite Hb. split.
      * intros (k & Hk & Hq & Hl). exists k. split; [lia|]. split; [done|]. intros j Hj. destruct (decide (j = attempts)) as [->|]; [done|]. apply Hl. lia.
      * intros (k & Hk & Hq & Hl). exists k. destruct (decide (k = attempts)) as [->|]; [congruence|]. split; [lia|]. split; [done|]. intros j Hj. apply Hl. lia.
  - exists true. split; [done|]. split; [|done]. intros _. exists attempts. split; [lia|]. split; [done|]. lia.
Qed.

(** ** Upgrading a listed segment *)

Section upgrading.
Context (cap : Z).
Implicit Types (pool : FlushedSegmentPool) (l : list Z) (s : FlushedSegmentData).

(** A mapped segment whose buffers are there. *)
Definition mapped s : Prop :=
  load_state s = SEG_MMAP_LOADED /\ 0 <= vec_count s /\ exists bitmap map, bitmap_ptr s = Some bitmap /\ map_ptr s = Some map /\
    zlen bitmap = GET_BITMAP_SIZE (vec_count s) /\ zlen map = vec_count s.

(** The same segment, fully loaded. *)
Definition upgrade_of s (index : Z) (ns : FlushedSegmentData) : Prop :=
  range_of ns = range_of s /\ version ns = version s /\ vec_count ns = vec_count s /\ SegmentPool.index_type ns = SegmentPool.index_type s /\
  delete_count ns = delete_count s /\ bitmap_ptr ns = bitmap_ptr s /\ map_ptr ns = map_ptr s /\ index_ptr ns = Some index /\
  load_state ns = SEG_FULLY_LOADED /\ in_used ns = true /\ ref_count ns = 1.

Lemma copy_all {A} (buf : list A) n : zlen buf = n -> Maint.copy_prefix buf n = Ok buf.
Proof.
  intros <-. unfold Maint.copy_prefix. rewrite Z.ltb_irrefl. f_equal. apply take_ge. unfold zlen. lia.
Qed.

Lemma reserve_lock pool i pool' : Pool.reserve_flushed_segment pool = Ok (i, pool') -> seg_lock pool' = seg_lock pool.
Proof.
  unfold Pool.reserve_flushed_segment. destruct (Pool.reserve_loop _ _ _) as [[j|]|]; cbn [mbind res_bind]; [|by intros [= _ <-]|done].
  destruct (arr_upd _ _ _); cbn [mbind res_bind]; [by intros [= _ <-]|done].
Qed.

Lemma upgraded_wf pool l i (f : FlushedSegmentData -> FlushedSegmentData) s : pool_wf pool l -> i ∉ l -> flushed_segments pool !! i = Some s ->
  exists segs, arr_upd (flushed_segments pool) i f = Ok segs /\ pool_wf (pool <| flushed_segments := segs |>) l /\
    (stats_exact cap pool l -> stats_exact cap (pool <| flushed_segments := segs |>) l) /\ segs !! i = Some (f s) /\ (forall j, j <> i -> segs !! j = flushed_segments pool !! j).
Proof.
  intros Hw Hi Hs. eexists. split; [by eapply arr_upd_Some|]. split; [|split; [|split; [by eapply zlookup_insert_eq|intros j Hj; by apply zlookup_insert_ne]]].
  { exact (set_slot_wf pool l i (f s) Hw Hi). }
  { intros Hst. exact (set_slot_stats cap pool l i (f s) Hst Hi). }
Qed.

Lemma upgrade_spec pool l1 i l3 s index upg :
  pool_wf pool (l1 ++ i :: l3) -> flushed_segments pool !! i = Some s -> mapped s ->
  upg_segment_idx upg = i -> (upg_start_sid upg, upg_end_sid upg) = range_of s ->
  (exists j, insert_idx pool <= j < MAX_SEGMENTS_COUNT /\ ~ slot_used (flushed_segments pool) j) ->
  exists n pool' ns s0, Maint.segment_upgrade cap true (Some index) upg pool = Ok (Upgraded n, pool') /\
    insert_idx pool <= n < MAX_SEGMENTS_COUNT /\ (n ∉ l1 ++ i :: l3) /\ insert_idx pool' = n + 1 /\
    (forall j, insert_idx pool <= j < n -> slot_used (flushed_segments pool) j) /\
    pool_wf pool' (l1 ++ n :: l3) /\ (stats_exact cap pool (l1 ++ i :: l3) -> stats_exact cap pool' (l1 ++ n :: l3)) /\
    flushed_segments pool' !! n = Some ns /\ upgrade_of s index ns /\
    flushed_segments pool !! n = Some s0 /\ in_used s0 = false /\ offsets ns = offsets s0 /\ offsets_count ns = offsets_count s0 /\
    payload_at (flushed_segments pool') i = Some (payload (released s)) /\
    (forall j, j <> i -> j <> n -> payload_at (flushed_segments pool') j = payload_at (flushed_segments pool) j).
Proof.
  intros Hw Hs (Hm & Hvc & bitmap & map & Hbm & Hmap & Hzb & Hzm) <- [= Ha Hb] Hfree. set (i := upg_segment_idx upg) in *.
  unfold Maint.segment_upgrade, Maint.upgrade_locked. pose proof (lock_wf _ _ WriteHeld Hw) as Hw0. set (pool0 := set_lock pool WriteHeld) in *.
  change (pool <| seg_lock := WriteHeld |>) with pool0 in Hw0. assert (Hs0 : flushed_segments pool0 !! i = Some s) by done. fold i. run.
  assert (Hu : in_used s = true) by (apply (lw_used _ _ (pw_list _ _ Hw) i); [set_solver|done]).
  assert (Hup : Maint.upgradable upg s = true) by (unfold Maint.upgradable; rewrite Hu, Ha, Hb, !Z.eqb_refl; by apply bool_decide_eq_true).
  rewrite Hup. destruct (reserve_spec pool0 _ Hw0) as (n & pool1 & Hres & Hw1 & [(-> & _ & Hall)|(Hn & Hnl & Hi1 & (s0 & Hsn & Hu0 & Hsn1) & Hlow & Hoth)]).
  { destruct Hfree as (j & Hj & Hnu). destruct Hnu. by apply (Hall j). }
  pose proof (reserve_lock _ _ _ Hres) as Hlk. rewrite Hres.
  cbn [mbind res_bind]. destruct (Z.eqb_spec n NIL) as [->|_]; [pool_lia|]. rewrite Hbm, Hmap. cbn [of_option mbind res_bind].
  rewrite copy_all by done. cbn [mbind res_bind]. rewrite copy_all by done. cbn [mbind res_bind].
  destruct (upgraded_wf pool1 _ n (Maint.upgraded_slot s index bitmap map) _ Hw1 Hnl Hsn1) as (segs & -> & Hw2 & Hst2 & Hsn2 & Hoth2). cbn [mbind res_bind].
  set (pool2 := pool1 <| flushed_segments := segs |>) in *.
  assert (Hstart : forall j, j ∈ l1 ++ i :: l3 -> start_of (flushed_segments pool2) j = start_of (flushed_segments pool) j).
  { intros j Hj. unfold start_of. cbn. assert (j <> n) by (intros ->; done). rewrite Hoth2, Hoth by done. done. }
  assert (Hsi : start_of (flushed_segments pool) i = segment_id_start s) by (unfold start_of; by rewrite Hs).
  pose proof (lw_sorted _ _ (pw_list _ _ Hw)) as Hso. apply StronglySorted_app in Hso as (Hcross & _ & Hso). apply StronglySorted_inv in Hso as [_ Hrest].
  rewrite Forall_forall in Hrest.
  destruct (replace_spec cap pool2 l1 [i] l3 n _ Hw2 ltac:(done) Hsn2 eq_refl Hnl) as (pool3 & Hrun & Hw3 & Hst3 & Hpn & Hpo & Hpx & Hii & _).
  { intros j Hj. rewrite Hstart by set_solver. cbn. rewrite <-Hsi. apply Hcross; [done|left]. }
  { intros j Hj. rewrite Hstart by set_solver. cbn. rewrite <-Hsi. by apply Hrest. }
  rewrite Hrun. cbn [mbind res_bind].
  assert (exists ns, flushed_segments pool3 !! n = Some ns /\ payload ns = payload ((Maint.upgraded_slot s index bitmap map (s0 <| in_used := true |>)) <| ref_count := 1 |>)) as (ns & Hns & Hpns).
  { unfold payload_at in Hpn. destruct (flushed_segments pool3 !! n) as [ns|]; [|done]. exists ns. split; [done|]. cbn in Hpn. by apply (inj Some) in Hpn. }
  assert (Hf : forall A (f : FlushedSegmentData -> A), (forall x, f (payload x) = f x) -> f ns = f ((Maint.upgraded_slot s index bitmap map (s0 <| in_used := true |>)) <| ref_count := 1 |>)).
  { intros A f Hfp. rewrite <-(Hfp ns), Hpns. apply Hfp. }
  exists n, (set_lock pool3 Unlocked), ns, s0. split; [done|]. split; [exact Hn|]. split; [done|]. split; [cbn; rewrite Hii; [exact Hi1|exact Hlk]|]. split; [exact Hlow|].
  split; [exact (lock_wf _ _ Unlocked Hw3)|]. split; [intros Hst; apply Hst3, Hst2; exact (reserve_stats cap pool0 pool1 n _ Hres Hst Hnl)|]. split; [exact Hns|]. split.
  { unfold upgrade_of. rewrite (Hf _ range_of), (Hf _ version), (Hf _ vec_count), (Hf _ SegmentPool.index_type), (Hf _ delete_count), (Hf _ bitmap_ptr), (Hf _ map_ptr), (Hf _ index_ptr), (Hf _ load_state), (Hf _ in_used), (Hf _ ref_count) by done.
    rewrite Hbm, Hmap. repeat split. }
  split; [done|]. split; [done|]. split; [rewrite (Hf _ offsets) by done; done|]. split; [rewrite (Hf _ offsets_count) by done; done|].
  assert (Hni : i <> n) by (intros Heq; apply Hnl; rewrite <-Heq; set_solver).
  split.
  - cbn. rewrite Hpo by (by left). cbn. by rewrite Hoth2, Hoth, Hs0 by done.
  - intros j Hj Hjn. cbn. rewrite Hpx; [|by rewrite list_elem_of_singleton|done]. unfold payload_at. cbn. by rewrite Hoth2, Hoth by done.
Qed.
End upgrading.

(** ** A cold start, from the mapped pool to the loaded one *)

Section cold_start.
Context (cap index_relid lsm_idx : Z) (index_of : InternalUpgradeTaskData -> option Z).
Implicit Types (pool : FlushedSegmentPool) (l : list Z).

(** The tasks of the segments in [l]. *)
Definition tasks_of (segs : list FlushedSegmentData) (l : list Z) : list InternalUpgradeTaskData :=
  omap (fun i => Maint.upgrade_task index_relid lsm_idx i <$> segs !! i) l.

Lemma tasks_cons segs i l s : segs !! i = Some s -> tasks_of segs (i :: l) = Maint.upgrade_task index_relid lsm_idx i s :: tasks_of segs l.
Proof. intros Hs. unfold tasks_of. cbn. by rewrite Hs. Qed.

Lemma queue_upgrades_ok pool l2 : forall l1 queue fuel, pool_wf pool (l1 ++ l2) -> (length l2 < fuel)%nat ->
  (forall i s, i ∈ l2 -> flushed_segments pool !! i = Some s -> load_state s = SEG_MMAP_LOADED) ->
  zlen queue + zlen l2 <= Maint.MAINTENANCE_TASK_QUEUE_SIZE ->
  Maint.queue_upgrades fuel index_relid lsm_idx pool (hd_or NIL l2) queue = Ok (queue ++ tasks_of (flushed_segments pool) l2).
Proof.
  induction l2 as [|i l2 IH]; intros l1 queue fuel Hw Hf Hm Hq; (destruct fuel as [|fuel]; [cbn in Hf; lia|]); cbn [Maint.queue_upgrades hd_or].
  - by rewrite app_nil_r.
  - destruct (walk_slot _ _ _ _ Hw) as (s & Hs & _ & Hn & Hnx & _). destruct (Z.eqb_spec i NIL); [done|]. run.
    rewrite decide_True by (apply (Hm i); [left|done]). rewrite Hnx, (tasks_cons _ _ _ s Hs).
    rewrite zlen_cons in Hq. pose proof (zlen_nonneg l2). unfold Maint.submit_internal_task. destruct (Z.leb_spec Maint.MAINTENANCE_TASK_QUEUE_SIZE (zlen queue)); [lia|].
    rewrite (IH (l1 ++ [i])); [by rewrite <-app_assoc|by rewrite <-app_assoc|cbn in Hf; lia|intros j sj Hj; apply Hm; by right|].
    rewrite zlen_app, zlen_cons, zlen_nil. lia.
Qed.

Lemma payload_slot segs segs' i s : payload_at segs' i = payload_at segs i -> segs !! i = Some s -> exists s', segs' !! i = Some s' /\ payload s' = payload s.
Proof.
  unfold payload_at. intros Hp Hs. rewrite Hs in Hp. destruct (segs' !! i) as [s'|]; [|done]. exists s'. split; [done|]. cbn in Hp. by apply (inj Some) in Hp.
Qed.

Lemma used_payload segs segs' i : payload_at segs' i = payload_at segs i -> slot_used segs' i -> slot_used segs i.
Proof.
  intros Hp (s & Hs & Hu). destruct (payload_slot segs' segs i s) as (s' & Hs' & Hps); [by symmetry|done|]. exists s'. split; [done|].
  rewrite <-Hu. change (in_used s') with (in_used (payload s')). by rewrite Hps.
Qed.

Lemma mapped_payload s s' : payload s' = payload s -> mapped s -> mapped s'.
Proof.
  intros Hp. assert (Hf : forall A (f : FlushedSegmentData -> A), (forall x, f (payload x) = f x) -> f s' = f s) by (intros A f Hfp; by rewrite <-(Hfp s'), <-(Hfp s), Hp).
  unfold mapped. by rewrite (Hf _ load_state), (Hf _ vec_count), (Hf _ bitmap_ptr), (Hf _ map_ptr) by done.
Qed.

Lemma upgrade_of_payload s s1 ix ns ns1 : payload s1 = payload s -> payload ns1 = payload ns -> upgrade_of s ix ns -> upgrade_of s1 ix ns1.
Proof.
  intros Hp Hpn. assert (Hf : forall A (f : FlushedSegmentData -> A), (forall x, f (payload x) = f x) -> f s1 = f s) by (intros A f Hfp; by rewrite <-(Hfp s1), <-(Hfp s), Hp).
  assert (Hg : forall A (f : FlushedSegmentData -> A), (forall x, f (payload x) = f x) -> f ns1 = f ns) by (intros A f Hfp; by rewrite <-(Hfp ns1), <-(Hfp ns), Hpn).
  unfold upgrade_of. rewrite (Hf _ range_of), (Hf _ version), (Hf _ vec_count), (Hf _ SegmentPool.index_type), (Hf _ delete_count), (Hf _ bitmap_ptr), (Hf _ map_ptr) by done.
  by rewrite (Hg _ range_of), (Hg _ version), (Hg _ vec_count), (Hg _ SegmentPool.index_type), (Hg _ delete_count), (Hg _ bitmap_ptr), (Hg _ map_ptr),
    (Hg _ index_ptr), (Hg _ load_state), (Hg _ in_used), (Hg _ ref_count) by done.
Qed.

(** Slot [n] holds what slot [i] held, fully loaded. *)
Definition replaces (segs segs' : list FlushedSegmentData) (i n : Z) : Prop :=
  exists s ns ix, segs !! i = Some s /\ segs' !! n = Some ns /\ index_of (Maint.upgrade_task index_relid lsm_idx i s) = Some ix /\ upgrade_of s ix ns.

Lemma run_upgrades_ok segs0 rest : forall dn pool,
  pool_wf pool (dn ++ rest) -> stats_exact cap pool (dn ++ rest) ->
  (forall i, i ∈ rest -> payload_at (flushed_segments pool) i = payload_at segs0 i) ->
  (forall i s, i ∈ rest -> segs0 !! i = Some s -> mapped s /\ is_Some (index_of (Maint.upgrade_task index_relid lsm_idx i s))) ->
  (forall j, insert_idx pool <= j < insert_idx pool + zlen rest -> j < MAX_SEGMENTS_COUNT /\ ~ slot_used (flushed_segments pool) j) ->
  exists pool' new, Maint.run_upgrades cap index_of (tasks_of segs0 rest) pool = Ok pool' /\
    pool_wf pool' (dn ++ new) /\ stats_exact cap pool' (dn ++ new) /\ Forall2 (replaces segs0 (flushed_segments pool')) rest new /\
    (forall i, i ∈ dn -> payload_at (flushed_segments pool') i = payload_at (flushed_segments pool) i).
Proof.
  induction rest as [|i rest IH]; intros dn pool Hw Hst Hpay Hmap Hfree.
  { exists pool, []. split; [done|]. split; [done|]. split; [done|]. split; [constructor|done]. }
  destruct (list_wf_slot _ _ i (pw_list _ _ Hw) ltac:(set_solver)) as [s1 Hs1].
  destruct (payload_slot (flushed_segments pool) segs0 i s1) as (s & Hs & Hps); [symmetry; apply Hpay; by left|done|].
  destruct (Hmap i s ltac:(by left) Hs) as [Hms [ix Hix]]. rewrite (tasks_cons _ _ _ s Hs). cbn [Maint.run_upgrades foldl_res]. unfold Maint.run_upgrades. cbn [foldl_res]. rewrite Hix.
  assert (Hr1 : range_of s1 = range_of s) by (change (range_of s1) with (range_of (payload s1)); by rewrite <-Hps).
  pose proof (zlen_nonneg rest). rewrite zlen_cons in Hfree. destruct (Hfree (insert_idx pool) ltac:(lia)) as [Hlt Hnu].
  destruct (upgrade_spec cap pool dn i rest s1 ix (Maint.upgrade_task index_relid lsm_idx i s)) as
    (n & pool1 & ns & s0 & Hrun & Hn & Hnl & Hi1 & Hlow & Hw1 & Hst1 & Hns & Hup & _ & _ & _ & _ & _ & Hoth); [done|done| |done|by rewrite Hr1| |].
  { by eapply mapped_payload. }
  { exists (insert_idx pool). split; [lia|done]. }
  assert (n = insert_idx pool) as Hnn by (destruct (decide (n = insert_idx pool)); [done|]; destruct Hnu; apply Hlow; lia).
  rewrite Hrun. cbn [mbind res_bind].
  pose proof (lw_nodup _ _ (pw_list _ _ Hw)) as Hnd. apply NoDup_app in Hnd as (_ & Hdis & Hnd). apply NoDup_cons in Hnd as [Hir Hnd].
  destruct (IH (dn ++ [n]) pool1) as (pool' & new & Hrun' & Hw' & Hst' & Hall & Hkeep).
  { by rewrite <-app_assoc. } { rewrite <-app_assoc. by apply Hst1. }
  { intros j Hj. rewrite Hoth; [apply Hpay; by right|by intros ->|intros ->; apply Hnl; set_solver]. }
  { intros j sj Hj. apply Hmap. by right. }
  { intros j Hj. rewrite Hi1 in Hj. destruct (Hfree j ltac:(lia)) as [Hjl Hju]. split; [done|]. intros Hu. apply Hju.
    apply (used_payload (flushed_segments pool) (flushed_segments pool1)); [|done]. apply Hoth; [|lia].
    intros ->. apply Hju. exists s1. split; [done|]. apply (lw_used _ _ (pw_list _ _ Hw) i); [set_solver|done]. }
  exists pool', (n :: new). split; [exact Hrun'|]. rewrite <-app_assoc in Hw', Hst'. split; [done|]. split; [done|]. split.
  - constructor; [|done]. destruct (payload_slot (flushed_segments pool1) (flushed_segments pool') n ns) as (ns' & Hns' & Hpn); [apply Hkeep; set_solver|done|].
    exists s, ns', ix. split; [done|]. split; [done|]. split; [done|]. by eapply upgrade_of_payload.
  - intros j Hj. rewrite Hkeep by set_solver. apply Hoth; [intros ->; apply (Hdis i Hj); by left|intros ->; apply Hnl; set_solver].
Qed.

Lemma replaces_ranges segs segs' l new : Forall2 (replaces segs segs') l new -> ranges segs' new = ranges segs l.
Proof.
  induction 1 as [|i n l new (s & ns & ix & Hs & Hns & _ & Hr & _) _ IH]; [done|]. injection Hr as Ha Hb. unfold ranges in *. cbn. rewrite Hs, Hns, IH. cbn. unfold range_of. by rewrite Ha, Hb.
Qed.
End cold_start.

(** ** Adding a flushed segment *)

Section regular.
Context (IndexLoadAndSave : option bytes -> IndexType -> bool -> option Z) (cap : Z) (d : directory).
Implicit Types (pool : FlushedSegmentPool) (l : list Z).

(** Nobody else touches the pool. *)
Definition alone (k : nat) (pool : FlushedSegmentPool) : FlushedSegmentPool := pool.

Lemma first_slot_none P segs l : (forall i s, i ∈ l -> segs !! i = Some s -> P s = false) -> first_slot P segs l = NIL.
Proof.
  induction l as [|i l IH]; intros H; [done|]. cbn. destruct (segs !! i) as [s|] eqn:Hs.
  - rewrite (H i s) by (done || by left). apply IH. intros j sj Hj. apply H. by right.
  - apply IH. intros j sj Hj. apply H. by right.
Qed.

(** The critical sections of the handler, with nobody between. *)
Abbreviation regular valid_at lsm_idx a b pool :=
  (Maint.segment_update_regular IndexLoadAndSave cap d valid_at alone lsm_idx a b pool).

Context (valid_at : Z -> LSMSlotState) (lsm_idx a b : Z) (pool : FlushedSegmentPool) (l : list Z).
Context (Hready : Maint.wait_for_slot_queryable valid_at lsm_idx = Ok true).
Context (Hw : pool_wf pool l).

Lemma regular_present i s : i ∈ l -> flushed_segments pool !! i = Some s -> range_of s = (a, b) -> regular valid_at lsm_idx a b pool = Ok pool.
Proof.
  intros Hi Hs [= Ha Hb]. unfold Maint.segment_update_regular. rewrite Hready. cbn [mbind res_bind negb]. rewrite (find_by_sids _ l) by done. cbn [mbind res_bind].
  destruct (Z.eqb_spec (first_slot (exact_range a b) (flushed_segments pool) l) NIL) as [E|E]; [|done]. exfalso.
  clear Hready. assert (Hnil : NIL ∉ l) by by eapply list_wf_not_nil; eapply pw_list.
  clear Hw. induction l as [|j l' IH]; [by apply elem_of_nil in Hi|]. cbn in E. apply elem_of_cons in Hi as [->|Hi].
  - rewrite Hs in E. unfold exact_range in E. rewrite Ha, Hb, !Z.eqb_refl in E. cbn in E. apply Hnil. rewrite <-E. by left.
  - destruct (flushed_segments pool !! j) as [sj|]; [|apply IH; [done|done|set_solver]].
    destruct (exact_range a b sj); [|apply IH; [done|done|set_solver]]. apply Hnil. rewrite <-E. by left.
Qed.

Context (Habsent : forall i s, i ∈ l -> flushed_segments pool !! i = Some s -> range_of s <> (a, b)).

Lemma absent_found : Pool.find_segment_by_sids pool a b = Ok NIL.
Proof.
  rewrite (find_by_sids _ l) by done. f_equal. apply first_slot_none. intros i s Hi Hs. unfold exact_range.
  destruct (Z.eqb_spec (segment_id_start s) a), (Z.eqb_spec (segment_id_end s) b); try done. destruct (Habsent i s Hi Hs). unfold range_of. congruence.
Qed.

Lemma regular_full : (forall j, insert_idx pool <= j < MAX_SEGMENTS_COUNT -> slot_used (flushed_segments pool) j) ->
  regular valid_at lsm_idx a b pool = Error OutOfBounds.
Proof.
  intros Hall. unfold Maint.segment_update_regular. rewrite Hready. cbn [mbind res_bind negb]. rewrite absent_found. cbn [mbind res_bind negb Z.eqb].
  rewrite Z.eqb_refl. cbn [negb]. unfold alone.
  destruct (reserve_spec (set_lock pool WriteHeld) l (lock_wf _ _ _ Hw)) as (n & pool1 & -> & Hw1 & [(-> & -> & _)|(Hn & _ & _ & (s & Hs & Hu & _) & _)]).
  - cbn [mbind res_bind]. unfold arr_get at 1. rewrite zlookup_ge; [done|]. cbn. rewrite (lw_len _ _ (pw_list _ _ Hw)). by vm_compute.
  - destruct (Hall n Hn) as (s' & Hs' & Hu'). cbn in Hs. congruence.
Qed.

Lemma regular_adds : stats_exact cap pool l ->
  (exists j, insert_idx pool <= j < MAX_SEGMENTS_COUNT /\ ~ slot_used (flushed_segments pool) j) ->
  (forall s, in_used s = true -> exists s', SegFile.load_and_set_segment IndexLoadAndSave d s a b Maint.LOAD_LATEST_VERSION false = Ok s' /\
     in_used s' = true /\ range_of s' = (a, b)) ->
  exists pool' n l1 l3 s s', regular valid_at lsm_idx a b pool = Ok pool' /\ l = l1 ++ l3 /\ (n ∉ l) /\
    SegFile.load_and_set_segment IndexLoadAndSave d s a b Maint.LOAD_LATEST_VERSION false = Ok s' /\
    pool_wf pool' (l1 ++ n :: l3) /\ stats_exact cap pool' (l1 ++ n :: l3) /\
    (forall i, i ∈ l1 -> start_of (flushed_segments pool) i <= a) /\ (forall i, i ∈ l3 -> a < start_of (flushed_segments pool) i) /\
    payload_at (flushed_segments pool') n = Some (payload (s' <| ref_count := 1 |>)) /\
    (forall j, j <> n -> payload_at (flushed_segments pool') j = payload_at (flushed_segments pool) j).
Proof.
  intros Hst (j0 & Hj0 & Hnu) Hload. unfold Maint.segment_update_regular. rewrite Hready. cbn [mbind res_bind negb]. rewrite absent_found. cbn [mbind res_bind negb].
  rewrite Z.eqb_refl. cbn [negb]. unfold alone.
  destruct (reserve_spec (set_lock pool WriteHeld) l (lock_wf _ _ _ Hw)) as (n & pool1 & Hres & Hw1 & [(_ & _ & Hall)|(Hn & Hnl & _ & (s & Hs & Hu & Hs1) & _ & Hoth)]).
  { destruct Hnu. by apply (Hall j0). }
  rewrite Hres. cbn [mbind res_bind]. destruct (Hload (s <| in_used := true |>)) as (s' & Hl & Hu' & Hr); [done|].
  assert (Hg : flushed_segments (set_lock pool1 Unlocked) !! n = Some (s <| in_used := true |>)) by exact Hs1. run. rewrite Hl. cbn [mbind res_bind].
  set (pool2 := set_slot (set_lock pool1 Unlocked) n s'). change ((set_lock pool1 Unlocked) <| flushed_segments ::= <[n := s']> |>) with pool2.
  assert (Hw2 : pool_wf (set_lock pool2 WriteHeld) l) by exact (lock_wf _ _ WriteHeld (set_slot_wf _ _ n s' (lock_wf _ _ Unlocked Hw1) Hnl)).
  assert (Hst2 : stats_exact cap pool2 l).
  { apply set_slot_stats; [|done]. exact (reserve_stats cap (set_lock pool WriteHeld) pool1 n l Hres Hst Hnl). }
  assert (Hs2 : flushed_segments (set_lock pool2 WriteHeld) !! n = Some s') by (cbn; by eapply zlookup_insert_eq).
  destruct (register_spec cap (set_lock pool2 WriteHeld) l n s' Hw2 Hst2 Hs2 Hu' Hnl) as (pool3 & l1 & l3 & -> & -> & H1 & H3 & Hw3 & Hst3 & Hp & Ho & _).
  cbn [mbind res_bind]. injection Hr as Ha Hb.
  assert (Hsame : forall i, i <> n -> flushed_segments (set_lock pool2 WriteHeld) !! i = flushed_segments pool !! i) by (intros i Hi; cbn; rewrite zlookup_insert_ne by done; by apply Hoth).
  exists (set_lock pool3 Unlocked), n, l1, l3, (s <| in_used := true |>), s'. split; [done|]. split; [done|]. split; [done|]. split; [done|].
  split; [exact (lock_wf _ _ Unlocked Hw3)|]. split; [exact Hst3|].
  assert (Hstart : forall i, i ∈ l1 ++ l3 -> start_of (flushed_segments (set_lock pool2 WriteHeld)) i = start_of (flushed_segments pool) i).
  { intros i Hi. unfold start_of. rewrite Hsame; [done|]. by intros ->. }
  split; [intros i Hi; rewrite <-Hstart by set_solver; rewrite <-Ha; by apply H1|].
  split; [intros i Hi; rewrite <-Hstart by set_solver; rewrite <-Ha; by apply H3|].
  split; [exact Hp|]. intros j Hj. cbn. rewrite Ho by done. unfold payload_at. by rewrite Hsame.
Qed.
End regular.

Lemma range_listed segs l r : r ∈ ranges segs l <-> exists i s, i ∈ l /\ segs !! i = Some s /\ range_of s = r.
Proof.
  unfold ranges. rewrite list_elem_of_omap. split.
  - intros (i & Hi & Hr). destruct (segs !! i) as [s|] eqn:Hs; [|done]. exists i, s. split; [done|]. split; [done|]. cbn in Hr. by injection Hr.
  - intros (i & s & Hi & Hs & Hr). exists i. split; [done|]. rewrite Hs. cbn. by rewrite Hr.
Qed.

(** ** A vacuum and an upgrade of the same segment *)

Section vacuum_race.
Implicit Types (pool : FlushedSegmentPool) (l : list Z).

Lemma release_unlisted pool l i s : pool_wf pool l -> i ∉ l -> flushed_segments pool !! i = Some s ->
  exists pool', Pool.decrement_flushed_segment_ref_count pool i = Ok pool' /\ pool_wf pool' l /\
    forall j, j <> i -> flushed_segments pool' !! j = flushed_segments pool !! j.
Proof.
  intros Hw Hi Hs. destruct (decrement_spec pool i s Hs (pw_insert _ _ Hw)) as (pool' & Hrun & (_ & Hh & Ht & _) & Hsl & Hii & _).
  assert (Hsame : forall j, j <> i -> flushed_segments pool' !! j = flushed_segments pool !! j) by (intros j Hj; rewrite Hsl; by apply zlookup_insert_ne).
  exists pool'. split; [done|]. split; [|done]. split; [|..].
  - eapply list_wf_frame; [rewrite Hsl; apply zlen_insert| |apply Hw]. intros j Hj. apply Hsame. by intros ->.
  - intros j sj Hj. rewrite Hsame by (by intros ->). by apply (pw_refs _ _ Hw).
  - rewrite Hh. apply Hw.
  - rewrite Ht. apply Hw.
  - pose proof (pw_insert _ _ Hw). lia.
Qed.

(** The upgrade task, run by another thread. *)
Definition upgrade_between (cap index : Z) (upg : InternalUpgradeTaskData) (pool : FlushedSegmentPool) : FlushedSegmentPool :=
  match Maint.segment_upgrade cap true (Some index) upg pool with Ok (_, pool) => pool | Error _ => pool end.

Lemma vacuum_check_ok pool l i s v : pool_wf pool l -> i ∈ l -> flushed_segments pool !! i = Some s -> version s = v -> ref_count s + 1 < 2 ^ 31 ->
  first_slot (exact_range (segment_id_start s) (segment_id_end s)) (flushed_segments pool) l = i ->
  Maint.vacuum_check pool (segment_id_start s) (segment_id_end s) v = Ok (i, 0, set_slot pool i (s <| ref_count := ref_count s + 1 |>)) /\
  pool_wf (set_slot pool i (s <| ref_count := ref_count s + 1 |>)) l.
Proof.
  intros Hw Hi Hs Hv Hr Hf. pose proof (pw_refs _ _ Hw i s Hi Hs) as Hrs. set (s1 := s <| ref_count := ref_count s + 1 |>).
  assert (Hw1 : pool_wf (set_slot pool i s1) l) by (by apply set_ref_wf; [| |lia]). split; [|done].
  assert (Hni : i <> NIL) by (intros ->; by apply (list_wf_not_nil _ _ (pw_list _ _ Hw))).
  assert (Hs1 : flushed_segments (set_slot pool i s1) !! i = Some s1) by (by eapply set_slot_same).
  assert (Hf1 : first_slot (exact_range (segment_id_start s) (segment_id_end s)) (flushed_segments (set_slot pool i s1)) l = i).
  { rewrite <-Hf at 2. apply first_slot_ext. intros j Hj. destruct (decide (j = i)) as [->|Hne]; [by rewrite Hs1, Hs|by rewrite set_slot_other]. }
  unfold Maint.vacuum_check. rewrite (find_by_sids _ l) by done. rewrite Hf. cbn [mbind res_bind]. destruct (Z.eqb_spec i NIL); [done|].
  rewrite (pin_spec _ _ s) by (done || lia). cbn [mbind res_bind]. fold s1. run. change (version s1) with (version s). rewrite Hv, Z.eqb_refl.
  change (in_used s1) with (in_used s). rewrite (lw_used _ _ (pw_list _ _ Hw) i s Hi Hs). cbn [negb orb].
  rewrite (find_by_sids _ l), Hf1 by done. cbn [mbind res_bind]. by rewrite Z.eqb_refl.
Qed.
End vacuum_race.

(** ** The theorems *)


(** The task that adds a flushed segment puts it into the list exactly once:
    a segment that is already listed (loaded meanwhile from its files) changes
    nothing; otherwise the segment loaded from the files is linked behind every
    segment that does not start later, alone.  When no slot is free, however,
    the slot number -1 is used without a test, and the access is out of bounds. *)
Theorem regular_update_adds_once load cap d valid_at lsm_idx a b pool l :
  Maint.wait_for_slot_queryable valid_at lsm_idx = Ok true -> pool_wf pool l -> stats_exact cap pool l ->
  (forall s, in_used s = true -> exists s', SegFile.load_and_set_segment load d s a b Maint.LOAD_LATEST_VERSION false = Ok s' /\
     in_used s' = true /\ range_of s' = (a, b)) ->
  let run := Maint.segment_update_regular load cap d valid_at alone lsm_idx a b pool in
  ((a, b) ∈ ranges (flushed_segments pool) l -> run = Ok pool) /\
  ((a, b) ∉ ranges (flushed_segments pool) l ->
     (exists j, insert_idx pool <= j < MAX_SEGMENTS_COUNT /\ ~ slot_used (flushed_segments pool) j) ->
     exists pool' n l1 l3 s s', run = Ok pool' /\ l = l1 ++ l3 /\ (n ∉ l) /\
       SegFile.load_and_set_segment load d s a b Maint.LOAD_LATEST_VERSION false = Ok s' /\
       pool_wf pool' (l1 ++ n :: l3) /\ stats_exact cap pool' (l1 ++ n :: l3) /\
       (forall i, i ∈ l1 -> start_of (flushed_segments pool) i <= a) /\ (forall i, i ∈ l3 -> a < start_of (flushed_segments pool) i) /\
       payload_at (flushed_segments pool') n = Some (payload (s' <| ref_count := 1 |>)) /\
       (forall j, j <> n -> payload_at (flushed_segments pool') j = payload_at (flushed_segments pool) j)) /\
  ((a, b) ∉ ranges (flushed_segments pool) l -> (forall j, insert_idx pool <= j < MAX_SEGMENTS_COUNT -> slot_used (flushed_segments pool) j) ->
     run = Error OutOfBounds).
Proof.
  intros Hready Hw Hst Hload run.
  assert (Habs : (a, b) ∉ ranges (flushed_segments pool) l -> forall i s, i ∈ l -> flushed_segments pool !! i = Some s -> range_of s <> (a, b)).
  { intros Hn i s Hi Hs Hr. apply Hn, range_listed. by exists i, s. }
  split; [|split].
  - intros (i & s & Hi & Hs & Hr)%range_listed.
    by apply (regular_present load cap d valid_at lsm_idx a b pool l Hready Hw i s).
  - intros Hn Hfree. exact (regular_adds load cap d valid_at lsm_idx a b pool l Hready Hw (Habs Hn) Hst Hfree Hload).
  - intros Hn Hall. exact (regular_full load cap d valid_at lsm_idx a b pool l Hready Hw (Habs Hn) Hall).
Qed.

(** A maintenance task that finds its index loading waits, but not for
    ever: after at most 300000 polls it has an answer, and it goes ahead exactly
    when the index became queryable while it was loading the whole time before. *)
Theorem wait_ends valid_at lsm_idx :
  exists ready, Maint.wait_for_slot_queryable valid_at lsm_idx = Ok ready /\
    (ready = true <-> 0 <= lsm_idx < Slots.INDEX_BUF_SIZE /\ exists k, 0 <= k < Maint.MAX_ATTEMPTS /\
       valid_at k = LSM_SLOT_QUERYABLE /\ forall j, 0 <= j < k -> valid_at j = LSM_SLOT_LOADING_INDEX).
Proof.
  unfold Maint.wait_for_slot_queryable. destruct (Z.ltb_spec lsm_idx 0); cbn [orb]; [exists false; split; [done|]; split; [done|lia]|].
  destruct (Z.leb_spec Slots.INDEX_BUF_SIZE lsm_idx); [exists false; split; [done|]; split; [done|lia]|].
  destruct (wait_loop_ok valid_at Maint.wait_fuel 0) as (b & Hrun & Hb).
  { unfold Maint.wait_fuel. rewrite Z2Nat.id; unfold Maint.MAX_ATTEMPTS; lia. }
  { unfold Maint.wait_fuel, Maint.MAX_ATTEMPTS. lia. }
  exists b. split; [done|]. rewrite Hb. split; [|by intros [_ ?]]. intros Hk. split; [lia|done].
Qed.

(** C38: an upgraded segment hands on no deletions: the copy is listed with the
    rows and deletion bits of the mapped segment but without its offset table,
    so that when a fetched segment later takes over its ids, carrying the
    deletion bits over does nothing, whatever the fetched segment is. *)
Theorem upgrade_drops_tombstones cap pool l1 i l3 s index upg :
  pool_wf pool (l1 ++ i :: l3) -> flushed_segments pool !! i = Some s -> mapped s ->
  upg_segment_idx upg = i -> (upg_start_sid upg, upg_end_sid upg) = range_of s ->
  (exists j, insert_idx pool <= j < MAX_SEGMENTS_COUNT /\ ~ slot_used (flushed_segments pool) j) ->
  (forall j sj, flushed_segments pool !! j = Some sj -> in_used sj = false -> offsets sj = None) ->
  exists n pool' ns, Maint.segment_upgrade cap true (Some index) upg pool = Ok (Upgraded n, pool') /\
    pool_wf pool' (l1 ++ n :: l3) /\ flushed_segments pool' !! n = Some ns /\ bitmap_ptr ns = bitmap_ptr s /\ map_ptr ns = map_ptr s /\
    forall new_seg, Merge.union_segment_bitmap_via_offset_merge new_seg ns = Ok new_seg.
Proof.
  intros Hw Hs Hm Hi Hr Hfree Hoff.
  destruct (upgrade_spec cap pool l1 i l3 s index upg Hw Hs Hm Hi Hr Hfree) as (n & pool' & ns & s0 & Hrun & _ & _ & _ & _ & Hw' & _ & Hns & Hup & Hs0 & Hu0 & Ho & _).
  exists n, pool', ns. split; [done|]. split; [done|]. split; [done|]. destruct Hup as (_ & _ & _ & _ & _ & Hb & Hmp & _). split; [done|]. split; [done|].
  intros new_seg. unfold Merge.union_segment_bitmap_via_offset_merge. rewrite Ho, (Hoff n s0 Hs0 Hu0).
  by repeat (case_match; try done).
Qed.

(** A vacuum that meets an upgrade is lost in memory: when the upgrade of a
    segment runs after the vacuum task's checks and before it sets the bits, the
    vacuum still reports success, but the bits go to the replaced slot; the
    listed copy keeps the old bitmap. *)
Theorem upgrade_loses_vacuum_bits cap d pool l1 i l3 s index upg bm bits c bm' :
  pool_wf pool (l1 ++ i :: l3) -> flushed_segments pool !! i = Some s -> mapped s -> ref_count s + 1 < 2 ^ 31 ->
  first_slot (exact_range (segment_id_start s) (segment_id_end s)) (flushed_segments pool) (l1 ++ i :: l3) = i ->
  upg_segment_idx upg = i -> (upg_start_sid upg, upg_end_sid upg) = range_of s ->
  (exists j, insert_idx pool <= j < MAX_SEGMENTS_COUNT /\ ~ slot_used (flushed_segments pool) j) ->
  bitmap_ptr s = Some bm -> SegFile.load_bitmap_file d (segment_id_start s) (segment_id_end s) UINT32_MAX = Ok (bits, Some c) ->
  or_bytes (GET_BITMAP_SIZE (vec_count s)) bm bits = Ok bm' ->
  exists n pool' ns, Maint.update_vacuum d (upgrade_between cap index upg) (segment_id_start s) (segment_id_end s) (version s) pool = Ok (0, pool') /\
    pool_wf pool' (l1 ++ n :: l3) /\ flushed_segments pool' !! n = Some ns /\ range_of ns = range_of s /\ bitmap_ptr ns = Some bm.
Proof.
  intros Hw Hs Hm Hr Hfirst Hi Hu Hfree Hbm Hload Hor. assert (Hil : i ∈ l1 ++ i :: l3) by set_solver.
  destruct (vacuum_check_ok pool _ i s (version s) Hw Hil Hs eq_refl Hr Hfirst) as [Hcheck Hw1].
  set (s1 := s <| ref_count := ref_count s + 1 |>) in *. set (pool1 := set_slot pool i s1) in *.
  assert (Hs1 : flushed_segments pool1 !! i = Some s1) by (by eapply set_slot_same).
  unfold Maint.update_vacuum. rewrite Hcheck. cbn [mbind res_bind].
  destruct (upgrade_spec cap pool1 l1 i l3 s1 index upg Hw1 Hs1 Hm Hi Hu) as
    (n & pool2 & ns & s0 & Hrun & _ & Hnl & _ & _ & Hw2 & _ & Hns & Hup & _ & _ & _ & _ & Hpi & _).
  { destruct Hfree as (j & Hj & Hju). exists j. split; [done|]. intros (sj & Hsj & Hsju). apply Hju. destruct (decide (j = i)) as [->|Hne].
    - exists s. split; [done|]. rewrite Hs1 in Hsj. by injection Hsj as <-.
    - exists sj. unfold pool1 in Hsj. by rewrite set_slot_other in Hsj. }
  unfold upgrade_between. rewrite Hrun. unfold Maint.vacuum_apply.
  assert (Hni : i <> NIL) by (intros ->; by apply (list_wf_not_nil _ _ (pw_list _ _ Hw))). destruct (Z.eqb_spec i NIL); [done|].
  assert (exists s2, flushed_segments pool2 !! i = Some s2 /\ payload s2 = payload (released s1)) as (s2 & Hs2 & Hp2).
  { unfold payload_at in Hpi. destruct (flushed_segments pool2 !! i) as [s2|]; [|done]. exists s2. split; [done|]. cbn in Hpi. by apply (inj Some) in Hpi. }
  pose proof (pw_refs _ _ Hw i s Hil Hs) as Hrs.
  assert (Hrel : released s1 = s1 <| ref_count := ref_count s |>).
  { unfold released. cbn. rewrite i32_small by lia. destruct (Z.eqb_spec (ref_count s + 1 - 1) 0); [lia|]. unfold s1. cbn. by replace (ref_count s + 1 - 1) with (ref_count s) by lia. }
  rewrite Hrel in Hp2.
  assert (Hb2 : bitmap_ptr s2 = Some bm) by (change (bitmap_ptr s2) with (bitmap_ptr (payload s2)); by rewrite Hp2).
  assert (Hv2 : vec_count s2 = vec_count s) by (change (vec_count s2) with (vec_count (payload s2)); by rewrite Hp2).
  run. rewrite Hload. cbn [mbind res_bind of_option fst snd]. rewrite Hb2. cbn [mbind res_bind of_option]. rewrite Hv2, Hor. cbn [mbind res_bind].
  rewrite (arr_set_Some _ _ _ _ Hs2). cbn [mbind res_bind]. set (s3 := s2 <| bitmap_ptr := _ |> <| delete_count := _ |>).
  assert (Hin : i ∉ l1 ++ n :: l3).
  { pose proof (lw_nodup _ _ (pw_list _ _ Hw)) as Hnd. apply NoDup_app in Hnd as (_ & Hd & Hnd). apply NoDup_cons in Hnd as [Hi3 _].
    rewrite elem_of_app, elem_of_cons. intros [Hx|[->|Hx]]; [apply (Hd i Hx); by left|by apply Hnl|done]. }
  pose proof (set_slot_wf pool2 _ i s3 Hw2 Hin) as Hw3. fold (set_slot pool2 i s3).
  destruct (release_unlisted (set_slot pool2 i s3) _ i s3 Hw3 Hin) as (pool4 & Hdec & Hw4 & Hsame); [by eapply set_slot_same|].
  exists n, pool4, ns. split.
  - change (pool2 <| flushed_segments := <[i := s3]> (flushed_segments pool2) |>) with (set_slot pool2 i s3).
    exact (f_equal (fun r : res FlushedSegmentPool => pool ← r; Ok (0, pool)) Hdec).
  - split; [done|]. assert (n <> i) by (intros ->; apply Hin; set_solver). split; [rewrite Hsame by done; by rewrite set_slot_other|].
    destruct Hup as (Hrg & _ & _ & _ & _ & Hb & _). split; [exact Hrg|]. rewrite Hb. exact Hbm.
Qed.

(** ** Concrete runs *)

Module ColdStart.

Definition seg (a index prev next : Z) (map bm : list Z) : FlushedSegmentData :=
  (segment_at a a 1 map bm [mkOffsetRange a 0 (zlen map)]) <| index_ptr := Some index |> <| load_state := SEG_MMAP_LOADED |>
    <| prev_idx := prev |> <| next_idx := next |>.

(** Segments 3, 4 and 5, mapped; row 22 of segment 4 is deleted. *)
Definition pool : FlushedSegmentPool :=
  mkPool Unlocked ([seg 3 30 NIL 1 [11; 12; 13] [0]; seg 4 40 0 2 [21; 22] [2]; seg 5 50 1 NIL [31] [0]] ++ replicate 1021 empty_slot) 3 0 2 3 3 3 3.
Definition task (i : Z) : InternalUpgradeTaskData := mkUpgrade 16384 0 i (i + 3) (i + 3) UINT32_MAX FLAT.
(** Version 2 of segment 4, as fetched: nothing deleted. *)
Definition fetched : FlushedSegmentData := segment_at 4 4 2 [21; 22] [0] [mkOffsetRange 4 0 2].
Definition adopt (p : FlushedSegmentPool) := Adopt.adopt_body 50000 (fun _ => Ok fetched) quiet 4 4 2 [] [] p.

Lemma cold_pool_ok : pool_wf pool [0; 1; 2].
Proof. apply pool_wfb_sound. by vm_compute. Qed.

Lemma stats_ok : stats_exact 50000 pool [0; 1; 2].
Proof. split; [|split]; by vm_compute. Qed.

Lemma all_mapped i s : i ∈ [0; 1; 2] -> flushed_segments pool !! i = Some s -> mapped s.
Proof.
  intros Hi Hs. assert (Hm : forall j, j ∈ [0; 1; 2] -> exists s, flushed_segments pool !! j = Some s /\ mapped s).
  { intros j [->|[->| ->%list_elem_of_singleton]%elem_of_cons]%elem_of_cons; eexists; (split; [reflexivity|]); (split; [reflexivity|]); (split; [by vm_compute|]);
      do 2 eexists; (split; [reflexivity|]); (split; [reflexivity|]); split; by vm_compute. }
  destruct (Hm i Hi) as (s' & Hs' & ?). by assert (s' = s) as -> by congruence.
Qed.

Lemma free_slots j : 3 <= j < MAX_SEGMENTS_COUNT -> ~ slot_used (flushed_segments pool) j.
Proof.
  intros Hj (s & Hs & Hu). change (flushed_segments pool) with ([seg 3 30 NIL 1 [11; 12; 13] [0]; seg 4 40 0 2 [21; 22] [2]; seg 5 50 1 NIL [31] [0]] ++ replicate 1021 empty_slot) in Hs.
  rewrite zlookup_app_r in Hs by (unfold zlen; cbn; lia). assert (s = empty_slot) as -> by (eapply (elem_of_replicate 1021); apply elem_of_zlookup; by eexists). done.
Qed.
End ColdStart.

(** An upgrade can undo an adoption and free a segment under a search: a
    search holds segment 4 while version 2 of it is adopted; the upgrade task
    still finds the old slot in use with its ids (it only tests these), so it
    copies version 1 and links the copy where the adopted segment was: the list
    shows version 1 again, the adopted segment is in use but unlinked, and the
    reference the upgrade gives back is the search's, whose buffers are freed. *)
Theorem stale_upgrade_undoes_adoption :
  exists pinned pool2 pool3,
    pool_wf ColdStart.pool [0; 1; 2] /\ Pool.pin_segment ColdStart.pool 1 = Ok pinned /\
    ColdStart.adopt pinned = Ok (Adopt.DPV_ADOPT_ADOPTED, pool2) /\ pool_wf pool2 [0; 3; 2] /\
    (version <$> flushed_segments pool2 !! 3) = Some 2 /\
    ((fun s => (ref_count s, bitmap_ptr s)) <$> flushed_segments pool2 !! 1) = Some (1, Some [2]) /\
    Maint.segment_upgrade 50000 true (Some 99) (ColdStart.task 1) pool2 = Ok (Upgraded 4, pool3) /\
    pool_wf pool3 [0; 4; 2] /\ (version <$> flushed_segments pool3 !! 4) = Some 1 /\
    (in_used <$> flushed_segments pool3 !! 3) = Some true /\
    ((fun s => (in_used s, index_ptr s, bitmap_ptr s, map_ptr s)) <$> flushed_segments pool3 !! 1) = Some (false, None, None, None).
Proof.
  eexists _, _, _. split; [exact ColdStart.cold_pool_ok|]. split; [vm_compute; reflexivity|]. split; [vm_compute; reflexivity|].
  split; [apply pool_wfb_sound; vm_compute; reflexivity|]. split; [vm_compute; reflexivity|]. split; [vm_compute; reflexivity|].
  split; [vm_compute; reflexivity|]. split; [apply pool_wfb_sound; vm_compute; reflexivity|]. split; [vm_compute; reflexivity|].
  split; vm_compute; reflexivity.
Qed.


Lemma upgrade_drops_tombstones_witness :
  exists pool' direct adopted, Maint.segment_upgrade 50000 true (Some 99) (ColdStart.task 1) ColdStart.pool = Ok (Upgraded 3, pool') /\
    (* adopting version 2 of segment 4 before the upgrade, and after it *)
    ColdStart.adopt ColdStart.pool = Ok (Adopt.DPV_ADOPT_ADOPTED, direct) /\ (bitmap_ptr <$> flushed_segments direct !! 3) = Some (Some [2]) /\
    ColdStart.adopt pool' = Ok (Adopt.DPV_ADOPT_ADOPTED, adopted) /\ (bitmap_ptr <$> flushed_segments adopted !! 4) = Some (Some [0]).
Proof.
  destruct (upgrade_drops_tombstones 50000 ColdStart.pool [0] 1 [2] (ColdStart.seg 4 40 0 2 [21; 22] [2]) 99 (ColdStart.task 1)) as (n & pool' & ns & Hrun & _).
  - exact ColdStart.cold_pool_ok.
  - reflexivity.
  - apply (ColdStart.all_mapped 1); [right; left|reflexivity].
  - reflexivity.
  - reflexivity.
  - exists 3. split; [vm_compute; split; [discriminate|reflexivity]|]. apply ColdStart.free_slots. unfold MAX_SEGMENTS_COUNT. lia.
  - intros j sj Hj Hu. apply zlookup_lt_Some in Hj as Hr. destruct (decide (j < 3)) as [Hlt|Hge].
    + assert (j = 0 \/ j = 1 \/ j = 2) as [->|[->| ->]] by lia; injection Hj as <-; discriminate Hu.
    + change (flushed_segments ColdStart.pool) with ([ColdStart.seg 3 30 NIL 1 [11; 12; 13] [0]; ColdStart.seg 4 40 0 2 [21; 22] [2]; ColdStart.seg 5 50 1 NIL [31] [0]] ++ replicate 1021 empty_slot) in Hj.
      rewrite zlookup_app_r in Hj by (unfold zlen; cbn; lia). assert (sj = empty_slot) as -> by (eapply (elem_of_replicate 1021); apply elem_of_zlookup; by eexists). reflexivity.
  - assert (Hv : exists p direct adopted, Maint.segment_upgrade 50000 true (Some 99) (ColdStart.task 1) ColdStart.pool = Ok (Upgraded 3, p) /\
      ColdStart.adopt ColdStart.pool = Ok (Adopt.DPV_ADOPT_ADOPTED, direct) /\ (bitmap_ptr <$> flushed_segments direct !! 3) = Some (Some [2]) /\
      ColdStart.adopt p = Ok (Adopt.DPV_ADOPT_ADOPTED, adopted) /\ (bitmap_ptr <$> flushed_segments adopted !! 4) = Some (Some [0])).
    { do 3 eexists. split; [vm_compute; reflexivity|]. split; [vm_compute; reflexivity|]. split; [vm_compute; reflexivity|]. split; vm_compute; reflexivity. }
    destruct Hv as (p & direct & adopted & Hp & Hd). rewrite Hrun in Hp. assert (Heq : pool' = p) by congruence. subst p.
    exists pool', direct, adopted. split; [rewrite Hrun; exact Hp|exact Hd].
Defined.

Module VacuumRace.
(** Segment 3-4 of [flushed_dir], mapped, after row 11 was marked on disk. *)
Definition slot : FlushedSegmentData := (segment_at 3 4 2 [11; 12; 13] [2] example_offsets) <| load_state := SEG_MMAP_LOADED |>.
Definition pool : FlushedSegmentPool := one_segment_pool slot.
Definition dir : directory := vacuum_11 flushed_dir.
Definition task : InternalUpgradeTaskData := mkUpgrade 16384 0 0 3 4 UINT32_MAX FLAT.
End VacuumRace.

Lemma upgrade_loses_vacuum_bits_witness :
  exists n pool' ns, Maint.update_vacuum VacuumRace.dir (upgrade_between 50000 99 VacuumRace.task) 3 4 2 VacuumRace.pool = Ok (0, pool') /\
    pool_wf pool' [n] /\ flushed_segments pool' !! n = Some ns /\ bitmap_ptr ns = Some [2] /\
    SegFile.load_bitmap_file VacuumRace.dir 3 4 UINT32_MAX = Ok ([3], Some 2).
Proof.
  destruct (upgrade_loses_vacuum_bits 50000 VacuumRace.dir VacuumRace.pool [] 0 [] VacuumRace.slot 99 VacuumRace.task [2] [3] 2 [3]) as (n & pool' & ns & Hrun & Hw & Hns & _ & Hb).
  - apply pool_wfb_sound. vm_compute. reflexivity.
  - reflexivity.
  - split; [reflexivity|]. split; [vm_compute; discriminate|]. do 2 eexists. split; [reflexivity|]. split; [reflexivity|]. split; vm_compute; reflexivity.
  - vm_compute. reflexivity.
  - vm_compute. reflexivity.
  - reflexivity.
  - reflexivity.
  - exists 1. split; [vm_compute; split; [discriminate|reflexivity]|]. intros (s & Hs & Hu). injection Hs as <-. discriminate Hu.
  - reflexivity.
  - vm_compute. reflexivity.
  - vm_compute. reflexivity.
  - exists n, pool', ns. split; [exact Hrun|]. split; [exact Hw|]. split; [exact Hns|]. split; [exact Hb|]. vm_compute. reflexivity.
Defined.

Lemma regular_update_adds_once_witness :
  exists pool', Maint.segment_update_regular (fun f _ _ => zlen <$> f) 50000 flushed_dir (fun k => if k <? 5 then LSM_SLOT_LOADING_INDEX else LSM_SLOT_QUERYABLE) alone 0 3 4
      (one_segment_pool (segment_at 5 5 1 [31] [0] [mkOffsetRange 5 0 1])) = Ok pool' /\ pool_wf pool' [1; 0].
Proof.
  destruct (regular_update_adds_once (fun f _ _ => zlen <$> f) 50000 flushed_dir (fun k => if k <? 5 then LSM_SLOT_LOADING_INDEX else LSM_SLOT_QUERYABLE) 0 3 4
    (one_segment_pool (segment_at 5 5 1 [31] [0] [mkOffsetRange 5 0 1])) [0]) as (_ & Hadd & _).
  - vm_compute. reflexivity.
  - apply pool_wfb_sound. vm_compute. reflexivity.
  - split; [|split]; vm_compute; reflexivity.
  - intros s Hs. destruct s. cbn in Hs. subst. eexists. split; [vm_compute; reflexivity|]. split; reflexivity.
  - destruct Hadd as (pool' & n & l1 & l3 & s & s' & Hrun & Hl & _ & _ & Hw & _ & _ & _ & _).
    + apply (bool_decide_unpack _). vm_compute. exact I.
    + exists 1. split; [vm_compute; split; [discriminate|reflexivity]|]. intros (s & Hs & Hu). injection Hs as <-. discriminate Hu.
    + assert (Hv : exists p, Maint.segment_update_regular (fun f _ _ => zlen <$> f) 50000 flushed_dir (fun k => if k <? 5 then LSM_SLOT_LOADING_INDEX else LSM_SLOT_QUERYABLE) alone 0 3 4
        (one_segment_pool (segment_at 5 5 1 [31] [0] [mkOffsetRange 5 0 1])) = Ok p /\ pool_wf p [1; 0]).
      { eexists. split; [vm_compute; reflexivity|]. apply pool_wfb_sound. vm_compute. reflexivity. }
      destruct Hv as (p & Hp & Hpw). assert (pool' = p) as -> by congruence. exists p. split; [exact Hrun|exact Hpw].
Defined.
