(* ===== verification/AccessMethod.v ===== *)
(** The access methods above the index (hnswbuild.c, hnswinsert.c, hnswscan.c
    and their ivf* twins): building an index from the rows of a table, what an
    insert hands to the memtable, and the scan that returns a search's tuples.

    A detoasted [vector] value is its bytes: eight of header, then the floats.
    A vector array is the byte memory the code allocates.  What is not in this
    repository is an argument: PostgreSQL's detoasting and its table scan (the
    rows, in the order of the callbacks), the sampling generator, and knowhere
    behind the class [Knowhere]; the operator class's support functions are
    reached through function pointers, hence fields of [Support]. *)

From S2P Require Import Prelude Tid TopK Memtable MemtableSearch.

(** ** Vector arrays (utils.c, utils.h) *)

(** [offsetof(Vector, x)] is 8: a length word, two 16-bit fields. *)
Definition VECTOR_SIZE (d : Z) : Z := 8 + 4 * d.
Definition INDEX_BUILD_BATCH : Z := 200000.
Definition DEFAULT_TIDS_SIZE : Z := 200000.

Record VectorArrayData := mkVectorArray { va_length : Z; va_maxlen : Z; va_dim : Z; va_itemsize : Z; va_items : list Z }.

#[global] Instance eta_VectorArrayData : Settable VectorArrayData := fun a =>
  mkVectorArray (va_length a) (va_maxlen a) (va_dim a) (va_itemsize a) (va_items a).

(** [palloc_extended] zeroes the items. *)
Definition VectorArrayInit (maxlen dimensions itemsize : Z) : VectorArrayData :=
  let itemsize := MAXALIGN itemsize in
  mkVectorArray 0 maxlen dimensions itemsize (replicate (Z.to_nat (maxlen * itemsize)) 0).

(** Where an item starts in the memory. *)
Definition VectorArrayGet (arr : VectorArrayData) (offset : Z) : Z := offset * va_itemsize arr.

(** [VARSIZE_ANY] of a detoasted value is its number of bytes. *)
Definition VectorArraySet (arr : VectorArrayData) (offset : Z) (val : list Z) : res VectorArrayData :=
  items ← mem_write (va_items arr) (VectorArrayGet arr offset) val;
  Ok (arr <| va_items := items |>).

(** Reading [n] bytes at [off]; beyond the memory is undefined behaviour. *)
Definition mem_read (blob : list Z) (off n : Z) : res (list Z) :=
  if (off <? 0) || (zlen blob <? off + n) then Error OutOfBounds else Ok (slice blob off (off + n)).

(** The contiguous buffer of [HnswIndexcreate], [IvfflatIndexCreate] and [IvfflatTrain]. *)
Definition flatten_vectors (arr : VectorArrayData) : res (list Z) :=
  foldl_res (fun buf i =>
      x ← mem_read (va_items arr) (VectorArrayGet arr i + 8) (4 * va_dim arr);
      mem_write buf (i * va_dim arr * 4) x)
    (replicate (Z.to_nat (va_length arr * va_dim arr * 4)) 0) (seqZ 0 (va_length arr)).

(** ** The vector library

    [kw_rows] is what an index holds: the vectors in the order of their row
    numbers.  The other configuration (metric, [M], [nlist], ...) only steers
    the search structure. *)
Class Knowhere (I : Type) := {
  kw_Create : I;
  kw_Count : I -> Z;
  kw_Train : I -> Z -> Z -> list Z -> I;
  kw_Build : I -> Z -> Z -> list Z -> I;
  kw_Add : I -> Z -> Z -> list Z -> I }.

(** [GenDataSet(nb, dim, buf)]. *)
Definition dataset_rows (nb d : Z) (buf : list Z) : list (list Z) :=
  (fun i => slice buf (i * (4 * d)) (i * (4 * d) + 4 * d)) <$> seqZ 0 nb.

(** [unbuilt] is the count of an index that has no vectors yet. *)
Class KnowhereLaws (I : Type) `{Knowhere I} (kw_rows : I -> list (list Z)) (unbuilt : Z) : Prop := {
  create_rows : kw_rows kw_Create = [];
  train_rows nb d buf : kw_rows (kw_Train kw_Create nb d buf) = [];
  unbuilt_rows i : kw_Count i = unbuilt -> kw_rows i = [];
  build_rows i nb d buf : kw_Count i = unbuilt -> kw_rows (kw_Build i nb d buf) = dataset_rows nb d buf;
  add_rows i nb d buf : kw_Count i <> unbuilt -> kw_rows (kw_Add i nb d buf) = kw_rows i ++ dataset_rows nb d buf }.

(** ** Index values *)

(** The type's value check, whether the norm function finds a positive norm,
    and the normalisation. *)
Record Support := mkSupport {
  checkValue : option (list Z -> res unit);
  norm_positive : option (list Z -> bool);
  normalize : list Z -> list Z }.

Section build.
Context {I : Type} `{Knowhere I} {B : Type} `{BlockId B} {Datum : Type}.
Context (detoast : Datum -> list Z).

(** The normalisation the ivfflat functions do in place. *)
Definition NormIfNeeded (support : Support) (value : list Z) : option (list Z) :=
  match norm_positive support with
  | Some positive => if positive value then Some (normalize support value) else None
  | None => Some value
  end.

Definition HnswFormIndexValue (support : Support) (d : Datum) : res (option (list Z)) :=
  let value := detoast d in
  _ ← (match checkValue support with Some check => check value | None => Ok tt end);
  Ok (NormIfNeeded support value).

Definition IvfflatFormValue (support : Support) (d : Datum) : res (option (list Z)) :=
  Ok (NormIfNeeded support (detoast d)).

(** ** Build state *)

Record BuildState := mkBuildState {
  bs_vectors : VectorArrayData;
  bs_tids : list Z;
  num_tids : Z;
  cap_tids : Z;
  bs_index : I }.

#[local] Instance eta_BuildState : Settable BuildState := fun s =>
  mkBuildState (bs_vectors s) (bs_tids s) (num_tids s) (cap_tids s) (bs_index s).

(** The largest request of [palloc] and [repalloc] (memutils.h). *)
Definition MaxAllocSize : Z := 0x3fffffff.

(** [repalloc] keeps what is there; the new part is not initialised. *)
Definition AppendTid (s : BuildState) (tid : Z) : res BuildState :=
  s ← (if cap_tids s <=? num_tids s then
         let newcap := i32 (cap_tids s * 2) in
         if MaxAllocSize <? u64 (8 * newcap) then Error ElogError
         else Ok (s <| bs_tids ::= fun a => a ++ replicate (Z.to_nat (newcap - cap_tids s)) 0 |> <| cap_tids := newcap |>)
       else Ok s);
  a ← arr_set (bs_tids s) (num_tids s) tid;
  Ok (s <| bs_tids := a |> <| num_tids := i32 (num_tids s + 1) |>).

(** [HnswIndexcreate] tests for a count of -1, [IvfflatIndexCreate] for 0. *)
Definition IndexCreate (unbuilt : Z) (index : I) (vectors : VectorArrayData) : res I :=
  buf ← flatten_vectors vectors;
  Ok (if kw_Count index =? unbuilt then kw_Build index (va_length vectors) (va_dim vectors) buf
      else kw_Add index (va_length vectors) (va_dim vectors) buf).

Definition HnswIndexcreate : I -> VectorArrayData -> res I := IndexCreate (-1).
Definition IvfflatIndexCreate : I -> VectorArrayData -> res I := IndexCreate 0.

(** The access method: how it forms values and adds a batch. *)
Context (form : Datum -> res (option (list Z))) (unbuilt : Z).

(** The batch goes into the index and the array starts over. *)
Definition flush_batch (s : BuildState) : res BuildState :=
  index ← IndexCreate unbuilt (bs_index s) (bs_vectors s);
  Ok (s <| bs_index := index |> <| bs_vectors ::= fun a => a <| va_length := 0 |> |>).

Definition AddVector (s : BuildState) (tid : ItemPointerData B) (d : Datum) : res BuildState :=
  value ← form d;
  match value with
  | None => Ok s
  | Some value =>
      let vectors := bs_vectors s in
      s ← (if va_length vectors <? va_maxlen vectors then
             vectors ← VectorArraySet vectors (va_length vectors) value;
             s ← AppendTid (s <| bs_vectors := vectors |>) (ItemPointerToInt64 tid);
             Ok (s <| bs_vectors ::= fun a => a <| va_length ::= fun n => n + 1 |> |>)
           else Error ElogError);
      if va_length (bs_vectors s) =? va_maxlen (bs_vectors s) then flush_batch s else Ok s
  end.

(** A row of the table: its tuple id, and its column unless it is null. *)
Definition heap_row : Type := ItemPointerData B * option Datum.

Definition BuildCallback (s : BuildState) (r : heap_row) : res BuildState :=
  match r.2 with None => Ok s | Some d => AddVector s r.1 d end.

(** The table is NULL when the index of an unlogged table is initialised. *)
Definition ScanAllRows (heap : option (list heap_row)) (s : BuildState) : res BuildState :=
  rows ← of_option NullDeref heap;
  s ← foldl_res BuildCallback s rows;
  if 0 <? va_length (bs_vectors s) then flush_batch s else Ok s.

Definition InitBuildState (d : Z) (index : I) : BuildState :=
  mkBuildState (VectorArrayInit INDEX_BUILD_BATCH d (VECTOR_SIZE d))
    (replicate (Z.to_nat DEFAULT_TIDS_SIZE) 0) 0 DEFAULT_TIDS_SIZE index.

(** What [build_lsm_index] is called with. *)
Record lsm_build := mkLsmBuild { lb_index : I; lb_tids : list Z; lb_dim : Z; lb_elem_size : Z; lb_count : Z }.

Definition finish_build (d : Z) (s : BuildState) : lsm_build :=
  mkLsmBuild (bs_index s) (bs_tids s) (u32 d) (u32 (va_itemsize (bs_vectors s) / d)) (num_tids s).

(** *** Sampling for ivfflat *)
Context {R : Type} (reservoir_get_next_S : R -> Z -> Z -> Z * R) (random_k : R -> Z -> Z * R).

Record SampleState := mkSampleState { samples : VectorArrayData; rowstoskip : Z; rstate : R }.

#[local] Instance eta_SampleState : Settable SampleState := fun s =>
  mkSampleState (samples s) (rowstoskip s) (rstate s).

Definition AddSample (kmeans : Support) (s : SampleState) (d : Datum) : res SampleState :=
  let targsamples := va_maxlen (samples s) in
  value ← IvfflatFormValue kmeans d;
  match value with
  | None => Ok s
  | Some value =>
      if va_length (samples s) <? targsamples then
        a ← VectorArraySet (samples s) (va_length (samples s)) value;
        Ok (s <| samples := a <| va_length ::= fun n => n + 1 |> |>)
      else
        let s := if rowstoskip s <? 0 then
                   let r := reservoir_get_next_S (rstate s) (va_length (samples s)) targsamples in
                   s <| rowstoskip := r.1 |> <| rstate := r.2 |>
                 else s in
        s ← (if rowstoskip s <=? 0 then
               let k := random_k (rstate s) targsamples in
               a ← VectorArraySet (samples s) k.1 value;
               Ok (s <| samples := a |> <| rstate := k.2 |>)
             else Ok s);
        Ok (s <| rowstoskip ::= fun n => n - 1 |>)
  end.

Definition SampleCallback (kmeans : Support) (s : SampleState) (r : heap_row) : res SampleState :=
  match r.2 with None => Ok s | Some d => AddSample kmeans s d end.

(** The rows of the blocks the block sampler chose, in its order. *)
Definition SampleRows (kmeans : Support) (blocks : list (list heap_row)) (rs : R) (a : VectorArrayData)
    : res SampleState :=
  foldl_res (fun s block => foldl_res (SampleCallback kmeans) s block) (mkSampleState a (-1) rs) blocks.

Definition IvfflatTrain (a : VectorArrayData) : res I :=
  buf ← flatten_vectors a; Ok (kw_Train kw_Create (va_length a) (va_dim a) buf).

(** No samples are drawn for an unlogged table; [lists] is an [int]. *)
Definition ComputeCenters (kmeans : Support) (d lists : Z) (blocks : option (list (list heap_row))) (rs : R) : res I :=
  let numSamples := Z.max (i32 (lists * 50)) 10000 in
  match blocks with
  | None => IvfflatTrain (VectorArrayInit 1 d (VECTOR_SIZE d))
  | Some blocks =>
      s ← SampleRows kmeans blocks rs (VectorArrayInit numSamples d (VECTOR_SIZE d));
      IvfflatTrain (samples s)
  end.
End build.

Arguments heap_row : clear implicits.
Arguments BuildState : clear implicits.
Arguments lsm_build : clear implicits.

(** ** The two builds *)

Section builds.
Context {I : Type} `{Knowhere I} {B : Type} `{BlockId B} {Datum : Type} (detoast : Datum -> list Z).

(** The checks of hnswbuild.c's [InitBuildState], in its order. *)
Definition hnsw_checks (is_varbit : bool) (d maxDimensions m efConstruction : Z) : res unit :=
  if is_varbit then Error ElogError
  else if d <? 0 then Error ElogError
  else if maxDimensions <? d then Error ElogError
  else if efConstruction <? 2 * m then Error ElogError
  else Ok tt.

Definition ivf_checks (is_varbit : bool) (d maxDimensions : Z) (kmeans : Support) : res unit :=
  if is_varbit then Error ElogError
  else if d <? 0 then Error ElogError
  else if maxDimensions <? d then Error ElogError
  else match norm_positive kmeans with
       | Some _ => if d =? 1 then Error ElogError else Ok tt
       | None => Ok tt
       end.

Definition hnswBuildIndex (support : Support) (is_varbit : bool) (d maxDimensions m efConstruction : Z)
    (heap : option (list (heap_row B Datum))) : res (lsm_build I) :=
  _ ← hnsw_checks is_varbit d maxDimensions m efConstruction;
  s ← ScanAllRows (HnswFormIndexValue detoast support) (-1) heap (InitBuildState d kw_Create);
  Ok (finish_build d s).

Definition ivfflatBuildIndex {R} (next_S : R -> Z -> Z -> Z * R) (random_k : R -> Z -> Z * R)
    (support kmeans : Support) (is_varbit : bool) (d maxDimensions lists : Z)
    (blocks : option (list (list (heap_row B Datum)))) (rs : R) (heap : option (list (heap_row B Datum))) : res (lsm_build I) :=
  _ ← ivf_checks is_varbit d maxDimensions kmeans;
  index ← ComputeCenters detoast next_S random_k kmeans d lists blocks rs;
  s ← ScanAllRows (IvfflatFormValue detoast support) 0 heap (InitBuildState d index);
  Ok (finish_build d s).
End builds.

(** ** Inserts (hnswinsert.c, ivfinsert.c) *)

(** What [hnswinsert] passes on: the tuple id and the bytes [insert_lsm_index]
    copies from [vector->x] into a slot of [mt], or nothing. *)
Section insert.
Context {B : Type} `{BlockId B} {Datum : Type} (form : Datum -> res (option (list Z))).

Definition InsertTuple (mt : ConcurrentMemTableData) (heap_tid : ItemPointerData B) (d : Datum) : res (option (Z * list Z)) :=
  value ← form d;
  match value with
  | None => Ok None
  | Some value => row ← mem_read value 8 (VEC_BYTES_PER_ROW mt); Ok (Some (ItemPointerToInt64 heap_tid, row))
  end.

Definition aminsert (mt : ConcurrentMemTableData) (heap_tid : ItemPointerData B) (d : option Datum) : res (option (Z * list Z)) :=
  match d with None => Ok None | Some d => InsertTuple mt heap_tid d end.
End insert.

(** ** Scans (hnswscan.c, ivfscan.c) *)

Record ScanOpaque (D : Type) := mkScanOpaque { first : bool; topkTuples : list (DistancePair D); topkTuplesIdx : Z }.
Arguments mkScanOpaque {D} _ _ _.
Arguments first {D} _.
Arguments topkTuples {D} _.
Arguments topkTuplesIdx {D} _.

Section scan.
Context {D : Type} (le : D -> D -> Prop) `{!RelDecision le} (compute_distance : list Z -> list Z -> D).
Context (qsort : list (DistancePair D) -> list (DistancePair D)).
Context (knowhere_search : list Z -> list Z -> list Z -> Z -> Z -> Z -> res (option (list (DistancePair D)))).
Context (vector_search_send : LSMSnapshot -> res unit) (vector_search_get_result : res (list (DistancePair D))).
Context {B : Type} `{BlockId B}.

(** The rounds of [search_lsm_index]'s loop: the shared state each finds. *)
Fixpoint search_rounds (states : list (LSMIndexData * list MemtableBufferSlot)) (query : list Z) (k : Z)
    : res (list MemtableBufferSlot * list (DistancePair D)) :=
  match states with
  | [] => Error OutOfFuel
  | (lsm, slots) :: states =>
      o ← search_lsm_index le compute_distance qsort knowhere_search vector_search_send vector_search_get_result lsm slots query k;
      match o with
      | Retry => search_rounds states query k
      | Returned slots pairs => Ok (slots, pairs)
      | Raised _ => Error ElogError
      end
  end.

(** The order-by key's value, [None] when it is null. *)
Definition GetScanValue (support : Support) (orderBy : option (list Z)) : option (list Z) :=
  value ← orderBy; Some (match norm_positive support with Some _ => normalize support value | None => value end).

Definition rescan (so : ScanOpaque D) : ScanOpaque D := mkScanOpaque true (topkTuples so) (topkTuplesIdx so).

(** One call; [query_vector->x] of a null value is a NULL dereference.  The
    scan's order-by data is NULL when it has no order-by key. *)
Definition amgettuple (top_k : Z) (support : Support) (orderByData : option (option (list Z))) (mvcc : bool)
    (states : list (LSMIndexData * list MemtableBufferSlot)) (so : ScanOpaque D)
    : res (ScanOpaque D * option (ItemPointerData B)) :=
  so ← (if first so then
          orderBy ← of_option ElogError orderByData;
          if negb mvcc then Error ElogError
          else
            value ← of_option NullDeref (GetScanValue support orderBy);
            r ← search_rounds states (drop 8 value) top_k;
            Ok (mkScanOpaque false r.2 0)
        else Ok so);
  if topkTuplesIdx so <? zlen (topkTuples so) then
    p ← arr_get (topkTuples so) (topkTuplesIdx so);
    Ok (mkScanOpaque (first so) (topkTuples so) (topkTuplesIdx so + 1), Some (Int64ToItemPointer (id p)))
  else Ok (so, None).

(** The executor's calls, with the results in order. *)
Fixpoint fetch_tuples (n : nat) (top_k : Z) (support : Support) (orderByData : option (option (list Z))) (mvcc : bool)
    (states : list (LSMIndexData * list MemtableBufferSlot)) (so : ScanOpaque D)
    : res (ScanOpaque D * list (option (ItemPointerData B))) :=
  match n with
  | O => Ok (so, [])
  | S n =>
      '(so, t) ← amgettuple top_k support orderByData mvcc states so;
      '(so, ts) ← fetch_tuples n top_k support orderByData mvcc states so;
      Ok (so, t :: ts)
  end.

(** [postgresqlv_search_candidates] is a setting. *)
Definition hnswgettuple (postgresqlv_search_candidates : Z) := amgettuple postgresqlv_search_candidates.
Definition ivfflatgettuple := amgettuple 100.
End scan.

(** ** Vector arrays hold what was stored *)

Lemma mem_read_ok blob off n : 0 <= off -> off + n <= zlen blob -> mem_read blob off n = Ok (slice blob off (off + n)).
Proof.
  intros Ho Hn. unfold mem_read. destruct (Z.ltb_spec off 0); [lia|]. destruct (Z.ltb_spec (zlen blob) (off + n)); [lia|done].
Qed.

(** The floats of a value, and of an item of an array. *)
Definition payload (d : Z) (v : list Z) : list Z := slice v 8 (8 + 4 * d).
Definition item_floats (a : VectorArrayData) (i : Z) : list Z :=
  slice (va_items a) (VectorArrayGet a i + 8) (VectorArrayGet a i + 8 + 4 * va_dim a).

(** An array of [n] items of dimension [d]. *)
Record va_ok (n d : Z) (a : VectorArrayData) : Prop := {
  ok_maxlen : va_maxlen a = n;
  ok_dim : va_dim a = d;
  ok_itemsize : va_itemsize a = MAXALIGN (VECTOR_SIZE d);
  ok_items : zlen (va_items a) = n * va_itemsize a }.

Lemma itemsize_ge d : VECTOR_SIZE d <= MAXALIGN (VECTOR_SIZE d).
Proof. pose proof (MAXALIGN_le (VECTOR_SIZE d)). lia. Qed.

Lemma VectorArrayInit_ok n d : 0 <= n -> 0 <= d -> va_ok n d (VectorArrayInit n d (VECTOR_SIZE d)).
Proof.
  intros Hn Hd. split; try done. unfold VectorArrayInit, zlen. cbn [va_items va_itemsize]. rewrite length_replicate.
  pose proof (itemsize_ge d). unfold VECTOR_SIZE in *. nia.
Qed.

(** Distinct items lie apart. *)
Lemma items_apart w i j : 0 <= w -> i <> j -> j * w + w <= i * w \/ i * w + w <= j * w.
Proof. intros Hw Hne. destruct (Z.lt_total i j) as [|[|]]; [right|done|left]; nia. Qed.

Lemma VectorArraySet_ok n d a off v :
  va_ok n d a -> 0 <= d -> 0 <= off < n -> zlen v = VECTOR_SIZE d ->
  exists a', VectorArraySet a off v = Ok a' /\ va_ok n d a' /\ va_length a' = va_length a /\
    item_floats a' off = payload d v /\ forall j, 0 <= j -> j <> off -> item_floats a' j = item_floats a j.
Proof.
  intros [Hm Hd Hi Hl] Hd0 Hoff Hv. pose proof (itemsize_ge d) as Hw.
  unfold VectorArraySet, VectorArrayGet. set (w := va_itemsize a) in *. rewrite <-Hi in Hw. unfold VECTOR_SIZE in *.
  destruct (mem_write_ok (va_items a) (off * w) v) as (items & Hit); [nia|rewrite Hl, Hv; nia|]. rewrite Hit. cbn.
  apply mem_write_spec in Hit as (_ & _ & Hz & Hself & Hrest). eexists. split; [done|].
  split; [split; cbn; try done; by rewrite Hz|]. split; [done|]. unfold item_floats, VectorArrayGet, payload. cbn.
  rewrite Hd. fold w. split.
  - rewrite <-Hself at 1. rewrite Hv. 
    rewrite <-(slice_slice items (off * w) (off * w + (8 + 4 * d)) (off * w + 8) (off * w + 8 + 4 * d)) by nia.
    f_equal; lia.
  - intros j Hj Hne. apply Hrest; [nia|]. rewrite Hv. destruct (items_apart w off j) as [|]; [lia|lia|left; lia|right; lia].
Qed.

(** The buffer of a batch is its vectors, one after the other. *)
Lemma flatten_vectors_ok n d a :
  va_ok n d a -> 0 <= d -> 0 <= va_length a <= n ->
  exists buf, flatten_vectors a = Ok buf /\ dataset_rows (va_length a) d buf = item_floats a <$> seqZ 0 (va_length a).
Proof.
  intros [Hm Hd Hi Hl] Hd0 Hlen. pose proof (itemsize_ge d) as Hw. rewrite <-Hi in Hw. unfold VECTOR_SIZE in Hw.
  destruct (foldl_res_ind (fun (done : list Z) buf => zlen buf = va_length a * d * 4 /\
      forall i, i ∈ done -> slice buf (i * (4 * d)) (i * (4 * d) + 4 * d) = item_floats a i)
    (fun buf i => x ← mem_read (va_items a) (VectorArrayGet a i + 8) (4 * va_dim a); mem_write buf (i * va_dim a * 4) x)
    (seqZ 0 (va_length a)) (replicate (Z.to_nat (va_length a * va_dim a * 4)) 0)) as (buf & Hf & _ & Hrows).
  - split; [unfold zlen; rewrite length_replicate, Hd; nia|]. intros i Hin. by apply elem_of_nil in Hin.
  - intros done i buf [Hz Hin] (rest & Hpre).
    assert (Hir : 0 <= i < va_length a).
    { assert (Hs : i ∈ seqZ 0 (va_length a)) by (rewrite Hpre; set_solver). apply elem_of_seqZ in Hs. lia. }
    assert (Hnd : i ∉ done).
    { pose proof (NoDup_seqZ 0 (va_length a)) as Hn. rewrite Hpre in Hn. apply NoDup_app in Hn as (Hn & _ & _).
      apply NoDup_app in Hn as (_ & Hn & _). set_solver. }
    unfold VectorArrayGet. rewrite Hd. rewrite mem_read_ok by (try rewrite Hl; nia). cbn.
    set (x := slice _ _ _). assert (Hx : zlen x = 4 * d).
    { unfold x, slice, zlen. rewrite length_take, length_drop. unfold zlen in Hl. nia. }
    destruct (mem_write_ok buf (i * d * 4) x) as (buf' & Hb); [nia|rewrite Hx, Hz; nia|]. exists buf'. split; [done|].
    apply mem_write_spec in Hb as (_ & _ & Hz' & Hself & Hrest). split; [by rewrite Hz'|].
    intros j [Hj|Hj%list_elem_of_singleton]%elem_of_app; [|subst j].
    + rewrite <-(Hin j Hj). assert (Hjr : 0 <= j).
      { assert (Hs : j ∈ seqZ 0 (va_length a)) by (rewrite Hpre; set_solver). apply elem_of_seqZ in Hs. lia. }
      apply Hrest; [nia|]. rewrite Hx. destruct (items_apart (4 * d) i j) as [|]; [lia|set_solver|left; lia|right; lia].
    + rewrite Hx in Hself. replace (i * (4 * d)) with (i * d * 4) by lia. rewrite Hself. unfold x, item_floats, VectorArrayGet. by rewrite Hd.
  - unfold flatten_vectors. rewrite Hf. exists buf. split; [done|]. unfold dataset_rows. apply list_fmap_ext.
    intros k i Hk. apply Hrows. by eapply list_elem_of_lookup_2.
Qed.

(** ** The row table of a build *)

(** The array has doubled nine times by then, and may not again. *)
Definition max_build_rows : Z := 102400000.

Section tids.
Context {I : Type}.
Implicit Types (s : BuildState I) (ts : list Z).

Record tids_ok ts s : Prop := {
  tids_used : take (length ts) (bs_tids s) = ts;
  tids_num : num_tids s = zlen ts;
  tids_cap : exists k, 0 <= k <= 9 /\ cap_tids s = DEFAULT_TIDS_SIZE * 2 ^ k;
  tids_alloc : zlen (bs_tids s) = cap_tids s;
  tids_fit : zlen ts <= cap_tids s }.

Lemma cap_bounds s : (exists k, 0 <= k <= 9 /\ cap_tids s = DEFAULT_TIDS_SIZE * 2 ^ k) -> 200000 <= cap_tids s <= max_build_rows.
Proof.
  intros (k & Hk & ->). unfold DEFAULT_TIDS_SIZE, max_build_rows.
  pose proof (Z.pow_le_mono_r 2 0 k). pose proof (Z.pow_le_mono_r 2 k 9). lia.
Qed.

(** A write behind the used part extends it. *)
Lemma take_extend (l ts : list Z) x :
  take (length ts) l = ts -> zlen ts < zlen l ->
  exists l', arr_set l (zlen ts) x = Ok l' /\ zlen l' = zlen l /\ take (length (ts ++ [x])) l' = ts ++ [x].
Proof.
  intros Ht Hlt. destruct (zlookup_lt_is_Some l (zlen ts)) as (y & Hy); [pose proof (zlen_nonneg ts); lia|].
  exists (<[zlen ts := x]> l). split; [by eapply arr_set_Some|]. split; [by rewrite zlen_insert|].
  pose proof (zlookup_insert_eq l (zlen ts) x y Hy) as He. unfold zlen in He at 1. unfold zlen in He. rewrite zlookup_nat in He.
  rewrite length_app, Nat.add_1_r. rewrite (take_S_r _ _ x) by exact He. f_equal.
  unfold zlen, insert, zlist_insert. rewrite decide_True by lia. rewrite Nat2Z.id. rewrite take_insert_ge by lia. done.
Qed.

Lemma AppendTid_ok ts s tid :
  tids_ok ts s -> zlen ts < max_build_rows ->
  exists s', AppendTid s tid = Ok s' /\ tids_ok (ts ++ [tid]) s' /\ bs_vectors s' = bs_vectors s /\ bs_index s' = bs_index s.
Proof.
  intros [Hu Hn Hc Ha Hf] Hlt. pose proof (cap_bounds s Hc) as Hb. unfold max_build_rows in *. unfold AppendTid. rewrite Hn.
  pose proof (zlen_nonneg ts) as Hz.
  assert (Hi : i32 (zlen ts + 1) = zlen (ts ++ [tid])) by (rewrite zlen_app; unfold zlen at 3; cbn; apply i32_small; lia).
  destruct (Z.leb_spec (cap_tids s) (zlen ts)) as [Hge|Hltc].
  - destruct Hc as (k & Hk & Hc). assert (Hk9 : k < 9).
    { destruct (decide (k = 9)) as [->|]; [|lia]. unfold DEFAULT_TIDS_SIZE in Hc. lia. }
    assert (Hp : 2 ^ (k + 1) = 2 * 2 ^ k) by (rewrite Z.pow_add_r by lia; lia).
    assert (Hcap : cap_tids s * 2 <= 102400000).
    { rewrite Hc. unfold DEFAULT_TIDS_SIZE. pose proof (Z.pow_le_mono_r 2 (k + 1) 9). lia. }
    rewrite (i32_small (cap_tids s * 2)) by lia. unfold u64. rewrite Z.mod_small by lia.
    destruct (Z.ltb_spec MaxAllocSize (8 * (cap_tids s * 2))) as [Hm|_]; [unfold MaxAllocSize in Hm; lia|]. cbn -[replicate]. rewrite Hn.
    destruct (take_extend (bs_tids s ++ replicate (Z.to_nat (cap_tids s * 2 - cap_tids s)) 0) ts tid) as (l' & -> & Hl' & Ht').
    { rewrite take_app_le; [done|]. unfold zlen in *. lia. }
    { rewrite zlen_app. unfold zlen at 3. rewrite length_replicate. lia. }
    cbn. eexists. split; [done|]. split; [|done]. split; cbn; [done|done| | |].
    + exists (k + 1). split; [lia|]. rewrite Hp, Hc. lia.
    + rewrite Hl', zlen_app. unfold zlen at 2. rewrite length_replicate. lia.
    + rewrite zlen_app. unfold zlen at 2. cbn. lia.
  - cbn. rewrite Hn. destruct (take_extend (bs_tids s) ts tid) as (l' & -> & Hl' & Ht'); [done|lia|].
    cbn. eexists. split; [done|]. split; [|done]. split; cbn; [done|done|done|by rewrite Hl'|].
    rewrite zlen_app. unfold zlen at 2. cbn. lia.
Qed.

Lemma AppendTid_full ts s tid : tids_ok ts s -> zlen ts = max_build_rows -> AppendTid s tid = Error ElogError.
Proof.
  intros [Hu Hn Hc Ha Hf] Hfull. pose proof (cap_bounds s Hc) as Hb. unfold max_build_rows in *.
  assert (Hcap : cap_tids s = 102400000) by lia. unfold AppendTid. rewrite Hn, Hcap, Hfull. done.
Qed.
End tids.

(** ** A build keeps tuple ids and vectors in step *)

Section build_ok.
Context {I : Type} (kw_rows : I -> list (list Z)) (unbuilt : Z) `{KnowhereLaws I kw_rows unbuilt}.
Context {B : Type} `{BlockId B} {Datum : Type} (form : Datum -> res (option (list Z))).
Context (d : Z) (Hd : 0 < d).
Implicit Types (s : BuildState I) (rows : list (heap_row B Datum)) (ts : list (Z * list Z)).

Lemma IndexCreate_ok n index a :
  va_ok n d a -> 0 <= va_length a <= n ->
  exists index', IndexCreate unbuilt index a = Ok index' /\ kw_rows index' = kw_rows index ++ (item_floats a <$> seqZ 0 (va_length a)).
Proof.
  intros Ha Hl. destruct (flatten_vectors_ok n d a) as (buf & Hb & Hrows); [done|lia|done|].
  unfold IndexCreate. rewrite Hb. cbn. rewrite (ok_dim _ _ _ Ha).
  destruct (Z.eqb_spec (kw_Count index) unbuilt) as [He|Hne]; eexists; (split; [done|]).
  - rewrite (build_rows (kw_rows := kw_rows)), (unbuilt_rows (kw_rows := kw_rows)) by done. exact Hrows.
  - rewrite (add_rows (kw_rows := kw_rows)) by done. by rewrite Hrows.
Qed.

(** What the table asks the index to hold: tuple id and value of each row
    that is not null and whose value is accepted. *)
Definition row_entry (r : heap_row B Datum) : option (Z * list Z) :=
  d ← r.2; match form d with Ok (Some v) => Some (ItemPointerToInt64 r.1, v) | _ => None end.
Definition row_entries rows : list (Z * list Z) := omap row_entry rows.

(** Values are formed without error and have the column's dimension. *)
Definition well_formed rows : Prop :=
  forall tid dt, (tid, Some dt) ∈ rows -> exists o, form dt = Ok o /\ forall v, o = Some v -> zlen v = VECTOR_SIZE d.

Record build_inv ts s : Prop := {
  inv_va : va_ok INDEX_BUILD_BATCH d (bs_vectors s);
  inv_len : 0 <= va_length (bs_vectors s) < INDEX_BUILD_BATCH;
  inv_rows : kw_rows (bs_index s) ++ (item_floats (bs_vectors s) <$> seqZ 0 (va_length (bs_vectors s))) =
             (fun e => payload d e.2) <$> ts;
  inv_tids : tids_ok (fst <$> ts) s }.

Lemma flush_batch_ok ts s :
  va_ok INDEX_BUILD_BATCH d (bs_vectors s) -> 0 <= va_length (bs_vectors s) <= INDEX_BUILD_BATCH ->
  kw_rows (bs_index s) ++ (item_floats (bs_vectors s) <$> seqZ 0 (va_length (bs_vectors s))) = (fun e => payload d e.2) <$> ts ->
  tids_ok (fst <$> ts) s ->
  exists s', flush_batch unbuilt s = Ok s' /\ build_inv ts s' /\ kw_rows (bs_index s') = (fun e => payload d e.2) <$> ts.
Proof.
  intros Hva Hlen Hrows Ht. destruct (IndexCreate_ok INDEX_BUILD_BATCH (bs_index s) (bs_vectors s)) as (ix & Hix & Hr); [done|done|].
  unfold flush_batch. rewrite Hix. cbn. eexists. split; [done|]. cbn. rewrite Hr. split; [|done].
  split; cbn; [|unfold INDEX_BUILD_BATCH; lia|by rewrite Hr, Hrows, app_nil_r|].
  - destruct Hva. by split.
  - destruct Ht. by split.
Qed.

Lemma AddVector_ok ts s tid dt v :
  build_inv ts s -> form dt = Ok (Some v) -> zlen v = VECTOR_SIZE d ->
  if decide (zlen ts < max_build_rows)
  then exists s', AddVector form unbuilt s tid dt = Ok s' /\ build_inv (ts ++ [(ItemPointerToInt64 tid, v)]) s'
  else zlen ts = max_build_rows -> AddVector form unbuilt s tid dt = Error ElogError.
Proof.
  intros [Hva Hlen Hrows Ht] Hf Hv. unfold AddVector. rewrite Hf. cbn.
  assert (Hlt : va_length (bs_vectors s) <? va_maxlen (bs_vectors s) = true) by (rewrite (ok_maxlen _ _ _ Hva); apply Z.ltb_lt; lia).
  rewrite Hlt. destruct (VectorArraySet_ok INDEX_BUILD_BATCH d (bs_vectors s) (va_length (bs_vectors s)) v) as (a & Ha & Hva' & Hla & Hself & Hrest);
    [done|lia|lia|done|]. rewrite Ha. cbn.
  assert (Hz : zlen (fst <$> ts) = zlen ts) by apply zlen_fmap.
  case_decide as Hmax.
  - match goal with |- context [AppendTid ?s1 ?t] => destruct (AppendTid_ok (fst <$> ts) s1 t) as (s2 & -> & Ht2 & Hv2 & Hi2) end.
    { destruct Ht. by split. } { lia. }
    cbn. rewrite Hv2. cbn. rewrite Hla, (ok_maxlen _ _ _ Hva').
    assert (Hrows' : kw_rows (bs_index s2) ++ (item_floats a <$> seqZ 0 (va_length (bs_vectors s) + 1)) =
                     (fun e => payload d e.2) <$> ts ++ [(ItemPointerToInt64 tid, v)]).
    { rewrite Hi2. cbn. rewrite seqZ_app by lia. rewrite fmap_app, app_assoc, fmap_app, <-Hrows. f_equal; [f_equal|].
      - apply list_fmap_ext. intros k i Hk. apply list_elem_of_lookup_2, elem_of_seqZ in Hk. apply Hrest; lia.
      - change (item_floats a <$> _) with [item_floats a (va_length (bs_vectors s))]. by rewrite Hself. }
    assert (Hva2 : va_ok INDEX_BUILD_BATCH d (mkVectorArray (va_length a + 1) (va_maxlen a) (va_dim a) (va_itemsize a) (va_items a))).
    { destruct Hva'. by split. }
    assert (Ht' : tids_ok (fst <$> ts ++ [(ItemPointerToInt64 tid, v)]) s2) by (by rewrite fmap_app).
    destruct (Z.eqb_spec (va_length (bs_vectors s) + 1) INDEX_BUILD_BATCH) as [Hfull|Hroom].
    + edestruct (flush_batch_ok (ts ++ [(ItemPointerToInt64 tid, v)])) as (s3 & Hs3 & Hi3 & _);
        [..|exists s3; split; [exact Hs3|exact Hi3]]; cbn; rewrite ?Hv2; cbn;
          [exact Hva2|rewrite Hla; lia|rewrite Hla; exact Hrows'|destruct Ht'; by split].
    + eexists. split; [done|]. split; cbn; rewrite ?Hv2; cbn;
        [exact Hva2|rewrite Hla; lia|rewrite Hla; exact Hrows'|destruct Ht'; by split].
  - intros He. match goal with |- context [AppendTid ?s1 ?t] => rewrite (AppendTid_full (fst <$> ts) s1 t) end; [done| |lia].
    destruct Ht. by split.
Qed.

Lemma row_entries_cons r rows : row_entries (r :: rows) = match row_entry r with Some e => e :: row_entries rows | None => row_entries rows end.
Proof. done. Qed.

(** The scan ends after the last row, or at the first row past the limit. *)
Lemma build_scan_ok rows ts s :
  well_formed rows -> build_inv ts s -> zlen ts <= max_build_rows ->
  if decide (zlen (ts ++ row_entries rows) <= max_build_rows)
  then exists s', foldl_res (BuildCallback form unbuilt) s rows = Ok s' /\ build_inv (ts ++ row_entries rows) s'
  else foldl_res (BuildCallback form unbuilt) s rows = Error ElogError.
Proof.
  revert ts s. induction rows as [|[tid [dt|]] rows IH]; intros ts s Hwf Hinv Hts.
  - cbn. rewrite app_nil_r. rewrite decide_True by done. eauto.
  - assert (Hwf' : well_formed rows) by (intros t x Hx; apply (Hwf t x); by right).
    destruct (Hwf tid dt) as (o & Hf & Ho); [by left|]. cbn [foldl_res]. unfold BuildCallback at 1 3. rewrite row_entries_cons. cbn [snd fst].
    assert (Hentry : row_entry (tid, Some dt) = (fun v => (ItemPointerToInt64 tid, v)) <$> o).
    { unfold row_entry. cbn. rewrite Hf. by destruct o. }
    rewrite Hentry. destruct o as [v|]; cbn.
    + pose proof (AddVector_ok ts s tid dt v Hinv Hf (Ho v eq_refl)) as Hadd. case_decide as Hroom.
      * destruct Hadd as (s' & -> & Hinv'). cbn.
        specialize (IH _ _ Hwf' Hinv'). rewrite zlen_app in IH. change (zlen [_]) with 1 in IH. rewrite <-app_assoc in IH. cbn in IH. apply IH. lia.
      * rewrite Hadd by lia. cbn. rewrite decide_False; [done|]. rewrite zlen_app, zlen_cons. pose proof (zlen_nonneg (row_entries rows)). lia.
    + unfold AddVector. rewrite Hf. cbn. by apply IH.
  - assert (Hwf' : well_formed rows) by (intros t x Hx; apply (Hwf t x); by right).
    cbn [foldl_res]. unfold BuildCallback at 1 3. rewrite row_entries_cons. cbn. by apply IH.
Qed.

Lemma InitBuildState_ok index : kw_rows index = [] -> build_inv [] (InitBuildState d index).
Proof.
  intros Hi. split; cbn -[replicate VectorArrayInit INDEX_BUILD_BATCH].
  - apply VectorArrayInit_ok; unfold INDEX_BUILD_BATCH; lia.
  - unfold INDEX_BUILD_BATCH. cbn. lia.
  - by rewrite Hi.
  - split; cbn -[replicate]; [done|done| | |unfold zlen, DEFAULT_TIDS_SIZE; cbn; lia].
    + exists 0. split; [lia|]. unfold DEFAULT_TIDS_SIZE. lia.
    + unfold zlen. rewrite length_replicate. unfold DEFAULT_TIDS_SIZE. lia.
Qed.

Lemma itemsize_init_ok ts s : build_inv ts s -> va_itemsize (bs_vectors s) = MAXALIGN (VECTOR_SIZE d).
Proof. intros [Hva _ _ _]. apply (ok_itemsize _ _ _ Hva). Qed.

(** The build holds exactly the entries of the table, or stops. *)
Lemma ScanAllRows_ok rows index :
  well_formed rows -> kw_rows index = [] ->
  let ts := row_entries rows in
  if decide (zlen ts <= max_build_rows)
  then exists s, ScanAllRows form unbuilt (Some rows) (InitBuildState d index) = Ok s /\
         kw_rows (bs_index s) = (fun e => payload d e.2) <$> ts /\
         take (length ts) (bs_tids s) = fst <$> ts /\ num_tids s = zlen ts /\
         va_itemsize (bs_vectors s) = MAXALIGN (VECTOR_SIZE d)
  else ScanAllRows form unbuilt (Some rows) (InitBuildState d index) = Error ElogError.
Proof.
  intros Hwf Hi ts. unfold ScanAllRows. cbn [of_option mbind res_bind].
  pose proof (build_scan_ok rows [] (InitBuildState d index) Hwf (InitBuildState_ok index Hi)) as Hscan.
  cbn [app] in Hscan. fold ts in Hscan. specialize (Hscan ltac:(done)). case_decide as Hmax; [|by rewrite Hscan].
  destruct Hscan as (s & -> & Hinv). cbn [mbind res_bind]. pose proof Hinv as [Hva Hlen Hrows [Hu Hn _ _ _]].
  rewrite length_fmap in Hu. rewrite zlen_fmap in Hn.
  destruct (Z.ltb_spec 0 (va_length (bs_vectors s))) as [Hpos|Hzero].
  - destruct (flush_batch_ok ts s) as (s' & Hs' & Hinv' & Hrows'); [done|lia|done|by destruct Hinv|].
    exists s'. split; [exact Hs'|]. pose proof Hinv' as [_ _ _ [Hu' Hn' _ _ _]]. rewrite length_fmap in Hu'. rewrite zlen_fmap in Hn'.
    split; [done|]. split; [done|]. split; [done|]. by eapply itemsize_init_ok.
  - exists s. split; [done|]. rewrite seqZ_nil in Hrows by lia. rewrite app_nil_r in Hrows.
    split; [done|]. split; [done|]. split; [done|]. by eapply itemsize_init_ok.
Qed.
End build_ok.

(** ** Samples *)

Section sample_ok.
Context {B : Type} `{BlockId B} {Datum : Type} (detoast : Datum -> list Z) (kmeans : Support).
Context {R : Type} (next_S : R -> Z -> Z -> Z * R) (random_k : R -> Z -> Z * R) (n d : Z) (Hn : 0 < n) (Hd : 0 <= d).
(** The generator's documented range. *)
Context (Hrandom : forall r, 0 <= (random_k r n).1 < n).
Implicit Types (s : SampleState (R := R)) (ts : list (Z * list Z)) (rows : list (heap_row B Datum)).

Abbreviation kform := (IvfflatFormValue detoast kmeans).

Record sample_inv ts s : Prop := {
  smp_va : va_ok n d (samples s);
  smp_len : va_length (samples s) = Z.min (zlen ts) n;
  smp_all : zlen ts <= n -> item_floats (samples s) <$> seqZ 0 (zlen ts) = (fun e => payload d e.2) <$> ts;
  smp_in : forall i, 0 <= i < va_length (samples s) -> item_floats (samples s) i ∈ ((fun e => payload d e.2) <$> ts) }.

(** What the callback stores: the value of the row's entry. *)
Lemma SampleCallback_entry s (r : heap_row B Datum) :
  match row_entry kform r with
  | Some (_, v) => exists dt, r.2 = Some dt /\ kform dt = Ok (Some v)
  | None => SampleCallback detoast next_S random_k kmeans s r = Ok s
  end.
Proof.
  destruct r as [tid [dt|]]; [|done]. unfold row_entry, SampleCallback, AddSample. cbn.
  destruct (NormIfNeeded kmeans (detoast dt)) as [v|] eqn:E; cbn; [|done].
  exists dt. split; [done|]. unfold IvfflatFormValue. by rewrite E.
Qed.

(** Storing into the array keeps the other samples. *)
Lemma store_sample ts (a : VectorArrayData) i v tid len :
  va_ok n d a -> zlen v = VECTOR_SIZE d -> 0 <= i < n -> i <= len -> 0 <= len ->
  (forall j, 0 <= j < len -> item_floats a j ∈ ((fun e => payload d e.2) <$> ts)) ->
  exists a', VectorArraySet a i v = Ok a' /\ va_ok n d a' /\ va_length a' = va_length a /\ item_floats a' i = payload d v /\
    (forall j, 0 <= j -> j <> i -> item_floats a' j = item_floats a j) /\
    forall j, 0 <= j < Z.max len (i + 1) -> item_floats a' j ∈ ((fun e => payload d e.2) <$> ts ++ [(tid, v)]).
Proof.
  intros Ha Hv Hi Hil Hlen Hin. destruct (VectorArraySet_ok n d a i v) as (a' & Hs & Hok & Hl & Hself & Hrest); [done..|].
  exists a'. split_and!; try done. intros j Hj. rewrite fmap_app, elem_of_app. destruct (decide (j = i)) as [->|Hne].
  - right. rewrite Hself. cbn. by left.
  - left. rewrite Hrest by lia. apply Hin. lia.
Qed.

Lemma SampleCallback_ok ts s (r : heap_row B Datum) tid v :
  sample_inv ts s -> row_entry kform r = Some (tid, v) -> zlen v = VECTOR_SIZE d ->
  exists s', SampleCallback detoast next_S random_k kmeans s r = Ok s' /\ sample_inv (ts ++ [(tid, v)]) s'.
Proof.
  intros [Hva Hlen Hall Hin] Hr Hv. pose proof (SampleCallback_entry s r) as He. rewrite Hr in He. destruct He as (dt & Hdt & Hf).
  pose proof (zlen_nonneg ts) as Hz. unfold SampleCallback. rewrite Hdt. unfold AddSample. rewrite Hf. cbn. rewrite (ok_maxlen _ _ _ Hva).
  assert (Hz1 : zlen (ts ++ [(tid, v)]) = zlen ts + 1) by (rewrite zlen_app; done).
  destruct (Z.ltb_spec (va_length (samples s)) n) as [Hlt|Hge].
  - destruct (store_sample ts (samples s) (va_length (samples s)) v tid (va_length (samples s))) as (a & Ha & Hok & Hl & Hself & Hrest & Hin');
      [done|done|lia|lia|lia|done|]. rewrite Ha. cbn. eexists. split; [done|]. cbn.
    split; cbn; rewrite ?Hl, ?Hz1; [destruct Hok; by split|lia| |].
    + intros Hle. rewrite seqZ_app by lia. rewrite fmap_app, fmap_app, <-Hall by lia. f_equal.
      * apply list_fmap_ext. intros k i Hk. apply list_elem_of_lookup_2, elem_of_seqZ in Hk. apply Hrest; lia.
      * change (item_floats _ <$> _) with [item_floats a (zlen ts)]. cbn. rewrite <-Hself. do 2 f_equal. lia.
    + intros i Hi. apply Hin'. lia.
  - set (s1 := if rowstoskip s <? 0 then _ else s). assert (Hs1 : samples s1 = samples s) by (unfold s1; by destruct (rowstoskip s <? 0)).
    destruct (rowstoskip s1 <=? 0).
    + rewrite Hs1. destruct (store_sample ts (samples s) (random_k (rstate s1) n).1 v tid (va_length (samples s))) as (a & Ha & Hok & Hl & _ & _ & Hin');
        [done|done|done|specialize (Hrandom (rstate s1)); lia|lia|done|]. rewrite Ha. cbn. eexists. split; [done|].
      split; cbn; rewrite ?Hl, ?Hz1; [done|lia|lia|]. intros i Hi. apply Hin'. lia.
    + cbn. eexists. split; [done|]. split; cbn; rewrite ?Hs1, ?Hz1; [done|lia|lia|].
      intros i Hi. rewrite fmap_app, elem_of_app. left. by apply Hin.
Qed.

Lemma foldl_res_concat {A St} (f : St -> A -> res St) (ls : list (list A)) (s : St) :
  foldl_res (fun (s : St) l => foldl_res f s l) s ls = foldl_res f s (concat ls).
Proof.
  revert s. induction ls as [|l ls IH]; intros s; [done|]. cbn. rewrite foldl_res_app. destruct (foldl_res f s l); cbn; [apply IH|done].
Qed.

Lemma SampleRows_ok (blocks : list (list (heap_row B Datum))) rs :
  (forall e, e ∈ row_entries kform (concat blocks) -> zlen e.2 = VECTOR_SIZE d) ->
  exists s, SampleRows detoast next_S random_k kmeans blocks rs (VectorArrayInit n d (VECTOR_SIZE d)) = Ok s /\
    sample_inv (row_entries kform (concat blocks)) s.
Proof.
  intros Hwf. unfold SampleRows. rewrite foldl_res_concat.
  apply (foldl_res_ind (fun done s => sample_inv (row_entries kform done) s)).
  - split; [apply VectorArrayInit_ok; lia|change (0 = Z.min 0 n); lia|done|]. cbn. intros i Hi. lia.
  - intros done r s Hinv (rest & Hpre). pose proof (SampleCallback_entry s r) as He.
    assert (Happ : row_entries kform (done ++ [r]) = row_entries kform done ++ match row_entry kform r with Some e => [e] | None => [] end).
    { unfold row_entries. rewrite omap_app. cbn. by destruct (row_entry kform r). }
    rewrite Happ. destruct (row_entry kform r) as [[tid v]|] eqn:Er.
    + apply SampleCallback_ok; [done|done|]. apply (Hwf (tid, v)). rewrite Hpre. unfold row_entries. rewrite omap_app.
      apply elem_of_app. left. fold (row_entries kform (done ++ [r])). rewrite Happ. apply elem_of_app. right. by left.
    + exists s. rewrite app_nil_r. by split.
Qed.
End sample_ok.

(** ** Scans return the search's tuples *)

Section scan_ok.
Context {D : Type} (le : D -> D -> Prop) `{!RelDecision le} (compute_distance : list Z -> list Z -> D).
Context (qsort : list (DistancePair D) -> list (DistancePair D)).
Context (knowhere_search : list Z -> list Z -> list Z -> Z -> Z -> Z -> res (option (list (DistancePair D)))).
Context (send : LSMSnapshot -> res unit) (get_result : res (list (DistancePair D))).
Context {B : Type} `{BlockId B}.
Context (top_k : Z) (support : Support) (orderByData : option (option (list Z))) (mvcc : bool).
Context (states : list (LSMIndexData * list MemtableBufferSlot)).

Abbreviation fetch n so := (fetch_tuples (B := B) le compute_distance qsort knowhere_search send get_result n top_k support orderByData mvcc states so).

Definition tuple_of (p : DistancePair D) : option (ItemPointerData B) := Some (Int64ToItemPointer (id p)).

(** The calls after the first walk through the results, then say there are none. *)
Lemma fetch_rest n pairs (i : nat) : (i <= length pairs)%nat ->
  exists so, fetch n (mkScanOpaque false pairs (Z.of_nat i)) =
    Ok (so, (tuple_of <$> take n (drop i pairs)) ++ replicate (n - length (drop i pairs)) None).
Proof.
  revert i. induction n as [|n IH]; intros i Hi; [by eexists|]. cbn [fetch_tuples]. unfold amgettuple. cbn -[fetch_tuples].
  destruct (Z.ltb_spec (Z.of_nat i) (zlen pairs)) as [Hlt|Hge]; unfold zlen in *.
  - destruct (lookup_lt_is_Some_2 pairs i) as (p & Hp); [lia|]. unfold arr_get. rewrite zlookup_nat, Hp. cbn -[fetch_tuples].
    destruct (IH (S i)) as (so & Hso); [lia|]. replace (Z.of_nat i + 1) with (Z.of_nat (S i)) by lia. rewrite Hso. cbn.
    exists so. rewrite (drop_S pairs p i Hp). done.
  - destruct (IH i) as (so & Hso); [done|]. cbn -[fetch_tuples]. rewrite Hso. cbn. exists so.
    assert (drop i pairs = []) as -> by (apply drop_ge; lia). rewrite !take_nil, !Nat.sub_0_r. done.
Qed.

Lemma fetch_first n v slots pairs so :
  first so = true -> orderByData = Some (Some v) -> mvcc = true ->
  search_rounds le compute_distance qsort knowhere_search send get_result states
    (drop 8 (default [] (GetScanValue support (Some v)))) top_k = Ok (slots, pairs) ->
  exists so', fetch (S n) so = Ok (so', (tuple_of <$> take (S n) pairs) ++ replicate (S n - length pairs) None).
Proof.
  intros Hf Ho Hm Hs. destruct (fetch_rest (S n) pairs 0) as (so' & Hso'); [lia|]. rewrite drop_0 in Hso'.
  exists so'. rewrite <-Hso'. cbn [fetch_tuples]. f_equal. unfold amgettuple. rewrite Hf, Ho, Hm. cbn in *. by rewrite Hs.
Qed.
End scan_ok.

(** ** Element sizes *)

(** The size of a float comes out only from ten dimensions on, and not at eleven. *)
Lemma elem_size_ok d : 0 < d <= 16000 ->
  u32 (MAXALIGN (VECTOR_SIZE d) / d) = (if decide (10 <= d /\ d <> 11) then 4 else u32 (MAXALIGN (VECTOR_SIZE d) / d)) /\
  (~ (10 <= d /\ d <> 11) -> 4 < u32 (MAXALIGN (VECTOR_SIZE d) / d) <= 16).
Proof.
  intros Hd. rewrite MAXALIGN_eq. unfold VECTOR_SIZE.
  assert (Hw : 8 * ((8 + 4 * d + 7) / 8) = 8 + 4 * d /\ d mod 2 = 0 \/ 8 * ((8 + 4 * d + 7) / 8) = 12 + 4 * d /\ d mod 2 = 1).
  { pose proof (Z.div_mod d 2). pose proof (Z.mod_pos_bound d 2). set (h := d / 2) in *.
    destruct (decide (d mod 2 = 0)) as [He|Ho].
    - left. split; [|done]. replace (8 + 4 * d + 7) with (7 + (1 + h) * 8) by lia. rewrite Z.div_add by lia. change (7 / 8) with 0. lia.
    - right. split; [|lia]. replace (8 + 4 * d + 7) with (3 + (2 + h) * 8) by lia. rewrite Z.div_add by lia. change (3 / 8) with 0. lia. }
  set (w := 8 * _) in *. assert (Hq : 0 <= w / d <= 16).
  { split; [apply Z.div_pos; lia|]. apply Z.div_le_upper_bound; lia. }
  rewrite u32_small by lia. split.
  - case_decide as Hc; [|done]. symmetry. apply Z.div_unique with (w - 4 * d); [|lia]. left.
    destruct Hw as [[-> _]|[-> Hodd]]; [lia|]. assert (d <> 10 /\ d <> 12) by (split; intros ->; done). lia.
  - intros Hc. split; [|lia]. assert (5 <= w / d) as ?; [|lia]. apply Z.div_le_lower_bound; [lia|].
    destruct Hw as [[-> He]|[-> Hodd]]; [|lia]. assert (d <> 9 /\ d <> 11) by (split; intros ->; done). lia.
Qed.

(** ** Properties *)

Section properties.
Context {I : Type} (kw_rows : I -> list (list Z)) `{Knowhere I}.
Context {B : Type} `{BlockId B} {Datum : Type} (detoast : Datum -> list Z).
Implicit Types rows : list (heap_row B Datum).

Lemma hnsw_build_ok `{!KnowhereLaws I kw_rows (-1)} support d maxDimensions m ef rows :
  0 < d <= maxDimensions -> 2 * m <= ef -> well_formed (HnswFormIndexValue detoast support) d rows ->
  let ts := row_entries (HnswFormIndexValue detoast support) rows in
  match hnswBuildIndex detoast support false d maxDimensions m ef (Some rows) with
  | Ok b => zlen ts <= max_build_rows /\ kw_rows (lb_index b) = (fun e => payload d e.2) <$> ts /\
            take (length ts) (lb_tids b) = fst <$> ts /\ lb_count b = zlen ts /\
            lb_dim b = u32 d /\ lb_elem_size b = u32 (MAXALIGN (VECTOR_SIZE d) / d)
  | Error e => e = ElogError /\ max_build_rows < zlen ts
  end.
Proof.
  intros Hd Hef Hwf ts. unfold hnswBuildIndex, hnsw_checks.
  destruct (Z.ltb_spec d 0); [lia|]. destruct (Z.ltb_spec maxDimensions d); [lia|]. destruct (Z.ltb_spec ef (2 * m)); [lia|].
  cbn [mbind res_bind]. pose proof (ScanAllRows_ok kw_rows (-1) _ d (proj1 Hd) rows kw_Create Hwf (create_rows (kw_rows := kw_rows))) as Hs.
  fold ts in Hs. cbv zeta in Hs. case_decide as Hmax; [|rewrite Hs; split; [done|lia]].
  destruct Hs as (s & -> & Hr & Ht & Hn & Hi). cbn. rewrite Hi. by split_and!.
Qed.

(** C30: Building an hnsw index keeps tuple ids and vectors in step.  For any
    table whose values have the column's dimension, the index ends up holding,
    batch after batch, exactly the vectors of the rows that are not null and
    can be normalised, in scan order, the tuple id array holds their encoded
    ids in the same order, and both counts agree; the build raises an error
    only for more than 102,400,000 such rows, where the id array cannot
    double again. *)
Theorem build_keeps_rows_in_step `{!KnowhereLaws I kw_rows (-1)} support d maxDimensions m ef rows :
  0 < d <= maxDimensions -> 2 * m <= ef -> well_formed (HnswFormIndexValue detoast support) d rows ->
  let ts := row_entries (HnswFormIndexValue detoast support) rows in
  match hnswBuildIndex detoast support false d maxDimensions m ef (Some rows) with
  | Ok b => zlen ts <= max_build_rows /\ kw_rows (lb_index b) = (fun e => payload d e.2) <$> ts /\
            take (length ts) (lb_tids b) = fst <$> ts /\ lb_count b = zlen ts
  | Error e => e = ElogError /\ max_build_rows < zlen ts
  end.
Proof.
  intros Hd Hef Hwf ts. pose proof (hnsw_build_ok support d maxDimensions m ef rows Hd Hef Hwf) as Hb. cbv zeta in Hb. fold ts in Hb.
  destruct (hnswBuildIndex _ _ _ _ _ _ _ _) as [b|e]; [|done]. by destruct Hb as (? & ? & ? & ? & _).
Qed.

(** The ivfflat build, whose index is trained first, holds the same rows. *)
Theorem ivf_build_keeps_rows_in_step `{!KnowhereLaws I kw_rows 0} {R} (next_S : R -> Z -> Z -> Z * R) random_k
    support kmeans d maxDimensions lists blocks rs rows :
  1 < d <= maxDimensions -> (forall r n, 0 < n -> 0 <= (random_k r n).1 < n) ->
  (forall e, e ∈ row_entries (IvfflatFormValue detoast kmeans) (concat blocks) -> zlen e.2 = VECTOR_SIZE d) ->
  well_formed (IvfflatFormValue detoast support) d rows ->
  let ts := row_entries (IvfflatFormValue detoast support) rows in
  match ivfflatBuildIndex detoast next_S random_k support kmeans false d maxDimensions lists (Some blocks) rs (Some rows) with
  | Ok b => zlen ts <= max_build_rows /\ kw_rows (lb_index b) = (fun e => payload d e.2) <$> ts /\
            take (length ts) (lb_tids b) = fst <$> ts /\ lb_count b = zlen ts
  | Error e => e = ElogError /\ max_build_rows < zlen ts
  end.
Proof.
  intros Hd Hrandom Hblocks Hwf ts. unfold ivfflatBuildIndex, ivf_checks.
  destruct (Z.ltb_spec d 0); [lia|]. destruct (Z.ltb_spec maxDimensions d); [lia|]. destruct (Z.eqb_spec d 1); [lia|].
  assert (Hk : (match norm_positive kmeans with Some _ => Ok tt | None => Ok tt end : res unit) = Ok tt) by (by destruct (norm_positive kmeans)).
  rewrite Hk. cbn [mbind res_bind]. unfold ComputeCenters.
  set (numSamples := Z.max (i32 (lists * 50)) 10000).
  destruct (SampleRows_ok detoast kmeans next_S random_k numSamples d) with blocks rs as (s & -> & [Hva Hlen _ _]); [lia|lia|intros; apply Hrandom; lia|done|].
  cbn [mbind res_bind]. unfold IvfflatTrain. destruct (flatten_vectors_ok numSamples d (samples s)) as (buf & -> & _); [done|lia| |].
  { pose proof (zlen_nonneg (row_entries (IvfflatFormValue detoast kmeans) (concat blocks))). lia. }
  cbn [mbind res_bind]. match goal with |- context [InitBuildState d ?i] =>
    pose proof (ScanAllRows_ok kw_rows 0 _ d ltac:(lia) rows i Hwf (train_rows (kw_rows := kw_rows) _ _ _)) as Hs end.
  fold ts in Hs. cbv zeta in Hs. case_decide as Hmax; [|rewrite Hs; split; [done|lia]].
  destruct Hs as (s' & -> & Hr & Ht & Hn & Hi). cbn. by split_and!.
Qed.

(** C40: An insert into a freshly built index hands the memtable exactly the
    vector's floats only from ten dimensions on, eleven excluded.  Otherwise
    the element size the build derived from the padded item size is more than
    four, and the copy reads past the end of the value. *)
Theorem narrow_vectors_overread `{!KnowhereLaws I kw_rows (-1)} support d maxDimensions m ef rows b mt (tid : ItemPointerData B) dt v :
  0 < d <= maxDimensions -> maxDimensions <= 16000 -> 2 * m <= ef -> well_formed (HnswFormIndexValue detoast support) d rows ->
  hnswBuildIndex detoast support false d maxDimensions m ef (Some rows) = Ok b ->
  dim mt = lb_dim b -> elem_size mt = lb_elem_size b ->
  HnswFormIndexValue detoast support dt = Ok (Some v) -> zlen v = VECTOR_SIZE d ->
  aminsert (HnswFormIndexValue detoast support) mt tid (Some dt) =
    if decide (10 <= d /\ d <> 11) then Ok (Some (ItemPointerToInt64 tid, payload d v)) else Error OutOfBounds.
Proof.
  intros Hd Hmax Hef Hwf Hb Hdim Helem Hf Hv. pose proof (hnsw_build_ok support d maxDimensions m ef rows Hd Hef Hwf) as Hok.
  cbv zeta in Hok. rewrite Hb in Hok. destruct Hok as (_ & _ & _ & _ & Hbd & Hbe). rewrite Hbd in Hdim. rewrite Hbe in Helem.
  rewrite u32_small in Hdim by lia. destruct (elem_size_ok d) as [H4 Hbig]; [lia|].
  unfold aminsert, InsertTuple. rewrite Hf. cbn [mbind res_bind].
  unfold VEC_BYTES_PER_ROW. rewrite Hdim, Helem. unfold u64, VECTOR_SIZE in *. case_decide as Hc.
  - rewrite H4. rewrite Z.mod_small by lia. rewrite mem_read_ok by lia. unfold payload. cbn. by replace (d * 4) with (4 * d) by lia.
  - specialize (Hbig Hc). rewrite Z.mod_small by nia. unfold mem_read.
    destruct (Z.ltb_spec (zlen v) (8 + d * u32 (MAXALIGN (8 + 4 * d) / d))) as [_|Hle]; [by rewrite orb_true_r|nia].
Qed.

(** The sample an ivfflat index is trained on: for any table and any
    generator in its range, it holds as many vectors as the table offers up to
    the target, each of them a vector of the table, and all of them in order
    while the table offers no more than the target. *)
Theorem sample_draws_from_table {R} (next_S : R -> Z -> Z -> Z * R) random_k kmeans n d blocks rs :
  0 < n -> 0 <= d -> (forall r, 0 <= (random_k r n).1 < n) ->
  let ts := row_entries (IvfflatFormValue detoast kmeans) (concat blocks) in
  (forall e, e ∈ ts -> zlen e.2 = VECTOR_SIZE d) ->
  exists s, SampleRows (B := B) detoast next_S random_k kmeans blocks rs (VectorArrayInit n d (VECTOR_SIZE d)) = Ok s /\
    va_length (samples s) = Z.min (zlen ts) n /\
    (forall i, 0 <= i < va_length (samples s) -> exists e, e ∈ ts /\ item_floats (samples s) i = payload d e.2) /\
    (zlen ts <= n -> item_floats (samples s) <$> seqZ 0 (zlen ts) = (fun e => payload d e.2) <$> ts).
Proof.
  intros Hn Hd Hrandom ts Hwf. destruct (SampleRows_ok detoast kmeans next_S random_k n d Hn Hd Hrandom blocks rs Hwf) as (s & Hs & [Hva Hlen Hall Hin]).
  exists s. split_and!; [done|done| |done]. intros i Hi. apply Hin in Hi. apply list_elem_of_fmap in Hi as (e & -> & He). eauto.
Qed.
End properties.

(** C31: After a (re)start, a scan returns exactly the search's tuples, in
    order: [n] calls return the first [n] of them, decoded to heap tuple ids,
    then nothing, and the index is searched once. *)
Theorem scan_returns_search_results {D : Type} (le : D -> D -> Prop) `{!RelDecision le} compute_distance qsort knowhere_search send get_result
    {B : Type} `{BlockId B} (candidates : Z) support v states slots (pairs : list (DistancePair D)) (so : ScanOpaque D) n :
  search_rounds le compute_distance qsort knowhere_search send get_result states
    (drop 8 (default [] (GetScanValue support (Some v)))) candidates = Ok (slots, pairs) ->
  exists so', fetch_tuples (B := B) le compute_distance qsort knowhere_search send get_result n candidates support (Some (Some v)) true states (rescan so) =
    Ok (so', ((fun p => Some (Int64ToItemPointer (id p))) <$> take n pairs) ++ replicate (n - length pairs) None).
Proof.
  intros Hs. destruct n as [|n]; [by eexists|]. by eapply fetch_first.
Qed.

(** ** Concrete runs *)
Module AccessRuns.

(** An index as the list of its rows, uncounted until it is built. *)
Definition held : Type := option (list (list Z)).
#[global] Instance held_ops : Knowhere held := {
  kw_Create := None;
  kw_Count i := match i with None => -1 | Some l => zlen l end;
  kw_Train i _ _ _ := i;
  kw_Build _ nb d buf := Some (dataset_rows nb d buf);
  kw_Add i nb d buf := Some (default [] i ++ dataset_rows nb d buf) }.
Definition held_rows (i : held) : list (list Z) := default [] i.
#[global] Instance held_laws : KnowhereLaws held held_rows (-1).
Proof.
  split; try done. intros [l|]; [|done]. cbn. pose proof (zlen_nonneg l). lia.
Qed.

(** The same library counting an empty index as 0. *)
Definition held0_ops : Knowhere (list (list Z)) := {|
  kw_Create := [];
  kw_Count := zlen;
  kw_Train i _ _ _ := i;
  kw_Build _ nb d buf := dataset_rows nb d buf;
  kw_Add i nb d buf := i ++ dataset_rows nb d buf |}.
Lemma held0_laws : KnowhereLaws (H := held0_ops) (list (list Z)) (fun i => i) 0.
Proof. split; try done. by intros [|]. Qed.

Definition same (v : list Z) : list Z := v.
Definition plain : Support := mkSupport None None same.
(** A vector of [d] floats whose bytes are all [x]. *)
Definition value (d : nat) (x : Z) : list Z := replicate 8 0 ++ replicate (4 * d) x.
Definition table (d : nat) : list (heap_row BlockIdData (list Z)) :=
  [(tid_example 0 1, Some (value d 1)); (tid_example 0 2, None); (tid_example 1 1, Some (value d 3))].

Lemma table_ok (d : nat) : well_formed (HnswFormIndexValue same plain) (Z.of_nat d) (table d).
Proof.
  intros tid dt Hin. eexists. split; [done|]. intros v [= <-]. unfold same, zlen, VECTOR_SIZE.
  assert (Hl : forall x, length (value d x) = (8 + 4 * d)%nat) by (intros x; unfold value; by rewrite length_app, !length_replicate).
  apply elem_of_cons in Hin as [[= _ ->]|[[=]|[[= _ ->]|Hn]%elem_of_cons]%elem_of_cons]; [rewrite Hl; lia..|by apply elem_of_nil in Hn].
Qed.

Definition mt8 : ConcurrentMemTableData := (Insert.st_mt SearchExample.late) <| dim := 3 |> <| elem_size := 8 |>.

Definition counting (r : Z) (n : Z) : Z * Z := (r mod n, r + 1).
End AccessRuns.

Lemma build_keeps_rows_in_step_witness :
  match hnswBuildIndex AccessRuns.same AccessRuns.plain false 10 2000 16 64 (Some (AccessRuns.table 10)) with
  | Ok b => lb_count b = 2 /\ AccessRuns.held_rows (lb_index b) = [replicate 40 1; replicate 40 3]
  | Error _ => False
  end.
Proof.
  pose proof (build_keeps_rows_in_step AccessRuns.held_rows AccessRuns.same AccessRuns.plain 10 2000 16 64 (AccessRuns.table 10)
    ltac:(lia) ltac:(lia) (AccessRuns.table_ok 10)) as Hb.
  destruct (hnswBuildIndex _ _ _ _ _ _ _ _) as [b|e].
  - destruct Hb as (_ & Hr & _ & Hn). rewrite Hr, Hn. split; vm_compute; reflexivity.
  - destruct Hb as [_ Hl]. vm_compute in Hl. congruence.
Defined.

Lemma narrow_vectors_overread_witness :
  exists b, hnswBuildIndex (I := AccessRuns.held) AccessRuns.same AccessRuns.plain false 3 2000 16 64 (Some (AccessRuns.table 3)) = Ok b /\
    aminsert (HnswFormIndexValue AccessRuns.same AccessRuns.plain) AccessRuns.mt8 (tid_example 5 6) (Some (AccessRuns.value 3 9)) = Error OutOfBounds.
Proof.
  pose proof (hnsw_build_ok AccessRuns.held_rows AccessRuns.same AccessRuns.plain 3 2000 16 64 (AccessRuns.table 3)
    ltac:(lia) ltac:(lia) (AccessRuns.table_ok 3)) as Hok. cbv zeta in Hok.
  destruct (hnswBuildIndex _ _ _ _ _ _ _ _) as [b|e] eqn:Hb; [|destruct Hok as [_ Hl]; vm_compute in Hl; congruence].
  destruct Hok as (_ & _ & _ & _ & Hd & He). exists b. split; [reflexivity|].
  rewrite (narrow_vectors_overread AccessRuns.held_rows AccessRuns.same AccessRuns.plain 3 2000 16 64 (AccessRuns.table 3) b AccessRuns.mt8
    (tid_example 5 6) (AccessRuns.value 3 9) (AccessRuns.value 3 9) ltac:(lia) ltac:(lia) ltac:(lia) (AccessRuns.table_ok 3) Hb
    (eq_sym Hd) (eq_sym He) eq_refl eq_refl). reflexivity.
Defined.

Lemma ivf_build_keeps_rows_in_step_witness :
  match ivfflatBuildIndex (H := AccessRuns.held0_ops) AccessRuns.same (fun r _ _ => (0, r)) AccessRuns.counting AccessRuns.plain AccessRuns.plain
      false 10 2000 100 (Some [AccessRuns.table 10]) 5 (Some (AccessRuns.table 10)) with
  | Ok b => lb_count b = 2 /\ lb_index b = [replicate 40 1; replicate 40 3]
  | Error _ => False
  end.
Proof.
  pose proof AccessRuns.held0_laws as Hlaws.
  epose proof (ivf_build_keeps_rows_in_step (H := AccessRuns.held0_ops) (fun i => i) AccessRuns.same (fun r _ _ => (0, r)) AccessRuns.counting
    AccessRuns.plain AccessRuns.plain 10 2000 100 [AccessRuns.table 10] 5 (AccessRuns.table 10) ltac:(lia) _ _ (AccessRuns.table_ok 10)) as Hb.
  destruct (ivfflatBuildIndex _ _ _ _ _ _ _ _ _ _ _ _) as [b|e].
  - destruct Hb as (_ & Hr & _ & Hn). rewrite Hr, Hn. split; vm_compute; reflexivity.
  - destruct Hb as [_ Hl]. vm_compute in Hl. congruence.
  Unshelve.
  + intros r n Hn. cbn. apply Z.mod_pos_bound. lia.
  + intros e He. vm_compute in He. repeat (apply elem_of_cons in He as [->|He]; [reflexivity|]). by apply elem_of_nil in He.
Defined.

Lemma sample_draws_from_table_witness :
  exists s, SampleRows AccessRuns.same (fun r _ _ => (0, r)) AccessRuns.counting AccessRuns.plain [AccessRuns.table 2; AccessRuns.table 2] 5
      (VectorArrayInit 3 2 (VECTOR_SIZE 2)) = Ok s /\ va_length (samples s) = 3.
Proof.
  edestruct (sample_draws_from_table (Datum := list Z) AccessRuns.same (fun r _ _ => (0, r)) AccessRuns.counting AccessRuns.plain 3 2
    [AccessRuns.table 2; AccessRuns.table 2] 5) as (s & Hs & Hl & _); [lia|lia| | |exists s; split; [exact Hs|rewrite Hl; vm_compute; reflexivity]].
  - intros r. cbn. apply Z.mod_pos_bound. lia.
  - intros e He. vm_compute in He. repeat (apply elem_of_cons in He as [->|He]; [reflexivity|]). by apply elem_of_nil in He.
Defined.

Lemma scan_returns_search_results_witness :
  exists so', fetch_tuples (B := BlockIdData) Z.le SearchExample.dist SearchExample.sort SearchExample.search (fun _ => Ok tt)
      (Ok SearchExample.segments) 4 2 AccessRuns.plain (Some (Some (replicate 8 0 ++ [6; 6]))) true
      [(SearchExample.lsm <| growing_memtable_idx := MT_IDX_ROTATING |>, SearchExample.slots2); (SearchExample.lsm, SearchExample.slots2)]
      (rescan (mkScanOpaque false [] 0)) =
    Ok (so', [Some (Int64ToItemPointer 12); Some (Int64ToItemPointer 22); None; None]).
Proof.
  edestruct (scan_returns_search_results Z.le SearchExample.dist SearchExample.sort SearchExample.search (fun _ => Ok tt)
    (Ok SearchExample.segments) (B := BlockIdData) 2 AccessRuns.plain (replicate 8 0 ++ [6; 6])
    [(SearchExample.lsm <| growing_memtable_idx := MT_IDX_ROTATING |>, SearchExample.slots2); (SearchExample.lsm, SearchExample.slots2)])
    as (so' & Hs); [vm_compute; reflexivity|]. exists so'. etransitivity; [exact Hs|]. reflexivity.
Defined.
