(* ===== verification/Half.v ===== *)
(** Half-precision numbers (halfutils.h): the conversions between [half] and
    [float], on their bit patterns, as compiled without hardware support
    ([half] is then a [uint16]).

    A bit pattern is a [Z] of its width.  The specification is the value a
    pattern stands for, as an integer: for halves in units of 2^-24, for floats
    in units of 2^-149. *)

From S2P Require Import Prelude.

Definition HalfIsNan (num : Z) : bool :=
  (Z.land num 0x7C00 =? 0x7C00) && negb (Z.land num 0x7FFF =? 0x7C00).
Definition HalfIsInf (num : Z) : bool := Z.land num 0x7FFF =? 0x7C00.
Definition HalfIsZero (num : Z) : bool := Z.land num 0x7FFF =? 0.

(** The loop that finds the leading one of a subnormal's mantissa, [n]
    iterations left. *)
Fixpoint normalize_loop (n : nat) (exponent mantissa : Z) : Z * Z :=
  match n with
  | O => (exponent, mantissa)
  | S n =>
      let mantissa := u32 (Z.shiftl mantissa 1) in
      let exponent := u32 (exponent - 1) in
      if Z.shiftr mantissa 10 mod 2 =? 1 then (exponent, Z.land mantissa 0x03ff)
      else normalize_loop n exponent mantissa
  end.

Definition HalfToFloat4 (bin : Z) : Z :=
  let exponent := Z.shiftr (Z.land bin 0x7C00) 10 in
  let mantissa := Z.land bin 0x03FF in
  let result := u32 (Z.shiftl (Z.land bin 0x8000) 16) in
  let '(result, mantissa) :=
    if exponent =? 31 then
      (Z.lor result (if mantissa =? 0 then 0x7F800000 else 0x7FC00000), mantissa)
    else if exponent =? 0 then
      if mantissa =? 0 then (result, mantissa)
      else let '(exponent, mantissa) := normalize_loop 10 (u32 (-14)) mantissa in
           (Z.lor result (u32 (Z.shiftl (u32 (exponent + 127)) 23)), mantissa)
    else (Z.lor result (u32 (Z.shiftl (u32 (exponent - 15 + 127)) 23)), mantissa) in
  Z.lor result (Z.shiftl mantissa 13).

(** [isinf] and [isnan] of a float. *)
Definition isinf (bin : Z) : bool := Z.land bin 0x7FFFFFFF =? 0x7F800000.
Definition isnan (bin : Z) : bool := 0x7F800000 <? Z.land bin 0x7FFFFFFF.

Definition Float4ToHalfUnchecked (bin : Z) : Z :=
  let exponent := Z.shiftr (Z.land bin 0x7F800000) 23 in
  let mantissa := Z.land bin 0x007FFFFF in
  let result := Z.shiftr (Z.land bin 0x80000000) 16 in
  if isinf bin then Z.lor result 0x7C00
  else if isnan bin then Z.lor (Z.lor result 0x7E00) (Z.shiftr mantissa 13)
  else if 98 <? exponent then
    let exponent := exponent - 127 in
    let s := Z.land mantissa 0x00000FFF in
    let '(mantissa, s) :=
      if exponent <? -14 then
        let diff := - exponent - 14 in
        let mantissa := Z.shiftr mantissa diff + Z.shiftl 1 (23 - diff) in
        (mantissa, Z.lor s (Z.land mantissa 0x00000FFF))
      else (mantissa, s) in
    let m := Z.shiftr mantissa 13 in
    let gr := Z.shiftr mantissa 12 mod 4 in
    let m := if (gr =? 3) || ((gr =? 1) && negb (s =? 0)) then m + 1 else m in
    let '(m, exponent) := if m =? 1024 then (0, exponent + 1) else (m, exponent) in
    if 15 <? exponent then Z.lor result 0x7C00
    else Z.lor (if -14 <=? exponent then Z.lor result (Z.shiftl (exponent + 15) 10) else result) m
  else result.

(** Out of range when a finite float becomes an infinite half. *)
Definition Float4ToHalf (bin : Z) : res Z :=
  let result := Float4ToHalfUnchecked bin in
  if HalfIsInf result && negb (isinf bin) then Error ElogError else Ok result.

(** ** Values *)

(** The magnitude of a half in units of 2^-24 (the pattern of infinity stands
    for 2^16, the next power of two) and of a float in units of 2^-149. *)
Definition half_value (c : Z) : Z := if c / 1024 =? 0 then c else (1024 + c mod 1024) * 2 ^ (c / 1024 - 1).
Definition float_value (u : Z) : Z := if u / 2 ^ 23 =? 0 then u else (2 ^ 23 + u mod 2 ^ 23) * 2 ^ (u / 2 ^ 23 - 1).

(** [c] is the half nearest to a magnitude [x] in units of 2^-149, the even one
    of two; beyond the largest half the next power of two counts as a half. *)
Definition nearest_even (x c : Z) : Prop :=
  0 <= c <= 0x7C00 /\
  (0 < c -> (half_value (c - 1) + half_value c) * 2 ^ 125 + c mod 2 <= 2 * x) /\
  (c < 0x7C00 -> 2 * x + c mod 2 <= (half_value c + half_value (c + 1)) * 2 ^ 125).

(** ** Bit patterns as numbers *)

Lemma lor_disjoint a b k : 0 <= k -> 0 <= b < 2 ^ k -> Z.lor (a * 2 ^ k) b = a * 2 ^ k + b.
Proof.
  intros Hk Hb. rewrite <-Z.add_lor_land. enough (Z.land (a * 2 ^ k) b = 0) as -> by lia.
  apply Z.bits_inj'. intros n Hn. rewrite Z.land_spec, Z.bits_0. destruct (Z.ltb_spec n k).
  - by rewrite Z.mul_pow2_bits_low.
  - assert (Z.testbit b n = false) as ->; [|apply andb_false_r]. destruct (decide (b = 0)) as [->|]; [apply Z.bits_0|].
    apply Z.bits_above_log2; [lia|]. apply Z.log2_lt_pow2; [lia|]. pose proof (Z.pow_le_mono_r 2 k n). lia.
Qed.

(** A field of [w] bits at position [k]. *)
Lemma field_at x k w : 0 <= k -> 0 <= w -> Z.shiftr (Z.land x (Z.shiftl (Z.ones w) k)) k = x / 2 ^ k mod 2 ^ w.
Proof.
  intros. rewrite Z.shiftr_land, Z.shiftr_shiftl_l by lia. rewrite Z.sub_diag, Z.shiftl_0_r, Z.land_ones by lia.
  by rewrite Z.shiftr_div_pow2 by lia.
Qed.

Lemma bit_at x k : 0 <= k -> Z.land x (2 ^ k) = Z.b2z (Z.testbit x k) * 2 ^ k.
Proof.
  intros Hk. apply Z.bits_inj'. intros n Hn. rewrite Z.land_spec, Z.pow2_bits_eqb by lia.
  destruct (Z.eqb_spec k n) as [->|Hne].
  - rewrite andb_true_r. destruct (Z.testbit x n); cbn [Z.b2z]; [|by rewrite Z.bits_0]. by rewrite Z.mul_1_l, Z.pow2_bits_true.
  - rewrite andb_false_r. destruct (Z.testbit x k); cbn [Z.b2z]; [|by rewrite Z.bits_0]. by rewrite Z.mul_1_l, Z.pow2_bits_false.
Qed.

(** ** Rounding *)

(** What the code makes of a mantissa [n] with 13 bits to drop, [s] the bits
    below the guard bit and below [n]. *)
Definition round13 (n s : Z) : Z :=
  let gr := Z.shiftr n 12 mod 4 in
  if (gr =? 3) || ((gr =? 1) && negb (s =? 0)) then Z.shiftr n 13 + 1 else Z.shiftr n 13.

(** The rounding is to nearest, ties to even, also when a factor [P] was
    dropped before, whose bits [s] knows below the twelfth. *)
Lemma round13_ok M P s : 0 < P -> 0 <= M < 4096 * 4096 -> (P <= 4096 \/ M < 4096 * P) ->
  (s = 0 <-> M mod 4096 = 0 /\ (M / P) mod 4096 = 0) ->
  let q := round13 (M / P) s in
  (2 * q - 1) * (4096 * P) + q mod 2 <= M /\ M + q mod 2 <= (2 * q + 1) * (4096 * P).
Proof.
  intros HP HM Hsmall Hs. unfold round13. rewrite !Z.shiftr_div_pow2 by lia. change (2 ^ 12) with 4096. change (2 ^ 13) with 8192.
  set (N := M / P) in *. assert (HN : M = N * P + M mod P) by (unfold N; pose proof (Z.div_mod M P); lia).
  pose proof (Z.mod_pos_bound M P HP) as Ht. set (t := M mod P) in *.
  set (a := N / 8192). set (g := N / 4096 mod 2). set (r := N mod 4096) in *.
  assert (HNeq : N = 8192 * a + 4096 * g + r) by (unfold a, g, r; Z.to_euclidean_division_equations; lia).
  assert (Hgr : N / 4096 mod 4 = 2 * (a mod 2) + g) by (unfold a, g; Z.to_euclidean_division_equations; lia).
  assert (Hg : g = 0 \/ g = 1) by (unfold g; Z.to_euclidean_division_equations; lia).
  assert (Hr : 0 <= r < 4096) by (apply Z.mod_pos_bound; lia). assert (HN0 : 0 <= N) by (apply Z.div_pos; lia).
  pose proof (Z.mod_pos_bound a 2) as Hpar. rewrite Hgr. set (rP := r * P). assert (HrP : 0 <= rP <= 4095 * P) by (unfold rP; nia).
  assert (HMeq : M = 8192 * (a * P) + 4096 * (g * P) + rP + t) by (unfold rP; nia). set (aP := a * P) in *.
  destruct Hg as [Hg|Hg]; rewrite Hg in *.
  - assert (E : (2 * (a mod 2) + 0 =? 3) || (2 * (a mod 2) + 0 =? 1) && negb (s =? 0) = false) by lia. rewrite E.
    replace ((2 * a - 1) * (4096 * P)) with (8192 * aP - 4096 * P) by (unfold aP; lia).
    replace ((2 * a + 1) * (4096 * P)) with (8192 * aP + 4096 * P) by (unfold aP; lia). lia.
  - destruct ((2 * (a mod 2) + 1 =? 3) || (2 * (a mod 2) + 1 =? 1) && negb (s =? 0)) eqn:E.
    + replace ((2 * (a + 1) - 1) * (4096 * P)) with (8192 * aP + 4096 * P) by (unfold aP; lia).
      replace ((2 * (a + 1) + 1) * (4096 * P)) with (8192 * aP + 12288 * P) by (unfold aP; lia).
      assert (Hodd : (a + 1) mod 2 = 1 - a mod 2) by (Z.to_euclidean_division_equations; lia). rewrite Hodd.
      destruct (decide (a mod 2 = 1)) as [Ha|Ha]; [lia|]. assert (Hs0 : s <> 0) by lia.
      enough (0 < rP + t) by lia. destruct (decide (r = 0)) as [Hr0|]; [|unfold rP; nia].
      enough (t <> 0) by lia. intros Ht0. apply Hs0, Hs. split; [|done]. unfold rP in HMeq. rewrite HMeq, Hr0, Ht0.
      replace (8192 * aP + 4096 * (1 * P) + 0 * P + 0) with ((2 * aP + P) * 4096) by lia. by rewrite Z.mod_mul.
    + assert (Ha : a mod 2 = 0) by lia. assert (Hs0 : s = 0) by lia. apply Hs in Hs0 as [HM0 Hr0].
      replace ((2 * a - 1) * (4096 * P)) with (8192 * aP - 4096 * P) by (unfold aP; lia).
      replace ((2 * a + 1) * (4096 * P)) with (8192 * aP + 4096 * P) by (unfold aP; lia).
      assert (HrP0 : rP = 0) by (unfold rP; rewrite Hr0; lia). assert (t = 0); [|lia].
      assert (Ha0 : 0 <= a) by (apply Z.div_pos; lia). assert (0 <= aP) by (unfold aP; nia).
      destruct Hsmall as [HP4|HMP]; [|lia].
      rewrite HMeq, HrP0 in HM0. replace (8192 * aP + 4096 * (1 * P) + 0 + t) with (t + (2 * aP + P) * 4096) in HM0 by lia.
      rewrite Z.mod_add in HM0 by lia. rewrite Z.mod_small in HM0 by lia. done.
Qed.

(** The code of the magnitude [u]'s half. *)
Definition half_code (u : Z) : Z :=
  let e := u / 2 ^ 23 in
  let mant := u mod 2 ^ 23 in
  let M := 2 ^ 23 + mant in
  if e <=? 98 then 0
  else if 142 <? e then 0x7C00
  else if e <? 113 then
    let N := M / 2 ^ (113 - e) in round13 N (Z.lor (Z.land mant 0xFFF) (Z.land N 0xFFF))
  else (e - 113) * 1024 + round13 M (Z.land mant 0xFFF).

Lemma round13_bounds n s : 0 <= n -> n / 8192 <= round13 n s <= n / 8192 + 1.
Proof. intros Hn. unfold round13. rewrite !Z.shiftr_div_pow2 by lia. change (2 ^ 13) with 8192. destruct (_ || _); lia. Qed.

Lemma round13_add n s k : round13 (8192 * (2 * k) + n) s = 2 * k + round13 n s.
Proof.
  unfold round13. rewrite !Z.shiftr_div_pow2 by lia. change (2 ^ 12) with 4096. change (2 ^ 13) with 8192.
  assert (E1 : ((8192 * (2 * k) + n) / 4096) mod 4 = (n / 4096) mod 4) by (Z.to_euclidean_division_equations; lia).
  assert (E2 : (8192 * (2 * k) + n) / 8192 = 2 * k + n / 8192) by (Z.to_euclidean_division_equations; lia).
  rewrite E1, E2. destruct (_ || _); lia.
Qed.

(** The pattern the last lines of the function put together. *)
Lemma assemble b E m : 0 <= b <= 1 -> -28 <= E -> 0 <= m <= 1024 -> (E < -15 -> m < 1024) ->
  (let '(m, exponent) := if m =? 1024 then (0, E + 1) else (m, E) in
   if 15 <? exponent then Z.lor (b * 2 ^ 15) 0x7C00
   else Z.lor (if -14 <=? exponent then Z.lor (b * 2 ^ 15) (Z.shiftl (exponent + 15) 10) else b * 2 ^ 15) m) =
  b * 2 ^ 15 + (if 15 <? E then 0x7C00 else if E <? -14 then m else (E + 15) * 1024 + m).
Proof.
  intros Hb HE Hm Hlow.
  assert (Hput : forall m' E', -28 <= E' -> 0 <= m' < 1024 ->
    (if 15 <? E' then Z.lor (b * 2 ^ 15) 0x7C00
     else Z.lor (if -14 <=? E' then Z.lor (b * 2 ^ 15) (Z.shiftl (E' + 15) 10) else b * 2 ^ 15) m') =
    b * 2 ^ 15 + (if 15 <? E' then 0x7C00 else if E' <? -14 then m' else (E' + 15) * 1024 + m')).
  { intros m' E' HE' Hm'. destruct (Z.ltb_spec 15 E') as [|H15]; [apply lor_disjoint; lia|].
    destruct (Z.leb_spec (-14) E') as [H14|H14]; destruct (Z.ltb_spec E' (-14)); try lia; [|apply lor_disjoint; lia].
    rewrite Z.shiftl_mul_pow2 by lia. rewrite (lor_disjoint b) by lia.
    replace (b * 2 ^ 15 + (E' + 15) * 2 ^ 10) with ((b * 32 + (E' + 15)) * 2 ^ 10) by lia. rewrite lor_disjoint by lia. lia. }
  destruct (Z.eqb_spec m 1024) as [->|Hne].
  - rewrite Hput by lia. destruct (Z.ltb_spec 15 (E + 1)), (Z.ltb_spec 15 E), (Z.ltb_spec (E + 1) (-14)), (Z.ltb_spec E (-14)); lia.
  - apply Hput; lia.
Qed.

(** The bits of a float's pattern. *)
Lemma float_fields b u : 0 <= b <= 1 -> 0 <= u < 2 ^ 31 ->
  let bin := b * 2 ^ 31 + u in
  Z.shiftr (Z.land bin 0x7F800000) 23 = u / 2 ^ 23 /\ Z.land bin 0x007FFFFF = u mod 2 ^ 23 /\
  Z.shiftr (Z.land bin 0x80000000) 16 = b * 2 ^ 15 /\ Z.land bin 0x7FFFFFFF = u.
Proof.
  intros Hb Hu bin. split_and!.
  - change 0x7F800000 with (Z.shiftl (Z.ones 8) 23). rewrite field_at by lia. unfold bin. Z.to_euclidean_division_equations; lia.
  - change 0x007FFFFF with (Z.ones 23). rewrite Z.land_ones by lia. unfold bin. Z.to_euclidean_division_equations; lia.
  - change 0x80000000 with (2 ^ 31). rewrite bit_at by lia. assert (Z.b2z (Z.testbit bin 31) = b) as ->; [|rewrite Z.shiftr_div_pow2 by lia; Z.to_euclidean_division_equations; lia].
    rewrite Z.testbit_spec' by lia. unfold bin. Z.to_euclidean_division_equations; lia.
  - change 0x7FFFFFFF with (Z.ones 31). rewrite Z.land_ones by lia. unfold bin. Z.to_euclidean_division_equations; lia.
Qed.

(** The conversion of a finite float, sign and magnitude. *)
Lemma Float4ToHalf_code b u : 0 <= b <= 1 -> 0 <= u < 0x7F800000 -> Float4ToHalfUnchecked (b * 2 ^ 31 + u) = b * 2 ^ 15 + half_code u.
Proof.
  intros Hb Hu. destruct (float_fields b u) as (He & Hm & Hs & Hmag); [lia|lia|].
  unfold Float4ToHalfUnchecked, isinf, isnan. rewrite He, Hm, Hs, Hmag.
  destruct (Z.eqb_spec u 0x7F800000) as [|_]; [lia|]. destruct (Z.ltb_spec 0x7F800000 u) as [|_]; [lia|].
  unfold half_code. set (e := u / 2 ^ 23). set (mant := u mod 2 ^ 23).
  assert (Hmant : 0 <= mant < 2 ^ 23) by (apply Z.mod_pos_bound; lia). assert (He0 : 0 <= e) by (apply Z.div_pos; lia).
  destruct (Z.ltb_spec 98 e) as [H98|H98]; destruct (Z.leb_spec e 98) as [H98'|H98']; try lia.
  destruct (Z.ltb_spec (e - 127) (-14)) as [Hsub|Hnorm]; cbv zeta; cbn beta iota.
  - replace (- (e - 127) - 14) with (113 - e) by lia. rewrite (Z.shiftr_div_pow2 mant (113 - e)), (Z.shiftl_mul_pow2 1), Z.mul_1_l by lia.
    assert (HN : mant / 2 ^ (113 - e) + 2 ^ (23 - (113 - e)) = (2 ^ 23 + mant) / 2 ^ (113 - e)).
    { replace (2 ^ 23) with (2 ^ (23 - (113 - e)) * 2 ^ (113 - e)) by (rewrite <-Z.pow_add_r by lia; f_equal; lia).
      rewrite Z.add_comm, Z.div_add_l by (pose proof (Z.pow_pos_nonneg 2 (113 - e)); lia). lia. }
    rewrite HN. set (N := (2 ^ 23 + mant) / 2 ^ (113 - e)).
    assert (HNb : 0 <= N < 2 ^ (24 - (113 - e))).
    { split; [apply Z.div_pos; [lia|apply Z.pow_pos_nonneg; lia]|]. apply Z.div_lt_upper_bound; [apply Z.pow_pos_nonneg; lia|].
      rewrite <-Z.pow_add_r by lia. replace (113 - e + (24 - (113 - e))) with 24 by lia. lia. }
    fold (round13 N (Z.lor (Z.land mant 4095) (Z.land N 4095))).
    set (q := round13 N _). pose proof (round13_bounds N (Z.lor (Z.land mant 4095) (Z.land N 4095))) as Hq. fold q in Hq.
    assert (Hpow : 2 ^ (24 - (113 - e)) <= 2 ^ 23) by (apply Z.pow_le_mono_r; lia).
    assert (Hq1 : 0 <= q <= 1024).
    { assert (0 <= N / 8192 <= 1023) by (split; [apply Z.div_pos; lia|apply Z.lt_succ_r, Z.div_lt_upper_bound; lia]). lia. }
    rewrite assemble; [|lia|lia|lia|].
    + destruct (Z.ltb_spec 15 (e - 127)), (Z.ltb_spec (e - 127) (-14)), (Z.ltb_spec 142 e), (Z.ltb_spec e 113); lia.
    + intros Hlow. assert (2 ^ (24 - (113 - e)) <= 2 ^ 22) by (apply Z.pow_le_mono_r; lia).
      assert (0 <= N / 8192 <= 511) by (split; [apply Z.div_pos; lia|apply Z.lt_succ_r, Z.div_lt_upper_bound; lia]). lia.
  - fold (round13 mant (Z.land mant 4095)). set (q := round13 mant _).
    assert (Hq1 : 0 <= q <= 1024).
    { pose proof (round13_bounds mant (Z.land mant 4095)) as Hq. fold q in Hq.
      assert (0 <= mant / 8192 <= 1023) by (split; [apply Z.div_pos; lia|apply Z.lt_succ_r, Z.div_lt_upper_bound; lia]). lia. }
    rewrite assemble by lia. rewrite (round13_add mant (Z.land mant 4095) 512 : round13 (2 ^ 23 + mant) _ = _). fold q.
    destruct (Z.ltb_spec 15 (e - 127)), (Z.ltb_spec (e - 127) (-14)), (Z.ltb_spec 142 e), (Z.ltb_spec e 113); lia.
Qed.

(** ** The conversion rounds to nearest *)

Lemma half_value_at E q : 0 <= E -> 1024 <= q <= 2048 -> half_value (E * 1024 + q) = q * 2 ^ E.
Proof.
  intros HE Hq. unfold half_value. destruct (decide (q = 2048)) as [->|].
  - replace ((E * 1024 + 2048) / 1024) with (E + 2) by (Z.to_euclidean_division_equations; lia).
    replace ((E * 1024 + 2048) mod 1024) with 0 by (Z.to_euclidean_division_equations; lia).
    destruct (Z.eqb_spec (E + 2) 0); [lia|]. replace (E + 2 - 1) with (E + 1) by lia. rewrite Z.pow_add_r by lia. lia.
  - replace ((E * 1024 + q) / 1024) with (E + 1) by (Z.to_euclidean_division_equations; lia).
    replace ((E * 1024 + q) mod 1024) with (q - 1024) by (Z.to_euclidean_division_equations; lia).
    destruct (Z.eqb_spec (E + 1) 0); [lia|]. replace (E + 1 - 1) with E by lia. lia.
Qed.

Lemma half_value_small q : 0 <= q <= 2048 -> half_value q = q.
Proof.
  intros Hq. destruct (decide (q < 1024)) as [Hlt|].
  - unfold half_value. by rewrite Z.div_small by lia.
  - rewrite <-(Z.add_0_l q) at 1. rewrite (half_value_at 0) by lia. lia.
Qed.

Lemma half_value_below E : 0 <= E -> half_value (E * 1024 + 1023) <= 1024 * 2 ^ E.
Proof.
  intros HE. destruct (decide (E = 0)) as [->|]; [rewrite half_value_small by lia; lia|].
  replace (E * 1024 + 1023) with ((E - 1) * 1024 + 2047) by lia. rewrite half_value_at by lia.
  replace (2 ^ E) with (2 * 2 ^ (E - 1)); [pose proof (Z.pow_pos_nonneg 2 (E - 1)); lia|].
  rewrite <-Z.pow_succ_r by lia. f_equal. lia.
Qed.

Lemma float_value_normal u : 0 < u / 2 ^ 23 -> float_value u = (2 ^ 23 + u mod 2 ^ 23) * 2 ^ (u / 2 ^ 23 - 1).
Proof. intros He. unfold float_value. destruct (Z.eqb_spec (u / 2 ^ 23) 0); [lia|done]. Qed.

Lemma land_low x : Z.land x 0xFFF = x mod 4096.
Proof. change 0xFFF with (Z.ones 12). by rewrite Z.land_ones. Qed.

(** The subnormal halves. *)
Lemma half_code_subnormal M e q : 2 ^ 23 <= M < 2 ^ 24 -> 99 <= e <= 112 ->
  q = round13 (M / 2 ^ (113 - e)) (Z.lor (Z.land (M - 2 ^ 23) 0xFFF) (Z.land (M / 2 ^ (113 - e)) 0xFFF)) ->
  nearest_even (M * 2 ^ (e - 1)) q.
Proof.
  intros HM He ->. set (P := 2 ^ (113 - e)). set (s := Z.lor _ _).
  assert (HP : 0 < P) by (apply Z.pow_pos_nonneg; lia).
  assert (Hs : s = 0 <-> M mod 4096 = 0 /\ (M / P) mod 4096 = 0).
  { unfold s. rewrite !land_low, Z.lor_eq_0_iff. replace (M - 2 ^ 23) with (M + - 2048 * 4096) by lia. by rewrite Z.mod_add by lia. }
  assert (Hsmall : P <= 4096 \/ M < 4096 * P).
  { destruct (decide (113 - e <= 12)); [left; apply (Z.pow_le_mono_r 2 _ 12); lia|right].
    assert (2 ^ 13 <= P) by (apply Z.pow_le_mono_r; lia). lia. }
  pose proof (round13_ok M P s HP ltac:(lia) Hsmall Hs) as Hok. cbv zeta in Hok. set (q := round13 (M / P) s) in *.
  assert (HPle : 2 <= P) by (apply (Z.pow_le_mono_r 2 1); lia).
  assert (Hq : 0 <= q <= 1024).
  { pose proof (round13_bounds (M / P) s ltac:(apply Z.div_pos; lia)) as Hb. fold q in Hb.
    assert (0 <= M / P / 8192 <= 1023); [|lia]. rewrite Z.div_div by lia. split; [apply Z.div_pos; lia|].
    apply Z.lt_succ_r, Z.div_lt_upper_bound; lia. }
  set (K := 2 ^ (e - 1)). assert (HK : 0 < K) by (apply Z.pow_pos_nonneg; lia).
  assert (HPK : 4096 * P * K * 2 = 2 ^ 125).
  { unfold P, K. change 4096 with (2 ^ 12). rewrite <-!Z.pow_add_r by lia. replace (12 + (113 - e) + (e - 1)) with 124 by lia. done. }
  pose proof (Z.mod_pos_bound q 2). unfold nearest_even. split; [lia|]. rewrite <-HPK. split.
  - intros Hpos. rewrite !half_value_small by lia. destruct Hok as [Hlow _]. nia.
  - intros _. rewrite !half_value_small by lia. destruct Hok as [_ Hup]. nia.
Qed.

(** The normal ones. *)
Lemma half_code_normal M e q : 2 ^ 23 <= M < 2 ^ 24 -> 113 <= e <= 142 -> q = round13 M (Z.land (M - 2 ^ 23) 0xFFF) ->
  nearest_even (M * 2 ^ (e - 1)) ((e - 113) * 1024 + q).
Proof.
  intros HM He ->. set (s := Z.land _ _).
  assert (Hs : s = 0 <-> M mod 4096 = 0 /\ (M / 1) mod 4096 = 0).
  { unfold s. rewrite land_low, Z.div_1_r. replace (M - 2 ^ 23) with (M + - 2048 * 4096) by lia. rewrite Z.mod_add by lia. naive_solver. }
  pose proof (round13_ok M 1 s ltac:(lia) ltac:(lia) ltac:(lia) Hs) as Hok. rewrite Z.div_1_r in Hok. cbv zeta in Hok.
  pose proof (round13_bounds M s ltac:(lia)) as Hb. set (q := round13 M s) in *.
  assert (Hq : 1024 <= q <= 2048) by (Z.to_euclidean_division_equations; lia).
  set (E := e - 113). set (K := 2 ^ E). assert (HK : 0 < K) by (apply Z.pow_pos_nonneg; lia).
  assert (Hx : M * 2 ^ (e - 1) = M * (K * 2 ^ 112)) by (unfold K, E; rewrite <-Z.pow_add_r by lia; do 2 f_equal; lia).
  rewrite Hx. assert (Hpar : (E * 1024 + q) mod 2 = q mod 2) by (Z.to_euclidean_division_equations; lia).
  pose proof (Z.mod_pos_bound q 2). unfold nearest_even. split; [lia|]. rewrite Hpar, half_value_at by lia. fold K. split.
  - intros _. destruct (decide (q = 1024)) as [Hq0|].
    + replace (E * 1024 + q - 1) with (E * 1024 + 1023) by lia. pose proof (half_value_below E ltac:(lia)) as Hbelow. fold K in Hbelow.
      rewrite Hq0. change (1024 mod 2) with 0. nia.
    + replace (E * 1024 + q - 1) with (E * 1024 + (q - 1)) by lia. rewrite half_value_at by lia. fold K. destruct Hok as [Hlow _]. nia.
  - intros _. destruct (decide (q = 2048)) as [Hq0|].
    + replace (E * 1024 + q + 1) with ((E + 1) * 1024 + 1025) by lia. rewrite half_value_at by lia.
      replace (2 ^ (E + 1)) with (2 * K) by (unfold K; rewrite Z.pow_add_r by lia; lia). rewrite Hq0. change (2048 mod 2) with 0. nia.
    + replace (E * 1024 + q + 1) with (E * 1024 + (q + 1)) by lia. rewrite half_value_at by lia. fold K. destruct Hok as [_ Hup]. nia.
Qed.

Lemma half_code_ok u : 0 <= u < 0x7F800000 -> nearest_even (float_value u) (half_code u).
Proof.
  intros Hu. unfold half_code. set (e := u / 2 ^ 23). set (mant := u mod 2 ^ 23).
  assert (Hmant : 0 <= mant < 2 ^ 23) by (apply Z.mod_pos_bound; lia).
  assert (He : 0 <= e <= 254) by (unfold e; Z.to_euclidean_division_equations; lia).
  destruct (Z.leb_spec e 98) as [H98|H98].
  - assert (Hx : 0 <= float_value u <= 2 ^ 121).
    { unfold float_value. fold e mant. destruct (Z.eqb_spec e 0) as [E0|E0].
      - assert (u < 2 ^ 23) by (unfold e in E0; Z.to_euclidean_division_equations; lia). lia.
      - assert (0 < 2 ^ (e - 1) <= 2 ^ 97) by (split; [apply Z.pow_pos_nonneg; lia|apply Z.pow_le_mono_r; lia]). nia. }
    split; [lia|]. split; [lia|]. intros _. change (half_value 0) with 0. change (half_value (0 + 1)) with 1. change (0 mod 2) with 0. lia.
  - rewrite float_value_normal by (fold e; lia). fold e mant. destruct (Z.ltb_spec 142 e) as [H142|H142].
    + assert (2 ^ 142 <= 2 ^ (e - 1)) by (apply Z.pow_le_mono_r; lia). split; [lia|]. split; [|lia]. intros _.
      change (half_value (31744 - 1)) with (2047 * 2 ^ 29). change (half_value 31744) with (2 ^ 40). change (31744 mod 2) with 0. nia.
    + destruct (Z.ltb_spec e 113).
      * apply half_code_subnormal; [lia|lia|]. by replace (2 ^ 23 + mant - 2 ^ 23) with mant by lia.
      * apply half_code_normal; [lia|lia|]. by replace (2 ^ 23 + mant - 2 ^ 23) with mant by lia.
Qed.

(** ** Halves convert exactly *)

Lemma half_fields b c : 0 <= b <= 1 -> 0 <= c < 2 ^ 15 ->
  let bin := b * 2 ^ 15 + c in
  Z.shiftr (Z.land bin 0x7C00) 10 = c / 1024 /\ Z.land bin 0x03FF = c mod 1024 /\
  u32 (Z.shiftl (Z.land bin 0x8000) 16) = b * 2 ^ 31 /\ Z.land bin 0x7FFF = c.
Proof.
  intros Hb Hc bin. split_and!.
  - change 0x7C00 with (Z.shiftl (Z.ones 5) 10). rewrite field_at by lia. unfold bin. change 1024 with (2 ^ 10). Z.to_euclidean_division_equations; lia.
  - change 0x03FF with (Z.ones 10). rewrite Z.land_ones by lia. unfold bin. Z.to_euclidean_division_equations; lia.
  - change 0x8000 with (2 ^ 15). rewrite bit_at by lia. assert (Z.b2z (Z.testbit bin 15) = b) as ->.
    { rewrite Z.testbit_spec' by lia. unfold bin. Z.to_euclidean_division_equations; lia. }
    rewrite Z.shiftl_mul_pow2 by lia. rewrite u32_small by lia. lia.
  - change 0x7FFF with (Z.ones 15). rewrite Z.land_ones by lia. unfold bin. Z.to_euclidean_division_equations; lia.
Qed.

Lemma assemble_float b e m : 0 <= b <= 1 -> 0 <= e < 256 -> 0 <= m < 1024 ->
  Z.lor (Z.lor (b * 2 ^ 31) (u32 (Z.shiftl (u32 e) 23))) (Z.shiftl m 13) = b * 2 ^ 31 + (e * 2 ^ 23 + m * 2 ^ 13).
Proof.
  intros Hb He Hm. rewrite !Z.shiftl_mul_pow2 by lia. rewrite (u32_small e) by lia. rewrite u32_small by lia.
  rewrite lor_disjoint by lia. replace (b * 2 ^ 31 + e * 2 ^ 23) with ((b * 2 ^ 8 + e) * 2 ^ 23) by lia. rewrite lor_disjoint by lia. lia.
Qed.

(** The loop, on all subnormals. *)
Definition normalized (c : Z) : bool :=
  let r := normalize_loop 10 (u32 (-14)) c in
  let e := u32 (r.1 + 127) in
  (1 <=? e) && (e <? 113) && (0 <=? r.2) && (r.2 <? 1024) && ((1024 + r.2) * 2 ^ (e - 1 + 13) =? c * 2 ^ 125).

Lemma normalize_loop_ok c : 1 <= c < 1024 -> normalized c = true.
Proof.
  intros Hc. assert (Hall : forallb normalized (seqZ 1 1023) = true) by (vm_compute; reflexivity).
  rewrite forallb_forall in Hall. apply Hall. apply list_elem_of_In, elem_of_seqZ. lia.
Qed.

Lemma float_value_of e m : 1 <= e < 256 -> 0 <= m < 1024 -> float_value (e * 2 ^ 23 + m * 2 ^ 13) = (1024 + m) * 2 ^ (e - 1 + 13).
Proof.
  intros He Hm. assert (Hd : (e * 2 ^ 23 + m * 2 ^ 13) / 2 ^ 23 = e) by (Z.to_euclidean_division_equations; lia).
  rewrite float_value_normal by (rewrite Hd; lia). rewrite Hd.
  assert (Hr : (e * 2 ^ 23 + m * 2 ^ 13) mod 2 ^ 23 = m * 2 ^ 13) by (Z.to_euclidean_division_equations; lia). rewrite Hr.
  rewrite Z.pow_add_r by lia. lia.
Qed.

Lemma HalfToFloat4_ok b c : 0 <= b <= 1 -> 0 <= c < 0x7C00 ->
  exists u, HalfToFloat4 (b * 2 ^ 15 + c) = b * 2 ^ 31 + u /\ 0 <= u < 0x7F800000 /\ float_value u = half_value c * 2 ^ 125.
Proof.
  intros Hb Hc. destruct (half_fields b c) as (He & Hm & Hs & _); [lia|lia|]. unfold HalfToFloat4. rewrite He, Hm, Hs.
  assert (Hm0 : 0 <= c mod 1024 < 1024) by (apply Z.mod_pos_bound; lia).
  destruct (Z.eqb_spec (c / 1024) 31) as [E|_]; [exfalso; Z.to_euclidean_division_equations; lia|].
  destruct (Z.eqb_spec (c / 1024) 0) as [E0|E0].
  - assert (Hcm : c mod 1024 = c) by (apply Z.mod_small; Z.to_euclidean_division_equations; lia). rewrite Hcm in *.
    rewrite half_value_small by lia. destruct (Z.eqb_spec c 0) as [->|Hne].
    + exists 0. rewrite Z.lor_0_r. split_and!; [lia|lia|lia|done].
    + pose proof (normalize_loop_ok c ltac:(lia)) as Hn. unfold normalized in Hn.
      destruct (normalize_loop 10 (u32 (-14)) c) as [e m]. cbn [fst snd] in Hn. rewrite !andb_true_iff, !Z.leb_le, !Z.ltb_lt, Z.eqb_eq in Hn.
      destruct Hn as ((((? & ?) & ?) & ?) & Hv). set (e' := u32 (e + 127)) in *.
      assert (Hu : u32 e' = e') by (unfold e'; apply u32_u32). rewrite <-Hu. rewrite assemble_float by lia.
      eexists. split; [done|]. split; [lia|]. by rewrite float_value_of by lia.
  - assert (He0 : 0 < c / 1024 < 31) by (Z.to_euclidean_division_equations; lia). rewrite assemble_float by lia.
    eexists. split; [done|]. split; [lia|]. rewrite float_value_of by lia.
    assert (Hhv : half_value c = (1024 + c mod 1024) * 2 ^ (c / 1024 - 1)) by (unfold half_value; by destruct (Z.eqb_spec (c / 1024) 0)).
    rewrite Hhv, <-Z.mul_assoc, <-Z.pow_add_r by lia. do 2 f_equal. lia.
Qed.

Lemma half_value_step c : 0 <= c < 0x7C00 -> half_value c < half_value (c + 1).
Proof.
  intros Hc. destruct (decide (c < 2048)); [rewrite !half_value_small by lia; lia|].
  pose proof (Z.div_mod c 1024 ltac:(lia)) as Hdm. pose proof (Z.mod_pos_bound c 1024 ltac:(lia)) as Hm.
  replace c with ((c / 1024 - 1) * 1024 + (1024 + c mod 1024)) at 1 by lia. rewrite half_value_at by lia.
  replace (c + 1) with ((c / 1024 - 1) * 1024 + (1024 + c mod 1024 + 1)) by lia. rewrite half_value_at by lia.
  assert (0 < 2 ^ (c / 1024 - 1)) by (apply Z.pow_pos_nonneg; lia). nia.
Qed.

Lemma half_value_mono c c' : 0 <= c -> c < c' <= 0x7C00 -> half_value c < half_value c'.
Proof.
  intros Hc Hc'. replace c' with (c + 1 + Z.of_nat (Z.to_nat (c' - c - 1))) in * by lia. generalize dependent (Z.to_nat (c' - c - 1)).
  induction n as [|n IH]; intros Hn; [rewrite Z.add_0_r; apply half_value_step; lia|].
  etransitivity; [apply IH; lia|]. replace (c + 1 + Z.of_nat (S n)) with (c + 1 + Z.of_nat n + 1) by lia. apply half_value_step. lia.
Qed.

(** Only the half of that value is nearest to it. *)
Lemma nearest_even_exact c c' : 0 <= c < 0x7C00 -> nearest_even (half_value c * 2 ^ 125) c' -> c' = c.
Proof.
  intros Hc (Hr & Hlow & Hup). pose proof (Z.mod_pos_bound c' 2) as Hm. destruct (Z.lt_total c' c) as [Hlt|[|Hgt]]; [|done|].
  - specialize (Hup ltac:(lia)). pose proof (half_value_mono c' c ltac:(lia) ltac:(lia)).
    assert (half_value (c' + 1) <= half_value c).
    { destruct (decide (c' + 1 = c)) as [->|]; [done|]. pose proof (half_value_mono (c' + 1) c). lia. }
    lia.
  - specialize (Hlow ltac:(lia)). pose proof (half_value_mono c c' ltac:(lia) ltac:(lia)).
    assert (half_value c <= half_value (c' - 1)).
    { destruct (decide (c' - 1 = c)) as [->|]; [done|]. pose proof (half_value_mono c (c' - 1)). lia. }
    lia.
Qed.

(** ** Properties *)

(** C34: Converting a finite float to half precision rounds to the nearest
    half, ties to even, and keeps the sign; it raises an error exactly when the
    nearest value is beyond the largest half. *)
Theorem half_conversion_rounds_to_nearest b u :
  0 <= b <= 1 -> 0 <= u < 0x7F800000 ->
  exists c, Float4ToHalfUnchecked (b * 2 ^ 31 + u) = b * 2 ^ 15 + c /\ nearest_even (float_value u) c /\
    Float4ToHalf (b * 2 ^ 31 + u) =
      if decide (2 * float_value u < (half_value 0x7BFF + half_value 0x7C00) * 2 ^ 125) then Ok (b * 2 ^ 15 + c) else Error ElogError.
Proof.
  intros Hb Hu. exists (half_code u). pose proof (half_code_ok u Hu) as Hn. pose proof Hn as (Hr & Hlow & Hup).
  rewrite Float4ToHalf_code by done. split; [done|]. split; [done|]. unfold Float4ToHalf, HalfIsInf, isinf. rewrite Float4ToHalf_code by done.
  destruct (half_fields b (half_code u)) as (_ & _ & _ & Hmag); [lia|lia|]. rewrite Hmag.
  destruct (float_fields b u) as (_ & _ & _ & Hu'); [lia|lia|]. rewrite Hu'. destruct (Z.eqb_spec u 0x7F800000) as [|_]; [lia|]. cbn [negb].
  rewrite andb_true_r. destruct (Z.eqb_spec (half_code u) 0x7C00) as [E|E].
  - rewrite decide_False; [done|]. rewrite E in Hlow. specialize (Hlow ltac:(lia)). change (0x7C00 - 1) with 0x7BFF in Hlow.
    change (0x7C00 mod 2) with 0 in Hlow. lia.
  - rewrite decide_True; [done|]. specialize (Hup ltac:(lia)). destruct (decide (half_code u = 0x7BFF)) as [Hc|].
    + rewrite Hc in Hup. change (0x7BFF + 1) with 0x7C00 in Hup. change (0x7BFF mod 2) with 1 in Hup. lia.
    + pose proof (half_value_mono (half_code u) 0x7BFF ltac:(lia) ltac:(lia)). pose proof (half_value_mono (half_code u + 1) 0x7C00 ltac:(lia) ltac:(lia)).
      pose proof (Z.mod_pos_bound (half_code u) 2). lia.
Qed.

(** Every half that is not a NaN survives the way through [float] and
    back, signed zeros and infinities included. *)
Theorem half_roundtrip num : 0 <= num < 2 ^ 16 -> HalfIsNan num = false -> Float4ToHalf (HalfToFloat4 num) = Ok num.
Proof.
  intros Hr Hnan. pose proof (Z.div_mod num (2 ^ 15) ltac:(lia)) as Hdm. pose proof (Z.mod_pos_bound num (2 ^ 15) ltac:(lia)) as Hm.
  assert (Hb : 0 <= num / 2 ^ 15 <= 1) by (Z.to_euclidean_division_equations; lia).
  set (b := num / 2 ^ 15) in *. set (c := num mod 2 ^ 15) in *. replace num with (b * 2 ^ 15 + c) in * by lia.
  destruct (decide (c < 0x7C00)) as [Hc|Hc].
  - destruct (HalfToFloat4_ok b c Hb ltac:(lia)) as (u & -> & Hu & Hv). pose proof (half_code_ok u Hu) as Hn. rewrite Hv in Hn.
    apply nearest_even_exact in Hn; [|lia]. unfold Float4ToHalf, HalfIsInf. rewrite Float4ToHalf_code, Hn by done.
    destruct (half_fields b c) as (_ & _ & _ & Hmag); [lia|lia|]. rewrite Hmag. by destruct (Z.eqb_spec c 0x7C00); [lia|].
  - destruct (half_fields b c) as (He & _ & _ & Hmag); [lia|lia|].
    assert (Hc0 : c = 0x7C00).
    { unfold HalfIsNan in Hnan. rewrite Hmag in Hnan. apply andb_false_iff in Hnan as [Hn|Hn]; [|apply negb_false_iff, Z.eqb_eq in Hn; lia].
      apply Z.eqb_neq in Hn. exfalso. apply Hn. assert (E31 : c / 1024 = 31) by (Z.to_euclidean_division_equations; lia). rewrite E31 in He.
      assert (Hmul : Z.land (b * 2 ^ 15 + c) 0x7C00 = Z.shiftl (Z.land (Z.shiftr (b * 2 ^ 15 + c) 10) 31) 10).
      { rewrite Z.shiftl_land. change (Z.shiftl 31 10) with 0x7C00. apply Z.bits_inj'. intros n Hn'. rewrite !Z.land_spec.
        destruct (Z.ltb_spec n 10) as [Hlt|Hge].
        - change 0x7C00 with (Z.shiftl 31 10). rewrite !(Z.shiftl_spec_low _ _ n) by lia. by rewrite !andb_false_r.
        - rewrite Z.shiftl_spec, Z.shiftr_spec by lia. do 2 f_equal. lia. }
      rewrite Hmul. rewrite Z.shiftr_land in He. change (Z.shiftr 0x7C00 10) with 31 in He. by rewrite He. }
    rewrite Hc0. assert (b = 0 \/ b = 1) as [->| ->] by lia; vm_compute; reflexivity.
Qed.

Lemma half_conversion_rounds_to_nearest_witness :
  (exists c, Float4ToHalfUnchecked 0x3F801000 = c /\ c = 0x3C00) /\ Float4ToHalf 0x477FF000 = Error ElogError.
Proof.
  split.
  - destruct (half_conversion_rounds_to_nearest 0 0x3F801000) as (c & Hc & _); [lia|lia|]. exists c.
    split; [rewrite Z.mul_0_l, !Z.add_0_l in Hc; exact Hc|]. vm_compute in Hc. lia.
  - destruct (half_conversion_rounds_to_nearest 0 0x477FF000) as (c & _ & _ & Hf); [lia|lia|]. vm_compute in Hf |- *. exact Hf.
Defined.

Lemma half_roundtrip_witness : Float4ToHalf (HalfToFloat4 0x83FF) = Ok 0x83FF.
Proof. apply half_roundtrip; [lia|reflexivity]. Defined.
