(* ===== verification/DenseVector.v ===== *)
(** The type [vector] (vector.c): input and output, distances, arithmetic and
    order.

    A [float] is IEEE binary32 of the Standard Library's [SpecFloat], rounding
    to nearest even; sums are taken in the order of the source loops (the build
    may allow the compiler to reassociate them).  A vector is the list of its
    elements, [dim] its length.  [strtof] and PostgreSQL's shortest decimal
    printing are arguments. *)

From Stdlib Require Import Ascii String SpecFloat.
From S2P Require Import Prelude.
#[local] Open Scope string_scope.
#[local] Open Scope list_scope.
#[local] Open Scope Z_scope.

Abbreviation float := spec_float.
Definition fadd : float -> float -> float := SFadd 24 128.
Definition fsub : float -> float -> float := SFsub 24 128.
Definition fmul : float -> float -> float := SFmul 24 128.
Definition fzero : float := S754_zero false.

Definition is_nan (x : float) : bool := match x with S754_nan => true | _ => false end.
Definition is_inf (x : float) : bool := match x with S754_infinity _ => true | _ => false end.
(** [x == 0]. *)
Definition is_zero (x : float) : bool := SFeqb x fzero.
Definition finite (x : float) : bool := negb (is_nan x) && negb (is_inf x).

(** ** Checks *)

Definition VECTOR_MAX_DIM : Z := 16000.

Definition CheckDims (a b : list float) : res unit := if negb (zlen a =? zlen b) then Error ElogError else Ok tt.
Definition CheckExpectedDim (typmod dim : Z) : res unit :=
  if negb (typmod =? -1) && negb (typmod =? dim) then Error ElogError else Ok tt.
Definition CheckDim (dim : Z) : res unit :=
  if dim <? 1 then Error ElogError else if VECTOR_MAX_DIM <? dim then Error ElogError else Ok tt.
Definition CheckElement (value : float) : res unit :=
  if is_nan value then Error ElogError else if is_inf value then Error ElogError else Ok tt.

Definition wf_vector (v : list float) : Prop := 1 <= zlen v <= VECTOR_MAX_DIM /\ Forall (fun x => finite x = true) v.

(** ** Text *)

Definition vector_isspace (ch : ascii) : bool :=
  existsb (Ascii.eqb ch) [" "; "009"; "010"; "013"; "011"; "012"]%char.

Fixpoint skip_space (s : string) : string :=
  match s with
  | String ch s' => if vector_isspace ch then skip_space s' else s
  | EmptyString => s
  end.

(** [*pt == c], and the rest of the string. *)
Definition next_is (c : ascii) (pt : string) : option string :=
  match pt with String ch s => if Ascii.eqb ch c then Some s else None | EmptyString => None end.

Section text.
(** The number at the start of a string, whether [errno] says it is out of
    range, and the rest; nothing when there is none. *)
Context (strtof : string -> option (float * bool * string)).
Context (float_to_shortest_decimal : float -> string).

Fixpoint vector_in_loop (fuel : nat) (pt : string) (x : list float) : res (list float * string) :=
  match fuel with
  | O => Error OutOfFuel
  | S fuel =>
      if zlen x =? VECTOR_MAX_DIM then Error ElogError
      else
        let pt := skip_space pt in
        match pt with
        | EmptyString => Error ElogError
        | _ =>
            match strtof pt with
            | None => Error ElogError
            | Some (val, erange, stringEnd) =>
                if erange && is_inf val then Error ElogError
                else
                  _ ← CheckElement val;
                  let x := x ++ [val] in
                  let pt := skip_space stringEnd in
                  match next_is "," pt, next_is "]" pt with
                  | Some pt, _ => vector_in_loop fuel pt x
                  | None, Some pt => Ok (x, pt)
                  | None, None => Error ElogError
                  end
            end
        end
  end.

Definition vector_in (lit : string) (typmod : Z) : res (list float) :=
  match next_is "[" (skip_space lit) with
  | None => Error ElogError
  | Some pt =>
      let pt := skip_space pt in
      match next_is "]" pt with
      | Some _ => Error ElogError
      | None =>
          '(x, pt) ← vector_in_loop (S (String.length pt)) pt [];
          match skip_space pt with
          | EmptyString =>
              _ ← CheckDim (zlen x);
              _ ← CheckExpectedDim typmod (zlen x);
              Ok x
          | _ => Error ElogError
          end
      end
  end.

Fixpoint append_floats (x : list float) : string :=
  match x with
  | [] => ""
  | [v] => float_to_shortest_decimal v
  | v :: x => float_to_shortest_decimal v +:+ String "," (append_floats x)
  end.

Definition vector_out (x : list float) : string := String "[" (append_floats x +:+ "]").
End text.

(** ** Distances *)

Definition VectorL2SquaredDistance (ax bx : list float) : float :=
  foldl (fun distance p => let diff := fsub p.1 p.2 in fadd distance (fmul diff diff)) fzero (zip ax bx).
Definition VectorInnerProduct (ax bx : list float) : float :=
  foldl (fun distance p => fadd distance (fmul p.1 p.2)) fzero (zip ax bx).
Definition VectorL1Distance (ax bx : list float) : float :=
  foldl (fun distance p => fadd distance (SFabs (fsub p.1 p.2))) fzero (zip ax bx).

Definition vector_l2_squared_distance (a b : list float) : res float := _ ← CheckDims a b; Ok (VectorL2SquaredDistance a b).
Definition inner_product (a b : list float) : res float := _ ← CheckDims a b; Ok (VectorInnerProduct a b).
Definition vector_negative_inner_product (a b : list float) : res float := _ ← CheckDims a b; Ok (SFopp (VectorInnerProduct a b)).
Definition l1_distance (a b : list float) : res float := _ ← CheckDims a b; Ok (VectorL1Distance a b).

(** ** Arithmetic *)

(** The loop that computes, then the loop that checks. *)
Definition elementwise (op : float -> float -> float) (bad : float -> float -> float -> bool) (a b : list float) : res (list float) :=
  _ ← CheckDims a b;
  let rx := zip_with op a b in
  if existsb (fun p => bad p.1.1 p.1.2 p.2) (zip (zip a b) rx) then Error ElogError else Ok rx.

Definition vector_add : list float -> list float -> res (list float) := elementwise fadd (fun _ _ r => is_inf r).
Definition vector_sub : list float -> list float -> res (list float) := elementwise fsub (fun _ _ r => is_inf r).
Definition vector_mul : list float -> list float -> res (list float) :=
  elementwise fmul (fun a b r => is_inf r || is_zero r && negb (is_zero a || is_zero b)).

Definition vector_concat (a b : list float) : res (list float) :=
  let dim := zlen a + zlen b in
  _ ← CheckDim dim; Ok (a ++ b).

(** [int32] arithmetic. *)
Definition subvector (a : list float) (start count : Z) : res (list float) :=
  if count <? 1 then Error ElogError
  else
    let dim := zlen a in
    let endp := if i32 (dim - count) <? start then dim + 1 else i32 (start + count) in
    start ← (if start <? 1 then Ok 1 else if dim <? start then Error ElogError else Ok start);
    let dim := i32 (endp - start) in
    _ ← CheckDim dim;
    Ok (slice a (start - 1) (start - 1 + dim)).

(** ** Order *)

Fixpoint vector_cmp_loop (ax bx : list float) : option Z :=
  match ax, bx with
  | x :: ax, y :: bx => if SFltb x y then Some (-1) else if SFltb y x then Some 1 else vector_cmp_loop ax bx
  | _, _ => None
  end.

(** The loop runs up to the smaller dimension. *)
Definition vector_cmp_internal (a b : list float) : Z :=
  match vector_cmp_loop a b with
  | Some r => r
  | None => if zlen a <? zlen b then -1 else if zlen b <? zlen a then 1 else 0
  end.

Definition vector_lt (a b : list float) : bool := vector_cmp_internal a b <? 0.
Definition vector_le (a b : list float) : bool := vector_cmp_internal a b <=? 0.
Definition vector_eq (a b : list float) : bool := vector_cmp_internal a b =? 0.
Definition vector_ne (a b : list float) : bool := negb (vector_cmp_internal a b =? 0).
Definition vector_ge (a b : list float) : bool := 0 <=? vector_cmp_internal a b.
Definition vector_gt (a b : list float) : bool := 0 <? vector_cmp_internal a b.

(** ** The order of floats *)

(** Sign class, then exponent, then mantissa. *)
Definition fkey (x : float) : Z * Z * Z :=
  match x with
  | S754_zero _ | S754_nan => (0, 0, 0)
  | S754_infinity s => (if s then -2 else 2, 0, 0)
  | S754_finite s m e => if s then (-1, - e, Z.neg m) else (1, e, Z.pos m)
  end.

Definition key_lt (p q : Z * Z * Z) : Prop :=
  p.1.1 < q.1.1 \/ p.1.1 = q.1.1 /\ (p.1.2 < q.1.2 \/ p.1.2 = q.1.2 /\ p.2 < q.2).

Lemma SFltb_key x y : is_nan x = false -> is_nan y = false -> SFltb x y = true <-> key_lt (fkey x) (fkey y).
Proof.
  unfold SFltb, key_lt. destruct x as [s|s| |s m e], y as [s'|s'| |s' m' e']; intros Hx Hy; try discriminate;
    try destruct s; try destruct s'; cbn; try (split; [discriminate || lia|lia || done]).
  - change (Pos.compare_cont Eq m m') with (Pos.compare m m').
    destruct (Z.compare_spec e e') as [->|?|?], (Pos.compare_spec m m') as [->|?|?]; cbn; split; intros; try done; try lia.
  - change (Pos.compare_cont Eq m m') with (Pos.compare m m').
    destruct (Z.compare_spec e e') as [->|?|?], (Pos.compare_spec m m') as [->|?|?]; cbn; split; intros; try done; try lia.
Qed.

Lemma vector_cmp_cons x y a b :
  vector_cmp_internal (x :: a) (y :: b) = if SFltb x y then -1 else if SFltb y x then 1 else vector_cmp_internal a b.
Proof.
  unfold vector_cmp_internal. cbn [vector_cmp_loop]. destruct (SFltb x y); [done|]. destruct (SFltb y x); [done|].
  destruct (vector_cmp_loop a b); [done|]. rewrite !zlen_cons.
  destruct (Z.ltb_spec (1 + zlen a) (1 + zlen b)), (Z.ltb_spec (zlen a) (zlen b)); try lia.
  destruct (Z.ltb_spec (1 + zlen b) (1 + zlen a)), (Z.ltb_spec (zlen b) (zlen a)); lia.
Qed.

Lemma vector_cmp_nil_l y b : vector_cmp_internal [] (y :: b) = -1.
Proof. unfold vector_cmp_internal. cbn [vector_cmp_loop]. rewrite zlen_cons. change (zlen []) with 0. pose proof (zlen_nonneg b). by destruct (Z.ltb_spec 0 (1 + zlen b)); [|lia]. Qed.
Lemma vector_cmp_nil_r x a : vector_cmp_internal (x :: a) [] = 1.
Proof.
  unfold vector_cmp_internal. cbn [vector_cmp_loop]. rewrite zlen_cons. change (zlen []) with 0. pose proof (zlen_nonneg a).
  destruct (Z.ltb_spec (1 + zlen a) 0); [lia|]. by destruct (Z.ltb_spec 0 (1 + zlen a)); [|lia].
Qed.

Definition no_nan (v : list float) : Prop := Forall (fun x => is_nan x = false) v.

Lemma wf_no_nan v : wf_vector v -> no_nan v.
Proof. intros [_ Hf]. eapply Forall_impl; [exact Hf|]. intros x. unfold finite. by destruct (is_nan x). Qed.

(** [<] and [>] exclude each other, and what is in between agrees. *)
Lemma SFltb_total x y : is_nan x = false -> is_nan y = false ->
  (SFltb x y = true /\ SFltb y x = false) \/ (SFltb x y = false /\ SFltb y x = true) \/
  (SFltb x y = false /\ SFltb y x = false /\ fkey x = fkey y).
Proof.
  intros Hx Hy. pose proof (SFltb_key x y Hx Hy) as H1. pose proof (SFltb_key y x Hy Hx) as H2. unfold key_lt in *.
  destruct (fkey x) as [[a b] c], (fkey y) as [[a' b'] c']. cbn in *.
  destruct (SFltb x y), (SFltb y x); [exfalso|by left|by right; left|right; right; split_and!; try done].
  - assert (true = true) as T by done. apply H1 in T as T1. apply H2 in T as T2. lia.
  - assert (N1 : ~ (a < a' \/ a = a' /\ (b < b' \/ b = b' /\ c < c'))) by (intros T; by apply H1 in T).
    assert (N2 : ~ (a' < a \/ a' = a /\ (b' < b \/ b' = b /\ c' < c))) by (intros T; by apply H2 in T).
    f_equal; [f_equal|]; lia.
Qed.

Lemma SFltb_false x y : is_nan x = false -> is_nan y = false -> SFltb x y = false <-> ~ key_lt (fkey x) (fkey y).
Proof. intros Hx Hy. rewrite <-(SFltb_key x y Hx Hy). by destruct (SFltb x y). Qed.

Lemma SFltb_trans x y z : is_nan x = false -> is_nan y = false -> is_nan z = false ->
  SFltb y x = false -> SFltb z y = false -> SFltb z x = false /\ (SFltb x z = false -> SFltb x y = false /\ SFltb y z = false).
Proof.
  intros Hx Hy Hz. rewrite !SFltb_false by done. unfold key_lt.
  destruct (fkey x) as [[a b] c], (fkey y) as [[a' b'] c'], (fkey z) as [[a'' b''] c'']. cbn. lia.
Qed.

(** ** Properties *)

Lemma vector_cmp_range a b : vector_cmp_internal a b = -1 \/ vector_cmp_internal a b = 0 \/ vector_cmp_internal a b = 1.
Proof.
  revert b. induction a as [|x a IH]; intros [|y b]; [by right; left|rewrite vector_cmp_nil_l; lia|rewrite vector_cmp_nil_r; lia|].
  rewrite vector_cmp_cons. destruct (SFltb x y); [lia|]. destruct (SFltb y x); [lia|apply IH].
Qed.

(** The comparison of vectors is a total preorder on vectors without NaN,
    as an index needs it: swapping the arguments negates it, it is transitive,
    and 0 means the same number of elements, each neither smaller nor greater
    than its counterpart. *)
Theorem vector_cmp_total_order a b c : no_nan a -> no_nan b -> no_nan c ->
  vector_cmp_internal b a = - vector_cmp_internal a b /\
  (vector_cmp_internal a b <= 0 -> vector_cmp_internal b c <= 0 ->
   vector_cmp_internal a c <= 0 /\ (vector_cmp_internal a c = 0 -> vector_cmp_internal a b = 0 /\ vector_cmp_internal b c = 0)) /\
  (vector_cmp_internal a b = 0 <-> Forall2 (fun x y => SFltb x y = false /\ SFltb y x = false) a b).
Proof.
  intros Ha. revert b c. induction Ha as [|x a Hx Ha IH]; intros b c Hb Hc.
  - destruct Hb as [|y b Hy Hb]; [|rewrite vector_cmp_nil_l, vector_cmp_nil_r].
    + split; [done|]. split; [|split; [constructor|done]]. intros _ H. split; [done|]. intros H0. by split.
    + split; [lia|]. split; [|split; [lia|intros H; inversion H]]. intros _ Hbc. destruct Hc as [|z c Hz Hc]; [rewrite vector_cmp_nil_r in Hbc; lia|].
      rewrite vector_cmp_nil_l. lia.
  - destruct Hb as [|y b Hy Hb]; [rewrite vector_cmp_nil_l, vector_cmp_nil_r; split; [lia|split; [lia|split; [lia|intros H; inversion H]]]|].
    rewrite !vector_cmp_cons. split_and!.
    + destruct (IH b b Hb Hb) as [Hs _]. destruct (SFltb_total x y Hx Hy) as [[-> ->]|[[-> ->]|(-> & -> & _)]]; lia.
    + destruct Hc as [|z c Hz Hc].
      { rewrite !vector_cmp_nil_r. lia. }
      rewrite !vector_cmp_cons. intros H1 H2.
      assert (Hyx : SFltb y x = false) by (destruct (SFltb_total x y Hx Hy) as [[? ?]|[[E1 E2]|(? & ? & _)]]; [done| |done]; rewrite E1, E2 in H1; lia).
      assert (Hzy : SFltb z y = false) by (destruct (SFltb_total y z Hy Hz) as [[? ?]|[[E1 E2]|(? & ? & _)]]; [done| |done]; rewrite E1, E2 in H2; lia).
      destruct (SFltb_trans x y z Hx Hy Hz Hyx Hzy) as [Hzx Hxz]. rewrite Hzx, Hyx, Hzy in *. destruct (SFltb x z) eqn:Exz; [lia|].
      destruct (Hxz eq_refl) as [Exy Eyz]. rewrite Exy, Eyz in *. destruct (IH b c Hb Hc) as (_ & Ht & _). by apply Ht.
    + destruct (IH b b Hb Hb) as (_ & _ & Heq). rewrite Forall2_cons, <-Heq.
      destruct (SFltb x y), (SFltb y x); naive_solver lia.
Qed.

(** [subvector] returns the elements at the positions [start] to
    [start + count - 1] that exist, counting from 1, and raises an error when
    there are none; 32-bit arguments never overflow. *)
Theorem subvector_takes_range a start count :
  wf_vector a -> - 2 ^ 31 <= start < 2 ^ 31 -> - 2 ^ 31 <= count < 2 ^ 31 ->
  subvector a start count =
    let lo := Z.max start 1 in
    let hi := Z.min (start + count) (zlen a + 1) in
    if decide (lo < hi) then Ok (slice a (lo - 1) (hi - 1)) else Error ElogError.
Proof.
  intros [Hlen _] Hs Hc. unfold VECTOR_MAX_DIM in *. unfold subvector. destruct (Z.ltb_spec count 1) as [H1|H1].
  { rewrite decide_False by lia. done. }
  rewrite (i32_small (zlen a - count)) by lia. cbv zeta.
  assert (Hend : (if zlen a - count <? start then zlen a + 1 else i32 (start + count)) = Z.min (start + count) (zlen a + 1)).
  { destruct (Z.ltb_spec (zlen a - count) start); [lia|]. rewrite i32_small by lia. lia. }
  rewrite Hend. set (hi := Z.min _ _).
  destruct (Z.ltb_spec start 1) as [Hs1|Hs1]; [|destruct (Z.ltb_spec (zlen a) start) as [Hs2|Hs2]]; cbn [mbind res_bind].
  - rewrite (i32_small (hi - 1)) by lia. unfold CheckDim, VECTOR_MAX_DIM. replace (Z.max start 1) with 1 by lia.
    destruct (Z.ltb_spec (hi - 1) 1) as [Hlow|Hlow]; [by rewrite decide_False by lia|]. destruct (Z.ltb_spec 16000 (hi - 1)); [lia|].
    rewrite decide_True by lia. cbn. do 2 f_equal. 
  - by rewrite decide_False by lia.
  - rewrite (i32_small (hi - start)) by lia. unfold CheckDim, VECTOR_MAX_DIM. replace (Z.max start 1) with start by lia.
    destruct (Z.ltb_spec (hi - start) 1) as [Hlow|Hlow]; [by rewrite decide_False by lia|]. destruct (Z.ltb_spec 16000 (hi - start)); [lia|].
    rewrite decide_True by lia. cbn. do 2 f_equal. lia.
Qed.

(** ** Distances *)

Definition sign_of (x : float) : option bool :=
  match x with S754_zero s | S754_infinity s | S754_finite s _ _ => Some s | S754_nan => None end.

(** Not below zero, and not the negative zero: what a sum of squares or
    absolute values is when it is a number. *)
Definition nonneg (x : float) : Prop := sign_of x <> Some true.

Lemma opp_opp x : SFopp (SFopp x) = x.
Proof. by destruct x as [s|s| |s m e]; cbn; rewrite ?negb_involutive. Qed.

Lemma round_aux_sign s m e l : binary_round_aux 24 128 (negb s) m e l = SFopp (binary_round_aux 24 128 s m e l).
Proof.
  unfold binary_round_aux. destruct (shr_fexp 24 128 m e l) as [mrs e']. destruct (shr_fexp 24 128 _ e' loc_Exact) as [mrs'' e''].
  destruct (shr_m mrs''); [done| |done]. by destruct (_ <=? _).
Qed.

Lemma normalize_opp m e : m <> 0 -> binary_normalize 24 128 (- m) e false = SFopp (binary_normalize 24 128 m e false).
Proof.
  intros Hm. unfold binary_normalize. destruct m as [|m|m]; [done|change (- Z.pos m) with (Z.neg m)|change (- Z.neg m) with (Z.pos m)]; unfold binary_round;
    destruct (shl_align m e _) as [mz ez]; [apply (round_aux_sign false)|apply (round_aux_sign true)].
Qed.

Lemma round_aux_sign_of s m e l : sign_of (binary_round_aux 24 128 s m e l) = Some s \/ sign_of (binary_round_aux 24 128 s m e l) = None.
Proof.
  unfold binary_round_aux. destruct (shr_fexp 24 128 m e l) as [mrs e']. destruct (shr_fexp 24 128 _ e' loc_Exact) as [mrs'' e''].
  destruct (shr_m mrs''); [by left| |by right]. destruct (_ <=? _); by left.
Qed.

Lemma normalize_nonneg m e : 0 <= m -> nonneg (binary_normalize 24 128 m e false).
Proof.
  intros Hm. unfold nonneg, binary_normalize. destruct m as [|m|m]; [done| |lia]. unfold binary_round.
  destruct (shl_align m e _) as [mz ez]. destruct (round_aux_sign_of false (Z.pos mz) ez loc_Exact) as [-> | ->]; congruence.
Qed.

(** Up to the sign of a zero, which the square and the absolute value forget. *)
Lemma fsub_swap x y : fsub y x = SFopp (fsub x y) \/ (fsub x y = fsub y x /\ exists s, fsub x y = S754_zero s).
Proof.
  unfold fsub. destruct x as [s|s| |s m e], y as [s'|s'| |s' m' e']; try (by left); try (by destruct s, s'; first [by left|right; split; [done|by eexists]]).
  cbn [SFsub]. rewrite (Z.min_comm e' e). set (ez := Z.min e e').
  set (p := cond_Zopp s _). set (q := cond_Zopp s' _). destruct (decide (p - q = 0)) as [E|E].
  - right. replace (q - p) with 0 by lia. rewrite E. split; [done|]. by exists false.
  - left. replace (q - p) with (- (p - q)) by lia. by apply normalize_opp.
Qed.

Lemma fmul_comm x y : fmul x y = fmul y x.
Proof.
  unfold fmul. destruct x as [s|s| |s m e], y as [s'|s'| |s' m' e']; cbn; try by rewrite xorb_comm.
  all: try done.
  rewrite xorb_comm, Pos.mul_comm, Z.add_comm. done.
Qed.

Lemma fmul_opp x : fmul (SFopp x) (SFopp x) = fmul x x.
Proof. destruct x as [s|s| |s m e]; cbn; by rewrite ?xorb_nilpotent. Qed.

Lemma fabs_opp x : SFabs (SFopp x) = SFabs x.
Proof. by destruct x. Qed.

Lemma square_nonneg x : nonneg (fmul x x).
Proof.
  unfold nonneg, fmul. destruct x as [s|s| |s m e]; cbn [SFmul]; rewrite ?xorb_nilpotent; [done|done|done|].
  destruct (round_aux_sign_of false (Z.pos (m * m)) (e + e) loc_Exact) as [-> | ->]; congruence.
Qed.

Lemma fabs_nonneg x : nonneg (SFabs x).
Proof. by destruct x. Qed.

Lemma fadd_nonneg x y : nonneg x -> nonneg y -> nonneg (fadd x y).
Proof.
  unfold nonneg, fadd. destruct x as [[]|[]| |[] m e], y as [[]|[]| |[] m' e']; cbn [SFadd sign_of Bool.eqb]; intros; try done.
  cbn [cond_Zopp]. apply normalize_nonneg. lia.
Qed.

Lemma foldl_zip_swap {A} (f g : A -> float * float -> A) (a b : list float) d :
  (forall d x y, g d (y, x) = f d (x, y)) -> foldl g d (zip b a) = foldl f d (zip a b).
Proof.
  intros H. revert d b. induction a as [|x a IH]; intros d [|y b]; [done|done|done|]. cbn. by rewrite H, IH.
Qed.

Lemma foldl_nonneg {A} (f : A -> float) l : forall d, nonneg d -> (forall p, nonneg (f p)) -> nonneg (foldl (fun d p => fadd d (f p)) d l).
Proof. induction l as [|p l IH]; intros d Hd Hf; cbn; [done|]. apply IH; [by apply fadd_nonneg|done]. Qed.

Lemma fsub_self x : finite x = true -> fsub x x = fzero.
Proof. unfold finite, fsub. destruct x as [s|s| |s m e]; try done; intros _; [by destruct s|]. cbn [SFsub]. by rewrite Z.sub_diag. Qed.

Lemma foldl_self (f : float * float -> float) l : Forall (fun x => finite x = true) l -> (forall x, finite x = true -> f (x, x) = fzero) ->
  foldl (fun d p => fadd d (f p)) fzero (zip l l) = fzero.
Proof. intros Hl Hf. induction Hl as [|x l Hx Hl IH]; [done|]. cbn. by rewrite (Hf x Hx). Qed.

(** The distances an index orders by are symmetric bit for bit, squared L2
    and L1 are never below zero nor a negative zero, and the distance of a
    vector to itself is exactly zero. *)
Theorem distances_symmetric_nonnegative a b :
  (VectorL2SquaredDistance b a = VectorL2SquaredDistance a b /\ VectorL1Distance b a = VectorL1Distance a b /\
   VectorInnerProduct b a = VectorInnerProduct a b) /\
  (nonneg (VectorL2SquaredDistance a b) /\ nonneg (VectorL1Distance a b)) /\
  (wf_vector a -> VectorL2SquaredDistance a a = fzero /\ VectorL1Distance a a = fzero).
Proof.
  split; [split_and!|split; [split|intros [_ Hf]; split]].
  - apply foldl_zip_swap. intros d x y. cbn. destruct (fsub_swap x y) as [-> | [-> _]]; [by rewrite fmul_opp|done].
  - apply foldl_zip_swap. intros d x y. cbn. destruct (fsub_swap x y) as [-> | [-> _]]; [by rewrite fabs_opp|done].
  - apply foldl_zip_swap. intros d x y. cbn. by rewrite fmul_comm.
  - apply (foldl_nonneg (fun p => fmul (fsub p.1 p.2) (fsub p.1 p.2))); [done|]. intros p. apply square_nonneg.
  - apply (foldl_nonneg (fun p => SFabs (fsub p.1 p.2))); [done|]. intros p. apply fabs_nonneg.
  - apply (foldl_self (fun p => fmul (fsub p.1 p.2) (fsub p.1 p.2))); [done|]. intros x Hx. cbn. by rewrite fsub_self.
  - apply (foldl_self (fun p => SFabs (fsub p.1 p.2))); [done|]. intros x Hx. cbn. by rewrite fsub_self.
Qed.

(** ** Text *)

Section text_ok.
Context (strtof : string -> option (float * bool * string)) (shortest : float -> string).

Lemma skip_space_length s : (String.length (skip_space s) <= String.length s)%nat.
Proof. induction s as [|ch s IH]; [done|]. cbn [skip_space]. destruct (vector_isspace ch); cbn [String.length]; lia. Qed.

Lemma next_is_length c s s' : next_is c s = Some s' -> String.length s = S (String.length s').
Proof. destruct s as [|ch s]; [done|]. cbn. destruct (Ascii.eqb ch c); [|done]. by intros [= ->]. Qed.

(** A number takes at least a character. *)
Definition strtof_consumes : Prop := forall s v erange r, strtof s = Some (v, erange, r) -> (String.length r < String.length s)%nat.

Lemma vector_in_loop_total : strtof_consumes -> forall fuel pt x, (String.length pt < fuel)%nat -> Forall (fun v => finite v = true) x -> zlen x <= VECTOR_MAX_DIM ->
  match vector_in_loop strtof fuel pt x with
  | Ok (x', _) => Forall (fun v => finite v = true) x' /\ 1 <= zlen x' <= VECTOR_MAX_DIM
  | Error e => e = ElogError
  end.
Proof.
  intros Hstr. induction fuel as [|fuel IH]; intros pt x Hfuel Hx Hlen; [lia|]. cbn [vector_in_loop]. destruct (Z.eqb_spec (zlen x) VECTOR_MAX_DIM); [done|].
  pose proof (skip_space_length pt) as Hsp. destruct (skip_space pt) as [|ch pt'] eqn:Ept; [done|]. cbv zeta.
  destruct (strtof _) as [[[v erange] r]|] eqn:Estr; [|done]. apply Hstr in Estr. destruct (erange && is_inf v); [done|].
  unfold CheckElement. destruct (is_nan v) eqn:Hn; [done|]. destruct (is_inf v) eqn:Hi; [done|]. cbn [mbind res_bind].
  assert (Hx' : Forall (fun v => finite v = true) (x ++ [v])) by (apply Forall_app; split; [done|]; constructor; [|done]; unfold finite; by rewrite Hn, Hi).
  pose proof (zlen_nonneg x). assert (Hlen' : zlen (x ++ [v]) = zlen x + 1) by (rewrite zlen_app; done).
  pose proof (skip_space_length r). destruct (next_is "," (skip_space r)) as [pt2|] eqn:E1.
  - apply next_is_length in E1. apply IH; [lia|done|lia].
  - destruct (next_is "]" (skip_space r)); [|done]. split; [done|lia].
Qed.

(** Printing [v] and reading it back: a number stands at the start and stops
    at a comma or a bracket. *)
Definition prints_ok (v : float) : Prop :=
  (exists ch s, shortest v = String ch s /\ vector_isspace ch = false /\ ch <> "]"%char) /\
  forall rest s, rest = String "," s \/ rest = String "]" s -> strtof (shortest v +:+ rest) = Some (v, false, rest).

Lemma string_app_cons c s1 s2 : String c s1 +:+ s2 = String c (s1 +:+ s2).
Proof. done. Qed.

Lemma string_app_assoc s1 s2 s3 : (s1 +:+ s2) +:+ s3 = s1 +:+ (s2 +:+ s3).
Proof. induction s1 as [|c s1 IH]; [done|]. rewrite !string_app_cons. by rewrite IH. Qed.

Lemma string_length_app s1 s2 : String.length (s1 +:+ s2) = (String.length s1 + String.length s2)%nat.
Proof. induction s1 as [|c s1 IH]; [done|]. rewrite string_app_cons. cbn. by rewrite IH. Qed.

Lemma skip_space_printed v rest : prints_ok v -> skip_space (shortest v +:+ rest) = shortest v +:+ rest.
Proof. intros [(ch & s & -> & Hsp & _) _]. rewrite string_app_cons. cbn [skip_space]. by rewrite Hsp. Qed.

Lemma append_floats_cons v x rest :
  append_floats shortest (v :: x) +:+ rest = shortest v +:+ match x with [] => rest | _ => String "," (append_floats shortest x +:+ rest) end.
Proof.
  destruct x as [|w x]; [done|].
  change (append_floats shortest (v :: w :: x)) with (shortest v +:+ String "," (append_floats shortest (w :: x))).
  by rewrite string_app_assoc.
Qed.

Lemma next_is_here c s : next_is c (String c s) = Some s.
Proof. cbn. by rewrite Ascii.eqb_refl. Qed.

(** One round of the loop. *)
Lemma vector_in_loop_step v fuel acc rest s :
  finite v = true -> prints_ok v -> zlen acc < VECTOR_MAX_DIM -> rest = String "," s \/ rest = String "]" s ->
  vector_in_loop strtof (S fuel) (shortest v +:+ rest) acc =
    match next_is "," rest with Some pt => vector_in_loop strtof fuel pt (acc ++ [v]) | None => Ok (acc ++ [v], s) end.
Proof.
  intros Hfin Hp Hlen Hrest. cbn [vector_in_loop]. destruct (Z.eqb_spec (zlen acc) VECTOR_MAX_DIM); [lia|].
  rewrite skip_space_printed by done. destruct Hp as [(ch & t & Hs & _) Hstr]. specialize (Hstr rest s Hrest).
  rewrite Hs, string_app_cons in Hstr |- *. cbv zeta. rewrite Hstr. cbn [andb].
  unfold CheckElement. unfold finite in Hfin. destruct (is_nan v); [done|]. destruct (is_inf v); [done|]. cbn [mbind res_bind].
  by destruct Hrest as [-> | ->].
Qed.

Lemma vector_in_loop_ok x : forall v acc fuel tail,
  Forall (fun v => finite v = true /\ prints_ok v) (v :: x) -> zlen acc + zlen (v :: x) <= VECTOR_MAX_DIM -> (length (v :: x) <= fuel)%nat ->
  vector_in_loop strtof fuel (append_floats shortest (v :: x) +:+ String "]" tail) acc = Ok (acc ++ v :: x, tail).
Proof.
  induction x as [|w x IH]; intros v acc fuel tail [[Hfin Hp] Hx]%Forall_cons Hlen Hfuel; (destruct fuel as [|fuel]; [cbn in Hfuel; lia|]);
    rewrite append_floats_cons; rewrite !zlen_cons in Hlen.
  - by rewrite (vector_in_loop_step v fuel acc _ tail) by (first [done|rewrite zlen_nil in Hlen; lia|by right]).
  - pose proof (zlen_nonneg x). rewrite (vector_in_loop_step v fuel acc _ (append_floats shortest (w :: x) +:+ String "]" tail)) by (first [done|lia|by left]).
    rewrite next_is_here. cbv iota beta. rewrite IH; [by rewrite <-app_assoc|done| |cbn in *; lia]. rewrite zlen_app, !zlen_cons, zlen_nil. lia.
Qed.

(** Whatever the text, reading it ends: in a vector of 1 to 16,000 finite
    elements with as many elements as the type modifier asks for, or in an
    error raised to the user. *)
Theorem vector_in_total lit typmod : strtof_consumes ->
  match vector_in strtof lit typmod with
  | Ok v => wf_vector v /\ (typmod = -1 \/ typmod = zlen v)
  | Error e => e = ElogError
  end.
Proof.
  intros Hstr. unfold vector_in. destruct (next_is "[" (skip_space lit)) as [pt|]; [|done]. cbv zeta. destruct (next_is "]" (skip_space pt)); [done|].
  pose proof (vector_in_loop_total Hstr (S (String.length (skip_space pt))) (skip_space pt) [] ltac:(lia) ltac:(constructor) ltac:(done)) as H.
  destruct (vector_in_loop strtof _ _ []) as [[x pt']|e]; [|done]. cbn [mbind res_bind]. destruct H as [Hx Hlen].
  destruct (skip_space pt') as [|ch s]; [|done]. unfold CheckDim. destruct (zlen x <? 1); [done|]. destruct (VECTOR_MAX_DIM <? zlen x); [done|].
  cbn [mbind res_bind]. unfold CheckExpectedDim. destruct (Z.eqb_spec typmod (-1)) as [->|]; cbn; [by split; [|left]|].
  destruct (Z.eqb_spec typmod (zlen x)) as [->|]; cbn; [by split; [|right]|done].
Qed.

(** The buffer of [vector_out], [FLOAT_SHORTEST_DECIMAL_LEN] bytes a number and
    two, holds the text and its terminator. *)
Lemma vector_out_fits_buffer x : (forall v, (String.length (shortest v) <= 15)%nat) -> x <> [] ->
  (String.length (vector_out shortest x) + 1 <= 16 * length x + 2)%nat.
Proof.
  intros Hs Hx. unfold vector_out. cbn [String.length]. rewrite string_length_app. cbn [String.length].
  enough (String.length (append_floats shortest x) + 1 <= 16 * length x)%nat by lia.
  induction x as [|v x IH]; [done|]. pose proof (Hs v). destruct x as [|w x]; [cbn; lia|].
  change (append_floats shortest (v :: w :: x)) with (shortest v +:+ String "," (append_floats shortest (w :: x))).
  rewrite string_length_app. specialize (IH ltac:(done)). cbn [length String.length] in *. lia.
Qed.

(** C35: A vector survives printing and reading: for elements the number
    printer and [strtof] take through, [vector_in] returns the very vector
    [vector_out] printed, whatever fitting type modifier it is given. *)
Theorem vector_text_roundtrip v typmod :
  wf_vector v -> Forall prints_ok v -> typmod = -1 \/ typmod = zlen v ->
  vector_in strtof (vector_out shortest v) typmod = Ok v.
Proof.
  intros [Hlen Hfin] Hp Ht. destruct v as [|v x]; [rewrite zlen_nil in Hlen; lia|].
  assert (Hall : Forall (fun v => finite v = true /\ prints_ok v) (v :: x)) by (apply Forall_and; done).
  unfold vector_in, vector_out. change (next_is "[" (skip_space (String "[" (append_floats shortest (v :: x) +:+ "]"))))
    with (Some (append_floats shortest (v :: x) +:+ "]")). cbv iota beta zeta.
  pose proof Hp as [Hpv _]%Forall_cons. assert (Hskip : skip_space (append_floats shortest (v :: x) +:+ "]") = append_floats shortest (v :: x) +:+ "]").
  { rewrite append_floats_cons. by apply skip_space_printed. }
  rewrite Hskip. assert (Hfuel : (length (v :: x) <= S (String.length (append_floats shortest (v :: x) +:+ "]")))%nat).
  { clear -Hp. generalize "]"%string. induction (v :: x) as [|w l IH]; intros r; [cbn; lia|]. apply Forall_cons in Hp as [Hw Hl].
    rewrite append_floats_cons, string_length_app. destruct Hw as [(ch & s & -> & _) _]. destruct l as [|w' l]; [simpl; lia|].
    specialize (IH Hl r). simpl in *. lia. }
  assert (Hloop := vector_in_loop_ok x v [] _ "" Hall ltac:(rewrite zlen_nil; lia) Hfuel). cbn [app] in Hloop.
  destruct Hpv as [(ch & s & Hs & _ & Hch) _]. rewrite append_floats_cons in Hloop |- *. rewrite Hs in Hloop |- *. rewrite string_app_cons in Hloop |- *.
  assert (Hne : forall r, next_is "]" (String ch r) = None) by (intros r; cbn; by destruct (Ascii.eqb_spec ch "]"%char)).
  rewrite Hne. cbn [String.length] in Hloop |- *. rewrite Hloop. cbn [mbind res_bind skip_space].
  unfold CheckDim, CheckExpectedDim. destruct (Z.ltb_spec (zlen (v :: x)) 1); [lia|]. destruct (Z.ltb_spec VECTOR_MAX_DIM (zlen (v :: x))); [lia|]. cbn [mbind res_bind].
  destruct Ht as [->| ->]; [done|]. rewrite Z.eqb_refl, andb_false_r. done.
Qed.
End text_ok.

(** ** Runs *)

Module VectorRuns.
Definition one : float := S754_finite false 8388608 (-23).
Definition minus_two : float := S754_finite true 8388608 (-22).
Definition shortest (x : float) : string := if SFeqb x one then "1" else "-2".
Definition strtof (s : string) : option (float * bool * string) :=
  match s with
  | String "1" r => Some (one, false, r)
  | String "-" (String "2" r) => Some (minus_two, false, r)
  | _ => None
  end.
End VectorRuns.

Lemma vector_cmp_total_order_witness :
  vector_cmp_internal [VectorRuns.one] [VectorRuns.minus_two] = - vector_cmp_internal [VectorRuns.minus_two] [VectorRuns.one].
Proof. apply (vector_cmp_total_order [VectorRuns.minus_two] [VectorRuns.one] []); repeat constructor. Defined.

Lemma subvector_takes_range_witness :
  subvector [VectorRuns.one; VectorRuns.minus_two] (-1) 3 = Ok [VectorRuns.one].
Proof.
  assert (W : wf_vector [VectorRuns.one; VectorRuns.minus_two]) by (split; [vm_compute; split; discriminate|repeat constructor]).
  exact (subvector_takes_range _ (-1) 3 W ltac:(lia) ltac:(lia)).
Defined.

Lemma distances_symmetric_nonnegative_witness : VectorL2SquaredDistance [VectorRuns.one] [VectorRuns.one] = fzero.
Proof.
  destruct (distances_symmetric_nonnegative [VectorRuns.one] []) as (_ & _ & H). apply H.
  split; [vm_compute; split; discriminate|repeat constructor].
Defined.

Lemma vector_in_total_witness :
  match vector_in VectorRuns.strtof "[1,-2" (-1) with
  | Ok v => wf_vector v /\ (-1 = -1 \/ -1 = zlen v)
  | Error e => e = ElogError
  end.
Proof.
  apply vector_in_total. intros s v erange r. unfold VectorRuns.strtof. destruct s as [|c s]; [done|].
  destruct c as [[] [] [] [] [] [] [] []]; try done; [destruct s as [|c s]; [done|]; destruct c as [[] [] [] [] [] [] [] []]; try done|];
    intros [= _ _ <-]; cbn; lia.
Defined.

Lemma vector_text_roundtrip_witness :
  vector_in VectorRuns.strtof (vector_out VectorRuns.shortest [VectorRuns.one; VectorRuns.minus_two]) 2 = Ok [VectorRuns.one; VectorRuns.minus_two].
Proof.
  apply vector_text_roundtrip; [split; [vm_compute; split; discriminate|repeat constructor]| |by right].
  repeat constructor; first [by eexists _, _; split_and!|done].
Defined.
