(* ===== verification/SparseVector.v ===== *)
(** The type [sparsevec] (sparsevec.c): input and output, conversions,
    distances and order, against the dense vectors of [DenseVector].

    A sparse vector is its dimension and its elements, the arrays of indices and
    of values side by side; [nnz] is their number.  [strtol], [strtof],
    [pg_ltoa], PostgreSQL's shortest decimal printing, [qsort] and
    [numeric_float4] are arguments. *)

From Stdlib Require Import Ascii String SpecFloat.
From S2P Require Import Prelude DenseVector.
#[local] Open Scope string_scope.
#[local] Open Scope list_scope.
#[local] Open Scope Z_scope.

Abbreviation elem := (Z * float)%type.
Record SparseVector := { sv_dim : Z; sv_elems : list elem }.
Definition nnz (v : SparseVector) : Z := zlen (sv_elems v).

(** ** Checks *)

Definition SPARSEVEC_MAX_DIM : Z := 1000000000.
Definition SPARSEVEC_MAX_NNZ : Z := 16000.

Definition sparse_CheckDims (a b : SparseVector) : res unit :=
  if negb (sv_dim a =? sv_dim b) then Error ElogError else Ok tt.
Definition sparse_CheckDim (dim : Z) : res unit :=
  if dim <? 1 then Error ElogError else if SPARSEVEC_MAX_DIM <? dim then Error ElogError else Ok tt.

(** The index before, if any, and the index. *)
Definition CheckIndex (prev : option Z) (index dim : Z) : res unit :=
  if (index <? 0) || (dim <=? index) then Error ElogError
  else match prev with
       | Some p => if index <? p then Error ElogError else if index =? p then Error ElogError else Ok tt
       | None => Ok tt
       end.

Fixpoint check_indices (prev : option Z) (l : list elem) (dim : Z) : res unit :=
  match l with
  | [] => Ok tt
  | (index, _) :: l => _ ← CheckIndex prev index dim; check_indices (Some index) l dim
  end.

(** ** Text *)

Definition INT_MAX : Z := 2 ^ 31 - 1.
Definition INT_MIN : Z := - 2 ^ 31.

Fixpoint commas (s : string) : Z :=
  match s with EmptyString => 0 | String ch s => (if Ascii.eqb ch "," then 1 else 0) + commas s end.

Section text.
(** The number at the start of a string and the rest; nothing when there is
    none. *)
Context (strtol : string -> option (Z * string)).
Context (strtof : string -> option (float * bool * string)).
Context (pg_ltoa : Z -> string) (float_to_shortest_decimal : float -> string).
Context (qsort : list elem -> list elem).

Fixpoint sparsevec_in_loop (fuel : nat) (maxNnz : Z) (pt : string) (elements : list elem) : res (list elem * string) :=
  match fuel with
  | O => Error OutOfFuel
  | S fuel =>
      if zlen elements =? maxNnz then Error ElogError
      else
        let pt := skip_space pt in
        match pt with
        | EmptyString => Error ElogError
        | _ =>
            match strtol pt with
            | None => Error ElogError
            | Some (index, stringEnd) =>
                let index := if INT_MAX <? index then INT_MAX else if index <? INT_MIN + 1 then INT_MIN + 1 else index in
                match next_is ":" (skip_space stringEnd) with
                | None => Error ElogError
                | Some pt =>
                    match strtof (skip_space pt) with
                    | None => Error ElogError
                    | Some (value, erange, stringEnd) =>
                        if erange && (is_zero value || is_inf value) then Error ElogError
                        else
                          _ ← CheckElement value;
                          let elements := if negb (is_zero value) then elements ++ [(index - 1, value)] else elements in
                          let pt := skip_space stringEnd in
                          match next_is "," pt, next_is "}" pt with
                          | Some pt, _ => sparsevec_in_loop fuel maxNnz pt elements
                          | None, Some pt => Ok (elements, pt)
                          | None, None => Error ElogError
                          end
                    end
                end
            end
        end
  end.

Definition sparsevec_in (lit : string) (typmod : Z) : res SparseVector :=
  let maxNnz := 1 + commas lit in
  if SPARSEVEC_MAX_NNZ <? maxNnz then Error ElogError
  else
    match next_is "{" (skip_space lit) with
    | None => Error ElogError
    | Some pt =>
        let pt := skip_space pt in
        '(elements, pt) ← match next_is "}" pt with
                          | Some pt => Ok ([], pt)
                          | None => sparsevec_in_loop (S (String.length pt)) maxNnz pt []
                          end;
        match next_is "/" (skip_space pt) with
        | None => Error ElogError
        | Some pt =>
            match strtol (skip_space pt) with
            | None => Error ElogError
            | Some (dim, stringEnd) =>
                let dim := if INT_MAX <? dim then INT_MAX else if dim <? INT_MIN then INT_MIN else dim in
                match skip_space stringEnd with
                | EmptyString =>
                    _ ← sparse_CheckDim dim;
                    _ ← CheckExpectedDim typmod dim;
                    let elements := qsort elements in
                    _ ← check_indices None elements dim;
                    Ok {| sv_dim := dim; sv_elems := elements |}
                | _ => Error ElogError
                end
            end
        end
    end.

Definition append_elem (e : elem) : string := pg_ltoa (e.1 + 1) +:+ String ":" (float_to_shortest_decimal e.2).

Fixpoint append_elems (l : list elem) : string :=
  match l with
  | [] => ""
  | [e] => append_elem e
  | e :: l => append_elem e +:+ String "," (append_elems l)
  end.

Definition sparsevec_out (v : SparseVector) : string :=
  String "{" (append_elems (sv_elems v) +:+ String "}" (String "/" (pg_ltoa (sv_dim v)))).
End text.

(** ** Conversions *)

(** The elements of [x] that are not zero, with their positions from [i]. *)
Fixpoint nonzero_from (i : Z) (x : list float) : list elem :=
  match x with
  | [] => []
  | v :: x => if is_zero v then nonzero_from (i + 1) x else (i, v) :: nonzero_from (i + 1) x
  end.

Definition vector_to_sparsevec (vec : list float) (typmod : Z) : res SparseVector :=
  let dim := zlen vec in
  _ ← sparse_CheckDim dim;
  _ ← CheckExpectedDim typmod dim;
  Ok {| sv_dim := dim; sv_elems := nonzero_from 0 vec |}.

(** [x[indices[i]] = values[i]] on a vector of zeros. *)
Definition store_elem (x : list float) (e : elem) : list float := <[Z.to_nat e.1 := e.2]> x.

Definition sparsevec_to_vector (svec : SparseVector) (typmod : Z) : res (list float) :=
  let dim := sv_dim svec in
  _ ← CheckDim dim;
  _ ← CheckExpectedDim typmod dim;
  Ok (foldl store_elem (replicate (Z.to_nat dim) fzero) (sv_elems svec)).

(** The elements of an array, by the type it has; [None] is a null. *)
Inductive array_elems (numeric : Type) : Type :=
  | INT4OID (l : list (option Z))
  | FLOAT8OID (l : list (option spec_float))
  | FLOAT4OID (l : list (option float))
  | NUMERICOID (l : list (option numeric))
  | OTHEROID (n : Z).
Arguments INT4OID {numeric}. Arguments FLOAT8OID {numeric}. Arguments FLOAT4OID {numeric}.
Arguments NUMERICOID {numeric}. Arguments OTHEROID {numeric}.

(** [(float) v] of an [int32] and of a [double]. *)
Definition float_of_int (z : Z) : float := binary_normalize 24 128 z 0 false.
Definition float_of_double (x : spec_float) : float :=
  match x with S754_finite s m e => binary_round 24 128 s m e | _ => x end.

(** The datum of a [float4] taken for a number: zero only for the pattern 0. *)
Definition datum_not_zero (v : float) : bool := match v with S754_zero false => false | _ => true end.

Section array.
Context {numeric : Type} (numeric_float4 : numeric -> float).

(** The values as floats; the loops that count test the datum of a numeric. *)
Definition array_values (a : array_elems numeric) : option (list (option float) * (float -> bool)) :=
  match a with
  | INT4OID l => Some (option_map float_of_int <$> l, fun v => negb (is_zero v))
  | FLOAT8OID l => Some (option_map float_of_double <$> l, fun v => negb (is_zero v))
  | FLOAT4OID l => Some (l, fun v => negb (is_zero v))
  | NUMERICOID l => Some (option_map numeric_float4 <$> l, datum_not_zero)
  | OTHEROID _ => None
  end.
Definition nelems (a : array_elems numeric) : Z :=
  match a with INT4OID l => zlen l | FLOAT8OID l => zlen l | FLOAT4OID l => zlen l | NUMERICOID l => zlen l | OTHEROID n => n end.

Definition array_to_sparsevec (ndim : Z) (a : array_elems numeric) (typmod : Z) : res SparseVector :=
  if 1 <? ndim then Error ElogError
  else
    match array_values a with
    | Some (l, is_not_zero) =>
        match mapM id l with
        | None => Error ElogError
        | Some vs =>
            _ ← sparse_CheckDim (nelems a);
            _ ← CheckExpectedDim typmod (nelems a);
            let count := zlen (filter (fun v => is_not_zero v = true) vs) in
            let stored := nonzero_from 0 vs in
            if count <? zlen stored then Error ElogError
            else if negb (zlen stored =? count) then Error ElogError
            else if existsb (fun e => is_nan e.2 || is_inf e.2) stored then Error ElogError
            else Ok {| sv_dim := nelems a; sv_elems := stored |}
        end
    | None => Error ElogError
    end.
End array.

(** ** Distances *)

(** The loop over [b] for one element of [a]: what is left of [b] from [bpos],
    the last [bi], the distance.  [both] is added for a common index, [only]
    for an index of [b] alone. *)
Section merge.
Context (both : float -> float -> float) (only : float -> float).

Fixpoint merge_inner (ai : Z) (ax : float) (b : list elem) (bi : Z) (distance : float) : list elem * Z * float :=
  match b with
  | [] => ([], bi, distance)
  | (bj, bx) :: b' =>
      let distance := if ai =? bj then fadd distance (both ax bx) else if bj <? ai then fadd distance (only bx) else distance in
      let rest := if bj <=? ai then b' else b in
      if ai <=? bj then (rest, bj, distance) else merge_inner ai ax b' bj distance
  end.

Fixpoint merge_outer (a b : list elem) (distance : float) : float :=
  match a with
  | [] => foldl (fun distance e => fadd distance (only e.2)) distance b
  | (ai, ax) :: a =>
      let '(b, bi, distance) := merge_inner ai ax b (-1) distance in
      merge_outer a b (if negb (ai =? bi) then fadd distance (only ax) else distance)
  end.
End merge.

Definition SparsevecL2SquaredDistance (a b : SparseVector) : float :=
  merge_outer (fun x y => let diff := fsub x y in fmul diff diff) (fun x => fmul x x) (sv_elems a) (sv_elems b) fzero.

Definition sparsevec_l2_squared_distance (a b : SparseVector) : res float :=
  _ ← sparse_CheckDims a b; Ok (SparsevecL2SquaredDistance a b).
Definition sparsevec_l1_distance (a b : SparseVector) : res float :=
  _ ← sparse_CheckDims a b;
  Ok (merge_outer (fun x y => SFabs (fsub x y)) SFabs (sv_elems a) (sv_elems b) fzero).

Fixpoint product_inner (ai : Z) (ax : float) (b : list elem) (distance : float) : list elem * float :=
  match b with
  | [] => ([], distance)
  | (bi, bx) :: b' =>
      let distance := if ai =? bi then fadd distance (fmul ax bx) else distance in
      let rest := if bi <=? ai then b' else b in
      if ai <=? bi then (rest, distance) else product_inner ai ax b' distance
  end.

Fixpoint product_outer (a b : list elem) (distance : float) : float :=
  match a with
  | [] => distance
  | (ai, ax) :: a => let '(b, distance) := product_inner ai ax b distance in product_outer a b distance
  end.

Definition SparsevecInnerProduct (a b : SparseVector) : float := product_outer (sv_elems a) (sv_elems b) fzero.
Definition sparsevec_inner_product (a b : SparseVector) : res float :=
  _ ← sparse_CheckDims a b; Ok (SparsevecInnerProduct a b).
Definition sparsevec_negative_inner_product (a b : SparseVector) : res float :=
  _ ← sparse_CheckDims a b; Ok (SFopp (SparsevecInnerProduct a b)).

(** ** Order *)

Fixpoint cmp_elems (dima dimb : Z) (a b : list elem) : Z :=
  let dims := if dima <? dimb then -1 else if dimb <? dima then 1 else 0 in
  match a, b with
  | (ai, ax) :: a, (bi, bx) :: b =>
      if ai <? bi then if SFltb ax fzero then -1 else 1
      else if bi <? ai then if SFltb bx fzero then 1 else -1
      else if SFltb ax bx then -1
      else if SFltb bx ax then 1
      else cmp_elems dima dimb a b
  | [], (bi, bx) :: _ => if bi <? dima then if SFltb bx fzero then 1 else -1 else dims
  | (ai, ax) :: _, [] => if ai <? dimb then if SFltb ax fzero then -1 else 1 else dims
  | [], [] => dims
  end.

Definition sparsevec_cmp_internal (a b : SparseVector) : Z := cmp_elems (sv_dim a) (sv_dim b) (sv_elems a) (sv_elems b).

(** ** The dense vector a sparse one stands for *)

(** [n] values from position [i] on; [l] holds those from there that are not
    zero. *)
Fixpoint dense (i : Z) (n : nat) (l : list elem) : list float :=
  match n with
  | O => []
  | S n =>
      match l with
      | (j, v) :: l' => if j =? i then v :: dense (i + 1) n l' else fzero :: dense (i + 1) n l
      | [] => fzero :: dense (i + 1) n []
      end
  end.
Definition dense_of (v : SparseVector) : list float := dense 0 (Z.to_nat (sv_dim v)) (sv_elems v).

Fixpoint sorted_from (i hi : Z) (l : list elem) : Prop :=
  match l with [] => True | (j, _) :: l => i <= j < hi /\ sorted_from (j + 1) hi l end.

Definition good_value (v : float) : Prop := finite v = true /\ is_zero v = false.
Definition wf_sparse (v : SparseVector) : Prop :=
  1 <= sv_dim v <= SPARSEVEC_MAX_DIM /\ sorted_from 0 (sv_dim v) (sv_elems v) /\ Forall (fun e => good_value e.2) (sv_elems v).

Lemma sorted_from_weaken i k hi l : sorted_from i hi l -> k <= i -> sorted_from k hi l.
Proof. destruct l as [|[j v] l]; [done|]. cbn. intuition lia. Qed.

(** What stands at position [i]: an element, and the rest lies behind, or
    nothing. *)
Lemma sorted_from_inv i hi l : sorted_from i hi l ->
  (exists v l', l = (i, v) :: l' /\ sorted_from (i + 1) hi l') \/
  (sorted_from (i + 1) hi l /\ forall n, dense i (S n) l = fzero :: dense (i + 1) n l).
Proof.
  destruct l as [|[j v] l]; [by right|]. cbn [sorted_from]. intros [Hj Hl]. destruct (decide (j = i)) as [->|Hne].
  - left. by eexists _, _.
  - right. split; [split; [lia|done]|]. intros n. cbn. by destruct (Z.eqb_spec j i).
Qed.

Lemma dense_here i n v l : dense i (S n) ((i, v) :: l) = v :: dense (i + 1) n l.
Proof. cbn. by rewrite Z.eqb_refl. Qed.

Lemma dense_length n : forall i l, length (dense i n l) = n.
Proof. induction n as [|n IH]; intros i l; [done|]. destruct l as [|[j v] l]; cbn; [by rewrite IH|]. destruct (j =? i); cbn; by rewrite IH. Qed.

Lemma zlen_dense_of v : wf_sparse v -> zlen (dense_of v) = sv_dim v.
Proof. intros [Hd _]. unfold dense_of, zlen. rewrite dense_length. lia. Qed.

Lemma sorted_from_end i hi l : sorted_from i hi l -> hi <= i -> l = [].
Proof. destruct l as [|[j v] l]; [done|]. cbn. lia. Qed.

(** ** Distances *)

Section merge_ok.
Context (both : float -> float -> float) (only : float -> float).
Context (both_l : forall x, both x fzero = only x) (both_r : forall y, both fzero y = only y).
Context (only_zero : only fzero = fzero) (both_nonneg : forall x y, nonneg (both x y)).

Lemma only_nonneg x : nonneg (only x).
Proof. rewrite <-both_l. apply both_nonneg. Qed.

Lemma fadd_zero_r d : nonneg d -> fadd d fzero = d.
Proof. unfold nonneg, fadd. by destruct d as [[]|s| |s m e]. Qed.

Lemma merge_only_a i hi x a b d : 0 <= i -> sorted_from (i + 1) hi b ->
  merge_outer both only ((i, x) :: a) b d = merge_outer both only a b (fadd d (only x)).
Proof.
  intros Hi Hb. cbn [merge_outer]. destruct b as [|[j y] b]; cbn [merge_inner].
  - by destruct (Z.eqb_spec i (-1)); [lia|].
  - cbn in Hb. destruct (Z.eqb_spec i j); [lia|]. destruct (Z.ltb_spec j i); [lia|]. destruct (Z.leb_spec j i); [lia|].
    destruct (Z.leb_spec i j); [|lia]. by destruct (Z.eqb_spec i j); [lia|].
Qed.

Lemma merge_only_b i hi y a b d : 0 <= i -> sorted_from (i + 1) hi a ->
  merge_outer both only a ((i, y) :: b) d = merge_outer both only a b (fadd d (only y)).
Proof.
  intros Hi Ha. destruct a as [|[j x] a]; [done|]. cbn in Ha. cbn [merge_outer merge_inner].
  destruct (Z.eqb_spec j i); [lia|]. destruct (Z.ltb_spec i j); [|lia]. destruct (Z.leb_spec j i); [lia|].
  destruct b as [|[k z] b]; [|done]. cbn [merge_inner]. destruct (Z.eqb_spec j i), (Z.eqb_spec j (-1)); done || lia.
Qed.

Lemma merge_both i x y a b d :
  merge_outer both only ((i, x) :: a) ((i, y) :: b) d = merge_outer both only a b (fadd d (both x y)).
Proof. cbn [merge_outer merge_inner]. rewrite !Z.eqb_refl, Z.leb_refl. by rewrite Z.eqb_refl. Qed.

Lemma merge_dense n : forall i a b d, 0 <= i -> sorted_from i (i + Z.of_nat n) a -> sorted_from i (i + Z.of_nat n) b -> nonneg d ->
  merge_outer both only a b d = foldl (fun d p => fadd d (both p.1 p.2)) d (zip (dense i n a) (dense i n b)).
Proof.
  induction n as [|n IH]; intros i a b d Hi Ha Hb Hd.
  - by rewrite (sorted_from_end _ _ _ Ha), (sorted_from_end _ _ _ Hb) by lia.
  - replace (i + Z.of_nat (S n)) with (i + 1 + Z.of_nat n) in * by lia.
    destruct (sorted_from_inv _ _ _ Ha) as [(x & a' & -> & Ha')|[Ha' Ea]], (sorted_from_inv _ _ _ Hb) as [(y & b' & -> & Hb')|[Hb' Eb]];
      rewrite ?dense_here, ?Ea, ?Eb; cbn [zip zip_with foldl fst snd].
    + rewrite merge_both. apply IH; [lia|done|done|by apply fadd_nonneg].
    + rewrite both_l. rewrite (merge_only_a _ _ _ _ _ _ Hi Hb'). apply IH; [lia|done|done|apply fadd_nonneg; [done|apply only_nonneg]].
    + rewrite both_r. rewrite (merge_only_b _ _ _ _ _ _ Hi Ha'). apply IH; [lia|done|done|apply fadd_nonneg; [done|apply only_nonneg]].
    + rewrite both_l, only_zero, fadd_zero_r by done. apply IH; [lia|done|done|done].
Qed.
End merge_ok.

Lemma fsub_zero_r x : fsub x fzero = x.
Proof. by destruct x as [[]|[]| |[] m e]. Qed.

(** Equal, or zeros of either sign. *)
Definition eqz (x y : float) : Prop := x = y \/ exists s s', x = S754_zero s /\ y = S754_zero s'.

Lemma eqz_fadd x y z : eqz x y -> eqz (fadd x z) (fadd y z).
Proof.
  intros [->|(s & s' & -> & ->)]; [by left|]. unfold fadd. destruct z as [t|t| |t m e]; try by left.
  right. cbn. destruct s, s', t; by eexists _, _.
Qed.

Lemma eqz_zero_r x y s : eqz x y -> eqz x (fadd y (S754_zero s)).
Proof.
  assert (Hy : eqz y (fadd y (S754_zero s))) by (unfold fadd; destruct y as [t|t| |t m e]; try (by left); right; destruct t, s; by eexists _, _).
  intros [->|(t & t' & -> & ->)]; [done|]. destruct Hy as [<-|(u & u' & _ & ->)]; right; by eexists _, _.
Qed.

Lemma fmul_zero_l x : finite x = true -> exists s, fmul fzero x = S754_zero s.
Proof. destruct x as [t|t| |t m e]; try done; intros _; by eexists. Qed.

Lemma product_only_a i hi x a b d : sorted_from (i + 1) hi b -> product_outer ((i, x) :: a) b d = product_outer a b d.
Proof.
  intros Hb. cbn [product_outer]. destruct b as [|[j y] b]; [done|]. cbn in Hb. cbn [product_inner].
  destruct (Z.eqb_spec i j); [lia|]. destruct (Z.leb_spec j i); [lia|]. by destruct (Z.leb_spec i j); [|lia].
Qed.

Lemma product_only_b i hi y a b d : sorted_from (i + 1) hi a -> product_outer a ((i, y) :: b) d = product_outer a b d.
Proof.
  intros Ha. destruct a as [|[j x] a]; [done|]. cbn in Ha. cbn [product_outer product_inner].
  destruct (Z.eqb_spec j i); [lia|]. by destruct (Z.leb_spec j i); [lia|].
Qed.

Lemma product_both i x y a b d : product_outer ((i, x) :: a) ((i, y) :: b) d = product_outer a b (fadd d (fmul x y)).
Proof. cbn [product_outer product_inner]. by rewrite Z.eqb_refl, Z.leb_refl. Qed.

Lemma product_dense n : forall i a b d d', sorted_from i (i + Z.of_nat n) a -> sorted_from i (i + Z.of_nat n) b ->
  Forall (fun e => finite e.2 = true) a -> Forall (fun e => finite e.2 = true) b -> eqz d d' ->
  eqz (product_outer a b d) (foldl (fun d p => fadd d (fmul p.1 p.2)) d' (zip (dense i n a) (dense i n b))).
Proof.
  induction n as [|n IH]; intros i a b d d' Ha Hb Fa Fb Hd.
  - by rewrite (sorted_from_end _ _ _ Ha), (sorted_from_end _ _ _ Hb) by lia.
  - replace (i + Z.of_nat (S n)) with (i + 1 + Z.of_nat n) in * by lia.
    destruct (sorted_from_inv _ _ _ Ha) as [(x & a' & -> & Ha')|[Ha' Ea]], (sorted_from_inv _ _ _ Hb) as [(y & b' & -> & Hb')|[Hb' Eb]];
      rewrite ?dense_here, ?Ea, ?Eb; cbn [zip zip_with foldl fst snd].
    + apply Forall_cons in Fa as [_ Fa], Fb as [_ Fb]. rewrite product_both. apply IH; [done..|by apply eqz_fadd].
    + apply Forall_cons in Fa as [Fx Fa]. rewrite (product_only_a _ _ _ _ _ _ Hb'). destruct (fmul_zero_l x Fx) as (s & Hs).
      rewrite fmul_comm, Hs. apply IH; [done..|by apply eqz_zero_r].
    + apply Forall_cons in Fb as [Fy Fb]. rewrite (product_only_b _ _ _ _ _ _ Ha'). destruct (fmul_zero_l y Fy) as (s & Hs).
      rewrite Hs. apply IH; [done..|by apply eqz_zero_r].
    + apply IH; [done..|]. by apply (eqz_zero_r _ _ false).
Qed.

(** ** Order *)

Lemma SFltb_not_zero x : good_value x -> (SFltb x fzero = true /\ SFltb fzero x = false) \/ (SFltb x fzero = false /\ SFltb fzero x = true).
Proof. intros [Hf Hz]. destruct x as [[]|[]| |[] m e]; try done; [by left|by right]. Qed.

Lemma cmp_dense na : forall nb i dima dimb a b, dima = i + Z.of_nat na -> dimb = i + Z.of_nat nb ->
  sorted_from i dima a -> sorted_from i dimb b -> Forall (fun e => good_value e.2) a -> Forall (fun e => good_value e.2) b ->
  cmp_elems dima dimb a b = vector_cmp_internal (dense i na a) (dense i nb b).
Proof.
  induction na as [|na IH]; intros nb i dima dimb a b Hda Hdb Ha Hb Fa Fb.
  - rewrite (sorted_from_end _ _ _ Ha) by lia. destruct nb as [|nb].
    + rewrite (sorted_from_end _ _ _ Hb) by lia. cbn. replace dimb with dima by lia. by rewrite Z.ltb_irrefl.
    + replace (vector_cmp_internal _ _) with (-1) by (destruct b as [|[j y] b]; cbn [dense]; [|destruct (j =? i)]; by rewrite vector_cmp_nil_l).
      destruct b as [|[j y] b]; cbn [cmp_elems]; [by destruct (Z.ltb_spec dima dimb); [|lia]|].
      cbn in Hb. destruct (Z.ltb_spec j dima); [lia|]. by destruct (Z.ltb_spec dima dimb); [|lia].
  - destruct nb as [|nb].
    + rewrite (sorted_from_end _ _ _ Hb) by lia.
      replace (vector_cmp_internal _ _) with 1 by (destruct a as [|[j y] a]; cbn [dense]; [|destruct (j =? i)]; by rewrite vector_cmp_nil_r).
      destruct a as [|[j y] a]; cbn [cmp_elems].
      * destruct (Z.ltb_spec dima dimb); [lia|]. by destruct (Z.ltb_spec dimb dima); [|lia].
      * cbn in Ha. destruct (Z.ltb_spec j dimb); [lia|]. destruct (Z.ltb_spec dima dimb); [lia|]. by destruct (Z.ltb_spec dimb dima); [|lia].
    + assert (Hda' : dima = i + 1 + Z.of_nat na) by lia. assert (Hdb' : dimb = i + 1 + Z.of_nat nb) by lia.
      destruct (sorted_from_inv _ _ _ Ha) as [(x & a' & -> & Ha')|[Ha' Ea]], (sorted_from_inv _ _ _ Hb) as [(y & b' & -> & Hb')|[Hb' Eb]];
        rewrite ?dense_here, ?Ea, ?Eb, vector_cmp_cons.
      * apply Forall_cons in Fa as [Fx Fa], Fb as [Fy Fb]. cbn [cmp_elems]. rewrite Z.ltb_irrefl. destruct (SFltb x y); [done|].
        destruct (SFltb y x); [done|]. by apply IH.
      * apply Forall_cons in Fa as [Fx Fa]. destruct (SFltb_not_zero x Fx) as [[E1 E2]|[E1 E2]]; cbn [fst snd] in *; rewrite E1, ?E2.
        all: destruct b as [|[j y] b]; cbn [cmp_elems]; [by destruct (Z.ltb_spec i dimb); [rewrite E1|lia]|].
        all: cbn in Hb'; by destruct (Z.ltb_spec i j); [rewrite E1|lia].
      * apply Forall_cons in Fb as [Fy Fb]. destruct (SFltb_not_zero y Fy) as [[E1 E2]|[E1 E2]]; cbn [fst snd] in *; rewrite E2, ?E1.
        all: destruct a as [|[j x] a]; cbn [cmp_elems]; [by destruct (Z.ltb_spec i dima); [rewrite E1|lia]|].
        all: cbn in Ha'; destruct (Z.ltb_spec j i); [lia|]; by destruct (Z.ltb_spec i j); [rewrite E1|lia].
      * cbn [SFltb]. by apply IH.
Qed.

(** ** Conversions *)

Lemma store_dense n : forall p l, sorted_from (zlen p) (zlen p + Z.of_nat n) l ->
  foldl store_elem (p ++ replicate n fzero) l = p ++ dense (zlen p) n l.
Proof.
  induction n as [|n IH]; intros p l Hl.
  - by rewrite (sorted_from_end _ _ _ Hl) by lia.
  - assert (Hsnoc : forall v, zlen (p ++ [v]) = zlen p + 1) by (intros v; rewrite zlen_app, zlen_cons, zlen_nil; lia).
    assert (Hmv : forall v k, p ++ v :: k = (p ++ [v]) ++ k) by (intros v k; by rewrite <-app_assoc).
    replace (zlen p + Z.of_nat (S n)) with (zlen p + 1 + Z.of_nat n) in Hl by lia.
    destruct (sorted_from_inv _ _ _ Hl) as [(v & l' & -> & Hl')|[Hl' El]]; rewrite ?dense_here, ?El.
    + cbn [foldl replicate]. unfold store_elem at 2. cbn [fst snd]. unfold zlen at 1. rewrite Nat2Z.id.
      rewrite insert_app_r_alt, Nat.sub_diag by lia. cbn [list_insert insert]. rewrite (Hmv v), (Hmv v (dense _ _ _)), <-(Hsnoc v). apply IH. by rewrite Hsnoc.
    + cbn [replicate]. rewrite (Hmv fzero), (Hmv fzero (dense _ _ _)), <-(Hsnoc fzero). apply IH. by rewrite Hsnoc.
Qed.

Lemma nonzero_from_sorted i x hi : i + zlen x <= hi -> sorted_from i hi (nonzero_from i x).
Proof.
  revert i. induction x as [|v x IH]; intros i Hh; [done|]. rewrite zlen_cons in Hh. pose proof (zlen_nonneg x). cbn [nonzero_from].
  destruct (is_zero v); [eapply sorted_from_weaken; [apply IH|]; lia|]. split; [lia|]. apply IH. lia.
Qed.

Lemma nonzero_from_good i x : Forall (fun v => finite v = true) x -> Forall (fun e => good_value e.2) (nonzero_from i x).
Proof. intros Hx. revert i. induction Hx as [|v x Hv Hx IH]; intros i; [done|]. cbn. destruct (is_zero v) eqn:E; [apply IH|by constructor]. Qed.

(** A vector with its negative zeros made positive. *)
Definition positive_zero (v : float) : float := if is_zero v then fzero else v.

Lemma dense_nonzero x : forall i, dense i (length x) (nonzero_from i x) = positive_zero <$> x.
Proof.
  induction x as [|v x IH]; intros i; [done|]. cbn [length nonzero_from fmap list_fmap]. unfold positive_zero at 1. destruct (is_zero v); [|by rewrite dense_here, IH].
  pose proof (nonzero_from_sorted (i + 1) x (i + 1 + zlen x) ltac:(lia)) as Hs.
  destruct (sorted_from_inv i (i + 1 + zlen x) (nonzero_from (i + 1) x) (sorted_from_weaken (i + 1) i _ _ Hs ltac:(lia))) as [(w & l & E & _)|[_ E]].
  - exfalso. rewrite E in Hs. cbn in Hs. lia.
  - rewrite E, IH. done.
Qed.

Lemma nonzero_dense n : forall i l, sorted_from i (i + Z.of_nat n) l -> Forall (fun e => good_value e.2) l -> nonzero_from i (dense i n l) = l.
Proof.
  induction n as [|n IH]; intros i l Hl Hg; [by rewrite (sorted_from_end _ _ _ Hl) by lia|].
  replace (i + Z.of_nat (S n)) with (i + 1 + Z.of_nat n) in Hl by lia.
  destruct (sorted_from_inv _ _ _ Hl) as [(v & l' & -> & Hl')|[Hl' E]]; rewrite ?dense_here, ?E; cbn [nonzero_from].
  - apply Forall_cons in Hg as [[_ Hv] Hg]. cbn in Hv. rewrite Hv. f_equal. by apply IH.
  - by apply IH.
Qed.

Lemma dense_finite n : forall i l, Forall (fun e => good_value e.2) l -> Forall (fun v => finite v = true) (dense i n l).
Proof.
  induction n as [|n IH]; intros i l Hl; [constructor|]. destruct l as [|[j v] l]; cbn; [constructor; [done|by apply IH]|].
  destruct (j =? i); [|constructor; [done|by apply IH]]. apply Forall_cons in Hl as [[Hv _] Hl]. constructor; [done|by apply IH].
Qed.

(** ** Text *)

Section text_ok.
Context (strtol : string -> option (Z * string)) (strtof : string -> option (float * bool * string)).
Context (pg_ltoa : Z -> string) (shortest : float -> string) (qsort : list elem -> list elem).

Definition strtol_consumes : Prop := forall s z r, strtol s = Some (z, r) -> (String.length r < String.length s)%nat.
Definition qsort_permutes : Prop := forall l, Permutation (qsort l) l.

Lemma check_indices_sorted l dim : forall prev, check_indices prev l dim = Ok tt ->
  sorted_from match prev with Some p => p + 1 | None => 0 end dim l.
Proof.
  induction l as [|[j v] l IH]; intros prev H; [done|]. cbn [check_indices] in H. unfold CheckIndex in H. cbn [sorted_from].
  destruct (Z.ltb_spec j 0); [done|]. destruct (Z.leb_spec dim j); [done|]. cbn [orb] in H.
  destruct prev as [p|]; [|split; [lia|by apply (IH (Some j))]].
  destruct (Z.ltb_spec j p); [done|]. destruct (Z.eqb_spec j p); [done|]. split; [lia|by apply (IH (Some j))].
Qed.

Lemma check_indices_error l dim : forall prev e, check_indices prev l dim = Error e -> e = ElogError.
Proof.
  induction l as [|[j v] l IH]; intros prev e H; [done|]. cbn [check_indices] in H. unfold CheckIndex in H.
  destruct ((j <? 0) || (dim <=? j)); [by injection H|]. destruct prev as [p|]; [|by eapply IH].
  destruct (j <? p); [by injection H|]. destruct (j =? p); [by injection H|]. by eapply IH.
Qed.

Lemma sparsevec_in_loop_total maxNnz : strtol_consumes -> strtof_consumes strtof -> forall fuel pt x,
  (String.length pt < fuel)%nat -> Forall (fun e => good_value e.2) x -> zlen x <= maxNnz ->
  match sparsevec_in_loop strtol strtof fuel maxNnz pt x with
  | Ok (x', _) => Forall (fun e => good_value e.2) x' /\ zlen x' <= maxNnz
  | Error e => e = ElogError
  end.
Proof.
  intros Hl Hf. induction fuel as [|fuel IH]; intros pt x Hfuel Hx Hlen; [lia|]. cbn [sparsevec_in_loop].
  destruct (Z.eqb_spec (zlen x) maxNnz); [done|]. pose proof (skip_space_length pt). destruct (skip_space pt) as [|ch pt']; [done|]. cbv zeta.
  destruct (strtol _) as [[index r]|] eqn:El; [|done]. apply Hl in El. pose proof (skip_space_length r).
  destruct (next_is ":" (skip_space r)) as [pt2|] eqn:E2; [|done]. apply next_is_length in E2. pose proof (skip_space_length pt2).
  destruct (strtof _) as [[[v erange] r']|] eqn:Ef; [|done]. apply Hf in Ef. pose proof (skip_space_length r').
  destruct (erange && _); [done|]. unfold CheckElement. destruct (is_nan v) eqn:Hn; [done|]. destruct (is_inf v) eqn:Hi; [done|]. cbn [mbind res_bind].
  set (index' := (if INT_MAX <? index then _ else _) - 1). set (x2 := if negb (is_zero v) then _ else x).
  assert (Hx2 : Forall (fun e => good_value e.2) x2 /\ zlen x2 <= maxNnz).
  { unfold x2. destruct (is_zero v) eqn:Hz; cbn [negb]; [by split|]. rewrite zlen_app, zlen_cons, zlen_nil. split; [|lia].
    apply Forall_app. split; [done|]. constructor; [|done]. split; [|done]. unfold finite. cbn. by rewrite Hn, Hi. }
  destruct Hx2 as [Hx2 Hlen2]. destruct (next_is "," (skip_space r')) as [pt3|] eqn:E3.
  - apply next_is_length in E3. apply IH; [lia|done|lia].
  - by destruct (next_is "}" (skip_space r')).
Qed.

Lemma commas_nonneg s : 0 <= commas s.
Proof. induction s as [|c s IH]; cbn; [done|]. destruct (Ascii.eqb c ","); lia. Qed.

Lemma commas_app s t : commas (s +:+ t) = commas s + commas t.
Proof. induction s as [|c s IH]; [done|]. rewrite string_app_cons. cbn [commas]. rewrite IH. lia. Qed.

(** The commas between the elements. *)
Lemma commas_out v : nnz v - 1 <= commas (sparsevec_out pg_ltoa shortest v).
Proof.
  unfold sparsevec_out, nnz. cbn [commas]. rewrite commas_app. pose proof (commas_nonneg (String "}" (String "/" (pg_ltoa (sv_dim v))))).
  change (Ascii.eqb "{" ",") with false. cbv iota.
  enough (zlen (sv_elems v) - 1 <= commas (append_elems pg_ltoa shortest (sv_elems v))) by lia.
  induction (sv_elems v) as [|e l IH]; [rewrite zlen_nil; cbn [append_elems commas]; lia|]. destruct l as [|f l].
  - change (zlen [e]) with 1. cbn [append_elems]. pose proof (commas_nonneg (append_elem pg_ltoa shortest e)). lia.
  - change (append_elems pg_ltoa shortest (e :: f :: l)) with (append_elem pg_ltoa shortest e +:+ String "," (append_elems pg_ltoa shortest (f :: l))).
    rewrite zlen_cons, commas_app. change (commas (String "," ?s)) with (1 + commas s). pose proof (commas_nonneg (append_elem pg_ltoa shortest e)).
    cbn [commas]. change (Ascii.eqb "," ",") with true. cbv iota. lia.
Qed.
(** [qsort] with [CompareIndices]. *)
Definition qsort_sorts : Prop := forall l, Permutation (qsort l) l /\ StronglySorted (fun e f : elem => e.1 <= f.1) (qsort l).

Lemma sorted_from_strong l hi : forall i, sorted_from i hi l -> Forall (fun e => i <= e.1) l /\ StronglySorted (fun e f : elem => e.1 < f.1) l.
Proof.
  induction l as [|[j v] l IH]; intros i H; [by split; constructor|]. cbn [sorted_from] in H. destruct H as [Hj Hl].
  destruct (IH _ Hl) as [Hall Hs]. split; constructor; [cbn; lia| |done|].
  - eapply Forall_impl; [exact Hall|]. cbn. intros; lia.
  - eapply Forall_impl; [exact Hall|]. cbn. intros; lia.
Qed.

Lemma strong_index_inj (l : list elem) e f : StronglySorted (fun e f : elem => e.1 < f.1) l -> e ∈ l -> f ∈ l -> e.1 = f.1 -> e = f.
Proof.
  induction 1 as [|g l Hs IH Hg]; [by intros ?%elem_of_nil|]. rewrite !elem_of_cons. rewrite Forall_forall in Hg.
  intros [->|He] [->|Hf] Heq; [done|apply Hg in Hf; lia|apply Hg in He; lia|by apply IH].
Qed.

Lemma qsort_sorted l hi : qsort_sorts -> sorted_from 0 hi l -> qsort l = l.
Proof.
  intros Hq Hs. destruct (Hq l) as [Hp Hso]. destruct (sorted_from_strong _ _ _ Hs) as [_ Hst].
  eapply (StronglySorted_unique_strong (fun e f : elem => e.1 <= f.1)); [|exact Hso| |exact Hp].
  - intros e f He Hf H1 H2. rewrite Hp in He. eapply strong_index_inj; [exact Hst|done|done|lia].
  - clear -Hst. induction Hst as [|e l Hl IH He]; constructor; [done|]. eapply Forall_impl; [exact He|]. cbn. intros; lia.
Qed.

Lemma check_indices_ok l dim : forall i prev, sorted_from i dim l -> match prev with Some p => p < i | None => 0 <= i end -> 0 <= i -> check_indices prev l dim = Ok tt.
Proof.
  induction l as [|[j v] l IH]; intros i prev H Hp Hi; [done|]. cbn [sorted_from] in H. destruct H as [Hj Hl]. cbn [check_indices].
  assert (E : CheckIndex prev j dim = Ok tt).
  { unfold CheckIndex. destruct (Z.ltb_spec j 0); [lia|]. destruct (Z.leb_spec dim j); [lia|]. cbn [orb]. destruct prev as [p|]; [|done].
    destruct (Z.ltb_spec j p); [lia|]. by destruct (Z.eqb_spec j p); [lia|]. }
  rewrite E. cbn [mbind res_bind]. apply (IH (j + 1)); [done|lia|lia].
Qed.

(** What the printers and readers do with a number followed by the character
    that stops it. *)
Definition prints_index_ok (z : Z) : Prop :=
  (exists ch s, pg_ltoa z = String ch s /\ vector_isspace ch = false /\ ch <> "}"%char) /\ commas (pg_ltoa z) = 0 /\
  forall rest, rest = "" \/ (exists s, rest = String ":" s) -> strtol (pg_ltoa z +:+ rest) = Some (z, rest).
Definition prints_value_ok (v : float) : Prop :=
  (exists ch s, shortest v = String ch s /\ vector_isspace ch = false) /\ commas (shortest v) = 0 /\
  forall rest s, rest = String "," s \/ rest = String "}" s -> strtof (shortest v +:+ rest) = Some (v, false, rest).
Definition prints_elem_ok (e : elem) : Prop := prints_index_ok (e.1 + 1) /\ prints_value_ok e.2.

Lemma skip_space_head w ch s rest : w = String ch s -> vector_isspace ch = false -> skip_space (w +:+ rest) = w +:+ rest.
Proof. intros -> H. rewrite string_app_cons. cbn [skip_space]. by rewrite H. Qed.

Lemma sparsevec_in_loop_step e fuel maxNnz acc rest s :
  good_value e.2 -> prints_elem_ok e -> 0 <= e.1 < SPARSEVEC_MAX_DIM -> zlen acc < maxNnz -> rest = String "," s \/ rest = String "}" s ->
  sparsevec_in_loop strtol strtof (S fuel) maxNnz (append_elem pg_ltoa shortest e +:+ rest) acc =
    match next_is "," rest with Some pt => sparsevec_in_loop strtol strtof fuel maxNnz pt (acc ++ [e]) | None => Ok (acc ++ [e], s) end.
Proof.
  intros [Hfin Hnz] [Hi Hv] Hr Hlen Hrest. destruct e as [i v]. cbn [fst snd] in *. unfold SPARSEVEC_MAX_DIM in Hr. cbn [sparsevec_in_loop].
  destruct (Z.eqb_spec (zlen acc) maxNnz); [lia|]. destruct Hi as ((ch & t & Eh & Hsp & _) & _ & Hl). destruct Hv as ((ch' & t' & Eh' & Hsp') & _ & Hf).
  assert (Etext : append_elem pg_ltoa shortest (i, v) +:+ rest = pg_ltoa (i + 1) +:+ String ":" (shortest v +:+ rest)).
  { unfold append_elem. cbn [fst snd]. by rewrite string_app_assoc. }
  rewrite Etext, (skip_space_head _ _ _ _ Eh Hsp). specialize (Hl (String ":" (shortest v +:+ rest)) ltac:(right; by eexists)).
  rewrite Eh, string_app_cons in Hl |- *. cbv zeta. rewrite Hl. cbn [skip_space]. change (vector_isspace ":") with false. cbv iota.
  rewrite next_is_here, (skip_space_head _ _ _ _ Eh' Hsp'), (Hf _ _ Hrest). cbn [andb].
  unfold CheckElement. unfold finite in Hfin. destruct (is_nan v); [done|]. destruct (is_inf v); [done|]. cbn [mbind res_bind]. rewrite Hnz. cbn [negb].
  unfold INT_MAX, INT_MIN. destruct (Z.ltb_spec (2 ^ 31 - 1) (i + 1)); [lia|]. destruct (Z.ltb_spec (i + 1) (- 2 ^ 31 + 1)); [lia|].
  replace (i + 1 - 1) with i by lia. by destruct Hrest as [-> | ->].
Qed.

Lemma append_elems_cons e l rest : append_elems pg_ltoa shortest (e :: l) +:+ rest =
  append_elem pg_ltoa shortest e +:+ match l with [] => rest | _ => String "," (append_elems pg_ltoa shortest l +:+ rest) end.
Proof.
  destruct l as [|f l]; [done|].
  change (append_elems pg_ltoa shortest (e :: f :: l)) with (append_elem pg_ltoa shortest e +:+ String "," (append_elems pg_ltoa shortest (f :: l))).
  by rewrite string_app_assoc.
Qed.

Definition loop_elem_ok (e : elem) : Prop := good_value e.2 /\ prints_elem_ok e /\ 0 <= e.1 < SPARSEVEC_MAX_DIM.

Lemma sparsevec_in_loop_ok maxNnz l : forall e acc fuel tail,
  Forall loop_elem_ok (e :: l) -> zlen acc + zlen (e :: l) <= maxNnz -> (length (e :: l) <= fuel)%nat ->
  sparsevec_in_loop strtol strtof fuel maxNnz (append_elems pg_ltoa shortest (e :: l) +:+ String "}" tail) acc = Ok (acc ++ e :: l, tail).
Proof.
  induction l as [|f l IH]; intros e acc fuel tail [(Hg & Hp & Hr) Hl]%Forall_cons Hlen Hfuel; (destruct fuel as [|fuel]; [cbn in Hfuel; lia|]);
    rewrite append_elems_cons; rewrite !zlen_cons in Hlen.
  - by rewrite (sparsevec_in_loop_step e fuel _ acc _ tail) by (first [done|rewrite zlen_nil in Hlen; lia|by right]).
  - pose proof (zlen_nonneg l).
    rewrite (sparsevec_in_loop_step e fuel _ acc _ (append_elems pg_ltoa shortest (f :: l) +:+ String "}" tail)) by (first [done|lia|by left]).
    rewrite next_is_here. cbv iota beta. rewrite IH; [by rewrite <-app_assoc|done| |cbn in *; lia]. rewrite zlen_app, !zlen_cons, zlen_nil. lia.
Qed.

(** The commas of the text are those between the elements. *)
Lemma commas_elems e l : Forall prints_elem_ok (e :: l) -> commas (append_elems pg_ltoa shortest (e :: l)) = zlen l.
Proof.
  revert e. induction l as [|f l IH]; intros e [He Hl]%Forall_cons.
  all: assert (Hce : commas (append_elem pg_ltoa shortest e) = 0)
    by (destruct He as [(_ & Hi & _) (_ & Hv & _)]; unfold append_elem; rewrite commas_app; cbn [commas];
        change (Ascii.eqb ":" ",") with false; cbv iota; lia).
  - cbn [append_elems]. by rewrite Hce.
  - change (append_elems pg_ltoa shortest (e :: f :: l)) with (append_elem pg_ltoa shortest e +:+ String "," (append_elems pg_ltoa shortest (f :: l))).
    rewrite commas_app, Hce. cbn [commas]. change (Ascii.eqb "," ",") with true. cbv iota. rewrite (IH f Hl), zlen_cons. lia.
Qed.

Lemma append_elems_length e l : Forall prints_elem_ok (e :: l) -> (length (e :: l) <= String.length (append_elems pg_ltoa shortest (e :: l)))%nat.
Proof.
  revert e. induction l as [|f l IH]; intros e [He Hl]%Forall_cons.
  all: assert (Hce : (1 <= String.length (append_elem pg_ltoa shortest e))%nat)
    by (unfold append_elem; rewrite string_length_app; cbn [String.length]; lia).
  - done.
  - change (append_elems pg_ltoa shortest (e :: f :: l)) with (append_elem pg_ltoa shortest e +:+ String "," (append_elems pg_ltoa shortest (f :: l))).
    rewrite string_length_app. cbn [String.length]. specialize (IH f Hl). cbn [length] in *. lia.
Qed.

Lemma sorted_from_below l hi : forall i, sorted_from i hi l -> Forall (fun e => i <= e.1 < hi) l.
Proof.
  induction l as [|[j v] l IH]; intros i H; [done|]. cbn [sorted_from] in H. destruct H as [Hj Hl]. constructor; [done|].
  eapply Forall_impl; [by apply IH|]. cbn. intros; lia.
Qed.
Lemma commas_text l dim : commas (pg_ltoa dim) = 0 -> Forall prints_elem_ok l ->
  commas (String "{" (append_elems pg_ltoa shortest l +:+ String "}" (String "/" (pg_ltoa dim)))) = Z.max 0 (zlen l - 1).
Proof.
  intros Hc0 Hp. cbn [commas]. change (Ascii.eqb "{" ",") with false. cbv iota. rewrite commas_app. cbn [commas].
    change (Ascii.eqb "}" ",") with false. change (Ascii.eqb "/" ",") with false. cbv iota. rewrite Hc0.
    destruct l as [|e l]; [done|]. rewrite (commas_elems _ _ Hp), zlen_cons. pose proof (zlen_nonneg l). lia.
Qed.

(** The list between the braces. *)
Lemma parse_elems l hi tail maxNnz : sorted_from 0 hi l -> hi <= SPARSEVEC_MAX_DIM -> zlen l <= maxNnz ->
  Forall (fun e => good_value e.2) l -> Forall prints_elem_ok l ->
  let pt := skip_space (append_elems pg_ltoa shortest l +:+ String "}" tail) in
  match next_is "}" pt with
  | Some pt => Ok ([], pt)
  | None => sparsevec_in_loop strtol strtof (S (String.length pt)) maxNnz pt []
  end = Ok (l, tail).
Proof.
  intros Hs Hhi Hmax Hg Hp. cbv zeta. destruct l as [|e l]; [done|]. rewrite append_elems_cons.
    pose proof Hp as [[((ch' & t' & Eh' & Hsp' & Hbr) & _) _] _]%Forall_cons.
    assert (Ehd : forall r, exists u, append_elem pg_ltoa shortest e +:+ r = String ch' u).
    { intros r. unfold append_elem. rewrite Eh', !string_app_cons. by eexists. }
    match goal with |- context [append_elem pg_ltoa shortest e +:+ ?r] => set (rest := r) end.
    assert (Eskip : skip_space (append_elem pg_ltoa shortest e +:+ rest) = append_elem pg_ltoa shortest e +:+ rest).
    { destruct (Ehd rest) as [u ->]. cbn [skip_space]. by rewrite Hsp'. }
    rewrite Eskip. assert (Enext : next_is "}" (append_elem pg_ltoa shortest e +:+ rest) = None).
    { destruct (Ehd rest) as [u ->]. cbn. by destruct (Ascii.eqb_spec ch' "}"%char). }
    rewrite Enext. unfold rest. rewrite <-append_elems_cons.
    apply (sparsevec_in_loop_ok _ l e []).
    - pose proof (sorted_from_below _ _ _ Hs) as Hb. rewrite Forall_forall in Hb, Hg, Hp |- *. intros f Hf. unfold loop_elem_ok.
      split_and!; [by apply Hg|by apply Hp| |]; specialize (Hb f Hf); lia.
    - rewrite zlen_nil. lia.
    - rewrite string_length_app. pose proof (append_elems_length _ _ Hp). cbn [app]. lia.
Qed.
End text_ok.

(** ** Properties *)

Lemma wf_sorted v : wf_sparse v -> sorted_from 0 (0 + Z.of_nat (Z.to_nat (sv_dim v))) (sv_elems v).
Proof. intros (Hd & Hs & _). by replace (0 + Z.of_nat (Z.to_nat (sv_dim v))) with (sv_dim v) by lia. Qed.

Lemma CheckExpectedDim_any dim : CheckExpectedDim (-1) dim = Ok tt.
Proof. done. Qed.

(** The error on different dimensions is that of the dense vectors. *)
Lemma sparse_CheckDims_dense a b : wf_sparse a -> wf_sparse b -> sparse_CheckDims a b = CheckDims (dense_of a) (dense_of b).
Proof. intros Ha Hb. unfold sparse_CheckDims, CheckDims. by rewrite !zlen_dense_of. Qed.

Lemma CheckDims_ok a b : wf_sparse a -> wf_sparse b -> CheckDims (dense_of a) (dense_of b) = Ok tt -> sv_dim a = sv_dim b.
Proof. intros Ha Hb. unfold CheckDims. rewrite !zlen_dense_of by done. by destruct (Z.eqb_spec (sv_dim a) (sv_dim b)). Qed.


(** C33: Comparing sparse vectors by their stored elements is comparing the
    dense vectors they stand for, also of different dimensions. *)
Theorem sparse_order_is_dense_order a b : wf_sparse a -> wf_sparse b ->
  sparsevec_cmp_internal a b = vector_cmp_internal (dense_of a) (dense_of b).
Proof.
  intros (Da & Sa & Ga) (Db & Sb & Gb). apply cmp_dense; [lia|lia|done..].
Qed.

(** A sparse vector that fits a dense one survives the way through it, and
    a dense vector comes back from the sparse one with its negative zeros made
    positive. *)
Theorem sparse_dense_roundtrip v x : wf_sparse v -> sv_dim v <= VECTOR_MAX_DIM -> wf_vector x ->
  (sparsevec_to_vector v (-1) = Ok (dense_of v) /\ wf_vector (dense_of v) /\ vector_to_sparsevec (dense_of v) (-1) = Ok v) /\
  (exists s, vector_to_sparsevec x (-1) = Ok s /\ wf_sparse s /\ sparsevec_to_vector s (-1) = Ok (positive_zero <$> x)).
Proof.
  intros Hv Hfit [Hlen Hx]. assert (Hto : forall v, wf_sparse v -> sv_dim v <= VECTOR_MAX_DIM -> sparsevec_to_vector v (-1) = Ok (dense_of v)).
  { clear. intros v Hv Hd. pose proof (wf_sorted _ Hv) as Hs. destruct Hv as (Hd1 & _ & _). unfold sparsevec_to_vector, CheckDim.
    destruct (Z.ltb_spec (sv_dim v) 1); [lia|]. destruct (Z.ltb_spec VECTOR_MAX_DIM (sv_dim v)); [lia|]. cbn [mbind res_bind].
    rewrite CheckExpectedDim_any. exact (f_equal Ok (store_dense _ [] _ Hs)). }
  unfold VECTOR_MAX_DIM in *. split.
  - pose proof (zlen_dense_of v Hv) as Hz. pose proof (wf_sorted _ Hv) as Hs. destruct Hv as (Hd & Hso & Hg). split_and!; [by apply Hto| |].
    + split; [unfold VECTOR_MAX_DIM; lia|]. by apply dense_finite.
    + unfold vector_to_sparsevec, sparse_CheckDim, SPARSEVEC_MAX_DIM in *. rewrite Hz. destruct (Z.ltb_spec (sv_dim v) 1); [lia|].
      destruct (Z.ltb_spec 1000000000 (sv_dim v)); [lia|]. cbn [mbind res_bind].
      rewrite CheckExpectedDim_any. cbn [mbind res_bind]. unfold dense_of. rewrite nonzero_dense by done. by destruct v.
  - set (s := {| sv_dim := zlen x; sv_elems := nonzero_from 0 x |}).
    assert (Hs : wf_sparse s).
    { split_and!; cbn; [unfold SPARSEVEC_MAX_DIM; lia|unfold SPARSEVEC_MAX_DIM; lia|apply nonzero_from_sorted; lia|by apply nonzero_from_good]. }
    exists s. split_and!; [|done|].
    + unfold vector_to_sparsevec, sparse_CheckDim, SPARSEVEC_MAX_DIM. destruct (Z.ltb_spec (zlen x) 1); [lia|]. by destruct (Z.ltb_spec 1000000000 (zlen x)); [lia|].
    + rewrite (Hto s Hs) by (cbn; lia). f_equal. unfold dense_of. cbn. unfold zlen. rewrite Nat2Z.id. apply dense_nonzero.
Qed.

(** Whatever the text, reading it ends: in a well-formed sparse vector of
    at most 16,000 elements, its indices ascending and below its dimension, its
    values finite and not zero, or in an error raised to the user. *)
Theorem sparsevec_in_total strtol strtof qsort lit typmod :
  strtol_consumes strtol -> strtof_consumes strtof -> qsort_permutes qsort ->
  match sparsevec_in strtol strtof qsort lit typmod with
  | Ok v => wf_sparse v /\ nnz v <= SPARSEVEC_MAX_NNZ /\ (typmod = -1 \/ typmod = sv_dim v)
  | Error e => e = ElogError
  end.
Proof.
  intros Hl Hf Hq. unfold sparsevec_in. cbv zeta. destruct (Z.ltb_spec SPARSEVEC_MAX_NNZ (1 + commas lit)) as [|Hmax]; [done|].
  destruct (next_is "{" (skip_space lit)) as [pt|]; [|done]. set (parsed := match next_is "}" _ with Some _ => _ | None => _ end).
  assert (Hparsed : match parsed with
    | Ok (x, _) => Forall (fun e => good_value e.2) x /\ zlen x <= 1 + commas lit | Error e => e = ElogError end).
  { unfold parsed. pose proof (commas_nonneg lit). destruct (next_is "}" (skip_space pt)); [split; [done|rewrite zlen_nil; lia]|].
    apply sparsevec_in_loop_total; [done|done|lia|done|rewrite zlen_nil; lia]. }
  destruct parsed as [[x pt']|e]; [|done]. cbn [mbind res_bind]. destruct Hparsed as [Hx Hn].
  destruct (next_is "/" (skip_space pt')) as [pt2|]; [|done]. destruct (strtol _) as [[dim r]|]; [|done]. destruct (skip_space r); [|done].
  set (d := if INT_MAX <? dim then _ else _). clearbody d. unfold sparse_CheckDim. destruct (Z.ltb_spec d 1); [done|]. destruct (Z.ltb_spec SPARSEVEC_MAX_DIM d); [done|].
  cbn [mbind res_bind]. destruct (CheckExpectedDim typmod d) as [[]|e] eqn:Et; cbn [mbind res_bind];
    [|unfold CheckExpectedDim in Et; destruct (_ && _); [by injection Et|done]].
  destruct (check_indices None (qsort x) d) as [[]|e] eqn:Ei; cbn [mbind res_bind]; [|by eapply check_indices_error].
  split_and!; [split_and!; cbn; [done|done|by apply (check_indices_sorted (qsort x) d None)|by rewrite (Hq x)]| |].
  - unfold nnz. cbn. unfold zlen in *. rewrite (Hq x). lia.
  - unfold CheckExpectedDim in Et. destruct (Z.eqb_spec typmod (-1)); [by left|]. destruct (Z.eqb_spec typmod d); [by right|done].
Qed.

(** A sparse vector of at most 16,000 elements survives printing and
    reading. *)
Theorem sparsevec_text_roundtrip strtol strtof pg_ltoa shortest qsort v typmod :
  wf_sparse v -> nnz v <= SPARSEVEC_MAX_NNZ -> qsort_sorts qsort ->
  prints_index_ok strtol pg_ltoa (sv_dim v) -> Forall (prints_elem_ok strtol strtof pg_ltoa shortest) (sv_elems v) ->
  typmod = -1 \/ typmod = sv_dim v ->
  sparsevec_in strtol strtof qsort (sparsevec_out pg_ltoa shortest v) typmod = Ok v.
Proof.
  intros (Hd & Hs & Hg) Hn Hq Hpd Hp Ht. destruct v as [dim l]. cbn [sv_dim sv_elems nnz] in *. unfold nnz in Hn. cbn in Hn.
  unfold SPARSEVEC_MAX_DIM, SPARSEVEC_MAX_NNZ in *. unfold sparsevec_in, sparsevec_out. cbn [sv_dim sv_elems]. set (tail := String "/" (pg_ltoa dim)).
  destruct Hpd as ((ch & t & Eh & Hsp & _) & Hc0 & Hl). cbv zeta.
  assert (Hcommas := commas_text _ _ _ _ l dim Hc0 Hp). fold tail in Hcommas.
  rewrite Hcommas. unfold SPARSEVEC_MAX_NNZ. destruct (Z.ltb_spec 16000 (1 + Z.max 0 (zlen l - 1))); [lia|].
  cbn [skip_space]. change (vector_isspace "{") with false. cbv iota. rewrite next_is_here.
  set (parsed := match next_is "}" _ with Some _ => _ | None => _ end).
  assert (Eparsed : parsed = Ok (l, tail)) by (eapply parse_elems; [exact Hs|unfold SPARSEVEC_MAX_DIM; lia|lia|done|done]).
  rewrite Eparsed. cbn [mbind res_bind]. unfold tail. cbn [skip_space]. change (vector_isspace "/") with false. cbv iota. rewrite next_is_here.
  assert (Edim : skip_space (pg_ltoa dim) = pg_ltoa dim) by (rewrite Eh; cbn [skip_space]; by rewrite Hsp).
  assert (Eapp : forall s, s +:+ "" = s) by (intros s; induction s as [|c s IH]; [done|by rewrite string_app_cons, IH]).
  specialize (Hl "" ltac:(by left)). rewrite Eapp in Hl. rewrite Edim, Hl. cbn [skip_space].
  unfold INT_MAX, INT_MIN, sparse_CheckDim, SPARSEVEC_MAX_DIM. destruct (Z.ltb_spec (2 ^ 31 - 1) dim); [lia|]. destruct (Z.ltb_spec dim (- 2 ^ 31)); [lia|].
  destruct (Z.ltb_spec dim 1); [lia|]. destruct (Z.ltb_spec 1000000000 dim); [lia|]. cbn [mbind res_bind].
  assert (Et : CheckExpectedDim typmod dim = Ok tt) by (unfold CheckExpectedDim; destruct Ht as [->| ->]; [done|by rewrite Z.eqb_refl, andb_false_r]).
  rewrite Et. cbn [mbind res_bind]. rewrite (qsort_sorted _ _ _ Hq Hs), (check_indices_ok l dim 0 None) by (done || lia). done.
Qed.

(** C37: The cast from an array does not check the number of elements: an array
    of more than 16,000 numbers, none zero, becomes a sparse vector whose text
    the type's own input function refuses, so that a dump of it cannot be
    restored. *)
Theorem large_sparsevec_unreadable strtol strtof pg_ltoa shortest qsort {numeric} (numeric_float4 : numeric -> float) vs typmod :
  SPARSEVEC_MAX_NNZ < zlen vs <= SPARSEVEC_MAX_DIM -> Forall good_value vs ->
  exists v, array_to_sparsevec numeric_float4 1 (FLOAT4OID (Some <$> vs)) (-1) = Ok v /\ wf_sparse v /\ nnz v = zlen vs /\
    sparsevec_in strtol strtof qsort (sparsevec_out pg_ltoa shortest v) typmod = Error ElogError.
Proof.
  intros Hlen Hg. set (v := {| sv_dim := zlen vs; sv_elems := nonzero_from 0 vs |}).
  assert (Hnz : forall i, zlen (nonzero_from i vs) = zlen vs).
  { clear -Hg. induction Hg as [|x l [_ Hx] Hl IH]; intros i; [done|]. cbn [nonzero_from]. by rewrite Hx, !zlen_cons, IH. }
  assert (Hfilter : filter (fun v => negb (is_zero v) = true) vs = vs).
  { clear -Hg. induction Hg as [|x l [_ Hx] Hl IH]; [done|]. rewrite filter_cons_True by (by rewrite Hx). by rewrite IH. }
  assert (Hbad : existsb (fun e : elem => is_nan e.2 || is_inf e.2) (nonzero_from 0 vs) = false).
  { assert (Hf : Forall (fun v => finite v = true) vs) by (eapply Forall_impl; [exact Hg|]; by intros x []).
    clear -Hf. pose proof (nonzero_from_good 0 vs Hf) as H. induction H as [|e l [He _] Hl IH]; [done|]. cbn. rewrite IH.
    unfold finite in He. by destruct (is_nan e.2), (is_inf e.2). }
  unfold SPARSEVEC_MAX_NNZ, SPARSEVEC_MAX_DIM in Hlen. exists v. split_and!.
  - unfold array_to_sparsevec. cbn [Z.ltb Z.compare Pos.compare Pos.compare_cont array_values nelems].
    assert (Hm : mapM id (Some <$> vs) = Some vs) by (clear; induction vs as [|x l IH]; [done|]; cbn; by rewrite IH).
    rewrite Hm, zlen_fmap. unfold sparse_CheckDim, SPARSEVEC_MAX_DIM. destruct (Z.ltb_spec (zlen vs) 1); [lia|]. destruct (Z.ltb_spec 1000000000 (zlen vs)); [lia|].
    cbn [mbind res_bind]. rewrite CheckExpectedDim_any. cbn [mbind res_bind]. rewrite Hfilter, Hnz, Z.ltb_irrefl, Z.eqb_refl, Hbad. done.
  - split_and!; cbn; [lia|unfold SPARSEVEC_MAX_DIM; lia|apply nonzero_from_sorted; lia|].
    apply nonzero_from_good. eapply Forall_impl; [exact Hg|]. by intros x [].
  - apply Hnz.
  - unfold sparsevec_in. cbv zeta. pose proof (commas_out pg_ltoa shortest v) as Hc. unfold nnz in Hc. cbn [sv_elems v] in Hc. rewrite Hnz in Hc.
    unfold SPARSEVEC_MAX_NNZ. by destruct (Z.ltb_spec 16000 (1 + commas (sparsevec_out pg_ltoa shortest v))); [|lia].
Qed.

(** ** Runs *)

Module SparseRuns.
Definition strtol (s : string) : option (Z * string) :=
  match s with String "1" r => Some (1, r) | String "3" r => Some (3, r) | _ => None end.
Definition pg_ltoa (z : Z) : string := if z =? 1 then "1" else "3".
Definition by_index (e f : elem) : Prop := e.1 <= f.1.
#[global] Instance by_index_dec : RelDecision by_index := fun e f => Z_le_dec e.1 f.1.
#[global] Instance by_index_total : Total by_index := fun e f => Z.le_ge_cases e.1 f.1.
#[global] Instance by_index_trans : Transitive by_index := fun e f g => Z.le_trans e.1 f.1 g.1.
Definition qsort : list elem -> list elem := merge_sort by_index.

Definition one_of_three : SparseVector := {| sv_dim := 3; sv_elems := [(0, VectorRuns.one)] |}.
Definition two_of_three : SparseVector := {| sv_dim := 3; sv_elems := [(0, VectorRuns.minus_two); (2, VectorRuns.one)] |}.

Lemma one_wf : wf_sparse one_of_three.
Proof. split_and!; [done|done|cbn; lia|by repeat constructor]. Qed.
Lemma two_wf : wf_sparse two_of_three.
Proof. split_and!; [done|done|cbn; lia|by repeat constructor]. Qed.
Lemma qsort_ok : qsort_sorts qsort.
Proof. intros l. split; [apply merge_sort_Permutation|]. exact (StronglySorted_merge_sort by_index l). Qed.
Lemma strtol_ok : strtol_consumes strtol.
Proof.
  intros s z r. unfold strtol. destruct s as [|c s]; [done|]. destruct c as [[] [] [] [] [] [] [] []]; try done; intros [= _ <-]; cbn; lia.
Qed.
Lemma strtof_ok : strtof_consumes VectorRuns.strtof.
Proof.
  intros s v erange r. unfold VectorRuns.strtof. destruct s as [|c s]; [done|].
  destruct c as [[] [] [] [] [] [] [] []]; try done; [destruct s as [|c s]; [done|]; destruct c as [[] [] [] [] [] [] [] []]; try done|];
    intros [= _ _ <-]; cbn; lia.
Qed.
End SparseRuns.


Lemma sparse_order_is_dense_order_witness :
  vector_cmp_internal (dense_of SparseRuns.one_of_three) (dense_of SparseRuns.two_of_three) = 1.
Proof. rewrite <-(sparse_order_is_dense_order _ _ SparseRuns.one_wf SparseRuns.two_wf). vm_compute. reflexivity. Defined.

Lemma sparse_dense_roundtrip_witness : vector_to_sparsevec (dense_of SparseRuns.two_of_three) (-1) = Ok SparseRuns.two_of_three.
Proof.
  apply (sparse_dense_roundtrip SparseRuns.two_of_three [VectorRuns.one] SparseRuns.two_wf); [vm_compute; discriminate|].
  split; [vm_compute; split; discriminate|repeat constructor].
Defined.

Lemma sparsevec_in_total_witness :
  match sparsevec_in SparseRuns.strtol VectorRuns.strtof SparseRuns.qsort "{3:1,1:-2}/3" (-1) with
  | Ok v => wf_sparse v /\ nnz v <= SPARSEVEC_MAX_NNZ /\ (-1 = -1 \/ -1 = sv_dim v)
  | Error e => e = ElogError
  end.
Proof. apply sparsevec_in_total; [exact SparseRuns.strtol_ok|exact SparseRuns.strtof_ok|intros l; apply SparseRuns.qsort_ok]. Defined.

Lemma sparsevec_text_roundtrip_witness :
  sparsevec_in SparseRuns.strtol VectorRuns.strtof SparseRuns.qsort
    (sparsevec_out SparseRuns.pg_ltoa VectorRuns.shortest SparseRuns.two_of_three) 3 = Ok SparseRuns.two_of_three.
Proof.
  apply sparsevec_text_roundtrip; [exact SparseRuns.two_wf|vm_compute; discriminate|exact SparseRuns.qsort_ok| | |by right].
  - split_and!; [by eexists _, _|reflexivity|]. reflexivity.
  - repeat constructor; first [by eexists _, _; split_and!|reflexivity|intros; reflexivity].
Defined.

Lemma large_sparsevec_unreadable_witness :
  exists v, array_to_sparsevec (fun x : float => x) 1 (FLOAT4OID (Some <$> replicate (Z.to_nat 16001) VectorRuns.one)) (-1) = Ok v /\
    wf_sparse v /\ nnz v = zlen (replicate (Z.to_nat 16001) VectorRuns.one) /\
    sparsevec_in SparseRuns.strtol VectorRuns.strtof SparseRuns.qsort (sparsevec_out SparseRuns.pg_ltoa VectorRuns.shortest v) (-1) = Error ElogError.
Proof.
  apply (large_sparsevec_unreadable SparseRuns.strtol VectorRuns.strtof SparseRuns.pg_ltoa VectorRuns.shortest SparseRuns.qsort (fun x : float => x)).
  - unfold zlen. rewrite length_replicate, Z2Nat.id by lia. unfold SPARSEVEC_MAX_NNZ, SPARSEVEC_MAX_DIM. lia.
  - apply Forall_replicate. by split.
Defined.
