(* ===== verification/BitVector.v ===== *)
(** Bit vectors (bitvec.c, bitutils.c) and the quantisation of a vector to its
    signs (vector.c).

    A bit string is its length in bits and its bytes, the first bit the highest
    of the first byte.  The population counts (compiler built-ins, PostgreSQL's
    table) are arguments. *)

From Stdlib Require Import SpecFloat.
From S2P Require Import Prelude DenseVector.
#[local] Open Scope Z_scope.

Record VarBit := { vb_len : Z; vb_bytes : list Z }.

Definition bits_CheckDims (a b : VarBit) : res unit := if negb (vb_len a =? vb_len b) then Error ElogError else Ok tt.

(** The [uint64] in eight bytes, the first the lowest. *)
Fixpoint word (l : list Z) : Z := match l with [] => 0 | x :: l => Z.lor x (Z.shiftl (word l) 8) end.

(** ** Distances *)

Section counts.
Context (popcount64 pg_number_of_ones : Z -> Z).

(** The bytes that are left. *)
Definition hamming_tail (ax bx : list Z) (distance : Z) : Z :=
  foldl (fun distance p => u64 (distance + pg_number_of_ones (Z.lxor p.1 p.2))) distance (zip ax bx).

(** [n] words of eight bytes, then the rest. *)
Fixpoint hamming_words (n : nat) (ax bx : list Z) (distance : Z) : Z :=
  match n with
  | O => hamming_tail ax bx distance
  | S n => hamming_words n (drop 8 ax) (drop 8 bx) (u64 (distance + popcount64 (Z.lxor (word (take 8 ax)) (word (take 8 bx)))))
  end.

Definition BitHammingDistanceDefault (bytes : Z) (ax bx : list Z) (distance : Z) : Z :=
  hamming_words (Z.to_nat (bytes / 8)) ax bx distance.

(** The eight lanes of a 512-bit register. *)
Fixpoint lanes (n : nat) (l : list Z) : list Z :=
  match n with O => [] | S n => word (take 8 l) :: lanes n (drop 8 l) end.

Fixpoint avx512_loop (n : nat) (ax bx dist : list Z) : list Z * list Z * list Z :=
  match n with
  | O => (ax, bx, dist)
  | S n =>
      let counts := popcount64 <$> zip_with Z.lxor (lanes 8 ax) (lanes 8 bx) in
      avx512_loop n (drop 64 ax) (drop 64 bx) (zip_with (fun d c => u64 (d + c)) dist counts)
  end.

Definition BitHammingDistanceAvx512Popcount (bytes : Z) (ax bx : list Z) (distance : Z) : Z :=
  let '(ax, bx, dist) := avx512_loop (Z.to_nat (bytes / 64)) ax bx (replicate 8 0) in
  BitHammingDistanceDefault (bytes mod 64) ax bx (u64 (distance + foldl (fun s d => u64 (s + d)) 0 dist)).

(** [BitHammingDistance] is the one or the other, as [BitvecInit] found the
    processor. *)
Definition BitHammingDistance (avx512 : bool) : Z -> list Z -> list Z -> Z -> Z :=
  if avx512 then BitHammingDistanceAvx512Popcount else BitHammingDistanceDefault.

Definition hamming_distance (avx512 : bool) (a b : VarBit) : res Z :=
  _ ← bits_CheckDims a b;
  Ok (BitHammingDistance avx512 (zlen (vb_bytes a)) (vb_bytes a) (vb_bytes b) 0).
End counts.

(** ** Quantisation *)

Definition is_positive (x : float) : bool := SFltb fzero x.

(** [result_byte |= (x > 0) << (7 - j)] for the positions from [j]. *)
Fixpoint pack (l : list float) (j byte : Z) : Z :=
  match l with
  | [] => byte
  | x :: l => pack l (j + 1) (Z.lor byte (Z.shiftl (Z.b2z (is_positive x)) (7 - j)))
  end.

(** [n] full bytes, then the bits of the last one, if any, in the byte
    [palloc0] cleared. *)
Fixpoint quantize_bytes (n : nat) (ax : list float) : list Z :=
  match n with
  | O => match ax with [] => [] | _ => [pack ax 0 0] end
  | S n => pack (take 8 ax) 0 0 :: quantize_bytes n (drop 8 ax)
  end.

Definition binary_quantize (a : list float) : VarBit :=
  {| vb_len := zlen a; vb_bytes := quantize_bytes (Z.to_nat (zlen a / 8)) a |}.

(** ** Counting bits *)

Fixpoint popcount (w : nat) (x : Z) : Z :=
  match w with O => 0 | S w => popcount w x + Z.b2z (Z.testbit x (Z.of_nat w)) end.

(** The ones of a list of bytes. *)
Definition ones (l : list Z) : Z := foldr (fun x s => popcount 8 x + s) 0 l.
Definition is_byte (x : Z) : Prop := 0 <= x < 256.
Definition xor_bytes (ax bx : list Z) : list Z := zip_with Z.lxor ax bx.

Lemma popcount_add u w x : popcount (u + w) x = popcount u x + popcount w (Z.shiftr x (Z.of_nat u)).
Proof.
  induction w as [|w IH]; [rewrite Nat.add_0_r; cbn; lia|]. rewrite Nat.add_succ_r. cbn [popcount]. rewrite IH, Z.shiftr_spec by lia.
  replace (Z.of_nat (u + w)) with (Z.of_nat w + Z.of_nat u) by lia. lia.
Qed.

Lemma popcount_ext w x y : (forall i, 0 <= i < Z.of_nat w -> Z.testbit x i = Z.testbit y i) -> popcount w x = popcount w y.
Proof. induction w as [|w IH]; intros H; [done|]. cbn [popcount]. rewrite IH, H by (try intros; try apply H; lia). done. Qed.

Lemma popcount_range w x : 0 <= popcount w x <= Z.of_nat w.
Proof. induction w as [|w IH]; cbn [popcount]; [lia|]. destruct (Z.testbit x _); cbn [Z.b2z]; lia. Qed.

Lemma byte_high x n : is_byte x -> 8 <= n -> Z.testbit x n = false.
Proof.
  intros Hx Hn. unfold is_byte in Hx. destruct (decide (x = 0)) as [->|]; [apply Z.bits_0|]. apply Z.bits_above_log2; [lia|].
  assert (Z.log2 x < 8) by (apply Z.log2_lt_pow2; lia). lia.
Qed.

Lemma is_byte_lxor x y : is_byte x -> is_byte y -> is_byte (Z.lxor x y).
Proof.
  intros Hx Hy. unfold is_byte. split; [apply Z.lxor_nonneg; unfold is_byte in *; lia|].
  destruct (Z.ltb_spec (Z.lxor x y) 256) as [|Hge]; [done|]. exfalso.
  assert (Hpos : 0 < Z.lxor x y) by lia. pose proof (Z.bit_log2 _ Hpos) as Hb. assert (8 <= Z.log2 (Z.lxor x y)) by (change 8 with (Z.log2 256); by apply Z.log2_le_mono).
  rewrite Z.lxor_spec, !byte_high in Hb by done. done.
Qed.

Lemma word_lxor ax : forall bx, length ax = length bx -> Forall is_byte ax -> Forall is_byte bx ->
  Z.lxor (word ax) (word bx) = word (xor_bytes ax bx).
Proof.
  induction ax as [|x ax IH]; intros [|y bx] Hlen Ha Hb; try done. apply Forall_cons in Ha as [Hx Ha], Hb as [Hy Hb]. unfold xor_bytes. cbn [word zip_with].
  fold (xor_bytes ax bx). rewrite <-IH by (done || (cbn in Hlen; lia)). apply Z.bits_inj'. intros n Hn.
  rewrite Z.lxor_spec, !Z.lor_spec, Z.lxor_spec, !Z.shiftl_spec, Z.lxor_spec by lia.
  destruct (Z.ltb_spec n 8).
  - rewrite !(Z.testbit_neg_r _ (n - 8)) by lia. by rewrite !orb_false_r.
  - by rewrite (byte_high x), (byte_high y) by done.
Qed.

Lemma popcount_word l : Forall is_byte l -> popcount (8 * length l) (word l) = ones l.
Proof.
  induction 1 as [|x l Hx Hl IH]; [done|]. cbn [length word ones foldr]. fold (ones l). rewrite Nat.mul_succ_r, Nat.add_comm, popcount_add, <-IH. f_equal.
  - apply popcount_ext. intros i Hi. rewrite Z.lor_spec, Z.shiftl_spec, (Z.testbit_neg_r _ (i - 8)) by lia. apply orb_false_r.
  - f_equal. apply Z.bits_inj'. intros n Hn. rewrite Z.shiftr_spec, Z.lor_spec, Z.shiftl_spec, (byte_high x) by (done || lia).
    cbn [orb]. f_equal. lia.
Qed.

Lemma ones_app l k : ones (l ++ k) = ones l + ones k.
Proof. induction l as [|x l IH]; [done|]. cbn [app ones foldr]. fold (ones (l ++ k)). fold (ones l). lia. Qed.

Lemma ones_split n l : ones l = ones (take n l) + ones (drop n l).
Proof. by rewrite <-ones_app, take_drop. Qed.

Lemma ones_range l : 0 <= ones l <= 8 * zlen l.
Proof.
  induction l as [|x l IH]; [done|]. rewrite zlen_cons. cbn [ones foldr]. fold (ones l). pose proof (popcount_range 8 x). lia.
Qed.

Lemma u64_add_l a b : u64 (u64 a + b) = u64 (a + b).
Proof. unfold u64. by rewrite Z.add_mod_idemp_l by lia. Qed.
Lemma u64_small a : 0 <= a < 2 ^ 64 -> u64 a = a.
Proof. intros. by apply Z.mod_small. Qed.

Section counts_ok.
Context (popcount64 pg_number_of_ones : Z -> Z).

(** What the population counts are documented to be. *)
Definition counts_ok : Prop :=
  (forall x, is_byte x -> pg_number_of_ones x = popcount 8 x) /\ (forall x, 0 <= x -> popcount64 x = popcount 64 x).
Context (Hcounts : counts_ok).

(** Two byte strings of one length. *)
Definition byte_pair (ax bx : list Z) : Prop := length ax = length bx /\ Forall is_byte ax /\ Forall is_byte bx.

Lemma byte_pair_drop n ax bx : byte_pair ax bx -> byte_pair (drop n ax) (drop n bx).
Proof. intros (Hl & Ha & Hb). split_and!; [by rewrite !length_drop, Hl|by apply Forall_drop..]. Qed.
Lemma byte_pair_take n ax bx : byte_pair ax bx -> byte_pair (take n ax) (take n bx).
Proof. intros (Hl & Ha & Hb). split_and!; [by rewrite !length_take, Hl|by apply Forall_take..]. Qed.
Lemma byte_pair_xor ax bx : byte_pair ax bx -> Forall is_byte (xor_bytes ax bx).
Proof.
  intros (Hl & Ha & Hb). revert bx Hl Hb. unfold xor_bytes.
  induction Ha as [|x ax Hx Ha IH]; intros [|y bx] Hl Hb; cbn; try constructor; apply Forall_cons in Hb as [Hy Hb]; [by apply is_byte_lxor|].
  apply IH; [by injection Hl|done].
Qed.
Lemma xor_bytes_length ax bx : byte_pair ax bx -> length (xor_bytes ax bx) = length ax.
Proof. intros (Hl & _). unfold xor_bytes. rewrite length_zip_with. lia. Qed.

Lemma word_nonneg l : Forall is_byte l -> 0 <= word l.
Proof. induction 1 as [|x l Hx Hl IH]; cbn; [done|]. unfold is_byte in Hx. apply Z.lor_nonneg. split; [lia|by apply Z.shiftl_nonneg]. Qed.

(** One word counts the ones of its eight bytes. *)
Lemma popcount64_word ax bx : byte_pair ax bx -> (8 <= length ax)%nat ->
  popcount64 (Z.lxor (word (take 8 ax)) (word (take 8 bx))) = ones (take 8 (xor_bytes ax bx)).
Proof.
  intros Hp Hlen. pose proof (byte_pair_take 8 _ _ Hp) as Ht. destruct Ht as (Hl & Ha & Hb). rewrite word_lxor by done.
  destruct Hcounts as [_ H64]. rewrite H64 by (apply word_nonneg, byte_pair_xor; split_and!; done).
  unfold xor_bytes. rewrite zip_with_take. fold (xor_bytes (take 8 ax) (take 8 bx)). rewrite <-(popcount_word _ (byte_pair_xor _ _ (conj Hl (conj Ha Hb)))).
  rewrite xor_bytes_length by (by split_and!). rewrite length_take. by replace (8 * (8 `min` length ax))%nat with 64%nat by lia.
Qed.

Lemma hamming_tail_ok ax : forall bx d, byte_pair ax bx -> 0 <= d < 2 ^ 64 -> hamming_tail pg_number_of_ones ax bx d = u64 (d + ones (xor_bytes ax bx)).
Proof.
  induction ax as [|x ax IH]; intros [|y bx] d (Hl & Ha & Hb) Hd; try done.
  - unfold hamming_tail. cbn. by rewrite Z.add_0_r, u64_small.
  - apply Forall_cons in Ha as [Hx Ha], Hb as [Hy Hb]. destruct Hcounts as [H8 _].
    change (hamming_tail pg_number_of_ones (x :: ax) (y :: bx) d) with (hamming_tail pg_number_of_ones ax bx (u64 (d + pg_number_of_ones (Z.lxor x y)))).
    rewrite IH; [|split_and!; [by injection Hl|done..]|apply Z.mod_pos_bound; lia]. rewrite u64_add_l, H8 by (by apply is_byte_lxor).
    unfold xor_bytes. cbn [zip_with ones foldr]. fold (xor_bytes ax bx). fold (ones (xor_bytes ax bx)). f_equal. lia.
Qed.

Lemma xor_bytes_drop n ax bx : xor_bytes (drop n ax) (drop n bx) = drop n (xor_bytes ax bx).
Proof. unfold xor_bytes. by rewrite zip_with_drop. Qed.

Lemma hamming_words_ok n : forall ax bx d, byte_pair ax bx -> (8 * n <= length ax)%nat -> 0 <= d < 2 ^ 64 ->
  hamming_words popcount64 pg_number_of_ones n ax bx d = u64 (d + ones (xor_bytes ax bx)).
Proof.
  induction n as [|n IH]; intros ax bx d Hp Hlen Hd; cbn [hamming_words]; [by apply hamming_tail_ok|].
  rewrite IH; [|by apply byte_pair_drop|rewrite length_drop; lia|apply Z.mod_pos_bound; lia].
  rewrite u64_add_l, popcount64_word, xor_bytes_drop, (ones_split 8 (xor_bytes ax bx)) by (done || lia). f_equal. lia.
Qed.

Lemma hamming_default_ok ax bx d : byte_pair ax bx -> 0 <= d < 2 ^ 64 ->
  BitHammingDistanceDefault popcount64 pg_number_of_ones (zlen ax) ax bx d = u64 (d + ones (xor_bytes ax bx)).
Proof. intros Hp Hd. apply hamming_words_ok; [done| |done]. unfold zlen. Z.to_euclidean_division_equations; lia. Qed.

Definition sum (l : list Z) : Z := foldr Z.add 0 l.

Lemma lanes_ok n : forall ax bx, byte_pair ax bx -> (8 * n <= length ax)%nat ->
  sum (popcount64 <$> zip_with Z.lxor (lanes n ax) (lanes n bx)) = ones (take (8 * n) (xor_bytes ax bx)).
Proof.
  induction n as [|n IH]; intros ax bx Hp Hlen; [done|]. cbn [lanes zip_with fmap list_fmap sum foldr].
  fold (sum (popcount64 <$> zip_with Z.lxor (lanes n (drop 8 ax)) (lanes n (drop 8 bx)))).
  rewrite IH by (apply byte_pair_drop || rewrite ?length_drop; done || lia). rewrite popcount64_word, xor_bytes_drop by (done || lia).
  rewrite (ones_split 8 (take (8 * S n) _)), take_take, skipn_firstn_comm. by replace (8 `min` (8 * S n))%nat with 8%nat by lia; replace (8 * S n - 8)%nat with (8 * n)%nat by lia.
Qed.

Lemma lanes_length n : forall l, length (lanes n l) = n.
Proof. induction n as [|n IH]; intros l; [done|]. cbn. by rewrite IH. Qed.

Lemma sum_lanes dist counts : length dist = length counts -> u64 (sum (zip_with (fun d c => u64 (d + c)) dist counts)) = u64 (sum dist + sum counts).
Proof.
  revert counts. induction dist as [|d dist IH]; intros [|c counts] Hl; try done. cbn [zip_with sum foldr].
  fold (sum dist). fold (sum counts). fold (sum (zip_with (fun d c => u64 (d + c)) dist counts)). rewrite u64_add_l.
  rewrite (Z.add_comm (d + c)), <-u64_add_l, IH, u64_add_l by (by injection Hl). f_equal. lia.
Qed.

Lemma avx512_loop_ok n : forall ax bx dist, byte_pair ax bx -> (64 * n <= length ax)%nat -> length dist = 8%nat ->
  exists dist', avx512_loop popcount64 n ax bx dist = (drop (64 * n) ax, drop (64 * n) bx, dist') /\
    u64 (sum dist') = u64 (sum dist + ones (take (64 * n) (xor_bytes ax bx))).
Proof.
  induction n as [|n IH]; intros ax bx dist Hp Hlen Hd.
  - exists dist. cbn [avx512_loop]. rewrite Nat.mul_0_r, take_0, !drop_0. split; [done|]. by rewrite Z.add_0_r.
  - cbn [avx512_loop]. set (counts := popcount64 <$> _). assert (Hc : length counts = 8%nat) by (unfold counts; rewrite length_fmap, length_zip_with, !lanes_length; done).
    set (dist1 := zip_with _ dist counts). destruct (IH (drop 64 ax) (drop 64 bx) dist1) as (dist' & -> & Hs);
      [by apply byte_pair_drop|rewrite length_drop; lia|unfold dist1; rewrite length_zip_with; lia|].
    exists dist'. rewrite !drop_drop. split; [by replace (64 + 64 * n)%nat with (64 * S n)%nat by lia|]. rewrite Hs. unfold dist1.
    rewrite <-u64_add_l, sum_lanes, u64_add_l by lia. unfold counts. rewrite lanes_ok by (done || lia).
    rewrite xor_bytes_drop, (ones_split 64 (take (64 * S n) _)), take_take, skipn_firstn_comm.
    replace (64 `min` (64 * S n))%nat with 64%nat by lia. replace (64 * S n - 64)%nat with (64 * n)%nat by lia. change (8 * 8)%nat with 64%nat. f_equal. lia.
Qed.

Lemma reduce_ok dist : forall s, u64 (foldl (fun s d => u64 (s + d)) s dist) = u64 (s + sum dist).
Proof.
  induction dist as [|d dist IH]; intros s; cbn [foldl sum foldr]; [by rewrite Z.add_0_r|]. fold (sum dist). rewrite IH, u64_add_l. f_equal. lia.
Qed.

Lemma hamming_avx512_ok ax bx d : byte_pair ax bx -> 0 <= d < 2 ^ 64 ->
  BitHammingDistanceAvx512Popcount popcount64 pg_number_of_ones (zlen ax) ax bx d = u64 (d + ones (xor_bytes ax bx)).
Proof.
  intros Hp Hd. unfold BitHammingDistanceAvx512Popcount. set (n := Z.to_nat (zlen ax / 64)).
  assert (Hn : (64 * n <= length ax)%nat) by (unfold n, zlen; Z.to_euclidean_division_equations; lia).
  destruct (avx512_loop_ok n ax bx (replicate 8 0) Hp Hn eq_refl) as (dist & -> & Hs). change (sum (replicate 8 0)) with 0 in Hs.
  replace (zlen ax mod 64) with (zlen (drop (64 * n) ax)) by (unfold zlen; rewrite length_drop; unfold n, zlen; Z.to_euclidean_division_equations; lia).
  rewrite hamming_default_ok; [|by apply byte_pair_drop|apply Z.mod_pos_bound; lia]. rewrite u64_add_l.
  rewrite (Z.add_comm d), <-Z.add_assoc, <-u64_add_l, reduce_ok, u64_add_l, Z.add_0_l, <-u64_add_l, Hs, u64_add_l, Z.add_0_l, xor_bytes_drop.
  rewrite (ones_split (64 * n) (xor_bytes ax bx)). f_equal. lia.
Qed.
End counts_ok.

(** ** Quantisation *)

(** The elements of [a] and [b] that differ in sign, in this sense: one is
    above zero, the other is not. *)
Definition sign_changes (a b : list float) : Z :=
  foldr (fun p s => Z.b2z (xorb (is_positive p.1) (is_positive p.2)) + s) 0 (zip a b).

Lemma pack_bit l : forall j byte n, 0 <= n -> 0 <= j -> j + zlen l <= 8 ->
  Z.testbit (pack l j byte) n = Z.testbit byte n || match l !! (7 - n - j) with Some x => is_positive x | None => false end.
Proof.
  induction l as [|x l IH]; intros j byte n Hn Hj Hlen; cbn [pack].
  - destruct (([] : list float) !! (7 - n - j)) as [x|] eqn:E; [|by rewrite orb_false_r].
    apply zlookup_lt_Some in E. unfold zlen in E. cbn [length] in E. lia.
  - rewrite zlen_cons in Hlen. pose proof (zlen_nonneg l). rewrite IH by lia. rewrite Z.lor_spec, zlookup_cons, Z.shiftl_spec by lia.
    replace (7 - n - (j + 1)) with (7 - n - j - 1) by lia.
    destruct (Z.eqb_spec (7 - n - j) 0) as [E|E].
    + replace (n - (7 - j)) with 0 by lia. rewrite E, zlookup_neg by lia. rewrite Z.b2z_bit0. by destruct (Z.testbit byte n), (is_positive x).
    + assert (Hb : Z.testbit (Z.b2z (is_positive x)) (n - (7 - j)) = false); [|by rewrite Hb, orb_false_r].
      destruct (decide (n - (7 - j) < 0)); [by apply Z.testbit_neg_r|]. destruct (is_positive x); cbn [Z.b2z]; [|apply Z.bits_0].
      apply Z.bits_above_log2; [lia|]. cbn. lia.
Qed.

Lemma pack_byte l : zlen l <= 8 -> is_byte (pack l 0 0).
Proof.
  intros Hl. assert (H0 : 0 <= pack l 0 0).
  { enough (forall j b, 0 <= b -> 0 <= pack l j b) by auto with lia. clear. induction l as [|x l IH]; intros j b Hb; cbn; [done|].
    apply IH, Z.lor_nonneg. split; [done|]. apply Z.shiftl_nonneg. by destruct (is_positive x). }
  unfold is_byte. split; [done|]. destruct (Z.ltb_spec (pack l 0 0) 256) as [|Hge]; [done|]. exfalso.
  pose proof (Z.bit_log2 (pack l 0 0) ltac:(lia)) as Hb. assert (8 <= Z.log2 (pack l 0 0)) by (change 8 with (Z.log2 256); by apply Z.log2_le_mono).
  rewrite pack_bit, Z.bits_0, zlookup_neg in Hb by lia. done.
Qed.

(** A byte's worth of positions. *)
Lemma pack_changes xs ys : length xs = length ys -> zlen xs <= 8 -> popcount 8 (Z.lxor (pack xs 0 0) (pack ys 0 0)) = sign_changes xs ys.
Proof.
  intros Hl Hx. assert (Hy : zlen ys <= 8) by (unfold zlen in *; lia).
  cbn [popcount]. rewrite !Z.lxor_spec, !pack_bit by lia. rewrite !Z.bits_0. cbn [orb].
  repeat match goal with |- context [7 - Z.of_nat ?k - 0] => change (7 - Z.of_nat k - 0) with (Z.of_nat (7 - k)) end.
  rewrite !zlookup_nat. unfold sign_changes. unfold zlen in Hx. clear Hy.
  do 9 (destruct xs as [|? xs]; [destruct ys; [cbn; lia|done]|]; destruct ys as [|? ys]; [done|]; cbn [length] in Hx, Hl; try lia).
  all: cbn; lia.
Qed.

Lemma quantize_bytes_length n : forall a, n = Z.to_nat (zlen a / 8) -> zlen (quantize_bytes n a) = (zlen a + 7) / 8.
Proof.
  induction n as [|n IH]; intros a Hn; cbn [quantize_bytes].
  - destruct a as [|x a]; [done|]. pose proof (zlen_nonneg a).
    change (zlen [pack (x :: a) 0 0]) with 1. rewrite zlen_cons in *. Z.to_euclidean_division_equations; lia.
  - rewrite zlen_cons, IH by (unfold zlen in *; rewrite length_drop; Z.to_euclidean_division_equations; lia).
    unfold zlen in *. rewrite length_drop. Z.to_euclidean_division_equations; lia.
Qed.

Lemma quantize_bytes_byte n : forall a, n = Z.to_nat (zlen a / 8) -> Forall is_byte (quantize_bytes n a).
Proof.
  induction n as [|n IH]; intros a Hn; cbn [quantize_bytes].
  - destruct a as [|x a]; [done|]. constructor; [|done]. apply pack_byte. unfold zlen in *. Z.to_euclidean_division_equations; lia.
  - constructor; [apply pack_byte; unfold zlen; rewrite length_take; lia|]. apply IH. unfold zlen in *. rewrite length_drop. Z.to_euclidean_division_equations; lia.
Qed.

Lemma sign_changes_split a b : sign_changes a b = sign_changes (take 8 a) (take 8 b) + sign_changes (drop 8 a) (drop 8 b).
Proof.
  unfold sign_changes. rewrite <-(zip_with_take pair), <-(zip_with_drop pair). generalize (zip a b). intros l.
  rewrite <-(take_drop 8 l) at 1. rewrite foldr_app. induction (take 8 l) as [|p k IH]; [done|]. cbn [foldr]. rewrite IH. lia.
Qed.

Lemma quantize_changes n : forall a b, length a = length b -> n = Z.to_nat (zlen a / 8) ->
  ones (xor_bytes (quantize_bytes n a) (quantize_bytes n b)) = sign_changes a b.
Proof.
  induction n as [|n IH]; intros a b Hl Hn; cbn [quantize_bytes].
  - destruct a as [|x a], b as [|y b]; try done. unfold xor_bytes. cbn [zip_with ones foldr]. rewrite Z.add_0_r.
    apply pack_changes; [done|]. unfold zlen in *. Z.to_euclidean_division_equations; lia.
  - unfold xor_bytes. cbn [zip_with ones foldr]. fold (xor_bytes (quantize_bytes n (drop 8 a)) (quantize_bytes n (drop 8 b))).
    fold (ones (xor_bytes (quantize_bytes n (drop 8 a)) (quantize_bytes n (drop 8 b)))).
    rewrite IH by (unfold zlen in *; rewrite ?length_drop; Z.to_euclidean_division_equations; lia).
    rewrite (sign_changes_split a b), pack_changes; [done|by rewrite !length_take, Hl|unfold zlen; rewrite length_take; lia].
Qed.

(** ** Properties *)

Definition wf_bits (v : VarBit) : Prop :=
  0 <= vb_len v < 2 ^ 31 /\ zlen (vb_bytes v) = (vb_len v + 7) / 8 /\ Forall is_byte (vb_bytes v).

Lemma hamming_distance_ok p64 ones8 avx512 a b : counts_ok p64 ones8 -> wf_bits a -> wf_bits b ->
  hamming_distance p64 ones8 avx512 a b =
    if decide (vb_len a = vb_len b) then Ok (ones (xor_bytes (vb_bytes a) (vb_bytes b))) else Error ElogError.
Proof.
  intros Hc (Ha & La & Ba) (Hb & Lb & Bb). unfold hamming_distance, bits_CheckDims. destruct (Z.eqb_spec (vb_len a) (vb_len b)) as [E|E];
    [rewrite decide_True by done|by rewrite decide_False by done]. cbn [negb mbind res_bind]. f_equal.
  assert (Hp : byte_pair (vb_bytes a) (vb_bytes b)) by (split_and!; [rewrite E in La; unfold zlen in *; lia|done|done]).
  assert (Hr : 0 <= ones (xor_bytes (vb_bytes a) (vb_bytes b)) < 2 ^ 64).
  { pose proof (ones_range (xor_bytes (vb_bytes a) (vb_bytes b))) as Hr. unfold zlen in Hr, La. rewrite (xor_bytes_length _ _ Hp) in Hr.
    Z.to_euclidean_division_equations; lia. }
  destruct avx512; cbn [BitHammingDistance]; [rewrite hamming_avx512_ok by done|rewrite hamming_default_ok by done]; by rewrite Z.add_0_l, u64_small.
Qed.

(** Whichever implementation the processor selects, eight bytes or
    sixty-four at a time, the Hamming distance is the number of bits that
    differ; bit strings of different lengths raise an error. *)
Theorem hamming_counts_bits p64 ones8 avx512 a b : counts_ok p64 ones8 -> wf_bits a -> wf_bits b ->
  hamming_distance p64 ones8 avx512 a b =
    if decide (vb_len a = vb_len b) then Ok (ones (xor_bytes (vb_bytes a) (vb_bytes b))) else Error ElogError.
Proof. apply hamming_distance_ok. Qed.

Lemma binary_quantize_wf a : wf_vector a -> wf_bits (binary_quantize a).
Proof.
  intros [Hl _]. unfold VECTOR_MAX_DIM in Hl. split_and!; cbn; [lia|lia|by apply quantize_bytes_length|by apply quantize_bytes_byte].
Qed.

(** C36: The Hamming distance of two quantised vectors is the number of
    positions where one is above zero and the other is not. *)
Theorem quantized_hamming_counts_signs p64 ones8 avx512 a b : counts_ok p64 ones8 -> wf_vector a -> wf_vector b -> zlen a = zlen b ->
  hamming_distance p64 ones8 avx512 (binary_quantize a) (binary_quantize b) = Ok (sign_changes a b).
Proof.
  intros Hc Ha Hb E. rewrite hamming_distance_ok by (done || by apply binary_quantize_wf). cbn [binary_quantize vb_len vb_bytes].
  rewrite decide_True by done. rewrite <-E. f_equal. apply quantize_changes; [unfold zlen in E; lia|done].
Qed.

Lemma hamming_counts_bits_witness :
  hamming_distance (popcount 64) (popcount 8) true {| vb_len := 3; vb_bytes := [160] |} {| vb_len := 3; vb_bytes := [64] |} = Ok 3.
Proof.
  assert (W : forall x, is_byte x -> wf_bits {| vb_len := 3; vb_bytes := [x] |}) by (intros x Hx; split_and!; [done|done|done|by constructor]).
  apply (hamming_counts_bits (popcount 64) (popcount 8) true); [by split|apply W; done|apply W; done].
Defined.

Lemma quantized_hamming_counts_signs_witness :
  hamming_distance (popcount 64) (popcount 8) false (binary_quantize [VectorRuns.one; VectorRuns.minus_two])
    (binary_quantize [VectorRuns.minus_two; VectorRuns.minus_two]) = Ok 1.
Proof.
  assert (W : forall x, finite x = true -> wf_vector [x; VectorRuns.minus_two]) by (intros x Hx; split; [done|by repeat constructor]).
  apply (quantized_hamming_counts_signs (popcount 64) (popcount 8) false); [by split|by apply W|by apply W|done].
Defined.
